(* ===== verification/_CoqProject ===== *)
-Q . S2P
Prelude.v
GoStrings.v
GoText.v
Digest.v
Errors.v
Backoff.v
Ident.v
Batch.v
Envelope.v
EnvelopeProofs.v
Inbox.v
InboxSQL.v
TerminalState.v
PgBackend.v
SqliteBackend.v
InboxSpec.v
InboxProps.v
InboxRefine.v
InboxEffects.v
InboxClosed.v
InboxPrune.v
PgRefine.v
SqliteRefine.v
InboxLocal.v
InboxBatch.v
InboxGroups.v
InboxBatchSpec.v
InboxBatchProps.v
InboxBatchRun.v
InboxBatchRefine.v
InboxBatchSteps.v
PgBatch.v
SqliteBatch.v
InboxStore.v
InboxTheorems.v
InboxBatchStore.v
InboxBatchTheorems.v
Middleware.v
Delivery.v
Route.v
Builder.v
Manifest.v
BuilderProofs.v
BuilderTheorems.v
Messenger.v
MessengerProofs.v
MessengerTheorems.v
KafkaTopic.v
KafkaControl.v
KafkaTopology.v
KafkaTransport.v
KafkaTransportProofs.v
KafkaConsumer.v
KafkaDelivery.v
KafkaReplay.v
KafkaScheduler.v
KafkaSchedulerProofs.v
KafkaWorker.v
KafkaBatch.v
KafkaBatchProofs.v
KafkaBatchSettlement.v
KafkaBatchTheorems.v
KafkaWitness.v
Runtime.v
LocalAsync.v
RuntimeInv.v
RuntimeResults.v
RuntimeReach.v
RuntimeTheorems.v
NatsDLQ.v
NatsSubject.v
NatsRoute.v
NatsTopology.v
NatsTopologyProofs.v
NatsConsumer.v
NatsDelivery.v
NatsBatch.v
NatsBatchPool.v
NatsBatchProofs.v
NatsWitness.v
