(* ===== verification/Prelude.v ===== *)
(** * GoMessenger: a verification development

    GoMessenger is a Go library for typed commands, events and queries that are
    handled in process or delivered through NATS JetStream or Kafka.  Durable
    consumers process a message under an _Inbox_: one database transaction that
    records the identity of the message, runs the host's handler on the business
    tables and closes the delivery.  This development models the parts of the
    library that decide what happens to a message: identifiers, errors and their
    classification, the envelope, batch results, the builder and the messenger
    with its routes, the Inbox store with its two SQL backends, the consumers of
    NATS and Kafka with their topology, retries and dead letters, and the runtime
    that supervises the consumers.

    ** The parts and the files

    - [Prelude] (this file): results in the Go convention, notations,
      automation, machine integers, list lemmas.
    - [GoStrings]: Go strings as byte strings: UTF-8, [strings.TrimSpace],
      hexadecimal text.  [GoText]: splitting, searching and decimal text.  [Digest]: the hash
      of [crypto/sha256], executable, tested on the standard's vectors, and
      [encoding/base64].
    - [Errors]: [src/errors.go], [src/failure.go], [Classify] and [IsFailClosed]
      of [src/internal/batchruntime]: error values as wrap trees, [errors.Is] and
      [errors.As] as tree searches, the permanent/defer/retry markers, panic
      capture, the failure sanitizer and the bounded failure text.
    - [Ident]: [src/kind.go], [src/codec.go], [src/descriptor.go],
      [src/message_id.go], [src/message.go] and [validStableID] of
      [src/builder.go]: kinds, codecs, descriptors, message identifiers.
    - [Batch]: [src/batch.go] and [src/internal/batchruntime]: batch limits,
      the result builder, result validation, the middleware chain and the guarded
      call of a batch handler ([Invoke]).
    - [Inbox]: the data of [src/adapters/inbox/inbox.go], key validation, the
      generation fingerprint, and the table names of
      [src/adapters/inbox/internal/sqlnamespace].
    - [InboxSQL]: the four Inbox tables and the host's business tables as finite
      maps; the statements of [pgsql/statements.go] (the SQLite statements
      have the same effect) as functions on them; transactions as a monad [TX]
      with savepoints, a clock, a handler call and a schedule of faults.
      [TerminalState]: [src/adapters/inbox/internal/terminalstate].
    - [PgBackend] (Module [Pg]) and [SqliteBackend] (Module [Sqlite]): the
      functions of [pgsql/pgsql.go], [pgsql/terminal.go], [sqlite/sqlite.go] and
      [sqlite/terminal.go], one definition per Go function.
    - [InboxStore]: the methods of [Store] that check their arguments and call a
      backend, and sequences of them.
    - [InboxBatch]: the batch algorithm that [pgsql/batch.go] and
      [sqlite/batch.go] share; [PgBatch] and [SqliteBatch]: the statements in
      which they differ, a record [batchOps]; [InboxBatchStore]:
      [Store.ProcessBatchAttempt].

    - [Backoff]: the retry delays and timeouts of
      both adapters.  [Envelope]: [src/envelope.go]: validation, canonical form,
      payloads and typed messages over an abstract JSON codec ([EnvelopeJSON]).
    - [Middleware]: the single-message middleware chain of [src/handler.go] and
      the handler that an Inbox transaction runs.  [Delivery]: what the consumers
      share: a state monad with results, blocking and panics, Hoare triples,
      observations, failure kinds.
    - [Route], [Builder], [Manifest] (with [src/manifest.go] and [Build]):
      [src/route.go], [src/builder.go] and [src/local.go]'s synchronous routes:
      declarations, bindings, the manifest and [Build].  [Messenger]:
      [src/messenger.go], [src/messenger_batch.go]: metadata and lineage,
      deliveries, receipts, commands, events, queries and batches.
    - [KafkaTopic]: [src/adapters/kafka/topic.go]: topics, groups, transactional
      and instance identifiers, record keys.  [KafkaControl]: control headers and
      dead letters (Modules [KafkaControl] and [KafkaDLQ]).
      [KafkaTopology]: [topology.go]: validation,
      plans and their application.  [KafkaTransport]: [transport.go], [route.go]
      and the replay in [dlq.go]: [Run], [Readiness], [BeginDrain], [Shutdown],
      the transaction gate, publication of one envelope and of a batch, planning
      and publication of a replay, as programs that any number of calls
      interleave.  [KafkaConsumer]: configuration, preparation and
      processing of one record in [consumer.go].  [KafkaScheduler]: the heap of
      deferred partitions and the rewinding of a partition.  [KafkaWorker]: the loop
      of a worker.  [KafkaBatch]: [batch_consumer.go]: the collection of a batch,
      its settlement and the loop of a batch worker.
    - [NatsSubject], [NatsTopology]: [src/adapters/nats/subject.go] and
      [topology.go]: subjects, plans and their application.  [NatsDLQ]: dead
      letters.  [NatsRoute]: [route.go]: the route that publishes one envelope or
      a batch.  [NatsConsumer]: configuration and processing of one message.
      [NatsBatch]: [batch_consumer.go]: the collection of a batch from two pulls,
      its classification, the Inbox attempt, the pool of goroutines that
      acknowledge and hand back, the dead letters and confirmations, the heartbeat
      and the loop of a batch worker.
    - [Runtime]: [src/runtime.go]: [Run], [BeginDrain], [Shutdown] and the health
      probes as a step relation on the shared state and the program counters of
      any number of calls.  [LocalAsync]: [LocalAsyncRoute] of [src/local.go]:
      admission of messages and queries to the queue, [Run], [BeginDrain],
      [Shutdown], [Readiness] and the draining goroutine, as executable steps that
      any number of calls interleave.

    ** Specifications and refinement

    [InboxSpec] states what one delivery, one confirmation and one pruning run
    promise, as functions from tables to tables without transactions, and the
    table invariant [db_ok]; the class [InboxBackend] is the contract of a
    backend, [PgRefine] and [SqliteRefine] discharge it.  [refines] says that
    every run is atomic and that an undisturbed run gives the specified
    outcome.  [InboxBatchSpec] states what a batch promises delivery by
    delivery, without groups, sorting or array positions, and the laws
    ([BatchBackend]) that a backend's statements satisfy; [InboxBatchProps],
    [InboxBatchRun] and [InboxBatchRefine] prove the common algorithm correct
    against the laws; the modules [PgBatchRefine] (in [PgBatch]) and
    [SqliteBatchRefine] (in [SqliteBatch]) discharge them.
    [InboxLocal] is the frame reasoning behind this: every row belongs to one
    identity, and the invariant holds identity by identity.

    The consumers are proved against the class [InboxBackend] and, for batches,
    [BatchBackend], so their theorems hold for both backends.  The retry
    scheduler refines a map from partitions to deadlines ([KafkaSchedulerProofs]).
    Sessions ([transactionalConsumerSession], with the laws [SessionLaws] where
    pausing matters), routes, the JSON codec ([EnvelopeJSONLaws]), Go's types
    and contexts, and the order of map iteration ([MapRange]) are classes:
    what the code relies on of other code is stated there.

    ** What the theorems show

    - [Errors], [Ident], [Batch], [Inbox]: classification by markers with a
      fixed precedence; failure texts that are bounded, valid UTF-8 and free of
      application secrets; descriptors and identifiers accepted exactly when
      canonical, with round trip; batch limits within the broker's bounds;
      a handler result accepted exactly when it covers the batch once; a
      middleware chain that cannot turn a failed batch into an accepted one.
    - [InboxTheorems]: both backends refine the specification; from empty tables
      every sequence of the six single-message and maintenance operations under
      any faults keeps the invariant;
      exactly-once effect on the business tables; atomic coupling of handler
      writes and completion; refusal of reused identities; closed generations
      stay closed; undisturbed deliveries try a poison message exactly
      [maxAttempts] times;
      retention removes only what it may; the dead-letter handoff protocol.
      The auxiliary files are [InboxProps] (the invariant is kept),
      [InboxEffects] (what a business observer sees), [InboxClosed] (closed
      generations), [InboxPrune] (retention) and [InboxRefine].
    - [InboxBatchTheorems]: both batch backends refine the batch specification
      and agree; batches keep the invariant and have an exactly-once effect; a
      delivery in a batch is reported and recorded like a delivery of its own.

    - [EnvelopeProofs]: the canonical form is idempotent and decides equality of
      content; typed messages survive the round trip.  [Backoff]: bounds of the
      delays, and the one case in which the NATS delay panics.
    - [BuilderProofs], [BuilderTheorems]: which declarations are accepted; the
      manifest of a built messenger is valid and independent of map order.
      [MessengerProofs], [MessengerTheorems]: lineage of metadata; local
      commands, events and queries; batches are all or nothing.
      The module [MessengerWitness] is a concrete messenger.
    - [KafkaTopic]: source topics are recognised exactly; no two service names
      collide, with each other or with a source topic; transactional identifiers
      separate their owners.  [KafkaTopology]: an accepted topology is complete for
      its consumers; applying it is safe and converges.
    - [KafkaDelivery]: a record's offset is committed only in a transaction that
      hands the record over; effects are exactly-once end to end; a retry record
      is delivered as the same message under the same Inbox key.  [KafkaSchedulerProofs] and the module
      [KafkaWorkerProofs] of [KafkaWorker]: the scheduler's heap, the rebalance protocol of the worker and its deadlines.
      [KafkaBatchProofs] (selection), [KafkaBatchSettlement] (settlement) and
      [KafkaBatchTheorems]: a batch is a prefix of a partition within its
      limits; one transaction hands every record of it over; a run of the batch
      worker loses no polled record; the rebalance timeout covers a batch.
      [KafkaTransportProofs]: transactions of one transport never overlap, none
      is admitted once the drain has begun, a nil [Shutdown] leaves a closed client
      and no transaction in progress, a receipt means that its record is in a
      transaction whose commit was confirmed, an error that none was (a commit whose
      request failed is in doubt), and no call gets stuck.  [KafkaReplay]: what a route publishes is what the
      consumer's handler is given, and the replay of a dead letter carries the same
      message.  [KafkaWitness] holds concrete runs.
    - [NatsDLQ]: a dead letter keeps the headers and the payload of the message and
      has only digests and sizes when JSON cannot represent them or the record does
      not fit.  [NatsDelivery]: how a message is settled, progress with a broker that
      accepts the answers, exactly-once effects.  [NatsTopologyProofs]: applying a
      topology to a server that nobody else changes is safe, changes only what was
      planned, and on success planning again finds nothing to do.
      [NatsBatchPool]: the pool of goroutines finalizes each delivery at most once in
      a bounded number of steps for every schedule, and goes on to its end when every
      negative acknowledgement is accepted at last or its context ends;
      [NatsBatchProofs]: what a batch holds, how each delivery of it is settled,
      and that a run of the batch worker loses no message.  [NatsRoute]: a batch is published in
      windows, no payload twice, and a receipt means an acknowledged message.
      [NatsWitness] holds concrete runs.
    - [RuntimeTheorems]: every service is run, drained and shut down at most once
      and in this order; a nil result means a clean end; the lifecycle goes
      forward; a call takes a bounded number of steps, and when a call
      waits, the one it waits for can step without the end of a caller's context.
      [RuntimeInv] holds the invariants of [drainOnce] and of the owner,
      [RuntimeResults] those of the order and the results, [RuntimeReach] puts
      them together for every reachable configuration.
    - [LocalAsync]: the queue of an asynchronous local route is started and shut
      down at most once, admission ends with the drain, a nil result of a delivery
      or of [Shutdown] means what it says, and no call gets stuck.

    ** Modelling decisions

    - A transaction runs alone: the model is the serial execution that the row
      locks of PostgreSQL and the single writer of SQLite enforce between
      transactions of one identity.  Interleavings of statements of concurrent
      transactions are not modelled.
    - Every statement can fail, every commit can fail or succeed with its
      acknowledgement lost; the schedule of faults is a list in the environment,
      used up from the front.  [quiet] removes all faults.
    - The handler is an arbitrary function on the business tables; cancellation
      and deadlines appear as faults.
    - Times are integers read from a clock that may run in any way.  Counters are
      unbounded integers: the tables hold [BIGINT] and the code compares only
      small values with the limit.
    - The database's text order for pruning is a parameter [collate].
    - SHA-256 is executable; that two generations of one message do not collide
      is the hypothesis [collision_free], stated for the key at hand.
    - Loops over slices are structural recursion.  Fuel: the length of the list
      that is cut into chunks ([chunks_of]); 64 turns of the doubling loop
      ([backoff]); the size of the heap in the scheduler; [MaxMessages] turns and
      one when a Kafka batch is filled, every turn but the last adding a record.
      That each is enough is proved where the function is used: the results are
      stated without the fuel.
    - The consumers' environment is a record of answers: the broker, the clock,
      the random source and the ends of contexts answer in any way.  A loop that
      waits for the broker consumes a list of answers and is blocked when it is
      used up.  What a consumer does is a trace of events, in order; log records
      are left out, and the batch consumer's observations are one event.

    - In a NATS batch every delivery meets answers of its own, since the pool's
      goroutines share only the task channel, the joined errors and the heartbeat's
      set; their interleaving is a schedule, a list of moves, and every theorem
      holds for every schedule.  A schedule that stops early leaves the batch
      blocked; the bound 3 n + min(16, n) + 1 on the steps of a pool with n tasks is
      proved.  The heartbeat is the set of messages it watches.

    - The queue behind the asynchronous local route is third-party code: it answers
      in any way, and its calls are written to a log.

    - The client of the Kafka transport answers in any way, and its transactional
      calls are written to a log.  Calls of the transport interleave at critical
      sections, channel operations and calls of the client.  The CloudEvents
      encoders of the NATS route are parameters.

    - The runtime's step relation interleaves critical sections, channel
      operations and calls of services; deadlines may pass at any step.  The
      bound of a call, 3 n + 20 steps for n services, is proved, not chosen.

    ** Not modelled

    CloudEvents (a third-party package), the translation of the Kafka client's
    options, the supervisors that subscribe and recreate workers, the ticker of the
    NATS heartbeat, the Outbox adapter, the publication of a NATS replay and the
    decoding of stored dead letters, migrations (SQL text), the values of the batch
    consumers' observations, the command-line tool and the examples. *)
From stdpp Require Export base tactics list strings gmap sorting.
From Stdlib Require Export ZArith Lia.

#[global] Open Scope Z_scope.

(** ** Results: the Go convention [(T, error)] where only one half is used *)
Inductive result (E A : Type) : Type :=
| Ok (a : A)
| Err (e : E).
Arguments Ok {E A} a.
Arguments Err {E A} e.

Lemma Ok_inj {E A} (a b : A) : Ok (E := E) a = Ok b -> a = b.
Proof. congruence. Qed.

Declare Scope go_scope.
Delimit Scope go_scope with go.

Notation "'do' x <- c ; k" :=
  (match c with Ok x => k | Err e => Err e end)
  (at level 60, x pattern, c at next level, right associativity) : go_scope.
Notation "'guard' b 'else' e ; k" :=
  (if b then k else Err e)
  (at level 60, b at next level, e at next level, right associativity) : go_scope.

(** ** Automation *)
Create HintDb go discriminated.
Create Rewrite HintDb go_rw.

(** Decide every boolean test of the context and the goal. *)
Ltac bool_simpl :=
  repeat match goal with
  | H : (_ && _)%bool = true |- _ => apply andb_true_iff in H; destruct H
  | H : (_ || _)%bool = false |- _ => apply orb_false_iff in H; destruct H
  | H : negb _ = true |- _ => apply negb_true_iff in H
  | H : negb _ = false |- _ => apply negb_false_iff in H
  | H : (_ =? _) = true |- _ => apply Z.eqb_eq in H
  | H : (_ =? _) = false |- _ => apply Z.eqb_neq in H
  | H : (_ <? _) = true |- _ => apply Z.ltb_lt in H
  | H : (_ <? _) = false |- _ => apply Z.ltb_ge in H
  | H : (_ <=? _) = true |- _ => apply Z.leb_le in H
  | H : (_ <=? _) = false |- _ => apply Z.leb_gt in H
  | H : bool_decide _ = true |- _ => apply bool_decide_eq_true in H
  | H : bool_decide _ = false |- _ => apply bool_decide_eq_false in H
  end.

(** Split on the scrutinee of a [match] or [if] of the goal or of [H]. *)
Ltac case_goal :=
  match goal with
  | |- context [match ?x with _ => _ end] => destruct x eqn:?
  end.
Ltac case_in H :=
  match type of H with
  | context [match ?x with _ => _ end] => destruct x eqn:?
  end.

(** ** Machine integers *)
Definition maxInt64 : Z := 9223372036854775807.
Definition maxUint64 : Z := 18446744073709551615.

(** [int64] wrap-around. *)
Definition wrap64 (z : Z) : Z :=
  let m := z mod 2 ^ 64 in if m <=? maxInt64 then m else m - 2 ^ 64.

Lemma wrap64_id z : - maxInt64 - 1 <= z <= maxInt64 -> wrap64 z = z.
Proof.
  unfold wrap64, maxInt64. intros Hz.
  destruct (Z.ltb_spec z 0).
  - rewrite <- (Z_mod_plus_full z 1 (2 ^ 64)), Z.mod_small by lia.
    destruct (Z.leb_spec (z + 1 * 2 ^ 64) 9223372036854775807); lia.
  - rewrite Z.mod_small by lia.
    destruct (Z.leb_spec z 9223372036854775807); lia.
Qed.

(** ** Lists and options *)
(** The first [Some] of a list of options. *)
Fixpoint first_some {A} (l : list (option A)) : option A :=
  match l with
  | [] => None
  | Some a :: _ => Some a
  | None :: r => first_some r
  end.

Lemma first_some_Some {A} (l : list (option A)) a :
  first_some l = Some a -> Some a ∈ l.
Proof.
  induction l as [|[b|] l IH]; simpl; intros H; simplify_eq; [left|right; auto].
Qed.

Lemma first_some_None {A} (l : list (option A)) :
  first_some l = None <-> Forall (fun o => o = None) l.
Proof.
  induction l as [|[b|] l IH]; simpl.
  - split; [constructor|done].
  - split; [done|]. inversion 1; done.
  - rewrite IH. split; [by constructor|]. by inversion 1.
Qed.

(** The slices [l[start : min(start+n, len(l))]] of the loops
    [for start := 0; start < len(l); start += n]; the length is enough fuel. *)
Fixpoint chunks_fuel {A} (fuel n : nat) (l : list A) : list (list A) :=
  match fuel, l with
  | _, [] => []
  | O, _ => []
  | S f, _ => take n l :: chunks_fuel f n (drop n l)
  end.
Definition chunks_of {A} (n : nat) (l : list A) : list (list A) :=
  chunks_fuel (length l) n l.

Lemma concat_chunks_of {A} n (l : list A) : (0 < n)%nat -> concat (chunks_of n l) = l.
Proof.
  intros Hn. unfold chunks_of.
  cut (forall f, (length l <= f)%nat -> concat (chunks_fuel f n l) = l); [auto|].
  intros f. revert l. induction f as [|f IH]; intros [|a l] Hl; simpl in *; try done; [lia|].
  rewrite IH; [apply take_drop|]. rewrite length_drop. simpl. lia.
Qed.

Lemma filter_nil_iff {A} (P : A -> Prop) `{forall x, Decision (P x)} (l : list A) :
  filter P l = [] <-> forall x, x ∈ l -> ~ P x.
Proof.
  split.
  - intros Hf x Hx HP. by eapply filter_nil_not_elem_of.
  - induction l as [|a l IH]; intros Hn; [done|]. rewrite filter_cons, decide_False.
    + apply IH. intros x Hx. apply Hn. by right.
    + apply Hn. left.
Qed.
