(* ===== verification/GoStrings.v ===== *)
(** * Go byte strings

    A Go [string] or [[]byte] is a sequence of bytes, which is what a Rocq
    [string] is (a sequence of 8-bit [ascii]).  This file models the parts of
    the Go standard library the repository uses on such sequences: [len],
    [strings.TrimSpace], [strings.ContainsAny], [strings.EqualFold] on ASCII
    patterns, [unicode/utf8] decoding, [strings.ToValidUTF8], lower-case
    hexadecimal, and [time.Time] as an instant. *)
From S2P Require Import Prelude.
From Stdlib Require Import Ascii.
Import Stdlib.Strings.String.
Open Scope string_scope.
Open Scope Z_scope.

(** ** Bytes *)
Definition byteZ (c : ascii) : Z := Z.of_N (N_of_ascii c).
Definition chr (z : Z) : ascii := ascii_of_N (Z.to_N z).

Lemma byteZ_range c : 0 <= byteZ c < 256.
Proof.
  unfold byteZ. pose proof (N_ascii_bounded c). lia.
Qed.

Lemma chr_byteZ c : chr (byteZ c) = c.
Proof. unfold chr, byteZ. rewrite N2Z.id. apply ascii_N_embedding. Qed.

Lemma byteZ_chr z : 0 <= z < 256 -> byteZ (chr z) = z.
Proof.
  intros H. unfold chr, byteZ. rewrite N_ascii_embedding; lia.
Qed.

(** [lo <= c <= hi] *)
Definition in_range (lo hi : Z) (c : ascii) : bool :=
  (lo <=? byteZ c) && (byteZ c <=? hi).

Definition is_lower (c : ascii) : bool := in_range 97 122 c.
Definition is_upper (c : ascii) : bool := in_range 65 90 c.
Definition is_digit (c : ascii) : bool := in_range 48 57 c.

(** [len(s)] as a Go [int]. *)
Definition len (s : string) : Z := Z.of_nat (String.length s).

Definition bytes (s : string) : list ascii := list_ascii_of_string s.
Definition of_bytes (l : list ascii) : string := string_of_list_ascii l.

Lemma of_bytes_bytes s : of_bytes (bytes s) = s.
Proof. apply string_of_list_ascii_of_string. Qed.
Lemma bytes_of_bytes l : bytes (of_bytes l) = l.
Proof. apply list_ascii_of_string_of_list_ascii. Qed.
Lemma length_bytes s : List.length (bytes s) = String.length s.
Proof. induction s; simpl; congruence. Qed.
Lemma length_of_bytes l : String.length (of_bytes l) = List.length l.
Proof. induction l; simpl; congruence. Qed.
Lemma len_nonneg s : 0 <= len s.
Proof. unfold len. lia. Qed.

Lemma bytes_inj s t : bytes s = bytes t -> s = t.
Proof. intros H. by rewrite <- (of_bytes_bytes s), H, of_bytes_bytes. Qed.

Lemma bytes_app (s t : string) : bytes (s ++ t) = (bytes s ++ bytes t)%list.
Proof.
  induction s as [|c s IH]; [done|]. change (String c s ++ t) with (String c (s ++ t)).
  simpl. by rewrite IH.
Qed.

(** [strings.ContainsAny(s, cs)] for an ASCII cutset. *)
Definition contains_any (s : string) (cs : string) : bool :=
  existsb (fun c => existsb (Ascii.eqb c) (bytes cs)) (bytes s).

(** ** [strings.TrimSpace]

    The UTF-8 encodings of the runes with the White_Space property that
    [unicode.IsSpace] accepts. *)
Definition spaces : list (list ascii) :=
  List.map (fun z => [chr z]) [9; 10; 11; 12; 13; 32].
Definition wide_spaces : list (list ascii) :=
  List.map (List.map chr)
  [[194; 133]; [194; 160]; [225; 154; 128];
   [226; 128; 128]; [226; 128; 129]; [226; 128; 130]; [226; 128; 131];
   [226; 128; 132]; [226; 128; 133]; [226; 128; 134]; [226; 128; 135];
   [226; 128; 136]; [226; 128; 137]; [226; 128; 138]; [226; 128; 168];
   [226; 128; 169]; [226; 128; 175]; [226; 129; 159]; [227; 128; 128]].
Definition space_seqs : list (list ascii) := (spaces ++ wide_spaces)%list.

Fixpoint strip_prefix (p l : list ascii) : option (list ascii) :=
  match p, l with
  | [], _ => Some l
  | a :: p', b :: l' => if Ascii.eqb a b then strip_prefix p' l' else None
  | _ :: _, [] => None
  end.

Fixpoint trim_left (fuel : nat) (seqs : list (list ascii)) (l : list ascii) : list ascii :=
  match fuel with
  | O => l
  | S n =>
      match first_some (List.map (fun p => strip_prefix p l) seqs) with
      | Some r => trim_left n seqs r
      | None => l
      end
  end.

Definition trim_bytes (l : list ascii) : list ascii :=
  let l1 := trim_left (List.length l) space_seqs l in
  reverse (trim_left (List.length l1) (List.map reverse space_seqs) (reverse l1)).

Definition TrimSpace (s : string) : string := of_bytes (trim_bytes (bytes s)).

Example TrimSpace_ex : TrimSpace "  a b	" = "a b".
Proof. reflexivity. Qed.

(** ** [unicode/utf8] *)

(** Continuation bytes are [10xxxxxx]; every other byte starts a rune. *)
Definition RuneStart (c : ascii) : bool := negb (in_range 128 191 c).

(** The width of the well-formed rune at the head of [l], [0] when the head is
    not well formed (the table of [utf8.DecodeRune]). *)
Definition rune_size (l : list ascii) : nat :=
  match l with
  | [] => 0%nat
  | a :: r =>
      if in_range 0 127 a then 1%nat
      else match r with
      | [] => 0%nat
      | b :: r =>
          if in_range 194 223 a then (if in_range 128 191 b then 2%nat else 0%nat)
          else match r with
          | [] => 0%nat
          | c :: r =>
              if in_range 224 239 a then
                if in_range (if byteZ a =? 224 then 160 else 128)
                            (if byteZ a =? 237 then 159 else 191) b
                   && in_range 128 191 c
                then 3%nat else 0%nat
              else match r with
              | [] => 0%nat
              | d :: _ =>
                  if in_range 240 244 a then
                    if in_range (if byteZ a =? 240 then 144 else 128)
                                (if byteZ a =? 244 then 143 else 191) b
                       && in_range 128 191 c && in_range 128 191 d
                    then 4%nat else 0%nat
                  else 0%nat
              end
          end
      end
  end.

(** [utf8.ValidString]: the input is a sequence of well-formed runes. *)
Inductive valid_utf8 : list ascii -> Prop :=
| valid_nil : valid_utf8 []
| valid_rune l : rune_size l <> 0%nat -> valid_utf8 (drop (rune_size l) l) -> valid_utf8 l.

(** [strings.ToValidUTF8(s, rep)]: every maximal run of invalid bytes is
    replaced by [rep]. [bad] tells that the previous byte was in such a run. *)
Fixpoint to_valid (fuel : nat) (rep : list ascii) (bad : bool) (l : list ascii) : list ascii :=
  match fuel with
  | O => []
  | S n =>
      match l with
      | [] => []
      | _ :: r =>
          match rune_size l with
          | O => ((if bad then [] else rep) ++ to_valid n rep true r)%list
          | w => (take w l ++ to_valid n rep false (drop w l))%list
          end
      end
  end.

(** U+FFFD *)
Definition replacement : list ascii := List.map chr [239; 191; 189].
Definition ToValidUTF8 (s : string) : string :=
  of_bytes (to_valid (String.length s) replacement false (bytes s)).

(** ** Hexadecimal *)
Definition hex_digit (z : Z) : ascii := if z <? 10 then chr (48 + z) else chr (87 + z).

Definition hex_byte (c : ascii) : list ascii :=
  [hex_digit (byteZ c / 16); hex_digit (byteZ c mod 16)].

Definition hex_value (c : ascii) : option Z :=
  if is_digit c then Some (byteZ c - 48)
  else if in_range 97 102 c then Some (byteZ c - 87)
  else if in_range 65 70 c then Some (byteZ c - 55)
  else None.

Fixpoint hex_decode (l : list ascii) : option (list ascii) :=
  match l with
  | [] => Some []
  | a :: b :: r =>
      match hex_value a, hex_value b, hex_decode r with
      | Some x, Some y, Some t => Some (chr (16 * x + y) :: t)
      | _, _, _ => None
      end
  | _ => None
  end.

(** ** [time.Time]

    An instant, in nanoseconds since the zero time; the location only affects
    formatting, so [UTC] is the identity on instants. *)
Definition Time := Z.
Definition Duration := Z.
Definition IsZero (t : Time) : bool := t =? 0.
Definition After (t u : Time) : bool := u <? t.
Definition Before (t u : Time) : bool := t <? u.
Definition UTC (t : Time) : Time := t.
Definition Second : Duration := 1000000000.
Definition Millisecond : Duration := 1000000.
Definition Minute : Duration := 60 * Second.

(** ** Facts about UTF-8 *)

Lemma rune_size_length l : (rune_size l <= List.length l)%nat.
Proof.
  unfold rune_size.
  repeat (case_match; simpl; try lia).
Qed.

Lemma in_range_not_start lo hi c : 128 <= lo -> hi <= 191 ->
  in_range lo hi c = true -> RuneStart c = false.
Proof.
  unfold RuneStart, in_range. intros ?? H. bool_simpl.
  apply negb_false_iff, andb_true_iff. split; apply Z.leb_le; lia.
Qed.

(** The bytes of a rune after its first one are continuation bytes. *)
Lemma rune_tail_not_start l i c :
  (0 < i < rune_size l)%nat -> l !! i = Some c -> RuneStart c = false.
Proof.
  unfold rune_size. intros Hi Hl.
  repeat (case_match; try lia); bool_simpl; simplify_eq/=;
    repeat (destruct i as [|i]; simplify_eq/=; try lia);
    eapply in_range_not_start; try eassumption; repeat case_match; lia.
Qed.

(** A rune has at most four bytes and its first one is a rune start. *)
Lemma rune_size_head a l :
  rune_size (a :: l) <> 0%nat -> (rune_size (a :: l) <= 4)%nat /\ RuneStart a = true.
Proof.
  unfold rune_size, RuneStart, in_range. intros Hs.
  repeat (case_match; try done); bool_simpl; (split; [lia|]);
    apply negb_true_iff, andb_false_iff; rewrite !Z.leb_gt; lia.
Qed.

Lemma rune_size_app l k : rune_size l <> 0%nat -> rune_size (l ++ k) = rune_size l.
Proof.
  destruct l as [|a [|b [|c [|d l]]]]; simpl; [done|..];
    repeat (case_match; simpl; try done).
Qed.

Lemma rune_size_take l : rune_size l <> 0%nat ->
  rune_size (take (rune_size l) l) = rune_size l.
Proof.
  destruct l as [|a [|b [|c [|d l]]]]; simpl; [done|..];
    repeat (case_match; simpl in *; try done; simplify_eq).
Qed.

Lemma valid_utf8_app l k : valid_utf8 l -> valid_utf8 k -> valid_utf8 (l ++ k).
Proof.
  induction 1 as [|l Hl Hv IH]; intros Hk; [done|].
  apply valid_rune; rewrite rune_size_app by done; [done|].
  rewrite drop_app_le by apply rune_size_length. auto.
Qed.

Lemma valid_single l : rune_size l <> 0%nat -> valid_utf8 (take (rune_size l) l).
Proof.
  intros H. apply valid_rune; rewrite rune_size_take by done; [done|].
  rewrite drop_ge by (rewrite length_take; lia). constructor.
Qed.

(** Cutting a valid string at a rune start keeps it valid. *)
Lemma valid_cut l n c :
  valid_utf8 l -> l !! n = Some c -> RuneStart c = true -> valid_utf8 (take n l).
Proof.
  intros Hv. revert n. induction Hv as [|l Hl Hv IH]; intros n Hn Hs.
  - by rewrite take_nil.
  - destruct n as [|n]; [constructor|].
    destruct (decide (S n < rune_size l)%nat) as [Hlt|Hge].
    { rewrite (rune_tail_not_start l (S n) c) in Hs; [done|lia|done]. }
    replace (S n) with (rune_size l + (S n - rune_size l))%nat by lia.
    rewrite <- take_take_drop. apply valid_utf8_app; [by apply valid_single|].
    eapply IH; [|done]. rewrite lookup_drop.
    by replace (rune_size l + (S n - rune_size l))%nat with (S n) by lia.
Qed.

(** Every position of a valid string is at most three bytes after a rune start. *)
Lemma valid_start_near l n :
  valid_utf8 l -> (n < List.length l)%nat ->
  exists k c, (k <= n <= k + 3)%nat /\ l !! k = Some c /\ RuneStart c = true.
Proof.
  intros Hv. revert n. induction Hv as [|l Hl Hv IH]; intros n Hn; [simpl in Hn; lia|].
  destruct (decide (n < rune_size l)%nat) as [Hlt|Hge].
  - destruct l as [|a l]; [done|]. exists 0%nat, a.
    destruct (rune_size_head a l Hl). split_and!; [lia..|done|done].
  - destruct (IH (n - rune_size l)%nat) as (k & c & Hk & Hc & Hs).
    { rewrite length_drop. lia. }
    rewrite lookup_drop in Hc. exists (rune_size l + k)%nat, c. split_and!; [lia..|done|done].
Qed.

Lemma to_valid_valid fuel rep bad l :
  valid_utf8 rep -> valid_utf8 (to_valid fuel rep bad l).
Proof.
  intros Hrep. revert bad l. induction fuel as [|n IH]; intros bad l; [constructor|].
  simpl. destruct l as [|a r]; [constructor|].
  destruct (rune_size (a :: r)) as [|w] eqn:Hw.
  - apply valid_utf8_app; [|apply IH]. destruct bad; [constructor|done].
  - apply valid_utf8_app; [|apply IH]. rewrite <- Hw. apply valid_single. by rewrite Hw.
Qed.

(** The fuel is enough and valid input is left unchanged. *)
Lemma to_valid_id fuel rep l :
  (List.length l <= fuel)%nat -> valid_utf8 l -> to_valid fuel rep false l = l.
Proof.
  intros Hf Hv. revert fuel Hf. induction Hv as [|l Hl Hv IH]; intros fuel Hf.
  - by destruct fuel.
  - pose proof (rune_size_length l).
    destruct fuel as [|n]; [lia|]. simpl.
    destruct l as [|a r]; [done|].
    destruct (rune_size (a :: r)) as [|w] eqn:Hw; [done|].
    rewrite IH by (rewrite length_drop; simpl in *; lia). by rewrite take_drop.
Qed.

Lemma replacement_valid : valid_utf8 replacement.
Proof. apply valid_rune; [done|]. constructor. Qed.

Lemma ToValidUTF8_valid s : valid_utf8 (bytes (ToValidUTF8 s)).
Proof. unfold ToValidUTF8. rewrite bytes_of_bytes. apply to_valid_valid, replacement_valid. Qed.

(** ** Facts about hexadecimal *)

Lemma hex_value_digit z : 0 <= z < 16 -> hex_value (hex_digit z) = Some z.
Proof.
  intros H. assert (z ∈ seqZ 0 16) as Hin by (apply elem_of_seqZ; lia).
  clear H. revert z Hin. apply Forall_forall. repeat constructor; reflexivity.
Qed.

Lemma hex_decode_encode l : hex_decode (l ≫= hex_byte) = Some l.
Proof.
  induction l as [|c l IH]; [done|]. simpl.
  pose proof (byteZ_range c).
  rewrite !hex_value_digit by (first [apply Z.mod_pos_bound; lia | split;
    [apply Z.div_pos; lia | apply Z.div_lt_upper_bound; lia]]).
  change (list_bind _ _ hex_byte l) with (l ≫= hex_byte). rewrite IH.
  rewrite <- Z.div_mod by lia. by rewrite chr_byteZ.
Qed.
