(* ===== verification/GoText.v ===== *)
(** * Go text functions

    [strings.Split], [strings.Index], [strings.LastIndex], [strings.HasSuffix],
    [strconv.Itoa] and [strconv.Atoi] on byte strings. *)
From S2P Require Import Prelude GoStrings.
From Stdlib Require Import Ascii.
Import Stdlib.Strings.String.
Open Scope string_scope.
Open Scope Z_scope.

(** ** Definitions *)

(** [strings.Split] with a one-byte separator. *)
Fixpoint split_on (sep : ascii) (l : list ascii) : list (list ascii) :=
  match l with
  | [] => [[]]
  | c :: r =>
      if Ascii.eqb c sep then [] :: split_on sep r
      else match split_on sep r with
           | s :: segs => (c :: s) :: segs
           | [] => [[c]]
           end
  end.
Definition dot : ascii := "."%char.
Definition Split (s : string) : list string := List.map of_bytes (split_on dot (bytes s)).

Fixpoint join_with (sep : ascii) (segs : list (list ascii)) : list ascii :=
  match segs with
  | [] => []
  | [s] => s
  | s :: r => (s ++ sep :: join_with sep r)%list
  end.

(** [strings.Index] and [strings.LastIndex] of a non-empty pattern. *)
Fixpoint index_of (p l : list ascii) : option nat :=
  match strip_prefix p l with
  | Some _ => Some O
  | None => match l with
            | [] => None
            | _ :: r => option_map S (index_of p r)
            end
  end.
Fixpoint last_index_of (p l : list ascii) : option nat :=
  match l with
  | [] => None
  | _ :: r =>
      match last_index_of p r with
      | Some i => Some (S i)
      | None => match strip_prefix p l with Some _ => Some O | None => None end
      end
  end.

(** [strings.TrimSuffix]; [None] when the suffix is not there. *)
Definition cut_suffix (l suffix : list ascii) : option (list ascii) :=
  option_map reverse (strip_prefix (reverse suffix) (reverse l)).

(** [strconv.Itoa]; the binary logarithm bounds the number of digits. *)
Fixpoint digits_fuel (fuel : nat) (n : Z) (acc : list ascii) : list ascii :=
  match fuel with
  | O => acc
  | S f =>
      let acc := chr (48 + n mod 10) :: acc in
      if n <? 10 then acc else digits_fuel f (n / 10) acc
  end.
Definition digits (n : Z) : list ascii := digits_fuel (S (Z.to_nat (Z.log2 n))) n [].
Definition Itoa (n : Z) : string :=
  of_bytes (if n <? 0 then "-"%char :: digits (- n) else digits n).

(** [strconv.Atoi]: an optional sign, at least one digit, within [int64]. *)
Fixpoint parse_digits (acc : Z) (l : list ascii) : option Z :=
  match l with
  | [] => Some acc
  | c :: r => if is_digit c then parse_digits (10 * acc + (byteZ c - 48)) r else None
  end.
Definition Atoi (l : list ascii) : option Z :=
  let '(negative, ds) :=
    match l with
    | c :: r => if Ascii.eqb c "-"%char then (true, r)
                else if Ascii.eqb c "+"%char then (false, r) else (false, l)
    | [] => (false, [])
    end in
  match ds with
  | [] => None
  | _ => match parse_digits 0 ds with
         | Some n => let n := if negative then - n else n in
                     if (- maxInt64 - 1 <=? n) && (n <=? maxInt64) then Some n else None
         | None => None
         end
  end.

Example Itoa_ex : Itoa 0 = "0" /\ Itoa 1024 = "1024" /\ Itoa (-7) = "-7".
Proof. vm_compute. done. Qed.
Example Atoi_ex : Atoi (bytes "+12") = Some 12 /\ Atoi (bytes "") = None /\ Atoi (bytes "1x") = None.
Proof. vm_compute. done. Qed.

(** The order of [sort.Strings]. *)
Definition string_le (a b : string) : Prop := is_true (String.leb a b).
#[global] Instance string_le_dec : RelDecision string_le.
Proof. intros a b. unfold string_le, is_true. apply _. Defined.

Lemma leb_cons a b s t : String.leb (String a s) (String b t) =
  match Ascii.compare a b with Eq => String.leb s t | Lt => true | Gt => false end.
Proof. unfold String.leb. cbn. by destruct (Ascii.compare a b). Qed.

Lemma ascii_lt_trans a b c : Ascii.compare a b = Lt -> Ascii.compare b c = Lt -> Ascii.compare a c = Lt.
Proof. unfold Ascii.compare. rewrite !N.compare_lt_iff. lia. Qed.

#[global] Instance string_le_trans : Transitive string_le.
Proof.
  unfold string_le, is_true. intros s. induction s as [|a s IH]; intros [|b t] [|c u]; try done. rewrite !leb_cons.
  destruct (Ascii.compare a b) eqn:Eab; [|..|done].
  - apply Ascii.compare_eq_iff in Eab as ->. destruct (Ascii.compare b c); [apply IH|done..].
  - destruct (Ascii.compare b c) eqn:Ebc; [apply Ascii.compare_eq_iff in Ebc as ->; by rewrite Eab| |done].
    by rewrite (ascii_lt_trans _ _ _ Eab Ebc).
Qed.
#[global] Instance string_le_total : Total string_le.
Proof. intros s t. unfold string_le, is_true. apply String.leb_total. Qed.
#[global] Instance string_le_antisymm : AntiSymm (=) string_le.
Proof. intros s t. unfold string_le, is_true. apply String.leb_antisym. Qed.

(** ** Splitting and joining *)
Lemma split_on_cons sep l : exists s segs, split_on sep l = s :: segs.
Proof. destruct l as [|c l]; simpl; [eauto|]. destruct (Ascii.eqb c sep); [eauto|]. destruct (split_on sep l); eauto. Qed.

Lemma join_split sep l : join_with sep (split_on sep l) = l.
Proof.
  induction l as [|c l IH]; [done|]. simpl. destruct (Ascii.eqb_spec c sep) as [->|Hc].
  - destruct (split_on_cons sep l) as (s & segs & Hs). rewrite <- IH at 2. by rewrite Hs.
  - destruct (split_on_cons sep l) as (s & segs & Hs). rewrite Hs in IH |- *. rewrite <- IH.
    by destruct segs.
Qed.

Lemma split_app sep a b : split_on sep (a ++ sep :: b) = (split_on sep a ++ split_on sep b)%list.
Proof.
  induction a as [|c a IH]; simpl; [by rewrite Ascii.eqb_refl|].
  destruct (Ascii.eqb c sep); [by rewrite IH|]. rewrite IH.
  destruct (split_on_cons sep a) as (s & segs & ->). done.
Qed.

Lemma split_plain sep l : sep ∉ l -> split_on sep l = [l].
Proof.
  induction l as [|c l IH]; intros Hn; [done|]. rewrite not_elem_of_cons in Hn. destruct Hn as [Hc Hn].
  simpl. destruct (Ascii.eqb_spec c sep); [congruence|]. by rewrite IH.
Qed.

Lemma split_inj sep a b : split_on sep a = split_on sep b -> a = b.
Proof. intros H. by rewrite <- (join_split sep a), H, join_split. Qed.

Lemma join_with_length sep a b : (List.length (join_with sep a) <= List.length (join_with sep (a ++ b)%list))%nat.
Proof.
  induction a as [|x a IH]; simpl; [lia|]. destruct a as [|y a].
  - destruct b; simpl; rewrite ?length_app; lia.
  - simpl in *. rewrite !length_app. simpl in *. lia.
Qed.

(** ** Searching *)
Lemma strip_prefix_app p l : strip_prefix p (p ++ l)%list = Some l.
Proof. induction p as [|c p IH]; [done|]. simpl. by rewrite Ascii.eqb_refl. Qed.

Lemma strip_prefix_Some p l r : strip_prefix p l = Some r <-> l = (p ++ r)%list.
Proof.
  split; [|intros ->; apply strip_prefix_app]. revert l. induction p as [|c p IH]; intros l; simpl; [by intros [= ->]|].
  destruct l as [|b l]; [done|]. destruct (Ascii.eqb_spec c b) as [->|]; [|done]. intros H%IH. by subst.
Qed.

Lemma index_of_Some p l i : index_of p l = Some i -> exists a b, l = (a ++ p ++ b)%list /\ List.length a = i.
Proof.
  revert i. induction l as [|c l IH]; intros i; simpl.
  - destruct (strip_prefix p []) as [r|] eqn:Hs; [|done]. intros [= <-]. apply strip_prefix_Some in Hs. by exists [], r.
  - destruct (strip_prefix p (c :: l)) as [r|] eqn:Hs.
    + intros [= <-]. apply strip_prefix_Some in Hs. by exists [], r.
    + destruct (index_of p l) as [j|]; [|done]. intros [= <-]. destruct (IH j eq_refl) as (a & b & -> & <-).
      by exists (c :: a), b.
Qed.

Lemma index_of_le p a b : exists i, index_of p (a ++ p ++ b)%list = Some i /\ (i <= List.length a)%nat.
Proof.
  induction a as [|c a IH].
  - exists O. split; [|simpl; lia]. simpl. destruct (p ++ b)%list eqn:Hpb; simpl; rewrite <- Hpb, strip_prefix_app; done.
  - change ((c :: a) ++ p ++ b)%list with (c :: (a ++ p ++ b))%list. cbn [index_of].
    destruct (strip_prefix p _); [exists O; split; [done|simpl; lia]|].
    destruct IH as (i & -> & Hi). exists (S i). simpl. split; [done|lia].
Qed.

Lemma last_index_app p a b i : last_index_of p b = Some i -> last_index_of p (a ++ b)%list = Some (List.length a + i)%nat.
Proof. intros Hb. induction a as [|c a IH]; [done|]. simpl. by rewrite IH. Qed.

Lemma last_index_Some p l i : last_index_of p l = Some i ->
  exists a b, l = (a ++ p ++ b)%list /\ List.length a = i.
Proof.
  revert i. induction l as [|c l IH]; intros i; [done|]. cbn [last_index_of].
  destruct (last_index_of p l) as [j|].
  - intros [= <-]. destruct (IH j eq_refl) as (a & b & -> & <-). by exists (c :: a), b.
  - destruct (strip_prefix p (c :: l)) as [r|] eqn:Hs; [|done]. intros [= <-].
    apply strip_prefix_Some in Hs. by exists [], r.
Qed.

Lemma last_index_absent p c l : head p = Some c -> c ∉ l -> last_index_of p l = None.
Proof.
  intros Hp. induction l as [|x l IH]; intros Hn; [done|]. rewrite not_elem_of_cons in Hn. destruct Hn as [Hx Hn].
  simpl. rewrite IH by done. destruct p as [|y p]; [done|]. simpl in *. simplify_eq.
  destruct (Ascii.eqb_spec c x); [done|]. done.
Qed.

Lemma cut_suffix_Some l suffix a : cut_suffix l suffix = Some a <-> l = (a ++ suffix)%list.
Proof.
  unfold cut_suffix. destruct (strip_prefix (reverse suffix) (reverse l)) as [r|] eqn:Hs; simpl.
  - apply strip_prefix_Some in Hs. rewrite <- (reverse_involutive l), Hs, reverse_app, reverse_involutive.
    split; [by intros [= <-]|]. intros H%app_inv_tail. by subst.
  - split; [done|]. intros ->. rewrite reverse_app, strip_prefix_app in Hs. done.
Qed.

(** ** Decimal text *)
Lemma digit_chr d : 0 <= d < 10 -> is_digit (chr (48 + d)) = true /\ byteZ (chr (48 + d)) - 48 = d.
Proof. intros Hd. unfold is_digit, in_range. rewrite byteZ_chr by lia. split; lia. Qed.

Lemma parse_digits_fuel f n acc a : 0 <= n < 2 ^ Z.of_nat f -> (0 < f)%nat ->
  exists k, 0 <= k /\ parse_digits a (digits_fuel f n acc) = parse_digits (a * 10 ^ k + n) acc.
Proof.
  revert n acc a. induction f as [|f IH]; intros n acc a Hn Hf; [lia|]. cbn [digits_fuel].
  destruct (digit_chr (n mod 10)) as [Hd Hv]; [by apply Z.mod_pos_bound|].
  destruct (Z.ltb_spec n 10).
  - exists 1. split; [lia|]. cbn [parse_digits]. rewrite Hd, Hv, Z.mod_small by lia. f_equal. lia.
  - assert (2 ^ Z.of_nat (S f) = 2 * 2 ^ Z.of_nat f) as Hp by (rewrite Nat2Z.inj_succ, Z.pow_succ_r; lia).
    destruct (IH (n / 10) (chr (48 + n mod 10) :: acc) a) as (k & Hk & ->).
    + split; [apply Z.div_pos; lia|]. apply Z.div_lt_upper_bound; lia.
    + destruct f; [simpl in Hp; lia|lia].
    + exists (k + 1). split; [lia|]. cbn [parse_digits]. rewrite Hd, Hv. f_equal.
      rewrite Z.pow_add_r by lia. pose proof (Z.div_mod n 10). lia.
Qed.

Lemma parse_digits_digits n : 0 <= n -> parse_digits 0 (digits n) = Some n.
Proof.
  intros Hn. unfold digits. destruct (parse_digits_fuel (S (Z.to_nat (Z.log2 n))) n [] 0) as (k & _ & ->).
  - split; [done|]. rewrite Nat2Z.inj_succ, Z2Nat.id by apply Z.log2_nonneg.
    destruct (Z.eq_dec n 0) as [->|]; [done|]. apply Z.log2_spec. lia.
  - lia.
  - done.
Qed.

Lemma digits_form f n acc : (0 < f)%nat -> 0 <= n ->
  exists ds, digits_fuel f n acc = (ds ++ acc)%list /\ ds <> [] /\ Forall (fun c => is_digit c = true) ds.
Proof.
  revert n acc. induction f as [|f IH]; intros n acc Hf Hn; [lia|]. cbn [digits_fuel].
  destruct (digit_chr (n mod 10)) as [Hd _]; [by apply Z.mod_pos_bound|].
  destruct (Z.ltb_spec n 10); [exists [chr (48 + n mod 10)]; split_and!; [done..|by repeat constructor]|].
  destruct f as [|f]; [exists [chr (48 + n mod 10)]; split_and!; [done..|by repeat constructor]|].
  destruct (IH (n / 10) (chr (48 + n mod 10) :: acc)) as (ds & -> & Hne & HF); [lia|apply Z.div_pos; lia|].
  exists (ds ++ [chr (48 + n mod 10)])%list. rewrite <- app_assoc. split_and!; [done|by destruct ds|].
  apply Forall_app. split; [done|by repeat constructor].
Qed.

Lemma bytes_Itoa n : 0 <= n -> bytes (Itoa n) = digits n /\ digits n <> [] /\
  Forall (fun c => is_digit c = true) (digits n).
Proof.
  intros Hn. unfold Itoa. rewrite (proj2 (Z.ltb_ge n 0)), bytes_of_bytes by lia.
  unfold digits. destruct (digits_form (S (Z.to_nat (Z.log2 n))) n []) as (ds & -> & Hne & HF); [lia|done|].
  by rewrite app_nil_r.
Qed.

Lemma digit_not c : is_digit c = true -> c <> dot /\ c <> "-"%char /\ c <> "+"%char /\ c <> Ascii.zero.
Proof. intros Hc. split_and!; intros ->; vm_compute in Hc; done. Qed.

Lemma Atoi_Itoa n : 0 <= n <= maxInt64 -> Atoi (bytes (Itoa n)) = Some n.
Proof.
  intros Hn. destruct (bytes_Itoa n) as (-> & Hne & HF); [lia|]. unfold Atoi.
  destruct (digits n) as [|c ds] eqn:Hd; [done|]. inversion HF as [|? ? Hc _]; subst.
  destruct (digit_not c Hc) as (_ & Hm & Hp & _).
  destruct (Ascii.eqb_spec c "-"%char); [done|]. destruct (Ascii.eqb_spec c "+"%char); [done|].
  rewrite <- Hd, parse_digits_digits by lia. rewrite (proj2 (Z.leb_le _ _)) by (unfold maxInt64 in *; lia).
  by rewrite (proj2 (Z.leb_le _ _)) by lia.
Qed.

Lemma Itoa_inj n m : 0 <= n -> 0 <= m -> Itoa n = Itoa m -> n = m.
Proof.
  intros Hn Hm He. apply (f_equal bytes) in He.
  rewrite (proj1 (bytes_Itoa n Hn)), (proj1 (bytes_Itoa m Hm)) in He.
  pose proof (parse_digits_digits n Hn) as H1. rewrite He, parse_digits_digits in H1 by done. congruence.
Qed.

Lemma Atoi_range l n : Atoi l = Some n -> - maxInt64 - 1 <= n <= maxInt64.
Proof.
  unfold Atoi. destruct (match l with [] => _ | c :: r => _ end) as [neg ds]. destruct ds as [|c ds]; [done|].
  destruct (parse_digits 0 (c :: ds)) as [m|]; [|done]. destruct (_ && _) eqn:Hr; [|done].
  intros [= <-]. bool_simpl. lia.
Qed.

(** ** A list cut at the first element of a kind *)
Lemma first_cut {A} (P : A -> Prop) (a a' b b' : list A) x x' :
  (a ++ x :: b)%list = (a' ++ x' :: b')%list -> P x -> P x' -> Forall (fun y => ~ P y) a ->
  Forall (fun y => ~ P y) a' -> a = a' /\ x = x' /\ b = b'.
Proof.
  revert a'. induction a as [|y a IH]; intros [|y' a'] He Hx Hx' Ha Ha'; simplify_eq/=; [done|..].
  - by inversion Ha'.
  - by inversion Ha.
  - inversion Ha; inversion Ha'; subst. destruct (IH a') as (-> & -> & ->); done.
Qed.
