(* ===== verification/Digest.v ===== *)
(** * Digests and encodings

    [Sha256]: the fingerprints of the Inbox are SHA-256 digests ([envelope.go]
    [EnvelopeFingerprint], [adapters/inbox/inbox.go] [AttemptFingerprint]).
    The function is defined by FIPS 180-4 on bytes; words are [Z] kept below
    [2^32].  Nothing is assumed about collisions: a theorem that needs two
    digests to differ says so of those two digests.  [Base64]:
    [base64.StdEncoding] of the Go standard library, as dead-letter records use
    it: [EncodeToString] with padding, and [DecodeString], which skips line
    breaks and does not look at the unused bits of the last group. *)
From S2P Require Import Prelude GoStrings.
From Stdlib Require Import Ascii.
Import Stdlib.Strings.String.
Open Scope string_scope.
Open Scope Z_scope.

Module Sha256.

Definition w32 (z : Z) : Z := Z.land z 4294967295.
Definition add32 (x y : Z) : Z := w32 (x + y).
Definition rotr (n x : Z) : Z := Z.lor (Z.shiftr x n) (w32 (Z.shiftl x (32 - n))).
Definition ch (x y z : Z) : Z := Z.lxor (Z.land x y) (Z.land (Z.lxor x 4294967295) z).
Definition maj (x y z : Z) : Z :=
  Z.lxor (Z.lxor (Z.land x y) (Z.land x z)) (Z.land y z).
Definition bsig0 (x : Z) : Z := Z.lxor (Z.lxor (rotr 2 x) (rotr 13 x)) (rotr 22 x).
Definition bsig1 (x : Z) : Z := Z.lxor (Z.lxor (rotr 6 x) (rotr 11 x)) (rotr 25 x).
Definition ssig0 (x : Z) : Z := Z.lxor (Z.lxor (rotr 7 x) (rotr 18 x)) (Z.shiftr x 3).
Definition ssig1 (x : Z) : Z := Z.lxor (Z.lxor (rotr 17 x) (rotr 19 x)) (Z.shiftr x 10).

Definition k_table : list Z :=
  [1116352408; 1899447441; 3049323471; 3921009573; 961987163; 1508970993;
   2453635748; 2870763221; 3624381080; 310598401; 607225278; 1426881987;
   1925078388; 2162078206; 2614888103; 3248222580; 3835390401; 4022224774;
   264347078; 604807628; 770255983; 1249150122; 1555081692; 1996064986;
   2554220882; 2821834349; 2952996808; 3210313671; 3336571891; 3584528711;
   113926993; 338241895; 666307205; 773529912; 1294757372; 1396182291;
   1695183700; 1986661051; 2177026350; 2456956037; 2730485921; 2820302411;
   3259730800; 3345764771; 3516065817; 3600352804; 4094571909; 275423344;
   430227734; 506948616; 659060556; 883997877; 958139571; 1322822218;
   1537002063; 1747873779; 1955562222; 2024104815; 2227730452; 2361852424;
   2428436474; 2756734187; 3204031479; 3329325298].

Definition h_init : list Z :=
  [1779033703; 3144134277; 1013904242; 2773480762; 1359893119; 2600822924;
   528734635; 1541459225].

(** Message schedule, most recent word first. *)
Fixpoint schedule (n : nat) (w : list Z) : list Z :=
  match n with
  | O => w
  | S n' =>
      let at_ i := nth i w 0 in
      schedule n' (add32 (add32 (ssig1 (at_ 1%nat)) (at_ 6%nat))
                         (add32 (ssig0 (at_ 14%nat)) (at_ 15%nat)) :: w)
  end.

Definition round (st : list Z) (kw : Z * Z) : list Z :=
  match st with
  | [a; b; c; d; e; f; g; h] =>
      let t1 := add32 (add32 (add32 h (bsig1 e)) (add32 (ch e f g) (fst kw))) (snd kw) in
      let t2 := add32 (bsig0 a) (maj a b c) in
      [add32 t1 t2; a; b; c; add32 d t1; e; f; g]
  | _ => st
  end.

Definition compress (st : list Z) (block : list Z) : list Z :=
  let w := reverse (schedule 48 (reverse block)) in
  zip_with add32 st (fold_left round (zip k_table w) st).

(** Big-endian conversions. *)
Definition be (l : list Z) : Z := fold_left (fun acc b => 256 * acc + b) l 0.
Fixpoint to_be (n : nat) (z : Z) : list Z :=
  match n with
  | O => []
  | S n' => (to_be n' (z / 256) ++ [z mod 256])%list
  end.

Fixpoint chunks {A} (fuel n : nat) (l : list A) : list (list A) :=
  match fuel, l with
  | S f, _ :: _ => take n l :: chunks f n (drop n l)
  | _, _ => []
  end.

Definition pad (l : list Z) : list Z :=
  let n := Z.of_nat (List.length l) in
  (l ++ [128%Z] ++ replicate (Z.to_nat ((55 - n) mod 64)) 0 ++ to_be 8 (8 * n))%list.

Definition digest (l : list Z) : list Z :=
  let p := pad l in
  let blocks := chunks (List.length p) 64 p in
  let st := fold_left (fun st b => compress st (List.map be (chunks 16 4 b))) blocks h_init in
  List.concat (List.map (to_be 4) st).

(** [sha256.Sum256] on byte strings. *)
Definition Sum256 (s : string) : string :=
  of_bytes (List.map chr (digest (List.map byteZ (bytes s)))).

Definition hex (s : string) : string := of_bytes (bytes s ≫= hex_byte).

Example Sum256_abc :
  hex (Sum256 "abc") = "ba7816bf8f01cfea414140de5dae2223b00361a396177a9cb410ff61f20015ad".
Proof. vm_compute. reflexivity. Qed.

Example Sum256_empty :
  hex (Sum256 "") = "e3b0c44298fc1c149afbf4c8996fb92427ae41e4649b934ca495991b7852b855".
Proof. vm_compute. reflexivity. Qed.

(** ** Every digest is 32 bytes long *)

Lemma length_to_be n z : List.length (to_be n z) = n.
Proof. revert z. induction n; intros; simpl; [done|]. rewrite length_app, IHn. simpl. lia. Qed.

Lemma length_round st kw : List.length (round st kw) = List.length st.
Proof. unfold round. repeat (case_match; try done). Qed.

Lemma length_rounds kws st : List.length (fold_left round kws st) = List.length st.
Proof. revert st. induction kws; intros; simpl; [done|]. by rewrite IHkws, length_round. Qed.

Lemma length_compress st b : List.length (compress st b) = List.length st.
Proof. unfold compress. rewrite length_zip_with, length_rounds. lia. Qed.

Lemma length_concat_words st :
  List.length (List.concat (List.map (to_be 4) st)) = (4 * List.length st)%nat.
Proof.
  induction st as [|z st IH]; [done|].
  cbn [List.map List.concat List.length]. rewrite length_app, IH, length_to_be. lia.
Qed.

Lemma length_Sum256 s : String.length (Sum256 s) = 32%nat.
Proof.
  unfold Sum256, digest. rewrite length_of_bytes, length_map, length_concat_words.
  assert (forall bs st, List.length (fold_left (fun st b =>
    compress st (List.map be (chunks 16 4 b))) bs st) = List.length st) as ->; [|done].
  induction bs; intros; simpl; [done|]. by rewrite IHbs, length_compress.
Qed.

End Sha256.

Module Base64.

Definition pad : ascii := "="%char.

(** The alphabet. *)
Definition b64_digit (z : Z) : ascii :=
  if z <? 26 then chr (65 + z)
  else if z <? 52 then chr (97 + (z - 26))
  else if z <? 62 then chr (48 + (z - 52))
  else if z =? 62 then "+"%char else "/"%char.

Definition b64_value (c : ascii) : option Z :=
  let z := byteZ c in
  if is_upper c then Some (z - 65)
  else if is_lower c then Some (z - 97 + 26)
  else if is_digit c then Some (z - 48 + 52)
  else if z =? 43 then Some 62
  else if z =? 47 then Some 63
  else None.

Fixpoint encode (l : list ascii) : list ascii :=
  match l with
  | [] => []
  | [a] =>
      let a := byteZ a in
      [b64_digit (a / 4); b64_digit (a mod 4 * 16); pad; pad]
  | [a; b] =>
      let a := byteZ a in let b := byteZ b in
      [b64_digit (a / 4); b64_digit (a mod 4 * 16 + b / 16); b64_digit (b mod 16 * 4); pad]
  | a :: b :: c :: rest =>
      let a := byteZ a in let b := byteZ b in let c := byteZ c in
      b64_digit (a / 4) :: b64_digit (a mod 4 * 16 + b / 16) ::
      b64_digit (b mod 16 * 4 + c / 64) :: b64_digit (c mod 64) :: encode rest
  end.

Definition EncodeToString (s : string) : string := of_bytes (encode (bytes s)).
Definition EncodedLen (n : Z) : Z := (n + 2) / 3 * 4.

(** Groups of four digits; padding ends the text. *)
Fixpoint decode (l : list ascii) : option (list ascii) :=
  match l with
  | [] => Some []
  | a :: b :: c :: d :: rest =>
      match b64_value a, b64_value b with
      | Some x, Some y =>
          let first := chr (x * 4 + y / 16) in
          if Ascii.eqb c pad then
            if Ascii.eqb d pad && bool_decide (rest = []) then Some [first] else None
          else match b64_value c with
          | None => None
          | Some z =>
              let second := chr (y mod 16 * 16 + z / 4) in
              if Ascii.eqb d pad then
                if bool_decide (rest = []) then Some [first; second] else None
              else match b64_value d with
              | None => None
              | Some u =>
                  match decode rest with
                  | Some out => Some (first :: second :: chr (z mod 4 * 64 + u) :: out)
                  | None => None
                  end
              end
          end
      | _, _ => None
      end
  | _ => None
  end.

Definition line_break (c : ascii) : bool := (byteZ c =? 13) || (byteZ c =? 10).
Definition DecodeString (s : string) : option string :=
  option_map of_bytes (decode (List.filter (fun c => negb (line_break c)) (bytes s))).

Example Encode_ex : EncodeToString "Hello, Go" = "SGVsbG8sIEdv". Proof. reflexivity. Qed.
Example Encode_pad : EncodeToString "ab" = "YWI=" /\ EncodeToString "a" = "YQ==". Proof. by split. Qed.
Example Decode_break : DecodeString "YQ
==" = Some "a". Proof. reflexivity. Qed.
Example Decode_bad : DecodeString "YQ=" = None /\ DecodeString "YQ==x" = None /\ DecodeString "Y@==" = None.
Proof. by split_and!. Qed.

(** ** Round trip *)
Definition digits64 : list Z := List.map Z.of_nat (seq 0 64).
Lemma digit_facts z :
  0 <= z < 64 -> b64_value (b64_digit z) = Some z /\ Ascii.eqb (b64_digit z) pad = false /\
                 line_break (b64_digit z) = false.
Proof.
  intros Hz. assert (z ∈ digits64) as Hin.
  { apply list_elem_of_In, List.in_map_iff. exists (Z.to_nat z). rewrite List.in_seq. lia. }
  assert (forallb (fun z => bool_decide (b64_value (b64_digit z) = Some z) && negb (Ascii.eqb (b64_digit z) pad) &&
                 negb (line_break (b64_digit z))) digits64 = true) as Hall by reflexivity.
  rewrite List.forallb_forall in Hall. apply list_elem_of_In in Hin. specialize (Hall _ Hin). simpl in Hall.
  rewrite !andb_true_iff, bool_decide_eq_true, !negb_true_iff in Hall. tauto.
Qed.

Lemma value_digit z : 0 <= z < 64 -> b64_value (b64_digit z) = Some z.
Proof. intros Hz. by apply digit_facts. Qed.
Lemma digit_not_pad z : 0 <= z < 64 -> Ascii.eqb (b64_digit z) pad = false.
Proof. intros Hz. by apply digit_facts. Qed.

Ltac sextet := Z.to_euclidean_division_equations; lia.

Lemma chr_byte z c : z = byteZ c -> chr z = c.
Proof. intros ->. apply chr_byteZ. Qed.

(** Induction in steps of three. *)
Lemma three_ind (P : list ascii -> Prop) :
  P [] -> (forall a, P [a]) -> (forall a b, P [a; b]) ->
  (forall a b c rest, P rest -> P (a :: b :: c :: rest)) -> forall l, P l.
Proof.
  intros H0 H1 H2 H3 l. enough (P l /\ (forall a, P (a :: l)) /\ (forall a b, P (a :: b :: l))) by tauto.
  induction l as [|x l (IH & IH1 & IH2)]; [auto|]. split_and!; auto.
Qed.

Lemma decode_encode l : decode (encode l) = Some l.
Proof.
  induction l as [|a|a b|a b c rest IH] using three_ind; [done|..];
    pose proof (byteZ_range a); try pose proof (byteZ_range b); try pose proof (byteZ_range c); cbn -[Z.div Z.modulo].
  - rewrite !value_digit by sextet. do 2 f_equal. apply chr_byte. sextet.
  - rewrite !value_digit by sextet. rewrite digit_not_pad by sextet. do 2 f_equal; [|f_equal]; apply chr_byte; sextet.
  - rewrite !value_digit by sextet. rewrite !digit_not_pad by sextet. rewrite IH.
    do 2 f_equal; [|f_equal; [|f_equal]]; apply chr_byte; sextet.
Qed.

Lemma encode_no_break l : Forall (fun c => line_break c = false) (encode l).
Proof.
  induction l as [|a|a b|a b c rest IH] using three_ind; [constructor|..];
    pose proof (byteZ_range a); try pose proof (byteZ_range b); try pose proof (byteZ_range c); cbn -[Z.div Z.modulo];
    repeat apply List.Forall_cons; try apply List.Forall_nil; try done; apply digit_facts; sextet.
Qed.

Lemma DecodeString_EncodeToString s : DecodeString (EncodeToString s) = Some s.
Proof.
  unfold DecodeString, EncodeToString. rewrite bytes_of_bytes.
  assert (forall l, Forall (fun c => line_break c = false) l ->
            List.filter (fun c => negb (line_break c)) l = l) as Hf.
  { induction 1 as [|c l Hc _ IH]; [done|]. simpl. rewrite Hc. simpl. by rewrite IH. }
  rewrite Hf by apply encode_no_break. rewrite decode_encode. simpl. by rewrite of_bytes_bytes.
Qed.

Lemma length_encode l : Z.of_nat (List.length (encode l)) = EncodedLen (Z.of_nat (List.length l)).
Proof.
  unfold EncodedLen. induction l as [|a|a b|a b c rest IH] using three_ind; [done..|].
  cbn [encode List.length]. rewrite !Nat2Z.inj_succ, IH. sextet.
Qed.

Lemma len_EncodeToString s : len (EncodeToString s) = EncodedLen (len s).
Proof.
  unfold EncodeToString, len. rewrite length_of_bytes, length_encode. by rewrite length_bytes.
Qed.
End Base64.
