(* ===== verification/Errors.v ===== *)
(** * Errors, failure markers and their classification

    Models [errors.go], [failure.go], the [DeferAfter] marker of [batch.go] and
    the classification of [internal/batchruntime/batchruntime.go].

    A Go error is the tree that [errors.Is] and [errors.As] walk: a value
    created by [errors.New], a value of [fmt.Errorf] with the errors it wraps
    with [%w] (one or several), one of the marker types of the package, or a
    join.  A nil error is [None].  The text of a formatted error is kept only as
    its static label. *)
From S2P Require Import Prelude GoStrings.
From Stdlib Require Import Ascii.
Import Stdlib.Strings.String.
Open Scope string_scope.
Open Scope Z_scope.

(** ** Sentinels: the package-level [errors.New] values compared by identity

    [ErrForeign] is a sentinel of a client library, by its qualified name; its
    text is never used. *)
Inductive sentinel : Set :=
| ErrInvalidDescriptor | ErrInvalidMessage | ErrDescriptorConflict
| ErrHandlerConflict | ErrHandlerNotFound | ErrQueryResultMissing
| ErrRouteConflict | ErrRouteNotFound | ErrUnsupportedCapability
| ErrMessageExpired | ErrMessageNotReady | ErrServiceConflict
| ErrRuntimeNotRunning | ErrRuntimeRunning | ErrRuntimeClosed
| ErrEnvelopeTooLarge | ErrInvalidBatchResult
| Canceled | DeadlineExceeded
| ErrFingerprintConflict | ErrInvalidKey | ErrAttemptsExhausted
| ErrAttemptTerminal | ErrAttemptConflict | ErrAttemptTrackingUnsupported
| ErrBatchAttemptTrackingUnsupported | ErrTerminalRetentionUnsupported
| ErrTerminalStateMissing | ErrNoRows
| ErrKafkaInvalidConfig | ErrKafkaMessageExpired | ErrTransactionNotCommitted
| ErrRetryOffsetRewindNotConfirmed
| ErrNatsMessageExpired | ErrNatsMessageNotReady
| ErrNatsInvalidConfig | ErrNatsTopologyDrift | ErrNatsConsumerClosed | ErrQuarantineReplay
| ErrTransportClosed | ErrKafkaConsumerClosed | ErrKafkaTopologyDrift | ErrKafkaMessageNotReady
| ErrForeign (name : string).

#[global] Instance sentinel_eq_dec : EqDecision sentinel.
Proof. solve_decision. Defined.

(** The messages the failure sanitizer prints. *)
Definition sentinel_text (s : sentinel) : string :=
  match s with
  | ErrInvalidDescriptor => "messenger: invalid descriptor"
  | ErrInvalidMessage => "messenger: invalid message"
  | ErrDescriptorConflict => "messenger: descriptor conflict"
  | ErrHandlerConflict => "messenger: handler conflict"
  | ErrHandlerNotFound => "messenger: handler not found"
  | ErrQueryResultMissing => "messenger: query result missing"
  | ErrRouteConflict => "messenger: route conflict"
  | ErrRouteNotFound => "messenger: route not found"
  | ErrUnsupportedCapability => "messenger: unsupported route capability"
  | ErrMessageExpired => "messenger: message expired"
  | ErrMessageNotReady => "messenger: message not ready"
  | ErrServiceConflict => "messenger: service conflict"
  | ErrRuntimeNotRunning => "messenger: runtime not running"
  | ErrRuntimeRunning => "messenger: runtime already running"
  | ErrRuntimeClosed => "messenger: runtime closed"
  | ErrEnvelopeTooLarge => "messenger: envelope too large"
  | ErrInvalidBatchResult => "messenger: invalid batch result"
  | Canceled => "context canceled"
  | DeadlineExceeded => "context deadline exceeded"
  | ErrFingerprintConflict => "inbox: message identity has a different fingerprint"
  | ErrInvalidKey => "inbox: invalid key"
  | ErrAttemptsExhausted => "inbox: handler attempts exhausted"
  | ErrAttemptTerminal => "inbox: handler attempt is terminal"
  | ErrAttemptConflict => "inbox: message identity is tracked by attempt processing"
  | ErrAttemptTrackingUnsupported => "inbox: durable attempt tracking is unsupported"
  | ErrBatchAttemptTrackingUnsupported => "inbox: durable batch attempt tracking is unsupported"
  | ErrTerminalRetentionUnsupported => "inbox: terminal retention is unsupported"
  | ErrTerminalStateMissing => "inbox: terminal generation is missing"
  | ErrNoRows => "sql: no rows in result set"
  | ErrKafkaInvalidConfig => "messenger/kafka: invalid configuration"
  | ErrKafkaMessageExpired => "messenger/kafka: message expired"
  | ErrTransactionNotCommitted => "messenger/kafka: transaction was aborted"
  | ErrRetryOffsetRewindNotConfirmed => "messenger/kafka: retry offset rewind was not confirmed"
  | ErrNatsMessageExpired => "messenger/nats: message expired"
  | ErrNatsMessageNotReady => "messenger/nats: message is not ready"
  | ErrNatsInvalidConfig => "messenger/nats: invalid configuration"
  | ErrNatsTopologyDrift => "messenger/nats: topology drift"
  | ErrNatsConsumerClosed => "messenger/nats: consumer closed"
  | ErrQuarantineReplay => "messenger/nats: quarantine records cannot be replayed"
  | ErrTransportClosed => "messenger/kafka: transport closed"
  | ErrKafkaConsumerClosed => "messenger/kafka: consumer closed"
  | ErrKafkaTopologyDrift => "messenger/kafka: topology drift"
  | ErrKafkaMessageNotReady => "messenger/kafka: message is not ready"
  | ErrForeign name => name
  end.

(** ** Error trees *)
Inductive error : Type :=
| ENew (text : string)
| ESentinel (s : sentinel)
| EFmt (label : string) (wrapped : list error)
| EPermanent (cause : error)
| ERetryAfter (cause : error) (delay : Duration)
| EDeferAfter (cause : error) (delay : Duration)
| EHandlerPanic (handlerID : string)
| ESanitized (cause : error) (message : string)
| EJoin (errs : list error).

(** [fmt.Errorf("%w: label", s)] *)
Abbreviation wrapS s label := (EFmt label [ESentinel s]).

(** What [Unwrap] gives. *)
Definition unwrap (e : error) : list error :=
  match e with
  | ENew _ | ESentinel _ | EHandlerPanic _ => []
  | EFmt _ ws | EJoin ws => ws
  | EPermanent c | ERetryAfter c _ | EDeferAfter c _ | ESanitized c _ => [c]
  end.

(** [errors.As]: the first error of the tree, in pre-order, that [f] accepts. *)
Fixpoint errors_as {A} (f : error -> option A) (e : error) {struct e} : option A :=
  match f e with
  | Some a => Some a
  | None =>
      match e with
      | ENew _ | ESentinel _ | EHandlerPanic _ => None
      | EFmt _ ws | EJoin ws => first_some (List.map (errors_as f) ws)
      | EPermanent c | ERetryAfter c _ | EDeferAfter c _ | ESanitized c _ => errors_as f c
      end
  end.

Definition as_sentinel (s : sentinel) (e : error) : option unit :=
  match e with
  | ESentinel s' => if decide (s = s') then Some tt else None
  | _ => None
  end.

(** [errors.Is(err, s)]; a nil error is no sentinel. *)
Definition errors_is (e : option error) (s : sentinel) : bool :=
  match e with
  | Some e => bool_decide (is_Some (errors_as (as_sentinel s) e))
  | None => false
  end.

(** [errors.Join] drops nil errors and is nil when all are. *)
Definition errors_join (es : list (option error)) : option error :=
  match omap id es with
  | [] => None
  | l => Some (EJoin l)
  end.

(** ** Markers *)
Definition Permanent (err : option error) : option error :=
  match err with
  | None => None
  | Some e => Some (EPermanent e)
  end.

Definition RetryAfter (err : option error) (delay : Duration) : option error :=
  match err with
  | None => None
  | Some e =>
      if delay <=? 0
      then Some (EFmt "retry delay must be positive" [ESentinel ErrInvalidMessage; e])
      else Some (ERetryAfter e delay)
  end.

Definition DeferAfter (err : option error) (delay : Duration) : option error :=
  match err with
  | None => None
  | Some e =>
      if delay <=? 0
      then Some (EFmt "defer delay must be positive" [ESentinel ErrInvalidMessage; e])
      else Some (EDeferAfter e delay)
  end.

Definition as_permanent (e : error) : option unit :=
  match e with EPermanent _ => Some tt | _ => None end.
Definition as_retryAfter (e : error) : option Duration :=
  match e with ERetryAfter _ d => Some d | _ => None end.
Definition as_deferAfter (e : error) : option Duration :=
  match e with EDeferAfter _ d => Some d | _ => None end.
Definition as_handlerPanic (e : error) : option string :=
  match e with EHandlerPanic id => Some id | _ => None end.

Definition IsPermanent (err : option error) : bool :=
  match err with
  | Some e => bool_decide (is_Some (errors_as as_permanent e))
  | None => false
  end.

Definition RetryDelay (err : option error) : option Duration :=
  err ≫= errors_as as_retryAfter.

Definition DeferDelay (err : option error) : option Duration :=
  err ≫= errors_as as_deferAfter.

(** ** Classification of a handler error *)
Inductive FailureKind : Set :=
| FailureSuccess | FailurePermanent | FailureDefer | FailureRetryAfter | FailureOrdinary.

#[global] Instance FailureKind_eq_dec : EqDecision FailureKind.
Proof. solve_decision. Defined.

Definition Classify (err : option error) : FailureKind * Duration :=
  match err with
  | None => (FailureSuccess, 0)
  | Some _ =>
      if IsPermanent err then (FailurePermanent, 0)
      else match DeferDelay err with
      | Some delay => (FailureDefer, delay)
      | None =>
          match RetryDelay err with
          | Some delay => (FailureRetryAfter, delay)
          | None => (FailureOrdinary, 0)
          end
      end
  end.

Definition IsFailClosed (err : option error) : bool :=
  errors_is err ErrInvalidBatchResult || IsPermanent err.

(** ** Handler completion and panics *)

(** A context as far as these functions look at it: [None] is a nil context,
    [Some e] one whose [Err()] is [e]. *)
Definition HandlerCompletionError (ctx : option (option error)) (handlerErr : option error)
  : option error :=
  match handlerErr with
  | Some _ => handlerErr
  | None =>
      match ctx with
      | None => Some (wrapS ErrInvalidMessage "nil handler context")
      | Some ctxErr => ctxErr
      end
  end.

Definition handlerPanicText (handlerID : string) : string :=
  if decide (handlerID = "") then "messenger: handler panicked"
  else "messenger: handler " ++ handlerID ++ " panicked".

Record PanicReport := { pr_handlerID : string; pr_value : string; pr_stack : string }.

(** The reports sent to the optional reporter and the safe error returned; a
    panic inside the reporter is recovered and changes nothing. *)
Definition ReportHandlerPanic (ctx_nil reporter_nil : bool) (handlerID recovered stack : string)
  : list PanicReport * error :=
  if ctx_nil then ([], EHandlerPanic handlerID)
  else ((if reporter_nil then []
         else [{| pr_handlerID := handlerID; pr_value := recovered; pr_stack := stack |}]),
        EHandlerPanic handlerID).

(** ** Failure text *)
Definition operation_failed : string := "messenger: operation failed".

(** The sentinels the default sanitizer names, in the order of its cases. *)
Definition sanitizer_cases : list sentinel :=
  [Canceled; DeadlineExceeded; ErrEnvelopeTooLarge; ErrDescriptorConflict;
   ErrUnsupportedCapability; ErrMessageExpired; ErrMessageNotReady;
   ErrInvalidMessage; ErrInvalidBatchResult].

Definition defaultFailureSanitizer (err : option error) : string :=
  match err with
  | None => ""
  | Some e =>
      match errors_as as_handlerPanic e with
      | Some id => handlerPanicText id
      | None =>
          match List.find (errors_is err) sanitizer_cases with
          | Some s => sentinel_text s
          | None => operation_failed
          end
      end
  end.

(** A host sanitizer: [None] is a nil or typed-nil interface; a result [None]
    is a panic of the sanitizer. *)
Definition FailureSanitizer := option (option error -> option string).

Definition callFailureSanitizer (s : option error -> option string) (err : option error) : string :=
  match s err with Some t => t | None => "" end.

Definition SanitizeFailure (sanitizer : FailureSanitizer) (err : option error) : string :=
  match err with
  | None => ""
  | Some _ =>
      let f := match sanitizer with
               | Some f => f
               | None => fun e => Some (defaultFailureSanitizer e)
               end in
      let text := TrimSpace (callFailureSanitizer f err) in
      if decide (text = "") then operation_failed else ToValidUTF8 text
  end.

Definition SanitizeError (sanitizer : FailureSanitizer) (err : option error) : option error :=
  match err with
  | None => None
  | Some e => Some (ESanitized e (SanitizeFailure sanitizer err))
  end.

(** The backwards scan [for end > 0 && !utf8.RuneStart(text[end])]. *)
Fixpoint rune_boundary (text : list ascii) (end_ : nat) : nat :=
  match end_ with
  | O => O
  | S n =>
      match text !! end_ with
      | Some c => if RuneStart c then end_ else rune_boundary text n
      | None => end_
      end
  end.

Definition BoundedFailureText (sanitizer : FailureSanitizer) (err : option error) (limit : Z) : string :=
  if limit <=? 0 then ""
  else
    let text := SanitizeFailure sanitizer err in
    if len text <=? limit then text
    else of_bytes (take (rune_boundary (bytes text) (Z.to_nat limit)) (bytes text)).

(** ** The tree relation behind [errors.Is] and [errors.As] *)

(** [sub x e]: [x] is reached from [e] by repeated [Unwrap]. *)
Inductive sub (x : error) : error -> Prop :=
| sub_refl : sub x x
| sub_step e c : c ∈ unwrap e -> sub x c -> sub x e.

Section ErrorInd.
Variable P : error -> Prop.
Hypothesis Hstep : forall e, Forall P (unwrap e) -> P e.

Fixpoint error_tree_ind (e : error) : P e.
Proof.
  apply Hstep. destruct e; simpl; try constructor; try apply error_tree_ind; try constructor.
  - induction wrapped; constructor; [apply error_tree_ind | assumption].
  - induction errs; constructor; [apply error_tree_ind | assumption].
Qed.
End ErrorInd.

Lemma errors_as_unfold {A} (f : error -> option A) e :
  errors_as f e = match f e with
                  | Some a => Some a
                  | None => first_some (List.map (errors_as f) (unwrap e))
                  end.
Proof. destruct e; simpl; destruct (f _); try done; simpl; by destruct (errors_as f _). Qed.

Lemma errors_as_Some {A} (f : error -> option A) e a :
  errors_as f e = Some a -> exists x, sub x e /\ f x = Some a.
Proof.
  induction e as [e IH] using error_tree_ind. rewrite errors_as_unfold.
  destruct (f e) eqn:Hf; intros H; simplify_eq; [exists e; split; [constructor|done]|].
  apply first_some_Some, list_elem_of_In, in_map_iff in H as (c & Hc & Hin).
  apply list_elem_of_In in Hin.
  rewrite Forall_forall in IH. destruct (IH c Hin Hc) as (x & Hx & Hfx).
  exists x. split; [by econstructor|done].
Qed.

Lemma errors_as_sub {A} (f : error -> option A) x e :
  sub x e -> is_Some (f x) -> is_Some (errors_as f e).
Proof.
  induction 1 as [|e c Hc Hs IH]; intros Hx; rewrite errors_as_unfold.
  - destruct Hx as [a ->]. eauto.
  - destruct (f e); [eauto|]. destruct (first_some _) eqn:Hn; [eauto|].
    rewrite first_some_None, Forall_map, Forall_forall in Hn.
    rewrite (Hn c Hc) in IH. by destruct (IH Hx).
Qed.

Lemma errors_as_None {A} (f : error -> option A) e :
  errors_as f e = None <-> forall x, sub x e -> f x = None.
Proof.
  split.
  - intros Hn x Hx. destruct (f x) eqn:Hf; [|done].
    destruct (errors_as_sub f x e Hx) as [? Ha]; [eauto|]. congruence.
  - intros Hn. destruct (errors_as f e) eqn:Ha; [|done].
    apply errors_as_Some in Ha as (x & Hx & Hf). rewrite Hn in Hf; done.
Qed.

Lemma errors_is_sub e s : errors_is (Some e) s = true <-> sub (ESentinel s) e.
Proof.
  simpl. rewrite bool_decide_eq_true. split.
  - intros [[] H]. apply errors_as_Some in H as (x & Hx & Hs).
    destruct x; simplify_eq/=. by case_decide; simplify_eq.
  - intros H. eapply errors_as_sub; [done|]. simpl. rewrite decide_True by done. eauto.
Qed.

Lemma IsPermanent_sub e : IsPermanent (Some e) = true <-> exists c, sub (EPermanent c) e.
Proof.
  simpl. rewrite bool_decide_eq_true. split.
  - intros [[] H]. apply errors_as_Some in H as (x & Hx & Hs). destruct x; simplify_eq/=. eauto.
  - intros [c H]. eapply errors_as_sub; [done|]. simpl. eauto.
Qed.

Lemma DeferDelay_sub e d : DeferDelay (Some e) = Some d -> exists c, sub (EDeferAfter c d) e.
Proof.
  simpl. intros H. apply errors_as_Some in H as (x & Hx & Hs). destruct x; simplify_eq/=. eauto.
Qed.

Lemma RetryDelay_sub e d : RetryDelay (Some e) = Some d -> exists c, sub (ERetryAfter c d) e.
Proof.
  simpl. intros H. apply errors_as_Some in H as (x & Hx & Hs). destruct x; simplify_eq/=. eauto.
Qed.

Lemma sub_cons_inv x e c : sub x e -> unwrap e = [c] -> x = e \/ sub x c.
Proof.
  intros Hs Hu. destruct Hs as [|? c' Hc Hs]; [by left|right].
  rewrite Hu in Hc. apply list_elem_of_singleton in Hc as ->. done.
Qed.

(** ** Well-formed delays *)

(** Every retry or defer marker of the tree carries a positive delay, which is
    what the marker constructors guarantee. *)
Definition delays_positive (e : error) : Prop :=
  forall c d, sub (ERetryAfter c d) e \/ sub (EDeferAfter c d) e -> 0 < d.

Lemma delays_positive_unwrap e :
  (forall c d, e <> ERetryAfter c d) -> (forall c d, e <> EDeferAfter c d) ->
  Forall delays_positive (unwrap e) -> delays_positive e.
Proof.
  intros Hr Hd Hall c d H. rewrite Forall_forall in Hall.
  destruct H as [H|H]; inversion H as [Heq|? c' Hc Hs]; subst.
  - by destruct (Hr c d).
  - eapply (Hall c' Hc c d). by left.
  - by destruct (Hd c d).
  - eapply (Hall c' Hc c d). by right.
Qed.

Lemma delays_positive_marker e c d :
  e = ERetryAfter c d \/ e = EDeferAfter c d -> 0 < d -> delays_positive c -> delays_positive e.
Proof.
  intros He Hd Hc c' d' [H|H]; destruct He as [->| ->];
    (apply sub_cons_inv with (c := c) in H as [H|H]; [by simplify_eq| |done]);
    eapply Hc; eauto.
Qed.

Lemma delays_positive_sentinel s : delays_positive (ESentinel s).
Proof. apply delays_positive_unwrap; [done..|constructor]. Qed.
#[export] Hint Resolve delays_positive_sentinel : go.

Lemma marker_delays_positive e d :
  delays_positive e ->
  Forall delays_positive
    (omap id [Permanent (Some e); RetryAfter (Some e) d; DeferAfter (Some e) d]).
Proof.
  intros He. simpl.
  destruct (Z.leb_spec d 0); simpl; repeat constructor;
    try (eapply delays_positive_marker; eauto; done);
    apply delays_positive_unwrap; try done; repeat constructor; eauto with go.
Qed.

(** ** The backwards scan *)
Lemma rune_boundary_le text n : (rune_boundary text n <= n)%nat.
Proof. induction n as [|n IH]; simpl; [done|]. repeat case_match; lia. Qed.

Lemma rune_boundary_start text n :
  (n < List.length text)%nat ->
  rune_boundary text n = O \/
  exists c, text !! rune_boundary text n = Some c /\ RuneStart c = true.
Proof.
  induction n as [|n IH]; intros Hn; [by left|]. simpl.
  destruct (lookup_lt_is_Some_2 text (S n)) as [c Hc]; [lia|]. rewrite Hc.
  destruct (RuneStart c) eqn:Hs; [right; eauto|]. apply IH. lia.
Qed.

Lemma SanitizeFailure_valid sanitizer err :
  valid_utf8 (bytes (SanitizeFailure sanitizer err)).
Proof.
  unfold SanitizeFailure. destruct err as [e|]; [|constructor].
  case_decide; [|apply ToValidUTF8_valid].
  repeat (apply valid_rune; [done|simpl drop]). constructor.
Qed.

(** A truncated text loses at most the tail of one rune. *)
Lemma rune_boundary_lower l n :
  valid_utf8 l -> (n < List.length l)%nat -> (n - 3 <= rune_boundary l n)%nat.
Proof.
  intros Hv Hn.
  assert (exists k c, (k <= n <= k + 3)%nat /\ l !! k = Some c /\ RuneStart c = true)
    as (k & c & Hk & Hc & Hs) by (by apply valid_start_near).
  cut (k <= rune_boundary l n)%nat; [lia|].
  assert (k <= n)%nat as Hkn by lia. clear Hk Hv.
  revert Hn Hkn. induction n as [|n IH]; intros Hn Hkn; [lia|]. simpl.
  destruct (l !! S n) as [b|] eqn:Hb; [|done].
  destruct (RuneStart b) eqn:Hsb; [done|].
  destruct (decide (k = S n)) as [->|]; [congruence|]. apply IH; lia.
Qed.

(** ** Main theorems *)

(** The classification of a failed delivery depends only on the markers in
    the error tree, with the precedence permanent, then defer, then retry
    delay; and a delayed outcome always carries a positive delay when every
    marker of the tree was made by the marker constructors. *)
Theorem Classify_precedence e :
  delays_positive e ->
  let perm := exists c, sub (EPermanent c) e in
  let defer := exists c d, sub (EDeferAfter c d) e in
  let retry := exists c d, sub (ERetryAfter c d) e in
  match Classify (Some e) with
  | (FailureSuccess, _) => False
  | (FailurePermanent, d) => perm /\ d = 0
  | (FailureDefer, d) => ~ perm /\ 0 < d /\ exists c, sub (EDeferAfter c d) e
  | (FailureRetryAfter, d) => ~ perm /\ ~ defer /\ 0 < d /\ exists c, sub (ERetryAfter c d) e
  | (FailureOrdinary, d) => ~ perm /\ ~ defer /\ ~ retry /\ d = 0
  end.
Proof.
  intros Hpos perm defer retry. unfold Classify.
  destruct (IsPermanent (Some e)) eqn:Hp.
  { split; [by apply IsPermanent_sub|done]. }
  assert (~ perm) as Hnp by (intros Hc; apply IsPermanent_sub in Hc; congruence).
  destruct (DeferDelay (Some e)) as [d|] eqn:Hd.
  { apply DeferDelay_sub in Hd as [c Hc]. split_and!; eauto. }
  assert (~ defer) as Hnd.
  { intros (c & d & Hc). pose proof (proj1 (errors_as_None _ _) Hd _ Hc). done. }
  destruct (RetryDelay (Some e)) as [d|] eqn:Hr.
  { apply RetryDelay_sub in Hr as [c Hc]. split_and!; eauto. }
  split_and!; try done.
  intros (c & d & Hc). pose proof (proj1 (errors_as_None _ _) Hr _ Hc). done.
Qed.

Lemma Classify_precedence_witness :
  match RetryAfter (Some (ENew "busy")) Second with
  | Some e => match Classify (Some e) with
              | (FailureRetryAfter, d) => d = Second /\ ~ (exists c, sub (EPermanent c) e)
              | _ => False
              end
  | None => False
  end.
Proof.
  simpl. pose proof (Classify_precedence (ERetryAfter (ENew "busy") Second)) as H.
  simpl in H. split; [done|]. apply H.
  eapply delays_positive_marker; [left; reflexivity|done|].
  apply delays_positive_unwrap; [done..|constructor].
Defined.

(** The text kept for a failed delivery is valid UTF-8, never longer than
    the byte limit, a prefix of the sanitized text, and when it is shortened at
    most three bytes (the tail of one rune) below the limit. *)
Theorem BoundedFailureText_bounds sanitizer err limit :
  let text := SanitizeFailure sanitizer err in
  let out := BoundedFailureText sanitizer err limit in
  valid_utf8 (bytes out) /\ len out <= Z.max 0 limit /\
  bytes out `prefix_of` bytes text /\
  (0 < limit -> len out < len text -> limit - 3 <= len out).
Proof.
  intros text out. unfold out, BoundedFailureText. fold text.
  pose proof (SanitizeFailure_valid sanitizer err) as Hv. fold text in Hv.
  destruct (Z.leb_spec limit 0); simpl.
  { split_and!; [constructor|unfold len; simpl; lia|apply prefix_nil|lia]. }
  destruct (Z.leb_spec (len text) limit).
  { split_and!; [done|lia|done|lia]. }
  set (n := Z.to_nat limit).
  assert (n < List.length (bytes text))%nat as Hn by (rewrite length_bytes; unfold n, len in *; lia).
  pose proof (rune_boundary_le (bytes text) n) as Hle.
  pose proof (rune_boundary_lower (bytes text) n Hv Hn) as Hge.
  rewrite bytes_of_bytes. unfold len. rewrite length_of_bytes, length_take.
  split_and!; [|unfold n in *; lia|apply prefix_take|unfold n in *; lia].
  destruct (rune_boundary_start (bytes text) n Hn) as [->|(c & Hc & Hs)]; [constructor|].
  by eapply valid_cut.
Qed.

Lemma BoundedFailureText_bounds_witness :
  let out := BoundedFailureText None (Some (ENew "password=hunter2")) 10 in
  out = "messenger:" /\ 10 - 3 <= len out.
Proof.
  split; [reflexivity|].
  apply (BoundedFailureText_bounds None (Some (ENew "password=hunter2")) 10); vm_compute; reflexivity.
Defined.

(** The default sanitizer leaks nothing of an application error: its text is
    one of the fixed sentinel texts, the generic text, or names the handler
    that panicked; two errors that agree on those sentinels and on the
    panicking handler get the same text. *)
Theorem default_sanitizer_no_leak e1 e2 :
  (forall s, s ∈ sanitizer_cases -> errors_is (Some e1) s = errors_is (Some e2) s) ->
  errors_as as_handlerPanic e1 = errors_as as_handlerPanic e2 ->
  let t := SanitizeFailure None (Some e1) in
  t = SanitizeFailure None (Some e2) /\
  (t ∈ operation_failed :: List.map sentinel_text sanitizer_cases \/
   exists id, sub (EHandlerPanic id) e1 /\ t = ToValidUTF8 (TrimSpace (handlerPanicText id))).
Proof.
  intros His Hpanic t.
  assert (List.find (errors_is (Some e1)) sanitizer_cases
          = List.find (errors_is (Some e2)) sanitizer_cases) as Hfind.
  { clear t. revert His. generalize sanitizer_cases. induction l as [|s l IH]; intros His; [done|].
    cbn [List.find]. rewrite (His s) by left. rewrite IH; [done|]. intros; apply His; by right. }
  split.
  { unfold t, SanitizeFailure, callFailureSanitizer, defaultFailureSanitizer.
    by rewrite Hpanic, Hfind. }
  unfold t, SanitizeFailure, callFailureSanitizer, defaultFailureSanitizer.
  destruct (errors_as as_handlerPanic e1) as [id|] eqn:Hp.
  - case_decide as Htrim; [left; left|right].
    exists id. split; [|done].
    apply errors_as_Some in Hp as (x & Hx & Heq). destruct x; by simplify_eq/=.
  - left. destruct (List.find _ _) as [s|] eqn:Hs; [|vm_compute; left].
    apply List.find_some in Hs as [Hin _]. right.
    apply list_elem_of_In. apply in_map_iff. exists s. split; [|done].
    clear -Hin. simpl in Hin. repeat (destruct Hin as [<-|Hin]; [reflexivity|]). done.
Qed.

Lemma default_sanitizer_no_leak_witness :
  SanitizeFailure None (Some (ENew "token=abc")) = SanitizeFailure None (Some (ENew "x")).
Proof.
  apply (default_sanitizer_no_leak (ENew "token=abc") (ENew "x")); [|reflexivity].
  intros s _. reflexivity.
Defined.

(** Replacing the text of an error by the sanitized text keeps everything
    the delivery engine looks at: the sentinels, the classification with its
    delay, and whether the failure closes the batch. *)
Lemma SanitizeError_transparent sanitizer err :
  (forall s, errors_is (SanitizeError sanitizer err) s = errors_is err s) /\
  Classify (SanitizeError sanitizer err) = Classify err /\
  IsFailClosed (SanitizeError sanitizer err) = IsFailClosed err.
Proof. by destruct err. Qed.
