(* ===== verification/Backoff.v ===== *)
(** * Retry delays

    The exponential backoff of both broker adapters: [Consumer.retryDelay] of
    [adapters/nats/consumer.go] and [retryDelayWithReader] of
    [adapters/kafka/control.go], with [retryTier] and the transaction deadline.

    [random] stands for [rand.Int] of [crypto/rand]: a number below its argument,
    or an error.  It panics when its argument is not positive. *)
From S2P Require Import Prelude GoStrings Errors.
Open Scope Z_scope.

Module Backoff.

(** The doubling loop; [fuel] bounds the iterations, of which a 64-bit
    duration allows fewer than 64. *)
Fixpoint backoff (fuel : nat) (delay maximum : Duration) (current attempt : Z) : Duration :=
  match fuel with
  | O => delay
  | S fuel =>
      if (current <? attempt) && (delay <? maximum) then
        if Z.quot maximum 2 <? delay then maximum
        else backoff fuel (delay * 2) maximum (current + 1) attempt
      else delay
  end.

(** The delay before randomisation. *)
Definition ceiling (base maximum : Duration) (attempt : Z) : Duration :=
  let delay := backoff 64 base maximum 1 attempt in
  if maximum <? delay then maximum else delay.

(** [rand.Int]: [None] is a panic, [Some None] an error. *)
Definition rand_Int (random : Z -> option Z) (bound : Z) : option (option Z) :=
  if bound <=? 0 then None else Some (random bound).

(** NATS: uniform on [0 .. ceiling]; the bound is computed with 64 bits. *)
Definition nats_retryDelay (random : Z -> option Z) (base maximum : Duration) (attempt : Z) : option Duration :=
  let delay := ceiling base maximum attempt in
  if delay <=? 1 then Some delay
  else match rand_Int random (wrap64 (delay + 1)) with
  | None => None
  | Some None => Some delay
  | Some (Some n) => Some n
  end.

(** Kafka: uniform on [1 .. ceiling]. *)
Definition kafka_retryDelay (random : Z -> option Z) (base maximum : Duration) (attempt : Z) : option Duration :=
  let delay := ceiling base maximum attempt in
  if delay <=? 1 then Some delay
  else match rand_Int random delay with
  | None => None
  | Some None => Some delay
  | Some (Some n) => Some (wrap64 (n + 1))
  end.

(** The first tier that is long enough. *)
Fixpoint tier_from (tiers : list Duration) (delay : Duration) (index : nat) : option nat :=
  match tiers with
  | [] => None
  | tier :: rest => if delay <=? tier then Some index else tier_from rest delay (S index)
  end.
Definition retryTier (tiers : list Duration) (delay : Duration) : nat :=
  match tier_from tiers delay 0 with
  | Some index => index
  | None => List.length tiers - 1
  end.

(** The sum of two timeouts, saturated at the largest duration. *)
Definition handlerTransactionTimeout (handlerTimeout finalizationTimeout : Duration) : Duration :=
  if maxInt64 - finalizationTimeout <? handlerTimeout then maxInt64
  else handlerTimeout + finalizationTimeout.

Definition terminalRecordAttempt (handlerAttempt deliveryCount : Z) : Z :=
  if 0 <? handlerAttempt then handlerAttempt else Z.max 1 deliveryCount.

(** ** The loop computes the capped power *)
Lemma backoff_spec fuel delay maximum current attempt :
  0 < delay <= maximum -> maximum < 2 ^ Z.of_nat fuel * delay -> 0 <= current <= attempt ->
  backoff fuel delay maximum current attempt = Z.min maximum (delay * 2 ^ (attempt - current)).
Proof.
  revert delay current. induction fuel as [|fuel IH]; intros delay current Hd Hf Hc.
  { simpl in Hf. lia. }
  cbn [backoff]. destruct (Z.ltb_spec current attempt) as [Hlt|Hge]; simpl.
  2:{ replace (attempt - current) with 0 by lia. rewrite Z.mul_1_r. lia. }
  assert (1 <= 2 ^ (attempt - current - 1)) as Hpow
    by (pose proof (Z.pow_pos_nonneg 2 (attempt - current - 1)); lia).
  replace (attempt - current) with (Z.succ (attempt - current - 1)) at 1 by lia.
  rewrite Z.pow_succ_r by lia.
  destruct (Z.ltb_spec delay maximum) as [Hm|Hm]; [|nia].
  destruct (Z.ltb_spec (Z.quot maximum 2) delay) as [Hq|Hq].
  - rewrite Z.quot_div_nonneg in Hq by lia. assert (maximum < delay * 2) by (Z.to_euclidean_division_equations; lia). nia.
  - rewrite Z.quot_div_nonneg in Hq by lia. rewrite IH.
    + f_equal. replace (attempt - (current + 1)) with (attempt - current - 1) by lia. lia.
    + Z.to_euclidean_division_equations; lia.
    + rewrite Nat2Z.inj_succ, Z.pow_succ_r in Hf by lia. lia.
    + lia.
Qed.

Lemma ceiling_spec base maximum attempt :
  0 < base <= maximum -> maximum <= maxInt64 ->
  ceiling base maximum attempt = Z.min maximum (base * 2 ^ (Z.max 1 attempt - 1)).
Proof.
  intros Hb Hm. unfold ceiling, maxInt64 in *.
  destruct (Z_le_gt_dec 1 attempt) as [Ha|Ha].
  - rewrite backoff_spec by lia. rewrite Z.max_r by lia. destruct (Z.ltb_spec maximum (Z.min maximum (base * 2 ^ (attempt - 1)))); lia.
  - rewrite Z.max_l by lia. cbn [backoff]. destruct (Z.ltb_spec 1 attempt); [lia|]. simpl.
    destruct (Z.ltb_spec maximum base); lia.
Qed.

(** Below the largest duration the bound of the random number does not wrap. *)
Lemma nats_retryDelay_total random base maximum attempt :
  0 < base <= maximum -> maximum < maxInt64 -> is_Some (nats_retryDelay random base maximum attempt).
Proof.
  intros Hb Hm. unfold nats_retryDelay, rand_Int. rewrite ceiling_spec by lia.
  set (top := Z.min _ _). destruct (Z.leb_spec top 1); [by eauto|].
  rewrite wrap64_id by (unfold maxInt64 in *; lia). destruct (Z.leb_spec (top + 1) 0); [lia|]. destruct (random (top + 1)); eauto.
Qed.

Lemma kafka_retryDelay_total random base maximum attempt : is_Some (kafka_retryDelay random base maximum attempt).
Proof.
  unfold kafka_retryDelay, rand_Int. destruct (Z.leb_spec (ceiling base maximum attempt) 1); [by eauto|].
  destruct (Z.leb_spec (ceiling base maximum attempt) 0); [lia|]. destruct (random _); eauto.
Qed.

(** A Kafka delay is positive and at most the capped, doubled base. *)
Lemma kafka_retryDelay_range random base maximum attempt :
  0 < base <= maximum -> maximum <= maxInt64 -> (forall m v, random m = Some v -> 0 <= v < m) ->
  exists d, kafka_retryDelay random base maximum attempt = Some d /\ 1 <= d <= Z.min maximum (base * 2 ^ (Z.max 1 attempt - 1)).
Proof.
  intros Hb Hm Hr. set (top := Z.min _ _). assert (1 <= 2 ^ (Z.max 1 attempt - 1)) as Hpow
    by (pose proof (Z.pow_pos_nonneg 2 (Z.max 1 attempt - 1)); lia).
  assert (1 <= top <= maxInt64) as Ht by (unfold top; nia).
  unfold kafka_retryDelay, rand_Int. rewrite ceiling_spec by done. fold top. clearbody top. clear Hpow Hb Hm.
  destruct (Z.leb_spec top 1) as [Hs|Hl]; [exists top; split; [done|lia]|].
  destruct (Z.leb_spec top 0); [lia|]. destruct (random top) as [n|] eqn:E; [|exists top; split; [done|lia]].
  apply Hr in E. rewrite wrap64_id by (unfold maxInt64 in *; lia). exists (n + 1). split; [done|lia].
Qed.

Lemma retryTier_lt tiers delay : tiers <> [] -> (retryTier tiers delay < List.length tiers)%nat.
Proof.
  intros Ht. unfold retryTier.
  assert (forall l i j, tier_from l delay i = Some j -> (j < i + List.length l)%nat) as H.
  { induction l as [|t l IH]; intros i j; cbn; [done|]. destruct (_ <=? _); [intros [= <-]; lia|]. intros ?%IH. lia. }
  destruct (tier_from tiers delay 0) eqn:E; [by apply H in E|]. destruct tiers; [done|cbn; lia].
Qed.

(** C39. Retry delays of both adapters: for a valid configuration the loop ends
    within its 64 iterations and caps the doubled base at the maximum; a Kafka
    delay lies between 1 and that ceiling, a NATS delay between 0 and it.  Only
    the NATS delay can panic, and exactly when the ceiling is the largest
    duration, where the bound of the random number overflows. *)
Theorem retryDelay_bounds random base maximum attempt :
  0 < base <= maximum -> maximum <= maxInt64 ->
  (forall m v, random m = Some v -> 0 <= v < m) ->
  let top := Z.min maximum (base * 2 ^ (Z.max 1 attempt - 1)) in
  (exists d, kafka_retryDelay random base maximum attempt = Some d /\ 1 <= d <= top) /\
  (top < maxInt64 -> exists d, nats_retryDelay random base maximum attempt = Some d /\ 0 <= d <= top) /\
  (nats_retryDelay random base maximum attempt = None <-> top = maxInt64).
Proof.
  intros Hb Hm Hr top. assert (1 <= 2 ^ (Z.max 1 attempt - 1)) as Hpow
    by (pose proof (Z.pow_pos_nonneg 2 (Z.max 1 attempt - 1)); lia).
  assert (1 <= top <= maxInt64) as Ht by (unfold top; nia).
  assert (forall z, 0 <= z <= maxInt64 -> wrap64 z = z) as Hw by (intros; apply wrap64_id; unfold maxInt64 in *; lia).
  split; [by apply kafka_retryDelay_range|]. unfold nats_retryDelay. rewrite ceiling_spec by done. fold top. unfold rand_Int.
  clearbody top. clear Hpow Hb Hm.
  destruct (Z.leb_spec top 1) as [Hs|Hl].
  { split; [intros _; exists top; split; [done|lia]|]. split; [done|]. intros. unfold maxInt64 in *. lia. }
  split.
  - intros Hlt. rewrite Hw by lia. destruct (Z.leb_spec (top + 1) 0); [lia|].
    destruct (random (top + 1)) as [n|] eqn:E; [|exists top; split; [done|lia]]. apply Hr in E. exists n. split; [done|lia].
  - split.
    + intros Hn. destruct (Z.eq_dec top maxInt64) as [|Hne]; [done|]. rewrite Hw in Hn by lia.
      destruct (Z.leb_spec (top + 1) 0); [lia|]. by destruct (random (top + 1)).
    + intros ->. reflexivity.
Qed.

Lemma retryDelay_bounds_witness :
  let random (m : Z) := if m <=? 0 then None else Some (m - 1) in
  (exists d, kafka_retryDelay random 2 100 3 = Some d /\ 1 <= d <= 8) /\ nats_retryDelay random 2 100 3 = Some 8.
Proof.
  intros random.
  assert (forall m v, random m = Some v -> 0 <= v < m) as Hr
    by (intros m v; unfold random; destruct (Z.leb_spec m 0); intros; simplify_eq; lia).
  assert (0 < 2 <= 100) as Hb by lia. assert (100 <= maxInt64) as Hm by (vm_compute; discriminate).
  destruct (retryDelay_bounds random 2 100 3 Hb Hm Hr) as (Hk & _). split; [|reflexivity]. exact Hk.
Defined.
End Backoff.
