(* ===== verification/Ident.v ===== *)
(** * Identities: kinds, encodings, codecs, descriptors, message ids

    Models [kind.go], [codec.go], [descriptor.go], [message_id.go], the data of
    [message.go] and the stable-id check of [builder.go].  The descriptor name
    pattern is kept as the regular expression the source compiles, with a
    derivative matcher proved equal to the language of the expression. *)
From S2P Require Import Prelude GoStrings Errors.
From Stdlib Require Import Ascii.
Import Stdlib.Strings.String.
Open Scope string_scope.
Open Scope Z_scope.

(** ** [kind.go] *)
Definition Kind := string.
Definition KindCommand : Kind := "command".
Definition KindEvent : Kind := "event".
Definition KindQuery : Kind := "query".

Definition Kind_valid (k : Kind) : bool :=
  String.eqb k KindCommand || String.eqb k KindEvent || String.eqb k KindQuery.
Definition Kind_validWire (k : Kind) : bool :=
  String.eqb k KindCommand || String.eqb k KindEvent.

(** ** [codec.go]: a [uint8] with three valid values *)
Definition DataEncoding := Z.
Definition DataJSON : DataEncoding := 1.
Definition DataText : DataEncoding := 2.
Definition DataBinary : DataEncoding := 3.

Definition DataEncoding_String (e : DataEncoding) : string :=
  if e =? DataJSON then "json"
  else if e =? DataText then "text"
  else if e =? DataBinary then "binary"
  else "".

Definition DataEncoding_valid (e : DataEncoding) : bool :=
  (e =? DataJSON) || (e =? DataText) || (e =? DataBinary).

(** The switch of [UnmarshalJSON], on the string the JSON text decoded to. *)
Definition DataEncoding_parse (value : string) : result error DataEncoding :=
  if String.eqb value (DataEncoding_String DataJSON) then Ok DataJSON
  else if String.eqb value (DataEncoding_String DataText) then Ok DataText
  else if String.eqb value (DataEncoding_String DataBinary) then Ok DataBinary
  else Err (wrapS ErrInvalidDescriptor "unknown data encoding").

(** A codec value; a nil interface is [None] where codecs are passed. *)
Record Codec (T : Type) : Type := {
  Encode : T -> result error string;
  Decode : string -> result error T;
  ContentType : string;
  Encoding : DataEncoding }.
Arguments Encode {T}. Arguments Decode {T}.
Arguments ContentType {T}. Arguments Encoding {T}.

Definition BytesCodec : Codec string :=
  {| Encode := fun value => Ok value; Decode := fun data => Ok data;
     ContentType := "application/octet-stream"; Encoding := DataBinary |}.

Definition TextCodec : Codec string :=
  {| Encode := fun value => Ok value; Decode := fun data => Ok data;
     ContentType := "text/plain; charset=utf-8"; Encoding := DataText |}.

(** A nil function is [None]. *)
Definition CustomCodec {T} (contentType : string) (encoding : DataEncoding)
  (encode : option (T -> result error string)) (decode : option (string -> result error T))
  : result error (Codec T) :=
  match encode, decode with
  | Some enc, Some dec =>
      if String.eqb contentType "" || negb (DataEncoding_valid encoding)
      then Err (wrapS ErrInvalidDescriptor "invalid custom codec")
      else Ok {| Encode := enc; Decode := dec; ContentType := contentType; Encoding := encoding |}
  | _, _ => Err (wrapS ErrInvalidDescriptor "invalid custom codec")
  end.

(** ** Regular expressions *)
Inductive regex : Type :=
| RNone
| REps
| RClass (p : ascii -> bool)
| RSeq (a b : regex)
| RAlt (a b : regex)
| RStar (a : regex).

Inductive rmatch : regex -> list ascii -> Prop :=
| m_eps : rmatch REps []
| m_class p c : p c = true -> rmatch (RClass p) [c]
| m_seq a b l k : rmatch a l -> rmatch b k -> rmatch (RSeq a b) (l ++ k)
| m_altl a b l : rmatch a l -> rmatch (RAlt a b) l
| m_altr a b l : rmatch b l -> rmatch (RAlt a b) l
| m_star0 a : rmatch (RStar a) []
| m_star a l k : rmatch a l -> rmatch (RStar a) k -> rmatch (RStar a) (l ++ k).

Fixpoint nullable (r : regex) : bool :=
  match r with
  | RNone | RClass _ => false
  | REps | RStar _ => true
  | RSeq a b => nullable a && nullable b
  | RAlt a b => nullable a || nullable b
  end.

Fixpoint deriv (c : ascii) (r : regex) : regex :=
  match r with
  | RNone | REps => RNone
  | RClass p => if p c then REps else RNone
  | RSeq a b =>
      if nullable a then RAlt (RSeq (deriv c a) b) (deriv c b) else RSeq (deriv c a) b
  | RAlt a b => RAlt (deriv c a) (deriv c b)
  | RStar a => RSeq (deriv c a) (RStar a)
  end.

(** [MatchString] of an expression anchored on both sides. *)
Fixpoint MatchString (r : regex) (l : list ascii) : bool :=
  match l with
  | [] => nullable r
  | c :: t => MatchString (deriv c r) t
  end.

(** ** [descriptor.go] *)
Definition maxDescriptorNameLength : Z := 200.

Definition lower_digit (c : ascii) : bool := is_lower c || is_digit c.
Definition separator (c : ascii) : bool :=
  Ascii.eqb c "."%char || Ascii.eqb c "_"%char || Ascii.eqb c "-"%char.

Definition RPlus (r : regex) : regex := RSeq r (RStar r).

(** [[a-z][a-z0-9]*(?:[._-][a-z0-9]+)*] *)
Definition descriptorNamePattern : regex :=
  RSeq (RClass is_lower)
    (RSeq (RStar (RClass lower_digit))
       (RStar (RSeq (RClass separator) (RPlus (RClass lower_digit))))).

Record DescriptorInfo := {
  di_Kind : Kind;
  di_Name : string;
  di_SchemaVersion : Z;
  di_ContentType : string;
  di_DataEncoding : DataEncoding;
  di_Schema : string }.

Record descriptor (T : Type) := { d_info : DescriptorInfo; d_codec : Codec T }.
Arguments d_info {T}. Arguments d_codec {T}.

Definition newDescriptor {T} (kind : Kind) (name : string) (schemaVersion : Z)
  (schema : string) (codec : option (Codec T)) : result error (descriptor T) :=
  match codec with
  | None => Err (wrapS ErrInvalidDescriptor "name and version")
  | Some codec =>
      if negb (Kind_valid kind) || (len name =? 0) || (maxDescriptorNameLength <? len name)
         || negb (MatchString descriptorNamePattern (bytes name)) || (schemaVersion <=? 0)
      then Err (wrapS ErrInvalidDescriptor "name and version")
      else if String.eqb (ContentType codec) "" || negb (DataEncoding_valid (Encoding codec))
      then Err (wrapS ErrInvalidDescriptor "codec")
      else Ok {| d_info := {| di_Kind := kind; di_Name := name;
                              di_SchemaVersion := schemaVersion;
                              di_ContentType := ContentType codec;
                              di_DataEncoding := Encoding codec;
                              di_Schema := schema |};
                 d_codec := codec |}
  end.

Definition NewCommand {T} (name : string) (schemaVersion : Z) (codec : option (Codec T)) :=
  newDescriptor KindCommand name schemaVersion "" codec.
Definition NewEvent {T} (name : string) (schemaVersion : Z) (codec : option (Codec T)) :=
  newDescriptor KindEvent name schemaVersion "" codec.
Definition NewQuery {T} (name : string) (schemaVersion : Z) (codec : option (Codec T)) :=
  newDescriptor KindQuery name schemaVersion "" codec.

Definition WithSchema {T} (d : descriptor T) (schema : string) : descriptor T :=
  {| d_info := {| di_Kind := di_Kind (d_info d); di_Name := di_Name (d_info d);
                  di_SchemaVersion := di_SchemaVersion (d_info d);
                  di_ContentType := di_ContentType (d_info d);
                  di_DataEncoding := di_DataEncoding (d_info d);
                  di_Schema := schema |};
     d_codec := d_codec d |}.

Record descriptorKey := { dk_kind : Kind; dk_name : string; dk_schemaVersion : Z }.
#[global] Instance descriptorKey_eq_dec : EqDecision descriptorKey.
Proof. solve_decision. Defined.
#[global] Instance descriptorKey_countable : Countable descriptorKey.
Proof.
  refine (inj_countable' (fun k => (dk_kind k, dk_name k, dk_schemaVersion k))
    (fun '(k, n, v) => {| dk_kind := k; dk_name := n; dk_schemaVersion := v |}) _).
  by intros [].
Defined.

Definition keyFor (info : DescriptorInfo) : descriptorKey :=
  {| dk_kind := di_Kind info; dk_name := di_Name info; dk_schemaVersion := di_SchemaVersion info |}.

(** ** [message_id.go]: a [[16]byte] *)
Definition MessageID := string.
Definition MessageID_wf (id : MessageID) : Prop := String.length id = 16%nat.
Definition zeroID : MessageID := of_bytes (List.repeat Ascii.zero 16).
Definition MessageID_IsZero (id : MessageID) : bool := String.eqb id zeroID.

Definition dash : ascii := "-"%char.

(** [uuid.UUID.String]: lower-case hexadecimal in the groups 8-4-4-4-12. *)
Definition MessageID_String (id : MessageID) : string :=
  let h := bytes id ≫= hex_byte in
  of_bytes (take 8 h ++ dash :: take 4 (drop 8 h) ++ dash :: take 4 (drop 12 h)
            ++ dash :: take 4 (drop 16 h) ++ dash :: drop 20 h)%list.

(** [uuid.Parse] of a 36-byte text whose bytes 8, 13, 18 and 23 are dashes. *)
Definition uuid_Parse (value : string) : option MessageID :=
  let l := bytes value in
  option_map of_bytes
    (hex_decode (take 8 l ++ take 4 (drop 9 l) ++ take 4 (drop 14 l)
                 ++ take 4 (drop 19 l) ++ drop 24 l)%list).

Definition ParseMessageID (value : string) : result error MessageID :=
  let l := bytes value in
  let dash_at i := bool_decide (l !! i = Some dash) in
  if negb (len value =? 36) || negb (dash_at 8%nat) || negb (dash_at 13%nat)
     || negb (dash_at 18%nat) || negb (dash_at 23%nat)
  then Err (wrapS ErrInvalidMessage "malformed message id")
  else match uuid_Parse value with
  | None => Err (EFmt "malformed message id" [ESentinel ErrInvalidMessage; ENew "uuid"])
  | Some parsed =>
      if negb (String.eqb (MessageID_String parsed) value)
      then Err (wrapS ErrInvalidMessage "message id is not canonical")
      else Ok parsed
  end.

(** ** [message.go] *)
Record Metadata := {
  md_ID : MessageID;
  md_Kind : Kind;
  md_Name : string;
  md_SchemaVersion : Z;
  md_Source : string;
  md_Subject : string;
  md_Time : Time;
  md_CorrelationID : MessageID;
  md_CausationID : MessageID;
  md_Key : string;
  md_ContentType : string;
  md_Schema : string;
  md_Headers : gmap string string;
  md_NotBefore : Time;
  md_ExpiresAt : Time }.

Record Message (T : Type) := { m_Metadata : Metadata; m_Payload : T }.
Arguments m_Metadata {T}. Arguments m_Payload {T}.

(** ** [builder.go]: stable ids

    The loop ranges over runes; a byte above 127 belongs to a rune outside the
    accepted set (or to an encoding error), so the check is bytewise. *)
Definition stable_char (c : ascii) : bool :=
  is_lower c || is_upper c || is_digit c || contains_any (of_bytes [c]) "._:-/".

Definition validStableID (value : string) : bool :=
  if String.eqb value "" || (maxDescriptorNameLength <? len value)
     || negb (String.eqb (TrimSpace value) value)
  then false
  else forallb stable_char (bytes value).

(** ** The matcher and its language *)
Lemma nullable_spec r : nullable r = true <-> rmatch r [].
Proof.
  split.
  - induction r; simpl; intros H; try done; [constructor| | |constructor].
    + bool_simpl. change (@nil ascii) with (@nil ascii ++ [])%list. constructor; auto.
    + apply orb_true_iff in H as [H|H]; [apply m_altl|apply m_altr]; auto.
  - remember [] as l eqn:Hl. induction 1; simpl; try done.
    + apply app_eq_nil in Hl as [-> ->]. by rewrite IHrmatch1, IHrmatch2.
    + by rewrite IHrmatch.
    + rewrite IHrmatch by done. apply orb_true_r.
Qed.

Lemma deriv_sound c r l : rmatch (deriv c r) l -> rmatch r (c :: l).
Proof.
  revert l. induction r; simpl; intros l H.
  - inversion H.
  - inversion H.
  - destruct (p c) eqn:Hp; inversion H; subst. by constructor.
  - destruct (nullable r1) eqn:Hn.
    + inversion H as [| | |? ? ? Hm|? ? ? Hm| |]; subst.
      * inversion Hm; subst. rewrite app_comm_cons. constructor; auto.
      * change (c :: l)%list with ([] ++ (c :: l))%list.
        constructor; [by apply nullable_spec|auto].
    + inversion H; subst. rewrite app_comm_cons. constructor; auto.
  - inversion H; subst; [apply m_altl|apply m_altr]; auto.
  - inversion H; subst. rewrite app_comm_cons. constructor; auto.
Qed.

Lemma deriv_complete c r l : rmatch r (c :: l) -> rmatch (deriv c r) l.
Proof.
  remember (c :: l)%list as t eqn:Ht. intros H. revert l Ht.
  induction H; intros l' Ht; simpl; try done.
  - simplify_eq. rewrite H. constructor.
  - destruct l as [|x l]; simplify_eq/=.
    + rewrite (proj2 (nullable_spec a)) by done. apply m_altr. auto.
    + destruct (nullable a); [apply m_altl|]; constructor; auto.
  - apply m_altl. auto.
  - apply m_altr. auto.
  - destruct l as [|x l]; simplify_eq/=; [by auto|]. constructor; auto.
Qed.

Lemma MatchString_spec r l : MatchString r l = true <-> rmatch r l.
Proof.
  revert r. induction l as [|c l IH]; intros r; simpl.
  - apply nullable_spec.
  - rewrite IH. split; [apply deriv_sound|apply deriv_complete].
Qed.

(** ** Descriptor names, explicitly *)

(** Only [[a-z0-9._-]], and every separator is followed by a letter or digit. *)
Fixpoint name_tail (l : list ascii) : bool :=
  match l with
  | [] => true
  | c :: t =>
      if separator c
      then match t with d :: _ => lower_digit d && name_tail t | [] => false end
      else lower_digit c && name_tail t
  end.

Definition name_form (l : list ascii) : bool :=
  match l with
  | [] => false
  | c :: t => is_lower c && name_tail t
  end.

Lemma separator_not_lower_digit c : separator c = true -> lower_digit c = false.
Proof.
  unfold separator. intros H. repeat (apply orb_true_iff in H as [H|H]);
    apply Ascii.eqb_eq in H as ->; reflexivity.
Qed.

Lemma name_tail_class l k :
  rmatch (RStar (RClass lower_digit)) l -> name_tail k = true -> name_tail (l ++ k) = true.
Proof.
  remember (RStar _) as r eqn:Hr. intros H Hk. induction H; simplify_eq; [done|].
  match goal with H : rmatch (RClass _) _ |- _ => inversion H; subst end. simpl.
  destruct (separator c) eqn:Hs.
  - apply separator_not_lower_digit in Hs. congruence.
  - rewrite H2. auto.
Qed.

Lemma name_tail_groups l :
  rmatch (RStar (RSeq (RClass separator) (RPlus (RClass lower_digit)))) l -> name_tail l = true.
Proof.
  remember (RStar _) as r eqn:Hr. induction 1 as [| | | | | |a l k Ha _ Hs IH]; simplify_eq; [done|].
  inversion Ha as [| |? ? l1 l2 Hsep Hplus| | | |]; subst.
  inversion Hsep as [|? c Hc| | | | |]; subst.
  inversion Hplus as [| |? ? l3 l4 Hd Hrest| | | |]; subst.
  inversion Hd as [|? d Hdc| | | | |]; subst. simpl. rewrite Hc, Hdc. simpl.
  destruct (separator d) eqn:Hsd.
  { apply separator_not_lower_digit in Hsd. congruence. }
  apply name_tail_class; auto.
Qed.

Lemma name_tail_split l : name_tail l = true ->
  exists l1 l2, l = (l1 ++ l2)%list /\ rmatch (RStar (RClass lower_digit)) l1 /\
    rmatch (RStar (RSeq (RClass separator) (RPlus (RClass lower_digit)))) l2.
Proof.
  induction l as [|c l IH]; intros H.
  { exists [], []. split_and!; [done|constructor..]. }
  simpl in H. destruct (separator c) eqn:Hs.
  - destruct l as [|d l]; [done|]. apply andb_true_iff in H as [Hd H].
    destruct (IH H) as (l1 & l2 & Heq & H1 & H2).
    exists [], (c :: d :: l)%list. split_and!; [done|constructor|].
    destruct l1 as [|x l1]; simplify_eq/=.
    + (* the letter after a separator cannot start a group *)
      inversion H2 as [| | | | | |? g k Hg _ Hk Hgk]; subst.
      inversion Hg as [| |? ? s p Hsep _| | | |]; subst. inversion Hsep as [|? c' Hc'| | | | |]; subst.
      simplify_eq/=. apply separator_not_lower_digit in Hc'. congruence.
    + change (c :: x :: l1 ++ l2)%list with (([c] ++ [x] ++ l1) ++ l2)%list.
      apply m_star; [|done]. repeat (constructor; try done).
      by inversion H1 as [| | | | | |? g k Hg Hk Hgk]; subst; inversion Hg; simplify_eq/=.
  - apply andb_true_iff in H as [Hc H]. destruct (IH H) as (l1 & l2 & -> & H1 & H2).
    exists (c :: l1)%list, l2. split_and!; [done| |done].
    change (c :: l1)%list with ([c] ++ l1)%list. by repeat constructor.
Qed.

Lemma descriptorNamePattern_spec l :
  MatchString descriptorNamePattern l = true <-> name_form l = true.
Proof.
  rewrite MatchString_spec. unfold descriptorNamePattern. split.
  - intros H. inversion H as [| |? ? l1 l2 Ha Hb| | | |]; subst.
    inversion Ha; subst. inversion Hb; subst. simpl. rewrite H1. simpl.
    apply name_tail_class; [done|]. by apply name_tail_groups.
  - destruct l as [|c l]; [done|]. simpl. intros H. bool_simpl.
    destruct (name_tail_split l) as (l1 & l2 & -> & H1 & H2); [done|].
    change (c :: l1 ++ l2)%list with ([c] ++ (l1 ++ l2))%list. by repeat constructor.
Qed.

(** A descriptor is built exactly for a valid kind, a name of one to 200
    bytes over [a-z0-9._-] that starts with a letter and where every separator
    is followed by a letter or digit, a positive schema version, and a codec
    with a content type and a known encoding; the descriptor then carries
    exactly those values. *)
Theorem newDescriptor_spec {T} kind name version schema (codec : Codec T) d :
  newDescriptor kind name version schema (Some codec) = Ok d <->
  (kind ∈ [KindCommand; KindEvent; KindQuery] /\ name_form (bytes name) = true /\
   len name <= 200 /\ 0 < version /\ ContentType codec <> "" /\
   DataEncoding_valid (Encoding codec) = true /\
   d = {| d_info := {| di_Kind := kind; di_Name := name; di_SchemaVersion := version;
                       di_ContentType := ContentType codec; di_DataEncoding := Encoding codec;
                       di_Schema := schema |}; d_codec := codec |}).
Proof.
  unfold newDescriptor, Kind_valid. cbv iota. rewrite <- descriptorNamePattern_spec.
  assert (kind ∈ [KindCommand; KindEvent; KindQuery] <->
          (kind =? KindCommand)%string || (kind =? KindEvent)%string
          || (kind =? KindQuery)%string = true) as ->.
  { rewrite !orb_true_iff, !String.eqb_eq. set_solver. }
  assert (MatchString descriptorNamePattern (bytes name) = true -> 0 < len name) as Hlen.
  { rewrite descriptorNamePattern_spec. unfold len. rewrite <- length_bytes.
    destruct (bytes name); simpl; [done|lia]. }
  split.
  - intros H. do 2 (case_in H; [done|]). simplify_eq. bool_simpl.
    match goal with H : (_ =? "")%string = false |- _ => apply String.eqb_neq in H end.
    unfold maxDescriptorNameLength in *. by split_and!; auto; lia.
  - intros (Hk & Hm & Hl & Hv & Hc & He & ->). pose proof (Hlen Hm).
    rewrite Hk, Hm, He. apply String.eqb_neq in Hc. rewrite Hc. unfold maxDescriptorNameLength.
    rewrite (proj2 (Z.eqb_neq _ _)), (proj2 (Z.ltb_ge _ _)), (proj2 (Z.leb_gt _ _)) by lia. done.
Qed.

(** ** Message ids *)
Lemma length_hex (l : list ascii) : List.length (l ≫= hex_byte) = (2 * List.length l)%nat.
Proof. induction l as [|c l IH]; [done|]. csimpl. rewrite IH. lia. Qed.

Lemma hex_decode_length l r : hex_decode l = Some r -> List.length l = (2 * List.length r)%nat.
Proof.
  revert l. induction r as [|c r IH]; intros [|a [|b l]] H; simplify_eq/=; try done;
    repeat case_match; simplify_eq/=. rewrite (IH l); [lia|done].
Qed.

(** Cutting 32 digits into the dashed form and joining them again. *)
Lemma uuid_text_cut (h : list ascii) :
  List.length h = 32%nat ->
  let l := (take 8 h ++ dash :: take 4 (drop 8 h) ++ dash :: take 4 (drop 12 h)
            ++ dash :: take 4 (drop 16 h) ++ dash :: drop 20 h)%list in
  List.length l = 36%nat /\
  l !! 8%nat = Some dash /\ l !! 13%nat = Some dash /\
  l !! 18%nat = Some dash /\ l !! 23%nat = Some dash /\
  (take 8 l ++ take 4 (drop 9 l) ++ take 4 (drop 14 l) ++ take 4 (drop 19 l) ++ drop 24 l)%list = h.
Proof.
  intros Hh. do 32 (destruct h as [|? h]; [done|]). destruct h; [|done].
  cbn. split_and!; reflexivity.
Qed.

Lemma uuid_Parse_wf value id :
  len value = 36 -> uuid_Parse value = Some id -> MessageID_wf id.
Proof.
  unfold uuid_Parse, MessageID_wf, len. rewrite <- length_bytes. set (l := bytes value). clearbody l.
  intros Hl H. destruct (hex_decode _) as [r|] eqn:Hr; simplify_eq/=.
  rewrite length_of_bytes. apply hex_decode_length in Hr. revert Hr.
  rewrite !length_app, !length_take, !length_drop. lia.
Qed.

Lemma ParseMessageID_of_String id : MessageID_wf id -> ParseMessageID (MessageID_String id) = Ok id.
Proof.
  intros Hwf. unfold ParseMessageID, uuid_Parse. set (h := bytes id ≫= hex_byte).
  assert (List.length h = 32%nat) as Hh.
  { unfold h. rewrite length_hex, length_bytes. unfold MessageID_wf in Hwf. lia. }
  destruct (uuid_text_cut h Hh) as (H36 & H8 & H13 & H18 & H23 & Hjoin).
  assert (bytes (MessageID_String id) = (take 8 h ++ dash :: take 4 (drop 8 h)
    ++ dash :: take 4 (drop 12 h) ++ dash :: take 4 (drop 16 h) ++ dash :: drop 20 h)%list) as Hb.
  { apply bytes_of_bytes. }
  unfold len. rewrite <- length_bytes, Hb, H36, H8, H13, H18, H23, Hjoin.
  rewrite !bool_decide_eq_true_2 by done. unfold h. rewrite hex_decode_encode. simpl.
  by rewrite of_bytes_bytes, String.eqb_refl.
Qed.

Lemma MessageID_String_inj id1 id2 : MessageID_wf id1 -> MessageID_wf id2 ->
  MessageID_String id1 = MessageID_String id2 -> id1 = id2.
Proof.
  intros H1%ParseMessageID_of_String H2%ParseMessageID_of_String Heq.
  rewrite Heq in H1. congruence.
Qed.

(** [ParseMessageID] accepts exactly the canonical lower-case text of a
    16-byte identity and returns that identity, so text and identity are in
    bijection. *)
Theorem ParseMessageID_String value id :
  ParseMessageID value = Ok id <-> MessageID_wf id /\ value = MessageID_String id.
Proof.
  split; [|intros [Hwf ->]; by apply ParseMessageID_of_String].
  unfold ParseMessageID. intros H. case_in H; [done|]. bool_simpl.
  destruct (uuid_Parse value) as [p|] eqn:Hp; [|done]. case_in H; [done|]. simplify_eq.
  bool_simpl. rewrite String.eqb_eq in *. split; [by eapply uuid_Parse_wf|done].
Qed.

Lemma ParseMessageID_example :
  ParseMessageID "00000000-0000-0000-0000-000000000000" = Ok zeroID /\
  (exists e, ParseMessageID "00000000-0000-0000-0000-00000000000A" = Err e).
Proof. split; [reflexivity|eexists; reflexivity]. Qed.

(** The wire name of an encoding determines it. *)
Lemma DataEncoding_roundtrip e :
  DataEncoding_valid e = true <-> DataEncoding_parse (DataEncoding_String e) = Ok e.
Proof.
  unfold DataEncoding_valid, DataEncoding_String, DataJSON, DataText, DataBinary.
  destruct (Z.eqb_spec e 1), (Z.eqb_spec e 2), (Z.eqb_spec e 3); subst; simpl; try done.
Qed.
