(* ===== verification/Batch.v ===== *)
(** * Batch contract: limits, results, invocation

    Models [batch.go] and [internal/batchruntime/batchruntime.go]: the batch
    configuration, the result builder, the check that a handler classified every
    message exactly once, and the invocation of a handler behind middleware. *)
From S2P Require Import Prelude GoStrings Errors Ident.
From Stdlib Require Import Ascii.
Import Stdlib.Strings.String.
Open Scope string_scope.
Open Scope Z_scope.

(** ** Keys and results *)
Record BatchItemKey := { bk_Source : string; bk_MessageID : MessageID }.

#[global] Instance BatchItemKey_eq_dec : EqDecision BatchItemKey.
Proof. solve_decision. Defined.
#[global] Instance BatchItemKey_countable : Countable BatchItemKey.
Proof.
  refine (inj_countable' (fun k => (bk_Source k, bk_MessageID k))
    (fun '(s, i) => {| bk_Source := s; bk_MessageID := i |}) _).
  by intros [].
Defined.

Record BatchItemResult := { bi_Key : BatchItemKey; bi_Err : option error }.
Definition BatchResult := list BatchItemResult.

Definition message_key {T} (m : Message T) : BatchItemKey :=
  {| bk_Source := md_Source (m_Metadata m); bk_MessageID := md_ID (m_Metadata m) |}.

(** ** [BatchResultBuilder]

    A nil receiver is [None]; [results] is never nil for a builder made by
    [NewBatchResultBuilder], and is [None] for the zero struct. *)
Record BatchResultBuilder := {
  b_keys : list BatchItemKey;
  b_results : option (gmap BatchItemKey (option error));
  b_validationErr : option error }.

Definition NewBatchResultBuilder {T} (messages : list (Message T)) : BatchResultBuilder :=
  {| b_keys := List.map message_key messages;
     b_results := Some (fold_left (fun r m => <[message_key m := None]> r) messages ∅);
     b_validationErr := None |}.

Definition FailKey (b : BatchResultBuilder) (key : BatchItemKey) (err : option error)
  : BatchResultBuilder :=
  match b_results b with
  | None => b
  | Some results =>
      match results !! key with
      | None =>
          match b_validationErr b with
          | None => {| b_keys := b_keys b; b_results := b_results b;
                       b_validationErr := Some (wrapS ErrInvalidBatchResult "unknown key") |}
          | Some _ => b
          end
      | Some _ => {| b_keys := b_keys b; b_results := Some (<[key := err]> results);
                     b_validationErr := b_validationErr b |}
      end
  end.

Definition OKKey (b : BatchResultBuilder) (key : BatchItemKey) : BatchResultBuilder :=
  FailKey b key None.
Definition OK {T} (b : BatchResultBuilder) (m : Message T) : BatchResultBuilder :=
  OKKey b (message_key m).
Definition Fail {T} (b : BatchResultBuilder) (m : Message T) (err : option error)
  : BatchResultBuilder := FailKey b (message_key m) err.

Definition HasErrors (b : BatchResultBuilder) : bool :=
  match b_validationErr b with
  | Some _ => true
  | None =>
      match b_results b with
      | None => false
      | Some results => existsb (fun p => bool_decide (is_Some p.2)) (map_to_list results)
      end
  end.

(** [(error, ok)]: [None] when the key is not of the batch. *)
Definition ErrorKey (b : BatchResultBuilder) (key : BatchItemKey) : option (option error) :=
  b_results b ≫= fun results => results !! key.

Definition Build (b : BatchResultBuilder) : result error BatchResult :=
  match b_validationErr b with
  | Some e => Err e
  | None =>
      if decide (b_keys b = []) then Ok []
      else Ok (List.map (fun key =>
        {| bi_Key := key;
           bi_Err := match ErrorKey b key with Some e => e | None => None end |}) (b_keys b))
  end.

(** ** [BatchConfig] *)
Definition DefaultBatchMaxMessages : Z := 100.
Definition DefaultBatchMaxBytes : Z := Z.shiftl 4 20.
Definition DefaultBatchMaxWait : Duration := 25 * Millisecond.
Definition DefaultMaxEnvelopeBytes : Z := Z.shiftl 1 20.

(** Only whether a middleware is nil matters here. *)
Record BatchConfig (M : Type) := {
  MaxMessages : Z;
  MaxBytes : Z;
  MaxWait : Duration;
  Middlewares : list (option M) }.
Arguments MaxMessages {M}. Arguments MaxBytes {M}.
Arguments MaxWait {M}. Arguments Middlewares {M}.

Definition Normalize {M} (c : BatchConfig M) (concurrency : Z) : result error (BatchConfig M) :=
  (guard 0 <? concurrency else wrapS ErrInvalidMessage "batch concurrency must be positive";
   guard negb ((MaxMessages c <? 0) || (MaxBytes c <? 0) || (MaxWait c <? 0))
     else wrapS ErrInvalidMessage "negative batch limit";
   let maxMessages := if MaxMessages c =? 0 then DefaultBatchMaxMessages else MaxMessages c in
   let maxBytes := if MaxBytes c =? 0 then DefaultBatchMaxBytes else MaxBytes c in
   let maxWait := if MaxWait c =? 0 then DefaultBatchMaxWait else MaxWait c in
   guard forallb (fun m => match m with Some _ => true | None => false end) (Middlewares c)
     else wrapS ErrInvalidMessage "nil batch middleware";
   let effectiveBytes := Z.max maxBytes DefaultMaxEnvelopeBytes in
   guard negb (maxInt64 / concurrency <? maxMessages)
     else wrapS ErrInvalidMessage "batch delivery bound overflows int";
   guard negb (maxInt64 / concurrency <? effectiveBytes)
     else wrapS ErrInvalidMessage "batch byte bound overflows int";
   Ok {| MaxMessages := maxMessages; MaxBytes := maxBytes; MaxWait := maxWait;
         Middlewares := Middlewares c |})%go.

Lemma normalized_messages {Mw} (k n : BatchConfig Mw) concurrency : Normalize k concurrency = Ok n -> 1 <= MaxMessages n.
Proof.
  unfold Normalize. change DefaultBatchMaxMessages with 100. repeat case_goal; try done; intros <-%Ok_inj; cbn.
  all: repeat case_goal; bool_simpl; lia.
Qed.

(** ** [ChainBatchHandler]: the loop from the last middleware to the first *)
Definition ChainBatchHandler {Hd} (handler : option Hd) (middlewares : list (option (Hd -> option Hd)))
  : option Hd :=
  foldr (fun mw acc => match acc, mw with
                       | Some h, Some f => f h
                       | _, _ => None
                       end) handler middlewares.

(** ** [ValidateResult] *)
Definition complete_key (k : BatchItemKey) : bool :=
  negb (String.eqb (bk_Source k) "" || MessageID_IsZero (bk_MessageID k)).

Fixpoint expected_set (acc : gset BatchItemKey) (expected : list BatchItemKey)
  : result error (gset BatchItemKey) :=
  match expected with
  | [] => Ok acc
  | key :: r =>
      (guard complete_key key else wrapS ErrInvalidBatchResult "incomplete expected key";
       guard negb (bool_decide (key ∈ acc))
         else wrapS ErrInvalidBatchResult "duplicate expected key";
       expected_set ({[key]} ∪ acc) r)%go
  end.

Fixpoint index_items (expectedSet : gset BatchItemKey)
  (acc : gmap BatchItemKey (option error)) (items : BatchResult)
  : result error (gmap BatchItemKey (option error)) :=
  match items with
  | [] => Ok acc
  | item :: r =>
      (guard bool_decide (bi_Key item ∈ expectedSet)
         else wrapS ErrInvalidBatchResult "unknown key";
       guard bool_decide (acc !! bi_Key item = None)
         else wrapS ErrInvalidBatchResult "duplicate key";
       index_items expectedSet (<[bi_Key item := bi_Err item]> acc) r)%go
  end.

Fixpoint order_errors (byKey : gmap BatchItemKey (option error)) (expected : list BatchItemKey)
  : result error (list (option error)) :=
  match expected with
  | [] => Ok []
  | key :: r =>
      match byKey !! key with
      | None => Err (wrapS ErrInvalidBatchResult "missing key")
      | Some itemErr => (do rest <- order_errors byKey r; Ok (itemErr :: rest))%go
      end
  end.

Definition ValidateResult (expected : list BatchItemKey) (res : BatchResult)
  : result error (list (option error)) :=
  (guard Z.of_nat (List.length res) =? Z.of_nat (List.length expected)
     else wrapS ErrInvalidBatchResult "item count";
   do expectedSet <- expected_set ∅ expected;
   do byKey <- index_items expectedSet ∅ res;
   order_errors byKey expected)%go.

(** ** [Invoke]

    Host code is interactive.  A middleware is a finite strategy: it returns,
    panics, changes the host state, or calls [next] and continues with what the
    call gave (a result or a panic it recovered).  Time passes by changes of
    the host state: [ctxErr] reads the [Err()] of a context in it. *)
Section Invoke.
Context {H Ctx T : Type}.
Variable ctxErr : Ctx -> H -> option error.

Inductive outcome : Type :=
| Returned (res : BatchResult) (err : option error)
| Panicked (value : string).

Inductive strategy : Type :=
| Return (res : BatchResult) (err : option error)
| Panic (value : string)
| Work (f : H -> H) (k : H -> strategy)
| CallNext (ctx : option Ctx) (k : outcome -> strategy).

Definition BatchHandler := Ctx -> list (Message T) -> H -> H * outcome.
Definition BatchMiddleware := option Ctx -> list Metadata -> string -> strategy.

(** The variables the closures of [Invoke] share, and the calls of the typed
    handler so far. *)
Record ivState := {
  iv_host : H;
  iv_terminalCompletionErr : option error;
  iv_terminalCtx : option Ctx;
  iv_handlerCalls : nat }.

Definition set_host (h : H) (s : ivState) : ivState :=
  {| iv_host := h; iv_terminalCompletionErr := iv_terminalCompletionErr s;
     iv_terminalCtx := iv_terminalCtx s; iv_handlerCalls := iv_handlerCalls s |}.

Definition NextFunc := option Ctx -> ivState -> ivState * outcome.

Definition invalid (label : string) : outcome :=
  Returned [] (Some (wrapS ErrInvalidBatchResult label)).

(** The innermost [next]: the typed handler. *)
Definition terminal (handler : BatchHandler) (messages : list (Message T)) : NextFunc :=
  fun nextCtx s =>
    match nextCtx with
    | None => (s, invalid "middleware supplied a nil context")
    | Some ctx =>
        let '(h, out) := handler ctx messages (iv_host s) in
        let s1 := {| iv_host := h;
                     iv_terminalCompletionErr := iv_terminalCompletionErr s;
                     iv_terminalCtx := Some ctx;
                     iv_handlerCalls := S (iv_handlerCalls s) |} in
        match out with
        | Panicked v => (s1, Panicked v)
        | Returned res handlerErr =>
            let completion := HandlerCompletionError (Some (ctxErr ctx h)) handlerErr in
            let res' := match completion, handlerErr with
                        | Some _, None => []
                        | _, _ => res
                        end in
            ({| iv_host := h; iv_terminalCompletionErr := completion;
                iv_terminalCtx := Some ctx;
                iv_handlerCalls := iv_handlerCalls s1 |},
             Returned res' completion)
        end
    end.

(** One middleware around [wrapped]; [called] is its atomic flag. *)
Fixpoint run_strategy (wrapped : NextFunc) (called : bool) (m : strategy) (s : ivState)
  : ivState * outcome :=
  match m with
  | Return res err => (s, Returned res err)
  | Panic v => (s, Panicked v)
  | Work f k => run_strategy wrapped called (k (f (iv_host s))) (set_host (f (iv_host s)) s)
  | CallNext ctx k =>
      if called
      then run_strategy wrapped called (k (invalid "middleware called next more than once")) s
      else let '(s', out) := wrapped ctx s in run_strategy wrapped true (k out) s'
  end.

Definition wrap (middleware : BatchMiddleware) (metadata : list Metadata) (handlerID : string)
  (wrapped : NextFunc) : NextFunc :=
  fun nextCtx s => run_strategy wrapped false (middleware nextCtx metadata handlerID) s.

(** The wrapping loop, from the last middleware to the first; [None] when a
    middleware is nil. *)
Definition chain (handler : BatchHandler) (messages : list (Message T)) (handlerID : string)
  (middlewares : list (option BatchMiddleware)) : option NextFunc :=
  foldr (fun mw acc => match acc, mw with
                       | Some next, Some f =>
                           Some (wrap f (List.map m_Metadata messages) handlerID next)
                       | _, _ => None
                       end) (Some (terminal handler messages)) middlewares.

Definition initial (h : H) : ivState :=
  {| iv_host := h; iv_terminalCompletionErr := None; iv_terminalCtx := None;
     iv_handlerCalls := O |}.

(** What [Invoke] does with the outcome of the outermost [next]. *)
Definition settle (s : ivState) (res : BatchResult) (err : option error)
  : BatchResult * option error :=
  let late := match iv_terminalCtx s with Some c => ctxErr c (iv_host s) | None => None end in
  let '(res, err) := match late with
                     | Some e => ([], match err with None => Some e | Some _ => err end)
                     | None => (res, err)
                     end in
  let '(res, err) := match iv_terminalCompletionErr s with
                     | Some e => ([], match err with None => Some e | Some _ => err end)
                     | None => (res, err)
                     end in
  match err, res with
  | Some e, _ :: _ =>
      ([], Some (EFmt "non-empty result with top-level error" [ESentinel ErrInvalidBatchResult; e]))
  | _, _ => (res, err)
  end.

Record invocation := {
  in_state : ivState;
  in_reports : list PanicReport;
  in_result : BatchResult;
  in_err : option error }.

Definition Invoke (ctx : option Ctx) (messages : list (Message T)) (handlerID : string)
  (handler : option BatchHandler) (middlewares : list (option BatchMiddleware))
  (reporter_nil : bool) (stack : string) (h : H) : invocation :=
  let fail label := {| in_state := initial h; in_reports := []; in_result := [];
                       in_err := Some (wrapS ErrInvalidBatchResult label) |} in
  match ctx, handler with
  | Some ctx, Some handler =>
      if String.eqb handlerID "" then fail "incomplete batch invocation"
      else match chain handler messages handlerID middlewares with
      | None => fail "nil batch middleware"
      | Some next =>
          match next (Some ctx) (initial h) with
          | (s, Panicked v) =>
              let '(reports, e) := ReportHandlerPanic false reporter_nil handlerID v stack in
              {| in_state := s; in_reports := reports; in_result := []; in_err := Some e |}
          | (s, Returned res err) =>
              let '(res, err) := settle s res err in
              {| in_state := s; in_reports := []; in_result := res; in_err := err |}
          end
      end
  | _, _ => fail "incomplete batch invocation"
  end.
End Invoke.

(** ** Limits *)
Lemma all_present {M} (l : list (option M)) :
  if forallb (fun m => match m with Some _ => true | None => false end) l
  then Forall is_Some l else None ∈ l.
Proof.
  induction l as [|[m|] l IH]; simpl; [constructor| |left].
  destruct (forallb _ l); [constructor; eauto|by right].
Qed.

Lemma quot_lt_iff m c z : 0 < c -> m / c < z <-> m < z * c.
Proof.
  intros Hc. split; intros Hz.
  - pose proof (Z.mul_succ_div_gt m c Hc). nia.
  - apply Z.div_lt_upper_bound; lia.
Qed.

(** A normalized batch configuration has positive limits that keep the
    caller's non-zero choices, its per-process products with the concurrency
    (deliveries, and bytes of batches that hold at least one maximal envelope)
    fit an [int], and normalization fails exactly for a non-positive
    concurrency, a negative limit, a nil middleware or such an overflow. *)
Theorem Normalize_bounds {M} (c : BatchConfig M) concurrency :
  let messages := if MaxMessages c =? 0 then 100 else MaxMessages c in
  let bytes := if MaxBytes c =? 0 then 4194304 else MaxBytes c in
  let wait := if MaxWait c =? 0 then 25000000 else MaxWait c in
  match Normalize c concurrency with
  | Ok n =>
      n = {| MaxMessages := messages; MaxBytes := bytes; MaxWait := wait;
             Middlewares := Middlewares c |} /\
      0 < concurrency /\ 0 < messages /\ 0 < bytes /\ 0 < wait /\
      Forall is_Some (Middlewares c) /\
      messages * concurrency <= maxInt64 /\ Z.max bytes 1048576 * concurrency <= maxInt64
  | Err e =>
      errors_is (Some e) ErrInvalidMessage = true /\
      (concurrency <= 0 \/ MaxMessages c < 0 \/ MaxBytes c < 0 \/ MaxWait c < 0 \/
       None ∈ Middlewares c \/
       maxInt64 < messages * concurrency \/ maxInt64 < Z.max bytes 1048576 * concurrency)
  end.
Proof.
  intros messages bytes wait. unfold Normalize. change DefaultBatchMaxMessages with 100.
  change DefaultBatchMaxBytes with 4194304. change DefaultMaxEnvelopeBytes with 1048576.
  change DefaultBatchMaxWait with 25000000. fold messages bytes wait.
  destruct (Z.ltb_spec 0 concurrency) as [Hc|Hc]; [|split; [done|lia]].
  destruct (Z.ltb_spec (MaxMessages c) 0), (Z.ltb_spec (MaxBytes c) 0), (Z.ltb_spec (MaxWait c) 0);
    simpl; try (split; [done|lia]).
  pose proof (all_present (Middlewares c)) as Hmw. case_match; [|split; [done|tauto]].
  destruct (Z.ltb_spec (maxInt64 / concurrency) messages) as [Hm|Hm]; simpl.
  { rewrite quot_lt_iff in Hm by done. split; [done|lia]. }
  destruct (Z.ltb_spec (maxInt64 / concurrency) (Z.max bytes 1048576)) as [Hb|Hb]; simpl.
  { rewrite quot_lt_iff in Hb by done. split; [done|lia]. }
  split_and!; try done.
  1, 2, 3: unfold messages, bytes, wait; case_match; bool_simpl; lia.
  all: rewrite Z.le_ngt, <- quot_lt_iff; lia.
Qed.

(** ** Result validation *)
Lemma expected_set_spec acc l :
  match expected_set acc l with
  | Ok s => NoDup l /\ Forall (fun k => complete_key k = true) l /\
            (forall k, k ∈ l -> k ∉ acc) /\ s = acc ∪ list_to_set l
  | Err e => errors_is (Some e) ErrInvalidBatchResult = true /\
             ~ (NoDup l /\ Forall (fun k => complete_key k = true) l /\ (forall k, k ∈ l -> k ∉ acc))
  end.
Proof.
  revert acc. induction l as [|k l IH]; intros acc; simpl.
  { split_and!; [constructor..|set_solver|set_solver]. }
  destruct (complete_key k) eqn:Hk; simpl.
  2:{ split; [done|]. intros (_ & HF & _). inversion HF; congruence. }
  case_bool_decide as Hin; simpl.
  { split; [done|]. intros (_ & _ & Hd). apply (Hd k); [left|done]. }
  specialize (IH ({[k]} ∪ acc)). destruct (expected_set _ l) as [s|e].
  - destruct IH as (Hnd & HF & Hd & ->). split_and!; [|by constructor|set_solver|set_solver].
    constructor; [|done]. intros Hkl. specialize (Hd k Hkl). set_solver.
  - destruct IH as [He Hn]. split; [done|]. intros (Hnd & HF & Hd). apply Hn.
    inversion Hnd; inversion HF; subst. split_and!; [done..|]. set_solver.
Qed.

Definition item_keys (r : BatchResult) : list BatchItemKey := List.map bi_Key r.
Definition item_map (r : BatchResult) : gmap BatchItemKey (option error) :=
  list_to_map (List.map (fun i => (bi_Key i, bi_Err i)) r).

Lemma index_items_spec es acc l :
  match index_items es acc l with
  | Ok m => NoDup (item_keys l) /\ (forall k, k ∈ item_keys l -> k ∈ es /\ acc !! k = None) /\
            m = item_map l ∪ acc
  | Err e => errors_is (Some e) ErrInvalidBatchResult = true /\
             ~ (NoDup (item_keys l) /\ (forall k, k ∈ item_keys l -> k ∈ es /\ acc !! k = None))
  end.
Proof.
  revert acc. induction l as [|i l IH]; intros acc; cbn [index_items item_keys List.map].
  { split_and!; [apply NoDup_nil_2|set_solver|symmetry; apply map_empty_union]. }
  case_bool_decide as Hes; simpl.
  2:{ split; [done|]. intros [_ Hd]. by destruct (Hd (bi_Key i) ltac:(left)). }
  case_bool_decide as Hacc; simpl.
  2:{ split; [done|]. intros [_ Hd]. by destruct (Hd (bi_Key i) ltac:(left)). }
  specialize (IH (<[bi_Key i := bi_Err i]> acc)). destruct (index_items _ _ l) as [m|e].
  - destruct IH as (Hnd & Hd & ->).
    assert (bi_Key i ∉ item_keys l) as Hni.
    { intros Hin. destruct (Hd _ Hin) as [_ Hx]. by rewrite lookup_insert_eq in Hx. }
    split_and!.
    + by constructor.
    + intros k Hk. apply elem_of_cons in Hk as [->|Hk]; [done|].
      destruct (Hd k Hk) as [? Hx]. split; [done|]. by apply lookup_insert_None in Hx as [? _].
    + unfold item_map. cbn [List.map list_to_map foldr]. rewrite <- insert_union_r, insert_union_l; [done|].
      apply not_elem_of_list_to_map_1. unfold item_keys in Hni.
      rewrite <- list_fmap_compose. exact Hni.
  - destruct IH as [He Hn]. split; [done|]. intros [Hnd Hd]. apply Hn.
    inversion Hnd as [|? ? Hni Hnd']; subst. split; [done|]. intros k Hk.
    destruct (Hd k) as [? ?]; [by right|]. split; [done|].
    rewrite lookup_insert_ne; [done|]. intros <-. done.
Qed.

Lemma order_errors_spec m l :
  (forall k, k ∈ l -> is_Some (m !! k)) ->
  exists errs, order_errors m l = Ok errs /\ Forall2 (fun k e => m !! k = Some e) l errs.
Proof.
  induction l as [|k l IH]; intros Hm; simpl; [eexists; split; [done|constructor]|].
  destruct (Hm k) as [e He]; [left|]. rewrite He.
  destruct IH as (errs & -> & HF); [intros; apply Hm; by right|].
  eexists; split; [done|]. by constructor.
Qed.

Lemma item_map_lookup l k e :
  NoDup (item_keys l) -> item_map l !! k = Some e <-> {| bi_Key := k; bi_Err := e |} ∈ l.
Proof.
  intros Hnd. unfold item_map. rewrite <- elem_of_list_to_map.
  - rewrite list_elem_of_In, in_map_iff. rewrite list_elem_of_In. split.
    + intros ([k' e'] & Heq & Hin). by simplify_eq/=.
    + intros Hin. eexists; split; [|done]. done.
  - rewrite <- list_fmap_compose. exact Hnd.
Qed.

(** Distinct keys of the right number that all belong to [ks] are [ks]. *)
Lemma covering_keys (ks l : list BatchItemKey) :
  NoDup l -> (forall k, k ∈ l -> k ∈ ks) -> List.length l = List.length ks -> l ≡ₚ ks.
Proof.
  intros Hnd Hin Hlen. apply submseteq_length_Permutation; [|lia].
  apply NoDup_submseteq; [done|exact Hin].
Qed.

Lemma ValidateResult_contract expected res :
  let covered := NoDup expected /\ Forall (fun k => complete_key k = true) expected /\
                 item_keys res ≡ₚ expected in
  match ValidateResult expected res with
  | Ok errs => covered /\
      Forall2 (fun k e => {| bi_Key := k; bi_Err := e |} ∈ res) expected errs
  | Err e => ~ covered /\ IsFailClosed (Some e) = true
  end.
Proof.
  unfold ValidateResult.
  destruct (Z.eqb_spec (Z.of_nat (List.length res)) (Z.of_nat (List.length expected))) as [Hlen|Hlen].
  2:{ split; [|done]. intros (_ & _ & Hp). apply Permutation_length in Hp.
      unfold item_keys in Hp. rewrite length_map in Hp. lia. }
  pose proof (expected_set_spec ∅ expected) as He. destruct (expected_set ∅ expected) as [es|e].
  2:{ destruct He as [He Hn]. split; [|by unfold IsFailClosed; rewrite He].
      intros (Hnd & HF & _). apply Hn. split_and!; [done..|set_solver]. }
  destruct He as (Hnd & HF & _ & ->).
  pose proof (index_items_spec (∅ ∪ list_to_set expected) ∅ res) as Hi.
  destruct (index_items _ ∅ res) as [m|e].
  2:{ destruct Hi as [He Hn]. split; [|by unfold IsFailClosed; rewrite He].
      intros (_ & _ & Hp). apply Hn. split; [by rewrite Hp|]. intros k. rewrite Hp. set_solver. }
  destruct Hi as (Hndr & Hin & ->).
  assert (item_keys res ≡ₚ expected) as Hp.
  { apply covering_keys; [done| |unfold item_keys; rewrite length_map; lia].
    intros k Hk. apply Hin in Hk as [Hk _]. set_solver. }
  rewrite map_union_empty.
  destruct (order_errors_spec (item_map res) expected) as (errs & -> & HF2).
  { intros k. rewrite <- Hp. unfold item_keys. rewrite list_elem_of_In, in_map_iff.
    intros (i & <- & Hi). exists (bi_Err i). apply item_map_lookup; [done|].
    apply list_elem_of_In in Hi. by destruct i. }
  split; [done|]. eapply Forall2_impl; [done|]. intros k e. by apply item_map_lookup.
Qed.

Lemma ValidateResult_errors expected res errs : ValidateResult expected res = Ok errs ->
  Forall2 (fun k e => item_map res !! k = Some e) expected errs.
Proof.
  intros Hv. pose proof (ValidateResult_contract expected res) as Hc. rewrite Hv in Hc.
  destruct Hc as [(Hnd & _ & Hp) HF]. eapply Forall2_impl; [done|]. intros k e.
  apply item_map_lookup. by rewrite Hp.
Qed.

(** Result validation accepts a handler result exactly when the expected
    keys are complete and distinct and the result holds one item per expected
    key and nothing else, in any order; it then returns the errors in expected
    order.  Every rejection is an invalid-batch-result error, which closes the
    batch. *)
Theorem ValidateResult_spec expected res :
  let covered := NoDup expected /\ Forall (fun k => complete_key k = true) expected /\
                 item_keys res ≡ₚ expected in
  match ValidateResult expected res with
  | Ok errs => covered /\
      Forall2 (fun k e => {| bi_Key := k; bi_Err := e |} ∈ res) expected errs
  | Err e => ~ covered /\ IsFailClosed (Some e) = true
  end.
Proof. apply ValidateResult_contract. Qed.

(** ** The builder meets the contract *)

(** One classification made by a handler: [Fail] with an error, [OK] with nil. *)
Definition classify_all (b : BatchResultBuilder) (ops : list (BatchItemKey * option error)) :=
  fold_left (fun b op => FailKey b op.1 op.2) ops b.

(** The last classification of a key, success when there is none. *)
Definition last_class (ops : list (BatchItemKey * option error)) (k : BatchItemKey) : option error :=
  fold_left (fun acc op => if decide (op.1 = k) then op.2 else acc) ops None.

(** A builder whose map holds exactly its keys. *)
Definition builder_ok (b : BatchResultBuilder) (cls : BatchItemKey -> option error) : Prop :=
  exists r, b_results b = Some r /\
    forall k, r !! k = if decide (k ∈ b_keys b) then Some (cls k) else None.

Lemma New_builder_ok {T} (ms : list (Message T)) :
  builder_ok (NewBatchResultBuilder ms) (fun _ => None).
Proof.
  eexists. split; [done|]. intros k. simpl.
  assert (forall l (r : gmap BatchItemKey (option error)),
    fold_left (fun r m => <[message_key m := None]> r) l r !! k
    = if decide (k ∈ List.map (@message_key T) l) then Some None else r !! k) as Hg.
  { induction l as [|m l IH]; intros r; simpl; [done|]. rewrite IH.
    destruct (decide (k = message_key m)) as [->|Hne].
    - rewrite lookup_insert_eq. repeat case_decide; set_solver.
    - rewrite lookup_insert_ne by done. repeat case_decide; set_solver. }
  rewrite Hg. by rewrite lookup_empty.
Qed.

Lemma FailKey_ok b cls k e :
  builder_ok b cls ->
  let b' := FailKey b k e in
  b_keys b' = b_keys b /\
  if decide (k ∈ b_keys b)
  then builder_ok b' (fun k' => if decide (k = k') then e else cls k') /\
       b_validationErr b' = b_validationErr b
  else builder_ok b' cls /\
       exists v, b_validationErr b' = Some v /\
         (b_validationErr b = None -> errors_is (Some v) ErrInvalidBatchResult = true) /\
         (forall w, b_validationErr b = Some w -> v = w).
Proof.
  intros (r & Hr & Hl) b'. unfold b', FailKey. rewrite Hr, Hl.
  destruct (decide (k ∈ b_keys b)) as [Hin|Hni].
  - split; [done|]. split; [|done]. eexists. split; [done|]. intros k'. simpl.
    destruct (decide (k = k')) as [->|Hne].
    + by rewrite lookup_insert_eq, decide_True.
    + by rewrite lookup_insert_ne, Hl.
  - destruct (b_validationErr b) as [v|] eqn:Hv; simpl.
    + split; [done|]. split; [by exists r|]. exists v. split; [done|]. by split; intros; simplify_eq.
    + split; [done|]. split; [by exists r|]. eexists. by split_and!.
Qed.

(** Invariant of a builder after any classifications. *)
Lemma classify_all_inv ops b cls :
  builder_ok b cls ->
  (forall v, b_validationErr b = Some v -> errors_is (Some v) ErrInvalidBatchResult = true) ->
  let b' := classify_all b ops in
  b_keys b' = b_keys b /\
  builder_ok b' (fun k => fold_left (fun acc op => if decide (op.1 = k) then op.2 else acc) ops (cls k)) /\
  (forall v, b_validationErr b' = Some v -> errors_is (Some v) ErrInvalidBatchResult = true) /\
  (b_validationErr b' = None <-> b_validationErr b = None /\ Forall (fun op => op.1 ∈ b_keys b) ops).
Proof.
  revert b cls. induction ops as [|[k e] ops IH]; intros b cls Hb Hv; simpl.
  { split_and!; [done..|]. split; [intros; split; [done|constructor]|by intros []]. }
  destruct (FailKey_ok b cls k e Hb) as [Hk Hcase]. simpl in Hk, Hcase.
  case_decide as Hin.
  - destruct Hcase as [Hb' He]. destruct (IH _ _ Hb') as (H1 & H2 & H3 & H4).
    { rewrite He. done. }
    rewrite Hk in *. split_and!; [done| |done|].
    + destruct H2 as (r & Hr & Hl). exists r. split; [done|]. intros k'. rewrite Hl. done.
    + unfold classify_all in H4. rewrite H4, He, Forall_cons. tauto.
  - destruct Hcase as (Hb' & v & He & Hnew & Hold). destruct (IH _ _ Hb') as (H1 & H2 & H3 & H4).
    { intros w Hw. rewrite He in Hw. simplify_eq.
      destruct (b_validationErr b) as [w'|]; [|by apply Hnew]. rewrite (Hold w') by done. by apply Hv. }
    rewrite Hk in *. split_and!; [done| |done|].
    + destruct H2 as (r & Hr & Hl). exists r. split; [done|]. intros k'. rewrite Hl.
      repeat case_decide; try done. destruct (decide (k = k')) as [->|]; [by rewrite H1 in *|done].
    + unfold classify_all in H4. rewrite H4, He. split; [intros [? _]; done|].
      intros [_ HF]. by inversion HF.
Qed.

(** A handler that uses the builder meets the batch contract: for a batch
    of distinct, complete messages and any sequence of classifications, either
    every classified key belongs to the batch and the built result is accepted
    with, for each message in order, its last classification (success by
    default), or some key is foreign and [Build] reports an invalid batch
    result. *)
Theorem Builder_meets_contract {T} (ms : list (Message T)) ops :
  let keys := List.map message_key ms in
  NoDup keys -> Forall (fun k => complete_key k = true) keys ->
  let b := classify_all (NewBatchResultBuilder ms) ops in
  if forallb (fun op => bool_decide (op.1 ∈ keys)) ops
  then exists res, Build b = Ok res /\
         ValidateResult keys res = Ok (List.map (last_class ops) keys)
  else exists e, Build b = Err e /\ errors_is (Some e) ErrInvalidBatchResult = true.
Proof.
  intros keys Hnd HF b.
  destruct (classify_all_inv ops (NewBatchResultBuilder ms) _ (New_builder_ok ms) ltac:(done))
    as (Hk & (r & Hr & Hl) & Hv & Hnone). fold b in Hk, Hr, Hl, Hv, Hnone.
  assert (Hkeys : b_keys b = keys) by done. rewrite Hkeys in Hl.
  destruct (forallb _ ops) eqn:Hall.
  - assert (b_validationErr b = None) as Hve.
    { apply Hnone. split; [done|]. apply Forall_forall. intros op Hop.
      rewrite forallb_forall in Hall. apply list_elem_of_In, Hall in Hop. by bool_simpl. }
    set (res := List.map (fun k => {| bi_Key := k; bi_Err := last_class ops k |}) keys).
    exists res.
    assert (item_keys res = keys) as Hik.
    { unfold item_keys, res. rewrite List.map_map. apply List.map_id. }
    split.
    { unfold Build, ErrorKey. rewrite Hve, Hkeys, Hr. unfold res. case_decide as Hnil; [by rewrite Hnil|].
      f_equal. apply map_ext_in. intros k Hin. apply list_elem_of_In in Hin. simpl.
      rewrite Hl, decide_True by done. done. }
    pose proof (ValidateResult_contract keys res) as Hspec. simpl in Hspec.
    destruct (ValidateResult keys res) as [errs|e].
    + f_equal. destruct Hspec as [_ HF2]. clear -HF2.
      assert (forall k e, {| bi_Key := k; bi_Err := e |} ∈ res -> e = last_class ops k) as Hres.
      { intros k e. unfold res. rewrite list_elem_of_In, in_map_iff. intros (? & ? & ?). by simplify_eq. }
      clearbody keys. revert HF2. generalize res Hres. clear. intros res Hres.
      induction 1; simpl; [done|]. f_equal; [by apply Hres|done].
    + destruct Hspec as [Hn _]. destruct Hn. rewrite Hik. done.
  - destruct (b_validationErr b) as [v|] eqn:Hve.
    + exists v. unfold Build. rewrite Hve. split; [done|by apply Hv].
    + apply not_true_iff_false in Hall. destruct Hall. apply forallb_forall.
      destruct Hnone as [Hn _]. destruct (Hn eq_refl) as [_ Hops]. rewrite Forall_forall in Hops.
      intros op Hop. apply bool_decide_eq_true_2. apply list_elem_of_In in Hop. by apply Hops.
Qed.

(** Sample data for the witnesses. *)
Definition sample_metadata (source : string) (id : MessageID) : Metadata :=
  {| md_ID := id; md_Kind := KindEvent; md_Name := "order.created"; md_SchemaVersion := 1;
     md_Source := source; md_Subject := ""; md_Time := 0; md_CorrelationID := id;
     md_CausationID := zeroID; md_Key := ""; md_ContentType := "application/json";
     md_Schema := ""; md_Headers := ∅; md_NotBefore := 0; md_ExpiresAt := 0 |}.
Definition sample_message (source : string) (id : MessageID) : Message string :=
  {| m_Metadata := sample_metadata source id; m_Payload := "{}" |}.

Lemma Builder_meets_contract_witness :
  let ms := [sample_message "svc" "0123456789abcdef"; sample_message "svc" "fedcba9876543210"] in
  let k := message_key (sample_message "svc" "fedcba9876543210") in
  exists res, Build (classify_all (NewBatchResultBuilder ms) [(k, Some (ENew "busy"))]) = Ok res /\
    ValidateResult (List.map message_key ms) res = Ok [None; Some (ENew "busy")].
Proof.
  intros ms k.
  pose proof (Builder_meets_contract ms [(k, Some (ENew "busy"))]) as Hb. apply Hb.
  - apply (bool_decide_unpack _). vm_compute. exact I.
  - repeat constructor.
Defined.

(** ** Invocation *)
Section InvokeFacts.
Context {H Ctx T : Type} (ctxErr : Ctx -> H -> option error).

(** What every [next] keeps: it runs the handler at most once more, only
    before it ran, and records the failure of the run. *)
Definition tracked (handler : @BatchHandler H Ctx T) (s : @ivState H Ctx) : Prop :=
  (iv_handlerCalls s <= 1)%nat /\
  (iv_handlerCalls s = O -> iv_terminalCtx s = None /\ iv_terminalCompletionErr s = None) /\
  (iv_handlerCalls s = 1%nat -> is_Some (iv_terminalCtx s)).

Definition next_ok (handler : @BatchHandler H Ctx T) (next : @NextFunc H Ctx) : Prop :=
  forall ctx s, iv_handlerCalls s = O -> tracked handler s -> tracked handler (next ctx s).1.

Lemma terminal_ok handler messages : next_ok handler (terminal ctxErr handler messages).
Proof.
  intros [ctx|] s Hs Ht; [|done]. unfold terminal.
  destruct (handler ctx messages (iv_host s)) as [h [res err|v]]; simpl; rewrite Hs;
    split_and!; simpl; try done; try lia; eauto.
Qed.

Lemma run_strategy_ok handler next called m s :
  next_ok handler next -> (called = false -> iv_handlerCalls s = O) -> tracked handler s ->
  tracked handler (run_strategy next called m s).1.
Proof.
  intros Hn. revert called s.
  induction m as [res err|v|f k IH|ctx k IH]; intros called s Hc Ht; simpl; try done.
  - apply IH; [done|exact Ht].
  - destruct called; [by apply IH|].
    pose proof (Hn ctx s (Hc eq_refl) Ht) as Ht'. destruct (next ctx s) as [s' out].
    by apply IH.
Qed.

Lemma chain_ok handler messages id mws next :
  chain ctxErr handler messages id mws = Some next -> next_ok handler next.
Proof.
  revert next. induction mws as [|mw mws IH]; intros next Hch; simplify_eq/=.
  { apply terminal_ok. }
  unfold chain in *. destruct (foldr _ _ mws) as [inner|]; [|done].
  destruct mw as [f|]; simplify_eq. intros ctx s Hs Ht. by apply run_strategy_ok; eauto.
Qed.

Lemma settle_spec s res err :
  let late := match iv_terminalCtx s with Some c => ctxErr c (iv_host s) | None => None end in
  let '(res', err') := settle ctxErr s res err in
  (is_Some err' -> res' = []) /\
  (is_Some late \/ is_Some (iv_terminalCompletionErr s) \/ is_Some err -> is_Some err') /\
  (late = None -> iv_terminalCompletionErr s = None -> err = None -> res' = res /\ err' = None).
Proof.
  unfold settle. simpl.
  destruct (match iv_terminalCtx s with Some _ => _ | None => _ end) as [e|],
    (iv_terminalCompletionErr s) as [c|], err as [x|], res as [|i res]; simpl;
    split_and!; intros; try done; eauto;
    repeat match goal with
    | H : is_Some None |- _ => by destruct H
    | H : _ \/ _ |- _ => destruct H
    end.
Qed.
End InvokeFacts.

(** However the middleware behaves (calling [next] any number of times,
    swallowing its error, inventing results), one invocation runs the typed
    handler at most once; a top-level error always comes with an empty result;
    and when the handler returned an error, or its context ended before the
    invocation finished, the invocation reports an error: middleware cannot
    turn a failed batch into a success. *)
Theorem Invoke_fail_closed {H Ctx T} (ctxErr : Ctx -> H -> option error) ctx
    (messages : list (Message T)) id (handler : option BatchHandler) mws reporter_nil stack h :
  let inv := Invoke ctxErr ctx messages id handler mws reporter_nil stack h in
  let s := in_state inv in
  (iv_handlerCalls s <= 1)%nat /\
  (is_Some (in_err inv) -> in_result inv = []) /\
  (is_Some (iv_terminalCompletionErr s) -> is_Some (in_err inv)) /\
  (forall c e, iv_terminalCtx s = Some c -> ctxErr c (iv_host s) = Some e -> is_Some (in_err inv)) /\
  (handler = None \/ ctx = None \/ None ∈ mws -> is_Some (in_err inv) /\ iv_handlerCalls s = O).
Proof.
  assert (forall label,
    let inv := {| in_state := initial (Ctx := Ctx) h; in_reports := []; in_result := [];
                  in_err := Some (wrapS ErrInvalidBatchResult label) |} in
    (iv_handlerCalls (in_state inv) <= 1)%nat /\ in_result inv = [] /\ is_Some (in_err inv)
    /\ iv_handlerCalls (in_state inv) = O) as Hfail by (intros; simpl; eauto).
  unfold Invoke. destruct ctx as [ctx|], handler as [handler|];
    try (split_and!; naive_solver lia).
  destruct (String.eqb id ""); [split_and!; naive_solver lia|].
  destruct (chain ctxErr handler messages id mws) as [next|] eqn:Hch; [|split_and!; naive_solver lia].
  assert (~ (None ∈ mws)) as Hmw.
  { clear -Hch. revert next Hch. unfold chain. induction mws as [|mw mws IH]; intros next Hch; [set_solver|].
    simpl in Hch. destruct (foldr _ _ mws) as [inner|]; [|done]. destruct mw as [f|]; [|done].
    rewrite elem_of_cons. intros [?|Hin]; [done|]. by apply (IH inner eq_refl). }
  assert (tracked handler (next (Some ctx) (initial h)).1) as (Hc & _ & _).
  { eapply chain_ok; [done..|]. split_and!; simpl; [lia|done|done]. }
  destruct (next (Some ctx) (initial h)) as [s [res err|v]]; simpl in *.
  - pose proof (settle_spec ctxErr s res err) as Hs. simpl in Hs.
    destruct (settle ctxErr s res err) as [res' err']. destruct Hs as (H1 & H2 & _). simpl.
    split_and!; [done|done|by eauto| |naive_solver].
    intros c e Hctx He. apply H2. left. rewrite Hctx, He. eauto.
  - split_and!; [done|done|by eexists..|]. intros [?|[?|?]]; done.
Qed.

(** The antecedents are reachable: a middleware that swallows the error of a
    cancelled handler still gets the error reported. *)
Lemma Invoke_fail_closed_witness :
  let ctxErr := fun (_ : unit) (cancelled : bool) =>
    if cancelled then Some (ESentinel Canceled) else None in
  let handler := fun (_ : unit) (_ : list (Message string)) (_ : bool) => (true, Returned [] None) in
  let swallow := fun c (_ : list Metadata) (_ : string) =>
    CallNext c (fun _ => CallNext c (fun _ => Return [] None)) in
  let inv := Invoke ctxErr (Some tt) [] "h" (Some handler) [Some swallow] true "" false in
  iv_handlerCalls (in_state inv) = 1%nat /\ is_Some (in_err inv).
Proof.
  intros ctxErr handler swallow inv. split; [reflexivity|].
  destruct (Invoke_fail_closed ctxErr (Some tt) [] "h" (Some handler) [Some swallow] true "" false)
    as (_ & _ & Hc & _).
  apply Hc. eexists; reflexivity.
Defined.
