(* ===== verification/Envelope.v ===== *)
(** * The native envelope

    Models [envelope.go], [decode.go] and [validateSource] of [builder.go].

    The JSON codec of the standard library is the class [EnvelopeJSON], with what
    is documented about it in [EnvelopeJSONLaws]: a marshalled envelope parses to
    the envelope with its raw message compacted, texts must be valid UTF-8 to
    survive.  [url_Parse] is the error of [url.Parse], [EqualFold] is
    [strings.EqualFold]. *)
From S2P Require Import Prelude GoStrings GoText Digest Errors Ident Batch.
From Stdlib Require Import Ascii.
Import Stdlib.Strings.String.
Import Sha256 Base64.
Open Scope string_scope.
Open Scope Z_scope.

Module Envelope.

Definition EnvelopeSpecVersion : string := "1.0".
Definition DefaultMaxHeaders : Z := 64.
Definition DefaultMaxHeaderBytes : Z := Z.shiftl 16 10.

(** [e_Data] is [None] for a nil raw message, [e_DataBase64] for a nil pointer. *)
Record Envelope := {
  e_SpecVersion : string;
  e_ID : MessageID;
  e_Kind : Kind;
  e_Name : string;
  e_SchemaVersion : Z;
  e_Source : string;
  e_Subject : string;
  e_Time : Time;
  e_CorrelationID : MessageID;
  e_CausationID : MessageID;
  e_Key : string;
  e_ContentType : string;
  e_DataEncoding : DataEncoding;
  e_Schema : string;
  e_Headers : gmap string string;
  e_NotBefore : Time;
  e_ExpiresAt : Time;
  e_Data : option string;
  e_DataBase64 : option string }.

Definition Envelope_Metadata (e : Envelope) : Metadata :=
  {| md_ID := e_ID e; md_Kind := e_Kind e; md_Name := e_Name e; md_SchemaVersion := e_SchemaVersion e;
     md_Source := e_Source e; md_Subject := e_Subject e; md_Time := e_Time e; md_CorrelationID := e_CorrelationID e;
     md_CausationID := e_CausationID e; md_Key := e_Key e; md_ContentType := e_ContentType e; md_Schema := e_Schema e;
     md_Headers := e_Headers e; md_NotBefore := e_NotBefore e; md_ExpiresAt := e_ExpiresAt e |}.

(** An envelope with the given metadata and data. *)
Definition envelope_of (m : Metadata) (encoding : DataEncoding) (data base64 : option string) : Envelope :=
  {| e_SpecVersion := EnvelopeSpecVersion; e_ID := md_ID m; e_Kind := md_Kind m; e_Name := md_Name m;
     e_SchemaVersion := md_SchemaVersion m; e_Source := md_Source m; e_Subject := md_Subject m; e_Time := UTC (md_Time m);
     e_CorrelationID := md_CorrelationID m; e_CausationID := md_CausationID m; e_Key := md_Key m;
     e_ContentType := md_ContentType m; e_DataEncoding := encoding; e_Schema := md_Schema m; e_Headers := md_Headers m;
     e_NotBefore := UTC (md_NotBefore m); e_ExpiresAt := UTC (md_ExpiresAt m); e_Data := data; e_DataBase64 := base64 |}.

Class EnvelopeJSON := {
  json_Valid : string -> bool;
  json_Compact : string -> string;                    (** what [Marshal] makes of a raw message *)
  json_String : string -> result error string;        (** [Marshal] of a string *)
  json_UnString : string -> result error string;      (** [Unmarshal] into a string *)
  json_Envelope : Envelope -> result error string;
  json_Parse : string -> result error Envelope;       (** the first value, unknown fields refused *)
  json_Trailing : string -> option error;             (** after it; [None] is the end of the input *)
  url_Parse : string -> option error;
  EqualFold : string -> string -> bool }.

Definition invalid_message (label : string) (causes : list error) : error := EFmt label (ESentinel ErrInvalidMessage :: causes).

Section Envelope.
Context `{!EnvelopeJSON}.

(** ** Validation *)
Definition validateSource (source : string) : option error :=
  if String.eqb source "" || negb (String.eqb (TrimSpace source) source)
  then Some (invalid_message "source is required" [])
  else match url_Parse source with
  | Some e => Some (invalid_message "invalid source" [e])
  | None => None
  end.

Definition crlf : string := of_bytes (List.map chr [13; 10]).

(** The loop over the headers; the flags remember the trace headers seen. *)
Fixpoint validate_header_list (l : list (string * string)) (total : Z) (parentSeen stateSeen : bool) : option error :=
  match l with
  | [] => if DefaultMaxHeaderBytes <? total then Some (invalid_message "headers exceed byte limit" []) else None
  | (key, value) :: rest =>
      if String.eqb key "" || negb (String.eqb (TrimSpace key) key) || contains_any key crlf || contains_any value crlf
      then Some (invalid_message "invalid header" [])
      else if EqualFold key "traceparent" then
        if parentSeen then Some (invalid_message "duplicate trace header" [])
        else validate_header_list rest (total + len key + len value) true stateSeen
      else if EqualFold key "tracestate" then
        if stateSeen then Some (invalid_message "duplicate trace header" [])
        else validate_header_list rest (total + len key + len value) parentSeen true
      else validate_header_list rest (total + len key + len value) parentSeen stateSeen
  end.

Definition validateHeaders (headers : gmap string string) : option error :=
  if DefaultMaxHeaders <? Z.of_nat (size headers) then Some (invalid_message "too many headers" [])
  else validate_header_list (map_to_list headers) 0 false false.

(** [e.payload()] *)
Definition payload (e : Envelope) : result error string :=
  if e_DataEncoding e =? DataBinary then
    match e_Data e, e_DataBase64 e with
    | None, Some text =>
        match DecodeString text with
        | Some data => Ok data
        | None => Err (invalid_message "decode dataBase64" [ENew "base64"])
        end
    | _, _ => Err (invalid_message "binary data requires dataBase64" [])
    end
  else if e_DataEncoding e =? DataText then
    match e_Data e, e_DataBase64 e with
    | Some data, None =>
        match json_UnString data with
        | Ok value => Ok value
        | Err err => Err (invalid_message "decode text data" [err])
        end
    | _, _ => Err (invalid_message "text data requires data" [])
    end
  else if e_DataEncoding e =? DataJSON then
    match e_Data e, e_DataBase64 e with
    | Some data, None => if json_Valid data then Ok data else Err (invalid_message "invalid JSON data" [])
    | _, _ => Err (invalid_message "JSON data requires data" [])
    end
  else Err (invalid_message "unknown data encoding" []).

Definition incomplete (e : Envelope) : bool :=
  negb (String.eqb (e_SpecVersion e) EnvelopeSpecVersion) || MessageID_IsZero (e_ID e) || negb (Kind_validWire (e_Kind e))
  || (len (e_Name e) =? 0) || (maxDescriptorNameLength <? len (e_Name e))
  || negb (MatchString descriptorNamePattern (bytes (e_Name e))) || (e_SchemaVersion e <=? 0)
  || IsZero (e_Time e) || MessageID_IsZero (e_CorrelationID e) || String.eqb (e_ContentType e) ""
  || negb (DataEncoding_valid (e_DataEncoding e)).

Definition Validate (e : Envelope) : option error :=
  if incomplete e then Some (invalid_message "incomplete envelope" [])
  else match validateSource (e_Source e) with
  | Some err => Some err
  | None =>
      match payload e with
      | Err err => Some err
      | Ok _ =>
          if negb (IsZero (e_NotBefore e)) && negb (IsZero (e_ExpiresAt e)) && negb (After (e_ExpiresAt e) (e_NotBefore e))
          then Some (invalid_message "expiresAt must follow notBefore" [])
          else validateHeaders (e_Headers e)
      end
  end.

(** ** Encoding *)
Definition validated (e : Envelope) : result error Envelope :=
  match Validate e with Some err => Err err | None => Ok e end.

Definition envelopeFrom (m : Metadata) (data : string) (encoding : DataEncoding) : result error Envelope :=
  if encoding =? DataJSON then
    let data := if len data =? 0 then "null" else data in
    if json_Valid data then validated (envelope_of m encoding (Some data) None)
    else Err (invalid_message "codec returned invalid JSON" [])
  else if encoding =? DataText then
    match json_String data with
    | Err err => Err (EFmt "encode text payload" [err])
    | Ok text => validated (envelope_of m encoding (Some text) None)
    end
  else if encoding =? DataBinary then validated (envelope_of m encoding None (Some (EncodeToString data)))
  else Err (invalid_message "unknown data encoding" []).

Definition MarshalEnvelope (m : Metadata) (data : string) (encoding : DataEncoding) : result error string :=
  match envelopeFrom m data encoding with
  | Err err => Err err
  | Ok e =>
      match json_Envelope e with
      | Err err => Err (EFmt "marshal envelope" [err])
      | Ok text => if DefaultMaxEnvelopeBytes <? len text then Err (wrapS ErrEnvelopeTooLarge "got bytes") else Ok text
      end
  end.

Definition UnmarshalEnvelope (data : string) : result error Envelope :=
  if DefaultMaxEnvelopeBytes <? len data then Err (wrapS ErrEnvelopeTooLarge "got bytes")
  else match json_Parse data with
  | Err err => Err (invalid_message "decode envelope" [err])
  | Ok e =>
      match json_Trailing data with
      | Some err => Err (invalid_message "decode envelope" [err])
      | None => validated e
      end
  end.

Definition CanonicalizeEnvelope (data : string) : result error string :=
  match UnmarshalEnvelope data with
  | Err err => Err err
  | Ok e =>
      match payload e with
      | Err err => Err err
      | Ok p => MarshalEnvelope (Envelope_Metadata e) p (e_DataEncoding e)
      end
  end.

Definition EnvelopeFingerprint (data : string) : string := Sum256 data.

(** ** Typed messages *)
Definition matches_info (info : DescriptorInfo) (kind : Kind) (name : string) (version : Z) (contentType schema : string) : bool :=
  String.eqb kind (di_Kind info) && String.eqb name (di_Name info) && (version =? di_SchemaVersion info)
  && String.eqb contentType (di_ContentType info) && String.eqb schema (di_Schema info).

Definition encodeTypedEnvelope {T} (d : descriptor T) (m : Metadata) (value : T) : result error string :=
  if negb (matches_info (d_info d) (md_Kind m) (md_Name m) (md_SchemaVersion m) (md_ContentType m) (md_Schema m))
  then Err (wrapS ErrDescriptorConflict "metadata does not match")
  else match Encode (d_codec d) value with
  | Err err => Err err
  | Ok data => MarshalEnvelope m data (Encoding (d_codec d))
  end.

Definition decodeMessage {T} (d : descriptor T) (data : string) : result error (Message T) :=
  match UnmarshalEnvelope data with
  | Err err => Err err
  | Ok e =>
      if negb (matches_info (d_info d) (e_Kind e) (e_Name e) (e_SchemaVersion e) (e_ContentType e) (e_Schema e))
         || negb (e_DataEncoding e =? di_DataEncoding (d_info d))
      then Err (wrapS ErrDescriptorConflict "envelope does not match")
      else match payload e with
      | Err err => Err err
      | Ok p =>
          if negb (e_DataEncoding e =? Encoding (d_codec d)) then Err (wrapS ErrDescriptorConflict "payload encoding")
          else match Decode (d_codec d) p with
          | Err err => Err err
          | Ok value => Ok {| m_Metadata := Envelope_Metadata e; m_Payload := value |}
          end
      end
  end.

(** [validateEnvelopeDescriptor] of the Kafka consumer makes the same comparison. *)
Definition validateEnvelopeDescriptor (e : Envelope) (info : DescriptorInfo) : option error :=
  if negb (matches_info info (e_Kind e) (e_Name e) (e_SchemaVersion e) (e_ContentType e) (e_Schema e))
     || negb (e_DataEncoding e =? di_DataEncoding info)
  then Some (wrapS ErrDescriptorConflict "envelope does not match") else None.
End Envelope.
End Envelope.
