(* ===== verification/EnvelopeProofs.v ===== *)
(** * Theorems about the native envelope

    [EnvelopeJSONLaws] states what the code relies on in [encoding/json]: a
    marshalled envelope whose texts are valid UTF-8 parses to itself, up to the
    white space of its raw message; what the decoder returns has valid texts; a
    string survives.  Two inputs get the same canonical bytes, and so the same
    fingerprint, exactly when they carry the same metadata and payload; a typed
    message survives its envelope. *)
From S2P Require Import Prelude GoStrings GoText Digest Errors Ident Batch Envelope.
From Stdlib Require Import Ascii.
Import Stdlib.Strings.String.
Import Sha256 Base64 Envelope.
Open Scope string_scope.
Open Scope Z_scope.

Module EnvelopeProofs.

Definition utf8 (s : string) : Prop := ToValidUTF8 s = s.

Definition metadata_text (m : Metadata) : Prop :=
  Forall utf8 [md_Kind m; md_Name m; md_Source m; md_Subject m; md_Key m; md_ContentType m; md_Schema m] /\
  map_Forall (fun key value => utf8 key /\ utf8 value) (md_Headers m) /\
  Forall MessageID_wf [md_ID m; md_CorrelationID m; md_CausationID m] /\
  md_SchemaVersion m <= maxInt64.

Section Laws.
Context `{!EnvelopeJSON}.

Definition compacted (e : Envelope) : Envelope :=
  {| e_SpecVersion := e_SpecVersion e; e_ID := e_ID e; e_Kind := e_Kind e; e_Name := e_Name e;
     e_SchemaVersion := e_SchemaVersion e; e_Source := e_Source e; e_Subject := e_Subject e; e_Time := e_Time e;
     e_CorrelationID := e_CorrelationID e; e_CausationID := e_CausationID e; e_Key := e_Key e;
     e_ContentType := e_ContentType e; e_DataEncoding := e_DataEncoding e; e_Schema := e_Schema e;
     e_Headers := e_Headers e; e_NotBefore := e_NotBefore e; e_ExpiresAt := e_ExpiresAt e;
     e_Data := json_Compact <$> e_Data e; e_DataBase64 := e_DataBase64 e |}.

Class EnvelopeJSONLaws : Prop := {
  parse_marshal e s :
    Validate e = None -> metadata_text (Envelope_Metadata e) -> json_Envelope e = Ok s ->
    json_Parse s = Ok (compacted e) /\ json_Trailing s = None;
  marshal_compacted e : Validate e = None -> json_Envelope (compacted e) = json_Envelope e;
  parse_text s e : json_Parse s = Ok e -> Validate e = None -> metadata_text (Envelope_Metadata e);
  valid_compact d : json_Valid d = true -> json_Valid (json_Compact d) = true;
  compact_compact d : json_Compact (json_Compact d) = json_Compact d;
  valid_empty : json_Valid "" = false;
  string_roundtrip p d : utf8 p -> json_String p = Ok d -> json_UnString d = Ok p;
  string_compact p d : json_String p = Ok d -> json_Compact d = d;
  unstring_text d p : json_UnString d = Ok p -> utf8 p;
  unstring_compact d : json_UnString (json_Compact d) = json_UnString d;
  unstring_again d p : json_UnString d = Ok p -> exists d', json_String p = Ok d' }.
End Laws.

Section Proofs.
Context `{!EnvelopeJSON, !EnvelopeJSONLaws}.

(** The payload a receiver gets: JSON is compacted, and an empty one is [null]. *)
Definition received (encoding : DataEncoding) (data : string) : string :=
  if encoding =? DataJSON then json_Compact (if len data =? 0 then "null" else data) else data.

Lemma len_nil s : len s = 0 -> s = "".
Proof. destruct s; [done|]. unfold len. simpl. lia. Qed.

Lemma valid_nonempty d : json_Valid d = true -> (if len d =? 0 then "null" else d) = d.
Proof.
  intros Hv. destruct (len d =? 0) eqn:E; [|done]. apply Z.eqb_eq, len_nil in E. subst. by rewrite valid_empty in Hv.
Qed.

Lemma Validate_payload e : Validate e = None -> exists p, payload e = Ok p.
Proof.
  unfold Validate. destruct (incomplete e); [done|]. destruct (validateSource _); [done|].
  destruct (payload e); [eauto|done].
Qed.

(** The three shapes of an envelope with a payload. *)
Lemma payload_cases e p :
  payload e = Ok p <->
  (e_DataEncoding e = DataBinary /\ e_Data e = None /\ exists t, e_DataBase64 e = Some t /\ DecodeString t = Some p) \/
  (e_DataEncoding e = DataText /\ exists d, e_Data e = Some d /\ e_DataBase64 e = None /\ json_UnString d = Ok p) \/
  (e_DataEncoding e = DataJSON /\ e_Data e = Some p /\ e_DataBase64 e = None /\ json_Valid p = true).
Proof.
  unfold payload. split.
  - intros Hp. repeat case_in Hp; simplify_eq;
      repeat match goal with Hq : (_ =? _) = true |- _ => apply Z.eqb_eq in Hq end; naive_solver.
  - intros [(-> & -> & t & -> & Hd)|[(-> & d & -> & -> & Hu)|(-> & -> & -> & Hv)]]; simpl;
      rewrite ?Hd, ?Hu, ?Hv; done.
Qed.

(** Compaction keeps the payload up to [received]. *)
Lemma payload_compacted e p :
  payload e = Ok p -> payload (compacted e) = Ok (received (e_DataEncoding e) p).
Proof.
  rewrite !payload_cases. unfold received. simpl.
  intros [(He & Hd & t & Ht & Hp)|[(He & d & Hd & Hb & Hp)|(He & Hd & Hb & Hv)]]; rewrite He, Hd; simpl.
  - left. eauto.
  - right. left. rewrite Hb. split; [done|]. exists (json_Compact d). by rewrite unstring_compact.
  - right. right. rewrite valid_nonempty, Hb by done. eauto using valid_compact.
Qed.

Lemma compacted_valid e : Validate e = None -> Validate (compacted e) = None.
Proof.
  intros Hv. destruct (Validate_payload _ Hv) as [p Hp]. unfold Validate in *.
  change (incomplete (compacted e)) with (incomplete e). rewrite (payload_compacted _ _ Hp). by rewrite Hp in Hv.
Qed.

Lemma envelope_validated_ok e e' : validated e = Ok e' -> e' = e /\ Validate e = None.
Proof. unfold validated. destruct (Validate e); naive_solver. Qed.

Lemma envelopeFrom_ok m data encoding e :
  envelopeFrom m data encoding = Ok e -> (encoding = DataText -> utf8 data) ->
  Validate e = None /\ Envelope_Metadata e = m /\ e_DataEncoding e = encoding /\
  payload (compacted e) = Ok (received encoding data).
Proof.
  unfold envelopeFrom. intros Hf Ht.
  assert (Hm : forall d b, Envelope_Metadata (envelope_of m encoding d b) = m) by (intros; by destruct m).
  case_in Hf; [|case_in Hf; [|case_in Hf; [|done]]];
    repeat match goal with Hq : (_ =? _) = true |- _ => apply Z.eqb_eq in Hq; subst end.
  - set (p := if len data =? 0 then "null" else data) in *. case_in Hf; [|done].
    apply envelope_validated_ok in Hf as [-> Hv]. split_and!; [done|apply Hm|done|].
    rewrite (payload_compacted _ p); [|apply payload_cases; right; right; eauto].
    unfold received. simpl. by rewrite valid_nonempty.
  - case_in Hf; [|done]. apply envelope_validated_ok in Hf as [-> Hv]. split_and!; [done|apply Hm|done|].
    rewrite (payload_compacted _ data); [done|]. apply payload_cases. right. left.
    split; [done|]. eexists. split_and!; [done|done|]. apply string_roundtrip; auto.
  - apply envelope_validated_ok in Hf as [-> Hv]. split_and!; [done|apply Hm|done|].
    rewrite (payload_compacted _ data); [done|]. apply payload_cases. left.
    simpl. eauto 6 using DecodeString_EncodeToString.
Qed.

Lemma MarshalEnvelope_ok m data encoding s :
  MarshalEnvelope m data encoding = Ok s -> metadata_text m -> (encoding = DataText -> utf8 data) ->
  exists e, envelopeFrom m data encoding = Ok e /\ Validate e = None /\ UnmarshalEnvelope s = Ok (compacted e) /\
    Envelope_Metadata (compacted e) = m /\ e_DataEncoding e = encoding /\
    payload (compacted e) = Ok (received encoding data).
Proof.
  unfold MarshalEnvelope. intros Hs Hm Ht. destruct (envelopeFrom m data encoding) as [e|] eqn:Ef; [|done].
  destruct (envelopeFrom_ok _ _ _ _ Ef Ht) as (Hv & He & Hd & Hp).
  destruct (json_Envelope e) as [text|] eqn:Ej; [|done]. destruct (_ <? _) eqn:El; [done|]. simplify_eq.
  destruct (parse_marshal e s Hv Hm Ej) as [Hparse Htrail].
  exists e. split_and!; try done. unfold UnmarshalEnvelope. rewrite El, Hparse, Htrail.
  unfold validated. by rewrite compacted_valid.
Qed.

Lemma UnmarshalEnvelope_ok s e :
  UnmarshalEnvelope s = Ok e -> Validate e = None /\ metadata_text (Envelope_Metadata e).
Proof.
  unfold UnmarshalEnvelope. destruct (_ <? _); [done|]. destruct (json_Parse s) as [e'|] eqn:Ep; [|done].
  destruct (json_Trailing s); [done|]. intros [-> Hv]%envelope_validated_ok. split; [done|]. by eapply parse_text.
Qed.

Lemma payload_text e p : payload e = Ok p -> e_DataEncoding e = DataText -> utf8 p.
Proof.
  rewrite payload_cases. intros [(He & _)|[(_ & d & _ & _ & Hu)|(He & _)]] Ht; [|by eapply unstring_text|];
    by rewrite He in Ht.
Qed.

(** What an accepted input carries: metadata, encoding and received payload. *)
Definition content (data : string) : option (Metadata * DataEncoding * string) :=
  match UnmarshalEnvelope data with
  | Err _ => None
  | Ok e => match payload e with
            | Err _ => None
            | Ok p => Some (Envelope_Metadata e, e_DataEncoding e, received (e_DataEncoding e) p)
            end
  end.

Lemma received_idem encoding p : (encoding = DataJSON -> json_Valid p = true) ->
  received encoding (received encoding p) = received encoding p.
Proof.
  unfold received. intros Hv. destruct (encoding =? DataJSON) eqn:E; [|done]. apply Z.eqb_eq in E.
  by rewrite (valid_nonempty p), valid_nonempty, compact_compact by auto using valid_compact.
Qed.

Lemma payload_valid e p : payload e = Ok p -> e_DataEncoding e = DataJSON -> json_Valid p = true.
Proof. rewrite payload_cases. intros [(He & _)|[(He & _)|(_ & _ & _ & Hv)]] Hj; [by rewrite He in Hj..|done]. Qed.

Lemma spec_version e : Validate e = None -> e_SpecVersion e = EnvelopeSpecVersion.
Proof.
  unfold Validate, incomplete. destruct (String.eqb (e_SpecVersion e) _) eqn:E; [|done]. by apply String.eqb_eq in E.
Qed.

(** Re-encoding the payload of a valid JSON envelope gives the envelope. *)
Lemma envelopeFrom_json e p :
  Validate e = None -> payload e = Ok p -> e_DataEncoding e = DataJSON ->
  envelopeFrom (Envelope_Metadata e) p (e_DataEncoding e) = Ok e.
Proof.
  intros Hv Hp He. pose proof (payload_valid _ _ Hp He) as Hj. pose proof (spec_version _ Hv) as Hs.
  apply payload_cases in Hp as [(He' & _)|[(He' & _)|(_ & Hd & Hb & _)]]; [by rewrite He in He'..|].
  unfold envelopeFrom. rewrite He. cbn [Z.eqb]. rewrite valid_nonempty, Hj by done.
  replace (envelope_of (Envelope_Metadata e) DataJSON (Some p) None) with e; [unfold validated; by rewrite Hv|].
  destruct e. simpl in *. by subst.
Qed.

(** Canonical bytes depend on the received payload only. *)
Lemma marshal_received e p :
  Validate e = None -> payload e = Ok p ->
  MarshalEnvelope (Envelope_Metadata e) p (e_DataEncoding e) =
  MarshalEnvelope (Envelope_Metadata e) (received (e_DataEncoding e) p) (e_DataEncoding e).
Proof.
  intros Hv Hp. destruct (decide (e_DataEncoding e = DataJSON)) as [He|He].
  - unfold MarshalEnvelope. rewrite envelopeFrom_json by done.
    pose proof (envelopeFrom_json (compacted e) _ (compacted_valid _ Hv) (payload_compacted _ _ Hp) He) as Hc.
    change (Envelope_Metadata (compacted e)) with (Envelope_Metadata e) in Hc. simpl in Hc.
    rewrite Hc. by rewrite marshal_compacted.
  - unfold received. apply Z.eqb_neq in He. by rewrite He.
Qed.

Lemma canonicalize_ok data c :
  CanonicalizeEnvelope data = Ok c ->
  exists e p, UnmarshalEnvelope data = Ok e /\ Validate e = None /\ payload e = Ok p /\
    content data = Some (Envelope_Metadata e, e_DataEncoding e, received (e_DataEncoding e) p) /\
    MarshalEnvelope (Envelope_Metadata e) (received (e_DataEncoding e) p) (e_DataEncoding e) = Ok c.
Proof.
  unfold CanonicalizeEnvelope, content. intros Hc. destruct (UnmarshalEnvelope data) as [e|] eqn:Eu; [|done].
  destruct (UnmarshalEnvelope_ok _ _ Eu) as [Hv _]. destruct (payload e) as [p|] eqn:Ep; [|done].
  exists e, p. rewrite <- marshal_received by done. done.
Qed.

(** What [MarshalEnvelope] returns is canonical. *)
Lemma marshal_canonical m data encoding s :
  MarshalEnvelope m data encoding = Ok s -> metadata_text m -> (encoding = DataText -> utf8 data) ->
  content s = Some (m, encoding, received encoding data) /\ CanonicalizeEnvelope s = Ok s.
Proof.
  intros Hs Hm Ht. pose proof Hs as Hs'. apply MarshalEnvelope_ok in Hs' as (e & Hf & Hv & Hu & He & Hd & Hp); [|done..].
  assert (Hj : encoding = DataJSON -> json_Valid (if len data =? 0 then "null" else data) = true).
  { intros ->. unfold envelopeFrom in Hf. cbn [Z.eqb] in Hf.
    by destruct (json_Valid (if len data =? 0 then "null" else data)). }
  assert (Hr : received encoding (received encoding data) = received encoding data).
  { unfold received in *. destruct (encoding =? DataJSON) eqn:E; [|done]. apply Z.eqb_eq in E.
    by rewrite valid_nonempty, compact_compact by auto using valid_compact. }
  split.
  - unfold content. rewrite Hu, Hp, He. simpl. by rewrite Hd, Hr.
  - unfold CanonicalizeEnvelope. rewrite Hu, Hp, marshal_received by auto using compacted_valid.
    rewrite He. simpl. rewrite Hd, Hr.
    unfold MarshalEnvelope in *. rewrite Hf in Hs. destruct (decide (encoding = DataJSON)) as [->|Hn].
    + pose proof (envelopeFrom_json (compacted e) _ (compacted_valid _ Hv) Hp Hd) as Hc.
      rewrite He in Hc. simpl in Hc. rewrite Hd in Hc. rewrite Hc. by rewrite marshal_compacted.
    + unfold received. apply Z.eqb_neq in Hn. by rewrite Hn, Hf.
Qed.

(** C37. Canonical bytes are a normal form: canonicalization is idempotent and
    keeps the metadata, the encoding and the payload a receiver decodes, and two
    accepted inputs get the same canonical bytes exactly when they agree on
    those.  The Inbox fingerprint, taken over these bytes, therefore neither
    depends on how a producer formats its JSON nor misses a difference. *)
Theorem canonical_exact data1 data2 c1 c2 :
  CanonicalizeEnvelope data1 = Ok c1 -> CanonicalizeEnvelope data2 = Ok c2 ->
  (c1 = c2 <-> content data1 = content data2) /\ content c1 = content data1 /\ is_Some (content data1) /\
  CanonicalizeEnvelope c1 = Ok c1.
Proof.
  assert (Hk : forall data c, CanonicalizeEnvelope data = Ok c ->
    content c = content data /\ CanonicalizeEnvelope c = Ok c /\ exists x, content data = Some x /\
      MarshalEnvelope x.1.1 x.2 x.1.2 = Ok c).
  { intros data c (e & p & Hu & Hv & Hp & Hc & Hm)%canonicalize_ok.
    destruct (marshal_canonical _ _ _ _ Hm) as [Hcc Hi].
    - by apply UnmarshalEnvelope_ok in Hu as [_ ?].
    - intros Ht. eapply payload_text; [|exact Ht]. rewrite Ht in *. unfold received. simpl. exact Hp.
    - rewrite Hcc, Hc, received_idem by eauto using payload_valid. split_and!; [done|done|].
      eexists. split; [reflexivity|]. exact Hm. }
  intros (Hc1 & Hi1 & x1 & Hx1 & Hm1)%Hk (Hc2 & Hi2 & x2 & Hx2 & Hm2)%Hk.
  split_and!; [|done|by rewrite Hx1|done]. split; [congruence|]. intros He.
  assert (x1 = x2) as -> by congruence. congruence.
Qed.

(** A typed message survives its envelope: what [encodeTypedEnvelope] returns
    is canonical and [decodeMessage] gives back the metadata and the value, for
    a codec that decodes what it encodes. *)
Theorem envelope_roundtrip {T} (d : descriptor T) m value s :
  encodeTypedEnvelope d m value = Ok s -> metadata_text m ->
  di_DataEncoding (d_info d) = Encoding (d_codec d) ->
  (forall data, Encode (d_codec d) value = Ok data ->
     Decode (d_codec d) (received (Encoding (d_codec d)) data) = Ok value /\
     (Encoding (d_codec d) = DataText -> utf8 data)) ->
  decodeMessage d s = Ok {| m_Metadata := m; m_Payload := value |} /\ CanonicalizeEnvelope s = Ok s.
Proof.
  unfold encodeTypedEnvelope. intros Hs Hm Hd Hcodec. case_in Hs; [done|]. bool_simpl.
  destruct (Encode _ value) as [data|] eqn:Ee; [|done]. destruct (Hcodec _ eq_refl) as [Hdec Ht].
  destruct (marshal_canonical _ _ _ _ Hs Hm Ht) as [_ Hc]. split; [|done].
  destruct (MarshalEnvelope_ok _ _ _ _ Hs Hm Ht) as (e & _ & _ & Hu & He & Hen & Hp).
  unfold decodeMessage. rewrite Hu, Hp. simpl. rewrite Hen, Hd, Z.eqb_refl. simpl. rewrite Hdec, He.
  rewrite <- He in Heqb. simpl in Heqb. by rewrite Heqb.
Qed.
End Proofs.

(** ** A concrete encoder

    It knows one envelope, in two spellings of its JSON data. *)
Definition demo_id : MessageID := of_bytes (List.repeat (chr 7) 16).
Definition demo_metadata : Metadata :=
  {| md_ID := demo_id; md_Kind := KindEvent; md_Name := "order.paid"; md_SchemaVersion := 1; md_Source := "shop"; md_Subject := "";
     md_Time := 1000; md_CorrelationID := demo_id; md_CausationID := zeroID; md_Key := ""; md_ContentType := "application/json";
     md_Schema := ""; md_Headers := {["tenant" := "a"]}; md_NotBefore := 0; md_ExpiresAt := 0 |}.
Definition demo_compact (d : string) : string := if String.eqb d " 1" then "1" else d.
Definition demo_envelope (data : string) : Envelope := envelope_of demo_metadata DataJSON (Some data) None.

#[local] Instance Envelope_eq_dec : EqDecision Envelope.
Proof. solve_decision. Defined.

Definition demo_json : EnvelopeJSON := {|
  json_Valid := fun d => String.eqb d "1" || String.eqb d " 1";
  json_Compact := demo_compact;
  json_String := fun _ => Err (ENew "unused");
  json_UnString := fun _ => Err (ENew "unused");
  json_Envelope := fun e =>
    if decide (e = demo_envelope "1" \/ e = demo_envelope " 1") then Ok "demo" else Err (ENew "unknown");
  json_Parse := fun s =>
    if String.eqb s "demo" then Ok (demo_envelope "1")
    else if String.eqb s " demo" then Ok (demo_envelope " 1") else Err (ENew "syntax");
  json_Trailing := fun _ => None;
  url_Parse := fun _ => None;
  EqualFold := String.eqb |}.

Lemma demo_text : metadata_text demo_metadata.
Proof.
  split_and!; [repeat constructor|..].
  - apply map_Forall_singleton. split; reflexivity.
  - repeat constructor.
  - done.
Qed.

Lemma demo_laws : @EnvelopeJSONLaws demo_json.
Proof.
  split; simpl; try done.
  - intros e s _ _. destruct (decide _) as [[->| ->]|]; [..|done]; intros [= <-]; done.
  - intros e _. destruct (decide (e = _ \/ _)) as [[->| ->]|Hn].
    + by rewrite decide_True by auto.
    + by rewrite decide_True by auto.
    + rewrite decide_False; [done|]. intros [Hc|Hc]; apply Hn; destruct e as [????????????????? data ?]; simpl in *;
        injection Hc as; subst; destruct data as [d|]; simplify_eq/=; unfold demo_compact in *;
        destruct (String.eqb d " 1") eqn:E; simplify_eq; [apply String.eqb_eq in E; subst|]; auto.
  - intros s e. destruct (String.eqb s "demo"); [intros [= <-] _; apply demo_text|].
    destruct (String.eqb s " demo"); [intros [= <-] _; apply demo_text|done].
  - intros d. unfold demo_compact. destruct (String.eqb d " 1") eqn:E; [done|].
    rewrite orb_false_r. intros Hd. by rewrite Hd.
  - intros d. unfold demo_compact. destruct (String.eqb d " 1") eqn:E; [done|]. by rewrite E.
Qed.

Lemma canonical_exact_witness :
  @CanonicalizeEnvelope demo_json " demo" = Ok "demo" /\ @content demo_json " demo" = @content demo_json "demo".
Proof.
  assert (H1 : @CanonicalizeEnvelope demo_json " demo" = Ok "demo") by (vm_compute; reflexivity).
  assert (H2 : @CanonicalizeEnvelope demo_json "demo" = Ok "demo") by (vm_compute; reflexivity).
  split; [exact H1|].
  exact (proj1 (proj1 (@canonical_exact demo_json demo_laws " demo" "demo" "demo" "demo" H1 H2)) eq_refl).
Defined.

Definition demo_codec : Codec unit :=
  {| Encode := fun _ => Ok " 1"; Decode := fun d => if String.eqb (demo_compact d) "1" then Ok tt else Err (ENew "syntax");
     ContentType := "application/json"; Encoding := DataJSON |}.
Definition demo_descriptor : descriptor unit :=
  {| d_info := {| di_Kind := KindEvent; di_Name := "order.paid"; di_SchemaVersion := 1; di_ContentType := "application/json";
                  di_DataEncoding := DataJSON; di_Schema := "" |};
     d_codec := demo_codec |}.

Lemma envelope_roundtrip_witness :
  @decodeMessage demo_json _ demo_descriptor "demo" = Ok {| m_Metadata := demo_metadata; m_Payload := tt |}.
Proof.
  apply (@envelope_roundtrip demo_json demo_laws unit demo_descriptor demo_metadata tt "demo").
  - vm_compute. reflexivity.
  - exact demo_text.
  - reflexivity.
  - intros data [= <-]. split; [reflexivity|discriminate].
Defined.
End EnvelopeProofs.
