(* ===== verification/Inbox.v ===== *)
(** * The Inbox: keys, outcomes, attempt fingerprints

    Models the types and the pure functions of [adapters/inbox/inbox.go] and the
    SQL namespace rules of [adapters/inbox/internal/sqlnamespace/names.go]. *)
From S2P Require Import Prelude GoStrings Digest Errors Ident.
From Stdlib Require Import Ascii.
Import Stdlib.Strings.String.
Open Scope string_scope.
Open Scope Z_scope.

(** ** Data *)
Record Key := {
  k_ConsumerID : string;
  k_Source : string;
  k_MessageID : MessageID;
  k_AttemptGeneration : string }.

#[global] Instance Key_eq_dec : EqDecision Key.
Proof. solve_decision. Defined.
#[global] Program Instance Key_countable : Countable Key :=
  inj_countable' (fun k => (k_ConsumerID k, k_Source k, k_MessageID k, k_AttemptGeneration k))
    (fun '(c, s, m, g) => {| k_ConsumerID := c; k_Source := s; k_MessageID := m; k_AttemptGeneration := g |}) _.
Next Obligation. by intros []. Qed.

(** SHA-256 over the canonical envelope: 32 bytes. *)
Definition Fingerprint := string.
Definition Fingerprint_wf (f : Fingerprint) : Prop := String.length f = 32%nat.

Record Result := { r_Duplicate : bool; r_Attempt : Z }.
Definition Result0 : Result := {| r_Duplicate := false; r_Attempt := 0 |}.

Record BatchItem := { it_Key : Key; it_Fingerprint : Fingerprint }.
#[global] Instance BatchItem_eq_dec : EqDecision BatchItem.
Proof. solve_decision. Defined.

(** [BatchUnset] is the zero value, the empty string. *)
Inductive BatchOutcome : Set := BatchUnset | BatchACK | BatchRetry | BatchDefer | BatchDLQ.
#[global] Instance BatchOutcome_eq_dec : EqDecision BatchOutcome.
Proof. solve_decision. Defined.

Definition FailureIdentityConflict : string := "identity_conflict".
Definition FailureAttemptsExhausted : string := "attempts_exhausted".
Definition FailurePermanentKind : string := "permanent".

Record BatchItemOutcome := {
  o_Key : Key;
  o_Fingerprint : Fingerprint;
  o_Outcome : BatchOutcome;
  o_Attempt : Z;
  o_Duplicate : bool;
  o_Delay : Duration;
  o_FailureKind : string;
  o_Err : option error }.

Definition Key0 : Key :=
  {| k_ConsumerID := ""; k_Source := ""; k_MessageID := zeroID; k_AttemptGeneration := "" |}.
Definition Fingerprint0 : Fingerprint := of_bytes (repeat Ascii.zero 32).
Definition BatchItemOutcome0 : BatchItemOutcome :=
  {| o_Key := Key0; o_Fingerprint := Fingerprint0; o_Outcome := BatchUnset; o_Attempt := 0;
     o_Duplicate := false; o_Delay := 0; o_FailureKind := ""; o_Err := None |}.

(** The decisions of one batch, in input order. *)
Record BatchProcessResult := { Items : list BatchItemOutcome; HandlerMessages : Z }.
Definition BatchProcessResult0 : BatchProcessResult := {| Items := []; HandlerMessages := 0 |}.

(** ** Validation and derived fingerprints *)
Definition ValidateKey (key : Key) : option error :=
  if String.eqb (TrimSpace (k_ConsumerID key)) "" || String.eqb (TrimSpace (k_Source key)) ""
     || MessageID_IsZero (k_MessageID key)
     || negb (String.eqb (TrimSpace (k_AttemptGeneration key)) (k_AttemptGeneration key))
     || (128 <? len (k_AttemptGeneration key))
  then Some (wrapS ErrInvalidKey "consumer and source")
  else None.

Definition generation_domain : string :=
  "gomessenger/inbox/attempt-generation/v1" ++ String Ascii.zero "".

(** The bytes hashed for a non-empty generation. *)
Definition generation_preimage (fingerprint : Fingerprint) (generation : string) : string :=
  generation_domain ++ fingerprint ++ String Ascii.zero "" ++ generation.

Definition AttemptFingerprint (key : Key) (fingerprint : Fingerprint) : Fingerprint :=
  if String.eqb (k_AttemptGeneration key) "" then fingerprint
  else Sha256.Sum256 (generation_preimage fingerprint (k_AttemptGeneration key)).

(** ** SQL namespaces *)
Definition MaxTablePrefixBytes : Z := 38.
Definition MaxSchemaBytes : Z := 63.

Definition ident_head (c : ascii) : bool := Ascii.eqb c "_"%char || is_lower c.
Definition ident_tail (c : ascii) : bool := Ascii.eqb c "_"%char || is_lower c || is_digit c.

Definition validateIdentifier (role value : string) (maximum : Z) (allowEmpty : bool) : option error :=
  match bytes value with
  | [] => if allowEmpty then None else Some (EFmt "inbox: invalid identifier: empty" [])
  | c :: t =>
      if maximum <? len value then Some (EFmt "inbox: invalid identifier: too long" [])
      else if ident_head c && forallb ident_tail t then None
      else Some (EFmt "inbox: invalid identifier" [])
  end.

Record Names := {
  n_Terminal : string;
  n_TerminalHandoffIndex : string;
  n_Inbox : string;
  n_Attempts : string;
  n_AttemptGenerations : string;
  n_CompletedAtIndex : string }.

Definition Resolve (prefix : string) : result error Names :=
  match validateIdentifier "table prefix" prefix MaxTablePrefixBytes true with
  | Some e => Err e
  | None =>
      Ok {| n_Terminal := prefix ++ "inbox_terminal";
            n_TerminalHandoffIndex := prefix ++ "inbox_terminal_gc_idx";
            n_Inbox := prefix ++ "inbox";
            n_Attempts := prefix ++ "inbox_attempts";
            n_AttemptGenerations := prefix ++ "inbox_attempt_generations";
            n_CompletedAtIndex := prefix ++ "inbox_completed_at_idx" |}
  end.

Definition ValidateSchema (schema : string) : option error :=
  validateIdentifier "schema" schema MaxSchemaBytes true.

Definition name_list (n : Names) : list string :=
  [n_Terminal n; n_TerminalHandoffIndex n; n_Inbox n; n_Attempts n;
   n_AttemptGenerations n; n_CompletedAtIndex n].

(** ** Facts *)
Lemma AttemptFingerprint_wf key f : Fingerprint_wf f -> Fingerprint_wf (AttemptFingerprint key f).
Proof.
  unfold AttemptFingerprint, Fingerprint_wf. intros Hf.
  destruct (String.eqb _ _); [done|apply Sha256.length_Sum256].
Qed.

Lemma string_app_length (s t : string) :
  String.length (s ++ t) = (String.length s + String.length t)%nat.
Proof.
  induction s as [|c s IH]; [done|]. change (String c s ++ t) with (String c (s ++ t)).
  cbn [String.length]. rewrite IH. lia.
Qed.

(** The hashed bytes determine the fingerprint and the generation: distinct
    generations are merged only by a SHA-256 collision. *)
Lemma generation_preimage_inj f1 g1 f2 g2 :
  Fingerprint_wf f1 -> Fingerprint_wf f2 ->
  generation_preimage f1 g1 = generation_preimage f2 g2 -> f1 = f2 /\ g1 = g2.
Proof.
  unfold generation_preimage, Fingerprint_wf. intros H1 H2 Heq. apply (f_equal bytes) in Heq.
  rewrite !bytes_app in Heq. apply app_inv_head in Heq.
  assert (bytes f1 = bytes f2 /\ bytes g1 = bytes g2) as [??]; [|split; by apply bytes_inj].
  apply app_inj_1 in Heq as [? Heq]; [|rewrite !length_bytes; lia].
  split; [done|]. by simplify_eq/=.
Qed.

(** The bytes whose SHA-256 is the attempt fingerprint of the envelope [e]. *)
Definition attempt_preimage (key : Key) (e : string) : string :=
  if String.eqb (k_AttemptGeneration key) "" then e
  else generation_preimage (Sha256.Sum256 e) (k_AttemptGeneration key).

Lemma AttemptFingerprint_hash key e :
  AttemptFingerprint key (Sha256.Sum256 e) = Sha256.Sum256 (attempt_preimage key e).
Proof. unfold AttemptFingerprint, attempt_preimage. by destruct (String.eqb _ _). Qed.

(** A canonical envelope is a JSON object, so it opens with a brace. *)
Definition json_object (e : string) : bool :=
  match bytes e with c :: _ => Ascii.eqb c "{"%char | [] => false end.

Lemma generation_preimage_not_object f g : json_object (generation_preimage f g) = false.
Proof. reflexivity. Qed.

(** What is hashed determines the envelope hash and the generation. *)
Lemma attempt_preimage_inj key1 key2 e1 e2 :
  json_object e1 = true -> json_object e2 = true ->
  attempt_preimage key1 e1 = attempt_preimage key2 e2 ->
  Sha256.Sum256 e1 = Sha256.Sum256 e2 /\ k_AttemptGeneration key1 = k_AttemptGeneration key2.
Proof.
  unfold attempt_preimage. intros H1 H2.
  destruct (String.eqb_spec (k_AttemptGeneration key1) ""),
    (String.eqb_spec (k_AttemptGeneration key2) ""); intros Heq.
  - split; congruence.
  - subst e1. by rewrite generation_preimage_not_object in H1.
  - subst e2. by rewrite generation_preimage_not_object in H2.
  - apply generation_preimage_inj in Heq; [done|apply Sha256.length_Sum256..].
Qed.

(** Attempt counters of different replay generations are kept apart: the
    attempt fingerprints of two envelopes agree only when the envelopes have the
    same fingerprint and the generations are equal, unless the two
    domain-separated byte strings that were hashed are themselves distinct and
    collide under SHA-256. *)
Theorem AttemptFingerprint_separates key1 key2 e1 e2 :
  json_object e1 = true -> json_object e2 = true ->
  AttemptFingerprint key1 (Sha256.Sum256 e1) = AttemptFingerprint key2 (Sha256.Sum256 e2) ->
  (Sha256.Sum256 e1 = Sha256.Sum256 e2 /\ k_AttemptGeneration key1 = k_AttemptGeneration key2) \/
  (attempt_preimage key1 e1 <> attempt_preimage key2 e2 /\
   Sha256.Sum256 (attempt_preimage key1 e1) = Sha256.Sum256 (attempt_preimage key2 e2)).
Proof.
  rewrite !AttemptFingerprint_hash. intros H1 H2 Heq.
  destruct (decide (attempt_preimage key1 e1 = attempt_preimage key2 e2)) as [Hp|Hp];
    [left; by apply attempt_preimage_inj | by right].
Qed.

Lemma AttemptFingerprint_separates_witness :
  let k := {| k_ConsumerID := "c"; k_Source := "s"; k_MessageID := "0123456789abcdef";
              k_AttemptGeneration := "r1" |} in
  let e := "{1}" in
  json_object e = true /\
  AttemptFingerprint k (Sha256.Sum256 e) <> Sha256.Sum256 e /\
  ((Sha256.Sum256 e = Sha256.Sum256 e /\ "r1" = "r1") \/
   (attempt_preimage k e <> attempt_preimage k e /\
    Sha256.Sum256 (attempt_preimage k e) = Sha256.Sum256 (attempt_preimage k e))).
Proof.
  intros k e. split; [reflexivity|]. split; [vm_compute; discriminate|].
  exact (AttemptFingerprint_separates k k e e eq_refl eq_refl eq_refl).
Defined.

Lemma validateIdentifier_ok role v m :
  0 <= m -> validateIdentifier role v m true = None ->
  len v <= m /\ (bytes v = [] \/ exists c t, bytes v = (c :: t)%list /\
    ident_head c = true /\ forallb ident_tail t = true).
Proof.
  unfold validateIdentifier. intros Hm H. destruct (bytes v) as [|c t] eqn:Hb.
  - split; [|by left]. unfold len. rewrite <- length_bytes, Hb. done.
  - destruct (Z.ltb_spec m (len v)); [done|]. split; [done|]. right. exists c, t.
    destruct (ident_head c && forallb ident_tail t) eqn:He; [|done]. by bool_simpl.
Qed.

(** An accepted table prefix yields six distinct identifiers over
    [a-z0-9_], none longer than PostgreSQL's 63 bytes, and each starts with a
    letter or underscore, so quoting and truncation cannot merge two tables. *)
Theorem Resolve_identifiers prefix names :
  Resolve prefix = Ok names ->
  NoDup (name_list names) /\
  Forall (fun n => len n <= 63 /\ exists c t, bytes n = (c :: t)%list /\ ident_head c = true /\
                   forallb ident_tail t = true) (name_list names).
Proof.
  unfold Resolve. destruct (validateIdentifier _ _ _ _) eqn:Hv; [done|].
  apply validateIdentifier_ok in Hv as [Hlen Hform]; [|done].
  intros H. injection H as <-.
  assert (name_list _ = List.map (append prefix)
    ["inbox_terminal"; "inbox_terminal_gc_idx"; "inbox"; "inbox_attempts";
     "inbox_attempt_generations"; "inbox_completed_at_idx"]) as -> by reflexivity.
  split.
  - assert (Inj (=) (=) (append prefix)) as Hinj.
    { intros s t Hst. apply (f_equal bytes) in Hst. rewrite !bytes_app in Hst.
      by apply app_inv_head, bytes_inj in Hst. }
    apply (NoDup_fmap_2 (append prefix)).
    apply (bool_decide_unpack _). vm_compute. exact I.
  - apply Forall_map, Forall_forall. intros s Hs. unfold len. rewrite string_app_length. split.
    + assert (String.length s <= 25)%nat; [|unfold len, MaxTablePrefixBytes in Hlen; lia].
      revert s Hs. apply Forall_forall. repeat constructor.
    + rewrite bytes_app. assert (exists c t, bytes s = (c :: t)%list /\ ident_head c = true /\
        forallb ident_tail t = true /\ ident_tail c = true) as (c & t & -> & ? & ? & ?).
      { revert s Hs. apply Forall_forall. repeat constructor; do 2 eexists; by split_and!. }
      destruct Hform as [->|(c' & t' & -> & ? & ?)]; [by eauto|].
      exists c', (t' ++ c :: t)%list. split_and!; [done..|]. rewrite forallb_app. simpl.
      by rewrite !andb_true_iff.
Qed.

Lemma Resolve_identifiers_witness :
  exists names, Resolve "gomessenger_" = Ok names /\ NoDup (name_list names).
Proof.
  eexists. split; [reflexivity|]. apply (Resolve_identifiers "gomessenger_"). reflexivity.
Defined.
