(* ===== verification/InboxSQL.v ===== *)
(** * The Inbox tables and transactions

    The four Inbox tables of the migrations, beside the business tables of the
    host, and the meaning of every SQL statement of
    [adapters/inbox/pgsql/statements.go] and
    [adapters/inbox/sqlite/statements.go] on them; and the transaction monad the
    backends are written in.

    A transaction runs on a private copy of the database.  Every statement and
    every commit takes the next fault of a schedule: it works, it fails, or (for
    a commit) it is applied although an error is reported, which is a lost
    acknowledgement.  Returning without a commit rolls back, as the deferred
    [tx.Rollback] does.  Transactions are serial: the backends lock the identity
    row first, and SQLite serializes writers. *)
From S2P Require Import Prelude GoStrings Errors Ident Inbox.
Import Stdlib.Strings.String.
Open Scope string_scope.
Open Scope Z_scope.

(** ** Tables *)

(** [(consumer_id, source, message_id)] *)
Definition idkey : Set := string * string * string.
Definition key_id (k : Key) : idkey :=
  (k_ConsumerID k, k_Source k, MessageID_String (k_MessageID k)).

Record identityRow := {
  i_fingerprint : Fingerprint;
  i_created_at : Time;
  i_completed_at : option Time }.

Record counterRow := { c_attempts : Z; c_terminal : bool; c_updated_at : Time }.

Record attemptRow := { a_fingerprint : Fingerprint; a_counter : counterRow }.

Record terminalRow := {
  t_attempts : Z;
  t_failure_kind : string;
  t_terminal_at : Time;
  t_handoff_confirmed_at : option Time }.

(** [CHECK (attempts > 0)] and [CHECK (failure_kind IN (...))] *)
Definition terminal_check (r : terminalRow) : bool :=
  (0 <? t_attempts r) &&
  (String.eqb (t_failure_kind r) "permanent" || String.eqb (t_failure_kind r) "attempts_exhausted").

Record DB (B : Type) := {
  inbox : gmap idkey identityRow;
  attempts : gmap idkey attemptRow;
  generations : gmap (idkey * Fingerprint) counterRow;
  terminal : gmap (idkey * Fingerprint) terminalRow;
  business : B }.
Arguments inbox {B}. Arguments attempts {B}. Arguments generations {B}.
Arguments terminal {B}. Arguments business {B}.

(** ** Transactions *)
Inductive fault : Type :=
| FOk
| FErr (e : error)
| FLost (e : error).

(** The fault schedule, the readings of the clock, and how often a business
    handler was invoked; none of these is rolled back. *)
Record env := { e_faults : list fault; e_times : list Time; e_handlerCalls : nat }.

Inductive outcome (B V A : Type) : Type :=
| Cont (d : DB B) (w : env) (a : A)
| Done (committed : option (DB B)) (w : env) (v : V) (err : option error).
Arguments Cont {B V A}. Arguments Done {B V A}.

Definition TX (B V A : Type) : Type := DB B -> env -> outcome B V A.

(** The zero value of a Go result. *)
Class Zero (V : Type) := zero : V.
#[global] Instance Zero_unit : Zero unit := tt.
#[global] Instance Zero_Z : Zero Z := 0.
#[global] Instance Zero_Result : Zero Result := Result0.

Declare Scope tx_scope.
Delimit Scope tx_scope with tx.

Definition tx_ret {B V A} (a : A) : TX B V A := fun d w => Cont d w a.
Definition tx_bind {B V A C} (m : TX B V A) (k : A -> TX B V C) : TX B V C := fun d w =>
  match m d w with
  | Cont d' w' a => k a d' w'
  | Done c w' v e => Done c w' v e
  end.
Notation "'let*' x ':=' m 'in' k" := (tx_bind m (fun x => k))
  (at level 200, x pattern, m at level 100, k at level 200, right associativity) : tx_scope.

Definition pop_fault (w : env) : fault * env :=
  match e_faults w with
  | [] => (FOk, w)
  | f :: r => (f, {| e_faults := r; e_times := e_times w; e_handlerCalls := e_handlerCalls w |})
  end.

(** Read the clock. *)
Definition tick (w : env) : Time * env :=
  match e_times w with
  | [] => (0, w)
  | t :: r => (t, {| e_faults := e_faults w; e_times := r; e_handlerCalls := e_handlerCalls w |})
  end.
Definition called (w : env) : env :=
  {| e_faults := e_faults w; e_times := e_times w; e_handlerCalls := S (e_handlerCalls w) |}.

(** [b.clock().UTC()] *)
Definition clock {B V} : TX B V Time := fun d w => let '(t, w') := tick w in Cont d w' t.

(** Return from the operation without a commit. *)
Definition tx_return {B V A} (v : V) (err : option error) : TX B V A := fun d w => Done None w v err.
Definition tx_fail {B V A} `{Zero V} (e : error) : TX B V A := tx_return zero (Some e).

(** One statement; a failure is wrapped and returned. *)
Definition stmt {B V A} `{Zero V} (label : string) (f : DB B -> result error (DB B * A)) : TX B V A :=
  fun d w =>
    let '(flt, w') := pop_fault w in
    match flt with
    | FOk =>
        match f d with
        | Ok (d', a) => Cont d' w' a
        | Err e => Done None w' zero (Some (EFmt label [e]))
        end
    | FErr e | FLost e => Done None w' zero (Some (EFmt label [e]))
    end.

Definition begin_tx {B V} `{Zero V} (label : string) : TX B V unit :=
  stmt label (fun d => Ok (d, tt)).
Definition exec {B V A} `{Zero V} (label : string) (f : DB B -> DB B * A) : TX B V A :=
  stmt label (fun d => Ok (f d)).
Definition query {B V A} `{Zero V} (label : string) (f : DB B -> A) : TX B V A :=
  stmt label (fun d => Ok (d, f d)).

(** [tx.Commit()] and the return of [(v, err)] after it. *)
Definition commit_return {B V A} `{Zero V} (label : string) (v : V) (err : option error) : TX B V A :=
  fun d w =>
    let '(flt, w') := pop_fault w in
    match flt with
    | FOk => Done (Some d) w' v err
    | FErr e => Done None w' zero (Some (EFmt label [e]))
    | FLost e => Done (Some d) w' zero (Some (EFmt label [e]))
    end.

(** A business handler works on the business tables of the transaction. *)
Definition Handler (B : Type) : Type := B -> B * option error.

Definition set_business {B} (b : B) (d : DB B) : DB B :=
  {| inbox := inbox d; attempts := attempts d; generations := generations d;
     terminal := terminal d; business := b |}.

Definition call_handler {B V} (h : Handler B) : TX B V (option error) := fun d w =>
  let '(b, err) := h (business d) in Cont (set_business b d) (called w) err.

(** [SAVEPOINT] and [ROLLBACK TO SAVEPOINT] *)
Definition savepoint {B V} `{Zero V} (label : string) : TX B V (DB B) := query label (fun d => d).
Definition rollback_to {B V} `{Zero V} (label : string) (saved : DB B) : TX B V unit :=
  exec label (fun _ => (saved, tt)).

(** What the caller and the database see. *)
Record opResult (B V : Type) := { op_db : DB B; op_value : V; op_err : option error; op_env : env }.
Arguments op_db {B V}. Arguments op_value {B V}. Arguments op_err {B V}. Arguments op_env {B V}.

Definition run {B V} (m : TX B V Empty_set) (d : DB B) (w : env) : opResult B V :=
  match m d w with
  | Cont _ _ a => match a with end
  | Done c w' v e => {| op_db := default d c; op_value := v; op_err := e; op_env := w' |}
  end.

(** ** Statements *)
Section Statements.
Context {B : Type}.
Implicit Types (d : DB B) (k : idkey) (fp : Fingerprint) (t : Time).

Definition set_inbox (m : gmap idkey identityRow) d : DB B :=
  {| inbox := m; attempts := attempts d; generations := generations d;
     terminal := terminal d; business := business d |}.
Definition set_attempts (m : gmap idkey attemptRow) d : DB B :=
  {| inbox := inbox d; attempts := m; generations := generations d;
     terminal := terminal d; business := business d |}.
Definition set_generations (m : gmap (idkey * Fingerprint) counterRow) d : DB B :=
  {| inbox := inbox d; attempts := attempts d; generations := m;
     terminal := terminal d; business := business d |}.
Definition set_terminal (m : gmap (idkey * Fingerprint) terminalRow) d : DB B :=
  {| inbox := inbox d; attempts := attempts d; generations := generations d;
     terminal := m; business := business d |}.

(** Rows affected by the insert. *)
Definition sql_insertIdentity k fp t d : DB B * Z :=
  match inbox d !! k with
  | Some _ => (d, 0)
  | None =>
      (set_inbox (<[k := {| i_fingerprint := fp; i_created_at := t; i_completed_at := None |}]>
                    (inbox d)) d, 1)
  end.

(** [None] is [sql.ErrNoRows]. *)
Definition sql_readIdentity k d : option (Fingerprint * option Time) :=
  option_map (fun r => (i_fingerprint r, i_completed_at r)) (inbox d !! k).

Definition complete_row t (r : identityRow) : identityRow :=
  {| i_fingerprint := i_fingerprint r; i_created_at := i_created_at r; i_completed_at := Some t |}.
Definition sql_markComplete t k d : DB B * unit :=
  (set_inbox (alter (complete_row t) k (inbox d)) d, tt).

Definition terminal_counter t (c : counterRow) : counterRow :=
  {| c_attempts := c_attempts c; c_terminal := true; c_updated_at := t |}.
Definition sql_markTerminal t k d : DB B * unit :=
  (set_attempts (alter (fun r => {| a_fingerprint := a_fingerprint r;
                                    a_counter := terminal_counter t (a_counter r) |}) k (attempts d)) d, tt).
Definition sql_markTerminalGeneration t k fp d : DB B * unit :=
  (set_generations (alter (terminal_counter t) (k, fp) (generations d)) d, tt).

Definition fresh_counter (n : Z) t : counterRow :=
  {| c_attempts := n; c_terminal := false; c_updated_at := t |}.
Definition duplicate_key : error := ENew "duplicate key value violates unique constraint".

(** Plain inserts fail on the primary key. *)
Definition sql_insertAttempt k fp t d : result error (DB B * unit) :=
  match attempts d !! k with
  | Some _ => Err duplicate_key
  | None => Ok (set_attempts (<[k := {| a_fingerprint := fp; a_counter := fresh_counter 1 t |}]>
                                (attempts d)) d, tt)
  end.
Definition sql_insertAttemptGeneration k fp t d : result error (DB B * unit) :=
  match generations d !! (k, fp) with
  | Some _ => Err duplicate_key
  | None => Ok (set_generations (<[(k, fp) := fresh_counter 1 t]> (generations d)) d, tt)
  end.

Definition bump t (c : counterRow) : counterRow :=
  {| c_attempts := c_attempts c + 1; c_terminal := c_terminal c; c_updated_at := t |}.
Definition sql_incrementAttempt t k d : DB B * unit :=
  (set_attempts (alter (fun r => {| a_fingerprint := a_fingerprint r;
                                    a_counter := bump t (a_counter r) |}) k (attempts d)) d, tt).
Definition sql_incrementAttemptGeneration t k fp d : DB B * unit :=
  (set_generations (alter (bump t) (k, fp) (generations d)) d, tt).

(** [COALESCE(closed.failure_kind, '')] of the left join. *)
Definition closed_kind k fp d : string :=
  match terminal d !! (k, fp) with Some r => t_failure_kind r | None => "" end.
Definition sql_readAttempt k d : option (Z * bool * string) :=
  option_map (fun r => (c_attempts (a_counter r), c_terminal (a_counter r),
                        closed_kind k (a_fingerprint r) d)) (attempts d !! k).
Definition sql_readAttemptGeneration k fp d : option (Z * bool * string) :=
  option_map (fun c => (c_attempts c, c_terminal c, closed_kind k fp d)) (generations d !! (k, fp)).

Definition sql_deleteAttempt k d : DB B * unit :=
  (set_attempts (delete k (attempts d)) d, tt).
Definition sql_deleteAttemptGeneration k fp d : DB B * unit :=
  (set_generations (delete (k, fp) (generations d)) d, tt).

(** The counters of the generations of one identity. *)
Definition generations_of k d : list ((idkey * Fingerprint) * counterRow) :=
  filter (fun p => p.1.1 = k) (map_to_list (generations d)).

Definition sql_hasAttempts k d : bool :=
  bool_decide (is_Some (attempts d !! k)) || negb (bool_decide (generations_of k d = [])).

(** [(COALESCE(MAX(terminal), 0), COUNT( * ))] over both tables. *)
Definition sql_inspectAttempts k d : Z * Z :=
  let flags := (match attempts d !! k with Some r => [c_terminal (a_counter r)] | None => [] end
                ++ List.map (fun p => c_terminal p.2) (generations_of k d))%list in
  (if existsb id flags then 1 else 0, Z.of_nat (List.length flags)).

Definition sql_deleteIncompleteIdentity k d : DB B * unit :=
  match inbox d !! k with
  | Some r => match i_completed_at r with
              | None => (set_inbox (delete k (inbox d)) d, tt)
              | Some _ => (d, tt)
              end
  | None => (d, tt)
  end.
End Statements.

(** ** Ordered, bounded selections

    [collate] is the text order of the database's collation. *)
Section Ordered.
Context {B : Type} (collate : string -> string -> bool).
Implicit Types (d : DB B).

Definition text_then (a b : string) (rest : bool) : bool :=
  if collate a b then (if collate b a then rest else true) else false.

Definition key_leb (k1 k2 : idkey) : bool :=
  let '(c1, s1, m1) := k1 in let '(c2, s2, m2) := k2 in
  text_then c1 c2 (text_then s1 s2 (collate m1 m2)).

Definition time_then (a b : Time) (rest : bool) : bool :=
  if a <? b then true else if b <? a then false else rest.

(** [WHERE completed_at < before ORDER BY completed_at, consumer_id, source,
    message_id LIMIT limit] *)
Definition completed_before (before : Time) (r : identityRow) : bool :=
  match i_completed_at r with Some t => t <? before | None => false end.
Definition completed_time (r : identityRow) : Time := default 0 (i_completed_at r).

Definition doomed_le (p q : idkey * identityRow) : Prop :=
  time_then (completed_time p.2) (completed_time q.2) (key_leb p.1 q.1) = true.
#[global] Instance doomed_le_dec p q : Decision (doomed_le p q).
Proof. unfold doomed_le. apply _. Defined.

Definition doomed (before : Time) (limit : Z) d : list idkey :=
  take (Z.to_nat limit)
    (List.map fst (merge_sort doomed_le
      (filter (fun p => completed_before before p.2 = true) (map_to_list (inbox d))))).

Definition sql_pruneAttemptGenerations (before : Time) (limit : Z) d : DB B * unit :=
  (set_generations (filter (fun p => p.1.1 ∉ doomed before limit d) (generations d)) d, tt).
Definition sql_pruneAttempts (before : Time) (limit : Z) d : DB B * unit :=
  (set_attempts (filter (fun p => p.1 ∉ doomed before limit d) (attempts d)) d, tt).
Definition sql_pruneTerminal (before : Time) (limit : Z) d : DB B * unit :=
  (set_terminal (filter (fun p => p.1.1 ∉ doomed before limit d) (terminal d)) d, tt).
(** Rows affected. *)
Definition sql_pruneInbox (before : Time) (limit : Z) d : DB B * Z :=
  (set_inbox (filter (fun p => p.1 ∉ doomed before limit d) (inbox d)) d,
   Z.of_nat (List.length (doomed before limit d))).
(** Locking changes nothing. *)
Definition sql_lockPruneBatch (before : Time) (limit : Z) d : list idkey := doomed before limit d.

(** [SELECT ... FROM terminal JOIN inbox ... WHERE handoff_confirmed_at < before
    AND completed_at IS NULL ORDER BY handoff_confirmed_at, ... LIMIT limit],
    reordered by key. *)
Definition handoff_before (before : Time) (r : terminalRow) : bool :=
  match t_handoff_confirmed_at r with Some t => t <? before | None => false end.
Definition incomplete (k : idkey) d : bool :=
  match inbox d !! k with
  | Some r => match i_completed_at r with None => true | Some _ => false end
  | None => false
  end.

Definition gen_leb (p q : idkey * Fingerprint) : bool :=
  let '(c1, s1, m1) := p.1 in let '(c2, s2, m2) := q.1 in
  text_then c1 c2 (text_then s1 s2 (text_then m1 m2 (String.leb p.2 q.2))).
Definition gen_le (p q : idkey * Fingerprint) : Prop := gen_leb p q = true.
Definition handoff_le (p q : (idkey * Fingerprint) * terminalRow) : Prop :=
  time_then (default 0 (t_handoff_confirmed_at p.2)) (default 0 (t_handoff_confirmed_at q.2))
    (gen_leb p.1 q.1) = true.
#[global] Instance gen_le_dec p q : Decision (gen_le p q).
Proof. unfold gen_le. apply _. Defined.
#[global] Instance handoff_le_dec p q : Decision (handoff_le p q).
Proof. unfold handoff_le. apply _. Defined.

Definition sql_candidates (before : Time) (limit : Z) d : list (idkey * Fingerprint) :=
  merge_sort gen_le
    (take (Z.to_nat limit)
      (List.map fst (merge_sort handoff_le
        (filter (fun p => handoff_before before p.2 && incomplete p.1.1 d = true)
           (map_to_list (terminal d)))))).
End Ordered.

(** ** Undisturbed runs *)

(** The same environment with no fault left. *)
Definition quiet (w : env) : env :=
  {| e_faults := []; e_times := e_times w; e_handlerCalls := e_handlerCalls w |}.

Section Quiet.
Context {B V : Type} `{Zero V}.
Implicit Types (d : DB B) (w : env).

Lemma tick_quiet w : tick (quiet w) = ((tick w).1, quiet (tick w).2).
Proof. unfold tick. simpl. by destruct (e_times w). Qed.
Lemma called_quiet w : called (quiet w) = quiet (called w).
Proof. done. Qed.

Lemma tx_bind_eq {A C} (m : TX B V A) (k : A -> TX B V C) d w :
  tx_bind m k d w = match m d w with
                    | Cont d' w' a => k a d' w'
                    | Done c w' v e => Done c w' v e
                    end.
Proof. done. Qed.

Lemma stmt_quiet {A} label (f : DB B -> result error (DB B * A)) d w :
  stmt (V := V) label f d (quiet w) =
  match f d with
  | Ok (d', a) => Cont d' (quiet w) a
  | Err e => Done None (quiet w) zero (Some (EFmt label [e]))
  end.
Proof. done. Qed.

Lemma exec_quiet {A} label (f : DB B -> DB B * A) d w :
  exec (V := V) label f d (quiet w) = Cont (f d).1 (quiet w) (f d).2.
Proof. unfold exec. rewrite stmt_quiet. by destruct (f d). Qed.

Lemma query_quiet {A} label (f : DB B -> A) d w :
  query (V := V) label f d (quiet w) = Cont d (quiet w) (f d).
Proof. done. Qed.

Lemma begin_quiet label d w : begin_tx (V := V) label d (quiet w) = Cont d (quiet w) tt.
Proof. done. Qed.

Lemma savepoint_quiet label d w : savepoint (V := V) label d (quiet w) = Cont d (quiet w) d.
Proof. done. Qed.

Lemma rollback_quiet label saved d w :
  rollback_to (V := V) label saved d (quiet w) = Cont saved (quiet w) tt.
Proof. done. Qed.

Lemma clock_quiet d w :
  clock (B := B) (V := V) d (quiet w) = Cont d (quiet (tick w).2) (tick w).1.
Proof. unfold clock. by rewrite tick_quiet. Qed.

Lemma handler_quiet h d w :
  call_handler (V := V) h d (quiet w) =
  Cont (set_business (h (business d)).1 d) (quiet (called w)) (h (business d)).2.
Proof. unfold call_handler. by destruct (h (business d)). Qed.

Lemma commit_quiet {A} label v err d w :
  commit_return (A := A) label v err d (quiet w) = Done (Some d) (quiet w) v err.
Proof. done. Qed.
End Quiet.

(** Run one step of an undisturbed transaction. *)
Ltac tx_step :=
  rewrite ?tx_bind_eq;
  first [ rewrite begin_quiet | rewrite savepoint_quiet | rewrite rollback_quiet
        | rewrite clock_quiet | rewrite exec_quiet | rewrite query_quiet
        | rewrite handler_quiet | rewrite commit_quiet | rewrite stmt_quiet ];
  cbv beta iota.

(** ** Atomicity

    [atomic m]: a disturbed run of [m] does what the undisturbed run does, or it
    stops with an error, and then nothing is committed or what the undisturbed
    run commits; and it calls no handler more often than the undisturbed run. *)
Definition atomic {B V A} `{Zero V} (m : TX B V A) : Prop := forall d w,
  match m d (quiet w) with
  | Cont d' w0 a =>
      (e_handlerCalls w <= e_handlerCalls w0)%nat /\ quiet w0 = w0 /\
      ((exists w', m d w = Cont d' w' a /\ quiet w' = w0) \/
       (exists w' e, m d w = Done None w' zero (Some e) /\
          (e_handlerCalls w <= e_handlerCalls w' <= e_handlerCalls w0)%nat))
  | Done c w0 v err =>
      (e_handlerCalls w <= e_handlerCalls w0)%nat /\
      ((exists w', m d w = Done c w' v err /\ quiet w' = w0) \/
       (exists c' w' e, m d w = Done c' w' zero (Some e) /\ (c' = None \/ c' = c) /\
          (e_handlerCalls w <= e_handlerCalls w' <= e_handlerCalls w0)%nat))
  end.

Section Atomic.
Context {B V : Type} `{Zero V}.

Lemma atomic_ret {A} (a : A) : atomic (B := B) (tx_ret a).
Proof. intros d w. split_and!; [done..|]. left. by exists w. Qed.

Lemma atomic_return {A} (v : V) err : atomic (B := B) (A := A) (tx_return v err).
Proof. intros d w. split; [done|]. left. by exists w. Qed.

Lemma atomic_fail {A} e : atomic (B := B) (A := A) (tx_fail e).
Proof. apply atomic_return. Qed.

Lemma atomic_bind {A C} (m : TX B V A) (k : A -> TX B V C) :
  atomic m -> (forall a, atomic (k a)) -> atomic (tx_bind m k).
Proof.
  intros Hm Hk d w. specialize (Hm d w). rewrite !tx_bind_eq.
  destruct (m d (quiet w)) as [d1 w0 a|c w0 v err].
  - destruct Hm as (Hle & Hq & [(w1 & -> & <-)|(w1 & e & -> & Hc)]).
    + specialize (Hk a d1 w1). simpl in Hle.
      destruct (k a d1 (quiet w1)) as [d2 w2 b|c w2 v err].
      * destruct Hk as (Hle2 & Hq2 & Hk). split_and!; [lia|done|]. destruct Hk as [?|(w' & e & ? & ?)]; [by left|right].
        exists w', e. split; [done|lia].
      * destruct Hk as [Hle2 Hk]. split; [lia|]. destruct Hk as [?|(c' & w' & e & ? & ? & ?)]; [by left|right].
        exists c', w', e. split_and!; [done..|lia|lia].
    + specialize (Hk a d1 w0). rewrite Hq in Hk.
      destruct (k a d1 w0) as [d2 w2 b|c w2 v err]; destruct_and! Hk.
      * split_and!; [lia|done|]. right. exists w1, e. split; [done|lia].
      * split; [lia|]. right. exists None, w1, e. split_and!; [done|by left|lia..].
  - destruct Hm as [Hle Hm]. split; [done|].
    destruct Hm as [(w1 & -> & ?)|(c' & w1 & e & -> & ? & ?)]; [left; eauto|right].
    exists c', w1, e. split_and!; [done..|lia|lia].
Qed.

Lemma atomic_if {A} (b : bool) (m n : TX B V A) :
  atomic m -> atomic n -> atomic (if b then m else n).
Proof. by destruct b. Qed.

Lemma atomic_stmt {A} label (f : DB B -> result error (DB B * A)) : atomic (stmt label f).
Proof.
  intros d w. rewrite stmt_quiet. unfold stmt, pop_fault.
  destruct (f d) as [[d' a]|e].
  - split_and!; [done..|]. destruct (e_faults w) as [|[|e|e] r]; simpl; [left; by eexists..|right|right];
      do 2 eexists; by split.
  - split; [done|]. destruct (e_faults w) as [|[|e'|e'] r]; simpl; [left; by eexists..|right|right];
      do 3 eexists; split_and!; try done; by left.
Qed.

Lemma atomic_exec {A} label (f : DB B -> DB B * A) : atomic (exec label f).
Proof. apply atomic_stmt. Qed.
Lemma atomic_query {A} label (f : DB B -> A) : atomic (query label f).
Proof. apply atomic_stmt. Qed.
Lemma atomic_begin label : atomic (begin_tx (B := B) label).
Proof. apply atomic_stmt. Qed.
Lemma atomic_savepoint label : atomic (savepoint (B := B) label).
Proof. apply atomic_stmt. Qed.
Lemma atomic_rollback label saved : atomic (rollback_to (B := B) label saved).
Proof. apply atomic_stmt. Qed.

Lemma atomic_clock : atomic (clock (B := B) (V := V)).
Proof.
  intros d w. rewrite clock_quiet. unfold clock, tick.
  destruct (e_times w); simpl; (split_and!; [done..|left; by eexists]).
Qed.

Lemma atomic_handler h : atomic (call_handler (B := B) (V := V) h).
Proof.
  intros d w. rewrite handler_quiet. unfold call_handler.
  destruct (h (business d)) as [b err]. simpl. split_and!; [lia|done|]. left. by eexists.
Qed.

Lemma atomic_commit {A} label v err : atomic (B := B) (A := A) (commit_return label v err).
Proof.
  intros d w. rewrite commit_quiet. split; [done|]. unfold commit_return, pop_fault.
  destruct (e_faults w) as [|[|e|e] r]; simpl; [left; by eexists..|right|right];
    do 3 eexists; split_and!; try done; auto.
Qed.

(** What the caller sees of a disturbed run. *)
Lemma run_atomic (m : TX B V Empty_set) d w :
  atomic m ->
  let r := run m d w in let r0 := run m d (quiet w) in
  (e_handlerCalls w <= e_handlerCalls (op_env r) <= e_handlerCalls (op_env r0))%nat /\
  ((op_db r = op_db r0 /\ op_value r = op_value r0 /\ op_err r = op_err r0) \/
   (op_value r = zero /\ is_Some (op_err r) /\ (op_db r = d \/ op_db r = op_db r0))).
Proof.
  intros Hm. specialize (Hm d w). unfold run.
  destruct (m d (quiet w)) as [? ? []|c w0 v err]. destruct Hm as [Hle Hm].
  destruct Hm as [(w1 & -> & <-)|(c' & w1 & e & -> & Hc & Hle1)]; simpl; [by auto|].
  split; [done|]. right. split_and!; [done|by eauto|]. destruct Hc as [->| ->]; auto.
Qed.
End Atomic.
#[export] Hint Resolve atomic_ret atomic_return atomic_fail atomic_bind atomic_if atomic_stmt
  atomic_exec atomic_query atomic_begin atomic_savepoint atomic_rollback atomic_clock
  atomic_handler atomic_commit : go.

(** Prove atomicity of a transaction from its parts. *)
Ltac atomic_tac :=
  repeat first
    [ progress intros
    | solve [eauto 2 with go]
    | apply atomic_bind
    | match goal with
      | |- atomic (match ?x with _ => _ end) => destruct x
      | |- atomic (let '(_, _) := ?x in _) => destruct x
      end ].
