(* ===== verification/TerminalState.v ===== *)
(** * Terminal generations and their retention

    Models [adapters/inbox/internal/terminalstate]: [Record], [Forget],
    [PruneCompleted] of [state.go], [PreserveDeferred] of [deferred.go], and
    [Confirm], [Prune] of [retention.go], each as the statements it sends inside
    the caller's transaction. *)
From S2P Require Import Prelude GoStrings Errors Ident Inbox InboxSQL.
Import Stdlib.Strings.String.
Open Scope string_scope.
Open Scope Z_scope.
Open Scope tx_scope.

Definition chunkSize : nat := 100.

(** Run a list of statements in order. *)
Fixpoint tx_each {B V A} (f : A -> TX B V unit) (l : list A) : TX B V unit :=
  match l with
  | [] => tx_ret tt
  | a :: r => let* _ := f a in tx_each f r
  end.

Section TerminalState.
Context {B V : Type} `{Zero V}.
Implicit Types (d : DB B).

Definition outcome_key (item : BatchItemOutcome) : idkey * Fingerprint :=
  (key_id (o_Key item), AttemptFingerprint (o_Key item) (o_Fingerprint item)).

(** ** [Record] *)
Definition is_terminal (item : BatchItemOutcome) : bool :=
  bool_decide (o_Outcome item = BatchDLQ) &&
  (String.eqb (o_FailureKind item) FailurePermanentKind
   || String.eqb (o_FailureKind item) FailureAttemptsExhausted).

(** The loop over the outcomes with its [seen] map. *)
Fixpoint terminal_items (seen : gset (idkey * Fingerprint)) (outcomes : list BatchItemOutcome)
  : list BatchItemOutcome :=
  match outcomes with
  | [] => []
  | item :: r =>
      if is_terminal item then
        if decide (outcome_key item ∈ seen) then terminal_items seen r
        else item :: terminal_items ({[outcome_key item]} ∪ seen) r
      else terminal_items seen r
  end.

(** [INSERT ... ON CONFLICT DO UPDATE SET handoff_confirmed_at = NULL] *)
Definition reset_handoff (r : terminalRow) : terminalRow :=
  {| t_attempts := t_attempts r; t_failure_kind := t_failure_kind r;
     t_terminal_at := t_terminal_at r; t_handoff_confirmed_at := None |}.
Definition new_terminal (item : BatchItemOutcome) (now : Time) : terminalRow :=
  {| t_attempts := o_Attempt item; t_failure_kind := o_FailureKind item;
     t_terminal_at := now; t_handoff_confirmed_at := None |}.
Definition check_violation : error := ENew "new row violates check constraint".

Fixpoint sql_record (items : list BatchItemOutcome) (now : Time) d : result error (DB B * unit) :=
  match items with
  | [] => Ok (d, tt)
  | item :: r =>
      if terminal_check (new_terminal item now) then
        let row := match terminal d !! outcome_key item with
                   | Some old => reset_handoff old
                   | None => new_terminal item now
                   end in
        sql_record r now (set_terminal (<[outcome_key item := row]> (terminal d)) d)
      else Err check_violation
  end.

Definition Record_ (outcomes : list BatchItemOutcome) (now : Time) : TX B V unit :=
  tx_each (fun chunk => stmt "inbox: persist terminal generations" (sql_record chunk now))
    (chunks_of chunkSize (terminal_items ∅ outcomes)).

(** ** [Forget] *)
Definition sql_forgetTerminal (k : idkey) (fp : Fingerprint) d : DB B * unit :=
  (set_terminal (delete (k, fp) (terminal d)) d, tt).
Definition Forget (key : Key) (fingerprint : Fingerprint) : TX B V unit :=
  exec "inbox: reset terminal generation"
    (sql_forgetTerminal (key_id key) (AttemptFingerprint key fingerprint)).

(** ** [PreserveDeferred] *)
Definition deferred_items (replay : bool) (outcomes : list BatchItemOutcome) : list BatchItemOutcome :=
  filter (fun item => bool_decide (o_Outcome item = BatchDefer) && (o_Attempt item =? 0)
                      && Bool.eqb (negb (String.eqb (k_AttemptGeneration (o_Key item)) "")) replay = true)
    outcomes.

(** [INSERT INTO table ... VALUES (..., 0) ON CONFLICT DO NOTHING], row by row *)
Definition sql_preserve_item (replay : bool) (now : Time) (item : BatchItemOutcome) d : DB B :=
  let '(k, fp) := outcome_key item in
  if replay then
    match generations d !! (k, fp) with
    | Some _ => d
    | None => set_generations (<[(k, fp) := fresh_counter 0 now]> (generations d)) d
    end
  else
    match attempts d !! k with
    | Some _ => d
    | None => set_attempts (<[k := {| a_fingerprint := fp; a_counter := fresh_counter 0 now |}]>
                              (attempts d)) d
    end.
Definition sql_preserve (replay : bool) (items : list BatchItemOutcome) (now : Time) d : DB B * unit :=
  (fold_left (fun d item => sql_preserve_item replay now item d) items d, tt).

Definition preserveDeferredChunk (replay : bool) (items : list BatchItemOutcome) (now : Time)
  : TX B V unit :=
  exec "inbox: preserve deferred generations" (sql_preserve replay items now).

Definition PreserveDeferred (outcomes : list BatchItemOutcome) (now : Time) : TX B V unit :=
  tx_each (fun replay =>
    tx_each (fun chunk => preserveDeferredChunk replay chunk now)
      (chunks_of chunkSize (deferred_items replay outcomes)))
    [false; true].

(** ** [Confirm] *)
Definition confirm_row (now : Time) (r : terminalRow) : terminalRow :=
  {| t_attempts := t_attempts r; t_failure_kind := t_failure_kind r;
     t_terminal_at := t_terminal_at r;
     t_handoff_confirmed_at :=
       match t_handoff_confirmed_at r with
       | Some t => if now <? t then Some t else Some now
       | None => Some now
       end |}.
(** Rows affected. *)
Definition sql_confirm (now : Time) (k : idkey) (fp : Fingerprint) d : DB B * Z :=
  (set_terminal (alter (confirm_row now) (k, fp) (terminal d)) d,
   if decide (is_Some (terminal d !! (k, fp))) then 1 else 0).

Definition Confirm (key : Key) (fingerprint : Fingerprint) (now : Time) : TX B V unit :=
  let* row := query "inbox: lock terminal handoff" (sql_readIdentity (key_id key)) in
  match row with
  | None => tx_fail (ESentinel ErrTerminalStateMissing)
  | Some (stored, _) =>
      if negb (String.eqb stored fingerprint) then tx_fail (ESentinel ErrFingerprintConflict)
      else
        let* rows := exec "inbox: confirm terminal handoff"
          (sql_confirm now (key_id key) (AttemptFingerprint key fingerprint)) in
        if rows =? 0 then tx_fail (ESentinel ErrTerminalStateMissing) else tx_ret tt
  end.

(** ** [Prune] *)

(** [DELETE FROM terminal WHERE ... AND handoff_confirmed_at < before] *)
Definition sql_pruneTerminalRow (k : idkey) (fp : Fingerprint) (before : Time) d : DB B * Z :=
  match terminal d !! (k, fp) with
  | Some r => if handoff_before before r
              then (set_terminal (delete (k, fp) (terminal d)) d, 1) else (d, 0)
  | None => (d, 0)
  end.
(** [DELETE FROM attempts WHERE ... AND fingerprint = fp] *)
Definition sql_deleteAttemptOf (k : idkey) (fp : Fingerprint) d : DB B * unit :=
  match attempts d !! k with
  | Some r => if String.eqb (a_fingerprint r) fp
              then (set_attempts (delete k (attempts d)) d, tt) else (d, tt)
  | None => (d, tt)
  end.
Definition has_terminal (k : idkey) d : bool :=
  negb (bool_decide (filter (fun p => p.1.1 = k) (map_to_list (terminal d)) = [])).
(** [DELETE FROM inbox ... AND completed_at IS NULL AND NOT EXISTS ...] *)
Definition sql_deleteEmptyIdentity (k : idkey) d : DB B * unit :=
  if sql_hasAttempts k d || has_terminal k d then (d, tt)
  else sql_deleteIncompleteIdentity k d.

Definition pruneCandidate (before : Time) (item : idkey * Fingerprint) : TX B V Z :=
  let '(k, fp) := item in
  let* row := query "inbox: lock terminal retention identity" (sql_readIdentity k) in
  match row with
  | None => tx_ret 0
  | Some (_, Some _) => tx_ret 0
  | Some (_, None) =>
      let* removed := exec "inbox: prune terminal generation" (sql_pruneTerminalRow k fp before) in
      if removed =? 0 then tx_ret 0
      else
        let* _ := exec "inbox: prune terminal counter" (sql_deleteAttemptOf k fp) in
        let* _ := exec "inbox: prune terminal counter" (sql_deleteAttemptGeneration k fp) in
        let* _ := exec "inbox: prune empty terminal identity" (sql_deleteEmptyIdentity k) in
        tx_ret removed
  end.

Fixpoint prune_all (before : Time) (items : list (idkey * Fingerprint)) (removed : Z) : TX B V Z :=
  match items with
  | [] => tx_ret removed
  | item :: r =>
      let* count := pruneCandidate before item in
      prune_all before r (removed + count)
  end.

Definition Prune (collate : string -> string -> bool) (before : Time) (limit : Z) : TX B V Z :=
  let* candidates := query "inbox: select terminal retention batch"
    (sql_candidates collate before limit) in
  prune_all before candidates 0.

(** ** [PruneCompleted] *)
Definition PruneCompleted (collate : string -> string -> bool) (before : Time) (limit : Z)
  : TX B V unit :=
  exec "inbox: prune completed terminal markers" (sql_pruneTerminal collate before limit).
End TerminalState.
