(* ===== verification/SqliteBackend.v ===== *)
(** * The SQLite Inbox backend

    Models [adapters/inbox/sqlite/sqlite.go] and [adapters/inbox/sqlite/terminal.go]
    (single deliveries, pruning, retention), function by function, in the
    transaction monad. *)
From S2P Require Import Prelude GoStrings Errors Ident Inbox InboxSQL TerminalState.
Import Stdlib.Strings.String.
Open Scope string_scope.
Open Scope Z_scope.
Open Scope tx_scope.

Module Sqlite.
Section Backend.
Context {B : Type} (collate : string -> string -> bool).

Record attemptDecision := {
  ad_attempt : Z; ad_terminal : bool; ad_exhausted : bool; ad_exists : bool }.
Record attemptState := { as_kind : string; as_attempt : Z; as_terminal : bool }.
Definition attemptState0 : attemptState := {| as_kind := ""; as_attempt := 0; as_terminal := false |}.

Definition fingerprintsEqual (stored fingerprint : Fingerprint) : bool :=
  (len stored =? 32) && String.eqb stored fingerprint.

(** Some commands are the caller's: [V] is the type it returns. *)
Section Steps.
Context {V : Type} `{Zero V}.

(** [None] is [sql.ErrNoRows]. *)
Definition readAttempt (key : Key) (fingerprint : Fingerprint) : TX B V (option attemptState) :=
  let* row :=
    query "inbox/sqlite: read handler attempt"
      (if String.eqb (k_AttemptGeneration key) ""
       then sql_readAttempt (key_id key)
       else sql_readAttemptGeneration (key_id key) fingerprint) in
  match row with
  | None => tx_ret None
  | Some (attempt, terminal, kind) =>
      if attempt <? 0 then tx_fail (ENew "inbox/sqlite: invalid stored handler attempt")
      else tx_ret (Some {| as_kind := kind; as_attempt := attempt; as_terminal := terminal |})
  end.

Definition nextAttempt (key : Key) (fingerprint : Fingerprint) (maxAttempts : Z)
  : TX B V attemptDecision :=
  let* state := readAttempt key (AttemptFingerprint key fingerprint) in
  match state with
  | None => tx_ret {| ad_attempt := 1; ad_terminal := false; ad_exhausted := false; ad_exists := false |}
  | Some state =>
      if as_terminal state || String.eqb (as_kind state) FailurePermanentKind
      then tx_ret {| ad_attempt := as_attempt state; ad_terminal := true;
                     ad_exhausted := false; ad_exists := true |}
      else if (maxAttempts <=? as_attempt state)
              || String.eqb (as_kind state) FailureAttemptsExhausted
      then tx_ret {| ad_attempt := as_attempt state; ad_terminal := false;
                     ad_exhausted := true; ad_exists := true |}
      else tx_ret {| ad_attempt := as_attempt state + 1; ad_terminal := false;
                     ad_exhausted := false; ad_exists := true |}
  end.

Definition insertAttempt (key : Key) (fingerprint : Fingerprint) : TX B V unit :=
  let* now := clock in
  if String.eqb (k_AttemptGeneration key) ""
  then stmt "inbox/sqlite: insert handler attempt"
         (sql_insertAttempt (key_id key) fingerprint now)
  else stmt "inbox/sqlite: insert handler attempt"
         (sql_insertAttemptGeneration (key_id key) fingerprint now).

Definition incrementAttempt (key : Key) (fingerprint : Fingerprint) : TX B V unit :=
  let* now := clock in
  if String.eqb (k_AttemptGeneration key) ""
  then exec "inbox/sqlite: increment handler attempt"
         (sql_incrementAttempt now (key_id key))
  else exec "inbox/sqlite: increment handler attempt"
         (sql_incrementAttemptGeneration now (key_id key) fingerprint).

Definition consumeAttempt (key : Key) (fingerprint : Fingerprint) (decision : attemptDecision)
  : TX B V unit :=
  let attemptFingerprint := AttemptFingerprint key fingerprint in
  if negb (ad_exists decision) then insertAttempt key attemptFingerprint
  else incrementAttempt key attemptFingerprint.

Definition markAttemptTerminal (key : Key) (fingerprint : Fingerprint) (handlerErr : error)
  : TX B V unit :=
  if negb (IsPermanent (Some handlerErr)) then tx_ret tt
  else
    let* now := clock in
    if String.eqb (k_AttemptGeneration key) ""
    then exec "inbox/sqlite: mark handler attempt terminal" (sql_markTerminal now (key_id key))
    else exec "inbox/sqlite: mark handler attempt terminal"
           (sql_markTerminalGeneration now (key_id key) (AttemptFingerprint key fingerprint)).

Definition recordTerminal (key : Key) (fingerprint : Fingerprint) (attempt : Z) (permanent : bool)
  : TX B V unit :=
  let kind := if permanent then FailurePermanentKind else FailureAttemptsExhausted in
  let* now := clock in
  Record_ [{| o_Key := key; o_Fingerprint := fingerprint; o_Outcome := BatchDLQ;
              o_Attempt := attempt; o_Duplicate := false; o_Delay := 0;
              o_FailureKind := kind; o_Err := None |}] now.

Definition deleteAttempt (key : Key) (fingerprint : Fingerprint) : TX B V unit :=
  if String.eqb (k_AttemptGeneration key) ""
  then exec "inbox/sqlite: delete handler attempt" (sql_deleteAttempt (key_id key))
  else exec "inbox/sqlite: delete handler attempt"
         (sql_deleteAttemptGeneration (key_id key) fingerprint).

Definition hasAttempts (key : Key) : TX B V bool :=
  query "inbox/sqlite: inspect remaining handler attempts" (sql_hasAttempts (key_id key)).
End Steps.

(** ** [Process] *)

(** The operation ends here when the identity is handled or in conflict;
    otherwise it continues with the handler. *)
Definition handleExisting (key : Key) (fingerprint : Fingerprint) : TX B Result unit :=
  let* row := query "inbox/sqlite: read identity" (sql_readIdentity (key_id key)) in
  match row with
  | None => tx_fail (EFmt "inbox/sqlite: read identity" [ESentinel ErrNoRows])
  | Some (stored, completedAt) =>
      if negb (fingerprintsEqual stored fingerprint) then tx_fail (ESentinel ErrFingerprintConflict)
      else match completedAt with
      | Some _ =>
          commit_return "inbox/sqlite: commit duplicate" {| r_Duplicate := true; r_Attempt := 0 |} None
      | None =>
          let* counts := query "inbox/sqlite: inspect attempts"
            (sql_inspectAttempts (key_id key)) in
          let '(maxTerminal, count) := counts in
          if 0 <? count then
            if 0 <? maxTerminal
            then tx_return Result0 (Permanent (Some (ESentinel ErrAttemptTerminal)))
            else tx_fail (ESentinel ErrAttemptConflict)
          else tx_ret tt
      end
  end.

Definition Process (key : Key) (fingerprint : Fingerprint) (handler : Handler B)
  : TX B Result Empty_set :=
  let* _ := begin_tx "inbox/sqlite: begin transaction" in
  let* now := clock in
  let* rows := exec "inbox/sqlite: insert identity" (sql_insertIdentity (key_id key) fingerprint now) in
  let* _ := (if rows =? 0 then handleExisting key fingerprint else tx_ret tt) in
  let* handlerErr := call_handler handler in
  match handlerErr with
  | Some e => tx_fail e
  | None =>
      let* now := clock in
      let* _ := exec "inbox/sqlite: mark complete" (sql_markComplete now (key_id key)) in
      commit_return "inbox/sqlite: commit" Result0 None
  end.

(** ** [ProcessAttempt] *)

(** Ends the operation for a completed duplicate. *)
Definition prepareAttemptIdentity (key : Key) (fingerprint : Fingerprint) : TX B Result unit :=
  let* now := clock in
  let* rows := exec "inbox/sqlite: insert attempt identity"
    (sql_insertIdentity (key_id key) fingerprint now) in
  if negb (rows =? 0) then tx_ret tt
  else
    let* row := query "inbox/sqlite: read attempt identity" (sql_readIdentity (key_id key)) in
    match row with
    | None => tx_fail (EFmt "inbox/sqlite: read attempt identity" [ESentinel ErrNoRows])
    | Some (stored, completedAt) =>
        if negb (fingerprintsEqual stored fingerprint) then tx_fail (ESentinel ErrFingerprintConflict)
        else match completedAt with
        | None => tx_ret tt
        | Some _ =>
            let* state := readAttempt key (AttemptFingerprint key fingerprint) in
            commit_return "inbox/sqlite: commit attempt duplicate"
              {| r_Duplicate := true; r_Attempt := as_attempt (default attemptState0 state) |} None
        end
    end.

Definition finishFailedAttempt (saved : DB B) (key : Key) (fingerprint : Fingerprint)
  (decision : attemptDecision) (maxAttempts : Z) (handlerErr : error) : TX B Result Empty_set :=
  let* _ := rollback_to "inbox/sqlite: rollback handler writes" saved in
  if bool_decide (is_Some (DeferDelay (Some handlerErr))) && negb (IsPermanent (Some handlerErr)) then
    let* now := clock in
    let* _ := PreserveDeferred
      [{| o_Key := key; o_Fingerprint := fingerprint; o_Outcome := BatchDefer;
          o_Attempt := ad_attempt decision - 1; o_Duplicate := false; o_Delay := 0;
          o_FailureKind := ""; o_Err := None |}] now in
    commit_return "inbox/sqlite: commit deferred handler attempt"
      {| r_Duplicate := false; r_Attempt := ad_attempt decision - 1 |} (Some handlerErr)
  else
    let* _ := consumeAttempt key fingerprint decision in
    let* _ := markAttemptTerminal key fingerprint handlerErr in
    let* _ := (if IsPermanent (Some handlerErr) || (maxAttempts <=? ad_attempt decision)
               then recordTerminal key fingerprint (ad_attempt decision) (IsPermanent (Some handlerErr))
               else tx_ret tt) in
    commit_return "inbox/sqlite: commit failed handler attempt"
      {| r_Duplicate := false; r_Attempt := ad_attempt decision |} (Some handlerErr).

Definition ProcessAttempt (key : Key) (fingerprint : Fingerprint) (maxAttempts : Z)
  (handler : Handler B) : TX B Result Empty_set :=
  let* _ := begin_tx "inbox/sqlite: begin attempt transaction" in
  let* _ := prepareAttemptIdentity key fingerprint in
  let* decision := nextAttempt key fingerprint maxAttempts in
  let attempt := ad_attempt decision in
  if ad_terminal decision || ad_exhausted decision then
    let* _ := recordTerminal key fingerprint (ad_attempt decision) (ad_terminal decision) in
    commit_return "inbox/sqlite: commit existing attempt state"
      {| r_Duplicate := false; r_Attempt := attempt |}
      (if ad_terminal decision then Permanent (Some (ESentinel ErrAttemptTerminal))
       else Some (ESentinel ErrAttemptsExhausted))
  else
    let* saved := savepoint "inbox/sqlite: create handler savepoint" in
    let* handlerErr := call_handler handler in
    match handlerErr with
    | Some e => finishFailedAttempt saved key fingerprint decision maxAttempts e
    | None =>
        let* _ := consumeAttempt key fingerprint decision in
        let* now := clock in
        let* _ := exec "inbox/sqlite: mark attempt complete" (sql_markComplete now (key_id key)) in
        commit_return "inbox/sqlite: commit handler attempt"
          {| r_Duplicate := false; r_Attempt := attempt |} None
    end.

(** ** [ForgetAttempt] *)
Definition ForgetAttempt (key : Key) (fingerprint : Fingerprint) : TX B unit Empty_set :=
  let* _ := begin_tx "inbox/sqlite: begin forget attempt" in
  let* row := query "inbox/sqlite: read forgotten attempt" (sql_readIdentity (key_id key)) in
  match row with
  | None => commit_return "inbox/sqlite: commit missing forgotten attempt" tt None
  | Some (stored, completedAt) =>
      if negb (fingerprintsEqual stored fingerprint) then tx_fail (ESentinel ErrFingerprintConflict)
      else match completedAt with
      | Some _ => commit_return "inbox/sqlite: commit completed forgotten attempt" tt None
      | None =>
          let* _ := Forget key fingerprint in
          let* _ := deleteAttempt key (AttemptFingerprint key fingerprint) in
          let* more := hasAttempts key in
          if more then commit_return "inbox/sqlite: commit forgotten attempt generation" tt None
          else
            let* _ := exec "inbox/sqlite: delete incomplete identity"
              (sql_deleteIncompleteIdentity (key_id key)) in
            commit_return "inbox/sqlite: commit forgotten attempt" tt None
      end
  end.

(** ** [Prune] *)
Definition Prune (before : Time) (limit : Z) : TX B Z Empty_set :=
  let* _ := begin_tx "inbox/sqlite: begin prune" in
  let* _ := PruneCompleted collate before limit in
  let* _ := exec "inbox/sqlite: prune attempt generations"
    (sql_pruneAttemptGenerations collate before limit) in
  let* _ := exec "inbox/sqlite: prune attempts" (sql_pruneAttempts collate before limit) in
  let* rows := exec "inbox/sqlite: prune" (sql_pruneInbox collate before limit) in
  commit_return "inbox/sqlite: commit prune" rows None.

(** ** Retention *)
Definition ConfirmTerminalHandoff (key : Key) (fingerprint : Fingerprint) : TX B unit Empty_set :=
  let* _ := begin_tx "inbox/sqlite: begin handoff confirmation" in
  let* now := clock in
  let* _ := Confirm key fingerprint now in
  commit_return "inbox/sqlite: commit handoff confirmation" tt None.

Definition PruneTerminalAttempts (before : Time) (limit : Z) : TX B Z Empty_set :=
  let* _ := begin_tx "inbox/sqlite: begin terminal prune" in
  let* removed := TerminalState.Prune collate before limit in
  commit_return "inbox/sqlite: commit terminal prune" removed None.
End Backend.
End Sqlite.
