(* ===== verification/InboxSpec.v ===== *)
(** * What an Inbox backend promises

    The abstract specification of the backend interfaces of
    [adapters/inbox/inbox.go] and [retention.go] ([Backend], [AttemptBackend],
    [TerminalRetentionBackend]): each operation as one pure function on the
    tables, without statements, savepoints or faults; the invariant of the
    tables; and the class [InboxBackend], which a backend satisfies when every
    run of it is atomic and every undisturbed run gives the specified outcome. *)
From S2P Require Import Prelude GoStrings Errors Ident Inbox InboxSQL TerminalState.
Import Stdlib.Strings.String.
Open Scope string_scope.
Open Scope Z_scope.

Section Spec.
Context {B : Type}.
Implicit Types (d : DB B) (k : idkey) (key : Key) (fp : Fingerprint) (t : Time) (w : env).

Definition outcome_of {V} d (v : V) (err : option error) w : opResult B V :=
  {| op_db := d; op_value := v; op_err := err; op_env := w |}.

(** ** Counters: the row of the key's generation *)
Definition legacy key : bool := String.eqb (k_AttemptGeneration key) "".

Definition counter_of key fp d : option counterRow :=
  if legacy key then option_map a_counter (attempts d !! key_id key)
  else generations d !! (key_id key, AttemptFingerprint key fp).

(** The counter, its permanent flag, and the failure kind of its terminal row. *)
Definition state_of key fp d : option (Z * bool * string) :=
  if legacy key then sql_readAttempt (key_id key) d
  else sql_readAttemptGeneration (key_id key) (AttemptFingerprint key fp) d.

Definition set_counter key fp (c : counterRow) d : DB B :=
  if legacy key
  then set_attempts (<[key_id key := {| a_fingerprint := fp; a_counter := c |}]> (attempts d)) d
  else set_generations (<[(key_id key, AttemptFingerprint key fp) := c]> (generations d)) d.

Definition consume key fp t d : DB B :=
  set_counter key fp (match counter_of key fp d with
                      | Some c => bump t c
                      | None => fresh_counter 1 t
                      end) d.
Definition keep_deferred key fp t d : DB B :=
  match counter_of key fp d with
  | Some _ => d
  | None => set_counter key fp (fresh_counter 0 t) d
  end.
Definition flag_permanent key fp t d : DB B :=
  match counter_of key fp d with
  | Some c => set_counter key fp (terminal_counter t c) d
  | None => d
  end.

(** A terminal row keeps its reason, count and time; its handoff must be
    confirmed again. *)
Definition record_terminal key fp (n : Z) (kind : string) t d : DB B :=
  let g := (key_id key, AttemptFingerprint key fp) in
  set_terminal (<[g := match terminal d !! g with
                       | Some old => reset_handoff old
                       | None => {| t_attempts := n; t_failure_kind := kind; t_terminal_at := t;
                                    t_handoff_confirmed_at := None |}
                       end]> (terminal d)) d.

Definition complete_identity k t d : DB B := set_inbox (alter (complete_row t) k (inbox d)) d.
Definition new_identity k fp t d : DB B :=
  set_inbox (<[k := {| i_fingerprint := fp; i_created_at := t; i_completed_at := None |}]> (inbox d)) d.

(** ** [ProcessAttempt] *)
Definition is_defer (e : error) : bool :=
  bool_decide (is_Some (DeferDelay (Some e))) && negb (IsPermanent (Some e)).

(** The attempt that is number [n] of its generation failed with [e]. *)
Definition spec_failed key fp (n maxAttempts : Z) (e : error) d w : opResult B Result :=
  let result m := {| r_Duplicate := false; r_Attempt := m |} in
  if is_defer e then
    let '(t, w) := tick w in
    outcome_of (keep_deferred key fp t d) (result (n - 1)) (Some e) w
  else
    let '(t, w) := tick w in
    let d := consume key fp t d in
    if IsPermanent (Some e) then
      let '(t, w) := tick w in
      let d := flag_permanent key fp t d in
      let '(t, w) := tick w in
      outcome_of (record_terminal key fp n FailurePermanentKind t d) (result n) (Some e) w
    else if maxAttempts <=? n then
      let '(t, w) := tick w in
      outcome_of (record_terminal key fp n FailureAttemptsExhausted t d) (result n) (Some e) w
    else outcome_of d (result n) (Some e) w.

Definition spec_handle key fp (n maxAttempts : Z) (h : Handler B) d w : opResult B Result :=
  let '(b, err) := h (business d) in
  let w := called w in
  match err with
  | Some e => spec_failed key fp n maxAttempts e d w
  | None =>
      let '(t, w) := tick w in
      let d := consume key fp t (set_business b d) in
      let '(t, w) := tick w in
      outcome_of (complete_identity (key_id key) t d) {| r_Duplicate := false; r_Attempt := n |} None w
  end.

Definition spec_closed key fp (n : Z) (permanent : bool) d w : opResult B Result :=
  let '(t, w) := tick w in
  outcome_of
    (record_terminal key fp n
       (if permanent then FailurePermanentKind else FailureAttemptsExhausted) t d)
    {| r_Duplicate := false; r_Attempt := n |}
    (if permanent then Permanent (Some (ESentinel ErrAttemptTerminal))
     else Some (ESentinel ErrAttemptsExhausted)) w.

(** An incomplete identity whose fingerprint matches. *)
Definition spec_pending key fp (maxAttempts : Z) (h : Handler B) d w : opResult B Result :=
  match state_of key fp d with
  | None => spec_handle key fp 1 maxAttempts h d w
  | Some (n, flag, kind) =>
      if flag || String.eqb kind FailurePermanentKind then spec_closed key fp n true d w
      else if (maxAttempts <=? n) || String.eqb kind FailureAttemptsExhausted
      then spec_closed key fp n false d w
      else spec_handle key fp (n + 1) maxAttempts h d w
  end.

Definition spec_ProcessAttempt key fp (maxAttempts : Z) (h : Handler B) d w : opResult B Result :=
  let '(t, w) := tick w in
  match inbox d !! key_id key with
  | None => spec_handle key fp 1 maxAttempts h (new_identity (key_id key) fp t d) w
  | Some r =>
      if negb (String.eqb (i_fingerprint r) fp)
      then outcome_of d Result0 (Some (ESentinel ErrFingerprintConflict)) w
      else match i_completed_at r with
      | Some _ =>
          outcome_of d {| r_Duplicate := true;
                          r_Attempt := match state_of key fp d with Some (n, _, _) => n | None => 0 end |}
            None w
      | None => spec_pending key fp maxAttempts h d w
      end
  end.

(** ** [Process] *)

(** [d0] is the database before the transaction. *)
Definition spec_handle_once key (h : Handler B) (d0 d : DB B) w : opResult B Result :=
  let '(b, err) := h (business d) in
  let w := called w in
  match err with
  | Some e => outcome_of d0 Result0 (Some e) w
  | None =>
      let '(t, w) := tick w in
      outcome_of (complete_identity (key_id key) t (set_business b d)) Result0 None w
  end.

Definition spec_Process key fp (h : Handler B) d w : opResult B Result :=
  let '(t, w) := tick w in
  let unchanged v err := outcome_of d v err w in
  match inbox d !! key_id key with
  | None => spec_handle_once key h d (new_identity (key_id key) fp t d) w
  | Some r =>
      if negb (String.eqb (i_fingerprint r) fp)
      then unchanged Result0 (Some (ESentinel ErrFingerprintConflict))
      else match i_completed_at r with
      | Some _ => unchanged {| r_Duplicate := true; r_Attempt := 0 |} None
      | None =>
          let '(flag, count) := sql_inspectAttempts (key_id key) d in
          if 0 <? count then
            unchanged Result0
              (if 0 <? flag then Permanent (Some (ESentinel ErrAttemptTerminal))
               else Some (ESentinel ErrAttemptConflict))
          else spec_handle_once key h d d w
      end
  end.

(** ** [ForgetAttempt] *)
Definition drop_counter key fp d : DB B :=
  if legacy key then set_attempts (delete (key_id key) (attempts d)) d
  else set_generations (delete (key_id key, AttemptFingerprint key fp) (generations d)) d.

Definition spec_ForgetAttempt key fp d w : opResult B unit :=
  match inbox d !! key_id key with
  | None => outcome_of d tt None w
  | Some r =>
      if negb (String.eqb (i_fingerprint r) fp)
      then outcome_of d tt (Some (ESentinel ErrFingerprintConflict)) w
      else match i_completed_at r with
      | Some _ => outcome_of d tt None w
      | None =>
          let g := (key_id key, AttemptFingerprint key fp) in
          let d := drop_counter key fp (set_terminal (delete g (terminal d)) d) in
          outcome_of (if sql_hasAttempts (key_id key) d then d
                      else set_inbox (delete (key_id key) (inbox d)) d) tt None w
      end
  end.

(** ** [ConfirmTerminalHandoff] *)
Definition spec_Confirm key fp d w : opResult B unit :=
  let '(t, w) := tick w in
  let g := (key_id key, AttemptFingerprint key fp) in
  match inbox d !! key_id key with
  | None => outcome_of d tt (Some (ESentinel ErrTerminalStateMissing)) w
  | Some r =>
      if negb (String.eqb (i_fingerprint r) fp)
      then outcome_of d tt (Some (ESentinel ErrFingerprintConflict)) w
      else match terminal d !! g with
      | None => outcome_of d tt (Some (ESentinel ErrTerminalStateMissing)) w
      | Some row => outcome_of (set_terminal (<[g := confirm_row t row]> (terminal d)) d) tt None w
      end
  end.

(** ** [Prune] and [PruneTerminalAttempts] *)
Definition remove_identities (ks : list idkey) d : DB B :=
  {| inbox := filter (fun p => p.1 ∉ ks) (inbox d);
     attempts := filter (fun p => p.1 ∉ ks) (attempts d);
     generations := filter (fun p => p.1.1 ∉ ks) (generations d);
     terminal := filter (fun p => p.1.1 ∉ ks) (terminal d);
     business := business d |}.

Definition spec_Prune (collate : string -> string -> bool) (before : Time) (limit : Z) d w
  : opResult B Z :=
  let ks := doomed collate before limit d in
  outcome_of (remove_identities ks d) (Z.of_nat (List.length ks)) None w.

(** One confirmed generation goes, with its counter, and with its identity
    when nothing else is recorded for it. *)
Definition drop_generation (g : idkey * Fingerprint) d : DB B :=
  let '(k, fp) := g in
  let d := set_terminal (delete g (terminal d)) d in
  let d := (sql_deleteAttemptOf k fp d).1 in
  let d := set_generations (delete g (generations d)) d in
  (sql_deleteEmptyIdentity k d).1.

Definition spec_prune_one (before : Time) (g : idkey * Fingerprint) d : DB B * Z :=
  match terminal d !! g with
  | Some r => if handoff_before before r && incomplete g.1 d then (drop_generation g d, 1) else (d, 0)
  | None => (d, 0)
  end.

Fixpoint spec_prune_all (before : Time) (gs : list (idkey * Fingerprint)) (n : Z) d : DB B * Z :=
  match gs with
  | [] => (d, n)
  | g :: r => let '(d, m) := spec_prune_one before g d in spec_prune_all before r (n + m) d
  end.

Definition spec_PruneTerminal (collate : string -> string -> bool) (before : Time) (limit : Z) d w
  : opResult B Z :=
  let '(d, n) := spec_prune_all before (sql_candidates collate before limit d) 0 d in
  outcome_of d n None w.
End Spec.

(** ** The invariant of the tables *)
Section Invariant.
Context {B : Type}.
Implicit Types (d : DB B) (k : idkey) (fp : Fingerprint).

Definition counter_ok (c : counterRow) : Prop :=
  0 <= c_attempts c /\ (c_terminal c = true -> 1 <= c_attempts c).

(** A consumed attempt is counted for the generation. *)
Definition counted k fp d : Prop :=
  (exists r, attempts d !! k = Some r /\ a_fingerprint r = fp /\ 1 <= c_attempts (a_counter r)) \/
  (exists c, generations d !! (k, fp) = Some c /\ 1 <= c_attempts c).

(** A replay generation is not given the fingerprint of its own envelope,
    which would take a SHA-256 preimage found by accident. *)
Definition collision_free (key : Key) fp : Prop :=
  legacy key = false -> AttemptFingerprint key fp <> fp.

Definition tracked k d : Prop :=
  is_Some (attempts d !! k) \/ exists fp, is_Some (generations d !! (k, fp)).

(** Every row belongs to an identity; the legacy counter has the identity's
    fingerprint and no generation counter has it; a terminal row satisfies its
    constraints and a consumed attempt is counted for it; stored fingerprints
    are digests. *)
Record rows_ok d : Prop := {
  ok_attempts k r : attempts d !! k = Some r ->
    exists i, inbox d !! k = Some i /\ i_fingerprint i = a_fingerprint r /\ counter_ok (a_counter r);
  ok_generations k fp c : generations d !! (k, fp) = Some c ->
    is_Some (inbox d !! k) /\ counter_ok c;
  ok_separate k i : inbox d !! k = Some i -> generations d !! (k, i_fingerprint i) = None;
  ok_terminal k fp r : terminal d !! (k, fp) = Some r ->
    terminal_check r = true /\ counted k fp d;
  ok_digest k i : inbox d !! k = Some i -> Fingerprint_wf (i_fingerprint i) }.

(** No orphan: an incomplete identity always has a counter. *)
Definition settled k d : Prop :=
  forall i, inbox d !! k = Some i -> i_completed_at i = None -> tracked k d.

Definition db_ok d : Prop := rows_ok d /\ forall k, settled k d.
(** Inside a transaction on [k]. *)
Definition open_ok k d : Prop := rows_ok d /\ forall k', k' <> k -> settled k' d.

Lemma db_ok_open k d : db_ok d -> open_ok k d.
Proof. intros [? ?]. by split. Qed.

Lemma open_ok_close k d : open_ok k d -> settled k d -> db_ok d.
Proof.
  intros [Hr Ho] Hk. split; [done|]. intros k'. destruct (decide (k' = k)) as [->|]; [done|auto].
Qed.

(** The row a delivery works on: it matches the fingerprint. *)
Definition identified k fp d : Prop :=
  exists i, inbox d !! k = Some i /\ i_fingerprint i = fp.

Lemma state_of_counter key fp d :
  state_of key fp d = match counter_of key fp d with
    | Some c => Some (c_attempts c, c_terminal c,
        closed_kind (key_id key)
          (if legacy key then match attempts d !! key_id key with
                              | Some r => a_fingerprint r | None => "" end
           else AttemptFingerprint key fp) d)
    | None => None
    end.
Proof.
  unfold state_of, counter_of, sql_readAttempt, sql_readAttemptGeneration.
  destruct (legacy key); [|by destruct (generations d !! _)]. by destruct (attempts d !! _).
Qed.

Lemma counter_ok_bump t c : counter_ok c -> counter_ok (bump t c).
Proof. intros [? ?]. split; simpl; lia. Qed.

Lemma legacy_fingerprint key fp : legacy key = true -> AttemptFingerprint key fp = fp.
Proof. unfold legacy, AttemptFingerprint. by intros ->. Qed.

Lemma counter_of_ok key fp d c : rows_ok d -> counter_of key fp d = Some c -> counter_ok c.
Proof.
  unfold counter_of. intros Hd Hc. destruct (legacy key).
  - destruct (attempts d !! key_id key) as [r|] eqn:Ha; simplify_eq/=.
    destruct (ok_attempts d Hd _ _ Ha) as (i & _ & _ & Hok). done.
  - apply (ok_generations d Hd _ _ _ Hc).
Qed.

Lemma counter_of_tracked key fp d : is_Some (counter_of key fp d) -> tracked (key_id key) d.
Proof.
  unfold counter_of, tracked. destruct (legacy key); [|by eauto].
  destruct (attempts d !! key_id key); [left; eauto|]. by intros [? ?].
Qed.

Lemma counter_of_counted key fp d c :
  rows_ok d -> identified (key_id key) fp d ->
  counter_of key fp d = Some c -> 1 <= c_attempts c ->
  counted (key_id key) (AttemptFingerprint key fp) d.
Proof.
  intros Hd (i & Hi & Hf). unfold counter_of, counted. destruct (legacy key) eqn:Hl; [|by eauto].
  destruct (attempts d !! key_id key) as [r|] eqn:Ha; [|done]. intros ? ?. simplify_eq/=. left.
  exists r. rewrite (legacy_fingerprint key _ Hl).
  destruct (ok_attempts d Hd _ _ Ha) as (i' & Hi' & Hf' & _). split_and!; congruence.
Qed.

(** The counter of a closed generation is the one the key selects. *)
Lemma counted_counter_of key fp d :
  rows_ok d -> identified (key_id key) fp d -> collision_free key fp ->
  counted (key_id key) (AttemptFingerprint key fp) d ->
  exists c, counter_of key fp d = Some c /\ 1 <= c_attempts c.
Proof.
  intros Hd (i & Hi & Hf) Hcf. unfold counter_of. destruct (legacy key) eqn:Hl.
  - rewrite (legacy_fingerprint key _ Hl). intros [(r & -> & _ & ?)|(c & Hc & _)]; [by eauto|].
    rewrite <- Hf, (ok_separate d Hd _ _ Hi) in Hc. done.
  - intros [(r & Hr & Hrf & _)|(c & Hc & ?)]; [|by eauto].
    destruct (ok_attempts d Hd _ _ Hr) as (i' & Hi' & Hf' & _). destruct (Hcf Hl). congruence.
Qed.

Lemma terminal_needs_counter key fp d :
  rows_ok d -> identified (key_id key) fp d -> collision_free key fp ->
  counter_of key fp d = None -> terminal d !! (key_id key, AttemptFingerprint key fp) = None.
Proof.
  intros Hd Hid Hcf Hn. destruct (terminal d !! _) as [r|] eqn:Hr; [|done].
  destruct (ok_terminal d Hd _ _ _ Hr) as [_ Hc].
  destruct (counted_counter_of key fp d Hd Hid Hcf Hc) as (c & ? & _). congruence.
Qed.

(** ** Setting a counter *)
Lemma counted_set_counter key fp c d k' fp' :
  rows_ok d -> identified (key_id key) fp d ->
  ((k', fp') = (key_id key, AttemptFingerprint key fp) -> 1 <= c_attempts c) ->
  counted k' fp' d -> counted k' fp' (set_counter key fp c d).
Proof.
  intros Hd (i & Hi & Hf) Hge [(r & Ha & Hr & Hn)|(c' & Hg & Hn)];
    unfold counted, set_counter; destruct (legacy key) eqn:Hl; simpl.
  - left. destruct (decide (k' = key_id key)) as [->|]; [|exists r; by rewrite lookup_insert_ne].
    destruct (ok_attempts d Hd _ _ Ha) as (i' & ? & ? & _). assert (fp = fp') as -> by congruence.
    eexists. split; [by rewrite lookup_insert_eq|]. simpl. split; [done|].
    apply Hge. by rewrite (legacy_fingerprint key _ Hl).
  - left. eauto.
  - right. eauto.
  - right. destruct (decide ((k', fp') = (key_id key, AttemptFingerprint key fp))) as [Heq|].
    + rewrite Heq, lookup_insert_eq. eauto.
    + exists c'. by rewrite lookup_insert_ne.
Qed.

Lemma tracked_set_counter_self key fp c d : tracked (key_id key) (set_counter key fp c d).
Proof.
  unfold tracked, set_counter. destruct (legacy key); simpl.
  - left. rewrite lookup_insert_eq. eauto.
  - right. exists (AttemptFingerprint key fp). rewrite lookup_insert_eq. eauto.
Qed.

Lemma tracked_set_counter key fp c d k : tracked k d -> tracked k (set_counter key fp c d).
Proof.
  unfold tracked, set_counter. intros [H|[f H]]; destruct (legacy key); simpl; eauto.
  - left. rewrite lookup_insert_is_Some. destruct (decide (key_id key = k)); eauto.
  - right. exists f. rewrite lookup_insert_is_Some.
    destruct (decide ((key_id key, AttemptFingerprint key fp) = (k, f))); eauto.
Qed.

Lemma counter_of_set key fp c d : counter_of key fp (set_counter key fp c d) = Some c.
Proof. unfold counter_of, set_counter. destruct (legacy key); simpl; by rewrite lookup_insert_eq. Qed.

Lemma inbox_set_counter key fp c d : inbox (set_counter key fp c d) = inbox d.
Proof. unfold set_counter. by destruct (legacy key). Qed.
Lemma terminal_set_counter key fp c d : terminal (set_counter key fp c d) = terminal d.
Proof. unfold set_counter. by destruct (legacy key). Qed.
Lemma business_set_counter key fp c d : business (set_counter key fp c d) = business d.
Proof. unfold set_counter. by destruct (legacy key). Qed.

Lemma set_counter_ok key fp c d :
  open_ok (key_id key) d -> identified (key_id key) fp d -> collision_free key fp -> counter_ok c ->
  1 <= c_attempts c \/ terminal d !! (key_id key, AttemptFingerprint key fp) = None ->
  db_ok (set_counter key fp c d).
Proof.
  intros [Hd Ho] Hid Hcf Hc Hge.
  apply (open_ok_close (key_id key)); [split; [split|]|].
  - intros k r. rewrite inbox_set_counter. destruct Hid as (i & Hi & Hf).
    unfold set_counter. destruct (legacy key); simpl; [|apply (ok_attempts d Hd)].
    intros [[<- <-]|[_ Hr]]%lookup_insert_Some; [by exists i|by apply (ok_attempts d Hd)].
  - intros k f r. rewrite inbox_set_counter. destruct Hid as (i & Hi & Hf).
    unfold set_counter. destruct (legacy key); simpl; [apply (ok_generations d Hd)|].
    intros [[Heq <-]|[_ Hr]]%lookup_insert_Some; [|by apply (ok_generations d Hd k f)].
    simplify_eq. split; [by eauto|done].
  - intros k i. rewrite inbox_set_counter. intros Hi. unfold set_counter.
    destruct (legacy key) eqn:Hl; simpl; [by apply (ok_separate d Hd)|].
    rewrite lookup_insert_ne; [by apply (ok_separate d Hd)|].
    intros Heq. simplify_eq. destruct Hid as (i' & Hi' & Hf'). destruct (Hcf Hl). congruence.
  - intros k f r. rewrite terminal_set_counter. intros Hr.
    destruct (ok_terminal d Hd _ _ _ Hr) as [? ?]. split; [done|].
    apply counted_set_counter; [done..| |done]. intros Heq. rewrite Heq in Hr. destruct Hge; [done|congruence].
  - intros k i. rewrite inbox_set_counter. apply (ok_digest d Hd).
  - intros k Hk i. rewrite inbox_set_counter. intros Hi Hn. apply tracked_set_counter.
    by apply (Ho k Hk i).
  - intros i _ _. apply tracked_set_counter_self.
Qed.

Lemma consume_ok key fp t d :
  open_ok (key_id key) d -> identified (key_id key) fp d -> collision_free key fp ->
  db_ok (consume key fp t d) /\
  exists c, counter_of key fp (consume key fp t d) = Some c /\ 1 <= c_attempts c.
Proof.
  intros Ho Hid Hcf. unfold consume.
  assert (exists c, c = match counter_of key fp d with Some c => bump t c | None => fresh_counter 1 t end
    /\ counter_ok c /\ 1 <= c_attempts c) as (c & <- & Hc & Hn).
  { eexists. split; [done|]. destruct (counter_of key fp d) as [c|] eqn:Hc; [|by split; [split; simpl|]].
    apply counter_of_ok in Hc; [|apply Ho]. split; [by apply counter_ok_bump|].
    destruct Hc. simpl. lia. }
  split; [by apply set_counter_ok; auto|]. exists c. by rewrite counter_of_set.
Qed.

Lemma keep_deferred_ok key fp t d :
  open_ok (key_id key) d -> identified (key_id key) fp d -> collision_free key fp ->
  db_ok (keep_deferred key fp t d).
Proof.
  intros Ho Hid Hcf. unfold keep_deferred. destruct (counter_of key fp d) as [c|] eqn:Hc.
  - apply (open_ok_close (key_id key)); [done|]. intros i _ _.
    apply (counter_of_tracked key fp). by rewrite Hc.
  - apply set_counter_ok; [done..|by split; simpl|]. right.
    by apply terminal_needs_counter; [apply Ho|..].
Qed.

Lemma flag_permanent_ok key fp t d c :
  db_ok d -> identified (key_id key) fp d -> collision_free key fp ->
  counter_of key fp d = Some c -> 1 <= c_attempts c ->
  db_ok (flag_permanent key fp t d) /\
  exists c', counter_of key fp (flag_permanent key fp t d) = Some c' /\ 1 <= c_attempts c'.
Proof.
  intros Hd Hid Hcf Hc Hn. unfold flag_permanent. rewrite Hc. split.
  - apply set_counter_ok; [by apply db_ok_open|done..| |by left]. split; simpl; lia.
  - rewrite counter_of_set. eauto.
Qed.

(** ** Terminal rows *)
Lemma set_terminal_ok m d :
  db_ok d ->
  (forall k f r, m !! (k, f) = Some r -> terminal_check r = true /\ counted k f d) ->
  db_ok (set_terminal m d).
Proof. intros [Hd Hs] Hm. split; [split|done]; [apply Hd..|apply Hm|apply Hd]. Qed.

Lemma record_terminal_ok key fp n kind t d :
  db_ok d -> identified (key_id key) fp d ->
  (exists c, counter_of key fp d = Some c /\ 1 <= c_attempts c) -> 1 <= n ->
  kind = FailurePermanentKind \/ kind = FailureAttemptsExhausted ->
  db_ok (record_terminal key fp n kind t d).
Proof.
  intros Hd Hid (c & Hc & Hcn) Hn Hkind. apply set_terminal_ok; [done|]. intros k f r.
  intros [[Heq <-]|[_ Hr]]%lookup_insert_Some; [|by apply (ok_terminal d (proj1 Hd))].
  simplify_eq. split; [|by eapply counter_of_counted; [apply Hd|..]].
  destruct (terminal d !! _) as [old|] eqn:Ho.
  - destruct (ok_terminal d (proj1 Hd) _ _ _ Ho) as [Hok _]. exact Hok.
  - unfold terminal_check. simpl. rewrite (proj2 (Z.ltb_lt 0 n)) by lia.
    by destruct Hkind as [->| ->].
Qed.

(** ** Identities *)
Lemma new_identity_open k fp t d :
  db_ok d -> inbox d !! k = None -> Fingerprint_wf fp ->
  open_ok k (new_identity k fp t d) /\ identified k fp (new_identity k fp t d).
Proof.
  intros [Hd Hs] Hk Hwf. split; [split; [split|]|].
  - intros k' r Hr. destruct (ok_attempts d Hd _ _ Hr) as (i & Hi & ?). exists i.
    simpl. rewrite lookup_insert_ne; [done|]. intros ->. congruence.
  - intros k' f c Hc. destruct (ok_generations d Hd _ _ _ Hc) as [Hi ?]. split; [|done].
    simpl. rewrite lookup_insert_is_Some. destruct (decide (k = k')); eauto.
  - intros k' i. simpl. intros [[-> <-]|[_ Hi]]%lookup_insert_Some; [|by apply (ok_separate d Hd)].
    simpl. destruct (generations d !! (k', fp)) eqn:Hg; [|done].
    destruct (ok_generations d Hd _ _ _ Hg) as [[? ?] _]. congruence.
  - intros k' f r Hr. exact (ok_terminal d Hd _ _ _ Hr).
  - intros k' i. simpl. intros [[-> <-]|[_ Hi]]%lookup_insert_Some; [done|by apply (ok_digest d Hd k')].
  - intros k' Hne i. simpl. rewrite lookup_insert_ne by done. apply Hs.
  - eexists. simpl. rewrite lookup_insert_eq. done.
Qed.

Lemma complete_identity_ok k t d : open_ok k d -> db_ok (complete_identity k t d).
Proof.
  intros [Hd Ho]. apply (open_ok_close k); [split; [split|]|].
  - intros k' r Hr. destruct (ok_attempts d Hd _ _ Hr) as (i & Hi & Hf & Hc). simpl.
    destruct (decide (k' = k)) as [->|].
    + exists (complete_row t i). rewrite lookup_alter_eq, Hi. done.
    + exists i. by rewrite lookup_alter_ne.
  - intros k' f c Hc. destruct (ok_generations d Hd _ _ _ Hc) as [Hi ?]. split; [|done].
    simpl. by rewrite lookup_alter_is_Some.
  - intros k' i. simpl. destruct (decide (k' = k)) as [->|].
    + rewrite lookup_alter_eq. destruct (inbox d !! k) as [i'|] eqn:Hi; simpl; [|done].
      intros ?. simplify_eq. simpl. by apply (ok_separate d Hd).
    + rewrite lookup_alter_ne by done. apply (ok_separate d Hd).
  - intros k' f r Hr. exact (ok_terminal d Hd _ _ _ Hr).
  - intros k' i. simpl. destruct (decide (k' = k)) as [->|].
    + rewrite lookup_alter_eq. destruct (inbox d !! k) as [i'|] eqn:Hi; simpl; [|done].
      intros ?. simplify_eq. simpl. by apply (ok_digest d Hd k).
    + rewrite lookup_alter_ne by done. apply (ok_digest d Hd).
  - intros k' Hne i. simpl. rewrite lookup_alter_ne by done. by apply Ho.
  - intros i. simpl. rewrite lookup_alter_eq. destruct (inbox d !! k); simpl; intros; simplify_eq/=.
Qed.

Lemma set_business_ok b d : db_ok d -> db_ok (set_business b d).
Proof. intros [[H1 H2 H3 H4 H6] H5]. split; [split|]; assumption. Qed.
Lemma set_business_open k b d : open_ok k d -> open_ok k (set_business b d).
Proof. intros [[H1 H2 H3 H4 H6] H5]. split; [split|]; assumption. Qed.
End Invariant.

(** ** The interface *)

(** An operation refines its specification: every run is atomic, and an
    undisturbed run on well-formed tables gives the specified outcome. *)
Definition refines {B V} `{Zero V} (m : TX B V Empty_set) (spec : DB B -> env -> opResult B V) : Prop :=
  atomic m /\ forall d w, db_ok d -> run m d (quiet w) = spec d (quiet w).

Class InboxBackend (B : Type) (collate : string -> string -> bool) := {
  be_Process : Key -> Fingerprint -> Handler B -> TX B Result Empty_set;
  be_ProcessAttempt : Key -> Fingerprint -> Z -> Handler B -> TX B Result Empty_set;
  be_ForgetAttempt : Key -> Fingerprint -> TX B unit Empty_set;
  be_Prune : Time -> Z -> TX B Z Empty_set;
  be_ConfirmTerminalHandoff : Key -> Fingerprint -> TX B unit Empty_set;
  be_PruneTerminalAttempts : Time -> Z -> TX B Z Empty_set;
  be_Process_ok key fp h : Fingerprint_wf fp ->
    refines (be_Process key fp h) (spec_Process key fp h);
  be_ProcessAttempt_ok key fp n h : Fingerprint_wf fp -> collision_free key fp -> 1 <= n ->
    refines (be_ProcessAttempt key fp n h) (spec_ProcessAttempt key fp n h);
  be_ForgetAttempt_ok key fp : Fingerprint_wf fp ->
    refines (be_ForgetAttempt key fp) (spec_ForgetAttempt key fp);
  be_Prune_ok before limit : refines (be_Prune before limit) (spec_Prune collate before limit);
  be_Confirm_ok key fp : Fingerprint_wf fp ->
    refines (be_ConfirmTerminalHandoff key fp) (spec_Confirm key fp);
  be_PruneTerminal_ok before limit :
    refines (be_PruneTerminalAttempts before limit) (spec_PruneTerminal collate before limit) }.
