(* ===== verification/InboxProps.v ===== *)
(** * Properties of the Inbox specification

    Every specified operation keeps the invariant of the tables; what one
    delivery does to the business tables, the counters and the terminal rows;
    pruning and retention.  The backends inherit all of it through the
    refinement of [PgRefine.v] and [SqliteRefine.v]. *)
From S2P Require Import Prelude GoStrings Errors Ident Inbox InboxSQL TerminalState InboxSpec.
Import Stdlib.Strings.String.
Open Scope string_scope.
Open Scope Z_scope.

(** Name the clock readings of a specification. *)
Ltac ticks := repeat match goal with |- context [tick ?w] => destruct (tick w) as [? ?] eqn:? end; cbn.

Section Preservation.
Context {B : Type}.
Implicit Types (d : DB B) (k : idkey) (key : Key) (fp : Fingerprint) (w : env).

Lemma identified_consume key fp t d : identified (key_id key) fp d ->
  identified (key_id key) fp (consume key fp t d).
Proof. intros (i & ? & ?). exists i. unfold consume. by rewrite inbox_set_counter. Qed.

Lemma identified_flag key fp t d : identified (key_id key) fp d ->
  identified (key_id key) fp (flag_permanent key fp t d).
Proof.
  intros (i & ? & ?). exists i. unfold flag_permanent. destruct (counter_of key fp d); [|done].
  by rewrite inbox_set_counter.
Qed.

Lemma spec_failed_ok key fp n maxAttempts e d w :
  open_ok (key_id key) d -> identified (key_id key) fp d -> collision_free key fp -> 1 <= n ->
  db_ok (op_db (spec_failed key fp n maxAttempts e d w)).
Proof.
  intros Ho Hid Hcf Hn. unfold spec_failed. destruct (is_defer e).
  { ticks. by apply keep_deferred_ok. }
  destruct (tick w) as [t w1].
  destruct (consume_ok key fp t d Ho Hid Hcf) as [Hok (c & Hc & Hc1)].
  pose proof (identified_consume key fp t d Hid) as Hid1.
  destruct (IsPermanent (Some e)); [|destruct (maxAttempts <=? n)]; ticks; [| |done].
  - apply record_terminal_ok; auto using identified_flag; by eapply flag_permanent_ok.
  - apply record_terminal_ok; eauto.
Qed.

Lemma spec_handle_ok key fp n maxAttempts h d w :
  open_ok (key_id key) d -> identified (key_id key) fp d -> collision_free key fp -> 1 <= n ->
  db_ok (op_db (spec_handle key fp n maxAttempts h d w)).
Proof.
  intros Ho Hid Hcf Hn. unfold spec_handle. destruct (h (business d)) as [b [e|]].
  { by apply spec_failed_ok. }
  ticks. apply complete_identity_ok, db_ok_open.
  by apply consume_ok; [apply set_business_open|..].
Qed.

(** A generation with a nonempty kind or a flag has consumed an attempt. *)
Lemma state_closed_count key fp d n flag kind :
  rows_ok d -> identified (key_id key) fp d -> collision_free key fp ->
  state_of key fp d = Some (n, flag, kind) -> flag = true \/ kind <> "" -> 1 <= n.
Proof.
  intros Hd Hid Hcf. rewrite state_of_counter.
  destruct (counter_of key fp d) as [c|] eqn:Hc; [|done]. intros Heq Hcl. simplify_eq.
  pose proof (counter_of_ok _ _ _ _ Hd Hc) as [_ Hflag].
  destruct Hcl as [Hf|Hk]; [by apply Hflag|].
  assert (terminal d !! (key_id key, AttemptFingerprint key fp) <> None) as Ht.
  { unfold closed_kind in Hk. destruct (legacy key) eqn:Hl; [|intros Hn; by rewrite Hn in Hk].
    unfold counter_of in Hc. rewrite Hl in Hc.
    destruct (attempts d !! key_id key) as [r|] eqn:Ha; [|done].
    rewrite (legacy_fingerprint key fp Hl). destruct (ok_attempts d Hd _ _ Ha) as (i & Hi & Hf & _).
    destruct Hid as (i' & Hi' & Hf'). assert (a_fingerprint r = fp) as <- by congruence.
    intros Hn. by rewrite Hn in Hk. }
  destruct (terminal d !! _) as [r|] eqn:Hr; [|done].
  destruct (ok_terminal d Hd _ _ _ Hr) as [_ Hcnt].
  destruct (counted_counter_of key fp d Hd Hid Hcf Hcnt) as (c' & ? & ?). congruence.
Qed.

Lemma state_of_Some key fp d n flag kind :
  state_of key fp d = Some (n, flag, kind) -> exists c, counter_of key fp d = Some c /\ c_attempts c = n.
Proof.
  rewrite state_of_counter. destruct (counter_of key fp d) as [c|]; [|done].
  intros Heq. simplify_eq. eauto.
Qed.

Lemma spec_closed_ok key fp n permanent d w :
  db_ok d -> identified (key_id key) fp d ->
  (exists c, counter_of key fp d = Some c /\ c_attempts c = n) -> 1 <= n ->
  db_ok (op_db (spec_closed key fp n permanent d w)).
Proof.
  intros Hd Hid (c & Hc & <-) Hn. unfold spec_closed. ticks.
  apply record_terminal_ok; [done..|by eauto|done|]. destruct permanent; auto.
Qed.

Lemma spec_pending_ok key fp maxAttempts h d w :
  db_ok d -> identified (key_id key) fp d -> collision_free key fp -> 1 <= maxAttempts ->
  db_ok (op_db (spec_pending key fp maxAttempts h d w)).
Proof.
  intros Hd Hid Hcf Hm. unfold spec_pending.
  destruct (state_of key fp d) as [[[n flag] kind]|] eqn:Hs.
  2:{ apply spec_handle_ok; [by apply db_ok_open|done..]. }
  pose proof (state_closed_count _ _ _ _ _ _ (proj1 Hd) Hid Hcf Hs) as Hcl.
  pose proof (state_of_Some _ _ _ _ _ _ Hs) as Hc.
  destruct (flag || String.eqb kind FailurePermanentKind) eqn:Hp.
  { apply spec_closed_ok; [done..|]. apply Hcl. apply orb_true_iff in Hp as [->|Hp]; [by left|].
    apply String.eqb_eq in Hp as ->. by right. }
  destruct (Z.leb_spec maxAttempts n); simpl.
  { apply spec_closed_ok; [done..|lia]. }
  destruct (String.eqb_spec kind FailureAttemptsExhausted) as [->|].
  { apply spec_closed_ok; [done..|]. apply Hcl. by right. }
  apply spec_handle_ok; [by apply db_ok_open|done..|].
  destruct Hc as (c & Hc & <-). destruct (counter_of_ok _ _ _ _ (proj1 Hd) Hc). lia.
Qed.

Lemma spec_ProcessAttempt_ok key fp maxAttempts h d w :
  db_ok d -> Fingerprint_wf fp -> collision_free key fp -> 1 <= maxAttempts ->
  db_ok (op_db (spec_ProcessAttempt key fp maxAttempts h d w)).
Proof.
  intros Hd Hwf Hcf Hm. unfold spec_ProcessAttempt. destruct (tick w) as [t w1].
  destruct (inbox d !! key_id key) as [r|] eqn:Hr.
  - destruct (String.eqb_spec (i_fingerprint r) fp) as [<-|]; simpl; [|done].
    destruct (i_completed_at r); [done|]. apply spec_pending_ok; [done| |done..]. by exists r.
  - destruct (new_identity_open (key_id key) fp t d Hd Hr Hwf). by apply spec_handle_ok.
Qed.

Lemma spec_handle_once_ok key h d0 d w :
  db_ok d0 -> open_ok (key_id key) d -> db_ok (op_db (spec_handle_once key h d0 d w)).
Proof.
  intros Hd0 Ho. unfold spec_handle_once. destruct (h (business d)) as [b [e|]]; [done|].
  ticks. by apply complete_identity_ok, set_business_open.
Qed.

Lemma spec_Process_ok key fp h d w :
  db_ok d -> Fingerprint_wf fp -> db_ok (op_db (spec_Process key fp h d w)).
Proof.
  intros Hd Hwf. unfold spec_Process. destruct (tick w) as [t w1].
  destruct (inbox d !! key_id key) as [r|] eqn:Hr.
  - destruct (String.eqb (i_fingerprint r) fp); simpl; [|done].
    destruct (i_completed_at r); [done|].
    destruct (0 <? _); [done|]. apply spec_handle_once_ok; [done|by apply db_ok_open].
  - apply spec_handle_once_ok; [done|]. by apply new_identity_open.
Qed.

(** ** Removal *)
Lemma generations_of_nil k d : generations_of k d = [] <-> forall fp, generations d !! (k, fp) = None.
Proof.
  unfold generations_of. rewrite filter_nil_iff. split.
  - intros Hn fp. destruct (generations d !! (k, fp)) as [c|] eqn:Hc; [|done].
    by destruct (Hn ((k, fp), c)); [apply elem_of_map_to_list|].
  - intros Hn [[k' fp] c] Hin%elem_of_map_to_list. simpl. intros ->. by rewrite Hn in Hin.
Qed.

Lemma hasAttempts_tracked k d : sql_hasAttempts k d = true <-> tracked k d.
Proof.
  unfold sql_hasAttempts, tracked.
  rewrite orb_true_iff, bool_decide_eq_true, negb_true_iff, bool_decide_eq_false.
  split; (intros [?|Hg]; [by left|right]).
  - destruct (generations_of k d) as [|[[k' fp] c] l] eqn:Hl; [done|].
    assert (((k', fp), c) ∈ generations_of k d) as Hin by (rewrite Hl; left).
    apply list_elem_of_filter in Hin as [Hk Hin%elem_of_map_to_list]. simpl in Hk. subst. eauto.
  - destruct Hg as [fp [c Hc]]. rewrite generations_of_nil. intros Hn. by rewrite Hn in Hc.
Qed.

Lemma delete_identity_ok k d :
  open_ok k d -> ~ tracked k d -> db_ok (set_inbox (delete k (inbox d)) d).
Proof.
  intros [Hd Ho] Hn. apply (open_ok_close k); [split; [split|]|].
  - intros k' r Hr. destruct (ok_attempts d Hd _ _ Hr) as (i & Hi & ?). exists i.
    simpl. rewrite lookup_delete_ne; [done|]. intros ->. destruct Hn. left. eauto.
  - intros k' f c Hc. destruct (ok_generations d Hd _ _ _ Hc) as [? ?]. split; [|done].
    simpl. rewrite lookup_delete_ne; [done|]. intros ->. destruct Hn. right. eauto.
  - intros k' i. simpl. intros [_ Hi]%lookup_delete_Some. by apply (ok_separate d Hd).
  - intros k' f r Hr. exact (ok_terminal d Hd _ _ _ Hr).
  - intros k' i. simpl. intros [_ Hi]%lookup_delete_Some. by apply (ok_digest d Hd k').
  - intros k' Hne i. simpl. rewrite lookup_delete_ne by done. by apply Ho.
  - intros i. simpl. by rewrite lookup_delete_eq.
Qed.

(** Remove the counter of a generation whose terminal row is gone. *)
Lemma drop_attempt_open k fp d :
  open_ok k d -> identified k fp d -> terminal d !! (k, fp) = None ->
  open_ok k (set_attempts (delete k (attempts d)) d).
Proof.
  intros [Hd Ho] (i & Hi & Hf) Ht. split; [split|].
  - intros k' r. simpl. intros [_ Hr]%lookup_delete_Some. by apply (ok_attempts d Hd).
  - exact (ok_generations d Hd).
  - exact (ok_separate d Hd).
  - intros k' f r Hr. destruct (ok_terminal d Hd _ _ _ Hr) as [? Hc]. split; [done|].
    destruct Hc as [(a & Ha & Haf & Hn)|Hg]; [|by right]. left. exists a. simpl.
    rewrite lookup_delete_ne; [done|]. intros ->.
    destruct (ok_attempts d Hd _ _ Ha) as (i' & ? & ? & _). simpl in Hr. congruence.
  - exact (ok_digest d Hd).
  - intros k' Hne i' Hi' Hcm. destruct (Ho k' Hne i' Hi' Hcm) as [Ha|Hg]; [left|by right].
    simpl. by rewrite lookup_delete_ne.
Qed.

Lemma drop_generation_open k fp d :
  open_ok k d -> terminal d !! (k, fp) = None ->
  open_ok k (set_generations (delete (k, fp) (generations d)) d).
Proof.
  intros [Hd Ho] Ht. split; [split|].
  - exact (ok_attempts d Hd).
  - intros k' f c. simpl. intros [_ Hc]%lookup_delete_Some. by apply (ok_generations d Hd _ f).
  - intros k' i Hi. simpl. apply lookup_delete_None. right. by apply (ok_separate d Hd).
  - intros k' f r Hr. destruct (ok_terminal d Hd _ _ _ Hr) as [? Hc]. split; [done|].
    destruct Hc as [Ha|(c & Hc & Hn)]; [by left|right]. exists c. simpl.
    rewrite lookup_delete_ne; [done|]. intros Heq. simplify_eq. simpl in Hr. congruence.
  - exact (ok_digest d Hd).
  - intros k' Hne i' Hi' Hcm. destruct (Ho k' Hne i' Hi' Hcm) as [Ha|[f Hg]]; [by left|right].
    exists f. simpl. rewrite lookup_delete_ne; [done|]. congruence.
Qed.

Lemma drop_terminal_ok g d : db_ok d -> db_ok (set_terminal (delete g (terminal d)) d).
Proof.
  intros Hd. apply set_terminal_ok; [done|]. intros k f r [_ Hr]%lookup_delete_Some.
  by apply (ok_terminal d (proj1 Hd)).
Qed.

Lemma spec_ForgetAttempt_ok key fp d w :
  db_ok d -> db_ok (op_db (spec_ForgetAttempt key fp d w)).
Proof.
  intros Hd. unfold spec_ForgetAttempt.
  destruct (inbox d !! key_id key) as [r|] eqn:Hr; [|done].
  destruct (String.eqb_spec (i_fingerprint r) fp) as [Hf|]; simpl; [|done].
  destruct (i_completed_at r); [done|]. simpl.
  set (g := (key_id key, AttemptFingerprint key fp)).
  set (d1 := set_terminal (delete g (terminal d)) d).
  assert (open_ok (key_id key) (drop_counter key fp d1)) as Ho.
  { pose proof (db_ok_open (key_id key) _ (drop_terminal_ok g d Hd)) as Ho1.
    assert (terminal d1 !! g = None) as Ht by apply lookup_delete_eq.
    unfold drop_counter. destruct (legacy key) eqn:Hl.
    - eapply drop_attempt_open; [done|by exists r|]. unfold g in Ht.
      by rewrite (legacy_fingerprint key _ Hl) in Ht.
    - by apply drop_generation_open. }
  destruct (sql_hasAttempts _ _) eqn:Hh.
  - apply (open_ok_close (key_id key)); [done|]. intros i _ _. by apply hasAttempts_tracked.
  - apply delete_identity_ok; [done|]. rewrite <- hasAttempts_tracked. congruence.
Qed.

Lemma spec_Confirm_ok key fp d w : db_ok d -> db_ok (op_db (spec_Confirm key fp d w)).
Proof.
  intros Hd. unfold spec_Confirm. destruct (tick w) as [t w1].
  destruct (inbox d !! key_id key) as [r|]; [|done].
  destruct (negb _); [done|]. destruct (terminal d !! _) as [row|] eqn:Hrow; [|done]. simpl.
  apply set_terminal_ok; [done|]. intros k f r'.
  intros [[Heq <-]|[_ Hr]]%lookup_insert_Some; [|by apply (ok_terminal d (proj1 Hd))].
  simplify_eq. destruct (ok_terminal d (proj1 Hd) _ _ _ Hrow) as [Hchk ?]. split; [|done].
  exact Hchk.
Qed.

Lemma remove_identities_ok ks d : db_ok d -> db_ok (remove_identities ks d).
Proof.
  intros [Hd Hs]. split; [split|].
  - intros k r. simpl. intros [Hr Hk]%map_lookup_filter_Some.
    destruct (ok_attempts d Hd _ _ Hr) as (i & Hi & ?). exists i.
    by rewrite map_lookup_filter_Some.
  - intros k f c. simpl. intros [Hc Hk]%map_lookup_filter_Some.
    destruct (ok_generations d Hd _ _ _ Hc) as [[i Hi] ?]. split; [|done]. exists i.
    by rewrite map_lookup_filter_Some.
  - intros k i. simpl. intros [Hi Hk]%map_lookup_filter_Some.
    rewrite map_lookup_filter, (ok_separate d Hd _ _ Hi). done.
  - intros k f r. simpl. intros [Hr Hk]%map_lookup_filter_Some.
    destruct (ok_terminal d Hd _ _ _ Hr) as [? Hc]. split; [done|].
    destruct Hc as [(a & Ha & ?)|(c & Hc & ?)]; [left; exists a|right; exists c]; simpl;
      by rewrite map_lookup_filter_Some.
  - intros k i. simpl. intros [Hi _]%map_lookup_filter_Some. by apply (ok_digest d Hd k).
  - intros k i. simpl. intros [Hi Hk]%map_lookup_filter_Some Hn.
    destruct (Hs k i Hi Hn) as [[a Ha]|[f [c Hc]]]; [left; exists a|right; exists f, c]; simpl;
      by rewrite map_lookup_filter_Some.
Qed.

Lemma spec_Prune_ok collate before limit d w :
  db_ok d -> db_ok (op_db (spec_Prune collate before limit d w)).
Proof. apply remove_identities_ok. Qed.

Lemma deleteEmptyIdentity_ok k d :
  open_ok k d -> db_ok (sql_deleteEmptyIdentity k d).1.
Proof.
  intros Ho. unfold sql_deleteEmptyIdentity.
  destruct (sql_hasAttempts k d) eqn:Hh; simpl.
  { apply (open_ok_close k); [done|]. intros i _ _. by apply hasAttempts_tracked. }
  assert (~ tracked k d) as Hn by (rewrite <- hasAttempts_tracked; congruence).
  destruct (has_terminal k d) eqn:Ht; simpl.
  { exfalso. unfold has_terminal in Ht. bool_simpl. apply Ht. apply filter_nil_iff.
    intros [[k' f] r] Hin%elem_of_map_to_list. simpl. intros ->. apply Hn.
    destruct (ok_terminal d (proj1 Ho) _ _ _ Hin) as [_ [(a & ? & _)|(c & ? & _)]];
      [left|right]; eauto. }
  unfold sql_deleteIncompleteIdentity. destruct (inbox d !! k) as [i|] eqn:Hi; simpl.
  - destruct (i_completed_at i) eqn:Hc; simpl; [|by apply delete_identity_ok].
    apply (open_ok_close k); [done|]. intros i' Hi' Hc'. congruence.
  - apply (open_ok_close k); [done|]. intros i' Hi'. congruence.
Qed.

Lemma drop_generation_ok g d : db_ok d -> db_ok (drop_generation g d).
Proof.
  destruct g as [k fp]. intros Hd. unfold drop_generation.
  apply deleteEmptyIdentity_ok.
  pose proof (db_ok_open k _ (drop_terminal_ok (k, fp) d Hd)) as Ho.
  set (d1 := set_terminal _ d) in *.
  assert (terminal d1 !! (k, fp) = None) as Ht by apply lookup_delete_eq.
  assert (open_ok k (sql_deleteAttemptOf k fp d1).1 /\
          terminal (sql_deleteAttemptOf k fp d1).1 !! (k, fp) = None) as [Ho2 Ht2].
  { unfold sql_deleteAttemptOf. destruct (attempts d1 !! k) as [r|] eqn:Ha; [|done].
    destruct (String.eqb_spec (a_fingerprint r) fp) as [<-|]; simpl; [|done]. split; [|done].
    destruct (ok_attempts d1 (proj1 Ho) _ _ Ha) as (i & Hi & Hf & _).
    apply (drop_attempt_open k (a_fingerprint r) d1); [done|by exists i|done]. }
  by apply drop_generation_open.
Qed.

Lemma spec_prune_all_ok before gs n d : db_ok d -> db_ok (spec_prune_all before gs n d).1.
Proof.
  revert n d. induction gs as [|g gs IH]; intros n d Hd; simpl; [done|].
  unfold spec_prune_one. destruct (terminal d !! g) as [r|]; [|by apply IH].
  destruct (handoff_before before r && incomplete g.1 d); [|by apply IH].
  apply IH. by apply drop_generation_ok.
Qed.

Lemma spec_PruneTerminal_ok collate before limit d w :
  db_ok d -> db_ok (op_db (spec_PruneTerminal collate before limit d w)).
Proof.
  intros Hd. unfold spec_PruneTerminal.
  pose proof (spec_prune_all_ok before (sql_candidates collate before limit d) 0 d Hd).
  by destruct (spec_prune_all _ _ _ _).
Qed.
End Preservation.
