(* ===== verification/InboxRefine.v ===== *)
(** * Shared steps of the refinement proofs

    Undisturbed runs of the [terminalstate] functions and of the statements both
    backends use, in terms of the specification. *)
From S2P Require Import Prelude GoStrings Errors Ident Inbox InboxSQL TerminalState InboxSpec.
From S2P Require Import InboxProps.
Import Stdlib.Strings.String.
Open Scope string_scope.
Open Scope Z_scope.

Section Shared.
Context {B V : Type} `{Zero V}.
Implicit Types (d : DB B) (k : idkey) (key : Key) (fp : Fingerprint) (w : env).

(** ** Atomicity *)
Lemma atomic_each {A} (f : A -> TX B V unit) l : (forall a, atomic (f a)) -> atomic (tx_each f l).
Proof. intros Hf. induction l; simpl; [apply atomic_ret|]. by apply atomic_bind. Qed.

Lemma atomic_Record items t : atomic (Record_ (B := B) items t).
Proof. apply atomic_each. intros. apply atomic_stmt. Qed.
Lemma atomic_PreserveDeferred items t : atomic (PreserveDeferred (B := B) items t).
Proof. apply atomic_each. intros. apply atomic_each. intros. apply atomic_exec. Qed.
Lemma atomic_Confirm key fp t : atomic (Confirm (B := B) key fp t).
Proof. unfold Confirm. atomic_tac. Qed.
Lemma atomic_pruneCandidate before g : atomic (pruneCandidate (B := B) before g).
Proof. unfold pruneCandidate. destruct g. atomic_tac. Qed.
Lemma atomic_prune_all before gs n : atomic (prune_all (B := B) before gs n).
Proof.
  revert n. induction gs as [|g gs IH]; intros n; simpl; [apply atomic_ret|].
  apply atomic_bind; [apply atomic_pruneCandidate|auto].
Qed.

(** ** Map updates *)
Lemma alter_as_insert {K M A} `{FinMap K M} (f : A -> A) (m : M A) (i : K) (x : A) :
  m !! i = Some x -> alter f i m = <[i := f x]> m.
Proof.
  intros Hx. apply map_eq. intros j. destruct (decide (i = j)) as [<-|].
  - by rewrite lookup_alter_eq, lookup_insert_eq, Hx.
  - by rewrite lookup_alter_ne, lookup_insert_ne.
Qed.

Lemma alter_absent {K M A} `{FinMap K M} (f : A -> A) (m : M A) (i : K) :
  m !! i = None -> alter f i m = m.
Proof. intros Hn. by apply alter_id; intros x ?; congruence. Qed.

Lemma same_row d k fp r : rows_ok d -> identified k fp d -> attempts d !! k = Some r ->
  a_fingerprint r = fp.
Proof.
  intros Hd (i & Hi & Hf) Ha. destruct (ok_attempts d Hd _ _ Ha) as (i' & ? & ? & _). congruence.
Qed.

(** ** Statements on the counter of a key *)
Lemma increment_legacy key fp t d c :
  rows_ok d -> identified (key_id key) fp d -> legacy key = true -> counter_of key fp d = Some c ->
  (sql_incrementAttempt t (key_id key) d).1 = consume key fp t d.
Proof.
  intros Hd Hid Hl Hc. unfold consume, sql_incrementAttempt, set_counter. rewrite Hc.
  unfold counter_of in Hc. rewrite Hl in *.
  destruct (attempts d !! key_id key) as [r|] eqn:Ha; simplify_eq/=.
  rewrite (alter_as_insert _ _ _ r Ha), (same_row d _ _ r Hd Hid Ha). done.
Qed.

Lemma increment_generation key fp t d c :
  legacy key = false -> counter_of key fp d = Some c ->
  (sql_incrementAttemptGeneration t (key_id key) (AttemptFingerprint key fp) d).1 = consume key fp t d.
Proof.
  intros Hl Hc. unfold consume, sql_incrementAttemptGeneration, set_counter. rewrite Hc.
  unfold counter_of in Hc. rewrite Hl in *. simpl. by rewrite (alter_as_insert _ _ _ c Hc).
Qed.

Lemma insert_legacy key fp t d :
  legacy key = true -> counter_of key fp d = None ->
  sql_insertAttempt (key_id key) (AttemptFingerprint key fp) t d = Ok (consume key fp t d, tt).
Proof.
  intros Hl Hc. unfold consume, sql_insertAttempt, set_counter. rewrite Hc.
  unfold counter_of in Hc. rewrite Hl in *. rewrite (legacy_fingerprint key fp Hl).
  by destruct (attempts d !! key_id key).
Qed.

Lemma insert_generation key fp t d :
  legacy key = false -> counter_of key fp d = None ->
  sql_insertAttemptGeneration (key_id key) (AttemptFingerprint key fp) t d
  = Ok (consume key fp t d, tt).
Proof.
  intros Hl Hc. unfold consume, sql_insertAttemptGeneration, set_counter. rewrite Hc.
  unfold counter_of in Hc. rewrite Hl in *. by rewrite Hc.
Qed.

Lemma mark_legacy key fp t d :
  rows_ok d -> identified (key_id key) fp d -> legacy key = true ->
  (sql_markTerminal t (key_id key) d).1 = flag_permanent key fp t d.
Proof.
  intros Hd Hid Hl. unfold flag_permanent, sql_markTerminal, set_counter, counter_of. rewrite Hl.
  destruct (attempts d !! key_id key) as [r|] eqn:Ha; simpl.
  - rewrite (alter_as_insert _ _ _ r Ha), (same_row d _ _ r Hd Hid Ha). done.
  - rewrite alter_absent by done. by destruct d.
Qed.

Lemma mark_generation key fp t d :
  legacy key = false ->
  (sql_markTerminalGeneration t (key_id key) (AttemptFingerprint key fp) d).1
  = flag_permanent key fp t d.
Proof.
  intros Hl. unfold flag_permanent, sql_markTerminalGeneration, set_counter, counter_of. rewrite Hl.
  destruct (generations d !! _) as [c|] eqn:Hc; simpl.
  - by rewrite (alter_as_insert _ _ _ c Hc).
  - rewrite alter_absent by done. by destruct d.
Qed.

(** ** [Record] and [PreserveDeferred] of one outcome *)
Lemma Record_one key fp n kind delay dup err t d w :
  1 <= n -> kind = FailurePermanentKind \/ kind = FailureAttemptsExhausted ->
  Record_ (V := V) [{| o_Key := key; o_Fingerprint := fp; o_Outcome := BatchDLQ; o_Attempt := n;
                       o_Duplicate := dup; o_Delay := delay; o_FailureKind := kind; o_Err := err |}]
    t d (quiet w)
  = Cont (record_terminal key fp n kind t d) (quiet w) tt.
Proof.
  intros Hn Hk. unfold Record_. set (item := {| o_Key := key |}).
  assert (is_terminal item = true) as Hterm.
  { unfold is_terminal, item. simpl. by destruct Hk as [->| ->]. }
  assert (terminal_check (new_terminal item t) = true) as Hchk.
  { unfold terminal_check, item. simpl. rewrite (proj2 (Z.ltb_lt 0 n)) by lia.
    by destruct Hk as [->| ->]. }
  cbn [terminal_items]. rewrite Hterm, decide_False by set_solver.
  change (chunks_of chunkSize [item]) with [[item]]. cbn [tx_each].
  rewrite tx_bind_eq, stmt_quiet. cbn [sql_record]. rewrite Hchk. done.
Qed.

Lemma PreserveDeferred_one key fp n delay dup kind err t d w :
  (counter_of key fp d = None -> n = 0) ->
  PreserveDeferred (V := V) [{| o_Key := key; o_Fingerprint := fp; o_Outcome := BatchDefer;
                                o_Attempt := n; o_Duplicate := dup; o_Delay := delay;
                                o_FailureKind := kind; o_Err := err |}] t d (quiet w)
  = Cont (keep_deferred key fp t d) (quiet w) tt.
Proof.
  intros Hn. unfold PreserveDeferred. set (item := {| o_Key := key |}).
  assert (forall replay, deferred_items replay [item] =
    if (n =? 0) && Bool.eqb (negb (legacy key)) replay then [item] else []) as Hitems.
  { intros replay. unfold deferred_items. rewrite filter_cons. simpl.
    fold (legacy key). by destruct (n =? 0), (Bool.eqb (negb (legacy key)) replay). }
  cbn [tx_each]. rewrite !Hitems. unfold keep_deferred.
  destruct (Z.eqb_spec n 0) as [->|Hne]; simpl.
  - destruct (legacy key) eqn:Hl; simpl.
    + transitivity (Cont (V := V) (sql_preserve_item false t item d) (quiet w) tt); [reflexivity|].
      unfold sql_preserve_item, outcome_key, counter_of, set_counter. rewrite Hl. simpl.
      rewrite (legacy_fingerprint key fp Hl). by destruct (attempts d !! key_id key).
    + transitivity (Cont (V := V) (sql_preserve_item true t item d) (quiet w) tt); [reflexivity|].
      unfold sql_preserve_item, outcome_key, counter_of, set_counter. rewrite Hl. simpl.
      by destruct (generations d !! _).
  - destruct (counter_of key fp d); [done|]. by destruct Hne; auto.
Qed.

(** ** Retention *)
Lemma pruneCandidate_quiet before g d w :
  pruneCandidate (V := V) before g d (quiet w)
  = let '(d', n) := spec_prune_one before g d in Cont d' (quiet w) n.
Proof.
  destruct g as [k fp]. unfold pruneCandidate, spec_prune_one, incomplete. simpl.
  tx_step. unfold sql_readIdentity.
  destruct (inbox d !! k) as [i|] eqn:Hi; simpl.
  2:{ destruct (terminal d !! (k, fp)); [|done]. by rewrite andb_false_r. }
  destruct (i_completed_at i) eqn:Hc; simpl.
  { destruct (terminal d !! (k, fp)); [|done]. by rewrite andb_false_r. }
  tx_step. unfold sql_pruneTerminalRow.
  destruct (terminal d !! (k, fp)) as [r|]; [|done].
  rewrite andb_true_r. destruct (handoff_before before r); [|done]. cbn [fst snd Z.eqb].
  do 3 tx_step. unfold drop_generation. done.
Qed.

Lemma prune_all_quiet before gs n d w :
  prune_all (V := V) before gs n d (quiet w)
  = let '(d', m) := spec_prune_all before gs n d in Cont d' (quiet w) m.
Proof.
  revert n d. induction gs as [|g gs IH]; intros n d; [done|].
  cbn [prune_all spec_prune_all]. rewrite tx_bind_eq, pruneCandidate_quiet.
  destruct (spec_prune_one before g d). apply IH.
Qed.

Lemma Confirm_quiet key fp t d w :
  Confirm (V := V) key fp t d (quiet w)
  = match inbox d !! key_id key with
    | None => Done None (quiet w) zero (Some (ESentinel ErrTerminalStateMissing))
    | Some r =>
        if negb (String.eqb (i_fingerprint r) fp)
        then Done None (quiet w) zero (Some (ESentinel ErrFingerprintConflict))
        else match terminal d !! (key_id key, AttemptFingerprint key fp) with
             | None => Done None (quiet w) zero (Some (ESentinel ErrTerminalStateMissing))
             | Some row => Cont (set_terminal (<[(key_id key, AttemptFingerprint key fp) :=
                                   confirm_row t row]> (terminal d)) d) (quiet w) tt
             end
    end.
Proof.
  unfold Confirm. tx_step. unfold sql_readIdentity.
  destruct (inbox d !! key_id key) as [i|]; [|done]. cbn [option_map].
  destruct (String.eqb (i_fingerprint i) fp); [|done]. cbn [negb].
  tx_step. unfold sql_confirm. cbn [fst snd].
  destruct (terminal d !! _) as [row|] eqn:Hr.
  - rewrite decide_True by eauto. cbn. unfold tx_ret. by rewrite (alter_as_insert _ _ _ row Hr).
  - rewrite decide_False; [done|]. by intros [? ?].
Qed.
End Shared.
#[export] Hint Resolve atomic_Record atomic_PreserveDeferred atomic_Confirm atomic_prune_all : go.
