(* ===== verification/InboxEffects.v ===== *)
(** * What one Inbox operation does

    Effects of the specified operations on the business tables, the completed
    identities, the counters and the terminal rows: the lemmas behind the
    theorems of [InboxStore.v]. *)
From S2P Require Import Prelude GoStrings Errors Ident Inbox InboxSQL TerminalState InboxSpec.
From S2P Require Import InboxProps.
Import Stdlib.Strings.String.
Open Scope string_scope.
Open Scope Z_scope.

Section Effects.
Context {B : Type}.
Implicit Types (d : DB B) (k : idkey) (key : Key) (fp : Fingerprint) (w : env).

Definition completed k d : bool :=
  match inbox d !! k with
  | Some i => match i_completed_at i with Some _ => true | None => false end
  | None => false
  end.

(** Nothing a business observer can see has changed. *)
Definition kept d d' : Prop :=
  business d' = business d /\ forall k, completed k d' = completed k d.

(** The handler's writes and the completion of [k] arrived together. *)
Definition applied k (h : Handler B) d d' : Prop :=
  completed k d = false /\ completed k d' = true /\
  (forall k', k' <> k -> completed k' d' = completed k' d) /\
  h (business d) = (business d', None).

Lemma kept_refl d : kept d d.
Proof. by split. Qed.

Lemma kept_same d d' : business d' = business d -> inbox d' = inbox d -> kept d d'.
Proof. intros Hb Hi. split; [done|]. intros k. unfold completed. by rewrite Hi. Qed.

Lemma kept_trans d1 d2 d3 : kept d1 d2 -> kept d2 d3 -> kept d1 d3.
Proof. intros [H1 H2] [H3 H4]. split; [congruence|]. intros k. by rewrite H4. Qed.

Lemma kept_new_identity k fp t d : inbox d !! k = None -> kept d (new_identity k fp t d).
Proof.
  intros Hn. split; [done|]. intros k'. unfold completed. simpl.
  destruct (decide (k' = k)) as [->|]; [by rewrite lookup_insert_eq, Hn|by rewrite lookup_insert_ne].
Qed.

Lemma consume_same key fp t d :
  inbox (consume key fp t d) = inbox d /\ terminal (consume key fp t d) = terminal d /\
  business (consume key fp t d) = business d.
Proof. unfold consume. by rewrite inbox_set_counter, terminal_set_counter, business_set_counter. Qed.

Lemma flag_same key fp t d :
  inbox (flag_permanent key fp t d) = inbox d /\ terminal (flag_permanent key fp t d) = terminal d /\
  business (flag_permanent key fp t d) = business d.
Proof.
  unfold flag_permanent. destruct (counter_of key fp d); [|done].
  by rewrite inbox_set_counter, terminal_set_counter, business_set_counter.
Qed.

Lemma keep_deferred_same key fp t d :
  inbox (keep_deferred key fp t d) = inbox d /\ terminal (keep_deferred key fp t d) = terminal d /\
  business (keep_deferred key fp t d) = business d.
Proof.
  unfold keep_deferred. destruct (counter_of key fp d); [done|].
  by rewrite inbox_set_counter, terminal_set_counter, business_set_counter.
Qed.

(** ** A failed attempt *)
Lemma spec_failed_same key fp n maxAttempts e d w :
  let r := spec_failed key fp n maxAttempts e d w in
  inbox (op_db r) = inbox d /\ business (op_db r) = business d /\
  op_err r = Some e /\ r_Duplicate (op_value r) = false.
Proof.
  unfold spec_failed. destruct (is_defer e).
  { destruct (tick w) as [t w1]. simpl. by destruct (keep_deferred_same key fp t d) as (-> & _ & ->). }
  destruct (tick w) as [t w1]. destruct (consume_same key fp t d) as (Hi & _ & Hb).
  destruct (IsPermanent (Some e)); [|destruct (maxAttempts <=? n); ticks; by split_and!].
  destruct (tick w1) as [t2 w2]. destruct (flag_same key fp t2 (consume key fp t d)) as (Hi2 & _ & Hb2).
  ticks. split_and!; congruence.
Qed.

Lemma completed_complete k t d :
  completed k (complete_identity k t d) = bool_decide (is_Some (inbox d !! k)) /\
  forall k', k' <> k -> completed k' (complete_identity k t d) = completed k' d.
Proof.
  unfold completed. simpl. split.
  - rewrite lookup_alter_eq. by destruct (inbox d !! k).
  - intros k' Hne. by rewrite lookup_alter_ne.
Qed.

(** ** One delivery *)
Lemma spec_handle_effect key fp n maxAttempts (h : Handler B) d0 d w :
  kept d0 d -> is_Some (inbox d !! key_id key) -> completed (key_id key) d = false ->
  let r := spec_handle key fp n maxAttempts h d w in
  (exists e, (h (business d)).2 = Some e /\ kept d0 (op_db r) /\ op_err r = Some e /\
     r_Duplicate (op_value r) = false) \/
  (applied (key_id key) h d0 (op_db r) /\ op_err r = None /\ r_Duplicate (op_value r) = false).
Proof.
  intros Hk Hid Hc. unfold spec_handle. destruct (h (business d)) as [b [e|]] eqn:Hh.
  - left. exists e. destruct (spec_failed_same key fp n maxAttempts e d (called w)) as (Hi & Hb & He & Hd).
    split_and!; [done| |done|done]. eapply kept_trans; [done|]. by apply kept_same.
  - right. destruct (tick (called w)) as [t1 w1], (tick w1) as [t2 w2]. simpl.
    split_and!; [|done|done].
    destruct (consume_same key fp t1 (set_business b d)) as (Hi & _ & Hb).
    destruct (completed_complete (key_id key) t2 (consume key fp t1 (set_business b d))) as [Hself Hoth].
    destruct Hk as [Hkb Hkc]. split_and!.
    + by rewrite <- Hkc.
    + rewrite Hself, Hi. by rewrite bool_decide_eq_true_2.
    + intros k' Hne. rewrite Hoth by done. unfold completed. rewrite Hi.
      change (completed k' d = completed k' d0). by rewrite Hkc.
    + rewrite <- Hkb, Hh. simpl. by rewrite Hb.
Qed.

(** A delivery leaves the observer's view alone (and then either failed or was
    a duplicate of a completed message), or applies the handler once. *)
Lemma spec_ProcessAttempt_effect key fp maxAttempts h d w :
  let r := spec_ProcessAttempt key fp maxAttempts h d w in
  (kept d (op_db r) /\
    (is_Some (op_err r) \/
     (completed (key_id key) d = true /\ op_db r = d /\ r_Duplicate (op_value r) = true))) \/
  (applied (key_id key) h d (op_db r) /\ op_err r = None /\ r_Duplicate (op_value r) = false).
Proof.
  unfold spec_ProcessAttempt. destruct (tick w) as [t w1].
  destruct (inbox d !! key_id key) as [i|] eqn:Hi.
  - destruct (String.eqb (i_fingerprint i) fp); simpl; [|left; eauto using kept_refl].
    destruct (i_completed_at i) eqn:Hcm.
    { left. split; [apply kept_refl|right]. split_and!; [|done..]. unfold completed. by rewrite Hi, Hcm. }
    assert (completed (key_id key) d = false) as Hc by (unfold completed; by rewrite Hi, Hcm).
    assert (forall n, let r := spec_handle key fp n maxAttempts h d w1 in
      (kept d (op_db r) /\ (is_Some (op_err r) \/
        (completed (key_id key) d = true /\ op_db r = d /\ r_Duplicate (op_value r) = true))) \/
      (applied (key_id key) h d (op_db r) /\ op_err r = None /\ r_Duplicate (op_value r) = false)) as Hh.
    { intros n. destruct (spec_handle_effect key fp n maxAttempts h d d w1 (kept_refl d)) as
        [(e & _ & ? & He & _)|?]; [by rewrite Hi|done| |by right].
      left. split; [done|left]. rewrite He. eauto. }
    unfold spec_pending. destruct (state_of key fp d) as [[[n flag] kind]|]; [|apply Hh].
    destruct (flag || _); [|destruct ((maxAttempts <=? n) || _); [|apply Hh]];
      left; unfold spec_closed; ticks; eauto using kept_same.
  - destruct (spec_handle_effect key fp 1 maxAttempts h d (new_identity (key_id key) fp t d) w1)
      as [(e & _ & ? & He & _)|?].
    + by apply kept_new_identity.
    + simpl. rewrite lookup_insert_eq. eauto.
    + unfold completed. simpl. by rewrite lookup_insert_eq.
    + left. split; [done|left]. rewrite He. eauto.
    + by right.
Qed.

Lemma spec_Process_effect key fp h d w :
  let r := spec_Process key fp h d w in
  (op_db r = d /\ (is_Some (op_err r) \/
     (completed (key_id key) d = true /\ r_Duplicate (op_value r) = true))) \/
  (applied (key_id key) h d (op_db r) /\ op_err r = None /\ r_Duplicate (op_value r) = false).
Proof.
  unfold spec_Process. destruct (tick w) as [t w1].
  assert (forall d1, kept d d1 -> is_Some (inbox d1 !! key_id key) -> completed (key_id key) d1 = false ->
    let r := spec_handle_once key h d d1 w1 in
    (op_db r = d /\ is_Some (op_err r)) \/
    (applied (key_id key) h d (op_db r) /\ op_err r = None /\ r_Duplicate (op_value r) = false)) as Hh.
  { intros d1 [Hkb Hkc] Hid Hc. unfold spec_handle_once.
    destruct (h (business d1)) as [b [e|]] eqn:Hb; [left; simpl; eauto|right].
    destruct (tick (called w1)) as [t2 w2]. simpl. split_and!; [|done..].
    destruct (completed_complete (key_id key) t2 (set_business b d1)) as [Hself Hoth].
    split_and!; [by rewrite <- Hkc| | |by rewrite <- Hkb].
    - rewrite Hself. by rewrite bool_decide_eq_true_2.
    - intros k' Hne. rewrite Hoth by done. exact (Hkc k'). }
  destruct (inbox d !! key_id key) as [i|] eqn:Hi.
  - destruct (String.eqb (i_fingerprint i) fp); simpl; [|left; eauto].
    destruct (i_completed_at i) eqn:Hcm.
    { left. split; [done|right]. unfold completed. by rewrite Hi, Hcm. }
    destruct (0 <? _); [left; simpl; split; [done|left]; case_match; eauto|].
    destruct (Hh d) as [[? ?]|?]; [apply kept_refl|by rewrite Hi| | |by right].
    + unfold completed. by rewrite Hi, Hcm.
    + left. eauto.
  - destruct (Hh (new_identity (key_id key) fp t d)) as [[? ?]|?].
    + by apply kept_new_identity.
    + simpl. rewrite lookup_insert_eq. eauto.
    + unfold completed. simpl. by rewrite lookup_insert_eq.
    + left. eauto.
    + by right.
Qed.

(** ** Operations that deliver nothing *)
Lemma kept_delete_incomplete k d : completed k d = false -> kept d (set_inbox (delete k (inbox d)) d).
Proof.
  intros Hc. split; [done|]. intros k'. unfold completed in *. simpl.
  destruct (decide (k' = k)) as [->|]; [by rewrite lookup_delete_eq, Hc|by rewrite lookup_delete_ne].
Qed.

Lemma drop_counter_same key fp d :
  inbox (drop_counter key fp d) = inbox d /\ business (drop_counter key fp d) = business d.
Proof. unfold drop_counter. by destruct (legacy key). Qed.

Lemma spec_ForgetAttempt_kept key fp d w : kept d (op_db (spec_ForgetAttempt key fp d w)).
Proof.
  unfold spec_ForgetAttempt. destruct (inbox d !! key_id key) as [i|] eqn:Hi; [|apply kept_refl].
  destruct (negb _); [apply kept_refl|]. destruct (i_completed_at i) eqn:Hc; [apply kept_refl|]. simpl.
  set (d1 := drop_counter key fp _).
  destruct (drop_counter_same key fp
    (set_terminal (delete (key_id key, AttemptFingerprint key fp) (terminal d)) d)) as [H1 H2].
  assert (kept d d1) as Hk by (apply kept_same; [exact H2|exact H1]).
  destruct (sql_hasAttempts _ _); [done|]. eapply kept_trans; [done|]. apply kept_delete_incomplete.
  destruct Hk as [_ ->]. unfold completed. by rewrite Hi, Hc.
Qed.

Lemma spec_Confirm_kept key fp d w : kept d (op_db (spec_Confirm key fp d w)).
Proof.
  unfold spec_Confirm. destruct (tick w). destruct (inbox d !! _); [|apply kept_refl].
  destruct (negb _); [apply kept_refl|]. destruct (terminal d !! _); apply kept_same; done.
Qed.

Lemma deleteEmptyIdentity_kept k d : kept d (sql_deleteEmptyIdentity k d).1.
Proof.
  unfold sql_deleteEmptyIdentity, sql_deleteIncompleteIdentity.
  destruct (_ || _); [apply kept_refl|]. destruct (inbox d !! k) as [i|] eqn:Hi; [|apply kept_refl].
  destruct (i_completed_at i) eqn:Hc; [apply kept_refl|]. apply kept_delete_incomplete.
  unfold completed. by rewrite Hi, Hc.
Qed.

Lemma drop_generation_kept g d : kept d (drop_generation g d).
Proof.
  destruct g as [k fp]. unfold drop_generation. eapply kept_trans; [|apply deleteEmptyIdentity_kept].
  apply kept_same; simpl; unfold sql_deleteAttemptOf; simpl;
    (destruct (attempts d !! k) as [r|]; [|done]); by destruct (String.eqb _ _).
Qed.

Lemma spec_prune_all_kept before gs n d : kept d (spec_prune_all before gs n d).1.
Proof.
  revert n d. induction gs as [|g gs IH]; intros n d; simpl; [apply kept_refl|].
  unfold spec_prune_one. destruct (terminal d !! g) as [r|]; [|apply IH].
  destruct (_ && _); [|apply IH]. eapply kept_trans; [apply drop_generation_kept|apply IH].
Qed.

Lemma spec_PruneTerminal_kept collate before limit d w :
  kept d (op_db (spec_PruneTerminal collate before limit d w)).
Proof.
  unfold spec_PruneTerminal.
  pose proof (spec_prune_all_kept before (sql_candidates collate before limit d) 0 d).
  by destruct (spec_prune_all _ _ _ _).
Qed.
End Effects.
