(* ===== verification/InboxClosed.v ===== *)
(** * Closed generations and attempt counters

    What deliveries and confirmations never undo: counters do not decrease,
    permanent flags and terminal rows stay; so a generation that was closed
    remains closed, and a closed generation never reaches the handler. *)
From S2P Require Import Prelude GoStrings Errors Ident Inbox InboxSQL TerminalState InboxSpec.
From S2P Require Import InboxProps InboxEffects.
Import Stdlib.Strings.String.
Open Scope string_scope.
Open Scope Z_scope.

Definition counter_le (c c' : counterRow) : Prop :=
  c_attempts c <= c_attempts c' /\ (c_terminal c = true -> c_terminal c' = true).

Section Persist.
Context {B : Type}.
Implicit Types (d : DB B) (k : idkey) (key : Key) (fp : Fingerprint) (w : env).

Record persist d d' : Prop := {
  p_attempts k r : attempts d !! k = Some r ->
    exists r', attempts d' !! k = Some r' /\ a_fingerprint r' = a_fingerprint r /\
      counter_le (a_counter r) (a_counter r');
  p_generations g c : generations d !! g = Some c ->
    exists c', generations d' !! g = Some c' /\ counter_le c c';
  p_terminal g r : terminal d !! g = Some r ->
    exists r', terminal d' !! g = Some r' /\ t_failure_kind r' = t_failure_kind r /\
      t_attempts r' = t_attempts r /\ t_terminal_at r' = t_terminal_at r }.

#[global] Instance counter_le_preorder : PreOrder counter_le.
Proof.
  split; [intros c; split; [lia|done]|].
  intros c1 c2 c3 [? ?] [? ?]. split; [lia|auto].
Qed.

#[global] Instance persist_preorder : PreOrder persist.
Proof.
  split.
  - intros d. split; [intros k r ?; exists r|intros g c ?; exists c|intros g r ?; exists r];
      split_and!; done.
  - intros d1 d2 d3 [A1 G1 T1] [A2 G2 T2]. split.
    + intros k r Hr. destruct (A1 k r Hr) as (r2 & Hr2 & Hf2 & Hc2).
      destruct (A2 k r2 Hr2) as (r3 & Hr3 & Hf3 & Hc3). exists r3.
      split_and!; [done|congruence|by etrans].
    + intros g c Hc. destruct (G1 g c Hc) as (c2 & Hc2 & ?). destruct (G2 g c2 Hc2) as (c3 & ? & ?).
      exists c3. split; [done|by etrans].
    + intros g r Hr. destruct (T1 g r Hr) as (r2 & Hr2 & ? & ? & ?).
      destruct (T2 g r2 Hr2) as (r3 & ? & ? & ? & ?). exists r3. split_and!; congruence.
Qed.

Lemma persist_same d d' :
  attempts d' = attempts d -> generations d' = generations d -> terminal d' = terminal d -> persist d d'.
Proof.
  intros Ha Hg Ht. split; rewrite ?Ha, ?Hg, ?Ht; intros x y Hx; exists y; split_and!; done.
Qed.

Lemma persist_set_counter key fp c d :
  rows_ok d -> identified (key_id key) fp d ->
  (forall c0, counter_of key fp d = Some c0 -> counter_le c0 c) -> persist d (set_counter key fp c d).
Proof.
  intros Hd (i & Hi & Hf) Hle. unfold set_counter, counter_of in *. destruct (legacy key); split; simpl.
  - intros k r Hr. destruct (decide (k = key_id key)) as [->|].
    + eexists. rewrite lookup_insert_eq. split_and!; [done|simpl|apply Hle; by rewrite Hr].
      destruct (ok_attempts d Hd _ _ Hr) as (i' & ? & ? & _). congruence.
    + exists r. by rewrite lookup_insert_ne.
  - intros g c0 Hg. by exists c0.
  - intros g r Hr. by exists r.
  - intros k r Hr. by exists r.
  - intros g c0 Hg. destruct (decide (g = (key_id key, AttemptFingerprint key fp))) as [->|].
    + exists c. rewrite lookup_insert_eq. auto.
    + exists c0. by rewrite lookup_insert_ne.
  - intros g r Hr. by exists r.
Qed.

Lemma persist_consume key fp t d :
  rows_ok d -> identified (key_id key) fp d -> persist d (consume key fp t d).
Proof.
  intros Hd Hid. apply persist_set_counter; [done..|]. intros c0 ->. split; simpl; [lia|done].
Qed.

Lemma persist_keep_deferred key fp t d :
  rows_ok d -> identified (key_id key) fp d -> persist d (keep_deferred key fp t d).
Proof.
  intros Hd Hid. unfold keep_deferred. destruct (counter_of key fp d) eqn:Hc; [reflexivity|].
  apply persist_set_counter; [done..|]. congruence.
Qed.

Lemma persist_flag key fp t d :
  rows_ok d -> identified (key_id key) fp d -> persist d (flag_permanent key fp t d).
Proof.
  intros Hd Hid. unfold flag_permanent. destruct (counter_of key fp d) as [c|] eqn:Hc; [|reflexivity].
  apply persist_set_counter; [done..|]. intros c0 ?. simplify_eq. by split; simpl.
Qed.

Lemma persist_terminal_row g f (d : DB B) :
  (forall r, terminal d !! g = Some r -> t_failure_kind (f (Some r)) = t_failure_kind r /\
     t_attempts (f (Some r)) = t_attempts r /\ t_terminal_at (f (Some r)) = t_terminal_at r) ->
  persist d (set_terminal (<[g := f (terminal d !! g)]> (terminal d)) d).
Proof.
  intros Hf. split; [intros k r ?; by exists r|intros g' c ?; by exists c|].
  intros g' r Hr. simpl. destruct (decide (g' = g)) as [->|].
  - rewrite lookup_insert_eq, Hr. eexists. split; [done|]. by apply Hf.
  - rewrite lookup_insert_ne by done. by exists r.
Qed.

Lemma persist_record key fp n kind t d : persist d (record_terminal key fp n kind t d).
Proof.
  apply (persist_terminal_row _ (fun o => match o with
    | Some old => reset_handoff old
    | None => {| t_attempts := n; t_failure_kind := kind; t_terminal_at := t;
                 t_handoff_confirmed_at := None |} end)). done.
Qed.

(** ** Every delivery and confirmation *)
Lemma spec_failed_persist key fp n maxAttempts e d w :
  open_ok (key_id key) d -> identified (key_id key) fp d -> collision_free key fp ->
  persist d (op_db (spec_failed key fp n maxAttempts e d w)).
Proof.
  intros Ho Hid Hcf. pose proof (proj1 Ho) as Hd. unfold spec_failed. destruct (is_defer e).
  { ticks. by apply persist_keep_deferred. }
  destruct (tick w) as [t w1].
  assert (persist d (consume key fp t d)) as Hp by by apply persist_consume.
  destruct (consume_ok key fp t d Ho Hid Hcf) as [[Hd1 _] _].
  pose proof (identified_consume key fp t d Hid) as Hid1.
  destruct (IsPermanent (Some e)); [|destruct (maxAttempts <=? n)]; ticks; [| |done];
    (etrans; [exact Hp|]); [etrans; [by apply persist_flag|]|]; apply persist_record.
Qed.

Lemma spec_handle_persist key fp n maxAttempts h d w :
  open_ok (key_id key) d -> identified (key_id key) fp d -> collision_free key fp ->
  persist d (op_db (spec_handle key fp n maxAttempts h d w)).
Proof.
  intros Ho Hid Hcf. unfold spec_handle. destruct (h (business d)) as [b [e|]].
  { by apply spec_failed_persist. }
  ticks. etrans; [apply (persist_same d (set_business b d)); done|].
  etrans; [by apply persist_consume; [apply (set_business_open (key_id key))|]|]. by apply persist_same.
Qed.

Lemma spec_ProcessAttempt_persist key fp maxAttempts h d w :
  db_ok d -> Fingerprint_wf fp -> collision_free key fp ->
  persist d (op_db (spec_ProcessAttempt key fp maxAttempts h d w)).
Proof.
  intros Hd Hwf Hcf. unfold spec_ProcessAttempt. destruct (tick w) as [t w1].
  destruct (inbox d !! key_id key) as [i|] eqn:Hi.
  - destruct (String.eqb_spec (i_fingerprint i) fp) as [Hf|]; simpl; [|reflexivity].
    destruct (i_completed_at i); [reflexivity|].
    assert (identified (key_id key) fp d) as Hid by by exists i.
    pose proof (db_ok_open (key_id key) d Hd) as Ho. unfold spec_pending.
    destruct (state_of key fp d) as [[[n flag] kind]|]; [|by apply spec_handle_persist].
    destruct (flag || _); [|destruct ((maxAttempts <=? n) || _); [|by apply spec_handle_persist]];
      unfold spec_closed; ticks; apply persist_record.
  - destruct (new_identity_open (key_id key) fp t d Hd Hi Hwf).
    etrans; [|by apply spec_handle_persist]. by apply persist_same.
Qed.

Lemma spec_Process_persist key fp h d w : persist d (op_db (spec_Process key fp h d w)).
Proof.
  unfold spec_Process. destruct (tick w) as [t w1].
  assert (forall d1, attempts d1 = attempts d -> generations d1 = generations d ->
    terminal d1 = terminal d -> persist d (op_db (spec_handle_once key h d d1 w1))) as Hh.
  { intros d1 Ha Hg Ht. unfold spec_handle_once. destruct (h (business d1)) as [b [e|]]; [reflexivity|].
    ticks. by apply persist_same. }
  destruct (inbox d !! key_id key) as [i|]; [|by apply Hh].
  destruct (negb _); [reflexivity|]. destruct (i_completed_at i); [reflexivity|].
  destruct (sql_inspectAttempts _ _) as [flag count].
  destruct (0 <? count); [reflexivity|by apply Hh].
Qed.

Lemma spec_Confirm_persist key fp d w : persist d (op_db (spec_Confirm key fp d w)).
Proof.
  unfold spec_Confirm. destruct (tick w) as [t w1]. destruct (inbox d !! _); [|reflexivity].
  destruct (negb _); [reflexivity|]. destruct (terminal d !! _) as [row|] eqn:Hr; [|reflexivity]. simpl.
  pose proof (persist_terminal_row (key_id key, AttemptFingerprint key fp)
    (fun o => match o with Some old => confirm_row t old | None => row end) d) as Hp.
  rewrite Hr in Hp. apply Hp. done.
Qed.

(** ** Closed generations *)
Definition closed key fp d : bool :=
  match state_of key fp d with
  | Some (_, flag, kind) => flag || negb (String.eqb kind "")
  | None => false
  end.

Lemma closed_kind_persist k f d d' : rows_ok d -> persist d d' ->
  closed_kind k f d <> "" -> closed_kind k f d' = closed_kind k f d.
Proof.
  intros Hd Hp. unfold closed_kind. destruct (terminal d !! (k, f)) as [r|] eqn:Hr; [|done].
  destruct (p_terminal _ _ Hp _ _ Hr) as (r' & -> & -> & _). done.
Qed.

Lemma closed_persist key fp d d' : rows_ok d -> persist d d' ->
  closed key fp d = true -> closed key fp d' = true.
Proof.
  intros Hd Hp. unfold closed, state_of, sql_readAttempt, sql_readAttemptGeneration.
  assert (forall k f c c', counter_le c c' ->
    c_terminal c || negb (String.eqb (closed_kind k f d) "") = true ->
    c_terminal c' || negb (String.eqb (closed_kind k f d') "") = true) as Hstep.
  { intros k f c c' [_ Hflag] Hor. apply orb_true_iff in Hor as [Ht|Hk]; [by rewrite Hflag|].
    destruct (String.eqb_spec (closed_kind k f d) "") as [|Hne]; [done|].
    rewrite (closed_kind_persist k f d d') by done.
    destruct (String.eqb_spec (closed_kind k f d) ""); [done|]. by rewrite orb_true_r. }
  destruct (legacy key).
  - destruct (attempts d !! key_id key) as [r|] eqn:Ha; [|done].
    destruct (p_attempts _ _ Hp _ _ Ha) as (r' & -> & Hf & Hc). simpl. rewrite Hf. by apply Hstep.
  - destruct (generations d !! _) as [c|] eqn:Hg; [|done].
    destruct (p_generations _ _ Hp _ _ Hg) as (c' & -> & Hc). simpl. by apply Hstep.
Qed.

(** The kinds a terminal row can have. *)
Lemma state_kind key fp d n flag kind : rows_ok d -> state_of key fp d = Some (n, flag, kind) ->
  kind = "" \/ kind = FailurePermanentKind \/ kind = FailureAttemptsExhausted.
Proof.
  intros Hd. rewrite state_of_counter. destruct (counter_of key fp d); [|done].
  intros Heq. simplify_eq. unfold closed_kind.
  destruct (terminal d !! _) as [r|] eqn:Hr; [right|by left].
  destruct (ok_terminal d Hd _ _ _ Hr) as [Hchk _]. unfold terminal_check in Hchk. bool_simpl.
  rewrite orb_true_iff, !String.eqb_eq in *. tauto.
Qed.

(** A closed generation never reaches the handler. *)
Lemma spec_closed_no_call key fp maxAttempts h d w :
  db_ok d -> closed key fp d = true ->
  let r := spec_ProcessAttempt key fp maxAttempts h d w in
  e_handlerCalls (op_env r) = e_handlerCalls w /\ kept d (op_db r) /\
  (completed (key_id key) d = false -> is_Some (op_err r)).
Proof.
  intros Hd Hcl. assert (forall w, e_handlerCalls (tick w).2 = e_handlerCalls w) as Htick.
  { intros w'. unfold tick. by destruct (e_times w'). }
  unfold spec_ProcessAttempt, closed in *.
  pose proof (Htick w) as Hw. destruct (tick w) as [t w1]. simpl in Hw.
  destruct (state_of key fp d) as [[[n flag] kind]|] eqn:Hs; [|done].
  destruct (inbox d !! key_id key) as [i|] eqn:Hi.
  - destruct (negb (String.eqb (i_fingerprint i) fp)); [simpl; split_and!; [done|apply kept_refl|by eauto]|].
    destruct (i_completed_at i) eqn:Hc.
    { simpl. split_and!; [done|apply kept_refl|]. unfold completed. by rewrite Hi, Hc. }
    unfold spec_pending. rewrite Hs.
    assert (forall p, let r := spec_closed key fp n p d w1 in
      e_handlerCalls (op_env r) = e_handlerCalls w /\ kept d (op_db r) /\
      (completed (key_id key) d = false -> is_Some (op_err r))) as Hclosed.
    { intros p. unfold spec_closed. pose proof (Htick w1). destruct (tick w1) as [t2 w2]. simpl in *.
      split_and!; [congruence|by apply kept_same|]. intros _. destruct p; simpl; eauto. }
    destruct (flag || String.eqb kind FailurePermanentKind) eqn:Hp; [apply Hclosed|].
    destruct ((maxAttempts <=? n) || String.eqb kind FailureAttemptsExhausted) eqn:Hx; [apply Hclosed|].
    exfalso. bool_simpl. rewrite String.eqb_neq in *.
    destruct (state_kind _ _ _ _ _ _ (proj1 Hd) Hs) as [->|[->| ->]]; try done.
    subst flag. done.
  - exfalso. destruct (state_of_Some _ _ _ _ _ _ Hs) as (c & Hc & _). unfold counter_of in Hc.
    destruct (legacy key).
    + destruct (attempts d !! key_id key) eqn:Ha; [|done].
      destruct (ok_attempts d (proj1 Hd) _ _ Ha) as (i & ? & _). congruence.
    + destruct (ok_generations d (proj1 Hd) _ _ _ Hc) as [[? ?] _]. congruence.
Qed.
End Persist.

(** ** Counting failures *)
Section Exhaustion.
Context {B : Type}.
Implicit Types (d : DB B) (key : Key) (fp : Fingerprint) (w : env).

Lemma state_of_alt key fp d : rows_ok d -> identified (key_id key) fp d ->
  state_of key fp d = option_map (fun c => (c_attempts c, c_terminal c,
    closed_kind (key_id key) (AttemptFingerprint key fp) d)) (counter_of key fp d).
Proof.
  intros Hd (i & Hi & Hf). rewrite state_of_counter. unfold counter_of.
  destruct (legacy key) eqn:Hl; [|by destruct (generations d !! _)].
  destruct (attempts d !! key_id key) as [r|] eqn:Ha; [|done]. simpl.
  rewrite (legacy_fingerprint key fp Hl).
  destruct (ok_attempts d Hd _ _ Ha) as (i' & ? & ? & _). by replace (a_fingerprint r) with fp by congruence.
Qed.

(** An incomplete message with [m] consumed attempts, closed once [m] reaches
    the limit. *)
Definition failing key fp (maxAttempts m : Z) d : Prop :=
  db_ok d /\
  (exists i, inbox d !! key_id key = Some i /\ i_fingerprint i = fp /\ i_completed_at i = None) /\
  state_of key fp d = Some (m, false, if maxAttempts <=? m then FailureAttemptsExhausted else "") /\
  (m < maxAttempts -> terminal d !! (key_id key, AttemptFingerprint key fp) = None).

(** An error without a marker that changes its classification. *)
Definition ordinary (e : error) : Prop := is_defer e = false /\ IsPermanent (Some e) = false.

Lemma consume_counter key fp t d m :
  match counter_of key fp d with Some c => (c_attempts c, c_terminal c) | None => (0, false) end = (m, false) ->
  exists c, counter_of key fp (consume key fp t d) = Some c /\ c_attempts c = m + 1 /\ c_terminal c = false.
Proof.
  intros Hm. unfold consume. rewrite counter_of_set. eexists. split; [done|].
  destruct (counter_of key fp d) as [c|]; simplify_eq/=; done.
Qed.

Lemma ordinary_failure key fp maxAttempts m e d w :
  open_ok (key_id key) d -> collision_free key fp -> ordinary e ->
  (exists i, inbox d !! key_id key = Some i /\ i_fingerprint i = fp /\ i_completed_at i = None) ->
  match counter_of key fp d with Some c => (c_attempts c, c_terminal c) | None => (0, false) end = (m, false) ->
  terminal d !! (key_id key, AttemptFingerprint key fp) = None -> 0 <= m ->
  failing key fp maxAttempts (m + 1) (op_db (spec_failed key fp (m + 1) maxAttempts e d w)).
Proof.
  intros Ho Hcf [Hnd Hnp] (i & Hi & Hf & Hcm) Hcount Ht Hm.
  assert (identified (key_id key) fp d) as Hid by by exists i.
  pose proof (spec_failed_ok key fp (m + 1) maxAttempts e d w Ho Hid Hcf ltac:(lia)) as Hok.
  destruct (spec_failed_same key fp (m + 1) maxAttempts e d w) as (Hinb & _).
  assert (identified (key_id key) fp (op_db (spec_failed key fp (m + 1) maxAttempts e d w))) as Hid'.
  { exists i. by rewrite Hinb. }
  split_and!; [done|exists i; by rewrite Hinb| |].
  - rewrite state_of_alt by (done || apply Hok). clear Hok Hinb Hid'.
    unfold spec_failed. rewrite Hnd, Hnp. destruct (tick w) as [t w1].
    destruct (consume_counter key fp t d m Hcount) as (c & Hc & Hca & Hct).
    destruct (Z.leb_spec maxAttempts (m + 1)).
    + destruct (tick w1) as [t2 w2]. simpl.
      change (counter_of key fp (record_terminal key fp (m + 1) FailureAttemptsExhausted t2
                (consume key fp t d))) with (counter_of key fp (consume key fp t d)).
      rewrite Hc. simpl. rewrite Hca, Hct. unfold closed_kind, record_terminal. simpl.
      destruct (consume_same key fp t d) as (_ & -> & _). by rewrite Ht, lookup_insert_eq.
    + simpl. rewrite Hc. simpl. rewrite Hca, Hct. unfold closed_kind.
      destruct (consume_same key fp t d) as (_ & -> & _). by rewrite Ht.
  - intros Hlt. unfold spec_failed. rewrite Hnd, Hnp. destruct (tick w) as [t w1].
    rewrite (proj2 (Z.leb_gt _ _)) by lia. simpl.
    destruct (consume_same key fp t d) as (_ & -> & _). done.
Qed.

Lemma tick_calls w : e_handlerCalls (tick w).2 = e_handlerCalls w.
Proof. unfold tick. by destruct (e_times w). Qed.

Lemma spec_failed_calls key fp n maxAttempts e d w :
  e_handlerCalls (op_env (spec_failed key fp n maxAttempts e d w)) = e_handlerCalls w.
Proof.
  unfold spec_failed.
  repeat match goal with
  | |- context [tick ?x] => pose proof (tick_calls x); destruct (tick x); simpl in *
  | |- context [if ?b then _ else _] => destruct b
  end; simpl; congruence.
Qed.

(** A delivery that fails: the first one, and each later one below the limit. *)
Lemma first_failure key fp maxAttempts h e b d w :
  db_ok d -> Fingerprint_wf fp -> collision_free key fp -> ordinary e ->
  inbox d !! key_id key = None -> h (business d) = (b, Some e) ->
  let r := spec_ProcessAttempt key fp maxAttempts h d w in
  failing key fp maxAttempts 1 (op_db r) /\ business (op_db r) = business d /\
  e_handlerCalls (op_env r) = S (e_handlerCalls w).
Proof.
  intros Hd Hwf Hcf He Hn Hh. unfold spec_ProcessAttempt. rewrite Hn.
  pose proof (tick_calls w) as Hw. destruct (tick w) as [t w1]. simpl in Hw.
  destruct (new_identity_open (key_id key) fp t d Hd Hn Hwf) as [Ho Hid].
  unfold spec_handle. change (business (new_identity (key_id key) fp t d)) with (business d).
  rewrite Hh. simpl. split_and!.
  - assert (counter_of key fp (new_identity (key_id key) fp t d) = None) as Hc.
    { unfold counter_of. simpl. destruct (legacy key).
      - destruct (attempts d !! key_id key) eqn:Ha; [|done].
        destruct (ok_attempts d (proj1 Hd) _ _ Ha) as (i & ? & _). congruence.
      - destruct (generations d !! _) eqn:Hg; [|done].
        destruct (ok_generations d (proj1 Hd) _ _ _ Hg) as [[? ?] _]. congruence. }
    apply (ordinary_failure key fp maxAttempts 0); try done.
    + eexists. simpl. rewrite lookup_insert_eq. by split_and!.
    + by rewrite Hc.
    + by apply terminal_needs_counter; [apply Ho|..].
  - by destruct (spec_failed_same key fp 1 maxAttempts e (new_identity (key_id key) fp t d) (called w1))
      as (_ & -> & _).
  - rewrite spec_failed_calls. simpl. by rewrite Hw.
Qed.

Lemma next_failure key fp maxAttempts m h e b d w :
  failing key fp maxAttempts m d -> m < maxAttempts -> collision_free key fp -> ordinary e ->
  h (business d) = (b, Some e) ->
  let r := spec_ProcessAttempt key fp maxAttempts h d w in
  failing key fp maxAttempts (m + 1) (op_db r) /\ business (op_db r) = business d /\
  e_handlerCalls (op_env r) = S (e_handlerCalls w).
Proof.
  intros (Hd & (i & Hi & Hf & Hcm) & Hs & Ht) Hlt Hcf He Hh. unfold spec_ProcessAttempt. rewrite Hi.
  pose proof (tick_calls w) as Hw. destruct (tick w) as [t w1]. simpl in Hw.
  rewrite Hf, String.eqb_refl, Hcm. simpl. unfold spec_pending. rewrite Hs.
  rewrite (proj2 (Z.leb_gt maxAttempts m)) by lia. simpl.
  destruct (state_of_Some _ _ _ _ _ _ Hs) as (c & Hc & Hca).
  pose proof (counter_of_ok _ _ _ _ (proj1 Hd) Hc) as [Hc0 _].
  unfold spec_handle. rewrite Hh. split_and!.
  - apply ordinary_failure; try done; [by apply db_ok_open|by exists i| |by apply Ht|lia].
    rewrite state_of_alt, Hc in Hs; [|apply Hd|by exists i]. rewrite Hc. simpl in Hs. congruence.
  - by destruct (spec_failed_same key fp (m + 1) maxAttempts e d (called w1)) as (_ & -> & _).
  - rewrite spec_failed_calls. simpl. by rewrite Hw.
Qed.

(** Once the limit is reached nothing changes but the handoff mark. *)
Lemma exhausted_again key fp maxAttempts m h d w :
  failing key fp maxAttempts m d -> maxAttempts <= m -> 1 <= m ->
  let r := spec_ProcessAttempt key fp maxAttempts h d w in
  failing key fp maxAttempts m (op_db r) /\ business (op_db r) = business d /\
  op_err r = Some (ESentinel ErrAttemptsExhausted) /\
  op_value r = {| r_Duplicate := false; r_Attempt := m |} /\
  e_handlerCalls (op_env r) = e_handlerCalls w.
Proof.
  intros (Hd & (i & Hi & Hf & Hcm) & Hs & Ht) Hge Hm. unfold spec_ProcessAttempt. rewrite Hi.
  pose proof (tick_calls w) as Hw. destruct (tick w) as [t w1]. simpl in Hw.
  rewrite Hf, String.eqb_refl, Hcm. simpl. unfold spec_pending. rewrite Hs.
  rewrite (proj2 (Z.leb_le maxAttempts m)) by lia. simpl. unfold spec_closed.
  pose proof (tick_calls w1) as Hw1. destruct (tick w1) as [t2 w2]. simpl in Hw1. simpl.
  assert (identified (key_id key) fp d) as Hid by by exists i.
  destruct (state_of_Some _ _ _ _ _ _ Hs) as (c & Hc & Hca).
  assert (db_ok (record_terminal key fp m FailureAttemptsExhausted t2 d)) as Hok.
  { apply record_terminal_ok; auto. exists c. split; [done|lia]. }
  split_and!; try done; [|congruence]. split_and!; [done|by exists i| |lia].
  rewrite state_of_alt in Hs by (done || apply Hd). rewrite state_of_alt by (done || apply Hok).
  change (counter_of key fp (record_terminal key fp m FailureAttemptsExhausted t2 d))
    with (counter_of key fp d). rewrite Hc in *. simpl in *.
  rewrite (proj2 (Z.leb_le maxAttempts m)) in * by lia.
  injection Hs as H1 H2 Hk. rewrite H1, H2. f_equal. f_equal.
  unfold closed_kind, record_terminal in *. simpl.
  rewrite lookup_insert_eq. by destruct (terminal d !! _).
Qed.
End Exhaustion.
