(* ===== verification/InboxPrune.v ===== *)
(** * What pruning removes

    The bounded selections of [Prune] and [PruneTerminalAttempts] and the rows
    the two operations delete. *)
From S2P Require Import Prelude GoStrings Errors Ident Inbox InboxSQL TerminalState InboxSpec.
From S2P Require Import InboxProps InboxEffects.
Import Stdlib.Strings.String.
Open Scope string_scope.
Open Scope Z_scope.

Section Prune.
Context {B : Type} (collate : string -> string -> bool).
Implicit Types (d : DB B) (k : idkey).

(** ** Completed identities *)
Definition eligible (before : Time) d : list (idkey * identityRow) :=
  filter (fun p => completed_before before p.2 = true) (map_to_list (inbox d)).
Definition sorted_eligible (before : Time) d : list (idkey * identityRow) :=
  merge_sort (doomed_le collate) (eligible before d).

Lemma sorted_eligible_perm before d : sorted_eligible before d ≡ₚ eligible before d.
Proof. apply merge_sort_Permutation. Qed.

Lemma elem_of_eligible before d k i :
  (k, i) ∈ eligible before d <-> inbox d !! k = Some i /\ completed_before before i = true.
Proof. unfold eligible. rewrite list_elem_of_filter, elem_of_map_to_list. naive_solver. Qed.

Lemma NoDup_sorted_keys before d : NoDup (List.map fst (sorted_eligible before d)).
Proof.
  assert (NoDup (List.map fst (eligible before d))) as Hn.
  { unfold eligible. eapply (sublist_NoDup _ (List.map fst (map_to_list (inbox d)))).
    - apply NoDup_fst_map_to_list.
    - apply (fmap_sublist fst), sublist_filter. }
  assert (List.map fst (sorted_eligible before d) ≡ₚ List.map fst (eligible before d)) as ->; [|done].
  apply Permutation_map, sorted_eligible_perm.
Qed.

Lemma doomed_bounds before limit d : 0 <= limit ->
  NoDup (doomed collate before limit d) /\
  Z.of_nat (List.length (doomed collate before limit d)) <= limit /\
  forall k, k ∈ doomed collate before limit d ->
    exists i t, inbox d !! k = Some i /\ i_completed_at i = Some t /\ t < before.
Proof.
  intros Hl. unfold doomed. fold (eligible before d). fold (sorted_eligible before d). split_and!.
  - eapply sublist_NoDup; [apply NoDup_sorted_keys|apply sublist_take].
  - rewrite length_take. lia.
  - intros k Hk. assert (k ∈ List.map fst (sorted_eligible before d)) as Hk'.
    { eapply elem_of_submseteq; [done|]. apply sublist_submseteq, sublist_take. }
    apply list_elem_of_In, in_map_iff in Hk' as ([k' i] & <- & Hin%list_elem_of_In).
    rewrite sorted_eligible_perm, elem_of_eligible in Hin. destruct Hin as [Hi Hb].
    unfold completed_before in Hb. destruct (i_completed_at i) as [t|] eqn:Ht; [|done].
    exists i, t. bool_simpl. done.
Qed.

(** ** Oldest first *)
Definition older (p q : idkey * identityRow) : Prop := completed_time p.2 <= completed_time q.2.

Lemma sorted_by_time before d :
  (forall a b, collate a b = true \/ collate b a = true) ->
  StronglySorted older (sorted_eligible before d).
Proof.
  intros Htot.
  assert (Total (doomed_le collate)) as Ht.
  { intros [[[c1 s1] m1] i1] [[[c2 s2] m2] i2]. unfold doomed_le, time_then. simpl.
    destruct (Z.ltb_spec (completed_time i1) (completed_time i2)),
      (Z.ltb_spec (completed_time i2) (completed_time i1)); auto.
    unfold key_leb, text_then.
    destruct (Htot c1 c2) as [-> | ->], (Htot s1 s2) as [-> | ->], (Htot m1 m2) as [-> | ->];
      repeat case_match; auto. }
  pose proof (Sorted_merge_sort (doomed_le collate) (eligible before d)) as Hs.
  fold (sorted_eligible before d) in Hs. apply Sorted_StronglySorted.
  - intros p q r. unfold older. lia.
  - revert Hs. generalize (sorted_eligible before d). induction 1 as [|p l Hs IH Hh]; constructor; [done|].
    destruct Hh as [|q l Hle]; constructor. unfold doomed_le, time_then in Hle. unfold older.
    destruct (Z.ltb_spec (completed_time p.2) (completed_time q.2)); [lia|].
    destruct (Z.ltb_spec (completed_time q.2) (completed_time p.2)); [done|lia].
Qed.

Lemma StronglySorted_take_drop {A} (R : A -> A -> Prop) n l x y :
  StronglySorted R l -> x ∈ take n l -> y ∈ drop n l -> R x y.
Proof.
  intros Hs. revert n. induction Hs as [|a l Hs IH Ha]; intros [|n]; simpl; try set_solver.
  intros [->|Hx]%elem_of_cons Hy; [|by eapply IH].
  rewrite Forall_forall in Ha. apply Ha. eapply elem_of_submseteq; [exact Hy|].
  apply sublist_submseteq, sublist_drop.
Qed.

Lemma doomed_oldest before limit d k k' i i' :
  (forall a b, collate a b = true \/ collate b a = true) ->
  k ∈ doomed collate before limit d -> k' ∉ doomed collate before limit d ->
  inbox d !! k = Some i -> inbox d !! k' = Some i' -> completed_before before i' = true ->
  completed_time i <= completed_time i'.
Proof.
  intros Htot Hk Hk' Hi Hi' He'. unfold doomed in *. fold (eligible before d) in *.
  fold (sorted_eligible before d) in *.
  set (l := sorted_eligible before d) in *. set (n := Z.to_nat limit) in *.
  rewrite firstn_map in Hk, Hk'.
  apply list_elem_of_In, in_map_iff in Hk as ([k1 i1] & Heq & Hin%list_elem_of_In). simpl in Heq. subst k1.
  assert (i1 = i) as ->.
  { assert ((k, i1) ∈ l) as Hl
      by (eapply elem_of_submseteq; [exact Hin|apply sublist_submseteq, sublist_take]).
    unfold l in Hl. rewrite sorted_eligible_perm, elem_of_eligible in Hl. destruct Hl. congruence. }
  assert ((k', i') ∈ l) as Hl' by (unfold l; by rewrite sorted_eligible_perm, elem_of_eligible).
  rewrite <- (take_drop n l) in Hl'. apply elem_of_app in Hl' as [Hl'|Hl'].
  { destruct Hk'. apply list_elem_of_In, in_map_iff. exists (k', i'). split; [done|].
    by apply list_elem_of_In. }
  exact (StronglySorted_take_drop older n l (k, i) (k', i') (sorted_by_time before d Htot) Hin Hl').
Qed.

(** ** Terminal generations *)
Lemma terminal_deleteEmptyIdentity k d : terminal (sql_deleteEmptyIdentity k d).1 = terminal d.
Proof.
  unfold sql_deleteEmptyIdentity, sql_deleteIncompleteIdentity.
  destruct (_ || _); [done|]. destruct (inbox d !! k) as [i|]; [|done]. by destruct (i_completed_at i).
Qed.

Lemma counters_deleteEmptyIdentity k d :
  attempts (sql_deleteEmptyIdentity k d).1 = attempts d /\
  generations (sql_deleteEmptyIdentity k d).1 = generations d.
Proof.
  unfold sql_deleteEmptyIdentity, sql_deleteIncompleteIdentity.
  destruct (_ || _); [done|]. destruct (inbox d !! k) as [i|]; [|done]. by destruct (i_completed_at i).
Qed.

Lemma drop_generation_rows g d :
  terminal (drop_generation g d) = delete g (terminal d) /\
  generations (drop_generation g d) = delete g (generations d) /\
  forall k, attempts (drop_generation g d) !! k = attempts d !! k \/
    (attempts (drop_generation g d) !! k = None /\ g.1 = k /\
     exists r, attempts d !! k = Some r /\ a_fingerprint r = g.2).
Proof.
  destruct g as [k fp]. unfold drop_generation.
  rewrite terminal_deleteEmptyIdentity.
  destruct (counters_deleteEmptyIdentity k (set_generations (delete (k, fp) (generations
    (sql_deleteAttemptOf k fp (set_terminal (delete (k, fp) (terminal d)) d)).1))
    (sql_deleteAttemptOf k fp (set_terminal (delete (k, fp) (terminal d)) d)).1)) as [Ha Hg].
  rewrite Ha, Hg. simpl. unfold sql_deleteAttemptOf. simpl.
  destruct (attempts d !! k) as [r|] eqn:Hr; simpl; [|by auto].
  destruct (String.eqb_spec (a_fingerprint r) fp); simpl; [|by auto]. split_and!; [done..|].
  intros k'. destruct (decide (k = k')) as [<-|]; [right|left; by rewrite lookup_delete_ne].
  rewrite lookup_delete_eq. eauto.
Qed.

(** The generations a run of the loop removes. *)
Definition removable (before : Time) d (g : idkey * Fingerprint) : Prop :=
  exists r t i, terminal d !! g = Some r /\ t_handoff_confirmed_at r = Some t /\ t < before /\
    inbox d !! g.1 = Some i /\ i_completed_at i = None.

Lemma removable_of before d g r :
  terminal d !! g = Some r -> handoff_before before r && incomplete g.1 d = true -> removable before d g.
Proof.
  intros Hr Hc. bool_simpl. unfold handoff_before, incomplete in *.
  destruct (t_handoff_confirmed_at r) as [t|] eqn:Ht; [|done].
  destruct (inbox d !! g.1) as [i|] eqn:Hi; [|done]. destruct (i_completed_at i) eqn:Hn; [done|].
  bool_simpl. exists r, t, i. by split_and!.
Qed.

(** Dropping a generation only removes identities and terminal rows. *)
Lemma removable_drop before g g' d : removable before (drop_generation g d) g' -> removable before d g'.
Proof.
  intros (r & t & i & Hr & Ht & Hlt & Hi & Hn). destruct (drop_generation_rows g d) as (Hterm & _).
  rewrite Hterm in Hr. apply lookup_delete_Some in Hr as [_ Hr]. exists r, t, i.
  split_and!; try done. destruct g as [k fp]. unfold drop_generation, sql_deleteEmptyIdentity in Hi.
  assert (forall d1, inbox d1 = inbox d ->
    (inbox (sql_deleteIncompleteIdentity k d1).1 !! g'.1 = Some i -> inbox d !! g'.1 = Some i)) as Hdel.
  { intros d1 H1. unfold sql_deleteIncompleteIdentity. rewrite H1.
    destruct (inbox d !! k) as [i0|]; [|simpl; by rewrite H1]. destruct (i_completed_at i0); simpl; [by rewrite H1|].
    rewrite ?H1. by intros [_ ?]%lookup_delete_Some. }
  assert (inbox (sql_deleteAttemptOf k fp (set_terminal (delete (k, fp) (terminal d)) d)).1 = inbox d) as Hinb.
  { unfold sql_deleteAttemptOf. simpl. destruct (attempts d !! k) as [a|]; [|done].
    by destruct (String.eqb _ _). }
  destruct (_ || _); [simpl in Hi; by rewrite Hinb in Hi|]. eapply Hdel; [|exact Hi]. done.
Qed.

Lemma spec_prune_all_removed before gs n d : NoDup gs ->
  exists removed,
    NoDup removed /\ removed ⊆+ gs /\ Forall (removable before d) removed /\
    (spec_prune_all before gs n d).2 = n + Z.of_nat (List.length removed) /\
    terminal (spec_prune_all before gs n d).1 = filter (fun p => p.1 ∉ removed) (terminal d) /\
    generations (spec_prune_all before gs n d).1 = filter (fun p => p.1 ∉ removed) (generations d).
Proof.
  revert n d. induction gs as [|g gs IH]; intros n d Hnd; simpl.
  { exists []. split_and!; [apply NoDup_nil_2|done|by apply Forall_nil_2|simpl; lia|..];
      symmetry; apply map_filter_id; set_solver. }
  apply NoDup_cons in Hnd as [Hng Hnd].
  assert (exists removed, NoDup removed /\ removed ⊆+ g :: gs /\
    Forall (removable before d) removed /\
    (spec_prune_all before gs (n + 0) d).2 = n + Z.of_nat (List.length removed) /\
    terminal (spec_prune_all before gs (n + 0) d).1 = filter (fun p => p.1 ∉ removed) (terminal d) /\
    generations (spec_prune_all before gs (n + 0) d).1
      = filter (fun p => p.1 ∉ removed) (generations d)) as Hskip.
  { destruct (IH (n + 0) d Hnd) as (removed & ? & ? & ? & Hn & ? & ?). exists removed.
    split_and!; try done; [by apply submseteq_cons|lia]. }
  unfold spec_prune_one. destruct (terminal d !! g) as [r|] eqn:Hr; [|exact Hskip].
  destruct (handoff_before before r && incomplete g.1 d) eqn:Hc; [|exact Hskip].
  destruct (IH (n + 1) (drop_generation g d) Hnd) as (removed & Hnr & Hsub & HF & Hn & Ht & Hg).
  destruct (drop_generation_rows g d) as (Hterm & Hgen & _).
  assert (forall {A} (m : gmap (idkey * Fingerprint) A),
    filter (fun p => p.1 ∉ removed) (delete g m) = filter (fun p => p.1 ∉ g :: removed) m) as Hfd.
  { intros A m. apply map_eq. intros g'. apply option_eq. intros x.
    rewrite !map_lookup_filter_Some, lookup_delete_Some. simpl. set_solver. }
  exists (g :: removed). split_and!.
  - constructor; [|done]. intros Hin. apply Hng. by eapply elem_of_submseteq.
  - by constructor.
  - constructor; [by eapply removable_of|]. eapply Forall_impl; [done|]. intros. by eapply removable_drop.
  - rewrite Hn. simpl. lia.
  - by rewrite Ht, Hterm, Hfd.
  - by rewrite Hg, Hgen, Hfd.
Qed.

Lemma NoDup_candidates before limit d : NoDup (sql_candidates collate before limit d) /\
  (List.length (sql_candidates collate before limit d) <= Z.to_nat limit)%nat.
Proof.
  unfold sql_candidates. set (l := take _ _).
  assert (NoDup l) as Hl.
  { unfold l. eapply sublist_NoDup; [|apply sublist_take].
    set (rows := filter _ _).
    assert (List.map fst (merge_sort (handoff_le collate) rows) ≡ₚ List.map fst rows) as ->.
    - apply Permutation_map, merge_sort_Permutation.
    - eapply (sublist_NoDup _ (List.map fst (map_to_list (terminal d)))); [apply NoDup_fst_map_to_list|].
      apply (fmap_sublist fst), sublist_filter. }
  split.
  - by rewrite (merge_sort_Permutation (gen_le collate) l).
  - rewrite (Permutation_length (merge_sort_Permutation (gen_le collate) l)).
    unfold l. rewrite length_take. lia.
Qed.
End Prune.
