(* ===== verification/PgRefine.v ===== *)
(** * The PostgreSQL backend refines the Inbox specification *)
From S2P Require Import Prelude GoStrings Errors Ident Inbox InboxSQL TerminalState InboxSpec.
From S2P Require Import InboxProps InboxRefine PgBackend.
Import Stdlib.Strings.String.
Open Scope string_scope.
Open Scope Z_scope.
Open Scope tx_scope.

Module PgRefine.
Import Pg.
Section Refine.
Context {B : Type} (collate : string -> string -> bool).
Implicit Types (d : DB B) (key : Key) (fp : Fingerprint) (w : env).

Lemma pg_fingerprintsEqual_wf stored fp : Fingerprint_wf fp ->
  fingerprintsEqual stored fp = String.eqb stored fp.
Proof.
  unfold fingerprintsEqual, Fingerprint_wf, len. intros Hf.
  destruct (String.eqb_spec stored fp) as [->|]; [|by rewrite andb_false_r].
  by rewrite Hf.
Qed.

(** ** Steps *)
Section Steps.
Context {V : Type} `{Zero V}.

Definition to_state (s : Z * bool * string) : attemptState :=
  {| as_kind := s.2; as_attempt := s.1.1; as_terminal := s.1.2 |}.

Definition decision_of (s : option (Z * bool * string)) (maxAttempts : Z) : attemptDecision :=
  match s with
  | None => {| ad_attempt := 1; ad_terminal := false; ad_exhausted := false; ad_exists := false |}
  | Some (n, flag, kind) =>
      if flag || String.eqb kind FailurePermanentKind
      then {| ad_attempt := n; ad_terminal := true; ad_exhausted := false; ad_exists := true |}
      else if (maxAttempts <=? n) || String.eqb kind FailureAttemptsExhausted
      then {| ad_attempt := n; ad_terminal := false; ad_exhausted := true; ad_exists := true |}
      else {| ad_attempt := n + 1; ad_terminal := false; ad_exhausted := false; ad_exists := true |}
  end.

Lemma pg_readAttempt_quiet key fp d w : rows_ok d ->
  readAttempt (V := V) key (AttemptFingerprint key fp) d (quiet w)
  = Cont d (quiet w) (option_map to_state (state_of key fp d)).
Proof.
  intros Hd. unfold readAttempt. tx_step. fold (legacy key).
  assert ((if legacy key then sql_readAttempt (key_id key)
           else sql_readAttemptGeneration (key_id key) (AttemptFingerprint key fp)) d
          = state_of key fp d) as -> by (unfold state_of; by destruct (legacy key)).
  destruct (state_of key fp d) as [[[n flag] kind]|] eqn:Hs; [|done].
  destruct (state_of_Some _ _ _ _ _ _ Hs) as (c & Hc & <-).
  destruct (counter_of_ok _ _ _ _ Hd Hc) as [Hn _].
  rewrite (proj2 (Z.ltb_ge _ _)) by lia. done.
Qed.

Lemma pg_nextAttempt_quiet key fp maxAttempts d w : rows_ok d ->
  nextAttempt (V := V) key fp maxAttempts d (quiet w)
  = Cont d (quiet w) (decision_of (state_of key fp d) maxAttempts).
Proof.
  intros Hd. unfold nextAttempt. rewrite tx_bind_eq, pg_readAttempt_quiet by done.
  destruct (state_of key fp d) as [[[n flag] kind]|]; [|done]. cbn.
  destruct (flag || _); [done|]. by destruct ((maxAttempts <=? n) || _).
Qed.

Lemma pg_consumeAttempt_quiet key fp decision d w :
  rows_ok d -> identified (key_id key) fp d ->
  ad_exists decision = bool_decide (is_Some (counter_of key fp d)) ->
  consumeAttempt (V := V) key fp decision d (quiet w)
  = Cont (consume key fp (tick w).1 d) (quiet (tick w).2) tt.
Proof.
  intros Hd Hid He. unfold consumeAttempt, insertAttempt, incrementAttempt. rewrite He.
  fold (legacy key). destruct (counter_of key fp d) as [c|] eqn:Hc.
  - rewrite bool_decide_eq_true_2 by eauto. cbn [negb]. tx_step.
    destruct (legacy key) eqn:Hl; rewrite exec_quiet; cbn [snd].
    + by rewrite (increment_legacy key fp _ d c).
    + by rewrite (increment_generation key fp _ d c).
  - rewrite bool_decide_eq_false_2 by (by intros [? ?]). cbn [negb]. tx_step.
    destruct (legacy key) eqn:Hl; rewrite stmt_quiet.
    + by rewrite insert_legacy.
    + by rewrite insert_generation.
Qed.

Lemma pg_markAttemptTerminal_quiet key fp e d w :
  rows_ok d -> identified (key_id key) fp d ->
  markAttemptTerminal (V := V) key fp e d (quiet w)
  = if IsPermanent (Some e) then Cont (flag_permanent key fp (tick w).1 d) (quiet (tick w).2) tt
    else Cont d (quiet w) tt.
Proof.
  intros Hd Hid. unfold markAttemptTerminal. fold (legacy key).
  destruct (IsPermanent (Some e)); [|done]. cbn [negb]. tx_step.
  destruct (legacy key) eqn:Hl; rewrite exec_quiet; cbn [snd].
  - by rewrite (mark_legacy key fp).
  - by rewrite mark_generation.
Qed.

Lemma pg_recordTerminal_quiet key fp n (permanent : bool) d w : 1 <= n ->
  recordTerminal (V := V) key fp n permanent d (quiet w)
  = Cont (record_terminal key fp n
            (if permanent then FailurePermanentKind else FailureAttemptsExhausted) (tick w).1 d)
         (quiet (tick w).2) tt.
Proof.
  intros Hn. unfold recordTerminal. tx_step. apply Record_one; [done|]. destruct permanent; auto.
Qed.

Lemma pg_atomic_readAttempt key fp : atomic (readAttempt (B := B) (V := V) key fp).
Proof. unfold readAttempt. atomic_tac. Qed.
Lemma pg_atomic_nextAttempt key fp n : atomic (nextAttempt (B := B) (V := V) key fp n).
Proof. unfold nextAttempt. pose proof pg_atomic_readAttempt. atomic_tac. Qed.
Lemma pg_atomic_consumeAttempt key fp dec : atomic (consumeAttempt (B := B) (V := V) key fp dec).
Proof. unfold consumeAttempt, insertAttempt, incrementAttempt. atomic_tac. Qed.
Lemma pg_atomic_markAttemptTerminal key fp e : atomic (markAttemptTerminal (B := B) (V := V) key fp e).
Proof. unfold markAttemptTerminal. atomic_tac. Qed.
Lemma pg_atomic_recordTerminal key fp n p : atomic (recordTerminal (B := B) (V := V) key fp n p).
Proof. unfold recordTerminal. atomic_tac. Qed.
End Steps.
#[local] Hint Resolve pg_atomic_readAttempt pg_atomic_nextAttempt pg_atomic_consumeAttempt
  pg_atomic_markAttemptTerminal pg_atomic_recordTerminal : go.

(** ** [ProcessAttempt] *)
Definition as_done {V} (r : opResult B V) : InboxSQL.outcome B V Empty_set :=
  Done (Some (op_db r)) (op_env r) (op_value r) (op_err r).

Lemma pg_finishFailedAttempt_quiet d1 key fp dec maxAttempts e d w :
  open_ok (key_id key) d -> identified (key_id key) fp d -> collision_free key fp ->
  1 <= ad_attempt dec ->
  ad_exists dec = bool_decide (is_Some (counter_of key fp d)) ->
  (counter_of key fp d = None -> ad_attempt dec = 1) ->
  finishFailedAttempt d key fp dec maxAttempts e d1 (quiet w)
  = as_done (spec_failed key fp (ad_attempt dec) maxAttempts e d (quiet w)).
Proof.
  intros Ho Hid Hcf Hn He Hone. unfold finishFailedAttempt, spec_failed.
  fold (is_defer e). tx_step. destruct (is_defer e) eqn:Hdefer.
  - tx_step. rewrite tick_quiet, tx_bind_eq, PreserveDeferred_one; [done|].
    intros Hnone. rewrite (Hone Hnone). lia.
  - rewrite tx_bind_eq, pg_consumeAttempt_quiet by (done || apply Ho). cbv beta iota.
    rewrite tick_quiet. cbv beta iota.
    destruct (consume_ok key fp (tick w).1 d Ho Hid Hcf) as [[Hok _] _].
    rewrite tx_bind_eq, pg_markAttemptTerminal_quiet by auto using identified_consume.
    destruct (IsPermanent (Some e)) eqn:Hp; simpl.
    + rewrite tx_bind_eq, pg_recordTerminal_quiet by done. by rewrite !tick_quiet.
    + destruct (maxAttempts <=? ad_attempt dec); [|done].
      rewrite tx_bind_eq, pg_recordTerminal_quiet by done. by rewrite !tick_quiet.
Qed.

(** [ProcessAttempt] after its decision. *)
Definition attempt_rest key fp maxAttempts (handler : Handler B) (decision : attemptDecision)
  : TX B Result Empty_set :=
  if ad_terminal decision || ad_exhausted decision then
    let* _ := recordTerminal key fp (ad_attempt decision) (ad_terminal decision) in
    commit_return "inbox/pgsql: commit existing attempt state"
      {| r_Duplicate := false; r_Attempt := ad_attempt decision |}
      (if ad_terminal decision then Permanent (Some (ESentinel ErrAttemptTerminal))
       else Some (ESentinel ErrAttemptsExhausted))
  else
    let* saved := savepoint "inbox/pgsql: create handler savepoint" in
    let* handlerErr := call_handler handler in
    match handlerErr with
    | Some e => finishFailedAttempt saved key fp decision maxAttempts e
    | None =>
        let* _ := consumeAttempt key fp decision in
        let* now := clock in
        let* _ := exec "inbox/pgsql: mark attempt complete" (sql_markComplete now (key_id key)) in
        commit_return "inbox/pgsql: commit handler attempt"
          {| r_Duplicate := false; r_Attempt := ad_attempt decision |} None
    end.

Lemma pg_handle_quiet key fp maxAttempts h dec d w :
  open_ok (key_id key) d -> identified (key_id key) fp d -> collision_free key fp ->
  ad_terminal dec = false -> ad_exhausted dec = false -> 1 <= ad_attempt dec ->
  ad_exists dec = bool_decide (is_Some (counter_of key fp d)) ->
  (counter_of key fp d = None -> ad_attempt dec = 1) ->
  attempt_rest key fp maxAttempts h dec d (quiet w)
  = as_done (spec_handle key fp (ad_attempt dec) maxAttempts h d (quiet w)).
Proof.
  intros Ho Hid Hcf Ht Hx Hn He Hone. unfold attempt_rest, spec_handle. rewrite Ht, Hx.
  cbn [orb]. do 2 tx_step. destruct (h (business d)) as [b [e|]]; cbn [fst snd].
  - rewrite called_quiet. by apply pg_finishFailedAttempt_quiet.
  - rewrite called_quiet, !tick_quiet, tx_bind_eq.
    rewrite pg_consumeAttempt_quiet; [|by apply (set_business_open (key_id key))|done|done].
    cbv beta iota. do 3 tx_step. by rewrite ?tick_quiet.
Qed.

Lemma pg_pending_quiet key fp maxAttempts h d w :
  open_ok (key_id key) d -> identified (key_id key) fp d -> collision_free key fp -> 1 <= maxAttempts ->
  attempt_rest key fp maxAttempts h (decision_of (state_of key fp d) maxAttempts) d (quiet w)
  = as_done (spec_pending key fp maxAttempts h d (quiet w)).
Proof.
  intros Ho Hid Hcf Hm. unfold spec_pending.
  destruct (state_of key fp d) as [[[n flag] kind]|] eqn:Hs.
  - pose proof (state_closed_count _ _ _ _ _ _ (proj1 Ho) Hid Hcf Hs) as Hcl.
    destruct (state_of_Some _ _ _ _ _ _ Hs) as (c & Hc & <-).
    destruct (counter_of_ok _ _ _ _ (proj1 Ho) Hc) as [Hc0 _].
    unfold decision_of. destruct (flag || String.eqb kind FailurePermanentKind) eqn:Hp.
    { unfold attempt_rest, spec_closed. cbn [ad_terminal ad_exhausted ad_attempt orb].
      rewrite tx_bind_eq, pg_recordTerminal_quiet, tick_quiet; [done|].
      apply Hcl. apply orb_true_iff in Hp as [->|Hp]; [by left|right]. by apply String.eqb_eq in Hp as ->. }
    destruct ((maxAttempts <=? c_attempts c) || String.eqb kind FailureAttemptsExhausted) eqn:Hx.
    { unfold attempt_rest, spec_closed. cbn [ad_terminal ad_exhausted ad_attempt orb].
      rewrite tx_bind_eq, pg_recordTerminal_quiet, tick_quiet; [done|].
      apply orb_true_iff in Hx as [Hx|Hx]; [bool_simpl; lia|]. apply Hcl. right.
      by apply String.eqb_eq in Hx as ->. }
    apply (pg_handle_quiet key fp maxAttempts h
      {| ad_attempt := c_attempts c + 1; ad_terminal := false; ad_exhausted := false; ad_exists := true |});
      try done; cbn; [lia| |congruence]. rewrite bool_decide_eq_true_2; eauto.
  - assert (counter_of key fp d = None) as Hc.
    { rewrite state_of_counter in Hs. by destruct (counter_of key fp d). }
    apply (pg_handle_quiet key fp maxAttempts h (decision_of None maxAttempts)); try done.
    rewrite Hc, bool_decide_eq_false_2; [done|]. by intros [? ?].
Qed.

(** A fresh identity has no counter. *)
Lemma pg_fresh_state key fp t d : rows_ok d -> inbox d !! key_id key = None ->
  state_of key fp (new_identity (key_id key) fp t d) = None.
Proof.
  intros Hd Hn. rewrite state_of_counter. unfold counter_of. simpl. destruct (legacy key).
  - destruct (attempts d !! key_id key) eqn:Ha; [|done].
    destruct (ok_attempts d Hd _ _ Ha) as (i & Hi & _). congruence.
  - destruct (generations d !! _) eqn:Hg; [|done].
    destruct (ok_generations d Hd _ _ _ Hg) as [[? ?] _]. congruence.
Qed.

(** The identity step: a fresh identity, an end of the operation, or a pending one. *)
Lemma pg_prepare_quiet key fp d w : Fingerprint_wf fp -> rows_ok d ->
  prepareAttemptIdentity key fp d (quiet w)
  = match inbox d !! key_id key with
    | None => Cont (new_identity (key_id key) fp (tick w).1 d) (quiet (tick w).2) true
    | Some r =>
        if negb (String.eqb (i_fingerprint r) fp)
        then Done None (quiet (tick w).2) Result0 (Some (ESentinel ErrFingerprintConflict))
        else match i_completed_at r with
        | Some _ => Done (Some d) (quiet (tick w).2)
            {| r_Duplicate := true;
               r_Attempt := match state_of key fp d with Some (n, _, _) => n | None => 0 end |} None
        | None => Cont d (quiet (tick w).2) false
        end
    end.
Proof.
  intros Hwf Hd. unfold prepareAttemptIdentity. do 2 tx_step. unfold sql_insertIdentity.
  destruct (inbox d !! key_id key) as [r|] eqn:Hr; [|done]. cbn [fst snd Z.eqb negb].
  tx_step. unfold sql_readIdentity. rewrite Hr. cbn [option_map].
  rewrite pg_fingerprintsEqual_wf by done.
  destruct (String.eqb (i_fingerprint r) fp); [|done]. cbn [negb].
  destruct (i_completed_at r); [|done].
  rewrite tx_bind_eq, pg_readAttempt_quiet by done.
  by destruct (state_of key fp d) as [[[n flag] kind]|].
Qed.

Lemma pg_ProcessAttempt_refines key fp maxAttempts (h : Handler B) :
  Fingerprint_wf fp -> collision_free key fp -> 1 <= maxAttempts ->
  refines (ProcessAttempt key fp maxAttempts h) (spec_ProcessAttempt key fp maxAttempts h).
Proof.
  intros Hwf Hcf Hm. split.
  { unfold ProcessAttempt, prepareAttemptIdentity, finishFailedAttempt. atomic_tac. }
  intros d w Hd. change (ProcessAttempt key fp maxAttempts h) with
    (let* _ := begin_tx "inbox/pgsql: begin attempt transaction" in
     let* fresh := prepareAttemptIdentity key fp in
     let* decision := (if fresh then tx_ret (decision_of None maxAttempts)
                       else nextAttempt key fp maxAttempts) in
     attempt_rest key fp maxAttempts h decision).
  unfold run, spec_ProcessAttempt. tx_step. rewrite tick_quiet, tx_bind_eq.
  rewrite pg_prepare_quiet by (done || apply Hd).
  destruct (inbox d !! key_id key) as [r|] eqn:Hr.
  - destruct (String.eqb_spec (i_fingerprint r) fp) as [Hf|]; cbn [negb]; [|done].
    destruct (i_completed_at r); [done|]. cbv beta iota. rewrite tx_bind_eq.
    rewrite pg_nextAttempt_quiet by apply Hd. cbv beta iota.
    rewrite pg_pending_quiet; [by destruct (spec_pending _ _ _ _ _ _)|by apply db_ok_open|by exists r|done..].
  - destruct (new_identity_open (key_id key) fp (tick w).1 d Hd Hr Hwf) as [Ho Hid].
    cbv beta iota. rewrite tx_bind_eq.
    pose proof (pg_pending_quiet key fp maxAttempts h _ (tick w).2 Ho Hid Hcf Hm) as Hp.
    unfold spec_pending in Hp. rewrite pg_fresh_state in Hp by (done || apply Hd).
    unfold tx_ret. rewrite Hp. by destruct (spec_handle _ _ _ _ _ _ _).
Qed.

(** ** [Process] *)
Lemma pg_Process_refines key fp (h : Handler B) : Fingerprint_wf fp ->
  refines (Process key fp h) (spec_Process key fp h).
Proof.
  intros Hwf. split.
  { unfold Process, handleExisting. atomic_tac. }
  intros d w Hd. unfold run, Process, handleExisting, spec_Process.
  do 3 tx_step. rewrite tick_quiet. cbv beta iota. unfold sql_insertIdentity.
  destruct (inbox d !! key_id key) as [r|] eqn:Hr; cbn [fst snd Z.eqb].
  - rewrite !tx_bind_eq. tx_step. unfold sql_readIdentity. rewrite Hr. cbn [option_map].
    rewrite pg_fingerprintsEqual_wf by done.
    destruct (String.eqb (i_fingerprint r) fp); [|done]. cbn [negb].
    destruct (i_completed_at r); [done|]. tx_step.
    destruct (sql_inspectAttempts (key_id key) d) as [flag count].
    destruct (0 <? count); [by destruct (0 <? flag)|].
    unfold tx_ret, spec_handle_once. tx_step. destruct (h (business d)) as [b [e|]]; [done|].
    cbn [fst snd]. do 3 tx_step. by rewrite called_quiet, tick_quiet.
  - unfold tx_ret, spec_handle_once. rewrite tx_bind_eq. tx_step.
    change (business (new_identity (key_id key) fp (tick w).1 d)) with (business d).
    change (business (set_inbox _ d)) with (business d).
    destruct (h (business d)) as [b [e|]]; [done|].
    cbn [fst snd]. do 3 tx_step. by rewrite called_quiet, tick_quiet.
Qed.

(** ** [ForgetAttempt] *)
Lemma pg_ForgetAttempt_refines key fp : Fingerprint_wf fp ->
  refines (ForgetAttempt key fp) (spec_ForgetAttempt (B := B) key fp).
Proof.
  intros Hwf. split.
  { unfold ForgetAttempt, Forget, deleteAttempt, hasAttempts. atomic_tac. }
  intros d w Hd. unfold run, ForgetAttempt, spec_ForgetAttempt, Forget, deleteAttempt, hasAttempts.
  do 2 tx_step. unfold sql_readIdentity.
  destruct (inbox d !! key_id key) as [r|] eqn:Hr; [|done]. cbn [option_map].
  rewrite pg_fingerprintsEqual_wf by done.
  destruct (String.eqb (i_fingerprint r) fp); [|done]. cbn [negb].
  destruct (i_completed_at r) eqn:Hcm; [done|]. tx_step. fold (legacy key).
  unfold drop_counter, sql_forgetTerminal. cbn [fst].
  destruct (legacy key); tx_step; cbn [fst snd sql_deleteAttempt sql_deleteAttemptGeneration];
    tx_step; (destruct (sql_hasAttempts _ _); [done|]); do 2 tx_step;
    unfold sql_deleteIncompleteIdentity; cbn; by rewrite Hr, Hcm.
Qed.

(** ** Pruning and retention *)
Lemma pg_Prune_refines before limit :
  refines (Prune collate before limit) (spec_Prune (B := B) collate before limit).
Proof.
  split; [unfold Prune, PruneCompleted, lockPruneBatch; atomic_tac|].
  intros d w Hd. unfold run, Prune, PruneCompleted, lockPruneBatch. do 2 tx_step. unfold tx_ret. do 5 tx_step.
  unfold spec_Prune, remove_identities. done.
Qed.

Lemma pg_Confirm_refines key fp : Fingerprint_wf fp ->
  refines (ConfirmTerminalHandoff key fp) (spec_Confirm (B := B) key fp).
Proof.
  intros Hwf. split; [unfold ConfirmTerminalHandoff; atomic_tac|].
  intros d w Hd. unfold run, ConfirmTerminalHandoff, spec_Confirm. do 2 tx_step.
  rewrite tick_quiet, tx_bind_eq, Confirm_quiet. cbv beta iota.
  destruct (inbox d !! key_id key) as [i|]; [|done].
  destruct (negb _); [done|]. by destruct (terminal d !! _).
Qed.

Lemma pg_PruneTerminal_refines before limit :
  refines (PruneTerminalAttempts collate before limit) (spec_PruneTerminal (B := B) collate before limit).
Proof.
  split; [unfold PruneTerminalAttempts, TerminalState.Prune; atomic_tac|].
  intros d w Hd. unfold run, PruneTerminalAttempts, TerminalState.Prune, spec_PruneTerminal.
  do 2 tx_step. rewrite ?tx_bind_eq, prune_all_quiet. by destruct (spec_prune_all _ _ _ _).
Qed.
End Refine.

#[global] Instance Pg_backend (B : Type) (collate : string -> string -> bool) : InboxBackend B collate := {|
  be_Process := Process;
  be_ProcessAttempt := ProcessAttempt;
  be_ForgetAttempt := ForgetAttempt;
  be_Prune := Prune collate;
  be_ConfirmTerminalHandoff := ConfirmTerminalHandoff;
  be_PruneTerminalAttempts := PruneTerminalAttempts collate;
  be_Process_ok := pg_Process_refines;
  be_ProcessAttempt_ok := pg_ProcessAttempt_refines;
  be_ForgetAttempt_ok := pg_ForgetAttempt_refines;
  be_Prune_ok := pg_Prune_refines collate;
  be_Confirm_ok := pg_Confirm_refines;
  be_PruneTerminal_ok := pg_PruneTerminal_refines collate |}.
End PgRefine.
