(* ===== verification/InboxLocal.v ===== *)
(** * Updates local to one identity

    Every row of the Inbox tables belongs to one identity.  [same_at k] says
    that two databases hold the same rows for the identity [k]; an update is
    [local] to [k] when it touches and looks at the rows of [k] only.  The table
    invariant is a property of each identity by itself, and a sequence of local
    updates of different identities leaves at each of them what its own update
    leaves. *)
From S2P Require Import Prelude GoStrings Errors Ident Inbox InboxSQL TerminalState InboxSpec.
From S2P Require Import InboxProps.
Import Stdlib.Strings.String.
Open Scope string_scope.
Open Scope Z_scope.

Section Local.
Context {B : Type}.
Implicit Types (d : DB B) (k : idkey) (key : Key) (fp : Fingerprint) (t : Time).

Record same_at k d d' : Prop := {
  sa_inbox : inbox d !! k = inbox d' !! k;
  sa_attempts : attempts d !! k = attempts d' !! k;
  sa_generations fp : generations d !! (k, fp) = generations d' !! (k, fp);
  sa_terminal fp : terminal d !! (k, fp) = terminal d' !! (k, fp) }.

#[global] Instance same_at_equiv k : Equivalence (same_at k).
Proof.
  split.
  - by split.
  - intros d d' []. by split.
  - intros d1 d2 d3 [Hi Ha Hg Ht] [Hi' Ha' Hg' Ht']. split; intros; congruence.
Qed.

Record local k (u : DB B -> DB B) : Prop := {
  local_frame d k' : k' <> k -> same_at k' (u d) d;
  local_cong d d' : same_at k d d' -> same_at k (u d) (u d');
  local_business d : business (u d) = business d }.

Lemma local_id k : local k (fun d => d).
Proof. by split. Qed.

Lemma local_compose k u v : local k u -> local k v -> local k (fun d => v (u d)).
Proof.
  intros [U1 U2 U3] [V1 V2 V3]. split.
  - intros d k' Hk. by rewrite V1, U1.
  - auto.
  - intros d. by rewrite V3, U3.
Qed.

Lemma local_ext k u v : (forall d, v d = u d) -> local k u -> local k v.
Proof.
  intros He [U1 U2 U3]. split; intros; rewrite !He; auto.
Qed.

(** ** The updates of the specification *)
Lemma counter_of_same key fp d d' : same_at (key_id key) d d' ->
  counter_of key fp d = counter_of key fp d'.
Proof. intros [_ Ha Hg _]. unfold counter_of. destruct (legacy key); [by rewrite Ha|apply Hg]. Qed.

Lemma state_of_same key fp d d' : same_at (key_id key) d d' ->
  state_of key fp d = state_of key fp d'.
Proof.
  intros [_ Ha Hg Ht]. unfold state_of, sql_readAttempt, sql_readAttemptGeneration, closed_kind.
  destruct (legacy key).
  - rewrite Ha. destruct (attempts d' !! key_id key); simpl; [by rewrite Ht|done].
  - by rewrite Hg, Ht.
Qed.

Lemma set_counter_frame key fp c d k' : k' <> key_id key -> same_at k' (set_counter key fp c d) d.
Proof.
  intros Hk. unfold set_counter. destruct (legacy key); split; simpl; try done.
  - by rewrite lookup_insert_ne.
  - intros f. rewrite lookup_insert_ne; [done|]. congruence.
Qed.

Lemma set_counter_cong key fp c d d' : same_at (key_id key) d d' ->
  same_at (key_id key) (set_counter key fp c d) (set_counter key fp c d').
Proof.
  intros [Hi Ha Hg Ht]. unfold set_counter. destruct (legacy key); split; simpl; try done.
  - by rewrite !lookup_insert_eq.
  - intros f. by rewrite !lookup_insert, Hg.
Qed.

Lemma local_counter key fp (f : option counterRow -> option counterRow) :
  local (key_id key) (fun d => match f (counter_of key fp d) with
                               | Some c => set_counter key fp c d
                               | None => d
                               end).
Proof.
  split.
  - intros d k' Hk. destruct (f _); [by apply set_counter_frame|reflexivity].
  - intros d d' Hs. rewrite <- (counter_of_same _ _ _ _ Hs).
    destruct (f _); [by apply set_counter_cong|done].
  - intros d. destruct (f _); [apply business_set_counter|done].
Qed.

Lemma local_consume key fp t : local (key_id key) (consume key fp t).
Proof.
  eapply local_ext, (local_counter key fp (fun c => Some match c with
    Some c => bump t c | None => fresh_counter 1 t end)). done.
Qed.

Lemma local_keep_deferred key fp t : local (key_id key) (keep_deferred key fp t).
Proof.
  eapply local_ext, (local_counter key fp (fun c => match c with
    Some _ => None | None => Some (fresh_counter 0 t) end)).
  intros d. unfold keep_deferred. by destruct (counter_of key fp d).
Qed.

Lemma local_flag key fp t : local (key_id key) (flag_permanent key fp t).
Proof.
  eapply local_ext, (local_counter key fp (option_map (terminal_counter t))).
  intros d. unfold flag_permanent. by destruct (counter_of key fp d).
Qed.

Lemma local_record key fp n kind t : local (key_id key) (record_terminal key fp n kind t).
Proof.
  split.
  - intros d k' Hk. split; simpl; try done. intros f. rewrite lookup_insert_ne; [done|congruence].
  - intros d d' [Hi Ha Hg Ht]. split; simpl; try done. intros f.
    rewrite !lookup_insert. by rewrite !Ht.
  - done.
Qed.

Lemma local_complete k t : local k (complete_identity k t).
Proof.
  split.
  - intros d k' Hk. split; simpl; try done. by rewrite lookup_alter_ne.
  - intros d d' [Hi Ha Hg Ht]. split; simpl; try done. by rewrite !lookup_alter_eq, Hi.
  - done.
Qed.

(** [INSERT ... ON CONFLICT DO NOTHING] *)
Definition ensure_identity k fp t d : DB B := (sql_insertIdentity k fp t d).1.

Lemma ensure_identity_absent k fp t d : inbox d !! k = None ->
  ensure_identity k fp t d = new_identity k fp t d.
Proof. unfold ensure_identity, sql_insertIdentity. by intros ->. Qed.
Lemma ensure_identity_present k fp t d r : inbox d !! k = Some r -> ensure_identity k fp t d = d.
Proof. unfold ensure_identity, sql_insertIdentity. by intros ->. Qed.

Lemma local_ensure k fp t : local k (ensure_identity k fp t).
Proof.
  unfold ensure_identity, sql_insertIdentity. split.
  - intros d k' Hk. destruct (inbox d !! k); [reflexivity|]. split; simpl; try done.
    by rewrite lookup_insert_ne.
  - intros d d' Hs. destruct Hs as [Hi Ha Hg Ht]. rewrite Hi.
    destruct (inbox d' !! k) eqn:Hk; split; simpl; try done; [congruence|].
    by rewrite !lookup_insert_eq.
  - intros d. by destruct (inbox d !! k).
Qed.

Lemma same_at_business k b d : same_at k (set_business b d) d.
Proof. by split. Qed.

(** ** Sequences of local updates *)
Definition apply_all {A} (u : A -> DB B -> DB B) (l : list A) d : DB B :=
  fold_left (fun d a => u a d) l d.

Lemma apply_all_app {A} (u : A -> DB B -> DB B) l1 l2 d :
  apply_all u (l1 ++ l2) d = apply_all u l2 (apply_all u l1 d).
Proof. apply fold_left_app. Qed.

Lemma apply_all_ext {A} (u v : A -> DB B -> DB B) l d :
  (forall x d', x ∈ l -> u x d' = v x d') -> apply_all u l d = apply_all v l d.
Proof.
  revert d. induction l as [|x l IH]; intros d Huv; [done|]. unfold apply_all in *. simpl.
  rewrite Huv by left. apply IH. intros y d' Hy. apply Huv. by right.
Qed.

Lemma apply_all_frame {A} (id : A -> idkey) (u : A -> DB B -> DB B) l d k :
  Forall (fun a => local (id a) (u a)) l -> k ∉ List.map id l ->
  same_at k (apply_all u l d) d.
Proof.
  intros Hl Hk. revert d. induction Hl as [|a l Ha Hl IH]; intros d; [reflexivity|].
  simpl in *. rewrite not_elem_of_cons in Hk. destruct Hk as [Hka Hk].
  unfold apply_all in *. simpl. rewrite IH by done. by apply (local_frame _ _ Ha).
Qed.

Lemma apply_all_business {A} (id : A -> idkey) (u : A -> DB B -> DB B) l d :
  Forall (fun a => local (id a) (u a)) l -> business (apply_all u l d) = business d.
Proof.
  intros Hl. revert d. induction Hl as [|a l Ha Hl IH]; intros d; [done|].
  unfold apply_all in *. simpl. rewrite IH. apply (local_business _ _ Ha).
Qed.

Lemma apply_all_cong {A} (id : A -> idkey) (u : A -> DB B -> DB B) l d d' k :
  Forall (fun a => local (id a) (u a)) l -> same_at k d d' ->
  same_at k (apply_all u l d) (apply_all u l d').
Proof.
  intros Hl. revert d d'. induction Hl as [|a l Ha Hl IH]; intros d d' Hs; [done|].
  apply IH. destruct (decide (k = id a)) as [->|Hk]; [by apply (local_cong _ _ Ha)|].
  by rewrite !(local_frame _ _ Ha).
Qed.

(** Updates of different identities: each has its own effect. *)
Lemma apply_all_at {A} (id : A -> idkey) (u : A -> DB B -> DB B) l d a :
  Forall (fun a => local (id a) (u a)) l -> NoDup (List.map id l) -> a ∈ l ->
  same_at (id a) (apply_all u l d) (u a d).
Proof.
  intros Hl. revert d. induction Hl as [|x l Hx Hl IH]; intros d Hnd Hin.
  { by apply not_elem_of_nil in Hin. }
  simpl in Hnd. apply NoDup_cons in Hnd as [Hn Hnd].
  apply elem_of_cons in Hin as [->|Hin]; unfold apply_all; simpl.
  - by apply (apply_all_frame id u).
  - assert (id a <> id x) as Hne.
    { intros He. apply Hn. rewrite <- He. apply list_elem_of_In, in_map. by apply list_elem_of_In. }
    etrans; [by apply IH|]. apply (local_cong (id a) (u a)).
    + rewrite Forall_forall in Hl. by apply Hl.
    + by apply (local_frame _ _ Hx).
Qed.

(** Updates that change nothing at [k]. *)
Lemma apply_all_fixed {A} (id : A -> idkey) (u : A -> DB B -> DB B) l d k :
  Forall (fun a => local (id a) (u a)) l ->
  (forall x, x ∈ l -> id x = k -> same_at k (u x d) d) -> same_at k (apply_all u l d) d.
Proof.
  intros Hl. revert d. induction Hl as [|x l Hx Hl IH]; intros d Hfix; [reflexivity|].
  assert (same_at k (u x d) d) as Hs.
  { destruct (decide (id x = k)) as [He|Hne]; [apply Hfix; [left|done]|].
    by apply (local_frame _ _ Hx). }
  etrans; [|exact Hs]. apply IH. intros y Hy He. rewrite Forall_forall in Hl.
  specialize (Hl y Hy). rewrite He in Hl. rewrite Hs, <- (Hfix y) at 2 by (done || by right).
  by apply (local_cong _ _ Hl).
Qed.

(** Repetitions of an update that is done once. *)
Lemma apply_all_idem {A} (id : A -> idkey) (u : A -> DB B -> DB B) l d a :
  Forall (fun a => local (id a) (u a)) l ->
  (forall x, x ∈ l -> id x = id a -> u x = u a) ->
  (forall d, u a (u a d) = u a d) -> a ∈ l ->
  same_at (id a) (apply_all u l d) (u a d).
Proof.
  intros Hl Hsame Hidem. revert d.
  induction Hl as [|x l Hx Hl IH]; intros d Hin; [by apply not_elem_of_nil in Hin|].
  assert (forall y, y ∈ l -> id y = id a -> u y = u a) as Hsame'.
  { intros y Hy. apply Hsame. by right. }
  destruct (decide (id x = id a)) as [He|Hne].
  - unfold apply_all. simpl. rewrite (Hsame x) by (done || left).
    apply (apply_all_fixed id u); [done|]. intros y Hy Hya. by rewrite (Hsame' y), Hidem.
  - apply elem_of_cons in Hin as [->|Hin]; [done|]. unfold apply_all. simpl.
    etrans; [by apply IH|]. rewrite Forall_forall in Hl.
    apply (local_cong (id a) (u a)); [by apply Hl|]. by apply (local_frame _ _ Hx).
Qed.

(** ** The invariant, identity by identity *)
Record ok_at k d : Prop := {
  at_attempts r : attempts d !! k = Some r ->
    exists i, inbox d !! k = Some i /\ i_fingerprint i = a_fingerprint r /\ counter_ok (a_counter r);
  at_generations fp c : generations d !! (k, fp) = Some c -> is_Some (inbox d !! k) /\ counter_ok c;
  at_separate i : inbox d !! k = Some i -> generations d !! (k, i_fingerprint i) = None;
  at_terminal fp r : terminal d !! (k, fp) = Some r -> terminal_check r = true /\ counted k fp d;
  at_digest i : inbox d !! k = Some i -> Fingerprint_wf (i_fingerprint i);
  at_settled : settled k d }.

Lemma db_ok_at d : db_ok d <-> forall k, ok_at k d.
Proof.
  split.
  - intros [Hd Hs] k. split; try apply Hd. apply Hs.
  - intros H. split; [split|]; intros k; apply (H k).
Qed.

Lemma counted_same k fp d d' : same_at k d d' -> counted k fp d -> counted k fp d'.
Proof. intros [_ Ha Hg _]. unfold counted. by rewrite Ha, Hg. Qed.

Lemma ok_at_same k d d' : same_at k d d' -> ok_at k d -> ok_at k d'.
Proof.
  intros Hs [H1 H2 H3 H4 H5 H6]. pose proof Hs as [Hi Ha Hg Ht]. split.
  - rewrite <- Ha, <- Hi. done.
  - intros fp c. rewrite <- Hg, <- Hi. apply H2.
  - intros i. rewrite <- Hi, <- Hg. apply H3.
  - intros fp r. rewrite <- Ht. intros Hr. destruct (H4 _ _ Hr). split; [done|].
    by eapply counted_same.
  - intros i. rewrite <- Hi. apply H5.
  - intros i. rewrite <- Hi. intros Hki Hc. destruct (H6 i Hki Hc) as [[r Hr]|[f [c Hc']]].
    + left. rewrite <- Ha. eauto.
    + right. exists f. rewrite <- Hg. eauto.
Qed.
End Local.
