(* ===== verification/InboxBatch.v ===== *)
(** * Atomic batches of deliveries: the common algorithm

    Models [ProcessBatchAttempt] of [adapters/inbox/pgsql/batch.go] and
    [adapters/inbox/sqlite/batch.go].  The two files share the grouping of
    deliveries by message identity, the order in which groups are locked and
    handed to the handler, the decision per group and the assignment of
    outcomes to deliveries; they differ in the statements that read and write
    the tables, which are the record [batchOps]. *)
From S2P Require Import Prelude GoStrings Errors Ident Batch Inbox InboxSQL TerminalState.
From Stdlib Require Import Ascii.
Import Stdlib.Strings.String.
Open Scope string_scope.
Open Scope Z_scope.
Open Scope tx_scope.

#[global] Instance Zero_BatchProcessResult : Zero BatchProcessResult := BatchProcessResult0.

(** ** Groups *)
Record batchPreparedItem := { bp_index : nat; bp_item : BatchItem }.

Record batchAttemptState := { bs_kind : string; bs_attempt : Z; bs_terminal : bool }.
Definition batchAttemptState0 : batchAttemptState :=
  {| bs_kind := ""; bs_attempt := 0; bs_terminal := false |}.

(** [entries] and [matching] are slices that the algorithm indexes at 0 only
    when they are not empty. *)
Record batchGroup := {
  g_key : BatchItemKey;
  g_entries : list batchPreparedItem;
  g_matching : list batchPreparedItem;
  g_state : batchAttemptState;
  g_first : nat }.

Record batchClassified := { bc_kind : FailureKind; bc_delay : Duration; bc_err : option error }.

Definition BatchItem0 : BatchItem := {| it_Key := Key0; it_Fingerprint := Fingerprint0 |}.
(** [entries[0].item] *)
Definition first_item (l : list batchPreparedItem) : BatchItem :=
  match l with p :: _ => bp_item p | [] => BatchItem0 end.

Definition item_key (item : BatchItem) : BatchItemKey :=
  {| bk_Source := k_Source (it_Key item); bk_MessageID := k_MessageID (it_Key item) |}.

Definition new_group (index : nat) (item : BatchItem) : batchGroup :=
  {| g_key := item_key item; g_entries := [{| bp_index := index; bp_item := item |}];
     g_matching := []; g_state := batchAttemptState0; g_first := index |}.

Definition add_entry (index : nat) (item : BatchItem) (g : batchGroup) : batchGroup :=
  {| g_key := g_key g; g_entries := g_entries g ++ [{| bp_index := index; bp_item := item |}];
     g_matching := g_matching g; g_state := g_state g; g_first := g_first g |}.

(** One round of the grouping loop; the map [byKey] points into [groups]. *)
Fixpoint place (index : nat) (item : BatchItem) (groups : list batchGroup)
  : result error (list batchGroup) :=
  match groups with
  | [] => Ok [new_group index item]
  | g :: r =>
      if decide (g_key g = item_key item) then
        if String.eqb (k_AttemptGeneration (it_Key (first_item (g_entries g))))
             (k_AttemptGeneration (it_Key item))
        then Ok (add_entry index item g :: r)
        else Err (wrapS ErrInvalidBatchResult "mixed attempt generations")
      else (do r' <- place index item r; Ok (g :: r'))%go
  end.

Fixpoint place_all (index : nat) (items : list BatchItem) (groups : list batchGroup)
  : result error (list batchGroup) :=
  match items with
  | [] => Ok groups
  | item :: r => (do groups' <- place index item groups; place_all (S index) r groups')%go
  end.

Definition prepareBatchGroups (items : list BatchItem) : result error (list batchGroup) :=
  place_all 0 items [].

(** The order of [sort.Slice(lockOrder, ...)]; group keys are distinct. *)
Definition lock_le (a b : batchGroup) : Prop :=
  (if String.eqb (bk_Source (g_key a)) (bk_Source (g_key b))
   then String.leb (MessageID_String (bk_MessageID (g_key a))) (MessageID_String (bk_MessageID (g_key b)))
   else String.leb (bk_Source (g_key a)) (bk_Source (g_key b))) = true.
#[global] Instance lock_le_dec a b : Decision (lock_le a b).
Proof. unfold lock_le. apply _. Defined.

(** The order of [sort.Slice(active, ...)]. *)
Definition first_le (a b : batchGroup) : Prop := (g_first a <= g_first b)%nat.
#[global] Instance first_le_dec a b : Decision (first_le a b).
Proof. unfold first_le. apply _. Defined.

Definition batchGroupRepresentative (g : batchGroup) : BatchItem :=
  match g_matching g with
  | p :: _ => bp_item p
  | [] => first_item (g_entries g)
  end.

Definition selectBatchGroups (groups : list batchGroup) (generated : bool) : list batchGroup :=
  filter (fun g => Bool.eqb
    (negb (String.eqb (k_AttemptGeneration (it_Key (batchGroupRepresentative g))) "")) generated = true)
    groups.

Definition bs_closed (s : batchAttemptState) (maxAttempts : Z) : bool :=
  bs_terminal s || (maxAttempts <=? bs_attempt s) || negb (String.eqb (bs_kind s) "").

(** ** Outcomes *)
Definition set_key (key : Key) (dup : bool) (o : BatchItemOutcome) : BatchItemOutcome :=
  {| o_Key := key; o_Fingerprint := o_Fingerprint o; o_Outcome := o_Outcome o;
     o_Attempt := o_Attempt o; o_Duplicate := o_Duplicate o || dup; o_Delay := o_Delay o;
     o_FailureKind := o_FailureKind o; o_Err := o_Err o |}.

(** The loop of [assignBatchOutcome]; [later] is [index > 0]. *)
Fixpoint assign_entries (later : bool) (entries : list batchPreparedItem) (outcome : BatchItemOutcome)
  (outcomes : list BatchItemOutcome) : list BatchItemOutcome :=
  match entries with
  | [] => outcomes
  | e :: r =>
      assign_entries true r outcome
        (<[bp_index e := set_key (it_Key (bp_item e)) later outcome]> outcomes)
  end.

Definition assignBatchOutcome (outcomes : list BatchItemOutcome) (group : batchGroup)
  (outcome : BatchItemOutcome) : list BatchItemOutcome :=
  assign_entries false (g_matching group) outcome outcomes.

(** An entry whose fingerprint is not the stored one. *)
Definition conflict_outcome (item : BatchItem) : BatchItemOutcome :=
  {| o_Key := it_Key item; o_Fingerprint := it_Fingerprint item; o_Outcome := BatchDLQ;
     o_Attempt := 0; o_Duplicate := false; o_Delay := 0;
     o_FailureKind := FailureIdentityConflict; o_Err := Some (ESentinel ErrFingerprintConflict) |}.

(** The loop over [group.entries] that splits matching entries from conflicts. *)
Fixpoint match_entries (stored : Fingerprint) (entries : list batchPreparedItem)
  (outcomes : list BatchItemOutcome) : list batchPreparedItem * list BatchItemOutcome :=
  match entries with
  | [] => ([], outcomes)
  | e :: r =>
      if String.eqb stored (it_Fingerprint (bp_item e)) then
        let '(matching, outcomes) := match_entries stored r outcomes in (e :: matching, outcomes)
      else match_entries stored r (<[bp_index e := conflict_outcome (bp_item e)]> outcomes)
  end.

(** The group after the split. *)
Definition with_matching (g : batchGroup) (matching : list batchPreparedItem) : batchGroup :=
  {| g_key := g_key g; g_entries := g_entries g; g_matching := matching; g_state := g_state g;
     g_first := match matching with p :: _ => bp_index p | [] => g_first g end |}.
Definition with_state (g : batchGroup) (s : batchAttemptState) : batchGroup :=
  {| g_key := g_key g; g_entries := g_entries g; g_matching := g_matching g; g_state := s;
     g_first := g_first g |}.

(** A completed identity. *)
Definition duplicate_outcome (g : batchGroup) : BatchItemOutcome :=
  {| o_Key := Key0; o_Fingerprint := it_Fingerprint (first_item (g_matching g));
     o_Outcome := BatchACK; o_Attempt := bs_attempt (g_state g); o_Duplicate := true;
     o_Delay := 0; o_FailureKind := ""; o_Err := None |}.

(** A generation closed by an earlier delivery. *)
Definition closed_outcome (g : batchGroup) : BatchItemOutcome :=
  let permanent := bs_terminal (g_state g) || String.eqb (bs_kind (g_state g)) FailurePermanentKind in
  {| o_Key := Key0; o_Fingerprint := it_Fingerprint (first_item (g_matching g));
     o_Outcome := BatchDLQ; o_Attempt := bs_attempt (g_state g); o_Duplicate := false; o_Delay := 0;
     o_FailureKind := if permanent then FailurePermanentKind else FailureAttemptsExhausted;
     o_Err := if permanent then Permanent (Some (ESentinel ErrAttemptTerminal))
              else Some (ESentinel ErrAttemptsExhausted) |}.

(** What the rest of the loop does with a matching group: it is settled by an
    earlier delivery, or it is active. *)
Definition admit_group (maxAttempts : Z) (completed : bool) (g : batchGroup)
  (outcomes : list BatchItemOutcome) : option batchGroup * list BatchItemOutcome :=
  if completed then (None, assignBatchOutcome outcomes g (duplicate_outcome g))
  else if bs_closed (g_state g) maxAttempts then (None, assignBatchOutcome outcomes g (closed_outcome g))
  else (Some g, outcomes).

(** ** The statements a backend supplies *)
Record batchOps (B : Type) := {
  bo_name : string;
  bo_prepareIdentities : list batchGroup -> list BatchItemOutcome -> Z ->
    TX B BatchProcessResult (list batchGroup * list BatchItemOutcome);
  bo_incrementAttempts : list batchGroup -> TX B BatchProcessResult (gmap BatchItemKey Z);
  bo_markCompleted : list batchGroup -> TX B BatchProcessResult unit;
  bo_markTerminal : list batchGroup -> TX B BatchProcessResult unit }.
Arguments bo_name {B}. Arguments bo_prepareIdentities {B}. Arguments bo_incrementAttempts {B}.
Arguments bo_markCompleted {B}. Arguments bo_markTerminal {B}.

(** The host's handler works on the business tables of the transaction. *)
Definition InboxBatchHandler (B : Type) : Type :=
  list BatchItem -> B -> B * (BatchResult * option error).

Definition call_batch_handler {B V} (h : InboxBatchHandler B) (items : list BatchItem)
  : TX B V (BatchResult * option error) := fun d w =>
  let '(b, res) := h items (business d) in Cont (set_business b d) (called w) res.

(** ** The decision for an active group *)
Definition classified (err : option error) : batchClassified :=
  let '(kind, delay) := Classify err in {| bc_kind := kind; bc_delay := delay; bc_err := err |}.

Definition active_outcome (maxAttempts : Z) (attempts : gmap BatchItemKey Z) (g : batchGroup)
  (item : batchClassified) : BatchItemOutcome :=
  let base outcome attempt delay kind :=
    {| o_Key := Key0; o_Fingerprint := it_Fingerprint (first_item (g_matching g));
       o_Outcome := outcome; o_Attempt := attempt; o_Duplicate := false; o_Delay := delay;
       o_FailureKind := kind; o_Err := bc_err item |} in
  let attempt := default 0 (attempts !! g_key g) in
  match bc_kind item with
  | FailureDefer => base BatchDefer (bs_attempt (g_state g)) (bc_delay item) ""
  | FailureSuccess => base BatchACK attempt (bc_delay item) ""
  | FailurePermanent => base BatchDLQ attempt 0 FailurePermanentKind
  | FailureRetryAfter | FailureOrdinary =>
      if maxAttempts <=? attempt then base BatchDLQ attempt 0 FailureAttemptsExhausted
      else base BatchRetry attempt (bc_delay item) ""
  end.

Definition of_kind (p : FailureKind -> bool) (active : list (batchGroup * batchClassified))
  : list batchGroup :=
  List.map fst (filter (fun x => p (bc_kind x.2) = true) active).
Definition is_success (k : FailureKind) : bool := bool_decide (k = FailureSuccess).
Definition is_permanent (k : FailureKind) : bool := bool_decide (k = FailurePermanent).
Definition consumes (k : FailureKind) : bool := negb (bool_decide (k = FailureDefer)).

(** The loop that assigns the outcomes of the active groups. *)
Definition assign_active (maxAttempts : Z) (attempts : gmap BatchItemKey Z)
  (active : list (batchGroup * batchClassified)) (outcomes : list BatchItemOutcome)
  : list BatchItemOutcome :=
  fold_left (fun os x => assignBatchOutcome os x.1 (active_outcome maxAttempts attempts x.1 x.2))
    active outcomes.

Section BatchAttempt.
Context {B : Type} (ops : batchOps B).

Definition commitTerminalBatch (report : BatchProcessResult) : TX B BatchProcessResult Empty_set :=
  let* now := clock in
  let* _ := PreserveDeferred (Items report) now in
  let* now := clock in
  let* _ := Record_ (Items report) now in
  commit_return (bo_name ops ++ ": commit batch transaction") report None.

(** The part after the handler returned the errors of the active groups. *)
Definition settle_batch (maxAttempts : Z) (outcomes : list BatchItemOutcome)
  (handlerMessages : Z) (active : list (batchGroup * batchClassified))
  : TX B BatchProcessResult Empty_set :=
  let* attempts := bo_incrementAttempts ops (of_kind consumes active) in
  let outcomes := assign_active maxAttempts attempts active outcomes in
  let* _ := bo_markCompleted ops (of_kind is_success active) in
  let* _ := bo_markTerminal ops (of_kind is_permanent active) in
  commitTerminalBatch {| Items := outcomes; HandlerMessages := handlerMessages |}.

Definition ProcessBatchAttempt (items : list BatchItem) (maxAttempts : Z)
  (handler : InboxBatchHandler B) : TX B BatchProcessResult Empty_set :=
  if decide (items = []) then tx_return BatchProcessResult0 None
  else match prepareBatchGroups items with
  | Err e => tx_fail e
  | Ok groups =>
      let* _ := begin_tx (bo_name ops ++ ": begin batch transaction") in
      let lockOrder := merge_sort lock_le groups in
      let* prepared := bo_prepareIdentities ops lockOrder
        (repeat BatchItemOutcome0 (List.length items)) maxAttempts in
      let '(active, outcomes) := prepared in
      if decide (active = [])
      then commitTerminalBatch {| Items := outcomes; HandlerMessages := 0 |}
      else
        let active := merge_sort first_le active in
        let handlerItems := List.map (fun g => first_item (g_matching g)) active in
        let expected := List.map g_key active in
        let* answer := call_batch_handler handler handlerItems in
        let '(res, handlerErr) := answer in
        match handlerErr with
        | Some e =>
            if negb (bool_decide (res = [])) || IsFailClosed handlerErr
            then tx_fail (EFmt "invalid top-level batch failure" [ESentinel ErrInvalidBatchResult; e])
            else tx_fail e
        | None =>
            match ValidateResult expected res with
            | Err e => tx_fail e
            | Ok itemErrors =>
                settle_batch maxAttempts outcomes (Z.of_nat (List.length handlerItems))
                  (zip active (List.map classified itemErrors))
            end
        end
  end.
End BatchAttempt.
