(* ===== verification/InboxGroups.v ===== *)
(** * Groups and outcome arrays of a batch

    What the grouping loop builds, which array positions the assignments
    write, and the order in which the active groups reach the handler. *)
From S2P Require Import Prelude GoStrings Errors Ident Batch Inbox InboxSQL TerminalState.
From S2P Require Import InboxBatch.
Import Stdlib.Strings.String.
Open Scope string_scope.
Open Scope Z_scope.

(** ** Positions *)

(** The deliveries with their positions in the batch. *)
Definition entries (items : list BatchItem) : list batchPreparedItem :=
  imap (fun i it => {| bp_index := i; bp_item := it |}) items.

Definition entries_of (items : list BatchItem) (key : BatchItemKey) : list batchPreparedItem :=
  filter (fun e => item_key (bp_item e) = key) (entries items).

Lemma entries_snoc items it :
  entries (items ++ [it]) = (entries items ++ [{| bp_index := List.length items; bp_item := it |}])%list.
Proof. unfold entries. rewrite imap_app. simpl. by rewrite Nat.add_0_r. Qed.

Lemma elem_entries items e : e ∈ entries items <-> items !! bp_index e = Some (bp_item e).
Proof.
  unfold entries. rewrite elem_of_lookup_imap. split.
  - intros (i & it & -> & Hi). done.
  - intros Hi. exists (bp_index e), (bp_item e). split; [by destruct e|done].
Qed.

Lemma elem_entries_of items key e :
  e ∈ entries_of items key <-> items !! bp_index e = Some (bp_item e) /\ item_key (bp_item e) = key.
Proof. unfold entries_of. rewrite list_elem_of_filter, elem_entries. tauto. Qed.

Lemma entries_index_inj items e1 e2 :
  e1 ∈ entries items -> e2 ∈ entries items -> bp_index e1 = bp_index e2 -> e1 = e2.
Proof.
  rewrite !elem_entries. destruct e1, e2. simpl. intros H1 H2 ->. rewrite H1 in H2. by simplify_eq.
Qed.

Definition index_lt (a b : batchPreparedItem) : Prop := (bp_index a < bp_index b)%nat.

Lemma entries_sorted items : StronglySorted index_lt (entries items).
Proof.
  induction items as [|it items IH] using rev_ind; [constructor|].
  rewrite entries_snoc. apply StronglySorted_app_2; [|done|repeat constructor].
  intros x1 x2 H1%elem_entries H2. apply list_elem_of_singleton in H2 as ->.
  unfold index_lt. simpl. by apply lookup_lt_Some in H1.
Qed.

Lemma NoDup_entries items : NoDup (entries items).
Proof.
  pose proof (entries_sorted items) as Hs. induction Hs as [|e l Hs IH He]; [apply NoDup_nil_2|].
  apply NoDup_cons. split; [|done]. intros Hin. rewrite Forall_forall in He. specialize (He e Hin).
  unfold index_lt in He. lia.
Qed.

Lemma sorted_filter {A} (R : A -> A -> Prop) (P : A -> Prop) `{!forall x, Decision (P x)} l :
  StronglySorted R l -> StronglySorted R (filter P l).
Proof.
  induction 1 as [|x l Hl IH Hx]; [constructor|]. rewrite filter_cons.
  destruct (decide (P x)); [|done]. constructor; [done|].
  rewrite Forall_forall in *. intros y [_ Hy]%list_elem_of_filter. auto.
Qed.

Lemma sorted_weaken {A} (R S : A -> A -> Prop) l :
  (forall x y, R x y -> S x y) -> StronglySorted R l -> StronglySorted S l.
Proof.
  intros HRS. induction 1 as [|x l Hl IH Hx]; constructor; [done|].
  eapply Forall_impl; [done|]. auto.
Qed.

(** ** The grouping loop *)
Record grouped (items : list BatchItem) (groups : list batchGroup) : Prop := {
  gr_nodup : NoDup (List.map g_key groups);
  gr_entries g : g ∈ groups -> g_entries g = entries_of items (g_key g);
  gr_nonempty g : g ∈ groups -> g_entries g <> [];
  gr_fresh g : g ∈ groups -> g_matching g = [];
  gr_all it : it ∈ items -> item_key it ∈ List.map g_key groups }.

Definition one_generation (items : list BatchItem) : Prop := forall a b,
  a ∈ items -> b ∈ items -> item_key a = item_key b ->
  k_AttemptGeneration (it_Key a) = k_AttemptGeneration (it_Key b).

Lemma entries_of_snoc items it key :
  entries_of (items ++ [it]) key =
  (entries_of items key ++
   if decide (item_key it = key) then [{| bp_index := List.length items; bp_item := it |}] else [])%list.
Proof.
  unfold entries_of. rewrite entries_snoc, filter_app, filter_cons, filter_nil. simpl.
  by destruct (decide (item_key it = key)).
Qed.

Lemma elem_keys groups key : key ∈ List.map g_key groups <-> exists g, g ∈ groups /\ g_key g = key.
Proof.
  rewrite list_elem_of_In, in_map_iff. setoid_rewrite <- list_elem_of_In.
  split; intros (g & ? & ?); eauto.
Qed.

(** One delivery is placed in its group, or opens one. *)
Lemma place_ok index it groups :
  NoDup (List.map g_key groups) ->
  (forall g, g ∈ groups -> g_key g = item_key it ->
     k_AttemptGeneration (it_Key (first_item (g_entries g))) = k_AttemptGeneration (it_Key it)) ->
  exists groups', place index it groups = Ok groups' /\
    List.map g_key groups' = (List.map g_key groups ++
      if decide (item_key it ∈ List.map g_key groups) then [] else [item_key it])%list /\
    (forall g', g' ∈ groups' ->
       (g' ∈ groups /\ g_key g' <> item_key it) \/
       (exists g, g ∈ groups /\ g_key g = item_key it /\ g' = add_entry index it g) \/
       (item_key it ∉ List.map g_key groups /\ g' = new_group index it)).
Proof.
  induction groups as [|g groups IH]; intros Hnd Hgen; simpl.
  - exists [new_group index it]. split_and!; [done..|]. intros g' Hg'.
    apply list_elem_of_singleton in Hg' as ->. right; right. split; [|done]. apply not_elem_of_nil.
  - simpl in Hnd. apply NoDup_cons in Hnd as [Hn Hnd]. destruct (decide (g_key g = item_key it)) as [He|Hne].
    + rewrite (Hgen g) by (done || left). rewrite String.eqb_refl.
      eexists. split; [done|]. rewrite decide_True by (rewrite He; left).
      split; [by rewrite app_nil_r|]. intros g' [->|Hg']%elem_of_cons.
      * right; left. exists g. split_and!; [left|done..].
      * left. split; [by right|]. intros He'. apply Hn. rewrite He, <- He'. apply elem_keys. eauto.
    + destruct IH as (groups' & -> & Hk & Hall); [done|intros; apply Hgen; [by right|done]|].
      eexists. split; [done|]. simpl. rewrite Hk. split.
      * f_equal. f_equal. destruct (decide (item_key it ∈ List.map g_key groups)).
        -- by rewrite decide_True by by right.
        -- rewrite decide_False; [done|]. rewrite elem_of_cons. intros [?|?]; congruence.
      * intros g' [->|Hg']%elem_of_cons; [left; split; [left|done]|].
        destruct (Hall g' Hg') as [[??]|[(g0&?&?&?)|[??]]]; [left|right; left|right; right].
        -- split; [by right|done].
        -- exists g0. split_and!; [by right|done..].
        -- split; [|done]. rewrite elem_of_cons. intros [?|?]; congruence.
Qed.

Lemma place_grouped items it groups :
  one_generation (items ++ [it]) -> grouped items groups ->
  exists groups', place (List.length items) it groups = Ok groups' /\ grouped (items ++ [it]) groups'.
Proof.
  intros Hgen [Hnd Hent Hne Hfr Hall].
  destruct (place_ok (List.length items) it groups Hnd) as (groups' & Hp & Hk & Hcases).
  { intros g Hg He. destruct (g_entries g) as [|e r] eqn:Hge; [by apply Hne in Hg|]. simpl.
    assert (e ∈ entries_of items (g_key g)) as Hin by (rewrite <- Hent, Hge by done; left).
    apply elem_entries_of in Hin as [Hin Hke]. apply Hgen; [|apply elem_of_app; right; left|congruence].
    apply elem_of_app. left. by eapply list_elem_of_lookup_2. }
  exists groups'. split; [done|]. split.
  - rewrite Hk. destruct (decide _) as [|Hn]; [by rewrite app_nil_r|].
    apply NoDup_app. split_and!; [done| |apply NoDup_singleton].
    intros x Hx Hx'. apply list_elem_of_singleton in Hx' as ->. done.
  - intros g' Hg'. rewrite entries_of_snoc.
    destruct (Hcases g' Hg') as [[Hg Hne']|[(g & Hg & Hk' & ->)|[Hn ->]]].
    + rewrite decide_False, app_nil_r by congruence. by apply Hent.
    + simpl. rewrite decide_True by done. by rewrite Hent.
    + simpl. rewrite decide_True by done. replace (entries_of items (item_key it)) with (@nil batchPreparedItem); [done|].
      symmetry. apply elem_of_nil_inv. intros e [Hi Hk']%elem_entries_of. apply Hn. rewrite <- Hk'.
      apply Hall. by eapply list_elem_of_lookup_2.
  - intros g' Hg'. destruct (Hcases g' Hg') as [[Hg Hne']|[(g & Hg & Hk' & ->)|[Hn ->]]]; [by apply Hne| |done].
    simpl. by destruct (g_entries g).
  - intros g' Hg'. destruct (Hcases g' Hg') as [[Hg _]|[(g & Hg & _ & ->)|[_ ->]]]; [by apply Hfr| |done].
    simpl. by apply Hfr.
  - intros it' [Hit|Hit]%elem_of_app; rewrite Hk.
    + apply elem_of_app. left. by apply Hall.
    + apply list_elem_of_singleton in Hit as ->.
      destruct (decide _); [by rewrite app_nil_r|]. apply elem_of_app. right. left.
Qed.

Lemma place_all_grouped pre items groups :
  one_generation (pre ++ items) -> grouped pre groups ->
  exists groups', place_all (List.length pre) items groups = Ok groups' /\ grouped (pre ++ items) groups'.
Proof.
  revert pre groups. induction items as [|it items IH]; intros pre groups Hgen Hg; simpl.
  - exists groups. by rewrite app_nil_r.
  - assert (pre ++ it :: items = (pre ++ [it]) ++ items)%list as Heq by by rewrite <- app_assoc.
    rewrite Heq in *. destruct (place_grouped pre it groups) as (groups1 & -> & Hg1); [|done|].
    { intros a b Ha Hb. apply Hgen; apply elem_of_app; by left. }
    specialize (IH (pre ++ [it])%list groups1). rewrite length_app, Nat.add_1_r in IH. by apply IH.
Qed.

Lemma prepareBatchGroups_ok items : one_generation items ->
  exists groups, prepareBatchGroups items = Ok groups /\ grouped items groups.
Proof.
  intros Hgen. apply (place_all_grouped [] items []); [done|]. split; simpl.
  - apply NoDup_nil_2.
  - intros g Hg. by apply not_elem_of_nil in Hg.
  - intros g Hg. by apply not_elem_of_nil in Hg.
  - intros g Hg. by apply not_elem_of_nil in Hg.
  - intros it Hit. by apply not_elem_of_nil in Hit.
Qed.

Lemma grouped_perm items groups groups' : groups ≡ₚ groups' -> grouped items groups -> grouped items groups'.
Proof.
  intros Hp [H1 H2 H3 H5 H4]. assert (List.map g_key groups ≡ₚ List.map g_key groups') as Hk by by apply Permutation_map.
  split.
  - by rewrite <- Hk.
  - intros g. rewrite <- Hp. apply H2.
  - intros g. rewrite <- Hp. apply H3.
  - intros g. rewrite <- Hp. apply H5.
  - intros it. rewrite <- Hk. apply H4.
Qed.

(** ** Array positions *)
Definition write_all (ws : list (nat * BatchItemOutcome)) (os : list BatchItemOutcome)
  : list BatchItemOutcome := fold_left (fun os w => <[w.1 := w.2]> os) ws os.

Lemma write_all_app ws1 ws2 os : write_all (ws1 ++ ws2) os = write_all ws2 (write_all ws1 os).
Proof. apply fold_left_app. Qed.

Lemma length_write_all ws os : List.length (write_all ws os) = List.length os.
Proof.
  revert os. induction ws as [|w ws IH]; intros os; [done|]. simpl. rewrite IH. apply length_insert.
Qed.

(** Writes that agree with [f] and reach every position give [f]. *)
Lemma write_all_complete ws os f :
  (forall i o, (i, o) ∈ ws -> o = f i) ->
  (forall i, (i < List.length os)%nat -> i ∈ List.map fst ws) ->
  write_all ws os = List.map f (seq 0 (List.length os)).
Proof.
  intros Hf Hall.
  assert (forall i, (i < List.length os)%nat -> write_all ws os !! i = Some (f i)) as H.
  { intros i Hi. specialize (Hall i Hi). revert Hall.
    induction ws as [|[j o] ws IH] using rev_ind; intros Hin; [by apply not_elem_of_nil in Hin|].
    rewrite write_all_app. simpl. destruct (decide (i = j)) as [<-|Hne].
    - rewrite list_lookup_insert_eq by by rewrite length_write_all. f_equal.
      apply Hf. apply elem_of_app. right. left.
    - rewrite list_lookup_insert_ne by done. apply IH.
      + intros i' o' ?. apply Hf. apply elem_of_app. by left.
      + rewrite map_app in Hin. apply elem_of_app in Hin as [?|Hin]; [done|].
        by apply list_elem_of_singleton in Hin. }
  apply list_eq. intros i. destruct (decide (i < List.length os)%nat) as [Hi|Hi].
  - rewrite H by done. symmetry. rewrite list_lookup_fmap, lookup_seq_lt by done. done.
  - rewrite !lookup_ge_None_2; [done|..]; rewrite ?length_fmap, ?length_seq, ?length_write_all; lia.
Qed.

(** The writes of [assignBatchOutcome]. *)
Fixpoint entry_writes (later : bool) (es : list batchPreparedItem) (o : BatchItemOutcome)
  : list (nat * BatchItemOutcome) :=
  match es with
  | [] => []
  | e :: r => (bp_index e, set_key (it_Key (bp_item e)) later o) :: entry_writes true r o
  end.

Lemma assign_entries_writes later es o os :
  assign_entries later es o os = write_all (entry_writes later es o) os.
Proof. revert later os. induction es as [|e es IH]; intros later os; [done|]. apply IH. Qed.

Lemma elem_entry_writes later es o i x :
  (i, x) ∈ entry_writes later es o <->
  exists j e, es !! j = Some e /\ i = bp_index e /\
    x = set_key (it_Key (bp_item e)) (later || negb (Nat.eqb j 0)) o.
Proof.
  revert later. induction es as [|e es IH]; intros later; simpl.
  - split; [by intros ?%not_elem_of_nil|]. by intros (j & e & ? & _).
  - rewrite elem_of_cons, IH. split.
    + intros [?|(j & e' & Hj & -> & ->)]; simplify_eq.
      * exists 0%nat, e. by rewrite orb_false_r.
      * exists (S j), e'. split_and!; [done..|]. by rewrite orb_true_r.
    + intros ([|j] & e' & Hj & -> & ->); simplify_eq/=.
      * left. by rewrite orb_false_r.
      * right. exists j, e'. split_and!; [done..|]. by rewrite orb_true_r.
Qed.

Lemma entry_writes_indexes later es o : List.map fst (entry_writes later es o) = List.map bp_index es.
Proof. revert later. induction es as [|e es IH]; intros later; [done|]. simpl. by rewrite IH. Qed.

(** The writes of the split against the stored fingerprint. *)
Definition stored_as (stored : Fingerprint) (e : batchPreparedItem) : Prop :=
  stored = it_Fingerprint (bp_item e).
#[global] Instance stored_as_dec stored e : Decision (stored_as stored e).
Proof. unfold stored_as. apply _. Defined.

Definition conflict_writes (stored : Fingerprint) (es : list batchPreparedItem)
  : list (nat * BatchItemOutcome) :=
  List.map (fun e => (bp_index e, conflict_outcome (bp_item e))) (filter (fun e => ~ stored_as stored e) es).

Lemma match_entries_spec stored es os :
  match_entries stored es os = (filter (stored_as stored) es, write_all (conflict_writes stored es) os).
Proof.
  unfold conflict_writes. revert os. induction es as [|e es IH]; intros os; [done|].
  rewrite !filter_cons. cbn [match_entries].
  destruct (String.eqb_spec stored (it_Fingerprint (bp_item e))) as [He|He].
  - rewrite IH, decide_True, (decide_False (P := ~ _)) by (unfold stored_as; tauto). done.
  - rewrite IH, decide_False, (decide_True (P := ~ _)) by (unfold stored_as; tauto). done.
Qed.

(** The first of the entries with a fingerprint is the one without an earlier
    repetition. *)
Lemma first_matching items key stored j e :
  filter (stored_as stored) (entries_of items key) !! j = Some e ->
  j = 0%nat <-> forall e', e' ∈ entries items -> item_key (bp_item e') = key ->
    it_Fingerprint (bp_item e') = stored -> ~ index_lt e' e.
Proof.
  set (m := filter _ _). intros Hj.
  assert (StronglySorted index_lt m) as Hs by apply sorted_filter, sorted_filter, entries_sorted.
  assert (forall e', e' ∈ m <-> e' ∈ entries items /\ item_key (bp_item e') = key /\
    it_Fingerprint (bp_item e') = stored) as Hm.
  { intros e'. unfold m, entries_of. rewrite !list_elem_of_filter. unfold stored_as. naive_solver. }
  destruct m as [|e0 r] eqn:Hmr; [done|]. apply StronglySorted_inv in Hs as [_ Hr].
  rewrite Forall_forall in Hr. destruct j as [|j]; simpl in *.
  - injection Hj as ->. split; [|done]. intros _ e' He' Hk Hf.
    assert (e' ∈ e :: r) as Hin by by apply Hm.
    apply elem_of_cons in Hin as [->|Hin]; [|specialize (Hr e' Hin)]; unfold index_lt in *; lia.
  - split; [done|]. intros H. exfalso.
    destruct (proj1 (Hm e0) (list_elem_of_here _ _)) as (? & ? & ?). apply (H e0); [done..|].
    apply Hr. by eapply list_elem_of_lookup_2.
Qed.
