(* ===== verification/InboxBatchSpec.v ===== *)
(** * What a batch promises

    The specification of [BatchAttemptBackend.ProcessBatchAttempt] delivery by
    delivery, without groups, sorting or array positions; and the class
    [BatchBackend] of the laws the statements of a backend satisfy. *)
From S2P Require Import Prelude GoStrings Errors Ident Batch Inbox InboxSQL TerminalState InboxSpec.
From S2P Require Import InboxProps InboxEffects InboxLocal InboxBatch InboxGroups.
Import Stdlib.Strings.String.
Open Scope string_scope.
Open Scope Z_scope.

(** ** Per delivery *)
Inductive status : Set := Conflict | Completed | Closed (permanent : bool) | Active.
#[global] Instance status_eq_dec : EqDecision status.
Proof. solve_decision. Defined.

Section Items.
Context {B : Type} (items : list BatchItem) (maxAttempts : Z).
Implicit Types (d : DB B) (it : BatchItem).

(** The fingerprint of the identity: the stored one, or that of the first
    delivery of the batch for it. *)
Definition stored_fingerprint d it : Fingerprint :=
  match inbox d !! key_id (it_Key it) with
  | Some r => i_fingerprint r
  | None => it_Fingerprint (first_item (entries_of items (item_key it)))
  end.

Definition attempts_of d it : Z :=
  match state_of (it_Key it) (it_Fingerprint it) d with Some (n, _, _) => n | None => 0 end.

Definition status_of d it : status :=
  if negb (String.eqb (stored_fingerprint d it) (it_Fingerprint it)) then Conflict
  else if completed (key_id (it_Key it)) d then Completed
  else match state_of (it_Key it) (it_Fingerprint it) d with
  | None => Active
  | Some (n, flag, kind) =>
      if flag || String.eqb kind FailurePermanentKind then Closed true
      else if (maxAttempts <=? n) || String.eqb kind FailureAttemptsExhausted then Closed false
      else Active
  end.

(** An earlier delivery of the batch carries the same message. *)
Definition repeated (e : batchPreparedItem) : bool :=
  existsb (fun p => bool_decide (item_key p = item_key (bp_item e))
                    && String.eqb (it_Fingerprint p) (it_Fingerprint (bp_item e)))
    (take (bp_index e) items).

(** The deliveries the handler sees: one per active message, in input order. *)
Definition leader d (e : batchPreparedItem) : bool :=
  bool_decide (status_of d (bp_item e) = Active) && negb (repeated e).
Definition leaders d : list BatchItem :=
  List.map bp_item (filter (fun e => leader d e = true) (entries items)).

(** The outcome of a delivery whose message the handler answered with [err]. *)
Definition settled_outcome (n : Z) (err : option error) (it : BatchItem) (dup : bool) : BatchItemOutcome :=
  let outcome o m delay kind e dup :=
    {| o_Key := it_Key it; o_Fingerprint := it_Fingerprint it; o_Outcome := o; o_Attempt := m;
       o_Duplicate := dup; o_Delay := delay; o_FailureKind := kind; o_Err := e |} in
  match Classify err with
  | (FailureSuccess, delay) => outcome BatchACK (n + 1) delay "" err dup
  | (FailurePermanent, _) => outcome BatchDLQ (n + 1) 0 FailurePermanentKind err dup
  | (FailureDefer, delay) => outcome BatchDefer n delay "" err dup
  | (FailureRetryAfter, delay) | (FailureOrdinary, delay) =>
      if maxAttempts <=? n + 1 then outcome BatchDLQ (n + 1) 0 FailureAttemptsExhausted err dup
      else outcome BatchRetry (n + 1) delay "" err dup
  end.

Definition spec_outcome (errs : BatchItemKey -> option error) d (e : batchPreparedItem) : BatchItemOutcome :=
  let it := bp_item e in
  let outcome o kind err dup :=
    {| o_Key := it_Key it; o_Fingerprint := it_Fingerprint it; o_Outcome := o;
       o_Attempt := attempts_of d it; o_Duplicate := dup; o_Delay := 0; o_FailureKind := kind;
       o_Err := err |} in
  match status_of d it with
  | Conflict => conflict_outcome it
  | Completed => outcome BatchACK "" None true
  | Closed true =>
      outcome BatchDLQ FailurePermanentKind (Permanent (Some (ESentinel ErrAttemptTerminal))) (repeated e)
  | Closed false =>
      outcome BatchDLQ FailureAttemptsExhausted (Some (ESentinel ErrAttemptsExhausted)) (repeated e)
  | Active => settled_outcome (attempts_of d it) (errs (item_key it)) it (repeated e)
  end.

Definition spec_items (errs : BatchItemKey -> option error) d : list BatchItemOutcome :=
  List.map (spec_outcome errs d) (entries items).

(** The tables after the batch: each message has the rows that a delivery of
    its own would leave when its handler answers with the same error, for some
    readings of the clock; every other identity keeps its rows. *)
Definition batch_rows (errs : BatchItemKey -> option error) d (d' : DB B) : Prop :=
  (forall it, it ∈ items -> status_of d it <> Conflict -> exists w,
     same_at (key_id (it_Key it)) d'
       (op_db (spec_ProcessAttempt (it_Key it) (it_Fingerprint it) maxAttempts
                 (fun b => (b, errs (item_key it))) d w))) /\
  (forall k, (forall it, it ∈ items -> key_id (it_Key it) = k -> status_of d it = Conflict) ->
     same_at k d' d).

(** The error a valid result carries for a key. *)
Definition result_errors (res : BatchResult) (key : BatchItemKey) : option error :=
  default None (item_map res !! key).
End Items.

(** ** One batch *)

(** What an undisturbed batch does and answers. *)
Definition batch_spec {B} (items : list BatchItem) (maxAttempts : Z) (h : InboxBatchHandler B)
  (d : DB B) (w : env) (r : opResult B BatchProcessResult) : Prop :=
  let lead := leaders items maxAttempts d in
  let committed errs n b :=
    op_err r = None /\
    op_value r = {| Items := spec_items items maxAttempts errs d; HandlerMessages := n |} /\
    business (op_db r) = b /\ batch_rows items maxAttempts errs d (op_db r) in
  let refused e := op_db r = d /\ op_value r = BatchProcessResult0 /\ op_err r = Some e in
  if decide (lead = [])
  then e_handlerCalls (op_env r) = e_handlerCalls w /\ committed (fun _ => None) 0 (business d)
  else
    let '(b, (res, handlerErr)) := h lead (business d) in
    e_handlerCalls (op_env r) = S (e_handlerCalls w) /\
    match handlerErr with
    | Some e =>
        refused (if negb (bool_decide (res = [])) || IsFailClosed (Some e)
                 then EFmt "invalid top-level batch failure" [ESentinel ErrInvalidBatchResult; e] else e)
    | None =>
        match ValidateResult (List.map item_key lead) res with
        | Err e => refused e
        | Ok _ => committed (result_errors res) (Z.of_nat (List.length lead)) b
        end
    end.

(** A batch the store accepts: one consumer, one generation per message,
    digests as fingerprints, no accidental collision. *)
Record batch_ok (items : list BatchItem) : Prop := {
  bo_generation : one_generation items;
  bo_consumer a b : a ∈ items -> b ∈ items -> k_ConsumerID (it_Key a) = k_ConsumerID (it_Key b);
  bo_each it : it ∈ items -> Fingerprint_wf (it_Fingerprint it) /\
    MessageID_wf (k_MessageID (it_Key it)) /\ collision_free (it_Key it) (it_Fingerprint it) }.

(** ** Per group *)
Definition gkey (g : batchGroup) : Key := it_Key (first_item (g_entries g)).
Definition group_id (g : batchGroup) : idkey := key_id (gkey g).
Definition gfp (g : batchGroup) : Fingerprint := it_Fingerprint (first_item (g_matching g)).

Record group_wf (consumer : string) (g : batchGroup) : Prop := {
  gw_nonempty : g_entries g <> [];
  gw_key : g_key g = item_key (first_item (g_entries g));
  gw_consumer : k_ConsumerID (gkey g) = consumer;
  gw_id : MessageID_wf (k_MessageID (gkey g));
  gw_entries e : e ∈ g_entries g -> it_Key (bp_item e) = gkey g }.

Definition groups_wf (consumer : string) (gs : list batchGroup) : Prop :=
  NoDup (List.map g_key gs) /\ Forall (group_wf consumer) gs.

Section Groups.
Context {B : Type}.
Implicit Types (d : DB B) (g : batchGroup) (gs : list batchGroup).

(** A group whose matching entries carry the stored fingerprint. *)
Record group_matched (consumer : string) d g : Prop := {
  gm_wf : group_wf consumer g;
  gm_nonempty : g_matching g <> [];
  gm_matching e : e ∈ g_matching g -> e ∈ g_entries g;
  gm_identified : identified (group_id g) (gfp g) d }.

Definition bs_of (s : option (Z * bool * string)) : batchAttemptState :=
  match s with
  | Some (n, flag, kind) => {| bs_kind := kind; bs_attempt := n; bs_terminal := flag |}
  | None => batchAttemptState0
  end.

Definition group_stored d g : Fingerprint :=
  match inbox d !! group_id g with Some r => i_fingerprint r | None => "" end.
Definition group_matching d g : list batchPreparedItem :=
  filter (stored_as (group_stored d g)) (g_entries g).
Definition admitted d g : batchGroup :=
  with_state (with_matching g (group_matching d g)) (bs_of (state_of (gkey g) (group_stored d g) d)).

(** What preparation decides for a group, [d] being the tables with all
    identities inserted. *)
Definition group_writes (maxAttempts : Z) d g : list (nat * BatchItemOutcome) :=
  conflict_writes (group_stored d g) (g_entries g) ++
  (if decide (group_matching d g = []) then []
   else if completed (group_id g) d
   then entry_writes false (group_matching d g) (duplicate_outcome (admitted d g))
   else if bs_closed (g_state (admitted d g)) maxAttempts
   then entry_writes false (group_matching d g) (closed_outcome (admitted d g))
   else []).

Definition group_active (maxAttempts : Z) d g : option batchGroup :=
  if decide (group_matching d g = []) then None
  else if completed (group_id g) d then None
  else if bs_closed (g_state (admitted d g)) maxAttempts then None
  else Some (admitted d g).

(** Stamped updates of groups. *)
Definition ensure_group (x : Time * batchGroup) d : DB B :=
  ensure_identity (group_id x.2) (it_Fingerprint (first_item (g_entries x.2))) x.1 d.
Definition consume_group (x : Time * batchGroup) d : DB B := consume (gkey x.2) (gfp x.2) x.1 d.
Definition complete_group (x : Time * batchGroup) d : DB B := complete_identity (group_id x.2) x.1 d.
Definition flag_group (x : Time * batchGroup) d : DB B := flag_permanent (gkey x.2) (gfp x.2) x.1 d.
End Groups.

(** ** The laws of a backend's statements *)

(** An undisturbed step applies [u] to every group of [gs] once, at some times
    and in some order, without a handler call. *)
Definition applies {B A} (m : TX B BatchProcessResult A) (u : Time * batchGroup -> DB B -> DB B)
  (gs : list batchGroup) (d : DB B) (w : env) (P : A -> Prop) : Prop :=
  exists l w' a, List.map snd l ≡ₚ gs /\ e_handlerCalls w' = e_handlerCalls w /\ P a /\
    m d (quiet w) = Cont (apply_all u l d) (quiet w') a.

Class BatchBackend {B : Type} (ops : batchOps B) := {
  bb_atomic_prepare gs os n : atomic (bo_prepareIdentities ops gs os n);
  bb_atomic_increment gs : atomic (bo_incrementAttempts ops gs);
  bb_atomic_completed gs : atomic (bo_markCompleted ops gs);
  bb_atomic_terminal gs : atomic (bo_markTerminal ops gs);
  bb_prepare consumer gs os n d w : groups_wf consumer gs ->
    Forall (fun g => g_matching g = []) gs -> rows_ok d -> (forall l, List.map snd l ≡ₚ gs -> rows_ok (apply_all ensure_group l d)) ->
    gs <> [] ->
    exists l w' ws, List.map snd l ≡ₚ gs /\ e_handlerCalls w' = e_handlerCalls w /\
      let d1 := apply_all ensure_group l d in
      ws ≡ₚ List.concat (List.map (group_writes n d1) gs) /\
      bo_prepareIdentities ops gs os n d (quiet w)
      = Cont d1 (quiet w') (omap (group_active n d1) gs, write_all ws os);
  bb_increment consumer gs d w : NoDup (List.map g_key gs) ->
    Forall (group_matched consumer d) gs -> rows_ok d ->
    applies (bo_incrementAttempts ops gs) consume_group gs d w (fun m =>
      forall g, g ∈ gs -> m !! g_key g = Some (bs_attempt (bs_of (state_of (gkey g) (gfp g) d)) + 1));
  bb_completed consumer gs d w : NoDup (List.map g_key gs) ->
    Forall (group_matched consumer d) gs ->
    applies (bo_markCompleted ops gs) complete_group gs d w (fun _ => True);
  bb_terminal consumer gs d w : NoDup (List.map g_key gs) ->
    Forall (group_matched consumer d) gs -> rows_ok d ->
    applies (bo_markTerminal ops gs) flag_group gs d w (fun _ => True) }.
