(* ===== verification/InboxBatchProps.v ===== *)
(** * A batch, message by message

    Any backend of the class [BatchBackend]: the undisturbed run of
    [ProcessBatchAttempt] reports the specified outcomes and leaves, for every
    message, the rows a delivery of its own would leave. *)
From S2P Require Import Prelude GoStrings Errors Ident Batch Inbox InboxSQL TerminalState InboxSpec.
From S2P Require Import InboxProps InboxRefine InboxEffects InboxClosed InboxLocal InboxBatch.
From S2P Require Import InboxGroups InboxBatchSpec.
Import Stdlib.Strings.String.
Open Scope string_scope.
Open Scope Z_scope.

(** ** The shared commit *)
Section Commit.
Context {B V : Type} `{Zero V}.
Implicit Types (d : DB B) (w : env).

Lemma each_exec_quiet {A} label (f : DB B -> A -> DB B) (cs : list (list A)) d w :
  tx_each (V := V) (fun chunk => exec label (fun d => (fold_left f chunk d, tt))) cs d (quiet w)
  = Cont (fold_left f (List.concat cs) d) (quiet w) tt.
Proof.
  revert d. induction cs as [|c cs IH]; intros d; [done|]. cbn [tx_each].
  rewrite tx_bind_eq, exec_quiet. cbn. by rewrite IH, fold_left_app.
Qed.

Definition keep_item (now : Time) (item : BatchItemOutcome) d : DB B :=
  keep_deferred (o_Key item) (o_Fingerprint item) now d.
Definition record_item (now : Time) (item : BatchItemOutcome) d : DB B :=
  record_terminal (o_Key item) (o_Fingerprint item) (o_Attempt item) (o_FailureKind item) now d.

Lemma preserve_item replay now item d :
  Bool.eqb (negb (String.eqb (k_AttemptGeneration (o_Key item)) "")) replay = true ->
  sql_preserve_item replay now item d = keep_item now item d.
Proof.
  fold (legacy (o_Key item)). unfold sql_preserve_item, keep_item, keep_deferred, outcome_key, counter_of, set_counter.
  intros <-%eqb_prop. destruct (legacy (o_Key item)) eqn:Hl; simpl.
  - rewrite (legacy_fingerprint _ _ Hl). by destruct (attempts d !! _).
  - by destruct (generations d !! _).
Qed.

Lemma preserve_items replay now items d :
  fold_left (fun d item => sql_preserve_item replay now item d) (deferred_items replay items) d
  = apply_all (keep_item now) (deferred_items replay items) d.
Proof.
  assert (Forall (fun item => Bool.eqb (negb (String.eqb (k_AttemptGeneration (o_Key item)) "")) replay = true)
    (deferred_items replay items)) as HF.
  { apply Forall_forall. intros item [Hp _]%list_elem_of_filter. by bool_simpl. }
  revert d. induction HF as [|item l Hi HF IH]; intros d; [done|]. unfold apply_all. simpl.
  rewrite preserve_item by done. apply IH.
Qed.

Lemma PreserveDeferred_quiet items now d w :
  PreserveDeferred (V := V) items now d (quiet w)
  = Cont (apply_all (keep_item now) (deferred_items false items ++ deferred_items true items) d) (quiet w) tt.
Proof.
  unfold PreserveDeferred. cbn [tx_each]. unfold preserveDeferredChunk, sql_preserve.
  rewrite tx_bind_eq, each_exec_quiet, concat_chunks_of by (unfold chunkSize; lia).
  rewrite tx_bind_eq, each_exec_quiet, concat_chunks_of by (unfold chunkSize; lia).
  unfold apply_all. rewrite fold_left_app, !preserve_items. done.
Qed.

Definition recordable (item : BatchItemOutcome) : Prop := is_terminal item = true -> 1 <= o_Attempt item.

Lemma record_check item now : is_terminal item = true -> recordable item ->
  terminal_check (new_terminal item now) = true.
Proof.
  unfold is_terminal, terminal_check. intros Ht Hr. pose proof (Hr Ht). simpl. bool_simpl.
  rewrite (proj2 (Z.ltb_lt 0 _)) by lia. done.
Qed.

Lemma sql_record_all items now d :
  Forall (fun item => is_terminal item = true /\ recordable item) items ->
  sql_record items now d = Ok (apply_all (record_item now) items d, tt).
Proof.
  intros HF. revert d. induction HF as [|item l [Ht Hr] HF IH]; intros d; [done|]. simpl.
  rewrite record_check by done. rewrite IH. done.
Qed.

Lemma each_record_quiet cs now d w :
  Forall (fun item => is_terminal item = true /\ recordable item) (List.concat cs) ->
  tx_each (V := V) (fun chunk => stmt "inbox: persist terminal generations" (sql_record chunk now)) cs d (quiet w)
  = Cont (apply_all (record_item now) (List.concat cs) d) (quiet w) tt.
Proof.
  revert d. induction cs as [|c cs IH]; intros d HF; [done|]. cbn [tx_each List.concat] in *.
  apply Forall_app in HF as [H1 H2]. rewrite tx_bind_eq, stmt_quiet, sql_record_all by done.
  cbn. rewrite IH by done. unfold apply_all. by rewrite fold_left_app.
Qed.

(** What the [seen] map leaves. *)
Lemma terminal_items_spec seen items :
  let l := terminal_items seen items in
  (forall x, x ∈ l -> x ∈ items /\ is_terminal x = true /\ outcome_key x ∉ seen) /\
  NoDup (List.map outcome_key l) /\
  (forall x, x ∈ items -> is_terminal x = true -> outcome_key x ∉ seen ->
     exists y, y ∈ l /\ outcome_key y = outcome_key x).
Proof.
  revert seen. induction items as [|item items IH]; intros seen; simpl.
  { split_and!; [by intros x ?%not_elem_of_nil|apply NoDup_nil_2|by intros x ?%not_elem_of_nil]. }
  destruct (is_terminal item) eqn:Ht; [case_decide as Hs|].
  - destruct (IH seen) as (H1 & H2 & H3). split_and!; [|done|].
    + intros x Hx. destruct (H1 x Hx) as (? & ? & ?). split_and!; [by right|done..].
    + intros x [->|Hx]%elem_of_cons Hx' Hn; [done|by apply H3].
  - destruct (IH ({[outcome_key item]} ∪ seen)) as (H1 & H2 & H3). split_and!.
    + intros x [->|Hx]%elem_of_cons; [split_and!; [left|done..]|].
      destruct (H1 x Hx) as (? & ? & ?). split_and!; [by right|done|set_solver].
    + simpl. apply NoDup_cons. split; [|done]. intros Hin.
      apply list_elem_of_In, in_map_iff in Hin as (y & Hy & Hin). apply list_elem_of_In in Hin.
      destruct (H1 y Hin) as (_ & _ & Hn). rewrite Hy in Hn. set_solver.
    + intros x Hx Hxt Hn. destruct (decide (outcome_key x = outcome_key item)) as [He|Hne].
      { exists item. split; [left|done]. }
      apply elem_of_cons in Hx as [->|Hx]; [done|].
      destruct (H3 x Hx Hxt) as (y & ? & ?); [set_solver|]. exists y. split; [by right|done].
  - destruct (IH seen) as (H1 & H2 & H3). split_and!; [|done|].
    + intros x Hx. destruct (H1 x Hx) as (? & ? & ?). split_and!; [by right|done..].
    + intros x [->|Hx]%elem_of_cons Hx' Hn; [congruence|by apply H3].
Qed.

Lemma Record_quiet items now d w : Forall recordable items ->
  Record_ (V := V) items now d (quiet w)
  = Cont (apply_all (record_item now) (terminal_items ∅ items) d) (quiet w) tt.
Proof.
  intros Hr. unfold Record_. rewrite each_record_quiet;
    rewrite concat_chunks_of by (unfold chunkSize; lia); [done|].
  apply Forall_forall. intros x Hx. destruct (terminal_items_spec ∅ items) as (H1 & _).
  destruct (H1 x Hx) as (? & ? & _). split; [done|]. rewrite Forall_forall in Hr. by apply Hr.
Qed.
End Commit.

(** ** Groups and deliveries *)
Section Bridge.
Context {B : Type} (items : list BatchItem) (Hok : batch_ok items).
Implicit Types (d : DB B) (it : BatchItem) (g : batchGroup).

Lemma same_message_key a b : a ∈ items -> b ∈ items -> item_key a = item_key b -> it_Key a = it_Key b.
Proof.
  intros Ha Hb He. pose proof (bo_generation items Hok a b Ha Hb He) as Hg.
  pose proof (bo_consumer items Hok a b Ha Hb) as Hc. unfold item_key in He.
  destruct (it_Key a), (it_Key b). simpl in *. simplify_eq. congruence.
Qed.

Lemma entry_item e : e ∈ entries items -> bp_item e ∈ items.
Proof. rewrite elem_entries. apply list_elem_of_lookup_2. Qed.

Lemma entries_of_in key e : e ∈ entries_of items key ->
  e ∈ entries items /\ bp_item e ∈ items /\ item_key (bp_item e) = key.
Proof.
  rewrite elem_entries_of, <- elem_entries. intros [He Hk]. split_and!; [done| |done].
  by apply entry_item.
Qed.

Definition consumer : string := k_ConsumerID (it_Key (default BatchItem0 (head items))).

Lemma consumer_all it : it ∈ items -> k_ConsumerID (it_Key it) = consumer.
Proof.
  intros Hit. unfold consumer. destruct items as [|it0 r] eqn:Hi; [by apply not_elem_of_nil in Hit|].
  simpl. rewrite <- Hi in *. apply (bo_consumer items Hok); [done|]. rewrite Hi. left.
Qed.

Lemma first_item_in (l : list batchPreparedItem) : l <> [] -> exists e, e ∈ l /\ first_item l = bp_item e.
Proof. destruct l as [|e l]; [done|]. intros _. exists e. split; [left|done]. Qed.

Lemma grouped_wf gs : grouped items gs -> groups_wf consumer gs.
Proof.
  intros [Hnd Hent Hne _ Hall]. split; [done|]. apply Forall_forall. intros g Hg.
  destruct (first_item_in (g_entries g) (Hne g Hg)) as (e0 & He0 & Hf).
  rewrite Hent in He0 by done. apply entries_of_in in He0 as (_ & Hin0 & Hk0).
  split; unfold gkey; rewrite ?Hf.
  - by apply Hne.
  - done.
  - by apply consumer_all.
  - by apply (bo_each items Hok).
  - intros e. rewrite Hent by done. intros (_ & Hin & Hk)%entries_of_in.
    apply same_message_key; [done..|congruence].
Qed.

Lemma item_group gs it : grouped items gs -> it ∈ items ->
  exists g, g ∈ gs /\ g_key g = item_key it /\ gkey g = it_Key it.
Proof.
  intros Hg Hit. destruct (proj1 (elem_keys gs (item_key it)) (gr_all _ _ Hg it Hit)) as (g & Hin & Hk).
  exists g. split_and!; [done..|]. destruct (grouped_wf gs Hg) as [_ HF]. rewrite Forall_forall in HF.
  destruct (first_item_in (g_entries g) (gr_nonempty _ _ Hg g Hin)) as (e0 & He0 & Hf).
  rewrite (gr_entries _ _ Hg g Hin) in He0. apply entries_of_in in He0 as (_ & Hin0 & Hk0).
  unfold gkey. rewrite Hf. apply same_message_key; [done..|congruence].
Qed.
End Bridge.

Lemma group_wf_id c g1 g2 : group_wf c g1 -> group_wf c g2 -> group_id g1 = group_id g2 -> g_key g1 = g_key g2.
Proof.
  intros H1 H2. rewrite (gw_key _ _ H1), (gw_key _ _ H2). unfold group_id, key_id, item_key.
  fold (gkey g1) (gkey g2). intros Heq. injection Heq as _ Hs Hm.
  rewrite Hs. f_equal. apply MessageID_String_inj; [apply H1|apply H2|done].
Qed.

Lemma NoDup_map_inj {A K1 K2} (f : A -> K1) (h : A -> K2) (l : list A) :
  (forall a b, a ∈ l -> b ∈ l -> h a = h b -> f a = f b) ->
  NoDup (List.map f l) -> NoDup (List.map h l).
Proof.
  induction l as [|x l IH]; simpl; [intros _ _; apply NoDup_nil_2|].
  intros Hinj [Hn Hnd]%NoDup_cons. apply NoDup_cons. split.
  - rewrite list_elem_of_In, in_map_iff. intros (y & Hy & Hin). apply Hn.
    apply list_elem_of_In in Hin. rewrite (Hinj x y) by (done || left || by right).
    apply list_elem_of_In, in_map. by apply list_elem_of_In.
  - apply IH; [|done]. intros a b Ha Hb. apply Hinj; by right.
Qed.

Lemma groups_wf_ids c gs : groups_wf c gs -> NoDup (List.map group_id gs).
Proof.
  intros [Hnd HF]. rewrite Forall_forall in HF. eapply NoDup_map_inj; [|exact Hnd].
  intros a b Ha Hb. apply (group_wf_id c); auto.
Qed.

(** ** Inserting the identities of a batch *)
Section Insert.
Context {B : Type} (c : string) (gs : list batchGroup) (Hgs : groups_wf c gs).
Context (d : DB B) (l : list (Time * batchGroup)) (Hl : List.map snd l ≡ₚ gs).
Let d1 := apply_all ensure_group l d.

Lemma stamped_local {u : Time * batchGroup -> DB B -> DB B} :
  (forall x, local (group_id x.2) (u x)) -> Forall (fun x => local (group_id x.2) (u x)) l.
Proof. intros Hu. apply Forall_forall. auto. Qed.

Lemma ensure_group_local (x : Time * batchGroup) : local (B := B) (group_id x.2) (ensure_group x).
Proof. apply local_ensure. Qed.

Lemma stamped_ids : NoDup (List.map (fun x => group_id x.2) l).
Proof.
  rewrite <- (map_map snd group_id). rewrite Hl. by apply (groups_wf_ids c).
Qed.

Lemma stamped_in g : g ∈ gs -> exists t, (t, g) ∈ l.
Proof.
  rewrite <- Hl, list_elem_of_In, in_map_iff. intros ([t g'] & <- & Hin). exists t.
  by apply list_elem_of_In.
Qed.

Lemma insert_tables : attempts d1 = attempts d /\ generations d1 = generations d /\
  terminal d1 = terminal d /\ business d1 = business d.
Proof.
  unfold d1. clear d1 Hl. revert d. induction l as [|x l' IH]; intros d0; [done|].
  unfold apply_all in *. simpl. destruct (IH (ensure_group x d0)) as (-> & -> & -> & ->).
  unfold ensure_group, ensure_identity, sql_insertIdentity. by destruct (inbox d0 !! _).
Qed.

Lemma insert_state key fp : state_of key fp d1 = state_of key fp d.
Proof.
  destruct insert_tables as (Ha & Hg & Ht & _). unfold state_of, sql_readAttempt, sql_readAttemptGeneration, closed_kind.
  by rewrite Ha, Hg, Ht.
Qed.

Lemma insert_at g : g ∈ gs -> exists t, same_at (group_id g) d1 (ensure_group (t, g) d).
Proof.
  intros [t Hin]%stamped_in. exists t.
  apply (apply_all_at (fun x => group_id x.2) ensure_group l d (t, g));
    [apply stamped_local, ensure_group_local|apply stamped_ids|done].
Qed.

Lemma insert_frame k : k ∉ List.map group_id gs -> same_at k d1 d.
Proof.
  intros Hk. apply (apply_all_frame (fun x => group_id x.2)); [apply stamped_local, ensure_group_local|].
  rewrite <- (map_map snd group_id). by rewrite Hl.
Qed.

Lemma insert_completed g : g ∈ gs -> completed (group_id g) d1 = completed (group_id g) d.
Proof.
  intros [t [Hi _ _ _]]%insert_at. unfold completed. rewrite Hi.
  unfold ensure_group, ensure_identity, sql_insertIdentity. simpl.
  destruct (inbox d !! group_id g) eqn:Hk; simpl; [by rewrite Hk|by rewrite lookup_insert_eq].
Qed.

Lemma insert_stored g : g ∈ gs -> group_stored d1 g =
  match inbox d !! group_id g with
  | Some r => i_fingerprint r
  | None => it_Fingerprint (first_item (g_entries g))
  end.
Proof.
  intros [t [Hi _ _ _]]%insert_at. unfold group_stored. rewrite Hi.
  unfold ensure_group, ensure_identity, sql_insertIdentity. simpl.
  destruct (inbox d !! group_id g) eqn:Hk; simpl; [by rewrite Hk|by rewrite lookup_insert_eq].
Qed.
End Insert.

(** ** The report *)
Section Report.
Context {B : Type} (items : list BatchItem) (Hok : batch_ok items).
Context (gs : list batchGroup) (Hgr : grouped items gs).
Context (maxAttempts : Z) (Hmax : 1 <= maxAttempts).
Context (d : DB B) (Hd : rows_ok d) (l : list (Time * batchGroup)) (Hl : List.map snd l ≡ₚ gs).
Let d1 := apply_all ensure_group l d.
Let Hwf := grouped_wf items Hok gs Hgr.

Lemma group_of_wf g : g ∈ gs -> group_wf (consumer items) g.
Proof. destruct Hwf as [_ HF]. rewrite Forall_forall in HF. apply HF. Qed.

Lemma entry_group g e : g ∈ gs -> e ∈ g_entries g ->
  e ∈ entries items /\ item_key (bp_item e) = g_key g /\ it_Key (bp_item e) = gkey g.
Proof.
  intros Hg He. pose proof (gw_entries _ _ (group_of_wf g Hg) e He) as Hk.
  rewrite (gr_entries _ _ Hgr g Hg) in He. apply entries_of_in in He as (? & _ & ?). done.
Qed.

Lemma stored_item g e : g ∈ gs -> e ∈ g_entries g ->
  group_stored d1 g = stored_fingerprint items d (bp_item e).
Proof.
  intros Hg He. destruct (entry_group g e Hg He) as (_ & Hk & HK).
  unfold d1. rewrite (insert_stored _ gs Hwf d l Hl g Hg).
  unfold stored_fingerprint, group_id. by rewrite HK, Hk, (gr_entries _ _ Hgr g Hg).
Qed.

Lemma matching_iff g e :
  e ∈ group_matching d1 g <-> e ∈ g_entries g /\ group_stored d1 g = it_Fingerprint (bp_item e).
Proof. unfold group_matching. rewrite list_elem_of_filter. unfold stored_as. tauto. Qed.

Lemma state_item g e : g ∈ gs -> e ∈ group_matching d1 g ->
  state_of (gkey g) (group_stored d1 g) d1 = state_of (it_Key (bp_item e)) (it_Fingerprint (bp_item e)) d.
Proof.
  intros Hg [He Hs]%matching_iff. destruct (entry_group g e Hg He) as (_ & _ & HK).
  unfold d1. rewrite (insert_state d l). fold d1. by rewrite HK, Hs.
Qed.

(** The status of a matching entry, from what the group shows. *)
Definition group_status g : status :=
  if completed (group_id g) d1 then Completed
  else if bs_closed (g_state (admitted d1 g)) maxAttempts
  then Closed (bs_terminal (g_state (admitted d1 g))
               || String.eqb (bs_kind (g_state (admitted d1 g))) FailurePermanentKind)
  else Active.

Lemma status_matching g e : g ∈ gs -> e ∈ group_matching d1 g ->
  status_of items maxAttempts d (bp_item e) = group_status g /\
  attempts_of d (bp_item e) = bs_attempt (g_state (admitted d1 g)).
Proof.
  intros Hg Hm. pose proof (state_item g e Hg Hm) as Hs. apply matching_iff in Hm as [He Hf].
  unfold status_of, group_status, attempts_of. rewrite <- (stored_item g e Hg He), Hf, String.eqb_refl.
  destruct (entry_group g e Hg He) as (_ & _ & HK). cbn [negb admitted with_state g_state].
  rewrite Hs. assert (completed (group_id g) d1 = completed (key_id (it_Key (bp_item e))) d) as ->.
  { unfold d1. rewrite (insert_completed _ gs Hwf d l Hl g Hg). unfold group_id. by rewrite HK. }
  destruct (state_of _ _ d) as [[[n flag] kind]|] eqn:Hst; cbn.
  - split; [|done]. destruct (completed _ d); [done|]. unfold bs_closed. cbn.
    destruct (state_kind _ _ _ _ _ _ Hd Hst) as [->|[->| ->]]; destruct flag, (maxAttempts <=? n); done.
  - split; [|done]. destruct (completed _ d); [done|]. unfold bs_closed. cbn.
    by rewrite (proj2 (Z.leb_gt _ _)) by lia.
Qed.

Lemma status_conflict g e : g ∈ gs -> e ∈ g_entries g -> e ∉ group_matching d1 g ->
  status_of items maxAttempts d (bp_item e) = Conflict.
Proof.
  intros Hg He Hn. unfold status_of. rewrite <- (stored_item g e Hg He).
  destruct (String.eqb_spec (group_stored d1 g) (it_Fingerprint (bp_item e))); [|done].
  destruct Hn. by apply matching_iff.
Qed.

Lemma repeated_position g j e : g ∈ gs -> group_matching d1 g !! j = Some e ->
  repeated items e = negb (Nat.eqb j 0).
Proof.
  intros Hg Hj. assert (e ∈ group_matching d1 g) as Hm by by eapply list_elem_of_lookup_2.
  apply matching_iff in Hm as [He Hf]. destruct (entry_group g e Hg He) as (Hin & Hk & _).
  unfold group_matching in Hj. rewrite (gr_entries _ _ Hgr g Hg) in Hj.
  pose proof (first_matching items (g_key g) (group_stored d1 g) j e Hj) as Hfm.
  assert (repeated items e = false <-> j = 0%nat) as Hiff.
  { rewrite Hfm. unfold repeated. rewrite <- not_true_iff_false, existsb_exists. split.
    - intros Hno e' He' Hk' Hf' Hlt. apply Hno. exists (bp_item e').
      apply elem_entries in He'. split.
      + apply list_elem_of_In, list_elem_of_lookup. exists (bp_index e').
        rewrite lookup_take_lt; [done|exact Hlt].
      + rewrite bool_decide_eq_true_2 by congruence. by rewrite Hf', Hf, String.eqb_refl.
    - intros Hno (p & Hp & Hb). apply list_elem_of_In, list_elem_of_lookup in Hp as (i & Hi).
      apply lookup_take_Some in Hi as [Hi Hlt].
      apply andb_true_iff in Hb as [Hb1%bool_decide_eq_true Hb2%String.eqb_eq].
      apply (Hno {| bp_index := i; bp_item := p |}); simpl;
        [by apply elem_entries|by rewrite Hb1|by rewrite Hb2|exact Hlt]. }
  destruct j, (repeated items e); try done; naive_solver.
Qed.

(** Every write of the preparation is the specified outcome. *)
Lemma group_writes_spec errs g i o : g ∈ gs -> (i, o) ∈ group_writes maxAttempts d1 g ->
  exists e, e ∈ entries items /\ i = bp_index e /\ o = spec_outcome items maxAttempts errs d e.
Proof.
  intros Hg. unfold group_writes. rewrite elem_of_app. intros [Hw|Hw].
  - unfold conflict_writes in Hw. apply list_elem_of_In, in_map_iff in Hw as (e & Heq & Hin). simplify_eq.
    apply list_elem_of_In, list_elem_of_filter in Hin as [Hns He].
    destruct (entry_group g e Hg He) as (Hin & _). exists e. split_and!; [done..|].
    unfold spec_outcome. rewrite (status_conflict g e); [done..|]. rewrite matching_iff. by intros [_ ?].
  - assert (forall base, (i, o) ∈ entry_writes false (group_matching d1 g) base ->
      (forall e, e ∈ group_matching d1 g -> forall j, repeated items e = negb (Nat.eqb j 0) ->
         set_key (it_Key (bp_item e)) (negb (Nat.eqb j 0)) base = spec_outcome items maxAttempts errs d e) ->
      exists e, e ∈ entries items /\ i = bp_index e /\ o = spec_outcome items maxAttempts errs d e) as Hall.
    { intros base (j & e & Hj & -> & ->)%elem_entry_writes Hbase.
      assert (e ∈ group_matching d1 g) as Hm by by eapply list_elem_of_lookup_2.
      exists e. split_and!; [|done|].
      - apply matching_iff in Hm as [He _]. by apply (entry_group g e).
      - apply Hbase; [done|]. by apply (repeated_position g). }
    destruct (decide (group_matching d1 g = [])); [by apply not_elem_of_nil in Hw|].
    assert (it_Fingerprint (first_item (g_matching (admitted d1 g))) = group_stored d1 g) as Hfp.
    { destruct (group_matching d1 g) as [|e0 r] eqn:Hm; [done|]. cbn. rewrite Hm. simpl.
      symmetry. apply (matching_iff g e0). rewrite Hm. left. }
    destruct (completed (group_id g) d1) eqn:Hc; [|destruct (bs_closed _ _) eqn:Hcl; [|by apply not_elem_of_nil in Hw]];
      apply (Hall _ Hw); intros e Hm j Hj; destruct (status_matching g e Hg Hm) as [Hst Hat];
      apply matching_iff in Hm as [_ Hf]; unfold group_status in Hst; rewrite Hc in Hst;
      unfold spec_outcome; rewrite Hst.
    + unfold set_key, duplicate_outcome. cbn -[admitted]. by rewrite Hfp, Hf, Hat.
    + rewrite Hcl in *. unfold set_key, closed_outcome. cbn -[admitted].
      rewrite Hfp, Hf, Hj.
      destruct (bs_terminal _ || _); by rewrite Hat.
Qed.

(** Every entry is settled by the preparation, or its group is active. *)
Lemma group_writes_cover g e : g ∈ gs -> e ∈ g_entries g ->
  bp_index e ∈ List.map fst (group_writes maxAttempts d1 g) \/
  (group_active maxAttempts d1 g = Some (admitted d1 g) /\ e ∈ group_matching d1 g).
Proof.
  intros Hg He. unfold group_writes, group_active. rewrite map_app, elem_of_app.
  destruct (decide (group_stored d1 g = it_Fingerprint (bp_item e))) as [Hf|Hf].
  - assert (e ∈ group_matching d1 g) as Hm by by apply matching_iff.
    assert (forall o, bp_index e ∈ List.map fst (entry_writes false (group_matching d1 g) o)) as Hw.
    { intros o. rewrite entry_writes_indexes. apply list_elem_of_In, in_map. by apply list_elem_of_In. }
    destruct (decide (group_matching d1 g = [])) as [Hn|_]; [rewrite Hn in Hm; by apply not_elem_of_nil in Hm|].
    destruct (completed _ _); [left; right; apply Hw|].
    destruct (bs_closed _ _); [left; right; apply Hw|]. by right.
  - left. left. unfold conflict_writes. rewrite map_map. simpl.
    apply list_elem_of_In, in_map_iff. exists e. split; [done|].
    by apply list_elem_of_In, list_elem_of_filter.
Qed.

(** ** The active groups *)
Definition active_groups : list batchGroup := omap (group_active maxAttempts d1) gs.

Lemma group_active_Some g a : group_active maxAttempts d1 g = Some a <->
  group_matching d1 g <> [] /\ group_status g = Active /\ a = admitted d1 g.
Proof.
  unfold group_active, group_status. destruct (decide (group_matching d1 g = [])); [naive_solver|].
  destruct (completed _ _); [naive_solver|]. destruct (bs_closed _ _); naive_solver.
Qed.

Lemma elem_active a : a ∈ active_groups <->
  exists g, g ∈ gs /\ group_matching d1 g <> [] /\ group_status g = Active /\ a = admitted d1 g.
Proof.
  unfold active_groups. rewrite list_elem_of_omap. setoid_rewrite group_active_Some. naive_solver.
Qed.

Lemma NoDup_active : NoDup (List.map g_key active_groups).
Proof.
  unfold active_groups. destruct Hwf as [Hnd _]. clear -Hnd.
  induction gs as [|g r IH]; [apply NoDup_nil_2|]. simpl in *. apply NoDup_cons in Hnd as [Hn Hnd].
  destruct (group_active maxAttempts d1 g) as [a|] eqn:Ha; [|by apply IH]. simpl.
  apply NoDup_cons. split; [|by apply IH]. apply group_active_Some in Ha as (_ & _ & ->).
  intros Hin. apply Hn. change (g_key g ∈ List.map g_key (omap (group_active maxAttempts d1) r)) in Hin.
  apply elem_keys in Hin as (a & Ha & Hk). apply list_elem_of_omap in Ha as (g' & Hg' & Ha').
  apply group_active_Some in Ha' as (_ & _ & ->). apply elem_keys. exists g'. by split.
Qed.

Definition head_entry (a : batchGroup) : batchPreparedItem :=
  match g_matching a with e :: _ => e | [] => {| bp_index := 0; bp_item := BatchItem0 |} end.

Lemma active_head g : group_matching d1 g <> [] ->
  group_matching d1 g !! 0%nat = Some (head_entry (admitted d1 g)) /\
  g_first (admitted d1 g) = bp_index (head_entry (admitted d1 g)) /\
  first_item (g_matching (admitted d1 g)) = bp_item (head_entry (admitted d1 g)).
Proof. unfold head_entry. cbn. by destruct (group_matching d1 g) as [|e r]. Qed.

Lemma elem_heads e : e ∈ List.map head_entry active_groups <->
  e ∈ entries items /\ leader items maxAttempts d e = true.
Proof.
  unfold leader. rewrite andb_true_iff, bool_decide_eq_true, negb_true_iff. split.
  - rewrite list_elem_of_In, in_map_iff. intros (a & <- & Ha).
    apply list_elem_of_In, elem_active in Ha as (g & Hg & Hm & Hst & ->).
    destruct (active_head g Hm) as (H0 & _ & _).
    assert (head_entry (admitted d1 g) ∈ group_matching d1 g) as Hin by by eapply list_elem_of_lookup_2.
    destruct (status_matching g _ Hg Hin) as [Hs _]. rewrite Hs, Hst.
    rewrite (repeated_position g 0 _ Hg H0). apply matching_iff in Hin as [He _].
    by destruct (entry_group g _ Hg He).
  - intros (He & Hs & Hr). destruct (item_group items Hok gs (bp_item e) Hgr (entry_item _ _ He)) as (g & Hg & Hk & _).
    assert (e ∈ g_entries g) as Hge.
    { rewrite (gr_entries _ _ Hgr g Hg). apply elem_entries_of. by apply elem_entries in He. }
    assert (e ∈ group_matching d1 g) as Hm.
    { destruct (decide (group_stored d1 g = it_Fingerprint (bp_item e))) as [Hf|Hf]; [by apply matching_iff|].
      rewrite (status_conflict g e Hg Hge) in Hs; [done|]. rewrite matching_iff. tauto. }
    assert (group_matching d1 g <> []) as Hne by (intros Hn; rewrite Hn in Hm; by apply not_elem_of_nil in Hm).
    destruct (status_matching g e Hg Hm) as [Hst _]. rewrite Hs in Hst.
    destruct (active_head g Hne) as (H0 & _ & _). apply list_elem_of_lookup in Hm as (j & Hj).
    rewrite (repeated_position g j e Hg Hj) in Hr. destruct j; [|done].
    apply list_elem_of_In, in_map_iff. exists (admitted d1 g). split; [congruence|].
    apply list_elem_of_In, elem_active. by exists g.
Qed.

Lemma NoDup_heads : NoDup (List.map head_entry active_groups).
Proof.
  eapply NoDup_map_inj; [|exact NoDup_active]. intros a b Ha Hb Heq.
  apply elem_active in Ha as (g1 & Hg1 & Hm1 & _ & ->). apply elem_active in Hb as (g2 & Hg2 & Hm2 & _ & ->).
  destruct (active_head g1 Hm1) as (H1 & _ & _), (active_head g2 Hm2) as (H2 & _ & _).
  apply list_elem_of_lookup_2, matching_iff in H1 as [H1 _], H2 as [H2 _].
  change (g_key g1 = g_key g2).
  destruct (entry_group g1 _ Hg1 H1) as (_ & <- & _), (entry_group g2 _ Hg2 H2) as (_ & <- & _).
  by rewrite Heq.
Qed.

#[local] Instance first_le_trans : Transitive first_le.
Proof. intros x y z. unfold first_le. lia. Qed.
#[local] Instance first_le_total : Total first_le.
Proof. intros x y. unfold first_le. lia. Qed.

Definition sorted_active : list batchGroup := merge_sort first_le active_groups.

Lemma elem_sorted a : a ∈ sorted_active <-> a ∈ active_groups.
Proof. unfold sorted_active. by rewrite merge_sort_Permutation. Qed.

(** The handler sees the leaders, in input order. *)
Lemma handler_items : List.map (fun a => first_item (g_matching a)) sorted_active
                      = leaders items maxAttempts d.
Proof.
  assert (List.map head_entry sorted_active
          = filter (fun e => leader items maxAttempts d e = true) (entries items)) as Heq.
  { pose (R := fun a b => (bp_index a <= bp_index b)%nat).
    apply (StronglySorted_unique_strong R).
    - intros x1 x2 H1 H2 Hle1 Hle2. unfold R in *.
      apply list_elem_of_filter in H2 as [_ H2].
      assert (x1 ∈ List.map head_entry active_groups) as H1'.
      { unfold sorted_active in H1. by rewrite merge_sort_Permutation in H1. }
      apply elem_heads in H1' as [H1' _]. eapply entries_index_inj; [done..|lia].
    - assert (forall a, a ∈ sorted_active -> g_first a = bp_index (head_entry a)) as Hf.
      { intros a. rewrite elem_sorted, elem_active. intros (g & _ & Hm & _ & ->). by apply active_head. }
      pose proof (StronglySorted_merge_sort first_le active_groups) as Hs. fold sorted_active in Hs.
      revert Hf. induction Hs as [|a r Hr IH Ha]; intros Hf; [constructor|]. simpl. constructor.
      { apply IH. intros b Hb. apply Hf. by right. }
      apply Forall_forall. intros x Hx. apply list_elem_of_In, in_map_iff in Hx as (b & <- & Hb).
      apply list_elem_of_In in Hb. rewrite Forall_forall in Ha. specialize (Ha b Hb).
      unfold first_le, R in *. rewrite <- !Hf by (left || by right). done.
    - apply sorted_filter. eapply sorted_weaken; [|apply entries_sorted].
      unfold index_lt, R. intros; lia.
    - apply NoDup_Permutation.
      + unfold sorted_active. rewrite merge_sort_Permutation. apply NoDup_heads.
      + apply NoDup_filter, NoDup_entries.
      + intros e. unfold sorted_active. rewrite merge_sort_Permutation, elem_heads, list_elem_of_filter. tauto. }
  unfold leaders. rewrite <- Heq, map_map. apply map_ext_in. intros a Ha.
  apply list_elem_of_In, elem_sorted, elem_active in Ha as (g & _ & Hm & _ & ->). by apply active_head.
Qed.

(** ** All outcomes *)
Definition active_writes (m : gmap BatchItemKey Z) (zs : list (batchGroup * batchClassified))
  : list (nat * BatchItemOutcome) :=
  List.concat (List.map (fun x => entry_writes false (g_matching x.1) (active_outcome maxAttempts m x.1 x.2)) zs).

Lemma assign_active_writes m zs os : assign_active maxAttempts m zs os = write_all (active_writes m zs) os.
Proof.
  unfold assign_active, active_writes. revert os. induction zs as [|x zs IH]; intros os; [done|]. simpl.
  rewrite IH, write_all_app. unfold assignBatchOutcome. by rewrite assign_entries_writes.
Qed.

(** The classified active groups, with their counters after the handler. *)
Definition classified_by (errs : BatchItemKey -> option error) (m : gmap BatchItemKey Z)
  (zs : list (batchGroup * batchClassified)) : Prop :=
  (forall a, a ∈ List.map fst zs <-> a ∈ active_groups) /\
  forall x, x ∈ zs -> x.2 = classified (errs (g_key x.1)) /\
    (consumes (bc_kind x.2) = true -> m !! g_key x.1 = Some (bs_attempt (g_state x.1) + 1)).

Lemma active_writes_spec errs m zs i o : classified_by errs m zs -> (i, o) ∈ active_writes m zs ->
  exists e, e ∈ entries items /\ i = bp_index e /\ o = spec_outcome items maxAttempts errs d e.
Proof.
  intros [Hact Hcls] Hin. unfold active_writes in Hin.
  apply list_elem_of_In, in_concat in Hin as (ws & Hws & Hin).
  apply in_map_iff in Hws as (x & <- & Hx). apply list_elem_of_In in Hx, Hin.
  destruct (Hcls x Hx) as [Hc Hm]. assert (x.1 ∈ active_groups) as Ha.
  { apply Hact, list_elem_of_In, in_map. by apply list_elem_of_In. }
  apply elem_active in Ha as (g & Hg & Hne & Hst & Hax).
  apply elem_entry_writes in Hin as (j & e & Hj & -> & ->). rewrite Hax in *. cbn [admitted with_state with_matching g_matching] in Hj.
  assert (e ∈ group_matching d1 g) as Hme by by eapply list_elem_of_lookup_2.
  destruct (status_matching g e Hg Hme) as [Hs Hat]. pose proof Hme as [He Hf]%matching_iff.
  destruct (entry_group g e Hg He) as (Hein & Hk & _). exists e. split_and!; [done..|].
  destruct (active_head g Hne) as (H0 & _ & Hfi).
  assert (it_Fingerprint (first_item (g_matching (admitted d1 g))) = it_Fingerprint (bp_item e)) as Hfp.
  { rewrite Hfi. apply list_elem_of_lookup_2, matching_iff in H0 as [_ H0]. congruence. }
  unfold spec_outcome. rewrite Hs, Hst, Hat, Hk, (repeated_position g j e Hg Hj). simpl orb.
  change (g_key (admitted d1 g)) with (g_key g) in *. rewrite Hc in *.
  unfold settled_outcome, active_outcome, classified, set_key in *.
  change (g_key (admitted d1 g)) with (g_key g).
  destruct (Classify (errs (g_key g))) as [k delay]. cbn -[admitted] in *.
  destruct k; cbn -[admitted] in *; rewrite ?Hm by done; cbn -[admitted]; rewrite ?Hfp; try done.
  all: by destruct (maxAttempts <=? _); cbn -[admitted]; rewrite ?Hfp.
Qed.

Lemma report_spec errs m zs ws os :
  ws ≡ₚ List.concat (List.map (group_writes maxAttempts d1) gs) ->
  classified_by errs m zs -> List.length os = List.length items ->
  write_all (ws ++ active_writes m zs) os = spec_items items maxAttempts errs d.
Proof.
  intros Hws Hz Hlen.
  pose (f := fun i => match items !! i with
    | Some it => spec_outcome items maxAttempts errs d {| bp_index := i; bp_item := it |}
    | None => BatchItemOutcome0 end).
  assert (forall e, e ∈ entries items -> spec_outcome items maxAttempts errs d e = f (bp_index e)) as Hf.
  { intros e He%elem_entries. unfold f. rewrite He. by destruct e. }
  rewrite (write_all_complete _ _ f).
  - unfold spec_items. rewrite Hlen. apply list_eq. intros i.
    rewrite !list_lookup_fmap. unfold entries. rewrite list_lookup_imap.
    destruct (items !! i) as [it|] eqn:Hi; simpl.
    + rewrite lookup_seq_lt by by eapply lookup_lt_Some. simpl. unfold f. by rewrite Hi.
    + rewrite lookup_seq_ge; [done|]. by apply lookup_ge_None.
  - intros i o. rewrite elem_of_app. intros [Hin|Hin].
    + rewrite Hws in Hin. apply list_elem_of_In, in_concat in Hin as (x & Hx & Hin).
      apply in_map_iff in Hx as (g & <- & Hg). apply list_elem_of_In in Hg, Hin.
      destruct (group_writes_spec errs g i o Hg Hin) as (e & He & -> & ->). by apply Hf.
    + destruct (active_writes_spec errs m zs i o Hz Hin) as (e & He & -> & ->). by apply Hf.
  - intros i Hi. rewrite Hlen in Hi. apply lookup_lt_is_Some in Hi as [it Hit].
    rewrite map_app, elem_of_app. set (e := {| bp_index := i; bp_item := it |}).
    assert (e ∈ entries items) as He by by apply elem_entries.
    destruct (item_group items Hok gs it Hgr) as (g & Hg & Hk & _); [by eapply list_elem_of_lookup_2|].
    assert (e ∈ g_entries g) as Hge by (rewrite (gr_entries _ _ Hgr g Hg); by apply elem_entries_of).
    destruct (group_writes_cover g e Hg Hge) as [Hc|[Ha Hm]].
    + left. rewrite Hws. apply list_elem_of_In, in_map_iff. apply list_elem_of_In, in_map_iff in Hc as (w & Hw & Hin).
      exists w. split; [done|]. apply in_concat. eexists. split; [|exact Hin]. apply in_map. by apply list_elem_of_In.
    + right. destruct Hz as [Hact _].
      assert (admitted d1 g ∈ List.map fst zs) as Hx.
      { apply Hact, elem_active. exists g. by apply group_active_Some in Ha as (? & ? & _). }
      apply list_elem_of_In, in_map_iff in Hx as (x & Hxa & Hx).
      unfold active_writes. rewrite concat_map, map_map. apply list_elem_of_In, in_concat.
      exists (List.map bp_index (g_matching x.1)). split.
      * apply in_map_iff. exists x. split; [|done]. apply entry_writes_indexes.
      * rewrite Hxa. apply (in_map bp_index _ e). by apply list_elem_of_In.
Qed.
End Report.
