(* ===== verification/InboxBatchRun.v ===== *)
(** * The tables after a batch

    For every message of a batch: the rows its phases leave are those of a
    delivery of its own. *)
From S2P Require Import Prelude GoStrings Errors Ident Batch Inbox InboxSQL TerminalState InboxSpec.
From S2P Require Import InboxProps InboxRefine InboxEffects InboxClosed InboxLocal InboxBatch.
From S2P Require Import InboxGroups InboxBatchSpec InboxBatchProps.
Import Stdlib.Strings.String.
Open Scope string_scope.
Open Scope Z_scope.

(** ** Rows, identity by identity *)
Section Rows.
Context {B : Type}.
Implicit Types (d D : DB B).

Lemma rows_ok_pointwise d : (forall k, exists D, same_at k d D /\ rows_ok D) -> rows_ok d.
Proof.
  intros H. split.
  - intros k r. destruct (H k) as (D & [Hi Ha _ _] & HD). rewrite Hi, Ha. apply (ok_attempts D HD).
  - intros k fp c. destruct (H k) as (D & [Hi _ Hg _] & HD). rewrite Hi, Hg. apply (ok_generations D HD).
  - intros k i. destruct (H k) as (D & [Hi _ Hg _] & HD). rewrite Hi, Hg. apply (ok_separate D HD).
  - intros k fp r. destruct (H k) as (D & Hs & HD). pose proof (sa_terminal _ _ _ Hs) as Ht. rewrite Ht.
    intros Hr. destruct (ok_terminal D HD _ _ _ Hr) as [? ?]. split; [done|].
    eapply counted_same; [by symmetry|done].
  - intros k i. destruct (H k) as (D & [Hi _ _ _] & HD). rewrite Hi. apply (ok_digest D HD).
Qed.

Lemma identified_same k fp d D : same_at k d D -> identified k fp D -> identified k fp d.
Proof. intros [Hi _ _ _]. unfold identified. by rewrite Hi. Qed.

(** One phase, seen from one identity: at most one of its groups is there. *)
Lemma stamped_step (u : Time * batchGroup -> DB B -> DB B) l l' d k :
  (forall x, local (group_id x.2) (u x)) -> List.map snd l ≡ₚ l' -> NoDup (List.map group_id l') ->
  (exists t a, a ∈ l' /\ group_id a = k /\ same_at k (apply_all u l d) (u (t, a) d)) \/
  ((forall a, a ∈ l' -> group_id a <> k) /\ same_at k (apply_all u l d) d).
Proof.
  intros Hu Hl Hnd. assert (Forall (fun x => local (group_id x.2) (u x)) l) as HF by (apply Forall_forall; auto).
  destruct (decide (k ∈ List.map group_id l')) as [Hk|Hk].
  - left. apply list_elem_of_In, in_map_iff in Hk as (a & <- & Ha). apply list_elem_of_In in Ha.
    pose proof Ha as Ha'. rewrite <- Hl in Ha'. apply list_elem_of_In, in_map_iff in Ha' as ([t a'] & <- & Hin).
    exists t, a'. split_and!; [done..|].
    apply (apply_all_at (fun x => group_id x.2) u l d (t, a')); [done| |by apply list_elem_of_In].
    rewrite <- (map_map snd group_id). by rewrite Hl.
  - right. split.
    + intros a Ha Hak. apply Hk. rewrite <- Hak. apply list_elem_of_In, in_map. by apply list_elem_of_In.
    + apply (apply_all_frame (fun x => group_id x.2)); [done|].
      rewrite <- (map_map snd group_id). by rewrite Hl.
Qed.

Lemma consume_group_local (x : Time * batchGroup) : local (B := B) (group_id x.2) (consume_group x).
Proof. apply local_consume. Qed.
Lemma complete_group_local (x : Time * batchGroup) : local (B := B) (group_id x.2) (complete_group x).
Proof. apply local_complete. Qed.
Lemma flag_group_local (x : Time * batchGroup) : local (B := B) (group_id x.2) (flag_group x).
Proof. apply local_flag. Qed.
End Rows.

(** ** Deliveries of one message *)
Section SameMessage.
Context {B : Type} (items : list BatchItem) (Hok : batch_ok items) (maxAttempts : Z) (d : DB B).

Lemma same_identity a b : a ∈ items -> b ∈ items -> key_id (it_Key a) = key_id (it_Key b) -> item_key a = item_key b.
Proof.
  intros Ha Hb Heq. unfold key_id in Heq. injection Heq as _ Hs Hm. unfold item_key. rewrite Hs. f_equal.
  destruct (bo_each items Hok a Ha) as (_ & ? & _), (bo_each items Hok b Hb) as (_ & ? & _).
  by apply MessageID_String_inj.
Qed.

Lemma same_message a b : a ∈ items -> b ∈ items -> item_key a = item_key b ->
  status_of items maxAttempts d a <> Conflict -> status_of items maxAttempts d b <> Conflict -> a = b.
Proof.
  intros Ha Hb Heq. pose proof (same_message_key items Hok a b Ha Hb Heq) as HK.
  assert (stored_fingerprint items d a = stored_fingerprint items d b) as Hs.
  { unfold stored_fingerprint. by rewrite HK, Heq. }
  unfold status_of. destruct (String.eqb_spec (stored_fingerprint items d a) (it_Fingerprint a)) as [Ea|]; [|done].
  destruct (String.eqb_spec (stored_fingerprint items d b) (it_Fingerprint b)) as [Eb|]; [|done].
  intros _ _. destruct a, b. simpl in *. congruence.
Qed.

(** The outcomes of a message differ at most in the duplicate mark. *)
Lemma outcomes_of_message errs e : e ∈ entries items ->
  status_of items maxAttempts d (bp_item e) <> Conflict ->
  let o := spec_outcome items maxAttempts errs d e in
  o_Key o = it_Key (bp_item e) /\ o_Fingerprint o = it_Fingerprint (bp_item e) /\
  forall e', e' ∈ entries items -> status_of items maxAttempts d (bp_item e') <> Conflict ->
    item_key (bp_item e') = item_key (bp_item e) ->
    let o' := spec_outcome items maxAttempts errs d e' in
    o_Key o' = o_Key o /\ o_Fingerprint o' = o_Fingerprint o /\ o_Outcome o' = o_Outcome o /\
    o_Attempt o' = o_Attempt o /\ o_FailureKind o' = o_FailureKind o.
Proof.
  intros He Hs o. split_and!.
  - unfold o, spec_outcome, settled_outcome. destruct (status_of _ _ _ _) as [| |[]|]; try done.
    destruct (Classify _) as [[] ?]; try done; by destruct (maxAttempts <=? _).
  - unfold o, spec_outcome, settled_outcome. destruct (status_of _ _ _ _) as [| |[]|]; try done.
    destruct (Classify _) as [[] ?]; try done; by destruct (maxAttempts <=? _).
  - intros e' He' Hs' Hk o'. apply (same_message _ _ (entry_item _ _ He') (entry_item _ _ He) Hk Hs') in Hs.
    unfold o, o', spec_outcome, settled_outcome. rewrite Hs.
    destruct (status_of items maxAttempts d (bp_item e)) as [| |[]|]; try done.
    destruct (Classify _) as [[] ?]; try done; by destruct (maxAttempts <=? _).
Qed.

Lemma conflict_is_plain errs e : status_of items maxAttempts d (bp_item e) = Conflict ->
  let o := spec_outcome items maxAttempts errs d e in
  o_Outcome o = BatchDLQ /\ o_Key o = it_Key (bp_item e) /\ is_terminal o = false.
Proof. intros Hs o. unfold o, spec_outcome. by rewrite Hs. Qed.

(** ** The commit, seen from one identity *)
Context (errs : BatchItemKey -> option error).
Abbreviation Outs := (spec_items items maxAttempts errs d).
Abbreviation out := (spec_outcome items maxAttempts errs d).

Lemma elem_outcomes x : x ∈ Outs <-> exists e, e ∈ entries items /\ x = out e.
Proof.
  unfold spec_items. rewrite list_elem_of_In, in_map_iff. setoid_rewrite <- list_elem_of_In. naive_solver.
Qed.

Definition is_deferred (o : BatchItemOutcome) : bool :=
  bool_decide (o_Outcome o = BatchDefer) && (o_Attempt o =? 0).

Lemma elem_deferred x : x ∈ (deferred_items false Outs ++ deferred_items true Outs)%list <->
  x ∈ Outs /\ is_deferred x = true.
Proof.
  unfold deferred_items, is_deferred. rewrite elem_of_app, !list_elem_of_filter.
  destruct (bool_decide _ && (_ =? 0)); simpl; [|naive_solver].
  destruct (negb (String.eqb _ "")); simpl; naive_solver.
Qed.

Lemma keep_item_local t x : local (B := B) (key_id (o_Key x)) (keep_item t x).
Proof. apply local_keep_deferred. Qed.
Lemma record_item_local t x : local (B := B) (key_id (o_Key x)) (record_item t x).
Proof. apply local_record. Qed.

Lemma keep_twice key fp t (D : DB B) : keep_deferred key fp t (keep_deferred key fp t D) = keep_deferred key fp t D.
Proof.
  unfold keep_deferred at 1 3. destruct (counter_of key fp D) as [c|] eqn:Hc.
  - unfold keep_deferred. by rewrite !Hc.
  - unfold keep_deferred. by rewrite Hc, counter_of_set.
Qed.

(** An outcome at the identity of the message of [e], with an effect. *)
Lemma outcome_at e x : e ∈ entries items -> status_of items maxAttempts d (bp_item e) <> Conflict ->
  x ∈ Outs -> is_deferred x || is_terminal x = true -> key_id (o_Key x) = key_id (it_Key (bp_item e)) ->
  o_Key x = o_Key (out e) /\ o_Fingerprint x = o_Fingerprint (out e) /\ o_Outcome x = o_Outcome (out e) /\
  o_Attempt x = o_Attempt (out e) /\ o_FailureKind x = o_FailureKind (out e).
Proof.
  intros He Hs (e' & He' & ->)%elem_outcomes Heff Hk.
  assert (status_of items maxAttempts d (bp_item e') <> Conflict) as Hs'.
  { intros Hc. destruct (conflict_is_plain errs e' Hc) as (Ho & _ & Ht).
    unfold is_deferred in Heff. rewrite Ht, Ho in Heff. done. }
  destruct (outcomes_of_message errs e' He' Hs') as (HK' & _ & _).
  destruct (outcomes_of_message errs e He Hs) as (_ & _ & Hall). apply Hall; [done..|].
  rewrite HK' in Hk. apply same_identity in Hk; eauto using entry_item.
Qed.

Lemma keep_at e t (D : DB B) : e ∈ entries items -> status_of items maxAttempts d (bp_item e) <> Conflict ->
  let k := key_id (it_Key (bp_item e)) in
  same_at k (apply_all (keep_item t) (deferred_items false Outs ++ deferred_items true Outs) D)
    (if is_deferred (out e) then keep_item t (out e) D else D).
Proof.
  intros He Hs k. destruct (outcomes_of_message errs e He Hs) as (HK & _ & _).
  assert (Forall (fun x => local (B := B) (key_id (o_Key x)) (keep_item t x))
    (deferred_items false Outs ++ deferred_items true Outs)) as HF.
  { apply Forall_forall. intros x _. apply keep_item_local. }
  assert (forall x, x ∈ (deferred_items false Outs ++ deferred_items true Outs)%list ->
    key_id (o_Key x) = k -> is_deferred x = is_deferred (out e) /\ keep_item (B := B) t x = keep_item t (out e)) as Hx.
  { intros x [Hx Hdx]%elem_deferred Hk.
    destruct (outcome_at e x He Hs Hx) as (E1 & E2 & E3 & E4 & _); [by rewrite Hdx|done|].
    unfold is_deferred, keep_item. by rewrite E1, E2, E3, E4. }
  destruct (is_deferred (out e)) eqn:Hdef.
  - unfold k. rewrite <- HK.
    apply (apply_all_idem (fun x => key_id (o_Key x)) (keep_item t) _ D (out e)); [done| | |].
    + intros x Hin Hk. apply Hx; [done|]. unfold k. by rewrite <- HK.
    + intros D'. apply keep_twice.
    + apply elem_deferred. split; [|done]. apply elem_outcomes. eauto.
  - apply (apply_all_fixed (fun x => key_id (o_Key x))); [done|]. intros x Hin Hk.
    destruct (Hx x Hin Hk) as [Hdx _]. apply elem_deferred in Hin as [_ Hin]. congruence.
Qed.

Lemma record_at e t (D : DB B) : e ∈ entries items -> status_of items maxAttempts d (bp_item e) <> Conflict ->
  let k := key_id (it_Key (bp_item e)) in
  same_at k (apply_all (record_item t) (terminal_items ∅ Outs) D)
    (if is_terminal (out e) then record_item t (out e) D else D).
Proof.
  intros He Hs k. destruct (outcomes_of_message errs e He Hs) as (HK & HF0 & _).
  assert (Forall (fun x => local (B := B) (key_id (o_Key x)) (record_item t x)) (terminal_items ∅ Outs)) as HF.
  { apply Forall_forall. intros x _. apply record_item_local. }
  destruct (terminal_items_spec ∅ Outs) as (Hin & Hnd & Hall).
  assert (forall x, x ∈ terminal_items ∅ Outs -> key_id (o_Key x) = k ->
    is_terminal (out e) = true /\ record_item (B := B) t x = record_item t (out e)) as Hx.
  { intros x Hxi Hk. destruct (Hin x Hxi) as (Hx & Ht & _).
    destruct (outcome_at e x He Hs Hx) as (E1 & E2 & E3 & E4 & E5); [by rewrite Ht, orb_true_r|done|].
    unfold is_terminal, record_item in *.
    split; [by rewrite <- E3, <- E5|by rewrite E1, E2, E4, E5]. }
  destruct (is_terminal (out e)) eqn:Hterm.
  - destruct (Hall (out e)) as (y & Hy & Hky); [apply elem_outcomes; eauto|done|set_solver|].
    assert (key_id (o_Key y) = k) as Hyk.
    { apply (f_equal fst) in Hky. unfold k. by rewrite <- HK. }
    destruct (Hx y Hy Hyk) as [_ <-]. rewrite <- Hyk.
    apply (apply_all_at (fun x => key_id (o_Key x))); [done| |done].
    eapply NoDup_map_inj; [|exact Hnd]. intros a b Ha Hb Hab.
    destruct (Hin a Ha) as (Hao & Hat & _), (Hin b Hb) as (Hbo & Hbt & _).
    apply elem_outcomes in Hbo as (eb & Heb & Hbe).
    assert (status_of items maxAttempts d (bp_item eb) <> Conflict) as Hsb.
    { intros Hc. destruct (conflict_is_plain errs eb Hc) as (_ & _ & Hf). congruence. }
    destruct (outcomes_of_message errs eb Heb Hsb) as (HKb & _ & _).
    destruct (outcome_at eb a Heb Hsb Hao) as (E1 & E2 & _); [by rewrite Hat, orb_true_r|congruence|].
    unfold outcome_key. rewrite E1, E2, Hbe. reflexivity.
  - apply (apply_all_fixed (fun x => key_id (o_Key x))); [done|]. intros x Hxi Hk.
    destruct (Hx x Hxi Hk) as [? _]. congruence.
Qed.

(** Nothing is committed for an identity none of whose deliveries matches. *)
Lemma commit_frame k t1 t2 (D : DB B) :
  (forall it, it ∈ items -> key_id (it_Key it) = k -> status_of items maxAttempts d it = Conflict) ->
  same_at k (apply_all (record_item t2) (terminal_items ∅ Outs)
    (apply_all (keep_item t1) (deferred_items false Outs ++ deferred_items true Outs) D)) D.
Proof.
  intros Hk. assert (forall x, x ∈ Outs -> key_id (o_Key x) = k -> is_deferred x || is_terminal x = false) as Hno.
  { intros x (e & He & ->)%elem_outcomes Hx.
    destruct (decide (status_of items maxAttempts d (bp_item e) = Conflict)) as [Hc|Hc].
    - destruct (conflict_is_plain errs e Hc) as (Ho & _ & ->).
      unfold is_deferred. by rewrite Ho.
    - destruct (outcomes_of_message errs e He Hc) as (HK & _ & _). destruct Hc. apply Hk; [by apply entry_item|congruence]. }
  etrans; apply (apply_all_fixed (fun x => key_id (o_Key x))).
  - apply Forall_forall. intros x _. apply record_item_local.
  - intros x Hx Hxk. destruct (terminal_items_spec ∅ Outs) as (Hin & _). destruct (Hin x Hx) as (Ho & Ht & _).
    specialize (Hno x Ho Hxk). by rewrite Ht, orb_true_r in Hno.
  - apply Forall_forall. intros x _. apply keep_item_local.
  - intros x [Hx Hdx]%elem_deferred Hxk. specialize (Hno x Hx Hxk). by rewrite Hdx in Hno.
Qed.
End SameMessage.

(** ** The phases before the commit *)
Lemma NoDup_map_filter {A K} (f : A -> K) (P : A -> Prop) `{!forall x, Decision (P x)} l :
  NoDup (List.map f l) -> NoDup (List.map f (filter P l)).
Proof.
  induction l as [|x l IH]; [done|]. simpl. intros [Hn Hnd]%NoDup_cons. rewrite filter_cons.
  destruct (decide (P x)); [|by apply IH]. simpl. apply NoDup_cons. split; [|by apply IH].
  rewrite list_elem_of_In, in_map_iff. intros (y & Hy & Hin). apply Hn.
  apply list_elem_of_In, list_elem_of_filter in Hin as [_ Hin]. rewrite <- Hy.
  apply list_elem_of_In, in_map. by apply list_elem_of_In.
Qed.

Lemma NoDup_map_eq {A K} (f : A -> K) l a b :
  NoDup (List.map f l) -> a ∈ l -> b ∈ l -> f a = f b -> a = b.
Proof.
  induction l as [|x l IH]; [by intros _ ?%not_elem_of_nil|]. simpl.
  intros [Hn Hnd]%NoDup_cons [->|Ha]%elem_of_cons [->|Hb]%elem_of_cons He; [done| | |by apply IH].
  - destruct Hn. rewrite He. apply list_elem_of_In, in_map. by apply list_elem_of_In.
  - destruct Hn. rewrite <- He. apply list_elem_of_In, in_map. by apply list_elem_of_In.
Qed.

(** ** One message by itself *)
Section Single.
Context {B : Type}.
Implicit Types (d D : DB B) (key : Key) (fp : Fingerprint).

Definition clock_env (ts : list Time) : env := {| e_faults := []; e_times := ts; e_handlerCalls := 0 |}.

Lemma state_identity key fp d s : rows_ok d -> state_of key fp d = Some s -> is_Some (inbox d !! key_id key).
Proof.
  intros Hd. destruct s as [[n flag] kind]. intros (c & Hc & _)%state_of_Some. unfold counter_of in Hc.
  destruct (legacy key).
  - destruct (attempts d !! key_id key) as [r|] eqn:Ha; [|done].
    destruct (ok_attempts d Hd _ _ Ha) as (i & Hi & _). eauto.
  - by destruct (ok_generations d Hd _ _ _ Hc).
Qed.

(** A message that is not settled yet goes to the handler. *)
Lemma active_single items maxAttempts it h d t0 ts :
  rows_ok d -> status_of items maxAttempts d it = Active ->
  spec_ProcessAttempt (it_Key it) (it_Fingerprint it) maxAttempts h d (clock_env (t0 :: ts))
  = spec_handle (it_Key it) (it_Fingerprint it) (attempts_of d it + 1) maxAttempts h
      (ensure_identity (key_id (it_Key it)) (it_Fingerprint it) t0 d) (clock_env ts).
Proof.
  intros Hd. unfold status_of, spec_ProcessAttempt, attempts_of, completed, stored_fingerprint.
  change (tick (clock_env (t0 :: ts))) with (t0, clock_env ts). cbv beta iota.
  destruct (inbox d !! key_id (it_Key it)) as [r|] eqn:Hi.
  - rewrite (ensure_identity_present _ _ _ _ r) by done. destruct (String.eqb _ _); [|done]. cbn [negb].
    destruct (i_completed_at r); [done|]. unfold spec_pending.
    destruct (state_of _ _ d) as [[[n flag] kind]|]; [|done].
    destruct (flag || _); [done|]. by destruct ((maxAttempts <=? n) || _).
  - rewrite ensure_identity_absent by done. intros _.
    destruct (state_of (it_Key it) (it_Fingerprint it) d) as [s|] eqn:Hs; [|done].
    apply state_identity in Hs as [? ?]; [congruence|done].
Qed.

(** What the handler's answer does to the rows. *)
Definition settle_rows key fp (n maxAttempts : Z) (err : option error) (t3 t4 t5 : Time) D : DB B :=
  let k := key_id key in
  match Classify err with
  | (FailureSuccess, _) => complete_identity k t4 (consume key fp t3 D)
  | (FailurePermanent, _) =>
      record_terminal key fp n FailurePermanentKind t5 (flag_permanent key fp t4 (consume key fp t3 D))
  | (FailureDefer, _) => keep_deferred key fp t3 D
  | (FailureRetryAfter, _) | (FailureOrdinary, _) =>
      if maxAttempts <=? n then record_terminal key fp n FailureAttemptsExhausted t4 (consume key fp t3 D)
      else consume key fp t3 D
  end.

Lemma spec_handle_rows key fp n maxAttempts err D t3 t4 t5 :
  same_at (key_id key)
    (op_db (spec_handle key fp n maxAttempts (fun b => (b, err)) D (clock_env [t3; t4; t5])))
    (settle_rows key fp n maxAttempts err t3 t4 t5 D).
Proof.
  unfold spec_handle, settle_rows, spec_failed, is_defer, Classify.
  destruct err as [e|]; cbn -[IsPermanent DeferDelay RetryDelay].
  - destruct (IsPermanent (Some e)); cbn -[IsPermanent DeferDelay RetryDelay].
    { by rewrite andb_false_r. }
    destruct (DeferDelay (Some e)) as [delay|]; [done|]. cbn -[RetryDelay].
    destruct (RetryDelay (Some e)); by destruct (maxAttempts <=? n).
  - apply (local_cong _ _ (local_complete _ _)). apply (local_cong _ _ (local_consume _ _ _)). apply same_at_business.
Qed.

Lemma settle_rows_cong key fp n maxAttempts err t3 t4 t5 D D' : same_at (key_id key) D D' ->
  same_at (key_id key) (settle_rows key fp n maxAttempts err t3 t4 t5 D) (settle_rows key fp n maxAttempts err t3 t4 t5 D').
Proof.
  intros Hs. pose proof (local_cong _ _ (local_consume key fp t3) _ _ Hs) as Hc.
  unfold settle_rows. destruct (Classify err) as [[] ?].
  - by apply (local_cong _ _ (local_complete _ _)).
  - by apply (local_cong _ _ (local_record _ _ _ _ _)), (local_cong _ _ (local_flag _ _ _)).
  - by apply (local_cong _ _ (local_keep_deferred _ _ _)).
  - destruct (maxAttempts <=? n); [by apply (local_cong _ _ (local_record _ _ _ _ _))|done].
  - destruct (maxAttempts <=? n); [by apply (local_cong _ _ (local_record _ _ _ _ _))|done].
Qed.

(** A counter that exists is kept by a deferral. *)
Lemma keep_deferred_present key fp t D s : state_of key fp D = Some s -> keep_deferred key fp t D = D.
Proof.
  destruct s as [[n flag] kind]. intros (c & Hc & _)%state_of_Some. unfold keep_deferred. by rewrite Hc.
Qed.
End Single.

Section Phases.
Context {B : Type} (items : list BatchItem) (Hok : batch_ok items).
Context (gs : list batchGroup) (Hgr : grouped items gs).
Context (maxAttempts : Z) (Hmax : 1 <= maxAttempts).
Context (d : DB B) (Hd : db_ok d).
Let Hwf := grouped_wf items Hok gs Hgr.

Lemma group_item g e : g ∈ gs -> e ∈ g_entries g ->
  bp_item e ∈ items /\ item_key (bp_item e) = g_key g /\ it_Key (bp_item e) = gkey g.
Proof.
  intros Hg He. destruct (entry_group items Hok gs Hgr g e Hg He) as (Hin & ? & ?).
  split_and!; [by apply entry_item|done..].
Qed.

Lemma ensure_open g t : g ∈ gs -> open_ok (group_id g) (ensure_group (t, g) d).
Proof.
  intros Hg. unfold ensure_group. simpl. destruct (inbox d !! group_id g) as [r|] eqn:Hi.
  - rewrite (ensure_identity_present _ _ _ _ r) by done. by apply db_ok_open.
  - rewrite ensure_identity_absent by done. apply new_identity_open; [done..|].
    destruct (first_item_in (g_entries g) (gr_nonempty _ _ Hgr g Hg)) as (e & He & ->).
    apply (bo_each items Hok). by apply (group_item g e).
Qed.

Section Inserted.
Context (l : list (Time * batchGroup)) (Hl : List.map snd l ≡ₚ gs).
Abbreviation d1 := (apply_all ensure_group l d).

Lemma insert_rows_ok : rows_ok d1.
Proof.
  apply rows_ok_pointwise. intros k. destruct (decide (k ∈ List.map group_id gs)) as [Hk|Hk].
  - apply list_elem_of_In, in_map_iff in Hk as (g & <- & Hg). apply list_elem_of_In in Hg.
    destruct (insert_at _ gs Hwf d l Hl g Hg) as (t & Ht). eexists. split; [exact Ht|]. by apply ensure_open.
  - exists d. split; [by apply (insert_frame gs d l Hl)|apply Hd].
Qed.

Lemma ensure_identified g t : g ∈ gs -> identified (group_id g) (group_stored d1 g) (ensure_group (t, g) d).
Proof.
  intros Hg.  rewrite (insert_stored _ gs Hwf d l Hl g Hg). unfold identified, ensure_group. simpl.
  destruct (inbox d !! group_id g) as [r|] eqn:Hi.
  - rewrite (ensure_identity_present _ _ _ _ r) by done. eauto.
  - rewrite ensure_identity_absent by done. simpl. rewrite lookup_insert_eq. eauto.
Qed.

Abbreviation active := (active_groups gs maxAttempts d l).

Lemma active_inv a : a ∈ active -> exists g, g ∈ gs /\ a = admitted d1 g /\
  group_id a = group_id g /\ gkey a = gkey g /\ g_key a = g_key g /\ gfp a = group_stored d1 g /\
  group_wf (consumer items) a /\ g_matching a <> [] /\
  (forall e, e ∈ g_matching a -> e ∈ g_entries a) /\
  collision_free (gkey a) (gfp a) /\ g_state a = bs_of (state_of (gkey a) (gfp a) d1).
Proof.
  intros (g & Hg & Hne & Hst & ->)%elem_active. exists g.
  assert (gfp (admitted d1 g) = group_stored d1 g) as Hfp.
  { unfold gfp. destruct (active_head d l g Hne) as (H0 & _ & Hfi). rewrite Hfi.
    apply list_elem_of_lookup_2, matching_iff in H0 as [_ H0]. done. }
  split_and!; try done.
  - destruct (group_of_wf items Hok gs Hgr g Hg) as [W1 W2 W3 W4 W5]. by split.
  - intros e He. by apply (matching_iff d l g e).
  - rewrite Hfp. change (gkey (admitted d1 g)) with (gkey g).
    destruct (active_head d l g Hne) as (H0 & _ & _). apply list_elem_of_lookup_2, matching_iff in H0 as [H0 H1].
    destruct (group_item g _ Hg H0) as (Hin & _ & <-). rewrite H1.
    by apply (bo_each items Hok).
  - rewrite Hfp. done.
Qed.

Context (errs : BatchItemKey -> option error).
Context (zs : list (batchGroup * batchClassified)) (Hfst : List.map fst zs ≡ₚ active).
Context (Hcls : forall x, x ∈ zs -> x.2 = classified (errs (g_key x.1))).

Definition kind_of (a : batchGroup) : FailureKind := (Classify (errs (g_key a))).1.

Lemma elem_of_kind p a : a ∈ of_kind p zs <-> a ∈ active /\ p (kind_of a) = true.
Proof.
  unfold of_kind. rewrite list_elem_of_In, in_map_iff. setoid_rewrite <- list_elem_of_In.
  setoid_rewrite list_elem_of_filter. split.
  - intros (x & <- & Hp & Hx). split.
    + rewrite <- Hfst. apply list_elem_of_In, in_map. by apply list_elem_of_In.
    + rewrite (Hcls x Hx) in Hp. unfold classified in Hp. unfold kind_of. by destruct (Classify _).
  - intros [Ha Hp]. rewrite <- Hfst in Ha. apply list_elem_of_In, in_map_iff in Ha as (x & <- & Hx).
    apply list_elem_of_In in Hx. exists x. split_and!; [done| |done].
    rewrite (Hcls x Hx). unfold classified, kind_of in *. by destruct (Classify _).
Qed.

Lemma NoDup_of_kind p : NoDup (List.map g_key (of_kind p zs)) /\ NoDup (List.map group_id (of_kind p zs)).
Proof.
  assert (NoDup (List.map g_key (of_kind p zs))) as Hk.
  { unfold of_kind. rewrite map_map. apply NoDup_map_filter. rewrite <- (map_map fst g_key), Hfst.
    by apply (NoDup_active items Hok gs Hgr). }
  split; [done|]. eapply NoDup_map_inj; [|exact Hk].
  intros a b [Ha _]%elem_of_kind [Hb _]%elem_of_kind.
  destruct (active_inv a Ha) as (?&_&_&_&_&_&_&Wa&_), (active_inv b Hb) as (?&_&_&_&_&_&_&Wb&_).
  by apply (group_wf_id (consumer items)).
Qed.

Context (b : B).
Abbreviation d2 := (set_business b d1).

Lemma d2_rows : rows_ok d2.
Proof.
  apply rows_ok_pointwise. intros k. exists d1. split; [apply same_at_business|apply insert_rows_ok].
Qed.

(** What an active group can rely on when the tables hold its identity. *)
Lemma active_matched a (D : DB B) : a ∈ active -> identified (group_id a) (gfp a) D ->
  group_matched (consumer items) D a.
Proof. intros Ha Hid. destruct (active_inv a Ha) as (g&_&_&_&_&_&_&?&?&?&_). by split. Qed.

Lemma active_base a : a ∈ active -> exists D, same_at (group_id a) d2 D /\
  open_ok (group_id a) D /\ identified (group_id a) (gfp a) D /\
  exists g t, g ∈ gs /\ a = admitted d1 g /\ D = ensure_group (t, g) d.
Proof.
  intros Ha. destruct (active_inv a Ha) as (g&Hg&Hag&Hid&_&_&Hfp&_).
  destruct (insert_at _ gs Hwf d l Hl g Hg) as (t & Ht). exists (ensure_group (t, g) d).
  rewrite Hid, Hfp. split_and!; [|by apply ensure_open|by apply ensure_identified|by exists g, t].
  etrans; [apply same_at_business|exact Ht].
Qed.

(** One phase over the active groups of some kind. *)
Lemma phase_at (u : Time * batchGroup -> DB B -> DB B) p L dd a :
  (forall x, local (group_id x.2) (u x)) -> List.map snd L ≡ₚ of_kind p zs -> a ∈ active ->
  if p (kind_of a) then exists t, same_at (group_id a) (apply_all u L dd) (u (t, a) dd)
  else same_at (group_id a) (apply_all u L dd) dd.
Proof.
  intros Hu HL Ha. destruct (NoDup_of_kind p) as [_ Hi].
  destruct (stamped_step u L (of_kind p zs) dd (group_id a) Hu HL Hi) as [(t & a' & Ha' & Hid' & Hs)|[Hno Hs]].
  - apply elem_of_kind in Ha' as [Ha' Hc]. assert (a' = a) as ->.
    { destruct (active_inv a' Ha') as (g'&Hg'&->&Hi1&_&_&_&_), (active_inv a Ha) as (g&Hg&->&Hi2&_&_&_&_).
      f_equal. apply (NoDup_map_eq group_id gs); [by apply (groups_wf_ids (consumer items))|done..|congruence]. }
    rewrite Hc. eauto.
  - destruct (p (kind_of a)) eqn:Hc; [|done]. exfalso. apply (Hno a); [|done]. by apply elem_of_kind.
Qed.

Lemma phase_frame (u : Time * batchGroup -> DB B -> DB B) p L dd k :
  (forall x, local (group_id x.2) (u x)) -> List.map snd L ≡ₚ of_kind p zs ->
  (forall a, a ∈ active -> group_id a <> k) -> same_at k (apply_all u L dd) dd.
Proof.
  intros Hu HL Hno. destruct (NoDup_of_kind p) as [_ Hi].
  destruct (stamped_step u L (of_kind p zs) dd k Hu HL Hi) as [(t & a' & Ha' & Hid' & Hs)|[_ Hs]]; [|done].
  apply elem_of_kind in Ha' as [Ha' _]. by destruct (Hno a' Ha').
Qed.

Lemma id_cases k : (exists a, a ∈ active /\ group_id a = k) \/ (forall a, a ∈ active -> group_id a <> k).
Proof.
  destruct (decide (k ∈ List.map group_id active)) as [Hk|Hk].
  - left. apply list_elem_of_In, in_map_iff in Hk as (a & ? & Ha). exists a. by rewrite list_elem_of_In.
  - right. intros a Ha He. apply Hk. rewrite <- He. apply list_elem_of_In, in_map. by apply list_elem_of_In.
Qed.

Context (L3 : list (Time * batchGroup)) (H3 : List.map snd L3 ≡ₚ of_kind consumes zs).
Abbreviation d3 := (apply_all consume_group L3 d2).

(** The rows of an active group after its attempt was consumed. *)
Lemma consumed_at a : a ∈ active -> exists D t, same_at (group_id a) d2 D /\
  open_ok (group_id a) D /\ identified (group_id a) (gfp a) D /\
  (exists g t0, g ∈ gs /\ a = admitted d1 g /\ D = ensure_group (t0, g) d) /\
  same_at (group_id a) d3 (if consumes (kind_of a) then consume (gkey a) (gfp a) t D else D).
Proof.
  intros Ha. destruct (active_base a Ha) as (D & HD & Ho & Hid & Hg).
  pose proof (phase_at consume_group consumes L3 d2 a consume_group_local H3 Ha) as Hp.
  destruct (consumes (kind_of a)).
  - destruct Hp as (t & Hp). exists D, t. split_and!; [done..|]. etrans; [exact Hp|].
    by apply (local_cong _ _ (local_consume _ _ _)).
  - exists D, 0. split_and!; [done..|]. by etrans.
Qed.

Lemma consumed_ok a (D : DB B) t : a ∈ active -> open_ok (group_id a) D -> identified (group_id a) (gfp a) D ->
  db_ok (consume (gkey a) (gfp a) t D) /\ identified (group_id a) (gfp a) (consume (gkey a) (gfp a) t D).
Proof.
  intros Ha Ho Hid. destruct (active_inv a Ha) as (g&_&_&_&_&_&_&_&_&_&Hcf&_).
  split; [by apply (consume_ok (gkey a) (gfp a) t D Ho Hid Hcf)|by apply identified_consume].
Qed.

Lemma d3_rows : rows_ok d3.
Proof.
  apply rows_ok_pointwise. intros k. destruct (id_cases k) as [(a & Ha & <-)|Hno].
  - destruct (consumed_at a Ha) as (D & t & _ & Ho & Hid & _ & Hs). eexists. split; [exact Hs|].
    destruct (consumes _); [by apply consumed_ok|apply Ho].
  - exists d2. split; [|apply d2_rows]. by eapply phase_frame; [apply consume_group_local|..].
Qed.

Lemma d3_matched p : Forall (group_matched (consumer items) d3) (of_kind p zs).
Proof.
  apply Forall_forall. intros a [Ha _]%elem_of_kind. apply active_matched; [done|].
  destruct (consumed_at a Ha) as (D & t & _ & Ho & Hid & _ & Hs). eapply identified_same; [exact Hs|].
  destruct (consumes _); [by apply consumed_ok|done].
Qed.

Lemma d2_matched p : Forall (group_matched (consumer items) d2) (of_kind p zs).
Proof.
  apply Forall_forall. intros a [Ha _]%elem_of_kind. apply active_matched; [done|].
  destruct (active_base a Ha) as (D & HD & _ & Hid & _). by eapply identified_same.
Qed.

Context (L4 : list (Time * batchGroup)) (H4 : List.map snd L4 ≡ₚ of_kind is_success zs).
Abbreviation d4 := (apply_all complete_group L4 d3).

Lemma d4_rows : rows_ok d4.
Proof.
  apply rows_ok_pointwise. intros k. destruct (id_cases k) as [(a & Ha & <-)|Hno].
  - pose proof (phase_at complete_group is_success L4 d3 a complete_group_local H4 Ha) as Hp.
    destruct (is_success (kind_of a)) eqn:Hk.
    + destruct Hp as (t4 & Hp). destruct (consumed_at a Ha) as (D & t & _ & Ho & Hid & _ & Hs).
      unfold is_success in Hk. bool_simpl. rewrite Hk in Hs. cbn in Hs.
      exists (complete_identity (group_id a) t4 (consume (gkey a) (gfp a) t D)). split.
      * etrans; [exact Hp|]. by apply (local_cong _ _ (local_complete _ _)).
      * apply complete_identity_ok, db_ok_open. by apply consumed_ok.
    + exists d3. split; [done|apply d3_rows].
  - exists d3. split; [|apply d3_rows]. by eapply phase_frame; [apply complete_group_local|..].
Qed.

Lemma d4_matched : Forall (group_matched (consumer items) d4) (of_kind is_permanent zs).
Proof.
  apply Forall_forall. intros a [Ha Hk]%elem_of_kind. apply active_matched; [done|].
  pose proof (phase_at complete_group is_success L4 d3 a complete_group_local H4 Ha) as Hp.
  unfold is_permanent in Hk. bool_simpl. rewrite Hk in Hp. cbn in Hp.
  pose proof (d3_matched is_permanent) as HF. rewrite Forall_forall in HF.
  eapply identified_same; [exact Hp|]. apply HF, elem_of_kind. unfold is_permanent. by rewrite Hk.
Qed.

Context (L5 : list (Time * batchGroup)) (H5 : List.map snd L5 ≡ₚ of_kind is_permanent zs).
Abbreviation d5 := (apply_all flag_group L5 d4).

(** All phases before the commit, at an active group. *)
Lemma phases_at a : a ∈ active -> exists g t0 t3 t4 t5, g ∈ gs /\ a = admitted d1 g /\
  let D := ensure_group (t0, g) d in
  same_at (group_id a) d5
    match kind_of a with
    | FailureSuccess => complete_identity (group_id a) t4 (consume (gkey a) (gfp a) t3 D)
    | FailurePermanent => flag_permanent (gkey a) (gfp a) t5 (consume (gkey a) (gfp a) t3 D)
    | FailureDefer => D
    | FailureRetryAfter | FailureOrdinary => consume (gkey a) (gfp a) t3 D
    end.
Proof.
  intros Ha. destruct (consumed_at a Ha) as (D & t3 & _ & _ & _ & (g & t0 & Hg & Hag & ->) & Hs3).
  pose proof (phase_at complete_group is_success L4 d3 a complete_group_local H4 Ha) as Hs4.
  pose proof (phase_at flag_group is_permanent L5 d4 a flag_group_local H5 Ha) as Hs5.
  exists g, t0, t3. destruct (kind_of a) eqn:Hk; cbn in Hs3, Hs4, Hs5.
  - destruct Hs4 as (t4 & Hs4). exists t4, 0. split_and!; [done..|].
    etrans; [exact Hs5|]. etrans; [exact Hs4|]. by apply (local_cong _ _ (local_complete _ _)).
  - destruct Hs5 as (t5 & Hs5). exists 0, t5. split_and!; [done..|].
    etrans; [exact Hs5|]. apply (local_cong _ _ (local_flag _ _ _)). etrans; [exact Hs4|exact Hs3].
  - exists 0, 0. split_and!; [done..|]. etrans; [exact Hs5|]. etrans; [exact Hs4|exact Hs3].
  - exists 0, 0. split_and!; [done..|]. etrans; [exact Hs5|]. etrans; [exact Hs4|exact Hs3].
  - exists 0, 0. split_and!; [done..|]. etrans; [exact Hs5|]. etrans; [exact Hs4|exact Hs3].
Qed.

Lemma phases_frame k : (forall a, a ∈ active -> group_id a <> k) -> same_at k d5 d1.
Proof.
  intros Hno. etrans; [by eapply phase_frame; [apply flag_group_local|..]|].
  etrans; [by eapply phase_frame; [apply complete_group_local|..]|].
  etrans; [by eapply phase_frame; [apply consume_group_local|..]|]. apply same_at_business.
Qed.

Lemma phases_business : business d5 = b.
Proof.
  assert (forall (u : Time * batchGroup -> DB B -> DB B) L dd, (forall x, local (group_id x.2) (u x)) ->
    business (apply_all u L dd) = business dd) as Hb.
  { intros u L dd Hu. apply (apply_all_business (fun x => group_id x.2)). apply Forall_forall. auto. }
  by rewrite (Hb flag_group _ _ flag_group_local), (Hb complete_group _ _ complete_group_local),
    (Hb consume_group _ _ consume_group_local).
Qed.

(** ** The committed rows *)
Abbreviation Outs := (spec_items items maxAttempts errs d).
Abbreviation d7 t1 t2 := (apply_all (record_item t2) (terminal_items ∅ Outs)
  (apply_all (keep_item t1) (deferred_items false Outs ++ deferred_items true Outs) d5)).

Lemma item_entry it : it ∈ items -> exists e, e ∈ entries items /\ bp_item e = it.
Proof.
  intros [i Hi]%list_elem_of_lookup. exists {| bp_index := i; bp_item := it |}. by rewrite elem_entries.
Qed.

Lemma item_matching e : e ∈ entries items -> status_of items maxAttempts d (bp_item e) <> Conflict ->
  exists g, g ∈ gs /\ e ∈ group_matching d1 g /\ gkey g = it_Key (bp_item e) /\ g_key g = item_key (bp_item e).
Proof.
  intros He Hs. destruct (item_group items Hok gs (bp_item e) Hgr (entry_item _ _ He)) as (g & Hg & Hk & HK).
  exists g. split_and!; [done| |done..].
  assert (e ∈ g_entries g) as Hge.
  { rewrite (gr_entries _ _ Hgr g Hg). apply elem_entries_of. by apply elem_entries in He. }
  destruct (decide (group_stored d1 g = it_Fingerprint (bp_item e))) as [Hf|Hf]; [by apply matching_iff|].
  destruct Hs. apply (status_conflict items Hok gs Hgr maxAttempts d l Hl g e Hg Hge).
  rewrite matching_iff. tauto.
Qed.

(** Before the commit, at a message settled by an earlier delivery. *)
Lemma settled_base e : e ∈ entries items -> status_of items maxAttempts d (bp_item e) <> Conflict ->
  status_of items maxAttempts d (bp_item e) <> Active ->
  same_at (key_id (it_Key (bp_item e))) d5 d.
Proof.
  intros He Hs Hna. destruct (item_matching e He Hs) as (g & Hg & Hm & HK & Hk). rewrite <- HK. fold (group_id g).
  destruct (status_matching items Hok gs Hgr maxAttempts Hmax d (proj1 Hd) l Hl g e Hg Hm) as [Hst _].
  etrans; [apply phases_frame|].
  - intros a (g' & Hg' & _ & Hst' & ->)%elem_active Hid. change (group_id (admitted d1 g')) with (group_id g') in Hid.
    assert (g' = g) as -> by (apply (NoDup_map_eq group_id gs); [by apply (groups_wf_ids (consumer items))|done..]).
    congruence.
  - destruct (insert_at _ gs Hwf d l Hl g Hg) as (t & Ht). etrans; [exact Ht|].
    assert (is_Some (inbox d !! group_id g)) as [r Hr].
    { unfold group_id. rewrite HK. unfold status_of, completed in Hs, Hna.
      destruct (inbox d !! key_id (it_Key (bp_item e))) as [r|] eqn:Hi; [by eauto|].
      destruct (state_of (it_Key (bp_item e)) (it_Fingerprint (bp_item e)) d) as [s|] eqn:Hst'.
      - apply state_identity in Hst' as [? ?]; [congruence|apply Hd].
      - by destruct (negb _). }
    unfold ensure_group. simpl. by rewrite (ensure_identity_present _ _ _ _ r).
Qed.

(** Before the commit, at a message the handler answered. *)
Lemma active_phase e : e ∈ entries items -> status_of items maxAttempts d (bp_item e) = Active ->
  let key := it_Key (bp_item e) in let fp := it_Fingerprint (bp_item e) in
  exists t0 t3 t4, let D := ensure_identity (key_id key) fp t0 d in
  same_at (key_id key) d5
    match (Classify (errs (item_key (bp_item e)))).1 with
    | FailureSuccess => complete_identity (key_id key) t4 (consume key fp t3 D)
    | FailurePermanent => flag_permanent key fp t4 (consume key fp t3 D)
    | FailureDefer => D
    | FailureRetryAfter | FailureOrdinary => consume key fp t3 D
    end.
Proof.
  intros He Hs key fp. destruct (item_matching e He) as (g & Hg & Hm & HK & Hk); [congruence|].
  destruct (status_matching items Hok gs Hgr maxAttempts Hmax d (proj1 Hd) l Hl g e Hg Hm) as [Hst _].
  assert (admitted d1 g ∈ active) as Ha.
  { apply elem_active. exists g. split_and!; [done| |congruence|done].
    intros Hn. rewrite Hn in Hm. by apply not_elem_of_nil in Hm. }
  destruct (phases_at (admitted d1 g) Ha) as (g' & t0 & t3 & t4 & t5 & Hg' & Hag & Hsame).
  destruct (active_inv _ Ha) as (g'' & Hg'' & Hag' & _ & _ & _ & Hfp & _).
  assert (g' = g) as ->.
  { apply (NoDup_map_eq group_id gs); [by apply (groups_wf_ids (consumer items))|done..|].
    change (group_id (admitted d1 g') = group_id (admitted d1 g)). by rewrite Hag. }
  assert (gfp (admitted d1 g) = fp) as Hf.
  { assert (g'' = g) as -> by (apply (NoDup_map_eq group_id gs);
      [by apply (groups_wf_ids (consumer items))|done..|];
      change (group_id (admitted d1 g'') = group_id (admitted d1 g)); by rewrite Hag').
    rewrite Hfp. by apply (matching_iff d l g e). }
  assert (gkey (admitted d1 g) = key) as Hkey by exact HK.
  assert (group_id (admitted d1 g) = key_id key) as Hgid by (unfold group_id; by rewrite Hkey).
  assert (ensure_group (t0, g) d = ensure_identity (key_id key) fp t0 d) as HD.
  { unfold ensure_group. simpl. unfold group_id. rewrite HK. fold key.
    destruct (inbox d !! key_id key) as [r|] eqn:Hi; [by rewrite !(ensure_identity_present _ _ _ _ r)|].
    f_equal. apply matching_iff in Hm as [_ Hm]. rewrite (insert_stored _ gs Hwf d l Hl g Hg) in Hm.
    unfold group_id in Hm. rewrite HK in Hm. fold key in Hm. by rewrite Hi in Hm. }
  unfold kind_of in Hsame. change (g_key (admitted d1 g)) with (g_key g) in Hsame.
  rewrite Hk, Hkey, Hf, Hgid, HD in Hsame. cbv zeta in Hsame.
  destruct (Classify (errs (item_key (bp_item e)))) as [k delay]. cbn [fst] in *.
  exists t0, t3. destruct k; [exists t4|exists t5|exists t4..]; exact Hsame.
Qed.

(** The commit at a message the handler answered: all phases together. *)
Lemma active_rows e t1 t2 : e ∈ entries items -> status_of items maxAttempts d (bp_item e) = Active ->
  let key := it_Key (bp_item e) in let fp := it_Fingerprint (bp_item e) in
  exists t0 u3 u4 u5, same_at (key_id key) (d7 t1 t2)
    (settle_rows key fp (attempts_of d (bp_item e) + 1) maxAttempts (errs (item_key (bp_item e))) u3 u4 u5
       (ensure_identity (key_id key) fp t0 d)).
Proof.
  intros He Hs key fp. assert (status_of items maxAttempts d (bp_item e) <> Conflict) as Hc by congruence.
  destruct (active_phase e He Hs) as (t0 & t3 & t4 & H5'). fold key fp in H5'.
  pose proof (record_at items Hok maxAttempts d errs e t2
    (apply_all (keep_item t1) (deferred_items false Outs ++ deferred_items true Outs) d5) He Hc) as Hrec.
  pose proof (keep_at items Hok maxAttempts d errs e t1 d5 He Hc) as Hkeep.
  fold key in Hrec, Hkeep. exists t0. set (D := ensure_identity (key_id key) fp t0 d) in *. cbv zeta in H5'.
  assert (forall D' : DB B, (is_deferred (spec_outcome items maxAttempts errs d e) = false) ->
    is_terminal (spec_outcome items maxAttempts errs d e) = false -> same_at (key_id key) d5 D' ->
    same_at (key_id key) (d7 t1 t2) D') as Hplain.
  { intros D' Hdf Htm HD'. rewrite Htm in Hrec. rewrite Hdf in Hkeep. etrans; [exact Hrec|]. by etrans. }
  assert (forall (D' : DB B) n kind, (is_deferred (spec_outcome items maxAttempts errs d e) = false) ->
    is_terminal (spec_outcome items maxAttempts errs d e) = true -> same_at (key_id key) d5 D' ->
    record_item (B := B) t2 (spec_outcome items maxAttempts errs d e) = record_terminal key fp n kind t2 ->
    same_at (key_id key) (d7 t1 t2) (record_terminal key fp n kind t2 D')) as Hterm.
  { intros D' n kind Hdf Htm HD' Heq. rewrite Htm, Heq in Hrec. rewrite Hdf in Hkeep. etrans; [exact Hrec|].
    apply (local_cong _ _ (local_record _ _ _ _ _)). by etrans. }
  unfold spec_outcome, settled_outcome in Hplain, Hterm, Hkeep, Hrec. rewrite Hs in Hplain, Hterm, Hkeep, Hrec.
  unfold settle_rows. destruct (Classify (errs (item_key (bp_item e)))) as [k delay]. cbn [fst] in H5'.
  destruct k.
  - exists t3, t4, 0. by apply Hplain.
  - exists t3, t4, t2. by apply Hterm.
  - destruct (Z.eqb_spec (attempts_of d (bp_item e)) 0) as [Hn|Hn].
    + exists t1, 0, 0. cbn in Hrec, Hkeep. unfold is_deferred, is_terminal in Hrec, Hkeep. cbn in Hrec, Hkeep.
      rewrite Hn in Hkeep. cbn in Hkeep. etrans; [exact Hrec|]. etrans; [exact Hkeep|].
      by apply (local_cong _ _ (local_keep_deferred _ _ _)).
    + exists 0, 0, 0. rewrite (keep_deferred_present key fp 0 D (default (0, false, "") (state_of key fp d))).
      * apply Hplain; [|done..]. unfold is_deferred. cbn. by apply Z.eqb_neq.
      * unfold attempts_of in Hn. fold key fp in Hn. destruct (state_of key fp d) as [s|] eqn:Hst; [|done].
        unfold D, state_of, ensure_identity, sql_insertIdentity in *. by destruct (inbox d !! key_id key).
  - destruct (maxAttempts <=? attempts_of d (bp_item e) + 1).
    + exists t3, t2, 0. by apply Hterm.
    + exists t3, 0, 0. by apply Hplain.
  - destruct (maxAttempts <=? attempts_of d (bp_item e) + 1).
    + exists t3, t2, 0. by apply Hterm.
    + exists t3, 0, 0. by apply Hplain.
Qed.

Lemma settled_rows e t1 t2 : e ∈ entries items -> status_of items maxAttempts d (bp_item e) <> Conflict ->
  status_of items maxAttempts d (bp_item e) <> Active ->
  forall h, exists w, same_at (key_id (it_Key (bp_item e))) (d7 t1 t2)
    (op_db (spec_ProcessAttempt (it_Key (bp_item e)) (it_Fingerprint (bp_item e)) maxAttempts h d w)).
Proof.
  intros He Hs Hna h. set (key := it_Key (bp_item e)). set (fp := it_Fingerprint (bp_item e)).
  pose proof (settled_base e He Hs Hna) as Hbase.
  pose proof (record_at items Hok maxAttempts d errs e t2
    (apply_all (keep_item t1) (deferred_items false Outs ++ deferred_items true Outs) d5) He Hs) as Hrec.
  pose proof (keep_at items Hok maxAttempts d errs e t1 d5 He Hs) as Hkeep. fold key in Hrec, Hkeep, Hbase.
  exists (clock_env [0; t2]). unfold spec_ProcessAttempt. change (tick (clock_env [0; t2])) with (0, clock_env [t2]).
  cbv beta iota. unfold spec_outcome in Hrec, Hkeep. unfold attempts_of in Hrec, Hkeep.
  unfold status_of, completed, stored_fingerprint in *. fold key fp in Hs, Hna, Hrec, Hkeep.
  destruct (inbox d !! key_id key) as [r|] eqn:Hi.
  - destruct (String.eqb (i_fingerprint r) fp) eqn:Hfp; [|done]. cbn [negb] in *.
    destruct (i_completed_at r).
    + cbn in Hrec, Hkeep. etrans; [exact Hrec|]. etrans; [exact Hkeep|exact Hbase].
    + unfold spec_pending. destruct (state_of key fp d) as [[[n flag] kind]|] eqn:Hst; [|done].
      destruct (flag || String.eqb kind FailurePermanentKind).
      { etrans; [exact Hrec|]. apply (local_cong _ _ (local_record _ _ _ _ _)). etrans; [exact Hkeep|exact Hbase]. }
      destruct ((maxAttempts <=? n) || String.eqb kind FailureAttemptsExhausted); [|done].
      etrans; [exact Hrec|]. apply (local_cong _ _ (local_record _ _ _ _ _)). etrans; [exact Hkeep|exact Hbase].
  - exfalso. destruct (negb _); [done|]. destruct (state_of key fp d) as [s|] eqn:Hst; [|done].
    apply state_identity in Hst as [? ?]; [congruence|apply Hd].
Qed.

Lemma batch_rows_ok t1 t2 : batch_rows items maxAttempts errs d (d7 t1 t2).
Proof.
  split.
  - intros it Hit Hs. destruct (item_entry it Hit) as (e & He & <-).
    destruct (decide (status_of items maxAttempts d (bp_item e) = Active)) as [Ha|Ha]; [|by apply settled_rows].
    destruct (active_rows e t1 t2 He Ha) as (t0 & u3 & u4 & u5 & Hrows).
    exists (clock_env [t0; u3; u4; u5]). rewrite (active_single items) by (apply Hd || done).
    etrans; [exact Hrows|]. symmetry. apply spec_handle_rows.
  - intros k Hk. etrans; [by apply commit_frame|].
    destruct (decide (k ∈ List.map group_id gs)) as [Hin|Hin].
    + apply list_elem_of_In, in_map_iff in Hin as (g & <- & Hg). apply list_elem_of_In in Hg.
      destruct (first_item_in (g_entries g) (gr_nonempty _ _ Hgr g Hg)) as (e0 & He0 & Hf0).
      destruct (group_item g e0 Hg He0) as (Hin0 & Hk0 & HK0).
      assert (status_of items maxAttempts d (bp_item e0) = Conflict) as Hc0.
      { apply Hk; [done|]. by rewrite HK0. }
      etrans; [apply phases_frame|].
      * intros a (g' & Hg' & Hne & Hst' & ->)%elem_active Hid. change (group_id (admitted d1 g')) with (group_id g') in Hid.
        assert (g' = g) as -> by (apply (NoDup_map_eq group_id gs); [by apply (groups_wf_ids (consumer items))|done..]).
        destruct (group_matching d1 g) as [|e r] eqn:Hm; [done|].
        assert (e ∈ group_matching d1 g) as Hme by (rewrite Hm; left).
        destruct (status_matching items Hok gs Hgr maxAttempts Hmax d (proj1 Hd) l Hl g e Hg Hme) as [Hst _].
        apply matching_iff in Hme as [Hge _]. destruct (group_item g e Hg Hge) as (Hie & _ & HKe).
        rewrite (Hk (bp_item e) Hie) in Hst; [congruence|]. by rewrite HKe.
      * destruct (insert_at _ gs Hwf d l Hl g Hg) as (t & Ht). etrans; [exact Ht|].
        unfold ensure_group. simpl. destruct (inbox d !! group_id g) as [r|] eqn:Hi.
        { by rewrite (ensure_identity_present _ _ _ _ r). }
        exfalso. unfold status_of, stored_fingerprint in Hc0. rewrite HK0 in Hc0. fold (group_id g) in Hc0.
        rewrite Hi, Hk0, <- (gr_entries _ _ Hgr g Hg), Hf0, String.eqb_refl in Hc0. cbn [negb] in Hc0.
        destruct (completed _ _); [done|]. destruct (state_of _ _ _) as [[[n flag] kind]|]; [|done].
        destruct (flag || _); [done|]. by destruct ((_ <=? _) || _).
    + etrans; [apply phases_frame|].
      * intros a (g' & Hg' & _ & _ & ->)%elem_active Hid. apply Hin. rewrite <- Hid.
        apply list_elem_of_In, (in_map group_id gs g'). by apply list_elem_of_In.
      * by apply (insert_frame gs d l Hl).
Qed.

(** Terminal outcomes carry a positive attempt count. *)
Lemma outcomes_recordable : Forall recordable Outs.
Proof.
  apply Forall_forall. intros x (e & He & ->)%elem_outcomes Ht.
  assert (status_of items maxAttempts d (bp_item e) <> Conflict) as Hs.
  { intros Hc. unfold spec_outcome in Ht. by rewrite Hc in Ht. }
  destruct (item_matching e He Hs) as (g & Hg & Hm & HK & Hk).
  assert (0 <= attempts_of d (bp_item e)) as Hpos.
  { unfold attempts_of. destruct (state_of _ _ d) as [[[n flag] kind]|] eqn:Hst; [|done].
    apply state_of_Some in Hst as (c & Hc & <-). by apply (counter_of_ok _ _ _ _ (proj1 Hd) Hc). }
  unfold recordable, spec_outcome, settled_outcome in *.
  destruct (status_of items maxAttempts d (bp_item e)) as [| |p|] eqn:Hst; [done..| |].
  - assert (1 <= attempts_of d (bp_item e)); [|by destruct p].
    unfold status_of, attempts_of, completed in *.
    destruct (negb _) eqn:Hfp; [done|]. apply negb_false_iff, String.eqb_eq in Hfp.
    destruct (state_of _ _ d) as [[[n flag] kind]|] eqn:Hso; [|by destruct (inbox d !! _) as [[? ? []]|]].
    destruct (state_identity _ _ _ _ (proj1 Hd) Hso) as [r Hr].
    assert (identified (key_id (it_Key (bp_item e))) (it_Fingerprint (bp_item e)) d) as Hid.
    { exists r. split; [done|]. unfold stored_fingerprint in Hfp. by rewrite Hr in Hfp. }
    destruct (bo_each items Hok (bp_item e) (entry_item _ _ He)) as (_ & _ & Hcf).
    pose proof (state_closed_count _ _ _ _ _ _ (proj1 Hd) Hid Hcf Hso) as Hcl.
    rewrite Hr in Hst. destruct (i_completed_at r); [done|].
    destruct flag; [by apply Hcl; left|]. cbn in Hst.
    destruct (String.eqb_spec kind FailurePermanentKind) as [->|]; [by apply Hcl; right|].
    destruct (Z.leb_spec maxAttempts n); [lia|]. cbn in Hst.
    destruct (String.eqb_spec kind FailureAttemptsExhausted) as [->|]; [by apply Hcl; right|done].
  - destruct (Classify _) as [[] ?]; cbn in *; try done; try lia; destruct (maxAttempts <=? _); cbn in *; lia.
Qed.

Lemma committed_business t1 t2 : business (d7 t1 t2) = b.
Proof.
  assert (forall (u : BatchItemOutcome -> DB B -> DB B) L dd, (forall x, local (key_id (o_Key x)) (u x)) ->
    business (apply_all u L dd) = business dd) as Hb.
  { intros u L dd Hu. apply (apply_all_business (fun x => key_id (o_Key x))). apply Forall_forall. auto. }
  rewrite (Hb (record_item t2) _ _ (record_item_local t2)), (Hb (keep_item t1) _ _ (keep_item_local t1)).
  apply phases_business.
Qed.
End Inserted.
End Phases.
