(* ===== verification/InboxBatchRefine.v ===== *)
(** * A backend's batch refines the batch specification *)
From S2P Require Import Prelude GoStrings Errors Ident Batch Inbox InboxSQL TerminalState InboxSpec.
From S2P Require Import InboxProps InboxRefine InboxEffects InboxClosed InboxLocal InboxBatch.
From S2P Require Import InboxGroups InboxBatchSpec InboxBatchProps InboxBatchRun.
Import Stdlib.Strings.String.
Open Scope string_scope.
Open Scope Z_scope.

Section Refine.
Context {B : Type} (ops : batchOps B) `{!BatchBackend ops}.
Implicit Types (d : DB B) (w : env).

Lemma commit_quiet_batch report d w : Forall recordable (Items report) -> exists t1 t2 w',
  e_handlerCalls w' = e_handlerCalls w /\
  commitTerminalBatch ops report d (quiet w)
  = Done (Some (apply_all (record_item t2) (terminal_items ∅ (Items report))
       (apply_all (keep_item t1)
          (deferred_items false (Items report) ++ deferred_items true (Items report)) d)))
      (quiet w') report None.
Proof.
  intros Hr. exists (tick w).1, (tick (tick w).2).1, (tick (tick w).2).2.
  split; [by rewrite !tick_calls|]. unfold commitTerminalBatch. tx_step.
  rewrite tx_bind_eq, PreserveDeferred_quiet. cbv beta iota. tx_step.
  rewrite tx_bind_eq, Record_quiet by done. done.
Qed.

Lemma batch_handler_quiet h its d w :
  call_batch_handler (V := BatchProcessResult) h its d (quiet w)
  = Cont (set_business (h its (business d)).1 d) (quiet (called w)) (h its (business d)).2.
Proof. unfold call_batch_handler. by destruct (h its (business d)). Qed.

Lemma set_business_same d : set_business (business d) d = d.
Proof. by destruct d. Qed.

Section Fixed.
Context (items : list BatchItem) (Hok : batch_ok items).
Context (maxAttempts : Z) (Hmax : 1 <= maxAttempts) (d : DB B) (Hd : db_ok d).
Context (gs : list batchGroup) (Hgr : grouped items gs).
Context (l : list (Time * batchGroup)) (Hl : List.map snd l ≡ₚ gs).
Context (ws : list (nat * BatchItemOutcome))
  (Hws : ws ≡ₚ List.concat (List.map (group_writes maxAttempts (apply_all ensure_group l d)) gs)).
Abbreviation d1 := (apply_all ensure_group l d).
Abbreviation os0 := (repeat BatchItemOutcome0 (List.length items)).

(** No message is active. *)
Lemma no_active w : active_groups gs maxAttempts d l = [] -> exists d' w',
  e_handlerCalls w' = e_handlerCalls w /\ business d' = business d /\
  batch_rows items maxAttempts (fun _ => None) d d' /\
  commitTerminalBatch ops {| Items := write_all ws os0; HandlerMessages := 0 |} d1 (quiet w)
  = Done (Some d') (quiet w')
      {| Items := spec_items items maxAttempts (fun _ => None) d; HandlerMessages := 0 |} None.
Proof.
  intros Hnone.
  assert (write_all ws os0 = spec_items items maxAttempts (fun _ => None) d) as ->.
  { rewrite <- (app_nil_r ws). apply (report_spec items Hok gs Hgr maxAttempts Hmax d (proj1 Hd) l Hl _ ∅ []); [done| |apply repeat_length].
    split; [intros a; by rewrite Hnone|]. by intros x ?%not_elem_of_nil. }
  assert (@List.map (batchGroup * batchClassified) batchGroup fst [] ≡ₚ active_groups gs maxAttempts d l) as Hf by by rewrite Hnone.
  destruct (insert_tables d l) as (_ & _ & _ & Hb).
  destruct (commit_quiet_batch {| Items := spec_items items maxAttempts (fun _ => None) d; HandlerMessages := 0 |} d1 w)
    as (t1 & t2 & w' & Hw & Hrun).
  { by apply (outcomes_recordable items Hok gs Hgr maxAttempts Hmax d Hd l Hl). }
  eexists _, w'. split_and!; [done| | |exact Hrun].
  - pose proof (committed_business items maxAttempts d l (fun _ => None) (business d1) [] [] [] t1 t2) as Hc.
    rewrite set_business_same in Hc. rewrite <- Hb. exact Hc.
  - pose proof (batch_rows_ok items Hok gs Hgr maxAttempts Hmax d Hd l Hl (fun _ => None) [] Hf
      (fun x Hx => False_ind _ (not_elem_of_nil x Hx)) (business d1) [] (Permutation_refl _)
      [] (Permutation_refl _) [] (Permutation_refl _) t1 t2) as Hr.
    rewrite set_business_same in Hr. exact Hr.
Qed.

(** The handler answered with a valid result. *)
Section Answered.
Context (errs : BatchItemKey -> option error) (zs : list (batchGroup * batchClassified)).
Context (Hfst : List.map fst zs ≡ₚ active_groups gs maxAttempts d l).
Context (Hcls : forall x, x ∈ zs -> x.2 = classified (errs (g_key x.1))).

Lemma settle_quiet b n w : exists d' w',
  e_handlerCalls w' = e_handlerCalls w /\ business d' = b /\ batch_rows items maxAttempts errs d d' /\
  settle_batch ops maxAttempts (write_all ws os0) n zs (set_business b d1) (quiet w)
  = Done (Some d') (quiet w') {| Items := spec_items items maxAttempts errs d; HandlerMessages := n |} None.
Proof.
  unfold settle_batch. pose proof (fun p => NoDup_of_kind items Hok gs Hgr maxAttempts d l errs zs Hfst Hcls p) as Hnd.
  destruct (bb_increment (consumer items) (of_kind consumes zs) (set_business b d1) w) as (L3 & w3 & m & H3 & Hw3 & Hm & Hr3).
  { apply Hnd. }
  { by apply (d2_matched items Hok gs Hgr maxAttempts d Hd l Hl errs zs). }
  { by apply (d2_rows items Hok gs Hgr d Hd l Hl). }
  rewrite tx_bind_eq, Hr3. clear Hr3.
  pose proof (d3_rows items Hok gs Hgr maxAttempts d Hd l Hl errs zs Hfst Hcls b L3 H3) as Hrows3.
  pose proof (d3_matched items Hok gs Hgr maxAttempts d Hd l Hl errs zs Hfst Hcls b L3 H3) as Hmat3.
  destruct (bb_completed (consumer items) (of_kind is_success zs) (apply_all consume_group L3 (set_business b d1)) w3)
    as (L4 & w4 & [] & H4 & Hw4 & _ & Hr4); [apply Hnd|apply Hmat3|].
  rewrite tx_bind_eq, Hr4. clear Hr4.
  pose proof (d4_rows items Hok gs Hgr maxAttempts d Hd l Hl errs zs Hfst Hcls b L3 H3 L4 H4) as Hrows4.
  pose proof (d4_matched items Hok gs Hgr maxAttempts d Hd l Hl errs zs Hfst Hcls b L3 H3 L4 H4) as Hmat4.
  destruct (bb_terminal (consumer items) (of_kind is_permanent zs) _ w4 (proj1 (Hnd is_permanent)) Hmat4 Hrows4)
    as (L5 & w5 & [] & H5 & Hw5 & _ & Hr5).
  rewrite tx_bind_eq, Hr5. clear Hr5.
  assert (assign_active maxAttempts m zs (write_all ws os0) = spec_items items maxAttempts errs d) as ->.
  { rewrite assign_active_writes, <- write_all_app.
    apply (report_spec items Hok gs Hgr maxAttempts Hmax d (proj1 Hd) l Hl); [done| |apply repeat_length].
    split; [intros a; by rewrite Hfst|]. intros x Hx. split; [by apply Hcls|]. intros Hc.
    assert (x.1 ∈ of_kind consumes zs) as Hin.
    { apply list_elem_of_In, in_map_iff. exists x. split; [done|]. by apply list_elem_of_In, list_elem_of_filter. }
    rewrite (Hm _ Hin). do 2 f_equal.
    assert (x.1 ∈ active_groups gs maxAttempts d l) as Ha.
    { rewrite <- Hfst. apply list_elem_of_In, in_map. by apply list_elem_of_In. }
    destruct (active_inv items Hok gs Hgr maxAttempts d l _ Ha) as (g & _ & _ & _ & _ & _ & _ & _ & _ & _ & _ & ->).
    done. }
  set (dd := apply_all flag_group L5 _).
  destruct (commit_quiet_batch {| Items := spec_items items maxAttempts errs d; HandlerMessages := n |} dd w5)
    as (t1 & t2 & w' & Hw' & Hrun).
  { by apply (outcomes_recordable items Hok gs Hgr maxAttempts Hmax d Hd l Hl). }
  eexists _, w'. split_and!; [congruence| | |exact Hrun].
  - apply (committed_business items maxAttempts d l errs b L3 L4 L5).
  - by apply (batch_rows_ok items Hok gs Hgr maxAttempts Hmax d Hd l Hl errs zs Hfst Hcls b L3 H3 L4 H4 L5 H5).
Qed.
End Answered.
End Fixed.

(** ** The undisturbed batch *)
Theorem batch_quiet items maxAttempts h d w :
  batch_ok items -> items <> [] -> 1 <= maxAttempts -> db_ok d ->
  batch_spec items maxAttempts h d w (run (ProcessBatchAttempt ops items maxAttempts h) d (quiet w)).
Proof.
  intros Hok Hne Hmax Hd. unfold run, ProcessBatchAttempt. rewrite decide_False by done.
  destruct (prepareBatchGroups_ok items (bo_generation items Hok)) as (gs0 & -> & Hgr0).
  rewrite tx_bind_eq, begin_quiet. cbv beta iota zeta. set (gs := merge_sort lock_le gs0).
  assert (grouped items gs) as Hgr by (eapply grouped_perm; [|exact Hgr0]; symmetry; apply merge_sort_Permutation).
  pose proof (grouped_wf items Hok gs Hgr) as Hwf.
  assert (gs <> []) as Hgne.
  { destruct items as [|it r] eqn:Hi; [done|]. intros Hn. pose proof (gr_all _ _ Hgr it) as Hall.
    rewrite Hn in Hall. apply (not_elem_of_nil (item_key it)), Hall. left. }
  destruct (bb_prepare (consumer items) gs (repeat BatchItemOutcome0 (List.length items)) maxAttempts d w)
    as (l & w1 & ws & Hl & Hw1 & Hws & Hrun); [done| |apply Hd| |done|].
  { apply Forall_forall. apply (gr_fresh _ _ Hgr). }
  { intros l Hl. by apply (insert_rows_ok items Hok gs Hgr d Hd l Hl). }
  rewrite tx_bind_eq, Hrun. cbv beta iota zeta in Hws |- *.
  change (omap (group_active maxAttempts (apply_all ensure_group l d)) gs) with (active_groups gs maxAttempts d l).
  pose proof (handler_items items Hok gs Hgr maxAttempts Hmax d (proj1 Hd) l Hl) as Hlead.
  unfold batch_spec. unfold sorted_active in Hlead. rewrite <- Hlead.
  destruct (decide (active_groups gs maxAttempts d l = [])) as [Hnone|Hsome].
  - destruct (no_active items Hok maxAttempts Hmax d Hd gs Hgr l Hl ws Hws w1 Hnone) as (d' & w' & Hw' & Hb & Hrows & ->).
    rewrite Hnone. cbn. split; [congruence|]. done.
  - rewrite decide_False.
    2:{ intros Hn. apply map_eq_nil in Hn. pose proof (merge_sort_Permutation first_le (active_groups gs maxAttempts d l)) as Hp.
        rewrite Hn in Hp. apply Permutation_nil_l in Hp. done. }
    set (sorted := merge_sort first_le (active_groups gs maxAttempts d l)) in *.
    set (its := List.map (fun a => first_item (g_matching a)) sorted) in *.
    destruct (insert_tables d l) as (_ & _ & _ & Hb).
    rewrite tx_bind_eq, batch_handler_quiet, Hb. cbv beta iota.
    destruct (h its (business d)) as [b [res herr]]. cbn [fst snd].
    assert (List.map item_key its = List.map g_key sorted) as Hkeys.
    { unfold its. rewrite map_map. apply map_ext_in. intros a Ha.
      apply list_elem_of_In in Ha. unfold sorted in Ha. rewrite merge_sort_Permutation in Ha.
      destruct (active_inv items Hok gs Hgr maxAttempts d l a Ha) as (g & _ & _ & _ & _ & _ & _ & Hgw & Hmne & Hsub & _ & _).
      destruct (first_item_in _ Hmne) as (e & He & ->). rewrite (gw_key _ _ Hgw).
      unfold item_key. rewrite (gw_entries _ _ Hgw e (Hsub e He)). done. }
    destruct herr as [e|].
    { destruct (negb (bool_decide (res = [])) || IsFailClosed (Some e)); cbn; (split; [congruence|done]). }
    rewrite Hkeys. destruct (ValidateResult (List.map g_key sorted) res) as [itemErrors|e] eqn:Hv.
    2:{ cbn. split; [congruence|done]. }
    pose proof (ValidateResult_errors _ _ _ Hv) as HF.
    assert (List.length sorted = List.length (List.map classified itemErrors)) as Hlen.
    { rewrite length_map. apply Forall2_length in HF. by rewrite length_map in HF. }
    destruct (settle_quiet items Hok maxAttempts Hmax d Hd gs Hgr l Hl ws Hws (result_errors res)
      (zip sorted (List.map classified itemErrors))) with (b := b) (n := Z.of_nat (List.length its)) (w := called w1)
      as (d' & w' & Hw' & Hbd & Hrows & ->).
    + change (List.map fst ?x) with (x.*1). rewrite fst_zip by lia. unfold sorted. apply merge_sort_Permutation.
    + intros [a c] Hx. apply elem_of_lookup_zip_with in Hx as (i & a' & c' & Heq & Ha & Hc). simplify_eq/=.
      apply list_lookup_fmap_Some in Hc as (err & -> & He).
      f_equal. unfold result_errors. assert (List.map g_key sorted !! i = Some (g_key a')) as Hka.
      { rewrite list_lookup_fmap, Ha. done. }
      pose proof (Forall2_lookup_lr _ _ _ _ _ _ HF Hka He) as Hmap. cbn in Hmap. by rewrite Hmap.
    + cbn in Hw' |- *. split; [lia|]. done.
Qed.

Lemma batch_atomic items maxAttempts h : atomic (ProcessBatchAttempt ops items maxAttempts h).
Proof.
  assert (forall r, atomic (commitTerminalBatch ops r)) as Hcommit.
  { intros r. unfold commitTerminalBatch. pose proof (atomic_PreserveDeferred (B := B) (V := BatchProcessResult)).
    pose proof (atomic_Record (B := B) (V := BatchProcessResult)). atomic_tac. }
  assert (forall h its, atomic (call_batch_handler (B := B) (V := BatchProcessResult) h its)) as Hh.
  { intros h' its d w. rewrite batch_handler_quiet. unfold call_batch_handler.
    destruct (h' its (business d)) as [b err]. simpl. split_and!; [lia|done|]. left. by eexists. }
  unfold ProcessBatchAttempt, settle_batch. pose proof bb_atomic_prepare. pose proof bb_atomic_increment.
  pose proof bb_atomic_completed. pose proof bb_atomic_terminal. atomic_tac.
Qed.
End Refine.
