(* ===== verification/InboxBatchSteps.v ===== *)
(** * Statements on groups

    The counter statements of the batch backends in terms of the updates of
    the specification, and the bookkeeping both backends share. *)
From S2P Require Import Prelude GoStrings Errors Ident Batch Inbox InboxSQL TerminalState InboxSpec.
From S2P Require Import InboxProps InboxRefine InboxEffects InboxLocal InboxBatch InboxGroups.
From S2P Require Import InboxBatchSpec InboxBatchProps.
Import Stdlib.Strings.String.
Open Scope string_scope.
Open Scope Z_scope.

Section Steps.
Context {B : Type}.
Implicit Types (d : DB B) (g : batchGroup) (gs : list batchGroup) (t : Time).

Definition stamp t gs : list (Time * batchGroup) := List.map (fun g => (t, g)) gs.

Lemma stamp_snd t gs : List.map snd (stamp t gs) = gs.
Proof. unfold stamp. rewrite map_map. apply map_id. Qed.

Lemma stamp_app t gs gs' : stamp t (gs ++ gs') = (stamp t gs ++ stamp t gs')%list.
Proof. apply map_app. Qed.

(** ** The key of a group *)
Lemma group_row c g : group_wf c g ->
  (c, bk_Source (g_key g), MessageID_String (bk_MessageID (g_key g))) = group_id g.
Proof. intros Hg. rewrite (gw_key _ _ Hg). unfold group_id, key_id. by rewrite <- (gw_consumer _ _ Hg). Qed.

Lemma matched_first c d g : group_matched c d g -> it_Key (first_item (g_matching g)) = gkey g.
Proof.
  intros Hg. destruct (first_item_in _ (gm_nonempty _ _ _ Hg)) as (e & He & ->).
  apply (gw_entries _ _ (gm_wf _ _ _ Hg)). by apply (gm_matching _ _ _ Hg).
Qed.

Lemma matched_ids c d gs : NoDup (List.map g_key gs) -> Forall (group_matched c d) gs ->
  NoDup (List.map group_id gs).
Proof.
  intros Hnd HF. apply (groups_wf_ids c). split; [done|]. eapply Forall_impl; [done|]. by intros g [].
Qed.

(** With its identity inserted, a group has a stored fingerprint and its
    matching entries carry it. *)
Lemma insert_present c gs l d g : groups_wf c gs -> List.map snd l ≡ₚ gs -> g ∈ gs ->
  exists row, inbox (apply_all ensure_group l d) !! group_id g = Some row.
Proof.
  intros Hgs Hl Hg. destruct (insert_at c gs Hgs d l Hl g Hg) as (t & [Hi _ _ _]).
  rewrite Hi. unfold ensure_group, ensure_identity, sql_insertIdentity. simpl.
  destruct (inbox d !! group_id g) eqn:Hk; simpl; [eauto|]. rewrite lookup_insert_eq. eauto.
Qed.

Lemma matching_group c d g row : group_wf c g -> inbox d !! group_id g = Some row ->
  group_matching d g <> [] ->
  group_matched c d (with_matching g (group_matching d g)) /\ gfp (with_matching g (group_matching d g)) = group_stored d g.
Proof.
  intros Hg Hrow Hne.
  assert (gfp (with_matching g (group_matching d g)) = group_stored d g) as Hfp.
  { unfold gfp. simpl. destruct (first_item_in _ Hne) as (e & [He _]%list_elem_of_filter & ->). by symmetry. }
  split; [|done]. split; [|done| |].
  - by destruct Hg; split.
  - intros e [_ He]%list_elem_of_filter. done.
  - exists row. split; [done|]. rewrite Hfp. unfold group_stored. by rewrite Hrow.
Qed.

(** ** Counters *)

(** The legacy counter carries the fingerprint of the message. *)
Definition agrees d g : Prop := forall r, attempts d !! group_id g = Some r -> a_fingerprint r = gfp g.

Lemma matched_agrees c d g : rows_ok d -> group_matched c d g -> agrees d g.
Proof.
  intros Hd Hg r Hr. by apply (same_row d (group_id g) (gfp g) r Hd (gm_identified _ _ _ Hg)).
Qed.

Lemma agrees_same d d' g : same_at (group_id g) d d' -> agrees d' g -> agrees d g.
Proof. intros [_ Ha _ _] Hg r. rewrite Ha. apply Hg. Qed.

Definition next_attempt d g : Z := bs_attempt (bs_of (state_of (gkey g) (gfp g) d)) + 1.

Lemma next_attempt_counter d g : next_attempt d g =
  match counter_of (gkey g) (gfp g) d with Some c => c_attempts c + 1 | None => 1 end.
Proof. unfold next_attempt. rewrite state_of_counter. by destruct (counter_of _ _ d). Qed.

(** The upsert of one row. *)
Definition upsert (generated : bool) (k : idkey) (fp : Fingerprint) t d : DB B :=
  if generated then
    let c := match generations d !! (k, fp) with Some c => bump t c | None => fresh_counter 1 t end in
    set_generations (<[(k, fp) := c]> (generations d)) d
  else
    let r := match attempts d !! k with
             | Some r => {| a_fingerprint := a_fingerprint r; a_counter := bump t (a_counter r) |}
             | None => {| a_fingerprint := fp; a_counter := fresh_counter 1 t |}
             end in
    set_attempts (<[k := r]> (attempts d)) d.

Lemma upsert_consume d g t : agrees d g ->
  upsert (negb (legacy (gkey g))) (group_id g) (AttemptFingerprint (gkey g) (gfp g)) t d
  = consume_group (t, g) d.
Proof.
  intros Hag. unfold upsert, consume_group, consume, counter_of, set_counter. simpl.
  destruct (legacy (gkey g)) eqn:Hl; simpl; [|done].
  rewrite (legacy_fingerprint _ _ Hl). fold (group_id g).
  destruct (attempts d !! group_id g) as [r|] eqn:Ha; simpl; [|done]. by rewrite (Hag r Ha).
Qed.

Lemma mark_flag d g t : agrees d g ->
  (if legacy (gkey g) then (sql_markTerminal t (group_id g) d).1
   else (sql_markTerminalGeneration t (group_id g) (AttemptFingerprint (gkey g) (gfp g)) d).1)
  = flag_group (t, g) d.
Proof.
  intros Hag. unfold flag_group. simpl. destruct (legacy (gkey g)) eqn:Hl.
  - unfold flag_permanent, sql_markTerminal, set_counter, counter_of. rewrite Hl. fold (group_id g).
    destruct (attempts d !! group_id g) as [r|] eqn:Ha; simpl.
    + by rewrite (alter_as_insert _ _ _ r Ha), (Hag r Ha).
    + rewrite alter_absent by done. by destruct d.
  - by apply mark_generation.
Qed.

(** A sequence of row updates, each seen at its own identity. *)
Lemma apply_rows (u v : Time * batchGroup -> DB B -> DB B) (l : list (Time * batchGroup)) d :
  (forall x, local (group_id x.2) (v x)) -> NoDup (List.map (fun x => group_id x.2) l) ->
  (forall x, x ∈ l -> agrees d x.2) ->
  (forall x d', x ∈ l -> agrees d' x.2 -> u x d' = v x d') ->
  apply_all u l d = apply_all v l d.
Proof.
  intros Hv. revert d. induction l as [|x l IH]; intros d Hnd Hag Huv; [done|].
  simpl in Hnd. apply NoDup_cons in Hnd as [Hn Hnd]. unfold apply_all in *. simpl.
  rewrite Huv by (left || (apply Hag; left)). apply IH; [done| |].
  - intros y Hy. eapply agrees_same; [|apply Hag; by right]. apply (local_frame _ _ (Hv x)).
    intros He. apply Hn. rewrite <- He. apply list_elem_of_In, (in_map (fun x => group_id x.2)). by apply list_elem_of_In.
  - intros y d' Hy. apply Huv. by right.
Qed.

(** ** Selections by generation *)
Lemma select_spec gs generated g : g ∈ selectBatchGroups gs generated <->
  g ∈ gs /\ legacy (it_Key (batchGroupRepresentative g)) = negb generated.
Proof.
  unfold selectBatchGroups. rewrite list_elem_of_filter. fold (legacy (it_Key (batchGroupRepresentative g))).
  destruct (legacy _), generated; simpl; naive_solver.
Qed.

Lemma select_perm gs : (selectBatchGroups gs false ++ selectBatchGroups gs true)%list ≡ₚ gs.
Proof.
  unfold selectBatchGroups. induction gs as [|g gs IH]; [done|]. rewrite !filter_cons.
  destruct (negb (String.eqb _ "")); simpl; [|by rewrite IH].
  rewrite <- Permutation_middle. by rewrite IH.
Qed.

Lemma matched_representative c d g : group_matched c d g ->
  batchGroupRepresentative g = first_item (g_matching g).
Proof.
  intros Hg. unfold batchGroupRepresentative. pose proof (gm_nonempty _ _ _ Hg) as Hne.
  by destruct (g_matching g).
Qed.

Lemma select_legacy c d gs generated g : Forall (group_matched c d) gs ->
  g ∈ selectBatchGroups gs generated -> g ∈ gs /\ legacy (gkey g) = negb generated /\ group_matched c d g.
Proof.
  intros HF Hg. apply select_spec in Hg as [Hg Hl]. rewrite Forall_forall in HF. specialize (HF g Hg).
  rewrite (matched_representative c d g HF), (matched_first c d g HF) in Hl. done.
Qed.

(** ** Collecting rows into maps *)
Definition collect {R} (f : batchGroup -> option R) gs (acc : gmap BatchItemKey R) : gmap BatchItemKey R :=
  fold_left (fun acc g => match f g with Some r => <[g_key g := r]> acc | None => acc end) gs acc.

Lemma collect_lookup {R} (f : batchGroup -> option R) gs acc key :
  NoDup (List.map g_key gs) ->
  collect f gs acc !! key =
  match List.find (fun g => bool_decide (g_key g = key)) gs with
  | Some g => match f g with Some r => Some r | None => acc !! key end
  | None => acc !! key
  end.
Proof.
  revert acc. induction gs as [|g gs IH]; intros acc Hnd; [done|]. simpl in *. apply NoDup_cons in Hnd as [Hn Hnd].
  unfold collect in *. simpl. rewrite IH by done.
  destruct (bool_decide_reflect (g_key g = key)) as [<-|Hne].
  - assert (List.find (fun g' => bool_decide (g_key g' = g_key g)) gs = None) as ->.
    { destruct (List.find _ gs) as [g'|] eqn:Hf; [|done]. apply find_some in Hf as [Hin Hb].
      apply bool_decide_eq_true in Hb. destruct Hn. apply elem_keys. exists g'. by rewrite list_elem_of_In. }
    destruct (f g); [by rewrite lookup_insert_eq|done].
  - destruct (f g) as [r|]; [|done]. rewrite lookup_insert_ne by done. done.
Qed.

Lemma find_group gs g : NoDup (List.map g_key gs) -> g ∈ gs ->
  List.find (fun g' => bool_decide (g_key g' = g_key g)) gs = Some g.
Proof.
  induction gs as [|x gs IH]; [by intros _ ?%not_elem_of_nil|]. simpl. intros [Hn Hnd]%NoDup_cons Hin.
  destruct (bool_decide_reflect (g_key x = g_key g)) as [He|Hne].
  - apply elem_of_cons in Hin as [->|Hin]; [done|]. destruct Hn. rewrite He. apply elem_keys. eauto.
  - apply elem_of_cons in Hin as [->|Hin]; [done|]. by apply IH.
Qed.

Lemma collect_at {R} (f : batchGroup -> option R) gs acc g :
  NoDup (List.map g_key gs) -> g ∈ gs ->
  collect f gs acc !! g_key g = match f g with Some r => Some r | None => acc !! g_key g end.
Proof. intros Hnd Hin. by rewrite collect_lookup, find_group. Qed.

Lemma collect_other {R} (f : batchGroup -> option R) gs acc key :
  NoDup (List.map g_key gs) -> key ∉ List.map g_key gs -> collect f gs acc !! key = acc !! key.
Proof.
  intros Hnd Hk. rewrite collect_lookup by done. destruct (List.find _ gs) as [g|] eqn:Hf; [|done].
  apply find_some in Hf as [Hin Hb]. apply bool_decide_eq_true in Hb. destruct Hk. apply elem_keys.
  exists g. by rewrite list_elem_of_In.
Qed.

Lemma NoDup_select gs generated : NoDup (List.map g_key gs) -> NoDup (List.map g_key (selectBatchGroups gs generated)).
Proof.
  intros Hnd. rewrite <- (select_perm gs), map_app in Hnd. apply NoDup_app in Hnd as (H1 & _ & H2).
  by destruct generated.
Qed.

Lemma select_disjoint gs g : NoDup (List.map g_key gs) -> g ∈ selectBatchGroups gs false ->
  g_key g ∉ List.map g_key (selectBatchGroups gs true).
Proof.
  intros Hnd Hin. rewrite <- (select_perm gs), map_app in Hnd. apply NoDup_app in Hnd as (_ & Hd & _).
  apply Hd. apply elem_keys. eauto.
Qed.

(** ** Selected groups *)
Lemma state_nonneg key fp d s : rows_ok d -> state_of key fp d = Some s -> 0 <= s.1.1.
Proof.
  intros Hd. destruct s as [[n flag] kind]. intros (x & Hc & <-)%state_of_Some.
  by apply (counter_of_ok _ _ _ _ Hd Hc).
Qed.

Lemma next_positive d g : rows_ok d -> 1 <= next_attempt d g.
Proof.
  intros Hd. unfold next_attempt. destruct (state_of (gkey g) (gfp g) d) as [[[n flag] kind]|] eqn:Hs; simpl; [|lia].
  pose proof (state_nonneg _ _ d _ Hd Hs) as Hn. simpl in Hn. lia.
Qed.

(** What a statement needs of a selected group. *)
Definition selected c generated d g : Prop :=
  group_wf c g /\ legacy (gkey g) = negb generated /\ agrees d g.

Lemma selected_all c d gs generated : rows_ok d -> Forall (group_matched c d) gs ->
  Forall (selected c generated d) (selectBatchGroups gs generated).
Proof.
  intros Hd HF. apply Forall_forall. intros g Hg.
  destruct (select_legacy c d gs generated g HF Hg) as (_ & Hl & Hm).
  split_and!; [apply Hm|done|by eapply matched_agrees].
Qed.

Lemma selected_same c generated d d' g : same_at (group_id g) d d' ->
  selected c generated d' g -> selected c generated d g.
Proof. intros Hs (? & ? & Hag). split_and!; [done..|]. by eapply agrees_same. Qed.

(** A selection whose rows are those of [d0], where the groups matched. *)
Section Selection.
Context (c : string) (d0 : DB B) (gs : list batchGroup).
Context (Hd0 : rows_ok d0) (Hnd : NoDup (List.map g_key gs)) (HF : Forall (group_matched c d0) gs).

Definition untouched d generated : Prop :=
  forall g, g ∈ selectBatchGroups gs generated -> same_at (group_id g) d d0.

Lemma selection_matched generated : Forall (group_matched c d0) (selectBatchGroups gs generated).
Proof using HF. apply Forall_forall. intros g Hg. by apply (select_legacy c d0 gs generated). Qed.

Lemma selection_ids generated : NoDup (List.map group_id (selectBatchGroups gs generated)).
Proof using Hnd HF. apply (matched_ids c d0); [by apply NoDup_select|apply selection_matched]. Qed.

Lemma selection_ready d generated : untouched d generated ->
  Forall (selected c generated d) (selectBatchGroups gs generated).
Proof using Hd0 HF.
  intros Hs. pose proof (selected_all c d0 gs generated Hd0 HF) as HA. rewrite Forall_forall in HA |- *.
  intros g Hg. eapply selected_same; eauto.
Qed.

(** The updates of the first selection leave the second alone. *)
Lemma first_selection_frame (u : Time * batchGroup -> DB B -> DB B) l :
  (forall x, local (group_id x.2) (u x)) -> List.map snd l = selectBatchGroups gs false ->
  untouched (apply_all u l d0) true.
Proof using Hnd HF.
  intros Hu Hl g Hg. apply (apply_all_frame (fun x => group_id x.2)); [by apply Forall_forall|].
  rewrite <- (map_map snd group_id), Hl. intros Hin. pose proof (matched_ids c d0 gs Hnd HF) as Hids.
  rewrite <- (select_perm gs), map_app in Hids. apply NoDup_app in Hids as (_ & Hdis & _).
  apply (Hdis _ Hin). apply list_elem_of_In, in_map. by apply list_elem_of_In.
Qed.
End Selection.
End Steps.
