(* ===== verification/PgBatch.v ===== *)
(** * The PostgreSQL batch statements

    Models the table access of [adapters/inbox/pgsql/batch.go]: set-based
    statements over [unnest]ed columns, one statement per counter table.
    Module [PgBatchRefine] proves that they satisfy the laws of [BatchBackend]. *)
From S2P Require Import Prelude GoStrings Errors Ident Batch Inbox InboxSQL TerminalState.
From S2P Require Import InboxBatch.
Import Stdlib.Strings.String.
Open Scope string_scope.
Open Scope Z_scope.
Open Scope tx_scope.

Module PgBatch.

(** ** Columns *)
Definition column : Type := string * string * Fingerprint.

Definition batchGroupColumns (groups : list batchGroup) : list column :=
  List.map (fun g => (bk_Source (g_key g), MessageID_String (bk_MessageID (g_key g)),
    it_Fingerprint (match g_matching g with
                    | p :: _ => bp_item p
                    | [] => first_item (g_entries g)
                    end))) groups.

Definition batchAttemptColumns (groups : list batchGroup) : list column :=
  List.map (fun g => let item := batchGroupRepresentative g in
    (bk_Source (g_key g), MessageID_String (bk_MessageID (g_key g)),
     AttemptFingerprint (it_Key item) (it_Fingerprint item))) groups.

(** [groups[0].entries[0].item.Key.ConsumerID] *)
Definition consumer_of (groups : list batchGroup) : string :=
  match groups with
  | g :: _ => k_ConsumerID (it_Key (first_item (g_entries g)))
  | [] => ""
  end.

Definition scannedBatchKey (source messageID : string) : result error BatchItemKey :=
  match ParseMessageID messageID with
  | Err e => Err (EFmt "inbox/pgsql: parse stored batch message ID" [e])
  | Ok parsed => Ok {| bk_Source := source; bk_MessageID := parsed |}
  end.

Record batchStoredIdentity := { si_fingerprint : Fingerprint; si_completed : option Time }.

(** ** Statements *)
Section Statements.
Context {B : Type}.
Implicit Types (d : DB B).

Definition sql_insertBatchIdentities (consumer : string) (cols : list column) (now : Time) d
  : DB B * unit :=
  (fold_left (fun d '(s, m, fp) => (sql_insertIdentity (consumer, s, m) fp now d).1) cols d, tt).

(** The join of the identities with the requested keys. *)
Definition sql_lockBatchIdentities (consumer : string) (cols : list column) d
  : list (string * string * (Fingerprint * option Time)) :=
  omap (fun '(s, m, _) => option_map (fun row => (s, m, row)) (sql_readIdentity (consumer, s, m) d)) cols.

Definition sql_readBatchAttempts (generated : bool) (consumer : string) (cols : list column) d
  : list (string * string * (Z * bool * string)) :=
  omap (fun '(s, m, fp) => option_map (fun row => (s, m, row))
    (if generated then sql_readAttemptGeneration (consumer, s, m) fp d
     else sql_readAttempt (consumer, s, m) d)) cols.

(** [INSERT ... ON CONFLICT DO UPDATE SET attempts = current.attempts + 1
    RETURNING attempts], one row *)
Definition sql_upsertAttempt (generated : bool) (k : idkey) (fp : Fingerprint) (now : Time) d : DB B * Z :=
  if generated then
    let c := match generations d !! (k, fp) with Some c => bump now c | None => fresh_counter 1 now end in
    (set_generations (<[(k, fp) := c]> (generations d)) d, c_attempts c)
  else
    let r := match attempts d !! k with
             | Some r => {| a_fingerprint := a_fingerprint r; a_counter := bump now (a_counter r) |}
             | None => {| a_fingerprint := fp; a_counter := fresh_counter 1 now |}
             end in
    (set_attempts (<[k := r]> (attempts d)) d, c_attempts (a_counter r)).

Fixpoint sql_upsertAttempts (generated : bool) (consumer : string) (cols : list column) (now : Time) d
  : DB B * list (string * string * Z) :=
  match cols with
  | [] => (d, [])
  | (s, m, fp) :: r =>
      let '(d, n) := sql_upsertAttempt generated (consumer, s, m) fp now d in
      let '(d, rows) := sql_upsertAttempts generated consumer r now d in
      (d, (s, m, n) :: rows)
  end.

Definition sql_markBatchComplete (consumer : string) (cols : list column) (now : Time) d : DB B * unit :=
  (fold_left (fun d '(s, m, _) => (sql_markComplete now (consumer, s, m) d).1) cols d, tt).

Definition sql_markBatchTerminal (generated : bool) (consumer : string) (cols : list column)
  (now : Time) d : DB B * unit :=
  (fold_left (fun d '(s, m, fp) =>
     if generated then (sql_markTerminalGeneration now (consumer, s, m) fp d).1
     else (sql_markTerminal now (consumer, s, m) d).1) cols d, tt).
End Statements.

(** ** Scanning rows into maps *)
Fixpoint scan_identities (rows : list (string * string * (Fingerprint * option Time)))
  (acc : gmap BatchItemKey batchStoredIdentity) : result error (gmap BatchItemKey batchStoredIdentity) :=
  match rows with
  | [] => Ok acc
  | (s, m, (fp, at_)) :: r =>
      (do key <- scannedBatchKey s m;
       scan_identities r (<[key := {| si_fingerprint := fp; si_completed := at_ |}]> acc))%go
  end.

Fixpoint scan_attempts (rows : list (string * string * (Z * bool * string)))
  (acc : gmap BatchItemKey batchAttemptState) : result error (gmap BatchItemKey batchAttemptState) :=
  match rows with
  | [] => Ok acc
  | (s, m, (attempts, terminal, kind)) :: r =>
      (guard negb (attempts <? 0) else ENew "inbox/pgsql: invalid stored batch attempt";
       do key <- scannedBatchKey s m;
       scan_attempts r (<[key := {| bs_kind := kind; bs_attempt := attempts;
                                    bs_terminal := terminal |}]> acc))%go
  end.

Fixpoint scan_increments (rows : list (string * string * Z)) (acc : gmap BatchItemKey Z)
  : result error (gmap BatchItemKey Z) :=
  match rows with
  | [] => Ok acc
  | (s, m, attempts) :: r =>
      (guard negb (attempts <? 1) else ENew "inbox/pgsql: invalid incremented batch attempt";
       do key <- scannedBatchKey s m;
       scan_increments r (<[key := attempts]> acc))%go
  end.

(** ** The two loops over the locked groups *)

(** Split every group against its stored identity. *)
Fixpoint match_groups (identities : gmap BatchItemKey batchStoredIdentity)
  (groups : list batchGroup) (outcomes : list BatchItemOutcome)
  : result error (list batchGroup * list BatchItemOutcome) :=
  match groups with
  | [] => Ok ([], outcomes)
  | g :: r =>
      match identities !! g_key g with
      | None => Err (ENew "inbox/pgsql: missing or invalid batch identity")
      | Some identity =>
          let stored := si_fingerprint identity in
          if negb (len stored =? 32) then Err (ENew "inbox/pgsql: missing or invalid batch identity")
          else
            let '(matching, outcomes) := match_entries stored (g_entries g) outcomes in
            (do rest <- match_groups identities r outcomes;
             let '(gs, outcomes) := rest in
             Ok (if decide (matching = []) then gs else with_matching g matching :: gs, outcomes))%go
      end
  end.

(** Keep the groups no earlier delivery settled. *)
Fixpoint admit_groups (identities : gmap BatchItemKey batchStoredIdentity)
  (states : gmap BatchItemKey batchAttemptState) (maxAttempts : Z) (groups : list batchGroup)
  (outcomes : list BatchItemOutcome) : list batchGroup * list BatchItemOutcome :=
  match groups with
  | [] => ([], outcomes)
  | g :: r =>
      let g := with_state g (default batchAttemptState0 (states !! g_key g)) in
      let completed := match identities !! g_key g with Some identity => bool_decide (is_Some (si_completed identity)) | None => false end in
      let '(kept, outcomes) := admit_group maxAttempts completed g outcomes in
      let '(active, outcomes) := admit_groups identities states maxAttempts r outcomes in
      (match kept with Some g => g :: active | None => active end, outcomes)
  end.

(** ** Operations *)
Section Operations.
Context {B : Type}.
Abbreviation R := BatchProcessResult.

Definition lift {A} (r : result error A) : TX B R A :=
  match r with Ok a => tx_ret a | Err e => tx_fail e end.

Definition read_selected (groups : list batchGroup) (acc : gmap BatchItemKey batchAttemptState)
  (generated : bool) : TX B R (gmap BatchItemKey batchAttemptState) :=
  let selected := selectBatchGroups groups generated in
  if decide (selected = []) then tx_ret acc
  else
    let* rows := query "inbox/pgsql: lock batch attempts"
      (sql_readBatchAttempts generated (consumer_of selected) (batchAttemptColumns selected)) in
    lift (scan_attempts rows acc).

Definition readBatchAttempts (groups : list batchGroup)
  : TX B R (gmap BatchItemKey batchAttemptState) :=
  let* acc := read_selected groups ∅ false in
  read_selected groups acc true.

Definition prepareBatchIdentities (groups : list batchGroup) (outcomes : list BatchItemOutcome)
  (maxAttempts : Z) : TX B R (list batchGroup * list BatchItemOutcome) :=
  let consumerID := consumer_of groups in
  let columns := batchGroupColumns groups in
  let* now := clock in
  let* _ := exec "inbox/pgsql: insert batch identities"
    (sql_insertBatchIdentities consumerID columns now) in
  let* rows := query "inbox/pgsql: lock batch identities"
    (sql_lockBatchIdentities consumerID columns) in
  let* identities := lift (scan_identities rows ∅) in
  let* matched := lift (match_groups identities groups outcomes) in
  let '(matchingGroups, outcomes) := matched in
  let* attempts := readBatchAttempts matchingGroups in
  tx_ret (admit_groups identities attempts maxAttempts matchingGroups outcomes).

Definition increment_selected (groups : list batchGroup) (acc : gmap BatchItemKey Z)
  (generated : bool) : TX B R (gmap BatchItemKey Z) :=
  let selected := selectBatchGroups groups generated in
  if decide (selected = []) then tx_ret acc
  else
    let* now := clock in
    let* rows := exec "inbox/pgsql: increment batch attempts"
      (sql_upsertAttempts generated (consumer_of selected) (batchAttemptColumns selected) now) in
    lift (scan_increments rows acc).

Definition incrementBatchAttempts (groups : list batchGroup) : TX B R (gmap BatchItemKey Z) :=
  let* acc := increment_selected groups ∅ false in
  let* acc := increment_selected groups acc true in
  if Z.of_nat (size acc) =? Z.of_nat (List.length groups) then tx_ret acc
  else tx_fail (ENew "inbox/pgsql: incomplete incremented batch attempt result").

Definition markBatchCompleted (groups : list batchGroup) : TX B R unit :=
  if decide (groups = []) then tx_ret tt
  else
    let* now := clock in
    exec "inbox/pgsql: mark batch items complete"
      (sql_markBatchComplete (consumer_of groups) (batchGroupColumns groups) now).

Definition mark_selected (groups : list batchGroup) (generated : bool) : TX B R unit :=
  let selected := selectBatchGroups groups generated in
  if decide (selected = []) then tx_ret tt
  else
    let* now := clock in
    exec "inbox/pgsql: mark batch items terminal"
      (sql_markBatchTerminal generated (consumer_of selected) (batchAttemptColumns selected) now).

Definition markBatchTerminal (groups : list batchGroup) : TX B R unit :=
  let* _ := mark_selected groups false in
  mark_selected groups true.

Definition ops : batchOps B :=
  {| bo_name := "inbox/pgsql";
     bo_prepareIdentities := prepareBatchIdentities;
     bo_incrementAttempts := incrementBatchAttempts;
     bo_markCompleted := markBatchCompleted;
     bo_markTerminal := markBatchTerminal |}.

Definition ProcessBatchAttempt : list BatchItem -> Z -> InboxBatchHandler B -> TX B R Empty_set :=
  InboxBatch.ProcessBatchAttempt ops.
End Operations.
End PgBatch.

(** ** The PostgreSQL batch statements satisfy the batch laws *)
From S2P Require Import InboxSpec InboxProps InboxRefine InboxEffects InboxClosed InboxLocal InboxGroups InboxBatchSpec InboxBatchProps InboxBatchSteps.
Import Stdlib.Strings.String.
Open Scope string_scope.
Open Scope Z_scope.

Module PgBatchRefine.
Import PgBatch.
Section Refine.
Context {B : Type}.
Implicit Types (d : DB B) (g : batchGroup) (gs : list batchGroup) (w : env).

(** ** Atomicity *)
Lemma atomic_lift {A} (r : result error A) : atomic (lift (B := B) r).
Proof. destruct r; [apply atomic_ret|apply atomic_fail]. Qed.
#[local] Hint Resolve atomic_lift : go.

Lemma pg_atomic_read gs acc b : atomic (read_selected (B := B) gs acc b).
Proof. unfold read_selected. atomic_tac. Qed.
#[local] Hint Resolve pg_atomic_read : go.
Lemma pg_atomic_prepare gs os n : atomic (prepareBatchIdentities (B := B) gs os n).
Proof. unfold prepareBatchIdentities, readBatchAttempts. atomic_tac. Qed.
Lemma atomic_increment_selected gs acc b : atomic (increment_selected (B := B) gs acc b).
Proof. unfold increment_selected. atomic_tac. Qed.
#[local] Hint Resolve atomic_increment_selected : go.
Lemma pg_atomic_increment gs : atomic (incrementBatchAttempts (B := B) gs).
Proof. unfold incrementBatchAttempts. atomic_tac. Qed.
Lemma pg_atomic_completed gs : atomic (markBatchCompleted (B := B) gs).
Proof. unfold markBatchCompleted. atomic_tac. Qed.
Lemma pg_atomic_terminal gs : atomic (markBatchTerminal (B := B) gs).
Proof. unfold markBatchTerminal, mark_selected. atomic_tac. Qed.

(** ** Columns and scans *)
Lemma scannedBatchKey_group c g : group_wf c g ->
  scannedBatchKey (bk_Source (g_key g)) (MessageID_String (bk_MessageID (g_key g))) = Ok (g_key g).
Proof.
  intros Hg. unfold scannedBatchKey. rewrite ParseMessageID_of_String; [by destruct (g_key g)|].
  rewrite (gw_key _ _ Hg). apply Hg.
Qed.

Definition row_of {R} (f : batchGroup -> option R) g : option (string * string * R) :=
  option_map (fun r => (bk_Source (g_key g), MessageID_String (bk_MessageID (g_key g)), r)) (f g).

Definition stored_row (r : Fingerprint * option Time) : batchStoredIdentity :=
  {| si_fingerprint := r.1; si_completed := r.2 |}.

Lemma scan_identities_rows c (f : batchGroup -> option (Fingerprint * option Time)) gs acc :
  Forall (group_wf c) gs -> scan_identities (omap (row_of f) gs) acc = Ok (collect (fun g => option_map stored_row (f g)) gs acc).
Proof.
  intros HF. revert acc. induction HF as [|g gs Hg HF IH]; intros acc; [done|].
  unfold collect. cbn [omap list_omap fold_left]. unfold row_of at 1. destruct (f g) as [[fp t]|]; simpl; [|apply IH].
  rewrite (scannedBatchKey_group c) by done. apply IH.
Qed.

Definition state_row (s : Z * bool * string) : batchAttemptState :=
  {| bs_kind := s.2; bs_attempt := s.1.1; bs_terminal := s.1.2 |}.

Lemma scan_attempts_rows c (f : batchGroup -> option (Z * bool * string)) gs acc :
  Forall (group_wf c) gs -> (forall g s, g ∈ gs -> f g = Some s -> 0 <= s.1.1) ->
  scan_attempts (omap (row_of f) gs) acc = Ok (collect (fun g => option_map state_row (f g)) gs acc).
Proof.
  intros HF. revert acc. induction HF as [|g gs Hg HF IH]; intros acc Hpos; [done|].
  assert (forall g s, g ∈ gs -> f g = Some s -> 0 <= s.1.1) as Hpos' by (intros; eapply Hpos; [by right|done]).
  unfold collect. cbn [omap list_omap fold_left]. unfold row_of at 1.
  destruct (f g) as [[[n flag] kind]|] eqn:Hf; simpl; [|by apply IH].
  pose proof (Hpos g _ (list_elem_of_here _ _) Hf) as Hn. simpl in Hn.
  rewrite (proj2 (Z.ltb_ge n 0)) by lia. rewrite (scannedBatchKey_group c) by done. by apply IH.
Qed.

Lemma scan_increments_rows c (f : batchGroup -> Z) gs acc :
  Forall (group_wf c) gs -> (forall g, g ∈ gs -> 1 <= f g) ->
  scan_increments (List.map (fun g => (bk_Source (g_key g), MessageID_String (bk_MessageID (g_key g)), f g)) gs) acc
  = Ok (collect (fun g => Some (f g)) gs acc).
Proof.
  intros HF. revert acc. induction HF as [|g gs Hg HF IH]; intros acc Hpos; [done|].
  unfold collect. cbn [List.map fold_left scan_increments].
  pose proof (Hpos g (list_elem_of_here _ _)). rewrite (proj2 (Z.ltb_ge (f g) 1)) by lia. cbn [negb].
  rewrite (scannedBatchKey_group c) by done. apply IH. intros g' ?. apply Hpos. by right.
Qed.

(** ** Preparation *)
Lemma insert_identities c gs now d :
  Forall (group_wf c) gs -> Forall (fun g => g_matching g = []) gs ->
  (sql_insertBatchIdentities c (batchGroupColumns gs) now d).1 = apply_all ensure_group (stamp now gs) d.
Proof.
  intros HF Hm. revert d. unfold sql_insertBatchIdentities, apply_all, stamp, batchGroupColumns. simpl.
  induction HF as [|g gs Hg HF IH]; intros d; [done|]. inversion Hm as [|? ? Hm1 Hm2]; subst. simpl.
  rewrite IH by done. rewrite (group_row c g Hg), Hm1. done.
Qed.

Lemma lock_identities c gs d : Forall (group_wf c) gs ->
  sql_lockBatchIdentities c (batchGroupColumns gs) d
  = omap (row_of (fun g => sql_readIdentity (group_id g) d)) gs.
Proof.
  intros HF. unfold sql_lockBatchIdentities, batchGroupColumns.
  induction HF as [|g gs Hg HF IH]; [done|]. cbn. rewrite (group_row c g Hg). unfold row_of at 1.
  destruct (option_map _ _); by rewrite IH.
Qed.

(** The first loop: split every group. *)
Definition matched_group d g : option batchGroup :=
  if decide (group_matching d g = []) then None else Some (with_matching g (group_matching d g)).

Lemma match_groups_spec (identities : gmap BatchItemKey batchStoredIdentity) gs os d :
  (forall g, g ∈ gs -> exists t, identities !! g_key g = Some (stored_row (group_stored d g, t))) ->
  (forall g, g ∈ gs -> Fingerprint_wf (group_stored d g)) ->
  match_groups identities gs os
  = Ok (omap (matched_group d) gs,
        write_all (List.concat (List.map (fun g => conflict_writes (group_stored d g) (g_entries g)) gs)) os).
Proof.
  revert os. induction gs as [|g gs IH]; intros os Hid Hwf; [done|]. cbn [match_groups].
  destruct (Hid g (list_elem_of_here _ _)) as (t & ->).
  pose proof (Hwf g (list_elem_of_here _ _)) as Hlen. unfold Fingerprint_wf in Hlen.
  cbn -[match_entries len]. unfold len. rewrite Hlen. cbn -[match_entries]. rewrite match_entries_spec, IH.
  - cbn [omap list_omap List.map List.concat].
    assert (matched_group d g = if decide (group_matching d g = []) then None
      else Some (with_matching g (group_matching d g))) as -> by done.
    rewrite write_all_app. fold (group_matching d g). simpl. by destruct (decide (group_matching d g = [])).
  - intros g' ?. apply Hid. by right.
  - intros g' ?. apply Hwf. by right.
Qed.

(** The second loop: settle or admit. *)
Definition settled_writes (maxAttempts : Z) d g : list (nat * BatchItemOutcome) :=
  if decide (group_matching d g = []) then []
  else if completed (group_id g) d
  then entry_writes false (group_matching d g) (duplicate_outcome (admitted d g))
  else if bs_closed (g_state (admitted d g)) maxAttempts
  then entry_writes false (group_matching d g) (closed_outcome (admitted d g))
  else [].

Lemma admit_groups_spec (identities : gmap BatchItemKey batchStoredIdentity) states maxAttempts gs os d :
  (forall g, g ∈ gs -> exists row, inbox d !! group_id g = Some row /\
     identities !! g_key g = Some (stored_row (i_fingerprint row, i_completed_at row))) ->
  (forall g, g ∈ gs -> group_matching d g <> [] ->
     default batchAttemptState0 (states !! g_key g) = bs_of (state_of (gkey g) (group_stored d g) d)) ->
  admit_groups identities states maxAttempts (omap (matched_group d) gs) os
  = (omap (group_active maxAttempts d) gs,
     write_all (List.concat (List.map (settled_writes maxAttempts d) gs)) os).
Proof.
  revert os. induction gs as [|g gs IH]; intros os Hid Hst; [done|].
  assert (forall os, admit_groups identities states maxAttempts (omap (matched_group d) gs) os
    = (omap (group_active maxAttempts d) gs, write_all (List.concat (List.map (settled_writes maxAttempts d) gs)) os)) as IH'.
  { intros os'. apply IH; [intros; apply Hid|intros; apply Hst]; done || by right. }
  cbn [omap list_omap List.map List.concat]. unfold matched_group at 1, group_active at 1, settled_writes at 1.
  destruct (decide (group_matching d g = [])) as [Hn|Hn]; [by rewrite IH'|].
  cbn [admit_groups]. change (g_key (with_matching g (group_matching d g))) with (g_key g).
  rewrite (Hst g (list_elem_of_here _ _) Hn).
  change (with_state (with_matching g (group_matching d g)) (bs_of (state_of (gkey g) (group_stored d g) d)))
    with (admitted d g).
  destruct (Hid g (list_elem_of_here _ _)) as (row & Hrow & Hidg).
  change (g_key (admitted d g)) with (g_key g). rewrite Hidg.
  assert (completed (group_id g) d = bool_decide (is_Some (i_completed_at row))) as ->.
  { unfold completed. rewrite Hrow. by destruct (i_completed_at row). }
  unfold admit_group, assignBatchOutcome. rewrite !assign_entries_writes.
  change (g_matching (admitted d g)) with (group_matching d g).
  cbn [stored_row si_completed snd]. destruct (bool_decide _); [by rewrite IH', write_all_app|].
  destruct (bs_closed _ _); [by rewrite IH', write_all_app|]. by rewrite IH'.
Qed.

(** Reading the counters of the matching groups. *)
Lemma read_rows c d gs generated :
  Forall (group_matched c d) gs ->
  sql_readBatchAttempts generated c (batchAttemptColumns (selectBatchGroups gs generated)) d
  = omap (row_of (fun g => state_of (gkey g) (gfp g) d)) (selectBatchGroups gs generated).
Proof.
  intros HF. assert (Forall (fun g => legacy (gkey g) = negb generated /\ group_matched c d g)
    (selectBatchGroups gs generated)) as HS.
  { apply Forall_forall. intros g Hg. by apply (select_legacy c d gs). }
  unfold sql_readBatchAttempts, batchAttemptColumns.
  induction HS as [|g r [Hl Hg] HS IH]; [done|]. cbn. rewrite IH.
  rewrite (group_row c g (gm_wf _ _ _ Hg)), (matched_representative c d g Hg), (matched_first c d g Hg).
  fold (gfp g).
  assert ((if generated then sql_readAttemptGeneration (group_id g) (AttemptFingerprint (gkey g) (gfp g)) d
           else sql_readAttempt (group_id g) d) = state_of (gkey g) (gfp g) d) as ->.
  { unfold state_of. rewrite Hl. by destruct generated. }
  unfold row_of. by destruct (state_of (gkey g) (gfp g) d).
Qed.

Lemma consumer_selected c d gs generated : Forall (group_matched c d) gs ->
  selectBatchGroups gs generated <> [] -> consumer_of (selectBatchGroups gs generated) = c.
Proof.
  intros HF Hne. destruct (selectBatchGroups gs generated) as [|g r] eqn:Hs; [done|].
  destruct (select_legacy c d gs generated g HF) as (_ & _ & Hg); [rewrite Hs; left|].
  apply (gw_consumer _ _ (gm_wf _ _ _ Hg)).
Qed.

Lemma read_selected_quiet c d gs acc generated w :
  rows_ok d -> Forall (group_matched c d) gs ->
  read_selected gs acc generated d (quiet w)
  = Cont d (quiet w) (collect (fun g => option_map state_row (state_of (gkey g) (gfp g) d))
                        (selectBatchGroups gs generated) acc).
Proof.
  intros Hd HF. unfold read_selected. destruct (decide _) as [Hn|Hn]; [by rewrite Hn|].
  rewrite tx_bind_eq, query_quiet. cbv beta iota. rewrite (consumer_selected c d) by done.
  rewrite (read_rows c d) by done. rewrite (scan_attempts_rows c).
  - done.
  - apply Forall_forall. intros g Hg. by apply (select_legacy c d gs generated).
  - intros g s _. by apply state_nonneg.
Qed.

Lemma readBatchAttempts_quiet c d gs w :
  rows_ok d -> NoDup (List.map g_key gs) -> Forall (group_matched c d) gs -> exists m,
  readBatchAttempts gs d (quiet w) = Cont d (quiet w) m /\
  forall g, g ∈ gs -> default batchAttemptState0 (m !! g_key g) = bs_of (state_of (gkey g) (gfp g) d).
Proof.
  intros Hd Hnd HF. unfold readBatchAttempts. rewrite tx_bind_eq, (read_selected_quiet c) by done.
  cbv beta iota. rewrite (read_selected_quiet c) by done. eexists. split; [done|]. intros g Hg.
  rewrite <- (select_perm gs) in Hg. apply elem_of_app in Hg as [Hg|Hg].
  - rewrite collect_other by (by apply NoDup_select || by apply select_disjoint).
    rewrite collect_at by (done || by apply NoDup_select). rewrite lookup_empty.
    by destruct (state_of _ _ d) as [[[n flag] kind]|].
  - rewrite collect_at by (done || by apply NoDup_select).
    destruct (state_of _ _ d) as [[[n flag] kind]|]; [done|]. simpl.
    rewrite collect_other; [by rewrite lookup_empty|by apply NoDup_select|].
    intros Hin. apply elem_keys in Hin as (g' & Hg' & He). destruct (select_disjoint gs g' Hnd Hg').
    rewrite He. apply elem_keys. eauto.
Qed.
Lemma lift_ok {A} (a : A) d w : lift (B := B) (Ok a) d w = Cont d w a.
Proof. done. Qed.

(** The identities a batch reads back. *)
Lemma locked_at gs d g row : NoDup (List.map g_key gs) -> g ∈ gs -> inbox d !! group_id g = Some row ->
  collect (fun g => option_map stored_row (sql_readIdentity (group_id g) d)) gs ∅ !! g_key g
  = Some (stored_row (i_fingerprint row, i_completed_at row)).
Proof. intros Hnd Hg Hrow. rewrite collect_at by done. unfold sql_readIdentity. by rewrite Hrow. Qed.

Lemma matched_groups_spec c d gs : groups_wf c gs ->
  (forall g, g ∈ gs -> exists row, inbox d !! group_id g = Some row) ->
  NoDup (List.map g_key (omap (matched_group d) gs)) /\ Forall (group_matched c d) (omap (matched_group d) gs).
Proof.
  intros [Hnd HF] Hrow. split.
  - clear Hrow HF. induction gs as [|g gs IH]; [done|]. simpl in Hnd. apply NoDup_cons in Hnd as [Hn Hnd].
    cbn [omap list_omap]. unfold matched_group at 1. destruct (decide _); [by apply IH|]. simpl.
    apply NoDup_cons. split; [|by apply IH]. contradict Hn. apply elem_keys in Hn as (g' & Hg' & He).
    apply list_elem_of_omap in Hg' as (g0 & Hg0 & Hm). unfold matched_group in Hm.
    destruct (decide _); simplify_eq. apply elem_keys. eauto.
  - apply Forall_forall. intros g' (g & Hg & Hm)%list_elem_of_omap. unfold matched_group in Hm.
    destruct (decide _) as [|Hne]; simplify_eq. destruct (Hrow g Hg) as [row Hr].
    rewrite Forall_forall in HF. by apply (matching_group c d g row (HF g Hg)).
Qed.

Lemma writes_split n d gs :
  (List.concat (List.map (fun g => conflict_writes (group_stored d g) (g_entries g)) gs) ++
   List.concat (List.map (settled_writes n d) gs))%list
  ≡ₚ List.concat (List.map (group_writes n d) gs).
Proof.
  induction gs as [|g gs IH]; [done|]. simpl. rewrite <- IH. unfold group_writes, settled_writes at 1.
  rewrite <- !app_assoc. apply Permutation_app_head. rewrite !app_assoc. apply Permutation_app_tail, Permutation_app_comm.
Qed.

Lemma consumer_groups c gs : groups_wf c gs -> gs <> [] -> consumer_of gs = c.
Proof. intros [_ HF] Hne. destruct HF as [|g gs Hg _]; [done|]. apply (gw_consumer _ _ Hg). Qed.

Lemma pg_prepare_law c gs os n d w : groups_wf c gs ->
  Forall (fun g => g_matching g = []) gs ->
  (forall l, List.map snd l ≡ₚ gs -> rows_ok (apply_all ensure_group l d)) -> gs <> [] ->
  exists l w' ws, List.map snd l ≡ₚ gs /\ e_handlerCalls w' = e_handlerCalls w /\
    let d1 := apply_all ensure_group l d in
    ws ≡ₚ List.concat (List.map (group_writes n d1) gs) /\
    prepareBatchIdentities gs os n d (quiet w)
    = Cont d1 (quiet w') (omap (group_active n d1) gs, write_all ws os).
Proof.
  intros Hgs Hm Hd1 Hne. pose proof Hgs as [Hnd HF]. set (l := stamp (tick w).1 gs).
  assert (List.map snd l = gs) as Hl by apply stamp_snd. specialize (Hd1 l (ltac:(by rewrite Hl))).
  exists l, (tick w).2, (List.concat (List.map (fun g => conflict_writes (group_stored (apply_all ensure_group l d) g) (g_entries g)) gs) ++
   List.concat (List.map (settled_writes n (apply_all ensure_group l d)) gs))%list.
  split_and!; [by rewrite Hl|by apply tick_calls|]. cbv zeta. split; [apply writes_split|].
  assert (forall g, g ∈ gs -> exists row, inbox (apply_all ensure_group l d) !! group_id g = Some row) as Hrow.
  { intros g Hg. apply (insert_present c gs l d g); [done|by rewrite Hl|done]. }
  unfold prepareBatchIdentities. rewrite (consumer_groups c) by done.
  rewrite tx_bind_eq, clock_quiet. cbv beta iota. rewrite tx_bind_eq, exec_quiet. cbv beta iota.
  rewrite (insert_identities c) by done. fold l. generalize dependent (apply_all ensure_group l d). intros d1 Hd1 Hrow.
  rewrite tx_bind_eq, query_quiet. cbv beta iota. rewrite (lock_identities c), (scan_identities_rows c) by done.
  rewrite tx_bind_eq, lift_ok. cbv beta iota. rewrite (match_groups_spec _ _ _ d1).
  2:{ intros g Hg. destruct (Hrow g Hg) as [row Hr]. exists (i_completed_at row).
      rewrite (locked_at gs d1 g row) by done. unfold group_stored. by rewrite Hr. }
  2:{ intros g Hg. destruct (Hrow g Hg) as [row Hr]. unfold group_stored. rewrite Hr. by apply (ok_digest _ Hd1 (group_id g)). }
  rewrite tx_bind_eq, lift_ok. cbv beta iota.
  destruct (matched_groups_spec c d1 gs Hgs Hrow) as [Hnd' HF'].
  destruct (readBatchAttempts_quiet c d1 (omap (matched_group d1) gs) (tick w).2 Hd1 Hnd' HF') as (m & Hread & Hm').
  rewrite tx_bind_eq, Hread. cbv beta iota. rewrite (admit_groups_spec _ _ _ _ _ d1).
  - by rewrite write_all_app.
  - intros g Hg. destruct (Hrow g Hg) as [row Hr]. exists row. split; [done|]. by apply locked_at.
  - intros g Hg Hgne. destruct (Hrow g Hg) as [row Hr].
    rewrite Forall_forall in HF. destruct (matching_group c d1 g row (HF g Hg) Hr Hgne) as [_ Hfp].
    assert (with_matching g (group_matching d1 g) ∈ omap (matched_group d1) gs) as Hin.
    { apply list_elem_of_omap. exists g. split; [done|]. unfold matched_group. by destruct (decide _). }
    specialize (Hm' _ Hin). rewrite Hfp in Hm'. exact Hm'.
Qed.
(** ** Counters *)
Definition attempt_column g : column :=
  (bk_Source (g_key g), MessageID_String (bk_MessageID (g_key g)), AttemptFingerprint (gkey g) (gfp g)).

Lemma attempt_columns c d gs : Forall (group_matched c d) gs ->
  batchAttemptColumns gs = List.map attempt_column gs.
Proof.
  intros HF. unfold batchAttemptColumns. apply map_ext_in. intros g Hg%list_elem_of_In.
  rewrite Forall_forall in HF. specialize (HF g Hg). unfold attempt_column.
  by rewrite (matched_representative c d g HF), (matched_first c d g HF).
Qed.

Lemma upsert_one generated g d t : legacy (gkey g) = negb generated -> agrees d g ->
  sql_upsertAttempt generated (group_id g) (AttemptFingerprint (gkey g) (gfp g)) t d
  = (consume_group (t, g) d, next_attempt d g).
Proof.
  intros Hl Hag. rewrite <- (upsert_consume d g t Hag), next_attempt_counter, Hl.
  unfold sql_upsertAttempt, upsert, counter_of. rewrite Hl. fold (group_id g).
  destruct generated; simpl; [by destruct (generations d !! _)|by destruct (attempts d !! _)].
Qed.

Lemma upsert_rows c generated t gs d :
  NoDup (List.map group_id gs) -> Forall (selected c generated d) gs ->
  sql_upsertAttempts generated c (List.map attempt_column gs) t d
  = (apply_all consume_group (stamp t gs) d,
     List.map (fun g => (bk_Source (g_key g), MessageID_String (bk_MessageID (g_key g)), next_attempt d g)) gs).
Proof.
  revert d. induction gs as [|g gs IH]; intros d Hnd HF; [done|].
  simpl in Hnd. apply NoDup_cons in Hnd as [Hn Hnd]. apply Forall_cons in HF as [(Hg & Hl & Hag) HF].
  assert (forall g', g' ∈ gs -> same_at (group_id g') (consume_group (t, g) d) d) as Hsame.
  { intros g' Hg'. apply (local_frame _ _ (local_consume (gkey g) (gfp g) t)). fold (group_id g).
    intros He. apply Hn. rewrite <- He. apply list_elem_of_In, in_map. by apply list_elem_of_In. }
  cbn [List.map sql_upsertAttempts]. unfold attempt_column at 1. rewrite (group_row c g Hg), upsert_one by done.
  rewrite IH; [|done|].
  - unfold apply_all at 1. cbn. f_equal. f_equal. apply map_ext_in. intros g' Hg'%list_elem_of_In.
    unfold next_attempt. by rewrite (state_of_same (gkey g') (gfp g') _ _ (Hsame g' Hg')).
  - rewrite Forall_forall in HF |- *. intros g' Hg'. eapply selected_same; eauto.
Qed.

Section Selection.
Context (c : string) (d0 : DB B) (gs : list batchGroup).
Context (Hd0 : rows_ok d0) (Hnd : NoDup (List.map g_key gs)) (HF : Forall (group_matched c d0) gs).
Abbreviation untouched := (untouched d0 gs).

Lemma pg_increment_selected_quiet d acc generated w : untouched d generated -> exists l w',
  List.map snd l = selectBatchGroups gs generated /\ e_handlerCalls w' = e_handlerCalls w /\
  increment_selected gs acc generated d (quiet w)
  = Cont (apply_all consume_group l d) (quiet w')
      (collect (fun g => Some (next_attempt d0 g)) (selectBatchGroups gs generated) acc).
Proof using Hd0 Hnd HF.
  intros Hs. unfold increment_selected. destruct (decide _) as [Hn|Hn].
  { exists [], w. rewrite Hn. done. }
  exists (stamp (tick w).1 (selectBatchGroups gs generated)), (tick w).2.
  rewrite stamp_snd. split_and!; [done|by apply tick_calls|].
  rewrite tx_bind_eq, clock_quiet. cbv beta iota.
  rewrite (consumer_selected c d0), (attempt_columns c d0) by (done || by apply (selection_matched c d0 gs)).
  rewrite tx_bind_eq, exec_quiet, upsert_rows by (by apply (selection_ids c d0 gs) || by apply (selection_ready c d0 gs)).
  cbv beta iota. cbn [fst snd].
  rewrite (map_ext_in _ (fun g => (bk_Source (g_key g), MessageID_String (bk_MessageID (g_key g)), next_attempt d0 g))).
  2:{ intros g Hg%list_elem_of_In. unfold next_attempt. by rewrite (state_of_same (gkey g) (gfp g) _ _ (Hs g Hg)). }
  rewrite (scan_increments_rows c); [done| |].
  - eapply Forall_impl; [by apply (selection_matched c d0 gs)|]. by intros g [].
  - intros g _. by apply next_positive.
Qed.

Lemma collected_size (f : batchGroup -> Z) (m : gmap BatchItemKey Z) :
  (forall g, g ∈ gs -> m !! g_key g = Some (f g)) -> dom m ⊆ list_to_set (List.map g_key gs) ->
  size m = List.length gs.
Proof using Hnd.
  intros Hat Hdom. rewrite <- size_dom, <- (length_map g_key gs).
  rewrite <- (size_list_to_set (C := gset BatchItemKey) (List.map g_key gs) Hnd). f_equal.
  apply set_eq. intros k. split; [apply Hdom|]. intros (g & Hg & <-)%elem_of_list_to_set%elem_keys.
  rewrite elem_of_dom, Hat; eauto.
Qed.

Lemma pg_increment_law w :
  applies (incrementBatchAttempts gs) consume_group gs d0 w (fun m =>
    forall g, g ∈ gs -> m !! g_key g = Some (next_attempt d0 g)).
Proof using Hd0 Hnd HF.
  destruct (pg_increment_selected_quiet d0 ∅ false w) as (l1 & w1 & Hl1 & Hw1 & H1); [done|].
  destruct (pg_increment_selected_quiet (apply_all consume_group l1 d0)
    (collect (fun g => Some (next_attempt d0 g)) (selectBatchGroups gs false) ∅) true w1)
    as (l2 & w2 & Hl2 & Hw2 & H2).
  { apply (first_selection_frame c d0 gs); [done..| |done]. intros x. apply local_consume. }
  exists (l1 ++ l2)%list, w2. eexists. rewrite map_app, Hl1, Hl2. split; [apply select_perm|].
  split; [by rewrite Hw2|]. unfold incrementBatchAttempts.
  rewrite tx_bind_eq, H1. cbv beta iota. rewrite tx_bind_eq, H2. cbv beta iota.
  set (m := collect _ _ (collect _ _ _)).
  assert (forall g, g ∈ gs -> m !! g_key g = Some (next_attempt d0 g)) as Hm.
  { intros g Hg. rewrite <- (select_perm gs) in Hg. unfold m. apply elem_of_app in Hg as [Hg|Hg].
    - rewrite collect_other by (by apply NoDup_select || by apply select_disjoint).
      by rewrite collect_at by (done || by apply NoDup_select).
    - by rewrite collect_at by (done || by apply NoDup_select). }
  split; [exact Hm|]. rewrite (collected_size (next_attempt d0) m Hm), Z.eqb_refl.
  - unfold apply_all. by rewrite fold_left_app.
  - intros k Hk. rewrite elem_of_list_to_set, <- (select_perm gs), map_app, elem_of_app.
    destruct (decide (k ∈ List.map g_key (selectBatchGroups gs true))) as [|Hn2]; [by right|left].
    destruct (decide (k ∈ List.map g_key (selectBatchGroups gs false))) as [|Hn1]; [done|].
    apply elem_of_dom in Hk as [n Hk]. unfold m in Hk. by rewrite !collect_other, lookup_empty in Hk by (done || by apply NoDup_select).
Qed.
Lemma mark_columns generated t sel d : Forall (group_wf c) sel ->
  (sql_markBatchTerminal generated c (List.map attempt_column sel) t d).1
  = apply_all (fun x d => if generated
      then (sql_markTerminalGeneration x.1 (group_id x.2) (AttemptFingerprint (gkey x.2) (gfp x.2)) d).1
      else (sql_markTerminal x.1 (group_id x.2) d).1) (stamp t sel) d.
Proof using.
  intros HS. unfold sql_markBatchTerminal, apply_all, stamp. simpl. revert d.
  induction HS as [|g sel Hg HS IH]; intros d; [done|]. simpl. rewrite (group_row c g Hg). apply IH.
Qed.

Lemma mark_rows generated t sel d : NoDup (List.map group_id sel) -> Forall (selected c generated d) sel ->
  (sql_markBatchTerminal generated c (List.map attempt_column sel) t d).1
  = apply_all flag_group (stamp t sel) d.
Proof using.
  intros Hids HS. rewrite mark_columns by (eapply Forall_impl; [exact HS|]; by intros g (? & _)).
  assert (forall x, x ∈ stamp t sel -> x.2 ∈ sel) as Hin.
  { intros x Hx. rewrite <- (stamp_snd t sel). apply list_elem_of_In, in_map. by apply list_elem_of_In. }
  rewrite Forall_forall in HS. apply apply_rows.
  - intros x. apply local_flag.
  - by rewrite <- (map_map snd group_id), stamp_snd.
  - intros x Hx. by apply (HS x.2 (Hin x Hx)).
  - intros [t' g] d' Hx Hag. destruct (HS g (Hin _ Hx)) as (_ & Hl & _). simpl in *.
    rewrite <- (mark_flag d' g t' Hag), Hl. by destruct generated.
Qed.

Lemma mark_selected_quiet d generated w : untouched d generated -> exists l w',
  List.map snd l = selectBatchGroups gs generated /\ e_handlerCalls w' = e_handlerCalls w /\
  mark_selected gs generated d (quiet w) = Cont (apply_all flag_group l d) (quiet w') tt.
Proof using Hd0 Hnd HF.
  intros Hs. unfold mark_selected. destruct (decide _) as [Hn|Hn].
  { exists [], w. rewrite Hn. done. }
  exists (stamp (tick w).1 (selectBatchGroups gs generated)), (tick w).2.
  rewrite stamp_snd. split_and!; [done|by apply tick_calls|].
  rewrite tx_bind_eq, clock_quiet. cbv beta iota.
  rewrite (consumer_selected c d0), (attempt_columns c d0) by (done || by apply (selection_matched c d0 gs)).
  by rewrite exec_quiet, mark_rows by (by apply (selection_ids c d0 gs) || by apply (selection_ready c d0 gs)).
Qed.

Lemma pg_terminal_law w : applies (markBatchTerminal gs) flag_group gs d0 w (fun _ => True).
Proof using Hd0 Hnd HF.
  destruct (mark_selected_quiet d0 false w) as (l1 & w1 & Hl1 & Hw1 & H1); [done|].
  destruct (mark_selected_quiet (apply_all flag_group l1 d0) true w1) as (l2 & w2 & Hl2 & Hw2 & H2).
  { apply (first_selection_frame c d0 gs); [done..| |done]. intros x. apply local_flag. }
  exists (l1 ++ l2)%list, w2, tt. rewrite map_app, Hl1, Hl2. split_and!; [apply select_perm|by rewrite Hw2|done|].
  unfold markBatchTerminal. rewrite tx_bind_eq, H1. cbv beta iota. rewrite H2.
  unfold apply_all. by rewrite fold_left_app.
Qed.

End Selection.

Lemma pg_completed_law c gs d0 w : Forall (group_matched c d0) gs ->
  applies (markBatchCompleted gs) complete_group gs d0 w (fun _ => True).
Proof.
  intros HF. unfold markBatchCompleted. destruct (decide _) as [Hn|Hn].
  { exists [], w, tt. by rewrite Hn. }
  exists (stamp (tick w).1 gs), (tick w).2, tt. rewrite stamp_snd.
  split_and!; [done|by apply tick_calls|done|]. rewrite tx_bind_eq, clock_quiet. cbv beta iota.
  rewrite exec_quiet. f_equal. unfold sql_markBatchComplete, apply_all, stamp. cbn [fst].
  assert (consumer_of gs = c) as ->.
  { destruct HF as [|g r Hg _]; [done|]. apply (gw_consumer _ _ (gm_wf _ _ _ Hg)). }
  assert (Forall (group_wf c) gs) as HW by (eapply Forall_impl; [exact HF|]; by intros g []).
  generalize (tick w).1. intros t. generalize d0 as d. clear -HW. induction HW as [|g r Hg HW IH]; intros d; [done|]. simpl.
  rewrite (group_row c g Hg). apply IH.
Qed.

#[global] Instance Pg_batch : BatchBackend (PgBatch.ops (B := B)).
Proof.
  split.
  - apply pg_atomic_prepare.
  - apply pg_atomic_increment.
  - apply pg_atomic_completed.
  - apply pg_atomic_terminal.
  - intros c gs os n d w Hgs Hm _ Hd1 Hne. by apply (pg_prepare_law c).
  - intros c gs d w Hnd HF Hd. by apply (pg_increment_law c).
  - intros c gs d w _ HF. by apply (pg_completed_law c).
  - intros c gs d w Hnd HF Hd. by apply (pg_terminal_law c).
Qed.
End Refine.
End PgBatchRefine.
