(* ===== verification/SqliteBatch.v ===== *)
(** * The SQLite batch statements

    Models the table access of [adapters/inbox/sqlite/batch.go]: writes in
    statements of at most 100 rows, reads one group at a time with the
    statements of single deliveries.  Module [SqliteBatchRefine] proves that they
    satisfy the laws of [BatchBackend]. *)
From S2P Require Import Prelude GoStrings Errors Ident Batch Inbox InboxSQL TerminalState.
From S2P Require Import SqliteBackend InboxBatch.
Import Stdlib.Strings.String.
Open Scope string_scope.
Open Scope Z_scope.
Open Scope tx_scope.

Module SqliteBatch.

Definition sqliteBatchStatementItems : nat := 100.

(** The types and the grouping and assignment functions of this backend repeat
    those of the PostgreSQL backend. *)
Abbreviation sqliteBatchPreparedItem := batchPreparedItem.
Abbreviation sqliteBatchGroup := batchGroup.
Abbreviation sqliteBatchAttemptState := batchAttemptState.
Abbreviation sqliteBatchClassified := batchClassified.
Definition prepareSQLiteBatchGroups : list BatchItem -> result error (list sqliteBatchGroup) :=
  prepareBatchGroups.
Definition assignSQLiteBatchOutcome :
  list BatchItemOutcome -> sqliteBatchGroup -> BatchItemOutcome -> list BatchItemOutcome :=
  assignBatchOutcome.

(** The group's item is [matching[0]]: only matching groups are selected. *)
Definition selectSQLiteBatchGroups (groups : list sqliteBatchGroup) (generated : bool)
  : list sqliteBatchGroup :=
  filter (fun g => Bool.eqb
    (negb (String.eqb (k_AttemptGeneration (it_Key (first_item (g_matching g)))) "")) generated = true)
    groups.

Section Operations.
Context {B : Type}.
Abbreviation R := BatchProcessResult.

(** [group.key.Source], [group.key.MessageID.String()] beside the consumer of
    the given item. *)
Definition row_key (g : sqliteBatchGroup) (item : BatchItem) : idkey :=
  (k_ConsumerID (it_Key item), bk_Source (g_key g), MessageID_String (bk_MessageID (g_key g))).

(** The arguments of a multi-row statement read the clock once per row. *)
Fixpoint stamped (groups : list sqliteBatchGroup) : TX B R (list (Time * sqliteBatchGroup)) :=
  match groups with
  | [] => tx_ret []
  | g :: r =>
      let* now := clock in
      let* rest := stamped r in
      tx_ret ((now, g) :: rest)
  end.

(** ** Identities *)
Definition sql_insertIdentities (rows : list (Time * sqliteBatchGroup)) (d : DB B) : DB B * unit :=
  (fold_left (fun d '(now, g) =>
     let item := first_item (g_entries g) in
     (sql_insertIdentity (row_key g item) (it_Fingerprint item) now d).1) rows d, tt).

Definition insertSQLiteBatchIdentities (groups : list sqliteBatchGroup) : TX B R unit :=
  tx_each (fun chunk =>
    let* rows := stamped chunk in
    exec "inbox/sqlite: insert batch identities" (sql_insertIdentities rows))
    (chunks_of sqliteBatchStatementItems groups).

(** ** Counters *)
Definition readSQLiteBatchAttempt (item : BatchItem) : TX B R sqliteBatchAttemptState :=
  let* state := Sqlite.readAttempt (it_Key item) (AttemptFingerprint (it_Key item) (it_Fingerprint item)) in
  match state with
  | None => tx_ret batchAttemptState0
  | Some s => tx_ret {| bs_kind := Sqlite.as_kind s; bs_attempt := Sqlite.as_attempt s;
                        bs_terminal := Sqlite.as_terminal s |}
  end.

(** The loop body after the read of the identity. *)
Definition admit_identity (maxAttempts : Z) (g : sqliteBatchGroup) (stored : Fingerprint)
  (completed : bool) (outcomes : list BatchItemOutcome)
  : TX B R (option sqliteBatchGroup * list BatchItemOutcome) :=
  let '(matching, outcomes) := match_entries stored (g_entries g) outcomes in
  if decide (matching = []) then tx_ret (None, outcomes)
  else
    let g := with_matching g matching in
    let* state := readSQLiteBatchAttempt (first_item (g_matching g)) in
    tx_ret (admit_group maxAttempts completed (with_state g state) outcomes).

Fixpoint admit_groups (maxAttempts : Z) (groups : list sqliteBatchGroup)
  (outcomes : list BatchItemOutcome) : TX B R (list sqliteBatchGroup * list BatchItemOutcome) :=
  match groups with
  | [] => tx_ret ([], outcomes)
  | g :: r =>
      let* row := query "inbox/sqlite: read batch identity"
        (sql_readIdentity (row_key g (first_item (g_entries g)))) in
      match row with
      | None => tx_fail (EFmt "inbox/sqlite: read batch identity" [ESentinel ErrNoRows])
      | Some (stored, completedAt) =>
          if negb (len stored =? 32) then tx_fail (ENew "inbox/sqlite: invalid stored batch identity")
          else
            let* admitted := admit_identity maxAttempts g stored
              (match completedAt with Some _ => true | None => false end) outcomes in
            let '(kept, outcomes) := admitted in
            let* rest := admit_groups maxAttempts r outcomes in
            let '(active, outcomes) := rest in
            tx_ret (match kept with Some g => g :: active | None => active end, outcomes)
      end
  end.

Definition prepareSQLiteBatchIdentities (groups : list sqliteBatchGroup)
  (outcomes : list BatchItemOutcome) (maxAttempts : Z)
  : TX B R (list sqliteBatchGroup * list BatchItemOutcome) :=
  let* _ := insertSQLiteBatchIdentities groups in
  admit_groups maxAttempts groups outcomes.

(** [INSERT ... ON CONFLICT DO UPDATE SET attempts = attempts + 1] *)
Definition sql_upsertAttempts (generated : bool) (rows : list (Time * sqliteBatchGroup)) (d : DB B)
  : DB B * unit :=
  (fold_left (fun d '(now, g) =>
     let item := first_item (g_matching g) in
     let k := row_key g item in
     let fp := AttemptFingerprint (it_Key item) (it_Fingerprint item) in
     if generated then
       let c := match generations d !! (k, fp) with Some c => bump now c | None => fresh_counter 1 now end in
       set_generations (<[(k, fp) := c]> (generations d)) d
     else
       let r := match attempts d !! k with
                | Some r => {| a_fingerprint := a_fingerprint r; a_counter := bump now (a_counter r) |}
                | None => {| a_fingerprint := fp; a_counter := fresh_counter 1 now |}
                end in
       set_attempts (<[k := r]> (attempts d)) d) rows d, tt).

Definition increment_selected (groups : list sqliteBatchGroup) (generated : bool) : TX B R unit :=
  tx_each (fun chunk =>
    let* rows := stamped chunk in
    exec "inbox/sqlite: increment batch attempts" (sql_upsertAttempts generated rows))
    (chunks_of sqliteBatchStatementItems (selectSQLiteBatchGroups groups generated)).

(** The loop that reads the counters back. *)
Fixpoint read_back (groups : list sqliteBatchGroup) (acc : gmap BatchItemKey Z)
  : TX B R (gmap BatchItemKey Z) :=
  match groups with
  | [] => tx_ret acc
  | g :: r =>
      let* state := readSQLiteBatchAttempt (first_item (g_matching g)) in
      if bs_attempt state <? 1 then tx_fail (ENew "inbox/sqlite: invalid incremented batch attempt")
      else read_back r (<[g_key g := bs_attempt state]> acc)
  end.

Definition incrementSQLiteBatchAttempts (groups : list sqliteBatchGroup)
  : TX B R (gmap BatchItemKey Z) :=
  let* _ := increment_selected groups false in
  let* _ := increment_selected groups true in
  read_back groups ∅.

(** ** Completion and permanent failures *)
Definition sql_completeIdentities (consumer : string) (groups : list sqliteBatchGroup) (now : Time)
  (d : DB B) : DB B * unit :=
  (fold_left (fun d g =>
     (sql_markComplete now
        (consumer, bk_Source (g_key g), MessageID_String (bk_MessageID (g_key g))) d).1) groups d, tt).

Definition markSQLiteBatchCompleted (groups : list sqliteBatchGroup) : TX B R unit :=
  tx_each (fun chunk =>
    let* now := clock in
    exec "inbox/sqlite: mark batch items complete"
      (sql_completeIdentities
         (match chunk with g :: _ => k_ConsumerID (it_Key (first_item (g_matching g))) | [] => "" end)
         chunk now))
    (chunks_of sqliteBatchStatementItems groups).

Definition markSQLiteBatchTerminal (groups : list sqliteBatchGroup) : TX B R unit :=
  tx_each (fun g =>
    let item := first_item (g_matching g) in
    Sqlite.markAttemptTerminal (it_Key item) (it_Fingerprint item)
      (EPermanent (ENew "batch terminal")))
    groups.

Definition ops : batchOps B :=
  {| bo_name := "inbox/sqlite";
     bo_prepareIdentities := prepareSQLiteBatchIdentities;
     bo_incrementAttempts := incrementSQLiteBatchAttempts;
     bo_markCompleted := markSQLiteBatchCompleted;
     bo_markTerminal := markSQLiteBatchTerminal |}.

Definition ProcessBatchAttempt : list BatchItem -> Z -> InboxBatchHandler B -> TX B R Empty_set :=
  InboxBatch.ProcessBatchAttempt ops.
End Operations.
End SqliteBatch.

(** ** The SQLite batch statements satisfy the batch laws *)
From S2P Require Import InboxSpec InboxProps InboxRefine InboxEffects InboxClosed SqliteRefine InboxLocal InboxGroups InboxBatchSpec InboxBatchProps InboxBatchSteps.
Import Stdlib.Strings.String.
Open Scope string_scope.
Open Scope Z_scope.

Module SqliteBatchRefine.
Import SqliteBatch.
Section Refine.
Context {B : Type}.
Implicit Types (d : DB B) (g : batchGroup) (gs : list batchGroup) (w : env).

(** ** Atomicity *)
Ltac each_tac := repeat first [progress atomic_tac | apply atomic_each].
Lemma atomic_stamped gs : atomic (stamped (B := B) gs).
Proof. induction gs; simpl; atomic_tac. Qed.
#[local] Hint Resolve atomic_stamped SqliteRefine.sqlite_atomic_readAttempt
  SqliteRefine.sqlite_atomic_markAttemptTerminal : go.
Lemma sqlite_atomic_read it : atomic (readSQLiteBatchAttempt (B := B) it).
Proof. unfold readSQLiteBatchAttempt. atomic_tac. Qed.
#[local] Hint Resolve sqlite_atomic_read : go.
Lemma atomic_identity n g fp b os : atomic (admit_identity (B := B) n g fp b os).
Proof. unfold admit_identity. destruct (match_entries _ _ _). destruct (decide _); atomic_tac. Qed.
#[local] Hint Resolve atomic_identity : go.
Lemma atomic_admit n gs os : atomic (admit_groups (B := B) n gs os).
Proof. revert os. induction gs; intros os; simpl; atomic_tac. Qed.
#[local] Hint Resolve atomic_admit : go.
Lemma sqlite_atomic_prepare gs os n : atomic (prepareSQLiteBatchIdentities (B := B) gs os n).
Proof. unfold prepareSQLiteBatchIdentities, insertSQLiteBatchIdentities. each_tac. Qed.
Lemma atomic_read_back gs acc : atomic (read_back (B := B) gs acc).
Proof. revert acc. induction gs; intros acc; simpl; atomic_tac. Qed.
#[local] Hint Resolve atomic_read_back : go.
Lemma sqlite_atomic_increment gs : atomic (incrementSQLiteBatchAttempts (B := B) gs).
Proof. unfold incrementSQLiteBatchAttempts, increment_selected. each_tac. Qed.
Lemma sqlite_atomic_completed gs : atomic (markSQLiteBatchCompleted (B := B) gs).
Proof. unfold markSQLiteBatchCompleted. each_tac. Qed.
Lemma sqlite_atomic_terminal gs : atomic (markSQLiteBatchTerminal (B := B) gs).
Proof. unfold markSQLiteBatchTerminal. each_tac. Qed.

(** ** Statements in chunks *)
Lemma stamped_quiet gs d w : exists (l : list (Time * batchGroup)) w',
  List.map snd l = gs /\ e_handlerCalls w' = e_handlerCalls w /\ stamped gs d (quiet w) = Cont d (quiet w') l.
Proof.
  revert w. induction gs as [|g gs IH]; intros w; [by exists [], w|].
  destruct (IH (tick w).2) as (l & w' & Hl & Hw & Hs). exists (((tick w).1, g) :: l), w'.
  simpl. rewrite Hl. split_and!; [done|by rewrite Hw, tick_calls|].
  rewrite tx_bind_eq, clock_quiet. cbv beta iota. by rewrite tx_bind_eq, Hs.
Qed.

Lemma each_stamped_quiet label (f : list (Time * batchGroup) -> DB B -> DB B * unit) u (cs : list (list batchGroup)) d w :
  (forall rows d, f rows d = (apply_all u rows d, tt)) -> exists (l : list (Time * batchGroup)) w',
  List.map snd l = List.concat cs /\ e_handlerCalls w' = e_handlerCalls w /\
  tx_each (fun chunk => tx_bind (stamped chunk) (fun rows => exec label (f rows))) cs d (quiet w)
  = Cont (apply_all u l d) (quiet w') tt.
Proof.
  intros Hf. revert d w. induction cs as [|chunk cs IH]; intros d w; [by exists [], w|].
  destruct (stamped_quiet chunk d w) as (l1 & w1 & Hl1 & Hw1 & H1).
  destruct (IH (apply_all u l1 d) w1) as (l2 & w2 & Hl2 & Hw2 & H2).
  exists (l1 ++ l2)%list, w2. rewrite map_app, Hl1, Hl2. split_and!; [done|by rewrite Hw2|].
  cbn [tx_each]. rewrite tx_bind_eq, tx_bind_eq, H1. cbv beta iota. rewrite exec_quiet, Hf.
  cbn [fst snd]. by rewrite H2, apply_all_app.
Qed.

Lemma row_key_first c g : group_wf c g -> row_key g (first_item (g_entries g)) = group_id g.
Proof. intros Hg. unfold row_key. rewrite <- (group_row c g Hg). f_equal. f_equal. apply (gw_consumer _ _ Hg). Qed.

Lemma row_key_matching c d g : group_matched c d g -> row_key g (first_item (g_matching g)) = group_id g.
Proof.
  intros Hg. unfold row_key. rewrite (matched_first c d g Hg), <- (group_row c g (gm_wf _ _ _ Hg)).
  f_equal. f_equal. apply (gw_consumer _ _ (gm_wf _ _ _ Hg)).
Qed.

Lemma stamped_elem (l : list (Time * batchGroup)) gs x : List.map snd l = gs -> x ∈ l -> x.2 ∈ gs.
Proof. intros <- Hx. apply list_elem_of_In, in_map. by apply list_elem_of_In. Qed.

(** ** Preparation *)
Lemma insert_quiet c gs d w : Forall (group_wf c) gs -> exists l w',
  List.map snd l = gs /\ e_handlerCalls w' = e_handlerCalls w /\
  insertSQLiteBatchIdentities gs d (quiet w) = Cont (apply_all ensure_group l d) (quiet w') tt.
Proof.
  intros HF. unfold insertSQLiteBatchIdentities.
  destruct (each_stamped_quiet "inbox/sqlite: insert batch identities" sql_insertIdentities
    (fun x d => (sql_insertIdentity (row_key x.2 (first_item (g_entries x.2)))
       (it_Fingerprint (first_item (g_entries x.2))) x.1 d).1)
    (chunks_of sqliteBatchStatementItems gs) d w) as (l & w' & Hl & Hw & H).
  { intros rows d'. unfold sql_insertIdentities, apply_all. f_equal. revert d'.
    induction rows as [|[t g] rows IH]; intros d'; [done|]. apply IH. }
  rewrite concat_chunks_of in Hl by (unfold sqliteBatchStatementItems; lia).
  exists l, w'. split_and!; [done..|]. etrans; [exact H|]. f_equal. apply apply_all_ext. intros x d' Hx.
  rewrite Forall_forall in HF. rewrite (row_key_first c) by (apply HF; by eapply stamped_elem). done.
Qed.

Lemma read_quiet it d w :
  (forall s, state_of (it_Key it) (it_Fingerprint it) d = Some s -> 0 <= s.1.1) ->
  readSQLiteBatchAttempt it d (quiet w)
  = Cont d (quiet w) (bs_of (state_of (it_Key it) (it_Fingerprint it) d)).
Proof.
  intros Hpos. unfold readSQLiteBatchAttempt. rewrite tx_bind_eq, SqliteRefine.readAttempt_state by done.
  by destruct (state_of _ _ d) as [[[n flag] kind]|].
Qed.

Lemma admit_identity_quiet c n g row os d w : rows_ok d -> group_wf c g ->
  inbox d !! group_id g = Some row ->
  admit_identity n g (group_stored d g) (completed (group_id g) d) os d (quiet w)
  = Cont d (quiet w) (group_active n d g, write_all (group_writes n d g) os).
Proof.
  intros Hd Hg Hrow. unfold admit_identity. rewrite match_entries_spec. fold (group_matching d g).
  unfold group_active, group_writes. rewrite write_all_app.
  destruct (decide (group_matching d g = [])) as [|Hne]; [done|].
  destruct (matching_group c d g row Hg Hrow Hne) as [Hm Hfp].
  rewrite tx_bind_eq, read_quiet by (intros s; by apply state_nonneg). cbv beta iota.
  fold (gfp (with_matching g (group_matching d g))). rewrite Hfp, (matched_first c d _ Hm).
  change (gkey (with_matching g (group_matching d g))) with (gkey g).
  fold (admitted d g). unfold admit_group, assignBatchOutcome. rewrite !assign_entries_writes.
  change (g_matching (admitted d g)) with (group_matching d g).
  destruct (completed _ d); [done|]. by destruct (bs_closed _ _).
Qed.

Lemma admit_groups_quiet c n gs os d w : rows_ok d -> Forall (group_wf c) gs ->
  (forall g, g ∈ gs -> exists row, inbox d !! group_id g = Some row) ->
  admit_groups n gs os d (quiet w)
  = Cont d (quiet w) (omap (group_active n d) gs, write_all (List.concat (List.map (group_writes n d) gs)) os).
Proof.
  intros Hd HF. revert os. induction HF as [|g gs Hg HF IH]; intros os Hrow; [done|].
  destruct (Hrow g (list_elem_of_here _ _)) as [row Hr]. cbn [admit_groups].
  rewrite (row_key_first c) by done. rewrite tx_bind_eq, query_quiet. cbv beta iota.
  unfold sql_readIdentity at 1. rewrite Hr. cbn [option_map].
  assert (group_stored d g = i_fingerprint row) as Hst by (unfold group_stored; by rewrite Hr).
  assert (completed (group_id g) d = match i_completed_at row with Some _ => true | None => false end) as Hco.
  { unfold completed. rewrite Hr. by destruct (i_completed_at row). }
  pose proof (ok_digest _ Hd (group_id g) _ Hr) as Hlen. unfold Fingerprint_wf in Hlen.
  unfold len. rewrite Hlen. cbn [negb]. change (Z.of_nat 32 =? 32) with true. cbn [negb].
  rewrite tx_bind_eq, <- Hst, <- Hco, (admit_identity_quiet c n g row) by done. cbv beta iota.
  rewrite tx_bind_eq, IH by (intros g' ?; apply Hrow; by right). cbv beta iota.
  cbn [List.map List.concat omap list_omap]. by rewrite write_all_app.
Qed.
Lemma sqlite_prepare_law c gs os n d w : groups_wf c gs ->
  (forall l, List.map snd l ≡ₚ gs -> rows_ok (apply_all ensure_group l d)) ->
  exists l w' ws, List.map snd l ≡ₚ gs /\ e_handlerCalls w' = e_handlerCalls w /\
    let d1 := apply_all ensure_group l d in
    ws ≡ₚ List.concat (List.map (group_writes n d1) gs) /\
    prepareSQLiteBatchIdentities gs os n d (quiet w)
    = Cont d1 (quiet w') (omap (group_active n d1) gs, write_all ws os).
Proof.
  intros Hgs Hd1. pose proof Hgs as [Hnd HF]. destruct (insert_quiet c gs d w HF) as (l & w' & Hl & Hw & H).
  exists l, w'. eexists. split_and!; [by rewrite Hl|done|]. cbv zeta. split; [reflexivity|].
  unfold prepareSQLiteBatchIdentities. rewrite tx_bind_eq, H. cbv beta iota.
  apply (admit_groups_quiet c); [apply Hd1; by rewrite Hl|done|].
  intros g Hg. apply (insert_present c gs l d g); [done|by rewrite Hl|done].
Qed.

(** ** Counters *)
Lemma select_same c d gs generated : Forall (group_matched c d) gs ->
  selectSQLiteBatchGroups gs generated = selectBatchGroups gs generated.
Proof.
  intros HF. unfold selectSQLiteBatchGroups, selectBatchGroups. induction HF as [|g gs Hg HF IH]; [done|].
  rewrite !filter_cons, IH. by rewrite (matched_representative c d g Hg).
Qed.

Section Selection.
Context (c : string) (d0 : DB B) (gs : list batchGroup).
Context (Hd0 : rows_ok d0) (Hnd : NoDup (List.map g_key gs)) (HF : Forall (group_matched c d0) gs).

Lemma sqlite_increment_selected_quiet d generated w : untouched d0 gs d generated -> exists l w',
  List.map snd l = selectBatchGroups gs generated /\ e_handlerCalls w' = e_handlerCalls w /\
  increment_selected gs generated d (quiet w) = Cont (apply_all consume_group l d) (quiet w') tt.
Proof using Hd0 Hnd HF.
  intros Hs. unfold increment_selected. rewrite (select_same c d0) by done.
  destruct (each_stamped_quiet "inbox/sqlite: increment batch attempts" (sql_upsertAttempts generated)
    (fun x => upsert generated (row_key x.2 (first_item (g_matching x.2)))
       (AttemptFingerprint (it_Key (first_item (g_matching x.2))) (it_Fingerprint (first_item (g_matching x.2)))) x.1)
    (chunks_of sqliteBatchStatementItems (selectBatchGroups gs generated)) d w) as (l & w' & Hl & Hw & H).
  { intros rows d'. unfold sql_upsertAttempts, apply_all. f_equal. revert d'.
    induction rows as [|[t g] rows IH]; intros d'; [done|]. apply IH. }
  rewrite concat_chunks_of in Hl by (unfold sqliteBatchStatementItems; lia).
  exists l, w'. split_and!; [done..|]. etrans; [exact H|]. f_equal.
  pose proof (selection_ready c d0 gs Hd0 HF d generated Hs) as HR. rewrite Forall_forall in HR.
  pose proof (selection_matched c d0 gs HF generated) as HM. rewrite Forall_forall in HM.
  apply apply_rows.
  - intros x. apply local_consume.
  - rewrite <- (map_map snd group_id), Hl. by apply (selection_ids c d0 gs).
  - intros x Hx. apply HR. by eapply stamped_elem.
  - intros [t g] d' Hx Hag. pose proof (stamped_elem _ _ _ Hl Hx) as Hg. simpl in *.
    rewrite (row_key_matching c d0), (matched_first c d0) by auto. fold (gfp g).
    rewrite <- (upsert_consume d' g t Hag). destruct (HR g Hg) as (_ & -> & _). by rewrite negb_involutive.
Qed.

Lemma read_back_quiet d acc w sel :
  (forall g, g ∈ sel -> it_Key (first_item (g_matching g)) = gkey g /\
     exists flag kind, state_of (gkey g) (gfp g) d = Some (next_attempt d0 g, flag, kind)) ->
  read_back sel acc d (quiet w) = Cont d (quiet w) (collect (fun g => Some (next_attempt d0 g)) sel acc).
Proof using Hd0.
  revert acc. induction sel as [|g sel IH]; intros acc Hst; [done|].
  destruct (Hst g (list_elem_of_here _ _)) as (Hk & flag & kind & Hg). cbn [read_back].
  pose proof (next_positive d0 g Hd0) as Hn. rewrite tx_bind_eq, read_quiet; fold (gfp g); rewrite Hk, Hg; cycle 1.
  { intros s [= <-]. simpl. lia. }
  cbv beta iota. cbn [bs_of bs_attempt]. rewrite (proj2 (Z.ltb_ge _ _)) by lia.
  apply IH. intros g' ?. apply Hst. by right.
Qed.

Lemma consumed_state d g t : exists flag kind,
  state_of (gkey g) (gfp g) (consume_group (t, g) d) = Some (next_attempt d g, flag, kind).
Proof using.
  rewrite state_of_counter, next_attempt_counter. unfold consume_group, consume. simpl.
  rewrite counter_of_set. destruct (counter_of (gkey g) (gfp g) d); simpl; eauto.
Qed.

Lemma sqlite_increment_law w :
  applies (incrementSQLiteBatchAttempts gs) consume_group gs d0 w (fun m =>
    forall g, g ∈ gs -> m !! g_key g = Some (next_attempt d0 g)).
Proof using Hd0 Hnd HF.
  destruct (sqlite_increment_selected_quiet d0 false w) as (l1 & w1 & Hl1 & Hw1 & H1); [done|].
  destruct (sqlite_increment_selected_quiet (apply_all consume_group l1 d0) true w1) as (l2 & w2 & Hl2 & Hw2 & H2).
  { apply (first_selection_frame c d0 gs); [done..| |done]. intros x. apply local_consume. }
  assert (List.map snd (l1 ++ l2) ≡ₚ gs) as Hl by (rewrite map_app, Hl1, Hl2; apply select_perm).
  exists (l1 ++ l2)%list, w2, (collect (fun g => Some (next_attempt d0 g)) gs ∅).
  split_and!; [done|by rewrite Hw2|intros g Hg; by rewrite collect_at by done|].
  unfold incrementSQLiteBatchAttempts. rewrite tx_bind_eq, H1. cbv beta iota. rewrite tx_bind_eq, H2. cbv beta iota.
  rewrite <- apply_all_app. apply read_back_quiet. intros g Hg. rewrite Forall_forall in HF.
  split; [by apply (matched_first c d0); auto|].
  assert (exists t, (t, g) ∈ (l1 ++ l2)%list) as [t Ht] by (by eapply stamped_in).
  destruct (consumed_state d0 g t) as (flag & kind & Hst). exists flag, kind. rewrite <- Hst. apply state_of_same.
  apply (apply_all_at (fun x => group_id x.2) consume_group _ d0 (t, g)); [|  |done].
  - apply Forall_forall. intros x _. apply local_consume.
  - rewrite <- (map_map snd group_id), Hl. apply (matched_ids c d0); [done|]. by apply Forall_forall.
Qed.
End Selection.
(** ** Completion and permanent failures *)
Lemma complete_chunk c d0 t (chunk : list batchGroup) d : Forall (group_matched c d0) chunk ->
  (sql_completeIdentities c chunk t d).1 = apply_all complete_group (stamp t chunk) d.
Proof.
  intros HF. unfold sql_completeIdentities, apply_all, stamp. simpl. revert d.
  induction HF as [|g chunk Hg HF IH]; intros d; [done|]. simpl. rewrite (group_row c g (gm_wf _ _ _ Hg)). apply IH.
Qed.

Lemma completed_chunks c d0 (cs : list (list batchGroup)) d w : Forall (group_matched c d0) (List.concat cs) ->
  applies (tx_each (fun chunk => tx_bind clock (fun now => exec "inbox/sqlite: mark batch items complete"
      (sql_completeIdentities
         (match chunk with g :: _ => k_ConsumerID (it_Key (first_item (g_matching g))) | [] => "" end)
         chunk now))) cs)
    complete_group (List.concat cs) d w (fun _ => True).
Proof.
  revert d w. induction cs as [|chunk cs IH]; intros d w HF; [by exists [], w, tt|].
  simpl in HF. apply Forall_app in HF as [HC HF].
  destruct (IH (apply_all complete_group (stamp (tick w).1 chunk) d) (tick w).2 HF) as (l & w' & [] & Hl & Hw & _ & H).
  exists (stamp (tick w).1 chunk ++ l)%list, w', tt. rewrite map_app, stamp_snd, Hl.
  split_and!; [done|by rewrite Hw, tick_calls|done|]. cbn [tx_each].
  rewrite tx_bind_eq, tx_bind_eq, clock_quiet. cbv beta iota. rewrite exec_quiet, apply_all_app. cbn [snd].
  destruct HC as [|g chunk Hg HC]; [exact H|].
  rewrite (matched_first c d0 g Hg), (gw_consumer _ _ (gm_wf _ _ _ Hg)), (complete_chunk c d0) by auto. exact H.
Qed.

Lemma sqlite_completed_law c gs d0 w : Forall (group_matched c d0) gs ->
  applies (markSQLiteBatchCompleted gs) complete_group gs d0 w (fun _ => True).
Proof.
  intros HF. pose proof (concat_chunks_of sqliteBatchStatementItems gs) as Hcs.
  rewrite <- Hcs in HF by (unfold sqliteBatchStatementItems; lia).
  pose proof (completed_chunks c d0 _ d0 w HF) as H. rewrite Hcs in H by (unfold sqliteBatchStatementItems; lia).
  exact H.
Qed.

Lemma sqlite_terminal_law c gs d0 w : NoDup (List.map g_key gs) -> Forall (group_matched c d0) gs -> rows_ok d0 ->
  applies (markSQLiteBatchTerminal gs) flag_group gs d0 w (fun _ => True).
Proof.
  intros Hnd HF Hd. pose proof (matched_ids c d0 gs Hnd HF) as Hids. clear Hnd.
  unfold markSQLiteBatchTerminal, applies.
  assert (Forall (fun g => it_Key (first_item (g_matching g)) = gkey g /\ agrees d0 g) gs) as HA.
  { eapply Forall_impl; [exact HF|]. intros g Hg. split; [by eapply matched_first|by eapply matched_agrees]. }
  clear HF Hd. revert d0 w HA. induction gs as [|g gs IH]; intros d w HA; [by exists [], w, tt|].
  simpl in Hids. apply NoDup_cons in Hids as [Hn Hids]. apply Forall_cons in HA as [[Hk Hag] HA].
  destruct (IH Hids (flag_group ((tick w).1, g) d) (tick w).2) as (l & w' & [] & Hl & Hw & _ & H).
  { rewrite Forall_forall in HA |- *. intros g' Hg'. destruct (HA g' Hg') as [? Hag']. split; [done|].
    eapply agrees_same; [|exact Hag']. apply (local_frame _ _ (local_flag _ _ _)). intros He. apply Hn.
    simpl in He. fold (group_id g) in He. rewrite <- He. apply list_elem_of_In, in_map. by apply list_elem_of_In. }
  exists (((tick w).1, g) :: l), w', tt. simpl. rewrite Hl. split_and!; [done|by rewrite Hw, tick_calls|done|].
  rewrite tx_bind_eq. unfold Sqlite.markAttemptTerminal. cbn [IsPermanent negb]. rewrite Hk. fold (gfp g).
  change (match IsPermanent (Some (EPermanent (ENew "batch terminal"))) with true => true | false => false end) with true.
  cbn. fold (legacy (gkey g)). rewrite tx_bind_eq, clock_quiet. cbv beta iota.
  pose proof (mark_flag d g (tick w).1 Hag) as Hm. change (key_id (gkey g)) with (group_id g).
  destruct (legacy (gkey g)); rewrite exec_quiet; cbn [snd]; rewrite Hm; exact H.
Qed.

#[global] Instance Sqlite_batch : BatchBackend (SqliteBatch.ops (B := B)).
Proof.
  split.
  - apply sqlite_atomic_prepare.
  - apply sqlite_atomic_increment.
  - apply sqlite_atomic_completed.
  - apply sqlite_atomic_terminal.
  - intros c gs os n d w Hgs _ _ Hd1 _. by apply (sqlite_prepare_law c).
  - intros c gs d w Hnd HF Hd. by apply (sqlite_increment_law c).
  - intros c gs d w _ HF. by apply (sqlite_completed_law c).
  - intros c gs d w Hnd HF Hd. by apply (sqlite_terminal_law c).
Qed.
End Refine.
End SqliteBatchRefine.
