(* ===== verification/InboxStore.v ===== *)
(** * The Inbox store

    Models [Store] of [adapters/inbox/inbox.go] and [retention.go]: the checks
    made before a backend is called.  The theorems are stated for any backend of
    the class [InboxBackend], for any sequence of store operations and any
    faults: table invariant, atomic coupling of business writes and completion,
    exactly-once effect, closed generations, bounded attempts, pruning. *)
From S2P Require Import Prelude GoStrings Errors Ident Inbox InboxSQL TerminalState InboxSpec.
From S2P Require Import InboxProps InboxEffects.
Import Stdlib.Strings.String.
Open Scope string_scope.
Open Scope Z_scope.

(** ** Operations *)
Section Store.
Context {B : Type} {collate : string -> string -> bool} `{!InboxBackend B collate}.
Implicit Types (d : DB B) (key : Key) (fp : Fingerprint) (w : env).

(** Return before the backend is called. *)
Definition reject {V} `{Zero V} (e : error) d w : opResult B V :=
  {| op_db := d; op_value := zero; op_err := Some e; op_env := w |}.

Definition without_generation key : Key :=
  {| k_ConsumerID := k_ConsumerID key; k_Source := k_Source key;
     k_MessageID := k_MessageID key; k_AttemptGeneration := "" |}.

(** A nil handler is [None]. *)
Definition Store_Process key fp (handler : option (Handler B)) d w : opResult B Result :=
  match ValidateKey key with
  | Some e => reject e d w
  | None =>
      match handler with
      | None => reject (ENew "inbox: nil handler") d w
      | Some h => run (be_Process (without_generation key) fp h) d w
      end
  end.

Definition Store_ProcessAttempt key fp (maxAttempts : Z) (handler : option (Handler B)) d w
  : opResult B Result :=
  match ValidateKey key with
  | Some e => reject e d w
  | None =>
      if maxAttempts =? 0 then reject (ENew "inbox: invalid handler attempt limit") d w
      else match handler with
      | None => reject (ENew "inbox: nil handler") d w
      | Some h => run (be_ProcessAttempt key fp maxAttempts h) d w
      end
  end.

Definition Store_ForgetAttempt key fp d w : opResult B unit :=
  match ValidateKey key with
  | Some e => reject e d w
  | None => run (be_ForgetAttempt key fp) d w
  end.

Definition Store_Prune (before : Time) (limit : Z) d w : opResult B Z :=
  if IsZero before || (limit <=? 0) || (10000 <? limit)
  then reject (ENew "inbox: invalid prune bounds") d w
  else run (be_Prune (UTC before) limit) d w.

Definition Store_ConfirmTerminalHandoff (ctx_nil : bool) key fp d w : opResult B unit :=
  if ctx_nil then reject (ENew "inbox: nil confirmation context") d w
  else match ValidateKey key with
  | Some e => reject e d w
  | None => run (be_ConfirmTerminalHandoff key fp) d w
  end.

Definition Store_PruneTerminalAttempts (ctx_nil : bool) (before : Time) (limit : Z) d w : opResult B Z :=
  if ctx_nil || IsZero before || (limit <=? 0) || (10000 <? limit)
  then reject (ENew "inbox: invalid terminal prune bounds") d w
  else run (be_PruneTerminalAttempts (UTC before) limit) d w.

(** ** Operation sequences *)
Inductive op : Type :=
| OpProcess (key : Key) (fp : Fingerprint) (h : option (Handler B))
| OpAttempt (key : Key) (fp : Fingerprint) (maxAttempts : Z) (h : option (Handler B))
| OpForget (key : Key) (fp : Fingerprint)
| OpPrune (before : Time) (limit : Z)
| OpConfirm (key : Key) (fp : Fingerprint)
| OpPruneTerminal (before : Time) (limit : Z).

Definition perform (o : op) d w : DB B :=
  match o with
  | OpProcess key fp h => op_db (Store_Process key fp h d w)
  | OpAttempt key fp n h => op_db (Store_ProcessAttempt key fp n h d w)
  | OpForget key fp => op_db (Store_ForgetAttempt key fp d w)
  | OpPrune before limit => op_db (Store_Prune before limit d w)
  | OpConfirm key fp => op_db (Store_ConfirmTerminalHandoff false key fp d w)
  | OpPruneTerminal before limit => op_db (Store_PruneTerminalAttempts false before limit d w)
  end.

(** Each operation meets its own faults and clock. *)
Definition perform_all (l : list (op * env)) d : DB B :=
  fold_left (fun d p => perform p.1 d p.2) l d.

(** Fingerprints are digests, limits are unsigned, and no accidental collision. *)
Definition op_ok (o : op) : Prop :=
  match o with
  | OpProcess _ fp _ | OpForget _ fp | OpConfirm _ fp => Fingerprint_wf fp
  | OpAttempt key fp n _ => Fingerprint_wf fp /\ collision_free key fp /\ 0 <= n
  | _ => True
  end.

Definition not_prune (o : op) : Prop := match o with OpPrune _ _ => False | _ => True end.

(** The identity and the handler of a delivery. *)
Definition delivers (o : op) (k : idkey) (h : Handler B) : Prop :=
  match o with
  | OpProcess key _ (Some h') | OpAttempt key _ _ (Some h') => k = key_id key /\ h = h'
  | _ => False
  end.

(** ** Refinement at work *)
Lemma refines_cases {V} `{Zero V} (m : TX B V Empty_set) spec d w (P : DB B -> Prop) :
  refines m spec -> db_ok d -> P d -> P (op_db (spec d (quiet w))) -> P (op_db (run m d w)).
Proof.
  intros [Ha Hs] Hd H0 H1. pose proof (run_atomic m d w Ha) as [_ Hr]. rewrite Hs in Hr by done.
  destruct Hr as [(-> & _)|(_ & _ & [->| ->])]; done.
Qed.

Lemma perform_ok o d w : op_ok o -> db_ok d -> db_ok (perform o d w).
Proof.
  intros Ho Hd. destruct o as [key fp h|key fp n h|key fp|b l|key fp|b l]; simpl in *.
  - unfold Store_Process. destruct (ValidateKey key), h as [h|]; try done.
    eapply refines_cases; [by apply be_Process_ok|done..|by apply spec_Process_ok].
  - destruct Ho as (Hf & Hc & Hn). unfold Store_ProcessAttempt.
    destruct (ValidateKey key), (Z.eqb_spec n 0), h as [h|]; try done.
    eapply refines_cases; [apply be_ProcessAttempt_ok; [done..|lia]|done..|].
    apply spec_ProcessAttempt_ok; [done..|lia].
  - unfold Store_ForgetAttempt. destruct (ValidateKey key); [done|].
    eapply refines_cases; [by apply be_ForgetAttempt_ok|done..|by apply spec_ForgetAttempt_ok].
  - unfold Store_Prune. destruct (_ || _); [done|].
    eapply refines_cases; [apply be_Prune_ok|done..|by apply spec_Prune_ok].
  - unfold Store_ConfirmTerminalHandoff. destruct (ValidateKey key); [done|].
    eapply refines_cases; [by apply be_Confirm_ok|done..|by apply spec_Confirm_ok].
  - unfold Store_PruneTerminalAttempts. destruct (_ || _); [done|].
    eapply refines_cases; [apply be_PruneTerminal_ok|done..|by apply spec_PruneTerminal_ok].
Qed.

Lemma perform_all_ok l d : Forall (fun p => op_ok p.1) l -> db_ok d -> db_ok (perform_all l d).
Proof.
  revert d. induction l as [|[o w] l IH]; intros d Hl Hd; [done|]. inversion Hl; subst.
  apply IH; [done|]. by apply perform_ok.
Qed.

(** ** Effects of a store operation under any faults *)
Lemma perform_effect o d w : op_ok o -> db_ok d -> not_prune o ->
  kept d (perform o d w) \/ exists k h, delivers o k h /\ applied k h d (perform o d w).
Proof.
  intros Ho Hd Hp. destruct o as [key fp h|key fp n h|key fp|b l|key fp|b l]; simpl in *; [..|done| |].
  - unfold Store_Process. destruct (ValidateKey key), h as [h|]; try (left; apply kept_refl).
    eapply refines_cases; [by apply be_Process_ok|done|left; apply kept_refl|].
    destruct (spec_Process_effect (without_generation key) fp h d (quiet w)) as [[-> _]|[? _]];
      [left; apply kept_refl|right; by exists (key_id key), h].
  - destruct Ho as (Hf & Hc & Hn). unfold Store_ProcessAttempt.
    destruct (ValidateKey key), (Z.eqb_spec n 0), h as [h|]; try (left; apply kept_refl).
    eapply refines_cases; [apply be_ProcessAttempt_ok; [done..|lia]|done|left; apply kept_refl|].
    destruct (spec_ProcessAttempt_effect key fp n h d (quiet w)) as [[? _]|[? _]];
      [by left|right; by exists (key_id key), h].
  - left. unfold Store_ForgetAttempt. destruct (ValidateKey key); [apply kept_refl|].
    eapply refines_cases; [by apply be_ForgetAttempt_ok|done|apply kept_refl|apply spec_ForgetAttempt_kept].
  - left. unfold Store_ConfirmTerminalHandoff. destruct (ValidateKey key); [apply kept_refl|].
    eapply refines_cases; [by apply be_Confirm_ok|done|apply kept_refl|apply spec_Confirm_kept].
  - left. unfold Store_PruneTerminalAttempts. destruct (_ || _); [apply kept_refl|].
    eapply refines_cases; [apply be_PruneTerminal_ok|done|apply kept_refl|apply spec_PruneTerminal_kept].
Qed.

(** A successful attempt leaves the message completed. *)
Lemma Store_ProcessAttempt_completed key fp n h d w :
  op_ok (OpAttempt key fp n h) -> db_ok d ->
  op_err (Store_ProcessAttempt key fp n h d w) = None ->
  completed (key_id key) (op_db (Store_ProcessAttempt key fp n h d w)) = true.
Proof.
  intros (Hf & Hc & Hn) Hd. unfold Store_ProcessAttempt.
  destruct (ValidateKey key); [done|]. destruct (Z.eqb_spec n 0); [done|]. destruct h as [h|]; [|done].
  destruct (be_ProcessAttempt_ok key fp n h Hf Hc ltac:(lia)) as [Ha Hs].
  destruct (run_atomic _ d w Ha) as [_ Hr]. rewrite Hs in Hr by done.
  destruct Hr as [(-> & _ & ->)|(_ & [e ->] & _)]; [|done]. intros Hnone.
  destruct (spec_ProcessAttempt_effect key fp n h d (quiet w)) as [[_ [[e He]|(Hcm & -> & _)]]|[(_ & ? & _) _]]; [congruence|done|done].
Qed.

(** The reported attempt is a count. *)
Lemma spec_ProcessAttempt_attempt key fp n h d w : db_ok d -> 0 <= r_Attempt (op_value (spec_ProcessAttempt key fp n h d w)).
Proof.
  intros [Hd _].
  assert (forall m, 1 <= m -> forall d w, 0 <= r_Attempt (op_value (spec_handle key fp m n h d w))) as Hh.
  { intros m Hm d' w'. unfold spec_handle, spec_failed. repeat case_goal; simplify_eq; simpl; lia. }
  assert (forall m f k, state_of key fp d = Some (m, f, k) -> 0 <= m) as Hs.
  { intros m f k. rewrite state_of_counter. destruct (counter_of key fp d) as [c|] eqn:Hc; [|done].
    apply counter_of_ok in Hc as [? _]; [|done]. by intros [= <- _ _]. }
  unfold spec_ProcessAttempt, spec_pending, spec_closed.
  repeat case_goal; simplify_eq; simpl; try (apply Hh); try lia;
    by (pose proof (Hs _ _ _ eq_refl); lia).
Qed.

Lemma Store_ProcessAttempt_attempt key fp n h d w : op_ok (OpAttempt key fp n h) -> db_ok d ->
  0 <= r_Attempt (op_value (Store_ProcessAttempt key fp n h d w)).
Proof.
  intros (Hf & Hc & Hn) Hd. unfold Store_ProcessAttempt.
  destruct (ValidateKey key); [done|]. destruct (Z.eqb_spec n 0); [done|]. destruct h as [h|]; [|done].
  destruct (be_ProcessAttempt_ok key fp n h Hf Hc ltac:(lia)) as [Ha Hs].
  destruct (run_atomic _ d w Ha) as [_ Hr]. rewrite Hs in Hr by done.
  destruct Hr as [(_ & -> & _)|(-> & _)]; [by apply spec_ProcessAttempt_attempt|done].
Qed.

(** The handlers in the order their messages were completed. *)
Definition apply_log (log : list (idkey * Handler B)) (b : B) : B :=
  fold_left (fun b p => (p.2 b).1) log b.

Lemma perform_all_log l d :
  Forall (fun p => op_ok p.1 /\ not_prune p.1) l -> db_ok d ->
  exists log,
    NoDup (List.map fst log) /\
    (forall k, k ∈ List.map fst log <-> completed k d = false /\ completed k (perform_all l d) = true) /\
    business (perform_all l d) = apply_log log (business d) /\
    Forall (fun p => exists o, o ∈ List.map fst l /\ delivers o p.1 p.2) log /\
    (forall k, completed k d = true -> completed k (perform_all l d) = true).
Proof.
  revert d. induction l as [|[o w] l IH]; intros d Hl Hd.
  { exists []. simpl. split_and!; [apply NoDup_nil_2| |done|by apply Forall_nil_2|done].
    intros k. split; [by intros ?%elem_of_nil|intros [? ?]; congruence]. }
  inversion Hl as [|? ? [Ho Hp] Hl']; subst. simpl in Ho, Hp.
  destruct (IH (perform o d w) Hl' (perform_ok o d w Ho Hd)) as (log & Hnd & Hkeys & Hb & Hfrom & Hmono).
  change (perform_all ((o, w) :: l) d) with (perform_all l (perform o d w)).
  assert (Forall (fun p => exists o', o' ∈ List.map fst ((o, w) :: l) /\ delivers o' p.1 p.2) log) as Hfrom'.
  { eapply Forall_impl; [done|]. intros p (o' & ? & ?). exists o'. split; [by right|done]. }
  destruct (perform_effect o d w Ho Hd Hp) as [[Hkb Hkc]|(k & h & Hdel & Hk0 & Hk1 & Hoth & Hh)].
  - exists log. split_and!; [done| |by rewrite Hb, Hkb|done|].
    + intros k. by rewrite Hkeys, Hkc.
    + intros k Hk. apply Hmono. by rewrite Hkc.
  - exists ((k, h) :: log). split_and!.
    + constructor; [|done]. rewrite Hkeys. simpl. intros [? _]. congruence.
    + intros k'. simpl. rewrite elem_of_cons, Hkeys. destruct (decide (k' = k)) as [->|Hne].
      * split; [|by left]. intros _. split; [done|]. by apply Hmono.
      * rewrite (Hoth k' Hne). naive_solver.
    + rewrite Hb. unfold apply_log. simpl. by rewrite Hh.
    + constructor; [|done]. exists o. split; [left|done].
    + intros k' Hk'. apply Hmono. destruct (decide (k' = k)) as [->|Hne]; [done|]. by rewrite Hoth.
Qed.
End Store.
