(* ===== verification/InboxTheorems.v ===== *)
(** * The Inbox theorems

    The main properties of the Inbox, for every backend of the class
    [InboxBackend] and hence for PostgreSQL and SQLite, under any schedule of
    statement failures, commit failures and lost commit acknowledgements. *)
From S2P Require Import Prelude GoStrings Digest Errors Ident Inbox InboxSQL TerminalState.
From S2P Require Import InboxSpec InboxProps InboxEffects InboxClosed InboxPrune InboxStore.
From S2P Require Import PgBackend SqliteBackend PgRefine SqliteRefine.
Import Stdlib.Strings.String.
Open Scope string_scope.
Open Scope Z_scope.

(** ** The backends refine the specification *)

(** C1. Every operation of the PostgreSQL backend refines the Inbox
    specification: under any faults a run either has exactly the specified
    effect and answer, or reports an error and leaves the database untouched or
    with exactly the specified effect (a lost acknowledgement). *)
Theorem Pg_refines_spec {B} collate key fp n (h : Handler B) before limit :
  Fingerprint_wf fp -> collision_free key fp -> 1 <= n ->
  refines (Pg.Process key fp h) (spec_Process key fp h) /\
  refines (Pg.ProcessAttempt key fp n h) (spec_ProcessAttempt key fp n h) /\
  refines (Pg.ForgetAttempt key fp) (spec_ForgetAttempt (B := B) key fp) /\
  refines (Pg.Prune collate before limit) (spec_Prune (B := B) collate before limit) /\
  refines (Pg.ConfirmTerminalHandoff key fp) (spec_Confirm (B := B) key fp) /\
  refines (Pg.PruneTerminalAttempts collate before limit) (spec_PruneTerminal (B := B) collate before limit).
Proof.
  intros Hf Hc Hn. split_and!; [by apply PgRefine.pg_Process_refines|by apply PgRefine.pg_ProcessAttempt_refines|
    by apply PgRefine.pg_ForgetAttempt_refines|apply PgRefine.pg_Prune_refines|by apply PgRefine.pg_Confirm_refines|
    apply PgRefine.pg_PruneTerminal_refines].
Qed.

(** C4. Every operation of the SQLite backend refines the same specification. *)
Theorem Sqlite_refines_spec {B} collate key fp n (h : Handler B) before limit :
  Fingerprint_wf fp -> collision_free key fp -> 1 <= n ->
  refines (Sqlite.Process key fp h) (spec_Process key fp h) /\
  refines (Sqlite.ProcessAttempt key fp n h) (spec_ProcessAttempt key fp n h) /\
  refines (Sqlite.ForgetAttempt key fp) (spec_ForgetAttempt (B := B) key fp) /\
  refines (Sqlite.Prune collate before limit) (spec_Prune (B := B) collate before limit) /\
  refines (Sqlite.ConfirmTerminalHandoff key fp) (spec_Confirm (B := B) key fp) /\
  refines (Sqlite.PruneTerminalAttempts collate before limit)
    (spec_PruneTerminal (B := B) collate before limit).
Proof.
  intros Hf Hc Hn. split_and!; [by apply SqliteRefine.sqlite_Process_refines|
    by apply SqliteRefine.sqlite_ProcessAttempt_refines|by apply SqliteRefine.sqlite_ForgetAttempt_refines|
    apply SqliteRefine.sqlite_Prune_refines|by apply SqliteRefine.sqlite_Confirm_refines|
    apply SqliteRefine.sqlite_PruneTerminal_refines].
Qed.

(** The two backends cannot be told apart by an undisturbed delivery: from
    the same well-formed tables they give the same answer, the same tables and
    the same number of handler calls. *)
Theorem backends_agree {B} key fp n (h : Handler B) d w :
  Fingerprint_wf fp -> collision_free key fp -> 1 <= n -> db_ok d ->
  run (Pg.ProcessAttempt key fp n h) d (quiet w) = run (Sqlite.ProcessAttempt key fp n h) d (quiet w) /\
  run (Pg.Process key fp h) d (quiet w) = run (Sqlite.Process key fp h) d (quiet w) /\
  run (Pg.ForgetAttempt key fp) d (quiet w) = run (Sqlite.ForgetAttempt key fp) d (quiet w).
Proof.
  intros Hf Hc Hn Hd.
  destruct (PgRefine.pg_ProcessAttempt_refines key fp n h Hf Hc Hn) as [_ ->]; [|done].
  destruct (SqliteRefine.sqlite_ProcessAttempt_refines key fp n h Hf Hc Hn) as [_ ->]; [|done].
  destruct (PgRefine.pg_Process_refines key fp h Hf) as [_ ->]; [|done].
  destruct (SqliteRefine.sqlite_Process_refines key fp h Hf) as [_ ->]; [|done].
  destruct (PgRefine.pg_ForgetAttempt_refines (B := B) key fp Hf) as [_ ->]; [|done].
  destruct (SqliteRefine.sqlite_ForgetAttempt_refines (B := B) key fp Hf) as [_ ->]; done.
Qed.

(** ** The store *)
Section Theorems.
Context {B : Type} {collate : string -> string -> bool} `{!InboxBackend B collate}.
Implicit Types (d : DB B) (key : Key) (fp : Fingerprint) (w : env).

Definition empty_db (b : B) : DB B :=
  {| inbox := ∅; attempts := ∅; generations := ∅; terminal := ∅; business := b |}.

Lemma empty_db_ok b : db_ok (empty_db b).
Proof. split; [split|]; intros; by rewrite ?lookup_empty in *. Qed.

(** C6. From freshly migrated tables, any sequence of the store's single-message and
    maintenance operations ([op]) under any faults keeps the table invariant: every counter and terminal row
    belongs to an identity, the legacy counter has the identity's
    fingerprint, counters are not negative, a permanently failed counter is
    positive, a terminal row satisfies its CHECK constraints and has a
    consumed attempt behind it, and no incomplete identity is left without a
    counter. *)
Theorem inbox_invariant (l : list (op * env)) b :
  Forall (fun p => op_ok p.1) l -> db_ok (perform_all l (empty_db b)).
Proof. intros Hl. by apply perform_all_ok, empty_db_ok. Qed.

(** C2. Exactly-once effect: over any sequence of the store's single-message and
    maintenance operations ([op]; batches are treated in [InboxBatchTheorems]) without
    [Prune], under any faults, the business state is the result of running,
    one after the other, the successful handlers of the messages completed
    meanwhile, each message exactly once and each handler one that was
    delivered for that message; completed messages stay completed. *)
Theorem exactly_once (l : list (op * env)) d :
  Forall (fun p => op_ok p.1 /\ not_prune p.1) l -> db_ok d ->
  exists log,
    NoDup (List.map fst log) /\
    (forall k, k ∈ List.map fst log <->
       completed k d = false /\ completed k (perform_all l d) = true) /\
    business (perform_all l d) = apply_log log (business d) /\
    Forall (fun p => exists o, o ∈ List.map fst l /\ delivers o p.1 p.2) log /\
    (forall k, completed k d = true -> completed k (perform_all l d) = true).
Proof. apply perform_all_log. Qed.

(** ** One delivery *)
Lemma spec_handle_calls key fp n maxAttempts h d w :
  e_handlerCalls (op_env (spec_handle key fp n maxAttempts h d w)) = S (e_handlerCalls w).
Proof.
  unfold spec_handle. destruct (h (business d)) as [b [e|]]; [by rewrite spec_failed_calls|].
  pose proof (tick_calls (called w)) as H1. destruct (tick (called w)) as [t1 w1].
  pose proof (tick_calls w1) as H2. destruct (tick w1) as [t2 w2]. simpl in *. congruence.
Qed.

Lemma spec_ProcessAttempt_calls key fp maxAttempts h d w :
  (e_handlerCalls (op_env (spec_ProcessAttempt key fp maxAttempts h d w)) <= S (e_handlerCalls w))%nat.
Proof.
  unfold spec_ProcessAttempt. pose proof (tick_calls w) as Hw. destruct (tick w) as [t w1]. simpl in Hw.
  assert (forall n d', e_handlerCalls (op_env (spec_handle key fp n maxAttempts h d' w1))
    = S (e_handlerCalls w)) as Hh by (intros; rewrite spec_handle_calls; congruence).
  destruct (inbox d !! key_id key) as [i|]; [|by rewrite Hh].
  destruct (negb _); [simpl; lia|]. destruct (i_completed_at i); [simpl; lia|].
  unfold spec_pending. destruct (state_of key fp d) as [[[n flag] kind]|]; [|by rewrite Hh].
  assert (forall p, e_handlerCalls (op_env (spec_closed key fp n p d w1)) = e_handlerCalls w) as Hc.
  { intros p. unfold spec_closed. pose proof (tick_calls w1). destruct (tick w1). simpl in *. congruence. }
  destruct (flag || _); [rewrite Hc; lia|]. destruct ((maxAttempts <=? n) || _); [rewrite Hc; lia|].
  by rewrite Hh.
Qed.

(** Atomic coupling of one bounded attempt under any faults: the handler
    is called at most once; afterwards either nothing a business observer can
    see has changed, or the handler succeeded and its writes and the
    completion of exactly this message became visible together.  A nil error
    means the second, or a duplicate of a completed message with the database
    untouched. *)
Theorem ProcessAttempt_atomic key fp n (h : Handler B) d w :
  op_ok (OpAttempt key fp n (Some h)) -> db_ok d ->
  let r := Store_ProcessAttempt key fp n (Some h) d w in
  (e_handlerCalls (op_env r) <= S (e_handlerCalls w))%nat /\
  (kept d (op_db r) \/ applied (key_id key) h d (op_db r)) /\
  (op_err r = None ->
     (completed (key_id key) d = true /\ op_db r = d /\ r_Duplicate (op_value r) = true) \/
     (applied (key_id key) h d (op_db r) /\ r_Duplicate (op_value r) = false)).
Proof.
  intros (Hf & Hcf & Hn) Hd r. unfold r, Store_ProcessAttempt.
  destruct (ValidateKey key); [split_and!; [simpl; lia|left; apply kept_refl|done]|].
  destruct (Z.eqb_spec n 0); [split_and!; [simpl; lia|left; apply kept_refl|done]|].
  destruct (be_ProcessAttempt_ok key fp n h Hf Hcf ltac:(lia)) as [Ha Hs].
  destruct (run_atomic _ d w Ha) as [Hcalls Hr]. rewrite Hs in Hcalls, Hr by done.
  pose proof (spec_ProcessAttempt_calls key fp n h d (quiet w)) as Hc. simpl in Hc.
  destruct (spec_ProcessAttempt_effect key fp n h d (quiet w)) as [[Hk He]|(Hap & Hnone & Hdup)];
    (split; [lia|]).
  - destruct Hr as [(-> & -> & ->)|(_ & [e ->] & Hdb)].
    + split; [by left|]. intros Hnone. left. destruct He as [[e He]|(? & ? & ?)]; [congruence|done].
    + split; [left|done]. destruct Hdb as [->| ->]; [apply kept_refl|done].
  - destruct Hr as [(-> & -> & ->)|(_ & [e ->] & Hdb)]; [auto|].
    split; [|done]. destruct Hdb as [->| ->]; [left; apply kept_refl|by right].
Qed.

(** C32. Identity reuse with different content is refused: whatever the faults,
    neither processing variant changes the database or calls the handler, and
    an undisturbed call reports the fingerprint conflict. *)
Theorem fingerprint_conflict key fp n (h : Handler B) d w i :
  op_ok (OpAttempt key fp n (Some h)) -> 1 <= n -> db_ok d -> ValidateKey key = None ->
  inbox d !! key_id key = Some i -> i_fingerprint i <> fp ->
  let r1 := Store_ProcessAttempt key fp n (Some h) d w in
  let r2 := Store_Process key fp (Some h) d w in
  op_db r1 = d /\ op_db r2 = d /\ is_Some (op_err r1) /\ is_Some (op_err r2) /\
  e_handlerCalls (op_env r1) = e_handlerCalls w /\ e_handlerCalls (op_env r2) = e_handlerCalls w /\
  (w = quiet w -> op_err r1 = Some (ESentinel ErrFingerprintConflict) /\
                  op_err r2 = Some (ESentinel ErrFingerprintConflict)).
Proof.
  intros (Hf & Hcf & _) Hn Hd Hv Hi Hne r1 r2. unfold r1, r2, Store_ProcessAttempt, Store_Process.
  rewrite Hv, (proj2 (Z.eqb_neq n 0)) by lia.
  destruct (be_ProcessAttempt_ok key fp n h Hf Hcf Hn) as [Ha1 Hs1].
  destruct (be_Process_ok (without_generation key) fp h Hf) as [Ha2 Hs2].
  apply String.eqb_neq in Hne.
  assert (exists w', spec_ProcessAttempt key fp n h d (quiet w)
    = outcome_of d Result0 (Some (ESentinel ErrFingerprintConflict)) w' /\
    e_handlerCalls w' = e_handlerCalls w /\
    spec_Process (without_generation key) fp h d (quiet w)
    = outcome_of d Result0 (Some (ESentinel ErrFingerprintConflict)) w') as (w' & E1 & Hw' & E2).
  { exists (tick (quiet w)).2. rewrite tick_calls. unfold spec_ProcessAttempt, spec_Process.
    destruct (tick (quiet w)) as [t w1].
    change (key_id (without_generation key)) with (key_id key). by rewrite Hi, Hne. }
  destruct (run_atomic _ d w Ha1) as [Hc1 Hr1]. rewrite Hs1, E1 in Hc1, Hr1 by done. simpl in Hc1, Hr1.
  destruct (run_atomic _ d w Ha2) as [Hc2 Hr2]. rewrite Hs2, E2 in Hc2, Hr2 by done. simpl in Hc2, Hr2.
  split_and!; [by intuition|by intuition| | |lia|lia|].
  - destruct Hr1 as [(_ & _ & ->)|(_ & ? & _)]; [by eauto|done].
  - destruct Hr2 as [(_ & _ & ->)|(_ & ? & _)]; [by eauto|done].
  - intros ->. by rewrite Hs1, Hs2, E1, E2 by done.
Qed.

(** ** Closed generations *)

(** Operations that only an operator asks for. *)
Definition ordinary_op (o : op (B := B)) : Prop :=
  match o with OpForget _ _ | OpPrune _ _ | OpPruneTerminal _ _ => False | _ => True end.

Lemma perform_persist o d w : op_ok o -> ordinary_op o -> db_ok d -> persist d (perform o d w).
Proof.
  intros Ho Hp Hd. destruct o as [key fp h|key fp n h|key fp|b l|key fp|b l]; simpl in *; try done.
  - unfold Store_Process. destruct (ValidateKey key), h as [h|]; try reflexivity.
    eapply refines_cases; [by apply be_Process_ok|done|reflexivity|apply spec_Process_persist].
  - destruct Ho as (Hf & Hc & Hn). unfold Store_ProcessAttempt.
    destruct (ValidateKey key), (Z.eqb_spec n 0), h as [h|]; try reflexivity.
    eapply refines_cases; [apply be_ProcessAttempt_ok; [done..|lia]|done|reflexivity|].
    by apply spec_ProcessAttempt_persist.
  - unfold Store_ConfirmTerminalHandoff. destruct (ValidateKey key); [reflexivity|].
    eapply refines_cases; [by apply be_Confirm_ok|done|reflexivity|apply spec_Confirm_persist].
Qed.

Lemma perform_all_persist l d :
  Forall (fun p => op_ok p.1 /\ ordinary_op p.1) l -> db_ok d -> persist d (perform_all l d).
Proof.
  revert d. induction l as [|[o w] l IH]; intros d Hl Hd; [reflexivity|].
  inversion Hl as [|? ? [Ho Hp] Hl']; subst. etrans; [by apply (perform_persist o d w)|].
  apply IH; [done|]. by apply perform_ok.
Qed.

(** C7. A closed generation stays closed: once a generation is permanently
    failed or exhausted, no sequence of single deliveries and confirmations for
    any messages reopens it, and a further attempt of it never calls the handler
    and changes nothing a business observer sees, whatever the attempt limit
    is raised to and whatever faults occur. *)
Theorem closed_forever (l : list (op * env)) key fp n (h : Handler B) d w :
  Forall (fun p => op_ok p.1 /\ ordinary_op p.1) l -> db_ok d ->
  op_ok (OpAttempt key fp n (Some h)) -> closed key fp d = true ->
  let d' := perform_all l d in
  let r := Store_ProcessAttempt key fp n (Some h) d' w in
  closed key fp d' = true /\ e_handlerCalls (op_env r) = e_handlerCalls w /\ kept d' (op_db r) /\
  (completed (key_id key) d' = false -> is_Some (op_err r)).
Proof.
  intros Hl Hd (Hf & Hcf & Hn) Hcl d' r.
  assert (db_ok d') as Hd'.
  { apply perform_all_ok; [|done]. eapply Forall_impl; [done|]. by intros ? []. }
  assert (closed key fp d' = true) as Hcl'.
  { eapply closed_persist; [apply Hd|by apply perform_all_persist|done]. }
  split; [done|]. unfold r, Store_ProcessAttempt.
  destruct (ValidateKey key); [simpl; split_and!; [done|apply kept_refl|by eauto]|].
  destruct (Z.eqb_spec n 0); [simpl; split_and!; [done|apply kept_refl|by eauto]|].
  destruct (be_ProcessAttempt_ok key fp n h Hf Hcf ltac:(lia)) as [Ha Hs].
  destruct (run_atomic _ d' w Ha) as [Hc Hr]. rewrite Hs in Hc, Hr by done.
  destruct (spec_closed_no_call key fp n h d' (quiet w) Hd' Hcl') as (Hcalls & Hk & He).
  rewrite Hcalls in Hc. simpl in Hc. split; [lia|].
  destruct Hr as [(-> & _ & ->)|(_ & [e ->] & Hdb)]; [done|].
  split; [|by eauto]. destruct Hdb as [->| ->]; [apply kept_refl|done].
Qed.

(** ** Poison messages *)

(** [m] undisturbed deliveries of the same message, one after the other. *)
Fixpoint deliver (m : nat) key fp n (h : Handler B) d w : opResult B Result :=
  match m with
  | O => {| op_db := d; op_value := Result0; op_err := None; op_env := w |}
  | S m' =>
      let r := deliver m' key fp n h d w in
      Store_ProcessAttempt key fp n (Some h) (op_db r) (quiet (op_env r))
  end.

(** C9. A message that is new to the Inbox and whose handler always fails with an
    ordinary error is tried exactly [maxAttempts] times by undisturbed deliveries,
    that is, without statement or commit faults: after [m] of them the handler ran
    [min m maxAttempts] times, its business writes never became visible, and the
    counter says so.  The delivery that reaches the limit still ran the handler and
    leaves the terminal row for the dead letter; every delivery after it is answered
    with the exhausted error and the attempt number [maxAttempts]. *)
Theorem poison_bounded (m : nat) key fp n (h : Handler B) d w :
  op_ok (OpAttempt key fp n (Some h)) -> 1 <= n -> ValidateKey key = None -> db_ok d ->
  inbox d !! key_id key = None ->
  (forall b, exists b' e, h b = (b', Some e) /\ ordinary e) ->
  let r := deliver m key fp n h d w in
  let count := Z.min (Z.of_nat m) n in
  e_handlerCalls (op_env r) = (e_handlerCalls w + Z.to_nat count)%nat /\
  business (op_db r) = business d /\
  ((0 < m)%nat -> failing key fp n count (op_db r)) /\
  (n < Z.of_nat m -> op_err r = Some (ESentinel ErrAttemptsExhausted) /\
                     r_Attempt (op_value r) = n).
Proof.
  intros (Hf & Hcf & _) Hn Hv Hd Hi Hh.
  destruct (be_ProcessAttempt_ok key fp n h Hf Hcf Hn) as [_ Hs].
  assert (forall d1 w1, Store_ProcessAttempt key fp n (Some h) d1 w1
    = run (be_ProcessAttempt key fp n h) d1 w1) as Hstore.
  { intros. unfold Store_ProcessAttempt. by rewrite Hv, (proj2 (Z.eqb_neq n 0)) by lia. }
  induction m as [|m IH]; cbn [deliver].
  { simpl. split_and!; [lia|done|lia|lia]. }
  rewrite Hstore. set (r := deliver m key fp n h d w) in *. cbv zeta in IH.
  destruct IH as (IHc & IHb & IHf & _). destruct m as [|m].
  - subst r. cbn [deliver op_db op_env] in *. rewrite Hs by done.
    destruct (Hh (business d)) as (b' & e & He & Hord).
    destruct (first_failure key fp n h e b' d (quiet w) Hd Hf Hcf Hord Hi He) as (F1 & F2 & F3).
    replace (Z.min (Z.of_nat 1) n) with 1 by lia. split_and!; [|done|done|lia].
    rewrite F3. simpl. lia.
  - specialize (IHf ltac:(lia)). rewrite Hs by apply IHf.
    destruct (Z.ltb_spec (Z.of_nat (S m)) n) as [Hlt|Hge].
    + replace (Z.min (Z.of_nat (S m)) n) with (Z.of_nat (S m)) in * by lia.
      replace (Z.min (Z.of_nat (S (S m))) n) with (Z.of_nat (S m) + 1) by lia.
      destruct (Hh (business (op_db r))) as (b' & e & He & Hord).
      destruct (next_failure key fp n _ h e b' _ (quiet (op_env r)) IHf Hlt Hcf Hord He) as (F1 & F2 & F3).
      split_and!; [|congruence|done|lia]. rewrite F3. simpl. lia.
    + replace (Z.min (Z.of_nat (S m)) n) with n in * by lia.
      replace (Z.min (Z.of_nat (S (S m))) n) with n by lia.
      destruct (exhausted_again key fp n n h _ (quiet (op_env r)) IHf ltac:(lia) Hn)
        as (F1 & F2 & F3 & F4 & F5).
      split_and!; [|congruence|done|by rewrite F3, F4]. rewrite F5. simpl. lia.
Qed.

(** ** Retention *)

(** Pruning completed messages, under any faults: the removed identities
    number at most [limit], all of them completed before the cutoff, oldest
    first; everything recorded for every other identity and the business
    tables are untouched. *)
Theorem Prune_bounded before limit d w :
  db_ok d -> (forall a b, collate a b = true \/ collate b a = true) ->
  exists removed, op_db (Store_Prune before limit d w) = remove_identities removed d /\
    NoDup removed /\ Z.of_nat (List.length removed) <= Z.max 0 limit /\
    forall k, k ∈ removed -> exists i t,
      inbox d !! k = Some i /\ i_completed_at i = Some t /\ t < before /\
      forall k' i' t', k' ∉ removed -> inbox d !! k' = Some i' ->
        i_completed_at i' = Some t' -> t <= t'.
Proof.
  intros Hd Htot. assert (remove_identities [] d = d) as Hnil.
  { destruct d. unfold remove_identities. simpl.
    f_equal; apply map_filter_id; intros; apply not_elem_of_nil. }
  unfold Store_Prune. destruct (_ || _) eqn:Hb.
  { exists []. rewrite Hnil. split_and!; [done|apply NoDup_nil_2|simpl; lia|set_solver]. }
  bool_simpl. unfold UTC.
  eapply (refines_cases (be_Prune before limit) (spec_Prune collate before limit)); [apply be_Prune_ok|done| |].
  { exists []. rewrite Hnil. split_and!; [done|apply NoDup_nil_2|simpl; lia|set_solver]. }
  exists (doomed collate before limit d). split; [done|].
  destruct (doomed_bounds collate before limit d ltac:(lia)) as (Hnd & Hlen & Hin).
  split_and!; [done|lia|]. intros k Hk. destruct (Hin k Hk) as (i & t & Hi & Ht & Hlt).
  exists i, t. split_and!; [done..|]. intros k' i' t' Hk' Hi' Ht'.
  destruct (Z.ltb_spec t' before); [|lia].
  pose proof (doomed_oldest collate before limit d k k' i i' Htot Hk Hk' Hi Hi') as Ho.
  unfold completed_before, completed_time in Ho. rewrite Ht, Ht' in Ho. simpl in Ho.
  apply Ho. by apply Z.ltb_lt.
Qed.

(** Pruning terminal generations, under any faults: at most [limit] are
    removed, each with a handoff confirmed before the cutoff and an
    incomplete identity; every other terminal row and generation counter is
    kept unchanged, as is everything a business observer sees, and the
    invariant holds, so no orphan row is left. *)
Theorem PruneTerminal_confirmed_only before limit d w :
  db_ok d ->
  let d' := op_db (Store_PruneTerminalAttempts false before limit d w) in
  db_ok d' /\ kept d d' /\
  exists removed, NoDup removed /\ Z.of_nat (List.length removed) <= Z.max 0 limit /\
    Forall (removable before d) removed /\
    terminal d' = filter (fun p => p.1 ∉ removed) (terminal d) /\
    generations d' = filter (fun p => p.1 ∉ removed) (generations d).
Proof.
  intros Hd d'. split; [by apply (perform_ok (OpPruneTerminal before limit))|].
  assert (kept d d /\ exists removed : list (idkey * Fingerprint), NoDup removed /\
    Z.of_nat (List.length removed) <= Z.max 0 limit /\ Forall (removable before d) removed /\
    terminal d = filter (fun p => p.1 ∉ removed) (terminal d) /\
    generations d = filter (fun p => p.1 ∉ removed) (generations d)) as Hsame.
  { split; [apply kept_refl|]. exists []. split_and!; [apply NoDup_nil_2|simpl; lia|by apply Forall_nil_2|..];
      symmetry; apply map_filter_id; intros; apply not_elem_of_nil. }
  unfold d', Store_PruneTerminalAttempts. destruct (_ || _) eqn:Hb; [done|]. bool_simpl. unfold UTC.
  eapply (refines_cases (be_PruneTerminalAttempts before limit) (spec_PruneTerminal collate before limit));
    [apply be_PruneTerminal_ok|done|done|].
  split; [apply spec_PruneTerminal_kept|]. unfold spec_PruneTerminal.
  destruct (NoDup_candidates collate before limit d) as [Hnd Hlen].
  destruct (spec_prune_all_removed before (sql_candidates collate before limit d) 0 d Hnd)
    as (removed & Hnr & Hsub & HF & _ & Ht & Hg).
  destruct (spec_prune_all _ _ _ _) as [d1 n1]. exists removed. simpl in *. split_and!; try done.
  apply submseteq_length in Hsub. lia.
Qed.

(** The handoff protocol of a dead-lettered generation, undisturbed:
    observing it again in a delivery keeps its reason, count and closing time
    but withdraws every earlier confirmation, so retention cannot remove it;
    confirming it afterwards at time [t] makes it removable for exactly the
    cutoffs after [t]. *)
Theorem handoff_protocol key fp n (h : Handler B) d w i before :
  op_ok (OpAttempt key fp n (Some h)) -> 1 <= n -> ValidateKey key = None -> db_ok d ->
  closed key fp d = true -> inbox d !! key_id key = Some i -> i_fingerprint i = fp ->
  i_completed_at i = None ->
  let g := (key_id key, AttemptFingerprint key fp) in
  let r := Store_ProcessAttempt key fp n (Some h) d (quiet w) in
  let c := Store_ConfirmTerminalHandoff false key fp (op_db r) (quiet w) in
  ~ removable before (op_db r) g /\
  (forall old, terminal d !! g = Some old ->
     terminal (op_db r) !! g = Some (reset_handoff old)) /\
  op_err c = None /\ (removable before (op_db c) g <-> (tick w).1 < before).
Proof.
  intros (Hf & Hcf & _) Hn Hv Hd Hcl Hi Hfp Hcm g r c.
  assert (exists row, t_handoff_confirmed_at row = None /\
    op_db r = set_terminal (<[g := row]> (terminal d)) d /\
    (forall old, terminal d !! g = Some old -> row = reset_handoff old)) as (row & Hrow & Hr & Hold).
  { unfold r, Store_ProcessAttempt. rewrite Hv, (proj2 (Z.eqb_neq n 0)) by lia.
    destruct (be_ProcessAttempt_ok key fp n h Hf Hcf Hn) as [_ ->]; [|done].
    assert (exists m p w', spec_ProcessAttempt key fp n h d (quiet w) = spec_closed key fp m p d w')
      as (m & p & w' & ->).
    { unfold spec_ProcessAttempt. destruct (tick (quiet w)) as [t w1].
      rewrite Hi, Hfp, String.eqb_refl, Hcm. simpl. unfold spec_pending, closed in *.
      destruct (state_of key fp d) as [[[m flag] kind]|] eqn:Hs; [|done].
      destruct (flag || String.eqb kind FailurePermanentKind) eqn:Hp; [by eauto|].
      destruct ((n <=? m) || String.eqb kind FailureAttemptsExhausted) eqn:Hx; [by eauto|].
      exfalso. bool_simpl. rewrite String.eqb_neq in *.
      destruct (state_kind _ _ _ _ _ _ (proj1 Hd) Hs) as [->|[->| ->]]; try done. by subst flag. }
    unfold spec_closed. destruct (tick w') as [t w2]. eexists. split; [|split; [reflexivity|]].
    - by destruct (terminal d !! _).
    - intros old Ho. fold g. by rewrite Ho. }
  assert (Hc : c = outcome_of (set_terminal (<[g := confirm_row (tick w).1 row]> (terminal (op_db r)))
    (op_db r)) tt None (quiet (tick w).2)).
  { unfold c, Store_ConfirmTerminalHandoff. rewrite Hv.
    destruct (be_Confirm_ok key fp Hf) as [_ ->].
    - unfold spec_Confirm. rewrite tick_quiet, Hr. cbn [inbox terminal set_terminal].
      rewrite Hi, Hfp, String.eqb_refl. simpl. fold g. by rewrite lookup_insert_eq.
    - apply (perform_ok (OpAttempt key fp n (Some h)) d (quiet w)); [split_and!; [done..|lia]|done]. }
  split_and!.
  - intros (r0 & t & i0 & Hr0 & Ht & _). rewrite Hr in Hr0. simpl in Hr0.
    rewrite lookup_insert_eq in Hr0. congruence.
  - intros old Ho. rewrite Hr. simpl. by rewrite lookup_insert_eq, (Hold old Ho).
  - by rewrite Hc.
  - rewrite Hc, Hr. unfold removable. simpl. rewrite lookup_insert_eq. split.
    + intros (r0 & t & i0 & ? & Ht & ? & _). simplify_eq. simpl in Ht. rewrite Hrow in Ht. by simplify_eq.
    + intros Hlt. eexists _, _, i. split_and!; [done|simpl; by rewrite Hrow|done|done|done].
Qed.
End Theorems.

(** ** Concrete instances *)
Section Witnesses.
Definition key0 : Key :=
  {| k_ConsumerID := "billing"; k_Source := "shop"; k_MessageID := "0123456789abcdef";
     k_AttemptGeneration := "" |}.
Definition fp0 : Fingerprint := Sha256.Sum256 "envelope".
Definition h_ok : Handler (list string) := fun b => (("charged" :: b)%list, None).
Definition h_bad : Handler (list string) := fun b => (("partial" :: b)%list, Some (ENew "boom")).
Definition env0 : env := {| e_faults := []; e_times := [10; 20; 30; 40; 50; 60]; e_handlerCalls := 0 |}.
Definition db0 : DB (list string) := empty_db [].
#[local] Instance store0 : InboxBackend (list string) String.leb := PgRefine.Pg_backend _ _.

Lemma fp0_wf : Fingerprint_wf fp0.
Proof. apply Sha256.length_Sum256. Qed.
Lemma key0_free : collision_free key0 fp0.
Proof. intros Hl. discriminate Hl. Qed.
Lemma op0_ok n (h : Handler (list string)) : 0 <= n -> op_ok (OpAttempt key0 fp0 n (Some h)).
Proof. intros Hn. split_and!; [apply fp0_wf|apply key0_free|done]. Qed.

Lemma Pg_refines_spec_witness :
  run (Pg.ProcessAttempt key0 fp0 3 h_ok) db0 (quiet env0)
  = spec_ProcessAttempt key0 fp0 3 h_ok db0 (quiet env0).
Proof.
  destruct (Pg_refines_spec String.leb key0 fp0 3 h_ok 5 10 fp0_wf key0_free ltac:(lia))
    as (_ & [_ Hs] & _).
  apply Hs, empty_db_ok.
Defined.

Lemma Sqlite_refines_spec_witness :
  run (Sqlite.ProcessAttempt key0 fp0 3 h_bad) db0 (quiet env0)
  = spec_ProcessAttempt key0 fp0 3 h_bad db0 (quiet env0).
Proof.
  destruct (Sqlite_refines_spec String.leb key0 fp0 3 h_bad 5 10 fp0_wf key0_free ltac:(lia))
    as (_ & [_ Hs] & _).
  apply Hs, empty_db_ok.
Defined.

Lemma backends_agree_witness :
  run (Pg.ProcessAttempt key0 fp0 3 h_ok) db0 (quiet env0)
  = run (Sqlite.ProcessAttempt key0 fp0 3 h_ok) db0 (quiet env0).
Proof.
  apply (backends_agree key0 fp0 3 h_ok db0 env0 fp0_wf key0_free); [lia|apply empty_db_ok].
Defined.

(** A failed delivery, a lost acknowledgement, and a redelivery. *)
Definition lost : env :=
  {| e_faults := [FOk; FOk; FOk; FOk; FOk; FOk; FLost (ENew "connection reset")];
     e_times := [70; 80; 90]; e_handlerCalls := 0 |}.
Definition trace0 : list (op * env) :=
  [(OpAttempt key0 fp0 3 (Some h_bad), env0); (OpAttempt key0 fp0 3 (Some h_ok), lost);
   (OpAttempt key0 fp0 3 (Some h_ok), env0)].

Lemma trace0_ok : Forall (fun p => op_ok p.1 /\ not_prune p.1) trace0.
Proof. repeat (constructor; [split; [apply op0_ok; lia|exact I]|]). by apply Forall_nil_2. Qed.

Lemma inbox_invariant_witness : db_ok (perform_all trace0 db0).
Proof.
  apply (inbox_invariant trace0 []). eapply Forall_impl; [apply trace0_ok|]. by intros ? [].
Defined.

Lemma exactly_once_witness :
  business (perform_all trace0 db0) = ["charged"] /\
  exists log, NoDup (List.map fst log) /\
    business (perform_all trace0 db0) = apply_log log (business db0).
Proof.
  split; [vm_compute; reflexivity|].
  destruct (exactly_once trace0 db0 trace0_ok (empty_db_ok [])) as (log & Hn & _ & Hb & _).
  exists log. split; [exact Hn|exact Hb].
Defined.

Lemma ProcessAttempt_atomic_witness :
  let r := Store_ProcessAttempt key0 fp0 3 (Some h_ok) db0 env0 in
  op_err r = None /\
  ((completed (key_id key0) db0 = true /\ op_db r = db0 /\ r_Duplicate (op_value r) = true) \/
   (applied (key_id key0) h_ok db0 (op_db r) /\ r_Duplicate (op_value r) = false)).
Proof.
  assert (op_err (Store_ProcessAttempt key0 fp0 3 (Some h_ok) db0 env0) = None) as He
    by (vm_compute; reflexivity).
  split; [exact He|].
  destruct (ProcessAttempt_atomic key0 fp0 3 h_ok db0 env0 (op0_ok 3 h_ok ltac:(lia)) (empty_db_ok []))
    as (_ & _ & Ha).
  exact (Ha He).
Defined.

(** The tables after three failed deliveries: the generation is closed. *)
Definition db3 : DB (list string) :=
  perform_all (List.repeat (OpAttempt key0 fp0 3 (Some h_bad), env0) 3) db0.
Lemma db3_ok : db_ok db3.
Proof.
  apply perform_all_ok; [|apply empty_db_ok].
  repeat (constructor; [apply op0_ok; lia|]). by apply Forall_nil_2.
Qed.

Lemma db3_row : exists i, inbox db3 !! key_id key0 = Some i /\
  String.eqb (i_fingerprint i) fp0 = true /\
  String.eqb (i_fingerprint i) (Sha256.Sum256 "other") = false /\ i_completed_at i = None.
Proof. eexists. split; [vm_compute; reflexivity|]. split_and!; vm_compute; reflexivity. Qed.
Lemma db3_closed : closed key0 fp0 db3 = true.
Proof. vm_compute; reflexivity. Qed.
Lemma key0_valid : ValidateKey key0 = None.
Proof. vm_compute; reflexivity. Qed.

Lemma fingerprint_conflict_witness :
  op_db (Store_ProcessAttempt key0 (Sha256.Sum256 "other") 3 (Some h_ok) db3 env0) = db3.
Proof.
  destruct db3_row as (i & Hi & _ & Hne & _). apply String.eqb_neq in Hne.
  assert (op_ok (OpAttempt key0 (Sha256.Sum256 "other") 3 (Some h_ok))) as Hok
    by (split_and!; [apply Sha256.length_Sum256|intros Hl; discriminate Hl|lia]).
  destruct (fingerprint_conflict key0 (Sha256.Sum256 "other") 3 h_ok db3 env0 i Hok ltac:(lia)
    db3_ok key0_valid Hi Hne) as [Hr _].
  exact Hr.
Defined.

Lemma closed_forever_witness :
  closed key0 fp0 db3 = true /\
  e_handlerCalls (op_env (Store_ProcessAttempt key0 fp0 100 (Some h_ok) (perform_all [] db3) env0)) = 0%nat.
Proof.
  split; [apply db3_closed|].
  destruct (closed_forever [] key0 fp0 100 h_ok db3 env0 (proj2 (Forall_nil _) I) db3_ok
    (op0_ok 100 h_ok ltac:(lia)) db3_closed) as (_ & Hc & _).
  exact Hc.
Defined.

Lemma poison_bounded_witness :
  e_handlerCalls (op_env (deliver 5 key0 fp0 3 h_bad db0 env0)) = 3%nat /\
  op_err (deliver 5 key0 fp0 3 h_bad db0 env0) = Some (ESentinel ErrAttemptsExhausted).
Proof.
  assert (forall b, exists b' e, h_bad b = (b', Some e) /\ ordinary e) as Hh.
  { intros b. exists ("partial" :: b)%list, (ENew "boom"). split; [reflexivity|by split]. }
  destruct (poison_bounded 5 key0 fp0 3 h_bad db0 env0 (op0_ok 3 h_bad ltac:(lia)) ltac:(lia)
    key0_valid (empty_db_ok []) (lookup_empty _) Hh) as (Hc & _ & _ & He).
  split; [exact Hc|]. apply He. lia.
Defined.

Lemma leb_total a b : String.leb a b = true \/ String.leb b a = true.
Proof. apply String.leb_total. Qed.

Lemma Prune_bounded_witness :
  exists removed, op_db (Store_Prune 1000 10 (perform_all trace0 db0) env0)
    = remove_identities removed (perform_all trace0 db0).
Proof.
  destruct (Prune_bounded 1000 10 (perform_all trace0 db0) env0) as (removed & Hr & _).
  - apply perform_all_ok; [|apply empty_db_ok]. eapply Forall_impl; [apply trace0_ok|]. by intros ? [].
  - apply leb_total.
  - exists removed. exact Hr.
Defined.

Lemma PruneTerminal_confirmed_only_witness :
  db_ok (op_db (Store_PruneTerminalAttempts false 1000 10 db3 env0)).
Proof. apply (PruneTerminal_confirmed_only 1000 10 db3 env0), db3_ok. Defined.

Lemma handoff_protocol_witness :
  let r := Store_ProcessAttempt key0 fp0 3 (Some h_bad) db3 (quiet env0) in
  op_err (Store_ConfirmTerminalHandoff false key0 fp0 (op_db r) (quiet env0)) = None.
Proof.
  destruct db3_row as (i & Hi & Hf & _ & Hn). apply String.eqb_eq in Hf.
  destruct (handoff_protocol key0 fp0 3 h_bad db3 env0 i 1000 (op0_ok 3 h_bad ltac:(lia)) ltac:(lia)
    key0_valid db3_ok db3_closed Hi Hf Hn) as (_ & _ & Hc & _).
  exact Hc.
Defined.
End Witnesses.
