(* ===== verification/InboxBatchStore.v ===== *)
(** * Batches at the Inbox store

    Models [Store.ProcessBatchAttempt] of [adapters/inbox/inbox.go]: the checks
    made before the backend is called.  Its lemmas read the batch specification
    from outside: what a batch keeps, completes and reports, and how a delivery
    of a batch relates to a delivery of its own. *)
From S2P Require Import Prelude GoStrings Errors Ident Batch Inbox InboxSQL TerminalState InboxSpec.
From S2P Require Import InboxProps InboxEffects InboxLocal InboxBatch InboxGroups InboxBatchSpec.
From S2P Require Import InboxBatchProps InboxBatchRun InboxBatchRefine InboxStore.
Import Stdlib.Strings.String.
Open Scope string_scope.
Open Scope Z_scope.

(** ** Operation *)

(** The loop over the items; [generations] maps a message to its generation. *)
Fixpoint validate_items (consumerID : string) (generations : gmap BatchItemKey string)
  (items : list BatchItem) : option error :=
  match items with
  | [] => None
  | item :: r =>
      match ValidateKey (it_Key item) with
      | Some e => Some (EFmt "inbox: batch item" [e])
      | None =>
          if negb (String.eqb (k_ConsumerID (it_Key item)) consumerID)
          then Some (wrapS ErrInvalidKey "mixed consumer IDs")
          else
            let key := item_key item in
            let gen := k_AttemptGeneration (it_Key item) in
            if match generations !! key with Some g => negb (String.eqb g gen) | None => false end
            then Some (wrapS ErrInvalidBatchResult "mixed attempt generations")
            else validate_items consumerID (<[key := gen]> generations) r
      end
  end.

(** A nil handler is [None], as is a backend without batch support. *)
Definition Store_ProcessBatchAttempt {B} (backend : option (batchOps B)) (ctx_nil : bool)
  (items : list BatchItem) (maxAttempts : Z) (handler : option (InboxBatchHandler B)) (d : DB B) (w : env)
  : opResult B BatchProcessResult :=
  if ctx_nil then reject (ENew "inbox: nil batch context") d w
  else if decide (items = []) then reject (ENew "inbox: empty batch") d w
  else if maxAttempts =? 0 then reject (ENew "inbox: invalid batch handler attempt limit") d w
  else match handler with
  | None => reject (ENew "inbox: nil batch handler") d w
  | Some h =>
      match validate_items (k_ConsumerID (it_Key (default BatchItem0 (head items)))) ∅ items with
      | Some e => reject e d w
      | None =>
          match backend with
          | None => reject (ESentinel ErrBatchAttemptTrackingUnsupported) d w
          | Some ops => run (ProcessBatchAttempt ops items maxAttempts h) d w
          end
      end
  end.

(** ** What validation guarantees *)
Lemma validate_items_sound c gens items : validate_items c gens items = None ->
  (forall it, it ∈ items -> ValidateKey (it_Key it) = None /\ k_ConsumerID (it_Key it) = c /\
     (forall g, gens !! item_key it = Some g -> k_AttemptGeneration (it_Key it) = g)) /\
  one_generation items.
Proof.
  revert gens. induction items as [|it items IH]; intros gens Hv.
  { split; [by intros ? ?%not_elem_of_nil|by intros ? ? ?%not_elem_of_nil]. }
  cbn [validate_items] in Hv. destruct (ValidateKey (it_Key it)) eqn:Hk; [done|].
  destruct (String.eqb_spec (k_ConsumerID (it_Key it)) c) as [Hc|]; [|done]. cbn [negb] in Hv.
  assert (forall g, gens !! item_key it = Some g -> k_AttemptGeneration (it_Key it) = g) as Hg.
  { intros g Hg. rewrite Hg in Hv. destruct (String.eqb_spec g (k_AttemptGeneration (it_Key it))); [done|]. done. }
  assert (match gens !! item_key it with
          | Some g => negb (String.eqb g (k_AttemptGeneration (it_Key it))) | None => false end = false) as Hm.
  { destruct (gens !! item_key it) as [g|]; [|done]. by rewrite (Hg g), String.eqb_refl. }
  rewrite Hm in Hv. destruct (IH _ Hv) as [Hall Hone].
  assert (forall it', it' ∈ items -> item_key it' = item_key it ->
    k_AttemptGeneration (it_Key it') = k_AttemptGeneration (it_Key it)) as Hsame.
  { intros it' Hit' He. apply (Hall it' Hit'). by rewrite He, lookup_insert_eq. }
  split.
  - intros it' [->|Hin]%elem_of_cons; [by split_and!|].
    destruct (Hall it' Hin) as (? & ? & Hgen). split_and!; [done..|]. intros g Hg'.
    destruct (decide (item_key it' = item_key it)) as [He|Hne].
    + rewrite (Hsame it' Hin He). apply Hg. by rewrite <- He.
    + apply Hgen. by rewrite lookup_insert_ne.
  - intros a b [->|Ha]%elem_of_cons [->|Hb]%elem_of_cons He; [done| | |by apply Hone].
    + symmetry. by apply Hsame.
    + by apply Hsame.
Qed.

(** Items are digests and byte arrays, limits are unsigned. *)
Definition items_ok (items : list BatchItem) : Prop := forall it, it ∈ items ->
  Fingerprint_wf (it_Fingerprint it) /\ MessageID_wf (k_MessageID (it_Key it)) /\
  collision_free (it_Key it) (it_Fingerprint it).

Lemma validated_ok c items : items_ok items -> validate_items c ∅ items = None -> batch_ok items.
Proof.
  intros Hit [Hall Hone]%validate_items_sound. split; [done| |done].
  intros a b Ha Hb. destruct (Hall a Ha) as (_ & -> & _). by destruct (Hall b Hb) as (_ & -> & _).
Qed.

(** ** The specification, seen from outside *)
Section Outside.
Context {B : Type} (items : list BatchItem) (Hok : batch_ok items) (maxAttempts : Z) (Hmax : 1 <= maxAttempts).
Implicit Types (d : DB B) (errs : BatchItemKey -> option error).

(** The rows of an identity after the batch are those of a delivery, or its own. *)
Lemma rows_cases errs d d' k : batch_rows items maxAttempts errs d d' ->
  same_at k d' d \/
  exists it w, it ∈ items /\ key_id (it_Key it) = k /\ status_of items maxAttempts d it <> Conflict /\
    same_at k d' (op_db (spec_ProcessAttempt (it_Key it) (it_Fingerprint it) maxAttempts
                           (fun b => (b, errs (item_key it))) d w)).
Proof.
  intros [Hdel Hfr].
  destruct (decide (Exists (fun it => key_id (it_Key it) = k /\ status_of items maxAttempts d it <> Conflict) items))
    as [Hex|Hno].
  - apply Exists_exists in Hex as (it & Hin & <- & Hs). right. destruct (Hdel it Hin Hs) as [w Hw]. by exists it, w.
  - left. apply Hfr. intros it Hin Hk. destruct (decide (status_of items maxAttempts d it = Conflict)); [done|].
    destruct Hno. apply Exists_exists. eauto.
Qed.

Lemma rows_db_ok errs d d' : db_ok d -> batch_rows items maxAttempts errs d d' -> db_ok d'.
Proof using Hok Hmax.
  intros Hd Hr. apply db_ok_at. intros k. destruct (rows_cases errs d d' k Hr) as [Hs|(it & w & Hin & <- & _ & Hs)].
  - eapply ok_at_same; [symmetry; exact Hs|]. by apply db_ok_at.
  - eapply ok_at_same; [symmetry; exact Hs|]. apply db_ok_at.
    destruct (bo_each items Hok it Hin) as (? & _ & ?). by apply spec_ProcessAttempt_ok.
Qed.

(** The state of an identity that is not there yet. *)
Lemma absent_state d key fp : rows_ok d -> inbox d !! key_id key = None -> state_of key fp d = None.
Proof using.
  intros Hd Hn. rewrite state_of_counter. unfold counter_of. destruct (legacy key).
  - destruct (attempts d !! key_id key) eqn:Ha; [|done].
    destruct (ok_attempts d Hd _ _ Ha) as (i & Hi & _). congruence.
  - destruct (generations d !! _) eqn:Hg; [|done].
    destruct (ok_generations d Hd _ _ _ Hg) as [[? ?] _]. congruence.
Qed.

(** ** A delivery of a batch and a delivery of its own *)
Lemma handled_singly errs d d1 e w n : status_of items maxAttempts d (bp_item e) = Active ->
  n = attempts_of d (bp_item e) + 1 ->
  let it := bp_item e in
  let o := spec_outcome items maxAttempts errs d e in
  let s := spec_handle (it_Key it) (it_Fingerprint it) n maxAttempts (fun b => (b, errs (item_key it))) d1 w in
  o_Err o = op_err s /\ o_Attempt o = r_Attempt (op_value s) /\ (o_Outcome o = BatchACK <-> op_err s = None).
Proof using.
  intros Hs -> it o s. subst it o s. unfold spec_outcome. cbv zeta. rewrite Hs. unfold settled_outcome, spec_handle.
  destruct (errs (item_key (bp_item e))) as [err|]; [|cbn; by destruct (tick _) as [? w1], (tick w1)].
  unfold Classify, spec_failed, is_defer. destruct (IsPermanent (Some err)) eqn:Hp; cbn [negb].
  - rewrite andb_false_r. destruct (tick (called w)) as [t1 w1], (tick w1) as [t2 w2], (tick w2). done.
  - destruct (DeferDelay (Some err)) as [delay|].
    + rewrite bool_decide_eq_true_2 by eauto. cbn [andb negb]. destruct (tick (called w)). simpl. split_and!; [done|lia|done].
    + rewrite bool_decide_eq_false_2 by (by intros [? ?]). cbn [andb]. destruct (tick (called w)) as [t1 w1].
      destruct (RetryDelay (Some err)) as [delay|];
        destruct (maxAttempts <=? attempts_of d (bp_item e) + 1); destruct (tick w1); done.
Qed.

Lemma outcome_singly errs d e w : rows_ok d -> status_of items maxAttempts d (bp_item e) <> Conflict ->
  let it := bp_item e in
  let o := spec_outcome items maxAttempts errs d e in
  let s := spec_ProcessAttempt (it_Key it) (it_Fingerprint it) maxAttempts (fun b => (b, errs (item_key it))) d w in
  o_Err o = op_err s /\ o_Attempt o = r_Attempt (op_value s) /\ (o_Outcome o = BatchACK <-> op_err s = None).
Proof using.
  intros Hd Hc it o s. subst it o s. unfold spec_ProcessAttempt. destruct (tick w) as [t w1].
  destruct (inbox d !! key_id (it_Key (bp_item e))) as [row|] eqn:Hrow; cycle 1.
  { pose proof (absent_state d (it_Key (bp_item e)) (it_Fingerprint (bp_item e)) Hd Hrow) as Hst.
    apply handled_singly.
    - unfold status_of, completed in Hc |- *. rewrite Hst, Hrow in *. by destruct (negb _).
    - unfold attempts_of. by rewrite Hst. }
  assert (status_of items maxAttempts d (bp_item e) =
    if negb (String.eqb (i_fingerprint row) (it_Fingerprint (bp_item e))) then Conflict
    else match i_completed_at row with Some _ => Completed | None =>
      match state_of (it_Key (bp_item e)) (it_Fingerprint (bp_item e)) d with
      | None => Active
      | Some (n, flag, kind) =>
          if flag || String.eqb kind FailurePermanentKind then Closed true
          else if (maxAttempts <=? n) || String.eqb kind FailureAttemptsExhausted then Closed false
          else Active
      end end) as Hst.
  { unfold status_of, stored_fingerprint, completed. rewrite Hrow. by destruct (i_completed_at row). }
  destruct (negb _); [done|]. destruct (i_completed_at row) eqn:Hcm.
  - unfold spec_outcome. cbv zeta. rewrite Hst. simpl. unfold attempts_of.
    by destruct (state_of _ _ d) as [[[? ?] ?]|].
  - unfold spec_pending. destruct (state_of (it_Key (bp_item e)) _ d) as [[[n flag] kind]|] eqn:Hso.
    + destruct (flag || _); [|destruct ((maxAttempts <=? n) || _)].
      1,2: unfold spec_outcome; cbv zeta; rewrite Hst; unfold spec_closed, attempts_of; rewrite Hso; by destruct (tick w1).
      apply handled_singly; [done|]. unfold attempts_of. by rewrite Hso.
    + apply handled_singly; [done|]. unfold attempts_of. by rewrite Hso.
Qed.
(** ** What the handler sees *)
Lemma repeated_iff e : repeated items e = true <->
  exists i p, (i < bp_index e)%nat /\ items !! i = Some p /\ item_key p = item_key (bp_item e) /\
    it_Fingerprint p = it_Fingerprint (bp_item e).
Proof using.
  unfold repeated. rewrite existsb_exists. split.
  - intros (p & Hp & Hb). apply list_elem_of_In, list_elem_of_lookup in Hp as (i & Hi).
    rewrite lookup_take_Some in Hi. destruct Hi as [Hi Hlt]. apply andb_prop in Hb as [Hk Hf].
    apply bool_decide_eq_true in Hk. apply String.eqb_eq in Hf. by exists i, p.
  - intros (i & p & Hi & Hp & Hk & Hf). exists p. split.
    + apply list_elem_of_In, list_elem_of_lookup. exists i. by rewrite lookup_take_Some.
    + by rewrite bool_decide_eq_true_2, Hf, String.eqb_refl by done.
Qed.

Lemma elem_leaders d it : it ∈ leaders items maxAttempts d <->
  exists e, e ∈ entries items /\ bp_item e = it /\ status_of items maxAttempts d it = Active /\ repeated items e = false.
Proof using.
  unfold leaders. rewrite list_elem_of_In, in_map_iff. setoid_rewrite <- list_elem_of_In.
  setoid_rewrite list_elem_of_filter. unfold leader. split.
  - intros (e & <- & [Hl He]). apply andb_prop in Hl as [Hs%bool_decide_eq_true Hr%negb_true_iff]. eauto.
  - intros (e & He & <- & Hs & Hr). exists e. by rewrite Hs, Hr, bool_decide_eq_true_2 by done.
Qed.

Lemma leaders_active d it : it ∈ leaders items maxAttempts d <->
  it ∈ items /\ status_of items maxAttempts d it = Active.
Proof using Hok.
  split; [intros (e & He & <- & Hs & _)%elem_leaders; split; [by apply entry_item|done]|].
  intros [Hin Hs]. apply list_elem_of_lookup in Hin as (i & Hi). revert Hi.
  induction i as [i IH] using lt_wf_ind. intros Hi. set (e := {| bp_index := i; bp_item := it |}).
  destruct (repeated items e) eqn:Hr; [|apply elem_leaders; exists e; by rewrite elem_entries].
  apply repeated_iff in Hr as (j & p & Hj & Hp & Hk & Hf). simpl in *.
  assert (p = it) as ->; [|by apply (IH j)].
  pose proof (same_message_key items Hok p it) as HK. destruct p, it; simpl in *. f_equal; [|done].
  apply HK; [by eapply list_elem_of_lookup_2|by eapply list_elem_of_lookup_2|done].
Qed.

Lemma leaders_nodup d : NoDup (List.map item_key (leaders items maxAttempts d)).
Proof using Hok.
  unfold leaders. rewrite map_map.
  assert (forall e, e ∈ filter (fun e => leader items maxAttempts d e = true) (entries items) ->
    e ∈ entries items /\ leader items maxAttempts d e = true) as Hall by (intros e; rewrite list_elem_of_filter; tauto).
  pose proof (sorted_filter index_lt (fun e => leader items maxAttempts d e = true) _ (entries_sorted items)) as Hs.
  induction Hs as [|e l Hs IH Hlt]; [apply NoDup_nil_2|]. simpl. apply NoDup_cons.
  split; [|apply IH; intros; apply Hall; by right].
  intros (e' & Hk & Hin)%list_elem_of_In%in_map_iff. apply list_elem_of_In in Hin.
  destruct (Hall e (list_elem_of_here _ _)) as [He Hle]. destruct (Hall e' ltac:(by right)) as [He' Hle'].
  rewrite Forall_forall in Hlt. specialize (Hlt e' Hin). unfold leader in Hle, Hle'.
  apply andb_prop in Hle as [Ha%bool_decide_eq_true _], Hle' as [Ha'%bool_decide_eq_true Hr%negb_true_iff].
  assert (bp_item e' = bp_item e) as Heq.
  { apply (same_message items Hok maxAttempts d); [by apply entry_item..|done| |]; congruence. }
  assert (repeated items e' = true) as Hr'; [|congruence]. apply repeated_iff.
  exists (bp_index e), (bp_item e). rewrite Heq. split_and!; [done|by apply elem_entries|done..].
Qed.

(** ** What a committed batch completes *)
Lemma completed_same k d d' : same_at k d d' -> completed k d = completed k d'.
Proof using. intros [Hi _ _ _]. unfold completed. by rewrite Hi. Qed.

Lemma rows_completed errs d d' k : rows_ok d -> batch_rows items maxAttempts errs d d' ->
  completed k d' = true <-> completed k d = true \/
    exists it, it ∈ leaders items maxAttempts d /\ key_id (it_Key it) = k /\ errs (item_key it) = None.
Proof using Hok.
  intros Hd Hr. setoid_rewrite leaders_active. split.
  - intros Hc. destruct (rows_cases errs d d' k Hr) as [Hs|(it & w & Hin & <- & Hs & Hsame)].
    { left. by rewrite <- (completed_same k d' d Hs). }
    rewrite (completed_same _ _ _ Hsame) in Hc. apply list_elem_of_lookup in Hin as (i & Hi).
    pose proof (outcome_singly errs d {| bp_index := i; bp_item := it |} w Hd Hs) as (He & _). cbv zeta in He. simpl in He.
    destruct (spec_ProcessAttempt_effect (it_Key it) (it_Fingerprint it) maxAttempts
      (fun b => (b, errs (item_key it))) d w) as [[[_ Hk] _]|((Hc0 & _ & _ & Hh) & Hnone & _)].
    + left. by rewrite <- Hk.
    + right. exists it. split_and!; [by eapply list_elem_of_lookup_2| |done|congruence].
      rewrite Hnone in He. unfold spec_outcome in He. cbv zeta in He. simpl in He. unfold status_of in He, Hs |- *.
      rewrite Hc0 in He, Hs |- *. destruct (negb _); [done|].
      destruct (state_of _ _ d) as [[[n flag] kind]|]; [|done]. destruct (flag || _); [done|]. by destruct ((_ <=? n) || _).
  - assert (forall it, it ∈ items -> status_of items maxAttempts d it <> Conflict -> exists w,
      completed (key_id (it_Key it)) d' = completed (key_id (it_Key it)) (op_db (spec_ProcessAttempt (it_Key it) (it_Fingerprint it) maxAttempts
                 (fun b => (b, errs (item_key it))) d w))) as Hdel.
    { intros it Hin Hs. destruct (proj1 Hr it Hin Hs) as [w Hw]. exists w. by apply completed_same. }
    intros [Hc|(it & [Hin Hs] & <- & Herr)].
    + destruct (rows_cases errs d d' k Hr) as [Hs|(it & w & Hin & <- & Hs & Hsame)].
      { by rewrite (completed_same k d' d Hs). }
      rewrite (completed_same _ _ _ Hsame).
      destruct (spec_ProcessAttempt_effect (it_Key it) (it_Fingerprint it) maxAttempts
        (fun b => (b, errs (item_key it))) d w) as [[[_ Hk] _]|((Hc0 & _) & _)]; [by rewrite Hk|congruence].
    + destruct (Hdel it Hin) as [w ->]; [congruence|]. apply list_elem_of_lookup in Hin as (i & Hi).
      pose proof (outcome_singly errs d {| bp_index := i; bp_item := it |} w Hd) as (He & _); [simpl; congruence|].
      cbv zeta in He. simpl in He.
      assert (o_Err (spec_outcome items maxAttempts errs d {| bp_index := i; bp_item := it |}) = None) as Hnone.
      { unfold spec_outcome. simpl. by rewrite Hs, Herr. }
      rewrite Hnone in He. symmetry in He.
      destruct (spec_ProcessAttempt_effect (it_Key it) (it_Fingerprint it) maxAttempts
        (fun b => (b, errs (item_key it))) d w) as [[_ [[e He']|(Hc0 & _)]]|((_ & Hc1 & _) & _)]; [congruence| |done].
      unfold status_of in Hs. rewrite Hc0 in Hs. by destruct (negb _).
Qed.
End Outside.
