(* ===== verification/InboxBatchTheorems.v ===== *)
(** * The batch theorems

    The main properties of atomic batches, for every backend whose statements
    satisfy the laws of [BatchBackend] and hence for PostgreSQL and SQLite,
    under any schedule of faults. *)
From S2P Require Import Prelude GoStrings Digest Errors Ident Batch Inbox InboxSQL TerminalState.
From S2P Require Import InboxSpec InboxProps InboxEffects InboxLocal InboxBatch InboxGroups.
From S2P Require Import InboxBatchSpec InboxBatchProps InboxBatchRun InboxBatchRefine PgBatch.
From S2P Require Import PgBatch SqliteBatch InboxStore InboxTheorems.
From S2P Require Import InboxBatchStore.
Import Stdlib.Strings.String.
Open Scope string_scope.
Open Scope Z_scope.

(** ** The backends refine the specification *)
Definition batch_refines {B} (m : list BatchItem -> Z -> InboxBatchHandler B -> TX B BatchProcessResult Empty_set)
  (items : list BatchItem) (n : Z) (h : InboxBatchHandler B) : Prop :=
  atomic (m items n h) /\
  forall d w, db_ok d -> batch_spec items n h d w (run (m items n h) d (quiet w)).

(** C3. The PostgreSQL batch refines the batch specification: an undisturbed
    run calls the handler at most once, with the first delivery of every
    message that is neither completed nor closed nor in conflict, in input
    order; it reports each delivery as specified and leaves each message with
    the rows that a delivery of its own would leave; a handler error or an
    invalid handler result changes nothing.  A disturbed run has exactly this
    effect, or reports an error and has this effect or none. *)
Theorem Pg_batch_refines_spec {B} items n (h : InboxBatchHandler B) :
  batch_ok items -> items <> [] -> 1 <= n ->
  batch_refines PgBatch.ProcessBatchAttempt items n h.
Proof.
  intros Hok Hne Hn. split; [apply (batch_atomic PgBatch.ops)|].
  intros d w Hd. by apply (batch_quiet PgBatch.ops).
Qed.

(** C5. The SQLite batch, with its chunked statements and per-group reads,
    refines the same specification. *)
Theorem Sqlite_batch_refines_spec {B} items n (h : InboxBatchHandler B) :
  batch_ok items -> items <> [] -> 1 <= n ->
  batch_refines SqliteBatch.ProcessBatchAttempt items n h.
Proof.
  intros Hok Hne Hn. split; [apply (batch_atomic SqliteBatch.ops)|].
  intros d w Hd. by apply (batch_quiet SqliteBatch.ops).
Qed.

(** ** Reading the specification *)

(** The errors a batch gives its messages when it commits. *)
Definition answers {B} items n (h : InboxBatchHandler B) (d : DB B) : BatchItemKey -> option error :=
  let lead := leaders items n d in
  if decide (lead = []) then fun _ => None else result_errors (h lead (business d)).2.1.

(** A batch that answers without an error has committed; otherwise it has
    changed nothing. *)
Lemma batch_spec_cases {B} items n (h : InboxBatchHandler B) d w r :
  batch_spec items n h d w r ->
  (op_err r = None /\ Items (op_value r) = spec_items items n (answers items n h d) d /\
   batch_rows items n (answers items n h d) d (op_db r) /\
   let lead := leaders items n d in
   if decide (lead = []) then business (op_db r) = business d
   else exists b res errs, h lead (business d) = (b, (res, None)) /\
     ValidateResult (List.map item_key lead) res = Ok errs /\ business (op_db r) = b) \/
  (op_db r = d /\ op_value r = BatchProcessResult0 /\ is_Some (op_err r)).
Proof.
  unfold batch_spec, answers. cbv zeta. destruct (decide (leaders items n d = [])) as [|_].
  { intros (_ & He & Hv & Hb & Hr). left. by rewrite Hv. }
  destruct (h (leaders items n d) (business d)) as [b [res [e|]]]; simpl.
  { intros (_ & ? & ? & ->). right. eauto. }
  destruct (ValidateResult _ _) as [errs|e] eqn:Hval.
  - intros (_ & He & Hv & Hb & Hr). left. rewrite Hv. split_and!; [done..|]. by exists b, res, errs.
  - intros (_ & ? & ? & ->). right. eauto.
Qed.

Lemma batch_spec_calls {B} items n (h : InboxBatchHandler B) d w r :
  batch_spec items n h d w r ->
  e_handlerCalls (op_env r) = if decide (leaders items n d = []) then e_handlerCalls w else S (e_handlerCalls w).
Proof. unfold batch_spec. cbv zeta. destruct (decide _); [by intros []|]. destruct (h _ _) as [b [res err]]. by intros []. Qed.

(** The two batch backends cannot be told apart by an undisturbed batch:
    same report, same error, same business tables, same handler calls, same
    completed messages. *)
Theorem batch_backends_agree {B} items n (h : InboxBatchHandler B) d w :
  batch_ok items -> items <> [] -> 1 <= n -> db_ok d ->
  let r1 := run (PgBatch.ProcessBatchAttempt items n h) d (quiet w) in
  let r2 := run (SqliteBatch.ProcessBatchAttempt items n h) d (quiet w) in
  op_value r1 = op_value r2 /\ op_err r1 = op_err r2 /\ business (op_db r1) = business (op_db r2) /\
  e_handlerCalls (op_env r1) = e_handlerCalls (op_env r2) /\
  forall k, completed k (op_db r1) = completed k (op_db r2).
Proof.
  intros Hok Hne Hn Hd r1 r2.
  pose proof (batch_quiet PgBatch.ops items n h d w Hok Hne Hn Hd : batch_spec items n h d w r1) as H1.
  pose proof (batch_quiet SqliteBatch.ops items n h d w Hok Hne Hn Hd : batch_spec items n h d w r2) as H2.
  rewrite (batch_spec_calls _ _ _ _ _ _ H1), (batch_spec_calls _ _ _ _ _ _ H2).
  assert (forall errs, batch_rows items n errs d (op_db r1) -> batch_rows items n errs d (op_db r2) ->
    forall k, completed k (op_db r1) = completed k (op_db r2)) as Hrows.
  { intros errs R1 R2 k. apply eq_true_iff_eq.
    by rewrite (rows_completed items Hok n errs d _ k (proj1 Hd) R1), (rows_completed items Hok n errs d _ k (proj1 Hd) R2). }
  unfold batch_spec in H1, H2. cbv zeta in H1, H2. destruct (decide _).
  { destruct H1 as (_ & -> & -> & -> & R1), H2 as (_ & -> & -> & -> & R2). split_and!; eauto. }
  destruct (h _ _) as [b [res [e|]]].
  { destruct H1 as (_ & -> & -> & ->), H2 as (_ & -> & -> & ->). done. }
  destruct (ValidateResult _ _).
  - destruct H1 as (_ & -> & -> & -> & R1), H2 as (_ & -> & -> & -> & R2). split_and!; eauto.
  - destruct H1 as (_ & -> & -> & ->), H2 as (_ & -> & -> & ->). done.
Qed.

(** ** The store *)
Section Theorems.
Context {B : Type} (ops : batchOps B) `{!BatchBackend ops}.
Implicit Types (d : DB B) (w : env) (items : list BatchItem) (h : InboxBatchHandler B).

Abbreviation store_batch := (Store_ProcessBatchAttempt (Some ops) false).

(** The store refuses the batch, or runs the backend on a valid one. *)
Lemma store_cases items n h : items_ok items -> 0 <= n ->
  (exists e, forall d w, store_batch items n (Some h) d w = reject e d w) \/
  (batch_ok items /\ items <> [] /\ 1 <= n /\
   forall d w, store_batch items n (Some h) d w = run (ProcessBatchAttempt ops items n h) d w).
Proof.
  intros Hit Hn. unfold Store_ProcessBatchAttempt. destruct (decide (items = [])); [left; eauto|].
  destruct (Z.eqb_spec n 0); [left; eauto|].
  destruct (validate_items _ ∅ items) eqn:Hv; [left; eauto|]. right.
  split_and!; [by eapply validated_ok|done|lia|done].
Qed.

(** What a batch at the store does under any faults: nothing, or what the
    undisturbed run does. *)
Lemma store_batch_atomic items n h d w : items_ok items -> 0 <= n -> db_ok d ->
  let r := store_batch items n (Some h) d w in
  (op_db r = d /\ is_Some (op_err r) /\ (e_handlerCalls (op_env r) <= S (e_handlerCalls w))%nat) \/
  (batch_ok items /\ 1 <= n /\ (e_handlerCalls (op_env r) <= S (e_handlerCalls w))%nat /\
   exists r0, batch_spec items n h d w r0 /\ op_db r = op_db r0 /\
     ((op_value r = op_value r0 /\ op_err r = op_err r0) \/ is_Some (op_err r))).
Proof.
  intros Hit Hn Hd r. unfold r. destruct (store_cases items n h Hit Hn) as [[e ->]|(Hok & Hne & Hn1 & ->)].
  { left. simpl. split_and!; [done|by eauto|lia]. }
  pose proof (batch_quiet ops items n h d w Hok Hne Hn1 Hd) as Hq.
  destruct (run_atomic _ d w (batch_atomic ops items n h)) as [Hc Hr].
  rewrite (batch_spec_calls _ _ _ _ _ _ Hq) in Hc.
  assert ((e_handlerCalls (op_env (run (ProcessBatchAttempt ops items n h) d w)) <= S (e_handlerCalls w))%nat) as Hle
    by (destruct (decide _); lia).
  destruct Hr as [(Hdb & Hv & He)|(_ & He & [Hdb|Hdb])]; [right|left|right]; split_and!; try done.
  - eexists. split; [exact Hq|]. auto.
  - eexists. split; [exact Hq|]. auto.
Qed.

(** A batch keeps the table invariant under any faults and for any
    handler, and calls the handler at most once. *)
Theorem batch_invariant items n h d w :
  items_ok items -> 0 <= n -> db_ok d ->
  let r := store_batch items n (Some h) d w in
  db_ok (op_db r) /\ (e_handlerCalls (op_env r) <= S (e_handlerCalls w))%nat.
Proof.
  intros Hit Hn Hd r. unfold r. destruct (store_batch_atomic items n h d w Hit Hn Hd)
    as [(-> & _ & Hc)|(Hok & Hn1 & Hc & r0 & Hs & -> & _)]; [done|]. split; [|done].
  destruct (batch_spec_cases _ _ _ _ _ _ Hs) as [(_ & _ & Hr & _)|(-> & _)]; [|done].
  by eapply rows_db_ok.
Qed.

(** C8. Exactly-once effect of a batch under any faults: either nothing a
    business observer can see has changed, or the handler's writes for the
    whole batch became visible together with the completion of exactly the
    messages it handled without an error, and no message was completed
    before.  The handler then returned no error and a valid result; it gets each
    message once, none of them completed. *)
Theorem batch_exactly_once items n h d w :
  items_ok items -> 0 <= n -> db_ok d ->
  let r := store_batch items n (Some h) d w in
  let lead := leaders items n d in
  kept d (op_db r) \/
  (NoDup (List.map item_key lead) /\ (forall it, it ∈ lead -> completed (key_id (it_Key it)) d = false) /\
   (exists b res errs, h lead (business d) = (b, (res, None)) /\
      ValidateResult (List.map item_key lead) res = Ok errs /\ business (op_db r) = b) /\
   forall k, completed k (op_db r) = true <->
     completed k d = true \/ exists it, it ∈ lead /\ key_id (it_Key it) = k /\ answers items n h d (item_key it) = None).
Proof.
  intros Hit Hn Hd r lead. unfold r. destruct (store_batch_atomic items n h d w Hit Hn Hd)
    as [(-> & _)|(Hok & Hn1 & _ & r0 & Hs & -> & _)]; [left; apply kept_refl|].
  destruct (batch_spec_cases _ _ _ _ _ _ Hs) as [(_ & _ & Hr & Hb)|(-> & _)]; [|left; apply kept_refl].
  pose proof (fun k => rows_completed items Hok n _ d _ k (proj1 Hd) Hr) as Hc.
  cbv zeta in Hb. fold lead in Hb, Hc. destruct (decide (lead = [])) as [Hnil|_]; [left|right].
  - split; [done|]. intros k. apply eq_true_iff_eq. rewrite Hc, Hnil.
    split; [|by left]. intros [?|(it & ?%not_elem_of_nil & _)]; done.
  - split_and!; [by apply leaders_nodup| |done|done]. intros it [_ Ha]%leaders_active; [|done].
    unfold status_of in Ha. destruct (negb _); [done|]. by destruct (completed _ d).
Qed.

(** A delivery in a batch is reported like a delivery of its own: after an
    undisturbed batch without an error, the report has one outcome per
    delivery, in input order and with its key and fingerprint; a delivery in
    conflict with the stored content goes to the dead letters; for every
    other delivery the outcome's attempt number and error are those that
    [ProcessAttempt] specifies for the message when its handler answers with
    the error the batch handler gave it, it is acknowledged exactly when that
    error is nil, and the rows of the message are the specified ones. *)
Theorem batch_as_singles items n h d w i it :
  items_ok items -> 0 <= n -> db_ok d -> items !! i = Some it ->
  let r := store_batch items n (Some h) d (quiet w) in
  let err := answers items n h d (item_key it) in
  let single := spec_ProcessAttempt (it_Key it) (it_Fingerprint it) n (fun b => (b, err)) d in
  op_err r = None ->
  List.length (Items (op_value r)) = List.length items /\
  exists o, Items (op_value r) !! i = Some o /\ o_Key o = it_Key it /\ o_Fingerprint o = it_Fingerprint it /\
    if decide (status_of items n d it = Conflict) then o = conflict_outcome it
    else exists w', let s := single w' in
      o_Attempt o = r_Attempt (op_value s) /\ o_Err o = op_err s /\
      (o_Outcome o = BatchACK <-> op_err s = None) /\ same_at (key_id (it_Key it)) (op_db r) (op_db s).
Proof.
  intros Hit Hn Hd Hi r err single Hnone. unfold r in *. clear r.
  destruct (store_cases items n h Hit Hn) as [[e He]|(Hok & Hne & Hn1 & Hrun)]; [rewrite He in Hnone; done|].
  rewrite Hrun in Hnone |- *. pose proof (batch_quiet ops items n h d w Hok Hne Hn1 Hd) as Hq.
  destruct (batch_spec_cases _ _ _ _ _ _ Hq) as [(_ & HI & [Hrows _] & _)|(_ & _ & [e He])]; [|congruence].
  rewrite HI. unfold spec_items. rewrite length_map. split; [unfold entries; by rewrite length_imap|].
  set (e := {| bp_index := i; bp_item := it |}). exists (spec_outcome items n (answers items n h d) d e).
  split. { rewrite list_lookup_fmap. unfold entries. by rewrite list_lookup_imap, Hi. }
  destruct (decide (status_of items n d it = Conflict)) as [Hc|Hc].
  { unfold spec_outcome. simpl. by rewrite Hc. }
  assert (e ∈ entries items) as Hin by by apply elem_entries.
  destruct (outcomes_of_message items Hok n d (answers items n h d) e Hin Hc) as (HK & HF & _).
  split_and!; [done..|]. destruct (Hrows it) as [w' Hw]; [by eapply list_elem_of_lookup_2|done|].
  destruct (outcome_singly items n (answers items n h d) d e w' (proj1 Hd) Hc) as (? & ? & ?).
  exists w'. cbv zeta. split_and!; done.
Qed.
End Theorems.

(** ** The Inbox's report *)
(** What an outcome says of the delivery it is for. *)
Definition reported {B} (n : Z) (d : DB B) (it : BatchItem) (o : BatchItemOutcome) : Prop :=
  o_Key o = it_Key it /\ o_Fingerprint o = it_Fingerprint it /\
  match o_Outcome o with
  | BatchACK => completed (key_id (it_Key it)) d = true
  | BatchRetry | BatchDefer => 0 <= o_Attempt o < n
  | BatchDLQ => True
  | BatchUnset => False
  end.

Section Report.
Context {B : Type} (ops : batchOps B) `{!BatchBackend ops}.

Lemma settled_attempt n m err it dup : m < n ->
  let o := settled_outcome n m err it dup in
  o_Outcome o <> BatchUnset /\ (o_Outcome o = BatchRetry \/ o_Outcome o = BatchDefer -> o_Attempt o < n).
Proof.
  intros Hm o. unfold o, settled_outcome. destruct (Classify err) as [[] delay]; destruct (Z.leb_spec n (m + 1)); cbn; (split; [done|]);
    intros [|]; done || lia.
Qed.

Lemma spec_reported items n errs (d d' : DB B) e : batch_ok items -> 1 <= n -> db_ok d -> batch_rows items n errs d d' -> e ∈ entries items ->
  reported n d' (bp_item e) (spec_outcome items n errs d e).
Proof.
  intros Hok Hn Hd Hrows He. destruct (decide (status_of items n d (bp_item e) = Conflict)) as [Hc|Hc].
  { unfold reported, spec_outcome. rewrite Hc. done. }
  destruct (outcomes_of_message items Hok n d errs e He Hc) as (HK & HF & _). split_and!; [done..|].
  destruct (proj1 Hrows (bp_item e)) as [w Hw]; [by apply entry_item|done|].
  destruct (outcome_singly items n errs d e w (proj1 Hd) Hc) as (_ & Ha & Hack). cbv zeta in Ha, Hack.
  set (s := spec_ProcessAttempt _ _ _ _ _ _) in *.
  assert (0 <= o_Attempt (spec_outcome items n errs d e)) as Hpos by (rewrite Ha; by apply spec_ProcessAttempt_attempt).
  assert (o_Outcome (spec_outcome items n errs d e) <> BatchUnset /\
    (o_Outcome (spec_outcome items n errs d e) = BatchRetry \/ o_Outcome (spec_outcome items n errs d e) = BatchDefer ->
     o_Attempt (spec_outcome items n errs d e) < n)) as [Hset Hlt].
  { unfold spec_outcome. cbv zeta. destruct (status_of items n d (bp_item e)) as [| |[|]|] eqn:Es; cbn; try (split; [done|by intros [|]]).
    apply settled_attempt. revert Es. unfold status_of, attempts_of. destruct (negb _); [done|]. destruct (completed _ _); [done|].
    destruct (state_of _ _ _) as [[[m flag] kind]|]; [|lia]. destruct (flag || _); [done|].
    destruct (Z.leb_spec n m); cbn; [done|]. done. }
  destruct (o_Outcome _); [done| | | |done].
  - rewrite (completed_same _ _ _ Hw). assert (op_err s = None) as Hnone by by apply Hack. unfold s in *.
    destruct (spec_ProcessAttempt_effect (it_Key (bp_item e)) (it_Fingerprint (bp_item e)) n (fun b => (b, errs (item_key (bp_item e)))) d w)
      as [[_ [[x Hx]|(Hcm & -> & _)]]|[(_ & ? & _) _]]; [congruence|done|done].
  - auto.
  - auto.
Qed.

(** The report of a batch that answered without an error. *)
Lemma store_report items n h d e : items_ok items -> 1 <= n -> db_ok d ->
  let r := Store_ProcessBatchAttempt (Some ops) false items n (Some h) d e in
  db_ok (op_db r) /\ (op_err r = None -> Forall2 (reported n (op_db r)) items (Items (op_value r))).
Proof.
  intros Hit Hn Hd r. split; [by apply (batch_invariant ops items n h d e); [|lia|]|]. intros Hnone. unfold r in *.
  destruct (store_batch_atomic ops items n h d e Hit ltac:(lia) Hd) as [(_ & [x Hx] & _)|(Hok & _ & _ & r0 & Hs & Hdb & [[Hv He]|[x Hx]])];
    [congruence| |congruence].
  destruct (batch_spec_cases _ _ _ _ _ _ Hs) as [(_ & HI & Hrows & _)|(_ & _ & [x Hx])]; [|congruence].
  rewrite Hv, HI, Hdb. unfold spec_items. apply Forall2_fmap_r. unfold entries.
  assert (forall l k, (forall i it, l !! i = Some it -> items !! (k + i)%nat = Some it) ->
    Forall2 (fun it e => reported n (op_db r0) it (spec_outcome items n (answers items n h d) d e)) l
      (imap (fun i it => {| bp_index := (k + i)%nat; bp_item := it |}) l)) as Hall.
  { induction l as [|it l IH]; intros k Hl; cbn; constructor.
    - rewrite Nat.add_0_r. apply (spec_reported items n _ d (op_db r0) {| bp_index := k; bp_item := it |}); [done..|].
      apply elem_entries. cbn. by rewrite <- (Nat.add_0_r k); apply Hl.
    - eapply Forall2_impl; [|intros ? ? Hx; exact Hx]. erewrite imap_ext; [apply (IH (S k))|].
      + intros i x Hx. replace (S k + i)%nat with (k + S i)%nat by lia. by apply Hl.
      + intros i x _. cbn. f_equal. lia. }
  apply (Hall items 0%nat). done.
Qed.
End Report.

(** ** Completions are kept *)
Definition keeps {B} (d d' : DB B) : Prop := forall k, completed k d = true -> completed k d' = true.
#[export] Instance keeps_preorder {B} : PreOrder (@keeps B).
Proof. split; [by intros d k|]. intros d1 d2 d3 H1 H2 k Hk. by apply H2, H1. Qed.

Definition confirm_ops {B} (l : list (Key * Fingerprint * env)) : list (op (B := B) * env) :=
  List.map (fun p => (OpConfirm p.1.1 p.1.2, p.2)) l.

Section Kept.
Context {B : Type} {collate : string -> string -> bool} `{!InboxBackend B collate}.

Lemma confirm_keeps l (d : DB B) : db_ok d -> Forall (fun p => Fingerprint_wf p.1.2) l ->
  db_ok (perform_all (confirm_ops l) d) /\ keeps d (perform_all (confirm_ops l) d).
Proof.
  intros Hd Hl. revert d Hd. induction Hl as [|[[key fp] e] l Hf Hl IH]; intros d Hd; [by split|]. cbn in Hf.
  change (perform_all (confirm_ops ((key, fp, e) :: l)) d) with (perform_all (confirm_ops l) (InboxStore.perform (OpConfirm key fp) d e)).
  destruct (IH (InboxStore.perform (OpConfirm key fp) d e)) as [Hok Hk]; [by apply perform_ok|]. split; [done|]. etrans; [|exact Hk].
  intros k Hc. destruct (perform_effect (OpConfirm key fp) d e) as [[_ Hkc]|(? & ? & [] & _)]; [done..|by rewrite Hkc].
Qed.
End Kept.

Lemma attempt_keeps {B} (ops : batchOps B) `{!BatchBackend ops} items n h (d : DB B) e : items_ok items -> 0 <= n -> db_ok d ->
  keeps d (op_db (Store_ProcessBatchAttempt (Some ops) false items n (Some h) d e)).
Proof.
  intros Hit Hn Hd k Hk. destruct (store_batch_atomic ops items n h d e Hit Hn Hd) as [(-> & _)|(Hok & _ & _ & r0 & Hs & -> & _)]; [done|].
  destruct (batch_spec_cases _ _ _ _ _ _ Hs) as [(_ & _ & Hr & _)|(-> & _)]; [|done].
  apply (rows_completed items Hok n _ d _ k (proj1 Hd) Hr). by left.
Qed.

(** ** Concrete instances *)
Section Witnesses.
Definition key1 : Key :=
  {| k_ConsumerID := "billing"; k_Source := "shop"; k_MessageID := "fedcba9876543210";
     k_AttemptGeneration := "" |}.
(** Two messages; the first delivered twice and once with other content. *)
Definition items0 : list BatchItem :=
  [ {| it_Key := key0; it_Fingerprint := fp0 |};
    {| it_Key := key1; it_Fingerprint := Sha256.Sum256 "second" |};
    {| it_Key := key0; it_Fingerprint := fp0 |};
    {| it_Key := key0; it_Fingerprint := Sha256.Sum256 "other" |} ].

(** The handler writes one row per message and fails the second message. *)
Definition h_batch : InboxBatchHandler (list string) := fun items b =>
  ((List.map (fun it => MessageID_String (k_MessageID (it_Key it))) items ++ b)%list,
   (List.map (fun it => {| bi_Key := item_key it;
      bi_Err := if String.eqb (k_MessageID (it_Key it)) "fedcba9876543210" then Some (ENew "boom") else None |}) items,
    None)).

Lemma items0_ok : items_ok items0.
Proof.
  intros it Hit. unfold items0 in Hit. repeat (apply elem_of_cons in Hit as [->|Hit]); [..|by apply not_elem_of_nil in Hit].
  all: split_and!; [apply Sha256.length_Sum256|vm_compute; reflexivity|intros Hl; discriminate Hl].
Qed.
Lemma items0_batch : batch_ok items0.
Proof. apply (validated_ok "billing"); [apply items0_ok|vm_compute; reflexivity]. Qed.

Lemma Pg_batch_refines_spec_witness :
  batch_spec items0 3 h_batch db0 env0 (run (PgBatch.ProcessBatchAttempt items0 3 h_batch) db0 (quiet env0)).
Proof.
  destruct (Pg_batch_refines_spec items0 3 h_batch items0_batch ltac:(discriminate) ltac:(lia)) as [_ Hs].
  apply Hs, empty_db_ok.
Defined.

Lemma Sqlite_batch_refines_spec_witness :
  batch_spec items0 3 h_batch db0 env0 (run (SqliteBatch.ProcessBatchAttempt items0 3 h_batch) db0 (quiet env0)).
Proof.
  destruct (Sqlite_batch_refines_spec items0 3 h_batch items0_batch ltac:(discriminate) ltac:(lia)) as [_ Hs].
  apply Hs, empty_db_ok.
Defined.

Lemma batch_backends_agree_witness :
  op_value (run (PgBatch.ProcessBatchAttempt items0 3 h_batch) db0 (quiet env0))
  = op_value (run (SqliteBatch.ProcessBatchAttempt items0 3 h_batch) db0 (quiet env0)).
Proof.
  destruct (batch_backends_agree items0 3 h_batch db0 env0 items0_batch ltac:(discriminate) ltac:(lia)
    (empty_db_ok [])) as [Hv _].
  exact Hv.
Defined.

Lemma batch_invariant_witness :
  db_ok (op_db (Store_ProcessBatchAttempt (Some PgBatch.ops) false items0 3 (Some h_batch) db0 lost)).
Proof.
  destruct (batch_invariant PgBatch.ops items0 3 h_batch db0 lost items0_ok ltac:(lia) (empty_db_ok [])) as [Hd _].
  exact Hd.
Defined.

(** The first message is completed, the second is not, and the business rows
    of the whole batch are there. *)
Lemma batch_exactly_once_witness :
  let r := Store_ProcessBatchAttempt (Some SqliteBatch.ops) false items0 3 (Some h_batch) db0 env0 in
  completed (key_id key0) (op_db r) = true /\ completed (key_id key1) (op_db r) = false /\
  List.length (business (op_db r)) = 2%nat /\
  (kept db0 (op_db r) \/ NoDup (List.map item_key (leaders items0 3 db0))).
Proof.
  split_and!; [vm_compute; reflexivity..|].
  destruct (batch_exactly_once SqliteBatch.ops items0 3 h_batch db0 env0 items0_ok ltac:(lia) (empty_db_ok []))
    as [Hk|(Hn & _)]; [left; exact Hk|right; exact Hn].
Defined.

Lemma batch_as_singles_witness :
  let r := Store_ProcessBatchAttempt (Some PgBatch.ops) false items0 3 (Some h_batch) db0 (quiet env0) in
  List.map o_Outcome (Items (op_value r)) = [BatchACK; BatchRetry; BatchACK; BatchDLQ] /\
  List.length (Items (op_value r)) = 4%nat.
Proof.
  split; [vm_compute; reflexivity|].
  destruct (batch_as_singles PgBatch.ops items0 3 h_batch db0 env0 0 {| it_Key := key0; it_Fingerprint := fp0 |}
    items0_ok ltac:(lia) (empty_db_ok []) eq_refl ltac:(vm_compute; reflexivity)) as [Hl _].
  exact Hl.
Defined.
End Witnesses.
