(* ===== verification/Middleware.v ===== *)
(** * Middleware chains

    Models [invokeMiddlewares] of [adapters/nats/observability.go] and
    [adapters/kafka/observability.go] (the same code) and [invokeMiddleware] of
    [messenger.go].

    A middleware is host code.  It is represented by the tree of what it does:
    return, panic, work on the business tables, or call [next] with a context
    and go on with the answer, which may be a panic that it recovers or lets
    through.  So every middleware that calls [next] from its own goroutine is
    covered, however often it calls it.  Contexts are abstract; [ctx_Err c t] is
    what [c.Err()] answers at moment [t]. *)
From S2P Require Import Prelude GoStrings Errors InboxSQL.
Import Stdlib.Strings.String.
Open Scope string_scope.
Open Scope Z_scope.

Module Middleware.

(** How a call ended: with an error or nil, or with a panic. *)
Inductive flow : Type :=
| Ret (err : option error)
| Pan (recovered : string).

Section Chain.
Context {B C : Type} (ctx_Err : C -> nat -> option error).

Inductive middleware_body : Type :=
| MReturn (err : option error)
| MPanic (recovered : string)
| MWork (work : B -> B) (k : B -> middleware_body)
| MNext (ctx : option C) (k : flow -> middleware_body).

(** What a middleware does with the context it is given. *)
Definition MiddlewareFn : Type := C -> middleware_body.

(** The contexts that reached the handler are kept, the last one first. *)
Record st := { s_business : B; s_time : nat; s_handled : list C }.
Implicit Types (s : st) (m : middleware_body).

Definition later s : st :=
  {| s_business := s_business s; s_time := S (s_time s); s_handled := s_handled s |}.

Definition called_twice : error := wrapS ErrInvalidMessage "middleware called next more than once".
Definition nil_ctx : error := wrapS ErrInvalidMessage "middleware supplied a nil context".

(** [called] is the atomic flag of [next]. *)
Fixpoint run_middleware (next : option C -> st -> st * flow) (called : bool) m s : st * flow :=
  match m with
  | MReturn e => (s, Ret e)
  | MPanic v => (s, Pan v)
  | MWork f k =>
      run_middleware next called (k (f (s_business s)))
        {| s_business := f (s_business s); s_time := S (s_time s); s_handled := s_handled s |}
  | MNext c k =>
      if called then run_middleware next true (k (Ret (Some called_twice))) (later s)
      else let '(s', r) := next c s in run_middleware next true (k r) s'
  end.

Section Invoke.
Variable terminal : C -> st -> st * flow.

(** The recursive closure [invoke]; the index counts down the list. *)
Fixpoint invoke (middlewares : list MiddlewareFn) (ctx : option C) s : st * flow :=
  match ctx with
  | None => (s, Ret (Some nil_ctx))
  | Some current =>
      match middlewares with
      | [] => terminal current s
      | m :: rest => run_middleware (invoke rest) false (m current) s
      end
  end.
End Invoke.

Variable handler : C -> B -> B * flow.

(** The call of the handler itself. *)
Definition handle (current : C) s : st * flow :=
  let '(b, r) := handler current (s_business s) in
  ({| s_business := b; s_time := S (s_time s); s_handled := current :: s_handled s |}, r).

(** Brokers' adapters: the handler's result is completed with the error of its
    context. *)
Definition complete_handle (current : C) s : st * flow :=
  let '(s', r) := handle current s in
  match r with
  | Pan v => (s', Pan v)
  | Ret e => (s', Ret (HandlerCompletionError (Some (ctx_Err current (s_time s'))) e))
  end.

(** [defer recover]: the reports and the error that replaces the panic. *)
Definition recovered_error (ctx_nil reporter_nil : bool) (handlerID v : string) : list PanicReport * option error :=
  let '(reports, e) := ReportHandlerPanic ctx_nil reporter_nil handlerID v "" in (reports, Some e).

Definition is_nil {A} (o : option A) : bool := match o with None => true | Some _ => false end.

Definition invokeMiddlewares (reporter_nil : bool) (handlerID : string) (middlewares : list MiddlewareFn)
    (ctx : option C) s : st * (list PanicReport * option error) :=
  let s0 := {| s_business := s_business s; s_time := s_time s; s_handled := [] |} in
  let '(s', r) := invoke complete_handle middlewares ctx s0 in
  (s', match r with
       | Pan v => recovered_error (is_nil ctx) reporter_nil handlerID v
       | Ret (Some e) => ([], Some e)
       | Ret None =>
           match s_handled s' with
           | [] => ([], None)
           | current :: _ => ([], ctx_Err current (s_time s'))
           end
       end).

(** In process: the handler's answer is final; [with_metadata] is
    [contextWithMetadata]. *)
Definition invokeMiddleware (with_metadata : C -> C) (reporter_nil : bool) (handlerID : string)
    (middlewares : list MiddlewareFn) (ctx : C) s : st * (list PanicReport * option error) :=
  let s0 := {| s_business := s_business s; s_time := s_time s; s_handled := [] |} in
  let '(s', r) := match middlewares with
                  | [] => handle ctx s0
                  | _ => invoke (fun current => handle (with_metadata current)) middlewares (Some ctx) s0
                  end in
  (s', match r with
       | Pan v => recovered_error false reporter_nil handlerID v
       | Ret e => ([], e)
       end).

(** ** At most one call *)
Definition grows (n : nat) s s' : Prop :=
  exists l, s_handled s' = (l ++ s_handled s)%list /\ (List.length l <= n)%nat.

Lemma grows_refl n s : grows n s s.
Proof. exists []. simpl. split; [done|lia]. Qed.

Lemma grows_trans n k s1 s2 s3 : grows n s1 s2 -> grows k s2 s3 -> grows (n + k) s1 s3.
Proof.
  intros (l1 & E1 & H1) (l2 & E2 & H2). exists (l2 ++ l1)%list. rewrite E2, E1, length_app, <- app_assoc. split; [done|lia].
Qed.

(** A middleware reaches what is behind [next] at most once. *)
Lemma run_middleware_grows next (called : bool) m s :
  (forall c s, grows 1 s (next c s).1) -> grows (if called then 0 else 1) s (run_middleware next called m s).1.
Proof.
  intros Hn. revert called s. induction m as [e|v|f k IH|c k IH]; intros called s; simpl; [apply grows_refl..| |].
  - destruct (IH (f (s_business s)) called {| s_business := f (s_business s); s_time := S (s_time s); s_handled := s_handled s |})
      as (l & E & H). by exists l.
  - destruct called; [exact (IH _ true (later s))|].
    destruct (next c s) as [s' r] eqn:En. apply (grows_trans 1 0 _ s'); [|apply (IH r true)].
    pose proof (Hn c s) as Hc. by rewrite En in Hc.
Qed.

Lemma invoke_grows terminal middlewares ctx s :
  (forall c s, grows 1 s (terminal c s).1) -> grows 1 s (invoke terminal middlewares ctx s).1.
Proof.
  intros Ht. revert ctx s. induction middlewares as [|m rest IH]; intros [current|] s; simpl;
    try apply grows_refl; [apply Ht|]. by apply (run_middleware_grows _ false).
Qed.

Lemma handle_grows c s : grows 1 s (handle c s).1.
Proof. unfold handle. destruct (handler c (s_business s)) as [b r]. by exists [c]. Qed.

Lemma complete_handle_grows c s : grows 1 s (complete_handle c s).1.
Proof. unfold complete_handle. pose proof (handle_grows c s). by destruct (handle c s) as [s' [e|v]]. Qed.

(** ** Business effects happen through the handler and the middlewares only *)

(** A middleware that forwards its context and the answer. *)
Definition passes (m : MiddlewareFn) : Prop :=
  forall c, m c = MNext (Some c) (fun r => match r with Ret e => MReturn e | Pan v => MPanic v end).

Lemma invoke_passes terminal middlewares c s :
  Forall passes middlewares -> invoke terminal middlewares (Some c) s = terminal c s.
Proof.
  intros H. revert s. induction H as [|m rest Hm _ IH]; intros s; [done|]. simpl. rewrite Hm. simpl.
  rewrite IH.
  by destruct (terminal c s) as [s' [e|v]].
Qed.

(** A middleware chain, whatever its middlewares do (return early, call
    [next] repeatedly, swap the context, swallow errors, panic or recover):
    the handler runs at most once; when the broker adapters' chain reports
    success, the context the handler ran with was still alive at that moment;
    middlewares that only forward change nothing; and without [next] being
    reached the handler does not run at all. *)
Theorem middleware_contract reporter_nil handlerID middlewares ctx s :
  let '(s', (_, err)) := invokeMiddlewares reporter_nil handlerID middlewares ctx s in
  (List.length (s_handled s') <= 1)%nat /\
  (err = None -> Forall (fun c => ctx_Err c (s_time s') = None) (s_handled s')) /\
  (ctx = None -> s_handled s' = [] /\ err = Some nil_ctx /\ s_business s' = s_business s) /\
  (forall c, ctx = Some c -> Forall passes middlewares ->
     (s', err) = (fun p => (p.1, p.2.2)) (invokeMiddlewares reporter_nil handlerID [] ctx s)).
Proof.
  unfold invokeMiddlewares. set (s0 := {| s_business := _; s_time := _; s_handled := _ |}).
  destruct (invoke complete_handle middlewares ctx s0) as [s' r] eqn:E.
  assert (List.length (s_handled s') <= 1)%nat as Hone.
  { pose proof (invoke_grows complete_handle middlewares ctx s0 complete_handle_grows) as (l & El & Hl).
    rewrite E in El. cbn in El. rewrite app_nil_r in El. by rewrite El. }
  destruct (match r with Pan _ => _ | _ => _ end) as [reports err] eqn:Eerr. split_and!.
  - done.
  - intros ->. destruct r as [[e|]|v]; [congruence| |unfold recovered_error in Eerr; by destruct (ReportHandlerPanic _ _ _ _ _)].
    destruct (s_handled s') as [|c [|]]; simpl in Hone; [by constructor| |lia]. constructor; [congruence|constructor].
  - intros ->. destruct middlewares; simpl in E; simplify_eq; done.
  - intros c -> Hp. rewrite invoke_passes in E by done. cbn [invoke]. rewrite E. cbn [is_nil] in Eerr. cbn [fst snd is_nil]. by rewrite Eerr.
Qed.

(** The adapters' chain as the handler of an Inbox transaction, started at
    moment [t0] with the context [ctx]. *)
Definition inbox_handler (reporter_nil : bool) (handlerID : string) (middlewares : list MiddlewareFn)
    (ctx : C) (t0 : nat) : Handler B :=
  fun b =>
    let '(s', (_, err)) := invokeMiddlewares reporter_nil handlerID middlewares (Some ctx)
                             {| s_business := b; s_time := t0; s_handled := [] |} in
    (s_business s', err).
End Chain.
Arguments middleware_body : clear implicits.
Arguments MiddlewareFn : clear implicits.

(** ** Example: a middleware that retries [next] and swallows the error. *)
Definition swallow : MiddlewareFn nat bool :=
  fun c => MNext (Some c) (fun _ => MNext (Some c) (fun _ => MReturn None)).

Example swallow_live :
  (invokeMiddlewares (fun c t => if (c : bool) then Some (ESentinel Canceled) else None)
     (fun _ b => (S b, Ret (Some (ENew "boom")))) true "h" [swallow] (Some false)
     {| s_business := 0%nat; s_time := 0; s_handled := [] |}).2.2 = None /\
  (invokeMiddlewares (fun c t => if (c : bool) then Some (ESentinel Canceled) else None)
     (fun _ b => (S b, Ret (Some (ENew "boom")))) true "h" [swallow] (Some true)
     {| s_business := 0%nat; s_time := 0; s_handled := [] |}).2.2 = Some (ESentinel Canceled).
Proof. split; reflexivity. Qed.
End Middleware.
