(* ===== verification/Delivery.v ===== *)
(** * Deliveries

    What the consumers of both broker adapters share: computations that read a
    clock, talk to a broker and the Inbox and may wait or panic, with the rules to
    reason about them; the observations they report; the identity under which a
    message is processed and the kind of a terminal failure. *)
From S2P Require Import Prelude GoStrings Digest Errors Ident Inbox InboxSQL InboxSpec InboxEffects InboxStore Middleware.
Import Stdlib.Strings.String.
Import Sha256.
Open Scope string_scope.
Open Scope Z_scope.

Module Delivery.

(** ** Computations *)

(** A computation returned, is still waiting for the broker, or panicked. *)
Inductive comp (A : Type) : Type := Val (a : A) | Blocked | Crash.
Arguments Val {A}. Arguments Blocked {A}. Arguments Crash {A}.

Definition St (S A : Type) : Type := S -> S * comp A.
Definition mret {S A} (a : A) : St S A := fun w => (w, Val a).
Definition mbind {S A A'} (m : St S A) (k : A -> St S A') : St S A' := fun w =>
  match m w with
  | (w', Val a) => k a w'
  | (w', Blocked) => (w', Blocked)
  | (w', Crash) => (w', Crash)
  end.

(** ** Triples *)
Section Triples.
Context {S : Type}.
Implicit Types P Q : S -> Prop.

Definition triple {A} P (m : St S A) (Q : comp A -> S -> Prop) : Prop :=
  forall w, P w -> Q (m w).2 (m w).1.

(** [V] when the computation returns, [Q] when it does not. *)
Definition pending {A} Q (V : A -> S -> Prop) (r : comp A) (w : S) : Prop :=
  match r with Val a => V a w | _ => Q w end.

Lemma triple_ret {A} (a : A) P Q (V : A -> S -> Prop) :
  (forall w, P w -> V a w) -> triple P (mret a) (pending Q V).
Proof. intros H w Hw. by apply H. Qed.

Lemma triple_bind {A A'} (m : St S A) (k : A -> St S A') P Q R (V : A' -> S -> Prop) :
  triple P m (pending Q R) -> (forall a, triple (R a) (k a) (pending Q V)) -> triple P (mbind m k) (pending Q V).
Proof.
  intros Hm Hk w Hw. unfold mbind. specialize (Hm w Hw). destruct (m w) as [w' [a'| |]]; cbn in *; [by apply Hk|done..].
Qed.

Lemma triple_weaken {A} (m : St S A) P P' Q Q' (V V' : A -> S -> Prop) :
  triple P m (pending Q V) -> (forall w, P' w -> P w) -> (forall w, Q w -> Q' w) -> (forall a w, V a w -> V' a w) ->
  triple P' m (pending Q' V').
Proof. intros Hm HP HQ HV w Hw. specialize (Hm w (HP w Hw)). destruct (m w) as [w' [a'| |]]; cbn in *; auto. Qed.

Lemma triple_or {A} (m : St S A) P1 P2 (Q : comp A -> S -> Prop) :
  triple P1 m Q -> triple P2 m Q -> triple (fun w => P1 w \/ P2 w) m Q.
Proof. intros H1 H2 w [Hw|Hw]; auto. Qed.
End Triples.

(** ** Time *)

(** [Time.Sub] saturates. *)
Definition Sub (t u : Time) : Duration := Z.max (- maxInt64 - 1) (Z.min maxInt64 (t - u)).
Definition after (t u : Time) : bool := negb (IsZero t) && After t u.
Definition elapsed (t now : Time) : bool := negb (IsZero t) && negb (After t now).

(** ** Observations *)
Record Observation := {
  ob_Operation : string;
  ob_MessageID : MessageID;
  ob_Attempt : Z;
  ob_Duplicate : bool;
  ob_RetryDelay : Duration;
  ob_StartedAt : Time;
  ob_Duration : Duration;
  ob_Err : option error }.

Definition OperationHandle : string := "handle".
Definition operationBrokerAck : string := "broker_ack".
Definition operationDLQHandoff : string := "dlq_handoff".
Definition operationRetryHandoff : string := "retry_handoff".
Definition operationOffsetCommit : string := "offset_commit".

(** ** Inbox identity *)
Definition FingerprintEnvelope (canonical : string) : Fingerprint := Sum256 canonical.

Definition failure_kind (processErr : option error) (identityConflict exhausted : bool) : string :=
  if identityConflict then "identity_conflict"
  else if exhausted && negb (IsPermanent processErr) then "attempts_exhausted" else "permanent".

(** A decoded message: what the Inbox attempt needs of it. *)
Record decodedMessage (B C : Type) := {
  dm_metadata : Metadata;
  dm_canonical : string;
  dm_handle : C -> B -> B * Middleware.flow }.
Arguments dm_metadata {B C}. Arguments dm_canonical {B C}. Arguments dm_handle {B C}.

Definition is_nil (err : option error) : bool := match err with None => true | Some _ => false end.
Definition or_default (z d : Z) : Z := if z =? 0 then d else z.

(** ** Deliveries of a batch

    Each has an outcome at once or goes to the Inbox. *)
Definition valid_items {O I} (cls : list (O + I)) : list I :=
  omap (fun x => match x with inl _ => None | inr it => Some it end) cls.

(** The outcomes of the deliveries the Inbox was given, in order. *)
Fixpoint assign {O I} (cls : list (O + I)) (answers : list O) : option (list O) :=
  match cls with
  | [] => Some []
  | inl o :: cls => cons o <$> assign cls answers
  | inr _ :: cls => match answers with [] => None | o :: answers => cons o <$> assign cls answers end
  end.

Lemma assign_ok {X O I} (cls : X -> O + I) (R : I -> O -> Prop) (P : X -> O -> Prop) xs :
  Forall (fun x => match cls x with inl o => P x o | inr it => forall o, R it o -> P x o end) xs -> forall os,
  Forall2 R (valid_items (List.map cls xs)) os ->
  exists outcomes, assign (List.map cls xs) os = Some outcomes /\ Forall2 P xs outcomes.
Proof.
  induction 1 as [|x xs Hx Hf IH]; intros os Hos; [by exists []|]. unfold valid_items in *. cbn in Hos |- *.
  destruct (cls x) as [o|it].
  - destruct (IH os Hos) as (outcomes & -> & Ho). exists (o :: outcomes). split; [done|by constructor].
  - apply Forall2_cons_inv_l in Hos as (o & os' & Ho & Hos & ->). destruct (IH os' Hos) as (outcomes & -> & Hs).
    exists (o :: outcomes). split; [done|]. constructor; auto.
Qed.

(** ** Sequences of deliveries

    A delivery changes the tables by Inbox operations of its own; whatever the
    consumer, the effects then add up as the Inbox promises. *)
Section Sequences.
Context {B X : Type} {collate : string -> string -> bool} `{!InboxBackend B collate}.
Context (step : X -> DB B -> DB B) (ok : X -> Prop) (belongs : X -> op (B := B) -> Prop).

Definition run_all (xs : list X) (d : DB B) : DB B := fold_left (fun d x => step x d) xs d.

Context (Hstep : forall x d, ok x -> db_ok d ->
  exists ops, step x d = perform_all ops d /\ Forall (fun p => belongs x p.1) ops).
Context (Hok : forall x o, ok x -> belongs x o -> op_ok o /\ not_prune o).

Lemma run_all_ops xs d : Forall ok xs -> db_ok d ->
  exists ops, run_all xs d = perform_all ops d /\
    Forall (fun p => exists x, x ∈ xs /\ belongs x p.1 /\ op_ok p.1 /\ not_prune p.1) ops.
Proof.
  revert d. induction xs as [|x xs IH]; intros d Hxs Hd; [exists []; split; [done|constructor]|].
  inversion Hxs as [|? ? Hx Hxs']; subst. destruct (Hstep x d Hx Hd) as (ops & E & Hb).
  assert (Forall (fun p => belongs x p.1 /\ op_ok p.1 /\ not_prune p.1) ops) as Hops.
  { eapply Forall_impl; [exact Hb|]. intros p Hp. split; [done|by eapply Hok]. }
  assert (db_ok (perform_all ops d)) as Hd' by (apply perform_all_ok; [eapply Forall_impl; [exact Hops|by intros ? (?&?&?)]|done]).
  cbn. rewrite E. destruct (IH _ Hxs' Hd') as (ops' & E' & Hb'). exists (ops ++ ops')%list. split.
  - change (fold_left _ xs (perform_all ops d)) with (run_all xs (perform_all ops d)). rewrite E'.
    unfold perform_all. by rewrite fold_left_app.
  - apply Forall_app. split; (eapply Forall_impl; [eassumption|]); intros p; [intros ?|intros (y & ? & ?)];
      [exists x; split; [by left|done]|exists y; split; [by right|done]].
Qed.

Lemma run_all_ok xs d : Forall ok xs -> db_ok d -> db_ok (run_all xs d).
Proof.
  intros Hxs Hd. destruct (run_all_ops xs d Hxs Hd) as (ops & -> & Hb). apply perform_all_ok; [|done].
  eapply Forall_impl; [exact Hb|]. by intros p (x & _ & _ & ? & _).
Qed.

(** The log of a sequence: one entry for each message that became completed. *)
Definition log_ok (xs : list X) (d : DB B) (log : list (idkey * Handler B)) : Prop :=
  NoDup (List.map fst log) /\
  (forall k, k ∈ List.map fst log <-> completed k d = false /\ completed k (run_all xs d) = true) /\
  business (run_all xs d) = apply_log log (business d) /\
  Forall (fun p => exists x o, x ∈ xs /\ belongs x o /\ delivers o p.1 p.2) log.

Lemma run_all_log xs d : Forall ok xs -> db_ok d ->
  exists log, log_ok xs d log /\ forall k, completed k d = true -> completed k (run_all xs d) = true.
Proof.
  intros Hxs Hd. destruct (run_all_ops xs d Hxs Hd) as (ops & E & Hb). unfold log_ok. rewrite E.
  destruct (perform_all_log ops d) as (log & H1 & H2 & H3 & H4 & H5); [|done|].
  { eapply Forall_impl; [exact Hb|]. by intros p (x & _ & _ & ?). }
  exists log. split; [|done]. split_and!; [done..|]. eapply Forall_impl; [exact H4|]. intros [k h] (o & Hin & Hdel).
  apply list_elem_of_In, in_map_iff in Hin as ([o' e] & <- & Hin). apply list_elem_of_In in Hin.
  rewrite Forall_forall in Hb. destruct (Hb _ Hin) as (x & Hx & Hbx & _). by exists x, o'.
Qed.

(** What a delivery completed stays completed, and is in the log unless it was
    completed before. *)
Lemma run_all_completed xs1 x xs2 d k log : Forall ok (xs1 ++ x :: xs2) -> db_ok d ->
  log_ok (xs1 ++ x :: xs2) d log -> completed k (step x (run_all xs1 d)) = true ->
  completed k (run_all (xs1 ++ x :: xs2) d) = true /\ (completed k d = true \/ k ∈ List.map fst log).
Proof.
  intros Hxs Hd (_ & Hkeys & _) Hk.
  assert (run_all (xs1 ++ x :: xs2) d = run_all xs2 (step x (run_all xs1 d))) as E by (unfold run_all; by rewrite fold_left_app).
  assert (completed k (run_all (xs1 ++ x :: xs2) d) = true) as Hfin.
  { apply Forall_app in Hxs as [Hxs1 Hxs2]. inversion Hxs2 as [|? ? Hx Hxs2']; subst.
    assert (db_ok (run_all [x] (run_all xs1 d))) as Hd' by (apply run_all_ok; [by constructor|by apply run_all_ok]).
    destruct (run_all_log xs2 _ Hxs2' Hd') as (_ & _ & Hm). rewrite E. by apply Hm. }
  split; [done|]. destruct (completed k d) eqn:E0; [by left|right]. apply Hkeys. by split.
Qed.
End Sequences.
End Delivery.

Declare Scope delivery_scope.
Notation "x <- m ;; k" := (Delivery.mbind m (fun x => k)) (at level 60, m at next level, right associativity) : delivery_scope.
Notation "m ;;; k" := (Delivery.mbind m (fun _ => k)) (at level 60, right associativity) : delivery_scope.
