(* ===== verification/Route.v ===== *)
(** * Deliveries, routes and dynamic values

    Models [route.go], the executors and the synchronous route of [local.go], the
    contexts of [message.go], [nilInterface]'s values as options and [payloadAs] of
    [builder.go], and the observer set of [observer.go].

    Host code (handlers, observers, loggers, codecs) acts on an arbitrary state [B]
    and a call takes the state and returns it.  A value of a Go type is its
    dynamic type with an element of an arbitrary set; the nil interface is [None].
    The in-process bus is third-party code: the class [GoBus] states that it either
    calls the executor once or refuses. *)
From S2P Require Import Prelude GoStrings Errors Ident Envelope Middleware Delivery.
Import Stdlib.Strings.String.
Import Envelope.
Open Scope string_scope.
Open Scope Z_scope.

Module Route.

(** ** Types and values *)
Class GoTypes := {
  rtype : Type;
  rtype_eq_dec :: EqDecision rtype;
  is_interface : rtype -> bool;
  implements : rtype -> rtype -> bool;       (** the dynamic type has the methods of the interface *)
  carrier : Type }.

Definition any `{!GoTypes} : Type := option (rtype * carrier).

(** What the type checker knows of a value of static type [T]. *)
Definition has_type `{!GoTypes} (T : rtype) (v : any) : bool :=
  match v with
  | None => is_interface T
  | Some (D, _) => if is_interface T then implements D T else bool_decide (D = T)
  end.

(** [payloadAs[T]]: the type assertion [payload.(T)]; a nil payload is the zero
    value of an interface type only. *)
Definition payloadAs `{!GoTypes} (T : rtype) (payload : any) : option any :=
  match payload with
  | None => if is_interface T then Some None else None
  | Some (D, v) =>
      if (if is_interface T then implements D T else bool_decide (D = T)) then Some (Some (D, v)) else None
  end.

Lemma payloadAs_typed `{!GoTypes} T v : payloadAs T v = if has_type T v then Some v else None.
Proof. by destruct v as [[D x]|]. Qed.

(** ** Contexts *)
Class GoContext (C : Type) := {
  MetadataFromContext : C -> option Metadata;
  contextWithMetadata : C -> Metadata -> C;
  metadata_with c m : MetadataFromContext (contextWithMetadata c m) = Some m }.

(** ** Receipts *)
Definition ReceiptState := string.
Definition ReceiptCompleted : ReceiptState := "completed".
Definition ReceiptAccepted : ReceiptState := "accepted".
Definition ReceiptStaged : ReceiptState := "staged".
Definition ReceiptBrokerConfirmed : ReceiptState := "broker_confirmed".
Definition ReceiptNoop : ReceiptState := "noop".

Record Receipt := { rc_MessageID : MessageID; rc_Route : string; rc_State : ReceiptState; rc_At : Time }.
Definition Receipt0 : Receipt := {| rc_MessageID := zeroID; rc_Route := ""; rc_State := ""; rc_At := 0 |}.

(** ** Observers *)
Definition OperationDeliver : string := "deliver".
Definition OperationExpire : string := "expire".
Definition OperationQuery : string := "query".

Record Observation := {
  o_Operation : string; o_MessageID : MessageID; o_Kind : Kind; o_Name : string; o_SchemaVersion : Z;
  o_Route : string; o_HandlerID : string; o_State : ReceiptState; o_StartedAt : Time; o_Duration : Duration;
  o_Err : option error }.

Inductive LogLevel : Set := LogDebug | LogInfo | LogWarn | LogError.
Record LogAttr := { la_Key : string; la_Value : string }.

Section Routes.
Context {B C : Type} `{!GoTypes, !GoContext C, !EnvelopeJSON}.

(** A call of host code that may panic: the panic is recovered, its effects
    stay. *)
Definition Observer : Type := C -> Observation -> B -> B * option string.
Definition Logger : Type := C -> LogLevel -> string -> list LogAttr -> B -> B * option string.

Definition safeLog (ctx : C) (logger : option Logger) (level : LogLevel) (message : string) (attrs : list LogAttr) (b : B) : B :=
  match logger with None => b | Some log => (log ctx level message attrs b).1 end.

Definition callObserver (ctx : C) (logger : option Logger) (observer : Observer) (o : Observation) (b : B) : B :=
  let '(b, recovered) := observer ctx o b in
  match recovered with
  | None => b
  | Some _ =>
      safeLog ctx logger LogError "messenger observer panicked"
        ({| la_Key := "operation"; la_Value := o_Operation o |}
         :: (if MessageID_IsZero (o_MessageID o) then [] else [{| la_Key := "message_id"; la_Value := MessageID_String (o_MessageID o) |}])
         ++ [{| la_Key := "observer_panic"; la_Value := "true" |}])%list b
  end.

Record observerSet := { os_logger : option Logger; os_observers : list Observer }.
Definition newObserverSet (logger : option Logger) (observers : list Observer) : option observerSet :=
  match observers with [] => None | _ => Some {| os_logger := logger; os_observers := observers |} end.
Definition observe (ctx : C) (observer : option observerSet) (o : Observation) (b : B) : B :=
  match observer with
  | None => b
  | Some set => fold_left (fun b observer => callObserver ctx (os_logger set) observer o b) (os_observers set) b
  end.

(** ** Deliveries *)
(** [MarshalEnvelope] encodes once and keeps the answer; codecs are functions, so
    the answer is computed when asked. *)
Record delivery := {
  dl_onExpire : option (C -> error -> B -> B);
  dl_metadata : Metadata;
  dl_encode : result error (string * DataEncoding);
  dl_invoke : option (C -> B -> B * option error);
  dl_handlers : Z }.

Definition Delivery_MarshalEnvelope (d : delivery) : result error string :=
  match dl_encode d with
  | Err err => Err (EFmt "messenger: encode" [err])
  | Ok (data, encoding) => MarshalEnvelope (dl_metadata d) data encoding
  end.
Definition Delivery_Fingerprint (d : delivery) : result error string :=
  match Delivery_MarshalEnvelope d with Err err => Err err | Ok data => Ok (EnvelopeFingerprint data) end.
Definition Delivery_Invoke (d : delivery) (ctx : option C) (b : B) : B * option error :=
  match ctx, dl_invoke d with
  | Some ctx, Some invoke => invoke (contextWithMetadata ctx (dl_metadata d)) b
  | _, _ => (b, Some (wrapS ErrInvalidMessage "invalid delivery invocation"))
  end.
Definition reportExpiry (d : delivery) (ctx : C) (err : error) (b : B) : B :=
  match dl_onExpire d with None => b | Some f => f ctx err b end.

Definition expired (m : Metadata) (now : Time) : bool := negb (IsZero (md_ExpiresAt m)) && negb (After (md_ExpiresAt m) now).

Definition validateImmediateTiming (m : Metadata) (now : Time) : option error :=
  if expired m (UTC now) then Permanent (Some (ESentinel ErrMessageExpired))
  else if negb (IsZero (md_NotBefore m)) && After (md_NotBefore m) (UTC now)
  then Some (EFmt "local routes cannot schedule delivery" [ESentinel ErrUnsupportedCapability; ESentinel ErrMessageNotReady])
  else None.

(** ** Routes *)
Record Service := { sv_pointer : option Z }.      (** the address of a pointer, zero for nil *)

Record Route := {
  rt_Name : string;
  rt_nilPointer : bool;
  rt_Deliver : option C -> option delivery -> B -> B * (Receipt * option error);
  rt_DeliverBatch : option (C -> list delivery -> B -> B * (list Receipt * option error));   (** [BatchRoute] *)
  rt_localRoute : bool;                                                                      (** [localRoute] *)
  rt_ManagedService : option (string * option Service) }.                                    (** [ServiceProvider] *)

Record localQueryResult := { qr_value : any; qr_expectedOutputType : option rtype; qr_present : bool }.
Definition localQueryResult0 : localQueryResult := {| qr_value := None; qr_expectedOutputType := None; qr_present := false |}.
Record localQueryCall := { lq_metadata : Metadata; lq_invoke : option (C -> B -> B * (localQueryResult * option error)) }.

Record LocalQueryRoute := {
  lr_Name : string;
  lr_nilPointer : bool;
  lr_query : option C -> localQueryCall -> B -> B * (localQueryResult * option error);
  lr_ManagedService : option (string * option Service) }.

(** ** Executors *)
(** [time.Now] is a reading of the state. *)
Context (timeNow : B -> B * Time).

Definition localCallExecutor (call : delivery) (ctx : C) (b : B) : B * option error :=
  let m := dl_metadata call in
  let '(b, now) := if IsZero (md_ExpiresAt m) then (b, 0) else timeNow b in
  if expired m now then
    let err := EPermanent (ESentinel ErrMessageExpired) in
    (reportExpiry call ctx err b, Some err)
  else Delivery_Invoke call (Some ctx) b.

(** [&localQueryInvocationError{err}]: no other error has this label. *)
Definition localQueryInvocationError (err : error) : error := EFmt "localQueryInvocationError" [err].
Definition as_invocation (e : error) : option error :=
  match e with
  | EFmt label [err] => if String.eqb label "localQueryInvocationError" then Some err else None
  | _ => None
  end.
Definition unwrapLocalQueryInvocationError (err : option error) : bool * option error :=
  match err ≫= errors_as as_invocation with
  | Some e => (true, Some e)
  | None => (false, err)
  end.

Definition localQueryCallExecutor (call : localQueryCall) (ctx : C) (b : B) : B * (localQueryResult * option error) :=
  match lq_invoke call with
  | None => (b, (localQueryResult0, Some (wrapS ErrInvalidMessage "empty local query call")))
  | Some invoke =>
      let '(b, (result, err)) := invoke (contextWithMetadata ctx (lq_metadata call)) b in
      match err with
      | Some err => (b, (result, Some (localQueryInvocationError err)))
      | None => (b, (result, None))
      end
  end.

(** ** The bus *)
Class GoBus := {
  Dispatch : (C -> B -> B * option error) -> C -> B -> B * option error;
  DispatchResult : (C -> B -> B * (localQueryResult * option error)) -> C -> B -> B * (localQueryResult * option error);
  dispatch_once exec c b :
    Dispatch exec c b = exec c b \/ exists err, Dispatch exec c b = (b, Some err);
  dispatch_result_once exec c b :
    DispatchResult exec c b = exec c b \/
    exists err, DispatchResult exec c b = (b, (localQueryResult0, Some err)) /\ errors_as as_invocation err = None }.
Context `{!GoBus}.

Definition local_sync : string := "local.sync".

Definition LocalSync_Deliver (ctx : option C) (d : option delivery) (b : B) : B * (Receipt * option error) :=
  match ctx, d with
  | Some ctx, Some d =>
      let m := dl_metadata d in
      let '(b, now) := timeNow b in
      match validateImmediateTiming m now with
      | Some err => (b, (Receipt0, Some err))
      | None =>
          let receipt state at_ := {| rc_MessageID := md_ID m; rc_Route := local_sync; rc_State := state; rc_At := UTC at_ |} in
          if String.eqb (md_Kind m) KindEvent && (dl_handlers d =? 0) then
            let '(b, now) := timeNow b in (b, (receipt ReceiptNoop now, None))
          else
            let '(b, err) := Dispatch (localCallExecutor d) ctx b in
            match err with
            | Some err => (b, (Receipt0, Some err))
            | None => let '(b, now) := timeNow b in (b, (receipt ReceiptCompleted now, None))
            end
      end
  | _, _ => (b, (Receipt0, Some (wrapS ErrInvalidMessage "local sync delivery")))
  end.

Definition LocalSync_query (ctx : option C) (call : localQueryCall) (b : B) : B * (localQueryResult * option error) :=
  match ctx, lq_invoke call with
  | Some ctx, Some _ =>
      let '(b, (result, err)) := DispatchResult (localQueryCallExecutor call) ctx b in
      (b, (result, (unwrapLocalQueryInvocationError err).2))
  | _, _ => (b, (localQueryResult0, Some (wrapS ErrInvalidMessage "local sync query")))
  end.

Definition NewLocalSyncRoute : Route :=
  {| rt_Name := local_sync; rt_nilPointer := false; rt_Deliver := LocalSync_Deliver; rt_DeliverBatch := None;
     rt_localRoute := true; rt_ManagedService := None |}.
Definition NewLocalSyncQueryRoute : LocalQueryRoute :=
  {| lr_Name := local_sync; lr_nilPointer := false; lr_query := LocalSync_query; lr_ManagedService := None |}.
End Routes.
Arguments delivery : clear implicits.
Arguments Route : clear implicits.
Arguments localQueryCall B C {_}.
Arguments LocalQueryRoute B C {_}.
Arguments Observer : clear implicits.
Arguments Logger : clear implicits.
Arguments observerSet : clear implicits.
Arguments GoBus B C {_}.
End Route.
