(* ===== verification/Builder.v ===== *)
(** * Declaring a messenger

    Models the registrations of [builder.go]: options, middleware, handlers,
    subscriptions, routes and services.  The builder's methods mutate the builder
    and collect errors; here they return the builder.  [Manifest] and [Build] hold
    the rest of the component. *)
From S2P Require Import Prelude GoStrings Errors Ident Envelope Middleware Delivery Route.
Import Stdlib.Strings.String.
Import Envelope Route.
Open Scope string_scope.
Open Scope Z_scope.

Module Builder.
Section Builder.
Context {B C : Type} `{!GoTypes, !GoContext C, !EnvelopeJSON}.

(** ** Handlers *)
Definition Handler : Type := Message any -> C -> B -> B * Middleware.flow.
(** A query handler answers, fails or panics. *)
Inductive query_flow : Type := QRet (value : any) (err : option error) | QPan (recovered : string).
Definition QueryHandler : Type := Message any -> C -> B -> B * query_flow.
Definition MessengerMiddleware : Type := Metadata -> string -> Middleware.MiddlewareFn B C.

(** [func(any) (funcContextHandler, error)] *)
Definition handlerFactory : Type := any -> result error (C -> B -> B * Middleware.flow).
Definition queryFactory : Type := any -> result error (C -> B -> B * (localQueryResult * (option error + string))).

(** The zero value of the struct. *)
Definition Metadata0 : Metadata :=
  {| md_ID := zeroID; md_Kind := ""; md_Name := ""; md_SchemaVersion := 0; md_Source := ""; md_Subject := "";
     md_Time := 0; md_CorrelationID := zeroID; md_CausationID := zeroID; md_Key := ""; md_ContentType := "";
     md_Schema := ""; md_Headers := ∅; md_NotBefore := 0; md_ExpiresAt := 0 |}.

(** ** Descriptors *)
(** [Command[T]], [Event[T]] and [Query[Q, R]] with their type arguments. *)
Record Typed := { t_descriptor : descriptor any; t_type : rtype }.
(** The field [resultType] is [TypeFor[R]], or nil in a zero value. *)
Record TypedQuery := { tq_descriptor : descriptor any; tq_type : rtype; tq_R : rtype; tq_zero : bool }.
Definition tq_resultType (d : TypedQuery) : option rtype := if tq_zero d then None else Some (tq_R d).

Record descriptorRegistration := {
  dr_info : DescriptorInfo;
  dr_payloadType : rtype;
  dr_encode : any -> result error (string * DataEncoding) }.

Definition eraseDescriptor (d : descriptor any) (T : rtype) : descriptorRegistration :=
  {| dr_info := d_info d;
     dr_payloadType := T;
     dr_encode := fun payload =>
       match payloadAs T payload with
       | None => Err (wrapS ErrDescriptorConflict "payload")
       | Some typed =>
           match Encode (d_codec d) typed with
           | Err err => Err err
           | Ok data => Ok (data, Encoding (d_codec d))
           end
       end |}.

#[global] Instance DescriptorInfo_eq_dec : EqDecision DescriptorInfo.
Proof. solve_decision. Defined.

Definition sameDescriptor (existing : descriptorRegistration) (info : DescriptorInfo) (payloadType : rtype) : bool :=
  bool_decide (dr_info existing = info) && bool_decide (dr_payloadType existing = payloadType).

(** ** Registrations *)
Record commandRegistration := {
  cr_descriptor : descriptorRegistration;
  cr_handlerID : string;
  cr_handler : option handlerFactory;
  cr_route : option (Route B C) }.
Record queryRegistration := {
  qr_descriptor : descriptorRegistration;
  qr_resultType : option rtype;
  qr_handlerID : string;
  qr_handler : option queryFactory;
  qr_route : option (LocalQueryRoute B C) }.
Record eventSubscriber := { es_id : string; es_handler : handlerFactory }.
Record eventRegistration := {
  er_descriptor : descriptorRegistration;
  er_subscribers : list eventSubscriber;
  er_route : option (Route B C) }.
Record namedService := { ns_id : string; ns_service : Service; ns_valueID : Z }.

(** What the options set. *)
Record config := {
  bc_source : string;
  bc_idGenerator : B -> B * result error MessageID;
  bc_clock : B -> B * Time;
  bc_logger : Logger B C;
  bc_observers : list (Observer B C);
  bc_propagator : option (C -> gmap string string -> gmap string string);   (** [None] is the no-op *)
  bc_panicReporter : option (C -> PanicReport -> B -> B);
  bc_runtimeShutdownTimeout : Duration }.

Record Builder := {
  b_config : config;
  b_middlewares : list MessengerMiddleware;
  b_commands : gmap descriptorKey commandRegistration;
  b_events : gmap descriptorKey eventRegistration;
  b_queries : gmap descriptorKey queryRegistration;
  b_services : gmap string namedService;
  b_errors : list error }.

Definition addError (err : error) (b : Builder) : Builder :=
  {| b_config := b_config b; b_middlewares := b_middlewares b; b_commands := b_commands b; b_events := b_events b;
     b_queries := b_queries b; b_services := b_services b; b_errors := (b_errors b ++ [err])%list |}.
Definition set_config (c : config) (b : Builder) : Builder :=
  {| b_config := c; b_middlewares := b_middlewares b; b_commands := b_commands b; b_events := b_events b;
     b_queries := b_queries b; b_services := b_services b; b_errors := b_errors b |}.
Definition set_middlewares (l : list MessengerMiddleware) (b : Builder) : Builder :=
  {| b_config := b_config b; b_middlewares := l; b_commands := b_commands b; b_events := b_events b;
     b_queries := b_queries b; b_services := b_services b; b_errors := b_errors b |}.
Definition set_command (k : descriptorKey) (r : commandRegistration) (b : Builder) : Builder :=
  {| b_config := b_config b; b_middlewares := b_middlewares b; b_commands := <[k := r]> (b_commands b); b_events := b_events b;
     b_queries := b_queries b; b_services := b_services b; b_errors := b_errors b |}.
Definition set_event (k : descriptorKey) (r : eventRegistration) (b : Builder) : Builder :=
  {| b_config := b_config b; b_middlewares := b_middlewares b; b_commands := b_commands b; b_events := <[k := r]> (b_events b);
     b_queries := b_queries b; b_services := b_services b; b_errors := b_errors b |}.
Definition set_query (k : descriptorKey) (r : queryRegistration) (b : Builder) : Builder :=
  {| b_config := b_config b; b_middlewares := b_middlewares b; b_commands := b_commands b; b_events := b_events b;
     b_queries := <[k := r]> (b_queries b); b_services := b_services b; b_errors := b_errors b |}.
Definition set_service (id : string) (s : namedService) (b : Builder) : Builder :=
  {| b_config := b_config b; b_middlewares := b_middlewares b; b_commands := b_commands b; b_events := b_events b;
     b_queries := b_queries b; b_services := <[id := s]> (b_services b); b_errors := b_errors b |}.

(** ** Options *)
Definition Option : Type := Builder -> Builder.
Definition invalid (label : string) : error := wrapS ErrInvalidMessage label.

Definition update_config (f : config -> config) : Option := fun b => set_config (f (b_config b)) b.
(** A nil argument is refused. *)
Definition with_value {A} (label : string) (a : option A) (f : A -> config -> config) : Option := fun b =>
  match a with None => addError (invalid label) b | Some a => update_config (f a) b end.

Definition WithSource (source : string) : Option := update_config (fun c =>
  {| bc_source := source; bc_idGenerator := bc_idGenerator c; bc_clock := bc_clock c; bc_logger := bc_logger c;
     bc_observers := bc_observers c; bc_propagator := bc_propagator c; bc_panicReporter := bc_panicReporter c;
     bc_runtimeShutdownTimeout := bc_runtimeShutdownTimeout c |}).
Definition WithIDGenerator (generator : option (B -> B * result error MessageID)) : Option :=
  with_value "nil ID generator" generator (fun g c =>
  {| bc_source := bc_source c; bc_idGenerator := g; bc_clock := bc_clock c; bc_logger := bc_logger c;
     bc_observers := bc_observers c; bc_propagator := bc_propagator c; bc_panicReporter := bc_panicReporter c;
     bc_runtimeShutdownTimeout := bc_runtimeShutdownTimeout c |}).
Definition WithClock (clock : option (B -> B * Time)) : Option :=
  with_value "nil clock" clock (fun t c =>
  {| bc_source := bc_source c; bc_idGenerator := bc_idGenerator c; bc_clock := t; bc_logger := bc_logger c;
     bc_observers := bc_observers c; bc_propagator := bc_propagator c; bc_panicReporter := bc_panicReporter c;
     bc_runtimeShutdownTimeout := bc_runtimeShutdownTimeout c |}).
Definition WithLogger (logger : option (Logger B C)) : Option :=
  with_value "nil logger" logger (fun l c =>
  {| bc_source := bc_source c; bc_idGenerator := bc_idGenerator c; bc_clock := bc_clock c; bc_logger := l;
     bc_observers := bc_observers c; bc_propagator := bc_propagator c; bc_panicReporter := bc_panicReporter c;
     bc_runtimeShutdownTimeout := bc_runtimeShutdownTimeout c |}).
Definition WithObserver (observer : option (Observer B C)) : Option :=
  with_value "nil observer" observer (fun o c =>
  {| bc_source := bc_source c; bc_idGenerator := bc_idGenerator c; bc_clock := bc_clock c; bc_logger := bc_logger c;
     bc_observers := (bc_observers c ++ [o])%list; bc_propagator := bc_propagator c; bc_panicReporter := bc_panicReporter c;
     bc_runtimeShutdownTimeout := bc_runtimeShutdownTimeout c |}).
Definition WithContextPropagator (propagator : option (option (C -> gmap string string -> gmap string string))) : Option :=
  with_value "nil context propagator" propagator (fun p c =>
  {| bc_source := bc_source c; bc_idGenerator := bc_idGenerator c; bc_clock := bc_clock c; bc_logger := bc_logger c;
     bc_observers := bc_observers c; bc_propagator := p; bc_panicReporter := bc_panicReporter c;
     bc_runtimeShutdownTimeout := bc_runtimeShutdownTimeout c |}).
Definition WithPanicReporter (reporter : option (C -> PanicReport -> B -> B)) : Option :=
  with_value "nil panic reporter" reporter (fun p c =>
  {| bc_source := bc_source c; bc_idGenerator := bc_idGenerator c; bc_clock := bc_clock c; bc_logger := bc_logger c;
     bc_observers := bc_observers c; bc_propagator := bc_propagator c; bc_panicReporter := Some p;
     bc_runtimeShutdownTimeout := bc_runtimeShutdownTimeout c |}).
Definition WithRuntimeShutdownTimeout (timeout : Duration) : Option :=
  with_value "runtime shutdown timeout must be positive" (if timeout <=? 0 then None else Some timeout) (fun t c =>
  {| bc_source := bc_source c; bc_idGenerator := bc_idGenerator c; bc_clock := bc_clock c; bc_logger := bc_logger c;
     bc_observers := bc_observers c; bc_propagator := bc_propagator c; bc_panicReporter := bc_panicReporter c;
     bc_runtimeShutdownTimeout := t |}).

(** A list of the options above; [ONil] is a nil option. *)
Inductive option_value : Type :=
| ONil
| OSource (source : string)
| OIDGenerator (generator : option (B -> B * result error MessageID))
| OClock (clock : option (B -> B * Time))
| OLogger (logger : option (Logger B C))
| OObserver (observer : option (Observer B C))
| OContextPropagator (propagator : option (option (C -> gmap string string -> gmap string string)))
| OPanicReporter (reporter : option (C -> PanicReport -> B -> B))
| ORuntimeShutdownTimeout (timeout : Duration).
Definition option_of (o : option_value) : option Option :=
  match o with
  | ONil => None
  | OSource s => Some (WithSource s)
  | OIDGenerator g => Some (WithIDGenerator g)
  | OClock c => Some (WithClock c)
  | OLogger l => Some (WithLogger l)
  | OObserver o => Some (WithObserver o)
  | OContextPropagator p => Some (WithContextPropagator p)
  | OPanicReporter r => Some (WithPanicReporter r)
  | ORuntimeShutdownTimeout t => Some (WithRuntimeShutdownTimeout t)
  end.

(** [defaults] are the UUIDv7 generator, [time.Now] and the no-op logger. *)
Definition NewBuilder (defaults : config) (options : list (option Option)) : Builder :=
  fold_left (fun b (option : option Option) =>
      match option with None => addError (invalid "nil builder option") b | Some option => option b end)
    options
    {| b_config := defaults; b_middlewares := []; b_commands := ∅; b_events := ∅; b_queries := ∅; b_services := ∅; b_errors := [] |}.

(** ** Declarations *)
Definition UseMiddleware (middlewares : list (option MessengerMiddleware)) (b : Builder) : Builder :=
  fold_left (fun b (middleware : option MessengerMiddleware) =>
      match middleware with
      | None => addError (invalid "nil middleware") b
      | Some m => set_middlewares (b_middlewares b ++ [m])%list b
      end) middlewares b.

Definition ensureCommand (d : Typed) (b : Builder) : Builder * option commandRegistration :=
  let info := d_info (t_descriptor d) in
  match b_commands b !! keyFor info with
  | Some registration =>
      if negb (sameDescriptor (cr_descriptor registration) info (t_type d))
      then (addError (wrapS ErrDescriptorConflict "command") b, None)
      else (b, Some registration)
  | None =>
      let registration := {| cr_descriptor := eraseDescriptor (t_descriptor d) (t_type d); cr_handlerID := "";
                             cr_handler := None; cr_route := None |} in
      (set_command (keyFor info) registration b, Some registration)
  end.

Definition ensureEvent (d : Typed) (b : Builder) : Builder * option eventRegistration :=
  let info := d_info (t_descriptor d) in
  match b_events b !! keyFor info with
  | Some registration =>
      if negb (sameDescriptor (er_descriptor registration) info (t_type d))
      then (addError (wrapS ErrDescriptorConflict "event") b, None)
      else (b, Some registration)
  | None =>
      let registration := {| er_descriptor := eraseDescriptor (t_descriptor d) (t_type d); er_subscribers := []; er_route := None |} in
      (set_event (keyFor info) registration b, Some registration)
  end.

Definition ensureQuery (d : TypedQuery) (b : Builder) : Builder * option queryRegistration :=
  let info := d_info (tq_descriptor d) in
  match b_queries b !! keyFor info with
  | Some registration =>
      if negb (sameDescriptor (qr_descriptor registration) info (tq_type d))
         || negb (bool_decide (qr_resultType registration = tq_resultType d))
         || negb (bool_decide (tq_resultType d = Some (tq_R d)))
      then (addError (wrapS ErrDescriptorConflict "query") b, None)
      else (b, Some registration)
  | None =>
      let registration := {| qr_descriptor := eraseDescriptor (tq_descriptor d) (tq_type d); qr_resultType := tq_resultType d;
                             qr_handlerID := ""; qr_handler := None; qr_route := None |} in
      (set_query (keyFor info) registration b, Some registration)
  end.

(** The closures the builder stores. *)
Definition message_of (ctx : C) (payload : any) : Message any :=
  {| m_Metadata := default Metadata0 (MetadataFromContext ctx); m_Payload := payload |}.
Definition factory (T : rtype) (label : string) (handler : Handler) : handlerFactory := fun payload =>
  match payloadAs T payload with
  | None => Err (wrapS ErrDescriptorConflict label)
  | Some typed => Ok (fun ctx => handler (message_of ctx typed) ctx)
  end.
Definition query_factory (d : TypedQuery) (handler : QueryHandler) : queryFactory := fun payload =>
  match payloadAs (tq_type d) payload with
  | None => Err (wrapS ErrDescriptorConflict "query payload type")
  | Some typed => Ok (fun ctx b =>
      let '(b, r) := handler (message_of ctx typed) ctx b in
      (b, match r with
          | QRet value None => ({| qr_value := value; qr_expectedOutputType := tq_resultType d; qr_present := true |}, inl None)
          | QRet _ (Some err) => ({| qr_value := None; qr_expectedOutputType := tq_resultType d; qr_present := false |}, inl (Some err))
          | QPan recovered => (localQueryResult0, inr recovered)
          end))
  end.

Definition HandleCommand (d : Typed) (handlerID : string) (handler : option Handler) (b : Builder) : Builder :=
  match ensureCommand d b with
  | (b, None) => b
  | (b, Some registration) =>
      match handler with
      | Some handler =>
          if negb (validStableID handlerID) then addError (wrapS ErrHandlerConflict "invalid handler") b
          else match cr_handler registration with
          | Some _ => addError (wrapS ErrHandlerConflict "command") b
          | None =>
              set_command (keyFor (d_info (t_descriptor d)))
                {| cr_descriptor := cr_descriptor registration; cr_handlerID := handlerID;
                   cr_handler := Some (factory (t_type d) "command payload type" handler); cr_route := cr_route registration |} b
          end
      | None => addError (wrapS ErrHandlerConflict "invalid handler") b
      end
  end.

Definition HandleQuery (d : TypedQuery) (handlerID : string) (handler : option QueryHandler) (b : Builder) : Builder :=
  match ensureQuery d b with
  | (b, None) => b
  | (b, Some registration) =>
      match handler with
      | Some handler =>
          if negb (validStableID handlerID) then addError (wrapS ErrHandlerConflict "invalid query handler") b
          else match qr_handler registration with
          | Some _ => addError (wrapS ErrHandlerConflict "query") b
          | None =>
              set_query (keyFor (d_info (tq_descriptor d)))
                {| qr_descriptor := qr_descriptor registration; qr_resultType := qr_resultType registration; qr_handlerID := handlerID;
                   qr_handler := Some (query_factory d handler); qr_route := qr_route registration |} b
          end
      | None => addError (wrapS ErrHandlerConflict "invalid query handler") b
      end
  end.

Definition Subscribe (d : Typed) (subscriptionID : string) (handler : option Handler) (b : Builder) : Builder :=
  match ensureEvent d b with
  | (b, None) => b
  | (b, Some registration) =>
      match handler with
      | Some handler =>
          if negb (validStableID subscriptionID) then addError (wrapS ErrHandlerConflict "invalid subscription") b
          else if existsb (fun subscriber => String.eqb (es_id subscriber) subscriptionID) (er_subscribers registration)
          then addError (wrapS ErrHandlerConflict "duplicate subscription") b
          else
            set_event (keyFor (d_info (t_descriptor d)))
              {| er_descriptor := er_descriptor registration;
                 er_subscribers := (er_subscribers registration
                   ++ [{| es_id := subscriptionID; es_handler := factory (t_type d) "event payload type" handler |}])%list;
                 er_route := er_route registration |} b
      | None => addError (wrapS ErrHandlerConflict "invalid subscription") b
      end
  end.

(** ** Routes and services *)
(** [validateRoute] and [validateQueryRoute] report one error or none. *)
Definition validate_route_name (nilPointer : bool) (name : string) : option error :=
  if nilPointer then Some (wrapS ErrRouteNotFound "nil route")
  else if negb (validStableID name) then Some (wrapS ErrRouteNotFound "invalid route name") else None.
Definition validateRoute (route : option (Route B C)) : option error :=
  match route with None => Some (wrapS ErrRouteNotFound "nil route") | Some r => validate_route_name (rt_nilPointer r) (rt_Name r) end.
Definition validateQueryRoute (route : option (LocalQueryRoute B C)) : option error :=
  match route with None => Some (wrapS ErrRouteNotFound "nil query route") | Some r => validate_route_name (lr_nilPointer r) (lr_Name r) end.

Definition addService (serviceID : string) (service : option Service) (b : Builder) : Builder :=
  match service with
  | None => addError (wrapS ErrServiceConflict "invalid service") b
  | Some service =>
      if negb (validStableID serviceID) then addError (wrapS ErrServiceConflict "invalid service") b
      else if bool_decide (sv_pointer service = Some 0) then addError (wrapS ErrServiceConflict "nil service") b
      else
        let valueID := default 0 (sv_pointer service) in
        match b_services b !! serviceID with
        | Some existing =>
            if negb (valueID =? 0) && (ns_valueID existing =? valueID) then b
            else addError (wrapS ErrServiceConflict "service") b
        | None => set_service serviceID {| ns_id := serviceID; ns_service := service; ns_valueID := valueID |} b
        end
  end.

Definition addRouteService (managed : option (string * option Service)) (b : Builder) : Builder :=
  match managed with None => b | Some (serviceID, service) => addService serviceID service b end.

Definition RouteCommand (d : Typed) (route : option (Route B C)) (b : Builder) : Builder :=
  match ensureCommand d b with
  | (b, None) => b
  | (b, Some registration) =>
      match validateRoute route with
      | Some err => addError err b
      | None =>
          match cr_route registration with
          | Some _ => addError (wrapS ErrRouteConflict "command") b
          | None =>
              addRouteService (route ≫= rt_ManagedService)
                (set_command (keyFor (d_info (t_descriptor d)))
                   {| cr_descriptor := cr_descriptor registration; cr_handlerID := cr_handlerID registration;
                      cr_handler := cr_handler registration; cr_route := route |} b)
          end
      end
  end.

Definition RouteEvent (d : Typed) (route : option (Route B C)) (b : Builder) : Builder :=
  match ensureEvent d b with
  | (b, None) => b
  | (b, Some registration) =>
      match validateRoute route with
      | Some err => addError err b
      | None =>
          match er_route registration with
          | Some _ => addError (wrapS ErrRouteConflict "event") b
          | None =>
              addRouteService (route ≫= rt_ManagedService)
                (set_event (keyFor (d_info (t_descriptor d)))
                   {| er_descriptor := er_descriptor registration; er_subscribers := er_subscribers registration; er_route := route |} b)
          end
      end
  end.

Definition RouteQuery (d : TypedQuery) (route : option (LocalQueryRoute B C)) (b : Builder) : Builder :=
  match ensureQuery d b with
  | (b, None) => b
  | (b, Some registration) =>
      match validateQueryRoute route with
      | Some err => addError err b
      | None =>
          match qr_route registration with
          | Some _ => addError (wrapS ErrRouteConflict "query") b
          | None =>
              addRouteService (route ≫= lr_ManagedService)
                (set_query (keyFor (d_info (tq_descriptor d)))
                   {| qr_descriptor := qr_descriptor registration; qr_resultType := qr_resultType registration;
                      qr_handlerID := qr_handlerID registration; qr_handler := qr_handler registration; qr_route := route |} b)
          end
      end
  end.

Definition Use (serviceID : string) (service : option Service) (b : Builder) : Builder := addService serviceID service b.

(** ** Sequences of declarations *)
Inductive declaration : Type :=
| DMiddleware (middlewares : list (option MessengerMiddleware))
| DCommand (d : Typed) (handlerID : string) (handler : option Handler)
| DQuery (d : TypedQuery) (handlerID : string) (handler : option QueryHandler)
| DSubscribe (d : Typed) (subscriptionID : string) (handler : option Handler)
| DRouteCommand (d : Typed) (route : option (Route B C))
| DRouteEvent (d : Typed) (route : option (Route B C))
| DRouteQuery (d : TypedQuery) (route : option (LocalQueryRoute B C))
| DUse (serviceID : string) (service : option Service).

Definition declare (x : declaration) : Builder -> Builder :=
  match x with
  | DMiddleware ms => UseMiddleware ms
  | DCommand d id h => HandleCommand d id h
  | DQuery d id h => HandleQuery d id h
  | DSubscribe d id h => Subscribe d id h
  | DRouteCommand d r => RouteCommand d r
  | DRouteEvent d r => RouteEvent d r
  | DRouteQuery d r => RouteQuery d r
  | DUse id s => Use id s
  end.
Definition declare_all (xs : list declaration) (b : Builder) : Builder := fold_left (fun b x => declare x b) xs b.
End Builder.
Arguments Builder B C {_}.
Arguments declaration B C {_}.
Arguments option_value B C : clear implicits.
Arguments config B C : clear implicits.
Arguments commandRegistration B C {_}.
Arguments eventRegistration B C {_}.
Arguments queryRegistration B C {_}.
Arguments eventSubscriber B C {_}.
Arguments handlerFactory B C {_}.
Arguments queryFactory B C {_}.
Arguments MessengerMiddleware B C : clear implicits.
Arguments Handler B C {_}.
Arguments QueryHandler B C {_}.
End Builder.
