(* ===== verification/Manifest.v ===== *)
(** * Bindings, the manifest and the messenger

    Models the binding records of [messenger.go], [manifest.go] (the description
    of a built messenger and its validation) and [Build] of [builder.go].  Go iterates over maps in any order:
    the class [MapRange] is the order of one run. *)
From S2P Require Import Prelude GoStrings GoText Errors Ident Envelope Middleware Delivery Route Builder.
From stdpp Require Import sorting.
Import Stdlib.Strings.String.
Import Envelope Route Builder.
Open Scope string_scope.
Open Scope Z_scope.

Module Manifest.

Class MapRange := {
  range {K A} `{Countable K} : gmap K A -> list (K * A);
  range_perm {K A} `{Countable K} (m : gmap K A) : range m ≡ₚ map_to_list m }.

(** The keys of a map used as a set. *)
Lemma distinct_keys `{!MapRange} `{Countable K} (ks : list K) :
  let l := List.map fst (range (list_to_map (M := gmap K unit) (List.map (fun x => (x, tt)) ks))) in
  NoDup l /\ Forall (fun k => k ∈ ks) l.
Proof.
  intros l. assert (l ≡ₚ (map_to_list (list_to_map (M := gmap K unit) (List.map (fun x => (x, tt)) ks))).*1) as Hl
    by (unfold l; by rewrite range_perm).
  rewrite Hl. split; [apply NoDup_fst_map_to_list|]. apply Forall_forall. intros k Hk.
  apply list_elem_of_fmap in Hk as ([k' []] & -> & Hk). apply elem_of_map_to_list, elem_of_list_to_map_2 in Hk.
  apply list_elem_of_fmap in Hk as (k & E & Hk). by injection E as ->.
Qed.

Section Bindings.
Context {B C : Type} `{!GoTypes, !GoContext C, !EnvelopeJSON}.

Record commandBinding := {
  cb_descriptor : descriptorRegistration;
  cb_handlerID : string;
  cb_handler : option (handlerFactory B C);
  cb_route : option (Route B C);
  cb_observer : option (observerSet B C);
  cb_clock : B -> B * Time;
  cb_middleware : list (MessengerMiddleware B C);
  cb_panicReporter : option (C -> PanicReport -> B -> B) }.
Record queryBinding := {
  qb_descriptor : descriptorRegistration;
  qb_resultType : option rtype;
  qb_handlerID : string;
  qb_handler : option (queryFactory B C);
  qb_route : option (LocalQueryRoute B C);
  qb_observer : option (observerSet B C);
  qb_clock : B -> B * Time;
  qb_middleware : list (MessengerMiddleware B C);
  qb_panicReporter : option (C -> PanicReport -> B -> B) }.
Record eventBinding := {
  eb_descriptor : descriptorRegistration;
  eb_subscribers : list (eventSubscriber B C);
  eb_route : option (Route B C);
  eb_observer : option (observerSet B C);
  eb_clock : B -> B * Time;
  eb_middleware : list (MessengerMiddleware B C);
  eb_panicReporter : option (C -> PanicReport -> B -> B) }.

Definition makeCommandBinding (r : commandRegistration B C) (observer : option (observerSet B C)) (clock : B -> B * Time)
    (middleware : list (MessengerMiddleware B C)) (panicReporter : option (C -> PanicReport -> B -> B)) : commandBinding :=
  {| cb_descriptor := cr_descriptor r; cb_handlerID := cr_handlerID r; cb_handler := cr_handler r; cb_route := cr_route r;
     cb_observer := observer; cb_clock := clock; cb_middleware := middleware; cb_panicReporter := panicReporter |}.
Definition makeQueryBinding (r : queryRegistration B C) (observer : option (observerSet B C)) (clock : B -> B * Time)
    (middleware : list (MessengerMiddleware B C)) (panicReporter : option (C -> PanicReport -> B -> B)) : queryBinding :=
  {| qb_descriptor := qr_descriptor r; qb_resultType := qr_resultType r; qb_handlerID := qr_handlerID r; qb_handler := qr_handler r;
     qb_route := qr_route r; qb_observer := observer; qb_clock := clock; qb_middleware := middleware; qb_panicReporter := panicReporter |}.
Definition makeEventBinding (r : eventRegistration B C) (observer : option (observerSet B C)) (clock : B -> B * Time)
    (middleware : list (MessengerMiddleware B C)) (panicReporter : option (C -> PanicReport -> B -> B)) : eventBinding :=
  {| eb_descriptor := er_descriptor r; eb_subscribers := er_subscribers r; eb_route := er_route r;
     eb_observer := observer; eb_clock := clock; eb_middleware := middleware; eb_panicReporter := panicReporter |}.

(** ** The manifest *)
Definition ManifestSpecVersion : string := "1.0".
Record ManifestDescriptor := { mf_DescriptorInfo : DescriptorInfo; mf_Route : string; mf_HandlerIDs : list string }.
Record Manifest := { mf_SpecVersion : string; mf_Source : string; mf_Descriptors : list ManifestDescriptor; mf_Services : list string }.

(** The order of [sort.Slice]: kind, name, version. *)
Definition key_le (a b : descriptorKey) : Prop :=
  if negb (String.eqb (dk_kind a) (dk_kind b)) then string_le (dk_kind a) (dk_kind b)
  else if negb (String.eqb (dk_name a) (dk_name b)) then string_le (dk_name a) (dk_name b)
  else dk_schemaVersion a <= dk_schemaVersion b.
Definition manifest_le (a b : ManifestDescriptor) : Prop := key_le (keyFor (mf_DescriptorInfo a)) (keyFor (mf_DescriptorInfo b)).
#[global] Instance manifest_le_dec : RelDecision manifest_le.
Proof. intros a b. unfold manifest_le, key_le. destruct (negb _); [apply _|]. destruct (negb _); apply _. Defined.

Definition command_entry (c : commandBinding) : ManifestDescriptor :=
  {| mf_DescriptorInfo := dr_info (cb_descriptor c); mf_Route := match cb_route c with Some r => rt_Name r | None => "" end;
     mf_HandlerIDs := if String.eqb (cb_handlerID c) "" then [] else [cb_handlerID c] |}.
Definition event_entry (e : eventBinding) : ManifestDescriptor :=
  {| mf_DescriptorInfo := dr_info (eb_descriptor e); mf_Route := match eb_route e with Some r => rt_Name r | None => "" end;
     mf_HandlerIDs := List.map es_id (eb_subscribers e) |}.
(** A query without a route panics here; [Build] has refused it before. *)
Definition query_entry (q : queryBinding) : option ManifestDescriptor :=
  match qb_route q with
  | None => None
  | Some r => Some {| mf_DescriptorInfo := dr_info (qb_descriptor q); mf_Route := lr_Name r; mf_HandlerIDs := [qb_handlerID q] |}
  end.

Definition buildManifest `{!MapRange} (source : string) (commands : gmap descriptorKey commandBinding)
    (events : gmap descriptorKey eventBinding) (queries : gmap descriptorKey queryBinding) (services : list namedService)
  : option Manifest :=
  match mapM query_entry (List.map snd (range queries)) with
  | None => None
  | Some queryEntries =>
      Some {| mf_SpecVersion := ManifestSpecVersion;
              mf_Source := source;
              mf_Descriptors := merge_sort manifest_le
                (List.map command_entry (List.map snd (range commands)) ++ List.map event_entry (List.map snd (range events))
                 ++ queryEntries)%list;
              mf_Services := merge_sort string_le (List.map ns_id services) |}
  end.

(** ** Validation *)
(** The loop over ids with the set of those seen. *)
Fixpoint validate_ids (invalid duplicate : error) (seen : gset string) (ids : list string) : option error :=
  match ids with
  | [] => None
  | id :: ids =>
      if negb (validStableID id) then Some invalid
      else if bool_decide (id ∈ seen) then Some duplicate
      else validate_ids invalid duplicate ({[id]} ∪ seen) ids
  end.

Definition validateManifestDescriptor (d : ManifestDescriptor) : option error :=
  let info := mf_DescriptorInfo d in
  if negb (Kind_valid (di_Kind info)) || (maxDescriptorNameLength <? len (di_Name info))
     || negb (MatchString descriptorNamePattern (bytes (di_Name info))) || (di_SchemaVersion info <=? 0)
     || String.eqb (di_ContentType info) "" || negb (DataEncoding_valid (di_DataEncoding info))
  then Some (wrapS ErrInvalidDescriptor "manifest descriptor")
  else if negb (String.eqb (mf_Route d) "") && negb (validStableID (mf_Route d))
  then Some (wrapS ErrRouteConflict "invalid manifest route")
  else if (String.eqb (di_Kind info) KindCommand || String.eqb (di_Kind info) KindQuery) && (1 <? Z.of_nat (List.length (mf_HandlerIDs d)))
  then Some (wrapS ErrHandlerConflict "multiple handlers")
  else if String.eqb (di_Kind info) KindQuery && String.eqb (mf_Route d) "" then Some (wrapS ErrRouteNotFound "query")
  else if String.eqb (di_Kind info) KindQuery && (Z.of_nat (List.length (mf_HandlerIDs d)) =? 0) then Some (wrapS ErrHandlerNotFound "query")
  else validate_ids (wrapS ErrHandlerConflict "invalid manifest handler") (wrapS ErrHandlerConflict "duplicate manifest handler") ∅
         (mf_HandlerIDs d).

Definition validateManifestServices (serviceIDs : list string) : option error :=
  validate_ids (wrapS ErrServiceConflict "invalid manifest service") (wrapS ErrServiceConflict "duplicate manifest service") ∅ serviceIDs.

Fixpoint validate_descriptors (seen : gset descriptorKey) (ds : list ManifestDescriptor) : option error :=
  match ds with
  | [] => None
  | d :: ds =>
      match validateManifestDescriptor d with
      | Some err => Some err
      | None =>
          let key := keyFor (mf_DescriptorInfo d) in
          if bool_decide (key ∈ seen) then Some (wrapS ErrDescriptorConflict "duplicate manifest descriptor")
          else validate_descriptors ({[key]} ∪ seen) ds
      end
  end.

Definition Manifest_Validate (m : Manifest) : option error :=
  if negb (String.eqb (mf_SpecVersion m) ManifestSpecVersion) then Some (wrapS ErrInvalidMessage "manifest specVersion")
  else match validateSource (mf_Source m) with
  | Some err => Some err
  | None =>
      match validate_descriptors ∅ (mf_Descriptors m) with
      | Some err => Some err
      | None => validateManifestServices (mf_Services m)
      end
  end.
End Bindings.
Arguments commandBinding B C {_}.
Arguments eventBinding B C {_}.
Arguments queryBinding B C {_}.
End Manifest.

(** * Building the messenger

    [Build] of [builder.go]: the last checks, the bindings and the manifest. *)
Import Manifest.

Module Build.
Section Build.
Context {B C : Type} `{!GoTypes, !GoContext C, !EnvelopeJSON, GR : !MapRange}.

Record Messenger := {
  ms_source : string;
  ms_idGenerator : B -> B * result error MessageID;
  ms_clock : B -> B * Time;
  ms_observer : option (observerSet B C);
  ms_propagator : option (C -> gmap string string -> gmap string string);
  ms_commands : gmap descriptorKey (commandBinding B C);
  ms_events : gmap descriptorKey (eventBinding B C);
  ms_queries : gmap descriptorKey (queryBinding B C);
  ms_manifest : Manifest }.

(** What [newRuntime] is given. *)
Record runtimeConfig := { rn_services : list namedService; rn_shutdownTimeout : Duration }.

Definition command_check (r : commandRegistration B C) (b : Builder B C) : Builder B C :=
  match cr_route r, cr_handler r with
  | Some route, None => if rt_localRoute route then addError (wrapS ErrHandlerNotFound "local command") b else b
  | _, _ => b
  end.
Definition query_check (q : queryRegistration B C) (b : Builder B C) : Builder B C :=
  let b := match qr_handler q with None => addError (wrapS ErrHandlerNotFound "query") b | Some _ => b end in
  match qr_route q with None => addError (wrapS ErrRouteNotFound "query") b | Some _ => b end.

(** The checks that end the declaration. *)
Definition final_checks (b : Builder B C) : Builder B C :=
  let b := match validateSource (bc_source (b_config b)) with Some err => addError err b | None => b end in
  let b := fold_left (fun b kr => command_check kr.2 b) (range (b_commands b)) b in
  fold_left (fun b kq => query_check kq.2 b) (range (b_queries b)) b.

(** The outer [None] is a panic. *)
Definition Build (b : Builder B C) : Builder B C * option (result error (Messenger * runtimeConfig)) :=
  let b := final_checks b in
  (b, match errors_join (List.map Some (b_errors b)) with
      | Some err => Some (Err err)
      | None =>
          let c := b_config b in
          let observer := newObserverSet (Some (bc_logger c)) (bc_observers c) in
          let commands := (fun r => makeCommandBinding r observer (bc_clock c) (b_middlewares b) (bc_panicReporter c)) <$> b_commands b in
          let events := (fun r => makeEventBinding r observer (bc_clock c) (b_middlewares b) (bc_panicReporter c)) <$> b_events b in
          let queries := (fun r => makeQueryBinding r observer (bc_clock c) (b_middlewares b) (bc_panicReporter c)) <$> b_queries b in
          let services := List.map snd (range (b_services b)) in
          match buildManifest (bc_source c) commands events queries services with
          | None => None
          | Some manifest =>
              Some (Ok ({| ms_source := bc_source c; ms_idGenerator := bc_idGenerator c; ms_clock := bc_clock c; ms_observer := observer;
                           ms_propagator := bc_propagator c; ms_commands := commands; ms_events := events; ms_queries := queries;
                           ms_manifest := manifest |},
                        {| rn_services := services; rn_shutdownTimeout := bc_runtimeShutdownTimeout c |}))
          end
      end).
End Build.
Arguments Messenger B C {_}.
End Build.
