(* ===== verification/BuilderProofs.v ===== *)
(** * What the builder accepts and what it builds

    A sequence of declarations is accepted exactly when every declaration is valid
    by itself, no two of them conflict and nothing is missing at the end; then the
    registrations are the ones declared. *)
From S2P Require Import Prelude GoStrings GoText Errors Ident Envelope Middleware Delivery Route Builder Manifest.
Import Stdlib.Strings.String.
Import Envelope Route Builder Manifest Build.
Open Scope string_scope.
Open Scope Z_scope.

Module BuilderProofs.
Section Builder.
Context {B C : Type} `{GT : !GoTypes, GC : !GoContext C, GJ : !EnvelopeJSON, GR : !MapRange}.
#[local] Abbreviation D := (declaration B C).
#[local] Abbreviation Bld := (Builder B C).
Implicit Types (x y : D) (xs : list D) (b : Bld).

(** ** What a declaration is about *)
Definition tkey (d : Typed) : descriptorKey := keyFor (d_info (t_descriptor d)).
Definition qkey (d : TypedQuery) : descriptorKey := keyFor (d_info (tq_descriptor d)).

Definition cmd_of x : option Typed := match x with DCommand d _ _ | DRouteCommand d _ => Some d | _ => None end.
Definition evt_of x : option Typed := match x with DSubscribe d _ _ | DRouteEvent d _ => Some d | _ => None end.
Definition qry_of x : option TypedQuery := match x with DQuery d _ _ | DRouteQuery d _ => Some d | _ => None end.
Definition svc_of x : option (string * option Service) :=
  match x with
  | DUse id s => Some (id, s)
  | DRouteCommand _ r | DRouteEvent _ r => r ≫= rt_ManagedService
  | DRouteQuery _ r => r ≫= lr_ManagedService
  | _ => None
  end.

(** The single places a declaration fills. *)
Inductive slot : Type :=
| SCommandHandler (k : descriptorKey) | SCommandRoute (k : descriptorKey)
| SSubscription (k : descriptorKey) (id : string) | SEventRoute (k : descriptorKey)
| SQueryHandler (k : descriptorKey) | SQueryRoute (k : descriptorKey).
Definition slot_of x : option slot :=
  match x with
  | DCommand d _ _ => Some (SCommandHandler (tkey d))
  | DRouteCommand d _ => Some (SCommandRoute (tkey d))
  | DSubscribe d id _ => Some (SSubscription (tkey d) id)
  | DRouteEvent d _ => Some (SEventRoute (tkey d))
  | DQuery d _ _ => Some (SQueryHandler (qkey d))
  | DRouteQuery d _ => Some (SQueryRoute (qkey d))
  | _ => None
  end.

(** ** Acceptance *)
Definition valid_service (s : string * option Service) : Prop :=
  validStableID s.1 = true /\ exists service, s.2 = Some service /\ sv_pointer service <> Some 0.

Definition valid x : Prop :=
  match x with
  | DMiddleware ms => Forall is_Some ms
  | DCommand _ id h => validStableID id = true /\ is_Some h
  | DSubscribe _ id h => validStableID id = true /\ is_Some h
  | DQuery _ id h => validStableID id = true /\ is_Some h
  | DRouteCommand _ r | DRouteEvent _ r => validateRoute r = None
  | DRouteQuery _ r => validateQueryRoute r = None
  | DUse _ _ => True
  end /\ forall s, svc_of x = Some s -> valid_service s.

Definition same_typed (d e : Typed) : Prop := d_info (t_descriptor d) = d_info (t_descriptor e) /\ t_type d = t_type e.
#[global] Instance same_typed_dec d e : Decision (same_typed d e).
Proof. unfold same_typed. apply _. Defined.
Definition same_query (d e : TypedQuery) : Prop :=
  d_info (tq_descriptor d) = d_info (tq_descriptor e) /\ tq_type d = tq_type e /\
  tq_zero d = false /\ tq_zero e = false /\ tq_R d = tq_R e.
(** One managed service may be declared repeatedly: the same pointer. *)
Definition same_service (s t : option Service) : Prop :=
  exists p, p <> 0 /\ option_map sv_pointer s = Some (Some p) /\ option_map sv_pointer t = Some (Some p).

Record compatible x y : Prop := {
  cp_cmd d e : cmd_of x = Some d -> cmd_of y = Some e -> tkey d = tkey e -> same_typed d e;
  cp_evt d e : evt_of x = Some d -> evt_of y = Some e -> tkey d = tkey e -> same_typed d e;
  cp_qry d e : qry_of x = Some d -> qry_of y = Some e -> qkey d = qkey e -> same_query d e;
  cp_slot s : slot_of x = Some s -> slot_of y <> Some s;
  cp_svc s t : svc_of x = Some s -> svc_of y = Some t -> s.1 = t.1 -> same_service s.2 t.2 }.

Definition consistent xs : Prop := Forall valid xs /\ ForallOrdPairs compatible xs.

(** Nothing is missing: local commands have a handler, queries both halves. *)
Record complete xs : Prop := {
  cm_local d r : DRouteCommand d (Some r) ∈ xs -> rt_localRoute r = true -> exists x, x ∈ xs /\ slot_of x = Some (SCommandHandler (tkey d));
  cm_handler x d : x ∈ xs -> qry_of x = Some d -> exists y, y ∈ xs /\ slot_of y = Some (SQueryHandler (qkey d));
  cm_route x d : x ∈ xs -> qry_of x = Some d -> exists y, y ∈ xs /\ slot_of y = Some (SQueryRoute (qkey d)) }.

Lemma same_typed_sym d e : same_typed d e -> same_typed e d.
Proof. unfold same_typed. intuition congruence. Qed.

Lemma compatible_sym x y : compatible x y -> compatible y x.
Proof.
  intros [Hc He Hq Hs Hv]. split.
  - intros d e Hd Hd' E. apply same_typed_sym. by apply Hc.
  - intros d e Hd Hd' E. apply same_typed_sym. by apply He.
  - intros d e Hd Hd' E. destruct (Hq e d Hd' Hd (eq_sym E)) as (? & ? & ? & ? & ?). by split_and!.
  - intros s Hy Hx. by eapply Hs.
  - intros s t Hy Ht E. destruct (Hv t s Ht Hy (eq_sym E)) as (p & ? & ? & ?). by exists p.
Qed.

(** ** The declared registrations *)
Definition first {A} (f : D -> option A) xs : option A := first_some (List.map f xs).
Definition at_key {A} (k k' : descriptorKey) (a : A) : option A := if decide (k' = k) then Some a else None.

Definition cmd_desc (k : descriptorKey) x : option Typed := match cmd_of x with Some d => at_key k (tkey d) d | None => None end.
Definition cmd_handler (k : descriptorKey) x : option (string * handlerFactory B C) :=
  match x with DCommand d id (Some h) => at_key k (tkey d) (id, factory (t_type d) "command payload type" h) | _ => None end.
Definition cmd_route (k : descriptorKey) x : option (Route B C) :=
  match x with DRouteCommand d (Some r) => at_key k (tkey d) r | _ => None end.
Definition cmd_reg xs (k : descriptorKey) : option (commandRegistration B C) :=
  match first (cmd_desc k) xs with
  | None => None
  | Some d =>
      Some {| cr_descriptor := eraseDescriptor (t_descriptor d) (t_type d);
              cr_handlerID := match first (cmd_handler k) xs with Some h => h.1 | None => "" end;
              cr_handler := snd <$> first (cmd_handler k) xs;
              cr_route := first (cmd_route k) xs |}
  end.

Definition evt_desc (k : descriptorKey) x : option Typed := match evt_of x with Some d => at_key k (tkey d) d | None => None end.
Definition evt_sub (k : descriptorKey) x : option (eventSubscriber B C) :=
  match x with
  | DSubscribe d id (Some h) => at_key k (tkey d) {| es_id := id; es_handler := factory (t_type d) "event payload type" h |}
  | _ => None
  end.
Definition evt_route (k : descriptorKey) x : option (Route B C) :=
  match x with DRouteEvent d (Some r) => at_key k (tkey d) r | _ => None end.
(** All subscriptions, in the order of declaration. *)
Definition evt_reg xs (k : descriptorKey) : option (eventRegistration B C) :=
  match first (evt_desc k) xs with
  | None => None
  | Some d =>
      Some {| er_descriptor := eraseDescriptor (t_descriptor d) (t_type d);
              er_subscribers := omap (evt_sub k) xs; er_route := first (evt_route k) xs |}
  end.

Definition qry_desc (k : descriptorKey) x : option TypedQuery := match qry_of x with Some d => at_key k (qkey d) d | None => None end.
Definition qry_handler (k : descriptorKey) x : option (string * queryFactory B C) :=
  match x with DQuery d id (Some h) => at_key k (qkey d) (id, query_factory d h) | _ => None end.
Definition qry_route (k : descriptorKey) x : option (LocalQueryRoute B C) :=
  match x with DRouteQuery d (Some r) => at_key k (qkey d) r | _ => None end.
Definition qry_reg xs (k : descriptorKey) : option (queryRegistration B C) :=
  match first (qry_desc k) xs with
  | None => None
  | Some d =>
      Some {| qr_descriptor := eraseDescriptor (tq_descriptor d) (tq_type d); qr_resultType := tq_resultType d;
              qr_handlerID := match first (qry_handler k) xs with Some h => h.1 | None => "" end;
              qr_handler := snd <$> first (qry_handler k) xs;
              qr_route := first (qry_route k) xs |}
  end.

Definition svc_entry (id : string) x : option namedService :=
  match svc_of x with
  | Some (id', Some s) => if decide (id' = id) then Some {| ns_id := id; ns_service := s; ns_valueID := default 0 (sv_pointer s) |} else None
  | _ => None
  end.
Definition middleware_entries x : list (MessengerMiddleware B C) := match x with DMiddleware ms => omap id ms | _ => [] end.

Record described xs b : Prop := {
  de_commands k : b_commands b !! k = cmd_reg xs k;
  de_events k : b_events b !! k = evt_reg xs k;
  de_queries k : b_queries b !! k = qry_reg xs k;
  de_services id : b_services b !! id = first (svc_entry id) xs;
  de_middlewares : b_middlewares b = flat_map middleware_entries xs }.

(** ** Lemmas *)
Lemma first_snoc {A} (f : D -> option A) xs x : first f (xs ++ [x])%list = match first f xs with Some a => Some a | None => f x end.
Proof.
  unfold first. induction xs as [|y xs IH]; cbn; [by destruct (f x)|]. by destruct (f y).
Qed.
Lemma first_in {A} (f : D -> option A) xs a : first f xs = Some a -> exists x, x ∈ xs /\ f x = Some a.
Proof.
  intros H. apply first_some_Some in H. apply list_elem_of_fmap in H as (x & E & Hx). by exists x.
Qed.
Lemma first_none {A} (f : D -> option A) xs : first f xs = None <-> forall x, x ∈ xs -> f x = None.
Proof.
  unfold first. rewrite first_some_None, Forall_forall. setoid_rewrite list_elem_of_fmap. naive_solver.
Qed.
Lemma at_key_Some {A} k k' (a b : A) : at_key k k' a = Some b <-> k' = k /\ a = b.
Proof. unfold at_key. case_decide; naive_solver. Qed.
Lemma at_key_ne {A} k k' (a : A) : k' <> k -> at_key k k' a = None.
Proof. intros H. unfold at_key. by rewrite decide_False. Qed.
Lemma at_key_eq {A} k (a : A) : at_key k k a = Some a.
Proof. unfold at_key. by rewrite decide_True. Qed.

(** Errors only accumulate. *)
Definition grows b b' : Prop := exists es, b_errors b' = (b_errors b ++ es)%list.
Lemma errors_grow_refl b : grows b b.
Proof. exists []. by rewrite app_nil_r. Qed.
Lemma errors_grow_trans b1 b2 b3 : grows b1 b2 -> grows b2 b3 -> grows b1 b3.
Proof. intros [e1 E1] [e2 E2]. exists (e1 ++ e2)%list. by rewrite E2, E1, app_assoc. Qed.
Lemma grows_error err b : grows b (addError err b).
Proof. by exists [err]. Qed.
Lemma grows_same b b' : b_errors b' = b_errors b -> grows b b'.
Proof. intros E. exists []. by rewrite E, app_nil_r. Qed.

(** The first declaration that says [a] agrees with every later one. *)
Lemma first_agree {A} (R : D -> D -> Prop) (f : D -> option A) xs a y a' :
  ForallOrdPairs R xs -> first f xs = Some a -> y ∈ xs -> f y = Some a' ->
  a = a' \/ exists x, x ∈ xs /\ f x = Some a /\ R x y.
Proof.
  unfold first. induction 1 as [|h xs Hh _ IH]; cbn; [done|]. destruct (f h) as [c|] eqn:E.
  - intros [= ->] [-> |Hy]%elem_of_cons Hf; [left; congruence|]. right. exists h.
    split_and!; [by left|done|]. rewrite Forall_forall in Hh. by apply Hh.
  - intros Ha [-> |Hy]%elem_of_cons Hf; [congruence|]. destruct (IH Ha Hy Hf) as [?|(x & ? & ? & ?)]; [by left|right].
    exists x. split_and!; [by right|done..].
Qed.

(** A new declaration fits all earlier ones of its key when it fits the first. *)
Section Fits.
Context {A : Type} (about : D -> option A) (key : A -> descriptorKey) (same : A -> A -> Prop).
Context (same_compat : forall x y, compatible x y -> forall a a', about x = Some a -> about y = Some a' -> key a = key a' -> same a a').
Context (same_trans : forall a1 a2 a3, same a1 a2 -> same a1 a3 -> same a2 a3).

Definition keyed (k : descriptorKey) x : option A := match about x with Some a => at_key k (key a) a | None => None end.
Definition fits xs (d : A) : Prop := forall y e, y ∈ xs -> about y = Some e -> key e = key d -> same e d.

Lemma keyed_Some k x a : keyed k x = Some a <-> about x = Some a /\ key a = k.
Proof. unfold keyed. destruct (about x); [|naive_solver]. rewrite at_key_Some. naive_solver. Qed.

Lemma fits_first xs d d0 : ForallOrdPairs compatible xs -> first (keyed (key d)) xs = Some d0 -> (same d0 d <-> fits xs d).
Proof.
  intros Hp E. pose proof (first_in _ _ _ E) as (y0 & Hy0 & Hd0). apply keyed_Some in Hd0 as [Hd0 Hk0]. split.
  - intros Hs y e Hy He Hk. destruct (first_agree _ _ _ _ y e Hp E Hy) as [<-|(x & Hx & Hfx & Hc)]; [by apply keyed_Some|done|].
    apply keyed_Some in Hfx as [Hfx ?]. apply (same_trans d0); [|done]. apply (same_compat x y); congruence.
  - intros Hf. by apply (Hf y0).
Qed.

Lemma fits_none xs d : first (keyed (key d)) xs = None -> fits xs d.
Proof.
  rewrite first_none. intros E y e Hy He Hk. specialize (E y Hy). unfold keyed in E. by rewrite He, Hk, at_key_eq in E.
Qed.
End Fits.

Lemma same_typed_trans d e f : same_typed d e -> same_typed d f -> same_typed e f.
Proof. unfold same_typed. intuition congruence. Qed.
Lemma same_query_trans d e f : same_query d e -> same_query d f -> same_query e f.
Proof. unfold same_query. intuition congruence. Qed.

Lemma sameDescriptor_eq (d : descriptor any) T info T' :
  sameDescriptor (eraseDescriptor d T) info T' = bool_decide (d_info d = info /\ T = T').
Proof. unfold sameDescriptor. cbn. by rewrite bool_decide_and. Qed.

(** Slots are filled by valid declarations only. *)
Definition free xs (s : slot) : Prop := forall y, y ∈ xs -> slot_of y <> Some s.
Lemma free_first {A} (f : D -> option A) xs s : Forall valid xs ->
  (forall x, valid x -> (is_Some (f x) <-> slot_of x = Some s)) -> (first f xs = None <-> free xs s).
Proof.
  intros Hv Hf. rewrite first_none. rewrite Forall_forall in Hv. split; intros Hn y Hy.
  - intros Hs. apply Hf in Hs as [a Ha]; [|by apply Hv]. by rewrite Hn in Ha.
  - destruct (f y) as [a|] eqn:E; [|done]. destruct (Hn y Hy). apply Hf; [by apply Hv|by exists a].
Qed.

(** ** Commands *)
Definition cmd_at xs (k : descriptorKey) (d : Typed) : commandRegistration B C :=
  {| cr_descriptor := eraseDescriptor (t_descriptor d) (t_type d);
     cr_handlerID := match first (cmd_handler k) xs with Some h => h.1 | None => "" end;
     cr_handler := snd <$> first (cmd_handler k) xs;
     cr_route := first (cmd_route k) xs |}.
Abbreviation cmd_fits := (fits cmd_of tkey same_typed).

Lemma cmd_desc_none xs k : first (cmd_desc k) xs = None -> first (cmd_handler k) xs = None /\ first (cmd_route k) xs = None.
Proof.
  rewrite !first_none. intros Hn. split; intros y Hy; specialize (Hn y Hy).
  - destruct y as [|d id [h|]| | | | | |]; try done. unfold cmd_desc in Hn. cbn in *. unfold at_key in *. by case_decide.
  - destruct y as [| | | |d [r|]| | |]; try done. unfold cmd_desc in Hn. cbn in *. unfold at_key in *. by case_decide.
Qed.
Lemma cmd_handler_slot k x : valid x -> (is_Some (cmd_handler k x) <-> slot_of x = Some (SCommandHandler k)).
Proof.
  intros [Hv _]. destruct x as [|d id h| | | | | |]; cbn; try (split; [by intros [? ?]|done]).
  destruct Hv as [_ [f ->]]. unfold at_key, is_Some. case_decide; naive_solver.
Qed.
Lemma cmd_route_slot k x : valid x -> (is_Some (cmd_route k x) <-> slot_of x = Some (SCommandRoute k)).
Proof.
  intros [Hv _]. destruct x as [| | | |d r| | |]; cbn; try (split; [by intros [? ?]|done]).
  destruct r as [r|]; [|done]. unfold at_key, is_Some. case_decide; naive_solver.
Qed.

Lemma set_command_id k r b : b_commands b !! k = Some r -> set_command k r b = b.
Proof. intros E. destruct b. unfold set_command. cbn in *. by rewrite insert_id. Qed.
Lemma set_command_twice k r r' b : set_command k r (set_command k r' b) = set_command k r b.
Proof. destruct b. unfold set_command. cbn. by rewrite insert_insert_eq. Qed.

Lemma ensureCommand_cases d b xs : described xs b -> ForallOrdPairs compatible xs ->
  (cmd_fits xs d /\ exists reg, reg = cmd_at xs (tkey d) (default d (first (cmd_desc (tkey d)) xs)) /\
     ensureCommand d b = (set_command (tkey d) reg b, Some reg)) \/
  (~ cmd_fits xs d /\ exists err, ensureCommand d b = (addError err b, None)).
Proof.
  intros Hd Hp. unfold ensureCommand. fold (tkey d). rewrite (de_commands _ _ Hd). unfold cmd_reg.
  destruct (first (cmd_desc (tkey d)) xs) as [d0|] eqn:E; cbn [default].
  - fold (cmd_at xs (tkey d) d0). cbn [cr_descriptor cmd_at]. rewrite sameDescriptor_eq. fold (same_typed d0 d).
    rewrite <- (fits_first cmd_of tkey same_typed (fun x y Hc => cp_cmd x y Hc) same_typed_trans xs d d0 Hp E).
    case_bool_decide; [left|right; eauto]. split; [done|]. eexists. split; [done|]. cbn.
    rewrite set_command_id; [done|]. rewrite (de_commands _ _ Hd). unfold cmd_reg. by rewrite E.
  - left. split; [by apply (fits_none cmd_of tkey same_typed)|]. eexists. split; [done|].
    unfold cmd_at. by destruct (cmd_desc_none _ _ E) as [-> ->].
Qed.

(** ** Events *)
Definition evt_at xs (k : descriptorKey) (d : Typed) : eventRegistration B C :=
  {| er_descriptor := eraseDescriptor (t_descriptor d) (t_type d);
     er_subscribers := omap (evt_sub k) xs; er_route := first (evt_route k) xs |}.
Abbreviation evt_fits := (fits evt_of tkey same_typed).

Lemma omap_none {A} (f : D -> option A) xs : (forall x, x ∈ xs -> f x = None) -> omap f xs = [].
Proof.
  induction xs as [|x xs IH]; intros Hn; [done|]. cbn. rewrite (Hn x) by (by left). apply IH. intros y Hy. apply Hn. by right.
Qed.

Lemma evt_desc_none xs k : first (evt_desc k) xs = None -> omap (evt_sub k) xs = [] /\ first (evt_route k) xs = None.
Proof.
  rewrite !first_none. intros Hn. split; [apply omap_none|]; intros y Hy; specialize (Hn y Hy).
  - destruct y as [| | |d id [h|]| | | |]; try done. unfold evt_desc in Hn. cbn in *. unfold at_key in *. by case_decide.
  - destruct y as [| | | | |d [r|]| |]; try done. unfold evt_desc in Hn. cbn in *. unfold at_key in *. by case_decide.
Qed.
Lemma evt_route_slot k x : valid x -> (is_Some (evt_route k x) <-> slot_of x = Some (SEventRoute k)).
Proof.
  intros [Hv _]. destruct x as [| | | | |d r| |]; cbn; try (split; [by intros [? ?]|done]).
  destruct r as [r|]; [|done]. unfold at_key, is_Some. case_decide; naive_solver.
Qed.
(** A subscription of this id exists exactly when its slot is filled. *)
Lemma evt_sub_slot xs k id : Forall valid xs ->
  existsb (fun s => String.eqb (es_id s) id) (omap (evt_sub k) xs) = false <-> free xs (SSubscription k id).
Proof.
  intros Hv. rewrite Forall_forall in Hv. rewrite <- not_true_iff_false, existsb_exists. split.
  - intros Hn y Hy Hs. destruct (Hv y Hy) as [Hvy _]. destruct y as [| | |d i h| | | |]; try done. cbn in Hs, Hvy.
    injection Hs as <- <-. destruct Hvy as [_ [f ->]]. apply Hn.
    exists {| es_id := i; es_handler := factory (t_type d) "event payload type" f |}. split; [|apply String.eqb_refl].
    apply list_elem_of_In, list_elem_of_omap. exists (DSubscribe d i (Some f)). split; [done|]. cbn. by rewrite at_key_eq.
  - intros Hf (sub & Hin & Hid). apply list_elem_of_In, list_elem_of_omap in Hin as (y & Hy & Hs). apply (Hf y Hy).
    destruct y as [| | |d i [h|]| | | |]; try done. cbn in Hs |- *. apply at_key_Some in Hs as [-> <-]. cbn in Hid.
    apply String.eqb_eq in Hid. by subst.
Qed.

Lemma set_event_id k r b : b_events b !! k = Some r -> set_event k r b = b.
Proof. intros E. destruct b. unfold set_event. cbn in *. by rewrite insert_id. Qed.
Lemma set_event_twice k r r' b : set_event k r (set_event k r' b) = set_event k r b.
Proof. destruct b. unfold set_event. cbn. by rewrite insert_insert_eq. Qed.

Lemma ensureEvent_cases d b xs : described xs b -> ForallOrdPairs compatible xs ->
  (evt_fits xs d /\ exists reg, reg = evt_at xs (tkey d) (default d (first (evt_desc (tkey d)) xs)) /\
     ensureEvent d b = (set_event (tkey d) reg b, Some reg)) \/
  (~ evt_fits xs d /\ exists err, ensureEvent d b = (addError err b, None)).
Proof.
  intros Hd Hp. unfold ensureEvent. fold (tkey d). rewrite (de_events _ _ Hd). unfold evt_reg.
  destruct (first (evt_desc (tkey d)) xs) as [d0|] eqn:E; cbn [default].
  - fold (evt_at xs (tkey d) d0). cbn [er_descriptor evt_at]. rewrite sameDescriptor_eq. fold (same_typed d0 d).
    rewrite <- (fits_first evt_of tkey same_typed (fun x y Hc => cp_evt x y Hc) same_typed_trans xs d d0 Hp E).
    case_bool_decide; [left|right; eauto]. split; [done|]. eexists. split; [done|]. cbn.
    rewrite set_event_id; [done|]. rewrite (de_events _ _ Hd). unfold evt_reg. by rewrite E.
  - left. split; [by apply (fits_none evt_of tkey same_typed)|]. eexists. split; [done|].
    unfold evt_at. by destruct (evt_desc_none _ _ E) as [-> ->].
Qed.

(** ** Queries *)
Definition qry_at xs (k : descriptorKey) (d : TypedQuery) : queryRegistration B C :=
  {| qr_descriptor := eraseDescriptor (tq_descriptor d) (tq_type d); qr_resultType := tq_resultType d;
     qr_handlerID := match first (qry_handler k) xs with Some h => h.1 | None => "" end;
     qr_handler := snd <$> first (qry_handler k) xs;
     qr_route := first (qry_route k) xs |}.
Abbreviation qry_fits := (fits qry_of qkey same_query).

Lemma qry_desc_none xs k : first (qry_desc k) xs = None -> first (qry_handler k) xs = None /\ first (qry_route k) xs = None.
Proof.
  rewrite !first_none. intros Hn. split; intros y Hy; specialize (Hn y Hy).
  - destruct y as [| |d id [h|]| | | | |]; try done. unfold qry_desc in Hn. cbn in *. unfold at_key in *. by case_decide.
  - destruct y as [| | | | | |d [r|]|]; try done. unfold qry_desc in Hn. cbn in *. unfold at_key in *. by case_decide.
Qed.
Lemma qry_handler_slot k x : valid x -> (is_Some (qry_handler k x) <-> slot_of x = Some (SQueryHandler k)).
Proof.
  intros [Hv _]. destruct x as [| |d id h| | | | |]; cbn; try (split; [by intros [? ?]|done]).
  destruct Hv as [_ [f ->]]. unfold at_key, is_Some. case_decide; naive_solver.
Qed.
Lemma qry_route_slot k x : valid x -> (is_Some (qry_route k x) <-> slot_of x = Some (SQueryRoute k)).
Proof.
  intros [Hv _]. destruct x as [| | | | | |d r|]; cbn; try (split; [by intros [? ?]|done]).
  destruct r as [r|]; [|done]. unfold at_key, is_Some. case_decide; naive_solver.
Qed.

Lemma set_query_id k r b : b_queries b !! k = Some r -> set_query k r b = b.
Proof. intros E. destruct b. unfold set_query. cbn in *. by rewrite insert_id. Qed.
Lemma set_query_twice k r r' b : set_query k r (set_query k r' b) = set_query k r b.
Proof. destruct b. unfold set_query. cbn. by rewrite insert_insert_eq. Qed.

Lemma query_test d0 d :
  negb (sameDescriptor (eraseDescriptor (tq_descriptor d0) (tq_type d0)) (d_info (tq_descriptor d)) (tq_type d))
  || negb (bool_decide (tq_resultType d0 = tq_resultType d)) || negb (bool_decide (tq_resultType d = Some (tq_R d))) = false
  <-> same_query d0 d.
Proof.
  rewrite sameDescriptor_eq, !orb_false_iff, !negb_false_iff, !bool_decide_eq_true. unfold same_query, tq_resultType.
  destruct (tq_zero d0), (tq_zero d); intuition congruence.
Qed.

Lemma ensureQuery_cases d b xs : described xs b -> ForallOrdPairs compatible xs ->
  (qry_fits xs d /\ exists reg, reg = qry_at xs (qkey d) (default d (first (qry_desc (qkey d)) xs)) /\
     ensureQuery d b = (set_query (qkey d) reg b, Some reg)) \/
  (~ qry_fits xs d /\ exists err, ensureQuery d b = (addError err b, None)).
Proof.
  intros Hd Hp. unfold ensureQuery. fold (qkey d). rewrite (de_queries _ _ Hd). unfold qry_reg.
  destruct (first (qry_desc (qkey d)) xs) as [d0|] eqn:E; cbn [default].
  - fold (qry_at xs (qkey d) d0). cbn [qr_descriptor qr_resultType qry_at]. pose proof (query_test d0 d) as Ht.
    rewrite <- (fits_first qry_of qkey same_query (fun x y Hc => cp_qry x y Hc) same_query_trans xs d d0 Hp E).
    destruct (_ || _) eqn:Eb; [right; split; [|eauto]; rewrite <- Ht; done|left].
    split; [by apply Ht|]. eexists. split; [done|]. cbn.
    rewrite set_query_id; [done|]. rewrite (de_queries _ _ Hd). unfold qry_reg. by rewrite E.
  - left. split; [by apply (fits_none qry_of qkey same_query)|]. eexists. split; [done|].
    unfold qry_at. by destruct (qry_desc_none _ _ E) as [-> ->].
Qed.

(** ** Services *)
Definition svc_fits xs (m : option (string * option Service)) : Prop :=
  (forall s, m = Some s -> valid_service s) /\
  forall y s t, y ∈ xs -> svc_of y = Some s -> m = Some t -> s.1 = t.1 -> same_service s.2 t.2.

(** The registrations other than the services. *)
Definition same_regs b b' : Prop :=
  b_commands b' = b_commands b /\ b_events b' = b_events b /\ b_queries b' = b_queries b /\ b_middlewares b' = b_middlewares b.

Lemma svc_entry_Some id x n : svc_entry id x = Some n <->
  exists s, svc_of x = Some (id, Some s) /\ n = {| ns_id := id; ns_service := s; ns_valueID := default 0 (sv_pointer s) |}.
Proof.
  unfold svc_entry. destruct (svc_of x) as [[id' [s|]]|]; [|split; [done|by intros (? & [=] & _)]..].
  case_decide; [subst|split; [done|by intros (? & [= ?] & _)]].
  split; [intros [= <-]; by exists s|]. by intros (s' & [= <-] & ->).
Qed.

Lemma addRouteService_cases x b xs : consistent xs -> (forall id, b_services b !! id = first (svc_entry id) xs) ->
  let b' := addRouteService (svc_of x) b in
  (svc_fits xs (svc_of x) /\ b_errors b' = b_errors b /\ same_regs b b' /\
   forall id, b_services b' !! id = first (svc_entry id) (xs ++ [x])%list) \/
  (~ svc_fits xs (svc_of x) /\ exists err, b' = addError err b).
Proof.
  intros [Hv Hp] Hs b'. subst b'. destruct (svc_of x) as [[id s]|] eqn:Ex; cbn.
  2: { left. split_and!; [by split|done|done|]. intros id. rewrite Hs, first_snoc.
       replace (svc_entry id x) with (@None namedService) by (unfold svc_entry; by rewrite Ex). by destruct (first _ _). }
  assert (forall id', svc_entry id' x = match s with Some s => if decide (id = id')
    then Some {| ns_id := id'; ns_service := s; ns_valueID := default 0 (sv_pointer s) |} else None | None => None end) as Hx
    by (intros id'; unfold svc_entry; by rewrite Ex).
  unfold addService. destruct s as [s|]; [|right; split; [intros [Hf _]; by destruct (Hf _ eq_refl) as [_ (? & ? & _)]|eauto]].
  destruct (validStableID id) eqn:Eid; cbn; [|right; split; [intros [Hf _]; destruct (Hf _ eq_refl) as [? _]; cbn in *; congruence|eauto]].
  case_bool_decide as E0; [right; split; [intros [Hf _]; destruct (Hf _ eq_refl) as [_ (s' & Es & Hn)]; cbn in Es; congruence|eauto]|].
  assert (valid_service (id, Some s)) as Hval by (split; [done|eauto]).
  rewrite Hs. destruct (first (svc_entry id) xs) as [n|] eqn:E.
  - pose proof (first_in _ _ _ E) as (y0 & Hy0 & Hn). apply svc_entry_Some in Hn as (s0 & Hs0 & ->). cbn [ns_valueID].
    destruct (negb _ && _) eqn:Eb.
    + left. apply andb_prop in Eb as [Ez Eq]. apply negb_true_iff, Z.eqb_neq in Ez. apply Z.eqb_eq in Eq.
      destruct (sv_pointer s) as [p|] eqn:Ep; [|done]. destruct (sv_pointer s0) as [p0|] eqn:Ep0; cbn in *; [subst p0|congruence].
      split_and!; try done.
      * split; [naive_solver|]. intros y [id1 s1] t Hy Hsy [= <-] Eid1. cbn in *. subst id1.
        destruct s1 as [s1|]; [|rewrite Forall_forall in Hv; destruct (Hv y Hy) as [_ Hvy]; by destruct (Hvy _ Hsy) as [_ (? & ? & _)]].
        destruct (first_agree _ _ _ _ y _ Hp E Hy (proj2 (svc_entry_Some id y _) (ex_intro _ s1 (conj Hsy eq_refl)))) as [Eq|(z & Hz & Hfz & Hc)].
        -- injection Eq as <-. exists p. cbn. by rewrite Ep, Ep0.
        -- apply svc_entry_Some in Hfz as (s2 & Hs2 & [= <- _]). destruct (cp_svc _ _ Hc _ _ Hs2 Hsy eq_refl) as (q & ? & Hq1 & Hq2).
           cbn in *. rewrite Ep0 in Hq1. injection Hq1 as <-. exists p. split_and!; [done|done|]. cbn. by rewrite Ep.
      * intros id'. rewrite Hs, first_snoc. destruct (first (svc_entry id') xs) eqn:E'; [done|]. rewrite Hx.
        rewrite decide_False; [done|]. intros <-. congruence.
    + right. split; [|eauto]. intros [_ Hf]. destruct (Hf y0 _ _ Hy0 Hs0 eq_refl eq_refl) as (p & Hp0 & H1 & H2). cbn in *.
      injection H1 as H1. injection H2 as H2. rewrite H1, H2 in Eb. cbn in Eb.
      rewrite (proj2 (Z.eqb_neq p 0) Hp0), Z.eqb_refl in Eb. done.
  - left. split_and!; try done.
    + split; [naive_solver|]. intros y [id1 s1] t Hy Hsy [= <-] Eid1. cbn in *. subst id1. rewrite first_none in E. specialize (E y Hy).
      unfold svc_entry in E. rewrite Hsy in E. destruct s1; [by rewrite decide_True in E|].
      rewrite Forall_forall in Hv. destruct (Hv y Hy) as [_ Hvy]. by destruct (Hvy _ Hsy) as [_ (? & ? & _)].
    + intros id'. cbn [b_services set_service]. rewrite first_snoc, Hx. case_decide as Ei.
      * subst. by rewrite lookup_insert_eq, E.
      * rewrite lookup_insert_ne by done. rewrite Hs. by destruct (first (svc_entry id') xs).
Qed.

(** ** One more declaration *)
Definition fits_all xs x : Prop := forall y, y ∈ xs -> compatible y x.

Lemma fits_all_iff xs x : fits_all xs x <->
  (forall d, cmd_of x = Some d -> cmd_fits xs d) /\ (forall d, evt_of x = Some d -> evt_fits xs d) /\
  (forall d, qry_of x = Some d -> qry_fits xs d) /\ (forall s, slot_of x = Some s -> free xs s) /\
  (forall y s t, y ∈ xs -> svc_of y = Some s -> svc_of x = Some t -> s.1 = t.1 -> same_service s.2 t.2).
Proof.
  split.
  - intros Hf. split_and!.
    + intros d Hd y e Hy He. by apply (cp_cmd _ _ (Hf y Hy)).
    + intros d Hd y e Hy He. by apply (cp_evt _ _ (Hf y Hy)).
    + intros d Hd y e Hy He. by apply (cp_qry _ _ (Hf y Hy)).
    + intros s Hs y Hy Hn. by apply (cp_slot _ _ (Hf y Hy) s).
    + intros y s t Hy. apply (cp_svc _ _ (Hf y Hy)).
  - intros (Hc & He & Hq & Hs & Hv) y Hy. split.
    + intros d e Hd Hd'. by apply (Hc e Hd' y d Hy).
    + intros d e Hd Hd'. by apply (He e Hd' y d Hy).
    + intros d e Hd Hd'. by apply (Hq e Hd' y d Hy).
    + intros s H1 H2. by apply (Hs s H2 y).
    + intros s t H1 H2. by apply (Hv y).
Qed.

Lemma cmd_reg_other xs x k : (forall d, cmd_of x = Some d -> tkey d <> k) -> cmd_reg (xs ++ [x])%list k = cmd_reg xs k.
Proof.
  intros Hn. unfold cmd_reg. rewrite !first_snoc.
  assert (cmd_desc k x = None /\ cmd_handler k x = None /\ cmd_route k x = None) as (-> & -> & ->).
  { unfold cmd_desc. destruct x as [|d id [h|]| | |d [r|]| | |]; cbn in *; try done; rewrite !at_key_ne by auto; done. }
  destruct (first (cmd_desc k) xs), (first (cmd_handler k) xs), (first (cmd_route k) xs); done.
Qed.
Lemma omap_snoc {A} (f : D -> option A) xs x : omap f (xs ++ [x])%list = (omap f xs ++ option_list (f x))%list.
Proof. induction xs as [|y xs IH]; cbn; [by destruct (f x)|]. destruct (f y); cbn; by rewrite IH. Qed.
Lemma evt_reg_other xs x k : (forall d, evt_of x = Some d -> tkey d <> k) -> evt_reg (xs ++ [x])%list k = evt_reg xs k.
Proof.
  intros Hn. unfold evt_reg. rewrite !first_snoc, omap_snoc.
  assert (evt_desc k x = None /\ evt_sub k x = None /\ evt_route k x = None) as (-> & -> & ->).
  { unfold evt_desc. destruct x as [| | |d id [h|]| |d [r|]| |]; cbn in *; try done; rewrite !at_key_ne by auto; done. }
  cbn. rewrite app_nil_r. destruct (first (evt_desc k) xs), (first (evt_route k) xs); done.
Qed.
Lemma qry_reg_other xs x k : (forall d, qry_of x = Some d -> qkey d <> k) -> qry_reg (xs ++ [x])%list k = qry_reg xs k.
Proof.
  intros Hn. unfold qry_reg. rewrite !first_snoc.
  assert (qry_desc k x = None /\ qry_handler k x = None /\ qry_route k x = None) as (-> & -> & ->).
  { unfold qry_desc. destruct x as [| |d id [h|]| | | |d [r|]|]; cbn in *; try done; rewrite !at_key_ne by auto; done. }
  destruct (first (qry_desc k) xs), (first (qry_handler k) xs), (first (qry_route k) xs); done.
Qed.
Lemma svc_entry_none id x : svc_of x = None -> svc_entry id x = None.
Proof. unfold svc_entry. by intros ->. Qed.
Lemma svc_first_other xs x id : svc_of x = None -> first (svc_entry id) (xs ++ [x])%list = first (svc_entry id) xs.
Proof. intros E. rewrite first_snoc, svc_entry_none by done. by destruct (first (svc_entry id) xs). Qed.

(** The registrations without the services. *)
Record registered xs b : Prop := {
  re_commands k : b_commands b !! k = cmd_reg xs k;
  re_events k : b_events b !! k = evt_reg xs k;
  re_queries k : b_queries b !! k = qry_reg xs k;
  re_middlewares : b_middlewares b = flat_map middleware_entries xs }.

Lemma flat_map_snoc xs x : middleware_entries x = [] -> flat_map middleware_entries (xs ++ [x])%list = flat_map middleware_entries xs.
Proof. intros E. rewrite List.flat_map_app. cbn. by rewrite E, !app_nil_r. Qed.

Lemma registered_command xs x d b reg : described xs b -> cmd_of x = Some d ->
  cmd_reg (xs ++ [x])%list (tkey d) = Some reg -> registered (xs ++ [x])%list (set_command (tkey d) reg b).
Proof.
  intros [Hc He Hq Hs Hm] Hd E. split; cbn [set_command b_commands b_events b_queries b_middlewares].
  - intros k. destruct (decide (tkey d = k)) as [<-|Hn]; [by rewrite lookup_insert_eq|].
    rewrite lookup_insert_ne by done. rewrite cmd_reg_other; [apply Hc|]. intros e He'. naive_solver.
  - intros k. rewrite evt_reg_other; [apply He|]. by destruct x.
  - intros k. rewrite qry_reg_other; [apply Hq|]. by destruct x.
  - rewrite flat_map_snoc; [done|]. by destruct x.
Qed.
Lemma registered_event xs x d b reg : described xs b -> evt_of x = Some d ->
  evt_reg (xs ++ [x])%list (tkey d) = Some reg -> registered (xs ++ [x])%list (set_event (tkey d) reg b).
Proof.
  intros [Hc He Hq Hs Hm] Hd E. split; cbn [set_event b_commands b_events b_queries b_middlewares].
  - intros k. rewrite cmd_reg_other; [apply Hc|]. by destruct x.
  - intros k. destruct (decide (tkey d = k)) as [<-|Hn]; [by rewrite lookup_insert_eq|].
    rewrite lookup_insert_ne by done. rewrite evt_reg_other; [apply He|]. intros e He'. naive_solver.
  - intros k. rewrite qry_reg_other; [apply Hq|]. by destruct x.
  - rewrite flat_map_snoc; [done|]. by destruct x.
Qed.
Lemma registered_query xs x d b reg : described xs b -> qry_of x = Some d ->
  qry_reg (xs ++ [x])%list (qkey d) = Some reg -> registered (xs ++ [x])%list (set_query (qkey d) reg b).
Proof.
  intros [Hc He Hq Hs Hm] Hd E. split; cbn [set_query b_commands b_events b_queries b_middlewares].
  - intros k. rewrite cmd_reg_other; [apply Hc|]. by destruct x.
  - intros k. rewrite evt_reg_other; [apply He|]. by destruct x.
  - intros k. destruct (decide (qkey d = k)) as [<-|Hn]; [by rewrite lookup_insert_eq|].
    rewrite lookup_insert_ne by done. rewrite qry_reg_other; [apply Hq|]. intros e He'. naive_solver.
  - rewrite flat_map_snoc; [done|]. by destruct x.
Qed.

Lemma registered_described xs b b' : registered xs b -> same_regs b b' ->
  (forall id, b_services b' !! id = first (svc_entry id) xs) -> described xs b'.
Proof. intros [Hc He Hq Hm] (E1 & E2 & E3 & E4) Hs. split; [by rewrite ?E1, ?E2, ?E3, ?E4..|]. by rewrite E4. Qed.

(** What a declaration does to a builder without errors. *)
Definition step_ok xs x b' : Prop :=
  (valid x /\ fits_all xs x /\ b_errors b' = [] /\ described (xs ++ [x])%list b') \/
  (~ (valid x /\ fits_all xs x) /\ b_errors b' <> []).

Lemma error_step xs x b err : ~ (valid x /\ fits_all xs x) -> step_ok xs x (addError err b).
Proof. intros Hn. right. split; [done|]. cbn. by destruct (b_errors b). Qed.

(** A declaration that brings no service and set its registration. *)
Lemma set_step xs x b b' : described xs b -> b_errors b = [] -> svc_of x = None ->
  valid x -> fits_all xs x -> registered (xs ++ [x])%list b' -> b_services b' = b_services b -> b_errors b' = b_errors b -> step_ok xs x b'.
Proof.
  intros Hd He Hs Hv Hf Hr Es Ee. left. split_and!; [done|done|congruence|].
  apply (registered_described _ b'); [done|done|]. intros id. rewrite Es, svc_first_other by done. apply (de_services _ _ Hd).
Qed.

(** A route that set its registration and may bring a service. *)
Lemma route_step xs x b b' : consistent xs -> described xs b -> b_errors b = [] ->
  (svc_fits xs (svc_of x) -> valid x /\ fits_all xs x) -> registered (xs ++ [x])%list b' ->
  b_services b' = b_services b -> b_errors b' = b_errors b -> step_ok xs x (addRouteService (svc_of x) b').
Proof.
  intros Hc Hd He Hv Hr Es Ee.
  destruct (addRouteService_cases x b' xs Hc) as [(Hf & E1 & E2 & E3)|(Hf & err & ->)].
  - intros id. rewrite Es. apply (de_services _ _ Hd).
  - left. destruct (Hv Hf). split_and!; [done|done|congruence|]. by apply (registered_described _ b').
  - apply error_step. intros [[_ Hx] Ha]. apply Hf. split; [done|]. by apply fits_all_iff in Ha as (_ & _ & _ & _ & ?).
Qed.

(** A command, event or query declaration fits when its descriptor, its slot and
    its service do. *)
Ltac fits_solver :=
  apply fits_all_iff; split_and!; intros; simplify_eq; try done; naive_solver.

Lemma command_step d id h xs b : consistent xs -> described xs b -> b_errors b = [] ->
  step_ok xs (DCommand d id h) (HandleCommand d id h b).
Proof.
  intros [Hv Hp] Hd He. set (x := DCommand d id h). unfold HandleCommand.
  destruct (ensureCommand_cases d b xs Hd Hp) as [(Hfit & reg & -> & ->)|(Hfit & err & ->)].
  2: { apply error_step. intros [_ Hf]. apply Hfit. apply fits_all_iff in Hf as (Hf & _). by apply Hf. }
  destruct h as [h|]; [|apply error_step; by intros [[[_ [? ?]] _] _]].
  destruct (validStableID id) eqn:Eid; cbn [negb]; [|apply error_step; intros [[[? _] _] _]; congruence].
  pose proof (free_first _ _ _ Hv (cmd_handler_slot (tkey d))) as Hfree. cbn [cr_handler cmd_at].
  destruct (first (cmd_handler (tkey d)) xs) as [f|] eqn:Ef; cbn [fmap option_fmap option_map].
  { apply error_step. intros [_ Hf]. apply fits_all_iff in Hf as (_ & _ & _ & Hf & _). by apply Hfree in Hf. }
  rewrite set_command_twice. apply (set_step _ _ b); try done.
  - assert (free xs (SCommandHandler (tkey d))) by (by apply Hfree). fits_solver.
  - apply (registered_command xs x d); [done..|]. unfold cmd_reg. rewrite !first_snoc, Ef.
    unfold cmd_desc at 2. cbn [cmd_of x cmd_handler cmd_route]. rewrite !at_key_eq. cbn.
    destruct (first (cmd_desc (tkey d)) xs), (first (cmd_route (tkey d)) xs); done.
Qed.

Lemma subscribe_step d id h xs b : consistent xs -> described xs b -> b_errors b = [] ->
  step_ok xs (DSubscribe d id h) (Subscribe d id h b).
Proof.
  intros [Hv Hp] Hd He. set (x := DSubscribe d id h). unfold Subscribe.
  destruct (ensureEvent_cases d b xs Hd Hp) as [(Hfit & reg & -> & ->)|(Hfit & err & ->)].
  2: { apply error_step. intros [_ Hf]. apply Hfit. apply fits_all_iff in Hf as (_ & Hf & _). by apply Hf. }
  destruct h as [h|]; [|apply error_step; by intros [[[_ [? ?]] _] _]].
  destruct (validStableID id) eqn:Eid; cbn [negb]; [|apply error_step; intros [[[? _] _] _]; congruence].
  pose proof (evt_sub_slot xs (tkey d) id Hv) as Hfree. cbn [er_subscribers evt_at].
  destruct (existsb _ _) eqn:Ef.
  { apply error_step. intros [_ Hf]. apply fits_all_iff in Hf as (_ & _ & _ & Hf & _). by apply Hfree in Hf. }
  rewrite set_event_twice. apply (set_step _ _ b); try done.
  - assert (free xs (SSubscription (tkey d) id)) by (by apply Hfree). fits_solver.
  - apply (registered_event xs x d); [done..|]. unfold evt_reg. rewrite !first_snoc, omap_snoc.
    unfold evt_desc at 2. cbn [evt_of x evt_sub evt_route]. rewrite !at_key_eq. cbn.
    destruct (first (evt_desc (tkey d)) xs), (first (evt_route (tkey d)) xs); done.
Qed.

Lemma query_step d id h xs b : consistent xs -> described xs b -> b_errors b = [] ->
  step_ok xs (DQuery d id h) (HandleQuery d id h b).
Proof.
  intros [Hv Hp] Hd He. set (x := DQuery d id h). unfold HandleQuery.
  destruct (ensureQuery_cases d b xs Hd Hp) as [(Hfit & reg & -> & ->)|(Hfit & err & ->)].
  2: { apply error_step. intros [_ Hf]. apply Hfit. apply fits_all_iff in Hf as (_ & _ & Hf & _). by apply Hf. }
  destruct h as [h|]; [|apply error_step; by intros [[[_ [? ?]] _] _]].
  destruct (validStableID id) eqn:Eid; cbn [negb]; [|apply error_step; intros [[[? _] _] _]; congruence].
  pose proof (free_first _ _ _ Hv (qry_handler_slot (qkey d))) as Hfree. cbn [qr_handler qry_at].
  destruct (first (qry_handler (qkey d)) xs) as [f|] eqn:Ef; cbn [fmap option_fmap option_map].
  { apply error_step. intros [_ Hf]. apply fits_all_iff in Hf as (_ & _ & _ & Hf & _). by apply Hfree in Hf. }
  rewrite set_query_twice. apply (set_step _ _ b); try done.
  - assert (free xs (SQueryHandler (qkey d))) by (by apply Hfree). fits_solver.
  - apply (registered_query xs x d); [done..|]. unfold qry_reg. rewrite !first_snoc, Ef.
    unfold qry_desc at 2. cbn [qry_of x qry_handler qry_route]. rewrite !at_key_eq. cbn.
    destruct (first (qry_desc (qkey d)) xs), (first (qry_route (qkey d)) xs); done.
Qed.

Lemma route_command_step d r xs b : consistent xs -> described xs b -> b_errors b = [] ->
  step_ok xs (DRouteCommand d r) (RouteCommand d r b).
Proof.
  intros Hcons Hd He. pose proof Hcons as [Hv Hp]. set (x := DRouteCommand d r). unfold RouteCommand.
  destruct (ensureCommand_cases d b xs Hd Hp) as [(Hfit & reg & -> & ->)|(Hfit & err & ->)].
  2: { apply error_step. intros [_ Hf]. apply Hfit. apply fits_all_iff in Hf as (Hf & _). by apply Hf. }
  destruct (validateRoute r) eqn:Er; [apply error_step; intros [[? _] _]; cbn in *; congruence|].
  pose proof (free_first _ _ _ Hv (cmd_route_slot (tkey d))) as Hfree. cbn [cr_route cmd_at].
  destruct (first (cmd_route (tkey d)) xs) as [f|] eqn:Ef.
  { apply error_step. intros [_ Hf]. apply fits_all_iff in Hf as (_ & _ & _ & Hf & _). by apply Hfree in Hf. }
  rewrite set_command_twice. apply (route_step xs x b); try done.
  - intros [Hs1 Hs2]. assert (free xs (SCommandRoute (tkey d))) by (by apply Hfree). split; [by split|]. fits_solver.
  - destruct r as [r|]; [|done]. apply (registered_command xs x d); [done..|]. unfold cmd_reg. rewrite !first_snoc, Ef.
    unfold cmd_desc at 2. cbn [cmd_of x cmd_handler cmd_route]. rewrite !at_key_eq. cbn.
    destruct (first (cmd_desc (tkey d)) xs), (first (cmd_handler (tkey d)) xs); done.
Qed.

Lemma route_event_step d r xs b : consistent xs -> described xs b -> b_errors b = [] ->
  step_ok xs (DRouteEvent d r) (RouteEvent d r b).
Proof.
  intros Hcons Hd He. pose proof Hcons as [Hv Hp]. set (x := DRouteEvent d r). unfold RouteEvent.
  destruct (ensureEvent_cases d b xs Hd Hp) as [(Hfit & reg & -> & ->)|(Hfit & err & ->)].
  2: { apply error_step. intros [_ Hf]. apply Hfit. apply fits_all_iff in Hf as (_ & Hf & _). by apply Hf. }
  destruct (validateRoute r) eqn:Er; [apply error_step; intros [[? _] _]; cbn in *; congruence|].
  pose proof (free_first _ _ _ Hv (evt_route_slot (tkey d))) as Hfree. cbn [er_route evt_at].
  destruct (first (evt_route (tkey d)) xs) as [f|] eqn:Ef.
  { apply error_step. intros [_ Hf]. apply fits_all_iff in Hf as (_ & _ & _ & Hf & _). by apply Hfree in Hf. }
  rewrite set_event_twice. apply (route_step xs x b); try done.
  - intros [Hs1 Hs2]. assert (free xs (SEventRoute (tkey d))) by (by apply Hfree). split; [by split|]. fits_solver.
  - destruct r as [r|]; [|done]. apply (registered_event xs x d); [done..|]. unfold evt_reg. rewrite !first_snoc, Ef, omap_snoc.
    unfold evt_desc at 2. cbn [evt_of x evt_sub evt_route]. rewrite !at_key_eq. cbn. rewrite app_nil_r.
    destruct (first (evt_desc (tkey d)) xs); done.
Qed.

Lemma route_query_step d r xs b : consistent xs -> described xs b -> b_errors b = [] ->
  step_ok xs (DRouteQuery d r) (RouteQuery d r b).
Proof.
  intros Hcons Hd He. pose proof Hcons as [Hv Hp]. set (x := DRouteQuery d r). unfold RouteQuery.
  destruct (ensureQuery_cases d b xs Hd Hp) as [(Hfit & reg & -> & ->)|(Hfit & err & ->)].
  2: { apply error_step. intros [_ Hf]. apply Hfit. apply fits_all_iff in Hf as (_ & _ & Hf & _). by apply Hf. }
  destruct (validateQueryRoute r) eqn:Er; [apply error_step; intros [[? _] _]; cbn in *; congruence|].
  pose proof (free_first _ _ _ Hv (qry_route_slot (qkey d))) as Hfree. cbn [qr_route qry_at].
  destruct (first (qry_route (qkey d)) xs) as [f|] eqn:Ef.
  { apply error_step. intros [_ Hf]. apply fits_all_iff in Hf as (_ & _ & _ & Hf & _). by apply Hfree in Hf. }
  rewrite set_query_twice. apply (route_step xs x b); try done.
  - intros [Hs1 Hs2]. assert (free xs (SQueryRoute (qkey d))) by (by apply Hfree). split; [by split|]. fits_solver.
  - destruct r as [r|]; [|done]. apply (registered_query xs x d); [done..|]. unfold qry_reg. rewrite !first_snoc, Ef.
    unfold qry_desc at 2. cbn [qry_of x qry_handler qry_route]. rewrite !at_key_eq. cbn.
    destruct (first (qry_desc (qkey d)) xs), (first (qry_handler (qkey d)) xs); done.
Qed.

Lemma use_step id s xs b : consistent xs -> described xs b -> b_errors b = [] -> step_ok xs (DUse id s) (Use id s b).
Proof.
  intros Hc Hd He. change (Use id s b) with (addRouteService (svc_of (DUse id s)) b). apply (route_step xs _ b); try done.
  - intros [Hs1 Hs2]. split; [by split|]. fits_solver.
  - destruct Hd as [H1 H2 H3 H4 H5]. split.
    + intros k. by rewrite cmd_reg_other.
    + intros k. by rewrite evt_reg_other.
    + intros k. by rewrite qry_reg_other.
    + by rewrite flat_map_snoc.
Qed.

Lemma UseMiddleware_fold ms : forall b, let b' := UseMiddleware ms b in
  (Forall is_Some ms -> b' = set_middlewares (b_middlewares b ++ omap id ms)%list b) /\
  (~ Forall is_Some ms -> b_errors b' <> []) /\ grows b b'.
Proof.
  induction ms as [|m ms IH]; intros b; cbn.
  - split_and!; [intros _; destruct b; unfold set_middlewares; cbn; by rewrite app_nil_r|by intros []|apply errors_grow_refl].
  - destruct m as [m|].
    + destruct (IH (set_middlewares (b_middlewares b ++ [m])%list b)) as (H1 & H2 & H3). split_and!.
      * intros Hf. apply Forall_cons in Hf as [_ Hf]. unfold UseMiddleware in H1. rewrite (H1 Hf). unfold set_middlewares. cbn.
        by rewrite <- app_assoc.
      * intros Hn. apply H2. intros Hf. apply Hn. constructor; [by eexists|done].
      * destruct H3 as [es E]. by exists es.
    + destruct (IH (addError (invalid "nil middleware") b)) as (_ & _ & H3). split_and!.
      * intros Hf. by apply Forall_cons in Hf as [[? ?] _].
      * intros _. destruct H3 as [es E]. unfold UseMiddleware in E. rewrite E. cbn. by destruct (b_errors b).
      * eapply errors_grow_trans; [apply grows_error|exact H3].
Qed.

Lemma middleware_step ms xs b : consistent xs -> described xs b -> b_errors b = [] -> step_ok xs (DMiddleware ms) (UseMiddleware ms b).
Proof.
  intros Hc Hd He. destruct (UseMiddleware_fold ms b) as (H1 & H2 & _).
  destruct (decide (Forall is_Some ms)) as [Hf|Hn].
  - rewrite (H1 Hf). apply (set_step _ _ b); try done.
    destruct Hd as [H3 H4 H5 H6 H7]. split.
    + intros k. by rewrite cmd_reg_other.
    + intros k. by rewrite evt_reg_other.
    + intros k. by rewrite qry_reg_other.
    + cbn. rewrite List.flat_map_app, H7. cbn. by rewrite app_nil_r.
  - right. split; [by intros [[? _] _]|by apply H2].
Qed.

Lemma declare_step x xs b : consistent xs -> described xs b -> b_errors b = [] -> step_ok xs x (declare x b).
Proof.
  destruct x; cbn [declare]; eauto using middleware_step, command_step, query_step, subscribe_step, route_command_step, route_event_step,
    route_query_step, use_step.
Qed.

(** ** Errors only accumulate *)
Ltac grows_tac := eauto using errors_grow_refl, errors_grow_trans, grows_error, grows_same.

Lemma ensureCommand_grows d b : grows b (ensureCommand d b).1.
Proof. unfold ensureCommand. destruct (b_commands b !! _); [destruct (negb _)|]; cbn; grows_tac. Qed.
Lemma ensureEvent_grows d b : grows b (ensureEvent d b).1.
Proof. unfold ensureEvent. destruct (b_events b !! _); [destruct (negb _)|]; cbn; grows_tac. Qed.
Lemma ensureQuery_grows d b : grows b (ensureQuery d b).1.
Proof. unfold ensureQuery. destruct (b_queries b !! _); [destruct (_ || _)|]; cbn; grows_tac. Qed.
Lemma addRouteService_grows m b : grows b (addRouteService m b).
Proof.
  destruct m as [[id [s|]]|]; cbn; unfold addService; grows_tac. destruct (negb _); [grows_tac|]. destruct (bool_decide _); [grows_tac|].
  destruct (b_services b !! id); [destruct (_ && _)|]; grows_tac.
Qed.

Lemma declare_grows x b : grows b (declare x b).
Proof.
  destruct x as [ms|d id h|d id h|d id h|d r|d r|d r|id s]; cbn [declare].
  - apply UseMiddleware_fold.
  - unfold HandleCommand. pose proof (ensureCommand_grows d b). destruct (ensureCommand d b) as [b' [r|]]; [|done].
    destruct h; [destruct (negb _); [|destruct (cr_handler r)]|]; grows_tac.
  - unfold HandleQuery. pose proof (ensureQuery_grows d b). destruct (ensureQuery d b) as [b' [r|]]; [|done].
    destruct h; [destruct (negb _); [|destruct (qr_handler r)]|]; grows_tac.
  - unfold Subscribe. pose proof (ensureEvent_grows d b). destruct (ensureEvent d b) as [b' [r|]]; [|done].
    destruct h; [destruct (negb _); [|destruct (existsb _ _)]|]; grows_tac.
  - unfold RouteCommand. pose proof (ensureCommand_grows d b). destruct (ensureCommand d b) as [b' [reg|]]; [|done].
    destruct (validateRoute r); [|destruct (cr_route reg)]; [grows_tac..|].
    eapply errors_grow_trans; [exact H|]. eapply errors_grow_trans; [|apply addRouteService_grows]. grows_tac.
  - unfold RouteEvent. pose proof (ensureEvent_grows d b). destruct (ensureEvent d b) as [b' [reg|]]; [|done].
    destruct (validateRoute r); [|destruct (er_route reg)]; [grows_tac..|].
    eapply errors_grow_trans; [exact H|]. eapply errors_grow_trans; [|apply addRouteService_grows]. grows_tac.
  - unfold RouteQuery. pose proof (ensureQuery_grows d b). destruct (ensureQuery d b) as [b' [reg|]]; [|done].
    destruct (validateQueryRoute r); [|destruct (qr_route reg)]; [grows_tac..|].
    eapply errors_grow_trans; [exact H|]. eapply errors_grow_trans; [|apply addRouteService_grows]. grows_tac.
  - apply (addRouteService_grows (Some (id, s))).
Qed.

(** Declarations do not touch the configuration. *)
Lemma addRouteService_config m b : b_config (addRouteService m b) = b_config b.
Proof.
  destruct m as [[id [s|]]|]; cbn; unfold addService; try done. destruct (negb _); [done|]. destruct (bool_decide _); [done|].
  destruct (b_services b !! id); [destruct (_ && _)|]; done.
Qed.
Lemma declare_config x b : b_config (declare x b) = b_config b.
Proof.
  assert (forall d, b_config (ensureCommand d b).1 = b_config b) as HC
    by (intros d; unfold ensureCommand; destruct (b_commands b !! _); [destruct (negb _)|]; done).
  assert (forall d, b_config (ensureEvent d b).1 = b_config b) as HE
    by (intros d; unfold ensureEvent; destruct (b_events b !! _); [destruct (negb _)|]; done).
  assert (forall d, b_config (ensureQuery d b).1 = b_config b) as HQ
    by (intros d; unfold ensureQuery; destruct (b_queries b !! _); [destruct (_ || _)|]; done).
  destruct x as [ms|d id h|d id h|d id h|d r|d r|d r|id s]; cbn [declare].
  - clear. revert b. induction ms as [|[m|] ms IH]; intros b; [done|..]; cbn; unfold UseMiddleware in IH; by rewrite IH.
  - unfold HandleCommand. specialize (HC d). destruct (ensureCommand d b) as [b' [r|]]; [|done].
    destruct h; [destruct (negb _); [|destruct (cr_handler r)]|]; done.
  - unfold HandleQuery. specialize (HQ d). destruct (ensureQuery d b) as [b' [r|]]; [|done].
    destruct h; [destruct (negb _); [|destruct (qr_handler r)]|]; done.
  - unfold Subscribe. specialize (HE d). destruct (ensureEvent d b) as [b' [r|]]; [|done].
    destruct h; [destruct (negb _); [|destruct (existsb _ _)]|]; done.
  - unfold RouteCommand. specialize (HC d). destruct (ensureCommand d b) as [b' [reg|]]; [|done].
    destruct (validateRoute r); [|destruct (cr_route reg)]; [done..|]. by rewrite addRouteService_config.
  - unfold RouteEvent. specialize (HE d). destruct (ensureEvent d b) as [b' [reg|]]; [|done].
    destruct (validateRoute r); [|destruct (er_route reg)]; [done..|]. by rewrite addRouteService_config.
  - unfold RouteQuery. specialize (HQ d). destruct (ensureQuery d b) as [b' [reg|]]; [|done].
    destruct (validateQueryRoute r); [|destruct (qr_route reg)]; [done..|]. by rewrite addRouteService_config.
  - apply (addRouteService_config (Some (id, s))).
Qed.

Lemma declare_all_config xs b : b_config (declare_all xs b) = b_config b.
Proof. revert b. induction xs as [|x xs IH]; intros b; [done|]. unfold declare_all in *. cbn. rewrite IH. apply declare_config. Qed.

Lemma grows_nonempty b b' : grows b b' -> b_errors b <> [] -> b_errors b' <> [].
Proof. intros [es ->]. by destruct (b_errors b). Qed.

(** ** Sequences *)
Lemma pairs_snoc (R : D -> D -> Prop) xs x :
  ForallOrdPairs R (xs ++ [x])%list <-> ForallOrdPairs R xs /\ forall y, y ∈ xs -> R y x.
Proof.
  induction xs as [|a xs IH]; cbn.
  - split; [intros _; split; [constructor|by intros y ?%not_elem_of_nil]|intros _; repeat constructor].
  - split.
    + inversion_clear 1 as [|? ? Ha Hr]. apply IH in Hr as [Hr Hx]. apply Forall_app in Ha as [Ha Hax].
      split; [by constructor|]. intros y [-> |Hy]%elem_of_cons; [|by apply Hx]. by inversion Hax.
    + intros [Hp Hx]. inversion_clear Hp as [|? ? Ha Hr]. constructor.
      * apply Forall_app. split; [done|]. constructor; [|constructor]. apply Hx. by left.
      * apply IH. split; [done|]. intros y Hy. apply Hx. by right.
Qed.

Lemma consistent_snoc xs x : consistent (xs ++ [x])%list <-> consistent xs /\ valid x /\ fits_all xs x.
Proof.
  unfold consistent. rewrite Forall_app, pairs_snoc, Forall_singleton. unfold fits_all. tauto.
Qed.

Definition fresh b : Prop :=
  b_commands b = ∅ /\ b_events b = ∅ /\ b_queries b = ∅ /\ b_services b = ∅ /\ b_middlewares b = [].

Lemma declare_all_ok xs b0 : fresh b0 -> b_errors b0 = [] ->
  (consistent xs /\ b_errors (declare_all xs b0) = [] /\ described xs (declare_all xs b0)) \/
  (~ consistent xs /\ b_errors (declare_all xs b0) <> []).
Proof.
  intros (E1 & E2 & E3 & E4 & E5) He. unfold declare_all. induction xs as [|x xs IH] using rev_ind.
  - left. split_and!; [split; constructor|done|]. split; cbn; [by rewrite ?E1, ?E2, ?E3, ?E4..|done].
  - rewrite fold_left_app. cbn [fold_left]. set (b := fold_left _ xs b0) in *. rewrite consistent_snoc.
    destruct IH as [(Hc & Hb & Hd)|(Hc & Hb)].
    + destruct (declare_step x xs b Hc Hd Hb) as [(Hv & Hf & ? & ?)|(Hn & ?)]; [by left|right]. split; [tauto|done].
    + right. split; [tauto|]. eapply grows_nonempty; [apply declare_grows|done].
Qed.

Lemma declare_all_bad xs b0 : b_errors b0 <> [] -> b_errors (declare_all xs b0) <> [].
Proof.
  revert b0. induction xs as [|x xs IH]; intros b0 Hb; [done|]. apply IH. eapply grows_nonempty; [apply declare_grows|done].
Qed.

(** Acceptance does not depend on the order of the declarations. *)
Lemma pairs_perm (R : D -> D -> Prop) xs ys : (forall x y, R x y -> R y x) -> xs ≡ₚ ys -> ForallOrdPairs R xs -> ForallOrdPairs R ys.
Proof.
  intros Hsym. induction 1 as [|x xs ys Hp IH|x y xs|xs ys zs H1 IH1 H2 IH2]; intros Hx; [done|..|by apply IH2, IH1].
  - inversion_clear Hx as [|? ? Ha Hr]. constructor; [by rewrite <- Hp|by apply IH].
  - inversion_clear Hx as [|? ? Ha Hr]. inversion_clear Hr as [|? ? Hb Hr']. apply Forall_cons in Ha as [Hxy Ha].
    constructor; [constructor; [by apply Hsym|done]|by constructor].
Qed.
Lemma consistent_perm xs ys : xs ≡ₚ ys -> consistent xs -> consistent ys.
Proof. intros Hp [Hv Hc]. split; [by rewrite <- Hp|]. by eapply pairs_perm, Hc; [apply compatible_sym|]. Qed.
Lemma complete_perm xs ys : xs ≡ₚ ys -> complete xs -> complete ys.
Proof. intros Hp [H1 H2 H3]. split; setoid_rewrite <- Hp; eauto. Qed.

(** ** The final checks *)
Definition but_errors b b' : Prop := same_regs b b' /\ b_services b' = b_services b /\ b_config b' = b_config b.
Lemma but_errors_trans b1 b2 b3 : but_errors b1 b2 -> but_errors b2 b3 -> but_errors b1 b3.
Proof. unfold but_errors, same_regs. intuition congruence. Qed.

(** A check reports an error exactly when [P] fails and changes nothing else. *)
Definition checks (c : Bld -> Bld) (P : Prop) : Prop := forall b, but_errors b (c b) /\ (b_errors (c b) = [] <-> b_errors b = [] /\ P).

Lemma checks_fold {A} (c : A -> Bld -> Bld) (P : A -> Prop) l : (forall a, checks (c a) (P a)) ->
  checks (fun b => fold_left (fun b a => c a b) l b) (Forall P l).
Proof.
  intros Hc. induction l as [|a l IH]; intros b; cbn; [split; [done|]; split; [by split; [|constructor]|by intros [? _]]|].
  destruct (Hc a b) as [H1 H2], (IH (c a b)) as [H3 H4]. split; [by eapply but_errors_trans|]. rewrite H4, H2, Forall_cons. tauto.
Qed.

Lemma checks_error (b : Bld) err : b_errors (addError err b) <> [].
Proof. cbn. by destruct (b_errors b). Qed.

Definition command_done (r : commandRegistration B C) : Prop :=
  forall route, cr_route r = Some route -> rt_localRoute route = true -> is_Some (cr_handler r).
Definition query_done (q : queryRegistration B C) : Prop := is_Some (qr_handler q) /\ is_Some (qr_route q).

Lemma command_checks r : checks (command_check r) (command_done r).
Proof.
  intros b. unfold command_check, command_done. destruct (cr_route r) as [route|]; [|split; [done|]; naive_solver].
  destruct (cr_handler r) as [h|]; [split; [done|]; split; [|tauto]; intros ?; split; [done|]; eauto|].
  destruct (rt_localRoute route) eqn:E; [|split; [done|]; split; [|tauto]; intros ?; split; [done|]; intros ? [= <-]; congruence].
  split; [done|]. split; [intros Hn; by apply checks_error in Hn|]. intros [_ Hf]. destruct (Hf route eq_refl E) as [? [=]].
Qed.
Lemma query_checks q : checks (query_check q) (query_done q).
Proof.
  intros b. unfold query_check, query_done.
  destruct (qr_handler q) as [h|], (qr_route q) as [r|]; (split; [done|]); split.
  1: intros ?; split; [done|]; split; by eexists.
  all: try (intros Hn; by apply checks_error in Hn); try (by intros [_ [[? ?] [? ?]]]); by intros [? _].
Qed.

Lemma forall_range {A} (m : gmap descriptorKey A) (P : A -> Prop) :
  Forall (fun ka => P ka.2) (range m) <-> forall k a, m !! k = Some a -> P a.
Proof.
  rewrite range_perm, Forall_forall. split.
  - intros H k a Hk. by apply (H (k, a)), elem_of_map_to_list.
  - intros H [k a] Hk%elem_of_map_to_list. by eapply H.
Qed.

Lemma final_checks_ok b : but_errors b (final_checks b) /\
  (b_errors (final_checks b) = [] <-> b_errors b = [] /\ validateSource (bc_source (b_config b)) = None /\
     (forall k r, b_commands b !! k = Some r -> command_done r) /\ (forall k q, b_queries b !! k = Some q -> query_done q)).
Proof.
  unfold final_checks. set (b1 := match validateSource _ with Some err => _ | None => _ end).
  assert (but_errors b b1 /\ (b_errors b1 = [] <-> b_errors b = [] /\ validateSource (bc_source (b_config b)) = None)) as [H1 E1].
  { subst b1. destruct (validateSource _); (split; [done|]); [|tauto]. split; [intros Hn; by apply checks_error in Hn|]. by intros [_ [=]]. }
  destruct (checks_fold (fun kr => command_check kr.2) _ (range (b_commands b1)) (fun kr => command_checks kr.2) b1) as [H2 E2].
  set (b2 := fold_left _ _ b1) in *.
  destruct (checks_fold (fun kq => query_check kq.2) _ (range (b_queries b2)) (fun kq => query_checks kq.2) b2) as [H3 E3].
  split; [by eapply but_errors_trans, H3; eapply but_errors_trans, H2|]. rewrite E3, E2, E1, !forall_range.
  destruct H1 as ((C1 & _ & Q1 & _) & _), H2 as ((_ & _ & Q2 & _) & _). rewrite C1, Q2, Q1. tauto.
Qed.

Lemma cmd_route_first xs d r : consistent xs -> DRouteCommand d (Some r) ∈ xs -> first (cmd_route (tkey d)) xs = Some r.
Proof.
  intros [Hv Hp] Hin. assert (cmd_route (tkey d) (DRouteCommand d (Some r)) = Some r) as Hr by (cbn; by rewrite at_key_eq).
  destruct (first (cmd_route (tkey d)) xs) as [r'|] eqn:E; [|rewrite first_none in E; rewrite (E _ Hin) in Hr; done].
  destruct (first_agree _ _ _ _ _ _ Hp E Hin Hr) as [->|(y & Hy & Hfy & Hc)]; [done|].
  destruct (cp_slot _ _ Hc (SCommandRoute (tkey d))); [|done]. rewrite Forall_forall in Hv.
  apply cmd_route_slot; [by apply Hv|by eexists].
Qed.

Lemma filled_first {A} (f : D -> option A) xs s : Forall valid xs -> (forall x, valid x -> (is_Some (f x) <-> slot_of x = Some s)) ->
  (is_Some (first f xs) <-> exists x, x ∈ xs /\ slot_of x = Some s).
Proof.
  intros Hv Hf. pose proof Hv as Hv'. rewrite Forall_forall in Hv'. split.
  - intros [a Ha]. apply first_in in Ha as (x & Hx & Ha). exists x. split; [done|]. apply Hf; [by apply Hv'|by eexists].
  - intros (x & Hx & Hs). destruct (first f xs) eqn:E; [by eexists|]. apply (free_first f xs s Hv Hf) in E. by destruct (E x Hx).
Qed.

Lemma complete_iff xs : consistent xs ->
  (forall k r, cmd_reg xs k = Some r -> command_done r) /\ (forall k q, qry_reg xs k = Some q -> query_done q) <-> complete xs.
Proof.
  intros Hc. pose proof Hc as [Hv Hp].
  assert (forall k, is_Some (snd <$> first (cmd_handler k) xs) <-> exists x, x ∈ xs /\ slot_of x = Some (SCommandHandler k)) as Hch.
  { intros k. rewrite fmap_is_Some. apply filled_first; [done|apply cmd_handler_slot]. }
  assert (forall k, is_Some (snd <$> first (qry_handler k) xs) <-> exists x, x ∈ xs /\ slot_of x = Some (SQueryHandler k)) as Hqh.
  { intros k. rewrite fmap_is_Some. apply filled_first; [done|apply qry_handler_slot]. }
  assert (forall k, is_Some (first (qry_route k) xs) <-> exists x, x ∈ xs /\ slot_of x = Some (SQueryRoute k)) as Hqr.
  { intros k. apply filled_first; [done|apply qry_route_slot]. }
  assert (forall x d, x ∈ xs -> qry_of x = Some d -> exists q, qry_reg xs (qkey d) = Some q) as Hreg.
  { intros x d Hx Hd. unfold qry_reg. destruct (first (qry_desc (qkey d)) xs) eqn:E; [eauto|]. rewrite first_none in E.
    specialize (E x Hx). unfold qry_desc in E. by rewrite Hd, at_key_eq in E. }
  split.
  - intros [H1 H2]. split.
    + intros d r Hin Hl. pose proof (cmd_route_first _ _ _ Hc Hin) as Hr. apply Hch. unfold cmd_reg in H1. specialize (H1 (tkey d)).
      destruct (first (cmd_desc (tkey d)) xs) as [d0|] eqn:E; [exact (H1 _ eq_refl r Hr Hl)|]. by apply cmd_desc_none in E as [_ E]; rewrite E in Hr.
    + intros x d Hx Hd. destruct (Hreg x d Hx Hd) as [q Hq]. apply Hqh. pose proof (H2 _ _ Hq) as [Hh _].
      unfold qry_reg in Hq. destruct (first (qry_desc _) xs); [|done]. by injection Hq as <-.
    + intros x d Hx Hd. destruct (Hreg x d Hx Hd) as [q Hq]. apply Hqr. pose proof (H2 _ _ Hq) as [_ Hr].
      unfold qry_reg in Hq. destruct (first (qry_desc _) xs); [|done]. by injection Hq as <-.
  - intros [H1 H2 H3]. split.
    + intros k r Hr route Hroute Hl. unfold cmd_reg in Hr. destruct (first (cmd_desc k) xs); [|done]. injection Hr as <-. cbn in *.
      apply Hch. apply first_in in Hroute as (x & Hx & Hroute). destruct x as [| | | |d [r|]| | |]; try done.
      cbn in Hroute. apply at_key_Some in Hroute as [<- ->]. by eapply H1.
    + intros k q Hq. unfold qry_reg in Hq. destruct (first (qry_desc k) xs) as [d|] eqn:E; [|done]. injection Hq as <-.
      apply first_in in E as (x & Hx & E). unfold qry_desc in E. destruct (qry_of x) as [d'|] eqn:Ed; [|done].
      apply at_key_Some in E as [<- ->]. split; [apply Hqh; by eapply H2|apply Hqr; by eapply H3].
Qed.

(** ** Options *)
Definition valid_option (o : option_value B C) : Prop :=
  match o with
  | ONil => False
  | OSource _ => True
  | OIDGenerator g => is_Some g
  | OClock c => is_Some c
  | OLogger l => is_Some l
  | OObserver o => is_Some o
  | OContextPropagator p => is_Some p
  | OPanicReporter r => is_Some r
  | ORuntimeShutdownTimeout t => 0 < t
  end.
(** The last source given. *)
Definition source_of (source : string) (os : list (option_value B C)) : string :=
  fold_left (fun source o => match o with OSource s => s | _ => source end) os source.

Definition apply_option (b : Bld) (o : option Option) : Bld :=
  match o with None => addError (invalid "nil builder option") b | Some o => o b end.

Lemma with_value_ok {A} label (a : option A) f b : let b' := with_value label a f b in
  same_regs b b' /\ b_services b' = b_services b /\ (b_errors b' = [] <-> b_errors b = [] /\ is_Some a) /\
  ((forall a c, bc_source (f a c) = bc_source c) -> bc_source (b_config b') = bc_source (b_config b)).
Proof.
  destruct a; cbn; split_and!; try done.
  - split; [by intros ?; split; [|eexists]|by intros [? _]].
  - split; [intros Hn; by destruct (b_errors b)|by intros [_ [? ?]]].
Qed.

Lemma option_ok o b : let b' := apply_option b (option_of o) in
  same_regs b b' /\ b_services b' = b_services b /\ (b_errors b' = [] <-> b_errors b = [] /\ valid_option o) /\
  bc_source (b_config b') = match o with OSource s => s | _ => bc_source (b_config b) end.
Proof.
  destruct o; cbn [option_of apply_option valid_option];
    unfold WithIDGenerator, WithClock, WithLogger, WithObserver, WithContextPropagator, WithPanicReporter;
    try (match goal with |- context [with_value ?l ?a ?f] => destruct (with_value_ok l a f b) as (? & ? & ? & Hs) end; split_and!; try done; by apply Hs).
  - split_and!; try done. split; [intros Hn; by apply checks_error in Hn|by intros [_ []]].
  - split_and!; try done. cbn. tauto.
  - unfold WithRuntimeShutdownTimeout. match goal with |- context [with_value ?l ?a ?f] => destruct (with_value_ok l a f b) as (? & ? & He & Hs) end.
    split_and!; try done; [|by apply Hs]. rewrite He. destruct (Z.leb_spec timeout 0); split; intros [? ?]; split; try done; try lia; try by eexists.
Qed.

Lemma NewBuilder_ok defaults os : let b := NewBuilder defaults (List.map option_of os) in
  fresh b /\ (b_errors b = [] <-> Forall valid_option os) /\ bc_source (b_config b) = source_of (bc_source defaults) os.
Proof.
  cbn. unfold NewBuilder, source_of. fold apply_option.
  set (b0 := {| b_config := defaults; b_middlewares := []; b_commands := ∅; b_events := ∅; b_queries := ∅; b_services := ∅; b_errors := [] |}).
  change (bc_source defaults) with (bc_source (b_config b0)).
  assert (fresh b0) as Hf by done. assert (b_errors b0 = [] <-> True) as He by done. revert Hf He.
  assert (Forall valid_option os <-> True /\ Forall valid_option os) as -> by tauto. generalize True as P. generalize b0. clear b0.
  induction os as [|o os IH]; intros b P Hf He; cbn.
  - split_and!; [done| |done]. rewrite He. split; [|by intros [? _]]. intros ?. split; [done|constructor].
  - destruct (option_ok o b) as ((E1 & E2 & E3 & E4) & E5 & E6 & E7). fold (apply_option b (option_of o)).
    destruct (IH (apply_option b (option_of o)) (P /\ valid_option o)) as (H1 & H2 & H3).
    + destruct Hf as (? & ? & ? & ? & ?). unfold fresh. by rewrite E1, E2, E3, E4, E5.
    + rewrite E6, He. tauto.
    + split_and!; [done| |by rewrite H3, E7]. rewrite H2, Forall_cons. tauto.
Qed.

(** ** What is built *)
Definition accepted (defaults : config B C) os xs : Prop :=
  Forall valid_option os /\ validateSource (source_of (bc_source defaults) os) = None /\ consistent xs /\ complete xs.

Lemma errors_join_None (es : list error) : errors_join (List.map Some es) = None <-> es = [].
Proof.
  unfold errors_join. assert (omap id (List.map Some es) = es) as -> by (induction es; cbn; congruence). by destruct es.
Qed.

Lemma mapM_Some {A A'} (f : A -> option A') l : (forall a, a ∈ l -> is_Some (f a)) -> is_Some (mapM f l).
Proof. intros H. apply mapM_is_Some, Forall_forall, H. Qed.

Lemma elem_of_range {K A} `{Countable K} (m : gmap K A) a : a ∈ List.map snd (range m) <-> exists k, m !! k = Some a.
Proof.
  rewrite list_elem_of_fmap. setoid_rewrite range_perm. split.
  - intros ([k a'] & -> & Hin%elem_of_map_to_list). by exists k.
  - intros [k Hk]. exists (k, a). split; [done|]. by apply elem_of_map_to_list.
Qed.

Lemma Build_ok defaults os xs : let b := declare_all xs (NewBuilder defaults (List.map option_of os)) in
  let b' := final_checks b in
  (accepted defaults os xs /\ described xs b' /\ bc_source (b_config b') = source_of (bc_source defaults) os /\
   exists m rn, (Build b).2 = Some (Ok (m, rn)) /\
     let c := b_config b' in let observer := newObserverSet (Some (bc_logger c)) (bc_observers c) in
     let mw := flat_map middleware_entries xs in
     (forall k, ms_commands m !! k = (fun r => makeCommandBinding r observer (bc_clock c) mw (bc_panicReporter c)) <$> cmd_reg xs k) /\
     (forall k, ms_events m !! k = (fun r => makeEventBinding r observer (bc_clock c) mw (bc_panicReporter c)) <$> evt_reg xs k) /\
     (forall k, ms_queries m !! k = (fun r => makeQueryBinding r observer (bc_clock c) mw (bc_panicReporter c)) <$> qry_reg xs k) /\
     ms_source m = bc_source c /\ (forall n, n ∈ rn_services rn <-> exists id, first (svc_entry id) xs = Some n) /\
     ms_idGenerator m = bc_idGenerator c /\ ms_clock m = bc_clock c /\ ms_propagator m = bc_propagator c /\ ms_observer m = observer /\
     buildManifest (ms_source m) (ms_commands m) (ms_events m) (ms_queries m) (rn_services rn) = Some (ms_manifest m) /\
     rn_services rn = List.map snd (range (b_services b'))) \/
  (~ accepted defaults os xs /\ exists err, (Build b).2 = Some (Err err)).
Proof.
  destruct (NewBuilder_ok defaults os) as (Hfresh & Herr & Hsrc). set (b0 := NewBuilder _ _) in *. cbn zeta.
  destruct (final_checks_ok (declare_all xs b0)) as [(Hregs & Hsvc & Hcfg) Hfin]. unfold Build. cbn [snd].
  assert (bc_source (b_config (declare_all xs b0)) = bc_source (b_config b0)) as Hsame by (by rewrite declare_all_config).
  set (b := declare_all xs b0) in *. set (b' := final_checks b) in *.
  destruct (errors_join (List.map Some (b_errors b'))) as [err|] eqn:Ej.
  - right. split; [|eauto]. intros (Ho & Hs & Hc & Hcomp). apply Herr in Ho.
    destruct (declare_all_ok xs b0 Hfresh Ho) as [(_ & Hb & Hd)|[]]; [|done]. fold b in Hb, Hd.
    apply (complete_iff xs Hc) in Hcomp as [Hcc Hqq].
    assert (b_errors b' = []) as E.
    { apply Hfin. split_and!; [done|by rewrite Hsame, Hsrc| |].
      - intros k r Hr. rewrite (de_commands _ _ Hd) in Hr. by eapply Hcc.
      - intros k q Hq. rewrite (de_queries _ _ Hd) in Hq. by eapply Hqq. }
    rewrite E in Ej. done.
  - left. apply errors_join_None in Ej. apply Hfin in Ej as (Hb & Hs & Hcd & Hqd).
    destruct (decide (b_errors b0 = [])) as [Ho|Hn]; [|by destruct (declare_all_bad xs b0 Hn)].
    destruct (declare_all_ok xs b0 Hfresh Ho) as [(Hc & _ & Hd)|[_ Hn]]; [|by fold b in Hn]. fold b in Hd.
    assert (described xs b') as Hd' by (destruct Hd as [H1 H2 H3 H4 H5], Hregs as (R1 & R2 & R3 & R4); split; rewrite ?R1, ?R2, ?R3, ?R4, ?Hsvc; done).
    assert (complete xs) as Hcomp.
    { apply complete_iff; [done|]. split; intros k r Hr; [apply (Hcd k)|apply (Hqd k)];
        [by rewrite (de_commands _ _ Hd)|by rewrite (de_queries _ _ Hd)]. }
    split_and!; [split_and!; [by apply Herr|by rewrite <- Hsrc, <- Hsame|done|done]|done|by rewrite Hcfg, Hsame, Hsrc|].
    unfold buildManifest. match goal with |- context [mapM query_entry ?l] => destruct (mapM_Some query_entry l) as [es Hes] end.
    { intros q Hq. apply elem_of_range in Hq as [k Hk]. apply lookup_fmap_Some in Hk as (r & <- & Hr).
      destruct (Hqd k r) as [_ [route Hroute]]; [destruct Hregs as (_ & _ & R3 & _); by rewrite <- R3|]. unfold query_entry. cbn. rewrite Hroute. eauto. }
    rewrite Hes. eexists _, _. split; [done|]. cbn. rewrite (de_middlewares _ _ Hd'). split_and!; try done.
    + intros k. by rewrite lookup_fmap, (de_commands _ _ Hd').
    + intros k. by rewrite lookup_fmap, (de_events _ _ Hd').
    + intros k. by rewrite lookup_fmap, (de_queries _ _ Hd').
    + intros n. rewrite elem_of_range. by setoid_rewrite (de_services _ _ Hd').
    + rewrite <- (de_middlewares _ _ Hd'), Hes. done.
Qed.
End Builder.
End BuilderProofs.
