(* ===== verification/BuilderTheorems.v ===== *)
(** * The builder's contract

    Which declarations are accepted, what the messenger then holds, and the
    manifest of a built messenger: it does not depend on the order in which Go
    iterates over the maps, and passes [Manifest.Validate]. *)
From S2P Require Import Prelude GoStrings GoText Errors Ident Envelope EnvelopeProofs Middleware Delivery Route Builder Manifest BuilderProofs.
From stdpp Require Import sorting.
Import Stdlib.Strings.String.
Open Scope string_scope.
Open Scope Z_scope.

(** ** The manifest is deterministic and valid *)
Module ManifestProofs.
Import Envelope Route Builder Manifest Build.

(** ** The order of descriptors *)
#[global] Instance key_le_trans : Transitive key_le.
Proof.
  intros [k1 n1 v1] [k2 n2 v2] [k3 n3 v3]. unfold key_le. cbn.
  destruct (String.eqb_spec k1 k2) as [->|Hk]; cbn.
  - destruct (String.eqb_spec k2 k3) as [->|]; [|done]. cbn.
    destruct (String.eqb_spec n1 n2) as [->|Hn]; cbn; [destruct (String.eqb_spec n2 n3) as [->|]; cbn; [lia|done]|].
    destruct (String.eqb_spec n2 n3) as [->|]; cbn; [by destruct (String.eqb_spec n1 n3)|]. intros H1 H2.
    destruct (String.eqb_spec n1 n3) as [->|]; cbn; [|by etrans]. destruct Hn. by apply (anti_symm string_le).
  - destruct (String.eqb_spec k2 k3) as [->|]; cbn; [by destruct (String.eqb_spec k1 k3)|]. intros H1 H2.
    destruct (String.eqb_spec k1 k3) as [->|]; cbn; [|by etrans]. destruct Hk. by apply (anti_symm string_le).
Qed.
#[global] Instance key_le_total : Total key_le.
Proof.
  intros [k1 n1 v1] [k2 n2 v2]. unfold key_le. cbn. rewrite (String.eqb_sym k2), (String.eqb_sym n2).
  destruct (String.eqb_spec k1 k2) as [->|]; cbn; [|apply (total string_le)].
  destruct (String.eqb_spec n1 n2) as [->|]; cbn; [lia|apply (total string_le)].
Qed.
#[global] Instance key_le_antisymm : AntiSymm (=) key_le.
Proof.
  intros [k1 n1 v1] [k2 n2 v2]. unfold key_le. cbn. rewrite (String.eqb_sym k2), (String.eqb_sym n2).
  destruct (String.eqb_spec k1 k2) as [->|Hk]; cbn; [|intros; destruct Hk; by apply (anti_symm string_le)].
  destruct (String.eqb_spec n1 n2) as [->|Hn]; cbn; [intros; f_equal; lia|intros; destruct Hn; by apply (anti_symm string_le)].
Qed.
#[global] Instance manifest_le_trans : Transitive manifest_le.
Proof. intros a b c. unfold manifest_le. apply key_le_trans. Qed.
#[global] Instance manifest_le_total : Total manifest_le.
Proof. intros a b. apply key_le_total. Qed.

Definition mkey (d : ManifestDescriptor) : descriptorKey := keyFor (mf_DescriptorInfo d).

(** Sorting removes the order of the input when the keys are distinct. *)
Lemma sort_unique l k : NoDup (List.map mkey l) -> l ≡ₚ k -> merge_sort manifest_le l = merge_sort manifest_le k.
Proof.
  intros Hn Hp. apply (StronglySorted_unique_strong manifest_le); [|apply StronglySorted_merge_sort; apply _..|by rewrite !merge_sort_Permutation].
  intros x y Hx Hy H1 H2. rewrite merge_sort_Permutation in Hx, Hy. rewrite <- Hp in Hy.
  assert (mkey x = mkey y) as E by (by apply (anti_symm key_le)).
  apply list_elem_of_lookup in Hx as [i Hi], Hy as [j Hj].
  assert (i = j) as ->; [|congruence]. eapply NoDup_lookup; [exact Hn| |]; rewrite list_lookup_fmap.
  - by rewrite Hi.
  - by rewrite Hj, E.
Qed.

(** ** Loops over ids *)
Lemma validate_ids_None inv dup seen ids : (forall id, id ∈ ids -> validStableID id = true /\ id ∉ seen) -> NoDup ids ->
  validate_ids inv dup seen ids = None.
Proof.
  revert seen. induction ids as [|id ids IH]; intros seen Hin Hn; [done|]. cbn. destruct (Hin id ltac:(by left)) as [-> Hs]. cbn.
  rewrite bool_decide_false by done. apply NoDup_cons in Hn as [Hi Hn]. apply IH; [|done].
  intros x Hx. destruct (Hin x ltac:(by right)). set_solver.
Qed.
Lemma validate_descriptors_None seen ds :
  (forall d, d ∈ ds -> validateManifestDescriptor d = None /\ mkey d ∉ seen) -> NoDup (List.map mkey ds) -> validate_descriptors seen ds = None.
Proof.
  revert seen. induction ds as [|d ds IH]; intros seen Hin Hn; [done|]. cbn. destruct (Hin d ltac:(by left)) as [-> Hs].
  fold (mkey d). rewrite bool_decide_false by done. apply NoDup_cons in Hn as [Hi Hn]. apply IH; [|done].
  intros x Hx. destruct (Hin x ltac:(by right)). split; [done|]. assert (mkey x ∈ List.map mkey ds) by (apply list_elem_of_fmap; eauto).
  rewrite not_elem_of_union, not_elem_of_singleton. split; [intros E; by rewrite E in *|done].
Qed.
End ManifestProofs.

Module BuilderTheorems.
Import Envelope Route Builder Manifest Build BuilderProofs ManifestProofs.
Section Theorems.
Context {B C : Type} `{GT : !GoTypes, GC : !GoContext C, GJ : !EnvelopeJSON}.
#[local] Abbreviation D := (declaration B C).
Implicit Types (x y : D) (xs : list D).

Definition built_from (defaults : config B C) (os : list (option_value B C)) xs : Builder B C :=
  declare_all xs (NewBuilder defaults (List.map option_of os)).

(** C26. [Build] never panics.  It returns a messenger exactly when the options are
    valid, the source is, every declaration is valid by itself, no two of them
    conflict and no handler or route is missing; whatever the order of the
    declarations.  The messenger then holds exactly what was declared: for each
    command and query its handler and route, for each event its subscriptions in
    the order of declaration, and all managed services. *)
Theorem builder_accepts `{!MapRange} (defaults : config B C) os xs :
  exists res, (Build (built_from defaults os xs)).2 = Some res /\
  ((exists built, res = Ok built) <-> accepted defaults os xs) /\
  (forall ys, xs ≡ₚ ys -> (exists built, (Build (built_from defaults os ys)).2 = Some (Ok built)) <-> accepted defaults os xs) /\
  (forall m rn, res = Ok (m, rn) ->
     (forall k, cmd_reg xs k = (fun cb => {| cr_descriptor := cb_descriptor cb; cr_handlerID := cb_handlerID cb;
                                             cr_handler := cb_handler cb; cr_route := cb_route cb |}) <$> ms_commands m !! k) /\
     (forall k, evt_reg xs k = (fun eb => {| er_descriptor := eb_descriptor eb; er_subscribers := eb_subscribers eb;
                                             er_route := eb_route eb |}) <$> ms_events m !! k) /\
     (forall k, qry_reg xs k = (fun qb => {| qr_descriptor := qb_descriptor qb; qr_resultType := qb_resultType qb; qr_handlerID := qb_handlerID qb;
                                             qr_handler := qb_handler qb; qr_route := qb_route qb |}) <$> ms_queries m !! k) /\
     (forall n, n ∈ rn_services rn <-> exists id, first (svc_entry id) xs = Some n) /\
     ms_source m = source_of (bc_source defaults) os).
Proof.
  assert (forall ys, xs ≡ₚ ys -> accepted defaults os xs <-> accepted defaults os ys) as Hperm.
  { intros ys Hp. unfold accepted. split; intros (? & ? & ? & ?); split_and!; try done;
      eauto using consistent_perm, complete_perm, Permutation_sym. }
  assert (forall ys, xs ≡ₚ ys -> (exists built, (Build (built_from defaults os ys)).2 = Some (Ok built)) <-> accepted defaults os xs) as Hall.
  { intros ys Hp. rewrite (Hperm ys Hp). unfold built_from.
    destruct (Build_ok defaults os ys) as [(Ha & _ & _ & m & rn & E & _)|(Hn & err & E)]; rewrite E; naive_solver. }
  unfold built_from in *. destruct (Build_ok defaults os xs) as [(Ha & Hd & Hs & m & rn & E & Hc & He & Hq & Hsrc & Hsv & _)|(Hn & err & E)];
    rewrite E; eexists; (split; [done|]); (split; [naive_solver|]); (split; [done|]).
  - intros m' rn' [= <- <-]. split_and!.
    + intros k. rewrite Hc. by destruct (cmd_reg xs k) as [[]|].
    + intros k. rewrite He. by destruct (evt_reg xs k) as [[]|].
    + intros k. rewrite Hq. by destruct (qry_reg xs k) as [[]|].
    + done.
    + by rewrite Hsrc.
  - done.
Qed.

(** ** The manifest *)
(** A descriptor as the constructors make it, possibly with a schema. *)
Definition constructed (kind : Kind) (d : descriptor any) : Prop :=
  exists name version (codec : option (Codec any)) d0 schema, newDescriptor kind name version "" codec = Ok d0 /\ d = WithSchema d0 schema.
Definition all_constructed xs : Prop := forall x, x ∈ xs ->
  (forall d, cmd_of x = Some d -> constructed KindCommand (t_descriptor d)) /\
  (forall d, evt_of x = Some d -> constructed KindEvent (t_descriptor d)) /\
  (forall d, qry_of x = Some d -> constructed KindQuery (tq_descriptor d)).

Definition proper (kind : Kind) (info : DescriptorInfo) : Prop :=
  di_Kind info = kind /\ Kind_valid kind = true /\ len (di_Name info) <= maxDescriptorNameLength /\
  MatchString descriptorNamePattern (bytes (di_Name info)) = true /\ 0 < di_SchemaVersion info /\
  di_ContentType info <> "" /\ DataEncoding_valid (di_DataEncoding info) = true.

Lemma constructed_proper kind d : constructed kind d -> proper kind (d_info d).
Proof.
  intros (name & version & [codec|] & d0 & schema & H & ->); [|done]. unfold newDescriptor in H.
  do 2 (case_in H; [done|]). injection H as <-. bool_simpl. unfold proper. cbn.
  match goal with H : (_ =? "")%string = false |- _ => apply String.eqb_neq in H end. by split_and!.
Qed.

(** What validation asks of one entry. *)
Lemma entry_valid kind d : proper kind (mf_DescriptorInfo d) ->
  (mf_Route d <> "" -> validStableID (mf_Route d) = true) ->
  (kind <> KindEvent -> (List.length (mf_HandlerIDs d) <= 1)%nat) ->
  (kind = KindQuery -> mf_Route d <> "" /\ mf_HandlerIDs d <> []) ->
  Forall (fun id => validStableID id = true) (mf_HandlerIDs d) -> NoDup (mf_HandlerIDs d) ->
  validateManifestDescriptor d = None.
Proof.
  intros (Hk & Hkv & Hl & Hm & Hv & Hc & He) Hr Hone Hq Hids Hn. unfold validateManifestDescriptor. rewrite Hk, Hkv, Hm, He.
  rewrite (proj2 (Z.ltb_ge _ _) Hl), (proj2 (Z.leb_gt _ _) Hv), (proj2 (String.eqb_neq _ _) Hc). cbn [negb orb].
  destruct (String.eqb_spec (mf_Route d) "") as [Er|Er]; cbn [negb andb]; [|rewrite (Hr Er); cbn [negb]].
  all: destruct (String.eqb_spec kind KindQuery) as [->|Hnq]; rewrite ?orb_true_r, ?orb_false_r; cbn [andb].
  - by destruct (Hq eq_refl).
  - assert ((kind =? KindCommand)%string && (1 <? Z.of_nat (List.length (mf_HandlerIDs d))) = false) as ->.
    { destruct (String.eqb_spec kind KindCommand) as [->|]; [|done]. cbn. apply Z.ltb_ge. assert (KindCommand <> KindEvent) by done.
      pose proof (Hone H). lia. }
    apply validate_ids_None; [|done]. intros id Hid. rewrite Forall_forall in Hids. split; [by apply Hids|set_solver].
  - assert (KindQuery <> KindEvent) as Hne by done. pose proof (Hone Hne) as H1. destruct (Hq eq_refl) as [_ H2].
    rewrite (proj2 (Z.ltb_ge _ _)) by lia. rewrite (proj2 (Z.eqb_neq _ _)) by (destruct (mf_HandlerIDs d); cbn in *; [done|lia]).
    apply validate_ids_None; [|done]. intros id Hid. rewrite Forall_forall in Hids. split; [by apply Hids|set_solver].
  - assert ((kind =? KindCommand)%string && (1 <? Z.of_nat (List.length (mf_HandlerIDs d))) = false) as ->.
    { destruct (String.eqb_spec kind KindCommand) as [->|]; [|done]. cbn. apply Z.ltb_ge. assert (KindCommand <> KindEvent) by done.
      pose proof (Hone H). lia. }
    apply validate_ids_None; [|done]. intros id Hid. rewrite Forall_forall in Hids. split; [by apply Hids|set_solver].
Qed.

Lemma stable_nonempty id : validStableID id = true -> id <> "".
Proof. by intros H ->. Qed.
Lemma route_name_ok nilp name : validate_route_name nilp name = None -> validStableID name = true.
Proof. unfold validate_route_name. destruct nilp; [done|]. by destruct (validStableID name). Qed.

(** Facts on the registrations of consistent, constructed declarations. *)
Section Entries.
Context (xs : list D) (Hc : consistent xs) (Hk : all_constructed xs).

Lemma valid_in x : x ∈ xs -> valid x.
Proof. intros Hx. destruct Hc as [Hv _]. rewrite Forall_forall in Hv. by apply Hv. Qed.

Lemma cmd_reg_proper k r : cmd_reg xs k = Some r -> proper KindCommand (dr_info (cr_descriptor r)) /\ keyFor (dr_info (cr_descriptor r)) = k.
Proof.
  unfold cmd_reg. destruct (first (cmd_desc k) xs) as [d|] eqn:E; [|done]. intros [= <-]. cbn.
  apply first_in in E as (x & Hx & E). apply (keyed_Some cmd_of tkey) in E as [Hd <-]. split; [|done].
  apply constructed_proper. by apply (Hk x Hx).
Qed.
Lemma evt_reg_proper k r : evt_reg xs k = Some r -> proper KindEvent (dr_info (er_descriptor r)) /\ keyFor (dr_info (er_descriptor r)) = k.
Proof.
  unfold evt_reg. destruct (first (evt_desc k) xs) as [d|] eqn:E; [|done]. intros [= <-]. cbn.
  apply first_in in E as (x & Hx & E). apply (keyed_Some evt_of tkey) in E as [Hd <-]. split; [|done].
  apply constructed_proper. by apply (Hk x Hx).
Qed.
Lemma qry_reg_proper k r : qry_reg xs k = Some r -> proper KindQuery (dr_info (qr_descriptor r)) /\ keyFor (dr_info (qr_descriptor r)) = k.
Proof.
  unfold qry_reg. destruct (first (qry_desc k) xs) as [d|] eqn:E; [|done]. intros [= <-]. cbn.
  apply first_in in E as (x & Hx & E). apply (keyed_Some qry_of qkey) in E as [Hd <-]. split; [|done].
  apply constructed_proper. by apply (Hk x Hx).
Qed.

(** Subscription ids of one event are distinct. *)
Lemma subscriptions_distinct k : NoDup (List.map es_id (omap (evt_sub k) xs)).
Proof.
  destruct Hc as [_ Hp]. clear Hk Hc. induction Hp as [|x ys Hx _ IH]; [constructor|].
  cbn. destruct (evt_sub k x) as [s|] eqn:E; [|exact IH]. cbn. constructor; [|exact IH]. intros Hin. apply list_elem_of_fmap in Hin as (s' & Eid & Hs').
  apply list_elem_of_omap in Hs' as (y & Hy & Hs'). rewrite Forall_forall in Hx. pose proof (cp_slot _ _ (Hx y Hy)) as Hslot.
  destruct x as [| | |d i [h|]| | | |]; try done. cbn in E. apply at_key_Some in E as [<- <-].
  destruct y as [| | |d' i' [h'|]| | | |]; try done. cbn in Hs'. apply at_key_Some in Hs' as [Ek <-]. cbn in Eid. subst i'.
  apply (Hslot (SSubscription (tkey d) i)); [done|]. cbn. by rewrite Ek.
Qed.

(** Each kind of entry passes. *)
Lemma command_entry_valid k r observer clock mw reporter : cmd_reg xs k = Some r ->
  validateManifestDescriptor (command_entry (makeCommandBinding r observer clock mw reporter)) = None.
Proof.
  intros Hr. destruct (cmd_reg_proper _ _ Hr) as [Hp _].
  assert (forall route, cr_route r = Some route -> validStableID (rt_Name route) = true) as Hroute.
  { unfold cmd_reg in Hr. destruct (first (cmd_desc k) xs); [|done]. injection Hr as <-. cbn. intros route Hf.
    apply first_in in Hf as (x & Hx & Hf). destruct (valid_in x Hx) as [Hv _]. destruct x as [| | | |d [rt|]| | |]; try done.
    cbn in Hf. apply at_key_Some in Hf as [_ ->]. by eapply route_name_ok. }
  assert (cr_handlerID r <> "" -> validStableID (cr_handlerID r) = true) as Hid.
  { unfold cmd_reg in Hr. destruct (first (cmd_desc k) xs); [|done]. injection Hr as <-. cbn.
    destruct (first (cmd_handler k) xs) as [[id f]|] eqn:Hf; [|done]. intros _.
    apply first_in in Hf as (x & Hx & Hf). destruct (valid_in x Hx) as [Hv _]. destruct x as [|d i [h|]| | | | | |]; try done.
    cbn in Hf. apply at_key_Some in Hf as [_ [= <- _]]. apply Hv. }
  apply (entry_valid KindCommand); cbn.
  - done.
  - destruct (cr_route r); [|done]. intros _. by apply Hroute.
  - intros _. destruct (cr_handlerID r =? "")%string; cbn; lia.
  - done.
  - destruct (String.eqb_spec (cr_handlerID r) "") as [|Hne]; repeat constructor. by apply Hid.
  - destruct (cr_handlerID r =? "")%string; repeat constructor. by intros ?%not_elem_of_nil.
Qed.

Lemma event_entry_valid k r observer clock mw reporter : evt_reg xs k = Some r ->
  validateManifestDescriptor (event_entry (makeEventBinding r observer clock mw reporter)) = None.
Proof.
  intros Hr. destruct (evt_reg_proper _ _ Hr) as [Hp _].
  unfold evt_reg in Hr. destruct (first (evt_desc k) xs) as [d0|]; [|done]. injection Hr as <-.
  apply (entry_valid KindEvent); cbn.
  - done.
  - destruct (first (evt_route k) xs) as [route|] eqn:Hf; [|done]. intros _. apply first_in in Hf as (x & Hx & Hf).
    destruct (valid_in x Hx) as [Hv _]. destruct x as [| | | | |d [rt|]| |]; try done. cbn in Hf. apply at_key_Some in Hf as [_ ->].
    by eapply route_name_ok.
  - done.
  - done.
  - apply Forall_forall. intros id Hid. apply list_elem_of_fmap in Hid as (s & -> & Hs). apply list_elem_of_omap in Hs as (x & Hx & Hs).
    destruct (valid_in x Hx) as [Hv _]. destruct x as [| | |d i [h|]| | | |]; try done. cbn in Hs. apply at_key_Some in Hs as [_ <-]. apply Hv.
  - apply subscriptions_distinct.
Qed.

Lemma query_entry_valid k r observer clock mw reporter e : query_done r -> qry_reg xs k = Some r ->
  query_entry (makeQueryBinding r observer clock mw reporter) = Some e -> validateManifestDescriptor e = None.
Proof.
  intros [Hh Hroute] Hr He. destruct (qry_reg_proper _ _ Hr) as [Hp _]. unfold query_entry in He. cbn in He.
  unfold qry_reg in Hr. destruct (first (qry_desc k) xs) as [d0|]; [|done]. injection Hr as <-. cbn in *.
  destruct (first (qry_route k) xs) as [route|] eqn:Hf; [|done]. injection He as <-.
  assert (validStableID (lr_Name route) = true) as Hname.
  { apply first_in in Hf as (x & Hx & Hf). destruct (valid_in x Hx) as [Hv _]. destruct x as [| | | | | |d [rt|]|]; try done.
    cbn in Hf. apply at_key_Some in Hf as [_ ->]. by eapply route_name_ok. }
  destruct (first (qry_handler k) xs) as [[id f]|] eqn:Hg; [|by destruct Hh].
  assert (validStableID id = true) as Hid.
  { apply first_in in Hg as (x & Hx & Hg). destruct (valid_in x Hx) as [Hv _]. destruct x as [| |d i [h|]| | | | |]; try done.
    cbn in Hg. apply at_key_Some in Hg as [_ [= <- _]]. apply Hv. }
  apply (entry_valid KindQuery); cbn; [done|done|lia|..].
  - intros _. split; [by apply stable_nonempty|done].
  - by repeat constructor.
  - repeat constructor. by intros ?%not_elem_of_nil.
Qed.
End Entries.

(** The bindings do not depend on the iteration order. *)
Lemma final_checks_config (R : MapRange) (b : Builder B C) : b_config (final_checks (GR := R) b) = b_config b.
Proof. by destruct (final_checks_ok (GR := R) b) as [(_ & _ & ?) _]. Qed.

Lemma same_bindings (defaults : config B C) os xs m rn m' rn' (R1 R2 : MapRange) :
  (Build (GR := R1) (built_from defaults os xs)).2 = Some (Ok (m, rn)) -> (Build (GR := R2) (built_from defaults os xs)).2 = Some (Ok (m', rn')) ->
  ms_commands m' = ms_commands m /\ ms_events m' = ms_events m /\ ms_queries m' = ms_queries m.
Proof.
  unfold built_from. intros E1 E2.
  destruct (Build_ok (GR := R1) defaults os xs) as [(_ & _ & _ & m1 & rn1 & F1 & Hc1 & He1 & Hq1 & _)|(_ & err & F1)]; rewrite F1 in E1; [|done].
  destruct (Build_ok (GR := R2) defaults os xs) as [(_ & _ & _ & m2 & rn2 & F2 & Hc2 & He2 & Hq2 & _)|(_ & err & F2)]; rewrite F2 in E2; [|done].
  injection E1 as <- <-. injection E2 as <- <-.
  split_and!; apply map_eq; intros k; rewrite ?Hc1, ?Hc2, ?He1, ?He2, ?Hq1, ?Hq2; by rewrite !final_checks_config.
Qed.

(** ** Iteration order *)
Definition no_entry : ManifestDescriptor :=
  {| mf_DescriptorInfo := {| di_Kind := ""; di_Name := ""; di_SchemaVersion := 0; di_ContentType := ""; di_DataEncoding := 0; di_Schema := "" |};
     mf_Route := ""; mf_HandlerIDs := [] |}.
Definition query_line (q : queryBinding B C) : ManifestDescriptor := default no_entry (query_entry q).

Lemma mapM_lines l es : mapM (@query_entry B C _) l = Some es -> es = List.map query_line l.
Proof.
  revert es. induction l as [|q l IH]; intros es; cbn; [by intros [= <-]|]. unfold query_line at 1.
  destruct (query_entry q) as [e|]; cbn; [|done]. destruct (mapM _ l) as [es'|]; cbn; [|done]. intros [= <-]. by rewrite (IH es').
Qed.

Lemma entries_keys `{!MapRange} {A} (m : gmap descriptorKey A) (f : A -> ManifestDescriptor) :
  (forall k a, m !! k = Some a -> mkey (f a) = k) -> List.map mkey (List.map f (List.map snd (range m))) = List.map fst (range m).
Proof.
  intros Hf. rewrite !List.map_map. apply List.map_ext_in. intros [k a] Hin. apply Hf. apply list_elem_of_In in Hin.
  rewrite range_perm in Hin. by apply elem_of_map_to_list in Hin.
Qed.
Lemma range_keys `{!MapRange} {K A} `{Countable K} (m : gmap K A) : NoDup (List.map fst (range m)).
Proof. assert (List.map fst (range m) ≡ₚ List.map fst (map_to_list m)) as -> by (by rewrite range_perm). apply NoDup_fst_map_to_list. Qed.
Lemma elem_of_range_keys `{!MapRange} {K A} `{Countable K} (m : gmap K A) k : k ∈ List.map fst (range m) -> exists a, m !! k = Some a.
Proof. intros ([k' a] & -> & Hin)%list_elem_of_fmap. rewrite range_perm in Hin. apply elem_of_map_to_list in Hin. by exists a. Qed.

(** The lines of the manifest before sorting. *)
Definition lines `{!MapRange} (m : Messenger B C) : list ManifestDescriptor :=
  (List.map command_entry (List.map snd (range (ms_commands m))) ++ List.map event_entry (List.map snd (range (ms_events m)))
   ++ List.map query_line (List.map snd (range (ms_queries m))))%list.

Lemma lines_perm (R1 R2 : MapRange) m : @lines R1 m ≡ₚ @lines R2 m.
Proof. unfold lines. by rewrite !(@range_perm R1), !(@range_perm R2). Qed.

Section Built.
Context `{GR : !MapRange} (defaults : config B C) (os : list (option_value B C)) (xs : list D) (m : Messenger B C) (rn : runtimeConfig).
Context (HB : (Build (built_from defaults os xs)).2 = Some (Ok (m, rn))) (Hk : all_constructed xs).

Lemma built_facts : accepted defaults os xs /\
  (forall k cb, ms_commands m !! k = Some cb -> exists r o c w p, cmd_reg xs k = Some r /\ cb = makeCommandBinding r o c w p) /\
  (forall k eb, ms_events m !! k = Some eb -> exists r o c w p, evt_reg xs k = Some r /\ eb = makeEventBinding r o c w p) /\
  (forall k qb, ms_queries m !! k = Some qb -> exists r o c w p, qry_reg xs k = Some r /\ query_done r /\ qb = makeQueryBinding r o c w p) /\
  ms_source m = source_of (bc_source defaults) os /\
  mf_SpecVersion (ms_manifest m) = ManifestSpecVersion /\ mf_Source (ms_manifest m) = ms_source m /\
  mf_Descriptors (ms_manifest m) = merge_sort manifest_le (lines m) /\
  mf_Services (ms_manifest m) = merge_sort string_le (List.map ns_id (rn_services rn)) /\
  exists services : gmap string namedService, rn_services rn = List.map snd (range services) /\
    forall id, services !! id = first (svc_entry id) xs.
Proof.
  unfold built_from in HB.
  destruct (Build_ok defaults os xs) as [(Ha & Hd & Hs & m' & rn' & E & Hc & He & Hq & Hsrc & _ & _ & _ & _ & _ & Hm & Hsv)|(Hn & err & E)];
    rewrite E in HB; [|done]. injection HB as <- <-. pose proof Ha as (_ & _ & Hcons & Hcomp).
  apply (complete_iff xs Hcons) in Hcomp as [_ Hqd]. unfold buildManifest in Hm.
  destruct (mapM query_entry _) as [es|] eqn:Ees; [|done]. apply mapM_lines in Ees as ->. injection Hm as Hm.
  assert (forall {A A'} (f : A -> A') (o : option A) a', f <$> o = Some a' -> exists a, o = Some a /\ a' = f a) as Hfm by (intros ? ? ? [?|] ?; naive_solver).
  split_and!; try done.
  - intros k cb Hcb. rewrite Hc in Hcb. apply Hfm in Hcb as (r & Hr & ->). by eexists r, _, _, _, _.
  - intros k cb Hcb. rewrite He in Hcb. apply Hfm in Hcb as (r & Hr & ->). by eexists r, _, _, _, _.
  - intros k cb Hcb. rewrite Hq in Hcb. apply Hfm in Hcb as (r & Hr & ->). eexists r, _, _, _, _. split_and!; [done|by eapply Hqd|done].
  - by rewrite Hsrc, Hs.
  - by rewrite <- Hm.
  - by rewrite <- Hm.
  - by rewrite <- Hm.
  - by rewrite <- Hm.
  - eexists. split; [exact Hsv|]. apply (de_services _ _ Hd).
Qed.

Lemma lines_distinct : NoDup (List.map mkey (lines m)).
Proof.
  destruct built_facts as ((_ & _ & Hcons & _) & Hc & He & Hq & _). unfold lines. rewrite !List.map_app.
  assert (forall k cb, ms_commands m !! k = Some cb -> mkey (command_entry cb) = k /\ dk_kind k = KindCommand) as Ec.
  { intros k cb Hcb. apply Hc in Hcb as (r & o & c & w & p & Hr & ->). destruct (cmd_reg_proper xs Hk _ _ Hr) as [[Hkind _] Hkey].
    split; [done|]. by rewrite <- Hkey. }
  assert (forall k eb, ms_events m !! k = Some eb -> mkey (event_entry eb) = k /\ dk_kind k = KindEvent) as Ee.
  { intros k cb Hcb. apply He in Hcb as (r & o & c & w & p & Hr & ->). destruct (evt_reg_proper xs Hk _ _ Hr) as [[Hkind _] Hkey].
    split; [done|]. by rewrite <- Hkey. }
  assert (forall k qb, ms_queries m !! k = Some qb -> mkey (query_line qb) = k /\ dk_kind k = KindQuery) as Eq.
  { intros k cb Hcb. apply Hq in Hcb as (r & o & c & w & p & Hr & [_ [route Hroute]] & ->).
    destruct (qry_reg_proper xs Hk _ _ Hr) as [[Hkind _] Hkey].
    split; [|by rewrite <- Hkey]. unfold query_line, query_entry. cbn. by rewrite Hroute. }
  rewrite (entries_keys _ command_entry), (entries_keys _ event_entry), (entries_keys _ query_line); try (intros; by apply Ec || by apply Ee || by apply Eq).
  apply NoDup_app. split_and!; [apply range_keys| |apply NoDup_app; split_and!; [apply range_keys| |apply range_keys]].
  - intros k Hin. apply elem_of_range_keys in Hin as [cb Hcb]. apply Ec in Hcb as [_ Hkc].
    intros [Hin|Hin]%elem_of_app; apply elem_of_range_keys in Hin as [b Hb].
    + apply Ee in Hb as [_ Hb]. by rewrite Hkc in Hb.
    + apply Eq in Hb as [_ Hb]. by rewrite Hkc in Hb.
  - intros k Hin Hin'. apply elem_of_range_keys in Hin as [eb Heb], Hin' as [qb Hqb].
    apply Ee in Heb as [_ Heb]. apply Eq in Hqb as [_ Hqb]. by rewrite Heb in Hqb.
Qed.

Lemma lines_valid d : d ∈ lines m -> validateManifestDescriptor d = None.
Proof.
  destruct built_facts as ((_ & _ & Hcons & _) & Hc & He & Hq & _). unfold lines. rewrite !elem_of_app, !list_elem_of_fmap.
  intros [(b & -> & Hb)|[(b & -> & Hb)|(b & -> & Hb)]]; apply elem_of_range in Hb as [k Hb].
  - apply Hc in Hb as (r & o & c & w & p & Hr & ->). by apply (command_entry_valid xs Hcons Hk k).
  - apply He in Hb as (r & o & c & w & p & Hr & ->). by apply (event_entry_valid xs Hcons Hk k).
  - apply Hq in Hb as (r & o & c & w & p & Hr & Hdone & ->). apply (query_entry_valid xs Hcons Hk k r o c w p); [exact Hdone|exact Hr|].
    destruct Hdone as [_ [route Hroute]]. unfold query_line, query_entry. cbn. by rewrite Hroute.
Qed.

Lemma services_valid : Forall (fun id => validStableID id = true) (List.map ns_id (rn_services rn)) /\ NoDup (List.map ns_id (rn_services rn)).
Proof.
  destruct built_facts as ((_ & _ & Hcons & _) & _ & _ & _ & _ & _ & _ & _ & _ & services & -> & Hs).
  assert (forall id n, services !! id = Some n -> ns_id n = id /\ validStableID id = true) as Hn.
  { intros id n Hid. rewrite Hs in Hid. apply first_in in Hid as (x & Hx & Hid). apply svc_entry_Some in Hid as (s & Hsx & ->). split; [done|].
    destruct (valid_in xs Hcons x Hx) as [_ Hv]. by destruct (Hv _ Hsx) as [? _]. }
  split.
  - apply Forall_forall. intros id Hid. apply list_elem_of_fmap in Hid as (n & -> & Hin). apply elem_of_range in Hin as [id Hin].
    by destruct (Hn _ _ Hin) as [-> ?].
  - rewrite List.map_map. assert (List.map (fun kn => ns_id kn.2) (range services) = List.map fst (range services)) as ->; [|apply range_keys].
    apply List.map_ext_in. intros [id n] Hin. apply list_elem_of_In in Hin. rewrite range_perm in Hin. apply elem_of_map_to_list in Hin.
    by apply Hn.
Qed.
End Built.

(** C31. The manifest of a messenger built from descriptors made by the
    constructors passes [Manifest.Validate], lists each bound command, event and
    query once with its route and handlers, and is the same for every order in
    which Go iterates over the maps. *)
Theorem manifest_sound `{GR : !MapRange} (defaults : config B C) os xs m rn :
  (Build (built_from defaults os xs)).2 = Some (Ok (m, rn)) -> all_constructed xs ->
  Manifest_Validate (ms_manifest m) = None /\
  mf_Descriptors (ms_manifest m) ≡ₚ lines m /\ NoDup (List.map mkey (mf_Descriptors (ms_manifest m))) /\
  forall (GR' : MapRange) m' rn', (Build (GR := GR') (built_from defaults os xs)).2 = Some (Ok (m', rn')) -> ms_manifest m' = ms_manifest m.
Proof.
  intros HB Hk. destruct (built_facts defaults os xs m rn HB) as (Ha & Hc & He & Hq & Hsrc & Hv & Hms & Hd & Hsv & services & Hrs & Hs).
  pose proof (lines_distinct defaults os xs m rn HB Hk) as Hdist. pose proof Ha as (_ & Hsource & Hcons & _).
  split_and!.
  - unfold Manifest_Validate. rewrite Hv, Hms, Hsrc, Hsource, Hd, Hsv. cbn [negb String.eqb].
    rewrite validate_descriptors_None.
    + apply validate_ids_None.
      * intros id Hid. rewrite merge_sort_Permutation in Hid. destruct (services_valid defaults os xs m rn HB) as [Hf _].
        rewrite Forall_forall in Hf. split; [by apply Hf|set_solver].
      * rewrite merge_sort_Permutation. by apply (services_valid defaults os xs m rn HB).
    + intros d Hin. rewrite merge_sort_Permutation in Hin. split; [by eapply lines_valid|apply not_elem_of_empty].
    + by rewrite merge_sort_Permutation.
  - by rewrite Hd, merge_sort_Permutation.
  - by rewrite Hd, merge_sort_Permutation.
  - intros GR' m' rn' HB'.
    destruct (built_facts (GR := GR') defaults os xs m' rn' HB') as (_ & _ & _ & _ & Hsrc' & Hv' & Hms' & Hd' & Hsv' & services' & Hrs' & Hs').
    assert (services' = services) as -> by (apply map_eq; intros id; by rewrite Hs, Hs').
    assert (ms_commands m' = ms_commands m /\ ms_events m' = ms_events m /\ ms_queries m' = ms_queries m) as (Ec & Ee & Eq).
    { by apply (same_bindings defaults os xs m rn m' rn' GR GR'). }
    destruct (ms_manifest m), (ms_manifest m'). cbn in *. subst. f_equal; [congruence|..].
    + symmetry. apply sort_unique; [exact Hdist|]. rewrite (lines_perm GR GR'). unfold lines. by rewrite Ec, Ee, Eq.
    + apply (StronglySorted_unique string_le); [apply StronglySorted_merge_sort; apply _..|].
      rewrite !merge_sort_Permutation, Hrs, Hrs'. by rewrite (@range_perm GR), (@range_perm GR').
Qed.
End Theorems.
End BuilderTheorems.
