(* ===== verification/Messenger.v ===== *)
(** * Sending, publishing and querying

    Models [messenger.go] and [messenger_batch.go]: metadata, bindings, deliveries
    and receipts.  The methods take and return the state [B] of the host code. *)
From S2P Require Import Prelude GoStrings GoText Errors Ident Envelope Middleware Delivery Route Builder Manifest.
Import Stdlib.Strings.String.
Import Envelope Route Builder Manifest Build.
Open Scope string_scope.
Open Scope Z_scope.

Module Messenger.

Record OutgoingMetadata := {
  om_ID : MessageID; om_Subject : string; om_Time : Time; om_CorrelationID : MessageID; om_CausationID : MessageID;
  om_Key : string; om_Headers : gmap string string; om_NotBefore : Time; om_ExpiresAt : Time }.
Definition OutgoingMetadata0 : OutgoingMetadata :=
  {| om_ID := zeroID; om_Subject := ""; om_Time := 0; om_CorrelationID := zeroID; om_CausationID := zeroID;
     om_Key := ""; om_Headers := ∅; om_NotBefore := 0; om_ExpiresAt := 0 |}.

Definition utcOrZero (t : Time) : Time := if IsZero t then 0 else UTC t.

Section Messenger.
Context {B C : Type} `{!GoTypes, !GoContext C, !EnvelopeJSON}.
Context (timeNow : B -> B * Time).

Record Outgoing := { og_Payload : any; og_Metadata : OutgoingMetadata }.

(** ** Metadata *)
Definition validateMetadata (m : Metadata) : option error :=
  if MessageID_IsZero (md_ID m) || MessageID_IsZero (md_CorrelationID m) || IsZero (md_Time m)
     || negb (Kind_valid (md_Kind m)) || String.eqb (md_Name m) "" || (md_SchemaVersion m <=? 0)
     || String.eqb (md_Source m) "" || String.eqb (md_ContentType m) ""
  then Some (wrapS ErrInvalidMessage "incomplete metadata")
  else if negb (IsZero (md_NotBefore m)) && negb (IsZero (md_ExpiresAt m)) && negb (After (md_ExpiresAt m) (md_NotBefore m))
  then Some (wrapS ErrInvalidMessage "expiresAt must follow notBefore")
  else validateHeaders (md_Headers m).

(** The correlation and causation a message inherits from the one being handled. *)
Definition lineage (parent : option Metadata) (id correlationID causationID : MessageID) : MessageID * MessageID :=
  let '(correlationID, causationID) :=
    match parent with
    | None => (correlationID, causationID)
    | Some p =>
        (if MessageID_IsZero correlationID
         then if MessageID_IsZero (md_CorrelationID p) then md_ID p else md_CorrelationID p
         else correlationID,
         if MessageID_IsZero causationID then md_ID p else causationID)
    end in
  (if MessageID_IsZero correlationID then id else correlationID, causationID).

Definition newMetadata (m : Messenger B C) (ctx : C) (info : DescriptorInfo) (out : OutgoingMetadata) (b : B)
  : B * result error Metadata :=
  let '(b, now) := if IsZero (om_Time out) then ms_clock m b else (b, om_Time out) in
  let now := UTC now in
  let '(b, id) := if MessageID_IsZero (om_ID out) then ms_idGenerator m b else (b, Ok (om_ID out)) in
  match id with
  | Err err => (b, Err err)
  | Ok id =>
      let '(correlationID, causationID) := lineage (MetadataFromContext ctx) id (om_CorrelationID out) (om_CausationID out) in
      let headers := match ms_propagator m with None => om_Headers out | Some inject => inject ctx (om_Headers out) end in
      let metadata :=
        {| md_ID := id; md_Kind := di_Kind info; md_Name := di_Name info; md_SchemaVersion := di_SchemaVersion info;
           md_Source := ms_source m; md_Subject := om_Subject out; md_Time := now; md_CorrelationID := correlationID;
           md_CausationID := causationID; md_Key := om_Key out; md_ContentType := di_ContentType info; md_Schema := di_Schema info;
           md_Headers := headers; md_NotBefore := utcOrZero (om_NotBefore out); md_ExpiresAt := utcOrZero (om_ExpiresAt out) |} in
      match validateMetadata metadata with
      | Some err => (b, Err err)
      | None => (b, Ok metadata)
      end
  end.
Definition newQueryMetadata (m : Messenger B C) (ctx : C) (info : DescriptorInfo) (b : B) : B * result error Metadata :=
  newMetadata m ctx info OutgoingMetadata0 b.

(** ** Running a handler *)
Definition report_all (reporter : option (C -> PanicReport -> B -> B)) (ctx : C) (reports : list PanicReport) (b : B) : B :=
  match reporter with None => b | Some report => fold_left (fun b r => report ctx r b) reports b end.

Definition run_handler (m : Metadata) (handlerID : string) (handler : C -> B -> B * Middleware.flow)
    (middlewares : list (MessengerMiddleware B C)) (reporter : option (C -> PanicReport -> B -> B)) (ctx : C) (b : B) : B * option error :=
  let '(s, (reports, err)) :=
    Middleware.invokeMiddleware handler (fun c => contextWithMetadata c m) (Middleware.is_nil reporter) handlerID
      (List.map (fun middleware => middleware m handlerID) middlewares) ctx
      {| Middleware.s_business := b; Middleware.s_time := 0; Middleware.s_handled := [] |} in
  (report_all reporter ctx reports (Middleware.s_business s), err).

Definition handle_observation (m : Metadata) (route handlerID : string) (started : Time) (duration : Duration) (err : option error) : Observation :=
  {| o_Operation := Delivery.OperationHandle; o_MessageID := md_ID m; o_Kind := md_Kind m; o_Name := md_Name m; o_SchemaVersion := md_SchemaVersion m;
     o_Route := route; o_HandlerID := handlerID; o_State := ""; o_StartedAt := started; o_Duration := duration; o_Err := err |}.

(** One handler with its start time and observation. *)
Definition observed_handler (m : Metadata) (handlerID : string) (handler : C -> B -> B * Middleware.flow) (clock : B -> B * Time)
    (observer : option (observerSet B C)) (middlewares : list (MessengerMiddleware B C))
    (reporter : option (C -> PanicReport -> B -> B)) (ctx : C) (b : B) : B * option error :=
  let '(b, started) := clock b in
  let '(b, err) := run_handler m handlerID handler middlewares reporter ctx b in
  match observer with
  | None => (b, err)
  | Some _ =>
      let '(b, ended) := clock b in
      (observe ctx observer (handle_observation m "" handlerID (UTC started) (Delivery.Sub (UTC ended) (UTC started)) err) b, err)
  end.

Definition expiryObserver (observer : option (observerSet B C)) (m : Metadata) (route : string) : option (C -> error -> B -> B) :=
  match observer with
  | None => None
  | Some _ => Some (fun ctx err b =>
      let '(b, now) := timeNow b in
      observe ctx observer
        {| o_Operation := OperationExpire; o_MessageID := md_ID m; o_Kind := md_Kind m; o_Name := md_Name m; o_SchemaVersion := md_SchemaVersion m;
           o_Route := route; o_HandlerID := ""; o_State := ""; o_StartedAt := UTC now; o_Duration := 0; o_Err := Some err |} b)
  end.

(** ** Deliveries of bindings; the route was checked before. *)
Definition command_delivery (cb : commandBinding B C) (route : Route B C) (m : Metadata) (payload : any) : delivery B C :=
  {| dl_onExpire := expiryObserver (cb_observer cb) m (rt_Name route);
     dl_metadata := m;
     dl_encode := dr_encode (cb_descriptor cb) payload;
     dl_handlers := match cb_handler cb with Some _ => 1 | None => 0 end;
     dl_invoke := Some (fun ctx b =>
       match cb_handler cb with
       | None => (b, Some (wrapS ErrHandlerNotFound "command"))
       | Some factory =>
           match factory payload with
           | Err err => (b, Some err)
           | Ok handler =>
               observed_handler m (cb_handlerID cb) handler (cb_clock cb) (cb_observer cb) (cb_middleware cb) (cb_panicReporter cb) ctx b
           end
       end) |}.

(** The loop over the subscribers with the errors so far. *)
Fixpoint notify_subscribers (eb : eventBinding B C) (m : Metadata) (payload : any) (ctx : C) (subscribers : list (eventSubscriber B C))
    (errs : list error) (b : B) : B * list error :=
  match subscribers with
  | [] => (b, errs)
  | s :: rest =>
      match es_handler s payload with
      | Err err => notify_subscribers eb m payload ctx rest (errs ++ [err])%list b
      | Ok handler =>
          let '(b, err) := observed_handler m (es_id s) handler (eb_clock eb) (eb_observer eb) (eb_middleware eb) (eb_panicReporter eb) ctx b in
          notify_subscribers eb m payload ctx rest (match err with Some err => (errs ++ [err])%list | None => errs end) b
      end
  end.

Definition event_delivery (eb : eventBinding B C) (route : Route B C) (m : Metadata) (payload : any) : delivery B C :=
  {| dl_onExpire := expiryObserver (eb_observer eb) m (rt_Name route);
     dl_metadata := m;
     dl_encode := dr_encode (eb_descriptor eb) payload;
     dl_handlers := Z.of_nat (List.length (eb_subscribers eb));
     dl_invoke := Some (fun ctx b =>
       let '(b, errs) := notify_subscribers eb m payload ctx (eb_subscribers eb) [] b in
       (b, errors_join (List.map Some errs))) |}.

(** ** Delivery and receipts *)
Definition normalizeReceipt (receipt : Receipt) (m : Metadata) (route : string) (clock : B -> B * Time) (b : B)
  : B * (Receipt * option error) :=
  let receipt := if MessageID_IsZero (rc_MessageID receipt)
    then {| rc_MessageID := md_ID m; rc_Route := rc_Route receipt; rc_State := rc_State receipt; rc_At := rc_At receipt |} else receipt in
  if negb (String.eqb (rc_MessageID receipt) (md_ID m)) then (b, (receipt, Some (wrapS ErrInvalidMessage "route changed message identity")))
  else
    let receipt := if String.eqb (rc_Route receipt) ""
      then {| rc_MessageID := rc_MessageID receipt; rc_Route := route; rc_State := rc_State receipt; rc_At := rc_At receipt |} else receipt in
    if negb (String.eqb (rc_Route receipt) route) || String.eqb (rc_State receipt) ""
    then (b, (receipt, Some (wrapS ErrInvalidMessage "invalid receipt")))
    else
      let '(b, now) := clock b in
      (b, ({| rc_MessageID := rc_MessageID receipt; rc_Route := rc_Route receipt; rc_State := rc_State receipt; rc_At := UTC now |}, None)).

Definition deliver_observation (m : Metadata) (route : string) (state : ReceiptState) (started : Time) (duration : Duration) (err : option error)
  : Observation :=
  {| o_Operation := OperationDeliver; o_MessageID := md_ID m; o_Kind := md_Kind m; o_Name := md_Name m; o_SchemaVersion := md_SchemaVersion m;
     o_Route := route; o_HandlerID := ""; o_State := state; o_StartedAt := started; o_Duration := duration; o_Err := err |}.

Definition deliver (m : Messenger B C) (ctx : C) (route : Route B C) (d : delivery B C) (b : B) : B * (Receipt * option error) :=
  let '(b, started) := ms_clock m b in
  let '(b, (receipt, err)) := rt_Deliver route (Some ctx) (Some d) b in
  let '(b, (receipt, err)) :=
    match err with
    | Some err => (b, (receipt, Some err))
    | None => normalizeReceipt receipt (dl_metadata d) (rt_Name route) (ms_clock m) b
    end in
  match ms_observer m with
  | None => (b, (receipt, err))
  | Some _ =>
      let '(b, ended) := ms_clock m b in
      (observe ctx (ms_observer m)
         (deliver_observation (dl_metadata d) (rt_Name route) (rc_State receipt) (UTC started) (Delivery.Sub (UTC ended) (UTC started)) err) b,
       (receipt, err))
  end.

(** ** Commands and events *)
Definition SendMessage (m : Messenger B C) (ctx : option C) (d : Typed) (out : Outgoing) (b : B) : B * (Receipt * option error) :=
  let info := d_info (t_descriptor d) in
  match ctx with
  | None => (b, (Receipt0, Some (wrapS ErrInvalidMessage "nil context")))
  | Some ctx =>
      match ms_commands m !! keyFor info with
      | Some binding =>
          if negb (sameDescriptor (cb_descriptor binding) info (t_type d)) then (b, (Receipt0, Some (wrapS ErrDescriptorConflict "command")))
          else match cb_route binding with
          | None => (b, (Receipt0, Some (wrapS ErrRouteNotFound "command")))
          | Some route =>
              let '(b, metadata) := newMetadata m ctx info (og_Metadata out) b in
              match metadata with
              | Err err => (b, (Receipt0, Some err))
              | Ok metadata => deliver m ctx route (command_delivery binding route metadata (og_Payload out)) b
              end
          end
      | None => (b, (Receipt0, Some (wrapS ErrDescriptorConflict "command")))
      end
  end.
Definition Send (m : Messenger B C) (ctx : option C) (d : Typed) (payload : any) (b : B) : B * (Receipt * option error) :=
  SendMessage m ctx d {| og_Payload := payload; og_Metadata := OutgoingMetadata0 |} b.

Definition PublishMessage (m : Messenger B C) (ctx : option C) (d : Typed) (out : Outgoing) (b : B) : B * (Receipt * option error) :=
  let info := d_info (t_descriptor d) in
  match ctx with
  | None => (b, (Receipt0, Some (wrapS ErrInvalidMessage "nil context")))
  | Some ctx =>
      match ms_events m !! keyFor info with
      | Some binding =>
          if negb (sameDescriptor (eb_descriptor binding) info (t_type d)) then (b, (Receipt0, Some (wrapS ErrDescriptorConflict "event")))
          else match eb_route binding with
          | None => (b, (Receipt0, Some (wrapS ErrRouteNotFound "event")))
          | Some route =>
              let '(b, metadata) := newMetadata m ctx info (og_Metadata out) b in
              match metadata with
              | Err err => (b, (Receipt0, Some err))
              | Ok metadata => deliver m ctx route (event_delivery binding route metadata (og_Payload out)) b
              end
          end
      | None => (b, (Receipt0, Some (wrapS ErrDescriptorConflict "event")))
      end
  end.
Definition Publish (m : Messenger B C) (ctx : option C) (d : Typed) (payload : any) (b : B) : B * (Receipt * option error) :=
  PublishMessage m ctx d {| og_Payload := payload; og_Metadata := OutgoingMetadata0 |} b.

(** ** Queries *)
(** The variable [result] of [call] is captured by the handler: the chain runs on
    the state with the result. *)
Fixpoint lift_body {R} (m : Middleware.middleware_body B C) : Middleware.middleware_body (B * R) C :=
  match m with
  | Middleware.MReturn err => Middleware.MReturn err
  | Middleware.MPanic v => Middleware.MPanic v
  | Middleware.MWork f k => Middleware.MWork (fun br => (f br.1, br.2)) (fun br => lift_body (k br.1))
  | Middleware.MNext c k => Middleware.MNext c (fun r => lift_body (k r))
  end.
Definition capture (handler : C -> B -> B * (localQueryResult * (option error + string))) : C -> B * localQueryResult -> (B * localQueryResult) * Middleware.flow :=
  fun ctx br =>
    let '(b, (result, r)) := handler ctx br.1 in
    match r with
    | inl err => ((b, result), Middleware.Ret err)
    | inr recovered => ((b, br.2), Middleware.Pan recovered)
    end.

Definition query_call (qb : queryBinding B C) (factory : queryFactory B C) (route : LocalQueryRoute B C) (m : Metadata) (payload : any)
  : localQueryCall B C :=
  {| lq_metadata := m;
     lq_invoke := Some (fun ctx b =>
       match factory payload with
       | Err err => (b, (localQueryResult0, Some err))
       | Ok handler =>
           let '(b, started) := qb_clock qb b in
           let '(s, (reports, err)) :=
             Middleware.invokeMiddleware (capture handler) (fun c => contextWithMetadata c m) (Middleware.is_nil (qb_panicReporter qb))
               (qb_handlerID qb) (List.map (fun middleware c => lift_body (middleware m (qb_handlerID qb) c)) (qb_middleware qb)) ctx
               {| Middleware.s_business := (b, localQueryResult0); Middleware.s_time := 0; Middleware.s_handled := [] |} in
           let '(b, result) := Middleware.s_business s in
           let b := report_all (qb_panicReporter qb) ctx reports b in
           let err := match err with
                      | None => if qr_present result then None else Some (ESentinel ErrQueryResultMissing)
                      | Some err => Some err
                      end in
           match qb_observer qb with
           | None => (b, (result, err))
           | Some _ =>
               let '(b, ended) := qb_clock qb b in
               (observe ctx (qb_observer qb)
                  (handle_observation m (lr_Name route) (qb_handlerID qb) (UTC started) (Delivery.Sub (UTC ended) (UTC started)) err) b,
                (result, err))
           end
       end) |}.

Definition queryResultAs (R : rtype) (result : localQueryResult) : any * option error :=
  if negb (qr_present result) then (None, Some (ESentinel ErrQueryResultMissing))
  else if negb (bool_decide (qr_expectedOutputType result = Some R)) then (None, Some (wrapS ErrDescriptorConflict "query result type"))
  else match qr_value result with
  | None => (None, None)
  | Some v => if has_type R (Some v) then (Some v, None) else (None, Some (wrapS ErrDescriptorConflict "query result value"))
  end.

Definition Query (m : Messenger B C) (ctx : option C) (d : TypedQuery) (payload : any) (b : B) : B * (any * option error) :=
  let info := d_info (tq_descriptor d) in
  match ctx with
  | None => (b, (None, Some (wrapS ErrInvalidMessage "nil context")))
  | Some ctx =>
      match ms_queries m !! keyFor info with
      | None => (b, (None, Some (wrapS ErrDescriptorConflict "query")))
      | Some binding =>
          if negb (sameDescriptor (qb_descriptor binding) info (tq_type d)) || negb (bool_decide (qb_resultType binding = Some (tq_R d)))
             || negb (bool_decide (tq_resultType d = Some (tq_R d)))
          then (b, (None, Some (wrapS ErrDescriptorConflict "query")))
          else match qb_handler binding, qb_route binding with
          | None, _ => (b, (None, Some (wrapS ErrHandlerNotFound "query")))
          | _, None => (b, (None, Some (wrapS ErrRouteNotFound "query")))
          | Some factory, Some route =>
              let '(b, metadata) := newQueryMetadata m ctx info b in
              match metadata with
              | Err err => (b, (None, Some err))
              | Ok metadata =>
                  let '(b, started) := ms_clock m b in
                  let '(b, (result, err)) := lr_query route (Some ctx) (query_call binding factory route metadata payload) b in
                  let '(value, err) := match err with None => queryResultAs (tq_R d) result | Some err => (None, Some err) end in
                  match ms_observer m with
                  | None => (b, (value, err))
                  | Some _ =>
                      let '(b, ended) := ms_clock m b in
                      (observe ctx (ms_observer m)
                         {| o_Operation := OperationQuery; o_MessageID := md_ID metadata; o_Kind := md_Kind metadata; o_Name := md_Name metadata;
                            o_SchemaVersion := md_SchemaVersion metadata; o_Route := lr_Name route; o_HandlerID := qb_handlerID binding; o_State := "";
                            o_StartedAt := UTC started; o_Duration := Delivery.Sub (UTC ended) (UTC started); o_Err := err |} b,
                       (value, err))
                  end
              end
          end
      end
  end.

(** ** Batches *)
(** The loop that gives each message its metadata; ids must differ. *)
Fixpoint batch_deliveries (m : Messenger B C) (ctx : C) (info : DescriptorInfo) (make : Metadata -> any -> delivery B C)
    (seen : gset MessageID) (outgoing : list Outgoing) (b : B) : B * result error (list (delivery B C)) :=
  match outgoing with
  | [] => (b, Ok [])
  | out :: rest =>
      let '(b, metadata) := newMetadata m ctx info (og_Metadata out) b in
      match metadata with
      | Err err => (b, Err (EFmt "batch item" [err]))
      | Ok metadata =>
          if bool_decide (md_ID metadata ∈ seen) then (b, Err (wrapS ErrInvalidMessage "duplicate message ID"))
          else
            let '(b, deliveries) := batch_deliveries m ctx info make ({[md_ID metadata]} ∪ seen) rest b in
            (b, match deliveries with Err err => Err err | Ok l => Ok (make metadata (og_Payload out) :: l) end)
      end
  end.

Fixpoint encode_all (ds : list (delivery B C)) : option error :=
  match ds with
  | [] => None
  | d :: ds => match Delivery_MarshalEnvelope d with Err err => Some (EFmt "batch delivery" [err]) | Ok _ => encode_all ds end
  end.

(** The receipts are normalized in place until one is refused. *)
Fixpoint normalize_all (receipts : list Receipt) (ds : list (delivery B C)) (route : string) (clock : B -> B * Time) (b : B)
  : B * (list Receipt * option error) :=
  match receipts, ds with
  | r :: receipts, d :: ds =>
      let '(b, (r, err)) := normalizeReceipt r (dl_metadata d) route clock b in
      match err with
      | Some err => (b, (r :: receipts, Some (EFmt "batch receipt" [err])))
      | None => let '(b, (receipts, err)) := normalize_all receipts ds route clock b in (b, (r :: receipts, err))
      end
  | _, _ => (b, (receipts, None))
  end.

Fixpoint observe_batch (m : Messenger B C) (ctx : C) (route : string) (started : Time) (err : option error) (ds : list (delivery B C))
    (receipts : list Receipt) (b : B) : B :=
  match ds with
  | [] => b
  | d :: ds =>
      let '(state, receipts) := match receipts with r :: rest => (rc_State r, rest) | [] => ("", []) end in
      let '(b, ended) := ms_clock m b in
      observe_batch m ctx route started err ds receipts
        (observe ctx (ms_observer m)
           (deliver_observation (dl_metadata d) route state (UTC started) (Delivery.Sub (UTC ended) (UTC started)) err) b)
  end.

Definition deliverBatch (m : Messenger B C) (ctx : C) (name : string)
    (DeliverBatch : C -> list (delivery B C) -> B -> B * (list Receipt * option error)) (ds : list (delivery B C)) (b : B)
  : B * (list Receipt * option error) :=
  match encode_all ds with
  | Some err => (b, ([], Some err))
  | None =>
      let '(b, started) := ms_clock m b in
      let '(b, (receipts, err)) := DeliverBatch ctx ds b in
      let '(b, (receipts, err)) :=
        match err with
        | Some err => (b, (receipts, Some err))
        | None =>
            if negb (List.length receipts =? List.length ds)%nat then (b, (receipts, Some (wrapS ErrInvalidMessage "batch route returned receipts")))
            else normalize_all receipts ds name (ms_clock m) b
        end in
      (match ms_observer m with None => b | Some _ => observe_batch m ctx name started err ds receipts b end, (receipts, err))
  end.

(** [SendMessageBatch] and [PublishMessageBatch] after the binding was found. *)
Definition send_batch (m : Messenger B C) (ctx : C) (info : DescriptorInfo) (route : option (Route B C))
    (make : Route B C -> Metadata -> any -> delivery B C) (outgoing : list Outgoing) (b : B) : B * (list Receipt * option error) :=
  match route with
  | None => (b, ([], Some (wrapS ErrRouteNotFound "batch")))
  | Some route =>
      match rt_DeliverBatch route with
      | None => (b, ([], Some (wrapS ErrUnsupportedCapability "route does not support batches")))
      | Some DeliverBatch =>
          let '(b, deliveries) := batch_deliveries m ctx info (make route) ∅ outgoing b in
          match deliveries with
          | Err err => (b, ([], Some err))
          | Ok ds => deliverBatch m ctx (rt_Name route) DeliverBatch ds b
          end
      end
  end.

Definition is_empty {A} (l : list A) : bool := match l with [] => true | _ => false end.

Definition SendMessageBatch (m : Messenger B C) (ctx : option C) (d : Typed) (outgoing : list Outgoing) (b : B) : B * (list Receipt * option error) :=
  let info := d_info (t_descriptor d) in
  match ctx with
  | None => (b, ([], Some (wrapS ErrInvalidMessage "nil context")))
  | Some ctx =>
      if is_empty outgoing then (b, ([], Some (wrapS ErrInvalidMessage "empty command batch")))
      else match ms_commands m !! keyFor info with
      | None => (b, ([], Some (wrapS ErrDescriptorConflict "command")))
      | Some binding =>
          if negb (sameDescriptor (cb_descriptor binding) info (t_type d)) then (b, ([], Some (wrapS ErrDescriptorConflict "command")))
          else send_batch m ctx info (cb_route binding) (command_delivery binding) outgoing b
      end
  end.
Definition PublishMessageBatch (m : Messenger B C) (ctx : option C) (d : Typed) (outgoing : list Outgoing) (b : B) : B * (list Receipt * option error) :=
  let info := d_info (t_descriptor d) in
  match ctx with
  | None => (b, ([], Some (wrapS ErrInvalidMessage "nil context")))
  | Some ctx =>
      if is_empty outgoing then (b, ([], Some (wrapS ErrInvalidMessage "empty event batch")))
      else match ms_events m !! keyFor info with
      | None => (b, ([], Some (wrapS ErrDescriptorConflict "event")))
      | Some binding =>
          if negb (sameDescriptor (eb_descriptor binding) info (t_type d)) then (b, ([], Some (wrapS ErrDescriptorConflict "event")))
          else send_batch m ctx info (eb_route binding) (event_delivery binding) outgoing b
      end
  end.
Definition SendBatch (m : Messenger B C) (ctx : option C) (d : Typed) (payloads : list any) (b : B) : B * (list Receipt * option error) :=
  SendMessageBatch m ctx d (List.map (fun p => {| og_Payload := p; og_Metadata := OutgoingMetadata0 |}) payloads) b.
Definition PublishBatch (m : Messenger B C) (ctx : option C) (d : Typed) (payloads : list any) (b : B) : B * (list Receipt * option error) :=
  PublishMessageBatch m ctx d (List.map (fun p => {| og_Payload := p; og_Metadata := OutgoingMetadata0 |}) payloads) b.
End Messenger.
End Messenger.
