(* ===== verification/MessengerProofs.v ===== *)
(** * In-process dispatch

    What handlers see and how often they run.  The state [B] of the host code has a
    log that only handlers and batch routes write: the clock, the id generator, the
    observers, the panic reporter and the middlewares leave it alone.  The log is
    arbitrary, so the theorems hold for whatever a handler records. *)
From S2P Require Import Prelude GoStrings GoText Errors Ident Envelope Middleware Delivery Route Builder Manifest Messenger.
Import Stdlib.Strings.String.
Import Envelope Route Builder Manifest Build Messenger.
Open Scope string_scope.
Open Scope Z_scope.

Module MessengerProofs.
Section Dispatch.
Context {B C L : Type} `{GT : !GoTypes, GC : !GoContext C, GJ : !EnvelopeJSON}.
Context (log : B -> list L).

(** ** Host code that leaves the log alone *)
Definition quiet {A} (f : B -> B * A) : Prop := forall b, log (f b).1 = log b.
Fixpoint quiet_body (m : Middleware.middleware_body B C) : Prop :=
  match m with
  | Middleware.MReturn _ | Middleware.MPanic _ => True
  | Middleware.MWork f k => (forall b, log (f b) = log b) /\ forall b, quiet_body (k b)
  | Middleware.MNext _ k => forall r, quiet_body (k r)
  end.
Definition quiet_observer (o : option (observerSet B C)) : Prop := forall ctx x b, log (observe ctx o x b) = log b.
Definition quiet_reporter (r : option (C -> PanicReport -> B -> B)) : Prop := forall ctx l b, log (report_all r ctx l b) = log b.
Definition quiet_middlewares (ms : list (MessengerMiddleware B C)) : Prop := Forall (fun m => forall md id c, quiet_body (m md id c)) ms.
(** Middlewares that hand every call on and return its answer. *)
Definition passing (ms : list (MessengerMiddleware B C)) : Prop := Forall (fun m => forall md id, Middleware.passes (m md id)) ms.

(** ** One handler *)
(** A chain takes a state with [P] to one with [P], the handler not called, or
    one with [Q], the handler called once. *)
Section Once.
Context {S : Type} (handler : C -> S -> S * Middleware.flow) (good : C -> Prop) (P Q : S -> Prop).
Context (handler_step : forall c s, good c -> P s -> Q (handler c s).1).
#[local] Abbreviation now s := (Middleware.s_business s).

Fixpoint keeps_body (m : Middleware.middleware_body S C) : Prop :=
  match m with
  | Middleware.MReturn _ | Middleware.MPanic _ => True
  | Middleware.MWork f k => (forall s, (P s -> P (f s)) /\ (Q s -> Q (f s))) /\ forall s, keeps_body (k s)
  | Middleware.MNext _ k => forall r, keeps_body (k r)
  end.

Lemma run_middleware_once next (called : bool) m s : keeps_body m -> (forall c s, P (now s) -> P (now (next c s).1) \/ Q (now (next c s).1)) ->
  let s' := (Middleware.run_middleware next called m s).1 in
  (Q (now s) -> called = true -> Q (now s')) /\ (P (now s) -> P (now s') \/ called = false /\ Q (now s')).
Proof.
  intros Hq Hn. revert called s Hq. induction m as [e|v|f k IH|c k IH]; intros called s Hq; cbn; [tauto..| |].
  - destruct Hq as [Hf Hk]. destruct (Hf (now s)) as [HP HQ].
    destruct (IH (f (now s)) called {| Middleware.s_business := f (now s); Middleware.s_time := Datatypes.S (Middleware.s_time s);
      Middleware.s_handled := Middleware.s_handled s |} (Hk _)) as [H1 H2]. cbn in H1, H2. tauto.
  - destruct called.
    + exact (IH _ true (Middleware.later s) (Hq _)).
    + pose proof (Hn c s) as Hc. destruct (next c s) as [s1 r]. destruct (IH r true s1 (Hq r)) as [H1 H2]. cbn in Hc. split; [done|].
      intros HP. destruct (Hc HP) as [H|H]; [destruct (H2 H) as [?|[? _]]; [by left|done]|right; auto].
Qed.

Lemma invoke_once (with_md : C -> C) ms ctx s : (forall c, good (with_md c)) -> Forall (fun m => forall c, keeps_body (m c)) ms -> P (now s) ->
  let s' := (Middleware.invoke (fun c => Middleware.handle handler (with_md c)) ms ctx s).1 in P (now s') \/ Q (now s').
Proof.
  intros Hg Hms. revert ctx s. induction Hms as [|m ms Hm _ IH]; intros [c|] s HP; cbn; try by left.
  - unfold Middleware.handle. pose proof (handler_step (with_md c) (now s) (Hg c) HP) as H. destruct (handler _ _) as [b' r]. by right.
  - destruct (run_middleware_once (Middleware.invoke (fun c => Middleware.handle handler (with_md c)) ms) false (m c) s (Hm c)) as [_ H].
    + intros c' s'. apply IH.
    + destruct (H HP) as [?|[_ ?]]; auto.
Qed.

Lemma invokeMiddleware_once with_md reporter_nil id ms ctx s : good ctx -> (forall c, good (with_md c)) ->
  Forall (fun m => forall c, keeps_body (m c)) ms -> P (now s) ->
  let s' := (Middleware.invokeMiddleware handler with_md reporter_nil id ms ctx s).1 in P (now s') \/ Q (now s').
Proof.
  intros Hg Hw Hms HP. unfold Middleware.invokeMiddleware.
  set (s0 := {| Middleware.s_business := now s; Middleware.s_time := _; Middleware.s_handled := [] |}).
  assert (forall p : @Middleware.st S C * Middleware.flow, (P (now p.1) \/ Q (now p.1)) ->
    let s' := (let '(s', r) := p in (s', match r with Middleware.Ret e => ([], e) | Middleware.Pan v => Middleware.recovered_error false reporter_nil id v end)).1
    in P (now s') \/ Q (now s')) as Hend by (by intros [s' r]).
  apply Hend. destruct ms as [|m ms]; [|by apply invoke_once].
  unfold Middleware.handle. pose proof (handler_step ctx (now s0) Hg HP) as H. destruct (handler _ _) as [b' r]. by right.
Qed.
End Once.

Section Chain.
Context (handler : C -> B -> B * Middleware.flow) (x : L) (good : C -> Prop).
Context (handler_log : forall c b, good c -> log (handler c b).1 = (log b ++ [x])%list).
#[local] Abbreviation now s := (log (Middleware.s_business s)).

Lemma quiet_keeps (P Q : list L -> Prop) m : quiet_body m -> keeps_body (fun b => P (log b)) (fun b => Q (log b)) m.
Proof. induction m as [e|v|f k IH|c k IH]; cbn; try done; [|naive_solver]. intros [Hf Hk]. split; [intros s; by rewrite Hf|naive_solver]. Qed.

Lemma invokeMiddleware_log with_md reporter_nil id ms ctx b : good ctx -> (forall c, good (with_md c)) ->
  Forall (fun m => forall c, quiet_body (m c)) ms ->
  let s0 := {| Middleware.s_business := b; Middleware.s_time := 0; Middleware.s_handled := [] |} in
  let '(s', (_, err)) := Middleware.invokeMiddleware handler with_md reporter_nil id ms ctx s0 in
  (now s' = log b \/ now s' = (log b ++ [x])%list) /\ (Forall Middleware.passes ms -> now s' = (log b ++ [x])%list).
Proof.
  intros Hg Hw Hms s0.
  pose proof (invokeMiddleware_once handler good (fun s => log s = log b) (fun s => log s = (log b ++ [x])%list)) as H. cbn in H.
  specialize (H ltac:(by intros c s ? <-; apply handler_log) with_md reporter_nil id ms ctx s0 Hg Hw).
  assert (Forall Middleware.passes ms -> now (Middleware.invokeMiddleware handler with_md reporter_nil id ms ctx s0).1 = (log b ++ [x])%list) as H2.
  { intros Hp. unfold Middleware.invokeMiddleware. destruct ms as [|m ms]; [|rewrite Middleware.invoke_passes by done];
      unfold Middleware.handle; [pose proof (handler_log ctx b Hg) as E|pose proof (handler_log (with_md ctx) b (Hw ctx)) as E];
      cbn; by destruct (handler _ b) as [b' [e|v]]. }
  destruct (Middleware.invokeMiddleware _ _ _ _ _ _ _) as [s' [? err]]. split; [|done]. apply H; [|done].
  eapply Forall_impl; [exact Hms|]. intros m Hm c. by apply (quiet_keeps (fun l => l = log b) (fun l => l = (log b ++ [x])%list)).
Qed.
End Chain.

(** ** Contexts *)
Definition carries (m : Metadata) (c : C) : Prop := MetadataFromContext c = Some m.
Lemma carries_with c m : carries m (contextWithMetadata c m).
Proof. apply metadata_with. Qed.

(** The handler of a factory is called with exactly the message. *)
Lemma factory_ok T label (h : Handler B C) payload : has_type T payload = true ->
  factory T label h payload = Ok (fun ctx => h (message_of ctx payload) ctx).
Proof. intros Ht. unfold factory. by rewrite payloadAs_typed, Ht. Qed.
Lemma message_of_carries m c payload : carries m c -> message_of c payload = {| m_Metadata := m; m_Payload := payload |}.
Proof. intros E. unfold message_of. by rewrite E. Qed.

Lemma observed_handler_log m id (h : C -> B -> B * Middleware.flow) x clock observer ms reporter ctx b :
  (forall c b, carries m c -> log (h c b).1 = (log b ++ [x])%list) ->
  quiet clock -> quiet_observer observer -> quiet_reporter reporter -> quiet_middlewares ms -> carries m ctx ->
  let '(b', err) := observed_handler m id h clock observer ms reporter ctx b in
  (log b' = log b \/ log b' = (log b ++ [x])%list) /\ (passing ms -> log b' = (log b ++ [x])%list).
Proof.
  intros Hh Hc Ho Hr Hm Hctx. unfold observed_handler, run_handler. pose proof (Hc b) as E1. destruct (clock b) as [b1 started]. cbn in E1.
  pose proof (invokeMiddleware_log h x (carries m) Hh (fun c => contextWithMetadata c m) (Middleware.is_nil reporter) id
    (List.map (fun middleware => middleware m id) ms) ctx b1 Hctx (fun c => carries_with c m)) as H.
  cbn zeta in H. destruct (Middleware.invokeMiddleware _ _ _ _ _ _ _) as [s [reports err]].
  assert (Forall (fun m => forall c, quiet_body (m c)) (List.map (fun middleware => middleware m id) ms)) as Hq.
  { apply Forall_fmap. eapply Forall_impl; [exact Hm|]. intros mw Hmw c. apply Hmw. }
  destruct (H Hq) as [H1 H2]. rewrite E1 in H1, H2.
  assert (passing ms -> Forall Middleware.passes (List.map (fun middleware => middleware m id) ms)) as Hp.
  { intros Hp. apply Forall_fmap. eapply Forall_impl; [exact Hp|]. intros mw Hmw. apply Hmw. }
  destruct observer as [set|]; [|rewrite Hr; split; [done|intros ?; by apply H2, Hp]].
  destruct (clock (report_all _ _ _ _)) as [b2 ended] eqn:E2. pose proof (Hc (report_all reporter ctx reports (Middleware.s_business s))) as E3.
  rewrite E2 in E3. cbn in E3. rewrite Hr in E3. rewrite Ho, E3. split; [done|intros ?; by apply H2, Hp].
Qed.

(** A nil error from a passing chain is the handler's own. *)
Definition returned_nil (m : Metadata) (h : C -> B -> B * Middleware.flow) : Prop :=
  exists c b1 b2, carries m c /\ h c b1 = (b2, Middleware.Ret None).

Lemma invokeMiddleware_nil m (h : C -> B -> B * Middleware.flow) nilr id ms ctx s s' reports :
  Middleware.invokeMiddleware h (fun c => contextWithMetadata c m) nilr id ms ctx s = (s', (reports, None)) ->
  Forall Middleware.passes ms -> carries m ctx -> returned_nil m h.
Proof.
  unfold Middleware.invokeMiddleware. intros E Hp Hc.
  assert (exists c s0, carries m c /\ (Middleware.handle h c s0).2 = Middleware.Ret None) as (c & s0 & Hcc & Hr).
  { destruct ms as [|m0 ms].
    - exists ctx, {| Middleware.s_business := Middleware.s_business s; Middleware.s_time := Middleware.s_time s; Middleware.s_handled := [] |}.
      split; [done|]. destruct (Middleware.handle h ctx _) as [s1 [e|v]]; [|by cbn in E; simplify_eq/=].
      by simplify_eq/=.
    - rewrite Middleware.invoke_passes in E by done. exists (contextWithMetadata ctx m),
        {| Middleware.s_business := Middleware.s_business s; Middleware.s_time := Middleware.s_time s; Middleware.s_handled := [] |}.
      split; [apply carries_with|]. destruct (Middleware.handle h _ _) as [s1 [e|v]]; [|by cbn in E; simplify_eq/=].
      by simplify_eq/=. }
  unfold Middleware.handle in Hr. destruct (h c _) as [b2 r] eqn:Eh. cbn in Hr. subst r. by eexists c, _, b2.
Qed.

Lemma observed_handler_nil m id (h : C -> B -> B * Middleware.flow) clock observer ms reporter ctx b :
  (observed_handler m id h clock observer ms reporter ctx b).2 = None -> passing ms -> carries m ctx -> returned_nil m h.
Proof.
  intros E Hp Hc. unfold observed_handler, run_handler in E. destruct (clock b) as [b1 started].
  destruct (Middleware.invokeMiddleware _ _ _ _ _ _ _) as [s [reports err]] eqn:Ei.
  assert (err = None) as -> by (destruct observer; [destruct (clock _)|]; done).
  eapply invokeMiddleware_nil; [exact Ei| |done]. apply Forall_fmap. eapply Forall_impl; [exact Hp|]. intros mw Hmw. apply Hmw.
Qed.

Lemma notify_nil eb md payload ctx subs errs b : (notify_subscribers eb md payload ctx subs errs b).2 = [] ->
  passing (eb_middleware eb) -> carries md ctx ->
  errs = [] /\ Forall (fun s => exists h, es_handler s payload = Ok h /\ returned_nil md h) subs.
Proof.
  intros E Hp Hc. revert errs b E. induction subs as [|s subs IH]; intros errs b E; cbn in E; [by split|].
  destruct (es_handler s payload) as [h|err] eqn:Eh.
  - destruct (observed_handler _ _ _ _ _ _ _ _ _) as [b1 e] eqn:Eo. destruct (IH _ _ E) as [He Hs].
    destruct e as [e|]; [by destruct errs|]. split; [done|]. constructor; [|done]. exists h. split; [done|].
    eapply observed_handler_nil; [by rewrite Eo|done|done].
  - destruct (IH _ _ E) as [He _]. by destruct errs.
Qed.

(** ** Deliveries *)
(** With [md] and [payload] the subscriber's handler logs [x]. *)
Definition logs_as (md : Metadata) (payload : any) (factory : handlerFactory B C) (x : L) : Prop :=
  exists handler, factory payload = Ok handler /\ forall c b, carries md c -> log (handler c b).1 = (log b ++ [x])%list.

Lemma notify_log eb md payload ctx subs xs errs b :
  Forall2 (fun s x => logs_as md payload (es_handler s) x) subs xs ->
  quiet (eb_clock eb) -> quiet_observer (eb_observer eb) -> quiet_reporter (eb_panicReporter eb) -> quiet_middlewares (eb_middleware eb) ->
  carries md ctx ->
  let b' := (notify_subscribers eb md payload ctx subs errs b).1 in
  (exists ys, ys `sublist_of` xs /\ log b' = (log b ++ ys)%list) /\ (passing (eb_middleware eb) -> log b' = (log b ++ xs)%list).
Proof.
  intros Hs Hc Ho Hr Hm Hctx. revert errs b. induction Hs as [|s x subs xs (handler & Hh & Hlog) _ IH]; intros errs b; cbn.
  - split; [exists []; split; [constructor|by rewrite app_nil_r]|]. intros _. by rewrite app_nil_r.
  - rewrite Hh. pose proof (observed_handler_log md (es_id s) handler x (eb_clock eb) (eb_observer eb) (eb_middleware eb) (eb_panicReporter eb) ctx b
      Hlog Hc Ho Hr Hm Hctx) as H.
    destruct (observed_handler _ _ _ _ _ _ _ _ _) as [b1 err]. destruct H as [H1 H2].
    destruct (IH (match err with Some err => (errs ++ [err])%list | None => errs end) b1) as [(ys & Hys & Hlog1) Hall].
    split.
    + destruct H1 as [H1|H1]; rewrite H1 in Hlog1; [exists ys; split; [by constructor|done]|].
      exists (x :: ys). split; [by constructor|]. by rewrite Hlog1, <- app_assoc.
    + intros Hp. by rewrite (Hall Hp), (H2 Hp), <- app_assoc.
Qed.

(** A delivery whose handlers log [xs]. *)
Definition delivery_logs (d : delivery B C) (xs : list L) (all : Prop) : Prop :=
  exists invoke, dl_invoke d = Some invoke /\
  (forall c b, carries (dl_metadata d) c ->
     (exists ys, ys `sublist_of` xs /\ log (invoke c b).1 = (log b ++ ys)%list) /\ (all -> log (invoke c b).1 = (log b ++ xs)%list)) /\
  (forall ctx err b, log (reportExpiry d ctx err b) = log b).

Context (timeNow : B -> B * Time) (timeNow_quiet : quiet timeNow).

Lemma expiry_quiet observer md route : quiet_observer observer -> 
  forall d, dl_onExpire d = expiryObserver timeNow observer md route -> forall ctx err b, log (reportExpiry d ctx err b) = log b.
Proof.
  intros Ho d E ctx err b. unfold reportExpiry. rewrite E. unfold expiryObserver. destruct observer; [|done].
  pose proof (timeNow_quiet b) as Ht. destruct (timeNow b) as [b1 now]. by rewrite Ho.
Qed.

Record quiet_command (cb : commandBinding B C) : Prop := {
  qc_clock : quiet (cb_clock cb); qc_observer : quiet_observer (cb_observer cb);
  qc_reporter : quiet_reporter (cb_panicReporter cb); qc_middleware : quiet_middlewares (cb_middleware cb) }.
Record quiet_event (eb : eventBinding B C) : Prop := {
  qe_clock : quiet (eb_clock eb); qe_observer : quiet_observer (eb_observer eb);
  qe_reporter : quiet_reporter (eb_panicReporter eb); qe_middleware : quiet_middlewares (eb_middleware eb) }.

Lemma command_delivery_logs cb route md payload factory x : quiet_command cb -> cb_handler cb = Some factory -> logs_as md payload factory x ->
  delivery_logs (command_delivery timeNow cb route md payload) [x] (passing (cb_middleware cb)).
Proof.
  intros [Hc Ho Hr Hm] Hf (handler & Hh & Hlog). eexists. split; [done|]. split; [|by eapply expiry_quiet].
  intros c b Hctx. cbn in Hctx. cbn [dl_metadata command_delivery]. rewrite Hf, Hh.
  pose proof (observed_handler_log md (cb_handlerID cb) handler x (cb_clock cb) (cb_observer cb) (cb_middleware cb) (cb_panicReporter cb) c b
    Hlog Hc Ho Hr Hm Hctx) as H. destruct (observed_handler _ _ _ _ _ _ _ _ _) as [b1 err]. destruct H as [[H|H] H2]; cbn.
  - split; [exists []; split; [apply sublist_nil_l|by rewrite app_nil_r]|done].
  - split; [by exists [x]|done].
Qed.

Lemma event_delivery_logs eb route md payload xs : quiet_event eb ->
  Forall2 (fun s x => logs_as md payload (es_handler s) x) (eb_subscribers eb) xs ->
  delivery_logs (event_delivery timeNow eb route md payload) xs (passing (eb_middleware eb)).
Proof.
  intros [Hc Ho Hr Hm] Hs. eexists. split; [done|]. split; [|by eapply expiry_quiet].
  intros c b Hctx. cbn in Hctx. pose proof (notify_log eb md payload c (eb_subscribers eb) xs [] b Hs Hc Ho Hr Hm Hctx) as H.
  cbn zeta in H. by destruct (notify_subscribers _ _ _ _ _ _ _) as [b1 errs].
Qed.

(** ** The synchronous route *)
Context `{GB : !GoBus B C}.

(** What a successful local call has done. *)
Definition completed (d : delivery B C) (ctx : C) : Prop :=
  exists invoke b1 b2, dl_invoke d = Some invoke /\ invoke (contextWithMetadata ctx (dl_metadata d)) b1 = (b2, None).

Lemma LocalSync_log d ctx b xs all : delivery_logs d xs all ->
  let '(b', (r, err)) := LocalSync_Deliver timeNow (Some ctx) (Some d) b in
  (exists ys, ys `sublist_of` xs /\ log b' = (log b ++ ys)%list) /\
  (err = None -> rc_MessageID r = md_ID (dl_metadata d) /\ rc_Route r = local_sync /\
     ((rc_State r = ReceiptNoop /\ md_Kind (dl_metadata d) = KindEvent /\ dl_handlers d = 0 /\ log b' = log b) \/
      (rc_State r = ReceiptCompleted /\ completed d ctx /\ (all -> log b' = (log b ++ xs)%list)))).
Proof.
  intros (invoke & Hi & Hlog & Hexp). unfold LocalSync_Deliver.
  assert (forall b1, log b1 = log b -> exists ys, ys `sublist_of` xs /\ log b1 = (log b ++ ys)%list) as Hnone.
  { intros b1 E. exists []. split; [apply sublist_nil_l|]. by rewrite app_nil_r. }
  pose proof (timeNow_quiet b) as E1. destruct (timeNow b) as [b1 now]. cbn in E1.
  destruct (validateImmediateTiming _ now); [split; [by apply Hnone|done]|].
  destruct (_ && _) eqn:En.
  { pose proof (timeNow_quiet b1) as E2. destruct (timeNow b1) as [b2 now2]. cbn in E2. split; [apply Hnone; congruence|]. intros _. cbn.
    apply andb_prop in En as [Ek Eh]. apply String.eqb_eq in Ek. apply Z.eqb_eq in Eh. split_and!; [done|done|]. left. split_and!; congruence. }
  assert (let '(b2, err) := localCallExecutor timeNow d ctx b1 in
    (exists ys, ys `sublist_of` xs /\ log b2 = (log b ++ ys)%list) /\ (err = None -> completed d ctx /\ (all -> log b2 = (log b ++ xs)%list))) as Hexec.
  { unfold localCallExecutor. set (bt := if IsZero _ then _ else _).
    assert (log bt.1 = log b) as Et by (subst bt; destruct (IsZero _); [done|]; by rewrite timeNow_quiet).
    destruct bt as [b2 now2]. cbn in Et. destruct (expired _ _); [split; [apply Hnone; by rewrite Hexp|done]|].
    unfold Delivery_Invoke. rewrite Hi. pose proof (Hlog (contextWithMetadata ctx (dl_metadata d)) b2 (carries_with _ _)) as [H1 H2].
    destruct (invoke _ b2) as [b3 err] eqn:Eb. cbn in H1, H2. rewrite Et in H1, H2. split; [done|]. intros ->. split; [|done].
    by exists invoke, b2, b3. }
  destruct (dispatch_once (localCallExecutor timeNow d) ctx b1) as [->|[err ->]]; [|split; [by apply Hnone|done]].
  destruct (localCallExecutor timeNow d ctx b1) as [b2 err]. destruct Hexec as [H1 H2].
  destruct err as [err|]; [split; [done|done]|]. pose proof (timeNow_quiet b2) as E3. destruct (timeNow b2) as [b3 now3]. cbn in E3.
  destruct (H2 eq_refl) as [H3 H4]. split; [by rewrite E3|]. intros _. cbn. split_and!; [done|done|]. right. split_and!; [done|done|]. intros Ha. by rewrite E3, H4.
Qed.

(** ** Through the messenger *)
Record quiet_messenger (m : Messenger B C) : Prop := {
  qm_clock : quiet (ms_clock m); qm_id : quiet (ms_idGenerator m); qm_observer : quiet_observer (ms_observer m) }.

Lemma newMetadata_quiet m ctx info out b : quiet_messenger m -> log (newMetadata m ctx info out b).1 = log b.
Proof.
  intros [Hc Hi _]. unfold newMetadata.
  set (bt := if IsZero (om_Time out) then _ else _). assert (log bt.1 = log b) as E1 by (subst bt; destruct (IsZero _); [apply Hc|done]).
  destruct bt as [b1 now]. cbn in E1.
  set (bi := if MessageID_IsZero (om_ID out) then _ else _). assert (log bi.1 = log b1) as E2 by (subst bi; destruct (MessageID_IsZero _); [apply Hi|done]).
  destruct bi as [b2 [id|err]]; cbn in E2 |- *; [|congruence]. destruct (lineage _ _ _ _). destruct (validateMetadata _); cbn; congruence.
Qed.

Lemma normalize_quiet r md route clock b : quiet clock -> log (normalizeReceipt r md route clock b).1 = log b.
Proof.
  intros Hc. unfold normalizeReceipt. destruct (negb _); [done|]. destruct (_ || _); [done|].
  pose proof (Hc b) as H. by destruct (clock b).
Qed.
Lemma normalize_ok r md route (clock : B -> B * Time) b : rc_MessageID r = md_ID md -> rc_Route r = route -> route <> "" -> rc_State r <> "" ->
  exists t, (normalizeReceipt r md route clock b).2 =
    ({| rc_MessageID := rc_MessageID r; rc_Route := rc_Route r; rc_State := rc_State r; rc_At := t |}, None).
Proof.
  intros Ei Er Hr Hs. unfold normalizeReceipt. rewrite Ei.
  set (r1 := if MessageID_IsZero _ then _ else r). assert (rc_MessageID r1 = md_ID md /\ rc_Route r1 = route /\ rc_State r1 = rc_State r) as (E1 & E2 & E3)
    by (subst r1; destruct (MessageID_IsZero _); done).
  rewrite E1, String.eqb_refl. cbn [negb]. rewrite E2, (proj2 (String.eqb_neq route "") Hr). rewrite E2, String.eqb_refl, E3.
  rewrite (proj2 (String.eqb_neq _ "") Hs). cbn. destruct (clock b) as [b1 t]. exists (UTC t). cbn. by rewrite E1, Er.
Qed.

Definition local_outcome (d : delivery B C) (ctx : C) (xs : list L) (all : Prop) (b b' : B) (r : Receipt) (err : option error) : Prop :=
  (exists ys, ys `sublist_of` xs /\ log b' = (log b ++ ys)%list) /\
  (err = None -> rc_MessageID r = md_ID (dl_metadata d) /\ rc_Route r = local_sync /\
     ((rc_State r = ReceiptNoop /\ md_Kind (dl_metadata d) = KindEvent /\ dl_handlers d = 0 /\ log b' = log b) \/
      (rc_State r = ReceiptCompleted /\ completed d ctx /\ (all -> log b' = (log b ++ xs)%list)))).

Lemma local_outcome_log d ctx xs all b b1 b2 r err : log b2 = log b1 -> local_outcome d ctx xs all b b1 r err -> local_outcome d ctx xs all b b2 r err.
Proof. unfold local_outcome. by intros ->. Qed.

Lemma deliver_local m ctx d b xs all : quiet_messenger m -> delivery_logs d xs all ->
  let '(b', (r, err)) := deliver m ctx (NewLocalSyncRoute timeNow) d b in local_outcome d ctx xs all b b' r err.
Proof.
  intros [Hc Hi Ho] Hd. unfold deliver. pose proof (Hc b) as E1. destruct (ms_clock m b) as [b1 started]. cbn [fst] in E1.
  cbn [rt_Deliver rt_Name NewLocalSyncRoute]. pose proof (LocalSync_log d ctx b1 xs all Hd) as H.
  destruct (LocalSync_Deliver timeNow (Some ctx) (Some d) b1) as [b2 [r err]]. destruct H as [H1 H2]. rewrite E1 in H1, H2.
  assert (forall bx rx ex, local_outcome d ctx xs all b bx rx ex ->
    let '(b', (r, err)) := match ms_observer m with
      | None => (bx, (rx, ex))
      | Some _ => let '(by_, ended) := ms_clock m bx in
          (observe ctx (ms_observer m) (deliver_observation (dl_metadata d) local_sync (rc_State rx) (UTC started) (Delivery.Sub (UTC ended) (UTC started)) ex) by_, (rx, ex))
      end in local_outcome d ctx xs all b b' r err) as Hend.
  { intros bx rx ex Hx. destruct (ms_observer m) as [set|] eqn:Eo; [|done]. rewrite <- Eo in Ho |- *. pose proof (Hc bx) as E2. destruct (ms_clock m bx) as [bx2 ended]. cbn [fst] in E2.
    eapply local_outcome_log; [|exact Hx]. by rewrite Ho. }
  destruct err as [err|].
  - apply Hend. by split.
  - destruct (H2 eq_refl) as (Hid & Hroute & Hst).
    assert (rc_State r <> "") as Hs by (destruct Hst as [[-> _]|[-> _]]; done).
    destruct (normalize_ok r (dl_metadata d) local_sync (ms_clock m) b2 Hid Hroute ltac:(done) Hs) as [t E].
    pose proof (normalize_quiet r (dl_metadata d) local_sync (ms_clock m) b2 Hc) as En.
    destruct (normalizeReceipt _ _ _ _ b2) as [b3 p]. cbn in E, En. subst p. apply Hend. unfold local_outcome. rewrite En. cbn. split; [done|]. intros _. by split_and!.
Qed.

(** ** Queries *)
(** The captured result is the handler's, and there is one only after it returned. *)
Section Queries.
Context (md : Metadata) (h : C -> B -> B * (localQueryResult * (option error + string))) (x : L).
Context (h_log : forall c b, carries md c -> log (h c b).1 = (log b ++ [x])%list).

Definition not_called (l : list L) (br : B * localQueryResult) : Prop := log br.1 = l /\ br.2 = localQueryResult0.
Definition called_once (l : list L) (br : B * localQueryResult) : Prop :=
  log br.1 = (l ++ [x])%list /\
  (br.2 = localQueryResult0 \/ exists c b1 b2 e, carries md c /\ h c b1 = (b2, (br.2, inl e))).

Lemma capture_step l c br : carries md c -> not_called l br -> called_once l (capture h c br).1.
Proof.
  intros Hc [Hl Hr]. unfold capture, called_once. pose proof (h_log c br.1 Hc) as E.
  destruct (h c br.1) as [b [res [e|v]]] eqn:Eh; cbn in E |- *; (split; [congruence|]).
  - right. by exists c, br.1, b, e.
  - by left.
Qed.
Lemma lift_keeps l m : quiet_body m -> keeps_body (not_called l) (called_once l) (lift_body m).
Proof.
  induction m as [e|v|f k IH|c k IH]; cbn; try done; [|naive_solver]. intros [Hf Hk]. split; [|naive_solver].
  intros [b res]. unfold not_called, called_once. cbn. by rewrite Hf.
Qed.

Lemma query_call_once qb factory route payload : factory payload = Ok h ->
  quiet (qb_clock qb) -> quiet_observer (qb_observer qb) -> quiet_reporter (qb_panicReporter qb) -> quiet_middlewares (qb_middleware qb) ->
  exists invoke, lq_invoke (query_call qb factory route md payload) = Some invoke /\ forall c b, carries md c ->
  let '(b', (res, err)) := invoke c b in
  (log b' = log b \/ log b' = (log b ++ [x])%list) /\
  (err = None -> log b' = (log b ++ [x])%list /\ qr_present res = true /\ exists c b1 b2 e, carries md c /\ h c b1 = (b2, (res, inl e))).
Proof.
  intros Hf Hc Ho Hr Hm. eexists. split; [done|]. intros c b Hctx. rewrite Hf. pose proof (Hc b) as E1. destruct (qb_clock qb b) as [b1 started]. cbn in E1.
  set (mws := List.map _ _). set (s0 := {| Middleware.s_business := _; Middleware.s_time := _; Middleware.s_handled := _ |}).
  pose proof (invokeMiddleware_once (capture h) (carries md) (not_called (log b)) (called_once (log b)) (capture_step (log b)) (fun c => contextWithMetadata c md)
    (Middleware.is_nil (qb_panicReporter qb)) (qb_handlerID qb) mws c s0 Hctx (fun c => carries_with c md)) as H.
  assert (Forall (fun m => forall c, keeps_body (not_called (log b)) (called_once (log b)) (m c)) mws) as Hk.
  { apply Forall_fmap. eapply Forall_impl; [exact Hm|]. intros mw Hmw c'. by apply lift_keeps. }
  specialize (H Hk (conj E1 eq_refl)). destruct (Middleware.invokeMiddleware _ _ _ _ _ _ _) as [s [reports err]]. cbn in H.
  destruct (Middleware.s_business s) as [b2 res]. set (b3 := report_all _ _ _ _).
  assert (log b3 = log b2) as E3 by apply Hr. unfold not_called, called_once in H. cbn in H.
  assert (forall b' (err' : option error), log b' = log b2 ->
    (err' = None -> qr_present res = true) ->
    (log b' = log b \/ log b' = (log b ++ [x])%list) /\
    (err' = None -> log b' = (log b ++ [x])%list /\ qr_present res = true /\ exists c b1 b2 e, carries md c /\ h c b1 = (b2, (res, inl e)))) as Hend.
  { intros b' err' -> Hp. split; [naive_solver|]. intros He. specialize (Hp He).
    destruct H as [[_ ->]|[Hl [->|H]]]; [done|done|by split_and!]. }
  set (err' := match err with None => _ | Some _ => _ end).
  assert (err' = None -> qr_present res = true) as Hp by (subst err'; destruct err; [done|]; by destruct (qr_present res)).
  cbv zeta. destruct (qb_observer qb) as [set|] eqn:Eo; [|by apply Hend]. rewrite <- Eo in Ho |- *.
  pose proof (Hc b3) as E4. destruct (qb_clock qb b3) as [b4 ended]. cbn in E4. apply Hend; [|done]. rewrite Ho. congruence.
Qed.
End Queries.
End Dispatch.
End MessengerProofs.
