(* ===== verification/MessengerTheorems.v ===== *)
(** * The messenger's contract

    Commands, events and queries through the synchronous route of a built
    messenger, the lineage of messages and atomic batches.  [MessengerWitness] is a
    small messenger: a command, an event with two subscriptions and a query, all on
    the synchronous route, and an event on a batch route; with concrete types,
    contexts and bus. *)
From S2P Require Import Prelude GoStrings GoText Errors Ident Envelope Middleware Delivery Route Builder Manifest BuilderProofs BuilderTheorems Messenger MessengerProofs.
Import Stdlib.Strings.String.
Import Envelope Route Builder Manifest Build BuilderProofs BuilderTheorems Messenger MessengerProofs.
Open Scope string_scope.
Open Scope Z_scope.

Module MessengerTheorems.

(** ** Lineage *)
Section Lineage.
Context {B C : Type} `{GT : !GoTypes, GC : !GoContext C, GJ : !EnvelopeJSON}.
Implicit Types (m : Messenger B C) (ctx : C) (md : Metadata).

(** [md] was created from [out] while [p] was handled, or outside a handler. *)
Definition sent_from (p : option Metadata) (out : OutgoingMetadata) md : Prop :=
  exists m ctx info b b', MetadataFromContext ctx = p /\ newMetadata m ctx info out b = (b', Ok md).

(** The conversation a message belongs to: a message received with complete
    metadata names it; a caller may name it; without either, a message sent while
    another one is handled joins its conversation, and any other one starts its
    own. *)
Inductive conversation : MessageID -> Metadata -> Prop :=
| conv_received md : validateMetadata md = None -> conversation (md_CorrelationID md) md
| conv_named p out md : sent_from p out md -> MessageID_IsZero (om_CorrelationID out) = false -> conversation (om_CorrelationID out) md
| conv_starts out md : sent_from None out md -> MessageID_IsZero (om_CorrelationID out) = true -> conversation (md_ID md) md
| conv_joins c p out md : conversation c p -> sent_from (Some p) out md -> MessageID_IsZero (om_CorrelationID out) = true -> conversation c md.

Lemma newMetadata_ok m ctx info out b b' md : newMetadata m ctx info out b = (b', Ok md) ->
  validateMetadata md = None /\
  (md_CorrelationID md, md_CausationID md) = lineage (MetadataFromContext ctx) (md_ID md) (om_CorrelationID out) (om_CausationID out) /\
  md_Kind md = di_Kind info /\ md_Name md = di_Name info /\ md_SchemaVersion md = di_SchemaVersion info /\ md_Source md = ms_source m /\
  md_ContentType md = di_ContentType info /\ (MessageID_IsZero (om_ID out) = false -> md_ID md = om_ID out).
Proof.
  unfold newMetadata. destruct (if IsZero (om_Time out) then _ else _) as [b1 now].
  destruct (MessageID_IsZero (om_ID out)) eqn:Ei; [destruct (ms_idGenerator m b1) as [b2 [id|err]]; [|done]|];
    (destruct (lineage _ _ _ _) as [co ca] eqn:El); (destruct (validateMetadata _) eqn:Ev; [done|]); intros [= <- <-]; cbn; by split_and!.
Qed.

Lemma valid_ids md : validateMetadata md = None -> MessageID_IsZero (md_ID md) = false /\ MessageID_IsZero (md_CorrelationID md) = false.
Proof. unfold validateMetadata. destruct (MessageID_IsZero (md_ID md)), (MessageID_IsZero (md_CorrelationID md)); done. Qed.

(** C29. Lineage.  A message has the correlation id of its conversation: the one its
    caller named; otherwise, at any depth, the one of the message whose handler sent
    it; otherwise its own id.  Its metadata is complete, it keeps an id that the
    caller gave, and its cause is the one the caller named, otherwise the message
    being handled, otherwise none. *)
Theorem message_lineage c md : conversation c md ->
  validateMetadata md = None /\ md_CorrelationID md = c /\
  forall p out, sent_from p out md ->
    (MessageID_IsZero (om_ID out) = false -> md_ID md = om_ID out) /\
    md_CausationID md = (if MessageID_IsZero (om_CausationID out) then match p with Some p => md_ID p | None => om_CausationID out end
                         else om_CausationID out).
Proof.
  assert (forall p out, sent_from p out md -> validateMetadata md = None /\ (MessageID_IsZero (om_ID out) = false -> md_ID md = om_ID out) /\
    md_CausationID md = (if MessageID_IsZero (om_CausationID out) then match p with Some p => md_ID p | None => om_CausationID out end
                         else om_CausationID out)) as Hsent.
  { intros p out (m & ctx & info & b & b' & Hp & E). apply newMetadata_ok in E as (Hv & Hl & _ & _ & _ & _ & _ & Hid). rewrite Hp in Hl.
    split_and!; [done..|]. destruct p; cbn in Hl; injection Hl as _ ->; by destruct (MessageID_IsZero (om_CausationID out)). }
  intros Hc. assert (validateMetadata md = None /\ md_CorrelationID md = c) as [Hv Hcor].
  2:{ split_and!; [done..|]. intros p out Hs. by apply (Hsent p out). }
  clear Hsent. induction Hc as [md Hv|p out md (m & ctx & info & b & b' & Hp & E) Hz|out md (m & ctx & info & b & b' & Hp & E) Hz
    |c p out md Hc (IHv & IHc) (m & ctx & info & b & b' & Hp & E) Hz]; [done|..];
    apply newMetadata_ok in E as (Hv & Hl & _); (split; [done|]); rewrite Hp in Hl.
  - destruct p; cbn in Hl; rewrite ?Hz in Hl; by injection Hl as ->.
  - cbn in Hl. rewrite Hz in Hl. by injection Hl as ->.
  - cbn in Hl. destruct (valid_ids p IHv) as [_ Hpc]. rewrite Hz, Hpc, Hpc in Hl. by injection Hl as ->.
Qed.
End Lineage.

(** ** Local dispatch *)
Section Local.
Context {B C L : Type} `{GT : !GoTypes, GC : !GoContext C, GJ : !EnvelopeJSON, GB : !GoBus B C, GR : !MapRange}.
Context (log : B -> list L) (timeNow : B -> B * Time) (timeNow_quiet : quiet log timeNow).
#[local] Abbreviation D := (declaration B C).
Implicit Types (xs : list D).

(** The configured host code leaves the log alone. *)
Record quiet_config (c : config B C) : Prop := {
  qf_clock : quiet log (bc_clock c);
  qf_id : quiet log (bc_idGenerator c);
  qf_logger ctx level message attrs b : log (bc_logger c ctx level message attrs b).1 = log b;
  qf_observers : Forall (fun o : Observer B C => forall ctx x b, log (o ctx x b).1 = log b) (bc_observers c);
  qf_reporter report ctx r b : bc_panicReporter c = Some report -> log (report ctx r b) = log b }.

Definition configured (defaults : config B C) (os : list (option_value B C)) : config B C :=
  b_config (NewBuilder defaults (List.map option_of os)).

Lemma quiet_observers c : quiet_config c -> quiet_observer log (newObserverSet (Some (bc_logger c)) (bc_observers c)).
Proof.
  intros [_ _ Hl Ho _] ctx x b. unfold observe, newObserverSet. destruct (bc_observers c) as [|o0 os0] eqn:E; [done|]. cbn [os_observers os_logger].
  clear E. revert b. induction Ho as [|o os Ho1 _ IH]; intros b; [done|]. cbn. rewrite IH. unfold callObserver, safeLog.
  pose proof (Ho1 ctx x b) as H. destruct (o ctx x b) as [b' [v|]]; cbn in H; [by rewrite Hl|done].
Qed.
Lemma quiet_panics c : quiet_config c -> quiet_reporter log (bc_panicReporter c).
Proof.
  intros [_ _ _ _ Hr] ctx l b. unfold report_all. destruct (bc_panicReporter c) as [report|]; [|done].
  revert b. induction l as [|r l IH]; intros b; [done|]. cbn. rewrite IH. by apply Hr.
Qed.

(** ** What a declaration became *)
Section Bound.
Context (defaults : config B C) (os : list (option_value B C)) (xs : list D) (m : Messenger B C) (rn : runtimeConfig).
Context (HB : (Build (built_from defaults os xs)).2 = Some (Ok (m, rn))).
Context (Hcfg : quiet_config (configured defaults os)) (Hmw : quiet_middlewares log (flat_map middleware_entries xs)).
#[local] Abbreviation cfg := (configured defaults os).
#[local] Abbreviation obs := (newObserverSet (Some (bc_logger cfg)) (bc_observers cfg)).
#[local] Abbreviation mws := (flat_map middleware_entries xs).

Lemma bound : consistent xs /\ quiet_messenger log m /\
  (forall k, ms_commands m !! k = (fun r => makeCommandBinding r obs (bc_clock cfg) mws (bc_panicReporter cfg)) <$> cmd_reg xs k) /\
  (forall k, ms_events m !! k = (fun r => makeEventBinding r obs (bc_clock cfg) mws (bc_panicReporter cfg)) <$> evt_reg xs k) /\
  (forall k, ms_queries m !! k = (fun r => makeQueryBinding r obs (bc_clock cfg) mws (bc_panicReporter cfg)) <$> qry_reg xs k).
Proof.
  unfold built_from in HB.
  destruct (Build_ok defaults os xs) as [(Ha & _ & _ & m' & rn' & E & Hc & He & Hq & _ & _ & Hi & Hk & _ & Ho & _)|(_ & err & E)];
    rewrite E in HB; [|done]. injection HB as <- <-. destruct Ha as (_ & _ & Hcons & _).
  rewrite final_checks_config, declare_all_config in Hc, He, Hq, Hi, Hk, Ho. split_and!; try done.
  split; [rewrite Hk; apply Hcfg|rewrite Hi; apply Hcfg|rewrite Ho; by apply quiet_observers].
Qed.

(** One declaration fills a place. *)
Lemma first_declared {A} (f : D -> option A) x a s : x ∈ xs -> f x = Some a ->
  (forall y, valid y -> (is_Some (f y) <-> slot_of y = Some s)) -> first f xs = Some a.
Proof.
  destruct bound as [[Hv Hp] _]. intros Hin Hr Hs. rewrite Forall_forall in Hv.
  destruct (first f xs) as [a'|] eqn:E; [|rewrite first_none in E; rewrite (E _ Hin) in Hr; done].
  destruct (first_agree _ _ _ _ _ _ Hp E Hin Hr) as [->|(y & Hy & Hfy & Hc)]; [done|].
  destruct (cp_slot _ _ Hc s); apply Hs; eauto.
Qed.
(** Declarations of one key have one descriptor. *)
Lemma declared_together x y : x ∈ xs -> y ∈ xs -> x = y \/ compatible x y.
Proof.
  destruct bound as [[_ Hp] _]. rewrite !list_elem_of_In. intros Hx Hy.
  destruct (ForallOrdPairs_In Hp x y Hx Hy) as [?|[?|?]]; auto using compatible_sym.
Qed.

(** The handler records every message it is called with. *)
Definition records (h : Handler B C) (rec : Message any -> L) : Prop := forall msg c b, log (h msg c b).1 = (log b ++ [rec msg])%list.

Lemma factory_logs T label h rec md payload : has_type T payload = true -> records h rec ->
  logs_as log md payload (factory T label h) (rec {| m_Metadata := md; m_Payload := payload |}).
Proof.
  intros Ht Hh. eexists. split; [by apply factory_ok|]. intros c b Hc. cbn. rewrite (message_of_carries md) by done. apply Hh.
Qed.
Lemma factory_returned T label (h : Handler B C) md payload f : has_type T payload = true -> factory T label h payload = Ok f -> returned_nil md f ->
  exists c b1 b2, h {| m_Metadata := md; m_Payload := payload |} c b1 = (b2, Middleware.Ret None).
Proof.
  intros Ht Hf (c & b1 & b2 & Hc & E). rewrite factory_ok in Hf by done. injection Hf as <-.
  rewrite (message_of_carries md) in E by done. by exists c, b1, b2.
Qed.
Lemma sameDescriptor_same d e : same_typed d e -> sameDescriptor (eraseDescriptor (t_descriptor d) (t_type d)) (d_info (t_descriptor e)) (t_type e) = true.
Proof. intros [E1 E2]. unfold sameDescriptor. cbn. by rewrite !bool_decide_eq_true_2. Qed.

Lemma command_bound d id h route : DCommand d id (Some h) ∈ xs -> DRouteCommand d (Some route) ∈ xs ->
  exists cb, ms_commands m !! tkey d = Some cb /\ sameDescriptor (cb_descriptor cb) (d_info (t_descriptor d)) (t_type d) = true /\
    cb_handler cb = Some (factory (t_type d) "command payload type" h) /\ cb_route cb = Some route /\ quiet_command log cb /\ cb_middleware cb = mws.
Proof.
  intros Hd Hr. destruct bound as (_ & _ & Hc & _).
  assert (cmd_handler (tkey d) (DCommand d id (Some h)) = Some (id, factory (t_type d) "command payload type" h)) as E1 by (cbn; apply at_key_eq).
  apply (first_declared _ _ _ (SCommandHandler (tkey d)) Hd) in E1; [|intros; by apply cmd_handler_slot].
  assert (cmd_route (tkey d) (DRouteCommand d (Some route)) = Some route) as E2 by (cbn; apply at_key_eq).
  apply (first_declared _ _ _ (SCommandRoute (tkey d)) Hr) in E2; [|intros; by apply cmd_route_slot].
  rewrite Hc. unfold cmd_reg. destruct (first (cmd_desc (tkey d)) xs) as [d0|] eqn:Ed.
  - eexists. split; [done|]. cbn. rewrite E1, E2. split_and!; try done; [|by split; [apply Hcfg|by apply quiet_observers|by apply quiet_panics|]].
    apply first_in in Ed as (x & Hx & Ed). apply (keyed_Some cmd_of tkey) in Ed as [Ed Ek]. apply sameDescriptor_same.
    destruct (declared_together x _ Hx Hd) as [->|Hcp]; [by injection Ed as ->|]. by eapply (cp_cmd _ _ Hcp).
  - rewrite first_none in Ed. specialize (Ed _ Hd). unfold cmd_desc in Ed. cbn in Ed. by rewrite at_key_eq in Ed.
Qed.

(** The subscriptions of an event, in the order of declaration. *)
Definition subscriptions (d : Typed) : list (eventSubscriber B C) := omap (evt_sub (tkey d)) xs.
Lemma event_bound d route : DRouteEvent d (Some route) ∈ xs ->
  exists eb, ms_events m !! tkey d = Some eb /\ sameDescriptor (eb_descriptor eb) (d_info (t_descriptor d)) (t_type d) = true /\
    eb_subscribers eb = subscriptions d /\ eb_route eb = Some route /\ quiet_event log eb /\ eb_middleware eb = mws.
Proof.
  intros Hr. destruct bound as (_ & _ & _ & He & _).
  assert (evt_route (tkey d) (DRouteEvent d (Some route)) = Some route) as E2 by (cbn; apply at_key_eq).
  apply (first_declared _ _ _ (SEventRoute (tkey d)) Hr) in E2; [|intros; by apply evt_route_slot].
  rewrite He. unfold evt_reg. destruct (first (evt_desc (tkey d)) xs) as [d0|] eqn:Ed.
  - eexists. split; [done|]. cbn. rewrite E2. split_and!; try done; [|by split; [apply Hcfg|by apply quiet_observers|by apply quiet_panics|]].
    apply first_in in Ed as (x & Hx & Ed). apply (keyed_Some evt_of tkey) in Ed as [Ed Ek]. apply sameDescriptor_same.
    destruct (declared_together x _ Hx Hr) as [->|Hcp]; [by injection Ed as ->|]. by eapply (cp_evt _ _ Hcp).
  - rewrite first_none in Ed. specialize (Ed _ Hr). unfold evt_desc in Ed. cbn in Ed. by rewrite at_key_eq in Ed.
Qed.

(** A subscriber comes from a declaration with the event's type. *)
Lemma subscription_declared d route s : DRouteEvent d (Some route) ∈ xs -> s ∈ subscriptions d ->
  exists d' h, DSubscribe d' (es_id s) (Some h) ∈ xs /\ es_handler s = factory (t_type d) "event payload type" h.
Proof.
  intros Hr Hs. apply list_elem_of_omap in Hs as (x & Hx & Hs). destruct x as [| | |d' i [h|]| | | |]; try done.
  cbn in Hs. apply at_key_Some in Hs as [Ek <-]. exists d', h. split; [done|]. cbn.
  destruct (declared_together _ _ Hx Hr) as [?|Hcp]; [done|]. by destruct (cp_evt _ _ Hcp d' d eq_refl eq_refl Ek) as [_ ->].
Qed.

Lemma sublist_singleton (ys : list L) y : ys `sublist_of` [y] -> ys = [] \/ ys = [y].
Proof. rewrite sublist_cons_r. intros [->%sublist_nil_r|(ys' & -> & ->%sublist_nil_r)]; auto. Qed.

(** A command declared with a handler and the synchronous local route, sent
    through the built messenger: either no metadata can be made, and nothing runs;
    or the handler runs at most once, with exactly the payload and the new
    metadata, and nothing else is logged.  Success means a completed receipt with
    the message's id, and when the middlewares pass calls on, that the handler ran
    exactly once and returned nil. *)
Theorem local_send d id h rec ctx out b :
  DCommand d id (Some h) ∈ xs -> DRouteCommand d (Some (NewLocalSyncRoute timeNow)) ∈ xs ->
  has_type (t_type d) (og_Payload out) = true -> records h rec ->
  let '(b', (r, err)) := SendMessage timeNow m (Some ctx) d out b in
  match (newMetadata m ctx (d_info (t_descriptor d)) (og_Metadata out) b).2 with
  | Err e => err = Some e /\ log b' = log b
  | Ok md =>
      let msg := {| m_Metadata := md; m_Payload := og_Payload out |} in
      (log b' = log b \/ log b' = (log b ++ [rec msg])%list) /\
      (err = None -> rc_MessageID r = md_ID md /\ rc_Route r = local_sync /\ rc_State r = ReceiptCompleted /\
        (passing mws -> log b' = (log b ++ [rec msg])%list /\ exists c b1 b2, h msg c b1 = (b2, Middleware.Ret None)))
  end.
Proof.
  intros Hd Hr Ht Hh. destruct bound as (_ & Hm & _ & _).
  destruct (command_bound d id h _ Hd Hr) as (cb & Hcb & Hsame & Hf & Hrt & Hq & Hmws).
  unfold SendMessage. fold (tkey d). rewrite Hcb, Hsame, Hrt. cbn [negb].
  pose proof (newMetadata_quiet log m ctx (d_info (t_descriptor d)) (og_Metadata out) b Hm) as Hlog.
  destruct (newMetadata m ctx _ _ b) as [b1 [md|e]]; cbn in Hlog |- *; [|done].
  pose proof (command_delivery_logs log timeNow timeNow_quiet cb (NewLocalSyncRoute timeNow) md (og_Payload out) _ _ Hq Hf
    (factory_logs _ "command payload type" h rec md _ Ht Hh)) as Hdl.
  pose proof (deliver_local log timeNow timeNow_quiet m ctx _ b1 _ _ Hm Hdl) as H.
  destruct (deliver _ _ _ _ _) as [b' [r err]]. destruct H as [(ys & Hys & H1) H2]. rewrite Hlog in H1, H2. split.
  - apply sublist_singleton in Hys as [->| ->]; [left; by rewrite H1, app_nil_r|by right].
  - intros He. destruct (H2 He) as (Hid & Hroute & [(_ & _ & Hh0 & _)|(Hst & Hcomp & Hall)]); [cbn in Hh0; by rewrite Hf in Hh0|].
    split_and!; [done|done|done|]. intros Hp. rewrite <- Hmws in Hp. split; [by apply Hall|].
    destruct Hcomp as (invoke & b2 & b3 & Hi & Ei). cbn in Hi. injection Hi as <-. rewrite Hf, (factory_ok (t_type d)) in Ei by done.
    eapply factory_returned; [exact Ht|by apply (factory_ok (t_type d) "command payload type")|].
    eapply observed_handler_nil; [by rewrite Ei|done|apply carries_with].
Qed.

(** An event routed to the synchronous local route: its subscribers run in the
    order of declaration, each at most once, with exactly the payload and the new
    metadata, whatever the ones before returned; a nil error means that nobody
    subscribed and the receipt says so, or a completed receipt; then, when the
    middlewares pass calls on, every subscriber ran exactly once and returned nil. *)
Theorem local_publish d rec ctx out b :
  DRouteEvent d (Some (NewLocalSyncRoute timeNow)) ∈ xs -> has_type (t_type d) (og_Payload out) = true ->
  (forall d' id h, DSubscribe d' id (Some h) ∈ xs -> records h (rec id)) ->
  let '(b', (r, err)) := PublishMessage timeNow m (Some ctx) d out b in
  match (newMetadata m ctx (d_info (t_descriptor d)) (og_Metadata out) b).2 with
  | Err e => err = Some e /\ log b' = log b
  | Ok md =>
      let msg := {| m_Metadata := md; m_Payload := og_Payload out |} in
      let entries := List.map (fun s => rec (es_id s) msg) (subscriptions d) in
      (exists ys, ys `sublist_of` entries /\ log b' = (log b ++ ys)%list) /\
      (err = None -> rc_MessageID r = md_ID md /\ rc_Route r = local_sync /\
        ((rc_State r = ReceiptNoop /\ subscriptions d = []) \/
         (rc_State r = ReceiptCompleted /\
          (passing mws -> log b' = (log b ++ entries)%list /\
             Forall (fun s => exists d' h c b1 b2, DSubscribe d' (es_id s) (Some h) ∈ xs /\ h msg c b1 = (b2, Middleware.Ret None)) (subscriptions d)))))
  end.
Proof.
  intros Hr Ht Hh. destruct bound as (_ & Hm & _ & _). destruct (event_bound d _ Hr) as (eb & Heb & Hsame & Hsubs & Hrt & Hq & Hmws).
  unfold PublishMessage. fold (tkey d). rewrite Heb, Hsame, Hrt. cbn [negb].
  pose proof (newMetadata_quiet log m ctx (d_info (t_descriptor d)) (og_Metadata out) b Hm) as Hlog.
  destruct (newMetadata m ctx _ _ b) as [b1 [md|e]]; cbn in Hlog |- *; [|done].
  set (entries := List.map _ _). set (msg := {| m_Metadata := md; m_Payload := _ |}) in *.
  assert (Forall2 (fun s x => logs_as log md (og_Payload out) (es_handler s) x) (eb_subscribers eb) entries) as Hlogs.
  { rewrite Hsubs. subst entries. apply Forall2_fmap_r. apply Forall_Forall2_diag, Forall_forall. intros s Hs.
    destruct (subscription_declared d _ s Hr Hs) as (d' & h & Hin & ->). by apply factory_logs, (Hh d'). }
  pose proof (event_delivery_logs log timeNow timeNow_quiet eb (NewLocalSyncRoute timeNow) md (og_Payload out) entries Hq Hlogs) as Hdl.
  pose proof (deliver_local log timeNow timeNow_quiet m ctx _ b1 _ _ Hm Hdl) as H.
  destruct (deliver _ _ _ _ _) as [b' [r err]]. destruct H as [H1 H2]. rewrite Hlog in H1, H2. split; [done|].
  intros He. destruct (H2 He) as (Hid & Hroute & Hst). split_and!; [done|done|].
  destruct Hst as [(Hst & _ & Hn & _)|(Hst & Hcomp & Hall)]; [left|right]; (split; [done|]).
  { cbn in Hn. rewrite Hsubs in Hn. by destruct (subscriptions d). }
  intros Hp. rewrite <- Hmws in Hp. split; [by apply Hall|]. destruct Hcomp as (invoke & b2 & b3 & Hi & Ei). cbn in Hi. injection Hi as <-.
  destruct (notify_subscribers _ _ _ _ _ _ _) as [b4 errs] eqn:En. injection Ei as _ Ej. apply errors_join_None in Ej as ->.
  destruct (notify_nil eb md (og_Payload out) _ (eb_subscribers eb) [] b2 ltac:(by rewrite En) Hp (carries_with _ _)) as [_ Hall2].
  rewrite Hsubs in Hall2. apply Forall_forall. intros s Hs. rewrite Forall_forall in Hall2. destruct (Hall2 s Hs) as (f & Hf & Hret).
  destruct (subscription_declared d _ s Hr Hs) as (d' & h & Hin & Ef). rewrite Ef in Hf. exists d', h.
  destruct (factory_returned _ _ _ _ _ _ Ht Hf Hret) as (c & b5 & b6 & E). by exists c, b5, b6.
Qed.

Lemma query_bound d id h route : DQuery d id (Some h) ∈ xs -> DRouteQuery d (Some route) ∈ xs -> tq_zero d = false ->
  exists qb, ms_queries m !! qkey d = Some qb /\
    (negb (sameDescriptor (qb_descriptor qb) (d_info (tq_descriptor d)) (tq_type d)) || negb (bool_decide (qb_resultType qb = Some (tq_R d)))
     || negb (bool_decide (tq_resultType d = Some (tq_R d)))) = false /\
    qb_handler qb = Some (query_factory d h) /\ qb_route qb = Some route /\
    quiet log (qb_clock qb) /\ quiet_observer log (qb_observer qb) /\ quiet_reporter log (qb_panicReporter qb) /\ quiet_middlewares log (qb_middleware qb).
Proof.
  intros Hd Hr Hz. destruct bound as (_ & _ & _ & _ & Hq).
  assert (qry_handler (qkey d) (DQuery d id (Some h)) = Some (id, query_factory d h)) as E1 by (cbn; apply at_key_eq).
  apply (first_declared _ _ _ (SQueryHandler (qkey d)) Hd) in E1; [|intros; by apply qry_handler_slot].
  assert (qry_route (qkey d) (DRouteQuery d (Some route)) = Some route) as E2 by (cbn; apply at_key_eq).
  apply (first_declared _ _ _ (SQueryRoute (qkey d)) Hr) in E2; [|intros; by apply qry_route_slot].
  rewrite Hq. unfold qry_reg. destruct (first (qry_desc (qkey d)) xs) as [d0|] eqn:Ed.
  - eexists. split; [done|]. cbn. rewrite E1, E2. split_and!; try done; [|apply Hcfg|by apply quiet_observers|by apply quiet_panics].
    apply first_in in Ed as (x & Hx & Ed). apply (keyed_Some qry_of qkey) in Ed as [Ed Ek].
    assert (d_info (tq_descriptor d0) = d_info (tq_descriptor d) /\ tq_type d0 = tq_type d /\ tq_resultType d0 = Some (tq_R d)) as (Ei & Et & Er).
    { destruct (declared_together x _ Hx Hd) as [->|Hcp]; [injection Ed as ->; split_and!; try done; unfold tq_resultType; by rewrite Hz|].
      destruct (cp_qry _ _ Hcp d0 d Ed eq_refl Ek) as (? & ? & Hz0 & _ & HR). split_and!; try done. unfold tq_resultType. by rewrite Hz0, HR. }
    assert (tq_resultType d = Some (tq_R d)) as Hrd by (unfold tq_resultType; by rewrite Hz).
    unfold sameDescriptor. cbn. by rewrite !bool_decide_eq_true_2.
  - rewrite first_none in Ed. specialize (Ed _ Hd). unfold qry_desc in Ed. cbn in Ed. by rewrite at_key_eq in Ed.
Qed.

(** A result of the stored closure is the handler's answer. *)
Lemma query_factory_result d (h : QueryHandler B C) md payload f c b1 b2 res e : has_type (tq_type d) payload = true -> query_factory d h payload = Ok f ->
  carries md c -> f c b1 = (b2, (res, inl e)) -> qr_present res = true ->
  qr_expectedOutputType res = tq_resultType d /\ h {| m_Metadata := md; m_Payload := payload |} c b1 = (b2, QRet (qr_value res) None).
Proof.
  intros Ht Hf Hc E Hp. unfold query_factory in Hf. rewrite payloadAs_typed, Ht in Hf. injection Hf as <-. cbn in E.
  rewrite (message_of_carries md) in E by done. destruct (h _ c b1) as [b [v [err|]|v]]; by simplify_eq/=.
Qed.

(** A query with a handler and the synchronous route: the handler runs at most
    once, with exactly the payload and the new metadata.  A nil error means that
    it ran exactly once and returned without an error, and the value is the one it
    returned: whatever the middlewares do, they can refuse or hide a result, not
    make one up, repeat the call or change the value. *)
Theorem local_query d id h rec ctx payload b :
  DQuery d id (Some h) ∈ xs -> DRouteQuery d (Some NewLocalSyncQueryRoute) ∈ xs -> tq_zero d = false ->
  has_type (tq_type d) payload = true -> (forall msg c b, log (h msg c b).1 = (log b ++ [rec msg])%list) ->
  (forall msg c b b' v, h msg c b = (b', QRet v None) -> has_type (tq_R d) v = true) ->
  let '(b', (value, err)) := Query m (Some ctx) d payload b in
  match (newQueryMetadata m ctx (d_info (tq_descriptor d)) b).2 with
  | Err e => err = Some e /\ log b' = log b
  | Ok md =>
      let msg := {| m_Metadata := md; m_Payload := payload |} in
      (log b' = log b \/ log b' = (log b ++ [rec msg])%list) /\
      (err = None -> log b' = (log b ++ [rec msg])%list /\ exists c b1 b2, h msg c b1 = (b2, QRet value None))
  end.
Proof.
  intros Hd Hr Hz Ht Hh Hty. destruct bound as (_ & Hm & _). destruct (query_bound d id h _ Hd Hr Hz) as (qb & Hqb & Htest & Hf & Hrt & Hc & Ho & Hp & Hw).
  unfold Query. fold (qkey d). rewrite Hqb, Htest, Hf, Hrt.
  pose proof (newMetadata_quiet log m ctx (d_info (tq_descriptor d)) OutgoingMetadata0 b Hm) as Hlog.
  unfold newQueryMetadata. destruct (newMetadata m ctx _ _ b) as [b1 [md|e]]; cbn [fst snd] in Hlog |- *; [|done].
  set (msg := {| m_Metadata := md; m_Payload := payload |}).
  pose proof (qm_clock _ _ Hm b1) as E1. destruct (ms_clock m b1) as [b2 started]. cbn in E1.
  assert (exists f, query_factory d h payload = Ok f /\ forall c b, carries md c -> log (f c b).1 = (log b ++ [rec msg])%list) as (f & Ef & Hfl).
  { unfold query_factory. rewrite payloadAs_typed, Ht. eexists. split; [done|]. intros c b0 Hcar. cbn. rewrite (message_of_carries md) by done.
    fold msg. pose proof (Hh msg c b0) as H. by destruct (h msg c b0). }
  destruct (query_call_once log md f (rec msg) Hfl qb (query_factory d h) NewLocalSyncQueryRoute payload Ef Hc Ho Hp Hw) as (invoke & Hi & Hcall).
  set (call := query_call qb _ _ md payload) in *.
  assert (let '(b3, (res, err)) := lr_query NewLocalSyncQueryRoute (Some ctx) call b2 in
    (log b3 = log b \/ log b3 = (log b ++ [rec msg])%list) /\
    (err = None -> log b3 = (log b ++ [rec msg])%list /\ exists c b4 b5, h msg c b4 = (b5, QRet (qr_value res) None) /\ qr_present res = true /\
       qr_expectedOutputType res = Some (tq_R d))) as Hcalled.
  { cbn [lr_query NewLocalSyncQueryRoute]. unfold LocalSync_query. rewrite Hi.
    destruct (dispatch_result_once (localQueryCallExecutor call) ctx b2) as [->|(err & -> & Eerr)].
    - unfold localQueryCallExecutor. rewrite Hi. specialize (Hcall (contextWithMetadata ctx (lq_metadata call)) b2 (carries_with _ _)).
      destruct (invoke _ b2) as [b3 [res err]]. rewrite E1, Hlog in Hcall. destruct Hcall as [H1 H2].
      destruct err as [err|]; (split; [done|]); [done|]. intros _. destruct (H2 eq_refl) as (Hl & Hpr & c & b4 & b5 & e & Hcar & Efc).
      destruct (query_factory_result _ _ _ _ _ _ _ _ _ _ Ht Ef Hcar Efc Hpr) as [Hexp Hret]. split; [done|]. exists c, b4, b5. split_and!; try done.
      rewrite Hexp. unfold tq_resultType. by rewrite Hz.
    - split; [left; congruence|]. unfold unwrapLocalQueryInvocationError. cbn. by rewrite Eerr. }
  destruct (lr_query _ _ call b2) as [b3 [res err]]. destruct Hcalled as [H1 H2].
  set (ve := match err with None => _ | Some _ => _ end).
  assert (ve.2 = None -> log b3 = (log b ++ [rec msg])%list /\ exists c b4 b5, h msg c b4 = (b5, QRet ve.1 None)) as Hve.
  { subst ve. destruct err; [done|]. destruct (H2 eq_refl) as (Hl & c & b4 & b5 & E & Hpr & Hexp). unfold queryResultAs. rewrite Hpr, Hexp.
    rewrite bool_decide_eq_true_2 by done. pose proof (Hty _ _ _ _ _ E) as Hv. destruct (qr_value res); cbn [negb]; [rewrite Hv|]; eauto 6. }
  destruct ve as [value err']. cbn in Hve. destruct (ms_observer m) as [set|] eqn:Eo; [|done]. rewrite <- Eo.
  pose proof (qm_clock _ _ Hm b3) as E3. destruct (ms_clock m b3) as [b4 ended]. cbn in E3. rewrite (qm_observer _ _ Hm), E3. done.
Qed.
End Bound.
End Local.

(** ** Batches *)
Section Batches.
Context {B C L : Type} `{GT : !GoTypes, GC : !GoContext C, GJ : !EnvelopeJSON}.
Context (log : B -> list L) (timeNow : B -> B * Time).
Context (m : Messenger B C) (Hm : quiet_messenger log m).
(** Batch routes log what they are given. *)
Context (rec : string -> list (delivery B C) -> L).
Definition batch_logs (route : option (Route B C)) : Prop := forall r f c ds b, route = Some r -> rt_DeliverBatch r = Some f ->
  log (f c ds b).1 = (log b ++ [rec (rt_Name r) ds])%list.

(** The delivery of one message of the batch. *)
Definition delivery_for (ctx : C) (info : DescriptorInfo) (make : Metadata -> any -> delivery B C) (out : Outgoing) (d : delivery B C) : Prop :=
  exists md b1 b2, newMetadata m ctx info (og_Metadata out) b1 = (b2, Ok md) /\ d = make md (og_Payload out).
Definition delivery_id (d : delivery B C) : MessageID := md_ID (dl_metadata d).
Definition encodable (d : delivery B C) : Prop := exists data, Delivery_MarshalEnvelope d = Ok data.
Definition receipt_for (route : string) (r : Receipt) (d : delivery B C) : Prop :=
  rc_MessageID r = delivery_id d /\ rc_Route r = route /\ rc_State r <> "".

Definition all_or_nothing (ctx : C) (info : DescriptorInfo) (route : option (Route B C)) (make : Route B C -> Metadata -> any -> delivery B C)
    (outgoing : list Outgoing) (b b' : B) (receipts : list Receipt) (err : option error) : Prop :=
  (err <> None /\ receipts = [] /\ log b' = log b) \/
  exists r ds, route = Some r /\ log b' = (log b ++ [rec (rt_Name r) ds])%list /\ Forall2 (delivery_for ctx info (make r)) outgoing ds /\
    NoDup (List.map delivery_id ds) /\ Forall encodable ds /\ (err = None -> Forall2 (receipt_for (rt_Name r)) receipts ds).

Lemma batch_deliveries_ok ctx info make seen outgoing b : (forall md p, dl_metadata (make md p) = md) ->
  let '(b', res) := batch_deliveries m ctx info make seen outgoing b in
  log b' = log b /\ forall ds, res = Ok ds -> Forall2 (delivery_for ctx info make) outgoing ds /\ NoDup (List.map delivery_id ds) /\
    Forall (fun d => delivery_id d ∉ seen) ds.
Proof.
  intros Hmake. revert seen b. induction outgoing as [|out rest IH]; intros seen b; cbn.
  - split; [done|]. intros ds [= <-]. repeat constructor.
  - pose proof (newMetadata_quiet log m ctx info (og_Metadata out) b Hm) as E1.
    destruct (newMetadata m ctx info (og_Metadata out) b) as [b1 [md|e]] eqn:En; cbn in E1; [|done].
    destruct (bool_decide (md_ID md ∈ seen)) eqn:Es; [done|]. apply bool_decide_eq_false in Es.
    specialize (IH ({[md_ID md]} ∪ seen) b1). destruct (batch_deliveries _ _ _ _ _ _ _) as [b2 [l|e]]; destruct IH as [E2 IH]; (split; [congruence|]); [|done].
    intros ds [= <-]. destruct (IH l eq_refl) as (H1 & H2 & H3). rewrite Forall_forall in H3. split_and!.
    + constructor; [|done]. by exists md, b, b1.
    + cbn. constructor; [|done]. intros Hin. apply list_elem_of_fmap in Hin as (d & Ed & Hd). apply (H3 d Hd). unfold delivery_id in Ed at 1.
      rewrite Hmake in Ed. set_solver.
    + constructor; [unfold delivery_id; by rewrite Hmake|]. apply Forall_forall. intros d Hd. specialize (H3 d Hd). set_solver.
Qed.

Lemma encode_all_ok ds : encode_all ds = None -> Forall encodable ds.
Proof.
  induction ds as [|d ds IH]; cbn; [constructor|]. destruct (Delivery_MarshalEnvelope d) as [data|e] eqn:E; [|done].
  intros H. constructor; [by exists data|auto].
Qed.

Lemma normalize_all_ok rs ds route clock b : quiet log clock -> List.length rs = List.length ds ->
  let '(b', (rs', err)) := normalize_all rs ds route clock b in
  log b' = log b /\ (err = None -> Forall2 (receipt_for route) rs' ds).
Proof.
  intros Hc. revert ds b. induction rs as [|r rs IH]; intros [|d ds] b Hl; try done. cbn [normalize_all].
  pose proof (normalize_quiet log r (dl_metadata d) route clock b Hc) as E1.
  destruct (normalizeReceipt r (dl_metadata d) route clock b) as [b1 [r1 e]] eqn:En. cbn in E1. destruct e as [e|]; [done|].
  injection Hl as Hl. specialize (IH ds b1 Hl). destruct (normalize_all rs ds route clock b1) as [b2 [rs' e]]. destruct IH as [E2 H2].
  split; [congruence|]. intros He. constructor; [|by apply H2]. clear - En.
  unfold normalizeReceipt in En. set (r0 := if MessageID_IsZero _ then _ else r) in En. unfold receipt_for, delivery_id.
  destruct (String.eqb_spec (rc_MessageID r0) (md_ID (dl_metadata d))) as [Ei|]; [|done]. cbn [negb] in En.
  set (r2 := if String.eqb (rc_Route r0) "" then _ else r0) in En.
  assert (rc_MessageID r2 = rc_MessageID r0) as Ei2 by (subst r2; by destruct (String.eqb (rc_Route r0) "")).
  destruct (String.eqb_spec (rc_Route r2) route) as [Er|]; [|done]. destruct (String.eqb_spec (rc_State r2) "") as [|Es]; [done|]. cbn in En.
  destruct (clock b) as [bc t]. injection En as <- <-. cbn. split_and!; congruence.
Qed.

Lemma observe_batch_quiet ctx route started err ds rs b : log (observe_batch m ctx route started err ds rs b) = log b.
Proof.
  destruct Hm as [Hc _ Ho]. revert rs b. induction ds as [|d ds IH]; intros rs b; [done|]. cbn. destruct rs as [|r rs];
  pose proof (Hc b) as E; destruct (ms_clock m b) as [b1 ended]; cbn in E; by rewrite IH, Ho.
Qed.

Lemma send_batch_ok ctx info route make outgoing b : batch_logs route -> (forall r md p, dl_metadata (make r md p) = md) ->
  let '(b', (rs, err)) := send_batch m ctx info route make outgoing b in all_or_nothing ctx info route make outgoing b b' rs err.
Proof.
  intros Hlog Hmake. unfold send_batch. destruct route as [r|]; [|by left]. destruct (rt_DeliverBatch r) as [f|] eqn:Ef; [|by left].
  pose proof (batch_deliveries_ok ctx info (make r) ∅ outgoing b (Hmake r)) as H. destruct (batch_deliveries _ _ _ _ _ _ _) as [b1 [ds|e]]; destruct H as [E1 H]; [|by left].
  destruct (H ds eq_refl) as (H1 & H2 & _). unfold deliverBatch. destruct (encode_all ds) eqn:Ee; [by left|]. apply encode_all_ok in Ee.
  pose proof (qm_clock _ _ Hm b1) as E2. destruct (ms_clock m b1) as [b2 started]. cbn in E2.
  pose proof (Hlog r f ctx ds b2 eq_refl Ef) as E3. destruct (f ctx ds b2) as [b3 [rs err]]. cbn in E3. rewrite E2, E1 in E3.
  set (p := match err with Some _ => _ | None => _ end).
  assert (log p.1 = log b3 /\ (p.2.2 = None -> Forall2 (receipt_for (rt_Name r)) p.2.1 ds)) as [E4 Hp].
  { subst p. destruct err as [err|]; [done|]. destruct (Nat.eqb_spec (List.length rs) (List.length ds)) as [El|]; [|done]. cbn [negb].
    pose proof (normalize_all_ok rs ds (rt_Name r) (ms_clock m) b3 (qm_clock _ _ Hm) El) as Hn. by destruct (normalize_all _ _ _ _ _) as [b4 [rs' e]]. }
  destruct p as [b4 [rs' err']]. cbn in E4, Hp. right. exists r, ds. split_and!; try done.
  destruct (ms_observer m); rewrite ?observe_batch_quiet; congruence.
Qed.

(** C28. A batch of commands or events is all or nothing.  Either the route is not
    called, an error is returned and there are no receipts; or it is called exactly
    once, with one delivery per message in order, all ids distinct and all
    envelopes encodable.  A nil error comes with one receipt per message, each with
    that message's id, the route's name and a state. *)
Theorem batch_all_or_nothing d ctx outgoing b :
  (forall k cb, ms_commands m !! k = Some cb -> batch_logs (cb_route cb)) -> (forall k eb, ms_events m !! k = Some eb -> batch_logs (eb_route eb)) ->
  let info := d_info (t_descriptor d) in
  (let '(b', (rs, err)) := SendMessageBatch timeNow m ctx d outgoing b in
   (err <> None /\ rs = [] /\ log b' = log b) \/
   exists c cb, ctx = Some c /\ outgoing <> [] /\ ms_commands m !! keyFor info = Some cb /\
     all_or_nothing c info (cb_route cb) (command_delivery timeNow cb) outgoing b b' rs err) /\
  (let '(b', (rs, err)) := PublishMessageBatch timeNow m ctx d outgoing b in
   (err <> None /\ rs = [] /\ log b' = log b) \/
   exists c eb, ctx = Some c /\ outgoing <> [] /\ ms_events m !! keyFor info = Some eb /\
     all_or_nothing c info (eb_route eb) (event_delivery timeNow eb) outgoing b b' rs err).
Proof.
  intros Hc He info. unfold SendMessageBatch, PublishMessageBatch. fold info. split; (destruct ctx as [c|]; [|by left]);
    (destruct outgoing as [|out rest]; [by left|]); cbn [is_empty].
  - destruct (ms_commands m !! keyFor info) as [cb|] eqn:E; [|by left]. destruct (negb _); [by left|].
    pose proof (send_batch_ok c info (cb_route cb) (command_delivery timeNow cb) (out :: rest) b (Hc _ _ E) ltac:(done)) as H.
    destruct (send_batch _ _ _ _ _ _ _) as [b' [rs err]]. right. by exists c, cb.
  - destruct (ms_events m !! keyFor info) as [eb|] eqn:E; [|by left]. destruct (negb _); [by left|].
    pose proof (send_batch_ok c info (eb_route eb) (event_delivery timeNow eb) (out :: rest) b (He _ _ E) ltac:(done)) as H.
    destruct (send_batch _ _ _ _ _ _ _) as [b' [rs err]]. right. by exists c, eb.
Qed.
End Batches.
End MessengerTheorems.

(** ** A small messenger *)
Module MessengerWitness.
Import MessengerTheorems.

(** ** The environment *)
#[local] Instance types : GoTypes := {| rtype := bool; rtype_eq_dec := _; is_interface := fun _ => false; implements := fun _ _ => false; carrier := string |}.
#[local] Program Instance contexts : GoContext (option Metadata) :=
  {| MetadataFromContext := fun c => c; contextWithMetadata := fun _ m => Some m |}.
Next Obligation. done. Qed.
#[local] Instance json : EnvelopeJSON :=
  {| json_Valid := fun _ => true; json_Compact := fun d => d; json_String := fun s => Ok s; json_UnString := fun s => Ok s;
     json_Envelope := fun e => Ok (e_ID e); json_Parse := fun _ => Err (ENew "syntax"); json_Trailing := fun _ => None;
     url_Parse := fun _ => None; EqualFold := String.eqb |}.
#[local] Program Instance ranges : MapRange := {| range := fun K A _ _ => map_to_list |}.
Next Obligation. done. Qed.

(** The state is the log. *)
Abbreviation host := (list string).
#[local] Program Instance bus : GoBus host (option Metadata) :=
  {| Dispatch := fun exec => exec; DispatchResult := fun exec => exec |}.
Next Obligation. intros exec c b. by left. Qed.
Next Obligation. intros exec c b. by left. Qed.

Definition log : host -> list string := fun b => b.
Definition now : host -> host * Time := fun b => (b, 1000).

Definition bytes_codec : Codec any :=
  {| Encode := fun v => match v with Some (_, s) => Ok s | None => Err (ENew "nil") end;
     Decode := fun s => Ok (Some (true, s)); ContentType := "application/octet-stream"; Encoding := DataBinary |}.
Definition described_as (kind : Kind) (name : string) : descriptor any :=
  match newDescriptor kind name 1 "" (Some bytes_codec) with
  | Ok d => d
  | Err _ => {| d_info := mf_DescriptorInfo no_entry; d_codec := bytes_codec |}
  end.
Definition place_order : Typed := {| t_descriptor := described_as KindCommand "orders.place_order"; t_type := true |}.
Definition placed : Typed := {| t_descriptor := described_as KindEvent "orders.placed"; t_type := true |}.
Definition shipped : Typed := {| t_descriptor := described_as KindEvent "orders.shipped"; t_type := true |}.
Definition count : TypedQuery := {| tq_descriptor := described_as KindQuery "orders.count"; tq_type := true; tq_R := false; tq_zero := false |}.

Definition entry (who : string) (msg : Message any) : string :=
  (who ++ ":" ++ match m_Payload msg with Some (_, s) => s | None => "" end)%string.
Definition recorder (who : string) : Handler host (option Metadata) := fun msg _ b => ((b ++ [entry who msg])%list, Middleware.Ret None).
Definition counter : QueryHandler host (option Metadata) := fun msg _ b => ((b ++ [entry "count" msg])%list, QRet (Some (false, "2")) None).

Definition batch_entry (route : string) (ds : list (delivery host (option Metadata))) : string :=
  (route ++ ":" ++ String.concat "," (List.map delivery_id ds))%string.
Definition batch_route : Route host (option Metadata) :=
  {| rt_Name := "outbox"; rt_nilPointer := false;
     rt_Deliver := fun _ _ b => (b, (Receipt0, Some (ENew "batches only")));
     rt_DeliverBatch := Some (fun _ ds b => ((b ++ [batch_entry "outbox" ds])%list,
       (List.map (fun d => {| rc_MessageID := delivery_id d; rc_Route := ""; rc_State := ReceiptStaged; rc_At := 0 |}) ds, None)));
     rt_localRoute := false; rt_ManagedService := None |}.

Definition defaults : config host (option Metadata) :=
  {| bc_source := "urn:orders"; bc_idGenerator := fun b => (b, Ok "0123456789abcdef"); bc_clock := now;
     bc_logger := fun _ _ _ _ b => (b, None); bc_observers := []; bc_propagator := None; bc_panicReporter := None;
     bc_runtimeShutdownTimeout := 30 |}.
Definition forward : MessengerMiddleware host (option Metadata) := fun _ _ c =>
  Middleware.MNext (Some c) (fun r => match r with Middleware.Ret e => Middleware.MReturn e | Middleware.Pan v => Middleware.MPanic v end).
Definition options : list (option_value host (option Metadata)) := [OObserver (Some (fun _ _ b => (b, Some "observer failed")))].
Definition declarations : list (declaration host (option Metadata)) :=
  [DMiddleware [Some forward];
   DCommand place_order "orders" (Some (recorder "orders")); DRouteCommand place_order (Some (NewLocalSyncRoute now));
   DSubscribe placed "mail" (Some (recorder "mail")); DRouteEvent placed (Some (NewLocalSyncRoute now));
   DSubscribe placed "stock" (Some (recorder "stock"));
   DRouteEvent shipped (Some batch_route);
   DQuery count "counter" (Some counter); DRouteQuery count (Some NewLocalSyncQueryRoute)].

Definition built : option (Messenger host (option Metadata) * runtimeConfig) :=
  match (Build (built_from defaults options declarations)).2 with Some (Ok p) => Some p | _ => None end.
Definition messenger : Messenger host (option Metadata) :=
  match built with
  | Some (m, _) => m
  | None => {| ms_source := ""; ms_idGenerator := bc_idGenerator defaults; ms_clock := now; ms_observer := None; ms_propagator := None;
               ms_commands := ∅; ms_events := ∅; ms_queries := ∅;
               ms_manifest := {| mf_SpecVersion := ""; mf_Source := ""; mf_Descriptors := []; mf_Services := [] |} |}
  end.
Definition runtime : runtimeConfig := match built with Some (_, rn) => rn | None => {| rn_services := []; rn_shutdownTimeout := 0 |} end.

Lemma messenger_built : (Build (built_from defaults options declarations)).2 = Some (Ok (messenger, runtime)).
Proof.
  unfold messenger, runtime, built. destruct (Build (built_from defaults options declarations)).2 as [[[m rn]|e]|] eqn:E; [done|exfalso..];
    vm_compute in E; discriminate E.
Qed.

Definition hello : Outgoing := {| og_Payload := Some (true, "42"); og_Metadata := OutgoingMetadata0 |}.
Example sends : SendMessage now messenger (Some None) place_order hello [] =
  (["orders:42"], ({| rc_MessageID := "0123456789abcdef"; rc_Route := local_sync; rc_State := ReceiptCompleted; rc_At := 1000 |}, None)).
Proof. vm_compute. reflexivity. Qed.
Example publishes : PublishMessage now messenger (Some None) placed hello [] =
  (["mail:42"; "stock:42"], ({| rc_MessageID := "0123456789abcdef"; rc_Route := local_sync; rc_State := ReceiptCompleted; rc_At := 1000 |}, None)).
Proof. vm_compute. reflexivity. Qed.
Example queries : Query messenger (Some None) count (Some (true, "7")) [] = (["count:7"], (Some (false, "2"), None)).
Proof. vm_compute. reflexivity. Qed.

(** ** The host code is quiet *)
Lemma now_quiet : quiet log now.
Proof. by intros b. Qed.
Lemma config_quiet : quiet_config log (configured defaults options).
Proof. split; try by intros. by repeat constructor. Qed.
Lemma middleware_quiet : quiet_middlewares log (flat_map middleware_entries declarations).
Proof. repeat constructor. by intros ? ? ? []. Qed.
Lemma middleware_passes : passing (flat_map middleware_entries declarations).
Proof. by repeat constructor. Qed.
Lemma recorder_records who : records log (recorder who) (entry who).
Proof. by intros msg c b. Qed.
Lemma messenger_quiet : quiet_messenger log messenger.
Proof. apply (bound log defaults options declarations messenger runtime messenger_built config_quiet). Qed.

Lemma described_constructed kind name : newDescriptor kind name 1 "" (Some bytes_codec) = Ok (described_as kind name) -> constructed kind (described_as kind name).
Proof.
  intros E. exists name, 1, (Some bytes_codec), (described_as kind name), (di_Schema (d_info (described_as kind name))). split; [done|].
  by destruct (described_as kind name) as [[] ?].
Qed.

(** ** Witnesses *)
Lemma manifest_sound_witness : Manifest_Validate (ms_manifest messenger) = None /\ List.length (mf_Descriptors (ms_manifest messenger)) = 4%nat.
Proof.
  split; [|vm_compute; reflexivity]. apply (manifest_sound defaults options declarations messenger runtime messenger_built).
  intros x Hx. repeat (apply elem_of_cons in Hx as [->|Hx]); [..|by apply not_elem_of_nil in Hx];
    split_and!; intros d [= <-]; apply described_constructed; vm_compute; reflexivity.
Defined.

Definition with_id (id : MessageID) : OutgoingMetadata :=
  {| om_ID := id; om_Subject := ""; om_Time := 0; om_CorrelationID := zeroID; om_CausationID := zeroID; om_Key := "";
     om_Headers := ∅; om_NotBefore := 0; om_ExpiresAt := 0 |}.
Definition metadata (parent : option Metadata) (id : MessageID) : Metadata :=
  match (newMetadata messenger parent (d_info (t_descriptor place_order)) (with_id id) []).2 with Ok md => md | Err _ => Metadata0 end.
Definition first_message : Metadata := metadata None "0000000000000001".
Definition second_message : Metadata := metadata (Some first_message) "0000000000000002".
Lemma sent parent id md : newMetadata messenger parent (d_info (t_descriptor place_order)) (with_id id) [] = ([], Ok md) ->
  sent_from (B := host) parent (with_id id) md.
Proof. intros E. exists messenger, parent, (d_info (t_descriptor place_order)), [], []. split; [reflexivity|exact E]. Qed.
Lemma message_lineage_witness : md_CorrelationID second_message = "0000000000000001" /\ md_CausationID second_message = "0000000000000001".
Proof.
  assert (sent_from (B := host) None (with_id "0000000000000001") first_message) as H1 by (apply sent; vm_compute; reflexivity).
  assert (sent_from (B := host) (Some first_message) (with_id "0000000000000002") second_message) as H2 by (apply sent; vm_compute; reflexivity).
  assert (conversation (B := host) (md_ID first_message) second_message) as Hc
    by (eapply conv_joins; [eapply conv_starts; [exact H1|vm_compute; reflexivity]|exact H2|vm_compute; reflexivity]).
  destruct (message_lineage (B := host) (md_ID first_message) second_message Hc) as (_ & Hcor & Hcause).
  split; [exact Hcor|]. exact (proj2 (Hcause _ _ H2)).
Defined.

Definition new_metadata (info : DescriptorInfo) : Metadata :=
  match (newMetadata messenger None info OutgoingMetadata0 []).2 with Ok md => md | Err _ => Metadata0 end.
Lemma new_command : (newMetadata messenger None (d_info (t_descriptor place_order)) OutgoingMetadata0 []).2 = Ok (new_metadata (d_info (t_descriptor place_order))).
Proof. vm_compute. reflexivity. Qed.
Lemma new_event : (newMetadata messenger None (d_info (t_descriptor placed)) OutgoingMetadata0 []).2 = Ok (new_metadata (d_info (t_descriptor placed))).
Proof. vm_compute. reflexivity. Qed.
Lemma new_query : (newQueryMetadata messenger None (d_info (tq_descriptor count)) []).2 = Ok (new_metadata (d_info (tq_descriptor count))).
Proof. vm_compute. reflexivity. Qed.

Lemma local_send_witness : let '(b', (r, err)) := SendMessage now messenger (Some None) place_order hello [] in
  err = None /\ rc_State r = ReceiptCompleted /\ b' = ["orders:42"].
Proof.
  pose proof (local_send log now now_quiet defaults options declarations messenger runtime messenger_built config_quiet middleware_quiet
    place_order "orders" (recorder "orders") (entry "orders") None hello [] ltac:(set_solver) ltac:(set_solver) eq_refl (recorder_records _)) as H.
  change (og_Metadata hello) with OutgoingMetadata0 in H. rewrite new_command in H. rewrite sends in H |- *. destruct H as [_ H].
  destruct (H eq_refl) as (_ & _ & Hst & Hl). destruct (Hl middleware_passes) as [Hl' _]. split; [reflexivity|]. split; [exact Hst|exact Hl'].
Defined.

Lemma local_publish_witness : let '(b', (r, err)) := PublishMessage now messenger (Some None) placed hello [] in
  err = None /\ rc_State r = ReceiptCompleted /\ b' = ["mail:42"; "stock:42"].
Proof.
  pose proof (local_publish log now now_quiet defaults options declarations messenger runtime messenger_built config_quiet middleware_quiet
    placed entry None hello [] ltac:(set_solver) eq_refl) as H.
  change (og_Metadata hello) with OutgoingMetadata0 in H. rewrite new_event in H. rewrite publishes in H |- *. destruct H as [_ H].
  { intros d' id h Hin. repeat (apply elem_of_cons in Hin as [Hin|Hin]; [try discriminate Hin|]); [..|by apply not_elem_of_nil in Hin];
      injection Hin as -> -> ->; apply recorder_records. }
  destruct (H eq_refl) as (_ & _ & [[Hst _]|[Hst Hl]]); [discriminate Hst|]. destruct (Hl middleware_passes) as [Hl' _].
  split; [reflexivity|]. split; [exact Hst|exact Hl'].
Defined.

Lemma local_query_witness : let '(b', (value, err)) := Query messenger (Some None) count (Some (true, "7")) [] in err = None /\ b' = ["count:7"].
Proof.
  pose proof (local_query log defaults options declarations messenger runtime messenger_built config_quiet middleware_quiet
    count "counter" counter (entry "count") None (Some (true, "7")) [] ltac:(set_solver) ltac:(set_solver) eq_refl eq_refl ltac:(done)) as H.
  rewrite new_query in H. rewrite queries in H |- *. destruct H as [_ H].
  { by intros msg c b b' v [= _ <-]. }
  split; [reflexivity|]. apply (H eq_refl).
Defined.

(** Only the shipped events have a batch route. *)
Lemma batches_logged :
  (forall k cb, ms_commands messenger !! k = Some cb -> batch_logs log batch_entry (cb_route cb)) /\
  (forall k eb, ms_events messenger !! k = Some eb -> batch_logs log batch_entry (eb_route eb)).
Proof.
  destruct (bound log defaults options declarations messenger runtime messenger_built config_quiet) as (_ & _ & Hc & He & _). split.
  - intros k cb Hcb r f c ds b Er Ef. rewrite Hc in Hcb. apply fmap_Some in Hcb as (reg & Hreg & ->). cbn [makeCommandBinding cb_route] in Er.
    unfold cmd_reg in Hreg. destruct (first (cmd_desc k) declarations); [|done]. injection Hreg as <-. cbn [cr_route] in Er.
    apply first_in in Er as (x & Hx & Ex). exfalso.
    repeat (apply elem_of_cons in Hx as [->|Hx]; [try discriminate Ex|]); [..|by apply not_elem_of_nil in Hx].
    cbn in Ex. apply at_key_Some in Ex as [_ <-]. discriminate Ef.
  - intros k eb Heb r f c ds b Er Ef. rewrite He in Heb. apply fmap_Some in Heb as (reg & Hreg & ->). cbn [makeEventBinding eb_route] in Er.
    unfold evt_reg in Hreg. destruct (first (evt_desc k) declarations); [|done]. injection Hreg as <-. cbn [er_route] in Er.
    apply first_in in Er as (x & Hx & Ex).
    repeat (apply elem_of_cons in Hx as [->|Hx]; [try discriminate Ex|]); [..|by apply not_elem_of_nil in Hx];
      cbn in Ex; apply at_key_Some in Ex as [_ <-]; [discriminate Ef|]. by injection Ef as <-.
Qed.

Definition two_messages : list Outgoing :=
  [{| og_Payload := Some (true, "1"); og_Metadata := with_id "0000000000000001" |};
   {| og_Payload := Some (true, "2"); og_Metadata := with_id "0000000000000002" |}].
Example publishes_batch : PublishMessageBatch now messenger (Some None) shipped two_messages [] =
  (["outbox:0000000000000001,0000000000000002"],
   ([{| rc_MessageID := "0000000000000001"; rc_Route := "outbox"; rc_State := ReceiptStaged; rc_At := 1000 |};
     {| rc_MessageID := "0000000000000002"; rc_Route := "outbox"; rc_State := ReceiptStaged; rc_At := 1000 |}], None)).
Proof. vm_compute. reflexivity. Qed.

Lemma batch_all_or_nothing_witness : exists c eb b' rs, ms_events messenger !! keyFor (d_info (t_descriptor shipped)) = Some eb /\
  PublishMessageBatch now messenger (Some None) shipped two_messages [] = (b', (rs, None)) /\
  all_or_nothing log messenger batch_entry c (d_info (t_descriptor shipped)) (eb_route eb) (event_delivery now eb) two_messages [] b' rs None.
Proof.
  destruct (batch_all_or_nothing log now messenger messenger_quiet batch_entry shipped (Some None) two_messages [] (proj1 batches_logged) (proj2 batches_logged)) as [_ H].
  rewrite publishes_batch in H |- *. destruct H as [[H _]|(c & eb & _ & _ & Heb & H)]; [by destruct H|]. eexists c, eb, _, _. split; [exact Heb|]. split; [reflexivity|exact H].
Defined.
End MessengerWitness.
