(* ===== verification/KafkaTopic.v ===== *)
(** * Kafka names

    Models [adapters/kafka/topic.go]: source topics, the service topics of a
    consumer, consumer groups, transactional identifiers and the record key.

    The names of different objects must never meet on a broker.  The theorems:
    source topics are parsed exactly, service topics of different consumers,
    sources and purposes differ from each other and from every source topic, and
    transactional identifiers of different workers differ up to a collision of
    SHA-256. *)
From S2P Require Import Prelude GoStrings GoText Digest Errors Ident.
From Stdlib Require Import Ascii.
Import Stdlib.Strings.String.
Open Scope string_scope.
Open Scope Z_scope.

Module KafkaTopic.

(** ** Definitions *)
Definition maxKafkaNameBytes : Z := 249.
Definition serviceSegment : string := "gm".
Definition serviceMarker : string := "." ++ serviceSegment ++ ".".
Definition transactionIDPrefix : string := "gm.tx.v1.".

Definition invalid (label : string) : error := wrapS ErrKafkaInvalidConfig label.

Definition kafkaIdentifierByte (c : ascii) : bool :=
  is_lower c || is_upper c || is_digit c || Ascii.eqb c "."%char || Ascii.eqb c "-"%char.

Definition validateKafkaIdentifier (role value : string) : option error :=
  if (len value =? 0) || (maxKafkaNameBytes <? len value) || negb (String.eqb (TrimSpace value) value)
  then Some (invalid role)
  else if forallb kafkaIdentifierByte (bytes value) then None else Some (invalid role).

Definition validateTopicName (value : string) : option error :=
  match validateKafkaIdentifier "topic" value with
  | Some e => Some e
  | None => if String.eqb value "." || String.eqb value ".." then Some (invalid "reserved topic") else None
  end.

Definition validateKafkaToken (role value : string) : option error :=
  if String.eqb value "" || negb (String.eqb (TrimSpace value) value) then Some (invalid role)
  else if forallb kafkaIdentifierByte (bytes value) then None else Some (invalid role).

Definition validateConsumerID (value : string) : option error := validateKafkaToken "consumer ID" value.
Definition validateInstanceID (value : string) : option error := validateKafkaIdentifier "instance ID" value.

Definition validateNamespace (value : string) : option error :=
  match validateKafkaToken "namespace" value with
  | Some e => Some e
  | None =>
      if existsb (fun segment => String.eqb segment KindCommand || String.eqb segment KindEvent
                                 || String.eqb segment serviceSegment) (Split value)
      then Some (invalid "reserved namespace segment") else None
  end.

Definition validateDescriptorName (value : string) : option error :=
  if existsb (fun segment => String.eqb segment serviceSegment) (Split value)
  then Some (invalid "reserved descriptor segment") else None.

Definition Topic (namespace : string) (descriptor : DescriptorInfo) : result error string :=
  match validateNamespace namespace with
  | Some e => Err e
  | None =>
      if negb (String.eqb (di_Kind descriptor) KindCommand) && negb (String.eqb (di_Kind descriptor) KindEvent)
         || String.eqb (di_Name descriptor) "" || (di_SchemaVersion descriptor <=? 0)
      then Err (invalid "descriptor topic")
      else match validateDescriptorName (di_Name descriptor) with
      | Some e => Err e
      | None =>
          let topic := namespace ++ "." ++ di_Kind descriptor ++ "." ++ di_Name descriptor ++ ".v"
                       ++ Itoa (di_SchemaVersion descriptor) in
          match validateTopicName topic with
          | Some e => Err e
          | None => Ok topic
          end
      end
  end.

(** [messenger.DescriptorInfo{Kind: kind, Name: name, SchemaVersion: version}] *)
Definition descriptor_of (kind name : string) (version : Z) : DescriptorInfo :=
  {| di_Kind := kind; di_Name := name; di_SchemaVersion := version; di_ContentType := "";
     di_DataEncoding := 0; di_Schema := "" |}.

(** The body of the inner loop of [validateSourceTopicName] at a marker. *)
Definition source_at (kind value : string) (namespace tail : list ascii) : bool :=
  match last_index_of (bytes ".v") tail with
  | Some versionIndex =>
      if (0 <? versionIndex)%nat then
        match Atoi (drop (versionIndex + 2) tail) with
        | Some version =>
            if 0 <? version then
              match Topic (of_bytes namespace)
                      (descriptor_of kind (of_bytes (take versionIndex tail)) version) with
              | Ok expected => String.eqb expected value
              | Err _ => false
              end
            else false
        | None => false
        end
      else false
  | None => false
  end.

(** The inner loop; every round moves [offset] past a marker, so the length of
    the value bounds the rounds. *)
Fixpoint source_loop (fuel : nat) (kind value : string) (offset : nat) : bool :=
  match fuel with
  | O => false
  | S f =>
      let l := bytes value in
      let marker := bytes ("." ++ kind ++ ".") in
      if (offset <? List.length l)%nat then
        match index_of marker (drop offset l) with
        | None => false
        | Some relative =>
            let index := (offset + relative)%nat in
            if source_at kind value (take index l) (drop (index + List.length marker) l) then true
            else source_loop f kind value (index + List.length marker)
        end
      else false
  end.

Definition validateSourceTopicName (value : string) : option error :=
  if existsb (fun kind => source_loop (S (String.length value)) kind value 0) [KindCommand; KindEvent]
  then None else Some (invalid "source topic").

Definition consumerTopic (sourceTopic consumerID suffix : string) : result error string :=
  match validateSourceTopicName sourceTopic with
  | Some e => Err e
  | None =>
      match validateConsumerID consumerID with
      | Some e => Err e
      | None =>
          let topic := sourceTopic ++ serviceMarker ++ consumerID ++ "." ++ suffix in
          match validateTopicName topic with
          | Some e => Err e
          | None => Ok topic
          end
      end
  end.

Definition RetryTopic (sourceTopic consumerID : string) (tier : Z) : result error string :=
  if tier <? 0 then Err (invalid "negative retry tier")
  else consumerTopic sourceTopic consumerID ("retry.t" ++ Itoa tier).
Definition ReplayTopic (sourceTopic consumerID : string) : result error string :=
  consumerTopic sourceTopic consumerID "replay".
Definition DLQTopic (sourceTopic consumerID : string) : result error string :=
  consumerTopic sourceTopic consumerID "dlq".

Definition ConsumerGroup (sourceTopic consumerID : string) : result error string :=
  match validateSourceTopicName sourceTopic with
  | Some e => Err e
  | None =>
      match validateConsumerID consumerID with
      | Some e => Err e
      | None =>
          let group := sourceTopic ++ serviceMarker ++ consumerID in
          match validateKafkaIdentifier "consumer group" group with
          | Some e => Err e
          | None => Ok group
          end
      end
  end.

(** The bytes hashed for a transactional identifier. *)
Definition transaction_preimage (group instanceID : string) (worker : Z) : string :=
  group ++ String Ascii.zero "" ++ instanceID ++ String Ascii.zero "" ++ Itoa worker.

Definition transactionalID (group instanceID : string) (worker : Z) : result error string :=
  if worker <? 0 then Err (invalid "negative worker index")
  else match validateKafkaIdentifier "transactional group" group with
  | Some e => Err e
  | None =>
      match validateInstanceID instanceID with
      | Some e => Err e
      | None =>
          let digest := Sha256.Sum256 (transaction_preimage group instanceID worker) in
          let identifier := transactionIDPrefix ++ of_bytes (bytes digest ≫= hex_byte) ++ ".w" ++ Itoa worker in
          match validateKafkaIdentifier "transactional ID" identifier with
          | Some e => Err e
          | None => Ok identifier
          end
      end
  end.

Definition groupInstanceID (instanceID : string) (worker : Z) : result error string :=
  if worker <? 0 then Err (invalid "negative worker index")
  else match validateInstanceID instanceID with
  | Some e => Err e
  | None =>
      let identifier := instanceID ++ ".w" ++ Itoa worker in
      match validateKafkaIdentifier "group instance ID" identifier with
      | Some e => Err e
      | None => Ok identifier
      end
  end.

Definition expectedRecordKey (metadata : Metadata) : string :=
  if String.eqb (md_Key metadata) "" then MessageID_String (md_ID metadata) else md_Key metadata.

Definition validateRecordKey (key : string) (metadata : Metadata) : option error :=
  if String.eqb key (expectedRecordKey metadata) then None
  else Some (wrapS ErrInvalidMessage "Kafka record key does not match envelope key").

Definition sourceTopicMatchesMetadata (sourceTopic : string) (metadata : Metadata) : option error :=
  let mismatch := wrapS ErrInvalidMessage "Kafka source topic does not match envelope descriptor" in
  let expectedSuffix := "." ++ md_Kind metadata ++ "." ++ md_Name metadata ++ ".v"
                        ++ Itoa (md_SchemaVersion metadata) in
  match cut_suffix (bytes sourceTopic) (bytes expectedSuffix) with
  | None => Some mismatch
  | Some namespace =>
      match Topic (of_bytes namespace)
              (descriptor_of (md_Kind metadata) (md_Name metadata) (md_SchemaVersion metadata)) with
      | Ok expected => if String.eqb expected sourceTopic then None else Some mismatch
      | Err _ => Some mismatch
      end
  end.
(** ** Segments *)
Definition segments (s : string) : list (list ascii) := split_on dot (bytes s).

Lemma segments_inj s t : segments s = segments t -> s = t.
Proof. intros H. by apply bytes_inj, (split_inj dot). Qed.

Lemma segments_dot s t : segments (s ++ "." ++ t) = (segments s ++ segments t)%list.
Proof. unfold segments. rewrite bytes_app. change (bytes ("." ++ t)) with (dot :: bytes t). apply split_app. Qed.

Lemma segments_plain s : dot ∉ bytes s -> segments s = [bytes s].
Proof. apply split_plain. Qed.

Lemma digits_no_dot n : 0 <= n -> dot ∉ digits n.
Proof.
  intros Hn Hin. destruct (bytes_Itoa n Hn) as (_ & _ & HF). rewrite Forall_forall in HF.
  destruct (digit_not dot (HF dot Hin)) as [Hne _]. done.
Qed.

(** A letter before a number is one segment. *)
Lemma segments_numbered c n : c <> dot -> 0 <= n -> segments (String c (Itoa n)) = [c :: digits n].
Proof.
  intros Hc Hn. assert (bytes (String c (Itoa n)) = c :: digits n) as Hb.
  { rewrite <- (proj1 (bytes_Itoa n Hn)). done. }
  rewrite segments_plain; rewrite Hb; [done|].
  rewrite not_elem_of_cons. split; [done|]. by apply digits_no_dot.
Qed.

Lemma append_assoc (a b c : string) : (a ++ b) ++ c = a ++ (b ++ c).
Proof. apply bytes_inj. by rewrite !bytes_app, app_assoc. Qed.

Lemma split_has (p : string -> bool) s : existsb p (Split s) = false -> Forall (fun x => p (of_bytes x) = false) (segments s).
Proof.
  unfold Split. fold (segments s). induction (segments s) as [|x l IH]; simpl; [done|].
  intros [H1 H2]%orb_false_iff. constructor; auto.
Qed.

Lemma segment_not (x : list ascii) (t : string) : String.eqb (of_bytes x) t = false -> x <> bytes t.
Proof. intros He ->. rewrite of_bytes_bytes, String.eqb_refl in He. done. Qed.

(** ** Source topics *)
Definition topic_text (namespace kind name : string) (version : Z) : string :=
  namespace ++ "." ++ kind ++ "." ++ name ++ ".v" ++ Itoa version.

Definition is_kind (x : list ascii) : Prop := x = bytes KindCommand \/ x = bytes KindEvent.
Definition is_service (x : list ascii) : Prop := x = bytes serviceSegment.
#[local] Instance is_kind_dec x : Decision (is_kind x).
Proof. unfold is_kind. apply _. Defined.

Lemma Topic_spec ns d t : Topic ns d = Ok t <->
  validateNamespace ns = None /\ (di_Kind d = KindCommand \/ di_Kind d = KindEvent) /\ di_Name d <> "" /\
  0 < di_SchemaVersion d /\ validateDescriptorName (di_Name d) = None /\
  t = topic_text ns (di_Kind d) (di_Name d) (di_SchemaVersion d) /\ validateTopicName t = None.
Proof.
  unfold Topic. fold (topic_text ns (di_Kind d) (di_Name d) (di_SchemaVersion d)).
  destruct (validateNamespace ns); [naive_solver|].
  destruct (String.eqb_spec (di_Kind d) KindCommand) as [Hc|Hc], (String.eqb_spec (di_Kind d) KindEvent) as [He|He],
    (String.eqb_spec (di_Name d) "") as [Hn|Hn], (Z.leb_spec (di_SchemaVersion d) 0); simpl;
    try (split; [done|intros (_ & ? & ? & ? & _); (lia || naive_solver)]).
  all: destruct (validateDescriptorName _); [naive_solver|].
  all: destruct (validateTopicName _) eqn:Hv; naive_solver.
Qed.

Lemma namespace_segments ns : validateNamespace ns = None ->
  Forall (fun x => ~ is_kind x) (segments ns) /\ Forall (fun x => ~ is_service x) (segments ns).
Proof.
  unfold validateNamespace. destruct (validateKafkaToken _ _); [done|]. destruct (existsb _ _) eqn:He; [done|]. intros _.
  apply split_has in He. split; eapply Forall_impl; try exact He; simpl; intros x Hx;
    apply orb_false_iff in Hx as [Hx Hs]; apply orb_false_iff in Hx as [Hc Hv].
  - intros [->| ->]; by eapply segment_not.
  - intros ->. by eapply segment_not.
Qed.

Lemma name_segments name : validateDescriptorName name = None -> Forall (fun x => ~ is_service x) (segments name).
Proof.
  unfold validateDescriptorName. destruct (existsb _ _) eqn:He; [done|]. intros _. apply split_has in He.
  eapply Forall_impl; [exact He|]. simpl. intros x Hx ->. by eapply segment_not.
Qed.

Lemma kind_plain kind : kind = KindCommand \/ kind = KindEvent -> segments kind = [bytes kind] /\ is_kind (bytes kind).
Proof. unfold is_kind. by intros [->| ->]; (split; [reflexivity|auto]). Qed.

Lemma topic_segments ns kind name version : kind = KindCommand \/ kind = KindEvent -> 0 < version ->
  segments (topic_text ns kind name version)
  = (segments ns ++ bytes kind :: (segments name ++ ["v"%char :: digits version]))%list.
Proof.
  intros Hk Hv. unfold topic_text. change (".v" ++ Itoa version) with ("." ++ (String "v" (Itoa version))).
  rewrite !segments_dot, (proj1 (kind_plain kind Hk)), segments_numbered by (done || lia). done.
Qed.

(** A source topic has no service segment. *)
Lemma topic_no_service ns d t : Topic ns d = Ok t -> Forall (fun x => ~ is_service x) (segments t).
Proof.
  intros (Hns & Hk & _ & Hv & Hn & -> & _)%Topic_spec. rewrite topic_segments by done.
  destruct (namespace_segments ns Hns) as [_ H1]. rewrite Forall_app, Forall_cons, Forall_app. split_and!; [done| |by apply name_segments|].
  - unfold is_service. by destruct Hk as [->| ->].
  - by constructor.
Qed.

Lemma topic_text_inj ns1 k1 n1 v1 ns2 k2 n2 v2 :
  (k1 = KindCommand \/ k1 = KindEvent) -> (k2 = KindCommand \/ k2 = KindEvent) -> 0 < v1 -> 0 < v2 ->
  validateNamespace ns1 = None -> validateNamespace ns2 = None ->
  topic_text ns1 k1 n1 v1 = topic_text ns2 k2 n2 v2 -> ns1 = ns2 /\ k1 = k2 /\ n1 = n2 /\ v1 = v2.
Proof.
  intros Hk1 Hk2 Hv1 Hv2 Hns1 Hns2 He. apply (f_equal segments) in He. rewrite !topic_segments in He by done.
  apply (first_cut is_kind) in He as (Hn & Hk & Hr);
    [|by apply kind_plain|by apply kind_plain|by apply namespace_segments|by apply namespace_segments].
  apply app_inj_tail in Hr as [Hm Hd]. split_and!; [by apply segments_inj|by apply bytes_inj|by apply segments_inj|].
  apply Itoa_inj; [lia|lia|]. apply bytes_inj. rewrite (proj1 (bytes_Itoa v1 ltac:(lia))), (proj1 (bytes_Itoa v2 ltac:(lia))).
  congruence.
Qed.

(** ** The parser finds the namespace at the first marker *)
Lemma marker_bytes kind : bytes ("." ++ kind ++ ".") = (dot :: bytes kind ++ [dot])%list.
Proof. rewrite !bytes_app. done. Qed.

Lemma marker_first ns kind tail : (kind = KindCommand \/ kind = KindEvent) ->
  Forall (fun x => ~ is_kind x) (segments ns) ->
  index_of (bytes ("." ++ kind ++ ".")) (bytes (ns ++ ("." ++ kind ++ ".") ++ tail)) = Some (List.length (bytes ns)).
Proof.
  intros Hk HF. rewrite (bytes_app ns), (bytes_app ("." ++ kind ++ ".")), marker_bytes. set (m := (dot :: bytes kind ++ [dot])%list).
  destruct (index_of_le m (bytes ns) (bytes tail)) as (i & Hi & Hle). rewrite Hi. f_equal.
  destruct (index_of_Some m _ i Hi) as (a & b & Hab & <-). apply Nat.le_antisymm; [done|].
  destruct (kind_plain kind Hk) as [Hkp Hks]. unfold segments in Hkp.
  assert (forall x y, split_on dot (x ++ m ++ y)%list = (split_on dot x ++ bytes kind :: split_on dot y)%list) as Hsp.
  { intros x y. unfold m. rewrite <- app_comm_cons, split_app. f_equal. rewrite <- app_assoc. simpl.
    rewrite split_app, Hkp. done. }
  pose proof (f_equal (split_on dot) Hab) as Hs. rewrite !Hsp in Hs. fold (segments ns) in Hs.
  destruct (decide (Exists is_kind (split_on dot a))) as [Hex|Hno].
  - rewrite <- (join_split dot a), <- (join_split dot (bytes ns)). fold (segments ns).
    clear -Hs Hex HF Hks. revert Hs Hex. generalize (split_on dot a) as sa, (split_on dot (bytes tail)) as st, (split_on dot b) as sb.
    intros sa st sb Hs Hex.
    assert (exists r, sa = (segments ns ++ r)%list) as [r ->]; [|apply join_with_length].
    clear -Hs Hex HF. revert sa Hs Hex. induction HF as [|x l Hx HF IH]; intros sa Hs Hex; [by exists sa|].
    destruct sa as [|y sa]; [by apply Exists_nil in Hex|]. simpl in Hs. injection Hs as -> Hs.
    destruct (IH sa Hs) as [r ->]; [|by exists r]. by apply Exists_cons in Hex as [?|?].
  - apply (first_cut is_kind) in Hs as (Heq & _); [|done|done|done|by apply Forall_Exists_neg in Hno].
    apply split_inj in Heq. by rewrite Heq.
Qed.
(** ** The parser is exact *)
Definition source_topic (value : string) : Prop :=
  exists ns d, di_SchemaVersion d <= maxInt64 /\ Topic ns d = Ok value.

Lemma source_at_sound kind value ns tail : source_at kind value ns tail = true -> source_topic value.
Proof.
  unfold source_at. destruct (last_index_of _ tail) as [vi|]; [|done]. destruct (0 <? vi)%nat; [|done].
  destruct (Atoi _) as [version|] eqn:Ha; [|done]. destruct (0 <? version); [|done].
  destruct (Topic _ _) as [expected|] eqn:Ht; [|done]. intros ->%String.eqb_eq.
  eexists _, _. split; [|exact Ht]. simpl. by apply (Atoi_range _ _ Ha).
Qed.

Lemma source_loop_sound fuel kind value offset : source_loop fuel kind value offset = true -> source_topic value.
Proof.
  revert offset. induction fuel as [|f IH]; intros offset; [done|]. cbn [source_loop].
  destruct (offset <? _)%nat; [|done]. destruct (index_of _ _) as [rel|]; [|done].
  destruct (source_at _ _ _ _) eqn:Hs; [|apply IH]. intros _. by eapply source_at_sound.
Qed.

Lemma version_text name v : 0 < v ->
  last_index_of (bytes ".v") (bytes (name ++ ".v" ++ Itoa v)) = Some (List.length (bytes name)) /\
  drop (List.length (bytes name) + 2) (bytes (name ++ ".v" ++ Itoa v)) = bytes (Itoa v).
Proof.
  intros Hv. rewrite !bytes_app. split.
  - rewrite (last_index_app _ (bytes name) _ 0), Nat.add_0_r; [done|].
    rewrite (proj1 (bytes_Itoa v ltac:(lia))).
    change (bytes ".v" ++ digits v)%list with (dot :: "v"%char :: digits v). cbn [last_index_of].
    pose proof (last_index_absent (bytes ".v") dot ("v"%char :: digits v) eq_refl) as Hn. cbn [last_index_of] in Hn.
    rewrite Hn; [done|]. rewrite not_elem_of_cons. split; [done|]. apply digits_no_dot. lia.
  - by rewrite <- drop_drop, drop_app_length.
Qed.

Lemma source_loop_complete ns d t : di_SchemaVersion d <= maxInt64 -> Topic ns d = Ok t ->
  source_loop (S (String.length t)) (di_Kind d) t 0 = true.
Proof.
  intros Hmax Ht. pose proof Ht as (Hns & Hk & Hn & Hv & _ & Hte & _)%Topic_spec. cbn [source_loop].
  set (tail := di_Name d ++ ".v" ++ Itoa (di_SchemaVersion d)).
  assert (t = ns ++ ("." ++ di_Kind d ++ ".") ++ tail) as Htext.
  { rewrite Hte. unfold topic_text, tail. by rewrite !append_assoc. }
  assert (0 <? List.length (bytes t) = true)%nat as ->.
  { rewrite Htext, !bytes_app, !length_app. apply Nat.ltb_lt. simpl. lia. }
  destruct (namespace_segments ns Hns) as [HF _].
  pose proof (marker_first ns (di_Kind d) tail Hk HF) as Hi. rewrite <- Htext in Hi.
  change (drop 0 (bytes t)) with (bytes t). rewrite Hi, Nat.add_0_l.
  assert (take (List.length (bytes ns)) (bytes t) = bytes ns) as ->.
  { rewrite Htext, bytes_app. apply take_app_length. }
  assert (drop (List.length (bytes ns) + List.length (bytes ("." ++ di_Kind d ++ "."))) (bytes t) = bytes tail) as ->.
  { rewrite Htext, (bytes_app ns), (bytes_app ("." ++ di_Kind d ++ ".") tail).
    by rewrite <- drop_drop, drop_app_length, drop_app_length. }
  destruct (version_text (di_Name d) (di_SchemaVersion d) Hv) as [H1 H2].
  unfold source_at. unfold tail. rewrite H1, H2, Atoi_Itoa by lia.
  assert (0 <? List.length (bytes (di_Name d)) = true)%nat as ->.
  { apply Nat.ltb_lt. rewrite length_bytes. destruct (di_Name d); [done|]. simpl. lia. }
  rewrite (proj2 (Z.ltb_lt 0 _) Hv), (bytes_app (di_Name d)), take_app_length, !of_bytes_bytes.
  assert (Topic ns (descriptor_of (di_Kind d) (di_Name d) (di_SchemaVersion d)) = Ok t) as ->.
  { apply Topic_spec. by apply Topic_spec in Ht. }
  by rewrite String.eqb_refl.
Qed.

Lemma validateSourceTopicName_exact value : validateSourceTopicName value = None <-> source_topic value.
Proof.
  unfold validateSourceTopicName. split.
  - destruct (existsb _ _) eqn:He; [|done]. intros _. apply existsb_exists in He as (kind & _ & Hl).
    by eapply source_loop_sound.
  - intros (ns & d & Hmax & Ht). pose proof Ht as (_ & Hk & _)%Topic_spec.
    pose proof (source_loop_complete ns d value Hmax Ht) as Hl.
    assert (existsb (fun kind => source_loop (S (String.length value)) kind value 0) [KindCommand; KindEvent] = true) as ->; [|done].
    apply existsb_exists. exists (di_Kind d). split; [|done]. destruct Hk as [->| ->]; [by left|by right; left].
Qed.

(** ** Service topics *)
Lemma consumerTopic_spec source c suffix t : consumerTopic source c suffix = Ok t ->
  source_topic source /\ t = source ++ serviceMarker ++ c ++ "." ++ suffix.
Proof.
  unfold consumerTopic. destruct (validateSourceTopicName source) eqn:Hs; [done|].
  destruct (validateConsumerID c); [done|]. destruct (validateTopicName _); [done|]. intros [= <-].
  by apply validateSourceTopicName_exact in Hs.
Qed.

Lemma service_segments source rest : segments (source ++ serviceMarker ++ rest)
  = (segments source ++ bytes serviceSegment :: segments rest)%list.
Proof.
  change (serviceMarker ++ rest) with ("." ++ ("gm" ++ ("." ++ rest))). by rewrite !segments_dot.
Qed.

Lemma service_inj s1 s2 r1 r2 : source_topic s1 -> source_topic s2 ->
  s1 ++ serviceMarker ++ r1 = s2 ++ serviceMarker ++ r2 -> s1 = s2 /\ segments r1 = segments r2.
Proof.
  intros (n1 & d1 & _ & H1) (n2 & d2 & _ & H2) He. apply (f_equal segments) in He. rewrite !service_segments in He.
  apply (first_cut is_service) in He as (Hs & _ & Hr); [|done|done|by eapply topic_no_service..].
  split; [by apply segments_inj|done].
Qed.

Inductive purpose : Type := Retry (tier : Z) | Replay | DLQ.
Definition service_topic (source c : string) (p : purpose) : result error string :=
  match p with
  | Retry tier => RetryTopic source c tier
  | Replay => ReplayTopic source c
  | DLQ => DLQTopic source c
  end.

Definition purpose_segments (p : purpose) : list (list ascii) * list ascii :=
  match p with
  | Retry tier => ([bytes "retry"], "t"%char :: digits tier)
  | Replay => ([], bytes "replay")
  | DLQ => ([], bytes "dlq")
  end.

Lemma service_topic_spec source c p t : service_topic source c p = Ok t ->
  source_topic source /\ match p with Retry tier => 0 <= tier | _ => True end /\
  exists rest, t = source ++ serviceMarker ++ rest /\
    segments rest = (segments c ++ (purpose_segments p).1 ++ [(purpose_segments p).2])%list.
Proof.
  destruct p as [tier| |]; simpl; unfold RetryTopic, ReplayTopic, DLQTopic.
  - destruct (Z.ltb_spec tier 0); [done|]. intros [Hs ->]%consumerTopic_spec. split_and!; [done|lia|]. eexists. split; [done|].
    change ("retry.t" ++ Itoa tier) with ("retry" ++ ("." ++ String "t" (Itoa tier))).
    by rewrite !segments_dot, segments_numbered.
  - intros [Hs ->]%consumerTopic_spec. split_and!; [done..|]. eexists. split; [done|]. by rewrite segments_dot.
  - intros [Hs ->]%consumerTopic_spec. split_and!; [done..|]. eexists. split; [done|]. by rewrite segments_dot.
Qed.

Lemma purpose_cut c1 c2 p1 p2 :
  match p1 with Retry tier => 0 <= tier | _ => True end -> match p2 with Retry tier => 0 <= tier | _ => True end ->
  (c1 ++ (purpose_segments p1).1 ++ [(purpose_segments p1).2])%list
  = (c2 ++ (purpose_segments p2).1 ++ [(purpose_segments p2).2])%list -> c1 = c2 /\ p1 = p2.
Proof.
  intros H1 H2 He. rewrite !app_assoc in He. apply app_inj_tail in He as [Hc Hl].
  destruct p1 as [t1| |], p2 as [t2| |]; simpl in *; try discriminate Hl; rewrite ?app_nil_r in Hc; try done.
  apply app_inj_tail in Hc as [-> _]. split; [done|]. f_equal. apply Itoa_inj; [done..|]. apply bytes_inj.
  rewrite (proj1 (bytes_Itoa t1 H1)), (proj1 (bytes_Itoa t2 H2)). congruence.
Qed.

Lemma service_topic_inj s1 c1 p1 s2 c2 p2 t :
  service_topic s1 c1 p1 = Ok t -> service_topic s2 c2 p2 = Ok t -> s1 = s2 /\ c1 = c2 /\ p1 = p2.
Proof.
  intros (Hs1 & Hp1 & r1 & Ht1 & Hr1)%service_topic_spec (Hs2 & Hp2 & r2 & Ht2 & Hr2)%service_topic_spec.
  assert (s1 = s2 /\ segments r1 = segments r2) as [-> Hr] by (apply service_inj; congruence).
  rewrite Hr1, Hr2 in Hr. apply purpose_cut in Hr as [Hc ->]; [|done..]. by apply segments_inj in Hc as ->.
Qed.

Lemma service_not_source source c p t : service_topic source c p = Ok t -> is_Some (validateSourceTopicName t).
Proof.
  intros (_ & _ & rest & -> & _)%service_topic_spec. destruct (validateSourceTopicName _) eqn:Hv; [eauto|].
  apply validateSourceTopicName_exact in Hv as (ns & d & _ & Ht). apply topic_no_service in Ht.
  rewrite service_segments, Forall_app, Forall_cons in Ht. destruct Ht as (_ & Hno & _). by destruct Hno.
Qed.

(** ** Transactional identifiers *)
#[local] Opaque Sha256.Sum256.
Lemma identifier_no_nul role v : validateKafkaIdentifier role v = None -> Ascii.zero ∉ bytes v.
Proof.
  unfold validateKafkaIdentifier. destruct (_ || _ || _); [done|].
  destruct (forallb _ _) eqn:Hf; [|done]. intros _ Hin. rewrite forallb_forall in Hf.
  apply list_elem_of_In, Hf in Hin. done.
Qed.

Lemma preimage_inj g1 i1 w1 g2 i2 w2 :
  Ascii.zero ∉ bytes g1 -> Ascii.zero ∉ bytes i1 -> Ascii.zero ∉ bytes g2 -> Ascii.zero ∉ bytes i2 ->
  0 <= w1 -> 0 <= w2 -> transaction_preimage g1 i1 w1 = transaction_preimage g2 i2 w2 ->
  g1 = g2 /\ i1 = i2 /\ w1 = w2.
Proof.
  intros Hg1 Hi1 Hg2 Hi2 Hw1 Hw2 He.
  assert (forall g i w, Ascii.zero ∉ bytes g -> Ascii.zero ∉ bytes i -> 0 <= w ->
    split_on Ascii.zero (bytes (transaction_preimage g i w)) = [bytes g; bytes i; bytes (Itoa w)]) as Hs.
  { intros g i w Hg Hi Hw. unfold transaction_preimage. rewrite bytes_app.
    change (bytes (String Ascii.zero "" ++ ?x)) with (Ascii.zero :: bytes x). rewrite split_app, split_plain by done.
    rewrite bytes_app. change (bytes (String Ascii.zero "" ++ ?x)) with (Ascii.zero :: bytes x).
    rewrite split_app, split_plain by done. rewrite split_plain; [done|].
    destruct (bytes_Itoa w Hw) as (-> & _ & HF). intros Hin. rewrite Forall_forall in HF.
    destruct (digit_not _ (HF _ Hin)) as (_ & _ & _ & Hz). done. }
  apply (f_equal bytes), (f_equal (split_on Ascii.zero)) in He. rewrite !Hs in He by done.
  injection He as H1 H2 H3. split_and!; [by apply bytes_inj..|]. apply Itoa_inj; [done..|]. by apply bytes_inj.
Qed.

Lemma transactionalID_spec g i w t : transactionalID g i w = Ok t ->
  0 <= w /\ Ascii.zero ∉ bytes g /\ Ascii.zero ∉ bytes i /\
  t = transactionIDPrefix ++ of_bytes (bytes (Sha256.Sum256 (transaction_preimage g i w)) ≫= hex_byte) ++ ".w" ++ Itoa w.
Proof.
  unfold transactionalID, validateInstanceID. destruct (Z.ltb_spec w 0); [done|].
  destruct (validateKafkaIdentifier _ g) eqn:Hg; [done|]. destruct (validateKafkaIdentifier _ i) eqn:Hi; [done|].
  case_goal; [done|]. intros Ht%Ok_inj.
  split_and!; [done|by eapply identifier_no_nul..|by symmetry].
Qed.

(** The digest can be read off an identifier. *)
Lemma digest_of_identifier d1 d2 r1 r2 : String.length d1 = 32%nat -> String.length d2 = 32%nat ->
  transactionIDPrefix ++ of_bytes (bytes d1 ≫= hex_byte) ++ r1 = transactionIDPrefix ++ of_bytes (bytes d2 ≫= hex_byte) ++ r2 ->
  d1 = d2.
Proof.
  intros H1 H2 He. apply (f_equal bytes) in He. rewrite !bytes_app, !bytes_of_bytes in He. apply app_inv_head in He.
  apply app_inj_1 in He as [He _]; [|by rewrite !length_hex, !length_bytes, H1, H2].
  apply (f_equal hex_decode) in He. rewrite !hex_decode_encode in He. injection He as He. by apply bytes_inj.
Qed.

(** ** Main theorems *)

(** The source-topic check is an exact, unambiguous parser: a name is
    accepted exactly when [Topic] gives it for some namespace and descriptor,
    and then namespace, kind, descriptor name and version are determined by the
    name, although namespaces and names may contain dots and names may contain
    kind and version segments. *)
Theorem source_topics_exact value :
  (validateSourceTopicName value = None <->
   exists ns d, di_SchemaVersion d <= maxInt64 /\ Topic ns d = Ok value) /\
  forall ns1 d1 ns2 d2, Topic ns1 d1 = Ok value -> Topic ns2 d2 = Ok value ->
    ns1 = ns2 /\ di_Kind d1 = di_Kind d2 /\ di_Name d1 = di_Name d2 /\
    di_SchemaVersion d1 = di_SchemaVersion d2.
Proof.
  split; [apply validateSourceTopicName_exact|]. intros ns1 d1 ns2 d2.
  intros (Hn1 & Hk1 & _ & Hv1 & _ & -> & _)%Topic_spec (Hn2 & Hk2 & _ & Hv2 & _ & He & _)%Topic_spec.
  by apply topic_text_inj.
Qed.

(** Service names never meet: retry, replay and dead-letter topics of
    different sources, consumers, purposes or tiers are different topics, none
    of them is a source topic, and consumer groups of different sources or
    consumers are different groups, whatever dots the consumer identifiers
    contain. *)
Theorem service_names_disjoint s1 c1 p1 s2 c2 p2 t1 t2 g1 g2 :
  service_topic s1 c1 p1 = Ok t1 -> service_topic s2 c2 p2 = Ok t2 ->
  ConsumerGroup s1 c1 = Ok g1 -> ConsumerGroup s2 c2 = Ok g2 ->
  (t1 = t2 -> s1 = s2 /\ c1 = c2 /\ p1 = p2) /\ (g1 = g2 -> s1 = s2 /\ c1 = c2) /\
  is_Some (validateSourceTopicName t1).
Proof.
  intros H1 H2 Hg1 Hg2. split_and!.
  - intros ->. by eapply service_topic_inj.
  - apply service_topic_spec in H1 as (Hs1 & _). apply service_topic_spec in H2 as (Hs2 & _).
    unfold ConsumerGroup in Hg1, Hg2. destruct (validateSourceTopicName s1), (validateSourceTopicName s2),
      (validateConsumerID c1), (validateConsumerID c2); try done.
    case_in Hg1; [done|]. case_in Hg2; [done|]. apply Ok_inj in Hg1 as <-. apply Ok_inj in Hg2 as <-.
    intros [-> Hr]%service_inj; [|done..]. by apply segments_inj in Hr as ->.
  - by eapply service_not_source.
Qed.

(** Two workers share a transactional identifier only when group, instance
    and worker index are equal, unless the two distinct byte strings that were
    hashed collide under SHA-256; so the fencing of one worker's transactions
    cannot hit another worker. *)
Theorem transactionalID_separates g1 i1 w1 g2 i2 w2 t :
  transactionalID g1 i1 w1 = Ok t -> transactionalID g2 i2 w2 = Ok t ->
  (g1 = g2 /\ i1 = i2 /\ w1 = w2) \/
  (transaction_preimage g1 i1 w1 <> transaction_preimage g2 i2 w2 /\
   Sha256.Sum256 (transaction_preimage g1 i1 w1) = Sha256.Sum256 (transaction_preimage g2 i2 w2)).
Proof.
  intros (Hw1 & Hg1 & Hi1 & ->)%transactionalID_spec (Hw2 & Hg2 & Hi2 & He)%transactionalID_spec.
  apply digest_of_identifier in He; [|apply Sha256.length_Sum256..].
  destruct (decide (transaction_preimage g1 i1 w1 = transaction_preimage g2 i2 w2)) as [Hp|Hp]; [left|by right].
  by apply preimage_inj.
Qed.

(** A record is accepted on a source topic exactly when the topic is the one
    that [Topic] gives, for some namespace, for the kind, name and version of the
    envelope. *)
Theorem sourceTopicMatchesMetadata_spec topic md :
  sourceTopicMatchesMetadata topic md = None <->
  exists ns, Topic ns (descriptor_of (md_Kind md) (md_Name md) (md_SchemaVersion md)) = Ok topic.
Proof.
  unfold sourceTopicMatchesMetadata. split.
  - destruct (cut_suffix _ _) as [ns|]; [|done]. destruct (Topic _ _) as [e|] eqn:Ht; [|done].
    destruct (String.eqb_spec e topic) as [->|]; [|done]. eauto.
  - intros [ns Ht]. pose proof Ht as (_ & _ & _ & _ & _ & He & _)%Topic_spec. simpl in He.
    assert (cut_suffix (bytes topic) (bytes ("." ++ md_Kind md ++ "." ++ md_Name md ++ ".v" ++ Itoa (md_SchemaVersion md)))
      = Some (bytes ns)) as ->.
    { apply cut_suffix_Some. rewrite He. unfold topic_text. apply bytes_app. }
    by rewrite of_bytes_bytes, Ht, String.eqb_refl.
Qed.

(** ** Concrete instances *)
Lemma service_names_disjoint_witness :
  DLQTopic "shop.event.order.v1" "a.retry" = Ok "shop.event.order.v1.gm.a.retry.dlq" /\
  RetryTopic "shop.event.order.v1" "a" 0 = Ok "shop.event.order.v1.gm.a.retry.t0" /\
  is_Some (validateSourceTopicName "shop.event.order.v1.gm.a.retry.dlq").
Proof.
  split_and!; [vm_compute; reflexivity..|].
  destruct (service_names_disjoint "shop.event.order.v1" "a.retry" DLQ "shop.event.order.v1" "a" (Retry 0)
    "shop.event.order.v1.gm.a.retry.dlq" "shop.event.order.v1.gm.a.retry.t0"
    "shop.event.order.v1.gm.a.retry" "shop.event.order.v1.gm.a"
    ltac:(vm_compute; reflexivity) ltac:(vm_compute; reflexivity)
    ltac:(vm_compute; reflexivity) ltac:(vm_compute; reflexivity)) as (_ & _ & Hv).
  exact Hv.
Defined.

Lemma transactionalID_separates_witness :
  let t := "gm.tx.v1.4279299cab58334dc7d05b5c884aee6df250ec4aa99ffc26d502eaa2b034c976.w2" in
  transactionalID "g" "i" 2 = Ok t /\
  (("g" = "g" /\ "i" = "i" /\ 2 = 2) \/
   (transaction_preimage "g" "i" 2 <> transaction_preimage "g" "i" 2 /\
    Sha256.Sum256 (transaction_preimage "g" "i" 2) = Sha256.Sum256 (transaction_preimage "g" "i" 2))).
Proof.
  assert (transactionalID "g" "i" 2
    = Ok "gm.tx.v1.4279299cab58334dc7d05b5c884aee6df250ec4aa99ffc26d502eaa2b034c976.w2") as Ht
    by (vm_compute; reflexivity).
  split; [exact Ht|]. exact (transactionalID_separates "g" "i" 2 "g" "i" 2 _ Ht Ht).
Defined.

(** Dots and reserved words inside a descriptor name do not confuse the parser. *)
Example source_topic_example :
  validateSourceTopicName "shop.event.order.event.created.v2.v13" = None /\
  is_Some (validateSourceTopicName "shop.event.v13").
Proof. split; [vm_compute; reflexivity|eexists; vm_compute; reflexivity]. Qed.
End KafkaTopic.
