(* ===== verification/KafkaControl.v ===== *)
(** * Control headers and dead letters of the Kafka adapter

    Models [adapters/kafka/control.go] (the position, attempt and schedule that a
    retried record carries in its headers) and the dead-letter records of
    [adapters/kafka/dlq.go], with the failure text of [failure.go].

    Parameters: [strings.ToLower], [time.Time.Format] and [time.Parse] with the
    layout RFC3339Nano, and [json.Marshal] of a dead letter.  What is used of them
    is stated where it is used. *)
From S2P Require Import Prelude GoStrings GoText Digest Errors Backoff Ident Batch KafkaTopic.
From Stdlib Require Import Ascii.
Import Stdlib.Strings.String.
Import Sha256 Base64 KafkaTopic.
Open Scope string_scope.
Open Scope Z_scope.

Module KafkaControl.

Definition headerSourceTopic : string := "gomessenger-source-topic".
Definition headerSourcePartition : string := "gomessenger-source-partition".
Definition headerSourceOffset : string := "gomessenger-source-offset".
Definition headerAttempt : string := "gomessenger-attempt".
Definition headerNotBefore : string := "gomessenger-not-before".
Definition headerAttemptGeneration : string := "gomessenger-attempt-generation".
Definition replayIDPrefix : string := "gm-replay-".

Definition reservedHeaders : list string :=
  [headerSourceTopic; headerSourcePartition; headerSourceOffset; headerAttempt; headerNotBefore; headerAttemptGeneration].

Record sourcePosition := { sp_topic : string; sp_partition : Z; sp_offset : Z }.
Record controlMetadata := {
  cm_source : sourcePosition;
  cm_attempt : Z;
  cm_notBefore : Time;
  cm_attemptGeneration : string }.

(** [kgo.Record] as far as it is used. *)
Record record := {
  r_Topic : string;
  r_Partition : Z;
  r_Offset : Z;
  r_LeaderEpoch : Z;
  r_Key : string;
  r_Value : string;
  r_Headers : list (string * string);
  r_Timestamp : Time }.

Definition invalid_message (label : string) : error := wrapS ErrInvalidMessage label.

Definition sourceControl (r : record) : controlMetadata :=
  {| cm_source := {| sp_topic := r_Topic r; sp_partition := r_Partition r; sp_offset := r_Offset r |};
     cm_attempt := 0; cm_notBefore := 0; cm_attemptGeneration := "" |}.

(** ** Numbers *)

(** [strconv.ParseInt(s, 10, 32)] *)
Definition ParseInt32 (s : string) : option Z :=
  match Atoi (bytes s) with
  | Some n => if (- 2 ^ 31 <=? n) && (n <? 2 ^ 31) then Some n else None
  | None => None
  end.
(** [strconv.ParseInt(s, 10, 64)] *)
Definition ParseInt64 (s : string) : option Z := Atoi (bytes s).
(** [strconv.ParseUint(s, 10, 64)]: digits only. *)
Definition ParseUint64 (s : string) : option Z :=
  match bytes s with
  | [] => None
  | l => match parse_digits 0 l with
         | Some n => if n <=? maxUint64 then Some n else None
         | None => None
         end
  end.

Section Control.
Context (ToLower : string -> string) (formatTime : Time -> string) (parseTime : string -> option Time).

Definition reserved (key : string) : bool := existsb (String.eqb key) reservedHeaders.

(** ** Decoding *)
Fixpoint collect_headers (headers : list (string * string)) (values : gmap string string)
  : result error (gmap string string) :=
  match headers with
  | [] => Ok values
  | (k, v) :: rest =>
      let key := ToLower k in
      if negb (reserved key) then Err (invalid_message "unexpected Kafka record header")
      else match values !! key with
      | Some _ => Err (invalid_message "duplicate Kafka record header")
      | None =>
          if 512 <? len v then Err (invalid_message "Kafka control header is too large")
          else collect_headers rest (<[key := v]> values)
      end
  end.

(** A missing entry reads as the empty string. *)
Definition value_of (values : gmap string string) (key : string) : string := default "" (values !! key).

Definition required_headers : list string := [headerSourceTopic; headerSourcePartition; headerSourceOffset; headerAttempt].

Definition decodeControlHeaders (headers : list (string * string)) : result error controlMetadata :=
  match collect_headers headers ∅ with
  | Err e => Err e
  | Ok values =>
      if existsb (fun h => String.eqb (value_of values h) "") required_headers
      then Err (invalid_message "missing Kafka control header")
      else match validateTopicName (value_of values headerSourceTopic) with
      | Some e => Err e
      | None =>
          match ParseInt32 (value_of values headerSourcePartition) with
          | None => Err (invalid_message "invalid source partition")
          | Some partition =>
              if partition <? 0 then Err (invalid_message "invalid source partition")
              else match ParseInt64 (value_of values headerSourceOffset) with
              | None => Err (invalid_message "invalid source offset")
              | Some offset =>
                  if offset <? 0 then Err (invalid_message "invalid source offset")
                  else match ParseUint64 (value_of values headerAttempt) with
                  | None => Err (invalid_message "invalid handler attempt")
                  | Some attempt =>
                      let value := value_of values headerNotBefore in
                      match (if String.eqb value "" then Some 0 else parseTime value) with
                      | None => Err (invalid_message "invalid retry not-before")
                      | Some notBefore =>
                          let generation := value_of values headerAttemptGeneration in
                          if negb (String.eqb (TrimSpace generation) generation) || (128 <? len generation)
                          then Err (invalid_message "invalid attempt generation")
                          else Ok {| cm_source := {| sp_topic := value_of values headerSourceTopic;
                                                     sp_partition := partition; sp_offset := offset |};
                                     cm_attempt := attempt; cm_notBefore := UTC notBefore;
                                     cm_attemptGeneration := generation |}
                      end
                  end
              end
          end
      end
  end.

Definition parseControl (r : option record) (sourceTopic replayTopic : string) (retryTopics : list string)
  : result error controlMetadata :=
  match r with
  | None => Err (invalid_message "nil Kafka record")
  | Some r =>
      if String.eqb (r_Topic r) sourceTopic then
        if existsb (fun h => reserved (ToLower h.1)) (r_Headers r)
        then Err (invalid_message "reserved control header on source topic")
        else Ok (sourceControl r)
      else if String.eqb (r_Topic r) replayTopic then
        match decodeControlHeaders (r_Headers r) with
        | Err e => Err e
        | Ok metadata =>
            if String.prefix replayIDPrefix (cm_attemptGeneration metadata) then Ok metadata
            else Err (invalid_message "replay has no valid attempt generation")
        end
      else if negb (existsb (String.eqb (r_Topic r)) retryTopics)
      then Err (invalid_message "unexpected consumer topic")
      else decodeControlHeaders (r_Headers r)
  end.

(** ** Encoding *)
Definition controlHeaders (m : controlMetadata) : list (string * string) :=
  ([(headerSourceTopic, sp_topic (cm_source m)); (headerSourcePartition, Itoa (sp_partition (cm_source m)));
    (headerSourceOffset, Itoa (sp_offset (cm_source m))); (headerAttempt, Itoa (cm_attempt m))]
   ++ (if IsZero (cm_notBefore m) then [] else [(headerNotBefore, formatTime (UTC (cm_notBefore m)))])
   ++ (if String.eqb (cm_attemptGeneration m) "" then [] else [(headerAttemptGeneration, cm_attemptGeneration m)]))%list.

(** ** Round trip *)

(** What a control header can say. *)
Definition control_wf (m : controlMetadata) : Prop :=
  validateTopicName (sp_topic (cm_source m)) = None /\ 0 <= sp_partition (cm_source m) < 2 ^ 31 /\
  0 <= sp_offset (cm_source m) <= maxInt64 /\ 0 <= cm_attempt m <= maxUint64 /\
  TrimSpace (cm_attemptGeneration m) = cm_attemptGeneration m /\ len (cm_attemptGeneration m) <= 128.

Hypothesis lower_reserved : forall h, h ∈ reservedHeaders -> ToLower h = h.
(** RFC 3339 has four-digit years.  Times count nanoseconds from the first of
    January of year one; the years 1 to 9999 have 9999 * 365 days and the leap days
    of the Gregorian calendar: every fourth year, but not every hundredth, but
    every four hundredth. *)
Definition year_10000 : Time := (9999 * 365 + 2499 - 99 + 24) * 24 * 60 * Minute.
Hypothesis time_roundtrip : forall t, 0 < t < year_10000 ->
  parseTime (formatTime t) = Some t /\ formatTime t <> "" /\ len (formatTime t) <= 512.

Lemma digits_length f n acc : (List.length (digits_fuel f n acc) <= f + List.length acc)%nat.
Proof. revert n acc. induction f as [|f IH]; intros n acc; [done|]. cbn. case_goal; [cbn; lia|]. etrans; [apply IH|]. cbn. lia. Qed.

Lemma len_Itoa n : 0 <= n <= maxUint64 -> len (Itoa n) <= 512 /\ Itoa n <> "".
Proof.
  intros Hn. destruct (bytes_Itoa n ltac:(lia)) as (E & Hne & _). unfold len. rewrite <- length_bytes, E. split.
  - unfold digits. pose proof (digits_length (S (Z.to_nat (Z.log2 n))) n []) as Hl. cbn [List.length] in Hl.
    assert (Z.log2 n < 64) by (destruct (decide (n = 0)) as [->|]; [done|]; apply Z.log2_lt_pow2; unfold maxUint64 in *; lia). lia.
  - intros H. apply Hne. by rewrite <- E, H.
Qed.

Lemma ParseInt64_Itoa n : 0 <= n <= maxInt64 -> ParseInt64 (Itoa n) = Some n.
Proof. apply Atoi_Itoa. Qed.
Lemma ParseInt32_Itoa n : 0 <= n < 2 ^ 31 -> ParseInt32 (Itoa n) = Some n.
Proof.
  intros Hn. unfold ParseInt32. rewrite Atoi_Itoa by (unfold maxInt64; lia).
  by rewrite (proj2 (Z.leb_le _ _)), (proj2 (Z.ltb_lt _ _)) by lia.
Qed.
Lemma ParseUint64_Itoa n : 0 <= n <= maxUint64 -> ParseUint64 (Itoa n) = Some n.
Proof.
  intros Hn. unfold ParseUint64. destruct (bytes_Itoa n ltac:(lia)) as (-> & Hne & _).
  destruct (digits n) as [|c l] eqn:E; [done|]. rewrite <- E, parse_digits_digits by lia.
  by rewrite (proj2 (Z.leb_le _ _)) by lia.
Qed.

(** Headers with distinct reserved names are collected as they are. *)
Lemma collect_headers_app l values :
  (forall k v, (k, v) ∈ l -> k ∈ reservedHeaders /\ len v <= 512 /\ values !! k = None) -> NoDup (List.map fst l) ->
  collect_headers l values = Ok (fold_left (fun m p => <[p.1 := p.2]> m) l values).
Proof.
  revert values. induction l as [|[k v] l IH]; intros values Hl Hnd; [done|]. cbn [collect_headers fold_left List.map] in *.
  inversion Hnd as [|? ? Hk Hnd']; subst. destruct (Hl k v) as (Hr & Hv & Hn); [by left|].
  rewrite lower_reserved by done.
  assert (reserved k = true) as -> by (apply existsb_exists; exists k; split; [by apply list_elem_of_In|apply String.eqb_refl]).
  rewrite Hn, (proj2 (Z.ltb_ge _ _)) by lia. cbn. apply IH; [|done]. intros k' v' Hin.
  destruct (Hl k' v') as (? & ? & ?); [by right|]. split_and!; [done..|]. rewrite lookup_insert_ne; [done|].
  intros ->. apply Hk. apply list_elem_of_In, in_map_iff. exists (k', v'). split; [done|]. by apply list_elem_of_In.
Qed.

(** The value under a name. *)
Fixpoint assoc (k : string) (l : list (string * string)) : option string :=
  match l with
  | [] => None
  | (k', v) :: l => if String.eqb k' k then Some v else assoc k l
  end.

Lemma assoc_None k l : k ∉ List.map fst l -> assoc k l = None.
Proof.
  induction l as [|[k' v] l IH]; [done|]. cbn. intros [Hne Hn]%not_elem_of_cons.
  destruct (String.eqb_spec k' k); [congruence|auto].
Qed.

Lemma fold_insert_assoc l (m : gmap string string) k : NoDup (List.map fst l) ->
  fold_left (fun m p => <[p.1 := p.2]> m) l m !! k = match assoc k l with Some v => Some v | None => m !! k end.
Proof.
  revert m. induction l as [|[k' v] l IH]; intros m Hnd; [done|]. cbn [fold_left assoc List.map fst snd] in *.
  inversion Hnd as [|? ? Hk Hnd']; subst. rewrite IH by done. destruct (String.eqb_spec k' k) as [->|Hne].
  - rewrite assoc_None by done. apply lookup_insert_eq.
  - by rewrite lookup_insert_ne.
Qed.

Lemma validateTopicName_len t : validateTopicName t = None -> len t <= 249 /\ t <> "".
Proof.
  unfold validateTopicName, validateKafkaIdentifier, maxKafkaNameBytes. intros H.
  destruct (_ || _ || _) eqn:E; [done|]. bool_simpl. split; [lia|]. by intros ->.
Qed.

Lemma controlHeaders_ok m k v : control_wf m -> 0 <= cm_notBefore m < year_10000 ->
  (k, v) ∈ controlHeaders m -> k ∈ reservedHeaders /\ len v <= 512.
Proof.
  intros (H1 & H2 & H3 & H4 & _ & H5) Ht Hin. apply validateTopicName_len in H1 as [H1 _]. unfold controlHeaders in Hin.
  assert (forall n, 0 <= n <= maxUint64 -> len (Itoa n) <= 512) as Hi by (intros; by apply len_Itoa).
  rewrite !elem_of_app in Hin. unfold reservedHeaders, maxInt64, maxUint64 in *. destruct Hin as [Hin|[Hin|Hin]].
  - repeat (apply elem_of_cons in Hin as [[= -> ->]|Hin]; [split; [set_solver|first [lia|apply Hi; lia]]|]). by apply elem_of_nil in Hin.
  - unfold IsZero in Hin. destruct (Z.eqb_spec (cm_notBefore m) 0); [by apply elem_of_nil in Hin|].
    apply elem_of_cons in Hin as [[= -> ->]|[]%elem_of_nil]. split; [set_solver|apply time_roundtrip; unfold UTC; lia].
  - destruct (String.eqb _ _); [by apply elem_of_nil in Hin|]. apply elem_of_cons in Hin as [[= -> ->]|[]%elem_of_nil].
    split; [set_solver|lia].
Qed.

Lemma controlHeaders_NoDup m : NoDup (List.map fst (controlHeaders m)).
Proof.
  unfold controlHeaders. destruct (IsZero _), (String.eqb _ _); apply (bool_decide_unpack _); vm_compute; exact I.
Qed.

Lemma control_decode_encode m : control_wf m -> 0 <= cm_notBefore m < year_10000 -> decodeControlHeaders (controlHeaders m) = Ok m.
Proof.
  intros Hwf Ht. pose proof Hwf as (H1 & H2 & H3 & H4 & H5 & H6). unfold decodeControlHeaders.
  rewrite collect_headers_app; [|intros k v Hin; destruct (controlHeaders_ok m k v Hwf Ht Hin); split_and!; [done..|apply lookup_empty]|
    apply controlHeaders_NoDup].
  set (values := fold_left _ _ _).
  assert (forall k, value_of values k = default "" (assoc k (controlHeaders m))) as Hv.
  { intros k. unfold value_of, values. rewrite fold_insert_assoc by apply controlHeaders_NoDup.
    destruct (assoc k _); [done|]. by rewrite lookup_empty. }
  clearbody values.
  assert (value_of values headerSourceTopic = sp_topic (cm_source m)) as V1 by (by rewrite Hv).
  assert (value_of values headerSourcePartition = Itoa (sp_partition (cm_source m))) as V2 by (by rewrite Hv).
  assert (value_of values headerSourceOffset = Itoa (sp_offset (cm_source m))) as V3 by (by rewrite Hv).
  assert (value_of values headerAttempt = Itoa (cm_attempt m)) as V4 by (by rewrite Hv).
  assert (value_of values headerNotBefore = if IsZero (cm_notBefore m) then "" else formatTime (cm_notBefore m)) as V5.
  { rewrite Hv. unfold controlHeaders, UTC. by destruct (IsZero (cm_notBefore m)), (String.eqb (cm_attemptGeneration m) ""). }
  assert (value_of values headerAttemptGeneration = cm_attemptGeneration m) as V6.
  { rewrite Hv. unfold controlHeaders.
    destruct (IsZero (cm_notBefore m)), (String.eqb_spec (cm_attemptGeneration m) "") as [->|]; done. }
  clear Hv. apply validateTopicName_len in H1 as Hlen. destruct Hlen as [_ Hne].
  cbn [required_headers existsb]. rewrite V1, V2, V3, V4, V5, V6. clear V1 V2 V3 V4 V5 V6.
  apply String.eqb_neq in Hne. rewrite Hne.
  rewrite !(proj2 (String.eqb_neq (Itoa _) "")) by (apply len_Itoa; unfold maxUint64, maxInt64 in *; lia). cbn [orb].
  rewrite H1, ParseInt32_Itoa, ParseInt64_Itoa, ParseUint64_Itoa, H5, String.eqb_refl by done.
  rewrite !(proj2 (Z.ltb_ge _ _)) by lia. cbn [negb orb].
  unfold UTC, IsZero. destruct (Z.eqb_spec (cm_notBefore m) 0) as [E|E]; [cbn; destruct m as [[] ? ? ?]; cbn in *; by subst|].
  destruct (time_roundtrip (cm_notBefore m) ltac:(lia)) as (T1 & T2 & _). apply String.eqb_neq in T2.
  rewrite T2, T1. by destruct m as [[] ? ? ?].
Qed.

Lemma Atoi_of_range s n : ParseInt64 s = Some n -> - maxInt64 - 1 <= n <= maxInt64.
Proof. apply Atoi_range. Qed.
Lemma parse_digits_nonneg l acc n : 0 <= acc -> parse_digits acc l = Some n -> 0 <= n.
Proof.
  revert acc. induction l as [|c l IH]; cbn; intros acc Ha H; [congruence|].
  destruct (is_digit c) eqn:E; [|done]. unfold is_digit, in_range in E. bool_simpl. eapply IH; [|exact H]. lia.
Qed.

Lemma decode_wf headers m : decodeControlHeaders headers = Ok m -> control_wf m.
Proof.
  unfold decodeControlHeaders. intros H.
  destruct (collect_headers headers ∅) as [values|]; [|done]. destruct (existsb _ _); [done|].
  destruct (validateTopicName _) eqn:E1; [done|].
  destruct (ParseInt32 _) as [partition|] eqn:E2; [|done]. destruct (Z.ltb_spec partition 0); [done|].
  destruct (ParseInt64 _) as [offset|] eqn:E3; [|done]. destruct (Z.ltb_spec offset 0); [done|].
  destruct (ParseUint64 _) as [attempt|] eqn:E4; [|done].
  destruct (if String.eqb _ _ then _ else _) as [t|]; [|done]. destruct (_ || _) eqn:E5; [done|]. bool_simpl.
  apply Ok_inj in H as <-. apply Atoi_of_range in E3.
  unfold ParseInt32 in E2. destruct (Atoi _) as [p|]; [|done]. destruct (_ && _) eqn:E6; [|done]. bool_simpl. injection E2 as ->.
  unfold ParseUint64 in E4. destruct (bytes (value_of values headerAttempt)) as [|c l]; [done|].
  destruct (parse_digits 0 (c :: l)) as [n|] eqn:E7; [|done]. apply parse_digits_nonneg in E7; [|lia].
  destruct (Z.leb_spec n maxUint64); [|done]. injection E4 as ->.
  unfold control_wf. cbn. split_and!; try lia; [done|]. by apply String.eqb_eq.
Qed.

(** A retried record's control headers decode to exactly the position,
    attempt, schedule and generation they were made from, and decoding accepts
    only well-formed control data. *)
Theorem control_roundtrip m :
  (control_wf m -> 0 <= cm_notBefore m < year_10000 -> decodeControlHeaders (controlHeaders m) = Ok m) /\
  (forall headers, decodeControlHeaders headers = Ok m -> control_wf m).
Proof.
  split; [apply control_decode_encode|]. intros headers. apply decode_wf.
Qed.
End Control.

(** A position that has been retried twice. *)
Definition demo_control : controlMetadata :=
  {| cm_source := {| sp_topic := "shop.event.order.paid.v2"; sp_partition := 3; sp_offset := 41 |}; cm_attempt := 2;
     cm_notBefore := 1000; cm_attemptGeneration := "" |}.
(** Times as decimal numbers. *)
Definition demo_parse (s : string) : option Time := parse_digits 0 (bytes s).

Lemma demo_time t : 0 < t < year_10000 -> demo_parse (Itoa t) = Some t /\ Itoa t <> "" /\ len (Itoa t) <= 512.
Proof.
  intros Ht. unfold demo_parse, len. rewrite <- length_bytes. destruct (bytes_Itoa t ltac:(lia)) as (E & Hne & _). rewrite E.
  split_and!; [apply parse_digits_digits; lia|intros H; apply Hne; by rewrite <- E, H|].
  unfold digits. pose proof (digits_length (S (Z.to_nat (Z.log2 t))) t []) as Hl. cbn [List.length] in Hl.
  assert (Z.log2 t < 70) by (apply Z.log2_lt_pow2; unfold year_10000, Minute, Second in *; lia). lia.
Qed.

Lemma control_roundtrip_witness :
  decodeControlHeaders (fun s => s) demo_parse (controlHeaders Itoa demo_control) = Ok demo_control.
Proof.
  apply (control_roundtrip (fun s => s) Itoa demo_parse (fun h _ => eq_refl) demo_time demo_control).
  - unfold control_wf. split_and!; vm_compute; (reflexivity || discriminate).
  - split; vm_compute; (reflexivity || discriminate).
Defined.
End KafkaControl.

(** ** Dead letters of the Kafka adapter

    Models the record of [adapters/kafka/dlq.go], its validation and encoding, and
    the failure text of [failure.go].  [json_Marshal] stands for [json.Marshal] of
    a record. *)
From Stdlib Require Import Ascii.
Import Stdlib.Strings.String.
Import Sha256 Base64 KafkaTopic KafkaControl.
Open Scope string_scope.
Open Scope Z_scope.

Module KafkaDLQ.

Definition DLQSpecVersion : string := "1.0".
Definition DefaultMaxDLQRecordBytes : Z := 3 * DefaultMaxEnvelopeBytes.
Definition failureKindDecode : string := "decode".
Definition operationFailureText : string := "messenger/kafka: operation failed".

Record DLQRecord := {
  kd_SpecVersion : string;
  kd_ConsumerID : string;
  kd_SourceTopic : string;
  kd_SourcePartition : Z;
  kd_SourceOffset : Z;
  kd_RecordKeyBase64 : string;
  kd_OriginalBase64 : string;
  kd_MessageID : string;
  kd_Attempt : Z;
  kd_AttemptGeneration : string;
  kd_FailureKind : string;
  kd_Error : string;
  kd_FailedAt : Time }.

(** ** Failure text *)
Definition kafka_handlerPanicText (handlerID : string) : string :=
  if String.eqb handlerID "" then "messenger/kafka: handler panicked"
  else "messenger/kafka: handler " ++ handlerID ++ " panicked".

Definition kafka_sanitizer_cases : list sentinel :=
  [Canceled; DeadlineExceeded; ErrEnvelopeTooLarge; ErrDescriptorConflict; ErrKafkaMessageExpired;
   ErrKafkaMessageNotReady; ErrInvalidMessage].

Definition kafka_defaultFailureSanitizer (err : option error) : string :=
  match err with
  | None => ""
  | Some e =>
      match errors_as as_handlerPanic e with
      | Some id => kafka_handlerPanicText id
      | None =>
          match List.find (errors_is err) kafka_sanitizer_cases with
          | Some s => sentinel_text s
          | None => operationFailureText
          end
      end
  end.

Definition sanitizeFailure (sanitizer : FailureSanitizer) (err : option error) : string :=
  match err with
  | None => ""
  | Some _ =>
      let f := match sanitizer with
               | Some f => f
               | None => fun e => Some (kafka_defaultFailureSanitizer e)
               end in
      let text := TrimSpace (callFailureSanitizer f err) in
      if decide (text = "") then operationFailureText else ToValidUTF8 text
  end.

(** ** Records *)
Definition cut (value : string) (limit : Z) : string :=
  if limit <? len value then of_bytes (take (rune_boundary (bytes value) (Z.to_nat limit)) (bytes value)) else value.

Definition truncate (value : string) (limit : Z) : string :=
  let value := TrimSpace value in
  if limit <=? 0 then "" else cut (ToValidUTF8 (cut value limit)) limit.

(** [failure] is the text of the error, [None] for a nil one. *)
Definition makeDLQRecord (consumerID : string) (r : record) (control : controlMetadata) (messageID : string) (attempt : Z)
    (failureKind : string) (failure : option string) (failedAt : Time) : DLQRecord :=
  let failureText := match failure with
                     | None => "unspecified failure"
                     | Some text => let t := truncate text 1024 in
                                    if String.eqb t "" then "unspecified failure" else t
                     end in
  {| kd_SpecVersion := DLQSpecVersion; kd_ConsumerID := consumerID; kd_SourceTopic := sp_topic (cm_source control);
     kd_SourcePartition := sp_partition (cm_source control); kd_SourceOffset := sp_offset (cm_source control);
     kd_RecordKeyBase64 := EncodeToString (r_Key r); kd_OriginalBase64 := EncodeToString (r_Value r);
     kd_MessageID := messageID; kd_Attempt := attempt; kd_AttemptGeneration := cm_attemptGeneration control;
     kd_FailureKind := failureKind; kd_Error := failureText; kd_FailedAt := UTC failedAt |}.

Definition incomplete (r : DLQRecord) : bool :=
  negb (String.eqb (kd_SpecVersion r) DLQSpecVersion) || String.eqb (kd_ConsumerID r) "" || String.eqb (kd_SourceTopic r) ""
  || (kd_SourcePartition r <? 0) || (kd_SourceOffset r <? 0) || (kd_Attempt r =? 0) || String.eqb (kd_FailureKind r) ""
  || String.eqb (kd_Error r) "" || IsZero (kd_FailedAt r) || (1024 <? len (kd_Error r))
  || negb (String.eqb (TrimSpace (kd_AttemptGeneration r)) (kd_AttemptGeneration r)) || (128 <? len (kd_AttemptGeneration r)).

Definition validateDLQRecord (r : DLQRecord) : option error :=
  if incomplete r then Some (invalid_message "incomplete Kafka DLQ record")
  else match validateConsumerID (kd_ConsumerID r) with
  | Some e => Some e
  | None =>
      match validateTopicName (kd_SourceTopic r) with
      | Some e => Some e
      | None =>
          match DecodeString (kd_RecordKeyBase64 r) with
          | None => Some (invalid_message "invalid recordKeyBase64")
          | Some _ =>
              match DecodeString (kd_OriginalBase64 r) with
              | None => Some (invalid_message "invalid originalBase64")
              | Some _ => None
              end
          end
      end
  end.

Section Encode.
Context (json_Marshal : DLQRecord -> result error string).

Definition encodeDLQRecord (r : DLQRecord) : result error string :=
  match validateDLQRecord r with
  | Some e => Err e
  | None =>
      match json_Marshal r with
      | Err e => Err (EFmt "encode DLQ record" [e])
      | Ok data =>
          if DefaultMaxDLQRecordBytes <? len data then Err (invalid_message "Kafka DLQ record exceeds the limit") else Ok data
      end
  end.

Definition recordDigest (r : DLQRecord) : result error string :=
  match validateDLQRecord r with
  | Some e => Err e
  | None => match json_Marshal r with Err e => Err e | Ok data => Ok (Sum256 data) end
  end.

Definition newReplayID (r : DLQRecord) : result error string :=
  match recordDigest r with
  | Err e => Err e
  | Ok digest => Ok (replayIDPrefix ++ hex digest)
  end.
End Encode.

(** ** What a dead letter keeps *)
Lemma len_cut value limit : 0 <= limit -> len (cut value limit) <= limit.
Proof.
  intros Hl. unfold cut. destruct (Z.ltb_spec limit (len value)); [|lia]. unfold len. rewrite length_of_bytes, length_take.
  pose proof (rune_boundary_le (bytes value) (Z.to_nat limit)). lia.
Qed.

Lemma len_truncate value limit : 0 <= limit -> len (truncate value limit) <= limit.
Proof. intros Hl. unfold truncate. destruct (Z.leb_spec limit 0); [exact Hl|]. by apply len_cut. Qed.

(** A position the broker or a control header gave. *)
Definition position_ok (control : controlMetadata) : Prop :=
  validateTopicName (sp_topic (cm_source control)) = None /\ 0 <= sp_partition (cm_source control) /\
  0 <= sp_offset (cm_source control) /\ TrimSpace (cm_attemptGeneration control) = cm_attemptGeneration control /\
  len (cm_attemptGeneration control) <= 128.

Lemma makeDLQRecord_valid consumerID r control messageID attempt kind failure failedAt :
  validateConsumerID consumerID = None -> position_ok control -> attempt <> 0 -> kind <> "" -> failedAt <> 0 ->
  validateDLQRecord (makeDLQRecord consumerID r control messageID attempt kind failure failedAt) = None.
Proof.
  intros Hc (Ht & Hp & Ho & Hg1 & Hg2) Ha Hk Hf. unfold validateDLQRecord.
  set (rec := makeDLQRecord _ _ _ _ _ _ _ _).
  assert (incomplete rec = false) as ->.
  { unfold incomplete, IsZero. cbn [rec makeDLQRecord kd_SpecVersion kd_ConsumerID kd_SourceTopic kd_SourcePartition kd_SourceOffset
      kd_Attempt kd_FailureKind kd_FailedAt kd_AttemptGeneration]. unfold UTC.
    assert (consumerID <> "") as Hc' by (by intros ->).
    apply validateTopicName_len in Ht as [_ Ht]. apply String.eqb_neq in Hc', Ht, Hk. apply Z.eqb_neq in Ha, Hf.
    apply Z.ltb_ge in Hp, Ho, Hg2. rewrite Hc', Ht, Hk, Ha, Hf, Hg1, Hp, Ho, Hg2, !String.eqb_refl.
    assert (kd_Error rec <> "" /\ len (kd_Error rec) <= 1024) as [He Hl].
    { cbn -[truncate len]. destruct failure as [text|]; [|split; [done|vm_compute; discriminate]]. destruct (String.eqb_spec (truncate text 1024) ""); [split; [done|vm_compute; discriminate]|].
      split; [done|]. apply len_truncate. done. }
    apply String.eqb_neq in He. rewrite He, (proj2 (Z.ltb_ge 1024 _)) by done. done. }
  cbn [rec makeDLQRecord kd_ConsumerID kd_SourceTopic kd_RecordKeyBase64 kd_OriginalBase64].
  by rewrite Hc, Ht, !DecodeString_EncodeToString.
Qed.

(** The dead letter of a record, with the record in it. *)
Definition kafka_captured (d : DLQRecord) (consumerID : string) (r : record) (control : controlMetadata) : Prop :=
  validateDLQRecord d = None /\ kd_ConsumerID d = consumerID /\ kd_SourceTopic d = sp_topic (cm_source control) /\
  kd_SourcePartition d = sp_partition (cm_source control) /\ kd_SourceOffset d = sp_offset (cm_source control) /\
  kd_AttemptGeneration d = cm_attemptGeneration control /\ DecodeString (kd_RecordKeyBase64 d) = Some (r_Key r) /\
  DecodeString (kd_OriginalBase64 d) = Some (r_Value r).

Lemma encode_captured json_Marshal consumerID r control messageID attempt kind failure failedAt data :
  encodeDLQRecord json_Marshal (makeDLQRecord consumerID r control messageID attempt kind failure failedAt) = Ok data ->
  exists d, json_Marshal d = Ok data /\ len data <= DefaultMaxDLQRecordBytes /\ kafka_captured d consumerID r control.
Proof.
  unfold encodeDLQRecord. set (d := makeDLQRecord _ _ _ _ _ _ _ _). intros H.
  destruct (validateDLQRecord d) eqn:Ev; [done|]. destruct (json_Marshal d) as [x|] eqn:Em; [|done].
  destruct (Z.ltb_spec DefaultMaxDLQRecordBytes (len x)); [done|]. apply Ok_inj in H as <-. exists d.
  unfold kafka_captured. split_and!; try done; apply DecodeString_EncodeToString.
Qed.
End KafkaDLQ.
