(* ===== verification/KafkaTopology.v ===== *)
(** * Kafka topologies

    Models [adapters/kafka/topology.go]: validation of declared topics, the plan
    that compares them with the broker, and its application.  The broker's
    administration interface ([kadm]) is third-party code: a class of operations on
    an arbitrary broker state, with the documented behaviour as laws.  Log records
    are left out.  Text in error and conflict messages is kept only where the code
    branches on it.

    Proved: an accepted topology declares every topic that its consumers use, with
    the partitions of the source; applying it changes nothing when the plan has a
    conflict, never drops a topic or a partition and never lowers a limit, and when
    it succeeds the broker conforms to the declaration. *)
From S2P Require Import Prelude GoStrings GoText Errors Ident Batch Envelope Manifest KafkaTopic KafkaControl.
From stdpp Require Import sorting.
From Stdlib Require Import Ascii.
Import Stdlib.Strings.String.
Import Envelope KafkaTopic KafkaDLQ.
Open Scope string_scope.
Open Scope Z_scope.

Module KafkaTopology.

(** ** Declarations *)
Definition TopologySpecVersion : string := "1.0".
Definition configCleanupPolicy : string := "cleanup.policy".
Definition configMinInSyncReplicas : string := "min.insync.replicas".
Definition configRetentionMillis : string := "retention.ms".
Definition configRetentionBytes : string := "retention.bytes".
Definition configMaxMessageBytes : string := "max.message.bytes".

Definition TopicRoleSource : string := "source".
Definition TopicRoleRetry : string := "retry".
Definition TopicRoleReplay : string := "replay".
Definition TopicRoleDLQ : string := "dlq".

Definition DefaultMaxSourceMessageBytes : Z := 2 * DefaultMaxEnvelopeBytes + DefaultMaxHeaderBytes.
Definition DefaultMaxDLQMessageBytes : Z := DefaultMaxDLQRecordBytes + DefaultMaxHeaderBytes.

Record TopicSpec := {
  ts_Name : string; ts_Role : string; ts_SourceTopic : string; ts_ConsumerID : string; ts_Partitions : Z; ts_ReplicationFactor : Z;
  ts_MinInSyncReplicas : Z; ts_RetentionMillis : Z; ts_RetentionBytes : Z; ts_MaxMessageBytes : Z }.
Definition TopicSpec0 : TopicSpec :=
  {| ts_Name := ""; ts_Role := ""; ts_SourceTopic := ""; ts_ConsumerID := ""; ts_Partitions := 0; ts_ReplicationFactor := 0;
     ts_MinInSyncReplicas := 0; ts_RetentionMillis := 0; ts_RetentionBytes := 0; ts_MaxMessageBytes := 0 |}.
Record Topology := { tp_SpecVersion : string; tp_Topics : list TopicSpec }.

Inductive TopologyAction : Set := TopologyActionNone | TopologyActionCreate | TopologyActionUpdate | TopologyActionConflict.
#[global] Instance TopologyAction_eq_dec : EqDecision TopologyAction.
Proof. solve_decision. Defined.
(** [tc_Reason] is the list of conflicts that the code joins. *)
Record TopologyChange := { tc_Topic : string; tc_Action : TopologyAction; tc_Fields : list string; tc_Reason : list string }.
Record TopologyPlan := { pl_SpecVersion : string; pl_Changes : list TopologyChange }.
Definition TopologyPlan0 : TopologyPlan := {| pl_SpecVersion := ""; pl_Changes := [] |}.

Definition HasConflicts (p : TopologyPlan) : bool := existsb (fun c => bool_decide (tc_Action c = TopologyActionConflict)) (pl_Changes p).
Definition HasChanges (p : TopologyPlan) : bool :=
  existsb (fun c => bool_decide (tc_Action c = TopologyActionCreate) || bool_decide (tc_Action c = TopologyActionUpdate)) (pl_Changes p).

(** ** Validation of a topic *)
Definition role_is (t : TopicSpec) (role : string) : bool := String.eqb (ts_Role t) role.

Definition retryTierFromTopic (name source consumerID : string) : result error Z :=
  match consumerTopic source consumerID "retry.t" with
  | Err err => Err err
  | Ok prefix =>
      match GoStrings.strip_prefix (bytes prefix) (bytes name) with
      | None => Err (invalid "non-deterministic retry topic")
      | Some rest =>
          match Atoi rest with
          | None => Err (invalid "retry topic tier")
          | Some tier =>
              if tier <? 0 then Err (invalid "retry topic tier")
              else match RetryTopic source consumerID tier with
              | Err _ => Err (invalid "non-deterministic retry topic")
              | Ok expected => if String.eqb expected name then Ok tier else Err (invalid "non-deterministic retry topic")
              end
          end
      end
  end.

Definition validateTopicBounds (t : TopicSpec) : option error :=
  if (ts_Partitions t <=? 0) || (2 ^ 31 - 1 <? ts_Partitions t) || (ts_ReplicationFactor t <=? 0) || (2 ^ 15 - 1 <? ts_ReplicationFactor t)
     || (ts_MinInSyncReplicas t <=? 0) || (ts_ReplicationFactor t <? ts_MinInSyncReplicas t) || (ts_MaxMessageBytes t <=? 0)
     || (negb (ts_RetentionMillis t =? -1) && (ts_RetentionMillis t <=? 0)) || (negb (ts_RetentionBytes t =? -1) && (ts_RetentionBytes t <=? 0))
  then Some (invalid "managed topic") else None.

Definition validateSourceTopicSpec (t : TopicSpec) : option error :=
  if negb (String.eqb (ts_SourceTopic t) "") || negb (String.eqb (ts_ConsumerID t) "") || (ts_MaxMessageBytes t <? DefaultMaxSourceMessageBytes)
  then Some (invalid "source topic")
  else validateSourceTopicName (ts_Name t).

Definition validateServiceMessageSize (t : TopicSpec) : option error :=
  if role_is t TopicRoleDLQ then if ts_MaxMessageBytes t <? DefaultMaxDLQMessageBytes then Some (invalid "DLQ max message bytes") else None
  else if ts_MaxMessageBytes t <? DefaultMaxSourceMessageBytes then Some (invalid "service max message bytes") else None.

Definition validateServiceTopicName (t : TopicSpec) : option error :=
  let check (r : result error string) : option error :=
    match r with
    | Err err => Some err
    | Ok expected => if negb (String.eqb expected "") && negb (String.eqb (ts_Name t) expected) then Some (invalid "non-deterministic service topic") else None
    end in
  if role_is t TopicRoleSource then Some (invalid "source topic is not a service topic")
  else if role_is t TopicRoleRetry then
    match retryTierFromTopic (ts_Name t) (ts_SourceTopic t) (ts_ConsumerID t) with Err err => Some err | Ok _ => None end
  else if role_is t TopicRoleReplay then check (ReplayTopic (ts_SourceTopic t) (ts_ConsumerID t))
  else if role_is t TopicRoleDLQ then check (DLQTopic (ts_SourceTopic t) (ts_ConsumerID t))
  else Some (invalid "topic role").

Definition validateServiceTopicSpec (t : TopicSpec) : option error :=
  match validateTopicName (ts_SourceTopic t) with
  | Some err => Some err
  | None =>
      match validateConsumerID (ts_ConsumerID t) with
      | Some err => Some err
      | None =>
          match validateServiceMessageSize t with
          | Some err => Some err
          | None =>
              match validateServiceTopicName t with
              | Some err => Some err
              | None =>
                  if role_is t TopicRoleRetry && (negb (ts_RetentionMillis t =? -1) || negb (ts_RetentionBytes t =? -1))
                  then Some (invalid "retry topic must have unlimited retention") else None
              end
          end
      end
  end.

Definition validateTopicSpec (t : TopicSpec) : option error :=
  match validateTopicName (ts_Name t) with
  | Some err => Some err
  | None =>
      match validateTopicBounds t with
      | Some err => Some err
      | None =>
          if role_is t TopicRoleSource then validateSourceTopicSpec t
          else if role_is t TopicRoleRetry || role_is t TopicRoleReplay || role_is t TopicRoleDLQ then validateServiceTopicSpec t
          else Some (invalid "topic role")
      end
  end.

(** ** Validation of a topology *)
(** [topologyFamilyKey] *)
Definition family_key : Type := string * string.
Record topologyFamilyState := { fs_retryTiers : gset Z; fs_replay : bool; fs_dlq : bool }.
Definition family0 : topologyFamilyState := {| fs_retryTiers := ∅; fs_replay := false; fs_dlq := false |}.
Definition key_of (t : TopicSpec) : family_key := (ts_SourceTopic t, ts_ConsumerID t).
Abbreviation families := (gmap family_key topologyFamilyState).

Definition recordFamilyTopic (fs : families) (t : TopicSpec) : result error families :=
  if role_is t TopicRoleSource then Ok fs
  else
    let f := default family0 (fs !! key_of t) in
    if role_is t TopicRoleRetry then
      match retryTierFromTopic (ts_Name t) (ts_SourceTopic t) (ts_ConsumerID t) with
      | Err err => Err err
      | Ok tier =>
          if bool_decide (tier ∈ fs_retryTiers f) then Err (invalid "duplicate retry tier")
          else Ok (<[key_of t := {| fs_retryTiers := {[tier]} ∪ fs_retryTiers f; fs_replay := fs_replay f; fs_dlq := fs_dlq f |}]> fs)
      end
    else if role_is t TopicRoleReplay then
      if fs_replay f then Err (invalid "duplicate replay topic")
      else Ok (<[key_of t := {| fs_retryTiers := fs_retryTiers f; fs_replay := true; fs_dlq := fs_dlq f |}]> fs)
    else if role_is t TopicRoleDLQ then
      if fs_dlq f then Err (invalid "duplicate DLQ topic")
      else Ok (<[key_of t := {| fs_retryTiers := fs_retryTiers f; fs_replay := fs_replay f; fs_dlq := true |}]> fs)
    else Err (invalid "topic role").

Fixpoint index_loop (l : list TopicSpec) (topics : gmap string TopicSpec) (fs : families) : result error (gmap string TopicSpec * families) :=
  match l with
  | [] => Ok (topics, fs)
  | t :: l =>
      match topics !! ts_Name t with
      | Some _ => Err (invalid "duplicate Kafka topic")
      | None =>
          match validateTopicSpec t with
          | Some err => Err err
          | None => match recordFamilyTopic fs t with Err err => Err err | Ok fs => index_loop l (<[ts_Name t := t]> topics) fs end
          end
      end
  end.
Definition indexTopology (l : list TopicSpec) : result error (gmap string TopicSpec * families) := index_loop l ∅ ∅.

Definition validateCompleteFamily (f : topologyFamilyState) : option error :=
  if bool_decide (size (fs_retryTiers f) = 0%nat) || negb (fs_replay f) || negb (fs_dlq f) then Some (invalid "incomplete service topics")
  else if forallb (fun tier => bool_decide (tier ∈ fs_retryTiers f)) (seqZ 0 (Z.of_nat (size (fs_retryTiers f)))) then None
  else Some (invalid "non-contiguous retry tiers").
Definition validateFamilyPartitions (l : list TopicSpec) (key : family_key) (sourcePartitions : Z) : option error :=
  if forallb (fun t => negb (String.eqb (ts_SourceTopic t) key.1 && String.eqb (ts_ConsumerID t) key.2 && negb (ts_Partitions t =? sourcePartitions))) l
  then None else Some (invalid "service topic partition count differs from source").

(** The source of a family, its completeness and its partitions. *)
Definition validate_family (l : list TopicSpec) (topics : gmap string TopicSpec) (key : family_key) (f : topologyFamilyState) : option error :=
  match topics !! key.1 with
  | None => Some (invalid "undeclared source topic")
  | Some source =>
      if negb (role_is source TopicRoleSource) then Some (invalid "undeclared source topic")
      else match validateCompleteFamily f with
      | Some err => Some err
      | None => validateFamilyPartitions l key (ts_Partitions source)
      end
  end.
Fixpoint first_error {A} (check : A -> option error) (l : list A) : option error :=
  match l with [] => None | x :: l => match check x with Some err => Some err | None => first_error check l end end.

Section Validate.
Context `{!Manifest.MapRange}.
Definition validateTopologyFamilies (l : list TopicSpec) (topics : gmap string TopicSpec) (fs : families) : option error :=
  first_error (fun kf => validate_family l topics kf.1 kf.2) (Manifest.range fs).
Definition ValidateTopology (t : Topology) : option error :=
  if negb (String.eqb (tp_SpecVersion t) TopologySpecVersion) || (Z.of_nat (List.length (tp_Topics t)) =? 0)
     || (4096 <? Z.of_nat (List.length (tp_Topics t)))
  then Some (invalid "Kafka topology spec")
  else match indexTopology (tp_Topics t) with
  | Err err => Some err
  | Ok (topics, fs) => validateTopologyFamilies (tp_Topics t) topics fs
  end.
End Validate.

(** ** The broker *)
Record topicDetail := { td_Err : option error; td_Replicas : list Z }.    (** the replicas of each partition, in some order *)
Record resourceConfig := { rsc_Name : string; rsc_Err : option error; rsc_Configs : list (string * string) }.
Definition UnknownTopicOrPartition : sentinel := ErrForeign "kerr.UnknownTopicOrPartition".

Class KafkaAdmin (S : Type) := {
  ListTopics : list string -> S -> S * result error (gmap string topicDetail);
  DescribeTopicConfigs : list string -> S -> S * result error (list resourceConfig);
  CreateTopic : Z -> Z -> gmap string string -> string -> S -> S * option error;
  (** the error of the call, or that of the response for the topic ([On]) *)
  AlterTopicConfigs : list (string * string) -> string -> S -> S * option error }.

(** ** The current state *)
(** [ct_configs] is nil for a topic that does not exist. *)
Record currentTopic := {
  ct_exists : bool; ct_partitions : Z; ct_replicationFactor : Z; ct_heterogeneousReplication : bool; ct_configs : option (gmap string string) }.
Definition currentTopic0 : currentTopic :=
  {| ct_exists := false; ct_partitions := 0; ct_replicationFactor := 0; ct_heterogeneousReplication := false; ct_configs := None |}.

Fixpoint uniform_loop (l : list Z) (replicationFactor : Z) : Z * bool :=
  match l with
  | [] => (Z.max 0 replicationFactor, true)
  | current :: l =>
      if replicationFactor =? -1 then uniform_loop l current
      else if negb (current =? replicationFactor) then (0, false) else uniform_loop l replicationFactor
  end.
Definition uniformReplicationFactor (l : list Z) : Z * bool := uniform_loop l (-1).

Definition managedConfig (name : string) : bool :=
  existsb (String.eqb name) [configCleanupPolicy; configMinInSyncReplicas; configRetentionMillis; configRetentionBytes; configMaxMessageBytes].

Abbreviation topology_state := (gmap string currentTopic).

(** The loop over the details: the state and the topics that exist. *)
Fixpoint inspect (details : gmap string topicDetail) (names : list string) (st : topology_state) (existing : list string)
  : result error (topology_state * list string) :=
  match names with
  | [] => Ok (st, existing)
  | name :: names =>
      match details !! name with
      | None => inspect details names (<[name := currentTopic0]> st) existing
      | Some detail =>
          if errors_is (td_Err detail) UnknownTopicOrPartition then inspect details names (<[name := currentTopic0]> st) existing
          else match td_Err detail with
          | Some err => Err (EFmt "messenger/kafka: inspect topic" [err])
          | None =>
              let '(replicationFactor, homogeneous) := uniformReplicationFactor (td_Replicas detail) in
              inspect details names
                (<[name := {| ct_exists := true; ct_partitions := Z.of_nat (List.length (td_Replicas detail));
                              ct_replicationFactor := replicationFactor; ct_heterogeneousReplication := negb homogeneous;
                              ct_configs := Some ∅ |}]> st) (existing ++ [name])%list
          end
      end
  end.

(** The managed values of a resource; [None] is the panic of a write to a nil map. *)
Fixpoint put_configs (l : list (string * string)) (configs : option (gmap string string)) : option (option (gmap string string)) :=
  match l with
  | [] => Some configs
  | (k, v) :: l =>
      if managedConfig k then match configs with None => None | Some m => put_configs l (Some (<[k := v]> m)) end
      else put_configs l configs
  end.
Definition with_configs (c : currentTopic) (configs : option (gmap string string)) : currentTopic :=
  {| ct_exists := ct_exists c; ct_partitions := ct_partitions c; ct_replicationFactor := ct_replicationFactor c;
     ct_heterogeneousReplication := ct_heterogeneousReplication c; ct_configs := configs |}.
Fixpoint describe (l : list resourceConfig) (st : topology_state) : option (result error topology_state) :=
  match l with
  | [] => Some (Ok st)
  | r :: l =>
      match rsc_Err r with
      | Some err => Some (Err (EFmt "messenger/kafka: describe topic" [err]))
      | None =>
          let current := default currentTopic0 (st !! rsc_Name r) in
          match put_configs (rsc_Configs r) (ct_configs current) with
          | None => None
          | Some configs => describe l (<[rsc_Name r := with_configs current configs]> st)
          end
      end
  end.

(** ** Comparison *)
Definition lookup_config (configs : option (gmap string string)) (field : string) : option string := configs ≫= (.!! field).

(** The updates and the conflicts that a comparison adds. *)
Definition compareExactConfig (configs : option (gmap string string)) (field desired : string) : list string * list string :=
  match lookup_config configs field with
  | None => ([], [field ++ " is unavailable"])
  | Some current => if String.eqb current desired then ([], []) else ([], [field ++ " differs"])
  end.
Definition compareConfig (configs : option (gmap string string)) (field : string) (desired : Z) (infinite : bool) : list string * list string :=
  match lookup_config configs field with
  | None => ([], [field ++ " is unavailable"])
  | Some raw =>
      match Atoi (bytes raw) with
      | None => ([], [field ++ " has invalid value"])
      | Some current =>
          if current =? desired then ([], [])
          else if (infinite && (desired =? -1) && negb (current =? -1)) || (negb (current =? -1) && (current <? desired))
          then ([field], []) else ([], [field ++ " differs"])
      end
  end.
Definition compare_topic (current : currentTopic) (desired : TopicSpec) : list string * list string :=
  let shape := ((if ct_partitions current =? ts_Partitions desired then [] else ["partitions"]) ++
                (if ct_heterogeneousReplication current then ["replicationFactor differs across partitions"]
                 else if ct_replicationFactor current =? ts_ReplicationFactor desired then [] else ["replicationFactor"]))%list in
  let cs := ct_configs current in
  let results := [compareExactConfig cs configCleanupPolicy "delete";
                  compareConfig cs configMinInSyncReplicas (ts_MinInSyncReplicas desired) false;
                  compareConfig cs configRetentionMillis (ts_RetentionMillis desired) true;
                  compareConfig cs configRetentionBytes (ts_RetentionBytes desired) true;
                  compareConfig cs configMaxMessageBytes (ts_MaxMessageBytes desired) false] in
  (List.flat_map fst results, (shape ++ List.flat_map snd results)%list).

Definition topic_change (st : topology_state) (desired : TopicSpec) : TopologyChange :=
  let current := default currentTopic0 (st !! ts_Name desired) in
  let change action fields reason := {| tc_Topic := ts_Name desired; tc_Action := action; tc_Fields := fields; tc_Reason := reason |} in
  if negb (ct_exists current) then change TopologyActionCreate [] []
  else match compare_topic current desired with
  | (_, (_ :: _) as conflicts) => change TopologyActionConflict [] conflicts
  | ((_ :: _) as updates, []) => change TopologyActionUpdate (merge_sort string_le updates) []
  | ([], []) => change TopologyActionNone [] []
  end.
Definition change_le (a b : TopologyChange) : Prop := string_le (tc_Topic a) (tc_Topic b).
#[global] Instance change_le_dec : RelDecision change_le.
Proof. intros a b. unfold change_le. apply _. Defined.
Definition buildTopologyPlan (t : Topology) (st : topology_state) : TopologyPlan :=
  {| pl_SpecVersion := TopologySpecVersion; pl_Changes := merge_sort change_le (List.map (topic_change st) (tp_Topics t)) |}.

Definition desiredConfigs (t : TopicSpec) : gmap string string :=
  {[configCleanupPolicy := "delete"; configMinInSyncReplicas := Itoa (ts_MinInSyncReplicas t);
    configRetentionMillis := Itoa (ts_RetentionMillis t); configRetentionBytes := Itoa (ts_RetentionBytes t);
    configMaxMessageBytes := Itoa (ts_MaxMessageBytes t)]}.

(** ** Planning and applying *)
Section Apply.
Context {S : Type} `{!Manifest.MapRange, !KafkaAdmin S}.
Implicit Types s : S.

(** [None] is a panic. *)
Definition loadCurrentTopology (t : Topology) s : S * option (result error topology_state) :=
  let names := List.map ts_Name (tp_Topics t) in
  let '(s, r) := ListTopics names s in
  match r with
  | Err err => (s, Some (Err (EFmt "messenger/kafka: list managed topics" [err])))
  | Ok details =>
      match inspect details names ∅ [] with
      | Err err => (s, Some (Err err))
      | Ok (st, []) => (s, Some (Ok st))
      | Ok (st, existing) =>
          let '(s, r) := DescribeTopicConfigs existing s in
          match r with
          | Err err => (s, Some (Err (EFmt "messenger/kafka: describe managed topic configs" [err])))
          | Ok configs => (s, describe configs st)
          end
      end
  end.

Definition planTopology (closed : bool) (t : Topology) s : S * option (result error TopologyPlan) :=
  if closed then (s, Some (Err (ESentinel ErrTransportClosed)))
  else
    let '(s, r) := loadCurrentTopology t s in
    match r with
    | None => (s, None)
    | Some (Err err) => (s, Some (Err err))
    | Some (Ok st) => (s, Some (Ok (buildTopologyPlan t st)))
    end.

(** [ready]: neither the context nor the transport is nil; [closed]: the
    transport's state is closed. *)
Definition PlanTopology (ready closed : bool) (t : Topology) s : S * option (result error TopologyPlan) :=
  if negb ready then (s, Some (Err (invalid "Kafka topology planner")))
  else match ValidateTopology t with
  | Some err => (s, Some (Err err))
  | None => planTopology closed t s
  end.

Definition createManagedTopic (t : TopicSpec) s : S * option error :=
  let '(s, e) := CreateTopic (ts_Partitions t) (ts_ReplicationFactor t) (desiredConfigs t) (ts_Name t) s in
  (s, match e with Some err => Some (EFmt "messenger/kafka: create topic" [err]) | None => None end).

Definition updateManagedTopic (t : TopicSpec) (fields : list string) s : S * option error :=
  match mapM (fun field => v ← desiredConfigs t !! field; Some (field, v)) fields with
  | None => (s, Some (invalid "unsupported managed topic update field"))
  | Some [] => (s, None)
  | Some configs =>
      let '(s, e) := AlterTopicConfigs configs (ts_Name t) s in
      (s, match e with Some err => Some (EFmt "messenger/kafka: update configs" [err]) | None => None end)
  end.

Definition apply_change (byName : gmap string TopicSpec) (c : TopologyChange) s : S * option error :=
  let t := default TopicSpec0 (byName !! tc_Topic c) in
  match tc_Action c with
  | TopologyActionNone => (s, None)
  | TopologyActionCreate => createManagedTopic t s
  | TopologyActionUpdate => updateManagedTopic t (tc_Fields c) s
  | TopologyActionConflict => (s, Some (ESentinel ErrKafkaTopologyDrift))
  end.
Fixpoint apply_changes (byName : gmap string TopicSpec) (l : list TopologyChange) s : S * option error :=
  match l with
  | [] => (s, None)
  | c :: l => match apply_change byName c s with (s, None) => apply_changes byName l s | (s, Some err) => (s, Some err) end
  end.
Definition by_name (l : list TopicSpec) : gmap string TopicSpec := fold_left (fun m t => <[ts_Name t := t]> m) l ∅.

Definition ApplyTopology (ready closed : bool) (t : Topology) s : S * option (TopologyPlan * option error) :=
  if negb ready then (s, Some (TopologyPlan0, Some (invalid "Kafka topology apply")))
  else match ValidateTopology t with
  | Some err => (s, Some (TopologyPlan0, Some err))
  | None =>
      let '(s, r) := planTopology closed t s in
      match r with
      | None => (s, None)
      | Some (Err err) => (s, Some (TopologyPlan0, Some err))
      | Some (Ok plan) =>
          if HasConflicts plan then (s, Some (plan, Some (ESentinel ErrKafkaTopologyDrift)))
          else let '(s, err) := apply_changes (by_name (tp_Topics t)) (pl_Changes plan) s in (s, Some (plan, err))
      end
  end.
End Apply.

(** ** The laws of the broker *)
Record topicState := { br_replicas : list Z; br_configs : gmap string string }.

(** Documented behaviour: listing and describing change nothing and report what is
    there; a topic is created once, with the given shape and configuration; altering
    sets the given values and nothing else. *)
Class AdminLaws (S : Type) `{!KafkaAdmin S} := {
  topics : S -> gmap string topicState;
  ListTopics_law names s s' r : ListTopics names s = (s', r) -> topics s' = topics s /\
    forall details, r = Ok details -> forall name, name ∈ names ->
      match topics s !! name with
      | None => match details !! name with None => True | Some d => errors_is (td_Err d) UnknownTopicOrPartition = true end
      | Some t => exists d, details !! name = Some d /\ errors_is (td_Err d) UnknownTopicOrPartition = false /\
          (td_Err d = None -> td_Replicas d = br_replicas t)
      end;
  DescribeTopicConfigs_law names s s' r : DescribeTopicConfigs names s = (s', r) -> topics s' = topics s /\
    forall l, r = Ok l -> (forall x, x ∈ l -> rsc_Name x ∈ names) /\ (forall name, name ∈ names -> exists x, x ∈ l /\ rsc_Name x = name) /\
      forall x t, x ∈ l -> rsc_Err x = None -> topics s !! rsc_Name x = Some t ->
        NoDup (List.map fst (rsc_Configs x)) /\ list_to_map (rsc_Configs x) = br_configs t;
  CreateTopic_law p rf configs name s s' e : CreateTopic p rf configs name s = (s', e) ->
    (topics s' = topics s /\ is_Some e) \/
    (topics s !! name = None /\ exists t, topics s' = <[name := t]> (topics s) /\ Z.of_nat (List.length (br_replicas t)) = p /\
       Forall (eq rf) (br_replicas t) /\ configs ⊆ br_configs t);
  AlterTopicConfigs_law configs name s s' e : AlterTopicConfigs configs name s = (s', e) ->
    (topics s' = topics s /\ is_Some e) \/
    (exists t, topics s !! name = Some t /\
       topics s' = <[name := {| br_replicas := br_replicas t; br_configs := list_to_map configs ∪ br_configs t |}]> (topics s)) }.

(** ** Comparison with the broker *)
(** The current state of a topic of the broker. *)
Definition managed_of (m : gmap string string) : gmap string string := filter (fun kv => managedConfig kv.1 = true) m.
Definition current_of (t : topicState) : currentTopic :=
  let '(rf, homogeneous) := uniformReplicationFactor (br_replicas t) in
  {| ct_exists := true; ct_partitions := Z.of_nat (List.length (br_replicas t)); ct_replicationFactor := rf;
     ct_heterogeneousReplication := negb homogeneous; ct_configs := Some (managed_of (br_configs t)) |}.
Definition conforms (d : TopicSpec) (t : topicState) : Prop := compare_topic (current_of t) d = ([], []).

(** The numeric limits: the name, the declared value, whether -1 is no limit. *)
Definition limits : list (string * (TopicSpec -> Z) * bool) :=
  [(configMinInSyncReplicas, ts_MinInSyncReplicas, false); (configRetentionMillis, ts_RetentionMillis, true);
   (configRetentionBytes, ts_RetentionBytes, true); (configMaxMessageBytes, ts_MaxMessageBytes, false)].
(** Values of the declared types. *)
Definition TopicSpec_wf (t : TopicSpec) : Prop := forall f g inf, (f, g, inf) ∈ limits -> g t <= maxInt64.

(** A limit was raised. *)
Definition raised (old new : Z) : Prop := old <> -1 /\ (new = -1 \/ old < new).
(** Partitions, replicas and other configuration stay, limits only grow. *)
Definition kept (t t' : topicState) : Prop :=
  br_replicas t' = br_replicas t /\
  forall f, br_configs t' !! f = br_configs t !! f \/
    (exists g inf, (f, g, inf) ∈ limits) /\ exists raw raw' old new,
      br_configs t !! f = Some raw /\ br_configs t' !! f = Some raw' /\ Atoi (bytes raw) = Some old /\ Atoi (bytes raw') = Some new /\ raised old new.

Lemma kept_itself t : kept t t.
Proof. split; auto. Qed.

Lemma compareConfig_ok cs f v inf u : compareConfig cs f v inf = (u, []) -> exists raw old, lookup_config cs f = Some raw /\ Atoi (bytes raw) = Some old /\
  (u = [] /\ old = v \/ u = [f] /\ raised old v).
Proof.
  unfold compareConfig. destruct (lookup_config cs f) as [raw|]; [|done]. destruct (Atoi (bytes raw)) as [old|] eqn:Ea; [|done].
  destruct (Z.eqb_spec old v); [intros [= <-]; exists raw, old; auto|]. destruct (_ || _) eqn:E; [|done]. intros [= <-].
  exists raw, old. split_and!; auto. right. split; [done|]. unfold raised.
  destruct (Z.eqb_spec old (-1)); cbn in E; [rewrite andb_false_r in E; discriminate|].
  split; [done|]. destruct (Z.eqb_spec v (-1)); [by left|right]. rewrite andb_false_r in E. cbn in E. by apply Z.ltb_lt in E.
Qed.
Lemma compareConfig_same cs f v inf raw : lookup_config cs f = Some raw -> Atoi (bytes raw) = Some v -> compareConfig cs f v inf = ([], []).
Proof. intros E Ea. unfold compareConfig. by rewrite E, Ea, Z.eqb_refl. Qed.

Lemma compare_topic_limits c d : (compare_topic c d).1 = List.flat_map (fun x => (compareConfig (ct_configs c) x.1.1 (x.1.2 d) x.2).1) limits.
Proof.
  unfold compare_topic. cbn [fst List.flat_map limits snd].
  assert ((compareExactConfig (ct_configs c) configCleanupPolicy "delete").1 = []) as ->; [|done].
  unfold compareExactConfig. destruct (lookup_config _ _); [|done]. by destruct (String.eqb _ _).
Qed.
Lemma compare_topic_clean c d : (compare_topic c d).2 = [] ->
  ct_partitions c = ts_Partitions d /\ ct_heterogeneousReplication c = false /\ ct_replicationFactor c = ts_ReplicationFactor d /\
  lookup_config (ct_configs c) configCleanupPolicy = Some "delete" /\
  forall f g inf, (f, g, inf) ∈ limits -> (compareConfig (ct_configs c) f (g d) inf).2 = [].
Proof.
  unfold compare_topic. cbn [snd List.flat_map]. intros [Hs Hr]%app_nil. apply app_nil in Hs as [H1 H2].
  apply app_nil in Hr as [H3 Hr]. repeat (apply app_nil in Hr as [? Hr]). split_and!.
  - destruct (Z.eqb_spec (ct_partitions c) (ts_Partitions d)); [done|discriminate].
  - by destruct (ct_heterogeneousReplication c).
  - destruct (ct_heterogeneousReplication c); [discriminate|]. by destruct (Z.eqb_spec (ct_replicationFactor c) (ts_ReplicationFactor d)).
  - unfold compareExactConfig in H3. destruct (lookup_config _ _) as [x|]; [|discriminate]. destruct (String.eqb_spec x "delete"); [congruence|discriminate].
  - intros f g inf Hin. unfold limits in Hin. repeat (apply elem_of_cons in Hin as [[= -> -> ->]|Hin]; [assumption|]). by apply not_elem_of_nil in Hin.
Qed.
(** The way back. *)
Lemma conforms_intro c d : ct_partitions c = ts_Partitions d -> ct_heterogeneousReplication c = false -> ct_replicationFactor c = ts_ReplicationFactor d ->
  lookup_config (ct_configs c) configCleanupPolicy = Some "delete" ->
  (forall f g inf, (f, g, inf) ∈ limits -> compareConfig (ct_configs c) f (g d) inf = ([], [])) -> compare_topic c d = ([], []).
Proof.
  intros H1 H2 H3 H4 H5. unfold compare_topic. rewrite H1, H2, H3, !Z.eqb_refl. unfold compareExactConfig. rewrite H4. cbn.
  rewrite (H5 configMinInSyncReplicas ts_MinInSyncReplicas false), (H5 configRetentionMillis ts_RetentionMillis true),
    (H5 configRetentionBytes ts_RetentionBytes true), (H5 configMaxMessageBytes ts_MaxMessageBytes false); [done|..];
    unfold limits; rewrite !elem_of_cons; auto 10.
Qed.

(** ** What is loaded *)
Section Loaded.
Context (ts : gmap string topicState).

(** What is known of a topic before its configuration is described. *)
Definition seen (c : currentTopic) (o : option topicState) : Prop :=
  match o with
  | None => c = currentTopic0
  | Some t => exists m, c = with_configs (current_of t) (Some m) /\ forall k v, m !! k = Some v -> managedConfig k = true /\ br_configs t !! k = Some v
  end.
Definition loaded (c : currentTopic) (o : option topicState) : Prop := match o with None => c = currentTopic0 | Some t => c = current_of t end.

Definition lists (details : gmap string topicDetail) (name : string) : Prop :=
  match ts !! name with
  | None => match details !! name with None => True | Some d => errors_is (td_Err d) UnknownTopicOrPartition = true end
  | Some t => exists d, details !! name = Some d /\ errors_is (td_Err d) UnknownTopicOrPartition = false /\
      (td_Err d = None -> td_Replicas d = br_replicas t)
  end.

Lemma inspect_ok details names : (forall n, n ∈ names -> lists details n) -> forall st ex st' ex', inspect details names st ex = Ok (st', ex') ->
  (forall n, n ∈ names -> exists c, st' !! n = Some c /\ seen c (ts !! n)) /\ (forall n, n ∉ names -> st' !! n = st !! n) /\
  (forall n, n ∈ ex' <-> n ∈ ex \/ n ∈ names /\ is_Some (ts !! n)).
Proof.
  induction names as [|a names IH]; intros Hl st ex st' ex' E; cbn [inspect] in E.
  { injection E as <- <-. split_and!; [by intros n ?%elem_of_nil|done|]. intros n. rewrite elem_of_nil. tauto. }
  assert (forall c ex1, inspect details names (<[a := c]> st) ex1 = Ok (st', ex') -> seen c (ts !! a) ->
    (forall n, n ∈ ex1 <-> n ∈ ex \/ n = a /\ is_Some (ts !! a)) ->
    (forall n, n ∈ a :: names -> exists c, st' !! n = Some c /\ seen c (ts !! n)) /\ (forall n, n ∉ a :: names -> st' !! n = st !! n) /\
    (forall n, n ∈ ex' <-> n ∈ ex \/ n ∈ a :: names /\ is_Some (ts !! n))) as Hstep.
  { intros c ex1 E1 Hc Hex. destruct (IH ltac:(intros n Hn; apply Hl; by right) _ _ _ _ E1) as (H1 & H2 & H3). split_and!.
    - intros n Hn. destruct (decide (n ∈ names)) as [Hin|Hout]; [by apply H1|]. apply elem_of_cons in Hn as [->|?]; [|done].
      exists c. by rewrite (H2 a Hout), lookup_insert_eq.
    - intros n [Hne Hout]%not_elem_of_cons. by rewrite (H2 n Hout), lookup_insert_ne by done.
    - intros n. rewrite H3, Hex, elem_of_cons. split; [intros [[?|[-> ?]]|[? ?]]; auto|intros [?|[[->|?] ?]]; auto]. }
  specialize (Hl a ltac:(by left)). unfold lists in Hl. destruct (ts !! a) as [t|] eqn:Et.
  - destruct Hl as (d & Ed & Hu & Hr). rewrite Ed, Hu in E. destruct (td_Err d); [done|]. rewrite Hr in E by done.
    destruct (uniformReplicationFactor (br_replicas t)) as [rf hom] eqn:Eu. eapply Hstep; [exact E| |].
    + cbn. exists ∅. unfold current_of, with_configs. rewrite Eu. split; [done|]. intros k v Hk. by rewrite lookup_empty in Hk.
    + intros n. rewrite elem_of_app, list_elem_of_singleton. split; [intros [?| ->]; eauto|intros [?|[-> _]]; auto].
  - destruct (details !! a) as [d|]; [rewrite Hl in E|]; (eapply Hstep; [exact E|done|]); intros n; split; auto; (intros [?|[_ Hx]]; [done|by destruct Hx]).
Qed.

Lemma put_configs_ok l : NoDup (List.map fst l) -> forall m, exists m', put_configs l (Some m) = Some (Some m') /\
  forall k, m' !! k = if managedConfig k then (match list_to_map (M := gmap string string) l !! k with Some v => Some v | None => m !! k end) else m !! k.
Proof.
  induction l as [|[k v] l IH]; intros Hnd m; cbn [put_configs List.map] in *.
  { exists m. split; [done|]. intros k. by destruct (managedConfig k). }
  apply NoDup_cons in Hnd as [Hk Hnd]. cbn [fst] in Hk.
  assert (list_to_map (M := gmap string string) l !! k = None) as Hn by (by apply not_elem_of_list_to_map_1).
  destruct (managedConfig k) eqn:Ek; destruct (IH Hnd (if managedConfig k then <[k := v]> m else m)) as (m' & E & Hm'); rewrite Ek in E, Hm';
    exists m'; (split; [exact E|]); intros x; rewrite Hm', list_to_map_cons; destruct (decide (x = k)) as [->|Hne]; rewrite ?Ek, ?Hn, ?lookup_insert_eq, ?lookup_insert_ne by done; done.
Qed.

(** A resource gives the managed configuration of its topic. *)
Lemma resource_ok c t l : seen c (Some t) -> NoDup (List.map fst l) -> list_to_map l = br_configs t ->
  exists configs, put_configs l (ct_configs c) = Some configs /\ with_configs c configs = current_of t.
Proof.
  intros (m & -> & Hm) Hnd Hl. cbn [with_configs ct_configs]. destruct (put_configs_ok l Hnd m) as (m' & E & Hm'). exists (Some m'). split; [exact E|].
  assert (m' = managed_of (br_configs t)) as ->.
  { apply map_eq. intros k. unfold managed_of. rewrite Hm', Hl, map_lookup_filter. destruct (managedConfig k) eqn:Ek.
    - destruct (br_configs t !! k) as [v|] eqn:Ev; cbn; [by rewrite option_guard_True|]. destruct (m !! k) as [v|] eqn:Em; [|done].
      destruct (Hm k v Em) as [_ Hb]. by rewrite Hb in Ev.
    - destruct (m !! k) as [v|] eqn:Em; [destruct (Hm k v Em) as [Hb _]; by rewrite Hb in Ek|].
      destruct (br_configs t !! k) as [v|]; [|done]. cbn [mbind option_bind]. rewrite option_guard_False; [done|]. cbn [fst]. congruence. }
  unfold current_of. by destruct (uniformReplicationFactor _).
Qed.
Lemma loaded_seen c o : loaded c o -> seen c o.
Proof.
  destruct o as [t|]; [|done]. cbn. intros ->. exists (managed_of (br_configs t)). split; [unfold current_of; by destruct (uniformReplicationFactor _)|].
  intros k v Hk. apply map_lookup_filter_Some in Hk. naive_solver.
Qed.

Definition describes (names : list string) (x : resourceConfig) : Prop :=
  rsc_Name x ∈ names /\ exists t, ts !! rsc_Name x = Some t /\
    (rsc_Err x = None -> NoDup (List.map fst (rsc_Configs x)) /\ list_to_map (rsc_Configs x) = br_configs t).
Lemma describe_ok names l : Forall (describes names) l -> forall st, (forall n, n ∈ names -> exists c, st !! n = Some c /\ seen c (ts !! n)) ->
  exists r, describe l st = Some r /\ forall st', r = Ok st' -> forall n, n ∈ names -> exists c, st' !! n = Some c /\
    ((exists x, x ∈ l /\ rsc_Name x = n) \/ (exists c0, st !! n = Some c0 /\ loaded c0 (ts !! n)) -> loaded c (ts !! n)).
Proof.
  induction 1 as [|x l (Hin & t & Et & Hx) Hl IH]; intros st Hst; cbn [describe].
  { eexists. split; [done|]. intros st' [= <-] n Hn. destruct (Hst n Hn) as (c & Hc & _). exists c. split; [done|].
    intros [(x & Hx & _)|(c0 & H0 & Hl)]; [by apply not_elem_of_nil in Hx|]. congruence. }
  destruct (rsc_Err x); [eexists; split; [done|]; intros st' [=]|]. destruct (Hx eq_refl) as [Hnd Hm].
  destruct (Hst _ Hin) as (c & Hc & Hseen). rewrite Hc. change (default currentTopic0 (Some c)) with c. cbv zeta. rewrite Et in Hseen.
  destruct (resource_ok c t (rsc_Configs x) Hseen Hnd Hm) as (configs & -> & Hcur). rewrite Hcur.
  assert (loaded (current_of t) (ts !! rsc_Name x)) as Hld by by rewrite Et.
  destruct (IH (<[rsc_Name x := current_of t]> st)) as (r & Er & Hr).
  { intros n Hn. destruct (decide (n = rsc_Name x)) as [->|]; [rewrite lookup_insert_eq|rewrite lookup_insert_ne by done; by apply Hst].
    exists (current_of t). split; [done|by apply loaded_seen]. }
  exists r. split; [exact Er|]. intros st' Est n Hn. destruct (Hr st' Est n Hn) as (c' & Hc' & Himp). exists c'. split; [done|].
  intros Hor. apply Himp. destruct (decide (n = rsc_Name x)) as [->|Hne]; [right; exists (current_of t); by rewrite lookup_insert_eq|].
  rewrite lookup_insert_ne by done. destruct Hor as [(y & [->|Hy]%elem_of_cons & Ey)|?]; [done|left; eauto|by right].
Qed.
End Loaded.

(** ** One topic *)
Lemma limits_managed f g inf : (f, g, inf) ∈ limits -> managedConfig f = true.
Proof. unfold limits. intros Hin. repeat (apply elem_of_cons in Hin as [[= -> -> ->]|Hin]; [reflexivity|]). by apply not_elem_of_nil in Hin. Qed.
Lemma limits_unique f g inf g' inf' : (f, g, inf) ∈ limits -> (f, g', inf') ∈ limits -> g = g' /\ inf = inf'.
Proof.
  unfold limits. rewrite !elem_of_cons, !elem_of_nil. intros H1 H2. destruct_or! H1; destruct_or! H2; simplify_eq; done.
Qed.
Lemma desired_limit d f g inf : (f, g, inf) ∈ limits -> desiredConfigs d !! f = Some (Itoa (g d)).
Proof. unfold limits. intros Hin. repeat (apply elem_of_cons in Hin as [[= -> -> ->]|Hin]; [reflexivity|]). by apply not_elem_of_nil in Hin. Qed.

Lemma lookup_current t f : managedConfig f = true -> lookup_config (ct_configs (current_of t)) f = br_configs t !! f.
Proof.
  intros Hf. unfold current_of. destruct (uniformReplicationFactor _). unfold lookup_config, managed_of. cbn [ct_configs mbind option_bind].
  rewrite map_lookup_filter. destruct (br_configs t !! f); [|done]. cbn [mbind option_bind]. by rewrite option_guard_True.
Qed.
Lemma current_shape t t' : br_replicas t' = br_replicas t ->
  ct_partitions (current_of t') = ct_partitions (current_of t) /\ ct_heterogeneousReplication (current_of t') = ct_heterogeneousReplication (current_of t) /\
  ct_replicationFactor (current_of t') = ct_replicationFactor (current_of t).
Proof. intros E. unfold current_of. rewrite E. by destruct (uniformReplicationFactor _). Qed.

Lemma bounds_ok d : validateTopicBounds d = None -> 0 < ts_Partitions d /\ 0 < ts_ReplicationFactor d /\
  forall f g inf, (f, g, inf) ∈ limits -> g d = -1 \/ 0 <= g d.
Proof.
  unfold validateTopicBounds. destruct (_ || _) eqn:E; [done|]. intros _. repeat (apply orb_false_elim in E as [E ?]).
  assert (forall z, negb (z =? -1) && (z <=? 0) = false -> z = -1 \/ 0 <= z) as Hr
    by (intros z; destruct (Z.eqb_spec z (-1)); [by left|]; cbn; intros ?%Z.leb_gt; right; lia).
  repeat match goal with H : (_ <=? _) = false |- _ => apply Z.leb_gt in H | H : (_ <? _) = false |- _ => apply Z.ltb_ge in H end.
  split; [lia|]. split; [lia|]. intros f g inf Hin. unfold limits in Hin.
  repeat (apply elem_of_cons in Hin as [[= -> -> ->]|Hin]; [first [by apply Hr|right; lia]|]). by apply not_elem_of_nil in Hin.
Qed.
Lemma Atoi_limit d f g inf : TopicSpec_wf d -> validateTopicBounds d = None -> (f, g, inf) ∈ limits -> Atoi (bytes (Itoa (g d))) = Some (g d).
Proof.
  intros Hwf Hb Hin. destruct (bounds_ok d Hb) as (_ & _ & Hl). destruct (Hl f g inf Hin) as [->|H0]; [reflexivity|]. apply Atoi_Itoa. split; [done|by eapply Hwf].
Qed.

Lemma uniform_rest rf l : Forall (eq rf) l -> rf <> -1 -> uniform_loop l rf = (Z.max 0 rf, true).
Proof.
  intros Hf Hn. induction Hf as [|x l <- Hf IH]; cbn; [done|]. destruct (Z.eqb_spec rf (-1)); [done|]. by rewrite Z.eqb_refl.
Qed.
Lemma uniform_all rf l : Forall (eq rf) l -> l <> [] -> 0 < rf -> uniformReplicationFactor l = (rf, true).
Proof.
  intros Hf Hl Hr. destruct Hf as [|x l <- Hf]; [done|]. unfold uniformReplicationFactor. cbn. rewrite uniform_rest by (done || lia). f_equal. lia.
Qed.

(** A topic created as declared conforms. *)
Lemma created_conforms d t : TopicSpec_wf d -> validateTopicBounds d = None -> Z.of_nat (List.length (br_replicas t)) = ts_Partitions d ->
  Forall (eq (ts_ReplicationFactor d)) (br_replicas t) -> desiredConfigs d ⊆ br_configs t -> conforms d t.
Proof.
  intros Hwf Hb Hp Hr Hc. destruct (bounds_ok d Hb) as (Hp0 & Hr0 & _).
  assert (uniformReplicationFactor (br_replicas t) = (ts_ReplicationFactor d, true)) as Eu
    by (apply uniform_all; [done| |done]; intros E; rewrite E in Hp; cbn in Hp; lia).
  apply conforms_intro.
  1-3: unfold current_of; by rewrite Eu.
  - rewrite lookup_current by done. by apply (lookup_weaken (desiredConfigs d)).
  - intros f g inf Hin. eapply compareConfig_same; [|by eapply Atoi_limit].
    rewrite lookup_current by by eapply limits_managed. eapply lookup_weaken; [by eapply desired_limit|done].
Qed.

(** The fields of an update. *)
Lemma updates_elem c d f : f ∈ (compare_topic c d).1 <-> exists g inf, (f, g, inf) ∈ limits /\ (compareConfig (ct_configs c) f (g d) inf).1 = [f].
Proof.
  assert (forall x inf v, (compareConfig (ct_configs c) x v inf).1 = [] \/ (compareConfig (ct_configs c) x v inf).1 = [x]) as Hone.
  { intros x inf v. unfold compareConfig. repeat case_match; auto. }
  rewrite compare_topic_limits, list_elem_of_In, in_flat_map. split.
  - intros ([[x g] inf] & Hin%list_elem_of_In & Hx%list_elem_of_In). cbn in Hx. destruct (Hone x inf (g d)) as [E|E]; rewrite E in Hx; [by apply not_elem_of_nil in Hx|].
    apply list_elem_of_singleton in Hx as ->. eauto.
  - intros (g & inf & Hin & E). exists (f, g, inf). split; [by apply list_elem_of_In|]. cbn. rewrite E. by left.
Qed.
Definition set_configs (fields : list string) (d : TopicSpec) : list (string * string) :=
  List.map (fun f => (f, default "" (desiredConfigs d !! f))) fields.
Lemma mapM_desired fields d : (forall f, f ∈ fields -> is_Some (desiredConfigs d !! f)) ->
  mapM (fun field => v ← desiredConfigs d !! field; Some (field, v)) fields = Some (set_configs fields d).
Proof.
  induction fields as [|f fields IH]; intros Hf; [done|]. cbn [mapM]. destruct (Hf f ltac:(by left)) as [v Ev]. rewrite Ev. cbn [mbind option_bind].
  rewrite IH by (intros x Hx; apply Hf; by right). cbn [mbind option_bind]. unfold set_configs. cbn [List.map]. by rewrite Ev.
Qed.
Lemma set_configs_lookup fields d f : list_to_map (M := gmap string string) (set_configs fields d) !! f
  = if decide (f ∈ fields) then Some (default "" (desiredConfigs d !! f)) else None.
Proof.
  induction fields as [|x fields IH]; cbn [set_configs List.map list_to_map foldr fst snd]; [by rewrite lookup_empty|].
  destruct (decide (f = x)) as [->|Hne]; [rewrite lookup_insert_eq, decide_True; [done|by left]|]. rewrite lookup_insert_ne by done.
  fold (set_configs fields d). rewrite IH.
  destruct (decide (f ∈ fields)) as [Hin|Hout]; [rewrite decide_True; [done|by right]|]. rewrite decide_False; [done|]. by intros [?|?]%elem_of_cons.
Qed.

(** A topic after its update. *)
Definition updated (fields : list string) (d : TopicSpec) (t : topicState) : topicState :=
  {| br_replicas := br_replicas t; br_configs := list_to_map (set_configs fields d) ∪ br_configs t |}.
Lemma updated_ok d t fields : TopicSpec_wf d -> validateTopicBounds d = None -> (compare_topic (current_of t) d).2 = [] ->
  fields ≡ₚ (compare_topic (current_of t) d).1 -> kept t (updated fields d t) /\ conforms d (updated fields d t).
Proof.
  intros Hwf Hb Hc Hf. destruct (compare_topic_clean _ _ Hc) as (H1 & H2 & H3 & H4 & H5).
  destruct (current_shape t (updated fields d t) eq_refl) as (S1 & S2 & S3).
  assert (forall f, br_configs (updated fields d t) !! f = if decide (f ∈ fields) then Some (default "" (desiredConfigs d !! f)) else br_configs t !! f) as Hlook.
  { intros f. cbn. rewrite lookup_union, set_configs_lookup. destruct (decide (f ∈ fields)); [by destruct (br_configs t !! f)|]. by destruct (br_configs t !! f). }
  assert (forall f g inf, (f, g, inf) ∈ limits -> exists raw old, br_configs t !! f = Some raw /\ Atoi (bytes raw) = Some old /\
    (f ∉ fields /\ old = g d \/ f ∈ fields /\ raised old (g d))) as Hlim.
  { intros f g inf Hin. specialize (H5 f g inf Hin). destruct (compareConfig _ f (g d) inf) as [u w] eqn:Eu. cbn in H5. subst w.
    destruct (compareConfig_ok _ _ _ _ _ Eu) as (raw & old & El & Ea & Hu). rewrite lookup_current in El by by eapply limits_managed.
    exists raw, old. split_and!; [done..|]. destruct Hu as [[-> ?]|[-> ?]]; [left|right]; (split; [|done]); rewrite Hf, updates_elem; [|exists g, inf; by rewrite Eu].
    intros (g' & inf' & Hin' & E'). destruct (limits_unique _ _ _ _ _ Hin Hin') as [<- <-]. by rewrite Eu in E'. }
  split; [split; [done|]|apply conforms_intro].
  - intros f. rewrite Hlook. destruct (decide (f ∈ fields)) as [Hin|]; [right|by left]. pose proof Hin as Hup. rewrite Hf in Hup. apply updates_elem in Hup as (g & inf & Hg & _).
    split; [by eauto|]. destruct (Hlim f g inf Hg) as (raw & old & Er & Ea & [[? _]|[_ Hr]]); [done|]. rewrite (desired_limit d f g inf Hg). cbn.
    exists raw, (Itoa (g d)), old, (g d). split_and!; auto. by eapply Atoi_limit.
  - congruence.
  - congruence.
  - congruence.
  - rewrite lookup_current, Hlook by done. rewrite lookup_current in H4 by done. rewrite decide_False; [done|]. intros Hin. rewrite Hf in Hin.
    apply updates_elem in Hin as (g & inf & Hg & _). unfold limits in Hg. rewrite !elem_of_cons, elem_of_nil in Hg. destruct_or! Hg; discriminate Hg || done.
  - intros f g inf Hg. destruct (Hlim f g inf Hg) as (raw & old & Er & Ea & [[Hout ->]|[Hin Hr]]).
    + eapply compareConfig_same; [|exact Ea]. rewrite lookup_current, Hlook by by eapply limits_managed. by rewrite decide_False.
    + eapply compareConfig_same; [|by eapply Atoi_limit]. rewrite lookup_current, Hlook by by eapply limits_managed.
      by rewrite decide_True, (desired_limit d f g inf Hg).
Qed.

(** What the plan says of a topic. *)
Definition planned (d : TopicSpec) (o : option topicState) (c : TopologyChange) : Prop :=
  tc_Topic c = ts_Name d /\
  match tc_Action c, o with
  | TopologyActionCreate, None => True
  | TopologyActionNone, Some t => conforms d t
  | TopologyActionUpdate, Some t =>
      (compare_topic (current_of t) d).2 = [] /\ tc_Fields c ≡ₚ (compare_topic (current_of t) d).1 /\ (compare_topic (current_of t) d).1 <> []
  | TopologyActionConflict, Some t => (compare_topic (current_of t) d).2 <> []
  | _, _ => False
  end.
Lemma topic_change_ok st d c o : st !! ts_Name d = Some c -> loaded c o -> planned d o (topic_change st d).
Proof.
  intros E Hl. unfold topic_change. rewrite E. change (default currentTopic0 (Some c)) with c. cbv zeta. destruct o as [t|]; cbn in Hl; subst c; [|by split].
  assert (ct_exists (current_of t) = true) as -> by (unfold current_of; by destruct (uniformReplicationFactor _)). cbn [negb].
  destruct (compare_topic (current_of t) d) as [[|u us] [|x xs]] eqn:Ec; (split; [done|]); cbn [tc_Action tc_Fields]; rewrite ?Ec; try done.
  split_and!; [done| |done]. exact (merge_sort_Permutation string_le (u :: us)).
Qed.

(** ** Accepted topologies *)
Lemma index_loop_ok l : forall ts fs ts' fs', index_loop l ts fs = Ok (ts', fs') ->
  NoDup (List.map ts_Name l) /\ Forall (fun t => ts !! ts_Name t = None) l /\ Forall (fun t => validateTopicSpec t = None) l /\
  (forall n t, ts' !! n = Some t -> ts !! n = Some t \/ t ∈ l /\ ts_Name t = n).
Proof.
  induction l as [|t l IH]; intros ts fs ts' fs' E; cbn [index_loop] in E.
  { injection E as <- _. split_and!; [constructor..|by auto]. }
  destruct (ts !! ts_Name t) eqn:Et; [done|]. destruct (validateTopicSpec t) eqn:Ev; [done|]. destruct (recordFamilyTopic fs t) as [fs1|]; [|done].
  destruct (IH _ _ _ _ E) as (Hnd & Hnew & Hv & Hts). cbn [List.map].
  assert (forall x, x ∈ l -> ts_Name x <> ts_Name t /\ ts !! ts_Name x = None) as Hx.
  { intros x Hx. rewrite Forall_forall in Hnew. specialize (Hnew x Hx). destruct (decide (ts_Name x = ts_Name t)) as [Ex|Ex];
      [by rewrite Ex, lookup_insert_eq in Hnew|]. by rewrite lookup_insert_ne in Hnew by done. }
  split_and!.
  - constructor; [|done]. intros Hin. apply list_elem_of_In, in_map_iff in Hin as (x & Ex & Hin%list_elem_of_In). by destruct (Hx x Hin).
  - constructor; [done|]. apply Forall_forall. intros x Hin. by destruct (Hx x Hin).
  - by constructor.
  - intros n y Hy. destruct (Hts n y Hy) as [Hi|[Hi <-]]; [|right; split; [by right|done]].
    destruct (decide (n = ts_Name t)) as [->|Hne]; [rewrite lookup_insert_eq in Hi; injection Hi as <-; right; split; [by left|done]|].
    left. by rewrite lookup_insert_ne in Hi by done.
Qed.
Lemma spec_bounds t : validateTopicSpec t = None -> validateTopicBounds t = None.
Proof. unfold validateTopicSpec. destruct (validateTopicName _); [done|]. by destruct (validateTopicBounds t). Qed.
Lemma valid_topics `{!Manifest.MapRange} t : ValidateTopology t = None ->
  NoDup (List.map ts_Name (tp_Topics t)) /\ Forall (fun x => validateTopicSpec x = None) (tp_Topics t).
Proof.
  unfold ValidateTopology. destruct (_ || _); [done|]. destruct (indexTopology (tp_Topics t)) as [[ts fs]|] eqn:E; [|done]. intros _.
  by destruct (index_loop_ok _ _ _ _ _ E) as (? & _ & ? & _).
Qed.
Lemma by_name_lookup l d : NoDup (List.map ts_Name l) -> d ∈ l -> by_name l !! ts_Name d = Some d.
Proof.
  assert (forall m : gmap string TopicSpec, NoDup (List.map ts_Name l) -> (d ∈ l -> fold_left (fun m t => <[ts_Name t := t]> m) l m !! ts_Name d = Some d) /\
    (ts_Name d ∉ List.map ts_Name l -> fold_left (fun m t => <[ts_Name t := t]> m) l m !! ts_Name d = m !! ts_Name d)) as Hf.
  { induction l as [|x l IH]; intros m Hnd; cbn [fold_left List.map] in *; [split; [by intros ?%elem_of_nil|done]|].
    apply NoDup_cons in Hnd as [Hx Hnd]. split.
    - intros [->|Hin]%elem_of_cons; [rewrite (proj2 (IH _ Hnd)) by done; apply lookup_insert_eq|by apply IH].
    - intros [Hne Hout]%not_elem_of_cons. rewrite (proj2 (IH _ Hnd)) by done. by apply lookup_insert_ne. }
  intros Hnd Hin. by apply Hf.
Qed.

(** ** Families *)
Lemma retry_name name source c tier : retryTierFromTopic name source c = Ok tier -> RetryTopic source c tier = Ok name.
Proof.
  unfold retryTierFromTopic. destruct (consumerTopic _ _ _); [|done]. destruct (GoStrings.strip_prefix _ _); [|done]. destruct (Atoi _) as [z|]; [|done].
  destruct (z <? 0); [done|]. destruct (RetryTopic source c z) as [e|] eqn:Er; [|done]. destruct (String.eqb_spec e name) as [->|]; [|done]. by intros [= <-].
Qed.
Lemma consumerTopic_nonempty source c suffix t : consumerTopic source c suffix = Ok t -> t <> "".
Proof. intros [_ ->]%consumerTopic_spec. by destruct source. Qed.

(** The purpose of a service topic. *)
Definition serves (x : TopicSpec) (p : purpose) : Prop :=
  match p with
  | Retry i => role_is x TopicRoleRetry = true /\ retryTierFromTopic (ts_Name x) (ts_SourceTopic x) (ts_ConsumerID x) = Ok i
  | Replay => role_is x TopicRoleReplay = true
  | DLQ => role_is x TopicRoleDLQ = true
  end.
Lemma role_other x a b : role_is x a = true -> a <> b -> role_is x b = false.
Proof. unfold role_is. intros ->%String.eqb_eq Hne. by apply String.eqb_neq. Qed.
Lemma serves_name x p : validateTopicSpec x = None -> serves x p -> service_topic (ts_SourceTopic x) (ts_ConsumerID x) p = Ok (ts_Name x).
Proof.
  intros Hv Hs. destruct p as [i| |]; cbn [serves service_topic] in *; [destruct Hs; by apply retry_name|..].
  all: unfold validateTopicSpec in Hv; destruct (validateTopicName (ts_Name x)); [done|]; destruct (validateTopicBounds x); [done|].
  all: rewrite Hs, (role_other x _ TopicRoleSource Hs) in Hv by done; rewrite ?orb_true_r in Hv; cbn [orb] in Hv; unfold validateServiceTopicSpec in Hv.
  all: destruct (validateTopicName (ts_SourceTopic x)); [done|]; destruct (validateConsumerID _); [done|]; destruct (validateServiceMessageSize x); [done|].
  all: destruct (validateServiceTopicName x) eqn:En; [done|]; unfold validateServiceTopicName in En.
  all: rewrite (role_other x _ TopicRoleSource Hs), (role_other x _ TopicRoleRetry Hs) in En by done.
  - rewrite Hs in En. unfold ReplayTopic in *. destruct (consumerTopic _ _ _) as [e|] eqn:Ee; [|done]. pose proof (consumerTopic_nonempty _ _ _ _ Ee) as Hne.
    apply String.eqb_neq in Hne. rewrite Hne in En. cbn in En. by destruct (String.eqb_spec (ts_Name x) e) as [->|].
  - rewrite (role_other x _ TopicRoleReplay Hs), Hs in En by done. unfold DLQTopic in *. destruct (consumerTopic _ _ _) as [e|] eqn:Ee; [|done].
    pose proof (consumerTopic_nonempty _ _ _ _ Ee) as Hne. apply String.eqb_neq in Hne. rewrite Hne in En. cbn in En.
    by destruct (String.eqb_spec (ts_Name x) e) as [->|].
Qed.

(** What the families record of the topics read so far. *)
Definition records (P : TopicSpec -> Prop) (fs : families) : Prop :=
  (forall key f, fs !! key = Some f ->
     (forall i, i ∈ fs_retryTiers f <-> exists x, P x /\ key_of x = key /\ serves x (Retry i)) /\
     (fs_replay f = true -> exists x, P x /\ key_of x = key /\ serves x Replay) /\ (fs_dlq f = true -> exists x, P x /\ key_of x = key /\ serves x DLQ)) /\
  (forall x, P x -> role_is x TopicRoleSource = false -> is_Some (fs !! key_of x)).

Lemma family_records P fs key : records P fs -> let f := default family0 (fs !! key) in
  (forall i, i ∈ fs_retryTiers f <-> exists x, P x /\ key_of x = key /\ serves x (Retry i)) /\
  (fs_replay f = true -> exists x, P x /\ key_of x = key /\ serves x Replay) /\ (fs_dlq f = true -> exists x, P x /\ key_of x = key /\ serves x DLQ).
Proof.
  intros [H1 H2]. destruct (fs !! key) as [f|] eqn:E; cbn; [by apply H1|]. split_and!; [|done..]. intros i. rewrite elem_of_empty. split; [done|].
  intros (x & Hx & <- & [Hr _]). destruct (H2 x Hx) as [y Hy]; [by eapply role_other|]. by rewrite E in Hy.
Qed.
Lemma record_ok P fs t fs' : records P fs -> recordFamilyTopic fs t = Ok fs' -> records (fun x => P x \/ x = t) fs'.
Proof.
  intros HR E. pose proof (family_records P fs (key_of t) HR) as (F1 & F2 & F3). cbv zeta in F1, F2, F3. unfold recordFamilyTopic in E.
  assert (forall f, fs' = <[key_of t := f]> fs -> role_is t TopicRoleSource = false ->
    (forall i, i ∈ fs_retryTiers f <-> (exists x, P x /\ key_of x = key_of t /\ serves x (Retry i)) \/ serves t (Retry i)) ->
    (fs_replay f = true -> fs_replay (default family0 (fs !! key_of t)) = true \/ serves t Replay) ->
    (fs_dlq f = true -> fs_dlq (default family0 (fs !! key_of t)) = true \/ serves t DLQ) -> records (fun x => P x \/ x = t) fs') as Hput.
  { intros f -> Hns G1 G2 G3. destruct HR as [R1 R2]. split.
    - intros key f' Hf'. destruct (decide (key = key_of t)) as [->|Hne].
      + rewrite lookup_insert_eq in Hf'. injection Hf' as <-. split_and!.
        * intros i. rewrite G1. split; [intros [(x & ? & ? & ?)|?]; eauto 10|]. intros (x & [Hx| ->] & Hk & Hs); eauto 10.
        * intros Hr. destruct (G2 Hr) as [Hr'|?]; [destruct (F2 Hr') as (x & ? & ? & ?)|]; eauto 10.
        * intros Hr. destruct (G3 Hr) as [Hr'|?]; [destruct (F3 Hr') as (x & ? & ? & ?)|]; eauto 10.
      + rewrite lookup_insert_ne in Hf' by done. destruct (R1 key f' Hf') as (Q1 & Q2 & Q3). split_and!.
        * intros i. rewrite Q1. split; intros (x & Hx & Hk & Hs); exists x; [eauto|]. destruct Hx as [Hx| ->]; [done|congruence].
        * intros Hr. destruct (Q2 Hr) as (x & ? & ? & ?). eauto.
        * intros Hr. destruct (Q3 Hr) as (x & ? & ? & ?). eauto.
    - intros x Hx Hr. destruct (decide (key_of x = key_of t)) as [->|Hne]; [rewrite lookup_insert_eq; by eexists|]. rewrite lookup_insert_ne by done.
      destruct Hx as [Hx| ->]; [by apply R2|done]. }
  destruct (role_is t TopicRoleSource) eqn:Es.
  { injection E as <-. destruct HR as [R1 R2]. split.
    - intros key f Hf. destruct (R1 key f Hf) as (Q1 & Q2 & Q3). split_and!; [|intros Hr; destruct (Q2 Hr) as (x & ? & ? & ?); eauto|intros Hr; destruct (Q3 Hr) as (x & ? & ? & ?); eauto].
      intros i. rewrite Q1. split; intros (x & Hx & Hk & Hs); exists x; [eauto|]. destruct Hx as [Hx| ->]; [done|]. destruct Hs as [Hs _].
      by rewrite (role_other _ _ TopicRoleSource Hs) in Es by done.
    - intros x [Hx| ->] Hr; [by apply R2|congruence]. }
  cbv zeta in E. destruct (role_is t TopicRoleRetry) eqn:Er.
  { destruct (retryTierFromTopic _ _ _) as [tier|] eqn:Et; [|done]. destruct (bool_decide (tier ∈ _)); [done|]. injection E as <-. eapply Hput; [done|done|..]; cbn; auto.
    intros i. rewrite elem_of_union, elem_of_singleton, F1. split; [intros [->|?]; auto|]. intros [?|[_ Hi]]; [by right|left]. rewrite Et in Hi. by injection Hi as ->. }
  assert (forall i, ~ serves t (Retry i)) as Hnr by (intros i [Hr _]; by rewrite Hr in Er).
  destruct (role_is t TopicRoleReplay) eqn:Ep.
  { destruct (fs_replay _) eqn:Ef; [done|]. injection E as <-. eapply Hput; [done|done|..]; cbn; auto. intros i. rewrite F1. split; [auto|]. intros [?|?]; [done|by destruct (Hnr i)]. }
  destruct (role_is t TopicRoleDLQ) eqn:Ed; [|done].
  destruct (fs_dlq _) eqn:Ef; [done|]. injection E as <-. eapply Hput; [done|done|..]; cbn; auto. intros i. rewrite F1. split; [auto|]. intros [?|?]; [done|by destruct (Hnr i)].
Qed.
Lemma records_ext P Q fs : (forall x, P x <-> Q x) -> records P fs -> records Q fs.
Proof. intros H [H1 H2]. split; [|intros x Hx; by apply H2, H]. intros key f Hf. destruct (H1 key f Hf) as (Q1 & Q2 & Q3). setoid_rewrite <- H. by split_and!. Qed.
Lemma index_records l : forall P ts fs ts' fs', records P fs -> index_loop l ts fs = Ok (ts', fs') -> records (fun x => P x \/ x ∈ l) fs'.
Proof.
  induction l as [|t l IH]; intros P ts fs ts' fs' HR E; cbn [index_loop] in E.
  { injection E as _ <-. eapply records_ext; [|exact HR]. intros x. rewrite elem_of_nil. tauto. }
  destruct (ts !! ts_Name t); [done|]. destruct (validateTopicSpec t); [done|]. destruct (recordFamilyTopic fs t) as [fs1|] eqn:Er; [|done].
  eapply records_ext; [|eapply IH; [by eapply record_ok|exact E]]. intros x. rewrite elem_of_cons. tauto.
Qed.

Lemma complete_family f : validateCompleteFamily f = None -> exists n, 1 <= n /\ (forall i, i ∈ fs_retryTiers f <-> 0 <= i < n) /\ fs_replay f = true /\ fs_dlq f = true.
Proof.
  unfold validateCompleteFamily. set (n := size (fs_retryTiers f)). destruct (bool_decide_reflect (n = 0%nat)); [done|].
  destruct (fs_replay f); [|done]. destruct (fs_dlq f); [|done]. cbn [negb orb]. destruct (forallb _ _) eqn:Ea; [|done]. intros _.
  exists (Z.of_nat n). split; [lia|]. split; [|done]. rewrite forallb_forall in Ea.
  assert (list_to_set (seqZ 0 (Z.of_nat n)) ⊆ fs_retryTiers f) as Hsub.
  { intros i Hi%elem_of_list_to_set. apply list_elem_of_In, Ea in Hi. by apply bool_decide_eq_true in Hi. }
  assert (fs_retryTiers f = list_to_set (seqZ 0 (Z.of_nat n))) as ->; [|intros i; rewrite elem_of_list_to_set, elem_of_seqZ; lia].
  apply leibniz_equiv. symmetry. apply set_subseteq_size_equiv; [done|]. rewrite size_list_to_set by apply NoDup_seqZ. rewrite length_seqZ. fold n. lia.
Qed.
Lemma first_error_None {A} (check : A -> option error) l : first_error check l = None -> forall x, x ∈ l -> check x = None.
Proof.
  induction l as [|y l IH]; cbn; [by intros _ x ?%elem_of_nil|]. destruct (check y) eqn:E; [done|]. intros Hl x [->|Hx]%elem_of_cons; [done|by apply IH].
Qed.

(** An accepted Kafka topology is complete, whatever the order in which Go
    visits its maps: for the consumer of every declared service topic the source
    topic is declared, and so are its replay topic, its dead-letter topic and the
    retry topics of the tiers from zero to some number, under the names that the
    consumer uses and with as many partitions as the source; there are no other
    tiers. *)
Theorem kafka_topology_complete `{!Manifest.MapRange} t d : ValidateTopology t = None -> d ∈ tp_Topics t -> ts_Role d <> TopicRoleSource ->
  exists source n, source ∈ tp_Topics t /\ ts_Name source = ts_SourceTopic d /\ ts_Role source = TopicRoleSource /\
    ts_Partitions d = ts_Partitions source /\ 1 <= n /\
    (forall p, match p with Retry i => 0 <= i < n | _ => True end ->
       exists x, x ∈ tp_Topics t /\ service_topic (ts_SourceTopic d) (ts_ConsumerID d) p = Ok (ts_Name x) /\ ts_Partitions x = ts_Partitions source) /\
    (forall x i, x ∈ tp_Topics t -> key_of x = key_of d -> serves x (Retry i) -> 0 <= i < n).
Proof.
  intros Hv Hd Hr. destruct (valid_topics t Hv) as [_ Hspec]. rewrite Forall_forall in Hspec. unfold ValidateTopology in Hv. destruct (_ || _); [done|].
  unfold indexTopology in Hv. destruct (index_loop (tp_Topics t) ∅ ∅) as [[ts fs]|] eqn:Ei; [|done].
  destruct (index_loop_ok _ _ _ _ _ Ei) as (_ & _ & _ & Hts).
  assert (records (fun x => False \/ x ∈ tp_Topics t) fs) as [R1 R2].
  { eapply index_records; [|exact Ei]. split; [intros key f Hf; by rewrite lookup_empty in Hf|done]. }
  destruct (R2 d) as [f Hf]; [by right|by apply String.eqb_neq|]. destruct (R1 _ _ Hf) as (F1 & F2 & F3).
  assert ((key_of d, f) ∈ Manifest.range fs) as Hin by (rewrite Manifest.range_perm; by apply elem_of_map_to_list).
  pose proof (first_error_None _ _ Hv _ Hin) as Hfam. cbn [fst snd] in Hfam. unfold validate_family in Hfam.
  destruct (ts !! (key_of d).1) as [source|] eqn:Es; [|done]. destruct (role_is source TopicRoleSource) eqn:Ers; [|done]. cbn [negb] in Hfam.
  destruct (validateCompleteFamily f) eqn:Ec; [done|]. destruct (complete_family f Ec) as (n & Hn & Htiers & Hrep & Hdlq).
  destruct (Hts _ _ Es) as [Hno|[Hsrc Hname]]; [by rewrite lookup_empty in Hno|].
  assert (forall x, x ∈ tp_Topics t -> key_of x = key_of d -> ts_Partitions x = ts_Partitions source) as Hparts.
  { unfold validateFamilyPartitions in Hfam. destruct (forallb _ _) eqn:Ea; [|done]. rewrite forallb_forall in Ea. intros x Hx [= K1 K2].
    specialize (Ea x ltac:(by apply list_elem_of_In)). cbn in Ea. rewrite K1, K2, !String.eqb_refl in Ea. cbn in Ea.
    by destruct (Z.eqb_spec (ts_Partitions x) (ts_Partitions source)). }
  assert (forall p, (exists x, (False \/ x ∈ tp_Topics t) /\ key_of x = key_of d /\ serves x p) ->
    exists x, x ∈ tp_Topics t /\ service_topic (ts_SourceTopic d) (ts_ConsumerID d) p = Ok (ts_Name x) /\ ts_Partitions x = ts_Partitions source) as Hout.
  { intros p (x & [[]|Hx] & Hk & Hs). exists x. split; [done|]. split; [|by apply Hparts]. pose proof (serves_name x p (Hspec x Hx) Hs) as Hsn.
    unfold key_of in Hk. injection Hk as K1 K2. by rewrite <- K1, <- K2. }
  exists source, n. split_and!; [done|done|by apply String.eqb_eq|by apply Hparts|done| |].
  - intros [i| |] Hp; apply Hout; [by apply F1, Htiers|by apply F2|by apply F3].
  - intros x i Hx Hk Hs. apply Htiers, F1. eauto.
Qed.

Section Laws.
Context {S : Type} `{!Manifest.MapRange, !KafkaAdmin S, !AdminLaws S}.
Implicit Types s : S.

Lemma load_ok t s s' r : loadCurrentTopology t s = (s', r) -> topics s' = topics s /\
  exists x, r = Some x /\ forall st, x = Ok st -> forall n, n ∈ List.map ts_Name (tp_Topics t) -> exists c, st !! n = Some c /\ loaded c (topics s !! n).
Proof.
  unfold loadCurrentTopology. set (names := List.map ts_Name (tp_Topics t)). destruct (ListTopics names s) as [s1 r1] eqn:E1.
  apply ListTopics_law in E1 as [Ht1 Hl]. destruct r1 as [details|err]; [|intros [= <- <-]; split; [done|]; eexists; split; [done|]; by intros st [=]].
  specialize (Hl details eq_refl). destruct (inspect details names ∅ []) as [[st ex]|err] eqn:Ei;
    [|intros [= <- <-]; split; [done|]; eexists; split; [done|]; by intros st [=]].
  destruct (inspect_ok (topics s) details names Hl _ _ _ _ Ei) as (Hseen & _ & Hex).
  destruct ex as [|e0 ex].
  { intros [= <- <-]. split; [done|]. eexists. split; [done|]. intros st' [= <-] n Hn. destruct (Hseen n Hn) as (c & Hc & Hs). exists c. split; [done|].
    destruct (topics s !! n) as [x|] eqn:Ex; [|done]. assert (n ∈ []) as Hno by (apply Hex; right; by rewrite Ex). by apply not_elem_of_nil in Hno. }
  destruct (DescribeTopicConfigs (e0 :: ex) s1) as [s2 r2] eqn:E2. apply DescribeTopicConfigs_law in E2 as [Ht2 Hd].
  destruct r2 as [l|err]; [|intros [= <- <-]; split; [congruence|]; eexists; split; [done|]; by intros st' [=]].
  destruct (Hd l eq_refl) as (Hin & Hall & Hcfg). intros [= <- <-]. split; [congruence|].
  assert (Forall (describes (topics s) names) l) as Hdesc.
  { apply Forall_forall. intros x Hx. specialize (Hin x Hx). apply Hex in Hin as [Hin|[Hin [y Ey]]]; [by apply not_elem_of_nil in Hin|].
    split; [done|]. exists y. split; [done|]. intros He. apply Hcfg; [done|done|by rewrite Ht1]. }
  destruct (describe_ok (topics s) names l Hdesc st Hseen) as (x & -> & Hx). exists x. split; [done|]. intros st' Est n Hn.
  destruct (Hx st' Est n Hn) as (c & Hc & Himp). exists c. split; [done|]. apply Himp.
  destruct (topics s !! n) as [y|] eqn:Ey; [left|right].
  - apply Hall, Hex. right. split; [done|by rewrite Ey].
  - destruct (Hseen n Hn) as (c0 & Hc0 & Hs0). exists c0. split; [done|]. by rewrite Ey in Hs0.
Qed.

(** ** Applying *)
(** The topic of [d] is as before, or is changed as it may be. *)
Definition settled (d : TopicSpec) (o o' : option topicState) : Prop :=
  o' = o \/ exists t', o' = Some t' /\ match o with Some t => kept t t' | None => conforms d t' end.
Definition conforms_in (d : TopicSpec) (o : option topicState) : Prop := exists t, o = Some t /\ conforms d t.

Lemma apply_change_ok byName d c s s' e : byName !! ts_Name d = Some d -> TopicSpec_wf d -> validateTopicBounds d = None ->
  planned d (topics s !! ts_Name d) c -> apply_change byName c s = (s', e) ->
  (forall n, n <> ts_Name d -> topics s' !! n = topics s !! n) /\ settled d (topics s !! ts_Name d) (topics s' !! ts_Name d) /\
  (e = None -> conforms_in d (topics s' !! ts_Name d)).
Proof.
  intros Hn Hwf Hb [Ht Hp] E. unfold apply_change in E. rewrite Ht, Hn in E. change (default TopicSpec0 (Some d)) with d in E. cbv zeta in E.
  destruct (tc_Action c); destruct (topics s !! ts_Name d) as [t|] eqn:Eo; try done.
  - injection E as <- <-. rewrite Eo. split_and!; [done|by left|]. intros _. by exists t.
  - unfold createManagedTopic in E. destruct (CreateTopic _ _ _ _ s) as [s1 e1] eqn:Ec. injection E as <- <-.
    apply CreateTopic_law in Ec as [[-> [err ->]]|(_ & t & -> & H1 & H2 & H3)].
    + rewrite Eo. split_and!; [done|by left|done].
    + assert (conforms d t) as Hc by by apply created_conforms. rewrite lookup_insert_eq. split_and!; [intros n Hne; by rewrite lookup_insert_ne|right; by exists t|].
      intros _. by exists t.
  - destruct Hp as (Hc & Hf & _). unfold updateManagedTopic in E. rewrite mapM_desired in E.
    2: { intros f Hin. rewrite Hf in Hin. apply updates_elem in Hin as (g & inf & Hin & _). rewrite (desired_limit d f g inf Hin). by eexists. }
    destruct (updated_ok d t (tc_Fields c) Hwf Hb Hc Hf) as [Hk Hcf]. destruct (set_configs (tc_Fields c) d) as [|kv kvs] eqn:Es.
    + injection E as <- <-. rewrite Eo. split_and!; [done|by left|]. intros _. exists t. split; [done|]. destruct (tc_Fields c); [|done].
      apply Permutation_nil in Hf. unfold conforms. destruct (compare_topic _ _). cbn in Hc, Hf. by subst.
    + destruct (AlterTopicConfigs _ _ s) as [s1 e1] eqn:Ea. injection E as <- <-. apply AlterTopicConfigs_law in Ea as [[-> [err ->]]|(t0 & Et0 & ->)].
      * rewrite Eo. split_and!; [done|by left|done].
      * rewrite Eo in Et0. injection Et0 as <-. rewrite <- Es, lookup_insert_eq. fold (updated (tc_Fields c) d t).
        split_and!; [intros n Hne; by rewrite lookup_insert_ne|right; by eexists|]. intros _. by eexists.
  - injection E as <- <-. rewrite Eo. split_and!; [done|by left|done].
Qed.

Lemma apply_changes_ok byName st ds : NoDup (List.map ts_Name ds) ->
  Forall (fun d => byName !! ts_Name d = Some d /\ TopicSpec_wf d /\ validateTopicBounds d = None) ds -> forall s s' e,
  Forall (fun d => planned d (topics s !! ts_Name d) (topic_change st d)) ds -> apply_changes byName (List.map (topic_change st) ds) s = (s', e) ->
  (forall n, n ∉ List.map ts_Name ds -> topics s' !! n = topics s !! n) /\
  Forall (fun d => settled d (topics s !! ts_Name d) (topics s' !! ts_Name d) /\ (e = None -> conforms_in d (topics s' !! ts_Name d))) ds.
Proof.
  induction ds as [|d ds IH]; intros Hnd Hok s s' e Hp E; cbn [List.map apply_changes] in *; [injection E as <- <-; by split|].
  apply NoDup_cons in Hnd as [Hd Hnd]. apply Forall_cons in Hok as [(Hb & Hwf & Hbd) Hok]. apply Forall_cons in Hp as [Hp Hps].
  destruct (apply_change byName (topic_change st d) s) as [s1 e1] eqn:E1. destruct (apply_change_ok byName d _ s s1 e1 Hb Hwf Hbd Hp E1) as (H1 & H2 & H3).
  assert (forall x, x ∈ ds -> ts_Name x <> ts_Name d) as Hne.
  { intros x Hx En. apply Hd. rewrite <- En. by apply list_elem_of_In, in_map, list_elem_of_In. }
  destruct e1 as [err|].
  { injection E as <- <-. split; [intros n [Hn _]%not_elem_of_cons; by apply H1|]. constructor; [by split|]. apply Forall_forall. intros x Hx.
    split; [|done]. rewrite H1 by by apply Hne. by left. }
  assert (Forall (fun x => planned x (topics s1 !! ts_Name x) (topic_change st x)) ds) as Hps1.
  { rewrite Forall_forall in Hps |- *. intros x Hx. rewrite H1 by by apply Hne. by apply Hps. }
  destruct (IH Hnd Hok s1 s' e Hps1 E) as [I1 I2]. split.
  - intros n [Hn Hns]%not_elem_of_cons. by rewrite I1, H1.
  - constructor; [rewrite I1 by done; auto|]. rewrite Forall_forall in I2 |- *. intros x Hx. rewrite <- (H1 (ts_Name x)) by by apply Hne. by apply I2.
Qed.

Lemma plan_ok closed t s s' r : planTopology closed t s = (s', r) -> topics s' = topics s /\
  exists x, r = Some x /\ forall plan, x = Ok plan -> exists st ds, pl_Changes plan = List.map (topic_change st) ds /\ tp_Topics t ≡ₚ ds /\
    Forall (fun d => planned d (topics s !! ts_Name d) (topic_change st d)) ds.
Proof.
  unfold planTopology. destruct closed; [intros [= <- <-]; split; [done|]; eexists; split; [done|]; by intros plan [=]|].
  destruct (loadCurrentTopology t s) as [s1 r1] eqn:El. apply load_ok in El as (Ht & x & -> & Hx).
  destruct x as [st|err]; intros [= <- <-]; (split; [done|]); eexists; (split; [done|]); intros plan [= <-].
  assert (pl_Changes (buildTopologyPlan t st) ≡ₚ List.map (topic_change st) (tp_Topics t)) as Hperm by apply merge_sort_Permutation.
  apply Permutation_map_inv in Hperm as (ds & Eds & Hds). exists st, ds. split_and!; [done..|]. rewrite <- Hds. apply Forall_forall. intros d Hd.
  destruct (Hx st eq_refl (ts_Name d)) as (c & Hc & Hl); [by apply list_elem_of_In, in_map, list_elem_of_In|]. by eapply topic_change_ok.
Qed.

(** A plan without work changes nothing. *)
Lemma idle_plan byName l s : existsb (fun c => bool_decide (tc_Action c = TopologyActionConflict)) l = false ->
  existsb (fun c => bool_decide (tc_Action c = TopologyActionCreate) || bool_decide (tc_Action c = TopologyActionUpdate)) l = false ->
  apply_changes byName l s = (s, None).
Proof.
  induction l as [|c l IH]; cbn [existsb apply_changes]; [done|]. intros [H1 H1']%orb_false_elim [H2 H2']%orb_false_elim.
  unfold apply_change. destruct (tc_Action c); cbn in H1, H2; try done. by apply IH.
Qed.
(** A broker that conforms leaves nothing to do. *)
Lemma conforming_plan closed t s s' plan : planTopology closed t s = (s', Some (Ok plan)) ->
  Forall (fun d => conforms_in d (topics s !! ts_Name d)) (tp_Topics t) -> HasChanges plan = false /\ HasConflicts plan = false.
Proof.
  intros E Hc. apply plan_ok in E as (_ & x & [= <-] & Hx). destruct (Hx plan eq_refl) as (st & ds & Ep & Hds & Hp). rewrite Hds in Hc.
  unfold HasChanges, HasConflicts. rewrite Ep. clear -Hc Hp. induction ds as [|d ds IH]; cbn [List.map existsb]; [done|].
  apply Forall_cons in Hc as [(x & Hx & Hcf) Hc]. apply Forall_cons in Hp as [[_ Hd] Hp]. destruct (IH Hc Hp) as [-> ->]. rewrite Hx in Hd. unfold conforms in Hcf.
  rewrite Hcf in Hd. destruct (tc_Action (topic_change st d)); cbn in Hd; try done; by destruct Hd as (_ & _ & ?).
Qed.

(** What applying a topology may do. *)
Record applied (t : Topology) s s' (plan : TopologyPlan) (err : option error) : Prop := {
  ap_idle : HasConflicts plan = true \/ HasChanges plan = false -> topics s' = topics s;
  ap_kept : forall n x, topics s !! n = Some x -> exists x', topics s' !! n = Some x' /\ kept x x';
  ap_other : forall n, n ∉ List.map ts_Name (tp_Topics t) -> topics s' !! n = topics s !! n;
  ap_created : forall d x, d ∈ tp_Topics t -> topics s !! ts_Name d = None -> topics s' !! ts_Name d = Some x -> conforms d x;
  ap_success : err = None -> Forall (fun d => conforms_in d (topics s' !! ts_Name d)) (tp_Topics t) }.

Lemma applied_same t s s' plan err : topics s' = topics s -> applied t s s' plan (Some err).
Proof.
  intros E. split; rewrite ?E; auto; [|by intros d x _ ->|done]. intros n x Hx. exists x. split; [done|apply kept_itself].
Qed.
Lemma applied_changes t st ds s s1 s' plan err : ValidateTopology t = None -> Forall TopicSpec_wf (tp_Topics t) -> topics s1 = topics s ->
  tp_Topics t ≡ₚ ds -> pl_Changes plan = List.map (topic_change st) ds -> HasConflicts plan = false ->
  Forall (fun d => planned d (topics s !! ts_Name d) (topic_change st d)) ds ->
  apply_changes (by_name (tp_Topics t)) (pl_Changes plan) s1 = (s', err) -> applied t s s' plan err.
Proof.
  intros Hv Hwf Ht Hds Ep Hc Hp E. destruct (valid_topics t Hv) as [Hnd Hspec].
  assert (forall n, n ∈ List.map ts_Name (tp_Topics t) <-> n ∈ List.map ts_Name ds) as Hnames by (intros n; by rewrite Hds).
  assert (NoDup (List.map ts_Name ds)) as Hnd' by by rewrite <- Hds.
  assert (Forall (fun d => by_name (tp_Topics t) !! ts_Name d = Some d /\ TopicSpec_wf d /\ validateTopicBounds d = None) ds) as Hok.
  { rewrite <- Hds. rewrite Forall_forall in Hwf, Hspec |- *. intros d Hd. split_and!; [by apply by_name_lookup|by apply Hwf|by apply spec_bounds, Hspec]. }
  pose proof E as E'. rewrite Ep in E'. rewrite <- Ht in Hp. destruct (apply_changes_ok _ st ds Hnd' Hok s1 s' err Hp E') as [Hout Hin].
  rewrite Ht in Hout, Hin. rewrite Forall_forall in Hin. assert (forall d, d ∈ tp_Topics t -> d ∈ ds) as Hmem by (intros d Hd; by rewrite <- Hds).
  split.
  - intros [Hx|Hx]; [by rewrite Hx in Hc|]. rewrite (idle_plan _ _ _ Hc Hx) in E. by injection E as <- _.
  - intros n x Hx. destruct (decide (n ∈ List.map ts_Name ds)) as [Hn|Hn]; [|exists x; rewrite Hout by done; split; [done|apply kept_itself]].
    apply list_elem_of_In, in_map_iff in Hn as (d & <- & Hd%list_elem_of_In). destruct (Hin d Hd) as [[->|(x' & -> & Hk)] _]; rewrite Hx in *; eauto using kept_itself.
  - intros n Hn. apply Hout. by rewrite <- Hnames.
  - intros d x Hd Hx Hx'. destruct (Hin d (Hmem d Hd)) as [[Hs|(x' & Hs & Hk)] _]; rewrite Hx in *; congruence.
  - intros ->. apply Forall_forall. intros d Hd. by apply (Hin d (Hmem d Hd)).
Qed.
Lemma apply_topology_ok ready closed t s : Forall TopicSpec_wf (tp_Topics t) ->
  exists s' plan err, ApplyTopology ready closed t s = (s', Some (plan, err)) /\ applied t s s' plan err.
Proof.
  intros Hwf. unfold ApplyTopology. destruct ready; cbn [negb]; [|eexists _, _, _; split; [done|by apply applied_same]].
  destruct (ValidateTopology t) eqn:Hv; [eexists _, _, _; split; [done|by apply applied_same]|].
  destruct (planTopology closed t s) as [s1 r] eqn:Ep. apply plan_ok in Ep as (Ht & x & -> & Hx).
  destruct x as [plan|err]; [|eexists _, _, _; split; [done|by apply applied_same]].
  destruct (HasConflicts plan) eqn:Hc; [eexists _, _, _; split; [done|by apply applied_same]|].
  destruct (Hx plan eq_refl) as (st & ds & Ech & Hds & Hp). destruct (apply_changes _ _ s1) as [s2 err] eqn:Ea.
  eexists _, _, _. split; [done|]. by eapply applied_changes.
Qed.

(** C35. Applying a Kafka topology to a broker that nobody else changes, whatever
    its answers: the code never panics.  With a conflict, or with nothing to do, no
    topic changes.  Otherwise a topic that exists keeps its partitions, replicas and
    other configuration, and a limit is only raised; a topic that is not declared
    stays as it is; a topic that appears conforms to its declaration.  On success
    every declared topic conforms, and planning again finds nothing to do. *)
Theorem kafka_topology_apply ready closed t s : Forall TopicSpec_wf (tp_Topics t) ->
  exists s' plan err, ApplyTopology ready closed t s = (s', Some (plan, err)) /\
  (HasConflicts plan = true \/ HasChanges plan = false -> topics s' = topics s) /\
  (forall n x, topics s !! n = Some x -> exists x', topics s' !! n = Some x' /\ kept x x') /\
  (forall n, n ∉ List.map ts_Name (tp_Topics t) -> topics s' !! n = topics s !! n) /\
  (forall d x, d ∈ tp_Topics t -> topics s !! ts_Name d = None -> topics s' !! ts_Name d = Some x -> conforms d x) /\
  (err = None -> Forall (fun d => conforms_in d (topics s' !! ts_Name d)) (tp_Topics t) /\
     forall s2 again, planTopology closed t s' = (s2, Some (Ok again)) -> HasChanges again = false /\ HasConflicts again = false).
Proof.
  intros Hwf. destruct (apply_topology_ok ready closed t s Hwf) as (s' & plan & err & E & [H1 H2 H3 H4 H5]). exists s', plan, err.
  split_and!; auto. intros He. split; [by apply H5|]. intros s2 again Ep. by eapply conforming_plan; [exact Ep|apply H5].
Qed.
End Laws.
End KafkaTopology.

(** ** A topology on a small broker *)
Module KafkaTopologyWitness.
Import KafkaTopic KafkaTopology.
Abbreviation broker := (gmap string topicState).

#[local] Program Instance ranges : Manifest.MapRange := {| Manifest.range := fun K A _ _ => map_to_list |}.
Next Obligation. done. Qed.

Definition detail_of (t : topicState) : topicDetail := {| td_Err := None; td_Replicas := br_replicas t |}.
Definition resource_of (s : broker) (name : string) : resourceConfig :=
  match s !! name with
  | None => {| rsc_Name := name; rsc_Err := Some (ESentinel UnknownTopicOrPartition); rsc_Configs := [] |}
  | Some t => {| rsc_Name := name; rsc_Err := None; rsc_Configs := map_to_list (br_configs t) |}
  end.
#[local] Instance admin : KafkaAdmin broker := {|
  ListTopics names s := (s, Ok (detail_of <$> s));
  DescribeTopicConfigs names s := (s, Ok (List.map (resource_of s) names));
  CreateTopic p rf configs name s :=
    match s !! name with
    | Some _ => (s, Some (ENew "TOPIC_ALREADY_EXISTS"))
    | None => if p <? 0 then (s, Some (ENew "INVALID_PARTITIONS"))
              else (<[name := {| br_replicas := repeat rf (Z.to_nat p); br_configs := configs |}]> s, None)
    end;
  AlterTopicConfigs configs name s :=
    match s !! name with
    | None => (s, Some (ESentinel UnknownTopicOrPartition))
    | Some t => (<[name := {| br_replicas := br_replicas t; br_configs := list_to_map configs ∪ br_configs t |}]> s, None)
    end |}.
#[local] Program Instance admin_laws : AdminLaws broker := {| topics := fun s => s |}.
Next Obligation.
  intros names s s' r [= <- <-]. split; [done|]. intros details [= <-] name _. rewrite lookup_fmap. cbn. destruct (s !! name) as [t|]; cbn; [|done].
  exists (detail_of t). by split_and!.
Qed.
Next Obligation.
  intros names s s' r [= <- <-]. split; [done|]. intros l [= <-].
  assert (forall n, rsc_Name (resource_of s n) = n) as Hn by (intros n; unfold resource_of; by destruct (s !! n)). split_and!.
  - intros x Hx. apply list_elem_of_In, in_map_iff in Hx as (n & <- & Hin). rewrite Hn. by apply list_elem_of_In.
  - intros n Hin. exists (resource_of s n). split; [|done]. by apply list_elem_of_In, in_map, list_elem_of_In.
  - intros x t Hx _. apply list_elem_of_In, in_map_iff in Hx as (n & <- & _). rewrite Hn. intros E. unfold resource_of. rewrite E. cbn.
    split; [apply NoDup_fst_map_to_list|apply list_to_map_to_list].
Qed.
Next Obligation.
  intros p rf configs name s s' e. cbn. destruct (s !! name) eqn:E; [intros [= <- <-]; left; eauto|]. destruct (Z.ltb_spec p 0); intros [= <- <-]; [left; eauto|right].
  split; [done|]. eexists. split; [done|]. cbn. rewrite repeat_length. split_and!; [lia| |done]. apply Forall_forall. intros x Hx%list_elem_of_In.
  symmetry. by eapply repeat_spec.
Qed.
Next Obligation.
  intros configs name s s' e. cbn. destruct (s !! name) as [t|] eqn:E; intros [= <- <-]; [right; eauto|left; eauto].
Qed.

Definition spec (name role consumer : string) (source : string) (bytes_ : Z) : TopicSpec :=
  {| ts_Name := name; ts_Role := role; ts_SourceTopic := source; ts_ConsumerID := consumer; ts_Partitions := 3; ts_ReplicationFactor := 2;
     ts_MinInSyncReplicas := 2; ts_RetentionMillis := -1; ts_RetentionBytes := -1; ts_MaxMessageBytes := bytes_ |}.
Definition orders : string := "shop.event.order.paid.v1".
Definition topology1 : Topology :=
  {| tp_SpecVersion := "1.0";
     tp_Topics := [spec orders TopicRoleSource "" "" DefaultMaxSourceMessageBytes;
                   spec (orders ++ ".gm.billing.retry.t0") TopicRoleRetry "billing" orders DefaultMaxSourceMessageBytes;
                   spec (orders ++ ".gm.billing.replay") TopicRoleReplay "billing" orders DefaultMaxSourceMessageBytes;
                   spec (orders ++ ".gm.billing.dlq") TopicRoleDLQ "billing" orders DefaultMaxDLQMessageBytes] |}.
(** The source topic exists with a shorter retention, beside a topic of others. *)
Definition broker0 : broker :=
  {[orders := {| br_replicas := [2; 2; 2];
                 br_configs := {[configCleanupPolicy := "delete"; configMinInSyncReplicas := "1"; configRetentionMillis := "3600000";
                                 configRetentionBytes := "-1"; configMaxMessageBytes := "1048588"; "compression.type" := "zstd"]} |};
    "other" := {| br_replicas := [1]; br_configs := ∅ |}]}.
Definition applied1 : broker * option (TopologyPlan * option error) := ApplyTopology true false topology1 broker0.

Lemma topology1_wf : Forall TopicSpec_wf (tp_Topics topology1).
Proof.
  repeat (constructor; [intros f g inf Hin; unfold limits in Hin; rewrite !elem_of_cons, elem_of_nil in Hin; destruct_or! Hin; simplify_eq; vm_compute; discriminate|]).
  constructor.
Qed.

Definition succeeded (r : option (TopologyPlan * option error)) : bool :=
  match r with Some (plan, None) => HasChanges plan && negb (HasConflicts plan) | _ => false end.

(** The missing topics are created and the retention is raised. *)
Lemma kafka_topology_apply_witness :
  succeeded applied1.2 = true /\ applied1.1 !! "other" = broker0 !! "other" /\
  (x ← applied1.1 !! orders; br_configs x !! configRetentionMillis) = Some "-1" /\
  (exists x', applied1.1 !! orders = Some x' /\ conforms (spec orders TopicRoleSource "" "" DefaultMaxSourceMessageBytes) x').
Proof.
  assert (succeeded applied1.2 = true) as E by (vm_compute; reflexivity).
  split; [exact E|]. split; [vm_compute; reflexivity|]. split; [vm_compute; reflexivity|].
  destruct (kafka_topology_apply true false topology1 broker0 topology1_wf) as (s' & plan & err & Ea & _ & _ & _ & _ & Hs).
  unfold applied1 in *. rewrite Ea in E |- *. destruct err as [err|]; [discriminate E|]. destruct (Hs eq_refl) as [Hc _].
  rewrite Forall_forall in Hc. apply (Hc (spec orders TopicRoleSource "" "" DefaultMaxSourceMessageBytes)). by left.
Defined.

(** The dead-letter topic brings the whole family of its consumer. *)
Lemma kafka_topology_complete_witness :
  ValidateTopology topology1 = None /\
  exists source n, source ∈ tp_Topics topology1 /\ ts_Name source = orders /\ 1 <= n /\
    exists x, x ∈ tp_Topics topology1 /\ service_topic orders "billing" (Retry 0) = Ok (ts_Name x) /\ ts_Partitions x = ts_Partitions source.
Proof.
  assert (ValidateTopology topology1 = None) as Hv by (vm_compute; reflexivity). split; [exact Hv|].
  destruct (kafka_topology_complete topology1 (spec (orders ++ ".gm.billing.dlq") TopicRoleDLQ "billing" orders DefaultMaxDLQMessageBytes) Hv)
    as (source & n & H1 & H2 & _ & _ & Hn & Hp & _).
  - right. right. right. by left.
  - discriminate.
  - exists source, n. split; [exact H1|]. split; [exact H2|]. split; [exact Hn|]. apply (Hp (Retry 0)). lia.
Defined.
End KafkaTopologyWitness.
