(* ===== verification/KafkaTransport.v ===== *)
(** * The Kafka transport, its route and replays

    Models [adapters/kafka/transport.go], [adapters/kafka/route.go] and the replay
    of dead letters in [adapters/kafka/dlq.go].

    A Go function is a program: a tree whose nodes are the operations that other
    goroutines can see (a critical section of [mu], a channel operation, a call of
    the client, a reading of the clock), each with the continuation for its answer.
    Any number of calls run beside each other and take their steps in any order.
    The client of the broker is third-party code: it may answer every call in any
    way, and its transactional calls are written to a log.  A wait on a context
    answers the error the context ended with.  The log messages of the transport
    are left out, and so is the translation of the options of the client. *)
From S2P Require Import Prelude GoStrings GoText Digest Errors Ident Batch Envelope Middleware Delivery Route KafkaTopic KafkaControl KafkaTopology.
From Stdlib Require Import Ascii.
Import Stdlib.Strings.String.
Import Sha256 Base64 Envelope Route KafkaTopic KafkaControl KafkaDLQ.
Open Scope string_scope.
Open Scope Z_scope.

Declare Scope prog_scope.

Module KafkaTransport.

(** ** Configuration *)
(** [tc_ConnectionOptions] says of each option whether its value is nil. *)
Record TransportConfig := {
  tc_Name : string;
  tc_Brokers : list string;
  tc_ClientID : string;
  tc_InstanceID : string;
  tc_ConnectionOptions : list bool;
  tc_OperationTimeout : Duration }.

Definition defaultBrokerOperationTimeout : Duration := 30 * Second.

Definition applyTransportDefaults (config : TransportConfig) : TransportConfig :=
  {| tc_Name := tc_Name config; tc_Brokers := tc_Brokers config; tc_ClientID := tc_ClientID config;
     tc_InstanceID := tc_InstanceID config; tc_ConnectionOptions := tc_ConnectionOptions config;
     tc_OperationTimeout := if tc_OperationTimeout config =? 0 then defaultBrokerOperationTimeout else tc_OperationTimeout config |}.

Definition validateTransportConfig (config : TransportConfig) : option error :=
  if String.eqb (tc_Name config) "" || String.eqb (tc_ClientID config) "" || (Z.of_nat (List.length (tc_Brokers config)) =? 0)
     || (tc_OperationTimeout config <=? 0) || (64 <? Z.of_nat (List.length (tc_ConnectionOptions config)))
  then Some (invalid "transport")
  else match validateKafkaToken "transport name" (tc_Name config) with
  | Some err => Some err
  | None =>
      match validateKafkaToken "client ID" (tc_ClientID config) with
      | Some err => Some err
      | None =>
          match validateInstanceID (tc_InstanceID config) with
          | Some err => Some err
          | None =>
              if existsb (fun broker => String.eqb broker "") (tc_Brokers config) then Some (invalid "empty broker")
              else if existsb (fun nil => nil) (tc_ConnectionOptions config) then Some (invalid "invalid Kafka connection option")
              else None
          end
      end
  end.

(** The largest batch of a producer for a topic. *)
Definition producerBatchMaxBytes (topic : string) : Z :=
  if bool_decide (is_Some (index_of (bytes serviceMarker) (bytes topic))) && bool_decide (is_Some (cut_suffix (bytes topic) (bytes ".dlq")))
  then KafkaTopology.DefaultMaxDLQMessageBytes else KafkaTopology.DefaultMaxSourceMessageBytes.

(** ** State *)
Inductive transportState : Set := transportNew | transportStarting | transportRunning | transportDraining | transportClosed.
#[global] Instance transportState_eq_dec : EqDecision transportState.
Proof. solve_decision. Defined.

(** The transactional calls of the client with their answers, and its end. *)
Inductive cevent : Type :=
| EvBegin (err : option error)
| EvProduce (records : list record) (err : option error)
| EvEnd (commit : bool) (err : option error)
| EvClose.

(** [t_txGate] is the call whose token is in the channel.  Channels that replace
    each other in [txDone] are numbered; the channels of [t_txClosed] are closed. *)
Record Transport := {
  t_state : transportState;
  t_runStarted : bool;
  t_txGate : option nat;
  t_txActive : bool;
  t_txDone : option nat;
  t_txNext : nat;
  t_txClosed : list nat;
  t_drain : bool;
  t_done : bool;
  t_clientClosed : bool;
  t_log : list (nat * cevent) }.

Definition transport0 : Transport :=
  {| t_state := transportNew; t_runStarted := false; t_txGate := None; t_txActive := false; t_txDone := None; t_txNext := 0;
     t_txClosed := []; t_drain := false; t_done := false; t_clientClosed := false; t_log := [] |}.

Definition NewTransport (kgo_NewClient : string -> TransportConfig -> option error) (config : TransportConfig)
  : result error (TransportConfig * Transport) :=
  let config := applyTransportDefaults config in
  match validateTransportConfig config with
  | Some err => Err err
  | None =>
      match transactionalID (tc_Name config) (tc_InstanceID config) 0 with
      | Err err => Err err
      | Ok producerID =>
          match kgo_NewClient producerID config with
          | Some err => Err (EFmt "create transport client" [err])
          | None => Ok (config, transport0)
          end
      end
  end.

(** ** Field updates *)
Section Updates.
Context (t : Transport).
Definition with_state (s : transportState) (started : bool) : Transport :=
  {| t_state := s; t_runStarted := started; t_txGate := t_txGate t; t_txActive := t_txActive t; t_txDone := t_txDone t;
     t_txNext := t_txNext t; t_txClosed := t_txClosed t; t_drain := t_drain t; t_done := t_done t;
     t_clientClosed := t_clientClosed t; t_log := t_log t |}.
Definition with_gate (g : option nat) : Transport :=
  {| t_state := t_state t; t_runStarted := t_runStarted t; t_txGate := g; t_txActive := t_txActive t; t_txDone := t_txDone t;
     t_txNext := t_txNext t; t_txClosed := t_txClosed t; t_drain := t_drain t; t_done := t_done t;
     t_clientClosed := t_clientClosed t; t_log := t_log t |}.
Definition with_tx (active : bool) (done : option nat) (next : nat) (closed : list nat) : Transport :=
  {| t_state := t_state t; t_runStarted := t_runStarted t; t_txGate := t_txGate t; t_txActive := active; t_txDone := done;
     t_txNext := next; t_txClosed := closed; t_drain := t_drain t; t_done := t_done t;
     t_clientClosed := t_clientClosed t; t_log := t_log t |}.
Definition with_closed (drain done client : bool) (log : list (nat * cevent)) : Transport :=
  {| t_state := t_state t; t_runStarted := t_runStarted t; t_txGate := t_txGate t; t_txActive := t_txActive t; t_txDone := t_txDone t;
     t_txNext := t_txNext t; t_txClosed := t_txClosed t; t_drain := drain; t_done := done; t_clientClosed := client; t_log := log |}.
Definition logged (i : nat) (e : cevent) : Transport :=
  with_closed (t_drain t) (t_done t) (t_clientClosed t) (t_log t ++ [(i, e)])%list.
End Updates.

(** ** Critical sections of [mu] *)
Inductive critical : Set :=
| RunEnter | RunReady | ReadState | StartDrain | ShutEnter | MarkClosed
| TakeTx      (** [txActive = true; txDone = make(...)] when running *)
| DropTx      (** [txActive = false; close(txDone); txDone = nil] *)
| ReadTx.

Definition enter (s : critical) (t : Transport) : Transport :=
  match s with
  | RunEnter =>
      match t_state t with
      | transportNew => with_state t transportStarting true
      | transportDraining => if t_runStarted t then t else with_state t transportClosed true
      | _ => t
      end
  | RunReady => if decide (t_state t = transportStarting) then with_state t transportRunning (t_runStarted t) else t
  | ReadState | ReadTx => t
  | StartDrain =>
      match t_state t with
      | transportNew | transportStarting | transportRunning => with_state t transportDraining (t_runStarted t)
      | _ => t
      end
  | ShutEnter => if t_runStarted t then t else with_state t transportClosed false
  | MarkClosed => with_state t transportClosed (t_runStarted t)
  | TakeTx =>
      if decide (t_state t = transportRunning) then with_tx t true (Some (t_txNext t)) (S (t_txNext t)) (t_txClosed t) else t
  | DropTx =>
      with_tx t false None (t_txNext t) (match t_txDone t with Some ch => ch :: t_txClosed t | None => t_txClosed t end)
  end.

(** ** Operations that may wait or fail *)
Inductive call : Type :=
| EnterGate                            (** [txGate <- struct{}{}] or the end of the context *)
| LeaveGate                            (** [<-txGate] *)
| CtxErr                               (** [ctx.Err()] *)
| Ping | ProducerID
| Begin
| Produce (records : list record)      (** [ProduceSync(...).FirstErr()] *)
| EndTransaction (commit : bool)
| CloseDrain | CloseDone | CloseClient (** each inside its [sync.Once] *)
| AwaitDrain | AwaitDone               (** the channel or the end of the context *)
| AwaitTx (ch : option nat).           (** a nil channel is never ready *)

(** The effect of an answer, when it is possible. *)
Definition perform (i : nat) (c : call) (err : option error) (t : Transport) : option Transport :=
  match c, err with
  | EnterGate, None => match t_txGate t with None => Some (with_gate t (Some i)) | Some _ => None end
  | LeaveGate, None => match t_txGate t with None => None | Some _ => Some (with_gate t None) end
  | AwaitDrain, None => if t_drain t then Some t else None
  | AwaitDone, None => if t_done t then Some t else None
  | AwaitTx (Some ch), None => if decide (ch ∈ t_txClosed t) then Some t else None
  | AwaitTx None, None => None
  | (EnterGate | AwaitDrain | AwaitDone | AwaitTx _), Some _ => Some t
  | (CtxErr | Ping | ProducerID), _ => Some t
  | Begin, _ => Some (logged t i (EvBegin err))
  | Produce records, _ => Some (logged t i (EvProduce records err))
  | EndTransaction commit, _ => Some (logged t i (EvEnd commit err))
  | CloseDrain, None => Some (with_closed t true (t_done t) (t_clientClosed t) (t_log t))
  | CloseDone, None => Some (with_closed t (t_drain t) true (t_clientClosed t) (t_log t))
  | CloseClient, None =>
      Some (if t_clientClosed t then t else with_closed t (t_drain t) (t_done t) true (t_log t ++ [(i, EvClose)])%list)
  | (LeaveGate | CloseDrain | CloseDone | CloseClient), Some _ => None
  end.

(** ** Programs *)
(** The continuation of a critical section gets the state it found. *)
Inductive prog (R : Type) : Type :=
| Ret (r : R)
| Panic
| Lock (s : critical) (k : Transport -> prog R)
| Call (c : call) (k : option error -> prog R)
| Now (k : Time -> prog R).
Arguments Ret {R}. Arguments Panic {R}. Arguments Lock {R}. Arguments Call {R}. Arguments Now {R}.

Fixpoint pbind {R R'} (p : prog R) (f : R -> prog R') : prog R' :=
  match p with
  | Ret r => f r
  | Panic => Panic
  | Lock s k => Lock s (fun t => pbind (k t) f)
  | Call c k => Call c (fun err => pbind (k err) f)
  | Now k => Now (fun now => pbind (k now) f)
  end.
Notation "x <- p ;; q" := (pbind p (fun x => q)) : prog_scope.
Notation "p ;;; q" := (pbind p (fun _ => q)) : prog_scope.
Local Open Scope prog_scope.

Definition call_err (c : call) : prog (option error) := Call c Ret.
Definition clock : prog Time := Now (fun now => Ret (UTC now)).
(** [if err := m; err != nil { return ret(err) }] *)
Definition check {R} (m : prog (option error)) (ret : error -> R) (k : prog R) : prog R :=
  err <- m ;; match err with Some err => Ret (ret err) | None => k end.
(** [defer release()] *)
Definition deferred {R} (release : prog unit) (p : prog R) : prog R := r <- p ;; release ;;; Ret r.

(** ** Lifecycle *)
Definition err_of (s : sentinel) : option error := Some (ESentinel s).

Definition closeDone : prog unit := Call CloseDone (fun _ => Ret tt).
Definition closeClient : prog unit := Call CloseClient (fun _ => Ret tt).
Definition markClosed : prog unit := Lock MarkClosed (fun _ => closeDone).

Definition checkTransactionalReadiness : prog (option error) :=
  check (call_err Ping) (fun err => Some (EFmt "ping broker" [err]))
  (check (call_err ProducerID) (fun err => Some (EFmt "load transactional producer ID" [err])) (Ret None)).
(** The timeout of the startup is an answer of the client. *)
Definition checkTransactionalStartup : prog (option error) := checkTransactionalReadiness.

(** [ctx] is false for a nil context. *)
Definition Run (ctx : bool) : prog (option error) :=
  if negb ctx then Ret (Some (invalid "nil transport context"))
  else Lock RunEnter (fun t =>
    match t_state t with
    | transportStarting | transportRunning => Ret (err_of ErrRuntimeRunning)
    | transportDraining => if t_runStarted t then Ret (err_of ErrRuntimeRunning) else closeDone ;;; Ret None
    | transportClosed => Ret (err_of ErrTransportClosed)
    | transportNew =>
        err <- checkTransactionalStartup ;;
        match err with
        | Some err => markClosed ;;; Ret (Some (EFmt "transport startup" [err]))
        | None => Lock RunReady (fun _ => err <- call_err AwaitDrain ;; markClosed ;;; Ret err)
        end
    end).

Definition Readiness : prog (option error) :=
  Lock ReadState (fun t =>
    if decide (t_state t = transportRunning)
    then check checkTransactionalReadiness (fun err => Some (EFmt "transport readiness" [err])) (Ret None)
    else Ret (err_of ErrRuntimeNotRunning)).

Definition BeginDrain : prog unit := Lock StartDrain (fun _ => Call CloseDrain (fun _ => Ret tt)).

Definition waitForTransactions : prog (option error) :=
  Lock ReadTx (fun t =>
    if negb (t_txActive t) then Ret None
    else call_err (AwaitTx (t_txDone t))).

Definition Shutdown : prog (option error) :=
  Lock ShutEnter (fun t =>
    let started := t_runStarted t in
    BeginDrain ;;;
    waited <- (if started then call_err AwaitDone else closeDone ;;; Ret None) ;;
    match waited with
    | Some err => closeClient ;;; Ret (Some err)
    | None =>
        err <- waitForTransactions ;;
        closeClient ;;; Ret err
    end).

(** ** Admission of transactions *)
Definition not_running (s : transportState) : option error :=
  match s with
  | transportRunning => None
  | transportClosed => err_of ErrTransportClosed
  | _ => err_of ErrRuntimeNotRunning
  end.

Definition ensureRunning : prog (option error) := Lock ReadState (fun t => Ret (not_running (t_state t))).

Definition leaveGate : prog unit := Call LeaveGate (fun _ => Ret tt).

Definition acquireTransaction (ctx : bool) : prog (option error) :=
  if negb ctx then Ret (Some (invalid "nil transaction admission context"))
  else
    entered <- call_err EnterGate ;;
    match entered with
    | Some err => Ret (Some err)
    | None =>
        err <- call_err CtxErr ;;
        match err with
        | Some err => leaveGate ;;; Ret (Some err)
        | None =>
            Lock TakeTx (fun t =>
              match not_running (t_state t) with
              | Some err => leaveGate ;;; Ret (Some err)
              | None => Ret None
              end)
        end
    end.

(** Closing a nil or closed channel panics. *)
Definition releaseTransaction : prog unit :=
  Lock DropTx (fun t =>
    match t_txDone t with
    | Some ch => if decide (ch ∈ t_txClosed t) then Panic else leaveGate
    | None => Panic
    end).

(** The context is not nil: the callers have checked it. *)
Definition abortTransaction : prog (option error) := call_err (EndTransaction false).

(** What [publishEnvelope], [PublishEnvelopeBatch] and [PublishReplay] do once the
    transaction is admitted; the labels are those of the caller. *)
Definition transact (begin publish commit : string) (records : list record) : prog (option error) :=
  err <- call_err Begin ;;
  match err with
  | Some err => Ret (Some (EFmt begin [err]))
  | None =>
      err <- call_err (Produce records) ;;
      match err with
      | Some err => abortErr <- abortTransaction ;; Ret (errors_join [Some (EFmt publish [err]); abortErr])
      | None =>
          err <- call_err (EndTransaction true) ;;
          match err with
          | Some err => abortErr <- abortTransaction ;; Ret (errors_join [Some (EFmt commit [err]); abortErr])
          | None => Ret None
          end
      end
  end.

(** ** The route *)
Record RouteConfig := { krc_Name : string; krc_Namespace : string }.
Record KafkaRoute := { kr_name : string; kr_namespace : string }.

(** [transport] is false for a nil transport. *)
Definition NewRoute (transport : bool) (config : RouteConfig) : result error KafkaRoute :=
  if negb transport || String.eqb (krc_Name config) "" then Err (invalid "producer route")
  else match validateKafkaToken "route name" (krc_Name config) with
  | Some err => Err err
  | None =>
      match Topic (krc_Namespace config) (descriptor_of KindEvent "probe" 1) with
      | Err err => Err err
      | Ok _ => Ok {| kr_name := krc_Name config; kr_namespace := krc_Namespace config |}
      end
  end.

(** The zero timestamp lets the client stamp the record. *)
Definition newRouteRecord (topic : string) (metadata : Metadata) (native : string) : record :=
  {| r_Topic := topic; r_Partition := 0; r_Offset := 0; r_LeaderEpoch := 0; r_Key := expectedRecordKey metadata;
     r_Value := native; r_Headers := []; r_Timestamp := 0 |}.

Definition notReady (m : Metadata) (now : Time) : bool := negb (IsZero (md_NotBefore m)) && After (md_NotBefore m) now.

(** The checks of one message before it may be published. *)
Definition routeTiming (m : Metadata) (now : Time) : option error :=
  if expired m now then Permanent (err_of ErrKafkaMessageExpired)
  else if notReady m now then RetryAfter (err_of ErrKafkaMessageNotReady) (Delivery.Sub (md_NotBefore m) now)
  else None.
Definition routeTopic (r : KafkaRoute) (m : Metadata) : result error string :=
  Topic (kr_namespace r) (descriptor_of (md_Kind m) (md_Name m) (md_SchemaVersion m)).

Definition confirmed (r : KafkaRoute) (m : Metadata) (now : Time) : Receipt :=
  {| rc_MessageID := md_ID m; rc_Route := kr_name r; rc_State := ReceiptBrokerConfirmed; rc_At := now |}.
Definition refused (err : error) : Receipt * option error := (Receipt0, Some err).

Section Route.
Context `{!EnvelopeJSON}.
Context (r : KafkaRoute).

Definition publishEnvelope (ctx : bool) (metadata : Metadata) (native : string) : prog (Receipt * option error) :=
  check ensureRunning refused (
  now <- clock ;;
  match routeTiming metadata now with
  | Some err => Ret (refused err)
  | None =>
      match routeTopic r metadata with
      | Err err => Ret (Receipt0, Permanent (Some err))
      | Ok topic =>
          if negb ctx then Ret (refused (invalid "nil publish context"))
          else
          check (call_err CtxErr) refused (
          check (acquireTransaction ctx) refused (
          deferred releaseTransaction (
            now <- clock ;;
            if expired metadata now then Ret (Receipt0, Permanent (err_of ErrKafkaMessageExpired))
            else
            check (transact "begin publish transaction" "publish" "commit publish" [newRouteRecord topic metadata native]) refused (
            now <- clock ;; Ret (confirmed r metadata now, None)))))
      end
  end).

Definition decodeDeliveryEnvelope {B C} (delivery : @delivery B C) : result error (Metadata * string) :=
  match Delivery_MarshalEnvelope delivery with
  | Err err => Err err
  | Ok native =>
      match UnmarshalEnvelope native with
      | Err err => Err err
      | Ok envelope => Ok (Envelope_Metadata envelope, native)
      end
  end.

Definition Deliver {B C} (ctx : bool) (delivery : option (@delivery B C)) : prog (Receipt * option error) :=
  match delivery with
  | None => Ret (refused (KafkaControl.invalid_message "nil Kafka delivery"))
  | Some delivery =>
      match decodeDeliveryEnvelope delivery with
      | Err err => Ret (refused err)
      | Ok (metadata, native) =>
          if negb (String.eqb (md_Kind metadata) KindCommand) && negb (String.eqb (md_Kind metadata) KindEvent)
          then Ret (refused (KafkaControl.invalid_message "Kafka route only supports command/event delivery"))
          else publishEnvelope ctx metadata native
      end
  end.

(** [CanonicalizeEnvelope] and [UnmarshalEnvelope] of the canonical bytes. *)
Definition canonicalEnvelope (data : string) : result error (Metadata * string) :=
  match CanonicalizeEnvelope data with
  | Err err => Err err
  | Ok canonical =>
      match UnmarshalEnvelope canonical with
      | Err err => Err err
      | Ok envelope => Ok (Envelope_Metadata envelope, canonical)
      end
  end.

Definition PublishEnvelope (ctx : bool) (data : string) : prog (Receipt * option error) :=
  match canonicalEnvelope data with
  | Err err => Ret (refused err)
  | Ok (metadata, canonical) => publishEnvelope ctx metadata canonical
  end.

(** ** Batches *)
Record batchRouteRecord := { br_index : nat; br_metadata : Metadata; br_record : record }.

Definition set_err (index : nat) (err : option error) (errs : list (option error)) : list (option error) := <[index := err]> errs.

(** The first loop: [errs] and [valid] are those built so far. *)
Fixpoint prepare (index : nat) (payloads : list string) (errs : list (option error)) (valid : list batchRouteRecord)
  : prog (list (option error) * list batchRouteRecord) :=
  match payloads with
  | [] => Ret (errs, valid)
  | payload :: rest =>
      match canonicalEnvelope payload with
      | Err err => prepare (S index) rest (set_err index (Some err) errs) valid
      | Ok (metadata, canonical) =>
          now <- clock ;;
          match routeTiming metadata now with
          | Some err => prepare (S index) rest (set_err index (Some err) errs) valid
          | None =>
              match routeTopic r metadata with
              | Err err => prepare (S index) rest (set_err index (Permanent (Some err)) errs) valid
              | Ok topic =>
                  prepare (S index) rest errs
                    (valid ++ [{| br_index := index; br_metadata := metadata; br_record := newRouteRecord topic metadata canonical |}])%list
              end
          end
      end
  end.

Definition markKafkaBatchFailure (items : list batchRouteRecord) (errs : list (option error)) (err : option error) : list (option error) :=
  fold_left (fun errs item => set_err (br_index item) err errs) items errs.

(** The loop that drops what expired while waiting for admission. *)
Fixpoint still_active (valid : list batchRouteRecord) (errs : list (option error)) (active : list batchRouteRecord)
  : prog (list (option error) * list batchRouteRecord) :=
  match valid with
  | [] => Ret (errs, active)
  | item :: rest =>
      now <- clock ;;
      if expired (br_metadata item) now
      then still_active rest (set_err (br_index item) (Permanent (err_of ErrKafkaMessageExpired)) errs) active
      else still_active rest errs (active ++ [item])%list
  end.

Definition batch_result : Type := list Receipt * list (option error) * option error.

Definition publish_active (receipts : list Receipt) (valid : list batchRouteRecord) (errs : list (option error)) : prog batch_result :=
  still <- still_active valid errs [] ;;
  let '(errs, active) := (still : list (option error) * list batchRouteRecord) in
  match active with
  | [] => Ret (receipts, errs, None)
  | _ =>
      check (transact "begin batch publish transaction" "publish batch" "commit publish batch" (List.map br_record active))
        (fun failure => (receipts, markKafkaBatchFailure active errs (RetryAfter (Some failure) Second), None)) (
      now <- clock ;;
      Ret (fold_left (fun receipts item => <[br_index item := confirmed r (br_metadata item) now]> receipts) active receipts, errs, None))
  end.

Definition PublishEnvelopeBatch (ctx : bool) (payloads : list string) : prog batch_result :=
  if negb ctx then Ret ([], [], Some (invalid "nil publish context"))
  else match payloads with
  | [] => Ret ([], [], Some (invalid "empty publish batch"))
  | _ =>
      let receipts := replicate (List.length payloads) Receipt0 in
      prepared <- prepare 0 payloads (replicate (List.length payloads) None) [] ;;
      let '(errs, valid) := (prepared : list (option error) * list batchRouteRecord) in
      match valid with
      | [] => Ret (receipts, errs, None)
      | _ =>
          let fail err := (receipts, markKafkaBatchFailure valid errs (RetryAfter (Some err) Second), None) in
          check ensureRunning fail (
          check (acquireTransaction ctx) fail (
          deferred releaseTransaction (publish_active receipts valid errs)))
      end
  end.

(** ** Replays *)
Section Replay.
Context (ToLower : string -> string) (formatTime : Time -> string) (parseTime : string -> option Time).
Context (json_Marshal : DLQRecord -> result error string).

(** [strings.TrimPrefix] and [strings.TrimSuffix]. *)
Definition trim_prefix (l p : list ascii) : list ascii := default l (strip_prefix p l).
Definition trim_suffix (l p : list ascii) : list ascii := default l (cut_suffix l p).

Definition validateProtectedReplayRecord (rec : record) : result error string :=
  match decodeControlHeaders ToLower parseTime (r_Headers rec) with
  | Err _ => Err (KafkaControl.invalid_message "protected Kafka replay headers")
  | Ok control =>
      if negb (String.prefix replayIDPrefix (cm_attemptGeneration control))
      then Err (KafkaControl.invalid_message "protected Kafka replay headers")
      else
        let mismatch := KafkaControl.invalid_message "protected Kafka replay topic" in
        let topic := bytes (r_Topic rec) in
        let prefix := bytes (sp_topic (cm_source control) ++ serviceMarker) in
        let suffix := bytes ".replay" in
        if negb (bool_decide (is_Some (strip_prefix prefix topic))) || negb (bool_decide (is_Some (cut_suffix topic suffix)))
        then Err mismatch
        else match ReplayTopic (sp_topic (cm_source control)) (of_bytes (trim_suffix (trim_prefix topic prefix) suffix)) with
        | Err _ => Err mismatch
        | Ok expected =>
            if negb (String.eqb expected (r_Topic rec)) then Err mismatch
            else match canonicalEnvelope (r_Value rec) with
            | Err err => Err err
            | Ok (metadata, canonical) =>
                match sourceTopicMatchesMetadata (sp_topic (cm_source control)) metadata with
                | Some err => Err err
                | None =>
                    match validateRecordKey (r_Key rec) metadata with
                    | Some err => Err err
                    | None => Ok canonical
                    end
                end
            end
        end
  end.

Definition newReplayRecord (rec : record) (canonical : string) : record :=
  {| r_Topic := r_Topic rec; r_Partition := 0; r_Offset := 0; r_LeaderEpoch := 0; r_Key := r_Key rec; r_Value := canonical;
     r_Headers := r_Headers rec; r_Timestamp := 0 |}.

(** The client writes the position of a stored record into it: [assigned]. *)
Definition PublishReplay (ctx : bool) (rec : option record) (assigned : record -> record) : prog (option record * option error) :=
  match rec with
  | None => Ret (None, Some (invalid "replay record"))
  | Some rec =>
      if negb ctx || String.eqb (r_Topic rec) "" then Ret (None, Some (invalid "replay record"))
      else
      let fail err := (None, Some err) in
      check ensureRunning fail (
      match validateProtectedReplayRecord rec with
      | Err err => Ret (fail err)
      | Ok canonical =>
          check (acquireTransaction ctx) fail (
          deferred releaseTransaction (
            let cloned := newReplayRecord rec canonical in
            check (transact "begin replay transaction" "publish replay" "commit replay" [cloned]) fail (
            Ret (Some (assigned cloned), None))))
      end)
  end.

Record ReplayPlan := { rp_Topic : string; rp_MessageID : string; rp_InputSHA256 : string; rp_ReplayID : string }.
Record ReplayResult := { rr_Plan : ReplayPlan; rr_Partition : Z; rr_Offset : Z }.

Definition PlanDLQReplay (d : DLQRecord) : result error ReplayPlan :=
  match validateDLQRecord d with
  | Some err => Err err
  | None =>
      match DecodeString (kd_OriginalBase64 d) with
      | None => Err (KafkaControl.invalid_message "invalid originalBase64")
      | Some original =>
          match canonicalEnvelope original with
          | Err err => Err err
          | Ok (metadata, _) =>
              let id := MessageID_String (md_ID metadata) in
              if negb (String.eqb (kd_MessageID d) "") && negb (String.eqb (kd_MessageID d) id)
              then Err (KafkaControl.invalid_message "Kafka DLQ message identity conflict")
              else match DecodeString (kd_RecordKeyBase64 d) with
              | None => Err (KafkaControl.invalid_message "invalid recordKeyBase64")
              | Some key =>
                  match validateRecordKey key metadata with
                  | Some err => Err err
                  | None =>
                      match sourceTopicMatchesMetadata (kd_SourceTopic d) metadata with
                      | Some err => Err err
                      | None =>
                          match ReplayTopic (kd_SourceTopic d) (kd_ConsumerID d) with
                          | Err err => Err err
                          | Ok topic =>
                              match newReplayID json_Marshal d with
                              | Err err => Err err
                              | Ok replayID =>
                                  Ok {| rp_Topic := topic; rp_MessageID := id; rp_InputSHA256 := hex (Sum256 original);
                                        rp_ReplayID := replayID |}
                              end
                          end
                      end
                  end
              end
          end
      end
  end.

Definition replayControl (d : DLQRecord) (plan : ReplayPlan) : controlMetadata :=
  {| cm_source := {| sp_topic := kd_SourceTopic d; sp_partition := kd_SourcePartition d; sp_offset := kd_SourceOffset d |};
     cm_attempt := 0; cm_notBefore := 0; cm_attemptGeneration := rp_ReplayID plan |}.

(** The record that [ReplayDLQ] hands to the publisher; a decoding error reads as
    the empty string. *)
Definition replayRecord (d : DLQRecord) (plan : ReplayPlan) : record :=
  {| r_Topic := rp_Topic plan; r_Partition := 0; r_Offset := 0; r_LeaderEpoch := 0;
     r_Key := default "" (DecodeString (kd_RecordKeyBase64 d)); r_Value := default "" (DecodeString (kd_OriginalBase64 d));
     r_Headers := controlHeaders formatTime (replayControl d plan); r_Timestamp := 0 |}.

(** With the transport as the publisher. *)
Definition ReplayDLQ (ctx : bool) (d : DLQRecord) (assigned : record -> record) : prog (result error ReplayResult) :=
  if negb ctx then Ret (Err (invalid "replay publisher"))
  else match PlanDLQReplay d with
  | Err err => Ret (Err err)
  | Ok plan =>
      published <- PublishReplay ctx (Some (replayRecord d plan)) assigned ;;
      Ret (match (published : option record * option error) with
           | (_, Some err) => Err (EFmt "replay" [err])
           | (None, None) => Err (ENew "messenger/kafka: replay returned invalid broker metadata")
           | (Some p, None) =>
               if negb (String.eqb (r_Topic p) (rp_Topic plan)) || (r_Partition p <? 0) || (r_Offset p <? 0)
               then Err (ENew "messenger/kafka: replay returned invalid broker metadata")
               else Ok {| rr_Plan := plan; rr_Partition := r_Partition p; rr_Offset := r_Offset p |}
           end)
  end.
End Replay.
End Route.

(** ** Calls beside each other *)
Inductive request : Type :=
| QRun (ctx : bool)
| QReadiness
| QBeginDrain
| QShutdown
| QPublish (r : KafkaRoute) (ctx : bool) (metadata : Metadata) (native : string)    (** [publishEnvelope] *)
| QBatch (r : KafkaRoute) (ctx : bool) (payloads : list string)
| QReplay (ctx : bool) (rec : option record) (assigned : record -> record).

Inductive reply : Type :=
| AnsErr (err : option error)
| AnsPublish (a : Receipt * option error)
| AnsBatch (a : batch_result)
| AnsReplay (a : option record * option error).

Section Calls.
Context `{!EnvelopeJSON}.
Context (ToLower : string -> string) (parseTime : string -> option Time).

Definition program (q : request) : prog reply :=
  match q with
  | QRun ctx => err <- Run ctx ;; Ret (AnsErr err)
  | QReadiness => err <- Readiness ;; Ret (AnsErr err)
  | QBeginDrain => BeginDrain ;;; Ret (AnsErr None)
  | QShutdown => err <- Shutdown ;; Ret (AnsErr err)
  | QPublish r ctx metadata native => a <- publishEnvelope r ctx metadata native ;; Ret (AnsPublish a)
  | QBatch r ctx payloads => a <- PublishEnvelopeBatch r ctx payloads ;; Ret (AnsBatch a)
  | QReplay ctx rec assigned => a <- PublishReplay ToLower parseTime ctx rec assigned ;; Ret (AnsReplay a)
  end.

Definition config : Type := Transport * list (prog reply).
Definition start (qs : list request) : config := (transport0, List.map program qs).

(** The answer of a call or of the clock. *)
Inductive answer : Type := AErr (err : option error) | ANow (now : Time).

(** One step of call [i]. *)
Definition advance (i : nat) (a : answer) (c : config) : option config :=
  let '(t, pool) := c in
  match pool !! i, a with
  | Some (Lock s k), _ => Some (enter s t, <[i := k t]> pool)
  | Some (Call c k), AErr err =>
      match perform i c err t with Some t' => Some (t', <[i := k err]> pool) | None => None end
  | Some (Now k), ANow now => Some (t, <[i := k now]> pool)
  | _, _ => None
  end.
Definition step (c c' : config) : Prop := exists i a, advance i a c = Some c'.
Definition reachable (qs : list request) (c : config) : Prop := rtc step (start qs) c.
End Calls.
End KafkaTransport.
