(* ===== verification/KafkaTransportProofs.v ===== *)
(** * The Kafka transport: transactions, shutdown and progress

    Each call is verified alone against a weakest precondition [wp] that says what
    it must respect (the typestate of a transaction, the ownership of the admission
    gate) and what it may rely on (facts about the transport that no step of another
    call can undo).  One invariant lifts this to all interleavings. *)
From S2P Require Import Prelude GoStrings Errors Ident Envelope EnvelopeProofs Delivery Route KafkaTopic KafkaControl KafkaTransport.
Import Stdlib.Strings.String.
Import Envelope Route KafkaTopic KafkaControl KafkaDLQ KafkaTransport.
Open Scope string_scope.
Open Scope Z_scope.
Local Open Scope prog_scope.

Module KafkaTransportProofs.

(** ** Ghost state *)
(** Where a call is with respect to the gate: outside, holding the token, or with
    the admitted transaction, which is open after a successful [Begin]. *)
Inductive phase : Set := Out | AtGate | Held (opened : bool).
#[global] Instance phase_eq_dec : EqDecision phase.
Proof. solve_decision. Defined.

(** [g_runs]: the call is the [Run] that has to close [done]. *)
Record ghost := { g_know : Transport -> Prop; g_phase : phase; g_hist : list cevent; g_runs : bool }.

Definition tx_wf (t : Transport) : Prop :=
  (t_txActive t = true <-> is_Some (t_txDone t)) /\
  (forall ch, t_txDone t = Some ch -> (ch < t_txNext t)%nat /\ ch ∉ t_txClosed t) /\
  (forall ch, ch ∈ t_txClosed t -> (ch < t_txNext t)%nat).
Definition tinv (t : Transport) : Prop :=
  tx_wf t /\ (t_done t = true -> t_state t = transportClosed) /\
  (t_runStarted t = false -> t_state t <> transportStarting /\ t_state t <> transportRunning).

(** The state agrees with the phase of the call that holds the gate. *)
Definition linked (p : phase) (t : Transport) : Prop :=
  match p with Out => True | AtGate => t_txActive t = false | Held _ => t_txActive t = true end.

Definition trans (t t' : Transport) : Prop := (exists s, t' = enter s t) \/ (exists i c err, perform i c err t = Some t').
Definition stable (K : Transport -> Prop) : Prop := forall t t', tinv t -> trans t t' -> K t -> K t'.

(** The transport is closed and [done] is the channel of the last transaction. *)
Definition waits (done : option nat) (t : Transport) : Prop :=
  t_state t = transportClosed /\
  (t_txActive t = true /\ t_txDone t = done \/ t_txActive t = false /\ exists ch, done = Some ch /\ ch ∈ t_txClosed t).

(** ** What a call may do *)
Definition lock_pre (s : critical) (g : ghost) (t : Transport) : Prop :=
  match s with
  | TakeTx => g_phase g = AtGate
  | DropTx => g_phase g = Held false
  | RunEnter => g_runs g = false
  | _ => True
  end.
Definition lock_phase (s : critical) (p : phase) (t : Transport) : phase :=
  match s with
  | TakeTx => if decide (t_state t = transportRunning) then Held false else AtGate
  | DropTx => AtGate
  | _ => p
  end.
Definition lock_runs (s : critical) (b : bool) (t : Transport) : bool :=
  match s with
  | RunEnter =>
      match t_state t with transportNew => true | transportDraining => if t_runStarted t then b else true | _ => b end
  | _ => b
  end.

Definition call_pre (c : call) (g : ghost) (t : Transport) : Prop :=
  match c with
  | EnterGate => g_phase g = Out /\ g_runs g = false
  | AwaitDone => g_phase g = Out /\ g_runs g = false /\ t_runStarted t = true /\ t_drain t = true
  | AwaitTx done => g_phase g = Out /\ g_runs g = false /\ waits done t
  | AwaitDrain => g_phase g = Out
  | LeaveGate => g_phase g = AtGate
  | Begin => g_phase g = Held false
  | Produce _ | EndTransaction _ => g_phase g = Held true
  | CloseDone => t_state t = transportClosed
  | _ => True
  end.
Definition call_phase (c : call) (err : option error) (p : phase) : phase :=
  match c, err with
  | EnterGate, None => AtGate
  | LeaveGate, _ => Out
  | Begin, None => Held true
  | EndTransaction true, None | EndTransaction false, _ => Held false
  | _, _ => p
  end.
Definition call_runs (c : call) (b : bool) : bool := match c with CloseDone => false | _ => b end.
Definition call_hist (c : call) (err : option error) : list cevent :=
  match c with
  | Begin => [EvBegin err]
  | Produce records => [EvProduce records err]
  | EndTransaction commit => [EvEnd commit err]
  | _ => []
  end.

(** ** Weakest preconditions *)
Fixpoint wp {R} (p : prog R) (Q : R -> ghost -> Prop) (g : ghost) : Prop :=
  match p with
  | Ret r => Q r g
  | Panic => False
  | Lock s k => forall t, tinv t -> g_know g t -> linked (g_phase g) t -> lock_pre s g t /\
      exists K, stable K /\ K (enter s t) /\
        wp (k t) Q {| g_know := K; g_phase := lock_phase s (g_phase g) t; g_hist := g_hist g; g_runs := lock_runs s (g_runs g) t |}
  | Call c k =>
      (forall t, tinv t -> g_know g t -> linked (g_phase g) t -> call_pre c g t) /\
      (forall t i err t', tinv t -> g_know g t -> linked (g_phase g) t -> perform i c err t = Some t' ->
        exists K, stable K /\ K t' /\
          wp (k err) Q {| g_know := K; g_phase := call_phase c err (g_phase g); g_hist := (g_hist g ++ call_hist c err)%list;
                          g_runs := call_runs c (g_runs g) |})
  | Now k => forall now, wp (k now) Q g
  end.

Lemma wp_mono {R} (p : prog R) (Q Q' : R -> ghost -> Prop) g : (forall r g, Q r g -> Q' r g) -> wp p Q g -> wp p Q' g.
Proof.
  intros HQ. revert g. induction p as [r| |s k IH|c k IH|k IH]; intros g; cbn; [apply HQ|done|..].
  - intros H t Ht Hk Hl. destruct (H t Ht Hk Hl) as (Hp & K & HK & Hs & Hw). eauto 10.
  - intros [H1 H2]. split; [done|]. intros t i err t' Ht Hk Hl Hp. destruct (H2 _ _ _ _ Ht Hk Hl Hp) as (K & HK & Hs & Hw). eauto 10.
  - intros H now. auto.
Qed.

Lemma wp_bind {R R'} (p : prog R) (f : R -> prog R') Q g : wp p (fun r g => wp (f r) Q g) g -> wp (pbind p f) Q g.
Proof.
  revert g. induction p as [r| |s k IH|c k IH|k IH]; intros g; cbn; [done..| | |].
  - intros H t Ht Hk Hl. destruct (H t Ht Hk Hl) as (Hp & K & HK & Hs & Hw). eauto 10.
  - intros [H1 H2]. split; [done|]. intros t i err t' Ht Hk Hl Hp. destruct (H2 _ _ _ _ Ht Hk Hl Hp) as (K & HK & Hs & Hw). eauto 10.
  - intros H now. auto.
Qed.

(** ** Stable facts *)
Definition closed (t : Transport) : Prop := t_state t = transportClosed.
Definition quiet (t : Transport) : Prop := t_state t = transportClosed /\ t_txActive t = false.
Ltac trans_cases H :=
  destruct H as [[s ->]|(i & c & err & H)];
  [destruct s; cbn [enter]; repeat case_match; cbn in *
  |destruct c as [| | | | | | |[]| | | | | |[?|]], err; cbn [perform] in H; repeat case_match; simplify_eq/=].

Lemma stable_true : stable (fun _ => True).
Proof. done. Qed.
Lemma stable_and K1 K2 : stable K1 -> stable K2 -> stable (fun t => K1 t /\ K2 t).
Proof. intros H1 H2 t t' Ht Htr []. split; eauto. Qed.
Lemma stable_closed : stable closed.
Proof. intros t t' Ht Htr. unfold closed. trans_cases Htr; congruence. Qed.
Lemma stable_quiet : stable quiet.
Proof. intros t t' Ht Htr. unfold quiet. trans_cases Htr; intuition congruence. Qed.
Lemma stable_waits done : stable (waits done).
Proof.
  intros t t' Ht Htr. unfold waits. trans_cases Htr; try (intuition congruence).
  all: intros [Hc [[Ha Hd]|[Ha (c & -> & Hin)]]]; split; try done; right; split; try done.
  - subst. eexists. split; [done|]. set_solver.
  - eexists. split; [done|]. set_solver.
  - destruct Ht as [(Hw & _) _]. apply Hw in Ha as [? ?]. congruence.
  - eauto.
Qed.
Definition refusing (t : Transport) : Prop := t_state t = transportDraining \/ t_state t = transportClosed.
Lemma stable_refusing : stable refusing.
Proof. intros t t' Ht Htr. unfold refusing. trans_cases Htr; intuition congruence. Qed.
Lemma stable_clientClosed : stable (fun t => t_clientClosed t = true).
Proof. intros t t' Ht Htr. trans_cases Htr; congruence. Qed.
Lemma stable_drain : stable (fun t => t_drain t = true).
Proof. intros t t' Ht Htr. trans_cases Htr; congruence. Qed.
Lemma stable_started : stable (fun t => t_runStarted t = true).
Proof. intros t t' Ht Htr. trans_cases Htr; congruence. Qed.
#[local] Hint Resolve stable_true stable_and stable_closed stable_quiet stable_waits stable_refusing stable_clientClosed stable_drain stable_started : go.

(** ** Rules *)
(** Where a call is; what it knows is stable. *)
Definition atr (b : bool) (p : phase) (h : list cevent) (g : ghost) : Prop :=
  stable (g_know g) /\ g_phase g = p /\ g_hist g = h /\ g_runs g = b.
Abbreviation at_ := (atr false).

(** A call that learns nothing. *)
Lemma wp_call {R} c (k : option error -> prog R) Q b p h g : atr b p h g ->
  (forall t, tinv t -> g_know g t -> linked p t -> call_pre c g t) ->
  (forall err g', atr (call_runs c b) (call_phase c err p) (h ++ call_hist c err) g' -> wp (k err) Q g') -> wp (Call c k) Q g.
Proof.
  intros (Hs & Hp & Hh & Hr) Hpre Hk. cbn. rewrite Hp. split; [done|]. intros t i err t' Ht Hg Hl Hperf.
  exists (g_know g). split_and!; [done| |].
  - eapply Hs; [exact Ht| |exact Hg]. right. eauto.
  - apply Hk. split_and!; cbn; [done|done|by rewrite Hh|by rewrite Hr].
Qed.

(** A critical section that reads the state. *)
Lemma wp_lock {R} s (k : Transport -> prog R) Q b p h g : atr b p h g -> s <> RunEnter ->
  (forall t, lock_pre s g t) ->
  (forall t g', tinv t -> linked p t -> atr b (lock_phase s p t) h g' -> wp (k t) Q g') -> wp (Lock s k) Q g.
Proof.
  intros (Hs & Hp & Hh & Hr) Hc Hpre Hk. cbn. intros t Ht Hg Hl. split; [done|].
  exists (g_know g). split_and!; [done| |].
  - eapply Hs; [exact Ht| |exact Hg]. left. eauto.
  - rewrite Hp in *. apply Hk; [done..|]. split_and!; cbn; [done|done|done|]. rewrite Hr. by destruct s.
Qed.

(** ** Transactions *)
(** What is known of a transaction: its commit was never requested, or was
    requested and the request failed, so that the broker may have committed it or
    not, or was confirmed. *)
Inductive fate : Set := Uncommitted | InDoubt | Committed.

(** The history of a transaction, and its fate. *)
Inductive transaction (records : list record) : list cevent -> fate -> Prop :=
| tx_not_begun err : transaction records [EvBegin (Some err)] Uncommitted
| tx_not_produced err abort : transaction records [EvBegin None; EvProduce records (Some err); EvEnd false abort] Uncommitted
| tx_in_doubt err abort :
    transaction records [EvBegin None; EvProduce records None; EvEnd true (Some err); EvEnd false abort] InDoubt
| tx_committed : transaction records [EvBegin None; EvProduce records None; EvEnd true None] Committed.

Definition succeeded {A} (err : option A) : bool := match err with None => true | Some _ => false end.

Lemma join_some e es : exists e', errors_join (Some e :: es) = Some e'.
Proof. unfold errors_join. cbn. eauto. Qed.

Lemma transact_ok begin publish commit records g : at_ (Held false) [] g ->
  wp (transact begin publish commit records)
     (fun err g' => exists h f, at_ (Held false) h g' /\ transaction records h f /\ (err = None <-> f = Committed)) g.
Proof.
  intros Hg. unfold transact, call_err, abortTransaction. cbn [pbind].
  eapply (wp_call _ _ _ _ _ _ _ Hg); [intros; apply Hg|]. clear g Hg. intros [err|] g Hg; cbn in Hg.
  { do 2 eexists. split; [exact Hg|]. by split; [constructor|]. }
  eapply (wp_call _ _ _ _ _ _ _ Hg); [intros; apply Hg|]. clear g Hg. intros [err|] g Hg; cbn in Hg.
  { eapply (wp_call _ _ _ _ _ _ _ Hg); [intros; apply Hg|]. clear g Hg. intros abort g Hg; cbn in Hg.
    destruct (join_some (EFmt publish [err]) [abort]) as [e' He']. cbn [wp]. rewrite He'. do 2 eexists. split; [exact Hg|]. by split; [constructor|]. }
  eapply (wp_call _ _ _ _ _ _ _ Hg); [intros; apply Hg|]. clear g Hg. intros [err|] g Hg; cbn in Hg.
  - eapply (wp_call _ _ _ _ _ _ _ Hg); [intros; apply Hg|]. clear g Hg. intros abort g Hg; cbn in Hg.
    destruct (join_some (EFmt commit [err]) [abort]) as [e' He']. cbn [wp]. rewrite He'. do 2 eexists. split; [exact Hg|]. by split; [constructor|].
  - do 2 eexists. split; [exact Hg|]. by split; [constructor|].
Qed.

Lemma acquire_ok ctx h g : at_ Out h g ->
  wp (acquireTransaction ctx) (fun err g' => at_ (if succeeded err then Held false else Out) h g') g.
Proof.
  intros Hg. unfold acquireTransaction, call_err, leaveGate. destruct ctx; [|exact Hg]. cbn [negb pbind].
  eapply (wp_call _ _ _ _ _ _ _ Hg); [intros; split; apply Hg|]. clear g Hg. intros [err|] g Hg; cbn in Hg; rewrite app_nil_r in Hg; [exact Hg|].
  eapply (wp_call _ _ _ _ _ _ _ Hg); [done|]. clear g Hg. intros [err|] g Hg; cbn in Hg; rewrite app_nil_r in Hg.
  { eapply (wp_call _ _ _ _ _ _ _ Hg); [intros; apply Hg|]. clear g Hg. intros ? g Hg. cbn in *. by rewrite app_nil_r in Hg. }
  eapply (wp_lock _ _ _ _ _ _ _ Hg); [done|intros; apply Hg|]. clear g Hg. intros t g Ht _ Hg.
  unfold not_running, lock_phase in *. destruct (t_state t) eqn:E; cbn in Hg; cbn [pbind err_of]; try exact Hg.
  all: eapply (wp_call _ _ _ _ _ _ _ Hg); [intros; apply Hg|]; clear g Hg; intros ? g Hg; cbn in *; by rewrite app_nil_r in Hg.
Qed.

Lemma transport_release_ok h g : at_ (Held false) h g -> wp releaseTransaction (fun _ g' => at_ Out h g') g.
Proof.
  intros Hg. unfold releaseTransaction, leaveGate.
  eapply (wp_lock _ _ _ _ _ _ _ Hg); [done|intros; apply Hg|]. clear g Hg. intros t g [(Hw & Hd & _) _] Ha Hg. cbn in Ha.
  apply Hw in Ha as [ch Hch]. rewrite Hch. rewrite decide_False by (by apply Hd).
  eapply (wp_call _ _ _ _ _ _ _ Hg); [intros; apply Hg|]. clear g Hg. intros ? g Hg. cbn in *. by rewrite app_nil_r in Hg.
Qed.

(** A transaction between [acquireTransaction] and [releaseTransaction]. *)
Lemma deferred_ok {R} (p : prog R) (Q : R -> list cevent -> Prop) g : at_ (Held false) [] g ->
  (forall g, at_ (Held false) [] g -> wp p (fun r g' => exists h, at_ (Held false) h g' /\ Q r h) g) ->
  wp (deferred releaseTransaction p) (fun r g' => exists h, at_ Out h g' /\ Q r h) g.
Proof.
  intros Hg Hp. unfold deferred. apply wp_bind. eapply wp_mono; [|by apply Hp]. cbn beta. intros r g' (h & Hg' & HQ).
  apply wp_bind. eapply wp_mono; [|by apply transport_release_ok]. cbn. eauto.
Qed.

Lemma check_ok {R} m (ret : error -> R) k (P : option error -> ghost -> Prop) Q g : wp m P g ->
  (forall err g, P (Some err) g -> Q (ret err) g) -> (forall g, P None g -> wp k Q g) -> wp (check m ret k) Q g.
Proof. intros Hm Hs Hn. unfold check. apply wp_bind. eapply wp_mono; [|exact Hm]. intros [err|] g'; cbn; auto. Qed.

Lemma ensureRunning_ok p h g : at_ p h g -> wp ensureRunning (fun _ g' => at_ p h g') g.
Proof. intros Hg. unfold ensureRunning. eapply (wp_lock _ _ _ _ _ _ _ Hg); done. Qed.
Lemma ctxErr_ok p h g : at_ p h g -> wp (call_err CtxErr) (fun _ g' => at_ p h g') g.
Proof. intros Hg. unfold call_err. eapply (wp_call _ _ _ _ _ _ _ Hg); [done|]. intros err g' Hg'. cbn in *. by rewrite app_nil_r in Hg'. Qed.

(** ** Publishing *)
(** What the answer of [publishEnvelope] says of the call's transactions. *)
Definition publish_spec (r : KafkaRoute) (m : Metadata) (native : string) (a : Receipt * option error) (h : list cevent) : Prop :=
  match a with
  | (receipt, None) => exists topic before now, routeTopic r m = Ok topic /\ routeTiming m before = None /\ receipt = confirmed r m now /\
      transaction [newRouteRecord topic m native] h Committed
  | (receipt, Some _) => receipt = Receipt0 /\
      (h = [] \/ exists topic f, routeTopic r m = Ok topic /\ transaction [newRouteRecord topic m native] h f /\ f <> Committed)
  end.

Lemma publishEnvelope_ok r ctx m native g : at_ Out [] g ->
  wp (publishEnvelope r ctx m native) (fun a g' => exists h, at_ Out h g' /\ publish_spec r m native a h) g.
Proof.
  intros Hg. unfold publishEnvelope. assert (forall err g, at_ Out [] g -> exists h, at_ Out h g /\ publish_spec r m native (refused err) h) as Hno
    by (intros; exists []; split; [done|]; split; auto).
  eapply check_ok; [apply ensureRunning_ok; exact Hg|by auto|]. clear g Hg. intros g Hg. cbn [clock pbind wp]. intros before.
  destruct (routeTiming m (UTC before)) as [err|] eqn:Et; [by apply Hno|].
  destruct (routeTopic r m) as [topic|err] eqn:Eo; [|by apply (Hno (EPermanent err))]. destruct ctx; [|by apply Hno]. cbn [negb].
  eapply check_ok; [apply ctxErr_ok; exact Hg|by auto|]. clear g Hg. intros g Hg.
  eapply check_ok; [apply acquire_ok; exact Hg|by auto|]. clear g Hg. intros g Hg. cbn [succeeded] in Hg.
  apply deferred_ok; [done|]. clear g Hg. intros g Hg. cbn [clock pbind wp]. intros now.
  destruct (expired m (UTC now)); [exists []; split; [done|]; split; auto|].
  eapply check_ok; [apply transact_ok; exact Hg|..].
  - intros err g' (h & f & Hg' & Htx & Hf). exists h. split; [done|]. split; [done|]. right. exists topic, f. split_and!; [done..|]. by intros ?%Hf.
  - intros g' (h & f & Hg' & Htx & Hf). rewrite (proj1 Hf eq_refl) in Htx. cbn. intros at_time. exists h. split; [done|]. cbn. eauto 10.
Qed.

Section Replay.
Context `{!EnvelopeJSON}.
Context (ToLower : string -> string) (parseTime : string -> option Time).

Definition replay_spec (rec : option record) (assigned : record -> record) (a : option record * option error) (h : list cevent) : Prop :=
  match a with
  | (p, None) => exists rec' canonical, rec = Some rec' /\ validateProtectedReplayRecord ToLower parseTime rec' = Ok canonical /\
      p = Some (assigned (newReplayRecord rec' canonical)) /\ transaction [newReplayRecord rec' canonical] h Committed
  | (p, Some _) => p = None /\ (h = [] \/ exists rec' canonical f, rec = Some rec' /\
      validateProtectedReplayRecord ToLower parseTime rec' = Ok canonical /\ transaction [newReplayRecord rec' canonical] h f /\ f <> Committed)
  end.

Lemma PublishReplay_ok ctx rec assigned g : at_ Out [] g ->
  wp (PublishReplay ToLower parseTime ctx rec assigned) (fun a g' => exists h, at_ Out h g' /\ replay_spec rec assigned a h) g.
Proof.
  intros Hg. assert (forall err g, at_ Out [] g -> exists h, at_ Out h g /\ replay_spec rec assigned (None, Some err) h) as Hno
    by (intros; exists []; split; [done|]; split; auto).
  unfold PublishReplay. destruct rec as [rec|]; [|by apply Hno]. destruct (_ || _); [by apply Hno|].
  eapply check_ok; [apply ensureRunning_ok; exact Hg|by auto|]. clear g Hg. intros g Hg.
  destruct (validateProtectedReplayRecord _ _ _) as [canonical|err] eqn:Ev; [|by apply Hno].
  eapply check_ok; [apply acquire_ok; exact Hg|by auto|]. clear g Hg. intros g Hg. cbn [succeeded] in Hg.
  apply deferred_ok; [done|]. clear g Hg. intros g Hg. eapply check_ok; [apply transact_ok; exact Hg|..].
  - intros err g' (h & f & Hg' & Htx & Hf). exists h. split; [done|]. split; [done|]. right. exists rec, canonical, f. split_and!; [done..|]. by intros ?%Hf.
  - intros g' (h & f & Hg' & Htx & Hf). rewrite (proj1 Hf eq_refl) in Htx. exists h. split; [done|]. cbn. eauto 10.
Qed.
End Replay.

(** ** Batches *)
Section Batch.
Context `{!EnvelopeJSON} (r : KafkaRoute).

(** The record of a payload that may be published. *)
Definition publishes (payload : string) (m : Metadata) (rec : record) : Prop :=
  exists canonical topic, canonicalEnvelope payload = Ok (m, canonical) /\ routeTopic r m = Ok topic /\ rec = newRouteRecord topic m canonical.

Definition position (payload : string) (errs : list (option error)) (items : list batchRouteRecord) (j : nat) : Prop :=
  (exists err, errs !! j = Some (Some err)) /\ j ∉ List.map br_index items \/
  errs !! j = Some None /\ exists item, item ∈ items /\ br_index item = j /\ publishes payload (br_metadata item) (br_record item).

(** The first [k] payloads are judged: each has an error or an item, and the items
    are in order. *)
Definition judged (payloads : list string) (k : nat) (errs : list (option error)) (items : list batchRouteRecord) : Prop :=
  List.length errs = List.length payloads /\ StronglySorted Nat.lt (List.map br_index items) /\
  Forall (fun item => (br_index item < k)%nat) items /\
  (forall j payload, payloads !! j = Some payload -> (j < k)%nat -> position payload errs items j) /\
  (forall j, (k <= j < List.length payloads)%nat -> errs !! j = Some None).

Lemma sorted_app l1 l2 : StronglySorted Nat.lt (l1 ++ l2)%list ->
  StronglySorted Nat.lt l1 /\ StronglySorted Nat.lt l2 /\ (forall x y, x ∈ l1 -> y ∈ l2 -> (x < y)%nat).
Proof.
  induction l1 as [|a l1 IH]; cbn; [intros; split_and!; [constructor|done|set_solver]|].
  intros (Hs & Ha)%StronglySorted_inv. destruct (IH Hs) as (S1 & S2 & S3). rewrite Forall_forall in Ha. split_and!; [|done|].
  - constructor; [done|]. apply Forall_forall. intros x Hx. apply Ha. set_solver.
  - intros x y [->|Hx]%elem_of_cons Hy; [apply Ha; set_solver|auto].
Qed.
Lemma sorted_join l1 l2 : StronglySorted Nat.lt l1 -> StronglySorted Nat.lt l2 -> (forall x y, x ∈ l1 -> y ∈ l2 -> (x < y)%nat) ->
  StronglySorted Nat.lt (l1 ++ l2)%list.
Proof.
  intros H1 H2. induction H1 as [|a l1 H1 IH Ha]; cbn; [done|]. intros Hxy. constructor; [apply IH; intros; apply Hxy; set_solver|].
  apply Forall_app. split; [done|]. apply Forall_forall. intros y Hy. apply Hxy; set_solver.
Qed.

Lemma elem_index item items : item ∈ items -> br_index item ∈ List.map br_index items.
Proof. intros Hi. apply list_elem_of_In, in_map. by apply list_elem_of_In. Qed.
Lemma index_elem j items : j ∈ List.map br_index items -> exists item, item ∈ items /\ br_index item = j.
Proof. intros (item & <- & Hi)%list_elem_of_In%in_map_iff. exists item. split; [by apply list_elem_of_In|done]. Qed.

(** An item gets an error. *)
Lemma judged_fail payloads k errs l1 item l2 err : judged payloads k errs (l1 ++ item :: l2) -> (k <= List.length payloads)%nat ->
  judged payloads k (set_err (br_index item) (Some err) errs) (l1 ++ l2).
Proof.
  intros (Hl & Hs & Hk & Hp & Ht) Hkn. rewrite map_app in Hs. cbn in Hs. destruct (sorted_app _ _ Hs) as (S1 & S2 & S3).
  apply StronglySorted_inv in S2 as [S2 S4]. rewrite Forall_forall in S4.
  apply Forall_app in Hk as [K1 K2]. inversion K2 as [|?? Hlt K3]; subst.
  assert (br_index item ∉ List.map br_index (l1 ++ l2)) as Hnot.
  { rewrite map_app. intros [Hin|Hin]%elem_of_app; [specialize (S3 _ (br_index item) Hin ltac:(set_solver))|specialize (S4 _ Hin)]; lia. }
  unfold set_err. split_and!.
  - by rewrite length_insert.
  - rewrite map_app. apply sorted_join; [done..|]. intros x y Hx Hy. apply S3; [done|set_solver].
  - by apply Forall_app.
  - intros j payload Hj Hlj. destruct (decide (j = br_index item)) as [->|Hne].
    + left. split; [|done]. exists err. apply list_lookup_insert_eq. lia.
    + unfold position. rewrite list_lookup_insert_ne by done. destruct (Hp j payload Hj Hlj) as [[He Hn]|[He (it & Hin & <- & Hpub)]].
      * left. split; [done|]. rewrite map_app in *. set_solver.
      * right. split; [done|]. exists it. split_and!; [|done..]. set_solver.
  - intros j Hj. rewrite list_lookup_insert_ne by lia. by apply Ht.
Qed.

Lemma mark_failed payloads errs items err : judged payloads (List.length payloads) errs items ->
  judged payloads (List.length payloads) (markKafkaBatchFailure items errs (Some err)) [].
Proof.
  unfold markKafkaBatchFailure. revert errs. induction items as [|item items IH]; intros errs HJ; cbn; [done|].
  apply IH. by apply (judged_fail _ _ _ []).
Qed.

Lemma judged_error payloads k errs items err : judged payloads k errs items -> (k < List.length payloads)%nat ->
  judged payloads (S k) (set_err k (Some err) errs) items.
Proof.
  intros (Hl & Hs & Hk & Hp & Ht) Hkn. unfold set_err. split_and!.
  - by rewrite length_insert.
  - done.
  - eapply Forall_impl; [exact Hk|]. cbn. lia.
  - intros j payload Hj Hlj. destruct (decide (j = k)) as [->|Hne].
    + left. split; [exists err; apply list_lookup_insert_eq; lia|]. intros (item & Hin & Hi)%index_elem.
      rewrite Forall_forall in Hk. specialize (Hk _ Hin). lia.
    + unfold position. rewrite list_lookup_insert_ne by done. apply Hp; [done|lia].
  - intros j Hj. rewrite list_lookup_insert_ne by lia. apply Ht. lia.
Qed.

Lemma judged_item payloads k errs items payload m rec : judged payloads k errs items -> payloads !! k = Some payload -> publishes payload m rec ->
  judged payloads (S k) errs (items ++ [{| br_index := k; br_metadata := m; br_record := rec |}]).
Proof.
  intros (Hl & Hs & Hk & Hp & Ht) Hpl Hpub. apply lookup_lt_Some in Hpl as Hlt. rewrite Forall_forall in Hk. split_and!.
  - done.
  - rewrite map_app. apply sorted_join; [done|repeat constructor|]. intros x y (item & Hin & <-)%index_elem [->|?]%elem_of_cons; [|set_solver].
    by apply Hk.
  - apply Forall_forall. intros item [Hin|Hin]%elem_of_app; [specialize (Hk _ Hin); lia|]. apply list_elem_of_singleton in Hin as ->. cbn. lia.
  - intros j payload' Hj Hlj. destruct (decide (j = k)) as [->|Hne].
    + right. split; [apply Ht; lia|]. eexists. split; [apply elem_of_app; right; by apply list_elem_of_singleton|]. cbn.
      assert (payload' = payload) as -> by congruence. done.
    + destruct (Hp j payload' Hj ltac:(lia)) as [[He Hn]|[He (it & Hin & <- & Hpub')]].
      * left. split; [done|]. rewrite map_app. cbn. set_solver.
      * right. split; [done|]. exists it. set_solver.
  - intros j Hj. apply Ht. lia.
Qed.

Lemma batch_prepare_ok payloads k rest errs valid g : payloads = (take k payloads ++ rest)%list -> (k + List.length rest = List.length payloads)%nat ->
  judged payloads k errs valid ->
  wp (prepare r k rest errs valid) (fun x g' => g' = g /\ judged payloads (List.length payloads) x.1 x.2) g.
Proof.
  revert k errs valid. induction rest as [|payload rest IH]; intros k errs valid Hpl Hlen HJ; cbn [prepare].
  { cbn in *. rewrite Nat.add_0_r in Hlen. subst k. done. }
  cbn in Hlen. assert (payloads !! k = Some payload) as Hk.
  { rewrite Hpl, lookup_app_r; rewrite length_take; [|lia]. by rewrite Nat.min_l, Nat.sub_diag by lia. }
  assert (payloads = (take (S k) payloads ++ rest)%list) as Hpl'.
  { rewrite (take_S_r _ _ _ Hk), <- app_assoc. exact Hpl. }
  assert (forall err, wp (prepare r (S k) rest (set_err k (Some err) errs) valid)
     (fun x g' => g' = g /\ judged payloads (List.length payloads) x.1 x.2) g) as Herr.
  { intros err. apply IH; [done|lia|]. apply judged_error; [done|lia]. }
  destruct (canonicalEnvelope payload) as [[m canonical]|err] eqn:Ec; [|done]. cbn [clock pbind wp]. intros now.
  destruct (routeTiming m (UTC now)) as [err|]; [done|]. destruct (routeTopic r m) as [topic|err] eqn:Et; [|apply (Herr (EPermanent err))].
  apply IH; [done|lia|]. eapply judged_item; [done..|]. unfold publishes. eauto.
Qed.

Lemma still_active_ok payloads valid errs active g : judged payloads (List.length payloads) errs (active ++ valid) ->
  wp (still_active valid errs active) (fun x g' => g' = g /\ judged payloads (List.length payloads) x.1 x.2) g.
Proof.
  revert errs active. induction valid as [|item valid IH]; intros errs active HJ; cbn [still_active wp fst snd]; [rewrite app_nil_r in HJ; by split|].
  cbn [clock pbind wp]. intros now. destruct (expired _ _).
  - apply IH. by apply (judged_fail _ _ _ active item valid).
  - apply IH. by rewrite <- app_assoc.
Qed.

(** Each payload has an error or a receipt.  At most one transaction is tried, with
    records of payloads in their order; the receipts are those of its records, when
    it was committed, and there are none otherwise. *)
Definition batch_spec (ctx : bool) (payloads : list string) (a : batch_result) (h : list cevent) : Prop :=
  match a with
  | (receipts, errs, Some _) => receipts = [] /\ errs = [] /\ h = [] /\ (ctx = false \/ payloads = [])
  | (receipts, errs, None) => exists (tried : list (nat * record)) (f : fate),
      List.length receipts = List.length payloads /\ List.length errs = List.length payloads /\
      StronglySorted Nat.lt tried.*1 /\
      (forall j rec, (j, rec) ∈ tried -> exists payload m, payloads !! j = Some payload /\ publishes payload m rec) /\
      (tried = [] /\ h = [] \/ tried <> [] /\ transaction tried.*2 h f) /\
      forall j payload, payloads !! j = Some payload ->
        (exists err, errs !! j = Some (Some err)) /\ receipts !! j = Some Receipt0 /\ (j ∈ tried.*1 -> f <> Committed) \/
        errs !! j = Some None /\ f = Committed /\
        exists m rec now, publishes payload m rec /\ receipts !! j = Some (confirmed r m now) /\ (j, rec) ∈ tried
  end.

Definition numbered (items : list batchRouteRecord) : list (nat * record) := List.map (fun item => (br_index item, br_record item)) items.
Lemma numbered_spec items : (numbered items).*1 = List.map br_index items /\ (numbered items).*2 = List.map br_record items.
Proof. unfold numbered. split; by rewrite <- list_fmap_compose. Qed.
Lemma elem_numbered j rec items : (j, rec) ∈ numbered items <-> exists item, item ∈ items /\ br_index item = j /\ br_record item = rec.
Proof.
  unfold numbered. rewrite list_elem_of_In, in_map_iff. setoid_rewrite list_elem_of_In. split; [intros (item & [= <- <-] & ?); eauto|].
  intros (item & ? & <- & <-); eauto.
Qed.

Lemma index_unique a b items : StronglySorted Nat.lt (List.map br_index items) -> a ∈ items -> b ∈ items -> br_index a = br_index b -> a = b.
Proof.
  induction items as [|x items IH]; cbn; [set_solver|]. intros (Hs & Hx)%StronglySorted_inv Ha Hb Hab. rewrite Forall_forall in Hx.
  apply elem_of_cons in Ha as [->|Ha]; apply elem_of_cons in Hb as [->|Hb]; [done|..|by auto];
    [specialize (Hx _ (elem_index _ _ Hb))|specialize (Hx _ (elem_index _ _ Ha))]; lia.
Qed.

(** Every item is the record of its payload. *)
Lemma judged_publishes payloads errs items j rec : judged payloads (List.length payloads) errs items -> (j, rec) ∈ numbered items ->
  exists payload m, payloads !! j = Some payload /\ publishes payload m rec.
Proof.
  intros (_ & Hs & Hf & Hp & _) (item & Hin & <- & <-)%elem_numbered. rewrite Forall_forall in Hf.
  destruct (lookup_lt_is_Some_2 payloads (br_index item) (Hf _ Hin)) as [payload Hpl]. exists payload, (br_metadata item). split; [done|].
  destruct (Hp _ _ Hpl (Hf _ Hin)) as [[_ Hn]|[_ (it & Hit & Hi & Hpub)]]; [by destruct (Hn (elem_index _ _ Hin))|].
  by rewrite <- (index_unique _ _ _ Hs Hit Hin Hi).
Qed.

Definition confirm_receipts (now : Time) (items : list batchRouteRecord) (receipts : list Receipt) : list Receipt :=
  fold_left (fun receipts item => <[br_index item := confirmed r (br_metadata item) now]> receipts) items receipts.

Lemma confirm_receipts_lookup now items receipts : StronglySorted Nat.lt (List.map br_index items) ->
  Forall (fun item => (br_index item < List.length receipts)%nat) items ->
  List.length (confirm_receipts now items receipts) = List.length receipts /\
  (forall item, item ∈ items -> confirm_receipts now items receipts !! br_index item = Some (confirmed r (br_metadata item) now)) /\
  (forall j, j ∉ List.map br_index items -> confirm_receipts now items receipts !! j = receipts !! j).
Proof.
  revert receipts. induction items as [|item items IH]; intros receipts Hs Hf; cbn; [split_and!; [done|set_solver|done]|].
  cbn in Hs. apply StronglySorted_inv in Hs as [Hs Hi]. inversion Hf as [|?? F1 F2]; subst. rewrite Forall_forall in Hi.
  assert (br_index item ∉ List.map br_index items) as Hnot by (intros Hin; specialize (Hi _ Hin); lia).
  destruct (IH (<[br_index item := confirmed r (br_metadata item) now]> receipts)) as (L1 & L2 & L3); [done|by rewrite length_insert|].
  fold (confirm_receipts now items (<[br_index item := confirmed r (br_metadata item) now]> receipts)). rewrite length_insert in L1. split_and!.
  - done.
  - intros it [->|Hit]%elem_of_cons; [|by apply L2]. rewrite L3 by done. by apply list_lookup_insert_eq.
  - intros j Hj. rewrite L3 by set_solver. apply list_lookup_insert_ne. set_solver.
Qed.

(** The answer when no transaction is tried, when it fails and when it commits. *)
Lemma batch_refused ctx payloads errs : judged payloads (List.length payloads) errs [] ->
  batch_spec ctx payloads (replicate (List.length payloads) Receipt0, errs, None) [].
Proof.
  intros (Hl & _ & _ & Hp & _). exists [], Uncommitted. split_and!; [by rewrite length_replicate|done|constructor|set_solver|by left|].
  intros j payload Hj. apply lookup_lt_Some in Hj as Hlt. destruct (Hp _ _ Hj Hlt) as [[He _]|[_ (? & ? & _)]]; [|set_solver].
  left. split_and!; [done| |done]. by apply lookup_replicate_2.
Qed.

Lemma batch_failed ctx payloads errs items h f err : judged payloads (List.length payloads) errs items -> items <> [] ->
  transaction (List.map br_record items) h f -> f <> Committed ->
  batch_spec ctx payloads (replicate (List.length payloads) Receipt0, markKafkaBatchFailure items errs (Some err), None) h.
Proof.
  intros HJ Hne Htx Hf. pose proof (mark_failed _ _ _ err HJ) as (Hl & _ & _ & Hp & _). pose proof HJ as (_ & Hs & _).
  destruct (numbered_spec items) as [E1 E2]. exists (numbered items), f. rewrite E1, E2, length_replicate.
  split_and!; [done|done|done|intros j rec; by eapply judged_publishes|right; split; [by destruct items|done]|].
  intros j payload Hj. apply lookup_lt_Some in Hj as Hlt. destruct (Hp _ _ Hj Hlt) as [[He _]|[_ (? & ? & _)]]; [|set_solver].
  left. split_and!; [done| |done]. by apply lookup_replicate_2.
Qed.

Lemma batch_confirmed ctx payloads errs items h now : judged payloads (List.length payloads) errs items -> items <> [] ->
  transaction (List.map br_record items) h Committed ->
  batch_spec ctx payloads (confirm_receipts now items (replicate (List.length payloads) Receipt0), errs, None) h.
Proof.
  intros HJ Hne Htx. pose proof HJ as (Hl & Hs & Hf & Hp & _).
  destruct (confirm_receipts_lookup now items (replicate (List.length payloads) Receipt0)) as (L1 & L2 & L3); [done|by rewrite length_replicate|].
  destruct (numbered_spec items) as [E1 E2]. exists (numbered items), Committed. rewrite E1, E2, L1, length_replicate.
  split_and!; [done|done|done|intros j rec; by eapply judged_publishes|right; split; [by destruct items|done]|].
  intros j payload Hj. apply lookup_lt_Some in Hj as Hlt. destruct (Hp _ _ Hj Hlt) as [[He Hn]|[He (item & Hin & <- & Hpub)]].
  - left. split_and!; [done| |done]. rewrite L3 by done. by apply lookup_replicate_2.
  - right. split_and!; [done|done|]. exists (br_metadata item), (br_record item), now. split_and!; [done|by apply L2|]. apply elem_numbered; eauto.
Qed.

Lemma PublishEnvelopeBatch_ok ctx payloads g : at_ Out [] g ->
  wp (PublishEnvelopeBatch r ctx payloads) (fun a g' => exists h, at_ Out h g' /\ batch_spec ctx payloads a h) g.
Proof.
  intros Hg. unfold PublishEnvelopeBatch. destruct ctx; cbn [negb]; [|exists []; split; [done|by split_and!; auto]].
  destruct (decide (payloads = [])) as [->|Hne]; [exists []; split; [done|by split_and!; auto]|].
  destruct payloads as [|p0 ps]; [done|]. set (payloads := p0 :: ps) in *. apply wp_bind.
  eapply wp_mono; [|apply (batch_prepare_ok payloads); [done|done|]].
  2: { split_and!; [by rewrite length_replicate|constructor|constructor|lia|]. intros j Hj. apply lookup_replicate_2. lia. }
  intros [errs valid] g' [-> HJ]. cbn [fst snd] in HJ. destruct valid as [|v0 vs].
  { exists []. split; [done|]. by apply batch_refused. }
  set (valid := v0 :: vs) in *.
  assert (forall err g, at_ Out [] g -> exists h, at_ Out h g /\
    batch_spec true payloads (replicate (List.length payloads) Receipt0, markKafkaBatchFailure valid errs (RetryAfter (Some err) Second), None) h) as Hno.
  { intros err g1 Hg1. exists []. split; [done|]. apply batch_refused. by apply mark_failed. }
  eapply check_ok; [apply ensureRunning_ok; exact Hg|by auto|]. clear g Hg. intros g Hg.
  eapply check_ok; [apply acquire_ok; exact Hg|by auto|]. clear g Hg Hno. intros g Hg. cbn [succeeded] in Hg.
  apply deferred_ok; [done|]. clear g Hg. intros g Hg. unfold publish_active. apply wp_bind.
  eapply wp_mono; [|by apply (still_active_ok payloads)]. clear HJ. intros [errs' active] g' [-> HJ]. cbn [fst snd] in HJ.
  destruct active as [|a0 as0]; [exists []; split; [done|]; apply batch_refused; auto|]. set (active := a0 :: as0) in *.
  eapply check_ok; [apply transact_ok; exact Hg|..].
  - intros err g' (h & f & Hg' & Htx & Hf). exists h. split; [done|]. eapply (batch_failed true payloads errs' active h f _); [done..|]. by intros ?%Hf.
  - intros g' (h & f & Hg' & Htx & Hf). rewrite (proj1 Hf eq_refl) in Htx. cbn [clock pbind wp]. intros now. exists h. split; [done|]. by apply (batch_confirmed true).
Qed.
End Batch.

(** ** Lifecycle *)
(** Rules for a step that replaces what is known. *)
Lemma wp_learn_lock {R} s (k : Transport -> prog R) Q b p h g : atr b p h g -> lock_phase s p = (fun _ => p) ->
  (forall t, tinv t -> g_know g t -> lock_pre s g t /\ exists K, stable K /\ K (enter s t) /\
     forall g', g_know g' = K -> atr (lock_runs s b t) p h g' -> wp (k t) Q g') -> wp (Lock s k) Q g.
Proof.
  intros (Hs & Hp & Hh & Hr) Hl Hk. cbn. intros t Ht Hg _. destruct (Hk t Ht Hg) as (Hpre & K & HK & Ke & Hw). split; [done|].
  exists K. split_and!; [done..|]. apply Hw; [done|]. unfold atr. rewrite Hp, Hl, Hh, Hr. done.
Qed.
Lemma wp_learn_call {R} c (k : option error -> prog R) Q b p h g : atr b p h g ->
  (forall err, call_phase c err p = p) -> (forall err, call_hist c err = []) ->
  (forall t, tinv t -> g_know g t -> call_pre c g t) ->
  (forall t i err t', tinv t -> g_know g t -> perform i c err t = Some t' -> exists K, stable K /\ K t' /\
     forall g', g_know g' = K -> atr (call_runs c b) p h g' -> wp (k err) Q g') -> wp (Call c k) Q g.
Proof.
  intros (Hs & Hp & Hh & Hr) Hc Hn Hpre Hk. cbn. split; [intros; by apply Hpre|]. intros t i err t' Ht Hg _ Hperf.
  destruct (Hk t i err t' Ht Hg Hperf) as (K & HK & Ke & Hw). exists K. split_and!; [done..|]. apply Hw; [done|].
  unfold atr. cbn. by rewrite Hp, Hc, Hh, Hn, app_nil_r, Hr.
Qed.

Lemma transport_readiness_ok b h g : atr b Out h g -> wp checkTransactionalReadiness (fun _ g' => atr b Out h g') g.
Proof.
  intros Hg. unfold checkTransactionalReadiness, call_err.
  assert (forall c g, c = Ping \/ c = ProducerID -> atr b Out h g -> wp (Call c Ret) (fun _ g' => atr b Out h g') g) as Hcall.
  { intros c g0 [-> | ->] Hg0; eapply (wp_call _ _ _ _ _ _ _ Hg0); try done; intros err g' Hg'; cbn in Hg'; by rewrite app_nil_r in Hg'. }
  eapply check_ok; [apply Hcall; auto|done|]. clear g Hg. intros g Hg. eapply check_ok; [apply Hcall; auto|done|done].
Qed.

Lemma closeDone_ok b h g : atr b Out h g -> (forall t, g_know g t -> closed t) ->
  wp closeDone (fun _ g' => at_ Out h g' /\ g_know g' = g_know g) g.
Proof.
  intros Hg Hc. eapply wp_learn_call; [exact Hg|done|done|intros t _ Ht; by apply Hc|]. intros t i err t' Ht Hk Hperf.
  exists (g_know g). destruct Hg as (Hs & Hrest). split_and!; [done| |intros g' Hg' Ha; by split].
  eapply Hs; [exact Ht| |exact Hk]. right. eauto.
Qed.
Lemma closeClient_ok h g : at_ Out h g ->
  wp closeClient (fun _ g' => at_ Out h g' /\ forall t, g_know g' t -> g_know g t /\ t_clientClosed t = true) g.
Proof.
  intros Hg. eapply wp_learn_call; [exact Hg|done..|]. intros t i err t' Ht Hk Hperf.
  exists (fun t => g_know g t /\ t_clientClosed t = true). destruct Hg as (Hs & Hrest). split_and!.
  - auto with go.
  - eapply Hs; [exact Ht| |exact Hk]. right. eauto.
  - cbn in Hperf. destruct err; [done|]. injection Hperf as <-. by destruct (t_clientClosed t) eqn:E.
  - intros g' Hg' Ha. split; [done|]. by rewrite Hg'.
Qed.
Lemma markClosed_ok b h g : atr b Out h g -> wp markClosed (fun _ g' => at_ Out h g') g.
Proof.
  intros Hg. eapply wp_learn_lock; [exact Hg|done|]. intros t Ht Hk. split; [done|]. exists closed. split_and!; [auto with go|done|].
  intros g' Hg' Ha. cbn in Ha. eapply wp_mono; [|eapply closeDone_ok; [exact Ha|by rewrite Hg']]. by intros _ g2 [? _].
Qed.

Lemma Run_ok ctx g : at_ Out [] g -> wp (Run ctx) (fun _ g' => at_ Out [] g') g.
Proof.
  intros Hg. unfold Run. destruct ctx; [|done]. cbn [negb]. eapply wp_learn_lock; [exact Hg|done|]. intros t Ht Hk.
  split; [by apply Hg|]. cbn [enter lock_runs]. destruct (t_state t) eqn:Es.
  2,3,5: exists (fun _ => True); split_and!; [auto with go|done|]; intros g' _ Ha; exact Ha.
  - exists (fun _ => True). split_and!; [auto with go|done|]. intros g' _ Ha. apply wp_bind.
    eapply wp_mono; [|by apply transport_readiness_ok]. clear g' Ha. intros [err|] g' Ha.
    + apply wp_bind. eapply wp_mono; [|by eapply markClosed_ok]. done.
    + eapply wp_lock; [exact Ha|done|done|]. clear g' Ha. intros t1 g' _ _ Ha. cbn in Ha. unfold call_err. cbn [pbind].
      eapply (wp_call _ _ _ _ _ _ _ Ha); [intros; apply Ha|]. clear g' Ha. intros err g' Ha. cbn in Ha. rewrite ?app_nil_r in Ha.
      apply wp_bind. eapply wp_mono; [|by eapply markClosed_ok]. done.
  - destruct (t_runStarted t); [exists (fun _ => True); split_and!; [auto with go|done|]; intros g' _ Ha; exact Ha|].
    exists closed. split_and!; [auto with go|done|]. intros g' Hg' Ha. apply wp_bind.
    eapply wp_mono; [|eapply closeDone_ok; [exact Ha|by rewrite Hg']]. by intros _ g2 [? _].
Qed.

Lemma Readiness_ok g : at_ Out [] g -> wp Readiness (fun _ g' => at_ Out [] g') g.
Proof.
  intros Hg. unfold Readiness. eapply wp_lock; [exact Hg|done|done|]. clear g Hg. intros t g _ _ Hg. cbn in Hg. case_decide; [|done].
  eapply check_ok; [by apply transport_readiness_ok|done|done].
Qed.

Lemma BeginDrain_ok h g : at_ Out h g ->
  wp BeginDrain (fun _ g' => at_ Out h g' /\ forall t, g_know g' t -> g_know g t /\ refusing t /\ t_drain t = true) g.
Proof.
  intros Hg. unfold BeginDrain. assert (stable (g_know g)) as Hs by apply Hg. eapply wp_learn_lock; [exact Hg|done|]. intros t Ht Hk. split; [done|].
  exists (fun t => g_know g t /\ refusing t). split_and!; [auto with go| | |].
  - eapply Hs; [exact Ht| |exact Hk]. left. eauto.
  - cbn. unfold refusing. destruct (t_state t) eqn:E; cbn; auto.
  - intros g' Hg' Ha. cbn in Ha. eapply wp_learn_call; [exact Ha|done..|]. intros t1 i err t2 Ht1 Hk1 Hperf. rewrite Hg' in Hk1.
    exists (fun t => g_know g t /\ refusing t /\ t_drain t = true). split_and!; [auto with go|..].
    + eapply Hs; [exact Ht1| |apply Hk1]. right. eauto.
    + eapply stable_refusing; [exact Ht1| |apply Hk1]. right. eauto.
    + cbn in Hperf. destruct err; [done|]. by injection Hperf as <-.
    + intros g2 Hg2 Ha2. split; [done|]. by rewrite Hg2.
Qed.

Lemma waitForTransactions_ok h g : at_ Out h g -> (forall t, g_know g t -> closed t) ->
  wp waitForTransactions (fun err g' => at_ Out h g' /\ forall t, g_know g' t -> closed t /\ (err = None -> quiet t)) g.
Proof.
  intros Hg Hc. unfold waitForTransactions. eapply wp_learn_lock; [exact Hg|done|]. intros t Ht Hk. split; [done|].
  destruct (t_txActive t) eqn:Ea; cbn [negb enter].
  - exists (waits (t_txDone t)). split_and!; [auto with go|by split; [apply Hc|left]|]. intros g' Hg' Ha. cbn in Ha.
    eapply wp_learn_call; [exact Ha|done|done|intros t1 _ Hk1; rewrite Hg' in Hk1; split_and!; [apply Ha..|done]|].
    intros t1 i err t2 Ht1 Hk1 Hperf. rewrite Hg' in Hk1. exists (fun t => closed t /\ (err = None -> quiet t)).
    assert (closed t1) as Hc1 by apply Hk1. cbn in Hperf.
    assert (t2 = t1 /\ (err = None -> quiet t1)) as [-> Hq].
    { destruct (t_txDone t) as [ch|], err as [e|]; simplify_eq; try done. case_decide; simplify_eq. split; [done|]. intros _.
      destruct Hk1 as [_ [[Hac Hd]|[Hac _]]]; [|by split]. destruct Ht1 as [(_ & Hd' & _) _]. by destruct (Hd' _ Hd). }
    split_and!; [|done|done|intros g2 Hg2 Ha2; split; [done|by rewrite Hg2]].
    intros u u' Hu Htr [Hcu Hqu]. split; [by eapply stable_closed|]. intros He. eapply stable_quiet; [done|done|auto].
  - exists quiet. split_and!; [auto with go|by split; [apply Hc|]|]. intros g' Hg' Ha. split; [exact Ha|]. rewrite Hg'. intros t1 Hq. by split; [apply Hq|].
Qed.

Lemma Shutdown_ok g : at_ Out [] g ->
  wp Shutdown (fun err g' => at_ Out [] g' /\ forall t, g_know g' t -> refusing t /\ t_clientClosed t = true /\ (err = None -> quiet t)) g.
Proof.
  intros Hg. unfold Shutdown. eapply wp_learn_lock; [exact Hg|done|]. intros t Ht Hk. split; [done|].
  exists (fun t' => if t_runStarted t then t_runStarted t' = true else closed t'). split_and!.
  - destruct (t_runStarted t); auto with go.
  - cbn. by destruct (t_runStarted t) eqn:E.
  - intros g' Hg' Ha. cbn in Ha. apply wp_bind. eapply wp_mono; [|by apply BeginDrain_ok]. intros _ g1 [Ha1 K1]. rewrite Hg' in K1. apply wp_bind.
    assert (wp (if t_runStarted t then call_err AwaitDone else closeDone ;;; Ret None)
      (fun err g' => at_ Out [] g' /\ forall t, g_know g' t -> refusing t /\ (err = None -> closed t)) g1) as Hwait.
    { destruct (t_runStarted t).
      - unfold call_err. eapply wp_learn_call; [exact Ha1|done|done| |].
        + intros u _ Hu. destruct (K1 _ Hu) as (? & ? & ?). split_and!; [apply Ha1..|done|done].
        + intros u i err u' Hu Hku Hperf. destruct (K1 _ Hku) as (_ & Hr & _). cbn in Hperf.
          assert (u' = u /\ (err = None -> closed u)) as [-> Hcl].
          { destruct err; simplify_eq; [done|]. destruct (t_done u) eqn:Ed; simplify_eq. split; [done|]. intros _. by apply Hu. }
          exists (fun t => refusing t /\ (err = None -> closed t)). split_and!; [|done|done|intros g2 Hg2 Ha2; split; [done|by rewrite Hg2]].
          intros x x' Hx Htr [Hrx Hcx]. split; [by eapply stable_refusing|]. intros He. eapply stable_closed; [done|done|auto].
      - apply wp_bind. eapply wp_mono; [|apply (closeDone_ok _ _ _ Ha1); intros u Hu; apply (K1 _ Hu)]. intros _ g2 [Ha2 Hk2]. split; [done|].
        rewrite Hk2. intros u Hu. destruct (K1 _ Hu) as (? & ? & ?). done. }
    eapply wp_mono; [|exact Hwait]. intros [err|] g2 [Ha2 K2]; cbn beta iota.
    + apply wp_bind. eapply wp_mono; [|by apply closeClient_ok]. intros _ g3 [Ha3 K3]. split; [done|]. intros u Hu.
      destruct (K3 _ Hu) as [Hu2 Hcc]. destruct (K2 _ Hu2) as [Hr _]. done.
    + apply wp_bind. eapply wp_mono; [|apply waitForTransactions_ok; [exact Ha2|intros u Hu; by apply (K2 _ Hu)]]. intros err g3 [Ha3 K3].
      apply wp_bind. eapply wp_mono; [|by apply closeClient_ok]. intros _ g4 [Ha4 K4]. split; [done|]. intros u Hu.
      destruct (K4 _ Hu) as [Hu2 Hcc]. destruct (K3 _ Hu2) as [Hr Hq]. split_and!; [by right|done|done].
Qed.

(** ** All calls together *)
Definition transactional (e : cevent) : bool := match e with EvClose => false | _ => true end.

(** The transactional calls of one call of the transport. *)
Definition own (i : nat) (log : list (nat * cevent)) : list cevent :=
  (filter (fun x => x.1 = i /\ transactional x.2 = true) log).*2.

(** The call whose transaction is open, when no two transactions overlap: a
    transaction is begun when none is open and ended by the call that began it. *)
Definition bracket (o : option (option nat)) (x : nat * cevent) : option (option nat) :=
  match o, x.2 with
  | Some None, EvBegin err => Some (match err with None => Some x.1 | Some _ => None end)
  | Some (Some i), EvProduce _ _ => if decide (i = x.1) then Some (Some i) else None
  | Some (Some i), EvEnd commit err =>
      if decide (i = x.1) then Some (if commit && negb (succeeded err) then Some i else None) else None
  | Some o, EvClose => Some o
  | _, _ => None
  end.
Definition brackets (log : list (nat * cevent)) : option (option nat) := fold_left bracket log (Some None).

Section Calls.
Context `{!EnvelopeJSON}.
Context (ToLower : string -> string) (parseTime : string -> option Time).
Abbreviation program := (program ToLower parseTime).
Abbreviation reachable := (reachable ToLower parseTime).

(** What the answer of a call says of its transactions. *)
Definition answered (q : request) (a : reply) (h : list cevent) : Prop :=
  match q, a with
  | QPublish r _ m native, AnsPublish a => publish_spec r m native a h
  | QBatch r ctx payloads, AnsBatch a => batch_spec r ctx payloads a h
  | QReplay _ rec assigned, AnsReplay a => replay_spec ToLower parseTime rec assigned a h
  | (QRun _ | QReadiness | QBeginDrain | QShutdown), AnsErr _ => h = []
  | _, _ => False
  end.
(** What it says of the transport, from then on. *)
Definition learned (q : request) (a : reply) (t : Transport) : Prop :=
  match q, a with
  | QBeginDrain, _ => refusing t
  | QShutdown, AnsErr err => refusing t /\ t_clientClosed t = true /\ (err = None -> quiet t)
  | _, _ => True
  end.
Definition post (q : request) (a : reply) (g : ghost) : Prop :=
  exists h, at_ Out h g /\ answered q a h /\ forall t, g_know g t -> learned q a t.

Lemma program_ok q g : at_ Out [] g -> wp (program q) (post q) g.
Proof.
  intros Hg. destruct q; cbn [KafkaTransport.program]; apply wp_bind.
  - eapply wp_mono; [|by apply Run_ok]. intros err g' Hg'. exists []. by split_and!.
  - eapply wp_mono; [|by apply Readiness_ok]. intros err g' Hg'. exists []. by split_and!.
  - eapply wp_mono; [|by apply BeginDrain_ok]. intros err g' [Hg' Hk]. exists []. split_and!; [done|done|]. intros t Ht. by apply (Hk _ Ht).
  - eapply wp_mono; [|by apply Shutdown_ok]. intros err g' [Hg' Hk]. exists []. by split_and!.
  - eapply wp_mono; [|by apply publishEnvelope_ok]. intros a g' (h & Hg' & Hs). exists h. by split_and!.
  - eapply wp_mono; [|by apply PublishEnvelopeBatch_ok]. intros a g' (h & Hg' & Hs). exists h. by split_and!.
  - eapply wp_mono; [|by apply PublishReplay_ok]. intros a g' (h & Hg' & Hs). exists h. by split_and!.
Qed.

(** ** The invariant *)
Definition holds_gate (gs : nat -> ghost) (i : nat) : Prop := g_phase (gs i) <> Out.

Record inv (qs : list request) (c : config) (gs : nat -> ghost) : Prop := {
  i_tinv : tinv c.1;
  i_length : List.length c.2 = List.length qs;
  i_call : forall i q p, qs !! i = Some q -> c.2 !! i = Some p ->
    wp p (post q) (gs i) /\ stable (g_know (gs i)) /\ g_know (gs i) c.1 /\ linked (g_phase (gs i)) c.1 /\ g_hist (gs i) = own i (t_log c.1);
  i_gate : forall i, (i < List.length qs)%nat -> (holds_gate gs i <-> t_txGate c.1 = Some i);
  i_holder : forall i, t_txGate c.1 = Some i -> (i < List.length qs)%nat;
  i_active : t_txActive c.1 = true -> is_Some (t_txGate c.1);
  i_open : exists o, brackets (t_log c.1) = Some o /\
    forall i, (i < List.length qs)%nat -> (o = Some i <-> g_phase (gs i) = Held true);
  i_range : forall i, brackets (t_log c.1) = Some (Some i) -> (i < List.length qs)%nat;
  i_run : t_runStarted c.1 = true -> t_done c.1 = true \/ exists i, (i < List.length qs)%nat /\ g_runs (gs i) = true }.

(** ** Steps of the transport *)
Lemma tx_wf_enter s t : tx_wf t -> tx_wf (enter s t).
Proof.
  intros (Ha & Hd & Hc). destruct s; cbn [enter]; repeat case_match; try done; split_and!; cbn; try done; try (split; [done|by intros []]).
  - intros ch [= <-]. split; [lia|]. intros Hin%Hc. lia.
  - intros ch Hin%Hc. lia.
  - intros ch [->|Hin]%elem_of_cons; [by apply Hd|by apply Hc].
Qed.
Lemma tinv_enter s t : tinv t -> tinv (enter s t).
Proof.
  intros (Hw & Hdone & Hrun). split; [by apply tx_wf_enter|].
  destruct s; cbn [enter]; repeat case_match; split; cbn; intuition congruence.
Qed.
Lemma enter_same s t : t_txGate (enter s t) = t_txGate t /\ t_log (enter s t) = t_log t /\ t_done (enter s t) = t_done t.
Proof. destruct s; cbn [enter]; repeat case_match; done. Qed.
Lemma enter_active s t : s <> TakeTx -> s <> DropTx -> t_txActive (enter s t) = t_txActive t.
Proof. destruct s; cbn [enter]; intros; repeat case_match; done. Qed.
Lemma enter_started s t : t_runStarted (enter s t) = true -> t_runStarted t = true \/ lock_runs s false t = true.
Proof. destruct s; cbn; repeat case_match; auto. Qed.

Lemma tinv_perform i c err t t' : tinv t -> (c = CloseDone -> t_state t = transportClosed) -> perform i c err t = Some t' -> tinv t'.
Proof.
  intros Ht Hc Hp. destruct c, err; cbn in Hp; repeat case_match; simplify_eq; try done; destruct Ht as ((Ha & Hd & Hcl) & Hdone & Hrun);
    split_and!; cbn; try done. intros _. by apply Hc.
Qed.
Lemma perform_same i c err t t' : perform i c err t = Some t' -> t_txActive t' = t_txActive t /\ t_runStarted t' = t_runStarted t /\
  (t_done t = true \/ c = CloseDone -> t_done t' = true) /\
  match c, err with
  | EnterGate, None => t_txGate t = None /\ t_txGate t' = Some i
  | LeaveGate, _ => t_txGate t' = None
  | _, _ => t_txGate t' = t_txGate t
  end.
Proof. intros Hp. destruct c, err; cbn in Hp; repeat case_match; simplify_eq; cbn; split_and!; try done; naive_solver. Qed.

(** The log grows by what the call did. *)
Definition call_log (c : call) (err : option error) (t : Transport) : list cevent :=
  match c with
  | CloseClient => if t_clientClosed t then [] else [EvClose]
  | _ => call_hist c err
  end.
Lemma perform_log i c err t t' : perform i c err t = Some t' -> t_log t' = (t_log t ++ ((fun e => (i, e)) <$> call_log c err t))%list.
Proof. intros Hp. destruct c, err; cbn in Hp |- *; repeat case_match; simplify_eq; cbn; by rewrite ?app_nil_r. Qed.
Lemma own_perform i c err t t' j : perform i c err t = Some t' ->
  own j (t_log t') = (own j (t_log t) ++ (if decide (j = i) then call_hist c err else []))%list.
Proof.
  intros Hp. rewrite (perform_log _ _ _ _ _ Hp). unfold own. rewrite filter_app, fmap_app. f_equal.
  destruct (decide (j = i)) as [->|Hne]; destruct c; cbn; repeat case_match; cbn; repeat (case_decide; cbn); first [done|naive_solver|match goal with N : ~ (_ /\ _) |- _ => by destruct N end].
Qed.

(** ** Preservation *)
Definition upd (gs : nat -> ghost) (i : nat) (g : ghost) (j : nat) : ghost := if decide (j = i) then g else gs j.
Lemma upd_eq gs i g : upd gs i g i = g.
Proof. unfold upd. by rewrite decide_True. Qed.
Lemma upd_ne gs i g j : j <> i -> upd gs i g j = gs j.
Proof. intros. unfold upd. by rewrite decide_False. Qed.

(** At most one call is inside the gate. *)
Lemma inv_alone qs c gs i j : inv qs c gs -> (i < List.length qs)%nat -> (j < List.length qs)%nat ->
  g_phase (gs i) <> Out -> g_phase (gs j) <> Out -> i = j.
Proof. intros HI Hi Hj H1%(i_gate _ _ _ HI) H2%(i_gate _ _ _ HI); [congruence|done..]. Qed.

(** The new state of the stepping call and the old states of the others. *)
Lemma calls_upd qs t t' pool gs i p g q : inv qs (t, pool) gs -> qs !! i = Some q -> trans t t' ->
  wp p (post q) g /\ stable (g_know g) /\ g_know g t' /\ linked (g_phase g) t' /\ g_hist g = own i (t_log t') ->
  (forall j, j <> i -> own j (t_log t') = own j (t_log t)) ->
  (t_txActive t' = t_txActive t \/ g_phase (gs i) <> Out) ->
  forall j q' p', qs !! j = Some q' -> <[i := p]> pool !! j = Some p' ->
    wp p' (post q') (upd gs i g j) /\ stable (g_know (upd gs i g j)) /\ g_know (upd gs i g j) t' /\ linked (g_phase (upd gs i g j)) t' /\
    g_hist (upd gs i g j) = own j (t_log t').
Proof.
  intros HI Hq Htr Hg Hown Hact j q' p' Hq' Hp'. destruct (decide (j = i)) as [->|Hne].
  - rewrite upd_eq. apply list_lookup_insert_Some in Hp' as [(_ & <- & _)|[? _]]; [|done]. by simplify_eq.
  - rewrite upd_ne by done. rewrite list_lookup_insert_ne in Hp' by done.
    destruct (i_call _ _ _ HI j q' p' Hq' Hp') as (H1 & H2 & H3 & H4 & H5). cbn in *. split_and!; [done|done| | |by rewrite Hown].
    + eapply H2; [apply HI|done|done].
    + destruct Hact as [Ha|Hout]; [unfold linked in *; by rewrite Ha|].
      destruct (decide (g_phase (gs j) = Out)) as [->|Hj]; [done|]. destruct Hne.
      eapply (inv_alone qs (t, pool)); [exact HI|by eapply lookup_lt_Some|by eapply lookup_lt_Some|done|done].
Qed.

Lemma inv_lock qs t pool gs i s k : inv qs (t, pool) gs -> pool !! i = Some (Lock s k) ->
  exists g, inv qs (enter s t, <[i := k t]> pool) (upd gs i g).
Proof.
  intros HI Hp. assert (Hlt : (i < List.length qs)%nat) by (rewrite <- (i_length _ _ _ HI); by eapply lookup_lt_Some).
  destruct (lookup_lt_is_Some_2 qs i Hlt) as [q Hq]. destruct (i_call _ _ _ HI i q _ Hq Hp) as (Hw & Hst & Hk & Hl & Hh). cbn in Hk, Hl, Hh, Hw.
  pose proof (i_tinv _ _ _ HI) as Ht. cbn in Ht. destruct (Hw t Ht Hk Hl) as (Hpre & K & HK & Ke & Hw').
  destruct (enter_same s t) as (Eg & El & Ed).
  assert (Hout : lock_phase s (g_phase (gs i)) t <> Out <-> g_phase (gs i) <> Out).
  { destruct s; cbn in *; rewrite ?Hpre; try case_decide; naive_solver. }
  assert (Hact : t_txActive (enter s t) = t_txActive t \/ g_phase (gs i) <> Out).
  { destruct s; try (left; by apply enter_active); right; cbn in Hpre; by rewrite Hpre. }
  eexists. split; cbn [fst snd].
  - by apply tinv_enter.
  - rewrite length_insert. apply HI.
  - eapply calls_upd; [exact HI|exact Hq|by left; eauto| |by rewrite El|done]. split_and!; [exact Hw'|done|done| |by rewrite El].
    cbn [g_phase]. destruct s; cbn in Hpre |- *; rewrite ?Hpre in *; cbn; try done; cbn [enter] in *;
      repeat case_match; cbn in *; try done; by rewrite Hpre in *.
  - intros j Hj. rewrite Eg. unfold holds_gate. destruct (decide (j = i)) as [->|Hne]; [rewrite upd_eq; cbn [g_phase]; rewrite Hout|rewrite upd_ne by done];
      by apply (i_gate _ _ _ HI).
  - rewrite Eg. apply HI.
  - rewrite Eg. destruct Hact as [->|Hph]; [apply HI|]. intros _. apply (i_gate _ _ _ HI) in Hph; [|done]. cbn in Hph. by rewrite Hph.
  - destruct (i_open _ _ _ HI) as (o & Ho & Hio). exists o. rewrite El. split; [done|]. intros j Hj. rewrite (Hio j Hj).
    destruct (decide (j = i)) as [->|Hne]; [rewrite upd_eq; cbn [g_phase]|by rewrite upd_ne].
    destruct s; cbn in *; rewrite ?Hpre; try case_decide; done.
  - rewrite El. apply HI.
  - intros [Hr|Hr]%enter_started; [|right; exists i; split; [done|]; rewrite upd_eq; cbn [g_runs]].
    + rewrite Ed. destruct (i_run _ _ _ HI Hr) as [?|(j & Hj & Hr')]; [by left|]. right. exists j. split; [done|].
      destruct (decide (j = i)) as [->|Hne]; [rewrite upd_eq; cbn [g_runs]|by rewrite upd_ne].
      destruct s; cbn in *; try done. repeat case_match; done.
    + destruct s; cbn in *; try done. by repeat case_match.
Qed.

Lemma brackets_snoc log x : brackets (log ++ [x]) = bracket (brackets log) x.
Proof. unfold brackets. by rewrite fold_left_app. Qed.

(** The open transaction is that of the call in [Held true]. *)
Lemma inv_owner qs c gs i : inv qs c gs -> (i < List.length qs)%nat ->
  (g_phase (gs i) = Held true -> brackets (t_log c.1) = Some (Some i)) /\
  (g_phase (gs i) = Held false -> brackets (t_log c.1) = Some None).
Proof.
  intros HI Hi. destruct (i_open _ _ _ HI) as (o & Ho & Hio). rewrite Ho. split; [by intros ->%Hio|]. intros Hp.
  destruct o as [j|]; [|done]. pose proof (i_range _ _ _ HI j Ho) as Hj. pose proof (proj1 (Hio j Hj) eq_refl) as Hpj.
  assert (i = j) as <- by (eapply inv_alone; [exact HI|done|done|congruence|congruence]). congruence.
Qed.

Lemma brackets_call qs t pool gs i c err t' : inv qs (t, pool) gs -> (i < List.length qs)%nat -> call_pre c (gs i) t -> perform i c err t = Some t' ->
  exists o, brackets (t_log t') = Some o /\ (forall j, o = Some j -> (j < List.length qs)%nat) /\
    forall j, (j < List.length qs)%nat -> (o = Some j <-> (if decide (j = i) then call_phase c err (g_phase (gs i)) else g_phase (gs j)) = Held true).
Proof.
  intros HI Hi Hpre Hperf. rewrite (perform_log _ _ _ _ _ Hperf).
  destruct (inv_owner _ _ _ i HI Hi) as [Ht Hf]. cbn in Ht, Hf.
  assert (Hothers : g_phase (gs i) <> Out -> forall j, (j < List.length qs)%nat -> j <> i -> g_phase (gs j) <> Held true).
  { intros Hp j Hj Hne Hpj. destruct Hne. eapply inv_alone; [exact HI|done|done|congruence|done]. }
  assert (Hkeep : call_log c err t = [] \/ call_log c err t = [EvClose] -> (call_phase c err (g_phase (gs i)) = Held true <-> g_phase (gs i) = Held true) ->
    exists o, brackets (t_log t ++ ((fun e => (i, e)) <$> call_log c err t))%list = Some o /\ (forall j, o = Some j -> (j < List.length qs)%nat) /\
    forall j, (j < List.length qs)%nat -> (o = Some j <-> (if decide (j = i) then call_phase c err (g_phase (gs i)) else g_phase (gs j)) = Held true)).
  { intros Hlog Hph. destruct (i_open _ _ _ HI) as (o & Ho & Hio). cbn in Ho. exists o.
    assert (brackets (t_log t ++ ((fun e => (i, e)) <$> call_log c err t))%list = Some o) as ->.
    { destruct Hlog as [-> | ->]; cbn; [by rewrite app_nil_r|]. rewrite brackets_snoc, Ho. by destruct o. }
    split_and!; [done|intros j ->; by apply (i_range _ _ _ HI)|]. intros j Hj. rewrite (Hio j Hj). case_decide; [by subst|done]. }
  destruct c; cbn in Hpre; try (apply Hkeep; [cbn; repeat case_match; by auto|cbn; rewrite ?Hpre; by repeat case_match]).
  1: apply Hkeep; [by left|]. 1: destruct Hpre as [-> _]; by destruct err.
  all: cbn -[brackets]; rewrite brackets_snoc.
  - rewrite (Hf Hpre), Hpre. exists (match err with None => Some i | Some _ => None end). cbn. destruct err; cbn; (split_and!; [done|congruence|]); intros j Hj;
      case_decide; subst; split; try done; try congruence; intros; exfalso; eapply Hothers; eauto; congruence.
  - rewrite (Ht Hpre), Hpre. exists (Some i). cbn. rewrite decide_True by done. split_and!; [done|congruence|]. intros j Hj.
    case_decide; subst; split; try done; try congruence. intros; exfalso; eapply Hothers; eauto; congruence.
  - rewrite (Ht Hpre), Hpre. exists (if commit && negb (succeeded err) then Some i else None). cbn. rewrite decide_True by done.
    split_and!; [done|intros j; case_match; congruence|]. intros j Hj.
    case_decide; subst; destruct commit, err; cbn; split; try done; try congruence; intros; exfalso; eapply Hothers; eauto; congruence.
Qed.

Lemma linked_call g i c err t t' : call_pre c g t -> linked (g_phase g) t -> perform i c err t = Some t' ->
  (t_txGate t = None -> t_txActive t = false) -> linked (call_phase c err (g_phase g)) t'.
Proof.
  intros Hpre Hl Hperf Hg. destruct (perform_same _ _ _ _ _ Hperf) as (Ea & _ & _ & Eg). unfold linked in *. rewrite Ea.
  destruct c; cbn in Hpre |- *; try exact Hl.
  - destruct err; [exact Hl|]. apply Hg, Eg.
  - done.
  - destruct err; [exact Hl|]. by rewrite Hpre in Hl.
  - rewrite Hpre in Hl |- *. by destruct commit, err.
Qed.

Lemma gate_call g i c err t t' : call_pre c g t -> (g_phase g <> Out <-> t_txGate t = Some i) -> perform i c err t = Some t' ->
  (call_phase c err (g_phase g) <> Out <-> t_txGate t' = Some i) /\ (forall j, j <> i -> (t_txGate t' = Some j <-> t_txGate t = Some j)).
Proof.
  intros Hpre Hg Hperf. destruct (perform_same _ _ _ _ _ Hperf) as (_ & _ & _ & Eg).
  destruct c; cbn in Hpre, Eg |- *; try (rewrite Eg; split; [exact Hg|done]).
  - destruct err; [rewrite Eg; by split|]. destruct Eg as [E1 ->]. rewrite E1. split; [done|]. intros j Hj. split; congruence.
  - rewrite Eg. split; [done|]. rewrite Hpre in Hg. rewrite (proj1 Hg) by done. intros j Hj. split; congruence.
  - rewrite Eg. split; [|done]. rewrite <- Hg, Hpre. by destruct err.
  - rewrite Eg. split; [|done]. rewrite <- Hg, Hpre. by destruct commit, err.
Qed.
(** A transaction in progress keeps its call inside the gate. *)
Lemma call_keeps g c err t : call_pre c g t -> linked (g_phase g) t -> t_txActive t = true -> g_phase g <> Out -> call_phase c err (g_phase g) <> Out.
Proof.
  intros Hpre Hl Ha Hne. destruct c; cbn in Hpre |- *; try done.
  - by destruct err.
  - rewrite Hpre in Hl. cbn in Hl. congruence.
  - by destruct err.
  - by destruct commit, err.
Qed.

Lemma inv_call qs t pool gs i c k err t' : inv qs (t, pool) gs -> pool !! i = Some (Call c k) -> perform i c err t = Some t' ->
  exists g, inv qs (t', <[i := k err]> pool) (upd gs i g).
Proof.
  intros HI Hp Hperf. assert (Hlt : (i < List.length qs)%nat) by (rewrite <- (i_length _ _ _ HI); by eapply lookup_lt_Some).
  destruct (lookup_lt_is_Some_2 qs i Hlt) as [q Hq]. destruct (i_call _ _ _ HI i q _ Hq Hp) as (Hw & Hst & Hk & Hl & Hh). cbn in Hk, Hl, Hh, Hw.
  pose proof (i_tinv _ _ _ HI) as Ht. cbn in Ht. destruct Hw as [Hpre Hw]. specialize (Hpre t Ht Hk Hl).
  destruct (Hw t i err t' Ht Hk Hl Hperf) as (K & HK & Ke & Hw').
  destruct (perform_same _ _ _ _ _ Hperf) as (Ea & Er & Ed & Eg). pose proof (own_perform _ _ _ _ _ i Hperf) as Eo. rewrite decide_True in Eo by done.
  destruct (brackets_call _ _ _ _ _ _ _ _ HI Hlt Hpre Hperf) as (o & Ho & Hr & Hio).
  pose proof (i_gate _ _ _ HI) as Hgate. unfold holds_gate in Hgate. cbn in Hgate.
  destruct (gate_call _ _ _ _ _ _ Hpre (Hgate i Hlt) Hperf) as [G1 G2].
  eexists. split; cbn [fst snd].
  - eapply tinv_perform; [done| |done]. intros ->. exact Hpre.
  - rewrite length_insert. apply HI.
  - eapply calls_upd; [exact HI|exact Hq|by right; eauto| | |by left]. 2: { intros j Hj. rewrite (own_perform _ _ _ _ _ j Hperf), decide_False, app_nil_r by done. done. }
    split_and!; [exact Hw'|done|done| |cbn; by rewrite Eo, Hh]. cbn [g_phase].
    eapply linked_call; [done..|]. intros Hg. destruct (t_txActive t) eqn:Ha; [|done].
    apply (i_active _ _ _ HI) in Ha as [? Ha]. cbn in Ha. congruence.
  - intros j Hj. unfold holds_gate. destruct (decide (j = i)) as [->|Hne]; [by rewrite upd_eq|]. rewrite upd_ne, G2 by done. by apply Hgate.
  - intros j Hj. destruct (decide (j = i)) as [->|Hne]; [done|]. apply G2 in Hj; [|done]. by apply (i_holder _ _ _ HI).
  - rewrite Ea. intros Hac. destruct (i_active _ _ _ HI Hac) as [j Hj]. cbn in Hj. destruct (decide (j = i)) as [->|Hne].
    + exists i. apply G1. intros Hout. apply Hgate in Hj; [|done]. eapply call_keeps; eauto.
    + exists j. by apply G2.
  - exists o. split; [done|]. intros j Hj. rewrite (Hio j Hj). unfold upd. case_decide; done.
  - intros j Hj. apply Hr. congruence.
  - rewrite Er. intros Hrun. destruct (i_run _ _ _ HI Hrun) as [Hd|(j & Hj & Hrj)]; [left; apply Ed; by left|].
    assert (c = CloseDone \/ c <> CloseDone) as [->|Hc] by (destruct c; (by left) || (by right)); [left; apply Ed; by right|]. right. exists j. split; [done|].
    destruct (decide (j = i)) as [->|Hne]; [rewrite upd_eq; cbn [g_runs]|by rewrite upd_ne]. by destruct c.
Qed.

Lemma transport_inv_step qs c gs c' : inv qs c gs -> step c c' -> exists gs', inv qs c' gs'.
Proof.
  destruct c as [t pool]. intros HI (i & a & Hadv). cbn in Hadv. destruct (pool !! i) as [[x| |s k|c k|k]|] eqn:Hp; try done.
  - simplify_eq. destruct (inv_lock _ _ _ _ _ _ _ HI Hp). eauto.
  - destruct a as [err|]; [|done]. destruct (perform i c err t) as [t'|] eqn:Hperf; [|done]. simplify_eq.
    destruct (inv_call _ _ _ _ _ _ _ _ _ HI Hp Hperf). eauto.
  - destruct a as [|now]; [done|]. simplify_eq. exists gs. destruct HI as [H1 H2 H3 H4 H5 H6 H7 H8 H9]. split; cbn in *; try done; [by rewrite length_insert|].
    intros j q p Hq. destruct (decide (j = i)) as [->|Hne]; [|rewrite list_lookup_insert_ne by done; by apply H3].
    intros [(_ & <- & _)|[? _]]%list_lookup_insert_Some; [|done]. destruct (H3 i q _ Hq Hp) as (Hw & Hrest). split; [apply Hw|done].
Qed.

Lemma transport_inv_start qs : inv qs (start ToLower parseTime qs) (fun _ => {| g_know := fun _ => True; g_phase := Out; g_hist := []; g_runs := false |}).
Proof.
  split; cbn; try done.
  - split_and!; cbn; try done. split_and!; cbn; [split; [done|by intros []]|done|intros; set_solver].
  - by rewrite length_map.
  - intros i q p Hq Hp. rewrite list_lookup_fmap, Hq in Hp. cbn in Hp. simplify_eq. split_and!; try done. by apply program_ok.
  - eexists. split; [done|]. done.
Qed.

Lemma transport_reachable_inv qs c : reachable qs c -> exists gs, inv qs c gs.
Proof.
  intros Hr. apply (rtc_ind_r (fun c => exists gs, inv qs c gs) (start ToLower parseTime qs) (R := step)); [|intros ? ? _ Hs [gs Hi]; by eapply transport_inv_step|done].
  eexists. apply transport_inv_start.
Qed.

(** ** What follows *)
Lemma inv_returned qs c gs i q a : inv qs c gs -> qs !! i = Some q -> c.2 !! i = Some (Ret a) ->
  answered q a (own i (t_log c.1)) /\ learned q a c.1.
Proof.
  intros HI Hq Hp. destruct (i_call _ _ _ HI i q _ Hq Hp) as ((h & Hat & Hans & Hlearn) & _ & Hk & _ & Hh). split; [|by apply Hlearn].
  destruct Hat as (_ & _ & Hh' & _). by rewrite <- Hh, Hh'.
Qed.
Lemma inv_no_panic qs c gs i : inv qs c gs -> c.2 !! i <> Some Panic.
Proof.
  intros HI Hp. assert ((i < List.length qs)%nat) as Hlt by (rewrite <- (i_length _ _ _ HI); by eapply lookup_lt_Some).
  destruct (lookup_lt_is_Some_2 qs i Hlt) as [q Hq]. by destruct (i_call _ _ _ HI i q _ Hq Hp) as [[] _].
Qed.

(** A transactional call is made by the call that holds the gate. *)
Lemma inv_transactional qs t pool gs i c k err e : inv qs (t, pool) gs -> pool !! i = Some (Call c k) -> e ∈ call_log c err t ->
  transactional e = true -> t_txActive t = true /\ t_txGate t = Some i.
Proof.
  intros HI Hp He Htx. assert ((i < List.length qs)%nat) as Hlt by (rewrite <- (i_length _ _ _ HI); by eapply lookup_lt_Some).
  destruct (lookup_lt_is_Some_2 qs i Hlt) as [q Hq]. destruct (i_call _ _ _ HI i q _ Hq Hp) as ([Hpre _] & _ & Hk & Hl & _). cbn in Hk, Hl.
  specialize (Hpre t (i_tinv _ _ _ HI) Hk Hl). assert (exists b, g_phase (gs i) = Held b) as [b Hb].
  { destruct c; cbn in Hpre, He; try (by apply elem_of_nil in He); eauto. destruct (t_clientClosed t); [set_solver|].
    apply list_elem_of_singleton in He as ->. done. }
  rewrite Hb in Hl. split; [done|]. apply (i_gate _ _ _ HI); [done|]. unfold holds_gate. by rewrite Hb.
Qed.

(** Once draining has begun, only the transaction in progress goes on. *)
Lemma after_drain qs c c' : reachable qs c -> refusing c.1 -> rtc step c c' ->
  refusing c'.1 /\ (t_txActive c'.1 = true -> t_txActive c.1 = true /\ t_txGate c'.1 = t_txGate c.1) /\
  exists l, t_log c'.1 = (t_log c.1 ++ l)%list /\
    forall j e, (j, e) ∈ l -> transactional e = true -> t_txActive c.1 = true /\ t_txGate c.1 = Some j.
Proof.
  intros Hc Hr Hs. revert c' Hs. apply rtc_ind_r; [split_and!; [done|done|]; exists []; rewrite app_nil_r; split; [done|set_solver]|].
  intros [t pool] c2 Hs (i & a & Hadv) (Hr1 & Hact & l & Hlog & Hl).
  destruct (transport_reachable_inv qs (t, pool) ltac:(unfold reachable in *; by etrans)) as [gs HI]. cbn in Hadv, Hr1, Hact, Hlog.
  destruct (pool !! i) as [[x| |s k|cl k|k]|] eqn:Hp; try done.
  - simplify_eq. cbn. destruct (enter_same s t) as (Eg & El & _). rewrite Eg, El. split_and!; [|intros Ha; apply Hact|by exists l].
    + eapply stable_refusing; [apply (i_tinv _ _ _ HI)| |done]. left. eauto.
    + destruct s; cbn [enter] in Ha; repeat case_match; cbn in Ha; try done. by destruct Hr1; congruence.
  - destruct a as [err|]; [|done]. destruct (perform i cl err t) as [t'|] eqn:Hperf; [|done]. simplify_eq. cbn.
    destruct (perform_same _ _ _ _ _ Hperf) as (Ea & _ & _ & Eg). rewrite Ea, (perform_log _ _ _ _ _ Hperf), Hlog. split_and!.
    + eapply stable_refusing; [apply (i_tinv _ _ _ HI)| |done]. right. eauto.
    + intros Ha. destruct (Hact Ha) as [Ha0 Hg0]. split; [done|]. rewrite <- Hg0. destruct (i_active _ _ _ HI Ha) as [j Hj]. cbn in Hj.
      destruct cl, err; try done; [destruct Eg; congruence|..];
        (assert (Hlt : (i < List.length qs)%nat) by (rewrite <- (i_length _ _ _ HI); by eapply lookup_lt_Some);
         destruct (lookup_lt_is_Some_2 qs i Hlt) as [q Hq]; destruct (i_call _ _ _ HI i q _ Hq Hp) as ([Hpre _] & _ & Hk & Hl' & _); cbn in Hk, Hl';
         specialize (Hpre t (i_tinv _ _ _ HI) Hk Hl'); cbn in Hpre; rewrite Hpre in Hl'; cbn in Hl'; congruence).
    + exists (l ++ ((fun e => (i, e)) <$> call_log cl err t))%list. rewrite <- app_assoc. split; [done|].
      intros j e [Hin|(e' & [= -> ->] & Hin)%list_elem_of_fmap]%elem_of_app Htx; [by eapply Hl|].
      destruct (inv_transactional _ _ _ _ _ _ _ _ _ HI Hp Hin Htx) as [Ha Hg]. destruct (Hact Ha) as [Ha0 Hg0]. split; [done|congruence].
  - destruct a as [|now]; [done|]. simplify_eq. cbn. split_and!; [done|done|by exists l].
Qed.

(** C24. Transactions of the shared producer.  For every set of calls of [Run],
    [Readiness], [BeginDrain], [Shutdown], [publishEnvelope],
    [PublishEnvelopeBatch] and [PublishReplay] on one transport, every
    interleaving of their steps and every answer of the client, the clock and the
    contexts: no call panics (in particular no channel is closed twice); the
    transactions of different calls never overlap on the client; when [Shutdown]
    has returned nil, the transport is closed, its client is closed and no
    transaction is in progress; and once [BeginDrain] or [Shutdown] has returned,
    no transaction is admitted any more: every transactional call of the client
    from then on is made by the one call that was inside its transaction. *)
Theorem kafka_transport_transactions qs c : reachable qs c ->
  (forall i, c.2 !! i <> Some Panic) /\ is_Some (brackets (t_log c.1)) /\
  (forall i err, qs !! i = Some QShutdown -> c.2 !! i = Some (Ret (AnsErr err)) ->
     t_clientClosed c.1 = true /\ (err = None -> t_state c.1 = transportClosed /\ t_txActive c.1 = false)) /\
  (forall i q a c', qs !! i = Some q -> q = QBeginDrain \/ q = QShutdown -> c.2 !! i = Some (Ret a) -> rtc step c c' ->
     exists l, t_log c'.1 = (t_log c.1 ++ l)%list /\
       forall j e, (j, e) ∈ l -> transactional e = true -> t_txActive c.1 = true /\ t_txGate c.1 = Some j).
Proof.
  intros Hr. destruct (transport_reachable_inv _ _ Hr) as [gs HI]. split_and!.
  - intros i. by eapply inv_no_panic.
  - destruct (i_open _ _ _ HI) as (o & -> & _). eauto.
  - intros i err Hq Hp. destruct (inv_returned _ _ _ _ _ _ HI Hq Hp) as [_ (_ & Hc & Hn)]. split; [done|]. intros He. by apply Hn.
  - intros i q a c' Hq Hdrain Hp Hs. destruct (inv_returned _ _ _ _ _ _ HI Hq Hp) as [Hans Hl].
    apply (after_drain qs); [done| |done]. destruct Hdrain as [-> | ->]; cbn in Hl; [done|]. destruct a; [apply Hl|done..].
Qed.

(** C27. What the answers of the Kafka route mean, in every interleaving: a receipt is
    returned exactly for a record that the call produced in a transaction of its
    own whose commit the client confirmed, with the topic of the message's
    descriptor, the key of its envelope and its canonical bytes.  An error means that
    no commit of the call was confirmed: the call tried no transaction, or one whose
    commit was never requested, or one whose commit request failed; in the last case
    the broker may have committed it or not.  For a batch, each payload has either an
    error or a receipt, at most one transaction is tried, with records of payloads in
    their order, and when it is not confirmed every payload has an error. *)
Theorem kafka_publish_answers qs c i q a : reachable qs c -> qs !! i = Some q -> c.2 !! i = Some (Ret a) ->
  answered q a (own i (t_log c.1)).
Proof. intros [gs HI]%transport_reachable_inv Hq Hp. by apply (inv_returned _ _ _ _ _ _ HI Hq Hp). Qed.

(** ** Progress *)
(** The call can take a step, and does not need the end of its context for it. *)
Definition ready (i : nat) (t : Transport) (p : prog reply) : bool :=
  match p with
  | Ret _ | Panic => false
  | Lock _ _ | Now _ => true
  | Call c _ =>
      match c with
      | EnterGate | LeaveGate | AwaitDrain | AwaitDone | AwaitTx _ => bool_decide (is_Some (perform i c None t))
      | _ => true
      end
  end.

Lemma ready_step i t pool p : pool !! i = Some p -> ready i t p = true -> exists a c', advance i a (t, pool) = Some c'.
Proof.
  intros Hp Hr. unfold advance. rewrite Hp. destruct p as [| |s k|c k|k]; try done; [exists (AErr None); eauto| |exists (ANow 0); eauto].
  exists (AErr None). destruct c; cbn in Hr |- *; eauto; apply bool_decide_eq_true in Hr as [t' Ht']; cbn in Ht'; rewrite ?Ht'; repeat case_match; simplify_eq; eauto.
Qed.

Lemma inside_ready qs c gs j : inv qs c gs -> t_txGate c.1 = Some j -> exists p, c.2 !! j = Some p /\ ready j c.1 p = true.
Proof.
  intros HI Hg. pose proof (i_holder _ _ _ HI _ Hg) as Hj. pose proof Hg as Hout. apply (i_gate _ _ _ HI) in Hout; [|done]. unfold holds_gate in Hout.
  destruct (lookup_lt_is_Some_2 qs j Hj) as [q Hq]. destruct (lookup_lt_is_Some_2 c.2 j) as [p Hp]; [by rewrite (i_length _ _ _ HI)|].
  exists p. split; [done|]. destruct (i_call _ _ _ HI j q p Hq Hp) as (Hw & _ & Hk & Hl & _). destruct p as [x| |s k|cl k|k]; try done.
  - destruct Hw as (h & (_ & Ho & _) & _). congruence.
  - destruct Hw as [Hpre _]. specialize (Hpre c.1 (i_tinv _ _ _ HI) Hk Hl). destruct cl; cbn in Hpre |- *; try done; try (destruct Hpre; congruence).
    rewrite Hg. by apply bool_decide_eq_true.
Qed.

(** No deadlock: a call on the transport that has not returned can take a step of
    its own; or it waits for the admission gate or for the transaction in progress
    while the call inside the gate can take a step; or it is a [Shutdown] that
    waits for a [Run] that can take a step; or it is a [Run] that serves, with
    nothing drained yet.  So neither the gate, nor the shutdown, nor a failed
    transaction can block the transport for good. *)
Theorem kafka_transport_progress qs c i p : reachable qs c -> c.2 !! i = Some p -> (forall a, p <> Ret a) ->
  (ready i c.1 p = true /\ exists a c', advance i a c = Some c') \/
  (exists j pj, t_txGate c.1 = Some j /\ c.2 !! j = Some pj /\ ready j c.1 pj = true /\
     exists cl k, p = Call cl k /\ (cl = EnterGate \/ exists ch, cl = AwaitTx ch)) \/
  (exists k j pj, p = Call AwaitDone k /\ c.2 !! j = Some pj /\ ready j c.1 pj = true) \/
  (exists k, p = Call AwaitDrain k /\ t_drain c.1 = false).
Proof.
  intros Hr Hp Hret. destruct (ready i c.1 p) eqn:Er; [left; split; [done|]; destruct c; by eapply ready_step|]. right.
  destruct (transport_reachable_inv _ _ Hr) as [gs HI].
  assert (Hlt : (i < List.length qs)%nat) by (rewrite <- (i_length _ _ _ HI); by eapply lookup_lt_Some).
  destruct (lookup_lt_is_Some_2 qs i Hlt) as [q Hq]. destruct (i_call _ _ _ HI i q p Hq Hp) as (Hw & _ & Hk & Hl & _).
  destruct p as [x| |s k|cl k|k]; try done; [by destruct (Hret x)|]. destruct Hw as [Hpre _]. specialize (Hpre c.1 (i_tinv _ _ _ HI) Hk Hl).
  destruct cl as [| | | | | | | | | | | | |ch]; cbn in Er, Hpre; try done; apply bool_decide_eq_false in Er.
  - left. destruct (t_txGate c.1) as [j|] eqn:Hg; [|by destruct Er]. destruct (inside_ready _ _ _ _ HI Hg) as (pj & Hpj & Hrj). eauto 12.
  - assert (t_txGate c.1 = Some i) as Hg by (apply (i_gate _ _ _ HI); [done|]; unfold holds_gate; by rewrite Hpre). rewrite Hg in Er. by destruct Er.
  - right; right. exists k. split; [done|]. destruct (t_drain c.1); [by destruct Er|done].
  - right; left. destruct Hpre as (_ & _ & Hrun & Hdrain). destruct (i_run _ _ _ HI Hrun) as [Hd|(j & Hj & Hrj)]; [rewrite Hd in Er; by destruct Er|].
    destruct (lookup_lt_is_Some_2 qs j Hj) as [qj Hqj]. destruct (lookup_lt_is_Some_2 c.2 j) as [pj Hpj]; [by rewrite (i_length _ _ _ HI)|].
    exists k, j, pj. split_and!; [done|done|]. destruct (i_call _ _ _ HI j qj pj Hqj Hpj) as (Hwj & _ & Hkj & Hlj & _).
    destruct pj as [x| |s' k'|cl k'|k']; try done; [destruct Hwj as (h & (_ & _ & _ & Ho) & _); congruence|].
    destruct Hwj as [Hprej _]. specialize (Hprej c.1 (i_tinv _ _ _ HI) Hkj Hlj). destruct cl; cbn in Hprej |- *; try done; try (naive_solver congruence).
    + assert (t_txGate c.1 = Some j) as Hg by (apply (i_gate _ _ _ HI); [done|]; unfold holds_gate; by rewrite Hprej). rewrite Hg. by apply bool_decide_eq_true.
    + rewrite Hdrain. by apply bool_decide_eq_true.
  - left. destruct Hpre as (_ & _ & Hcl & [[Ha Hd]|(Ha & ch' & -> & Hin)]); [|rewrite decide_True in Er by done; by destruct Er].
    destruct (i_active _ _ _ HI Ha) as [j Hg]. destruct (inside_ready _ _ _ _ HI Hg) as (pj & Hpj & Hrj). exists j, pj. split_and!; [done..|]. eauto 8.
Qed.
End Calls.
End KafkaTransportProofs.

(** ** A shutdown during a batch *)
Module KafkaTransportWitness.
Import KafkaTransportProofs.
#[local] Existing Instance EnvelopeProofs.demo_json.

(** The steps of a schedule; impossible ones are skipped. *)
Definition exec (schedule : list (nat * answer)) (c : config) : config :=
  fold_left (fun c x => default c (advance x.1 x.2 c)) schedule c.
Lemma exec_steps schedule c : rtc step c (exec schedule c).
Proof.
  revert c. induction schedule as [|[i a] schedule IH]; intros c; [constructor|]. cbn.
  destruct (advance i a c) as [c'|] eqn:E; cbn; [|apply IH]. econstructor; [exists i, a; exact E|apply IH].
Qed.

Definition lower (s : string) : string := s.
Definition no_time (_ : string) : option Time := None.
Definition orders : KafkaRoute := {| kr_name := "orders"; kr_namespace := "shop" |}.
Definition calls : list request := [QRun true; QBatch orders true ["nonsense"; " demo"]; QShutdown].

Definition go (i n : nat) : list (nat * answer) := List.repeat (i, AErr None) n.
(** The transport starts; the batch is admitted and begins its transaction; the
    shutdown drains and waits for [Run] and for the transaction; the transaction
    commits. *)
Definition schedule : list (nat * answer) :=
  (go 0 4 ++ [(1%nat, ANow 5)] ++ go 1 4 ++ [(1%nat, ANow 6)] ++ go 1 1 ++ go 2 3 ++ go 0 3 ++ go 2 2 ++ go 1 2 ++ [(1%nat, ANow 7)] ++ go 1 2 ++ go 2 2)%list.
Definition final : config := exec schedule (start lower no_time calls).

Lemma final_reachable : reachable lower no_time calls final.
Proof. apply exec_steps. Qed.

Definition sent : record :=
  newRouteRecord "shop.event.order.paid.v1" EnvelopeProofs.demo_metadata "demo".

Lemma kafka_transport_transactions_witness :
  final.2 !! 2%nat = Some (Ret (AnsErr None)) /\ t_state final.1 = transportClosed /\ t_txActive final.1 = false /\
  t_log final.1 = [(1%nat, EvBegin None); (1%nat, EvProduce [sent] None); (1%nat, EvEnd true None); (2%nat, EvClose)].
Proof.
  assert (final.2 !! 2%nat = Some (Ret (AnsErr None))) as Hret by (vm_compute; reflexivity).
  split; [exact Hret|].
  destruct (kafka_transport_transactions lower no_time calls final final_reachable) as (_ & _ & Hshut & _).
  destruct (Hshut 2%nat None eq_refl Hret) as [_ Hq]. destruct (Hq eq_refl) as [H1 H2].
  split; [exact H1|]. split; [exact H2|]. vm_compute. reflexivity.
Defined.

Lemma kafka_publish_answers_witness :
  exists a, final.2 !! 1%nat = Some (Ret (AnsBatch a)) /\ a.1.1 = [Receipt0; confirmed orders EnvelopeProofs.demo_metadata 7] /\
    batch_spec orders true ["nonsense"; " demo"] a (own 1 (t_log final.1)).
Proof.
  eexists. split; [vm_compute; reflexivity|]. split; [vm_compute; reflexivity|].
  exact (kafka_publish_answers lower no_time calls final 1 (QBatch orders true ["nonsense"; " demo"]) (AnsBatch _) final_reachable eq_refl
    ltac:(vm_compute; reflexivity)).
Defined.
End KafkaTransportWitness.
