(* ===== verification/KafkaConsumer.v ===== *)
(** * The Kafka consumer: one record

    Models [adapters/kafka/consumer.go]: construction and defaults, the check of a
    polled record ([prepareRecord]), its decoding, and what
    [processPreparedRecord] does with it: expiry and schedule, the Inbox attempt,
    the retry record or the dead letter, and the transaction that commits the
    consumed offset together with the produced record.

    The group session, the clock, the random source and the contexts are the
    record [answers]; each of its answers may be a failure.  What the consumer does
    is recorded in the trace: a transaction appears with the records produced in it
    and with what the session reported of its end. *)
From S2P Require Import Prelude GoStrings GoText Digest Errors Backoff Ident Batch Envelope Inbox InboxSQL InboxSpec InboxEffects InboxStore Middleware Delivery KafkaTopic KafkaControl.
Import Stdlib.Strings.String.
Import Sha256 Backoff Delivery Envelope KafkaTopic KafkaControl KafkaDLQ.
Open Scope string_scope.
Open Scope Z_scope.
Local Open Scope delivery_scope.

Module KafkaConsumer.

(** ** Configuration *)
Record HandlerConfig (B C : Type) := {
  kc_Namespace : string;
  kc_ConsumerID : string;
  kc_Concurrency : Z;
  kc_Timeout : Duration;
  kc_FinalizationTimeout : Duration;
  kc_MaxAttempts : Z;
  kc_BaseRetry : Duration;
  kc_MaxRetry : Duration;
  kc_RetryTiers : list Duration;
  kc_HasObservers : bool;          (** [len(Observers) != 0] *)
  kc_NilPanicReporter : bool;
  kc_Middlewares : list (Middleware.MiddlewareFn B C);
  kc_FailureSanitizer : FailureSanitizer }.
Arguments kc_Namespace {B C}. Arguments kc_ConsumerID {B C}. Arguments kc_Concurrency {B C}. Arguments kc_Timeout {B C}.
Arguments kc_FinalizationTimeout {B C}. Arguments kc_MaxAttempts {B C}. Arguments kc_BaseRetry {B C}.
Arguments kc_MaxRetry {B C}. Arguments kc_RetryTiers {B C}. Arguments kc_HasObservers {B C}.
Arguments kc_NilPanicReporter {B C}. Arguments kc_Middlewares {B C}. Arguments kc_FailureSanitizer {B C}.

Definition default_tiers : list Duration := [Second; 10 * Second; Minute; 5 * Minute].

Definition applyConsumerDefaults {B C} (c : HandlerConfig B C) : HandlerConfig B C :=
  {| kc_Namespace := kc_Namespace c; kc_ConsumerID := kc_ConsumerID c; kc_Concurrency := or_default (kc_Concurrency c) 1;
     kc_Timeout := or_default (kc_Timeout c) (30 * Second);
     kc_FinalizationTimeout := or_default (kc_FinalizationTimeout c) (5 * Second);
     kc_MaxAttempts := or_default (kc_MaxAttempts c) 10; kc_BaseRetry := or_default (kc_BaseRetry c) Second;
     kc_MaxRetry := or_default (kc_MaxRetry c) (5 * Minute);
     kc_RetryTiers := match kc_RetryTiers c with [] => default_tiers | l => l end;
     kc_HasObservers := kc_HasObservers c; kc_NilPanicReporter := kc_NilPanicReporter c;
     kc_Middlewares := kc_Middlewares c; kc_FailureSanitizer := kc_FailureSanitizer c |}.

(** [previous] is the tier before, if any. *)
Fixpoint validate_tiers (previous : option Duration) (tiers : list Duration) : option error :=
  match tiers with
  | [] => None
  | tier :: rest =>
      if (tier <=? 0) || match previous with Some p => tier <=? p | None => false end
      then Some (KafkaTopic.invalid "retry tiers must be positive and strictly increasing")
      else validate_tiers (Some tier) rest
  end.
Definition validateRetryTiers (tiers : list Duration) : option error := validate_tiers None tiers.

Definition bad_config {B C} (c : HandlerConfig B C) : bool :=
  (kc_Concurrency c <? 1) || (128 <? kc_Concurrency c) || (kc_Timeout c <=? 0) || (kc_FinalizationTimeout c <=? 0)
  || (kc_MaxAttempts c <=? 0) || (kc_BaseRetry c <=? 0) || (kc_MaxRetry c <? kc_BaseRetry c)
  || (Z.of_nat (List.length (kc_RetryTiers c)) =? 0) || (16 <? Z.of_nat (List.length (kc_RetryTiers c))).

Record Consumer (B C : Type) := {
  c_config : HandlerConfig B C;
  c_descriptor : DescriptorInfo;
  c_sourceTopic : string;
  c_groupID : string;
  c_retryTopics : list string;
  c_replayTopic : string;
  c_dlqTopic : string;
  c_topics : list string }.
Arguments c_config {B C}. Arguments c_descriptor {B C}. Arguments c_sourceTopic {B C}. Arguments c_groupID {B C}.
Arguments c_retryTopics {B C}. Arguments c_replayTopic {B C}. Arguments c_dlqTopic {B C}. Arguments c_topics {B C}.

(** The retry topics from tier [index] on. *)
Fixpoint retry_topics (source consumerID : string) (index : Z) (tiers : list Duration) : result error (list string) :=
  match tiers with
  | [] => Ok []
  | _ :: rest =>
      match RetryTopic source consumerID index with
      | Err e => Err e
      | Ok topic =>
          match retry_topics source consumerID (index + 1) rest with
          | Err e => Err e
          | Ok topics => Ok (topic :: topics)
          end
      end
  end.

(** [dependencies] is false when the transport, the store or the decoder is nil or
    the store has no attempts.  The observability defaults replace nil
    collaborators and refuse nil entries; they are taken as applied. *)
Definition newConsumer {B C} (dependencies : bool) (descriptor : DescriptorInfo) (config : HandlerConfig B C)
  : result error (Consumer B C) :=
  let config := applyConsumerDefaults config in
  if negb dependencies || bad_config config then Err (KafkaTopic.invalid "durable consumer")
  else match validateRetryTiers (kc_RetryTiers config) with
  | Some e => Err e
  | None =>
      match Topic (kc_Namespace config) descriptor with
      | Err e => Err e
      | Ok source =>
          match ConsumerGroup source (kc_ConsumerID config) with
          | Err e => Err e
          | Ok group =>
              match retry_topics source (kc_ConsumerID config) 0 (kc_RetryTiers config) with
              | Err e => Err e
              | Ok retries =>
                  match ReplayTopic source (kc_ConsumerID config) with
                  | Err e => Err e
                  | Ok replay =>
                      match DLQTopic source (kc_ConsumerID config) with
                      | Err e => Err e
                      | Ok dlq =>
                          Ok {| c_config := config; c_descriptor := descriptor; c_sourceTopic := source; c_groupID := group;
                                c_retryTopics := retries; c_replayTopic := replay; c_dlqTopic := dlq;
                                c_topics := (source :: retries ++ [replay])%list |}
                      end
                  end
              end
          end
      end
  end.

(** ** Timeouts of the group session *)
Definition defaultConsumerRebalanceTimeout : Duration := Minute.
Definition defaultBatchRebalanceSafetyMargin : Duration := 5 * Second.
Definition maxKafkaRebalanceTimeout : Duration := (2 ^ 31 - 1) * Millisecond.

Definition consumerRebalanceTimeout (operationTimeout : Duration) : Duration :=
  Z.max defaultConsumerRebalanceTimeout operationTimeout.

Definition batchConsumerRebalanceTimeout (batchMaxWait handlerTimeout finalizationTimeout operationTimeout : Duration)
  : result error Duration :=
  if (batchMaxWait <? 0) || (handlerTimeout <? 0) || (finalizationTimeout <? 0) || (operationTimeout <? 0)
  then Err (KafkaTopic.invalid "negative timeout in batch rebalance calculation")
  else
    let handlerTx := handlerTransactionTimeout handlerTimeout finalizationTimeout in
    if maxKafkaRebalanceTimeout <? batchMaxWait then Err (KafkaTopic.invalid "batch MaxWait exceeds maximum")
    else
      let remaining := maxKafkaRebalanceTimeout - batchMaxWait in
      if remaining <? handlerTx then Err (KafkaTopic.invalid "batch handler transaction timeout exceeds maximum")
      else
        let remaining := remaining - handlerTx in
        let totalBrokerTimeout := wrap64 (2 * operationTimeout) in
        if remaining <? totalBrokerTimeout then Err (KafkaTopic.invalid "batch broker operation timeout exceeds maximum")
        else
          let remaining := wrap64 (remaining - totalBrokerTimeout) in
          if remaining <? defaultBatchRebalanceSafetyMargin
          then Err (KafkaTopic.invalid "batch rebalance budget exceeds maximum")
          else Ok (Z.max defaultConsumerRebalanceTimeout
                     (wrap64 (batchMaxWait + handlerTx + totalBrokerTimeout + defaultBatchRebalanceSafetyMargin))).

(** ** What the consumer does *)

(** How a transaction ended, as far as the session told. *)
Inductive transaction : Set :=
| TxNotBegun                    (** [Begin] failed *)
| TxHandoffFailed               (** a record was not produced, the transaction was ended with [TryAbort] *)
| TxUnknown                     (** [End] with [TryCommit] failed *)
| TxAborted                     (** the session did not commit, for instance after a rebalance *)
| TxCommitted.

Inductive event : Type :=
| EvClose                       (** the watchdog closed a session whose producing took too long *)
| EvTx (produced : list record) (t : transaction)
| EvConfirm (ok : bool)
| EvDefer (r : record) (until : Time)
| EvObserve (o : Observation).

Record answers := {
  ka_inbox : env;
  ka_confirm : env;
  ka_clock : nat -> Time;
  ka_random : nat -> Z -> option Z;
  ka_ctxErr : option error;        (** [ctx.Err()] after the attempt *)
  ka_begin : option error;
  ka_timedOut : bool;              (** the broker context ended while producing *)
  ka_produce : option error;       (** [FirstErr] of the results *)
  ka_abort : option error;
  ka_end : bool * option error;
  ka_rewind : option error;        (** the error of [pauseAndRewindRetryPartition] *)
  ka_retention : bool }.           (** [SupportsTerminalRetention] *)

Section Consumer.
Context {B C T : Type} {collate : string -> string -> bool} `{!InboxBackend B collate, !EnvelopeJSON}.
Context (ctx_Err : C -> nat -> option error).
Context (ToLower : string -> string) (formatTime : Time -> string) (parseTime : string -> option Time).
Context (json_Marshal : DLQRecord -> result error string).

Record world := {
  w_db : DB B;
  w_trace : list event;
  w_reads : nat;
  w_draws : nat }.
Definition M (A : Type) : Type := St world A.

Definition emit (e : event) : M unit := fun w =>
  ({| w_db := w_db w; w_trace := (w_trace w ++ [e])%list; w_reads := w_reads w; w_draws := w_draws w |}, Val tt).
Definition set_db (d : DB B) (w : world) : world :=
  {| w_db := d; w_trace := w_trace w; w_reads := w_reads w; w_draws := w_draws w |}.

(** The decoder of [NewCommandConsumer] and [NewEventConsumer]. *)
Definition decode (d : descriptor T) (handler : Message T -> C -> B -> B * Middleware.flow) (e : Envelope)
  : result error (decodedMessage B C) :=
  let metadata := Envelope_Metadata e in
  match payload e with
  | Err err => Err err
  | Ok payloadBytes =>
      match MarshalEnvelope metadata payloadBytes (e_DataEncoding e) with
      | Err err => Err err
      | Ok canonical =>
          match Decode (d_codec d) payloadBytes with
          | Err err => Err err
          | Ok value =>
              Ok {| dm_metadata := metadata; dm_canonical := canonical;
                    dm_handle := handler {| m_Metadata := metadata; m_Payload := value |} |}
          end
      end
  end.

Section Delivery.
Context (c : Consumer B C) (a : answers).
Abbreviation config := (c_config c).

(** [c.clock()] *)
Definition clock : M Time := fun w =>
  ({| w_db := w_db w; w_trace := w_trace w; w_reads := S (w_reads w); w_draws := w_draws w |},
   Val (UTC (ka_clock a (w_reads w)))).

Definition sanitizeError (err : option error) : option error :=
  match err with
  | None => None
  | Some e => Some (ESanitized e (sanitizeFailure (kc_FailureSanitizer config) err))
  end.

Definition notify (o : Observation) : M unit := if kc_HasObservers config then emit (EvObserve o) else mret tt.

Definition observeBoundary (operation : string) (id : MessageID) (startedAt : Time) (err : option error) : M unit :=
  now <- clock ;;
  notify {| ob_Operation := operation; ob_MessageID := id; ob_Attempt := 0; ob_Duplicate := false; ob_RetryDelay := 0;
            ob_StartedAt := startedAt; ob_Duration := Sub now startedAt; ob_Err := sanitizeError err |}.

Definition observeHandle (decoded : decodedMessage B C) (attempt : Z) (result : Result) (retry : Duration)
    (startedAt : Time) (err : option error) : M unit :=
  now <- clock ;;
  notify {| ob_Operation := OperationHandle; ob_MessageID := md_ID (dm_metadata decoded); ob_Attempt := attempt;
            ob_Duplicate := r_Duplicate result; ob_RetryDelay := retry; ob_StartedAt := startedAt;
            ob_Duration := Sub now startedAt; ob_Err := sanitizeError err |}.

(** ** The transaction *)
Definition is_empty {A} (l : list A) : bool := match l with [] => true | _ => false end.

Definition commitTransactionalRecords (produced : list record) : M (bool * option error) :=
  match ka_begin a with
  | Some err => emit (EvTx produced TxNotBegun) ;;; mret (false, Some (EFmt "begin consumer transaction" [err]))
  | None =>
      (if negb (is_empty produced) && ka_timedOut a then emit EvClose else mret tt) ;;;
      match (if is_empty produced then None else ka_produce a) with
      | Some err =>
          emit (EvTx produced TxHandoffFailed) ;;;
          mret (false, errors_join [Some (EFmt "transactional handoff" [err]); ka_abort a])
      | None =>
          match ka_end a with
          | (_, Some err) =>
              emit (EvTx produced TxUnknown) ;;; mret (false, Some (EFmt "commit consumer transaction" [err]))
          | (false, None) => emit (EvTx produced TxAborted) ;;; mret (false, None)
          | (true, None) => emit (EvTx produced TxCommitted) ;;; mret (true, None)
          end
      end
  end.

(** [commitRecord], with the error its callers report for an aborted transaction. *)
Definition commitRecord (produced : option record) : M (option error) :=
  r <- commitTransactionalRecords (match produced with Some p => [p] | None => [] end) ;;
  mret (match r with
        | (false, None) => Some (ESentinel ErrTransactionNotCommitted)
        | (_, err) => err
        end).

Definition with_schedule (control : controlMetadata) (attempt : Z) (notBefore : Time) : controlMetadata :=
  {| cm_source := cm_source control; cm_attempt := attempt; cm_notBefore := notBefore;
     cm_attemptGeneration := cm_attemptGeneration control |}.

(** An index beyond the retry topics panics. *)
Definition retryRecord (r : record) (canonical : string) (control : controlMetadata) (attempt : Z) (delay : Duration)
    (id : MessageID) : M (option error) :=
  if delay <=? 0 then mret (Some (KafkaControl.invalid_message "non-positive durable retry delay"))
  else
    now <- clock ;;
    match nth_error (c_retryTopics c) (retryTier (kc_RetryTiers config) delay) with
    | None => fun w => (w, Crash)
    | Some topic =>
        startedAt <- clock ;;
        err <- commitRecord (Some
          {| r_Topic := topic; r_Partition := 0; r_Offset := 0; r_LeaderEpoch := 0; r_Key := r_Key r; r_Value := canonical;
             r_Headers := controlHeaders formatTime (with_schedule control attempt (now + delay));
             r_Timestamp := r_Timestamp r |}) ;;
        observeBoundary operationRetryHandoff id startedAt err ;;;
        mret err
    end.

Definition parsed_id (messageID : string) : MessageID :=
  match ParseMessageID messageID with Ok id => id | Err _ => zeroID end.

Definition deadLetterRecord (r : record) (control : controlMetadata) (failureKind : string) (failure : error) (attempt : Z)
    (messageID : string) : M (option error) :=
  now <- clock ;;
  let dlq := makeDLQRecord (kc_ConsumerID config) r control messageID attempt failureKind
               (Some (sanitizeFailure (kc_FailureSanitizer config) (Some failure))) now in
  match encodeDLQRecord json_Marshal dlq with
  | Err err => mret (Some err)
  | Ok data =>
      startedAt <- clock ;;
      err <- commitRecord (Some
        {| r_Topic := c_dlqTopic c; r_Partition := 0; r_Offset := 0; r_LeaderEpoch := 0; r_Key := Sum256 data; r_Value := data;
           r_Headers := []; r_Timestamp := kd_FailedAt dlq |}) ;;
      observeBoundary operationDLQHandoff (parsed_id messageID) startedAt err ;;;
      mret err
  end.

(** ** Preparation *)
Record preparedRecord := {
  pr_control : controlMetadata;
  pr_envelope : Envelope;
  pr_observedAt : Time;
  pr_retryAt : Time;
  pr_failure : option (string * error);    (** [failureKind] and [failure] *)
  pr_attempt : Z;
  pr_messageID : string }.

Definition retryDue (notBefore expiresAt now : Time) : result error Time :=
  if negb (IsZero expiresAt) && negb (After expiresAt now) then Err (ESentinel ErrKafkaMessageExpired)
  else if IsZero notBefore || negb (After notBefore now) then Ok 0
  else if negb (IsZero expiresAt) && negb (After expiresAt notBefore) then Err (ESentinel ErrKafkaMessageExpired)
  else Ok notBefore.

(** The zero value of the struct. *)
Definition Envelope0 : Envelope :=
  {| e_SpecVersion := ""; e_ID := zeroID; e_Kind := ""; e_Name := ""; e_SchemaVersion := 0; e_Source := ""; e_Subject := "";
     e_Time := 0; e_CorrelationID := zeroID; e_CausationID := zeroID; e_Key := ""; e_ContentType := ""; e_DataEncoding := 0;
     e_Schema := ""; e_Headers := ∅; e_NotBefore := 0; e_ExpiresAt := 0; e_Data := None; e_DataBase64 := None |}.

Definition failed (control : controlMetadata) (observedAt : Time) (kind : string) (err : error) (attempt : Z) (messageID : string)
  : preparedRecord :=
  {| pr_control := control; pr_envelope := Envelope0; pr_observedAt := observedAt; pr_retryAt := 0; pr_failure := Some (kind, err);
     pr_attempt := attempt; pr_messageID := messageID |}.

Definition prepareRecord (r : record) : M preparedRecord :=
  match parseControl ToLower parseTime (Some r) (c_sourceTopic c) (c_replayTopic c) (c_retryTopics c) with
  | Err err => mret (failed (sourceControl r) 0 "control" err 1 "")
  | Ok control =>
      if negb (String.eqb (sp_topic (cm_source control)) (c_sourceTopic c))
      then mret (failed control 0 "control" (KafkaControl.invalid_message "source topic mismatch") (Z.max 1 (cm_attempt control)) "")
      else
        now <- clock ;;
        let fail kind err id := mret (failed control now kind err (Z.max 1 (cm_attempt control)) id) in
        match UnmarshalEnvelope (r_Value r) with
        | Err err => fail failureKindDecode err ""
        | Ok envelope =>
            let metadata := Envelope_Metadata envelope in
            let messageID := MessageID_String (md_ID metadata) in
            match validateEnvelopeDescriptor envelope (c_descriptor c) with
            | Some err => fail failureKindDecode err messageID
            | None =>
                match validateRecordKey (r_Key r) metadata with
                | Some err => fail "identity_conflict" err messageID
                | None =>
                    match retryDue (cm_notBefore control) (md_ExpiresAt metadata) now with
                    | Err err => fail "expired" err messageID
                    | Ok retryAt =>
                        mret {| pr_control := control;
                                pr_envelope := if IsZero retryAt then envelope else Envelope0;
                                pr_observedAt := now; pr_retryAt := retryAt; pr_failure := None;
                                pr_attempt := 0; pr_messageID := "" |}
                    end
                end
            end
        end
  end.

(** ** Processing *)
Definition message_key (decoded : decodedMessage B C) (control : controlMetadata) : Key :=
  {| k_ConsumerID := kc_ConsumerID config; k_Source := md_Source (dm_metadata decoded); k_MessageID := md_ID (dm_metadata decoded);
     k_AttemptGeneration := cm_attemptGeneration control |}.

Definition inbox_handler (decoded : decodedMessage B C) (ctx : C) (t0 : nat) : Handler B :=
  Middleware.inbox_handler ctx_Err (dm_handle decoded) (kc_NilPanicReporter config) (kc_ConsumerID config)
    (kc_Middlewares config) ctx t0.

Definition process_attempt (key : Key) (fp : Fingerprint) (h : Handler B) : M (Result * option error) := fun w =>
  let r := Store_ProcessAttempt key fp (kc_MaxAttempts config) (Some h) (w_db w) (ka_inbox a) in
  (set_db (op_db r) w, Val (op_value r, op_err r)).

Definition confirmTerminalHandoff (key : Key) (fp : Fingerprint) : M unit :=
  if negb (ka_retention a) then mret tt
  else fun w =>
    let r := Store_ConfirmTerminalHandoff false key fp (w_db w) (ka_confirm a) in
    emit (EvConfirm (is_nil (op_err r))) (set_db (op_db r) w).

Definition retryDelay (attempt : Z) : M Duration := fun w =>
  ({| w_db := w_db w; w_trace := w_trace w; w_reads := w_reads w; w_draws := S (w_draws w) |},
   match kafka_retryDelay (ka_random a (w_draws w)) (kc_BaseRetry config) (kc_MaxRetry config) attempt with
   | Some d => Val d
   | None => Crash
   end).

(** After a failed attempt. *)
Definition dispose (r : record) (control : controlMetadata) (decoded : decodedMessage B C) (key : Key) (fp : Fingerprint)
    (result : Result) (err : error) (startedAt : Time) : M (option error) :=
  let processErr := Some err in
  let attempt := r_Attempt result in
  let exhausted := (kc_MaxAttempts config <=? attempt) || errors_is processErr ErrAttemptsExhausted in
  let identityConflict := errors_is processErr ErrFingerprintConflict in
  if identityConflict || IsPermanent processErr || exhausted then
    commitErr <- deadLetterRecord r control (failure_kind processErr identityConflict exhausted) err (Z.max 1 attempt)
                   (MessageID_String (md_ID (dm_metadata decoded))) ;;
    (if is_nil commitErr && negb identityConflict then confirmTerminalHandoff key fp else mret tt) ;;;
    observeHandle decoded attempt result 0 startedAt processErr ;;;
    mret commitErr
  else
    delay <- match DeferDelay processErr with
             | Some d => mret d
             | None => match RetryDelay processErr with
                       | Some d => mret d
                       | None => retryDelay attempt
                       end
             end ;;
    retryErr <- retryRecord r (dm_canonical decoded) control attempt delay (md_ID (dm_metadata decoded)) ;;
    observeHandle decoded attempt result delay startedAt processErr ;;;
    mret retryErr.

(** [decoder] stands for the decoder the constructor got. *)
Definition processPreparedRecord (decoder : Envelope -> result error (decodedMessage B C)) (ctx : C) (t0 : nat) (r : record)
    (prepared : preparedRecord) : M (option error) :=
  let control := pr_control prepared in
  let envelope := pr_envelope prepared in
  match pr_failure prepared with
  | Some (kind, failure) => deadLetterRecord r control kind failure (pr_attempt prepared) (pr_messageID prepared)
  | None =>
      match decoder envelope with
      | Err err =>
          deadLetterRecord r control failureKindDecode err (Z.max 1 (cm_attempt control)) (MessageID_String (e_ID envelope))
      | Ok decoded =>
          now <- clock ;;
          if elapsed (md_ExpiresAt (dm_metadata decoded)) now then
            deadLetterRecord r control "expired" (ESentinel ErrKafkaMessageExpired) (Z.max 1 (cm_attempt control))
              (MessageID_String (md_ID (dm_metadata decoded)))
          else if after (md_NotBefore (dm_metadata decoded)) now then
            retryRecord r (dm_canonical decoded) control (cm_attempt control) (Sub (md_NotBefore (dm_metadata decoded)) now)
              (md_ID (dm_metadata decoded))
          else
            let key := message_key decoded control in
            let fingerprint := FingerprintEnvelope (dm_canonical decoded) in
            let startedAt := if IsZero (pr_observedAt prepared) then now else pr_observedAt prepared in
            outcome <- process_attempt key fingerprint (inbox_handler decoded ctx t0) ;;
            let '(result, processErr) := (outcome : Result * option error) in
            match processErr with
            | None =>
                observeHandle decoded (r_Attempt result) result 0 startedAt None ;;;
                commitStarted <- clock ;;
                finalizationErr <- commitRecord None ;;
                observeBoundary operationOffsetCommit (md_ID (dm_metadata decoded)) commitStarted finalizationErr ;;;
                mret finalizationErr
            | Some err =>
                match ka_ctxErr a with
                | Some ctxErr =>
                    observeHandle decoded (r_Attempt result) result 0 startedAt processErr ;;; mret (Some ctxErr)
                | None => dispose r control decoded key fingerprint result err startedAt
                end
            end
      end
  end.

(** What the worker's loop does with a polled record: a record that is not due is
    left where it is, with its partition paused and rewound. *)
Definition handleRecord (decoder : Envelope -> result error (decodedMessage B C)) (ctx : C) (t0 : nat) (r : record)
  : M (option error) :=
  prepared <- prepareRecord r ;;
  if negb (IsZero (pr_retryAt prepared)) then emit (EvDefer r (pr_retryAt prepared)) ;;; mret (ka_rewind a)
  else processPreparedRecord decoder ctx t0 r prepared.
End Delivery.
End Consumer.
End KafkaConsumer.
