(* ===== verification/KafkaDelivery.v ===== *)
(** * What becomes of a Kafka record

    Whatever the group session, the Inbox and the clock do, a record's offset is
    committed only in a transaction that hands the record over: after its
    completion in the Inbox with nothing produced, with a dead letter that carries
    it, or with a retry record under which it is processed again as the same
    message. *)
From S2P Require Import Prelude GoStrings GoText Digest Errors Backoff Ident Batch Envelope EnvelopeProofs Inbox InboxSQL InboxSpec InboxEffects InboxStore Middleware Delivery KafkaTopic KafkaControl KafkaConsumer.
Import Stdlib.Strings.String.
Import Sha256 Base64 Backoff Delivery Envelope EnvelopeProofs KafkaTopic KafkaControl KafkaDLQ KafkaConsumer.
Open Scope string_scope.
Open Scope Z_scope.

Module KafkaDelivery.

(** ** The trace without observations *)
Definition is_visible (e : event) : bool := match e with EvClose | EvObserve _ => false | _ => true end.
Definition visible (tr : list event) : list event := List.filter is_visible tr.

Lemma visible_snoc tr e : visible (tr ++ [e]) = (visible tr ++ if is_visible e then [e] else [])%list.
Proof. unfold visible. by rewrite List.filter_app. Qed.

Section Delivery.
Context {B C : Type} {collate : string -> string -> bool} `{!InboxBackend B collate, !EnvelopeJSON}.
Context (ctx_Err : C -> nat -> option error).
Context (ToLower : string -> string) (formatTime : Time -> string) (parseTime : string -> option Time).
Context (json_Marshal : DLQRecord -> result error string).
Context (decoder : Envelope -> result error (decodedMessage B C)).
Abbreviation world := (@world B).
Abbreviation returns V := (pending (fun _ => False) V).

Definition reached (vis : list event) (d : DB B) (w : world) : Prop := visible (w_trace w) = vis /\ w_db w = d.

Section Record.
Context (c : Consumer B C) (a : answers) (r : record).
Abbreviation config := (c_config c).

(** ** Steps that the handoff does not see *)
Lemma kafka_reached_clock vis d Q : triple (reached vis d) (clock a) (pending Q (fun t w => reached vis d w /\ exists n, t = ka_clock a n)).
Proof. intros w Hw. split; [exact Hw|by eexists]. Qed.
Lemma kafka_reached_emit vis d e Q :
  triple (reached vis d) (emit e) (pending Q (fun _ => reached (vis ++ if is_visible e then [e] else []) d)).
Proof. intros w [Hw Hd]. unfold emit, reached. cbn. by rewrite visible_snoc, Hw. Qed.
Lemma kafka_reached_notify vis d o Q : triple (reached vis d) (notify c o) (pending Q (fun _ => reached vis d)).
Proof.
  unfold notify. destruct (kc_HasObservers config); [|by apply triple_ret].
  eapply triple_weaken; [apply kafka_reached_emit|done|done|]. intros ? w. cbn. by rewrite app_nil_r.
Qed.
Lemma kafka_reached_observeBoundary vis d op id t e Q :
  triple (reached vis d) (observeBoundary c a op id t e) (pending Q (fun _ => reached vis d)).
Proof. eapply triple_bind; [apply kafka_reached_clock|]. intros now w [Hw _]. by apply kafka_reached_notify. Qed.
Lemma kafka_reached_observeHandle vis d dm n x dl t e Q :
  triple (reached vis d) (observeHandle c a dm n x dl t e) (pending Q (fun _ => reached vis d)).
Proof. eapply triple_bind; [apply kafka_reached_clock|]. intros now w [Hw _]. by apply kafka_reached_notify. Qed.

(** ** The transaction *)

(** An error is reported exactly when the transaction is not known committed. *)
Definition in_tx (produced : list record) (d : DB B) (err : option error) (w : world) : Prop :=
  exists t, reached [EvTx produced t] d w /\ (err = None <-> t = TxCommitted).

Lemma emit_tx produced t d (x : option error) Q : (x = None <-> t = TxCommitted) ->
  triple (reached [] d) (emit (EvTx produced t)) (pending Q (fun _ => in_tx produced d x)).
Proof. intros Hx. eapply triple_weaken; [apply kafka_reached_emit|done|done|]. intros ? w Hw. by exists t. Qed.

Lemma commitRecord_ok produced d :
  triple (reached [] d) (commitRecord a produced) (returns (in_tx (match produced with Some p => [p] | None => [] end) d)).
Proof.
  unfold commitRecord, commitTransactionalRecords. set (l := match produced with Some p => [p] | None => [] end). clearbody l.
  eapply triple_bind with (R := fun x w => in_tx l d (match x with (false, None) => Some (ESentinel ErrTransactionNotCommitted) | (_, err) => err end) w).
  2:{ intros x. by apply triple_ret. }
  assert (forall t (x : bool * option error),
    (match x with (false, None) => Some (ESentinel ErrTransactionNotCommitted) | (_, err) => err end = None <-> t = TxCommitted) ->
    triple (reached [] d) (mbind (emit (EvTx l t)) (fun _ => mret x))
      (returns (fun x => in_tx l d (match x with (false, None) => Some (ESentinel ErrTransactionNotCommitted) | (_, err) => err end)))) as Hemit.
  { intros t x Hx. eapply triple_bind; [by apply emit_tx|]. intros ?. by apply triple_ret. }
  destruct (ka_begin a); [by apply Hemit|].
  eapply triple_bind with (R := fun _ => reached [] d).
  { destruct (negb _ && _); [|by apply triple_ret]. eapply triple_weaken; [apply kafka_reached_emit with (vis := []) (Q := fun _ => False)|done..]. }
  intros ?. destruct (if is_empty l then None else ka_produce a).
  - apply Hemit. cbn. unfold errors_join. cbn. by destruct (omap id [ka_abort a]).
  - destruct (ka_end a) as [[|] [e|]]; by apply Hemit.
Qed.

(** ** The dead letter *)
Definition is_dead (control : controlMetadata) (p : record) : Prop :=
  r_Topic p = c_dlqTopic c /\ r_Key p = Sum256 (r_Value p) /\
  exists dl, json_Marshal dl = Ok (r_Value p) /\ len (r_Value p) <= DefaultMaxDLQRecordBytes /\
    kafka_captured dl (kc_ConsumerID config) r control.

(** Either nothing was sent and an error is reported, or one transaction. *)
Definition sent (ok : record -> Prop) (d : DB B) (err : option error) (w : world) : Prop :=
  (reached [] d w /\ err <> None) \/ exists p, in_tx [p] d err w /\ ok p.

Lemma commit_observed p op id t d (ok : record -> Prop) : ok p ->
  triple (reached [] d) (mbind (commitRecord a (Some p)) (fun err => mbind (observeBoundary c a op id t err) (fun _ => mret err)))
    (returns (sent ok d)).
Proof.
  intros Hok. eapply triple_bind; [apply commitRecord_ok|]. intros err.
  eapply triple_bind with (R := fun _ => in_tx [p] d err).
  - intros w (tx & Hw & Hx). eapply triple_weaken with (P' := fun w' => w' = w);
      [apply kafka_reached_observeBoundary with (Q := fun _ => False)|by intros ? ->|done| |done]. intros ? w' Hw'. by exists tx.
  - intros ?. apply triple_ret. intros w Hw. right. by exists p.
Qed.

Lemma kafka_deadLetter_ok control kind failure attempt id d :
  triple (reached [] d) (deadLetterRecord json_Marshal c a r control kind failure attempt id) (returns (sent (is_dead control) d)).
Proof.
  unfold deadLetterRecord. eapply triple_bind; [apply kafka_reached_clock|]. intros now w [Hw _]. revert w Hw.
  destruct (encodeDLQRecord _ _) as [data|e] eqn:Ee; [|apply triple_ret; intros w Hw; by left].
  apply encode_captured in Ee as (dl & Hm & Hl & Hc).
  eapply triple_bind; [apply kafka_reached_clock|]. intros t w [Hw _]. revert w Hw. apply commit_observed.
  split; [done|]. split; [done|]. by exists dl.
Qed.

(** ** The retry record *)
Context (lower_reserved : forall h, h ∈ reservedHeaders -> ToLower h = h).
Context (time_roundtrip : forall t, 0 < t < year_10000 ->
  parseTime (formatTime t) = Some t /\ formatTime t <> "" /\ len (formatTime t) <= 512).
Context (Htiers : kc_RetryTiers config <> []) (Htopics : List.length (c_retryTopics c) = List.length (kc_RetryTiers config)).
Context (Hsource : validateTopicName (c_sourceTopic c) = None).
Context (Hattempts : 1 <= kc_MaxAttempts config <= maxInt64).
Context (Hclock : forall n, 0 < ka_clock a n).
Context (Hrecord : 0 <= r_Partition r < 2 ^ 31 /\ 0 <= r_Offset r <= maxInt64).

Definition is_retry (control : controlMetadata) (dm : decodedMessage B C) (attempt : Z) (p : record) : Prop :=
  r_Topic p ∈ c_retryTopics c /\ r_Key p = r_Key r /\ r_Value p = dm_canonical dm /\
  exists notBefore, r_Headers p = controlHeaders formatTime (with_schedule control attempt notBefore) /\ 0 < notBefore /\
    (notBefore < year_10000 ->
     decodeControlHeaders ToLower parseTime (r_Headers p) = Ok (with_schedule control attempt notBefore)).

Lemma retryRecord_ok control dm attempt delay id d : control_wf control -> 0 <= attempt <= maxUint64 ->
  triple (reached [] d) (retryRecord formatTime c a r (dm_canonical dm) control attempt delay id)
    (returns (sent (is_retry control dm attempt) d)).
Proof.
  intros Hwf Ha. unfold retryRecord. destruct (Z.leb_spec delay 0); [apply triple_ret; intros w Hw; by left|].
  eapply triple_bind; [apply kafka_reached_clock|]. intros now w [Hw [n Hn]]. revert w Hw.
  destruct (nth_error (c_retryTopics c) _) as [topic|] eqn:Et.
  2:{ exfalso. apply nth_error_None in Et. pose proof (retryTier_lt _ delay Htiers). lia. }
  eapply triple_bind; [apply kafka_reached_clock|]. intros t w [Hw _]. revert w Hw. apply commit_observed.
  split_and!; [|done|done|]; cbn [r_Topic r_Headers].
  - by eapply list_elem_of_In, nth_error_In.
  - exists (now + delay). subst now. pose proof (Hclock n). split_and!; [done|lia|]. intros Hy.
    apply (control_decode_encode _ formatTime); [done|done| |cbn; lia]. unfold control_wf in *. cbn. tauto.
Qed.

(** ** Preparation *)
Definition control_of (control : controlMetadata) : Prop :=
  parseControl ToLower parseTime (Some r) (c_sourceTopic c) (c_replayTopic c) (c_retryTopics c) = Ok control.

(** The envelope of an accepted record. *)
Definition accepts (control : controlMetadata) (e : Envelope) : Prop :=
  control_of control /\ sp_topic (cm_source control) = c_sourceTopic c /\ UnmarshalEnvelope (r_Value r) = Ok e /\
  validateEnvelopeDescriptor e (c_descriptor c) = None /\ validateRecordKey (r_Key r) (Envelope_Metadata e) = None.

Lemma control_of_wf control : control_of control -> control_wf control.
Proof using Hsource Hrecord.
  clear Htopics. unfold control_of, parseControl. destruct (String.eqb_spec (r_Topic r) (c_sourceTopic c)) as [Et|_].
  - destruct (existsb _ _); [done|]. intros <-%Ok_inj. destruct Hrecord as [? ?]. unfold control_wf. cbn. rewrite Et.
    split_and!; (done || lia || vm_compute; done).
  - destruct (String.eqb _ _).
    + destruct (decodeControlHeaders _ _ _) as [m|] eqn:E; [|done]. destruct (String.prefix _ _); [|done].
      intros <-%Ok_inj. by eapply decode_wf.
    + destruct (negb _); [done|]. intros E. by eapply decode_wf.
Qed.

Definition prepared_ok (p : preparedRecord) : Prop :=
  match pr_failure p with
  | Some _ => pr_retryAt p = 0 /\ pr_attempt p <> 0 /\ (control_of (pr_control p) \/ pr_control p = sourceControl r)
  | None => control_of (pr_control p) /\ (pr_retryAt p = 0 -> accepts (pr_control p) (pr_envelope p)) /\
            (pr_retryAt p <> 0 -> pr_retryAt p = cm_notBefore (pr_control p))
  end.

Lemma prepareRecord_ok d : triple (reached [] d) (prepareRecord ToLower parseTime c a r) (returns (fun p w => reached [] d w /\ prepared_ok p)).
Proof using.
  clear Htopics. unfold prepareRecord.
  destruct (parseControl _ _ _ _ _ _) as [control|e] eqn:Ec; [|apply triple_ret; intros w Hw; split; [done|]; cbn; auto].
  assert (forall k e n id, prepared_ok (failed control n k e (Z.max 1 (cm_attempt control)) id)) as Hf
    by (intros; cbn; split_and!; [done|lia|by left]).
  destruct (String.eqb_spec (sp_topic (cm_source control)) (c_sourceTopic c)); cbn [negb]; [|apply triple_ret; intros w Hw; split; [done|apply Hf]].
  eapply triple_bind; [apply kafka_reached_clock|]. intros now w [Hw _]. revert w Hw.
  destruct (UnmarshalEnvelope _) as [env|] eqn:Eu; [|apply triple_ret; intros w Hw; split; [done|apply Hf]].
  destruct (validateEnvelopeDescriptor _ _) eqn:Ed; [apply triple_ret; intros w Hw; split; [done|apply Hf]|].
  destruct (validateRecordKey _ _) eqn:Ek; [apply triple_ret; intros w Hw; split; [done|apply Hf]|].
  destruct (retryDue _ _ _) as [t|] eqn:Er; [|apply triple_ret; intros w Hw; split; [done|apply Hf]].
  apply triple_ret. intros w Hw. split; [done|]. cbn. split_and!; [done|intros ->; by split_and!|].
  revert Er. unfold retryDue. repeat case_goal; by intros [= <-].
Qed.

(** ** A record's settlement *)
Context (ctx : C) (t0 : nat).

Definition decodes (control : controlMetadata) (dm : decodedMessage B C) : Prop :=
  exists e, accepts control e /\ decoder e = Ok dm.

Definition attempt_op (control : controlMetadata) (dm : decodedMessage B C) : op (B := B) :=
  OpAttempt (message_key c dm control) (FingerprintEnvelope (dm_canonical dm)) (kc_MaxAttempts config)
    (Some (inbox_handler ctx_Err c dm ctx t0)).
Definition confirm_op (control : controlMetadata) (dm : decodedMessage B C) : op (B := B) :=
  OpConfirm (message_key c dm control) (FingerprintEnvelope (dm_canonical dm)).

(** The Inbox operations of one record. *)
Definition record_ops (ops : list (op (B := B) * env)) : Prop :=
  ops = [] \/ exists control dm, decodes control dm /\
    (ops = [(attempt_op control dm, ka_inbox a)] \/
     ops = [(attempt_op control dm, ka_inbox a); (confirm_op control dm, ka_confirm a)]).

(** Where the record went, in the transaction that commits its offset. *)
Definition handoff_ok (produced : list record) (d : DB B) : Prop :=
  (produced = [] /\ exists control dm, decodes control dm /\ completed (key_id (message_key c dm control)) d = true) \/
  (exists p control, produced = [p] /\ (control_of control \/ control = sourceControl r) /\ is_dead control p) \/
  (exists p control dm attempt, produced = [p] /\ decodes control dm /\ is_retry control dm attempt p).

Definition settled (err : option error) (vis : list event) (d : DB B) : Prop :=
  match vis with
  | [] => err <> None
  | [EvDefer r' until] => r' = r /\ err = ka_rewind a /\ exists control, control_of control /\ until = cm_notBefore control
  | EvTx produced t :: rest =>
      (err = None <-> t = TxCommitted) /\ handoff_ok produced d /\
      (rest = [] \/ t = TxCommitted /\ exists p control ok, produced = [p] /\ is_dead control p /\ rest = [EvConfirm ok])
  | _ => False
  end.

Definition outcome (d : DB B) (err : option error) (w : world) : Prop :=
  exists ops, w_db w = perform_all ops d /\ record_ops ops /\ settled err (visible (w_trace w)) (w_db w).

Lemma outcome_tx produced d d' err w ops :
  in_tx produced d' err w -> d' = perform_all ops d -> record_ops ops -> handoff_ok produced d' -> outcome d err w.
Proof. intros (t & [Hv Hd] & He) Hp Ho Hh. exists ops. rewrite Hv, Hd. split_and!; [done..|]. split_and!; [done..|by left]. Qed.

Lemma outcome_sent ok d d' err w ops :
  sent ok d' err w -> d' = perform_all ops d -> record_ops ops -> (forall p, ok p -> handoff_ok [p] d') -> outcome d err w.
Proof.
  intros [[[Hv Hd] He]|(p & Hp & Hok)] Hdb Ho Hh; [|by eapply outcome_tx; eauto]. exists ops. by rewrite Hv, Hd.
Qed.

Lemma dead_handoff control p d : control_of control \/ control = sourceControl r -> is_dead control p -> handoff_ok [p] d.
Proof. intros Hc Hp. right. left. by exists p, control. Qed.
Lemma retry_handoff control dm attempt p d : decodes control dm -> is_retry control dm attempt p -> handoff_ok [p] d.
Proof. intros Hc Hp. right. right. by exists p, control, dm, attempt. Qed.

Lemma kafka_observeHandle_outcome d err dm n x dl t e Q :
  triple (outcome d err) (observeHandle c a dm n x dl t e) (pending Q (fun _ => outcome d err)).
Proof.
  intros w (ops & Hd & Ho & Hs).
  eapply (triple_weaken _ (reached (visible (w_trace w)) (w_db w)) (fun w' => w' = w) _ Q);
    [apply kafka_reached_observeHandle with (Q := Q)|by intros ? ->|done| |done].
  intros ? w' [Hv Hd']. exists ops. by rewrite Hv, Hd'.
Qed.

Lemma kafka_deadLetter_outcome control kind failure attempt id d : control_of control \/ control = sourceControl r ->
  triple (reached [] d) (deadLetterRecord json_Marshal c a r control kind failure attempt id) (returns (outcome d)).
Proof.
  intros Hc. eapply triple_weaken; [apply kafka_deadLetter_ok|done|done|].
  intros err w Hw. eapply (outcome_sent _ d d err w []); [exact Hw|done|by left|]. intros p. by apply dead_handoff.
Qed.

(** After a dead letter the terminal state is told, when the transaction committed. *)
Lemma confirm_ok control dm d d' err Q : decodes control dm -> control_of control \/ control = sourceControl r ->
  d' = perform_all [(attempt_op control dm, ka_inbox a)] d -> err = None ->
  triple (sent (is_dead control) d' err)
    (confirmTerminalHandoff a (message_key c dm control) (FingerprintEnvelope (dm_canonical dm)))
    (pending Q (fun _ => outcome d err)).
Proof.
  intros Hdm Hc -> Herr w Hw. unfold confirmTerminalHandoff. destruct (ka_retention a); cbn.
  2:{ eapply outcome_sent; [exact Hw|done|right; exists control, dm; by auto|]. intros p. by apply dead_handoff. }
  destruct Hw as [[_ He]|(p & (t & [Hv Hd] & Ht) & Hp)]; [done|].
  exists [(attempt_op control dm, ka_inbox a); (confirm_op control dm, ka_confirm a)]. cbn.
  rewrite visible_snoc, Hv, Hd. split_and!; [done|right; exists control, dm; by auto|]. cbn.
  split_and!; [done|by eapply dead_handoff|]. right. split; [by apply Ht|]. by exists p, control, (is_nil (op_err (Store_ConfirmTerminalHandoff false (message_key c dm control) (FingerprintEnvelope (dm_canonical dm)) (perform_all [(attempt_op control dm, ka_inbox a)] d) (ka_confirm a)))).
Qed.

Lemma kafka_dispose_ok control dm result err t d d' : decodes control dm -> control_of control ->
  0 <= r_Attempt result -> d' = perform_all [(attempt_op control dm, ka_inbox a)] d ->
  triple (reached [] d')
    (dispose formatTime json_Marshal c a r control dm (message_key c dm control) (FingerprintEnvelope (dm_canonical dm)) result err t)
    (returns (outcome d)).
Proof.
  intros Hdm Hc Ha Hd. assert (record_ops [(attempt_op control dm, ka_inbox a)]) as Hops by (right; exists control, dm; by auto).
  unfold dispose. destruct (_ || _ || _) eqn:Eterm.
  - eapply triple_bind; [apply kafka_deadLetter_ok|]. intros commitErr.
    eapply triple_bind with (R := fun _ => outcome d commitErr).
    + destruct commitErr; cbn [is_nil andb]; [|destruct (errors_is _ _); cbn [negb]; [|by apply confirm_ok; auto]].
      all: apply triple_ret; intros w Hw; eapply outcome_sent; [exact Hw|done|done|]; intros p; by apply dead_handoff; left.
    + intros ?. eapply triple_bind; [apply kafka_observeHandle_outcome|]. intros ?. by apply triple_ret.
  - apply orb_false_iff in Eterm as [_ Eterm]. apply orb_false_iff in Eterm as [Eterm _]. apply Z.leb_gt in Eterm.
    eapply triple_bind with (R := fun _ => reached [] d').
    { destruct (DeferDelay _); [by apply triple_ret|]. destruct (RetryDelay _); [by apply triple_ret|].
      intros w Hw. unfold retryDelay. cbn. by destruct (kafka_retryDelay_total (ka_random a (w_draws w)) (kc_BaseRetry config) (kc_MaxRetry config) (r_Attempt result)) as [x ->]. }
    intros delay. eapply triple_bind; [apply (retryRecord_ok control dm)|].
    + by apply control_of_wf.
    + unfold maxUint64, maxInt64 in *. lia.
    + intros retryErr. eapply triple_bind with (R := fun _ => outcome d retryErr); [|intros ?; by apply triple_ret].
      eapply triple_weaken; [apply kafka_observeHandle_outcome with (d := d) (err := retryErr) (Q := fun _ => False)| |done|done].
      intros w Hw. eapply outcome_sent; [exact Hw|done|done|]. intros p. by apply retry_handoff.
Qed.

Context (Hfree : forall control dm, decodes control dm ->
  collision_free (message_key c dm control) (FingerprintEnvelope (dm_canonical dm))).

Lemma kafka_attempt_op_ok control dm : decodes control dm -> op_ok (attempt_op control dm).
Proof. intros Hdm. cbn. split_and!; [apply length_Sum256|by apply Hfree|lia]. Qed.

Lemma processPrepared_ok prepared d : prepared_ok prepared -> pr_retryAt prepared = 0 -> db_ok d ->
  triple (reached [] d) (processPreparedRecord ctx_Err formatTime json_Marshal c a decoder ctx t0 r prepared) (returns (outcome d)).
Proof.
  intros Hp Hz Hd. unfold processPreparedRecord, prepared_ok in *.
  destruct (pr_failure prepared) as [[kind failure]|]; [apply kafka_deadLetter_outcome; by destruct Hp as (_ & _ & ?)|].
  destruct Hp as (Hc & Hacc & _). specialize (Hacc Hz). destruct (decoder (pr_envelope prepared)) as [dm|] eqn:Edm; [|by apply kafka_deadLetter_outcome; left].
  assert (decodes (pr_control prepared) dm) as Hdm by (by eexists).
  eapply triple_bind; [apply kafka_reached_clock|]. intros now w [Hw _]. revert w Hw.
  destruct (elapsed _ _); [by apply kafka_deadLetter_outcome; left|]. destruct (after _ _).
  { eapply triple_weaken; [apply (retryRecord_ok (pr_control prepared) dm)|done|done|].
    - by apply control_of_wf.
    - apply control_of_wf in Hc as (_ & _ & _ & ? & _). done.
    - intros err w Hw. eapply (outcome_sent _ d d err w []); [exact Hw|done|by left|]. intros p. by apply retry_handoff. }
  set (d' := perform_all [(attempt_op (pr_control prepared) dm, ka_inbox a)] d).
  assert (record_ops [(attempt_op (pr_control prepared) dm, ka_inbox a)]) as Hops by (right; exists (pr_control prepared), dm; by auto).
  eapply triple_bind with (R := fun x w => reached [] d' w /\ 0 <= r_Attempt x.1 /\
    (x.2 = None -> completed (key_id (message_key c dm (pr_control prepared))) d' = true)).
  { intros w [Hf Hw]. cbn. rewrite Hw. split; [by split|]. split; [by apply Store_ProcessAttempt_attempt; [apply kafka_attempt_op_ok|]|].
    by apply Store_ProcessAttempt_completed; [apply kafka_attempt_op_ok|]. }
  intros [result [err|]]; cbn [fst snd]; intros w (Hw & Ha & Hcm); revert w Hw.
  - destruct (ka_ctxErr a) as [e|]; [|by apply kafka_dispose_ok].
    eapply triple_bind; [apply kafka_reached_observeHandle|]. intros ?. apply triple_ret. intros w [Hv Hdb].
    exists [(attempt_op (pr_control prepared) dm, ka_inbox a)]. by rewrite Hv, Hdb.
  - specialize (Hcm eq_refl). eapply triple_bind; [apply kafka_reached_observeHandle|]. intros ?.
    eapply triple_bind; [apply kafka_reached_clock|]. intros t w [Hw _]. revert w Hw.
    eapply triple_bind; [apply commitRecord_ok|]. intros err.
    eapply triple_bind with (R := fun _ => in_tx [] d' err).
    + intros w (tx & Hw & Hx). eapply triple_weaken with (P' := fun w' => w' = w);
        [apply kafka_reached_observeBoundary with (Q := fun _ => False)|by intros ? ->|done| |done]. intros ? w' Hw'. by exists tx.
    + intros ?. apply triple_ret. intros w Hw. eapply outcome_tx; [exact Hw|done|done|]. left. split; [done|]. by exists (pr_control prepared), dm.
Qed.

Lemma handleRecord_ok d : db_ok d ->
  triple (reached [] d) (handleRecord ctx_Err ToLower formatTime parseTime json_Marshal c a decoder ctx t0 r) (returns (outcome d)).
Proof.
  intros Hd. eapply triple_bind; [apply prepareRecord_ok|]. intros p w [Hw Hp]. revert w Hw.
  destruct (IsZero (pr_retryAt p)) eqn:Ez; cbn [negb]; [apply Z.eqb_eq in Ez; by apply processPrepared_ok|].
  eapply triple_bind; [apply kafka_reached_emit|]. intros ?. apply triple_ret. intros w [Hv Hdb].
  exists []. rewrite Hv, Hdb. split_and!; [done|by left|]. cbn. split_and!; [done..|].
  apply Z.eqb_neq in Ez. unfold prepared_ok in Hp. destruct (pr_failure p); [by destruct Hp|].
  exists (pr_control p). destruct Hp as (? & _ & Hr). split; [done|auto].
Qed.
End Record.
End Delivery.

(** ** An accepted configuration *)
Section Facts.
Context {B C : Type}.

Lemma retry_topics_spec source id tiers index topics :
  retry_topics source id index tiers = Ok topics ->
  List.length topics = List.length tiers /\ Forall (fun t => exists tier, RetryTopic source id tier = Ok t) topics.
Proof.
  revert index topics. induction tiers as [|x tiers IH]; cbn; intros index topics; [intros <-%Ok_inj; by split; [|constructor]|].
  destruct (RetryTopic source id index) as [t|] eqn:Et; [|done].
  destruct (retry_topics source id (index + 1) tiers) as [l|] eqn:El; [|done]. intros <-%Ok_inj.
  apply IH in El as [Hl Hf]. split; [cbn; lia|]. constructor; [by exists index|done].
Qed.

Lemma kafka_newConsumer_facts deps info (config0 : HandlerConfig B C) c :
  newConsumer deps info config0 = Ok c ->
  let config := c_config c in
  config = applyConsumerDefaults config0 /\ c_descriptor c = info /\ 1 <= kc_MaxAttempts config /\
  kc_RetryTiers config <> [] /\ List.length (c_retryTopics c) = List.length (kc_RetryTiers config) /\
  validateTopicName (c_sourceTopic c) = None /\
  Topic (kc_Namespace config) info = Ok (c_sourceTopic c) /\
  Forall (fun t => exists tier, RetryTopic (c_sourceTopic c) (kc_ConsumerID config) tier = Ok t) (c_retryTopics c) /\
  ReplayTopic (c_sourceTopic c) (kc_ConsumerID config) = Ok (c_replayTopic c) /\
  DLQTopic (c_sourceTopic c) (kc_ConsumerID config) = Ok (c_dlqTopic c) /\
  c_topics c = (c_sourceTopic c :: c_retryTopics c ++ [c_replayTopic c])%list.
Proof.
  unfold newConsumer. remember (applyConsumerDefaults config0) as k. intros H.
  destruct (negb deps || bad_config k) eqn:Eb; [done|]. apply orb_false_iff in Eb as [_ Eb].
  destruct (validateRetryTiers _); [done|]. destruct (Topic _ info) as [source|] eqn:Es; [|done].
  destruct (ConsumerGroup _ _); [|done]. destruct (retry_topics _ _ _ _) as [retries|] eqn:Er; [|done].
  destruct (ReplayTopic _ _) as [replay|] eqn:Ep; [|done]. destruct (DLQTopic _ _) as [dlq|] eqn:Ed; [|done].
  apply Ok_inj in H as <-. cbn. unfold bad_config in Eb. bool_simpl. apply retry_topics_spec in Er as [Hl Hf].
  apply Topic_spec in Es as Es'. destruct Es' as (_ & _ & _ & _ & _ & _ & Hv).
  split_and!; try done; try lia. intros Hn. apply (f_equal (@List.length Duration)) in Hn. simpl in Hn. lia.
Qed.
End Facts.

Section Theorems.
Context {B C : Type} {collate : string -> string -> bool} `{!InboxBackend B collate, !EnvelopeJSON}.
Context (ctx_Err : C -> nat -> option error).
Context (ToLower : string -> string) (formatTime : Time -> string) (parseTime : string -> option Time).
Context (json_Marshal : DLQRecord -> result error string).

(** What is used of [strings.ToLower] and of the RFC 3339 text of a time. *)
Definition text_laws : Prop :=
  (forall h, h ∈ reservedHeaders -> ToLower h = h) /\
  (forall t, 0 < t < year_10000 -> parseTime (formatTime t) = Some t /\ formatTime t <> "" /\ len (formatTime t) <= 512).

(** A polled record, the answers it meets, the processing context. *)
Record delivery := { dv_record : record; dv_answers : answers; dv_ctx : C; dv_t0 : nat }.

Definition fresh (d : DB B) : @world B := {| w_db := d; w_trace := []; w_reads := 0; w_draws := 0 |}.

Section Decoder.
Context (decoder : Envelope -> result error (decodedMessage B C)).

(** The world after a record, and what the worker's loop gets. *)
Definition deliver (c : Consumer B C) (dv : delivery) (d : DB B) : @world B * comp (option error) :=
  handleRecord ctx_Err ToLower formatTime parseTime json_Marshal c (dv_answers dv) decoder (dv_ctx dv) (dv_t0 dv)
    (dv_record dv) (fresh d).

Abbreviation decoded_as c dv control dm := (decodes ToLower parseTime decoder c (dv_record dv) control dm).

(** Positions a broker assigns, a clock past year one, Go's [int], and no digest
    collision. *)
Definition delivery_ok (c : Consumer B C) (dv : delivery) : Prop :=
  (0 <= r_Partition (dv_record dv) < 2 ^ 31 /\ 0 <= r_Offset (dv_record dv) <= maxInt64) /\
  (forall n, 0 < ka_clock (dv_answers dv) n) /\ kc_MaxAttempts (c_config c) <= maxInt64 /\
  (forall control dm, decoded_as c dv control dm ->
     collision_free (message_key c dm control) (FingerprintEnvelope (dm_canonical dm))).

Lemma kafka_deliver_outcome deps info config0 c dv d :
  text_laws -> newConsumer deps info config0 = Ok c -> delivery_ok c dv -> db_ok d ->
  exists err, (deliver c dv d).2 = Val err /\
    outcome ctx_Err ToLower formatTime parseTime json_Marshal decoder c (dv_answers dv) (dv_record dv) (dv_ctx dv) (dv_t0 dv) d err
      (deliver c dv d).1.
Proof.
  intros [Hl Ht] (_ & _ & H1 & H2 & H3 & H4 & _)%kafka_newConsumer_facts (Hr & Hc & Hm & Hf) Hd.
  assert (reached [] d (fresh d)) as H0 by done.
  pose proof (handleRecord_ok ctx_Err ToLower formatTime parseTime json_Marshal decoder c (dv_answers dv) (dv_record dv)
    Hl Ht H2 H3 H4 (conj H1 Hm) Hc Hr (dv_ctx dv) (dv_t0 dv) Hf d Hd (fresh d) H0) as Hout.
  unfold deliver. destruct (handleRecord _ _ _ _ _ _ _ _ _ _ _ _) as [w [err| |]]; [by exists err|done..].
Qed.

(** C11. How one Kafka record is settled, for every configuration that the
    constructor accepts and whatever the group session, the Inbox faults, the
    handler, the middlewares and the clock do.  The consumer always returns.  A
    record that is not due is left for exactly the time its control headers say.
    Otherwise at most one transaction is tried, and nil is returned exactly when
    it is known committed.  The transaction, which carries
    the offset of the record, produces nothing after the message's completion is
    committed in the Inbox, or one dead letter that holds the record, or one
    retry record whose control headers, when it is scheduled before the year 10000,
    give back the position, the attempt and the generation.  Terminal state is confirmed only after a dead letter's
    transaction committed, and the tables change by one Inbox attempt and at most
    one confirmation for the message's identity. *)
Theorem kafka_settlement deps info config0 c dv d :
  text_laws -> newConsumer deps info config0 = Ok c -> delivery_ok c dv -> db_ok d ->
  let w := (deliver c dv d).1 in
  exists err ops, (deliver c dv d).2 = Val err /\ w_db w = perform_all ops d /\
    record_ops ctx_Err ToLower parseTime decoder c (dv_answers dv) (dv_record dv) (dv_ctx dv) (dv_t0 dv) ops /\
    settled ToLower formatTime parseTime json_Marshal decoder c (dv_answers dv) (dv_record dv) err (visible (w_trace w)) (w_db w).
Proof.
  intros Hl Hc Hdv Hd w. destruct (kafka_deliver_outcome _ _ _ _ dv d Hl Hc Hdv Hd) as (err & Hv & ops & ? & ? & ?). by exists err, ops.
Qed.

(** ** Sequences of records *)
Definition step (c : Consumer B C) (dv : delivery) (d : DB B) : DB B := w_db (deliver c dv d).1.
Definition consume (c : Consumer B C) : list delivery -> DB B -> DB B := run_all (step c).

Definition belongs (c : Consumer B C) (dv : delivery) (o : op (B := B)) : Prop :=
  exists control dm, decoded_as c dv control dm /\
    (o = attempt_op ctx_Err c (dv_ctx dv) (dv_t0 dv) control dm \/ o = confirm_op c control dm).

Lemma kafka_belongs_ok deps info config0 c dv o :
  newConsumer deps info config0 = Ok c -> delivery_ok c dv -> belongs c dv o -> op_ok o /\ not_prune o.
Proof.
  intros (_ & _ & Hn & _)%kafka_newConsumer_facts (_ & _ & _ & Hf) (control & dm & Hdm & Ho).
  destruct Ho as [-> | ->]; (split; [|done]); cbn; [split_and!; [apply length_Sum256|by apply Hf|lia]|apply length_Sum256].
Qed.

Lemma kafka_step_ops deps info config0 c dv d :
  text_laws -> newConsumer deps info config0 = Ok c -> delivery_ok c dv -> db_ok d ->
  exists ops, step c dv d = perform_all ops d /\ Forall (fun p => belongs c dv p.1) ops.
Proof.
  intros Hl Hc Hdv Hd. destruct (kafka_deliver_outcome _ _ _ _ dv d Hl Hc Hdv Hd) as (err & _ & ops & Hdb & Hops & _).
  exists ops. split; [done|]. destruct Hops as [->|(control & dm & Hdm & [-> | ->])]; repeat constructor; exists control, dm; by auto.
Qed.

(** C13. Exactly-once effect of Kafka records, end to end: over any sequence of
    records, retries and redeliveries, whatever fails in between, the business
    tables are the result of running, one after the other, the handlers of the
    messages that became completed, each identity once; and a message whose
    offset may have been committed with nothing produced stays completed, so its
    handler's writes are among them or were there before. *)
Theorem kafka_exactly_once deps info config0 c ds d :
  text_laws -> newConsumer deps info config0 = Ok c -> Forall (delivery_ok c) ds -> db_ok d ->
  exists log, NoDup (List.map fst log) /\ business (consume c ds d) = apply_log log (business d) /\
    Forall (fun p => exists dv control dm, dv ∈ ds /\ decoded_as c dv control dm /\ p.1 = key_id (message_key c dm control) /\
                       p.2 = inbox_handler ctx_Err c dm (dv_ctx dv) (dv_t0 dv)) log /\
    forall ds1 dv ds2 t rest, ds = (ds1 ++ dv :: ds2)%list ->
      visible (w_trace (deliver c dv (consume c ds1 d)).1) = EvTx [] t :: rest ->
      exists control dm, decoded_as c dv control dm /\
        completed (key_id (message_key c dm control)) (consume c ds d) = true /\
        (completed (key_id (message_key c dm control)) d = true \/ key_id (message_key c dm control) ∈ List.map fst log).
Proof.
  intros Hl Hc Hds Hd. assert (forall dv d, delivery_ok c dv -> db_ok d ->
    exists ops, step c dv d = perform_all ops d /\ Forall (fun p => belongs c dv p.1) ops) as Hs by (intros; by eapply kafka_step_ops).
  assert (forall dv o, delivery_ok c dv -> belongs c dv o -> op_ok o /\ not_prune o) as Hb by (intros; by eapply kafka_belongs_ok).
  destruct (run_all_log _ _ _ Hs Hb ds d Hds Hd) as (log & Hlog & _). exists log.
  pose proof Hlog as (H1 & _ & H3 & H4). split_and!; [done..| |].
  - eapply Forall_impl; [exact H4|]. intros [k h] (dv & o & Hin & (control & dm & Hdm & Ho) & Hdel). exists dv, control, dm.
    destruct Ho as [-> | ->]; [|done]. destruct Hdel as [-> ->]. by split_and!.
  - intros ds1 dv ds2 t rest -> Htx. apply Forall_app in Hds as Hds'. destruct Hds' as [Hds1 Hds2].
    inversion Hds2 as [|? ? Hdv _]; subst. assert (db_ok (consume c ds1 d)) as Hd1 by (by eapply run_all_ok).
    destruct (kafka_deliver_outcome _ _ _ _ dv _ Hl Hc Hdv Hd1) as (err & _ & ops & _ & _ & Hset).
    rewrite Htx in Hset. destruct Hset as (_ & [(_ & control & dm & Hdm & Hcm)|[(p & ? & [=] & _)|(p & ? & ? & ? & [=] & _)]] & _).
    exists control, dm. split; [done|]. by eapply run_all_completed.
Qed.
End Decoder.

(** ** A retried record is the same message *)

(** A record that the broker stored: it keeps what was produced. *)
Definition stored_as (p q : record) : Prop :=
  r_Topic q = r_Topic p /\ r_Key q = r_Key p /\ r_Value q = r_Value p /\ r_Headers q = r_Headers p.

(** The codec reads compacted JSON as it reads JSON. *)
Definition codec_reads {T} (codec : Codec T) : Prop :=
  forall data, json_Valid data = true -> Decode codec (json_Compact data) = Decode codec data.

Lemma validateEnvelopeDescriptor_same e e' info :
  Envelope_Metadata e' = Envelope_Metadata e -> e_DataEncoding e' = e_DataEncoding e ->
  validateEnvelopeDescriptor e' info = validateEnvelopeDescriptor e info.
Proof.
  intros Hm He. unfold validateEnvelopeDescriptor. rewrite He.
  pose proof (f_equal md_Kind Hm) as H1. pose proof (f_equal md_Name Hm) as H2. pose proof (f_equal md_SchemaVersion Hm) as H3.
  pose proof (f_equal md_ContentType Hm) as H4. pose proof (f_equal md_Schema Hm) as H5. cbn in *. by rewrite H1, H2, H3, H4, H5.
Qed.

(** Decoding the canonical bytes gives the same message. *)
Lemma decode_canonical `{!EnvelopeJSONLaws} {T} (desc : descriptor T) handler data e (dm : decodedMessage B C) :
  codec_reads (d_codec desc) -> UnmarshalEnvelope data = Ok e -> decode desc handler e = Ok dm ->
  exists e', UnmarshalEnvelope (dm_canonical dm) = Ok e' /\ Envelope_Metadata e' = Envelope_Metadata e /\
    e_DataEncoding e' = e_DataEncoding e /\ decode desc handler e' = Ok dm.
Proof.
  intros Hcodec Hu Hd. apply UnmarshalEnvelope_ok in Hu as [Hv Htext]. unfold decode in Hd.
  destruct (payload e) as [data0|] eqn:Ep; [|done]. destruct (MarshalEnvelope _ _ _) as [canonical|] eqn:Em; [|done].
  destruct (Decode _ _) as [value|] eqn:Ed; [|done]. apply Ok_inj in Hd as <-. cbn.
  assert (e_DataEncoding e = DataText -> utf8 data0) as Hutf by (by apply payload_text).
  destruct (MarshalEnvelope_ok _ _ _ _ Em Htext Hutf) as (e1 & _ & _ & Hu1 & Hm1 & He1 & Hp1).
  destruct (marshal_canonical _ _ _ _ Em Htext Hutf) as [_ Hcan].
  exists (compacted e1). split_and!; [done..|]. unfold CanonicalizeEnvelope in Hcan. rewrite Hu1, Hp1 in Hcan.
  unfold decode. rewrite Hp1, Hcan, Hm1.
  assert (Decode (d_codec desc) (received (e_DataEncoding e) data0) = Ok value) as ->; [|done].
  unfold received. destruct (Z.eqb_spec (e_DataEncoding e) DataJSON) as [Hj|]; [|done].
  pose proof (payload_valid _ _ Ep Hj). by rewrite valid_nonempty, Hcodec.
Qed.

(** A stored retry record is accepted and decodes to the same message. *)
Lemma retry_decodes `{!EnvelopeJSONLaws} {T} (desc : descriptor T) handler deps info config0 c r control dm attempt p q :
  newConsumer (B := B) (C := C) deps info config0 = Ok c -> codec_reads (d_codec desc) ->
  decodes ToLower parseTime (decode desc handler) c r control dm ->
  is_retry ToLower formatTime parseTime c r control dm attempt p -> stored_as p q ->
  exists notBefore, r_Headers q = controlHeaders formatTime (with_schedule control attempt notBefore) /\
    (notBefore < year_10000 -> decodes ToLower parseTime (decode desc handler) c q (with_schedule control attempt notBefore) dm).
Proof.
  intros (_ & _ & _ & _ & _ & _ & Hsrc & Hret & Hrep & _)%kafka_newConsumer_facts Hcodec (e & (Hc & Hs & Hu & Hdesc & Hkey) & Hdm)
    (Htopic & Hpk & Hpv & notBefore & Hh & Hpos & Hdec) (Q1 & Q2 & Q3 & Q4).
  exists notBefore. rewrite Q4. split; [done|]. intros Hy. specialize (Hdec Hy).
  destruct (decode_canonical _ _ _ _ _ Hcodec Hu Hdm) as (e' & Hu' & Hm & He & Hd'). exists e'. split; [|done].
  assert (r_Topic q <> c_sourceTopic c /\ r_Topic q <> c_replayTopic c /\ existsb (String.eqb (r_Topic q)) (c_retryTopics c) = true)
    as (N1 & N2 & N3).
  { rewrite Forall_forall in Hret. rewrite Q1. destruct (Hret _ Htopic) as [tier Ht]. split_and!.
    - intros Heq. rewrite Heq in Ht. destruct (service_not_source _ _ (Retry tier) _ Ht) as [x Hx].
      apply consumerTopic_spec in Hrep as [Hsource _]. apply validateSourceTopicName_exact in Hsource. congruence.
    - intros Heq. rewrite Heq in Ht. by destruct (service_topic_inj _ _ (Retry tier) _ _ Replay _ Ht Hrep) as (_ & _ & ?).
    - apply existsb_exists. exists (r_Topic p). split; [by apply list_elem_of_In|apply String.eqb_refl]. }
  unfold accepts, control_of, parseControl. apply String.eqb_neq in N1, N2. rewrite N1, N2, N3, Q4, Hdec, Q3, Hpv, Q2, Hpk, Hm.
  split_and!; [done..| |done]. by rewrite (validateEnvelopeDescriptor_same e).
Qed.

(** No dead letter is a retry record. *)
Lemma dead_topic_not_retry deps info config0 c : newConsumer (B := B) (C := C) deps info config0 = Ok c -> c_dlqTopic c ∉ c_retryTopics c.
Proof.
  intros (_ & _ & _ & _ & _ & _ & _ & Hret & _ & Hdlq & _)%kafka_newConsumer_facts Hin. rewrite Forall_forall in Hret.
  destruct (Hret _ Hin) as [tier Ht]. by destruct (service_topic_inj _ _ (Retry tier) _ _ KafkaTopic.DLQ _ Ht Hdlq) as (_ & _ & ?).
Qed.

(** A record says one thing. *)
Lemma decodes_functional decoder c r control1 (dm1 : decodedMessage B C) control2 dm2 :
  decodes ToLower parseTime decoder c r control1 dm1 -> decodes ToLower parseTime decoder c r control2 dm2 ->
  control1 = control2 /\ dm1 = dm2.
Proof. intros (e1 & (Hc1 & _ & Hu1 & _) & Hd1) (e2 & (Hc2 & _ & Hu2 & _) & Hd2). unfold control_of in *. split; congruence. Qed.

(** C14. A retry is a delivery of the same message.  Whenever the consumer's
    transaction for a record produces a record [p] to a retry topic, the record was
    decoded to a message, and [p], as the broker stores it, is accepted by the
    consumer and decodes to that message with the control metadata of the first
    record but for attempt and schedule, provided the schedule lies before the year
    10000 (RFC 3339 has four-digit years).  Every delivery of the stored record, from
    any tables and whatever fails, then changes the tables only by an attempt, and
    a confirmation, under the Inbox key and fingerprint of the first record. *)
Theorem kafka_retry_same_message `{!EnvelopeJSONLaws} {T} (desc : descriptor T) handler deps info config0 c dv d p tx rest q :
  text_laws -> newConsumer deps info config0 = Ok c -> codec_reads (d_codec desc) -> delivery_ok (decode desc handler) c dv -> db_ok d ->
  visible (w_trace (deliver (decode desc handler) c dv d).1) = EvTx [p] tx :: rest -> r_Topic p ∈ c_retryTopics c -> stored_as p q ->
  exists control dm attempt notBefore,
    decodes ToLower parseTime (decode desc handler) c (dv_record dv) control dm /\
    r_Headers q = controlHeaders formatTime (with_schedule control attempt notBefore) /\
    (notBefore < year_10000 ->
     decodes ToLower parseTime (decode desc handler) c q (with_schedule control attempt notBefore) dm /\
     forall dv' d', dv_record dv' = q -> delivery_ok (decode desc handler) c dv' -> db_ok d' ->
       exists ops, w_db (deliver (decode desc handler) c dv' d').1 = perform_all ops d' /\
         Forall (fun o => o.1 = attempt_op ctx_Err c (dv_ctx dv') (dv_t0 dv') control dm \/ o.1 = confirm_op c control dm) ops).
Proof.
  intros Hl Hc Hcodec Hdv Hd Htx Htopic Hst.
  destruct (kafka_deliver_outcome _ _ _ _ _ dv d Hl Hc Hdv Hd) as (err & _ & _ & _ & _ & Hset). rewrite Htx in Hset.
  destruct Hset as (_ & [([=] & _)|[(p' & ? & [= <-] & _ & Hdead & _)|(p' & control & dm & attempt & [= <-] & Hdm & Hr)]] & _).
  { rewrite Hdead in Htopic. by apply dead_topic_not_retry in Hc. }
  destruct (retry_decodes _ _ _ _ _ _ _ _ _ _ _ _ Hc Hcodec Hdm Hr Hst) as (notBefore & Hh & Hq).
  exists control, dm, attempt, notBefore. split_and!; [done..|]. intros Hy. specialize (Hq Hy). split; [done|].
  intros dv' d' <- Hdv' Hd'. destruct (kafka_deliver_outcome _ _ _ _ _ dv' d' Hl Hc Hdv' Hd') as (err' & _ & ops & Hops & Hrec & _).
  exists ops. split; [done|]. destruct Hrec as [->|(control2 & dm2 & Hdm2 & Hrec)]; [constructor|].
  destruct (decodes_functional _ _ _ _ _ _ _ Hq Hdm2) as [<- <-]. destruct Hrec as [-> | ->]; repeat (apply Forall_cons_2; [by (left + right)|]); constructor.
Qed.
End Theorems.
End KafkaDelivery.
