(* ===== verification/KafkaReplay.v ===== *)
(** * From a Kafka route to the consumer, and back from a dead letter

    What a route publishes is what the consumer of the descriptor handles, and a
    dead letter can be replayed: its original is accepted by the replay checks of
    the transport and by the consumer, as the same message of a new generation. *)
From S2P Require Import Prelude GoStrings GoText Digest Errors Ident Batch Envelope EnvelopeProofs Inbox InboxSQL InboxSpec InboxEffects InboxStore Middleware Delivery Route KafkaTopic KafkaControl KafkaTransport KafkaConsumer KafkaDelivery.
From Stdlib Require Import Ascii.
Import Stdlib.Strings.String.
Import Sha256 Base64 Delivery Envelope EnvelopeProofs Route KafkaTopic KafkaControl KafkaDLQ KafkaTransport KafkaConsumer KafkaDelivery.
Open Scope string_scope.
Open Scope Z_scope.

Module KafkaReplay.

(** ** Text without spaces at its ends *)
Definition no_seq (a : ascii) (seqs : list (list ascii)) : bool :=
  forallb (fun p => match p with c :: _ => negb (Ascii.eqb c a) | [] => false end) seqs.

Lemma trim_left_stop fuel seqs a l : no_seq a seqs = true -> trim_left fuel seqs (a :: l) = a :: l.
Proof.
  intros Hn. destruct fuel as [|n]; [done|]. cbn [trim_left].
  assert (first_some (List.map (fun p => strip_prefix p (a :: l)) seqs) = None) as ->; [|done].
  unfold no_seq in Hn. induction seqs as [|p seqs IH]; [done|]. cbn in Hn |- *. apply andb_true_iff in Hn as [Hp Hs].
  destruct p as [|c p]; [done|]. cbn. apply negb_true_iff in Hp. rewrite Hp. by apply IH.
Qed.

Lemma TrimSpace_ends a l b : no_seq a space_seqs = true -> no_seq b (List.map reverse space_seqs) = true ->
  TrimSpace (of_bytes (a :: l ++ [b])%list) = of_bytes (a :: l ++ [b])%list.
Proof.
  intros Ha Hb. unfold TrimSpace, trim_bytes. rewrite bytes_of_bytes, trim_left_stop by done. f_equal.
  assert (reverse (a :: l ++ [b])%list = b :: reverse (a :: l)) as E by (rewrite app_comm_cons; apply reverse_snoc).
  by rewrite E, trim_left_stop, <- E, reverse_involutive.
Qed.

Lemma hex_digit_no_space z : 0 <= z < 16 -> no_seq (hex_digit z) (List.map reverse space_seqs) = true.
Proof.
  intros Hz. assert (z ∈ seqZ 0 16) as Hin by (apply elem_of_seqZ; lia). clear Hz. revert z Hin.
  apply Forall_forall. repeat constructor; vm_compute; reflexivity.
Qed.

(** The generation of a replay. *)
Lemma replayID_text digest : String.length digest = 32%nat ->
  let id := replayIDPrefix ++ hex digest in TrimSpace id = id /\ len id <= 128 /\ String.prefix replayIDPrefix id = true.
Proof.
  intros Hd id.
  assert (exists l c, bytes digest = (l ++ [c])%list) as (l & c & Hl).
  { destruct (bytes digest) as [|x y] eqn:E using rev_ind; [|eauto]. rewrite <- length_bytes, E in Hd. done. }
  assert (bytes id = (bytes replayIDPrefix ++ (bytes digest ≫= hex_byte))%list) as Hid by (unfold id, hex; by rewrite bytes_app, bytes_of_bytes).
  assert (exists mid, id = of_bytes ("g"%char :: mid ++ [hex_digit (byteZ c mod 16)])%list) as [mid Hm].
  { exists (bytes "m-replay-" ++ (l ≫= hex_byte) ++ [hex_digit (byteZ c / 16)])%list. apply bytes_inj.
    rewrite bytes_of_bytes, Hid, Hl, bind_app, <- !app_assoc. done. }
  split_and!.
  - rewrite Hm. apply TrimSpace_ends; [vm_compute; reflexivity|]. apply hex_digit_no_space. apply Z.mod_pos_bound. lia.
  - unfold len. rewrite <- length_bytes, Hid, length_app, length_hex. rewrite <- length_bytes in Hd. rewrite Hd. vm_compute. discriminate.
  - unfold id. generalize (hex digest). intros s. vm_compute. by destruct s.
Qed.

(** ** Names *)
Lemma matches_same info kind name version contentType schema : matches_info info kind name version contentType schema = true ->
  di_Kind info = kind /\ di_Name info = name /\ di_SchemaVersion info = version.
Proof. unfold matches_info. intros Hm. bool_simpl. split_and!; first [lia|by apply String.eqb_eq|symmetry; by apply String.eqb_eq]. Qed.

Lemma Topic_same ns info kind name version : di_Kind info = kind -> di_Name info = name -> di_SchemaVersion info = version ->
  Topic ns (descriptor_of kind name version) = Topic ns info.
Proof. intros <- <- <-. done. Qed.

Lemma validated_info e info : validateEnvelopeDescriptor e info = None ->
  di_Kind info = e_Kind e /\ di_Name info = e_Name e /\ di_SchemaVersion info = e_SchemaVersion e.
Proof.
  unfold validateEnvelopeDescriptor. destruct (matches_info _ _ _ _ _ _) eqn:E; [|done]. intros _. by eapply matches_same.
Qed.

Section Laws.
Context `{!EnvelopeJSON, !EnvelopeJSONLaws}.

Lemma canonical_again data canonical : CanonicalizeEnvelope data = Ok canonical -> CanonicalizeEnvelope canonical = Ok canonical.
Proof.
  intros (e & p & Hu & Hv & Hp & _ & Hm)%canonicalize_ok. apply UnmarshalEnvelope_ok in Hu as [_ Ht].
  eapply (marshal_canonical _ _ _ _ Hm Ht). intros He. eapply payload_text; [|exact He]. unfold received. by rewrite He.
Qed.

Section Consumer.
Context {B C T : Type}.
Context (ToLower : string -> string) (formatTime : Time -> string) (parseTime : string -> option Time).
Context (json_Marshal : DLQRecord -> result error string).
Context (desc : descriptor T) (handler : Message T -> C -> B -> B * Middleware.flow).
Context (deps : bool) (info : DescriptorInfo) (config0 : HandlerConfig B C) (c : Consumer B C).
Hypothesis Hc : newConsumer deps info config0 = Ok c.
Abbreviation decodes := (decodes ToLower parseTime (decode desc handler) c).

(** The bytes a decoded message is processed under are the canonical ones. *)
Lemma decode_bytes e data dm : UnmarshalEnvelope data = Ok e -> decode desc handler e = Ok dm ->
  CanonicalizeEnvelope data = Ok (dm_canonical dm) /\ dm_metadata dm = Envelope_Metadata e.
Proof.
  intros Hu Hd. unfold decode in Hd. unfold CanonicalizeEnvelope. rewrite Hu.
  destruct (payload e) as [p|]; [|done]. destruct (MarshalEnvelope _ _ _) as [canonical|] eqn:Em; [|done].
  destruct (Decode _ _) as [value|]; [|done]. by apply Ok_inj in Hd as <-.
Qed.

(** ** From the route to the handler *)
Lemma source_accepts r m native e q : kr_namespace r = kc_Namespace (c_config c) -> UnmarshalEnvelope native = Ok e ->
  Envelope_Metadata e = m -> validateEnvelopeDescriptor e info = None ->
  routeTopic r m = Ok (c_sourceTopic c) /\
  (stored_as (newRouteRecord (c_sourceTopic c) m native) q -> accepts ToLower parseTime c q (sourceControl q) e).
Proof.
  intros Hns Hu <- Hv. destruct (kafka_newConsumer_facts _ _ _ _ Hc) as (_ & Hinfo & _ & _ & _ & _ & Htopic & _).
  destruct (validated_info _ _ Hv) as (Hk & Hn & Hs). split.
  - unfold routeTopic. rewrite Hns. cbn. by rewrite (Topic_same _ info).
  - intros (Q1 & Q2 & Q3 & Q4). cbn in Q1, Q2, Q3, Q4. unfold accepts, control_of, parseControl, validateRecordKey.
    rewrite Q1, Q2, Q3, Q4, String.eqb_refl, Hinfo, String.eqb_refl. by split_and!.
Qed.

(** C38. A typed message that a Kafka route publishes is the message the consumer of
    its descriptor hands to the handler, under these conditions: route and consumer
    have the same namespace; the metadata is UTF-8 text with well-formed identifiers
    (JSON would replace other bytes, and the key of the record would then differ from
    the key in the envelope); the descriptor's data encoding is the one of its codec;
    and the codec decodes what it encoded, into UTF-8 text for the text encoding.
    Then the route and the consumer agree on the topic, and a record stored by the
    broker is accepted and decoded to the same metadata and value, with the canonical
    bytes the route sent. *)
Theorem kafka_end_to_end r m value native : kr_namespace r = kc_Namespace (c_config c) -> d_info desc = info ->
  encodeTypedEnvelope desc m value = Ok native -> metadata_text m ->
  di_DataEncoding (d_info desc) = Encoding (d_codec desc) ->
  (forall data, Encode (d_codec desc) value = Ok data ->
     Decode (d_codec desc) (received (Encoding (d_codec desc)) data) = Ok value /\
     (Encoding (d_codec desc) = DataText -> utf8 data)) ->
  routeTopic r m = Ok (c_sourceTopic c) /\
  forall q, stored_as (newRouteRecord (c_sourceTopic c) m native) q ->
    exists dm, decodes q (sourceControl q) dm /\ dm_metadata dm = m /\ dm_canonical dm = native /\
      dm_handle dm = handler {| m_Metadata := m; m_Payload := value |}.
Proof.
  unfold encodeTypedEnvelope. intros Hns Hdi Hs Hm Hd Hcodec. case_in Hs; [done|]. bool_simpl.
  destruct (Encode _ value) as [data|] eqn:Ee; [|done]. destruct (Hcodec _ eq_refl) as [Hdec Ht].
  destruct (marshal_canonical _ _ _ _ Hs Hm Ht) as [_ Hcan].
  destruct (MarshalEnvelope_ok _ _ _ _ Hs Hm Ht) as (e & _ & _ & Hu & He & Hen & Hp).
  assert (validateEnvelopeDescriptor (compacted e) info = None) as Hv.
  { unfold validateEnvelopeDescriptor. rewrite <- Hdi. rewrite <- He in Heqb. cbn in Heqb |- *. rewrite Heqb, Hen, Hd, Z.eqb_refl. done. }
  destruct (source_accepts r m native (compacted e) {| r_Topic := ""; r_Partition := 0; r_Offset := 0; r_LeaderEpoch := 0; r_Key := ""; r_Value := ""; r_Headers := []; r_Timestamp := 0 |} Hns Hu He Hv) as [Htopic _].
  split; [done|]. intros q Hq. destruct (source_accepts r m native (compacted e) q Hns Hu He Hv) as [_ Hacc].
  unfold CanonicalizeEnvelope in Hcan. rewrite Hu, Hp in Hcan.
  eexists. split; [exists (compacted e); split; [by apply Hacc|]|].
  - unfold decode. rewrite Hp, Hcan. cbn [e_DataEncoding compacted]. rewrite Hdec. reflexivity.
  - cbn. by rewrite He.
Qed.

(** ** From the dead letter to the consumer *)
Hypothesis Hlaws : text_laws ToLower formatTime parseTime.

Lemma canonicalEnvelope_ok data canonical e e' : CanonicalizeEnvelope data = Ok canonical -> UnmarshalEnvelope data = Ok e ->
  UnmarshalEnvelope canonical = Ok e' -> canonicalEnvelope data = Ok (Envelope_Metadata e', canonical).
Proof. intros H1 _ H2. unfold canonicalEnvelope. by rewrite H1, H2. Qed.

Lemma replay_trim source id : trim_suffix (trim_prefix (bytes (source ++ serviceMarker ++ id ++ "." ++ "replay")) (bytes (source ++ serviceMarker))) (bytes ".replay") = bytes id.
Proof.
  unfold trim_prefix. assert (bytes (source ++ serviceMarker ++ id ++ "." ++ "replay") = (bytes (source ++ serviceMarker) ++ bytes id ++ bytes ".replay")%list) as ->.
  { rewrite !bytes_app, <- !app_assoc. done. }
  rewrite strip_prefix_app. cbn [default]. unfold trim_suffix. by rewrite (proj2 (cut_suffix_Some _ _ (bytes id))).
Qed.

Lemma replay_marks source id : let topic := source ++ serviceMarker ++ id ++ "." ++ "replay" in
  bool_decide (is_Some (strip_prefix (bytes (source ++ serviceMarker)) (bytes topic))) = true /\
  bool_decide (is_Some (cut_suffix (bytes topic) (bytes ".replay"))) = true.
Proof.
  split; apply bool_decide_eq_true.
  - exists (bytes (id ++ "." ++ "replay")). apply strip_prefix_Some. rewrite !bytes_app, <- !app_assoc. done.
  - exists (bytes (source ++ serviceMarker ++ id)). apply cut_suffix_Some. rewrite !bytes_app, <- !app_assoc. done.
Qed.

Lemma replay_headers d plan digest : rp_ReplayID plan = replayIDPrefix ++ hex digest -> String.length digest = 32%nat ->
  validateTopicName (kd_SourceTopic d) = None -> 0 <= kd_SourcePartition d < 2 ^ 31 -> 0 <= kd_SourceOffset d <= maxInt64 ->
  decodeControlHeaders ToLower parseTime (controlHeaders formatTime (replayControl d plan)) = Ok (replayControl d plan) /\
  String.prefix replayIDPrefix (rp_ReplayID plan) = true.
Proof.
  intros Hid Hd Ht Hp Ho. destruct (replayID_text digest Hd) as (Htrim & Hlen & Hprefix). rewrite <- Hid in *. split; [|done].
  destruct Hlaws as [L1 L2]. apply (control_decode_encode _ formatTime); [done|done| |by vm_compute]. unfold control_wf. cbn. split_and!; try done; lia.
Qed.

(** The checks of the transport on the record of a plan. *)
Lemma replay_checked d plan key value metadata canonical :
  decodeControlHeaders ToLower parseTime (controlHeaders formatTime (replayControl d plan)) = Ok (replayControl d plan) ->
  String.prefix replayIDPrefix (rp_ReplayID plan) = true -> ReplayTopic (kd_SourceTopic d) (kd_ConsumerID d) = Ok (rp_Topic plan) ->
  DecodeString (kd_RecordKeyBase64 d) = Some key -> DecodeString (kd_OriginalBase64 d) = Some value ->
  canonicalEnvelope value = Ok (metadata, canonical) -> sourceTopicMatchesMetadata (kd_SourceTopic d) metadata = None ->
  validateRecordKey key metadata = None ->
  validateProtectedReplayRecord ToLower parseTime (replayRecord formatTime d plan) = Ok canonical.
Proof.
  intros Hheaders Hprefix Hreplay Hk64 Ho64 Hce Hmatch Hkey.
  assert (rp_Topic plan = kd_SourceTopic d ++ serviceMarker ++ kd_ConsumerID d ++ "." ++ "replay") as Et.
  { pose proof Hreplay as Hr. unfold ReplayTopic, consumerTopic in Hr. repeat case_match; try done. by apply Ok_inj in Hr. }
  destruct (replay_marks (kd_SourceTopic d) (kd_ConsumerID d)) as [M1 M2].
  unfold validateProtectedReplayRecord, replayRecord. cbn [r_Headers r_Topic r_Value r_Key]. rewrite Hheaders.
  cbn [replayControl cm_attemptGeneration cm_source sp_topic]. rewrite Hprefix. cbn [negb].
  rewrite Et, M1, M2, replay_trim, of_bytes_bytes, Hreplay, Et, String.eqb_refl, Ho64, Hk64. cbn [default negb orb].
  unfold id. by rewrite Hce, Hmatch, Hkey.
Qed.

(** C36. A dead letter is not the end of a message: for a record that the consumer
    decoded, the dead letter that captured it yields a plan; the record made from
    it passes the replay checks of the transport, which sends the canonical bytes;
    and when the broker has stored it, the consumer accepts it from its replay
    topic and decodes the same message, with the original source position, no
    attempts, and as its attempt generation the digest of the dead letter, so that
    the Inbox counts the attempts of the replay anew. *)
Theorem kafka_replay_same_message rec control dm d data : codec_reads (d_codec desc) ->
  0 <= r_Partition rec < 2 ^ 31 /\ 0 <= r_Offset rec <= maxInt64 ->
  decodes rec control dm -> kafka_captured d (kc_ConsumerID (c_config c)) rec control ->
  kd_MessageID d = "" \/ kd_MessageID d = MessageID_String (md_ID (dm_metadata dm)) -> json_Marshal d = Ok data ->
  exists plan, PlanDLQReplay json_Marshal d = Ok plan /\ rp_Topic plan = c_replayTopic c /\
    rp_ReplayID plan = replayIDPrefix ++ hex (Sum256 data) /\
    validateProtectedReplayRecord ToLower parseTime (replayRecord formatTime d plan) = Ok (dm_canonical dm) /\
    forall q, stored_as (newReplayRecord (replayRecord formatTime d plan) (dm_canonical dm)) q ->
      decodes q (replayControl d plan) dm /\ cm_source (replayControl d plan) = cm_source control /\
      message_key c dm (replayControl d plan) =
        {| k_ConsumerID := kc_ConsumerID (c_config c); k_Source := md_Source (dm_metadata dm); k_MessageID := md_ID (dm_metadata dm);
           k_AttemptGeneration := rp_ReplayID plan |}.
Proof.
  intros Hcodec Hrec (e & (Hctl & Hsrc & Hu & Hdesc & Hkey) & Hdm) (Hvalid & Hid & Ht & Hpart & Hoff & Hgen & Hk64 & Ho64) Hmid Hjson.
  destruct (kafka_newConsumer_facts _ _ _ _ Hc) as (_ & Hinfo & _ & _ & _ & Hname & Htopic & _ & Hreplay & _).
  destruct (decode_canonical _ _ _ _ _ Hcodec Hu Hdm) as (e' & Hu' & Hm & He & Hd').
  destruct (decode_bytes _ _ _ Hu Hdm) as [Hcan Hmeta].
  pose proof (canonicalEnvelope_ok _ _ _ _ Hcan Hu Hu') as Hce. rewrite Hm in Hce.
  rewrite Hinfo in Hdesc. destruct (validated_info _ _ Hdesc) as (Hk & Hn & Hs).
  assert (sourceTopicMatchesMetadata (c_sourceTopic c) (Envelope_Metadata e) = None) as Hmatch.
  { apply sourceTopicMatchesMetadata_spec. exists (kc_Namespace (c_config c)). cbn. by rewrite (Topic_same _ info). }
  assert (recordDigest json_Marshal d = Ok (Sum256 data)) as Hdigest by (unfold recordDigest; by rewrite Hvalid, Hjson).
  rewrite <- Hid in Hreplay. rewrite <- Hsrc, <- Ht in Hreplay, Hmatch.
  set (plan := {| rp_Topic := c_replayTopic c; rp_MessageID := MessageID_String (md_ID (Envelope_Metadata e));
                  rp_InputSHA256 := hex (Sum256 (r_Value rec)); rp_ReplayID := replayIDPrefix ++ hex (Sum256 data) |}).
  exists plan.
  assert (PlanDLQReplay json_Marshal d = Ok plan) as Hplan.
  { unfold PlanDLQReplay, newReplayID. rewrite Hvalid, Ho64, Hce, Hk64, Hkey, Hmatch, Hreplay, Hdigest.
    assert (negb (String.eqb (kd_MessageID d) "") && negb (String.eqb (kd_MessageID d) (MessageID_String (md_ID (Envelope_Metadata e)))) = false) as ->; [|done].
    rewrite Hmeta in Hmid. destruct Hmid as [-> | ->]; [done|]. by rewrite String.eqb_refl, andb_false_r. }
  assert (control_wf control) as (W1 & W2 & W3 & _) by (eapply (control_of_wf ToLower parseTime); [rewrite <- Hname; done|done|exact Hctl]).
  destruct (replay_headers d plan (Sum256 data)) as [Hheaders Hprefix]; [done|apply length_Sum256|by rewrite ?Ht, ?Hpart, ?Hoff..|].
  split_and!; [done|done|done|by eapply replay_checked|].
  - intros q (Q1 & Q2 & Q3 & Q4). cbn [newReplayRecord replayRecord r_Topic r_Key r_Value r_Headers rp_Topic plan] in Q1, Q2, Q3, Q4.
    rewrite Hk64 in Q2. cbn [default] in Q2. unfold id in Q2. split_and!.
    + exists e'. split; [|done]. unfold accepts, control_of, parseControl.
      assert (c_replayTopic c <> c_sourceTopic c) as Hne%String.eqb_neq.
      { intros Heq. assert (ReplayTopic (kd_SourceTopic d) (kd_ConsumerID d) = Ok (c_replayTopic c)) as Hr by exact Hreplay.
        destruct (service_not_source _ _ Replay _ Hr) as [x Hx]. unfold ReplayTopic in Hr. apply consumerTopic_spec in Hr as [Hso _].
        apply validateSourceTopicName_exact in Hso. rewrite Heq, <- Hsrc, <- Ht in Hx. congruence. }
      rewrite Q1, Hne, String.eqb_refl, Q4, Hheaders. cbn [replayControl cm_attemptGeneration]. rewrite Hprefix, Q3, Q2, Hinfo, Hm. cbn.
      split_and!; [done|by rewrite Ht, Hsrc|done|by rewrite (validateEnvelopeDescriptor_same e)|done].
    + cbn. rewrite Ht, Hpart, Hoff. by destruct (cm_source control).
    + done.
Qed.
End Consumer.
End Laws.
End KafkaReplay.
