(* ===== verification/KafkaScheduler.v ===== *)
(** * Deferred retry partitions

    Models [adapters/kafka/retry_scheduler.go]: a binary heap of deferred
    partitions by deadline ([container/heap] with the element's own index kept up
    to date), the map from partitions to heap elements, the set of pauses the
    worker owns, and the check that a partition was rewound.

    A heap element is a shared object: the map and the slice hold the same
    pointer.  There is one object per partition, so the slice holds partitions and
    the map holds the object's fields.  An access outside the slice panics: the
    heap operations return an option. *)
From S2P Require Import Prelude GoStrings Errors Delivery KafkaControl.
From stdpp Require Import sorting.
Import Stdlib.Strings.String.
Import Delivery KafkaControl.
Open Scope string_scope.
Open Scope Z_scope.

Module KafkaScheduler.

Record topicPartition := { tp_topic : string; tp_partition : Z }.
#[global] Instance topicPartition_eq_dec : EqDecision topicPartition.
Proof. solve_decision. Defined.
#[global] Instance topicPartition_countable : Countable topicPartition.
Proof.
  refine (inj_countable' (fun p => (tp_topic p, tp_partition p)) (fun p => {| tp_topic := p.1; tp_partition := p.2 |}) _).
  by intros [].
Defined.

Record deferredPartition := { dp_deadline : Time; dp_index : nat }.

(** ** The heap *)
Record heap := { h_slice : list topicPartition; h_items : gmap topicPartition deferredPartition }.

Definition set_index (i : nat) (x : deferredPartition) : deferredPartition := {| dp_deadline := dp_deadline x; dp_index := i |}.

Definition Less (h : heap) (left right : nat) : option bool :=
  match h_slice h !! left, h_slice h !! right with
  | Some p, Some q =>
      match h_items h !! p, h_items h !! q with
      | Some x, Some y => Some (dp_deadline x <? dp_deadline y)
      | _, _ => None
      end
  | _, _ => None
  end.

Definition Swap (h : heap) (left right : nat) : option heap :=
  match h_slice h !! left, h_slice h !! right with
  | Some p, Some q =>
      Some {| h_slice := <[right := p]> (<[left := q]> (h_slice h));
              h_items := alter (set_index right) p (alter (set_index left) q (h_items h)) |}
  | _, _ => None
  end.

(** [heap.up]; [fuel] bounds the steps, the index is halved in each. *)
Fixpoint up (fuel : nat) (h : heap) (j : nat) : option heap :=
  match fuel with
  | O => None
  | S fuel =>
      let i := ((j - 1) / 2)%nat in
      if (i =? j)%nat then Some h
      else match Less h j i with
      | None => None
      | Some false => Some h
      | Some true => match Swap h i j with None => None | Some h => up fuel h i end
      end
  end.

(** [heap.down] on the first [n] elements, with the index it ends at. *)
Fixpoint down (fuel : nat) (h : heap) (i n : nat) : option (heap * nat) :=
  match fuel with
  | O => None
  | S fuel =>
      let j1 := (2 * i + 1)%nat in
      if (n <=? j1)%nat then Some (h, i)
      else
        match (if (j1 + 1 <? n)%nat then Less h (j1 + 1) j1 else Some false) with
        | None => None
        | Some smaller =>
            let j := if smaller then (j1 + 1)%nat else j1 in
            match Less h j i with
            | None => None
            | Some false => Some (h, i)
            | Some true => match Swap h i j with None => None | Some h => down fuel h j n end
            end
        end
  end.

Definition heap_Push (h : heap) (p : topicPartition) (deadline : Time) : option heap :=
  let n := List.length (h_slice h) in
  let h := {| h_slice := (h_slice h ++ [p])%list;
              h_items := <[p := {| dp_deadline := deadline; dp_index := n |}]> (h_items h) |} in
  up (S n) h n.

(** The element and the rest; the caller deletes the element from the map. *)
Definition heap_Pop (h : heap) : option (topicPartition * heap) :=
  let n := (List.length (h_slice h) - 1)%nat in
  match Swap h 0 n with
  | None => None
  | Some h =>
      match down (S n) h 0 n with
      | None => None
      | Some (h, _) =>
          match h_slice h !! n with
          | None => None
          | Some p => Some (p, {| h_slice := take n (h_slice h); h_items := h_items h |})
          end
      end
  end.

Definition heap_Fix (h : heap) (i : nat) : option heap :=
  let n := List.length (h_slice h) in
  match down (S n) h i n with
  | None => None
  | Some (h, i') => if (i <? i')%nat then Some h else up (S i) h i
  end.

(** ** The scheduler *)
Record scheduler := { s_heap : heap; s_ownedPause : gset topicPartition }.
Definition newRetryPartitionScheduler : scheduler :=
  {| s_heap := {| h_slice := []; h_items := ∅ |}; s_ownedPause := ∅ |}.

Definition set_deadline (t : Time) (x : deferredPartition) : deferredPartition := {| dp_deadline := t; dp_index := dp_index x |}.

Definition schedule (s : scheduler) (p : topicPartition) (deadline : Time) (ownsPause : bool) : option scheduler :=
  let h := s_heap s in
  let h' := match h_items h !! p with
            | Some item =>
                heap_Fix {| h_slice := h_slice h; h_items := alter (set_deadline deadline) p (h_items h) |} (dp_index item)
            | None => heap_Push h p deadline
            end in
  match h' with
  | None => None
  | Some h => Some {| s_heap := h; s_ownedPause := if ownsPause then {[p]} ∪ s_ownedPause s else s_ownedPause s |}
  end.

Definition pollTimeout (s : scheduler) (now : Time) (maximum : Duration) : option Duration :=
  match h_slice (s_heap s) with
  | [] => Some maximum
  | p :: _ =>
      match h_items (s_heap s) !! p with
      | None => None
      | Some x => Some (Z.min maximum (Z.max 0 (Sub (dp_deadline x) now)))
      end
  end.

Definition add_resume (p : topicPartition) (resume : gmap string (list Z)) : gmap string (list Z) :=
  <[tp_topic p := (default [] (resume !! tp_topic p) ++ [tp_partition p])%list]> resume.

(** The loop of [releaseDue]; [fuel] bounds the elements. *)
Fixpoint release (fuel : nat) (now : Time) (s : scheduler) (resume : gmap string (list Z))
  : option (scheduler * gmap string (list Z)) :=
  match h_slice (s_heap s) with
  | [] => Some (s, resume)
  | p :: _ =>
      match h_items (s_heap s) !! p with
      | None => None
      | Some x =>
          if After (dp_deadline x) now then Some (s, resume)
          else match fuel with
          | O => None
          | S fuel =>
              match heap_Pop (s_heap s) with
              | None => None
              | Some (item, h) =>
                  let h := {| h_slice := h_slice h; h_items := delete item (h_items h) |} in
                  if decide (item ∈ s_ownedPause s)
                  then release fuel now {| s_heap := h; s_ownedPause := s_ownedPause s ∖ {[item]} |} (add_resume item resume)
                  else release fuel now {| s_heap := h; s_ownedPause := s_ownedPause s |} resume
              end
          end
      end
  end.

Definition releaseDue (s : scheduler) (now : Time) : option (scheduler * gmap string (list Z)) :=
  match release (List.length (h_slice (s_heap s))) now s ∅ with
  | None => None
  | Some (s, resume) => Some (s, merge_sort Z.le <$> resume)
  end.

(** ** The rewind of a deferred partition *)
Record EpochOffset := { eo_Epoch : Z; eo_Offset : Z }.
#[global] Instance EpochOffset_eq_dec : EqDecision EpochOffset.
Proof. solve_decision. Defined.

(** [retryPartitionSession]: the client's operations on its own state. *)
Class retryPartitionSession (S : Type) := {
  AllowRebalance : S -> S;
  PauseFetchPartitions : gmap string (list Z) -> S -> S * gmap string (list Z);
  ResumeFetchPartitions : gmap string (list Z) -> S -> S;
  SetOffsets : gmap string (gmap Z EpochOffset) -> S -> S;
  CommittedOffsets : S -> gmap string (gmap Z EpochOffset);
  UncommittedOffsets : S -> gmap string (gmap Z EpochOffset) }.

Definition containsPartition (paused : gmap string (list Z)) (p : topicPartition) : bool :=
  existsb (fun candidate => candidate =? tp_partition p) (default [] (paused !! tp_topic p)).

Definition pauseAndRewindRetryPartition {S} `{!retryPartitionSession S} (session : S) (r : record)
  : S * (topicPartition * bool * option error) :=
  let partition := {| tp_topic := r_Topic r; tp_partition := r_Partition r |} in
  let '(session, previouslyPaused) := PauseFetchPartitions ∅ session in
  let ownedPause := negb (containsPartition previouslyPaused partition) in
  let '(session, _) := PauseFetchPartitions {[r_Topic r := [r_Partition r]]} session in
  let want := {| eo_Epoch := r_LeaderEpoch r; eo_Offset := r_Offset r |} in
  let session := SetOffsets {[r_Topic r := {[r_Partition r := want]}]} session in
  let committed := CommittedOffsets session !! r_Topic r ≫= (.!! r_Partition r) in
  let uncommitted := UncommittedOffsets session !! r_Topic r ≫= (.!! r_Partition r) in
  if negb (bool_decide (committed = Some want)) || negb (bool_decide (uncommitted = None \/ uncommitted = Some want))
  then (session, (partition, ownedPause,
         Some (wrapS ErrRetryOffsetRewindNotConfirmed "want and got offsets")))
  else (session, (partition, ownedPause, None)).

(** ** The abstract scheduler: a map of deadlines *)
Record deadlines := { a_deadlines : gmap topicPartition Time; a_owned : gset topicPartition }.

Definition spec_schedule (a : deadlines) (p : topicPartition) (t : Time) (ownsPause : bool) : deadlines :=
  {| a_deadlines := <[p := t]> (a_deadlines a); a_owned := if ownsPause then {[p]} ∪ a_owned a else a_owned a |}.

Definition due (now : Time) (a : deadlines) : gset topicPartition :=
  dom (filter (fun q => q.2 <= now) (a_deadlines a)).

(** The partitions of a topic, in order. *)
Definition partitions_of (topic : string) (ps : gset topicPartition) : list Z :=
  merge_sort Z.le (List.map tp_partition (filter (fun p => tp_topic p = topic) (elements ps))).

Definition spec_release (a : deadlines) (now : Time) : deadlines :=
  {| a_deadlines := filter (fun q => now < q.2) (a_deadlines a); a_owned := a_owned a ∖ due now a |}.
Definition spec_resume (a : deadlines) (now : Time) : gmap string (list Z) :=
  let ps := due now a ∩ a_owned a in
  list_to_map (List.map (fun topic => (topic, partitions_of topic ps)) (elements (set_map (D := gset string) tp_topic ps))).

Definition earliest (a : deadlines) : option Time :=
  match List.map snd (map_to_list (a_deadlines a)) with
  | [] => None
  | t :: ts => Some (fold_right Z.min t ts)
  end.
Definition spec_pollTimeout (a : deadlines) (now : Time) (maximum : Duration) : Duration :=
  match earliest a with
  | None => maximum
  | Some t => Z.min maximum (Z.max 0 (Sub t now))
  end.

(** ** Sequences of calls *)
Inductive call : Type :=
| Schedule (p : topicPartition) (t : Time) (ownsPause : bool)
| ReleaseDue (now : Time)
| PollTimeout (now : Time) (maximum : Duration).
Inductive answer : Type :=
| Done
| Resume (partitions : gmap string (list Z))
| Timeout (d : Duration).

Definition perform (c : call) (s : scheduler) : option (scheduler * answer) :=
  match c with
  | Schedule p t o => match schedule s p t o with Some s => Some (s, Done) | None => None end
  | ReleaseDue now => match releaseDue s now with Some (s, r) => Some (s, Resume r) | None => None end
  | PollTimeout now maximum => match pollTimeout s now maximum with Some d => Some (s, Timeout d) | None => None end
  end.
Fixpoint performs (cs : list call) (s : scheduler) : option (list answer) :=
  match cs with
  | [] => Some []
  | c :: cs =>
      match perform c s with
      | None => None
      | Some (s, a) => match performs cs s with Some l => Some (a :: l) | None => None end
      end
  end.

Definition spec_perform (c : call) (a : deadlines) : deadlines * answer :=
  match c with
  | Schedule p t o => (spec_schedule a p t o, Done)
  | ReleaseDue now => (spec_release a now, Resume (spec_resume a now))
  | PollTimeout now maximum => (a, Timeout (spec_pollTimeout a now maximum))
  end.
Fixpoint spec_performs (cs : list call) (a : deadlines) : list answer :=
  match cs with
  | [] => []
  | c :: cs => let '(a, x) := spec_perform c a in x :: spec_performs cs a
  end.
End KafkaScheduler.
