(* ===== verification/KafkaSchedulerProofs.v ===== *)
(** * The retry scheduler is a map of deadlines

    The heap with its index bookkeeping never leaves its slice, keeps the heap
    order and answers every sequence of calls as the map of deadlines does. *)
From S2P Require Import Prelude GoStrings Errors Delivery KafkaControl KafkaScheduler.
From stdpp Require Import sorting.
From Stdlib Require Import ZifyNat.
Import Stdlib.Strings.String.
Import Delivery KafkaScheduler.
Open Scope Z_scope.

Module KafkaSchedulerProofs.
#[local] Ltac Zify.zify_post_hook ::= Z.to_euclidean_division_equations.

(** ** Heap order on keys *)
Definition parent (k : nat) : nat := ((k - 1) / 2)%nat.
Definition ordered (f : nat -> Z) (n : nat) : Prop := forall k, (0 < k < n)%nat -> f (parent k) <= f k.

(** The transposition of two indices. *)
Definition tr (i j k : nat) : nat := if decide (k = i) then j else if decide (k = j) then i else k.

Lemma tr_l i j : tr i j i = j.
Proof. unfold tr. by rewrite decide_True. Qed.
Lemma tr_r i j : tr i j j = i.
Proof. unfold tr. case_decide; [done|]. by rewrite decide_True. Qed.
Lemma tr_other i j k : k <> i -> k <> j -> tr i j k = k.
Proof. intros ? ?. unfold tr. by rewrite !decide_False. Qed.
Lemma parent_lt k : (0 < k)%nat -> (parent k < k)%nat.
Proof. unfold parent. lia. Qed.

Lemma ordered_root f n k : ordered f n -> (k < n)%nat -> f 0%nat <= f k.
Proof.
  intros Ho. induction (lt_wf k) as [k _ IH]. intros Hk. destruct (decide (k = 0%nat)) as [->|Hn]; [lia|].
  assert (parent k < k)%nat as Hp by (unfold parent; lia). pose proof (IH _ Hp ltac:(lia)). pose proof (Ho k ltac:(lia)). lia.
Qed.

(** All edges but the one above [j], and [j]'s children are below its parent. *)
Definition above_open (f : nat -> Z) (n j : nat) : Prop :=
  (forall k, (0 < k < n)%nat -> k <> j -> f (parent k) <= f k) /\
  (forall k, (0 < k < n)%nat -> parent k = j -> (0 < j)%nat -> f (parent j) <= f k).

(** All edges that do not touch [i], and [i]'s children are below its parent. *)
Definition around_open (f : nat -> Z) (n i : nat) : Prop :=
  (forall k, (0 < k < n)%nat -> k <> i -> parent k <> i -> f (parent k) <= f k) /\
  (forall k, (0 < k < n)%nat -> parent k = i -> (0 < i)%nat -> f (parent i) <= f k).

Lemma up_keys f g n j : (0 < j < n)%nat -> above_open f n j -> f j < f (parent j) ->
  (forall k, g k = f (tr (parent j) j k)) -> above_open g n (parent j).
Proof.
  intros Hj [H1 H2] Hlt Hg. pose proof (parent_lt j ltac:(lia)) as Hp. split.
  - intros k Hk Hne. rewrite !Hg. pose proof (parent_lt k ltac:(lia)).
    destruct (decide (k = j)) as [->|Hkj]; [rewrite tr_l, tr_r; lia|]. rewrite (tr_other _ _ k) by done.
    destruct (decide (parent k = parent j)) as [E|Hq].
    { rewrite E, tr_l. pose proof (H1 k Hk Hkj) as H3. rewrite E in H3. lia. }
    destruct (decide (parent k = j)) as [E|Hr]; [rewrite E, tr_r; apply H2; (done || lia)|].
    rewrite tr_other by done. by apply H1.
  - intros k Hk Hpk Hpos. rewrite !Hg. pose proof (parent_lt _ Hpos). pose proof (H1 (parent j) ltac:(lia) ltac:(lia)) as H3.
    rewrite (tr_other _ _ (parent (parent j))) by lia. pose proof (parent_lt k ltac:(lia)).
    destruct (decide (k = j)) as [->|Hkj]; [by rewrite tr_r|]. rewrite tr_other by lia.
    pose proof (H1 k Hk Hkj) as H4. rewrite Hpk in H4. lia.
Qed.

Lemma down_keys f g n i j : (i < n)%nat -> (0 < j < n)%nat -> parent j = i -> around_open f n i -> f j < f i ->
  (forall k, (0 < k < n)%nat -> parent k = i -> f j <= f k) -> (forall k, g k = f (tr i j k)) ->
  around_open g n j /\ g (parent j) <= g j.
Proof.
  intros Hi Hj Hp [H1 H2] Hlt Hmin Hg. pose proof (parent_lt j ltac:(lia)) as Hij. rewrite Hp in Hij. split; [split|].
  - intros k Hk Hne Hpk. rewrite !Hg. pose proof (parent_lt k ltac:(lia)).
    destruct (decide (k = i)) as [->|Hki].
    { rewrite tr_l, tr_other by lia. apply (H2 j); (done || lia). }
    rewrite (tr_other _ _ k) by done. destruct (decide (parent k = i)) as [E|Hq]; [rewrite E, tr_l; by apply Hmin|].
    rewrite tr_other by done. by apply H1.
  - intros k Hk Hpk _. rewrite !Hg, Hp, tr_l. pose proof (parent_lt k ltac:(lia)). rewrite tr_other by lia.
    rewrite <- Hpk. apply H1; lia.
  - rewrite !Hg, Hp, tr_l, tr_r. lia.
Qed.

(** ** The slice and the items agree with the deadlines *)
Abbreviation size_of h := (List.length (h_slice h)).

Record good (D : gmap topicPartition Time) (h : heap) : Prop := {
  g_nodup : NoDup (h_slice h);
  g_item i p : h_slice h !! i = Some p ->
    exists t, D !! p = Some t /\ h_items h !! p = Some {| dp_deadline := t; dp_index := i |};
  g_all p : is_Some (D !! p) -> p ∈ h_slice h;
  g_dom p : is_Some (h_items h !! p) -> p ∈ h_slice h }.

Section Good.
Context (D : gmap topicPartition Time).
Implicit Types h : heap.

Definition key (l : list topicPartition) (i : nat) : Z := match l !! i with Some p => default 0 (D !! p) | None => 0 end.

Lemma slice_at h i : (i < size_of h)%nat -> exists p, h_slice h !! i = Some p.
Proof. apply lookup_lt_is_Some_2. Qed.

Lemma key_at l i p t : l !! i = Some p -> D !! p = Some t -> key l i = t.
Proof. intros Hp Ht. unfold key. rewrite Hp. simpl. by rewrite Ht. Qed.

Lemma Less_good h i j : good D h -> (i < size_of h)%nat -> (j < size_of h)%nat ->
  Less h i j = Some (key (h_slice h) i <? key (h_slice h) j).
Proof.
  intros Hg [p Hp]%slice_at [q Hq]%slice_at. unfold Less. rewrite Hp, Hq.
  destruct (g_item _ _ Hg _ _ Hp) as (t & Ht & ->). destruct (g_item _ _ Hg _ _ Hq) as (u & Hu & ->).
  by rewrite (key_at _ _ _ _ Hp Ht), (key_at _ _ _ _ Hq Hu).
Qed.

Lemma swapped_lookup (l : list topicPartition) i j p q k : l !! i = Some p -> l !! j = Some q ->
  <[j := p]> (<[i := q]> l) !! k = l !! tr i j k.
Proof.
  intros Hp Hq. pose proof (lookup_lt_Some _ _ _ Hp). pose proof (lookup_lt_Some _ _ _ Hq). unfold tr.
  destruct (decide (k = j)) as [->|Hkj].
  - rewrite list_lookup_insert_eq by (rewrite length_insert; lia). case_decide; congruence.
  - rewrite list_lookup_insert_ne by done. destruct (decide (k = i)) as [->|Hki].
    + by rewrite list_lookup_insert_eq.
    + by rewrite list_lookup_insert_ne.
Qed.

Lemma Swap_good h i j : good D h -> (i < size_of h)%nat -> (j < size_of h)%nat ->
  exists h', Swap h i j = Some h' /\ good D h' /\ size_of h' = size_of h /\
    forall k, h_slice h' !! k = h_slice h !! tr i j k.
Proof.
  intros Hg [p Hp]%slice_at [q Hq]%slice_at. unfold Swap. rewrite Hp, Hq. eexists. split; [done|].
  set (l' := <[j := p]> (<[i := q]> (h_slice h))).
  assert (forall k, l' !! k = h_slice h !! tr i j k) as Hl by (intros k; by apply swapped_lookup).
  assert (List.length l' = size_of h) as Hlen by (unfold l'; by rewrite !length_insert).
  assert (forall x, x ∈ l' <-> x ∈ h_slice h) as Hmem.
  { intros x. rewrite !list_elem_of_lookup. split; intros [k Hk].
    - rewrite Hl in Hk. eauto.
    - exists (tr i j k). rewrite Hl. replace (tr i j (tr i j k)) with k; [done|].
      unfold tr. repeat case_decide; congruence. }
  split_and!; [|done|done]. split; cbn; fold l'.
  - apply NoDup_alt. intros a b x Ha Hb. rewrite Hl in Ha, Hb. pose proof (NoDup_lookup _ _ _ _ (g_nodup _ _ Hg) Ha Hb) as E.
    unfold tr in E. repeat case_decide; congruence.
  - intros k x Hk. rewrite Hl in Hk. destruct (g_item _ _ Hg _ _ Hk) as (t & Ht & Hx). exists t. split; [done|].
    assert (forall y m, h_slice h !! m = Some y -> y = x -> m = tr i j k) as Huniq
      by (intros y m Hm ->; exact (NoDup_lookup _ _ _ _ (g_nodup _ _ Hg) Hm Hk)).
    destruct (decide (x = p)) as [->|Hxp].
    + rewrite lookup_alter_eq. destruct (decide (p = q)) as [->|Hpq].
      * rewrite lookup_alter_eq, Hx. cbn. unfold set_index. cbn. repeat f_equal.
        pose proof (Huniq _ _ Hq eq_refl) as E1. pose proof (Huniq _ _ Hp eq_refl) as E2. unfold tr in E1, E2. repeat case_decide; congruence.
      * rewrite lookup_alter_ne, Hx by done. cbn. unfold set_index. cbn. repeat f_equal.
        pose proof (Huniq _ _ Hp eq_refl) as E2. unfold tr in E2. repeat case_decide; congruence.
    + rewrite lookup_alter_ne by done. destruct (decide (x = q)) as [->|Hxq].
      * rewrite lookup_alter_eq, Hx. cbn. unfold set_index. cbn. repeat f_equal.
        pose proof (Huniq _ _ Hq eq_refl) as E2. unfold tr in E2. repeat case_decide; congruence.
      * rewrite lookup_alter_ne, Hx by done. repeat f_equal. unfold tr in *. repeat case_decide; congruence.
  - intros x Hx. apply Hmem. by apply (g_all _ _ Hg).
  - intros x [y Hx]. apply Hmem. apply (g_dom _ _ Hg).
    rewrite lookup_alter_Some in Hx. destruct Hx as [(_ & z & Hz & _)|[_ Hz]];
      rewrite lookup_alter_Some in Hz; destruct Hz as [(_ & z' & Hz' & _)|[_ Hz']]; eauto.
Qed.

Lemma key_swapped h h' i j : (forall k, h_slice h' !! k = h_slice h !! tr i j k) ->
  forall k, key (h_slice h') k = key (h_slice h) (tr i j k).
Proof. intros Hs k. unfold key. by rewrite Hs. Qed.

Lemma up_good fuel h j : (j < fuel)%nat -> good D h -> (j < size_of h)%nat ->
  above_open (key (h_slice h)) (size_of h) j ->
  exists h', up fuel h j = Some h' /\ good D h' /\ size_of h' = size_of h /\ ordered (key (h_slice h')) (size_of h').
Proof.
  revert h j. induction fuel as [|fuel IH]; intros h j Hf Hg Hj Ho; [lia|]. cbn [up]. fold (parent j).
  destruct (Nat.eqb_spec (parent j) j) as [E|Hne].
  { exists h. split_and!; try done. destruct Ho as [H1 _]. intros k Hk. apply H1; [done|]. unfold parent in *. lia. }
  assert (0 < j)%nat as Hpos by (destruct j; [by destruct Hne|lia]). pose proof (parent_lt j Hpos).
  rewrite Less_good by (done || lia). destruct (Z.ltb_spec (key (h_slice h) j) (key (h_slice h) (parent j))) as [Hlt|Hge].
  - destruct (Swap_good h (parent j) j) as (h' & -> & Hg' & Hlen & Hs); [done|lia|done|].
    destruct (IH h' (parent j)) as (h2 & -> & ? & ? & ?); [lia|done|lia| |].
    + rewrite Hlen. eapply up_keys; [|done|done|by apply key_swapped]. lia.
    + exists h2. split_and!; try done. lia.
  - exists h. split_and!; try done. destruct Ho as [H1 _]. intros k Hk. destruct (decide (k = j)) as [->|]; [lia|]. by apply H1.
Qed.

(** The smaller child. *)
Lemma child_good h i n : good D h -> (n <= size_of h)%nat -> (2 * i + 1 < n)%nat ->
  exists smaller, (if (2 * i + 1 + 1 <? n)%nat then Less h (2 * i + 1 + 1) (2 * i + 1) else Some false) = Some smaller /\
    let j := if smaller : bool then (2 * i + 1 + 1)%nat else (2 * i + 1)%nat in
    (0 < j < n)%nat /\ parent j = i /\ forall k, (0 < k < n)%nat -> parent k = i -> key (h_slice h) j <= key (h_slice h) k.
Proof.
  intros Hg Hn Hi.
  assert (forall k, (0 < k < n)%nat -> parent k = i -> k = (2 * i + 1)%nat \/ k = (2 * i + 1 + 1)%nat) as Hch by (unfold parent; lia).
  destruct (Nat.ltb_spec (2 * i + 1 + 1) n) as [H2|H2].
  - rewrite Less_good by (done || lia). eexists. split; [done|]. cbn zeta. destruct (Z.ltb_spec (key (h_slice h) (2 * i + 1 + 1)) (key (h_slice h) (2 * i + 1)));
      (split; [lia|split; [unfold parent; lia|]]); intros k Hk Hp; destruct (Hch k Hk Hp) as [->| ->]; lia.
  - exists false. split; [done|]. cbn zeta. split; [lia|split; [unfold parent; lia|]].
    intros k Hk Hp. destruct (Hch k Hk Hp) as [->| ->]; lia.
Qed.

Lemma down_good fuel h i n : (0 < fuel /\ n < fuel + i)%nat -> good D h -> (n <= size_of h)%nat -> (i < size_of h)%nat ->
  around_open (key (h_slice h)) n i ->
  exists h' i', down fuel h i n = Some (h', i') /\ good D h' /\ size_of h' = size_of h /\
    (forall k, (n <= k)%nat -> h_slice h' !! k = h_slice h !! k) /\
    ((i' = i /\ h' = h /\ forall k, (0 < k < n)%nat -> parent k = i -> key (h_slice h) i <= key (h_slice h) k) \/
     ((i < i')%nat /\ ordered (key (h_slice h')) n)).
Proof.
  revert h i. induction fuel as [|fuel IH]; intros h i Hf Hg Hn Hi Ho.
  { lia. }
  cbn [down]. destruct (Nat.leb_spec n (2 * i + 1)) as [Hend|Hch].
  { exists h, i. split_and!; try done. left. split_and!; try done. intros k Hk Hp. unfold parent in Hp. lia. }
  destruct (child_good h i n Hg Hn Hch) as (smaller & -> & Hj & Hpj & Hmin). set (j := if smaller then _ else _) in *. clearbody j.
  assert (i < j)%nat as Hij by (unfold parent in Hpj; lia).
  rewrite Less_good by (done || lia). destruct (Z.ltb_spec (key (h_slice h) j) (key (h_slice h) i)) as [Hlt|Hge].
  - destruct (Swap_good h i j) as (h1 & -> & Hg1 & Hlen & Hs); [done|lia|lia|].
    destruct (down_keys (key (h_slice h)) (key (h_slice h1)) n i j) as [Ho1 Hc1]; try done; [lia|by apply key_swapped|].
    destruct (IH h1 j) as (h2 & j' & -> & Hg2 & Hlen2 & Hrest & Hcase); [lia|done|lia|lia|done|].
    exists h2, j'. split_and!; [done|done|lia| |right].
    + intros k Hk. rewrite Hrest, Hs, tr_other by (done || lia). done.
    + destruct Hcase as [(-> & -> & Hkids)|[? ?]]; [|split; [lia|done]]. split; [done|].
      intros k Hk. destruct (decide (k = j)) as [->|Hkj]; [done|]. destruct (decide (parent k = j)) as [E|Hpk].
      * rewrite E. by apply Hkids.
      * by apply (proj1 Ho1).
  - exists h, i. split_and!; try done. left. split_and!; try done. intros k Hk Hp. specialize (Hmin k Hk Hp). lia.
Qed.
End Good.

(** A heap over the deadlines. *)
Definition heap_ok (D : gmap topicPartition Time) (h : heap) : Prop := good D h /\ ordered (key D (h_slice h)) (size_of h).

Lemma key_insert_ne D (l : list topicPartition) p t i : l !! i <> Some p -> key (<[p := t]> D) l i = key D l i.
Proof. intros Hn. unfold key. destruct (l !! i) as [q|]; [|done]. rewrite lookup_insert_ne; [done|congruence]. Qed.

Lemma items_None D h p : good D h -> h_items h !! p = None -> D !! p = None /\ p ∉ h_slice h.
Proof.
  intros Hg Hn. assert (p ∉ h_slice h) as Hp.
  { intros [k Hk]%list_elem_of_lookup. destruct (g_item _ _ Hg _ _ Hk) as (t & _ & Ht). congruence. }
  split; [|done]. destruct (D !! p) eqn:E; [|done]. destruct Hp. apply (g_all _ _ Hg). eauto.
Qed.

Lemma Push_ok D h p t : heap_ok D h -> h_items h !! p = None ->
  exists h', heap_Push h p t = Some h' /\ heap_ok (<[p := t]> D) h'.
Proof.
  intros [Hg Ho] Hn. destruct (items_None _ _ _ Hg Hn) as [HD Hp]. unfold heap_Push.
  set (h1 := {| h_slice := _; h_items := _ |}).
  assert (size_of h1 = S (size_of h)) as Hlen by (cbn; rewrite length_app; cbn; lia).
  assert (good (<[p := t]> D) h1) as Hg1.
  { split; cbn.
    - apply NoDup_app. split_and!; [apply (g_nodup _ _ Hg)| |apply NoDup_singleton]. intros x Hx ->%list_elem_of_singleton. done.
    - intros i q [Hq|[Hi Hq]]%lookup_app_Some.
      + assert (p <> q) by (intros ->; by eapply Hp, list_elem_of_lookup_2). rewrite !lookup_insert_ne by done.
        by apply (g_item _ _ Hg).
      + apply list_lookup_singleton_Some in Hq as [Hz <-]. exists t. rewrite !lookup_insert_eq. repeat f_equal. split; [done|]. repeat f_equal. lia.
    - intros x. rewrite lookup_insert_is_Some, elem_of_app. intros [->|[_ Hx]]; [right; by left|left; by apply (g_all _ _ Hg)].
    - intros x. rewrite lookup_insert_is_Some, elem_of_app. intros [->|[_ Hx]]; [right; by left|left; by apply (g_dom _ _ Hg)]. }
  destruct (up_good (<[p := t]> D) (S (size_of h)) h1 (size_of h)) as (h2 & E & Hg2 & _ & Ho2); [lia|done|lia| |by exists h2].
  assert (forall k, (k < size_of h)%nat -> key (<[p := t]> D) (h_slice h1) k = key D (h_slice h) k) as Hkey.
  { intros k Hk. rewrite key_insert_ne.
    - unfold key. cbn. by rewrite lookup_app_l.
    - cbn. rewrite lookup_app_l by done. intros Hk'. by eapply Hp, list_elem_of_lookup_2. }
  rewrite Hlen. split.
  - intros k Hk Hne. pose proof (parent_lt k ltac:(lia)). rewrite !Hkey by lia. apply Ho. lia.
  - intros k Hk Hpk. unfold parent in Hpk. lia.
Qed.

Lemma Fix_ok D h p t x : heap_ok D h -> h_items h !! p = Some x ->
  exists h', heap_Fix {| h_slice := h_slice h; h_items := alter (set_deadline t) p (h_items h) |} (dp_index x) = Some h' /\
    heap_ok (<[p := t]> D) h'.
Proof.
  intros [Hg Ho] Hx. set (h1 := {| h_slice := _; h_items := _ |}). set (i := dp_index x).
  assert (h_slice h !! i = Some p) as Hi.
  { assert (p ∈ h_slice h) as [k Hk]%list_elem_of_lookup by (apply (g_dom _ _ Hg); eauto).
    destruct (g_item _ _ Hg _ _ Hk) as (u & _ & Hu). unfold i. by replace x with {| dp_deadline := u; dp_index := k |} by congruence. }
  pose proof (lookup_lt_Some _ _ _ Hi) as Hlt.
  assert (forall k, h_slice h !! k = Some p -> k = i) as Huniq by (intros k Hk; exact (NoDup_lookup _ _ _ _ (g_nodup _ _ Hg) Hk Hi)).
  assert (good (<[p := t]> D) h1) as Hg1.
  { split; cbn; [apply (g_nodup _ _ Hg)| | |].
    - intros k q Hq. destruct (decide (q = p)) as [->|Hne].
      + exists t. rewrite lookup_insert_eq, lookup_alter_eq, Hx. split; [done|]. cbn. unfold set_deadline. cbn. repeat f_equal. symmetry. by apply Huniq.
      + rewrite lookup_insert_ne, lookup_alter_ne by done. by apply (g_item _ _ Hg).
    - intros q. rewrite lookup_insert_is_Some. intros [<-|[_ Hq]]; [by eapply list_elem_of_lookup_2|by apply (g_all _ _ Hg)].
    - intros q. rewrite lookup_alter_is_Some. apply (g_dom _ _ Hg). }
  assert (forall k, k <> i -> key (<[p := t]> D) (h_slice h1) k = key D (h_slice h) k) as Hkey
    by (intros k Hk; apply key_insert_ne; intros Hk'; by apply Huniq in Hk').
  assert (around_open (key (<[p := t]> D) (h_slice h1)) (size_of h1) i) as Hopen.
  { split; intros k Hk.
    - intros Hki Hpi. rewrite !Hkey by done. by apply Ho.
    - intros Hpk Hpos. pose proof (parent_lt k ltac:(lia)). pose proof (parent_lt i Hpos). rewrite !Hkey by lia.
      pose proof (Ho i ltac:(cbn in Hk; lia)). pose proof (Ho k Hk) as H3. rewrite Hpk in H3. lia. }
  unfold heap_Fix. destruct (down_good (<[p := t]> D) (S (size_of h1)) h1 i (size_of h1)) as (h2 & i' & -> & Hg2 & Hlen & _ & Hcase);
    [lia|done|lia|done|done|].
  destruct Hcase as [(-> & -> & Hkids)|[Hm Ho2]].
  - rewrite Nat.ltb_irrefl. destruct (up_good (<[p := t]> D) (S i) h1 i) as (h3 & -> & Hg3 & _ & Ho3); [lia|done|done| |by exists h3].
    split; [|apply (proj2 Hopen)]. intros k Hk Hki. destruct (decide (parent k = i)) as [E|Hpi]; [rewrite E; by apply Hkids|].
    by apply (proj1 Hopen).
  - apply Nat.ltb_lt in Hm. rewrite Hm. exists h2. split; [done|]. split; [done|]. by rewrite Hlen.
Qed.

Lemma Pop_ok D h p t : heap_ok D h -> h_slice h !! 0%nat = Some p -> D !! p = Some t ->
  exists h', heap_Pop h = Some (p, h') /\
    heap_ok (delete p D) {| h_slice := h_slice h'; h_items := delete p (h_items h') |} /\ S (size_of h') = size_of h.
Proof.
  intros [Hg Ho] H0 Ht. pose proof (lookup_lt_Some _ _ _ H0) as Hpos. unfold heap_Pop. set (n := (size_of h - 1)%nat).
  destruct (Swap_good D h 0 n) as (h1 & -> & Hg1 & Hlen1 & Hs); [done|done|lia|].
  pose proof (key_swapped D _ _ _ _ Hs) as Hkey.
  destruct (down_good D (S n) h1 0 n) as (h2 & i' & -> & Hg2 & Hlen2 & Hrest & Hcase); [lia|done|lia|lia| |].
  { split; [|lia]. intros k Hk Hk0 Hpk. rewrite !Hkey. pose proof (parent_lt k ltac:(lia)). rewrite !tr_other by lia. apply Ho. lia. }
  assert (h_slice h2 !! n = Some p) as Hn by (rewrite Hrest, Hs, tr_r by done; done).
  assert (ordered (key D (h_slice h2)) n) as Ho2.
  { destruct Hcase as [(-> & -> & Hkids)|[_ ?]]; [|done]. intros k Hk. destruct (decide (parent k = 0%nat)) as [E|Hpk].
    - rewrite E. by apply Hkids.
    - rewrite !Hkey. pose proof (parent_lt k ltac:(lia)). rewrite !tr_other by lia. apply Ho. lia. }
  rewrite Hn. eexists. split; [done|]. cbn.
  assert (size_of h2 = S n) as Hlen by lia.
  assert (forall k q, take n (h_slice h2) !! k = Some q -> (k < n)%nat /\ h_slice h2 !! k = Some q /\ q <> p) as Htake.
  { intros k q [Hq Hk]%lookup_take_Some. split_and!; [done|done|]. intros ->.
    pose proof (NoDup_lookup _ _ _ _ (g_nodup _ _ Hg2) Hq Hn). lia. }
  assert (forall q, q ∈ h_slice h2 -> q <> p -> q ∈ take n (h_slice h2)) as Hin.
  { intros q [k Hk]%list_elem_of_lookup Hne. pose proof (lookup_lt_Some _ _ _ Hk).
    assert (k <> n) by (intros ->; congruence). apply list_elem_of_lookup. exists k. rewrite lookup_take_Some. split; [done|lia]. }
  split; [split|rewrite length_take; lia].
  - split; cbn.
    + eapply sublist_NoDup; [apply (g_nodup _ _ Hg2)|apply sublist_take].
    + intros k q Hk. destruct (Htake k q Hk) as (_ & Hq & Hne). rewrite !lookup_delete_ne by done. by apply (g_item _ _ Hg2).
    + intros q. rewrite lookup_delete_is_Some. intros [Hne Hq]. apply Hin; [by apply (g_all _ _ Hg2)|done].
    + intros q. rewrite lookup_delete_is_Some. intros [Hne Hq]. apply Hin; [by apply (g_dom _ _ Hg2)|done].
  - cbn. rewrite length_take, Hlen, Nat.min_l by lia.
    assert (forall k, (k < n)%nat -> key (delete p D) (take n (h_slice h2)) k = key D (h_slice h2) k) as Hk2.
    { intros k Hk. unfold key. rewrite lookup_take_lt by done. destruct (h_slice h2 !! k) as [q|] eqn:Eq; [|done].
      rewrite lookup_delete_ne; [done|]. intros ->. pose proof (NoDup_lookup _ _ _ _ (g_nodup _ _ Hg2) Eq Hn). lia. }
    intros k Hk. pose proof (parent_lt k ltac:(lia)). rewrite !Hk2 by lia. by apply Ho2.
Qed.

(** ** The scheduler *)
Definition rel (a : deadlines) (s : scheduler) : Prop := heap_ok (a_deadlines a) (s_heap s) /\ s_ownedPause s = a_owned a.

Lemma rel_new : rel {| a_deadlines := ∅; a_owned := ∅ |} newRetryPartitionScheduler.
Proof.
  split; [|done]. split.
  - split; cbn; [apply NoDup_nil_2|by intros i p [=]|..]; intros p [x Hx]; by rewrite lookup_empty in Hx.
  - intros k Hk. cbn in Hk. lia.
Qed.

Lemma schedule_ok a s p t o : rel a s -> exists s', schedule s p t o = Some s' /\ rel (spec_schedule a p t o) s'.
Proof.
  intros [Hh Ho]. unfold schedule. destruct (h_items (s_heap s) !! p) as [x|] eqn:Ex.
  - destruct (Fix_ok _ _ p t x Hh Ex) as (h' & -> & Hh'). eexists. split; [done|]. split; [done|]. cbn. by rewrite Ho.
  - destruct (Push_ok _ _ p t Hh Ex) as (h' & -> & Hh'). eexists. split; [done|]. split; [done|]. cbn. by rewrite Ho.
Qed.

(** The root has the least deadline. *)
Lemma root_least D h p : heap_ok D h -> h_slice h !! 0%nat = Some p ->
  exists t, D !! p = Some t /\ h_items h !! p = Some {| dp_deadline := t; dp_index := 0 |} /\
    forall q u, D !! q = Some u -> t <= u.
Proof.
  intros [Hg Ho] H0. destruct (g_item _ _ Hg _ _ H0) as (t & Ht & Hx). exists t. split_and!; [done..|]. intros q u Hu.
  assert (q ∈ h_slice h) as [k Hk]%list_elem_of_lookup by (apply (g_all _ _ Hg); eauto).
  pose proof (ordered_root _ _ k Ho (lookup_lt_Some _ _ _ Hk)) as Hle.
  by rewrite (key_at _ _ _ _ _ H0 Ht), (key_at _ _ _ _ _ Hk Hu) in Hle.
Qed.

Lemma empty_slice D h : good D h -> h_slice h = [] -> D = ∅.
Proof.
  intros Hg Hs. apply map_eq. intros q. rewrite lookup_empty. destruct (D !! q) eqn:E; [|done].
  assert (q ∈ h_slice h) as Hq by (apply (g_all _ _ Hg); eauto). rewrite Hs in Hq. by apply not_elem_of_nil in Hq.
Qed.

Lemma fold_min_spec t ts : let m := fold_right Z.min t ts in (m = t \/ m ∈ ts) /\ m <= t /\ Forall (fun u => m <= u) ts.
Proof.
  induction ts as [|u ts (H1 & H2 & H3)]; cbn; [split_and!; [by left|lia|constructor]|].
  set (m := fold_right Z.min t ts) in *. split_and!.
  - destruct (Z.min_spec u m) as [[_ ->]|[_ ->]]; [right; by left|]. destruct H1; [by left|right; by right].
  - lia.
  - constructor; [lia|]. eapply Forall_impl; [exact H3|]. cbn. lia.
Qed.

Lemma earliest_spec a : 
  match earliest a with
  | None => a_deadlines a = ∅
  | Some t => (exists p, a_deadlines a !! p = Some t) /\ forall q u, a_deadlines a !! q = Some u -> t <= u
  end.
Proof.
  unfold earliest. assert (forall u, u ∈ List.map snd (map_to_list (a_deadlines a)) <-> exists p, a_deadlines a !! p = Some u) as Hin.
  { intros u. rewrite list_elem_of_In, in_map_iff. split.
    - intros ([p u'] & <- & Hp). exists p. by apply elem_of_map_to_list, list_elem_of_In.
    - intros [p Hp]. exists (p, u). split; [done|]. by apply list_elem_of_In, elem_of_map_to_list. }
  destruct (List.map snd (map_to_list (a_deadlines a))) as [|t ts] eqn:E.
  - apply map_eq. intros q. rewrite lookup_empty. destruct (a_deadlines a !! q) as [u|] eqn:Eq; [|done].
    assert (u ∈ ([] : list Time)) as Hu by (apply Hin; eauto). by apply not_elem_of_nil in Hu.
  - destruct (fold_min_spec t ts) as (H1 & H2 & H3). split.
    + apply Hin. destruct H1 as [->|?]; [by left|by right].
    + intros q u Hu. assert (u ∈ t :: ts) as [->|Hts]%elem_of_cons by (apply Hin; eauto); [done|].
      rewrite Forall_forall in H3. by apply H3.
Qed.

Lemma poll_ok a s now maximum : rel a s -> pollTimeout s now maximum = Some (spec_pollTimeout a now maximum).
Proof.
  intros [Hh _]. unfold pollTimeout, spec_pollTimeout. pose proof (earliest_spec a) as He.
  destruct (h_slice (s_heap s)) as [|p l] eqn:Es.
  - rewrite (empty_slice _ _ (proj1 Hh) Es) in He. destruct (earliest a) as [t|]; [|done].
    destruct He as [[p Hp] _]. by rewrite lookup_empty in Hp.
  - destruct (root_least _ _ p Hh) as (t & Ht & -> & Hmin); [by rewrite Es|]. cbn.
    destruct (earliest a) as [e|]; [|by rewrite He, lookup_empty in Ht]. destruct He as [[q Hq] Hle].
    apply Hle in Ht. apply Hmin in Hq. by replace e with t by lia.
Qed.

(** After releasing what is due, the timeout is positive. *)
Lemma poll_after_release a now maximum : 0 < maximum -> 0 < spec_pollTimeout (spec_release a now) now maximum.
Proof.
  intros Hm. unfold spec_pollTimeout. pose proof (earliest_spec (spec_release a now)) as He.
  destruct (earliest _) as [t|]; [|done]. destruct He as [[p Hp] _]. cbn in Hp.
  apply map_lookup_filter_Some in Hp as [_ Hp]. cbn in Hp. unfold Sub, maxInt64. lia.
Qed.

(** ** Releasing *)
Definition listed (topic : string) (ps : gset topicPartition) : list Z :=
  List.map tp_partition (filter (fun p => tp_topic p = topic) (elements ps)).

Lemma listed_add topic p ps : p ∉ ps ->
  listed topic ({[p]} ∪ ps) ≡ₚ ((if decide (tp_topic p = topic) then [tp_partition p] else []) ++ listed topic ps)%list.
Proof.
  intros Hp. unfold listed. rewrite (elements_union_singleton ps p Hp). rewrite filter_cons. by case_decide.
Qed.

Lemma listed_empty topic : listed topic ∅ = [].
Proof. unfold listed. by rewrite elements_empty. Qed.

(** The abstract step of one iteration. *)
Definition drop (p : topicPartition) (a : deadlines) : deadlines :=
  {| a_deadlines := delete p (a_deadlines a); a_owned := a_owned a ∖ {[p]} |}.

Lemma elem_of_due p now a : p ∈ due now a <-> exists t, a_deadlines a !! p = Some t /\ t <= now.
Proof. unfold due. rewrite elem_of_dom. unfold is_Some. setoid_rewrite map_lookup_filter_Some. done. Qed.

Lemma due_drop p t now a : a_deadlines a !! p = Some t -> t <= now -> due now a = {[p]} ∪ due now (drop p a).
Proof.
  intros Hp Ht. apply set_eq. intros q. rewrite elem_of_union, elem_of_singleton, !elem_of_due. cbn.
  destruct (decide (q = p)) as [->|Hne]; [rewrite lookup_delete_eq; naive_solver|].
  rewrite lookup_delete_ne by done. naive_solver.
Qed.

Lemma due_drop_not p now a : p ∉ due now (drop p a).
Proof. rewrite elem_of_due. cbn. rewrite lookup_delete_eq. by intros (t & [=] & _). Qed.

Lemma release_drop p t now a : a_deadlines a !! p = Some t -> t <= now -> spec_release (drop p a) now = spec_release a now.
Proof.
  intros Hp Ht. unfold spec_release. f_equal.
  - cbn. rewrite map_filter_delete, delete_id; [done|]. apply map_lookup_filter_None. right. intros x Hx.
    pose proof (eq_trans (eq_sym Hp) Hx) as [= <-]. cbn. lia.
  - rewrite (due_drop _ _ _ _ Hp Ht). cbn. set_solver.
Qed.

Lemma owned_due_drop p t now a : a_deadlines a !! p = Some t -> t <= now ->
  due now a ∩ a_owned a =
  (if decide (p ∈ a_owned a) then {[p]} else ∅) ∪ (due now (drop p a) ∩ a_owned (drop p a)).
Proof.
  intros Hp Ht. rewrite (due_drop _ _ _ _ Hp Ht). pose proof (due_drop_not p now a). cbn. case_decide; set_solver.
Qed.

(** Nothing is due. *)
Lemma release_idle now a : (forall q u, a_deadlines a !! q = Some u -> now < u) ->
  spec_release a now = a /\ due now a = ∅.
Proof.
  intros Hq. assert (due now a = ∅) as Hd.
  { apply set_eq. intros q. rewrite elem_of_due. split; [intros (t & Ht & ?); apply Hq in Ht; lia|set_solver]. }
  split; [|done]. destruct a as [D O]. unfold spec_release. rewrite Hd. cbn in *. f_equal; [|set_solver].
  apply map_filter_id. intros q u Hu. by eapply Hq.
Qed.

Lemma add_resume_list p resume topic :
  default [] (add_resume p resume !! topic) ≡ₚ
  (default [] (resume !! topic) ++ if decide (tp_topic p = topic) then [tp_partition p] else [])%list.
Proof.
  unfold add_resume. case_decide as E; [subst; by rewrite lookup_insert_eq|]. by rewrite lookup_insert_ne, app_nil_r.
Qed.

Lemma release_ok fuel now a s resume :
  (size_of (s_heap s) <= fuel)%nat -> rel a s -> (forall topic, resume !! topic <> Some []) ->
  exists s' resume', release fuel now s resume = Some (s', resume') /\ rel (spec_release a now) s' /\
    (forall topic, resume' !! topic <> Some []) /\
    forall topic, default [] (resume' !! topic) ≡ₚ (default [] (resume !! topic) ++ listed topic (due now a ∩ a_owned a))%list.
Proof.
  revert a s resume. induction fuel as [|fuel IH]; intros a s resume Hf Hrel Hne; pose proof Hrel as [Hh Ho].
  all: assert ((forall q u, a_deadlines a !! q = Some u -> now < u) -> exists s' resume', Some (s, resume) = Some (s', resume') /\
    rel (spec_release a now) s' /\ (forall topic, resume' !! topic <> Some []) /\
    forall topic, default [] (resume' !! topic) ≡ₚ (default [] (resume !! topic) ++ listed topic (due now a ∩ a_owned a))%list) as Hidle
    by (intros Hq; apply release_idle in Hq as [-> ->]; exists s, resume; split_and!; try done;
        intros topic; by rewrite intersection_empty_l_L, listed_empty, app_nil_r).
  all: cbn [release]; destruct (h_slice (s_heap s)) as [|p l] eqn:Es;
    [apply Hidle; rewrite (empty_slice _ _ (proj1 Hh) Es); intros q u; by rewrite lookup_empty|].
  1: cbn in Hf; lia.
  destruct (root_least _ _ p Hh) as (t & Ht & Hx & Hmin); [by rewrite Es|]. rewrite Hx. cbn [dp_deadline].
  unfold After. destruct (Z.ltb_spec now t) as [Hlt|Hge]; [apply Hidle; intros q u Hu; apply Hmin in Hu; lia|].
  destruct (Pop_ok _ _ p t Hh) as (h' & -> & Hh' & Hlen); [by rewrite Es|done|].
  assert (size_of h' <= fuel)%nat as Hf' by (rewrite Es in Hlen; cbn in Hlen, Hf; lia).
  rewrite <- (release_drop _ _ _ _ Ht Hge).
  assert (forall topic, listed topic (due now a ∩ a_owned a) ≡ₚ
    ((if decide (p ∈ a_owned a) then if decide (tp_topic p = topic) then [tp_partition p] else [] else [])
     ++ listed topic (due now (drop p a) ∩ a_owned (drop p a)))%list) as Hlist.
  { intros topic. rewrite (owned_due_drop _ _ _ _ Ht Hge). case_decide; [|by rewrite union_empty_l_L].
    rewrite listed_add; [done|]. pose proof (due_drop_not p now a). set_solver. }
  rewrite Ho. case_decide as Hown.
  - destruct (IH (drop p a) {| s_heap := {| h_slice := h_slice h'; h_items := delete p (h_items h') |}; s_ownedPause := a_owned a ∖ {[p]} |}
      (add_resume p resume)) as (s' & resume' & E & H1 & H2 & H3); [done|by split| |].
    { intros topic. unfold add_resume. destruct (decide (tp_topic p = topic)) as [<-|Hn]; [rewrite lookup_insert_eq|by rewrite lookup_insert_ne].
      by destruct (default [] (resume !! tp_topic p)). }
    exists s', resume'. split_and!; try done. intros topic. rewrite H3, add_resume_list, Hlist. by rewrite app_assoc.
  - destruct (IH (drop p a) {| s_heap := {| h_slice := h_slice h'; h_items := delete p (h_items h') |}; s_ownedPause := a_owned a |}
      resume) as (s' & resume' & E & H1 & H2 & H3); [done|split; [done|cbn; set_solver]|done|].
    exists s', resume'. split_and!; try done. intros topic. by rewrite H3, Hlist.
Qed.

Lemma sorted_eq (l k : list Z) : l ≡ₚ k -> merge_sort Z.le l = merge_sort Z.le k.
Proof.
  intros Hp. apply (StronglySorted_unique Z.le); [by apply StronglySorted_merge_sort; [intros ????; lia|intros ??; lia]..|].
  by rewrite !merge_sort_Permutation.
Qed.

Lemma listed_nil topic ps : listed topic ps = [] <-> topic ∉ set_map (D := gset string) tp_topic ps.
Proof.
  unfold listed. rewrite elem_of_map. split.
  - intros Hn (p & -> & Hp). apply map_eq_nil in Hn. assert (p ∈ filter (fun q => tp_topic q = tp_topic p) (elements ps)) as Hin.
    { apply list_elem_of_filter. split; [done|]. by apply elem_of_elements. }
    rewrite Hn in Hin. by apply not_elem_of_nil in Hin.
  - intros Hn. destruct (filter _ _) as [|p l] eqn:E; [done|]. exfalso. apply Hn. exists p.
    assert (p ∈ filter (fun q => tp_topic q = topic) (elements ps)) as Hin by (rewrite E; apply elem_of_cons; by left).
    apply list_elem_of_filter in Hin as [? ?]. split; [done|]. by apply elem_of_elements.
Qed.

Lemma spec_resume_at a now topic : spec_resume a now !! topic =
  let l := listed topic (due now a ∩ a_owned a) in match l with [] => None | _ => Some (merge_sort Z.le l) end.
Proof.
  unfold spec_resume, partitions_of. fold (listed topic (due now a ∩ a_owned a)). set (ps := due now a ∩ a_owned a).
  set (f := fun topic => _).
  destruct (decide (topic ∈ set_map (D := gset string) tp_topic ps)) as [Hin|Hout].
  - destruct (listed topic ps) eqn:E; [by apply listed_nil in E|]. rewrite <- E.
    apply elem_of_list_to_map_1; [|apply list_elem_of_fmap; exists topic; split; [done|by apply elem_of_elements]].
    change (NoDup (List.map fst (List.map f (elements (set_map (D := gset string) tp_topic ps))))). rewrite List.map_map. cbn.
    rewrite List.map_id. apply NoDup_elements.
  - rewrite (proj2 (listed_nil topic ps) Hout). apply not_elem_of_list_to_map_1. intros Hin.
    apply list_elem_of_fmap in Hin as ([t l] & -> & Hin). apply list_elem_of_fmap in Hin as (t' & [= -> ->] & Hin).
    by apply elem_of_elements in Hin.
Qed.

Lemma releaseDue_ok a s now : rel a s ->
  exists s', releaseDue s now = Some (s', spec_resume a now) /\ rel (spec_release a now) s'.
Proof.
  intros Hrel. unfold releaseDue.
  destruct (release_ok (size_of (s_heap s)) now a s ∅) as (s' & resume & E & Hr & Hne & Hl); [done|done|intros t; by rewrite lookup_empty|].
  rewrite E. exists s'. split; [|done]. do 2 f_equal. apply map_eq. intros topic.
  rewrite lookup_fmap, spec_resume_at. specialize (Hl topic). rewrite lookup_empty in Hl. cbn in Hl. specialize (Hne topic).
  destruct (resume !! topic) as [l|] eqn:El; cbn in Hl |- *.
  - destruct (listed _ _) eqn:Em; [apply Permutation_nil_r in Hl as ->; done|]. f_equal. by apply sorted_eq.
  - symmetry in Hl. apply Permutation_nil_r in Hl. by rewrite Hl.
Qed.

Lemma scheduler_perform_ok c a s : rel a s ->
  exists s', perform c s = Some (s', (spec_perform c a).2) /\ rel (spec_perform c a).1 s'.
Proof.
  intros Hrel. destruct c as [p t o|now|now maximum]; cbn.
  - destruct (schedule_ok a s p t o Hrel) as (s' & -> & ?). eauto.
  - destruct (releaseDue_ok a s now Hrel) as (s' & -> & ?). eauto.
  - rewrite (poll_ok a s now maximum Hrel). eauto.
Qed.

Lemma scheduler_performs_ok cs : forall a s, rel a s -> performs cs s = Some (spec_performs cs a).
Proof.
  induction cs as [|c cs IH]; intros a s Hrel; [done|]. cbn.
  destruct (scheduler_perform_ok c a s Hrel) as (s' & -> & Hs). destruct (spec_perform c a) as [a' x]. cbn in *. by rewrite (IH _ _ Hs).
Qed.

(** C30. For every sequence of calls the heap operations of the retry scheduler
    stay inside their slice and terminate within their bounds, and the answers are
    those of a map from partitions to deadlines: every partition that is due is
    released, the partitions whose pause the worker owns are resumed in order, and
    the poll timeout is the time to the earliest deadline. *)
Theorem retry_scheduler_refines (cs : list call) :
  performs cs newRetryPartitionScheduler = Some (spec_performs cs {| a_deadlines := ∅; a_owned := ∅ |}).
Proof. apply scheduler_performs_ok, rel_new. Qed.
End KafkaSchedulerProofs.
