(* ===== verification/KafkaWorker.v ===== *)
(** * The worker loop of the Kafka consumer

    Models [runWorkerSession], [pollWorkerRecord] and [deferRetryPartition] of
    [adapters/kafka/consumer.go] and [fetchError] of [adapters/kafka/control.go].
    The session is any implementation of [transactionalConsumerSession]; [prepare]
    and [process] are arguments, as in the code.  What the worker does not control
    in one turn of the loop (the [select], the clock, the contexts) is a [tick];
    a run is a finite sequence of ticks.  The worker keeps a trace of what it does
    to the session.  Module [KafkaWorkerProofs] proves the rebalance protocol and
    the deadlines of the loop. *)
From S2P Require Import Prelude GoStrings Errors Delivery KafkaControl KafkaConsumer KafkaScheduler.
Import Stdlib.Strings.String.
Import Delivery KafkaControl KafkaConsumer KafkaScheduler.
Open Scope string_scope.
Open Scope Z_scope.

Module KafkaWorker.

(** ** The session *)
Record FetchError := { fe_Topic : string; fe_Partition : Z; fe_Err : error }.
Record Fetches := { f_Errors : list FetchError; f_Records : list record }.

Class transactionalConsumerSession (S : Type) := {
  session_retry :: retryPartitionSession S;
  GroupMetadata : S -> string * Z;
  PollRecords : Duration -> Z -> S -> S * Fetches }.       (** the timeout and the largest number of records *)

Definition consumerGroupJoined {S} `{!transactionalConsumerSession S} (session : S) : bool :=
  let '(memberID, generation) := GroupMetadata session in negb (memberID =? "")%string && (0 <=? generation).

Definition fetchError (fetches : Fetches) (pollErr : option sentinel) : option error :=
  let joined := List.map (fun e => Some (EFmt "topic and partition" [fe_Err e]))
    (List.filter (fun e => negb (match pollErr with Some s => errors_is (Some (fe_Err e)) s | None => false end)) (f_Errors fetches)) in
  errors_join joined.

(** ** One turn *)
Inductive selected : Type := CtxDone (err : error) | Draining | Default.
Record tick := {
  tk_select : selected;
  tk_now : Time;
  tk_pollErr : option sentinel;     (** [pollContext.Err()] *)
  tk_drained : bool;                (** [drainRequested] after the poll *)
  tk_ctxErr : option error;         (** [ctx.Err()] after the poll *)
  tk_readyErr : option error }.     (** [ctx.Err()] in [markReady] *)

Inductive wevent : Type :=
| EvTick (now : Time)
| EvResume (partitions : gmap string (list Z))
| EvPoll (timeout : Duration)
| EvAllowRebalance
| EvDeferred (p : topicPartition) (deadline : Time)
| EvProcess (r : record)
| EvReady.

Section Worker.
Context {S : Type} `{!transactionalConsumerSession S}.
(** [prepare] and [process] in the given turn. *)
Context (prepare : nat -> record -> preparedRecord) (process : nat -> S -> record -> preparedRecord -> S * option error).

Record worker := {
  w_scheduler : scheduler;
  w_session : S;
  w_ready : bool;                  (** [ready] is still to be called *)
  w_trace : list wevent }.

Definition log (e : wevent) (w : worker) : worker :=
  {| w_scheduler := w_scheduler w; w_session := w_session w; w_ready := w_ready w; w_trace := (w_trace w ++ [e])%list |}.
Definition set_session (s : S) (w : worker) : worker :=
  {| w_scheduler := w_scheduler w; w_session := s; w_ready := w_ready w; w_trace := w_trace w |}.
Definition set_scheduler (sc : scheduler) (w : worker) : worker :=
  {| w_scheduler := sc; w_session := w_session w; w_ready := w_ready w; w_trace := w_trace w |}.
Definition allow (w : worker) : worker := log EvAllowRebalance (set_session (AllowRebalance (w_session w)) w).

Definition markReady (ctxErr : option error) (w : worker) : worker :=
  if negb (w_ready w) || negb (is_nil ctxErr) || negb (consumerGroupJoined (w_session w)) then w
  else log EvReady {| w_scheduler := w_scheduler w; w_session := w_session w; w_ready := false; w_trace := w_trace w |}.

Inductive workerPoll : Type := Polled (r : option record) | Drained | PollFailed (err : error).

Definition pollWorkerRecord (t : tick) (timeout : Duration) (w : worker) : worker * workerPoll :=
  let '(session, fetches) := PollRecords timeout 1 (w_session w) in
  let w := log (EvPoll timeout) (set_session session w) in
  match fetchError fetches (tk_pollErr t) with
  | Some err => (allow w, PollFailed (EFmt "messenger/kafka: consume" [err]))
  | None =>
      if tk_drained t then (allow w, Drained)
      else match f_Records fetches with
      | r :: _ => (w, Polled (Some r))
      | [] =>
          (allow w, match tk_pollErr t, tk_ctxErr t with
                    | Some s, Some err => if negb (bool_decide (s = DeadlineExceeded)) then PollFailed err else Polled None
                    | _, _ => Polled None
                    end)
      end
  end.

(** An inner [None] is a panic of the scheduler. *)
Definition deferRetryPartition (r : record) (deadline : Time) (w : worker) : option (worker * option error) :=
  let '(session, (partition, ownsPause, err)) := pauseAndRewindRetryPartition (w_session w) r in
  let w := set_session session w in
  match err with
  | Some err => Some (allow w, Some err)
  | None =>
      match schedule (w_scheduler w) partition deadline ownsPause with
      | None => None
      | Some sc => Some (allow (log (EvDeferred partition deadline) (set_scheduler sc w)), None)
      end
  end.

Inductive flow : Type := Continue | Return (err : option error).

Definition turn (n : nat) (t : tick) (w : worker) : option (worker * flow) :=
  match tk_select t with
  | CtxDone err => Some (w, Return (Some err))
  | Draining => Some (w, Return None)
  | Default =>
      let now := tk_now t in
      match releaseDue (w_scheduler w) now with
      | None => None
      | Some (sc, due) =>
          let w := log (EvTick now) (set_scheduler sc w) in
          let w := if decide (due = ∅) then w
                   else log (EvResume due) (set_session (ResumeFetchPartitions due (w_session w)) w) in
          match pollTimeout (w_scheduler w) now Second with
          | None => None
          | Some timeout =>
              if timeout <=? 0 then Some (w, Continue)
              else
                let '(w, poll) := pollWorkerRecord t timeout w in
                match poll with
                | PollFailed err => Some (w, Return (Some err))
                | Drained => Some (w, Return None)
                | Polled polled =>
                    let w := markReady (tk_readyErr t) w in
                    match polled with
                    | None => Some (w, Continue)
                    | Some r =>
                        let prepared := prepare n r in
                        if negb (IsZero (pr_retryAt prepared)) then
                          match deferRetryPartition r (pr_retryAt prepared) w with
                          | None => None
                          | Some (w, Some err) => Some (w, Return (Some err))
                          | Some (w, None) => Some (w, Continue)
                          end
                        else
                          let w := log (EvProcess r) (allow w) in
                          let '(session, err) := process n (w_session w) r prepared in
                          let w := set_session session w in
                          if is_nil err || errors_is err ErrTransactionNotCommitted then Some (w, Continue)
                          else Some (w, Return err)
                    end
                end
          end
      end
  end.

(** The loop over the turns of a run. *)
Fixpoint turns (n : nat) (ts : list tick) (w : worker) : option (worker * flow) :=
  match ts with
  | [] => Some (w, Continue)
  | t :: ts =>
      match turn n t w with
      | Some (w, Continue) => turns (Datatypes.S n) ts w
      | r => r
      end
  end.

Definition runWorkerSession (ready : bool) (ctxErr : option error) (session : S) (ts : list tick) : option (worker * flow) :=
  turns 0 ts (markReady ctxErr
    {| w_scheduler := newRetryPartitionScheduler; w_session := session; w_ready := ready; w_trace := [] |}).
End Worker.
Arguments worker : clear implicits.
End KafkaWorker.

(** ** The worker loop defers partitions and keeps the rebalance protocol

    A rule for the loop: predicates for the three points of a turn (before the
    clock is read, before the poll, with a fetched record), preserved by the
    worker's actions, hold of every run.  The rule also gives that no run panics.
    It is used twice: for the order of the calls on the session, and for the
    deadlines of deferred partitions. *)
From S2P Require Import KafkaSchedulerProofs.
From stdpp Require Import sorting.
Import Stdlib.Strings.String.
Import Delivery KafkaControl KafkaConsumer KafkaScheduler KafkaSchedulerProofs KafkaWorker.
Open Scope Z_scope.

Module KafkaWorkerProofs.

Definition partition_of (r : record) : topicPartition := {| tp_topic := r_Topic r; tp_partition := r_Partition r |}.

Lemma rewind_eq {S} `{!retryPartitionSession S} (s : S) r :
  exists s' owned err, pauseAndRewindRetryPartition s r = (s', (partition_of r, owned, err)).
Proof.
  unfold pauseAndRewindRetryPartition, partition_of. destruct (PauseFetchPartitions _ s) as [s1 previous].
  destruct (PauseFetchPartitions _ s1) as [s2 ?]. destruct (_ || _); eauto.
Qed.

(** ** A rule for the loop *)
Section Rule.
Context {S : Type} `{!transactionalConsumerSession S}.
Context (prepare : nat -> record -> preparedRecord) (process : nat -> S -> record -> preparedRecord -> S * option error).
#[local] Abbreviation W := (worker S).

Definition resumed (due : gmap string (list Z)) (w : W) : W :=
  if decide (due = ∅) then w else log (EvResume due) (set_session (ResumeFetchPartitions due (w_session w)) w).
Definition fetched (timeout : Duration) (w : W) : W :=
  log (EvPoll timeout) (set_session (PollRecords timeout 1 (w_session w)).1 w).

Context (I T J : deadlines -> W -> Prop) (F : deadlines -> record -> W -> Prop).
Context (stop_ok : forall a w, I a w -> J a w).
Context (tick_ok : forall a w sc now, I a w ->
  T (spec_release a now) (resumed (spec_resume a now) (log (EvTick now) (set_scheduler sc w)))).
Context (poll_none : forall a w d, 0 < d <= Second -> T a w -> I a (allow (fetched d w))).
Context (poll_some : forall a w d r, 0 < d <= Second -> T a w -> r ∈ f_Records (PollRecords d 1 (w_session w)).2 ->
  F a r (fetched d w)).
Context (ready_idle : forall a w err, I a w -> I a (markReady err w)).
Context (ready_fetched : forall a r w err, F a r w -> F a r (markReady err w)).
Context (defer_failed : forall a r w, F a r w -> J a (allow (set_session (pauseAndRewindRetryPartition (w_session w) r).1 w))).
Context (defer_ok : forall a r w sc d, F a r w ->
  let '(session, (p, owned, _)) := pauseAndRewindRetryPartition (w_session w) r in
  I (spec_schedule a p d owned) (allow (log (EvDeferred p d) (set_scheduler sc (set_session session w))))).
Context (process_ok : forall a r w n p, F a r w ->
  I a (set_session (process n (AllowRebalance (w_session w)) r p).1 (log (EvProcess r) (allow w)))).

Definition holds (w : W) : Prop := exists a, rel a (w_scheduler w) /\ I a w.
Definition returns_holding (o : option (W * flow)) : Prop := exists w f a, o = Some (w, f) /\ rel a (w_scheduler w) /\
  match f with Continue => I a w | Return _ => J a w end.

Lemma markReady_scheduler err (w : W) : w_scheduler (markReady err w) = w_scheduler w.
Proof. unfold markReady. by destruct (_ || _). Qed.
Lemma resumed_scheduler due (w : W) : w_scheduler (resumed due w) = w_scheduler w.
Proof. unfold resumed. by case_decide. Qed.

Lemma holding a (w : W) f : rel a (w_scheduler w) -> I a w -> returns_holding (Some (w, f)).
Proof. intros Hr Hi. exists w, f, a. split_and!; [done..|]. destruct f; auto. Qed.

Lemma deferRetry_holds a r d (w : W) : rel a (w_scheduler w) -> F a r w ->
  exists w' err a', deferRetryPartition r d w = Some (w', err) /\ rel a' (w_scheduler w') /\
    match err with None => I a' w' | Some _ => J a' w' end.
Proof.
  intros Hr Hf. pose proof (defer_failed _ _ _ Hf) as Hfail. pose proof (fun sc => defer_ok _ _ _ sc d Hf) as Hok.
  unfold deferRetryPartition. destruct (pauseAndRewindRetryPartition _ r) as [s' [[p owned] err]].
  destruct err as [err|]; [by exists (allow (set_session s' w)), (Some err), a|].
  destruct (schedule_ok a (w_scheduler w) p d owned Hr) as (sc & E & Hsc).
  change (w_scheduler (set_session s' w)) with (w_scheduler w). rewrite E.
  exists (allow (log (EvDeferred p d) (set_scheduler sc (set_session s' w)))), None, (spec_schedule a p d owned). by split_and!.
Qed.

Lemma fetched_holds a n t r (w : W) : rel a (w_scheduler w) -> F a r w ->
  returns_holding
    (let w := markReady (tk_readyErr t) w in
     let prepared := prepare n r in
     if negb (IsZero (pr_retryAt prepared)) then
       match deferRetryPartition r (pr_retryAt prepared) w with
       | None => None
       | Some (w, Some err) => Some (w, Return (Some err))
       | Some (w, None) => Some (w, Continue)
       end
     else
       let w := log (EvProcess r) (allow w) in
       let '(session, err) := process n (w_session w) r prepared in
       let w := set_session session w in
       if is_nil err || errors_is err ErrTransactionNotCommitted then Some (w, Continue) else Some (w, Return err)).
Proof.
  intros Hr Hf. apply (ready_fetched _ _ _ (tk_readyErr t)) in Hf. rewrite <- (markReady_scheduler (tk_readyErr t)) in Hr.
  revert Hr Hf. generalize (markReady (tk_readyErr t) w). clear w. intros w Hr Hf. cbn zeta.
  destruct (negb _).
  - destruct (deferRetry_holds a r (pr_retryAt (prepare n r)) w Hr Hf) as (w' & err & a' & -> & Hw).
    destruct err; eexists _, _, a'; by split.
  - pose proof (process_ok _ _ _ n (prepare n r) Hf) as Hp.
    change (w_session (log (EvProcess r) (allow w))) with (AllowRebalance (w_session w)).
    destruct (process n _ r _) as [s' err]. destruct (_ || _); by apply (holding a).
Qed.

Lemma turn_holds n t (w : W) : holds w -> returns_holding (turn prepare process n t w).
Proof.
  intros (a & Hr & Hi). unfold turn. destruct (tk_select t); try by apply (holding a).
  destruct (releaseDue_ok a (w_scheduler w) (tk_now t) Hr) as (sc & -> & Hsc).
  pose proof (tick_ok _ _ sc (tk_now t) Hi) as HT. fold (resumed (spec_resume a (tk_now t)) (log (EvTick (tk_now t)) (set_scheduler sc w))).
  cbn zeta. set (w1 := resumed _ _) in *.
  assert (rel (spec_release a (tk_now t)) (w_scheduler w1)) as Hr1 by (subst w1; by rewrite resumed_scheduler).
  rewrite (poll_ok _ _ (tk_now t) Second Hr1).
  assert (0 < spec_pollTimeout (spec_release a (tk_now t)) (tk_now t) Second <= Second) as Hd.
  { split; [by apply poll_after_release|]. unfold spec_pollTimeout. destruct (earliest _); lia. }
  set (d := spec_pollTimeout _ _ _) in *. destruct (Z.leb_spec d 0) as [?|_]; [lia|].
  pose proof (poll_none _ _ _ Hd HT) as Hnone. pose proof (fun r => poll_some _ _ _ r Hd HT) as Hsome.
  clear HT. revert Hnone Hsome. unfold pollWorkerRecord, fetched.
  destruct (PollRecords d 1 (w_session w1)) as [s1 fs]. cbn [fst snd]. set (w2 := log (EvPoll d) (set_session s1 w1)). intros Hnone Hsome.
  destruct (fetchError fs _); [by apply (holding (spec_release a (tk_now t)))|].
  destruct (tk_drained t); [by apply (holding (spec_release a (tk_now t)))|].
  destruct (f_Records fs) as [|r rs]; [|apply (fetched_holds (spec_release a (tk_now t)) n t r); [done|apply Hsome; by left]].
  destruct (tk_pollErr t), (tk_ctxErr t); try destruct (negb _); apply (holding (spec_release a (tk_now t)));
    try (rewrite markReady_scheduler; done); by try apply ready_idle.
Qed.

Lemma turns_holds ts : forall n (w : W), holds w -> returns_holding (turns prepare process n ts w).
Proof.
  induction ts as [|t ts IH]; intros n w Hw; cbn; [destruct Hw as (a & ? & ?); by apply (holding a)|].
  destruct (turn_holds n t w Hw) as (w' & f & a & -> & Hr & Hw'). destruct f; [apply IH; by exists a|]. by exists w', (Return err), a.
Qed.

Lemma run_holds ready err s ts :
  I {| a_deadlines := ∅; a_owned := ∅ |} {| w_scheduler := newRetryPartitionScheduler; w_session := s; w_ready := ready; w_trace := [] |} ->
  returns_holding (runWorkerSession prepare process ready err s ts).
Proof.
  intros H0. unfold runWorkerSession. apply turns_holds. exists {| a_deadlines := ∅; a_owned := ∅ |}.
  rewrite markReady_scheduler. split; [apply rel_new|by apply ready_idle].
Qed.
End Rule.

(** ** The order of the calls *)
(** The point of a turn after a call: before the clock is read, before the poll,
    and after the poll, which blocks rebalances until they are allowed again. *)
Inductive phase : Set := Idle | Ticked | Blocking.
Definition phase_step (p : phase) (e : wevent) : option phase :=
  match e, p with
  | EvTick _, Idle => Some Ticked
  | EvResume _, Ticked => Some Ticked
  | EvPoll d, Ticked => if (0 <? d) && (d <=? Second) then Some Blocking else None
  | EvDeferred _ _, Blocking => Some Blocking
  | EvAllowRebalance, Blocking => Some Idle
  | EvProcess _, Idle => Some Idle
  | EvReady, p => Some p
  | _, _ => None
  end.
Definition phase_after (l : list wevent) : option phase :=
  fold_left (fun p e => match p with Some p => phase_step p e | None => None end) l (Some Idle).
Definition readies (l : list wevent) : nat :=
  List.length (List.filter (fun e => match e with EvReady => true | _ => false end) l).

Lemma phase_snoc l e : phase_after (l ++ [e])%list = match phase_after l with Some p => phase_step p e | None => None end.
Proof. unfold phase_after. by rewrite fold_left_app. Qed.
Lemma readies_snoc l e : readies (l ++ [e])%list = (readies l + match e with EvReady => 1 | _ => 0 end)%nat.
Proof. unfold readies. rewrite List.filter_app, List.length_app. by destruct e. Qed.

Section Order.
Context {S : Type} `{!transactionalConsumerSession S}.
Context (prepare : nat -> record -> preparedRecord) (process : nat -> S -> record -> preparedRecord -> S * option error).

Definition in_phase (p : phase) (w : worker S) : Prop :=
  phase_after (w_trace w) = Some p /\ (readies (w_trace w) + (if w_ready w then 1 else 0) <= 1)%nat.

Ltac phases := unfold in_phase; cbn -[phase_after readies]; rewrite ?phase_snoc, ?readies_snoc; try lia.

Lemma ready_phase p err w : in_phase p w -> in_phase p (markReady err w).
Proof.
  intros [Hp Hr]. unfold markReady. destruct (w_ready w) eqn:E, (is_nil err), (consumerGroupJoined (w_session w));
    cbn; try (split; [done|by rewrite E]).
  phases. rewrite Hp. split; [by destruct p|lia].
Qed.

Lemma order_holds ready err s ts :
  returns_holding (fun _ => in_phase Idle) (fun _ => in_phase Idle) (runWorkerSession prepare process ready err s ts).
Proof.
  apply run_holds with (T := fun _ => in_phase Ticked) (F := fun _ _ => in_phase Blocking).
  - done.
  - intros a w sc now [Hp Hr]. unfold resumed. case_decide; phases; rewrite Hp; (split; [done|lia]).
  - intros a w d Hd [Hp Hr]. phases. rewrite Hp. cbn. rewrite (proj2 (Z.ltb_lt _ _)), (proj2 (Z.leb_le _ _)) by lia. split; [done|lia].
  - intros a w d r Hd [Hp Hr] _. phases. rewrite Hp. cbn. rewrite (proj2 (Z.ltb_lt _ _)), (proj2 (Z.leb_le _ _)) by lia. split; [done|lia].
  - intros a w e. apply ready_phase.
  - intros a r w e. apply ready_phase.
  - intros a r w [Hp Hr]. phases. rewrite Hp. split; [done|lia].
  - intros a r w sc d [Hp Hr]. destruct (pauseAndRewindRetryPartition _ r) as [s' [[p owned] ?]]. phases. rewrite Hp. split; [done|lia].
  - intros a r w n p [Hp Hr]. phases. rewrite Hp. split; [done|lia].
  - split; [done|]. cbn. destruct ready; lia.
Qed.
End Order.

(** However the session, the clock and the handlers behave, a run of the
    worker loop neither panics nor spins: each turn reads the clock, resumes what is
    due and polls once with a timeout between zero and a second; each poll is
    followed by exactly one [AllowRebalance], a partition is deferred before it and a
    record processed only after it; the worker becomes ready at most once. *)
Theorem worker_rebalance_protocol {S} `{!transactionalConsumerSession S} prepare process ready err (s : S) ts :
  exists w f, runWorkerSession prepare process ready err s ts = Some (w, f) /\
    phase_after (w_trace w) = Some Idle /\ (readies (w_trace w) <= 1)%nat.
Proof.
  destruct (order_holds prepare process ready err s ts) as (w & f & a & -> & _ & H).
  assert (in_phase Idle w) as [? ?] by (by destruct f). exists w, f. split_and!; [done|done|lia].
Qed.

(** ** Deadlines *)
(** What franz-go documents of pausing: a paused partition stays paused until it
    is resumed and is not polled. *)
Class SessionLaws (S : Type) `{!transactionalConsumerSession S} := {
  paused : S -> gset topicPartition;
  law_pause m s p : p ∈ paused (PauseFetchPartitions m s).1 <-> p ∈ paused s \/ containsPartition m p = true;
  law_listed m s p : containsPartition (PauseFetchPartitions m s).2 p = true <-> p ∈ paused (PauseFetchPartitions m s).1;
  law_resume m s p : p ∈ paused (ResumeFetchPartitions m s) <-> p ∈ paused s /\ containsPartition m p = false;
  law_offsets o s : paused (SetOffsets o s) = paused s;
  law_allow s : paused (AllowRebalance s) = paused s;
  law_poll d n s : paused (PollRecords d n s).1 = paused s;
  law_skip d n s r : r ∈ f_Records (PollRecords d n s).2 -> partition_of r ∉ paused s }.

(** A record is processed after its partition was deferred only when the clock
    has reached the deadline in between. *)
Definition waits (l : list wevent) : Prop :=
  forall l1 p d l2 r l3, l = (l1 ++ EvDeferred p d :: l2 ++ EvProcess r :: l3)%list -> partition_of r = p ->
  exists now, EvTick now ∈ l2 /\ d <= now.
Definition pending (D : gmap topicPartition Time) (l : list wevent) : Prop :=
  forall l1 p d l2, l = (l1 ++ EvDeferred p d :: l2)%list -> (exists now, EvTick now ∈ l2 /\ d <= now) \/ D !! p = Some d.

(** Each deferred partition waits for a deadline no turn has reached. *)
Definition waiting (p : topicPartition) (d : Time) (l : list wevent) : Prop :=
  exists l1 l2, l = (l1 ++ EvDeferred p d :: l2)%list /\ forall now, EvTick now ∈ l2 -> now < d.

Lemma waiting_snoc p d l e : waiting p d l -> (forall now, e = EvTick now -> now < d) -> waiting p d (l ++ [e])%list.
Proof.
  intros (l1 & l2 & -> & Hl) He. exists l1, (l2 ++ [e])%list. split; [by rewrite app_comm_cons, app_assoc|].
  intros now [Hin|Hin%list_elem_of_singleton]%elem_of_app; [by apply Hl|by apply He].
Qed.

Lemma snoc_split {A} (l l1 l2 : list A) e x : (l ++ [e] = l1 ++ x :: l2)%list ->
  (l2 = [] /\ x = e /\ l = l1) \/ exists l2', l2 = (l2' ++ [e])%list /\ l = (l1 ++ x :: l2')%list.
Proof.
  destruct l2 as [|y l2' _] using rev_ind; intros E.
  - apply app_inj_tail in E as [-> ->]. by left.
  - rewrite app_comm_cons, app_assoc in E. apply app_inj_tail in E as [-> ->]. right. by exists l2'.
Qed.

Lemma pending_snoc D D' l e : pending D l ->
  (forall p d, D !! p = Some d -> (exists now, e = EvTick now /\ d <= now) \/ D' !! p = Some d) ->
  (forall p d, e = EvDeferred p d -> D' !! p = Some d) -> pending D' (l ++ [e])%list.
Proof.
  intros Hp Hk He l1 p d l2 E. apply snoc_split in E as [(-> & E & ->)|(l2' & -> & ->)]; [right; by apply He|].
  destruct (Hp _ _ _ _ eq_refl) as [(now & Hin & Hle)|Hd].
  - left. exists now. split; [apply elem_of_app; by left|done].
  - apply Hk in Hd as [(now & -> & Hle)|Hd]; [left|by right]. exists now. split; [apply elem_of_app; right; by left|done].
Qed.

Lemma waits_snoc l e : waits l -> (forall r, e <> EvProcess r) -> waits (l ++ [e])%list.
Proof.
  intros Hw Hne l1 p d l2 r l3 E Hr. rewrite app_comm_cons, app_assoc in E.
  apply snoc_split in E as [(-> & E & ->)|(l3' & -> & ->)]; [by destruct (Hne r)|].
  apply (Hw l1 p d l2 r l3'); [|done]. by rewrite app_comm_cons, app_assoc.
Qed.

Lemma waits_process D l r : waits l -> pending D l -> D !! partition_of r = None -> waits (l ++ [EvProcess r])%list.
Proof.
  intros Hw Hp Hd l1 p d l2 r' l3 E Hr. rewrite app_comm_cons, app_assoc in E.
  apply snoc_split in E as [(-> & [= ->] & ->)|(l3' & -> & ->)].
  - destruct (Hp _ _ _ _ eq_refl) as [?|Hs]; [done|]. subst p. by rewrite Hd in Hs.
  - apply (Hw l1 p d l2 r' l3'); [|done]. by rewrite app_comm_cons, app_assoc.
Qed.

Lemma contains_elem m p : containsPartition m p = true <-> tp_partition p ∈ default [] (m !! tp_topic p).
Proof.
  unfold containsPartition. rewrite existsb_exists. setoid_rewrite Z.eqb_eq. setoid_rewrite <- list_elem_of_In. naive_solver.
Qed.

Lemma elem_of_listed p ps : tp_partition p ∈ listed (tp_topic p) ps <-> p ∈ ps.
Proof.
  unfold listed. rewrite <- (elem_of_elements ps). split.
  - intros (q & E & Hq)%list_elem_of_fmap. apply list_elem_of_filter in Hq as [Et Hq]. destruct p, q; cbn in *. by subst.
  - intros Hp. apply list_elem_of_fmap. exists p. split; [done|]. by apply list_elem_of_filter.
Qed.

(** The released partitions whose pause is owned, and no others, are resumed. *)
Lemma contains_resume a now p : containsPartition (spec_resume a now) p = true <-> p ∈ due now a ∩ a_owned a.
Proof.
  rewrite contains_elem, spec_resume_at. cbn zeta. destruct (listed _ _) eqn:E; cbn -[merge_sort]; rewrite <- elem_of_listed, E; [done|].
  by rewrite merge_sort_Permutation.
Qed.

Section Deadlines.
Context {S : Type} `{!transactionalConsumerSession S, !SessionLaws S}.
Context (prepare : nat -> record -> preparedRecord) (process : nat -> S -> record -> preparedRecord -> S * option error).
Context (process_paused : forall n s r p, paused (process n s r p).1 = paused s).
(** The partitions paused before the worker starts. *)
Context (others : gset topicPartition).

Record deferring (a : deadlines) (w : worker S) : Prop := {
  df_paused : dom (a_deadlines a) ∪ others ⊆ paused (w_session w);
  df_owned : a_owned a ⊆ dom (a_deadlines a);
  df_others : dom (a_deadlines a) ## others;
  df_pending : pending (a_deadlines a) (w_trace w);
  df_waits : waits (w_trace w) }.

(** Events that neither defer nor process nor read the clock. *)
Definition silent (e : wevent) : Prop := match e with EvTick _ | EvDeferred _ _ | EvProcess _ => False | _ => True end.

Lemma deferring_log a w e : silent e -> deferring a w -> deferring a (log e w).
Proof.
  intros He [? ? ? ? ?]. split; try done; cbn.
  - eapply pending_snoc; [done|by right|]. intros p d ->. done.
  - apply waits_snoc; [done|]. intros r ->. done.
Qed.

Lemma deferring_session a w s : paused s = paused (w_session w) -> deferring a w -> deferring a (set_session s w).
Proof. intros E [? ? ? ? ?]. split; try done. cbn. by rewrite E. Qed.

Lemma deferring_allow a w : deferring a w -> deferring a (allow w).
Proof. intros H. apply deferring_log; [done|]. apply deferring_session; [apply law_allow|done]. Qed.

Lemma deferring_ready a w err : deferring a w -> deferring a (markReady err w).
Proof. intros [? ? ? ? ?]. unfold markReady. destruct (_ || _); [by split|]. apply deferring_log; [done|by split]. Qed.

Lemma deferring_tick a w sc now : deferring a w ->
  deferring (spec_release a now) (resumed (spec_resume a now) (log (EvTick now) (set_scheduler sc w))).
Proof.
  intros [Hp Ho Hd Hpe Hw].
  assert (forall p, p ∈ dom (a_deadlines (spec_release a now)) <-> p ∈ dom (a_deadlines a) /\ p ∉ due now a) as Hdom.
  { intros p. rewrite elem_of_due, !elem_of_dom. unfold is_Some. cbn. setoid_rewrite map_lookup_filter_Some. cbn.
    split; [intros (t & Ht & ?); split; [eauto|]; intros (u & Hu & ?); pose proof (eq_trans (eq_sym Ht) Hu) as [= ->]; lia|].
    intros [[t Ht] Hn]. exists t. split; [done|]. destruct (Z.lt_ge_cases now t); [done|]. destruct Hn. eauto. }
  assert (due now a ⊆ dom (a_deadlines a)) as Hdue.
  { intros p (t & Ht & _)%elem_of_due. apply elem_of_dom. by exists t. }
  assert (deferring (spec_release a now) (log (EvTick now) (set_scheduler sc w))) as [Hp' Ho' Hd' Hpe' Hw'].
  { split; cbn [w_session w_trace log set_scheduler].
    - intros p. rewrite elem_of_union, Hdom. set_solver.
    - intros p. rewrite Hdom. cbn. set_solver.
    - intros p. rewrite Hdom. set_solver.
    - eapply pending_snoc; [exact Hpe| |done]. intros p d E. destruct (Z.le_gt_cases d now); [left; eauto|right].
      cbn. apply map_lookup_filter_Some. by split; [|cbn; lia].
    - by apply waits_snoc. }
  unfold resumed. case_decide; [by split|]. apply deferring_log; [done|]. split; try done.
  intros p Hin. apply law_resume. split; [by apply Hp'|]. apply not_true_iff_false. rewrite contains_resume.
  rewrite elem_of_union, Hdom in Hin. set_solver.
Qed.

Lemma deferring_fetch a w d : deferring a w -> deferring a (fetched d w).
Proof. intros H. apply deferring_log; [done|]. apply deferring_session; [apply law_poll|done]. Qed.

(** Pausing a partition that was not paused: the pause is owned. *)
Lemma rewind_paused s r : partition_of r ∉ paused s ->
  let '(s', (p, owned, _)) := pauseAndRewindRetryPartition s r in
  p = partition_of r /\ owned = true /\ forall q, q ∈ paused s' <-> q ∈ paused s \/ q = p.
Proof.
  intros Hr. unfold pauseAndRewindRetryPartition. pose proof (law_pause ∅ s) as H1. pose proof (law_listed ∅ s) as H2.
  destruct (PauseFetchPartitions ∅ s) as [s1 previous]. cbn in H1, H2. set (m := {[r_Topic r := _]}).
  pose proof (law_pause m s1) as H3. destruct (PauseFetchPartitions m s1) as [s2 ?]. cbn in H3.
  assert (negb (containsPartition previous (partition_of r)) = true) as Ho.
  { apply negb_true_iff, not_true_iff_false. rewrite H2, H1. intros [?|Hc]; [done|]. by apply contains_elem, not_elem_of_nil in Hc. }
  assert (forall q, q ∈ paused s2 <-> q ∈ paused s \/ q = partition_of r) as Hq.
  { intros [t z]. rewrite H3, H1, !contains_elem. subst m. rewrite lookup_empty. cbn. rewrite elem_of_nil. unfold partition_of.
    destruct (decide (t = r_Topic r)) as [->|Hn].
    - rewrite lookup_singleton_eq. cbn. rewrite list_elem_of_singleton. naive_solver.
    - rewrite lookup_singleton_ne by done. cbn. rewrite elem_of_nil. naive_solver. }
  destruct (_ || _); (split_and!; [done|exact Ho|]); by setoid_rewrite law_offsets.
Qed.

Definition deferring_fetched (a : deadlines) (r : record) (w : worker S) : Prop :=
  deferring a w /\ partition_of r ∉ paused (w_session w).

Lemma deferring_rewind a r w : deferring_fetched a r w -> deferring a (set_session (pauseAndRewindRetryPartition (w_session w) r).1 w).
Proof.
  intros [[Hp ? ? ? ?] Hr]. pose proof (rewind_paused _ _ Hr) as H. destruct (pauseAndRewindRetryPartition _ r) as [s' [[p owned] ?]].
  destruct H as (-> & -> & Hq). split; try done. cbn. intros q Hin. apply Hq. left. by apply Hp.
Qed.

Lemma deferring_defer a r w sc d : deferring_fetched a r w ->
  let '(session, (p, owned, _)) := pauseAndRewindRetryPartition (w_session w) r in
  deferring (spec_schedule a p d owned) (allow (log (EvDeferred p d) (set_scheduler sc (set_session session w)))).
Proof.
  intros [[Hp Ho Hd Hpe Hw] Hr]. pose proof (rewind_paused _ _ Hr) as H.
  destruct (pauseAndRewindRetryPartition _ r) as [s' [[p owned] ?]]. destruct H as (-> & -> & Hq).
  assert (partition_of r ∉ dom (a_deadlines a)) as Hn by set_solver.
  apply deferring_allow. split; cbn [w_session w_trace log set_scheduler set_session spec_schedule a_deadlines a_owned].
  - rewrite dom_insert_L. intros q. rewrite Hq. set_solver.
  - rewrite dom_insert_L. set_solver.
  - rewrite dom_insert_L. set_solver.
  - eapply pending_snoc; [exact Hpe| |].
    + intros q t E. right. rewrite lookup_insert_ne; [done|]. intros <-. apply Hn, elem_of_dom. by exists t.
    + intros q t [= <- <-]. apply lookup_insert_eq.
  - by apply waits_snoc.
Qed.

Lemma deferring_process a r w n p : deferring_fetched a r w ->
  deferring a (set_session (process n (AllowRebalance (w_session w)) r p).1 (log (EvProcess r) (allow w))).
Proof.
  intros [[Hp Ho Hd Hpe Hw] Hr]. apply deferring_session; [by rewrite process_paused|].
  assert (deferring a (allow w)) as [? ? ? Hpe' Hw'] by (by apply deferring_allow).
  split; try done; cbn [w_session w_trace log].
  - eapply pending_snoc; [exact Hpe'|by right|done].
  - eapply waits_process; [done|exact Hpe'|]. apply not_elem_of_dom. set_solver.
Qed.

(** While the loop runs, the worker's pauses are those of the deferred partitions. *)
Record waiting_exactly (a : deadlines) (w : worker S) : Prop := {
  we_deferring : deferring a w;
  we_paused : paused (w_session w) ⊆ dom (a_deadlines a) ∪ others;
  we_owned : dom (a_deadlines a) ⊆ a_owned a;
  we_waiting : forall p d, a_deadlines a !! p = Some d -> waiting p d (w_trace w) }.

Definition exactly_fetched (a : deadlines) (r : record) (w : worker S) : Prop :=
  waiting_exactly a w /\ partition_of r ∉ paused (w_session w).

Lemma exactly_log a w s e : silent e \/ (exists r, e = EvProcess r) -> paused s = paused (w_session w) ->
  deferring a (log e (set_session s w)) -> waiting_exactly a w -> waiting_exactly a (log e (set_session s w)).
Proof.
  intros He E Hd [_ ? ? Hw]. split; try done; [cbn; by rewrite E|]. intros p d Hp. apply waiting_snoc; [by apply Hw|].
  intros now ->. by destruct He as [?|[? ?]].
Qed.

Lemma exactly_allow a w : waiting_exactly a w -> waiting_exactly a (allow w).
Proof. intros H. apply exactly_log; [by left|apply law_allow|apply deferring_allow, H|done]. Qed.

Lemma exactly_fetch a w d : waiting_exactly a w -> waiting_exactly a (fetched d w).
Proof. intros H. apply exactly_log; [by left|apply law_poll|apply deferring_fetch, H|done]. Qed.

Lemma exactly_ready a w err : waiting_exactly a w -> waiting_exactly a (markReady err w).
Proof.
  intros [H ? ? Hw]. apply (deferring_ready _ _ err) in H. revert H. unfold markReady. destruct (_ || _); [by split|].
  intros H. split; try done. intros p d Hp. apply waiting_snoc; [by apply Hw|done].
Qed.

Lemma exactly_tick a w sc now : waiting_exactly a w ->
  waiting_exactly (spec_release a now) (resumed (spec_resume a now) (log (EvTick now) (set_scheduler sc w))).
Proof.
  intros [Hd Hp Ho Hw]. assert (forall p d, a_deadlines (spec_release a now) !! p = Some d -> a_deadlines a !! p = Some d /\ now < d) as Hl.
  { intros p d. cbn. by rewrite map_lookup_filter_Some. }
  assert (forall p, p ∈ dom (a_deadlines a) -> p ∈ dom (a_deadlines (spec_release a now)) \/ p ∈ due now a) as Hdom.
  { intros p [t Ht]%elem_of_dom. destruct (Z.le_gt_cases t now); [right; apply elem_of_due; eauto|left; apply elem_of_dom].
    exists t. cbn. apply map_lookup_filter_Some. by split; [|cbn; lia]. }
  assert (forall p d, a_deadlines (spec_release a now) !! p = Some d -> waiting p d (w_trace w ++ [EvTick now])%list) as Hw1.
  { intros p d [Hp1 Hlt]%Hl. apply waiting_snoc; [by apply Hw|]. by intros ? [= ->]. }
  assert (dom (a_deadlines (spec_release a now)) ⊆ a_owned (spec_release a now)) as Ho1.
  { intros p [d Hp1]%elem_of_dom. apply Hl in Hp1 as [Hp1 Hlt]. cbn. apply elem_of_difference. split; [apply Ho, elem_of_dom; by exists d|].
    intros (u & Hu & ?)%elem_of_due. pose proof (eq_trans (eq_sym Hp1) Hu) as [= ->]. lia. }
  split; [by apply deferring_tick|..|exact Ho1|]; unfold resumed; case_decide as E.
  - intros p Hin. apply elem_of_union. apply Hp, elem_of_union in Hin as [Hin|?]; [|by right]. apply Hdom in Hin as [?|Hin]; [by left|].
    assert (containsPartition (spec_resume a now) p = true) as Hc.
    { apply contains_resume. apply elem_of_intersection. split; [done|]. apply Ho. apply elem_of_due in Hin as (t & Ht & _).
      apply elem_of_dom. by exists t. }
    rewrite E in Hc. by apply contains_elem, not_elem_of_nil in Hc.
  - intros p. cbn. rewrite law_resume. intros [Hin Hc]. apply elem_of_union. apply Hp, elem_of_union in Hin as [Hin|?]; [|by right].
    pose proof Hin as Hin'. apply Hdom in Hin as [?|Hin]; [by left|]. apply not_true_iff_false in Hc. destruct Hc. apply contains_resume.
    set_solver.
  - exact Hw1.
  - intros p d Hp1. apply waiting_snoc; [by apply Hw1|done].
Qed.

Lemma exactly_defer a r w sc d : exactly_fetched a r w ->
  let '(session, (p, owned, _)) := pauseAndRewindRetryPartition (w_session w) r in
  waiting_exactly (spec_schedule a p d owned) (allow (log (EvDeferred p d) (set_scheduler sc (set_session session w)))).
Proof.
  intros [[Hd Hp Ho Hw] Hr]. pose proof (deferring_defer a r w sc d (conj Hd Hr)) as Hdef. pose proof (rewind_paused _ _ Hr) as H.
  destruct (pauseAndRewindRetryPartition _ r) as [s' [[p owned] ?]]. destruct H as (-> & -> & Hq).
  split; [exact Hdef|..]; cbn [spec_schedule a_deadlines a_owned].
  - cbn. rewrite law_allow, dom_insert_L. intros q. rewrite Hq. set_solver.
  - rewrite dom_insert_L. set_solver.
  - intros q t Hin. apply waiting_snoc; [|done]. apply lookup_insert_Some in Hin as [[<- <-]|[? Hin]].
    + exists (w_trace w), []. split; [done|]. by intros now ?%not_elem_of_nil.
    + apply waiting_snoc; [by apply Hw|done].
Qed.

Lemma deferring_run ready err s ts : others = paused s ->
  returns_holding waiting_exactly deferring (runWorkerSession prepare process ready err s ts).
Proof.
  intros Hs. apply run_holds with (T := waiting_exactly) (F := exactly_fetched).
  - apply we_deferring.
  - apply exactly_tick.
  - intros a w d _ H. by apply exactly_allow, exactly_fetch.
  - intros a w d r _ H Hr. split; [by apply exactly_fetch|]. cbn. rewrite law_poll. by eapply law_skip.
  - intros a w e. apply exactly_ready.
  - intros a r w e [H Hr]. split; [by apply exactly_ready|]. unfold markReady. by destruct (_ || _).
  - intros a r w [[H _ _ _] Hr]. by apply deferring_allow, deferring_rewind.
  - apply exactly_defer.
  - intros a r w n p [H Hr]. pose proof (deferring_process a r w n p (conj (we_deferring _ _ H) Hr)) as Hp.
    apply exactly_allow in H. apply (exactly_log a (allow w) (process n (AllowRebalance (w_session w)) r p).1 (EvProcess r)); [right; by exists r|cbn; by rewrite process_paused|exact Hp|exact H].
  - split; [split|..]; cbn; rewrite ?dom_empty_L; try set_solver. all: intros [|? ?] ? ? ?; intros; done.
Qed.
End Deadlines.

(** With a session whose paused partitions stay paused until resumed and are
    not polled, the worker never processes a record of a deferred partition before
    the clock has reached its deadline; it never resumes a partition that was paused
    before it started; and while it runs, every partition it keeps paused waits for a
    deadline that no turn since has reached. *)
Theorem worker_defers_until_deadline {S} `{!transactionalConsumerSession S, !SessionLaws S} prepare process ready err (s : S) ts :
  (forall n s r p, paused (process n s r p).1 = paused s) ->
  exists w f, runWorkerSession prepare process ready err s ts = Some (w, f) /\
    waits (w_trace w) /\ paused s ⊆ paused (w_session w) /\
    (f = Continue -> forall p, p ∈ paused (w_session w) -> p ∈ paused s \/ exists d, waiting p d (w_trace w)).
Proof.
  intros Hp. destruct (deferring_run prepare process Hp (paused s) ready err s ts) as (w & f & a & -> & _ & H); [done|].
  assert (deferring (paused s) a w) as [? ? ? ? ?] by (destruct f; [apply H|done]).
  exists w, f. split_and!; [done|done|set_solver|]. intros -> p Hin. destruct H as [_ Hpa _ Hw].
  apply Hpa, elem_of_union in Hin as [[d Hd]%elem_of_dom|?]; [right|by left]. exists d. by apply Hw.
Qed.
End KafkaWorkerProofs.
