(* ===== verification/KafkaBatch.v ===== *)
(** * The Kafka batch consumer

    Models [adapters/kafka/batch_consumer.go]: construction, the collection of a
    batch from one topic-partition over several polls, the classification of its
    records, the Inbox attempt, the retry records and dead letters, the one
    transaction with the offsets, the pause of a partition that is not due, the
    confirmation of terminal handoffs, and the loop of a worker's session.

    The session is a [transactionalConsumerSession]; the ends of its transactions,
    the clock, the random source and the contexts are answers of the environment,
    as for single records.  Observations and log records are left out, with the
    clock readings made for them only: the event [BvObserve] stands for the moment
    when the observers are called. *)
From S2P Require Import Prelude GoStrings GoText Digest Errors Backoff Ident Batch Envelope Inbox InboxSQL InboxSpec InboxEffects InboxStore InboxBatch InboxBatchStore Middleware Delivery Builder Manifest KafkaTopic KafkaControl KafkaConsumer KafkaScheduler KafkaWorker.
From stdpp Require Import sorting.
Import Stdlib.Strings.String.
Import Sha256 Backoff Delivery Envelope KafkaTopic KafkaControl KafkaDLQ KafkaConsumer KafkaScheduler KafkaWorker.
Open Scope string_scope.
Open Scope Z_scope.
Local Open Scope delivery_scope.

Module KafkaBatch.

(** ** Construction *)
Record kafkaBatchConsumer (Mw : Type) := { kb_config : BatchConfig Mw; kb_rebalanceTimeout : Duration }.
Arguments kb_config {Mw}. Arguments kb_rebalanceTimeout {Mw}.

(** [supportsBatchAttempts] is the store's answer; [operationTimeout] the
    transport's. *)
Definition newKafkaBatchConsumer {B C Mw} (dependencies supportsBatchAttempts : bool) (operationTimeout : Duration)
    (descriptor : DescriptorInfo) (config : HandlerConfig B C) (batchConfig : BatchConfig Mw)
  : result error (Consumer B C * kafkaBatchConsumer Mw) :=
  match kc_Middlewares config with
  | _ :: _ => Err (KafkaTopic.invalid "batch consumers reject single-message middleware")
  | [] =>
      match newConsumer dependencies descriptor config with
      | Err err => Err err
      | Ok consumer =>
          if negb supportsBatchAttempts
          then Err (EFmt "batch consumer" [ESentinel ErrKafkaInvalidConfig; ESentinel ErrBatchAttemptTrackingUnsupported])
          else match Normalize batchConfig (kc_Concurrency (c_config consumer)) with
          | Err err => Err (EFmt "batch config" [ESentinel ErrKafkaInvalidConfig; err])
          | Ok normalized =>
              match batchConsumerRebalanceTimeout (MaxWait normalized) (kc_Timeout (c_config consumer))
                      (kc_FinalizationTimeout (c_config consumer)) operationTimeout with
              | Err err => Err (EFmt "batch rebalance timeout" [ESentinel ErrKafkaInvalidConfig; err])
              | Ok rebalanceTimeout => Ok (consumer, {| kb_config := normalized; kb_rebalanceTimeout := rebalanceTimeout |})
              end
          end
      end
  end.

(** ** Offsets *)
Definition offsets : Type := gmap string (gmap Z EpochOffset).

Definition put_offset (topic : string) (partition : Z) (o : EpochOffset) (m : offsets) : offsets :=
  <[topic := <[partition := o]> (default ∅ (m !! topic))]> m.

Definition record_earliest (m : offsets) (r : record) : offsets :=
  match default ∅ (m !! r_Topic r) !! r_Partition r with
  | Some current =>
      if r_Offset r <? eo_Offset current
      then put_offset (r_Topic r) (r_Partition r) {| eo_Epoch := r_LeaderEpoch r; eo_Offset := r_Offset r |} m else m
  | None => put_offset (r_Topic r) (r_Partition r) {| eo_Epoch := r_LeaderEpoch r; eo_Offset := r_Offset r |} m
  end.
Definition recordEarliestKafkaOffsets (m : offsets) (records : list record) : offsets := fold_left record_earliest records m.
Definition earliestKafkaOffsets (records : list record) : offsets := recordEarliestKafkaOffsets ∅ records.

Definition partition_of_record (r : record) : topicPartition := {| tp_topic := r_Topic r; tp_partition := r_Partition r |}.

(** ** Events *)
Inductive bevent : Type :=
| BvEvent (e : event)
| BvPolled (records : list record)
| BvOffsets (o : offsets)
| BvResume (partitions : gmap string (list Z))
| BvPaused (p : topicPartition) (deadline : Time)
| BvAllowRebalance
| BvConfirm (key : Key) (fp : Fingerprint) (ok : bool)
| BvReady
| BvObserve.

(** What the environment answers in one turn of the loop. *)
Record batchAnswers := {
  ba_answers : answers;
  ba_pollErr : nat -> option sentinel;      (** [Err()] of the context of the n-th poll *)
  ba_confirm : nat -> option env }.         (** [None]: the confirmation context has ended *)

Section Batch.
Context {B C T S : Type} {collate : string -> string -> bool} `{!InboxBackend B collate, !EnvelopeJSON}.
Context `{!transactionalConsumerSession S, !Manifest.MapRange}.
Context (ops : batchOps B).
Context (ctxErr : C -> B -> option error).
Context (ToLower : string -> string) (formatTime : Time -> string) (parseTime : string -> option Time).
Context (json_Marshal : DLQRecord -> result error string).

(** ** Records of a batch *)
(** [decodedMessage] with the typed message as an [any]. *)
Record batchDecoded := { bd_metadata : Metadata; bd_canonical : string; bd_value : option (Message T) }.
Definition batchDecoded0 : batchDecoded := {| bd_metadata := Builder.Metadata0; bd_canonical := ""; bd_value := None |}.

(** The decoder of [NewBatchCommandConsumer] and [NewBatchEventConsumer]. *)
Definition decodeBatch (d : descriptor T) (e : Envelope) : result error batchDecoded :=
  let metadata := Envelope_Metadata e in
  match payload e with
  | Err err => Err err
  | Ok payloadBytes =>
      match MarshalEnvelope metadata payloadBytes (e_DataEncoding e) with
      | Err err => Err err
      | Ok canonical =>
          match Decode (d_codec d) payloadBytes with
          | Err err => Err err
          | Ok value => Ok {| bd_metadata := metadata; bd_canonical := canonical;
                              bd_value := Some {| m_Metadata := metadata; m_Payload := value |} |}
          end
      end
  end.

Record kafkaBatchRecord := { br_record : record; br_prepared : preparedRecord; br_decoded : batchDecoded; br_bytes : Z }.

Record kafkaPolledBatch := {
  pb_records : list kafkaBatchRecord;
  pb_earliestOffsets : offsets;
  pb_partition : topicPartition;
  pb_first : record;
  pb_firstDeferred : option record;
  pb_deferUntil : Time;
  pb_firstUnprocessed : option record;
  pb_selectionStopped : bool;
  pb_bytes : Z;
  pb_fillStarted : Time }.

Definition with_earliest (o : offsets) (b : kafkaPolledBatch) : kafkaPolledBatch :=
  {| pb_records := pb_records b; pb_earliestOffsets := o; pb_partition := pb_partition b; pb_first := pb_first b;
     pb_firstDeferred := pb_firstDeferred b; pb_deferUntil := pb_deferUntil b; pb_firstUnprocessed := pb_firstUnprocessed b;
     pb_selectionStopped := pb_selectionStopped b; pb_bytes := pb_bytes b; pb_fillStarted := pb_fillStarted b |}.
Definition with_records (l : list kafkaBatchRecord) (b : kafkaPolledBatch) : kafkaPolledBatch :=
  {| pb_records := l; pb_earliestOffsets := pb_earliestOffsets b; pb_partition := pb_partition b; pb_first := pb_first b;
     pb_firstDeferred := pb_firstDeferred b; pb_deferUntil := pb_deferUntil b; pb_firstUnprocessed := pb_firstUnprocessed b;
     pb_selectionStopped := pb_selectionStopped b; pb_bytes := pb_bytes b; pb_fillStarted := pb_fillStarted b |}.
(** The selection stops at a record, which is deferred or left for later. *)
Definition stop_at (deferred : option (record * Time)) (unprocessed : option record) (b : kafkaPolledBatch) : kafkaPolledBatch :=
  {| pb_records := pb_records b; pb_earliestOffsets := pb_earliestOffsets b; pb_partition := pb_partition b; pb_first := pb_first b;
     pb_firstDeferred := match deferred with Some d => Some d.1 | None => pb_firstDeferred b end;
     pb_deferUntil := match deferred with Some d => d.2 | None => pb_deferUntil b end;
     pb_firstUnprocessed := unprocessed; pb_selectionStopped := true; pb_bytes := pb_bytes b; pb_fillStarted := pb_fillStarted b |}.
Definition add_record (maxBytes : Z) (item : kafkaBatchRecord) (b : kafkaPolledBatch) : kafkaPolledBatch :=
  {| pb_records := (pb_records b ++ [item])%list; pb_earliestOffsets := pb_earliestOffsets b; pb_partition := pb_partition b;
     pb_first := pb_first b; pb_firstDeferred := pb_firstDeferred b; pb_deferUntil := pb_deferUntil b;
     pb_firstUnprocessed := pb_firstUnprocessed b;
     pb_selectionStopped := pb_selectionStopped b || (maxBytes <=? pb_bytes b + br_bytes item);
     pb_bytes := pb_bytes b + br_bytes item; pb_fillStarted := pb_fillStarted b |}.

Definition hasKafkaBatchConflictingGeneration (records : list kafkaBatchRecord) (candidate : kafkaBatchRecord) : bool :=
  let m := bd_metadata (br_decoded candidate) in
  if MessageID_IsZero (md_ID m) then false
  else existsb (fun prev =>
    let p := bd_metadata (br_decoded prev) in
    String.eqb (md_ID p) (md_ID m) && String.eqb (md_Source p) (md_Source m)
    && negb (String.eqb (cm_attemptGeneration (pr_control (br_prepared prev))) (cm_attemptGeneration (pr_control (br_prepared candidate)))))
    records.

(** ** The worker's state *)
Record bworld := {
  bw_db : DB B;
  bw_reads : nat;
  bw_draws : nat;
  bw_session : S;
  bw_scheduler : scheduler;
  bw_streak : Z;                 (** [topLevelStreak], a uint64 *)
  bw_ready : bool;               (** [ready] is still to be called *)
  bw_trace : list bevent }.
Definition BM (A : Type) : Type := St bworld A.

Definition note (e : bevent) : BM unit := fun w =>
  ({| bw_db := bw_db w; bw_reads := bw_reads w; bw_draws := bw_draws w; bw_session := bw_session w; bw_scheduler := bw_scheduler w;
      bw_streak := bw_streak w; bw_ready := bw_ready w; bw_trace := (bw_trace w ++ [e])%list |}, Val tt).
Definition on_session {A} (f : S -> S * A) : BM A := fun w =>
  let '(s, x) := f (bw_session w) in
  ({| bw_db := bw_db w; bw_reads := bw_reads w; bw_draws := bw_draws w; bw_session := s; bw_scheduler := bw_scheduler w;
      bw_streak := bw_streak w; bw_ready := bw_ready w; bw_trace := bw_trace w |}, Val x).
(** A panic of the scheduler is one of the computation. *)
Definition on_scheduler {A} (f : scheduler -> option (scheduler * A)) : BM A := fun w =>
  match f (bw_scheduler w) with
  | None => (w, Crash)
  | Some (sc, x) =>
      ({| bw_db := bw_db w; bw_reads := bw_reads w; bw_draws := bw_draws w; bw_session := bw_session w; bw_scheduler := sc;
          bw_streak := bw_streak w; bw_ready := bw_ready w; bw_trace := bw_trace w |}, Val x)
  end.
Definition set_streak (f : Z -> Z) : BM Z := fun w =>
  ({| bw_db := bw_db w; bw_reads := bw_reads w; bw_draws := bw_draws w; bw_session := bw_session w; bw_scheduler := bw_scheduler w;
      bw_streak := f (bw_streak w); bw_ready := bw_ready w; bw_trace := bw_trace w |}, Val (f (bw_streak w))).
Definition set_bdb (d : DB B) (w : bworld) : bworld :=
  {| bw_db := d; bw_reads := bw_reads w; bw_draws := bw_draws w; bw_session := bw_session w; bw_scheduler := bw_scheduler w;
     bw_streak := bw_streak w; bw_ready := bw_ready w; bw_trace := bw_trace w |}.
(** The computations of the single consumer on the shared part of the state. *)
Definition lift {A} (m : M (B := B) A) : BM A := fun w =>
  let '(k, r) := m {| w_db := bw_db w; KafkaConsumer.w_trace := []; w_reads := bw_reads w; w_draws := bw_draws w |} in
  ({| bw_db := w_db k; bw_reads := w_reads k; bw_draws := w_draws k; bw_session := bw_session w; bw_scheduler := bw_scheduler w;
      bw_streak := bw_streak w; bw_ready := bw_ready w; bw_trace := (bw_trace w ++ List.map BvEvent (KafkaConsumer.w_trace k))%list |}, r).

Definition allow : BM unit := on_session (fun s => (AllowRebalance s, tt)) ;;; note BvAllowRebalance.
Definition set_offsets (o : offsets) : BM unit := on_session (fun s => (SetOffsets o s, tt)) ;;; note (BvOffsets o).
Definition poll (timeout : Duration) (maximum : Z) : BM Fetches :=
  fetches <- on_session (PollRecords timeout maximum) ;; note (BvPolled (f_Records fetches)) ;;; mret fetches.

Section Turn.
Context (c : Consumer B C) (kb : kafkaBatchConsumer (@BatchMiddleware B C)) (a : batchAnswers).
Context (decoder : Envelope -> result error batchDecoded) (handler : @BatchHandler B C T).
Abbreviation config := (c_config c).
Abbreviation limits := (kb_config kb).
Abbreviation now := (lift (clock (ba_answers a))).

(** ** Selection *)
Definition with_decode_failure (err : error) (p : preparedRecord) : preparedRecord :=
  {| pr_control := pr_control p; pr_envelope := pr_envelope p; pr_observedAt := pr_observedAt p; pr_retryAt := pr_retryAt p;
     pr_failure := Some (failureKindDecode, err); pr_attempt := Z.max 1 (cm_attempt (pr_control p));
     pr_messageID := MessageID_String (e_ID (pr_envelope p)) |}.
Definition batch_item (r : record) (prepared : preparedRecord) : kafkaBatchRecord :=
  let undecoded p := {| br_record := r; br_prepared := p; br_decoded := batchDecoded0; br_bytes := len (r_Value r) |} in
  match pr_failure prepared with
  | Some _ => undecoded prepared
  | None =>
      match decoder (pr_envelope prepared) with
      | Err err => undecoded (with_decode_failure err prepared)
      | Ok decoded => {| br_record := r; br_prepared := prepared; br_decoded := decoded; br_bytes := len (bd_canonical decoded) |}
      end
  end.

Definition count (b : kafkaPolledBatch) : Z := Z.of_nat (List.length (pb_records b)).

Definition select_record (b : kafkaPolledBatch) (r : record) : BM kafkaPolledBatch :=
  if negb (bool_decide (partition_of_record r = pb_partition b)) then mret b
  else if pb_selectionStopped b || (MaxMessages limits <=? count b) then
    mret (stop_at None (match pb_firstUnprocessed b with None => Some r | u => u end) b)
  else
    prepared <- lift (prepareRecord ToLower parseTime c (ba_answers a) r) ;;
    if negb (IsZero (pr_retryAt prepared)) then mret (stop_at (Some (r, pr_retryAt prepared)) (Some r) b)
    else
      let item := batch_item r prepared in
      mret (if hasKafkaBatchConflictingGeneration (pb_records b) item then stop_at None (Some r) b
            else if negb (count b =? 0) && (MaxBytes limits - pb_bytes b <? br_bytes item) then stop_at None (Some r) b
            else add_record (MaxBytes limits) item b).
Fixpoint selectKafkaBatchRecords (b : kafkaPolledBatch) (records : list record) : BM kafkaPolledBatch :=
  match records with
  | [] => mret b
  | r :: rest => b' <- select_record b r ;; selectKafkaBatchRecords b' rest
  end.

(** ** Collection *)
(** The loop that fills the batch; every turn but the last adds a record, so
    [MaxMessages] turns are enough. *)
Fixpoint fill (fuel n : nat) (deadline : Time) (b : kafkaPolledBatch) : BM (result error kafkaPolledBatch) :=
  match fuel with
  | O => fun w => (w, Blocked)
  | Datatypes.S fuel =>
      if pb_selectionStopped b || (MaxMessages limits <=? count b) || match pb_firstDeferred b with Some _ => true | None => false end
      then mret (Ok b)
      else
        t <- now ;;
        if negb (t <? deadline) || (MaxBytes limits <=? pb_bytes b) then mret (Ok b)
        else
          t <- now ;;
          let remaining := Sub deadline t in
          if remaining <=? 0 then mret (Ok b)
          else
            more <- poll remaining (MaxMessages limits - count b) ;;
            match fetchError more (ba_pollErr a n) with
            | Some err => mret (Err (EFmt "messenger/kafka: fill batch" [err]))
            | None =>
                match f_Records more with
                | [] => mret (Ok b)
                | fetched =>
                    b' <- selectKafkaBatchRecords (with_earliest (recordEarliestKafkaOffsets (pb_earliestOffsets b) fetched) b) fetched ;;
                    if pb_selectionStopped b' || (MaxBytes limits <=? pb_bytes b') || (count b' =? count b) then mret (Ok b')
                    else fill fuel (Datatypes.S n) deadline b'
                end
            end
  end.

Definition offset_le (x y : kafkaBatchRecord) : Prop := r_Offset (br_record x) <= r_Offset (br_record y).
#[global] Instance offset_le_dec : RelDecision offset_le.
Proof. intros x y. unfold offset_le. apply _. Defined.

Definition collectKafkaBatch (pollTimeout : Duration) : BM (result error (option kafkaPolledBatch)) :=
  fetches <- poll pollTimeout (MaxMessages limits) ;;
  match fetchError fetches (ba_pollErr a 0) with
  | Some err => allow ;;; mret (Err (EFmt "messenger/kafka: consume batch" [err]))
  | None =>
      match f_Records fetches with
      | [] => allow ;;; mret (Ok None)
      | first :: _ =>
          let records := f_Records fetches in
          fillStarted <- now ;;
          b <- selectKafkaBatchRecords
                 {| pb_records := []; pb_earliestOffsets := earliestKafkaOffsets records; pb_partition := partition_of_record first;
                    pb_first := first; pb_firstDeferred := None; pb_deferUntil := 0; pb_firstUnprocessed := None;
                    pb_selectionStopped := false; pb_bytes := 0; pb_fillStarted := fillStarted |} records ;;
          filled <- fill (Datatypes.S (Z.to_nat (MaxMessages limits))) 1 (fillStarted + MaxWait limits) b ;;
          mret (match filled with
                | Err err => Err err
                | Ok b => Ok (Some (with_records (merge_sort offset_le (pb_records b)) b))
                end)
      end
  end.

(** ** Outcomes *)
Record kafkaBatchFinalOutcome := { fo_item : BatchItemOutcome; fo_failureKind : string; fo_err : option error }.

Definition plain_outcome (key : Key) (fp : Fingerprint) (o : BatchOutcome) (attempt : Z) (delay : Duration) : BatchItemOutcome :=
  {| o_Key := key; o_Fingerprint := fp; o_Outcome := o; o_Attempt := attempt; o_Duplicate := false; o_Delay := delay;
     o_FailureKind := ""; o_Err := None |}.

Definition record_key (r : kafkaBatchRecord) : Key :=
  {| k_ConsumerID := kc_ConsumerID config; k_Source := md_Source (bd_metadata (br_decoded r));
     k_MessageID := md_ID (bd_metadata (br_decoded r)); k_AttemptGeneration := cm_attemptGeneration (pr_control (br_prepared r)) |}.
Definition record_item (r : kafkaBatchRecord) : BatchItem :=
  {| it_Key := record_key r; it_Fingerprint := FingerprintEnvelope (bd_canonical (br_decoded r)) |}.

(** The loop before the Inbox attempt: an outcome, or a delivery for the Inbox. *)
Definition classify (t : Time) (r : kafkaBatchRecord) : kafkaBatchFinalOutcome + BatchItem :=
  let control := pr_control (br_prepared r) in
  let metadata := bd_metadata (br_decoded r) in
  match pr_failure (br_prepared r) with
  | Some (kind, failure) =>
      inl {| fo_item := plain_outcome Key0 Fingerprint0 BatchDLQ (Z.max 1 (pr_attempt (br_prepared r))) 0;
             fo_failureKind := kind; fo_err := Some failure |}
  | None =>
      if elapsed (md_ExpiresAt metadata) t then
        inl {| fo_item := plain_outcome Key0 Fingerprint0 BatchDLQ (Z.max 1 (cm_attempt control)) 0;
               fo_failureKind := "expired"; fo_err := Some (ESentinel ErrKafkaMessageExpired) |}
      else if after (md_NotBefore metadata) t then
        inl {| fo_item := plain_outcome (record_key r) (it_Fingerprint (record_item r)) BatchDefer (cm_attempt control)
                            (Sub (md_NotBefore metadata) t);
               fo_failureKind := ""; fo_err := Some (ESentinel ErrKafkaMessageNotReady) |}
      else inr (record_item r)
  end.

(** The map [byItem]: the first record of an item. *)
Definition find_item (t : Time) (records : list kafkaBatchRecord) (it : BatchItem) : option batchDecoded :=
  br_decoded <$> List.find (fun r => match classify t r with inr it' => bool_decide (it' = it) | inl _ => false end) records.
Definition kafkaBatchDecodedMessages (active : list BatchItem) (byItem : BatchItem -> option batchDecoded) : result error (list batchDecoded) :=
  match mapM byItem active with
  | None => Err (wrapS ErrInvalidBatchResult "active Inbox item is absent")
  | Some l => Ok l
  end.

(** [c.batch.invoke] *)
Definition invoke (ctx : C) (decoded : list batchDecoded) (b : B) : B * (BatchResult * option error) :=
  match mapM bd_value decoded with
  | None => (b, ([], Some (wrapS ErrInvalidBatchResult "decoded batch message type")))
  | Some messages =>
      let i := Invoke ctxErr (Some ctx) messages (kc_ConsumerID config) (Some handler) (Middlewares limits)
                 (kc_NilPanicReporter config) "" b in
      (iv_host (in_state i), (in_result i, in_err i))
  end.
Definition batch_handler (ctx : C) (t : Time) (records : list kafkaBatchRecord) : InboxBatchHandler B := fun active b =>
  match kafkaBatchDecodedMessages active (find_item t records) with
  | Err err => (b, ([], Some err))
  | Ok decoded => invoke ctx decoded b
  end.

Definition process_batch (items : list BatchItem) (h : InboxBatchHandler B) : BM (BatchProcessResult * option error) := fun w =>
  let r := Store_ProcessBatchAttempt (Some ops) false items (kc_MaxAttempts config) (Some h) (bw_db w) (ka_inbox (ba_answers a)) in
  (set_bdb (op_db r) w, Val (op_value r, op_err r)).

Definition failClosed (err : error) : error := EFmt "kafkaBatchFailClosedError" [err].

(** After a top-level error every delivery is retried or deferred as it was. *)
Fixpoint retry_all (outcome : BatchOutcome) (delay : Duration) (err : error) (cls : list (kafkaBatchFinalOutcome + BatchItem))
    (records : list kafkaBatchRecord) : list kafkaBatchFinalOutcome :=
  match cls, records with
  | inl o :: cls, _ :: records => o :: retry_all outcome delay err cls records
  | inr it :: cls, r :: records =>
      {| fo_item := plain_outcome (it_Key it) (it_Fingerprint it) outcome (cm_attempt (pr_control (br_prepared r))) delay;
         fo_failureKind := ""; fo_err := Some err |} :: retry_all outcome delay err cls records
  | _, _ => []
  end.

Definition from_report (o : BatchItemOutcome) : kafkaBatchFinalOutcome :=
  {| fo_item := o; fo_failureKind := o_FailureKind o; fo_err := o_Err o |}.

(** ** Produced records *)
Definition makeKafkaBatchRetry (r : kafkaBatchRecord) (o : kafkaBatchFinalOutcome) : BM (result error record) :=
  delay <- (if o_Delay (fo_item o) <=? 0
            then lift (retryDelay c (ba_answers a) (Z.max 1 (o_Attempt (fo_item o)))) else mret (o_Delay (fo_item o))) ;;
  t <- now ;;
  let control := with_schedule (pr_control (br_prepared r)) (o_Attempt (fo_item o)) (t + delay) in
  let canonical := bd_canonical (br_decoded r) in
  if len canonical =? 0 then mret (Err (ENew "messenger/kafka: retry outcome has no canonical envelope"))
  else match nth_error (c_retryTopics c) (retryTier (kc_RetryTiers config) delay) with
  | None => fun w => (w, Crash)
  | Some topic =>
      mret (Ok {| r_Topic := topic; r_Partition := 0; r_Offset := 0; r_LeaderEpoch := 0; r_Key := r_Key (br_record r); r_Value := canonical;
                  r_Headers := controlHeaders formatTime control; r_Timestamp := r_Timestamp (br_record r) |})
  end.

(** The wire text always comes from the built-in sanitizer. *)
Definition makeKafkaBatchDLQ (r : kafkaBatchRecord) (o : kafkaBatchFinalOutcome) : BM (result error record) :=
  let messageID := if String.eqb (pr_messageID (br_prepared r)) "" then MessageID_String (md_ID (bd_metadata (br_decoded r)))
                   else pr_messageID (br_prepared r) in
  let failureKind := if String.eqb (fo_failureKind o) "" then "unknown" else fo_failureKind o in
  t <- now ;;
  let dlq := makeDLQRecord (kc_ConsumerID config) (br_record r) (pr_control (br_prepared r)) messageID (Z.max 1 (o_Attempt (fo_item o)))
               failureKind (match fo_err o with
                            | None => None
                            | Some err => Some (sanitizeFailure (Some (fun e => Some (kafka_defaultFailureSanitizer e))) (Some err))
                            end) t in
  mret (match encodeDLQRecord json_Marshal dlq with
        | Err err => Err err
        | Ok data => Ok {| r_Topic := c_dlqTopic c; r_Partition := 0; r_Offset := 0; r_LeaderEpoch := 0; r_Key := Sum256 data;
                           r_Value := data; r_Headers := []; r_Timestamp := kd_FailedAt dlq |}
        end).

Definition confirmable (o : kafkaBatchFinalOutcome) : bool :=
  bool_decide (o_Outcome (fo_item o) = BatchDLQ)
  && (String.eqb (fo_failureKind o) FailurePermanentKind || String.eqb (fo_failureKind o) FailureAttemptsExhausted).

Fixpoint produce (records : list kafkaBatchRecord) (outcomes : list kafkaBatchFinalOutcome) : BM (result error (list record)) :=
  match records, outcomes with
  | r :: records, o :: outcomes =>
      let more made :=
        x <- made ;;
        match x with
        | Err err => mret (Err err)
        | Ok p => rest <- produce records outcomes ;; mret (match rest with Err err => Err err | Ok l => Ok (p :: l) end)
        end in
      match o_Outcome (fo_item o) with
      | BatchACK => produce records outcomes
      | BatchRetry | BatchDefer => more (makeKafkaBatchRetry r o)
      | BatchDLQ => more (makeKafkaBatchDLQ r o)
      | BatchUnset => mret (Err (failClosed (wrapS ErrInvalidBatchResult "missing Kafka outcome")))
      end
  | _, _ => mret (Ok [])
  end.

(** ** Offsets and pauses *)
Definition setKafkaBatchProcessedOffsets (b : kafkaPolledBatch) : BM unit :=
  match last (pb_records b) with
  | None => fun w => (w, Crash)
  | Some r =>
      set_offsets (put_offset (r_Topic (br_record r)) (r_Partition (br_record r))
        {| eo_Epoch := r_LeaderEpoch (br_record r); eo_Offset := r_Offset (br_record r) + 1 |} (pb_earliestOffsets b))
  end.
Definition rewindKafkaBatch (b : kafkaPolledBatch) (selected : option record) : BM unit :=
  set_offsets (match selected with
               | None => pb_earliestOffsets b
               | Some r => put_offset (r_Topic r) (r_Partition r) {| eo_Epoch := r_LeaderEpoch r; eo_Offset := r_Offset r |} (pb_earliestOffsets b)
               end).
Definition pauseKafkaBatchPartition (r : record) (deadline : Time) : BM (option error) :=
  x <- on_session (fun s => pauseAndRewindRetryPartition s r) ;;
  let '(partition, ownedPause, err) := x in
  match err with
  | Some err => mret (Some err)
  | None =>
      on_scheduler (fun sc => (fun sc' => (sc', tt)) <$> KafkaScheduler.schedule sc partition deadline ownedPause) ;;;
      note (BvPaused partition deadline) ;;; mret None
  end.

(** ** Confirmations *)
(** The loop over the distinct handoffs until the context ends. *)
Fixpoint confirm_all (n : nat) (l : list (Key * Fingerprint)) : BM unit :=
  match l with
  | [] => mret tt
  | (key, fp) :: rest =>
      match ba_confirm a n with
      | None => mret tt
      | Some e =>
          (fun w => let r := Store_ConfirmTerminalHandoff false key fp (bw_db w) e in
                    note (BvConfirm key fp (is_nil (op_err r))) (set_bdb (op_db r) w)) ;;;
          confirm_all (Datatypes.S n) rest
      end
  end.
Definition confirmations (outcomes : list kafkaBatchFinalOutcome) : list (Key * Fingerprint) :=
  List.map (fun o => (o_Key (fo_item o), o_Fingerprint (fo_item o))) (List.filter confirmable outcomes).

(** ** The batch *)
Definition observe_now : BM unit := if kc_HasObservers config then note BvObserve else mret tt.
(** A return before the transaction or after a failure in it. *)
Definition leave_with (err : error) : BM (option error) := allow ;;; observe_now ;;; mret (Some err).

Definition finish (b : kafkaPolledBatch) (outcomes : list kafkaBatchFinalOutcome) (produced : list record) : BM (option error) :=
  setKafkaBatchProcessedOffsets b ;;;
  r <- lift (commitTransactionalRecords (ba_answers a) produced) ;;
  match r with
  | (_, Some err) => leave_with err
  | (false, None) => leave_with (ESentinel ErrTransactionNotCommitted)
  | (true, None) =>
      err <- match pb_firstDeferred b with None => mret None | Some r => pauseKafkaBatchPartition r (pb_deferUntil b) end ;;
      match err with
      | Some err => leave_with err
      | None =>
          allow ;;;
          (if ka_retention (ba_answers a) then confirm_all 0 (List.map fst (Manifest.range (list_to_map (M := gmap (Key * Fingerprint) unit) (List.map (fun x => (x, tt)) (confirmations outcomes)))))
           else mret tt) ;;;
          observe_now ;;; mret None
      end
  end.

Definition settle_outcomes (b : kafkaPolledBatch) (outcomes : list kafkaBatchFinalOutcome) : BM (option error) :=
  produced <- produce (pb_records b) outcomes ;;
  match produced with
  | Err err => leave_with err
  | Ok produced => finish b outcomes produced
  end.

Definition processKafkaBatch (ctx : C) (b : kafkaPolledBatch) : BM (option error) :=
  t <- now ;;
  let cls := List.map (classify t) (pb_records b) in
  let valid := valid_items cls in
  match valid with
  | [] => match assign cls [] with None => fun w => (w, Crash) | Some outcomes => settle_outcomes b outcomes end
  | _ =>
      x <- process_batch valid (batch_handler ctx t (pb_records b)) ;;
      let '(report, handlerErr) := (x : BatchProcessResult * option error) in
      match handlerErr with
      | Some err =>
          if IsFailClosed handlerErr then
            rewindKafkaBatch b (Some (pb_first b)) ;;; allow ;;; observe_now ;;; mret (Some (failClosed err))
          else
            streak <- set_streak (fun n => (n + 1) mod 2 ^ 64) ;;
            match DeferDelay handlerErr with
            | Some delay => settle_outcomes b (retry_all BatchDefer delay err cls (pb_records b))
            | None =>
                delay <- match RetryDelay handlerErr with Some d => mret d | None => lift (retryDelay c (ba_answers a) streak) end ;;
                settle_outcomes b (retry_all BatchRetry delay err cls (pb_records b))
            end
      | None =>
          set_streak (fun _ => 0) ;;;
          match assign cls (List.map from_report (Items report)) with
          | None => fun w => (w, Crash)
          | Some outcomes => settle_outcomes b outcomes
          end
      end
  end.
End Turn.

(** ** The loop of a session *)
Record btick := {
  bt_select : selected;
  bt_answers : batchAnswers;
  bt_readyErr : option error;       (** [ctx.Err()] in [markReady] *)
  bt_drained : bool }.              (** [drainRequested] after the collection *)

Section Session.
Context (c : Consumer B C) (kb : kafkaBatchConsumer (@BatchMiddleware B C)).
Context (decoder : Envelope -> result error batchDecoded) (handler : @BatchHandler B C T) (ctx : C).

Definition batch_markReady (err : option error) : BM unit := fun w =>
  if negb (bw_ready w) || negb (is_nil err) || negb (consumerGroupJoined (bw_session w)) then (w, Val tt)
  else note BvReady {| bw_db := bw_db w; bw_reads := bw_reads w; bw_draws := bw_draws w; bw_session := bw_session w;
                       bw_scheduler := bw_scheduler w; bw_streak := bw_streak w; bw_ready := false; bw_trace := bw_trace w |}.

Definition batch_turn (t : btick) : BM flow :=
  let a := bt_answers t in
  match bt_select t with
  | CtxDone err => mret (KafkaWorker.Return (Some err))
  | Draining => mret (KafkaWorker.Return None)
  | Default =>
      now <- lift (clock (ba_answers a)) ;;
      due <- on_scheduler (fun sc => releaseDue sc now) ;;
      (if decide (due = ∅) then mret tt else on_session (fun s => (ResumeFetchPartitions due s, tt)) ;;; note (BvResume due)) ;;;
      timeout <- on_scheduler (fun sc => pair sc <$> pollTimeout sc now Second) ;;
      if timeout <=? 0 then mret Continue
      else
        collected <- collectKafkaBatch c kb a decoder timeout ;;
        match collected with
        | Err err => mret (KafkaWorker.Return (Some err))
        | Ok polled =>
            batch_markReady (bt_readyErr t) ;;;
            match polled with
            | None => mret Continue
            | Some b =>
                if bt_drained t then rewindKafkaBatch b (Some (pb_first b)) ;;; allow ;;; mret (KafkaWorker.Return None)
                else match pb_records b, pb_firstDeferred b with
                | [], Some r =>
                    rewindKafkaBatch b (Some r) ;;;
                    err <- pauseKafkaBatchPartition r (pb_deferUntil b) ;;
                    allow ;;;
                    mret (match err with Some err => KafkaWorker.Return (Some err) | None => Continue end)
                | _, _ =>
                    err <- processKafkaBatch c kb a handler ctx b ;;
                    match err with
                    | None => mret Continue
                    | Some err =>
                        allow ;;;
                        mret (if errors_is (Some err) ErrTransactionNotCommitted then Continue else KafkaWorker.Return (Some err))
                    end
                end
            end
        end
  end.
Fixpoint batch_turns (ts : list btick) : BM flow :=
  match ts with
  | [] => mret Continue
  | t :: ts => f <- batch_turn t ;; match f with Continue => batch_turns ts | KafkaWorker.Return err => mret (KafkaWorker.Return err) end
  end.

(** A run of finitely many turns from a new session. *)
Definition runKafkaBatchSession (ready : bool) (readyErr : option error) (d : DB B) (s : S) (ts : list btick) : bworld * comp flow :=
  (batch_markReady readyErr ;;; batch_turns ts)
    {| bw_db := d; bw_reads := 0; bw_draws := 0; bw_session := s; bw_scheduler := newRetryPartitionScheduler; bw_streak := 0;
       bw_ready := ready; bw_trace := [] |}.
End Session.
End Batch.
Arguments batchDecoded : clear implicits.
Arguments kafkaBatchRecord : clear implicits.
Arguments kafkaPolledBatch : clear implicits.
Arguments bworld : clear implicits.
End KafkaBatch.
