(* ===== verification/KafkaBatchProofs.v ===== *)
(** * The records of a Kafka batch

    What [collectKafkaBatch] does, for every session, clock and content of the
    records: it returns within its bound of turns, the batch is a prefix of what
    was polled from one topic-partition and keeps the limits, and the offsets it
    keeps cover every record that is not in the batch. *)
From S2P Require Import Prelude GoStrings GoText Digest Errors Backoff Ident Batch Envelope Inbox InboxSQL InboxSpec InboxEffects InboxStore InboxBatch InboxBatchStore Middleware Delivery Builder Manifest KafkaTopic KafkaControl KafkaConsumer KafkaDelivery KafkaScheduler KafkaWorker KafkaBatch.
From stdpp Require Import sorting.
Import Stdlib.Strings.String.
Import Sha256 Backoff Delivery Envelope KafkaTopic KafkaControl KafkaDLQ KafkaConsumer KafkaDelivery KafkaScheduler KafkaWorker KafkaBatch.
Open Scope string_scope.
Open Scope Z_scope.

Module KafkaBatchProofs.

(** ** Offsets of partitions *)
Definition offset_at (o : offsets) (p : topicPartition) : option EpochOffset := default ∅ (o !! tp_topic p) !! tp_partition p.
Definition epoch_offset (r : record) : EpochOffset := {| eo_Epoch := r_LeaderEpoch r; eo_Offset := r_Offset r |}.

(** The offset of every record's partition is at most the record's. *)
Definition covers (o : offsets) (r : record) : Prop :=
  exists e, offset_at o (partition_of_record r) = Some e /\ eo_Offset e <= r_Offset r.
(** The offsets are the smallest of the records, partition by partition. *)
Definition earliest (P : list record) (o : offsets) : Prop :=
  (forall r, r ∈ P -> covers o r) /\
  (forall p e, offset_at o p = Some e -> exists r, r ∈ P /\ partition_of_record r = p /\ e = epoch_offset r).

Lemma offset_at_put topic p e o q :
  offset_at (put_offset topic p e o) q =
  if decide (q = {| tp_topic := topic; tp_partition := p |}) then Some e else offset_at o q.
Proof.
  destruct q as [t z]. unfold offset_at, put_offset, offsets in *. cbn [tp_topic tp_partition]. destruct (decide (topic = t)) as [->|Ht].
  - rewrite lookup_insert_eq. cbn [from_option id]. destruct (decide (p = z)) as [->|Hz].
    + by rewrite lookup_insert_eq, decide_True.
    + rewrite lookup_insert_ne by done. rewrite decide_False by (intros [= ]; done). done.
  - rewrite lookup_insert_ne by done. by rewrite decide_False by (intros [= ]; done).
Qed.

Lemma record_earliest_put o r :
  record_earliest o r =
  match offset_at o (partition_of_record r) with
  | Some e => if r_Offset r <? eo_Offset e then put_offset (r_Topic r) (r_Partition r) (epoch_offset r) o else o
  | None => put_offset (r_Topic r) (r_Partition r) (epoch_offset r) o
  end.
Proof. done. Qed.

Lemma earliest_snoc P o r : earliest P o -> earliest (P ++ [r]) (record_earliest o r).
Proof.
  intros [Hc Hs]. rewrite record_earliest_put.
  assert (forall e, offset_at o (partition_of_record r) = Some e -> r_Offset r < eo_Offset e \/ eo_Offset e <= r_Offset r) as Htot by lia.
  assert ((forall e, offset_at o (partition_of_record r) = Some e -> r_Offset r < eo_Offset e) ->
    earliest (P ++ [r]) (put_offset (r_Topic r) (r_Partition r) (epoch_offset r) o)) as Hput.
  { intros Hlt. split.
    - intros x Hx. unfold covers. rewrite offset_at_put. fold (partition_of_record r).
      destruct (decide _) as [E|Hne].
      + exists (epoch_offset r). split; [done|]. cbn. apply elem_of_app in Hx as [Hx| ->%list_elem_of_singleton]; [|done].
        destruct (Hc x Hx) as (e & He & Hle). rewrite E in He. specialize (Hlt e He). lia.
      + apply elem_of_app in Hx as [Hx| ->%list_elem_of_singleton]; [by apply Hc|done].
    - intros p e. rewrite offset_at_put. fold (partition_of_record r). destruct (decide _) as [->|_].
      + intros [= <-]. exists r. split_and!; [|done..]. apply elem_of_app. right. by apply list_elem_of_singleton.
      + intros (x & Hx & ?)%Hs. exists x. split; [|done]. apply elem_of_app. by left. }
  assert (forall e, offset_at o (partition_of_record r) = Some e -> eo_Offset e <= r_Offset r -> earliest (P ++ [r]) o) as Hkeep.
  { intros e He Hle. split.
    - intros x [Hx| ->%list_elem_of_singleton]%elem_of_app; [by apply Hc|by exists e].
    - intros p e' (x & Hx & ?)%Hs. exists x. split; [|done]. apply elem_of_app. by left. }
  destruct (offset_at o (partition_of_record r)) as [e|]; [|by apply Hput].
  destruct (Z.ltb_spec (r_Offset r) (eo_Offset e)); [apply Hput; by intros ? [= <-]|by eapply Hkeep].
Qed.

Lemma earliest_app P o rs : earliest P o -> earliest (P ++ rs) (recordEarliestKafkaOffsets o rs).
Proof.
  revert P o. induction rs as [|r rs IH]; intros P o He; [by rewrite app_nil_r|].
  cbn. rewrite cons_middle, app_assoc. apply IH. by apply earliest_snoc.
Qed.
Lemma earliest_of rs : earliest rs (earliestKafkaOffsets rs).
Proof.
  apply (earliest_app [] ∅ rs). split; [by intros ? ?%not_elem_of_nil|]. intros p e. unfold offset_at, offsets. by rewrite lookup_empty.
Qed.

Lemma sorted_of_map {A A'} (f : A -> A') (R : A' -> A' -> Prop) l :
  StronglySorted R (List.map f l) -> StronglySorted (fun x y => R (f x) (f y)) l.
Proof.
  induction l as [|x l IH]; intros Hs; [constructor|]. apply StronglySorted_inv in Hs as [Hs Hf].
  constructor; [by apply IH|]. by apply List.Forall_map.
Qed.

(** Records come in the order of their offsets from each partition. *)
Definition in_order (P : list record) : Prop :=
  StronglySorted (fun r s => partition_of_record r = partition_of_record s -> r_Offset r < r_Offset s) P.
Definition of_partition (p : topicPartition) (P : list record) : list record :=
  List.filter (fun r => bool_decide (partition_of_record r = p)) P.

Lemma of_partition_snoc p P r :
  of_partition p (P ++ [r]) = (of_partition p P ++ if bool_decide (partition_of_record r = p) then [r] else [])%list.
Proof. unfold of_partition. by rewrite List.filter_app. Qed.
Lemma elem_of_partition p P r : r ∈ of_partition p P <-> r ∈ P /\ partition_of_record r = p.
Proof. unfold of_partition. by rewrite !list_elem_of_In, filter_In, bool_decide_eq_true. Qed.
Lemma of_partition_sorted p P : in_order P -> StronglySorted (fun r s => r_Offset r < r_Offset s) (of_partition p P).
Proof.
  unfold in_order. induction 1 as [|r P Hs IH Hf]; cbn; [constructor|]. case_bool_decide as E; [|done]. constructor; [done|].
  rewrite Forall_forall in Hf |- *. intros s [Hs' Ep]%elem_of_partition. apply Hf; congruence.
Qed.

Section Selection.
Context {B C T S : Type} {collate : string -> string -> bool} `{!InboxBackend B collate, !EnvelopeJSON}.
Context `{!transactionalConsumerSession S, !Manifest.MapRange}.
Context (ToLower : string -> string) (parseTime : string -> option Time).
Context (c : Consumer B C) (kb : kafkaBatchConsumer (@BatchMiddleware B C)) (a : batchAnswers).
Context (decoder : Envelope -> result error (batchDecoded T)).
Abbreviation limits := (kb_config kb).
Abbreviation world := (bworld B S).
Abbreviation batch := (kafkaPolledBatch T).
Abbreviation returns V := (pending (fun _ => False) V).

(** ** What one step of the selection does *)
(** A record that cannot be processed is not one the Inbox has closed. *)
Definition unprocessable (kind : string) : Prop := kind <> FailurePermanentKind /\ kind <> FailureAttemptsExhausted.
Definition prepares (r : record) (p : preparedRecord) : Prop :=
  prepared_ok ToLower parseTime c r p /\ forall kind err, pr_failure p = Some (kind, err) -> unprocessable kind.
Definition is_item (x : kafkaBatchRecord T) : Prop :=
  exists p, prepares (br_record x) p /\ pr_retryAt p = 0 /\ x = batch_item decoder (br_record x) p.
Definition same_message (x y : kafkaBatchRecord T) : Prop :=
  md_ID (bd_metadata (br_decoded x)) = md_ID (bd_metadata (br_decoded y)) /\
  md_Source (bd_metadata (br_decoded x)) = md_Source (bd_metadata (br_decoded y)).
Definition generation (x : kafkaBatchRecord T) : string := cm_attemptGeneration (pr_control (br_prepared x)).
Definition total_bytes (l : list (kafkaBatchRecord T)) : Z := foldr (fun x n => br_bytes x + n) 0 l.

(** The batch after the records [P] were polled. *)
Record selection (P rest : list record) (b : batch) : Prop := {
  sel_prefix : of_partition (pb_partition b) P = (List.map br_record (pb_records b) ++ rest)%list;
  sel_unprocessed : pb_firstUnprocessed b = head rest;
  sel_stopped : rest <> [] -> pb_selectionStopped b = true;
  sel_deferred : forall r, pb_firstDeferred b = Some r ->
    head rest = Some r /\ exists control, control_of ToLower parseTime c r control /\ pb_deferUntil b = cm_notBefore control;
  sel_empty : pb_records b = [] -> pb_firstDeferred b = head rest /\ (rest = [] -> pb_selectionStopped b = false);
  sel_count : count b <= MaxMessages limits;
  sel_bytes : pb_bytes b = total_bytes (pb_records b);
  sel_limit : pb_bytes b <= MaxBytes limits \/ count b <= 1;
  sel_generation : forall x y, x ∈ pb_records b -> y ∈ pb_records b -> same_message x y ->
    MessageID_IsZero (md_ID (bd_metadata (br_decoded x))) = false -> generation x = generation y;
  sel_items : Forall is_item (pb_records b) }.

(** What the selection never changes. *)
Definition grown (b b' : batch) : Prop :=
  pb_partition b' = pb_partition b /\ pb_first b' = pb_first b /\ pb_earliestOffsets b' = pb_earliestOffsets b /\
  pb_records b `prefix_of` pb_records b'.
#[local] Instance grown_preorder : PreOrder grown.
Proof.
  split; [by intros b|]. intros b1 b2 b3 (E1 & E2 & E3 & H1) (F1 & F2 & F3 & H2). unfold grown. rewrite F1, F2, F3.
  split_and!; [done..|by etrans].
Qed.

Lemma selection_other P rest b r : partition_of_record r <> pb_partition b -> selection P rest b -> selection (P ++ [r]) rest b.
Proof.
  intros Hne []. constructor; try done. rewrite of_partition_snoc, bool_decide_eq_false_2 by done. by rewrite app_nil_r.
Qed.
Lemma selection_here P rest b r : partition_of_record r = pb_partition b -> selection P rest b ->
  of_partition (pb_partition b) (P ++ [r]) = (List.map br_record (pb_records b) ++ rest ++ [r])%list.
Proof. intros He Hs. rewrite of_partition_snoc, bool_decide_eq_true_2, (sel_prefix _ _ _ Hs) by done. by rewrite app_assoc. Qed.

(** A record after the end of the selection is left. *)
Lemma selection_full P rest b r : 1 <= MaxMessages limits -> partition_of_record r = pb_partition b -> selection P rest b ->
  pb_selectionStopped b || (MaxMessages limits <=? count b) = true ->
  selection (P ++ [r]) (rest ++ [r]) (stop_at None (match pb_firstUnprocessed b with None => Some r | u => u end) b).
Proof.
  intros HM He Hs Hstop. pose proof (selection_here _ _ _ _ He Hs) as Hp. destruct Hs as [_ Hun Hst Hdef Hemp Hcount Hbytes Hlim Hgen Hit].
  constructor; try done; cbn.
  - rewrite Hun. by destruct rest.
  - intros x Hx. destruct (Hdef x Hx) as [Hh ?]. split; [|done]. by destruct rest.
  - intros Hnil. destruct (Hemp Hnil) as [Hd Hz]. split; [|by destruct rest]. rewrite Hd. destruct rest; [|done].
    rewrite Hz in Hstop by done. unfold count in Hstop. rewrite Hnil in Hstop. apply Z.leb_le in Hstop. cbn in Hstop. lia.
Qed.

(** A record that stops the selection. *)
Lemma selection_stop P b r deferred : partition_of_record r = pb_partition b -> selection P [] b ->
  match deferred with
  | Some (r', t) => r' = r /\ exists control, control_of ToLower parseTime c r control /\ t = cm_notBefore control
  | None => pb_records b <> []
  end -> selection (P ++ [r]) [r] (stop_at deferred (Some r) b).
Proof.
  intros He Hs Hd. pose proof (selection_here _ _ _ _ He Hs) as Hp. destruct Hs as [_ Hun Hst Hdef Hemp Hcount Hbytes Hlim Hgen Hit].
  constructor; try done; cbn.
  - intros x. destruct deferred as [[r' t]|]; cbn.
    + intros [= <-]. by destruct Hd as [-> ?].
    + by intros [Hx _]%Hdef.
  - intros Hnil. destruct deferred as [[r' t]|]; [|done]. cbn. by destruct Hd as [-> _].
Qed.

Lemma conflict_free l x : hasKafkaBatchConflictingGeneration l x = false ->
  forall y, y ∈ l -> same_message x y -> MessageID_IsZero (md_ID (bd_metadata (br_decoded x))) = false -> generation x = generation y.
Proof.
  unfold hasKafkaBatchConflictingGeneration. intros Hc y Hy [Hi Hs] Hz. rewrite Hz in Hc.
  destruct (String.eqb_spec (generation y) (generation x)) as [->|Hne]; [done|]. exfalso.
  assert (existsb (fun prev => String.eqb (md_ID (bd_metadata (br_decoded prev))) (md_ID (bd_metadata (br_decoded x)))
    && String.eqb (md_Source (bd_metadata (br_decoded prev))) (md_Source (bd_metadata (br_decoded x)))
    && negb (String.eqb (generation prev) (generation x))) l = true) as Hex; [|unfold generation in Hex; congruence].
  apply existsb_exists. exists y. split; [by apply list_elem_of_In|]. rewrite Hi, Hs, !String.eqb_refl. by apply negb_true_iff, String.eqb_neq.
Qed.

Lemma total_bytes_snoc l x : total_bytes (l ++ [x]) = total_bytes l + br_bytes x.
Proof. unfold total_bytes. rewrite foldr_app. cbn. induction l; cbn; lia. Qed.

Lemma selection_add P b x : partition_of_record (br_record x) = pb_partition b -> selection P [] b -> is_item x ->
  count b < MaxMessages limits -> hasKafkaBatchConflictingGeneration (pb_records b) x = false ->
  negb (count b =? 0) && (MaxBytes limits - pb_bytes b <? br_bytes x) = false ->
  selection (P ++ [br_record x]) [] (add_record (MaxBytes limits) x b).
Proof.
  intros He Hs Hx Hfree Hconf Hfit. pose proof (selection_here _ _ _ _ He Hs) as Hp.
  destruct Hs as [_ Hun Hst Hdef Hemp Hcount Hbytes Hlim Hgen Hit]. unfold count in *.
  assert (forall y, y ∈ pb_records b -> same_message y x -> MessageID_IsZero (md_ID (bd_metadata (br_decoded y))) = false ->
    generation y = generation x) as Hnew.
  { intros y Hy Hm Hz. symmetry. apply (conflict_free _ _ Hconf y Hy); [by destruct Hm|]. destruct Hm as [<- _]. done. }
  constructor; unfold count; cbn; try done.
  - rewrite map_app. by rewrite Hp, app_nil_r.
  - by intros [_ ?]%app_eq_nil.
  - rewrite length_app. cbn. lia.
  - rewrite total_bytes_snoc. lia.
  - rewrite length_app. cbn. lia.
  - intros y z [Hy| ->%list_elem_of_singleton]%elem_of_app [Hz| ->%list_elem_of_singleton]%elem_of_app; [by apply Hgen|by apply Hnew| |done].
    intros. by apply (conflict_free _ _ Hconf).
  - apply Forall_app. split; [done|]. by apply Forall_singleton.
Qed.

(** ** The selection in the worker's state *)
(** What every record of the session has. *)
Context (good : record -> Prop) (Hgood : forall timeout n s r, r ∈ f_Records (PollRecords timeout n s).2 -> good r).

(** Nothing but polls happened since [w0]. *)
Definition since (w0 : world) (polls : list (list record)) (w : world) : Prop :=
  bw_db w = bw_db w0 /\ bw_scheduler w = bw_scheduler w0 /\ bw_streak w = bw_streak w0 /\ bw_ready w = bw_ready w0 /\
  bw_trace w = (bw_trace w0 ++ List.map BvPolled polls)%list /\ Forall good (List.concat polls).

Lemma prepareRecord_quiet r d n k :
  let w := {| w_db := d; KafkaConsumer.w_trace := []; w_reads := n; w_draws := k |} in
  exists p w', prepareRecord ToLower parseTime c (ba_answers a) r w = (w', Val p) /\ prepares r p /\
    w_db w' = d /\ KafkaConsumer.w_trace w' = [].
Proof.
  intros w. pose proof (prepareRecord_ok ToLower parseTime c (ba_answers a) r d w) as Hp.
  assert (KafkaConsumer.w_trace (prepareRecord ToLower parseTime c (ba_answers a) r w).1 = [] /\
    forall p, (prepareRecord ToLower parseTime c (ba_answers a) r w).2 = Val p ->
      forall kind err, pr_failure p = Some (kind, err) -> unprocessable kind) as [Ht Hk].
  { unfold prepareRecord, mbind, clock, mret. repeat case_goal; (split; [done|]); intros p [= <-] kind err [= <- <-]; done. }
  destruct (prepareRecord _ _ _ _ _ w) as [w' [p| |]]; cbn in Hp, Ht; try (by destruct Hp).
  destruct Hp as [[_ Hd] Hp]; [done|]. exists p, w'. split_and!; [done|split; [done|by apply Hk]|done..].
Qed.

Lemma since_prepare w0 ls r Q :
  triple (since w0 ls) (lift (prepareRecord ToLower parseTime c (ba_answers a) r)) (pending Q (fun p w => since w0 ls w /\ prepares r p)).
Proof.
  intros w (Hd & Hsc & Hst & Hr & Ht & Hg). unfold lift.
  destruct (prepareRecord_quiet r (bw_db w) (bw_reads w) (bw_draws w)) as (p & w' & -> & Hp & Hd' & Ht'). cbn.
  rewrite Ht'. cbn. rewrite app_nil_r. unfold since. cbn. by rewrite Hd'.
Qed.
Lemma since_now w0 ls Q : triple (since w0 ls) (lift (clock (ba_answers a))) (pending Q (fun _ => since w0 ls)).
Proof. intros w Hw. unfold lift, since in *. cbn. by rewrite app_nil_r. Qed.
Lemma since_poll w0 ls t m Q : triple (since w0 ls) (poll t m) (pending Q (fun f => since w0 (ls ++ [f_Records f]))).
Proof.
  intros w (Hd & Hsc & Hst & Hr & Ht & Hg). unfold poll, on_session, note, mbind, mret. pose proof (Hgood t m (bw_session w)) as Hnew.
  destruct (PollRecords _ _ _) as [s f]. cbn in *. unfold since. cbn. rewrite Ht, map_app, app_assoc. split_and!; [done..|].
  rewrite concat_app. apply Forall_app. split; [done|]. cbn. rewrite app_nil_r. by apply Forall_forall.
Qed.

Context (Hmax : 1 <= MaxMessages limits).
Definition chosen (P : list record) (b : batch) : Prop := exists rest, selection P rest b.

Lemma select_record_ok w0 ls P b r : chosen P b ->
  triple (since w0 ls) (select_record ToLower parseTime c kb a decoder b r)
    (returns (fun b' w => since w0 ls w /\ chosen (P ++ [r]) b' /\ grown b b')).
Proof.
  intros [rest Hs]. unfold select_record. case_bool_decide as He; cbn [negb].
  2:{ apply triple_ret. intros w Hw. split_and!; [done| |done]. exists rest. by apply selection_other. }
  destruct (pb_selectionStopped b || _) eqn:Estop.
  { apply triple_ret. intros w Hw. split_and!; [done| |done]. exists (rest ++ [r])%list. by apply selection_full. }
  apply orb_false_iff in Estop as [Estop Efull]. apply Z.leb_gt in Efull.
  assert (rest = []) as -> by (destruct rest; [done|]; pose proof (sel_stopped _ _ _ Hs ltac:(done)); congruence).
  eapply triple_bind; [apply since_prepare|]. intros p w [Hw Hp]. revert w Hw. unfold IsZero.
  destruct (Z.eqb_spec (pr_retryAt p) 0) as [Hz|Hz]; cbn [negb]; apply triple_ret; intros w Hw; (split; [done|]).
  2:{ split; [|done]. exists [r]. apply selection_stop; [done..|]. split; [done|]. destruct Hp as [Hp _]. unfold prepared_ok in Hp.
      destruct (pr_failure p); [by destruct Hp|]. destruct Hp as (Hc & _ & Ht). exists (pr_control p). split; [done|]. by apply Ht. }
  assert (br_record (batch_item decoder r p) = r) as Hr by (unfold batch_item; repeat case_goal; done).
  destruct (hasKafkaBatchConflictingGeneration _ _) eqn:Ec.
  { split; [|done]. exists [r]. apply selection_stop; [done..|]. intros Hnil. rewrite Hnil in Ec. revert Ec.
    unfold hasKafkaBatchConflictingGeneration. by destruct (MessageID_IsZero _). }
  destruct (_ && _) eqn:Ef.
  { split; [|done]. exists [r]. apply selection_stop; [done..|]. intros Hnil. unfold count in Ef. by rewrite Hnil in Ef. }
  split; [exists []|].
  - rewrite <- Hr at 1. apply selection_add; [by rewrite Hr|done| |done..]. exists p. by rewrite Hr.
  - split_and!; [done..|]. by eexists.
Qed.

Lemma select_ok w0 ls P b rs : chosen P b ->
  triple (since w0 ls) (selectKafkaBatchRecords ToLower parseTime c kb a decoder b rs)
    (returns (fun b' w => since w0 ls w /\ chosen (P ++ rs) b' /\ grown b b')).
Proof.
  revert P b. induction rs as [|r rs IH]; intros P b Hs; cbn [selectKafkaBatchRecords].
  { apply triple_ret. intros w Hw. by rewrite app_nil_r. }
  eapply triple_bind; [by apply select_record_ok|]. intros b' w (Hw & Hs' & Hg). revert w Hw.
  eapply triple_weaken; [by apply IH|done|done|]. intros b2 w (Hw & Hs2 & Hg2). rewrite <- app_assoc in Hs2. split_and!; [done..|]. by etrans.
Qed.

(** ** Filling *)
Definition held (P : list record) (b : batch) : Prop :=
  chosen P b /\ earliest P (pb_earliestOffsets b) /\ head P = Some (pb_first b) /\ pb_partition b = partition_of_record (pb_first b).

Lemma chosen_earliest P o b : chosen P b -> chosen P (with_earliest o b).
Proof. intros [rest []]. exists rest. by constructor. Qed.
Lemma chosen_count P b : chosen P b -> count b <= MaxMessages limits.
Proof. intros [rest Hs]. apply (sel_count _ _ _ Hs). Qed.
Lemma grown_count b b' : grown b b' -> count b <= count b'.
Proof. intros (_ & _ & _ & Hp%prefix_length). unfold count. lia. Qed.

(** The polls so far, and the batch they gave. *)
Definition filled (w0 : world) (x : result error batch) (w : world) : Prop :=
  exists polls, since w0 polls w /\ match x with Err _ => True | Ok b => held (List.concat polls) b end.

Lemma fill_ok w0 fuel : forall n deadline polls b, held (List.concat polls) b -> MaxMessages limits - count b < Z.of_nat fuel ->
  triple (since w0 polls) (fill ToLower parseTime c kb a decoder fuel n deadline b) (returns (filled w0)).
Proof.
  induction fuel as [|fuel IH]; intros n deadline polls b Hb Hfuel.
  { pose proof (chosen_count _ _ (proj1 Hb)). lia. }
  assert (triple (since w0 polls) (mret (Ok b)) (returns (filled w0))) as Hret
    by (apply triple_ret; intros w Hw; by exists polls).
  cbn [fill]. destruct (_ || _ || _); [done|].
  eapply triple_bind; [apply since_now|]. intros t. destruct (_ || _); [done|].
  eapply triple_bind; [apply since_now|]. intros t'. destruct (_ <=? 0); [done|].
  eapply triple_bind; [apply since_poll|]. intros more.
  destruct (fetchError _ _). { apply triple_ret. intros w Hw. by eexists. }
  destruct (f_Records more) as [|r fetched].
  { apply triple_ret. intros w Hw. exists (polls ++ [[]])%list. split; [done|]. cbn. by rewrite concat_app, app_nil_r. }
  destruct Hb as (Hs & He & Hf & Hp).
  eapply triple_bind; [apply select_ok, chosen_earliest; exact Hs|]. intros b' w (Hw & Hs' & Hg). revert w Hw.
  assert (List.concat (polls ++ [r :: fetched]) = List.concat polls ++ r :: fetched)%list as HP by (rewrite concat_app; cbn; by rewrite app_nil_r).
  assert (held (List.concat (polls ++ [r :: fetched])) b') as Hb'.
  { pose proof Hg as (E1 & E2 & E3 & _). cbn in E1, E2, E3. unfold held. rewrite HP, E1, E2, E3. split_and!; [done|by apply (earliest_app _ _ (r :: fetched))| |done].
    by destruct (List.concat polls). }
  destruct (_ || _) eqn:Eg. { apply triple_ret. intros w Hw. by exists (polls ++ [r :: fetched])%list. }
  apply orb_false_iff in Eg as [_ Eg%Z.eqb_neq]. apply IH; [done|]. pose proof (grown_count _ _ Hg) as Hle.
  change (count (with_earliest (recordEarliestKafkaOffsets (pb_earliestOffsets b) (r :: fetched)) b)) with (count b) in Hle. lia.
Qed.

(** ** The batch *)
(** The batch holds the first records of a partition, within the limits, and the
    kept offsets are the first polled ones. *)
Record selected (P : list record) (b : batch) : Prop := {
  ch_first : head P = Some (pb_first b);
  ch_prefix : exists rest,
    of_partition (partition_of_record (pb_first b)) P = (List.map br_record (pb_records b) ++ rest)%list /\
    pb_firstUnprocessed b = head rest /\
    (forall r, pb_firstDeferred b = Some r -> head rest = Some r /\
       exists control, control_of ToLower parseTime c r control /\ pb_deferUntil b = cm_notBefore control);
  ch_work : pb_records b <> [] \/ pb_firstDeferred b = Some (pb_first b);
  ch_count : count b <= MaxMessages limits;
  ch_bytes : total_bytes (pb_records b) <= MaxBytes limits \/ count b <= 1;
  ch_generation : forall x y, x ∈ pb_records b -> y ∈ pb_records b -> same_message x y ->
    MessageID_IsZero (md_ID (bd_metadata (br_decoded x))) = false -> generation x = generation y;
  ch_items : Forall is_item (pb_records b);
  ch_earliest : earliest P (pb_earliestOffsets b) }.

Lemma sorted_inj (l : list (kafkaBatchRecord T)) :
  StronglySorted (fun x y => r_Offset (br_record x) < r_Offset (br_record y)) l ->
  forall x y, x ∈ l -> y ∈ l -> r_Offset (br_record x) = r_Offset (br_record y) -> x = y.
Proof.
  induction 1 as [|z l _ IH Hf]; intros x y Hx Hy E; [by apply not_elem_of_nil in Hx|]. rewrite Forall_forall in Hf.
  apply elem_of_cons in Hx as [->|Hx], Hy as [->|Hy]; [done| | |by apply IH].
  - specialize (Hf y Hy). cbn in Hf. lia.
  - specialize (Hf x Hx). cbn in Hf. lia.
Qed.
Lemma sorted_id (l : list (kafkaBatchRecord T)) :
  StronglySorted (fun x y => r_Offset (br_record x) < r_Offset (br_record y)) l -> merge_sort offset_le l = l.
Proof.
  intros Hl. assert (Transitive (offset_le (T := T))) by (intros ? ? ?; unfold offset_le; lia).
  assert (Total (offset_le (T := T))) by (intros ? ?; unfold offset_le; lia).
  apply (StronglySorted_unique_strong offset_le); [|by apply StronglySorted_merge_sort| |by apply merge_sort_Permutation].
  - intros x y Hx Hy Hxy Hyx. rewrite merge_sort_Permutation in Hx. unfold offset_le in *.
    apply (sorted_inj l Hl x y Hx Hy). lia.
  - clear -Hl. induction Hl as [|x l _ IH Hf]; constructor; [done|]. eapply Forall_impl; [exact Hf|]. unfold offset_le. cbn. lia.
Qed.

Lemma held_selected P b : in_order P -> held P b -> selected P (with_records (merge_sort offset_le (pb_records b)) b).
Proof.
  intros Hord ((rest & Hs) & He & Hf & Hp). pose proof (of_partition_sorted (pb_partition b) P Hord) as Hsort.
  pose proof (sel_prefix _ _ _ Hs) as Hpre. rewrite Hpre in Hsort. apply StronglySorted_app in Hsort as (_ & Hsort & _).
  rewrite (sorted_id _ (sorted_of_map _ _ _ Hsort)).
  assert (with_records (pb_records b) b = b) as -> by by destruct b.
  destruct Hs as [_ Hun Hst Hdef Hemp Hcount Hbytes Hlim Hgen Hit]. rewrite Hp in Hpre. constructor; try done.
  - by exists rest.
  - destruct (pb_records b) as [|x l] eqn:El; [right|by left]. destruct (Hemp eq_refl) as [-> _]. cbn in Hpre. rewrite <- Hpre.
    destruct P as [|r P]; [done|]. injection Hf as ->. cbn. by rewrite bool_decide_eq_true_2.
  - by rewrite <- Hbytes.
Qed.

(** A batch that can be processed or deferred. *)
Definition usable (P : list record) (b : batch) : Prop :=
  (pb_records b = [] -> pb_firstDeferred b <> None) /\ Forall is_item (pb_records b) /\ Forall (fun x => br_record x ∈ P) (pb_records b).

Lemma held_usable P b : held P b -> usable P (with_records (merge_sort offset_le (pb_records b)) b).
Proof.
  intros ((rest & Hs) & _ & Hf & Hp). unfold usable. cbn. pose proof (merge_sort_Permutation offset_le (pb_records b)) as Hl.
  set (l := merge_sort _ _) in *. clearbody l. pose proof (sel_prefix _ _ _ Hs) as Hpre. split_and!.
  - intros ->. symmetry in Hl. apply Permutation_nil_r in Hl. destruct (sel_empty _ _ _ Hs Hl) as [-> _]. rewrite Hl in Hpre. cbn in Hpre. rewrite <- Hpre, Hp.
    destruct P as [|r P]; [done|]. injection Hf as ->. cbn. by rewrite bool_decide_eq_true_2.
  - rewrite Hl. by apply (sel_items _ _ _ Hs).
  - rewrite Hl. apply Forall_forall. intros x Hx.
    assert (br_record x ∈ of_partition (pb_partition b) P) as Hin; [|by apply elem_of_partition in Hin as [? _]].
    rewrite Hpre. apply elem_of_app. left. by apply list_elem_of_fmap_2.
Qed.

(** What a collection leaves: nothing but polls, and [AllowRebalance] when there
    is no batch. *)
Definition collected (w0 : world) (x : result error (option batch)) (w : world) : Prop :=
  exists polls tail,
    bw_db w = bw_db w0 /\ bw_scheduler w = bw_scheduler w0 /\ bw_streak w = bw_streak w0 /\ bw_ready w = bw_ready w0 /\
    bw_trace w = (bw_trace w0 ++ List.map BvPolled polls ++ tail)%list /\ Forall good (List.concat polls) /\
    match x with
    | Err _ => tail = [] \/ tail = [BvAllowRebalance]
    | Ok None => polls = [[]] /\ tail = [BvAllowRebalance]
    | Ok (Some b) => tail = [] /\ usable (List.concat polls) b /\ (in_order (List.concat polls) -> selected (List.concat polls) b)
    end.

Lemma collect_ok timeout w0 : triple (since w0 []) (collectKafkaBatch ToLower parseTime c kb a decoder timeout) (returns (collected w0)).
Proof.
  unfold collectKafkaBatch. eapply triple_bind; [apply since_poll|]. intros fetches. cbn [app].
  assert (forall (x : result error (option batch)) polls, match x with Ok None => polls = [[]] | Err _ => True | Ok (Some _) => False end ->
    triple (since w0 polls) (mbind allow (fun _ => mret x)) (returns (collected w0))) as Hallow.
  { intros x polls Hx w (Hd & Hsc & Hst & Hr & Ht & Hg). cbn. exists polls, [BvAllowRebalance]. cbn. rewrite Ht, app_assoc.
    split_and!; [done..|]. destruct x as [[b|]|]; [done|done|by right]. }
  destruct (fetchError _ _); [by apply Hallow|]. destruct (f_Records fetches) as [|first records]; [by apply Hallow|].
  eapply triple_bind; [apply since_now|]. intros fillStarted. eapply triple_bind; [apply (select_ok w0 _ [])|].
  { exists []. constructor; try done; unfold count; cbn; [lia|right; lia|by intros ? ? ?%not_elem_of_nil]. }
  intros b w (Hw & Hs & Hg). revert w Hw. pose proof Hg as (E1 & E2 & E3 & _). cbn in E1, E2, E3.
  eapply triple_bind; [apply fill_ok|].
  - cbn [List.concat]. rewrite app_nil_r. unfold held. rewrite E1, E2, E3. split_and!; [done|apply (earliest_of (first :: records))|done..].
  - unfold count. lia.
  - intros x. apply triple_ret. intros w (polls & (Hd & Hsc & Hst & Hr & Ht & Hgd) & Hx). exists polls, []. rewrite app_nil_r. split_and!; [done..|].
    destruct x as [b'|]; [|by left]. split_and!; [done|by apply held_usable|]. intros Hord. by apply held_selected.
Qed.

(** The offsets before which everything is in the batch. *)
Lemma selected_covered P b x : in_order P -> selected P b -> last (pb_records b) = Some x ->
  let o := put_offset (r_Topic (br_record x)) (r_Partition (br_record x))
    {| eo_Epoch := r_LeaderEpoch (br_record x); eo_Offset := r_Offset (br_record x) + 1 |} (pb_earliestOffsets b) in
  forall r, r ∈ P -> (exists y, y ∈ pb_records b /\ br_record y = r) \/ covers o r.
Proof using.
  clear good Hgood Hmax.
  intros Hord Hs Hl o r Hr. destruct (ch_prefix _ _ Hs) as (rest & Hp & _ & _).
  assert (forall y, y ∈ (List.map br_record (pb_records b) ++ rest)%list -> partition_of_record y = partition_of_record (pb_first b)) as Hpart
    by (intros y; rewrite <- Hp, elem_of_partition; tauto).
  apply last_Some in Hl as [l El].
  assert (partition_of_record (br_record x) = partition_of_record (pb_first b)) as Hx.
  { apply Hpart. rewrite El, map_app. cbn. set_solver. }
  unfold covers, o. rewrite offset_at_put. fold (partition_of_record (br_record x)).
  destruct (decide _) as [E|Hne]; [|right; by apply (ch_earliest _ _ Hs)].
  assert (r ∈ of_partition (partition_of_record (pb_first b)) P) as Hin by (apply elem_of_partition; split; congruence).
  pose proof (of_partition_sorted (partition_of_record (pb_first b)) P Hord) as Hsort. rewrite Hp in Hin, Hsort.
  apply elem_of_app in Hin as [Hin|Hin].
  - left. apply list_elem_of_In, in_map_iff in Hin as (y & ? & ?%list_elem_of_In). by exists y.
  - right. eexists. split; [done|]. cbn.
    pose proof (StronglySorted_app_1_elem_of _ _ _ (br_record x) r Hsort ltac:(rewrite El, map_app; cbn; set_solver) Hin) as Hlt.
    cbn in Hlt. lia.
Qed.
End Selection.
End KafkaBatchProofs.
