(* ===== verification/KafkaBatchSettlement.v ===== *)
(** * What becomes of a Kafka batch

    Whatever the group session, the Inbox, the handler and the clock do, the
    offsets of a batch are committed only in the one transaction that hands every
    record of the batch over: after its completion in the Inbox, with a dead letter
    that carries it, or with a retry record under which it is processed again as
    the same message. *)
From S2P Require Import Prelude GoStrings GoText Digest Errors Backoff Ident Batch Envelope Inbox InboxSQL InboxSpec InboxEffects InboxStore InboxBatch InboxGroups InboxBatchSpec InboxBatchProps InboxBatchRun InboxBatchRefine InboxBatchStore InboxBatchTheorems.
From S2P Require Import Middleware Delivery Builder Manifest KafkaTopic KafkaControl KafkaConsumer KafkaDelivery KafkaScheduler KafkaSchedulerProofs KafkaWorker KafkaBatch KafkaBatchProofs.
Import Stdlib.Strings.String.
Import Sha256 Backoff Delivery Envelope KafkaTopic KafkaControl KafkaDLQ KafkaConsumer KafkaDelivery KafkaScheduler KafkaSchedulerProofs KafkaWorker KafkaBatch KafkaBatchProofs.
Open Scope string_scope.
Open Scope Z_scope.

Module KafkaBatchSettlement.

Section Settlement.
Context {B C T S : Type} {collate : string -> string -> bool} `{!InboxBackend B collate, !EnvelopeJSON}.
Context `{!transactionalConsumerSession S, !Manifest.MapRange}.
Context (ops : batchOps B) `{!BatchBackend ops}.
Context (ctxErr : C -> B -> option error).
Context (ToLower : string -> string) (formatTime : Time -> string) (parseTime : string -> option Time).
Context (json_Marshal : DLQRecord -> result error string).
Context (c : Consumer B C) (kb : kafkaBatchConsumer (@BatchMiddleware B C)) (a : batchAnswers).
Context (decoder : Envelope -> result error (batchDecoded T)) (handler : @BatchHandler B C T) (ctx : C).
Abbreviation config := (c_config c).
Abbreviation world := (bworld B S).
Abbreviation item := (kafkaBatchRecord T).
Abbreviation returns V := (pending (fun _ => False) V).

Context (laws : text_laws ToLower formatTime parseTime).
Context (Htiers : kc_RetryTiers config <> []) (Htopics : List.length (c_retryTopics c) = List.length (kc_RetryTiers config)).
Context (Hsource : validateTopicName (c_sourceTopic c) = None).
Context (Hattempts : 1 <= kc_MaxAttempts config <= maxInt64).
Context (Hretry : 0 < kc_BaseRetry config <= kc_MaxRetry config /\ kc_MaxRetry config <= maxInt64).
Context (Hrandom : forall n m v, ka_random (ba_answers a) n m = Some v -> 0 <= v < m).
Context (Hclock : forall n, 0 < ka_clock (ba_answers a) n).

(** ** The records of a batch *)
Definition accepted (x : item) : Prop :=
  pr_failure (br_prepared x) = None /\
  accepts ToLower parseTime c (br_record x) (pr_control (br_prepared x)) (pr_envelope (br_prepared x)) /\
  decoder (pr_envelope (br_prepared x)) = Ok (br_decoded x).

(** A selected record, with a position that a broker assigns, an identifier of
    sixteen bytes and no digest collision. *)
Definition item_ok (x : item) : Prop :=
  is_item ToLower parseTime c decoder x /\ (0 <= r_Partition (br_record x) < 2 ^ 31 /\ 0 <= r_Offset (br_record x) <= maxInt64) /\
  (accepted x -> MessageID_wf (md_ID (bd_metadata (br_decoded x))) /\
     collision_free (record_key c x) (it_Fingerprint (record_item c x))).

Lemma item_cases x : is_item ToLower parseTime c decoder x ->
  (exists kind err, pr_failure (br_prepared x) = Some (kind, err) /\ unprocessable kind) \/ accepted x.
Proof.
  intros (p & [Hp Hk] & Hz & ->). unfold accepted, batch_item, prepared_ok in *.
  destruct (pr_failure p) as [[kind err]|] eqn:Ef; cbn.
  - left. exists kind, err. split; [done|]. by eapply Hk.
  - destruct Hp as (_ & Hacc & _). destruct (decoder (pr_envelope p)) as [m|err] eqn:Ed; cbn; [right; by auto|].
    left. by exists failureKindDecode, err.
Qed.

(** The control data of a record is its own, or that of its position. *)
Definition traced (x : item) : Prop :=
  control_of ToLower parseTime c (br_record x) (pr_control (br_prepared x)) \/ pr_control (br_prepared x) = sourceControl (br_record x).
Lemma item_traced x : is_item ToLower parseTime c decoder x -> traced x.
Proof.
  intros (p & [Hp _] & Hz & ->). unfold traced, batch_item, prepared_ok in *. destruct (pr_failure p) as [[kind err]|]; cbn; [tauto|].
  destruct (decoder (pr_envelope p)); cbn; tauto.
Qed.

Lemma accepted_control x : item_ok x -> accepted x -> control_wf (pr_control (br_prepared x)).
Proof. intros (_ & Hr & _) (_ & (Hc & _) & _). by eapply control_of_wf. Qed.

(** ** Outcomes *)
Definition settles (d : DB B) (x : item) (o : kafkaBatchFinalOutcome) : Prop :=
  match o_Outcome (fo_item o) with
  | BatchACK => accepted x /\ completed (key_id (record_key c x)) d = true
  | BatchRetry | BatchDefer => accepted x /\ 0 <= o_Attempt (fo_item o) <= maxUint64
  | BatchDLQ => confirmable o = true ->
      accepted x /\ o_Key (fo_item o) = record_key c x /\ o_Fingerprint (fo_item o) = it_Fingerprint (record_item c x)
  | BatchUnset => False
  end.

Lemma unprocessable_confirm kind : unprocessable kind ->
  (String.eqb kind FailurePermanentKind || String.eqb kind FailureAttemptsExhausted) = false.
Proof. intros [? ?]. apply orb_false_iff. by rewrite !String.eqb_neq. Qed.

Lemma classify_ok t d x : item_ok x ->
  match classify c t x with inl o => settles d x o | inr it => accepted x /\ it = record_item c x end.
Proof.
  intros Hx. unfold classify. destruct (item_cases x (proj1 Hx)) as [(kind & err & -> & Hk)|Hacc].
  { unfold settles. cbn. unfold confirmable. cbn. rewrite unprocessable_confirm; done. }
  rewrite (proj1 Hacc). destruct (elapsed _ _); [done|]. destruct (after _ _); [|done].
  unfold settles. cbn. split; [done|]. by destruct (accepted_control x Hx Hacc) as (_ & _ & _ & ? & _).
Qed.

Lemma reported_settles d x o : accepted x -> reported (kc_MaxAttempts config) d (record_item c x) o -> settles d x (from_report o).
Proof.
  intros Hacc (HK & HF & Ho). unfold settles. cbn. destruct (o_Outcome o); try done.
  - split; [done|]. unfold maxInt64, maxUint64 in *. lia.
  - split; [done|]. unfold maxInt64, maxUint64 in *. lia.
Qed.

Lemma assign_report t d records os : Forall item_ok records ->
  Forall2 (reported (kc_MaxAttempts config) d) (valid_items (List.map (classify c t) records)) os ->
  exists outcomes, assign (List.map (classify c t) records) (List.map from_report os) = Some outcomes /\ Forall2 (settles d) records outcomes.
Proof.
  intros Hf Hos. apply (assign_ok _ (fun it o => exists o', o = from_report o' /\ reported (kc_MaxAttempts config) d it o')).
  - eapply Forall_impl; [exact Hf|]. intros x Hx. pose proof (classify_ok t d x Hx) as Hc. destruct (classify c t x); [done|].
    intros o (o' & -> & Ho). destruct Hc as [Hacc ->]. by apply reported_settles.
  - apply Forall2_fmap_r. eapply Forall2_impl; [exact Hos|]. intros it o Ho. by exists o.
Qed.

Lemma retry_all_ok t d outcome delay err records : outcome = BatchRetry \/ outcome = BatchDefer -> Forall item_ok records ->
  Forall2 (settles d) records (retry_all outcome delay err (List.map (classify c t) records) records).
Proof.
  intros Ho. induction 1 as [|x records Hx Hf IH]; [constructor|]. cbn.
  pose proof (classify_ok t d x Hx) as Hc. destruct (classify c t x) as [o|it]; constructor; try done.
  destruct Hc as [Hacc ->]. unfold settles. cbn. destruct (accepted_control x Hx Hacc) as (_ & _ & _ & ? & _).
  by destruct Ho as [-> | ->].
Qed.

(** ** The records produced *)
(** A retry record under which the message comes back with the same identity,
    content and generation. *)
Definition redelivers (x : item) (attempt : Z) (p : record) : Prop :=
  r_Topic p ∈ c_retryTopics c /\ r_Key p = r_Key (br_record x) /\ r_Value p = bd_canonical (br_decoded x) /\ r_Value p <> "" /\
  exists notBefore, r_Headers p = controlHeaders formatTime (with_schedule (pr_control (br_prepared x)) attempt notBefore) /\ 0 < notBefore /\
    (notBefore < year_10000 ->
     decodeControlHeaders ToLower parseTime (r_Headers p) = Ok (with_schedule (pr_control (br_prepared x)) attempt notBefore)).

(** Where the records of a batch went: the produced records in their order, and
    the messages whose terminal state may be confirmed. *)
Inductive handover (d : DB B) : list item -> list record -> list (Key * Fingerprint) -> Prop :=
| ho_nil : handover d [] [] []
| ho_ack x xs ps ks : accepted x -> completed (key_id (record_key c x)) d = true -> handover d xs ps ks -> handover d (x :: xs) ps ks
| ho_retry x attempt p xs ps ks : accepted x -> redelivers x attempt p -> handover d xs ps ks -> handover d (x :: xs) (p :: ps) ks
| ho_dead x p xs ps ks : traced x -> is_dead json_Marshal c (br_record x) (pr_control (br_prepared x)) p -> handover d xs ps ks ->
    handover d (x :: xs) (p :: ps) ks
| ho_terminal x p xs ps ks : accepted x -> is_dead json_Marshal c (br_record x) (pr_control (br_prepared x)) p -> handover d xs ps ks ->
    handover d (x :: xs) (p :: ps) ((record_key c x, it_Fingerprint (record_item c x)) :: ks).

(** The state since [w0]. *)
Definition stage (w0 : world) (d : DB B) (tr : list bevent) (w : world) : Prop :=
  bw_db w = d /\ bw_trace w = (bw_trace w0 ++ tr)%list /\ exists deadlines, rel deadlines (bw_scheduler w).

Lemma stage_now w0 d tr Q : triple (stage w0 d tr) (lift (clock (ba_answers a))) (pending Q (fun t w => stage w0 d tr w /\ 0 < t)).
Proof. intros w Hw. unfold lift, stage in *. cbn. rewrite app_nil_r. split; [done|]. apply Hclock. Qed.
Lemma stage_delay w0 d tr n Q :
  triple (stage w0 d tr) (lift (retryDelay c (ba_answers a) n)) (pending Q (fun t w => stage w0 d tr w /\ 0 < t)).
Proof.
  intros w Hw. unfold lift, retryDelay. cbn.
  destruct (kafka_retryDelay_range (ka_random (ba_answers a) (bw_draws w)) (kc_BaseRetry config) (kc_MaxRetry config) n)
    as (x & -> & Hx & _); [apply Hretry..|apply Hrandom|]. cbn. unfold stage in *. cbn. rewrite app_nil_r. split; [done|lia].
Qed.

Lemma makeRetry_ok w0 d tr x o : item_ok x -> accepted x -> 0 <= o_Attempt (fo_item o) <= maxUint64 ->
  triple (stage w0 d tr) (makeKafkaBatchRetry formatTime c a x o)
    (returns (fun r w => stage w0 d tr w /\ forall p, r = Ok p -> redelivers x (o_Attempt (fo_item o)) p)).
Proof.
  intros Hx Hacc Ha. unfold makeKafkaBatchRetry.
  eapply triple_bind with (R := fun delay w => stage w0 d tr w /\ 0 < delay).
  { destruct (Z.leb_spec (o_Delay (fo_item o)) 0); [apply stage_delay|]. by apply triple_ret. }
  intros delay w [Hw Hd]. revert w Hw. eapply triple_bind; [apply stage_now|]. intros t w [Hw Ht]. revert w Hw.
  destruct (Z.eqb_spec (len (bd_canonical (br_decoded x))) 0) as [|Hlen]; [by apply triple_ret|].
  destruct (nth_error (c_retryTopics c) _) as [topic|] eqn:Et.
  2:{ exfalso. apply nth_error_None in Et. pose proof (retryTier_lt _ delay Htiers). lia. }
  apply triple_ret. intros w Hw. split; [done|]. intros p <-%Ok_inj. split_and!; [|done|done| |]; cbn [r_Topic r_Headers r_Value].
  - by eapply list_elem_of_In, nth_error_In.
  - intros E. by rewrite E in Hlen.
  - exists (t + delay). split_and!; [done|lia|]. intros Hy. destruct laws as [Hlow Htime].
    apply (control_decode_encode _ formatTime); [done|done| |cbn; lia].
    pose proof (accepted_control x Hx Hacc) as Hwf. unfold control_wf in *. cbn. tauto.
Qed.

Lemma makeDLQ_ok w0 d tr (x : item) o :
  triple (stage w0 d tr) (makeKafkaBatchDLQ json_Marshal c a x o)
    (returns (fun r w => stage w0 d tr w /\ forall p, r = Ok p -> is_dead json_Marshal c (br_record x) (pr_control (br_prepared x)) p)).
Proof.
  unfold makeKafkaBatchDLQ. eapply triple_bind; [apply stage_now|]. intros t w [Hw _]. revert w Hw.
  apply triple_ret. intros w Hw. split; [done|]. intros p. destruct (encodeDLQRecord _ _) as [data|] eqn:Ee; [|done].
  intros <-%Ok_inj. apply encode_captured in Ee as (dl & Hm & Hl & Hc). split; [done|]. split; [done|]. by exists dl.
Qed.

Lemma produce_ok w0 d tr records outcomes : Forall item_ok records -> Forall2 (settles d) records outcomes ->
  triple (stage w0 d tr) (produce formatTime json_Marshal c a records outcomes)
    (returns (fun r w => stage w0 d tr w /\ forall ps, r = Ok ps -> handover d records ps (confirmations outcomes))).
Proof.
  intros Hf Ho. induction Ho as [|x o records outcomes Hs Ho IH].
  { apply triple_ret. intros w Hw. split; [done|]. intros ps <-%Ok_inj. constructor. }
  apply Forall_cons in Hf as [Hx Hf]. specialize (IH Hf). cbn [produce].
  assert (forall m (good : record -> Prop),
    triple (stage w0 d tr) m (returns (fun r w => stage w0 d tr w /\ forall p, r = Ok p -> good p)) ->
    (forall p ps, good p -> handover d records ps (confirmations outcomes) -> handover d (x :: records) (p :: ps) (confirmations (o :: outcomes))) ->
    triple (stage w0 d tr)
      (mbind m (fun y => match y with
        | Err err => mret (Err err)
        | Ok p => mbind (produce formatTime json_Marshal c a records outcomes)
            (fun rest => mret (match rest with Err err => Err err | Ok l => Ok (p :: l) end))
        end))
      (returns (fun r w => stage w0 d tr w /\ forall ps, r = Ok ps -> handover d (x :: records) ps (confirmations (o :: outcomes))))) as Hmore.
  { intros m good Hm Hgood. eapply triple_bind; [exact Hm|]. intros [p|err] w [Hw Hp]; revert w Hw; [|by apply triple_ret].
    eapply triple_bind; [exact IH|]. intros [l|err] w [Hw Hl]; revert w Hw; apply triple_ret; intros w Hw; (split; [done|]); [|done].
    intros ps <-%Ok_inj. apply Hgood; auto. }
  unfold settles in Hs.
  assert (o_Outcome (fo_item o) <> BatchDLQ -> confirmations (o :: outcomes) = confirmations outcomes) as Hno
    by (intros Hne; unfold confirmations, confirmable; cbn; rewrite bool_decide_eq_false_2 by done; done).
  destruct (o_Outcome (fo_item o)) eqn:Eo; [done| | | |].
  - rewrite Hno by done. destruct Hs as [Hacc Hcm]. eapply triple_weaken; [exact IH|done|done|]. intros r w [Hw Hr]. split; [done|].
    intros ps E. constructor; auto.
  - destruct Hs as [Hacc Hat]. eapply Hmore; [by apply makeRetry_ok|]. intros p ps Hp Hh. rewrite Hno by done. by eapply ho_retry.
  - destruct Hs as [Hacc Hat]. eapply Hmore; [by apply makeRetry_ok|]. intros p ps Hp Hh. rewrite Hno by done. by eapply ho_retry.
  - eapply Hmore; [apply makeDLQ_ok|]. intros p ps Hp Hh. destruct (confirmable o) eqn:Ec.
    + destruct (Hs eq_refl) as (Hacc & EK & EF). unfold confirmations. cbn. rewrite Ec. cbn. rewrite EK, EF. by apply ho_terminal.
    + unfold confirmations. cbn. rewrite Ec. apply ho_dead; [by apply item_traced, Hx|done..].
Qed.

(** ** The transaction and what follows *)
Definition processed_offsets (b : kafkaPolledBatch T) : option offsets :=
  (fun x => put_offset (r_Topic (br_record x)) (r_Partition (br_record x))
     {| eo_Epoch := r_LeaderEpoch (br_record x); eo_Offset := r_Offset (br_record x) + 1 |} (pb_earliestOffsets b)) <$> last (pb_records b).
Definition rewound_offsets (b : kafkaPolledBatch T) (r : record) : offsets :=
  put_offset (r_Topic r) (r_Partition r) (epoch_offset r) (pb_earliestOffsets b).
Definition observed : list bevent := if kc_HasObservers config then [BvObserve] else [].
Definition pauses (b : kafkaPolledBatch T) : list bevent :=
  match pb_firstDeferred b with None => [] | Some r => [BvPaused (partition_of_record r) (pb_deferUntil b)] end.
Definition confirm_events (l : list (Key * Fingerprint * env)) : list bevent -> Prop :=
  Forall2 (fun p e => exists ok, e = BvConfirm p.1.1 p.1.2 ok) l.
Definition closes (l : list bevent) : Prop := l = [] \/ l = [BvEvent EvClose].

(** The end of a batch whose attempt left the tables [d]: the events, the error
    and the tables. *)
Inductive concluded (b : kafkaPolledBatch T) (d : DB B) : list bevent -> option error -> DB B -> Prop :=
| co_left err : concluded b d (BvAllowRebalance :: observed) (Some err) d
| co_rewound err : concluded b d (BvOffsets (rewound_offsets b (pb_first b)) :: BvAllowRebalance :: observed) (Some err) d
| co_failed o close ps ks tx err : processed_offsets b = Some o -> closes close -> handover d (pb_records b) ps ks -> tx <> TxCommitted ->
    concluded b d (BvOffsets o :: close ++ BvEvent (EvTx ps tx) :: BvAllowRebalance :: observed) (Some err) d
| co_unpaused o close ps ks err : processed_offsets b = Some o -> closes close -> handover d (pb_records b) ps ks ->
    pb_firstDeferred b <> None ->
    concluded b d (BvOffsets o :: close ++ BvEvent (EvTx ps TxCommitted) :: BvAllowRebalance :: observed) (Some err) d
| co_committed o close ps ks l cs : processed_offsets b = Some o -> closes close -> handover d (pb_records b) ps ks ->
    confirm_events l cs -> NoDup (List.map fst l) -> Forall (fun k => k ∈ ks) (List.map fst l) ->
    concluded b d (BvOffsets o :: close ++ BvEvent (EvTx ps TxCommitted) :: pauses b ++ BvAllowRebalance :: cs ++ observed) None
      (perform_all (confirm_ops l) d).

Lemma stage_note w0 d tr e Q : triple (stage w0 d tr) (note e) (pending Q (fun _ => stage w0 d (tr ++ [e]))).
Proof. intros w (Hd & Ht & Hs). unfold stage. cbn. rewrite Ht, app_assoc. done. Qed.
Lemma stage_allow w0 d tr Q : triple (stage w0 d tr) allow (pending Q (fun _ => stage w0 d (tr ++ [BvAllowRebalance]))).
Proof. intros w (Hd & Ht & Hs). unfold stage. cbn. rewrite Ht, app_assoc. done. Qed.
Lemma stage_offsets w0 d tr o Q : triple (stage w0 d tr) (set_offsets o) (pending Q (fun _ => stage w0 d (tr ++ [BvOffsets o]))).
Proof. intros w (Hd & Ht & Hs). unfold stage. cbn. rewrite Ht, app_assoc. done. Qed.
Lemma stage_observe w0 d tr Q : triple (stage w0 d tr) (observe_now c) (pending Q (fun _ => stage w0 d (tr ++ observed))).
Proof.
  unfold observe_now, observed. destruct (kc_HasObservers config); [apply stage_note|]. apply triple_ret. by rewrite app_nil_r.
Qed.
Lemma stage_streak w0 d tr f Q : triple (stage w0 d tr) (set_streak f) (pending Q (fun _ => stage w0 d tr)).
Proof. intros w Hw. done. Qed.

Lemma stage_leave w0 d tr err :
  triple (stage w0 d tr) (leave_with c err) (returns (fun e w => e = Some err /\ stage w0 d (tr ++ BvAllowRebalance :: observed) w)).
Proof.
  eapply triple_bind; [apply stage_allow|]. intros ?. eapply triple_bind; [apply stage_observe|]. intros ?.
  apply triple_ret. intros w Hw. by rewrite <- app_assoc in Hw.
Qed.

Lemma stage_commit w0 d tr ps :
  triple (stage w0 d tr) (lift (commitTransactionalRecords (ba_answers a) ps))
    (returns (fun x w => exists close tx, closes close /\ (x = (true, None) <-> tx = TxCommitted) /\
       stage w0 d (tr ++ close ++ [BvEvent (EvTx ps tx)]) w)).
Proof.
  intros w (Hd & Ht & Hs). unfold lift, commitTransactionalRecords, mbind, emit, mret. cbn.
  assert (forall close tx (x : bool * option error) (w' : world), closes close -> (x = (true, None) <-> tx = TxCommitted) ->
    bw_db w' = d -> bw_trace w' = (bw_trace w ++ close ++ [BvEvent (EvTx ps tx)])%list -> bw_scheduler w' = bw_scheduler w ->
    exists close tx, closes close /\ (x = (true, None) <-> tx = TxCommitted) /\ stage w0 d (tr ++ close ++ [BvEvent (EvTx ps tx)]) w') as Hgo.
  { intros close tx x w' Hc Hx Ed Et Es. exists close, tx. split_and!; [done..|]. unfold stage. rewrite Ed, Et, Es, Ht, <- !app_assoc. done. }
  destruct (ka_begin _); cbn; [by apply (Hgo [] TxNotBegun); [left|..]|].
  destruct (negb _ && _); cbn; destruct (if is_empty ps then None else _) eqn:?; cbn.
  1: by apply (Hgo [BvEvent EvClose] TxHandoffFailed); [right|..].
  2: by apply (Hgo [] TxHandoffFailed); [left|..].
  all: destruct (ka_end _) as [[|] [e|]]; cbn.
  all: first [by apply (Hgo [BvEvent EvClose] TxUnknown); [right|..] | by apply (Hgo [] TxUnknown); [left|..]
    | by apply (Hgo [BvEvent EvClose] TxCommitted); [right|..] | by apply (Hgo [] TxCommitted); [left|..]
    | by apply (Hgo [BvEvent EvClose] TxAborted); [right|..] | by apply (Hgo [] TxAborted); [left|..]].
Qed.

Lemma stage_pause w0 d tr r deadline :
  triple (stage w0 d tr) (pauseKafkaBatchPartition r deadline)
    (returns (fun err w => match err with
       | Some _ => stage w0 d tr w
       | None => stage w0 d (tr ++ [BvPaused (partition_of_record r) deadline]) w
       end)).
Proof.
  intros w (Hd & Ht & deadlines & Hr). unfold pauseKafkaBatchPartition, on_session, mbind. cbn.
  assert ((pauseAndRewindRetryPartition (bw_session w) r).2.1.1 = partition_of_record r) as Hp
    by (unfold pauseAndRewindRetryPartition; repeat case_goal; done).
  destruct (pauseAndRewindRetryPartition _ r) as [s' [[p owned] [err|]]]; cbn in *; [by split_and!; eauto|].
  unfold on_scheduler. cbn. destruct (schedule_ok deadlines (bw_scheduler w) p deadline owned Hr) as (sc & -> & Hsc). cbn.
  unfold stage. cbn. rewrite Ht, app_assoc, Hp. split_and!; eauto.
Qed.

Lemma stage_confirm w0 tr keys : forall n d,
  triple (stage w0 d tr) (confirm_all a n keys)
    (returns (fun _ w => exists l cs, List.map fst l `prefix_of` keys /\ confirm_events l cs /\
       stage w0 (perform_all (confirm_ops l) d) (tr ++ cs) w)).
Proof.
  revert tr. induction keys as [|[key fp] keys IH]; intros tr n d; cbn [confirm_all].
  - apply triple_ret. intros w Hw. exists [], []. split_and!; [done|constructor|by rewrite app_nil_r].
  - destruct (ba_confirm a n) as [e|].
    2:{ apply triple_ret. intros w Hw. exists [], []. split_and!; [apply prefix_nil|constructor|by rewrite app_nil_r]. }
    set (r := fun d => Store_ConfirmTerminalHandoff false key fp d e).
    eapply triple_bind with (R := fun _ => stage w0 (op_db (r d)) (tr ++ [BvConfirm key fp (is_nil (op_err (r d)))])).
    { intros w (Hd & Ht & Hs). unfold stage. cbn. rewrite Ht, app_assoc, Hd. done. }
    intros ?. eapply triple_weaken; [apply IH|done|done|]. intros ? w (l & cs & Hp & Hc & Hw).
    exists ((key, fp, e) :: l), (BvConfirm key fp (is_nil (op_err (r d))) :: cs). split_and!.
    + by apply prefix_cons.
    + constructor; [by eexists|done].
    + by rewrite <- app_assoc in Hw.
Qed.

Definition ends (w0 : world) (b : kafkaPolledBatch T) (d : DB B) (err : option error) (w : world) : Prop :=
  exists tr, concluded b d tr err (bw_db w) /\ stage w0 (bw_db w) tr w.

Lemma finish_ok w0 b d outcomes ps : pb_records b <> [] -> handover d (pb_records b) ps (confirmations outcomes) ->
  triple (stage w0 d []) (finish c a b outcomes ps) (returns (ends w0 b d)).
Proof.
  intros Hne Hh. unfold finish, setKafkaBatchProcessedOffsets.
  destruct (last (pb_records b)) as [x|] eqn:El; [|by apply last_None in El]. set (o := put_offset _ _ _ _).
  assert (processed_offsets b = Some o) as Ho by (unfold processed_offsets; by rewrite El).
  eapply triple_bind; [apply stage_offsets|]. intros ?. eapply triple_bind; [apply stage_commit|].
  intros x' w (close & tx & Hc & Hx & Hw). revert w Hw. cbn [app]. clearbody o.
  assert (forall err, tx <> TxCommitted ->
    triple (stage w0 d (BvOffsets o :: close ++ [BvEvent (EvTx ps tx)])) (leave_with c err) (returns (ends w0 b d))) as Hfail.
  { intros err Hne'. eapply triple_weaken; [apply stage_leave|done|done|]. intros ? w [-> Hw]. cbn in Hw. rewrite <- app_assoc in Hw. cbn in Hw.
    pose proof Hw as (Hd & _). eexists. rewrite Hd. split; [|exact Hw]. by eapply co_failed. }
  destruct x' as [[|] [err|]]; [apply Hfail; intros E; by apply Hx in E| |apply Hfail; intros E; by apply Hx in E..].
  assert (tx = TxCommitted) as -> by by apply Hx. clear Hx Hfail.
  set (tr := BvOffsets o :: close ++ [BvEvent (EvTx ps TxCommitted)]).
  eapply triple_bind with (R := fun err w => match err with
    | Some _ => pb_firstDeferred b <> None /\ stage w0 d tr w
    | None => stage w0 d (tr ++ pauses b) w end).
  { unfold pauses. destruct (pb_firstDeferred b) as [r|]; [|apply triple_ret; by rewrite app_nil_r].
    eapply triple_weaken; [apply stage_pause|done|done|]. by intros [err|] w Hw. }
  intros [err|].
  - intros w [Hd Hw]. revert w Hw. eapply triple_weaken; [apply stage_leave|done|done|]. intros ? w [-> Hw]. cbn in Hw.
    rewrite <- app_assoc in Hw. cbn in Hw. pose proof Hw as (E & _). eexists. rewrite E. split; [|exact Hw]. by eapply co_unpaused.
  - eapply triple_bind; [apply stage_allow|]. intros ?.
    destruct (Manifest.distinct_keys (confirmations outcomes)) as [Hnd Hin]. set (keys := List.map fst (Manifest.range _)) in *. clearbody keys.
    set (tr' := ((tr ++ pauses b) ++ [BvAllowRebalance])%list).
    eapply triple_bind with (R := fun _ w => exists l cs, List.map fst l `prefix_of` keys /\ confirm_events l cs /\
       stage w0 (perform_all (confirm_ops l) d) (tr' ++ cs) w).
    { destruct (ka_retention _); [apply stage_confirm|]. apply triple_ret. intros w Hw. exists [], [].
      split_and!; [apply prefix_nil|constructor|by rewrite app_nil_r]. }
    intros ? w (l & cs & [rest Hp] & Hcs & Hw). revert w Hw. eapply triple_bind; [apply stage_observe|]. intros ?. apply triple_ret.
    intros w Hw. pose proof Hw as (E & _). eexists. rewrite E. split; [|exact Hw]. unfold tr', tr. rewrite <- !app_assoc. cbn. rewrite <- !app_assoc. cbn.
    rewrite Hp in Hnd, Hin. apply NoDup_app in Hnd as (Hnd & _ & _). apply Forall_app in Hin as [Hin _]. by eapply co_committed.
Qed.

Lemma settle_ok w0 b d outcomes : pb_records b <> [] -> Forall item_ok (pb_records b) -> Forall2 (settles d) (pb_records b) outcomes ->
  triple (stage w0 d []) (settle_outcomes formatTime json_Marshal c a b outcomes) (returns (ends w0 b d)).
Proof.
  intros Hne Hf Ho. eapply triple_bind; [by apply produce_ok|]. intros [ps|err] w [Hw Hp]; revert w Hw.
  - apply finish_ok; auto.
  - eapply triple_weaken; [apply stage_leave|done|done|]. intros ? w [-> Hw]. cbn in Hw. pose proof Hw as (E & _).
    eexists. rewrite E. split; [|exact Hw]. constructor.
Qed.

(** ** The batch *)
Definition deliveries (t : Time) (b : kafkaPolledBatch T) : list BatchItem := valid_items (List.map (classify c t) (pb_records b)).

Definition store_attempt (t : Time) (b : kafkaPolledBatch T) (d : DB B) : opResult B BatchProcessResult :=
  Store_ProcessBatchAttempt (Some ops) false (deliveries t b) (kc_MaxAttempts config)
    (Some (batch_handler ctxErr c kb handler ctx t (pb_records b))) d (ka_inbox (ba_answers a)).
(** The tables after the one Inbox attempt of the batch. *)
Definition attempted (t : Time) (b : kafkaPolledBatch T) (d : DB B) : DB B :=
  match deliveries t b with [] => d | _ => op_db (store_attempt t b d) end.

Lemma elem_deliveries (d : DB B) t b it : Forall item_ok (pb_records b) -> it ∈ deliveries t b ->
  exists x, x ∈ pb_records b /\ item_ok x /\ accepted x /\ it = record_item c x /\ classify c t x = inr it.
Proof.
  intros Hf. unfold deliveries, valid_items. rewrite list_elem_of_omap. intros (y & Hy & E).
  apply list_elem_of_In, in_map_iff in Hy as (x & <- & Hx%list_elem_of_In). rewrite Forall_forall in Hf. specialize (Hf x Hx).
  pose proof (classify_ok t d x Hf) as Hc.
  destruct (classify c t x) as [o|it'] eqn:Ec; [done|]. injection E as ->. destruct Hc as [Hacc Hi]. by exists x.
Qed.

Lemma deliveries_ok (d : DB B) t b : Forall item_ok (pb_records b) -> items_ok (deliveries t b).
Proof.
  intros Hf it (x & _ & (_ & _ & Hx) & Hacc & -> & _)%(elem_deliveries d); [|done]. destruct (Hx Hacc) as [Hid Hfree].
  split_and!; [apply length_Sum256|done|done].
Qed.

(** The handler gets the decoded message of every delivery it is given. *)
Lemma handler_messages (d : DB B) t b active state : Forall item_ok (pb_records b) -> Forall (fun it => it ∈ deliveries t b) active ->
  exists xs, Forall2 (fun it x => x ∈ pb_records b /\ accepted x /\ it = record_item c x) active xs /\
    batch_handler ctxErr c kb handler ctx t (pb_records b) active state = invoke ctxErr c kb handler ctx (List.map br_decoded xs) state.
Proof.
  intros Hf Ha. unfold batch_handler, kafkaBatchDecodedMessages.
  assert (exists xs, Forall2 (fun it x => x ∈ pb_records b /\ accepted x /\ it = record_item c x) active xs /\
    mapM (find_item c t (pb_records b)) active = Some (List.map br_decoded xs)) as (xs & Hxs & ->); [|by exists xs].
  induction Ha as [|it active Hit Ha IH]; [by exists []|]. destruct IH as (xs & Hxs & Em). cbn. rewrite Em.
  destruct (elem_deliveries d t b it Hf Hit) as (x & Hx & _ & _ & _ & Hc). unfold find_item.
  destruct (List.find _ _) as [y|] eqn:Ef.
  - exists (y :: xs). split; [|done]. constructor; [|done]. apply find_some in Ef as [Hy%list_elem_of_In Hcy].
    rewrite Forall_forall in Hf. pose proof (classify_ok t d y (Hf y Hy)) as Hcl. destruct (classify c t y) as [o|it']; [done|].
    apply bool_decide_eq_true in Hcy as ->. by destruct Hcl as [? ->].
  - exfalso. eapply find_none in Ef; [|by apply list_elem_of_In]. cbn in Ef. rewrite Hc in Ef. by apply bool_decide_eq_false in Ef.
Qed.

Lemma process_ok w0 b d : db_ok d -> pb_records b <> [] -> Forall item_ok (pb_records b) ->
  triple (stage w0 d []) (processKafkaBatch ops ctxErr formatTime json_Marshal c kb a handler ctx b)
    (returns (fun err w => exists t, 0 < t /\ ends w0 b (attempted t b d) err w)).
Proof.
  intros Hd Hne Hf. unfold processKafkaBatch. eapply triple_bind; [apply stage_now|]. intros t w [Hw Ht]. revert w Hw.
  pose proof (deliveries_ok d t b Hf) as Hok.
  destruct (store_report ops (deliveries t b) (kc_MaxAttempts config) (batch_handler ctxErr c kb handler ctx t (pb_records b)) d
    (ka_inbox (ba_answers a)) Hok ltac:(lia) Hd) as [_ Hrep]. fold (store_attempt t b d) in Hrep.
  fold (deliveries t b). cbv zeta.
  assert (forall d' outcomes, attempted t b d = d' -> Forall2 (settles d') (pb_records b) outcomes ->
    triple (stage w0 d' []) (settle_outcomes formatTime json_Marshal c a b outcomes)
      (returns (fun err w => exists t, 0 < t /\ ends w0 b (attempted t b d) err w))) as Hsettle.
  { intros d' outcomes <- Ho. eapply triple_weaken; [by apply settle_ok|done|done|]. intros err w Hw. by exists t. }
  destruct (deliveries t b) as [|it items] eqn:Ed.
  { destruct (assign_report t d (pb_records b) [] Hf) as (outcomes & E & Ho); [unfold deliveries in Ed; rewrite Ed; constructor|].
    cbn in E. rewrite E. apply Hsettle; [|done]. unfold attempted. by rewrite Ed. }
  set (r := store_attempt t b d) in *. assert (attempted t b d = op_db r) as Hatt by (unfold attempted; by rewrite Ed).
  eapply triple_bind with (R := fun x w => x = (op_value r, op_err r) /\ stage w0 (op_db r) [] w).
  { intros w (E & Htr & Hs). unfold process_batch. cbn. unfold r, store_attempt. rewrite Ed, E. done. }
  intros x w [-> Hw]. revert w Hw. destruct (op_err r) as [err|] eqn:Eerr.
  - destruct (IsFailClosed _).
    + unfold rewindKafkaBatch. eapply triple_bind; [apply stage_offsets|]. intros ?. eapply triple_bind; [apply stage_allow|]. intros ?.
      eapply triple_bind; [apply stage_observe|]. intros ?. apply triple_ret. intros w Hw. cbn in Hw. exists t. split; [done|].
      rewrite Hatt. pose proof Hw as (E & _). eexists. rewrite E. split; [|exact Hw]. constructor.
    + eapply triple_bind; [apply stage_streak|]. intros streak. destruct (DeferDelay _) as [delay|].
      { apply Hsettle; [done|]. apply retry_all_ok; [by right|done]. }
      eapply triple_bind with (R := fun _ => stage w0 (op_db r) []).
      { destruct (RetryDelay _); [by apply triple_ret|]. eapply triple_weaken; [apply stage_delay with (Q := fun _ => False)|done|done|]. by intros ? w [Hw _]. }
      intros delay. apply Hsettle; [done|]. apply retry_all_ok; [by left|done].
  - eapply triple_bind; [apply stage_streak|]. intros ?. cbn [fst snd].
    destruct (assign_report t (op_db r) (pb_records b) (Items (op_value r)) Hf) as (outcomes & -> & Ho).
    { fold (deliveries t b). rewrite Ed. by apply Hrep. }
    by apply Hsettle.
Qed.
End Settlement.
End KafkaBatchSettlement.
