(* ===== verification/KafkaBatchTheorems.v ===== *)
(** * The Kafka batch theorems

    The collection of one batch, its settlement, and the runs of a worker's
    session, for every configuration the constructor accepts. *)
From S2P Require Import Prelude GoStrings GoText Digest Errors Backoff Ident Batch Envelope Inbox InboxSQL InboxSpec InboxEffects InboxStore InboxBatch InboxBatchSpec InboxBatchStore InboxBatchTheorems.
From S2P Require Import Middleware Delivery Builder Manifest KafkaTopic KafkaControl KafkaConsumer KafkaDelivery KafkaScheduler KafkaSchedulerProofs KafkaWorker KafkaBatch KafkaBatchProofs KafkaBatchSettlement.
Import Stdlib.Strings.String.
Import Sha256 Backoff Delivery Envelope KafkaTopic KafkaControl KafkaDLQ KafkaConsumer KafkaDelivery KafkaScheduler KafkaSchedulerProofs KafkaWorker KafkaBatch KafkaBatchProofs KafkaBatchSettlement.
Open Scope string_scope.
Open Scope Z_scope.

Module KafkaBatchTheorems.

(** ** An accepted configuration *)
Lemma batch_consumer_facts {B C Mw} deps supports timeout info (config0 : HandlerConfig B C) (batch0 : BatchConfig Mw) c kb :
  newKafkaBatchConsumer deps supports timeout info config0 batch0 = Ok (c, kb) ->
  newConsumer deps info config0 = Ok c /\ 1 <= MaxMessages (kb_config kb) /\
  0 < kc_BaseRetry (c_config c) <= kc_MaxRetry (c_config c).
Proof.
  unfold newKafkaBatchConsumer. destruct (kc_Middlewares config0); [|done]. destruct (newConsumer deps info config0) as [c'|] eqn:Ec; [|done].
  destruct (negb supports); [done|]. destruct (Normalize _ _) as [n|] eqn:En; [|done].
  destruct (batchConsumerRebalanceTimeout _ _ _ _); [|done]. intros [= <- <-]. split_and!; [done|by eapply normalized_messages|..].
  all: pose proof (kafka_newConsumer_facts _ _ _ _ Ec) as (E & _); cbv zeta in E; rewrite E; revert Ec; unfold newConsumer;
    destruct (negb deps || bad_config _) eqn:Eb; [done|]; intros _; apply orb_false_iff in Eb as [_ Eb]; unfold bad_config in Eb; bool_simpl; lia.
Qed.

(** ** Reading a trace *)
Definition polled (tr : list bevent) : list record := List.flat_map (fun e => match e with BvPolled rs => rs | _ => [] end) tr.
Definition committed (tr : list bevent) : list (list record) :=
  List.flat_map (fun e => match e with BvEvent (EvTx ps TxCommitted) => [ps] | _ => [] end) tr.
(** The offsets the session was last given. *)
Definition offsets_of (tr : list bevent) : option offsets :=
  last (List.flat_map (fun e => match e with BvOffsets o => [o] | _ => [] end) tr).

Lemma polled_polls polls : polled (List.map BvPolled polls) = List.concat polls.
Proof. unfold polled. induction polls as [|l polls IH]; cbn; [done|by rewrite IH]. Qed.
Lemma committed_polls polls : committed (List.map BvPolled polls) = [].
Proof. unfold committed. by induction polls. Qed.
Lemma polled_app l k : polled (l ++ k) = (polled l ++ polled k)%list.
Proof. apply flat_map_app. Qed.
Lemma committed_app l k : committed (l ++ k) = (committed l ++ committed k)%list.
Proof. apply flat_map_app. Qed.
Lemma polled_cons e l : polled (e :: l) = (match e with BvPolled rs => rs | _ => [] end ++ polled l)%list.
Proof. done. Qed.
Lemma committed_cons e l : committed (e :: l) = (match e with BvEvent (EvTx ps TxCommitted) => [ps] | _ => [] end ++ committed l)%list.
Proof. done. Qed.
Lemma offsets_of_close l o close : closes close -> offsets_of (l ++ BvOffsets o :: close) = Some o.
Proof.
  unfold offsets_of. rewrite flat_map_app, last_app. intros [-> | ->]; done.
Qed.

(** What is neither a poll, a commit, offsets nor [AllowRebalance]. *)
Definition quiet_event (e : bevent) : Prop := match e with BvResume _ | BvReady | BvPaused _ _ | BvConfirm _ _ _ | BvObserve => True | _ => False end.
Lemma quiet_events l : Forall quiet_event l -> polled l = [] /\ committed l = [] /\ BvAllowRebalance ∉ l.
Proof.
  induction 1 as [|e l He Hl (IH1 & IH2 & IH3)]; [by split_and!; [..|apply not_elem_of_nil]|].
  destruct e; try done; cbn; (split_and!; [done..|]); by intros [|]%elem_of_cons.
Qed.

Section Theorems.
Context {B C T S : Type} {collate : string -> string -> bool} `{!InboxBackend B collate, !EnvelopeJSON}.
Context `{!transactionalConsumerSession S, !Manifest.MapRange}.
Context (ops : batchOps B) `{!BatchBackend ops}.
Context (ctxErr : C -> B -> option error).
Context (ToLower : string -> string) (formatTime : Time -> string) (parseTime : string -> option Time).
Context (json_Marshal : DLQRecord -> result error string).
Context (decoder : Envelope -> result error (batchDecoded T)) (handler : @BatchHandler B C T) (ctx : C).
Abbreviation world := (bworld B S).
Abbreviation hands_over := (handover ToLower formatTime parseTime json_Marshal).

(** The position is one that a broker assigns; an identifier has sixteen bytes and
    its digest meets no other. *)
Definition deliverable (c : Consumer B C) (r : record) : Prop :=
  (0 <= r_Partition r < 2 ^ 31 /\ 0 <= r_Offset r <= maxInt64) /\
  forall x, br_record x = r -> accepted ToLower parseTime c decoder x ->
    MessageID_wf (md_ID (bd_metadata (br_decoded x))) /\ collision_free (record_key c x) (it_Fingerprint (record_item c x)).
(** A clock past year one and a random source in its range. *)
Definition batch_answers_ok (a : batchAnswers) : Prop :=
  (forall n, 0 < ka_clock (ba_answers a) n) /\ forall n m v, ka_random (ba_answers a) n m = Some v -> 0 <= v < m.
(** Go's [int] and [time.Duration]. *)
Definition machine_config (c : Consumer B C) : Prop := kc_MaxAttempts (c_config c) <= maxInt64 /\ kc_MaxRetry (c_config c) <= maxInt64.

Lemma usable_items c P b : usable ToLower parseTime c decoder P b -> Forall (deliverable c) P ->
  Forall (item_ok ToLower parseTime c decoder) (pb_records b).
Proof.
  intros (_ & Hi & Hin) Hd. rewrite Forall_forall in Hi. rewrite Forall_forall in Hin.
  rewrite Forall_forall in Hd. apply Forall_forall. intros x Hx. split; [by apply Hi|].
  destruct (Hd (br_record x) (Hin x Hx)) as [? Hx']. split; [done|]. by apply Hx'.
Qed.

Section Consumer.
Context (deps supports : bool) (operationTimeout : Duration) (info : DescriptorInfo) (config0 : HandlerConfig B C) (batch0 : BatchConfig (@BatchMiddleware B C)) (c : Consumer B C)
  (kb : kafkaBatchConsumer (@BatchMiddleware B C)).
Context (Hnew : newKafkaBatchConsumer deps supports operationTimeout info config0 batch0 = Ok (c, kb)).

Lemma processed a w0 b d : text_laws ToLower formatTime parseTime -> machine_config c -> batch_answers_ok a -> db_ok d ->
  pb_records b <> [] -> Forall (item_ok ToLower parseTime c decoder) (pb_records b) ->
  triple (stage (S := S) w0 d []) (processKafkaBatch ops ctxErr formatTime json_Marshal c kb a handler ctx b)
    (pending (fun _ => False) (fun err w => exists t, 0 < t /\
       ends ToLower formatTime parseTime json_Marshal c decoder w0 b (attempted ops ctxErr c kb a handler ctx t b d) err w)).
Proof.
  intros Hl [Hm1 Hm2] [Hc Hr] Hd Hne Hi. destruct (batch_consumer_facts _ _ _ _ _ _ _ _ Hnew) as (Hn & _ & Hb).
  destruct (kafka_newConsumer_facts _ _ _ _ Hn) as (_ & _ & H1 & H2 & H3 & H4 & _).
  by apply process_ok.
Qed.

(** The collection of a batch, for every session, clock and content of the
    records.  It always returns, and does nothing else than poll and, without a batch,
    allow the rebalance.  When the records of
    each partition come in the order of their offsets, the batch holds the first
    polled records of the partition of the first record: at most [MaxMessages],
    of at most [MaxBytes] unless it is a single one, each message in one attempt
    generation; it holds a record unless the first one is deferred; the deferred
    record is the next one, until the time its control headers say; and the kept
    offsets are, for each partition, those of the first record polled. *)
Theorem kafka_batch_selection a timeout (w : world) :
  exists w' x polls tail, collectKafkaBatch ToLower parseTime c kb a decoder timeout w = (w', Val x) /\
    bw_db w' = bw_db w /\ bw_scheduler w' = bw_scheduler w /\ bw_streak w' = bw_streak w /\
    bw_trace w' = (bw_trace w ++ List.map BvPolled polls ++ tail)%list /\
    match x with
    | Err _ => tail = [] \/ tail = [BvAllowRebalance]
    | Ok None => polls = [[]] /\ tail = [BvAllowRebalance]
    | Ok (Some b) => tail = [] /\ (in_order (List.concat polls) -> selected ToLower parseTime c kb decoder (List.concat polls) b)
    end.
Proof using Hnew.
  destruct (batch_consumer_facts _ _ _ _ _ _ _ _ Hnew) as (_ & Hmax & _).
  pose proof (collect_ok ToLower parseTime c kb a decoder (fun _ => True) (fun _ _ _ _ _ => I) Hmax timeout w w) as Hc.
  destruct (collectKafkaBatch _ _ _ _ _ _ _ w) as [w' [x| |]]; cbn in Hc.
  - destruct Hc as (polls & tail & Hd & Hsc & Hst & _ & Ht & _ & Hx); [by unfold since; cbn; rewrite app_nil_r|].
    exists w', x, polls, tail. split_and!; [done..|]. destruct x as [[b|]|]; [by destruct Hx as (? & _ & ?)|exact Hx|exact Hx].
  - destruct Hc. by unfold since; cbn; rewrite app_nil_r.
  - destruct Hc. by unfold since; cbn; rewrite app_nil_r.
Qed.

(** C17. The settlement of a batch, whatever the session, the Inbox faults, the handler,
    the middlewares and the clock do.  The consumer always returns; the tables
    change by one Inbox attempt with the deliveries that are due and, at the end,
    by confirmations.  Either nothing is committed, the rebalance is allowed and an
    error is reported; or, with the processed offsets set just before, one
    transaction produces for every record in its order nothing after the
    message's completion in the Inbox, a retry record under which, when it is
    scheduled before the year 10000, the same message comes back, or a dead letter that holds the record.  Only after a commit a
    deferred partition is paused, then the rebalance allowed, then terminal
    states of dead-lettered messages confirmed, each at most once, then observers
    called; nil is returned exactly then.  The handler gets the decoded
    message of each delivery the Inbox admits. *)
Theorem kafka_batch_settlement a b (w : world) :
  text_laws ToLower formatTime parseTime -> machine_config c -> batch_answers_ok a ->
  db_ok (bw_db w) -> (exists deadlines, rel deadlines (bw_scheduler w)) ->
  pb_records b <> [] -> Forall (is_item ToLower parseTime c decoder) (pb_records b) ->
  Forall (deliverable c) (List.map br_record (pb_records b)) ->
  exists w' err t tr, processKafkaBatch ops ctxErr formatTime json_Marshal c kb a handler ctx b w = (w', Val err) /\
    bw_trace w' = (bw_trace w ++ tr)%list /\
    concluded ToLower formatTime parseTime json_Marshal c decoder b (attempted ops ctxErr c kb a handler ctx t b (bw_db w)) tr err (bw_db w') /\
    forall active state, Forall (fun it => it ∈ deliveries c t b) active ->
      exists xs, Forall2 (fun it x => x ∈ pb_records b /\ accepted ToLower parseTime c decoder x /\ it = record_item c x) active xs /\
        batch_handler ctxErr c kb handler ctx t (pb_records b) active state = invoke ctxErr c kb handler ctx (List.map br_decoded xs) state.
Proof.
  intros Hl Hm Ha Hd Hs Hne Hi Hdel.
  assert (Forall (item_ok ToLower parseTime c decoder) (pb_records b)) as Hok.
  { apply (usable_items c (List.map br_record (pb_records b))); [|done]. split_and!; [done..|]. apply Forall_forall. intros x Hx.
    by apply list_elem_of_fmap_2. }
  pose proof (processed a w b (bw_db w) Hl Hm Ha Hd Hne Hok w) as Hp.
  destruct (processKafkaBatch _ _ _ _ _ _ _ _ _ _ w) as [w' [err| |]]; cbn in Hp.
  - destruct Hp as (t & _ & tr & Hc & _ & Ht & _); [by unfold stage; rewrite app_nil_r|]. exists w', err, t, tr. split_and!; [done..|].
    intros active state. destruct (batch_consumer_facts _ _ _ _ _ _ _ _ Hnew) as (Hn & _ & _).
    destruct (kafka_newConsumer_facts _ _ _ _ Hn) as (_ & _ & H1 & _ & _ & H4 & _).
    apply (handler_messages ctxErr ToLower parseTime c kb decoder handler ctx H4 (bw_db w) t b active state Hok).
  - destruct Hp. by unfold stage; rewrite app_nil_r.
  - destruct Hp. by unfold stage; rewrite app_nil_r.
Qed.

(** ** One turn of the loop *)
(** At most one transaction commits in a turn.  It hands over a set of the records
    polled in the turn, with offsets that cover every other one; all are polled
    before it and no rebalance is allowed before it. *)
Definition turn_ok (d : DB B) (tr : list bevent) : Prop :=
  committed tr = [] \/
  exists pre ps post o xs ks, tr = (pre ++ BvEvent (EvTx ps TxCommitted) :: post)%list /\
    committed pre = [] /\ committed post = [] /\ polled post = [] /\ BvAllowRebalance ∉ pre /\ offsets_of pre = Some o /\
    hands_over c decoder d xs ps ks /\
    (in_order (polled tr) -> forall r, r ∈ polled tr -> (exists x, x ∈ xs /\ br_record x = r) \/ covers o r).

Lemma handover_keeps d d' xs ps ks : keeps d d' -> hands_over c decoder d xs ps ks -> hands_over c decoder d' xs ps ks.
Proof.
  intros Hk. induction 1; [constructor|apply ho_ack; auto|eapply ho_retry; eauto|by apply ho_dead|by apply ho_terminal].
Qed.
Lemma turn_keeps d d' tr : keeps d d' -> turn_ok d tr -> turn_ok d' tr.
Proof.
  intros Hk [?|(pre & ps & post & o & xs & ks & ? & ? & ? & ? & ? & ? & Hh & ?)]; [by left|right].
  exists pre, ps, post, o, xs, ks. split_and!; try done. by eapply handover_keeps.
Qed.

Lemma handover_keys d xs ps ks : hands_over c decoder d xs ps ks -> Forall (fun k => Fingerprint_wf k.2) ks.
Proof. induction 1; try done. constructor; [apply length_Sum256|done]. Qed.

Lemma concluded_keeps b d tr err d' : concluded ToLower formatTime parseTime json_Marshal c decoder b d tr err d' -> db_ok d ->
  db_ok d' /\ keeps d d'.
Proof.
  intros Hc Hd. destruct Hc as [| | | |o close ps ks l cs _ _ Hh _ _ Hin]; try done. apply confirm_keeps; [done|].
  apply handover_keys in Hh. rewrite Forall_forall in Hh. rewrite Forall_forall in Hin. apply Forall_forall. intros p Hp.
  apply (Hh p.1), Hin. by apply list_elem_of_fmap_2.
Qed.

Lemma observed_quiet : Forall quiet_event (observed c).
Proof. unfold observed. destruct (kc_HasObservers _); repeat constructor. Qed.
Lemma confirms_quiet l cs : confirm_events l cs -> Forall quiet_event cs.
Proof. induction 1 as [|p e l cs [ok ->] _ IH]; constructor; done. Qed.
Lemma pauses_quiet (b : kafkaPolledBatch T) : Forall quiet_event (pauses b).
Proof. unfold pauses. destruct (pb_firstDeferred b); repeat constructor. Qed.

Lemma quiet_polled l : Forall quiet_event l -> polled l = [].
Proof. by intros (? & _)%quiet_events. Qed.
Lemma quiet_committed l : Forall quiet_event l -> committed l = [].
Proof. by intros (_ & ? & _)%quiet_events. Qed.

(** The events of a settlement hold no poll, and a commit only after the offsets. *)
Lemma concluded_events b d tr err d' : concluded ToLower formatTime parseTime json_Marshal c decoder b d tr err d' ->
  polled tr = [] /\
  (committed tr = [] \/ exists o close ps ks post, tr = BvOffsets o :: close ++ BvEvent (EvTx ps TxCommitted) :: post /\
     processed_offsets b = Some o /\ closes close /\ committed post = [] /\ polled post = [] /\
     hands_over c decoder d (pb_records b) ps ks).
Proof.
  pose proof (quiet_polled _ observed_quiet) as Ho1. pose proof (quiet_committed _ observed_quiet) as Ho2.
  assert (forall close, closes close -> polled close = [] /\ committed close = []) as Hclose by (by intros close [-> | ->]).
  intros Hc. destruct Hc as [err|err|o close ps ks tx err Ho Hcl Hh Htx|o close ps ks err Ho Hcl Hh Hd|o close ps ks l cs Ho Hcl Hh Hcs _ _].
  - split; [done|by left].
  - split; [done|by left].
  - destruct (Hclose close Hcl) as [E1 E2]. rewrite polled_cons, committed_cons, polled_app, committed_app, E1, E2.
    rewrite !polled_cons, !committed_cons, Ho1, Ho2. split; [done|]. left. by destruct tx.
  - destruct (Hclose close Hcl) as [E1 E2]. split; [by rewrite polled_cons, polled_app, E1, !polled_cons|]. right. by exists o, close, ps, ks, (BvAllowRebalance :: observed c).
  - destruct (Hclose close Hcl) as [E1 E2]. pose proof (confirms_quiet _ _ Hcs) as Hq.
    assert (polled (pauses b ++ BvAllowRebalance :: cs ++ observed c) = [] /\ committed (pauses b ++ BvAllowRebalance :: cs ++ observed c) = []) as [P1 P2].
    { rewrite polled_app, committed_app, polled_cons, committed_cons, polled_app, committed_app, Ho1, Ho2.
      by rewrite (quiet_polled _ (pauses_quiet b)), (quiet_committed _ (pauses_quiet b)), (quiet_polled _ Hq), (quiet_committed _ Hq). }
    split; [by rewrite polled_cons, polled_app, E1, polled_cons, P1|]. right. by exists o, close, ps, ks, (pauses b ++ BvAllowRebalance :: cs ++ observed c)%list.
Qed.

(** The events of a turn: quiet ones around the polls, then the settlement. *)
Lemma settled_turn b d tr err d' polls before between after :
  Forall quiet_event before -> Forall quiet_event between -> polled after = [] -> committed after = [] ->
  usable ToLower parseTime c decoder (List.concat polls) b ->
  (in_order (List.concat polls) -> selected ToLower parseTime c kb decoder (List.concat polls) b) ->
  concluded ToLower formatTime parseTime json_Marshal c decoder b d tr err d' ->
  turn_ok d (before ++ List.map BvPolled polls ++ between ++ tr ++ after).
Proof.
  intros Hb Hbt Ha1 Ha2 Hu Hsel Hc. destruct (concluded_events _ _ _ _ _ Hc) as [Hp Hev].
  assert (polled (before ++ List.map BvPolled polls ++ between ++ tr ++ after) = List.concat polls) as HP.
  { rewrite !polled_app, polled_polls, (quiet_polled before), (quiet_polled between), Hp, Ha1 by done. by rewrite !app_nil_r. }
  destruct Hev as [Hn|(o & close & ps & ks & post & -> & Ho & Hcl & Hpost & Hpp & Hh)].
  { left. rewrite !committed_app, committed_polls, (quiet_committed before), (quiet_committed between), Hn, Ha2 by done. done. }
  right. exists (before ++ List.map BvPolled polls ++ between ++ BvOffsets o :: close)%list, ps, (post ++ after)%list, o, (pb_records b), ks.
  split_and!.
  - rewrite <- !app_assoc. cbn. by rewrite <- !app_assoc.
  - rewrite !committed_app, committed_polls, (quiet_committed before), (quiet_committed between) by done. cbn. by destruct Hcl as [-> | ->].
  - by rewrite committed_app, Hpost, Ha2.
  - by rewrite polled_app, Hpp, Ha1.
  - destruct (quiet_events before Hb) as (_ & _ & H1), (quiet_events between Hbt) as (_ & _ & H2).
    rewrite !elem_of_app, elem_of_cons. intros [?|[(? & ? & _)%list_elem_of_fmap|[?|[?|Hin]]]]; [done..|].
    destruct Hcl as [-> | ->]; [by eapply not_elem_of_nil|]. by apply list_elem_of_singleton in Hin.
  - rewrite !app_assoc. by apply offsets_of_close.
  - done.
  - rewrite HP. intros Hord r Hr. unfold processed_offsets in Ho. destruct (last (pb_records b)) as [x|] eqn:El; [|done]. injection Ho as <-.
    by apply (selected_covered ToLower parseTime c kb decoder (List.concat polls) b x Hord (Hsel Hord) El).
Qed.

(** ** The loop *)
Context (Hlaws : text_laws ToLower formatTime parseTime) (Hmachine : machine_config c).
Context (Hrecords : forall timeout n (s : S) r, r ∈ f_Records (PollRecords timeout n s).2 -> deliverable c r).

Lemma stage_self (w : world) d tr (w0 : world) : stage w0 d tr w -> stage w d [] w.
Proof. intros (Hd & _ & Hs). unfold stage. by rewrite app_nil_r. Qed.
Lemma stage_extend (w0 w w' : world) d d' tr tr' : stage w0 d tr w -> stage w d' tr' w' -> stage w0 d' (tr ++ tr') w'.
Proof. intros (_ & Ht & _) (Hd & Ht' & Hs). unfold stage. by rewrite Ht', Ht, app_assoc. Qed.

Lemma stage_scheduler {A} (w0 : world) d tr (f : scheduler -> option (scheduler * A)) :
  (forall deadlines sc, rel deadlines sc -> exists deadlines' sc' x, f sc = Some (sc', x) /\ rel deadlines' sc') ->
  triple (stage w0 d tr) (on_scheduler f) (pending (fun _ => False) (fun _ => stage w0 d tr)).
Proof.
  intros Hf w (Hd & Ht & deadlines & Hr). unfold on_scheduler. destruct (Hf _ _ Hr) as (dl' & sc' & x & -> & Hr'). cbn.
  unfold stage. eauto.
Qed.

Lemma stage_collect a timeout (w0 : world) d tr :
  triple (stage w0 d tr) (collectKafkaBatch ToLower parseTime c kb a decoder timeout)
    (pending (fun _ => False) (fun x w => exists polls tail, stage w0 d (tr ++ List.map BvPolled polls ++ tail) w /\
       committed tail = [] /\
       match x with
       | Ok (Some b) => tail = [] /\ usable ToLower parseTime c decoder (List.concat polls) b /\
           Forall (item_ok ToLower parseTime c decoder) (pb_records b) /\
           (in_order (List.concat polls) -> selected ToLower parseTime c kb decoder (List.concat polls) b)
       | _ => True
       end)).
Proof using Hnew Hrecords.
  intros w Hw. destruct (batch_consumer_facts _ _ _ _ _ _ _ _ Hnew) as (_ & Hmax & _).
  pose proof (collect_ok ToLower parseTime c kb a decoder (deliverable c) Hrecords Hmax timeout w w) as Hc.
  destruct (collectKafkaBatch _ _ _ _ _ _ _ w) as [w' [x| |]]; cbn in Hc |- *.
  2,3: by apply Hc; unfold since; cbn; rewrite app_nil_r.
  destruct Hc as (polls & tail & Hd & Hsc & _ & _ & Ht & Hg & Hx); [by unfold since; cbn; rewrite app_nil_r|]. exists polls, tail. split_and!.
  - destruct Hw as (Hd0 & Ht0 & Hs). unfold stage. rewrite Hd, Hsc, Ht, Ht0, <- !app_assoc. done.
  - destruct x as [[b|]|]; [by destruct Hx as [-> _]|by destruct Hx as [_ ->]|by destruct Hx as [-> | ->]].
  - destruct x as [[b|]|]; [|done..]. destruct Hx as (-> & Hu & Hsel). split_and!; [done..|by eapply usable_items|done].
Qed.

Lemma stage_ready err (w0 : world) d tr Q :
  triple (stage w0 d tr) (batch_markReady err) (pending Q (fun _ w => exists between, Forall quiet_event between /\ stage w0 d (tr ++ between) w)).
Proof.
  intros w (Hd & Ht & Hs). unfold batch_markReady. destruct (_ || _ || _).
  - exists []. split; [done|]. by rewrite app_nil_r.
  - exists [BvReady]. split; [by repeat constructor|]. unfold stage. cbn. by rewrite Ht, app_assoc.
Qed.

(** What a turn leaves. *)
Definition turned (w0 w : world) : Prop :=
  exists tr, stage w0 (bw_db w) tr w /\ db_ok (bw_db w) /\ keeps (bw_db w0) (bw_db w) /\ turn_ok (bw_db w) tr.

Lemma turned_quietly (w0 w : world) tr : db_ok (bw_db w0) -> stage w0 (bw_db w0) tr w -> committed tr = [] -> turned w0 w.
Proof. intros Hd Hw Hc. pose proof Hw as (E & _). exists tr. rewrite E. split_and!; [done..|by left]. Qed.

Lemma attempted_ok a t b d : db_ok d -> Forall (item_ok ToLower parseTime c decoder) (pb_records b) ->
  db_ok (attempted ops ctxErr c kb a handler ctx t b d) /\ keeps d (attempted ops ctxErr c kb a handler ctx t b d).
Proof using Hnew BatchBackend0.
  intros Hd Hi. destruct (batch_consumer_facts _ _ _ _ _ _ _ _ Hnew) as (Hn & _ & _).
  destruct (kafka_newConsumer_facts _ _ _ _ Hn) as (_ & _ & H1 & _ & _ & H4 & _).
  assert (items_ok (deliveries c t b)) as Hit by (by eapply deliveries_ok).
  unfold attempted. destruct (deliveries c t b) as [|it items] eqn:E; [done|]. rewrite <- E in Hit. unfold store_attempt. split.
  - apply (batch_invariant ops); [done|lia|done].
  - apply attempt_keeps; [apply _|done|lia|done].
Qed.

(** A turn without a record to process. *)
Lemma defer_turn (w0 : world) tr b r until : db_ok (bw_db w0) -> committed tr = [] ->
  triple (stage w0 (bw_db w0) tr)
    (mbind (rewindKafkaBatch (T := T) b (Some r)) (fun _ => mbind (pauseKafkaBatchPartition r until) (fun err => mbind allow
       (fun _ => mret (match err with Some err => KafkaWorker.Return (Some err) | None => Continue end)))))
    (pending (fun _ => False) (fun _ => turned w0)).
Proof.
  intros Hd Hc. unfold rewindKafkaBatch. eapply triple_bind; [apply stage_offsets|]. intros ?. eapply triple_bind; [apply stage_pause|].
  intros err. eapply triple_bind with (R := fun _ => turned w0); [|intros ?; by apply triple_ret].
  destruct err; (eapply triple_weaken; [apply stage_allow with (Q := fun _ => False)|done|done|]); intros ? w Hw;
    (eapply turned_quietly; [done|exact Hw|]); by rewrite !committed_app, Hc.
Qed.

(** A turn with a batch to process. *)
Section Process.
Context (w0 : world) (Hd : db_ok (bw_db w0)) (before between : list bevent) (polls : list (list record)) (b : kafkaPolledBatch T).
Context (Hbefore : Forall quiet_event before) (Hbetween : Forall quiet_event between).
Context (Hu : usable ToLower parseTime c decoder (List.concat polls) b) (Hi : Forall (item_ok ToLower parseTime c decoder) (pb_records b)).
Context (Hsel : in_order (List.concat polls) -> selected ToLower parseTime c kb decoder (List.concat polls) b).

Lemma turned_settled a t' tr2 after err (w1 w2 w : world) :
  stage w0 (bw_db w0) (before ++ List.map BvPolled polls ++ between) w1 -> stage w1 (bw_db w2) tr2 w2 -> stage w2 (bw_db w2) after w ->
  concluded ToLower formatTime parseTime json_Marshal c decoder b (attempted ops ctxErr c kb a handler ctx t' b (bw_db w0)) tr2 err (bw_db w2) ->
  polled after = [] -> committed after = [] -> turned w0 w.
Proof.
  intros Hw1 Hs2 Hs3 Hc Ha1 Ha2. destruct (attempted_ok a t' b (bw_db w0) Hd Hi) as [Hok Hk].
  destruct (concluded_keeps _ _ _ _ _ Hc Hok) as [Hok' Hk']. pose proof Hs3 as (E & _).
  exists (before ++ List.map BvPolled polls ++ between ++ tr2 ++ after)%list. rewrite E. split_and!; [|done|by etrans|].
  - pose proof (stage_extend _ _ _ _ _ _ _ (stage_extend _ _ _ _ _ _ _ Hw1 Hs2) Hs3) as Hfin. by rewrite <- !app_assoc in Hfin.
  - eapply turn_keeps; [exact Hk'|]. by eapply settled_turn.
Qed.

Lemma process_turn a : batch_answers_ok a -> pb_records b <> [] ->
  triple (stage w0 (bw_db w0) (before ++ List.map BvPolled polls ++ between))
    (mbind (processKafkaBatch ops ctxErr formatTime json_Marshal c kb a handler ctx b) (fun err =>
       match err with
       | None => mret Continue
       | Some err => mbind allow (fun _ => mret (if errors_is (Some err) ErrTransactionNotCommitted then Continue else KafkaWorker.Return (Some err)))
       end)) (pending (fun _ => False) (fun _ => turned w0)).
Proof using Hnew Hlaws Hmachine Hd Hbefore Hbetween Hu Hi Hsel BatchBackend0.
  intros Ha Hne w1 Hw1.
  eapply (triple_bind _ _ (fun w => w = w1)) with (R := fun err w2 => exists t' tr2, stage w1 (bw_db w2) tr2 w2 /\
    concluded ToLower formatTime parseTime json_Marshal c decoder b (attempted ops ctxErr c kb a handler ctx t' b (bw_db w0)) tr2 err (bw_db w2)); [| |done].
  { eapply triple_weaken; [apply (processed a w1 b (bw_db w0)); done| |done|].
    - intros ? ->. by eapply stage_self.
    - intros err w (t' & _ & tr2 & Hc & Hs). by exists t', tr2. }
  intros [err|].
  - intros w2 (t' & tr2 & Hs2 & Hc).
    eapply (triple_bind _ _ (fun w => w = w2)) with (R := fun _ => turned w0); [| |done]; [|intros ?; by apply triple_ret].
    intros ? ->. apply (turned_settled a t' tr2 [BvAllowRebalance] (Some err) w1 w2); [done..| |done|done|done].
    apply (stage_allow w2 (bw_db w2) [] (fun _ => False)). by eapply stage_self.
  - apply triple_ret. intros w2 (t' & tr2 & Hs2 & Hc). apply (turned_settled a t' tr2 [] None w1 w2); [done..| |done|done|done].
    by eapply stage_self.
Qed.
End Process.

Lemma turn_returns t (w0 : world) : db_ok (bw_db w0) -> batch_answers_ok (bt_answers t) ->
  triple (stage w0 (bw_db w0) []) (batch_turn ops ctxErr ToLower formatTime parseTime json_Marshal c kb decoder handler ctx t)
    (pending (fun _ => False) (fun _ => turned w0)).
Proof using Hnew Hlaws Hmachine Hrecords BatchBackend0.
  intros Hd Ha. unfold batch_turn.
  destruct (bt_select t); [apply triple_ret; intros w Hw; by eapply turned_quietly..|].
  eapply triple_bind; [apply (stage_now (bt_answers t) (proj1 Ha))|]. intros now w [Hw _]. revert w Hw.
  eapply triple_bind; [apply stage_scheduler; intros dl sc Hr; destruct (releaseDue_ok dl sc now Hr) as (sc' & ? & ?); eauto|]. intros due.
  eapply triple_bind with (R := fun _ w => exists before, Forall quiet_event before /\ stage w0 (bw_db w0) before w).
  { destruct (decide (due = ∅)); [apply triple_ret; intros w Hw; by exists []|].
    intros w (E & Ht & Hs). cbn. exists [BvResume due]. split; [by repeat constructor|]. unfold stage. cbn. by rewrite Ht, app_nil_r. }
  intros ? w (before & Hq & Hw). revert w Hw.
  eapply triple_bind; [apply stage_scheduler; intros dl sc Hr; rewrite (poll_ok dl sc now Second Hr); cbn; eauto|]. intros timeout.
  destruct (timeout <=? 0); [apply triple_ret; intros w Hw; eapply turned_quietly; [done..|by apply quiet_committed]|].
  eapply triple_bind; [apply stage_collect|]. intros x w (polls & tail & Hw & Hct & Hx). revert w Hw.
  assert (committed (before ++ List.map BvPolled polls ++ tail) = []) as Hc1
    by (by rewrite !committed_app, committed_polls, (quiet_committed _ Hq), Hct).
  destruct x as [found|err]; [|apply triple_ret; intros w Hw; by eapply turned_quietly].
  eapply triple_bind; [apply stage_ready|]. intros ? w (between & Hqb & Hw). revert w Hw.
  assert (committed ((before ++ List.map BvPolled polls ++ tail) ++ between) = []) as Hc2 by (by rewrite committed_app, Hc1, (quiet_committed _ Hqb)).
  destruct found as [b|]; [|apply triple_ret; intros w Hw; by eapply turned_quietly].
  destruct Hx as (-> & Hu & Hi & Hsel). destruct (bt_drained t).
  { unfold rewindKafkaBatch. eapply triple_bind; [apply stage_offsets|]. intros ?. eapply triple_bind; [apply stage_allow|]. intros ?.
    apply triple_ret. intros w Hw. eapply turned_quietly; [done|exact Hw|]. by rewrite committed_app, committed_app, Hc2. }
  rewrite app_nil_r, <- app_assoc in *. pose proof (process_turn w0 Hd before between polls b Hq Hqb Hu Hi Hsel _ Ha) as Hprocess.
  destruct (pb_records b) as [|y ys] eqn:Eb.
  - destruct (pb_firstDeferred b) as [r|] eqn:Ed; [by apply defer_turn|]. exfalso. by apply (proj1 Hu).
  - destruct (pb_firstDeferred b); by apply Hprocess.
Qed.

Lemma turns_return ts : forall w0 : world, db_ok (bw_db w0) -> (exists deadlines, rel deadlines (bw_scheduler w0)) ->
  Forall (fun t => batch_answers_ok (bt_answers t)) ts ->
  exists w f trs, batch_turns ops ctxErr ToLower formatTime parseTime json_Marshal c kb decoder handler ctx ts w0 = (w, Val f) /\
    bw_trace w = (bw_trace w0 ++ List.concat trs)%list /\ db_ok (bw_db w) /\ keeps (bw_db w0) (bw_db w) /\ Forall (turn_ok (bw_db w)) trs.
Proof using Hnew Hlaws Hmachine Hrecords BatchBackend0.
  induction ts as [|t ts IH]; intros w0 Hd Hs Ha.
  { exists w0, Continue, []. cbn. rewrite app_nil_r. by split_and!. }
  apply Forall_cons in Ha as [Ha Has]. cbn [batch_turns]. pose proof (turn_returns t w0 Hd Ha w0) as Ht. unfold mbind.
  destruct (batch_turn _ _ _ _ _ _ _ _ _ _ _ t w0) as [w1 [f| |]]; cbn in Ht.
  2,3: by exfalso; apply Ht; unfold stage; rewrite app_nil_r.
  destruct Ht as (tr & (_ & Htr & Hs1) & Hd1 & Hk1 & Hok); [by unfold stage; rewrite app_nil_r|]. destruct f as [|err].
  - destruct (IH w1 Hd1 Hs1 Has) as (w & f & trs & -> & Htrs & Hdw & Hkw & Hoks). exists w, f, (tr :: trs). cbn. rewrite Htrs, Htr, app_assoc.
    split_and!; [done..|by etrans|]. constructor; [by eapply turn_keeps|done].
  - exists w1, (KafkaWorker.Return err), [tr]. cbn. rewrite app_nil_r. split_and!; [done..|by constructor].
Qed.

(** C16. A run of a worker's session loses no record, whatever the broker, the Inbox
    faults, the handlers and the clock do.  It neither panics nor blocks in the
    consumer, keeps the tables' invariant and every completion.  Its trace falls
    into turns.  In a turn at most one transaction commits, before any rebalance
    is allowed.  When the records polled in the turn come in the order of their offsets,
    each of them is handed over by that transaction (completed in the Inbox, or
    produced as a retry record or a dead letter) or lies at or after the offset
    that the session was given for its partition. *)
Theorem kafka_batch_no_loss ready readyErr d (s : S) ts :
  db_ok d -> Forall (fun t => batch_answers_ok (bt_answers t)) ts ->
  exists w f start trs,
    runKafkaBatchSession ops ctxErr ToLower formatTime parseTime json_Marshal c kb decoder handler ctx ready readyErr d s ts = (w, Val f) /\
    bw_trace w = (start ++ List.concat trs)%list /\ (start = [] \/ start = [BvReady]) /\
    db_ok (bw_db w) /\ keeps d (bw_db w) /\ Forall (turn_ok (bw_db w)) trs.
Proof using Hnew Hlaws Hmachine Hrecords BatchBackend0.
  intros Hd Ha. unfold runKafkaBatchSession, mbind. set (w0 := {| bw_db := d |}).
  assert (exists w1, batch_markReady readyErr w0 = (w1, Val tt) /\ bw_db w1 = d /\ bw_scheduler w1 = newRetryPartitionScheduler /\
    (bw_trace w1 = [] \/ bw_trace w1 = [BvReady])) as (w1 & -> & E & Es & Et).
  { unfold batch_markReady. destruct (_ || _ || _); eexists; (split; [done|]); cbn; auto. }
  destruct (turns_return ts w1) as (w & f & trs & -> & Htr & Hdw & Hkw & Hok); [by rewrite E|rewrite Es; eexists; apply rel_new|done|].
  rewrite E in Hkw. exists w, f, (bw_trace w1), trs. by split_and!.
Qed.
End Consumer.
End Theorems.

(** ** The rebalance timeout *)
(** The time a batch may take between two polls. *)
Definition batch_budget (batchMaxWait handlerTimeout finalizationTimeout operationTimeout : Duration) : Z :=
  batchMaxWait + (handlerTimeout + finalizationTimeout) + 2 * operationTimeout + defaultBatchRebalanceSafetyMargin.

(** C40. The rebalance timeout of a batch consumer is exactly the time a batch may
    take, and at least a minute, and a configuration that Kafka cannot express is
    refused, while twice the operation timeout is a [time.Duration].  The check is
    not made for larger ones: with the largest operation timeout the doubled value
    is -2, and the configuration is accepted with a timeout that does not cover
    the broker operations. *)
Theorem batch_rebalance_budget wait handler final operation :
  0 <= wait <= maxInt64 -> 0 <= handler <= maxInt64 -> 0 <= final <= maxInt64 -> 0 <= operation ->
  let need := batch_budget wait handler final operation in
  (2 * operation <= maxInt64 ->
     (need <= maxKafkaRebalanceTimeout -> batchConsumerRebalanceTimeout wait handler final operation = Ok (Z.max Minute need)) /\
     (maxKafkaRebalanceTimeout < need -> exists err, batchConsumerRebalanceTimeout wait handler final operation = Err err)) /\
  (operation = maxInt64 -> batch_budget wait handler final 0 <= maxKafkaRebalanceTimeout ->
     batchConsumerRebalanceTimeout wait handler final operation = Ok (Z.max Minute (batch_budget wait handler final 0 - 2))).
Proof.
  intros Hw Hh Hf Ho need. unfold batchConsumerRebalanceTimeout, handlerTransactionTimeout, need, batch_budget.
  change defaultBatchRebalanceSafetyMargin with 5000000000. change defaultConsumerRebalanceTimeout with Minute.
  change maxKafkaRebalanceTimeout with 2147483647000000. change Minute with 60000000000. change maxInt64 with 9223372036854775807 in *.
  assert (forall z, - 9223372036854775808 <= z <= 9223372036854775807 -> wrap64 z = z) as Hid by (intros; apply wrap64_id; unfold maxInt64; lia).
  destruct (Z.ltb_spec wait 0), (Z.ltb_spec handler 0), (Z.ltb_spec final 0), (Z.ltb_spec operation 0); try lia. cbn [orb]. split.
  - intros Htwo. rewrite (Hid (2 * operation)) by lia. split; intros Hneed.
    + destruct (Z.ltb_spec (9223372036854775807 - final) handler); [lia|].
      destruct (Z.ltb_spec 2147483647000000 wait); [lia|]. destruct (Z.ltb_spec (2147483647000000 - wait) (handler + final)); [lia|].
      destruct (Z.ltb_spec (2147483647000000 - wait - (handler + final)) (2 * operation)); [lia|]. rewrite Hid by lia.
      destruct (Z.ltb_spec (2147483647000000 - wait - (handler + final) - 2 * operation) 5000000000); [lia|]. by rewrite Hid by lia.
    + repeat case_goal; try by eexists. all: bool_simpl; rewrite ?Hid in * by lia; lia.
  - intros -> Hneed. change (wrap64 (2 * 9223372036854775807)) with (-2).
    destruct (Z.ltb_spec (9223372036854775807 - final) handler); [lia|].
    destruct (Z.ltb_spec 2147483647000000 wait); [lia|]. destruct (Z.ltb_spec (2147483647000000 - wait) (handler + final)); [lia|].
    destruct (Z.ltb_spec (2147483647000000 - wait - (handler + final)) (-2)); [lia|]. rewrite Hid by lia.
    destruct (Z.ltb_spec (2147483647000000 - wait - (handler + final) - -2) 5000000000); [lia|]. rewrite Hid by lia.
    do 2 f_equal. lia.
Qed.

Lemma batch_rebalance_budget_witness :
  batchConsumerRebalanceTimeout Second Minute Second Minute = Ok (187 * Second) /\
  batchConsumerRebalanceTimeout Second Minute Second maxInt64 = Ok (67 * Second - 2).
Proof.
  destruct (batch_rebalance_budget Second Minute Second Minute) as [H1 _]; [vm_compute; split; discriminate..|vm_compute; discriminate|].
  destruct (batch_rebalance_budget Second Minute Second maxInt64) as [_ H2]; [vm_compute; split; discriminate..|vm_compute; discriminate|].
  split; [apply H1; vm_compute; discriminate|apply H2; [reflexivity|vm_compute; discriminate]].
Defined.
End KafkaBatchTheorems.
