(* ===== verification/KafkaWitness.v ===== *)
(** * Kafka on concrete messages

    Witnesses of the Kafka theorems.  [KafkaWitness]: a consumer over the PostgreSQL
    backend, a record that is charged while the session loses the answer to its
    commit, and one whose handler asks for a retry.  [KafkaWorkerWitness]: a worker
    on a small broker client that meets the laws of pausing defers a retry record,
    serves another partition meanwhile and processes the record at its deadline.
    [KafkaBatchWitness]: a worker polls three records of two partitions, a message
    that the batch handler charges, one that cannot be decoded, and one of another
    partition, which is left for later. *)
From S2P Require Import Prelude GoStrings GoText Digest Errors Ident Batch Envelope EnvelopeProofs Inbox InboxSQL InboxSpec InboxEffects PgRefine InboxBatch InboxBatchSpec PgBatch.
From S2P Require Import PgBatch InboxStore InboxTheorems Middleware Delivery Route Builder Manifest KafkaTopic KafkaControl KafkaTransport KafkaConsumer KafkaDelivery KafkaReplay KafkaScheduler KafkaSchedulerProofs KafkaWorker KafkaBatch KafkaBatchProofs.
From S2P Require Import KafkaBatchSettlement KafkaBatchTheorems.
From stdpp Require Import sorting.
Import Stdlib.Strings.String.
Open Scope string_scope.
Open Scope Z_scope.

(** ** Kafka records on concrete messages *)
Module KafkaWitness.
Import Delivery Envelope EnvelopeProofs KafkaTopic KafkaControl KafkaDLQ KafkaConsumer KafkaDelivery.
Abbreviation Tables := (list string).

#[local] Instance store1 : InboxBackend Tables String.leb := PgRefine.Pg_backend _ _.
#[local] Existing Instance demo_json.
#[local] Existing Instance demo_laws.

Definition ctxErr (_ : bool) (_ : nat) : option error := None.
Definition lower (s : string) : string := s.
Definition marshal (d : DLQRecord) : result error string := Ok (kd_OriginalBase64 d).

Lemma text_ok : text_laws lower Itoa demo_parse.
Proof. split; [done|]. intros t Ht. by apply demo_time. Qed.

Definition charge (_ : Message unit) (_ : bool) (b : Tables) : Tables * Middleware.flow :=
  (("charged" :: b)%list, Middleware.Ret None).
Definition later (_ : Message unit) (_ : bool) (b : Tables) : Tables * Middleware.flow :=
  (("partial" :: b)%list, Middleware.Ret (Some (ENew "the gateway is down"))).

Definition config0 : HandlerConfig Tables bool :=
  {| kc_Namespace := "shop"; kc_ConsumerID := "billing"; kc_Concurrency := 0; kc_Timeout := 0; kc_FinalizationTimeout := 0;
     kc_MaxAttempts := 3; kc_BaseRetry := 0; kc_MaxRetry := 0; kc_RetryTiers := []; kc_HasObservers := true;
     kc_NilPanicReporter := true; kc_Middlewares := []; kc_FailureSanitizer := None |}.
Definition consumer1 : Consumer Tables bool :=
  match newConsumer true (d_info demo_descriptor) config0 with
  | Ok c => c
  | Err _ => {| c_config := config0; c_descriptor := d_info demo_descriptor; c_sourceTopic := ""; c_groupID := ""; c_retryTopics := [];
                c_replayTopic := ""; c_dlqTopic := ""; c_topics := [] |}
  end.

Lemma consumer1_ok : newConsumer true (d_info demo_descriptor) config0 = Ok consumer1.
Proof. vm_compute. reflexivity. Qed.

Definition answers_with (end_ : bool * option error) : answers :=
  {| ka_inbox := env0; ka_confirm := env0; ka_clock := fun n => 1000 + Z.of_nat n; ka_random := fun _ _ => Some 0; ka_ctxErr := None;
     ka_begin := None; ka_timedOut := false; ka_produce := None; ka_abort := None; ka_end := end_; ka_rewind := None; ka_retention := true |}.

Definition polled : record :=
  {| r_Topic := "shop.event.order.paid.v1"; r_Partition := 3; r_Offset := 41; r_LeaderEpoch := 0;
     r_Key := MessageID_String demo_id; r_Value := " demo"; r_Headers := []; r_Timestamp := 900 |}.
Definition delivery_with (end_ : bool * option error) : delivery :=
  {| dv_record := polled; dv_answers := answers_with end_; dv_ctx := false; dv_t0 := 0 |}.

Lemma delivery_with_ok handler end_ : delivery_ok lower demo_parse (decode demo_descriptor handler) consumer1 (delivery_with end_).
Proof.
  split; [vm_compute; by repeat split|]. split; [intros n; cbn; lia|]. split; [vm_compute; done|].
  intros control dm (e & (Hc & _) & _) Hl. exfalso. revert Hl. vm_compute in Hc. apply Ok_inj in Hc as <-. done.
Qed.

Abbreviation deliver1 handler := (deliver (collate := String.leb) ctxErr lower Itoa demo_parse marshal (decode demo_descriptor handler) consumer1).

(** The retry record it leaves. *)
Definition retry_sent : record :=
  {| r_Topic := "shop.event.order.paid.v1.gm.billing.retry.t0"; r_Partition := 0; r_Offset := 0; r_LeaderEpoch := 0;
     r_Key := MessageID_String demo_id; r_Value := "demo";
     r_Headers := controlHeaders Itoa (with_schedule (sourceControl polled) 1 1003); r_Timestamp := 900 |}.

(** The record whose handler failed is replaced by its retry record. *)
Lemma kafka_settlement_witness :
  visible (w_trace (deliver1 later (delivery_with (true, None)) db0).1) = [EvTx [retry_sent] TxCommitted] /\
  exists control dm attempt, decodes lower demo_parse (decode demo_descriptor later) consumer1 polled control dm /\
    is_retry lower Itoa demo_parse consumer1 polled control dm attempt retry_sent.
Proof.
  assert (visible (w_trace (deliver1 later (delivery_with (true, None)) db0).1) = [EvTx [retry_sent] TxCommitted]) as Hv
    by (vm_compute; reflexivity).
  destruct (kafka_settlement (collate := String.leb) ctxErr lower Itoa demo_parse marshal (decode demo_descriptor later) true
    (d_info demo_descriptor) config0 consumer1 (delivery_with (true, None)) db0 text_ok consumer1_ok
    (delivery_with_ok _ _) (empty_db_ok [])) as (err & ops & _ & _ & _ & Hs).
  rewrite Hv in Hs. split; [exact Hv|].
  destruct Hs as (_ & [(Hno & _)|[(q & k & Hq & _ & [Ht _])|(q & k & dm & n & Hq & Hd & Hr)]] & _).
  - discriminate Hno.
  - exfalso. injection Hq as <-. vm_compute in Ht. discriminate Ht.
  - injection Hq as <-. exists k, dm, n. split; [exact Hd|exact Hr].
Defined.

Abbreviation consume1 := (consume (collate := String.leb) ctxErr lower Itoa demo_parse marshal (decode demo_descriptor charge) consumer1).

(** The answer to the first commit is lost; the redelivered record is a duplicate. *)
Lemma kafka_exactly_once_witness :
  let ds := [delivery_with (false, Some (ENew "timeout")); delivery_with (true, None)] in
  business (consume1 ds db0) = ["charged"] /\
  exists log, NoDup (List.map fst log) /\ business (consume1 ds db0) = apply_log log [].
Proof.
  intros ds. split; [vm_compute; reflexivity|].
  assert (Forall (delivery_ok lower demo_parse (decode demo_descriptor charge) consumer1) ds) as Hok
    by (constructor; [apply delivery_with_ok|constructor; [apply delivery_with_ok|constructor]]).
  destruct (kafka_exactly_once (collate := String.leb) ctxErr lower Itoa demo_parse marshal (decode demo_descriptor charge) true
    (d_info demo_descriptor) config0 consumer1 ds db0 text_ok consumer1_ok Hok (empty_db_ok [])) as (log & H1 & H2 & _).
  exists log. split; [exact H1|exact H2].
Defined.

(** The retry record as the broker stores it. *)
Definition retry_stored : record :=
  {| r_Topic := r_Topic retry_sent; r_Partition := 2; r_Offset := 7; r_LeaderEpoch := 4; r_Key := r_Key retry_sent;
     r_Value := r_Value retry_sent; r_Headers := r_Headers retry_sent; r_Timestamp := 950 |}.
Definition demo_message : decodedMessage Tables bool :=
  {| dm_metadata := demo_metadata; dm_canonical := "demo"; dm_handle := later {| m_Metadata := demo_metadata; m_Payload := tt |} |}.

Lemma demo_codec_reads : codec_reads (d_codec demo_descriptor).
Proof.
  intros data _. cbn. unfold demo_compact. destruct (String.eqb data " 1") eqn:E; [reflexivity|]. by rewrite E.
Qed.

Lemma polled_decodes : decodes lower demo_parse (decode demo_descriptor later) consumer1 polled (sourceControl polled) demo_message.
Proof.
  exists (demo_envelope " 1"). split; [|vm_compute; reflexivity].
  split; [vm_compute; reflexivity|]. split; [vm_compute; reflexivity|]. split; [vm_compute; reflexivity|].
  split; vm_compute; reflexivity.
Qed.

Lemma retry_delivery_ok : delivery_ok lower demo_parse (decode demo_descriptor later) consumer1
  {| dv_record := retry_stored; dv_answers := answers_with (true, None); dv_ctx := true; dv_t0 := 0 |}.
Proof.
  split; [vm_compute; by repeat split|]. split; [intros n; cbn; lia|]. split; [vm_compute; done|].
  intros control dm (e & (Hc & _) & _) Hl. exfalso. revert Hl. vm_compute in Hc. apply Ok_inj in Hc as <-. done.
Qed.

(** The handler fails, its retry record is stored and delivered again. *)
Lemma kafka_retry_same_message_witness :
  exists control dm attempt notBefore, decodes lower demo_parse (decode demo_descriptor later) consumer1 polled control dm /\
    r_Headers retry_stored = controlHeaders Itoa (with_schedule control attempt notBefore) /\
    (notBefore < year_10000 ->
     decodes lower demo_parse (decode demo_descriptor later) consumer1 retry_stored (with_schedule control attempt notBefore) dm /\
     exists ops, w_db (deliver1 later {| dv_record := retry_stored; dv_answers := answers_with (true, None); dv_ctx := true; dv_t0 := 0 |}
                        db0).1 = perform_all ops db0 /\
       Forall (fun o => o.1 = attempt_op ctxErr consumer1 true 0 control dm \/ o.1 = confirm_op consumer1 control dm) ops).
Proof.
  assert (visible (w_trace (deliver1 later (delivery_with (true, None)) db0).1) = [EvTx [retry_sent] TxCommitted]) as Hv
    by (vm_compute; reflexivity).
  assert (r_Topic retry_sent ∈ c_retryTopics consumer1) as Ht by (left; reflexivity).
  assert (stored_as retry_sent retry_stored) as Hst by (split; [|split; [|split]]; reflexivity).
  destruct (kafka_retry_same_message (collate := String.leb) ctxErr lower Itoa demo_parse marshal demo_descriptor later true
    (d_info demo_descriptor) config0 consumer1 (delivery_with (true, None)) db0 retry_sent TxCommitted [] retry_stored text_ok consumer1_ok
    demo_codec_reads (delivery_with_ok _ _) (empty_db_ok []) Hv Ht Hst) as (control & dm & attempt & notBefore & H1 & H2 & H3).
  exists control, dm, attempt, notBefore. split; [exact H1|]. split; [exact H2|]. intros Hy. destruct (H3 Hy) as [H4 H5].
  split; [exact H4|]. apply H5; [reflexivity|exact retry_delivery_ok|exact (empty_db_ok [])].
Defined.

(** A typed message from the route to the handler. *)
Definition orders : KafkaTransport.KafkaRoute := {| KafkaTransport.kr_name := "orders"; KafkaTransport.kr_namespace := "shop" |}.

Lemma kafka_end_to_end_witness :
  KafkaTransport.routeTopic orders demo_metadata = Ok "shop.event.order.paid.v1" /\
  exists dm, decodes lower demo_parse (decode demo_descriptor charge) consumer1
      (KafkaTransport.newRouteRecord "shop.event.order.paid.v1" demo_metadata "demo")
      (sourceControl (KafkaTransport.newRouteRecord "shop.event.order.paid.v1" demo_metadata "demo")) dm /\ dm_metadata dm = demo_metadata.
Proof.
  destruct (KafkaReplay.kafka_end_to_end (B := Tables) (C := bool) lower demo_parse demo_descriptor charge true (d_info demo_descriptor) config0
    consumer1 consumer1_ok orders demo_metadata tt "demo" eq_refl eq_refl) as [Ht Hq].
  - vm_compute. reflexivity.
  - exact demo_text.
  - reflexivity.
  - intros data [= <-]. split; [reflexivity|discriminate].
  - split; [exact Ht|]. destruct (Hq (KafkaTransport.newRouteRecord "shop.event.order.paid.v1" demo_metadata "demo")) as (dm & H1 & H2 & _).
    + split; [reflexivity|]. split; [reflexivity|]. split; reflexivity.
    + exists dm. split; [exact H1|exact H2].
Defined.

(** The dead letter of the polled record, and its replay. *)
Definition dead1 : DLQRecord :=
  makeDLQRecord "billing" polled (sourceControl polled) (MessageID_String demo_id) 3 "attempts_exhausted" (Some "the gateway is down") 2000.

Lemma dead1_captured : kafka_captured dead1 (kc_ConsumerID (c_config consumer1)) polled (sourceControl polled).
Proof. repeat split; vm_compute; reflexivity. Qed.

Lemma kafka_replay_same_message_witness :
  exists plan, KafkaTransport.PlanDLQReplay marshal dead1 = Ok plan /\
    KafkaTransport.rp_Topic plan = "shop.event.order.paid.v1.gm.billing.replay" /\
    KafkaTransport.validateProtectedReplayRecord lower demo_parse (KafkaTransport.replayRecord Itoa dead1 plan) = Ok "demo".
Proof.
  destruct (KafkaReplay.kafka_replay_same_message lower Itoa demo_parse marshal demo_descriptor later true (d_info demo_descriptor) config0
    consumer1 consumer1_ok text_ok polled (sourceControl polled) demo_message dead1 (kd_OriginalBase64 dead1) demo_codec_reads
    ltac:(vm_compute; repeat split; discriminate) polled_decodes dead1_captured ltac:(right; vm_compute; reflexivity) eq_refl) as (plan & H1 & H2 & _ & H3 & _).
  exists plan. split; [exact H1|]. split; [exact H2|exact H3].
Defined.
End KafkaWitness.

(** ** A worker on a small broker client *)
Module KafkaWorkerWitness.
Import Delivery KafkaControl KafkaConsumer KafkaScheduler KafkaSchedulerProofs KafkaWorker KafkaWorkerProofs.

Record client := {
  cl_log : list record;
  cl_next : gmap string (gmap Z EpochOffset);
  cl_paused : gset topicPartition }.

Definition partitions_in (m : gmap string (list Z)) : gset topicPartition :=
  list_to_set (flat_map (fun '(t, l) => List.map (fun z => {| tp_topic := t; tp_partition := z |}) l) (map_to_list m)).
Definition by_topic (ps : gset topicPartition) : gmap string (list Z) :=
  spec_resume {| a_deadlines := gset_to_gmap 0 ps; a_owned := ps |} 0.

Definition next_offset (s : client) (p : topicPartition) : Z :=
  match cl_next s !! tp_topic p ≫= (.!! tp_partition p) with Some o => eo_Offset o | None => 0 end.
Definition available (s : client) (r : record) : bool :=
  negb (bool_decide (partition_of r ∈ cl_paused s)) && (next_offset s (partition_of r) <=? r_Offset r).
Definition advance (o : gmap string (gmap Z EpochOffset)) (s : client) : client :=
  {| cl_log := cl_log s; cl_next := union_with (fun a b => Some (a ∪ b)) o (cl_next s); cl_paused := cl_paused s |}.
Definition set_paused (ps : gset topicPartition) (s : client) : client :=
  {| cl_log := cl_log s; cl_next := cl_next s; cl_paused := ps |}.

#[export] Instance client_retry : retryPartitionSession client := {|
  AllowRebalance s := s;
  PauseFetchPartitions m s := let ps := cl_paused s ∪ partitions_in m in (set_paused ps s, by_topic ps);
  ResumeFetchPartitions m s := set_paused (filter (fun p => containsPartition m p = false) (cl_paused s)) s;
  SetOffsets o s := advance o s;
  CommittedOffsets s := cl_next s;
  UncommittedOffsets s := ∅ |}.

#[export] Instance client_session : transactionalConsumerSession client := {|
  session_retry := client_retry;
  GroupMetadata s := ("member", 1);
  PollRecords d _ s :=
    match List.filter (available s) (cl_log s) with
    | [] => (s, {| f_Errors := []; f_Records := [] |})
    | r :: _ =>
        (advance {[r_Topic r := {[r_Partition r := {| eo_Epoch := r_LeaderEpoch r; eo_Offset := r_Offset r + 1 |}]}]} s,
         {| f_Errors := []; f_Records := [r] |})
    end |}.

Lemma elem_of_partitions_in m p : p ∈ partitions_in m <-> containsPartition m p = true.
Proof.
  unfold partitions_in. rewrite elem_of_list_to_set, contains_elem, list_elem_of_In, in_flat_map. destruct p as [t z]; cbn. split.
  - intros ([t' l] & Hin & Hz). apply list_elem_of_In, elem_of_map_to_list in Hin. apply in_map_iff in Hz as (z' & [= <- <-] & Hz).
    rewrite Hin. cbn. by apply list_elem_of_In.
  - intros Hz. destruct (m !! t) as [l|] eqn:E; [|by apply not_elem_of_nil in Hz]. exists (t, l).
    split; [by apply list_elem_of_In, elem_of_map_to_list|]. apply in_map_iff. exists z. split; [done|by apply list_elem_of_In].
Qed.

Lemma contains_by_topic ps p : containsPartition (by_topic ps) p = true <-> p ∈ ps.
Proof.
  unfold by_topic. rewrite contains_resume, elem_of_intersection, elem_of_due. cbn. split; [by intros [_ ?]|].
  intros Hp. split; [|done]. exists 0. split; [by apply lookup_gset_to_gmap_Some|done].
Qed.

#[export] Instance client_laws : SessionLaws client.
Proof.
  refine {| paused := cl_paused |}; cbn.
  - intros m s p. by rewrite elem_of_union, elem_of_partitions_in.
  - intros m s p. apply contains_by_topic.
  - intros m s p. rewrite elem_of_filter. naive_solver.
  - done.
  - done.
  - intros d n s. by destruct (List.filter _ _).
  - intros d n s r. destruct (List.filter _ _) as [|r' l] eqn:E; cbn; intros Hr; [by apply not_elem_of_nil in Hr|].
    apply list_elem_of_singleton in Hr as ->. assert (In r' (List.filter (available s) (cl_log s))) as Hin by (rewrite E; by left).
    apply filter_In in Hin as [_ Hin]. unfold available in Hin. apply andb_prop in Hin as [Hin _].
    by apply negb_true_iff, bool_decide_eq_false in Hin.
Defined.

Definition record_on (topic : string) (offset : Z) : record :=
  {| r_Topic := topic; r_Partition := 0; r_Offset := offset; r_LeaderEpoch := 1; r_Key := ""; r_Value := "";
     r_Headers := []; r_Timestamp := 1 |}.
Definition client0 : client :=
  {| cl_log := [record_on "retry" 0; record_on "orders" 0]; cl_next := ∅; cl_paused := {[ {| tp_topic := "other"; tp_partition := 3 |} ]} |}.

(** The retry record is due at 50, measured by the turn. *)
Definition prepare1 (n : nat) (r : record) : preparedRecord :=
  {| pr_control := sourceControl r; pr_envelope := Envelope0; pr_observedAt := 1;
     pr_retryAt := if (r_Topic r =? "retry")%string && (n <? 2)%nat then 50 else 0;
     pr_failure := None; pr_attempt := 1; pr_messageID := "" |}.
Definition process1 (n : nat) (s : client) (r : record) (p : preparedRecord) : client * option error := (s, None).
Definition tick_at (now : Time) : tick :=
  {| tk_select := Default; tk_now := now; tk_pollErr := None; tk_drained := false; tk_ctxErr := None; tk_readyErr := None |}.
Definition run1 : option (worker client * flow) :=
  runWorkerSession prepare1 process1 true None client0 [tick_at 10; tick_at 20; tick_at 60].

(** The loop keeps the deadline on this client. *)
Lemma worker_defers_until_deadline_witness :
  (exists w f, run1 = Some (w, f) /\
    waits (w_trace w) /\ paused client0 ⊆ paused (w_session w) /\
    (f = Continue -> forall p, p ∈ paused (w_session w) -> p ∈ paused client0 \/ exists d, waiting p d (w_trace w))) /\
  match run1 with
  | Some (w, f) =>
      f = Continue /\
      w_trace w = [EvReady; EvTick 10; EvPoll 1000000000; EvDeferred {| tp_topic := "retry"; tp_partition := 0 |} 50; EvAllowRebalance;
                   EvTick 20; EvPoll 30; EvAllowRebalance; EvProcess (record_on "orders" 0);
                   EvTick 60; EvResume {["retry" := [0]]}; EvPoll 1000000000; EvAllowRebalance; EvProcess (record_on "retry" 0)]
  | None => False
  end.
Proof.
  split.
  - apply (worker_defers_until_deadline prepare1 process1 true None client0 [tick_at 10; tick_at 20; tick_at 60]). done.
  - vm_compute. split; reflexivity.
Defined.
End KafkaWorkerWitness.

(** ** A Kafka batch on concrete messages *)
Module KafkaBatchWitness.
Import Delivery Envelope EnvelopeProofs KafkaTopic KafkaControl KafkaDLQ KafkaConsumer KafkaDelivery KafkaWitness KafkaScheduler KafkaSchedulerProofs KafkaWorker KafkaBatch KafkaBatchProofs KafkaBatchSettlement KafkaBatchTheorems.

#[local] Instance store2 : InboxBackend Tables String.leb := PgRefine.Pg_backend _ _.
#[local] Existing Instance demo_json.
#[local] Program Instance ranges2 : Manifest.MapRange := {| Manifest.range := fun K A _ _ => map_to_list |}.
Next Obligation. done. Qed.

Definition record_at (partition offset : Z) (value : string) : record :=
  {| r_Topic := "shop.event.order.paid.v1"; r_Partition := partition; r_Offset := offset; r_LeaderEpoch := 0;
     r_Key := MessageID_String demo_id; r_Value := value; r_Headers := []; r_Timestamp := 900 |}.
Definition log1 : list record := [record_at 3 41 " demo"; record_at 3 42 "junk"; record_at 4 7 "demo"].

(** A session on the log: the state is the number of records polled. *)
#[local] Instance reader_retry : retryPartitionSession nat := {|
  AllowRebalance s := s; PauseFetchPartitions _ s := (s, ∅); ResumeFetchPartitions _ s := s; SetOffsets _ s := s;
  CommittedOffsets _ := ∅; UncommittedOffsets _ := ∅ |}.
#[local] Instance reader : transactionalConsumerSession nat := {|
  session_retry := reader_retry; GroupMetadata _ := ("member", 1);
  PollRecords _ n s := let l := List.firstn (Z.to_nat n) (List.skipn s log1) in ((s + List.length l)%nat, {| f_Errors := []; f_Records := l |}) |}.

Definition batch0 : BatchConfig (@BatchMiddleware Tables bool) := {| MaxMessages := 0; MaxBytes := 0; MaxWait := 0; Middlewares := [] |}.
Definition batch1 : kafkaBatchConsumer (@BatchMiddleware Tables bool) :=
  match newKafkaBatchConsumer true true 0 (d_info demo_descriptor) config0 batch0 with
  | Ok (_, kb) => kb
  | Err _ => {| kb_config := batch0; kb_rebalanceTimeout := 0 |}
  end.
Lemma batch1_ok : newKafkaBatchConsumer true true 0 (d_info demo_descriptor) config0 batch0 = Ok (consumer1, batch1).
Proof. vm_compute. reflexivity. Qed.

Definition charge_all : @BatchHandler Tables bool unit := fun _ messages b =>
  ((List.map (fun _ => "charged") messages ++ b)%list,
   Returned (List.map (fun m => {| bi_Key := Batch.message_key m; bi_Err := None |}) messages) None).
Definition decoder1 : Envelope -> result error (batchDecoded unit) := decodeBatch demo_descriptor.
Definition ctxErr1 (_ : bool) (_ : Tables) : option error := None.

Definition answers1 : batchAnswers :=
  {| ba_answers := {| ka_inbox := env0; ka_confirm := env0; ka_clock := fun n => 1000 + Z.of_nat n;
       ka_random := fun _ m => if m <=? 0 then None else Some 0; ka_ctxErr := None; ka_begin := None; ka_timedOut := false; ka_produce := None;
       ka_abort := None; ka_end := (true, None); ka_rewind := None; ka_retention := true |};
     ba_pollErr := fun _ => None; ba_confirm := fun _ => Some env0 |}.
Definition tick1 : btick := {| bt_select := Default; bt_answers := answers1; bt_readyErr := None; bt_drained := false |}.

Lemma answers1_ok : batch_answers_ok answers1.
Proof. split; [intros n; cbn; lia|]. intros n m v. cbn. destruct (Z.leb_spec m 0); [done|]. intros [= <-]. lia. Qed.

Lemma log1_deliverable r : r ∈ log1 -> deliverable lower demo_parse decoder1 consumer1 r.
Proof.
  unfold log1. intros Hr. assert ((0 <= r_Partition r < 2 ^ 31 /\ 0 <= r_Offset r <= maxInt64) /\ r_Topic r = "shop.event.order.paid.v1" /\ r_Headers r = []) as (Hp & Ht & Hh).
  { repeat (apply elem_of_cons in Hr as [->|Hr]; [vm_compute; by repeat split|]). by apply not_elem_of_nil in Hr. }
  split; [exact Hp|]. intros x E (_ & (Hc & _ & Hu & _) & Hd). rewrite E in Hc, Hu.
  assert (cm_attemptGeneration (pr_control (br_prepared x)) = "") as Hgen.
  { revert Hc. unfold control_of, parseControl. rewrite Ht, Hh. cbn. by intros <-%Ok_inj. }
  split.
  - unfold decoder1, decodeBatch in Hd. destruct (payload _); [|done]. destruct (MarshalEnvelope _ _ _); [|done].
    destruct (Decode _ _); [|done]. apply Ok_inj in Hd. rewrite <- Hd. cbn.
    set (e := pr_envelope (br_prepared x)) in *. clearbody e. clear Hp Ht Hh E Hc Hgen Hd.
    repeat (apply elem_of_cons in Hr as [->|Hr]; [vm_compute in Hu; first [discriminate Hu|apply Ok_inj in Hu; rewrite <- Hu; vm_compute; reflexivity]|]).
    by apply not_elem_of_nil in Hr.
  - intros Hl. exfalso. revert Hl. unfold legacy, record_key. cbn. by rewrite Hgen.
Qed.
Lemma reader_deliverable timeout n s r : r ∈ f_Records (PollRecords timeout n s).2 -> deliverable lower demo_parse decoder1 consumer1 r.
Proof.
  cbn. intros Hr. apply log1_deliverable. rewrite <- (firstn_skipn s log1), <- (firstn_skipn (Z.to_nat n) (List.skipn s log1)).
  apply elem_of_app. right. apply elem_of_app. by left.
Qed.

Definition world1 : bworld Tables nat :=
  {| bw_db := db0; bw_reads := 0; bw_draws := 0; bw_session := 0%nat; bw_scheduler := newRetryPartitionScheduler; bw_streak := 0;
     bw_ready := true; bw_trace := [] |}.
Definition collect1 : bworld Tables nat * comp (result error (option (kafkaPolledBatch unit))) :=
  collectKafkaBatch lower demo_parse consumer1 batch1 answers1 decoder1 1000 world1.

Lemma log1_in_order : in_order log1.
Proof. repeat constructor; cbn; intros; lia || discriminate. Qed.

Definition found1 : option (kafkaPolledBatch unit) := match collect1.2 with Val (Ok (Some b)) => Some b | _ => None end.

(** Two records of the first partition make the batch. *)
Lemma kafka_batch_selection_witness :
  exists b, found1 = Some b /\ selected lower demo_parse consumer1 batch1 decoder1 log1 b /\
    List.map (fun x => r_Offset (br_record x)) (pb_records b) = [41; 42].
Proof.
  destruct (kafka_batch_selection lower demo_parse decoder1 true true 0 (d_info demo_descriptor) config0 batch0 consumer1 batch1 batch1_ok
    answers1 1000 world1) as (w & x & polls & tail & E & _ & _ & _ & Ht & Hx).
  assert (collect1 = (w, Val x)) as Ec by exact E. unfold found1. rewrite Ec. cbn [snd].
  assert (bw_trace collect1.1 = [BvPolled log1; BvPolled []] /\
    match collect1.2 with
    | Val (Ok (Some b)) => List.map (fun x => r_Offset (br_record x)) (pb_records b) = [41; 42]
    | _ => False
    end) as [Htr Hb] by (vm_compute; split; reflexivity).
  rewrite Ec in Htr, Hb. cbn [fst snd] in Htr, Hb. destruct x as [[b|]|]; [|contradiction..].
  exists b. split; [reflexivity|]. split; [|exact Hb]. destruct Hx as [-> Hsel]. rewrite app_nil_r in Ht. cbn [world1 bw_trace app] in Ht.
  assert (List.map BvPolled polls = [BvPolled log1; BvPolled []]) as Hp by (rewrite <- Ht; exact Htr).
  destruct polls as [|p1 [|p2 [|? ?]]]; cbn [List.map] in Hp; try discriminate Hp. injection Hp as E1 E2. subst p1 p2.
  cbn [List.concat] in Hsel. rewrite !app_nil_r in Hsel. apply Hsel, log1_in_order.
Defined.

Definition batch_of_two : kafkaPolledBatch unit :=
  default {| pb_records := []; pb_earliestOffsets := ∅; pb_partition := partition_of_record (record_at 3 41 ""); pb_first := record_at 3 41 "";
             pb_firstDeferred := None; pb_deferUntil := 0; pb_firstUnprocessed := None; pb_selectionStopped := false; pb_bytes := 0;
             pb_fillStarted := 0 |} found1.

Lemma batch_of_two_usable : usable lower demo_parse consumer1 decoder1 log1 batch_of_two.
Proof.
  pose proof (collect_ok lower demo_parse consumer1 batch1 answers1 decoder1 (fun _ => True) ltac:(done) ltac:(vm_compute; done) 1000 world1 world1) as Hc.
  fold collect1 in Hc.
  assert (bw_trace collect1.1 = [BvPolled log1; BvPolled []] /\ match collect1.2 with Val (Ok (Some b)) => batch_of_two = b | _ => False end)
    as [Htr Hb] by (vm_compute; split; reflexivity).
  destruct collect1 as [w [[[b|]|]| |]]; cbn [fst snd] in Htr, Hb; [|contradiction..]. rewrite Hb.
  destruct Hc as (polls & tail & _ & _ & _ & _ & Ht & _ & -> & Hu & _); [by repeat split; constructor|].
  rewrite app_nil_r in Ht. cbn [fst world1 bw_trace app] in Ht, Htr. rewrite Ht in Htr.
  destruct polls as [|p1 [|p2 [|? ?]]]; cbn [List.map] in Htr; try discriminate Htr. injection Htr as -> ->.
  cbn [List.concat] in Hu. by rewrite !app_nil_r in Hu.
Qed.

(** The first message is completed, the second record becomes a dead letter. *)
Lemma kafka_batch_settlement_witness :
  let r := processKafkaBatch (PgBatch.ops (B := Tables)) ctxErr1 Itoa marshal consumer1 batch1 answers1 charge_all false batch_of_two world1 in
  r.2 = Val None /\ business (bw_db r.1) = ["charged"] /\
  exists t tr, concluded lower Itoa demo_parse marshal consumer1 decoder1 batch_of_two
    (attempted PgBatch.ops ctxErr1 consumer1 batch1 answers1 charge_all false t batch_of_two db0) tr None (bw_db r.1).
Proof.
  intros r. assert (r.2 = Val None /\ business (bw_db r.1) = ["charged"]) as [E Eb] by (vm_compute; split; reflexivity).
  split; [exact E|]. split; [exact Eb|].
  assert (Forall (deliverable lower demo_parse decoder1 consumer1) (List.map br_record (pb_records batch_of_two))) as Hdel.
  { apply List.Forall_map. destruct batch_of_two_usable as (_ & _ & Hin). eapply Forall_impl; [exact Hin|]. intros x. apply log1_deliverable. }
  destruct (kafka_batch_settlement (collate := String.leb) PgBatch.ops ctxErr1 lower Itoa demo_parse marshal decoder1 charge_all false
    true true 0 (d_info demo_descriptor) config0 batch0 consumer1 batch1 batch1_ok answers1 batch_of_two world1 text_ok
    ltac:(vm_compute; by repeat split) answers1_ok (empty_db_ok []) (ex_intro (fun dl => rel dl (bw_scheduler world1)) _ rel_new) ltac:(vm_compute; discriminate)
    (proj1 (proj2 batch_of_two_usable)) Hdel) as (w & err & t & tr & Er & _ & Hc & _).
  fold r in Er. assert (err = None) as -> by (rewrite Er in E; injection E as ->; reflexivity).
  exists t, tr. rewrite Er. exact Hc.
Defined.

Definition run1 : bworld Tables nat * comp flow :=
  runKafkaBatchSession PgBatch.ops ctxErr1 lower Itoa demo_parse marshal consumer1 batch1 decoder1 charge_all false true None db0 0%nat [tick1].

(** One transaction commits, and the record of the other partition stays covered. *)
Lemma kafka_batch_no_loss_witness :
  (run1.2 = Val Continue /\ business (bw_db run1.1) = ["charged"] /\ List.length (committed (bw_trace run1.1)) = 1%nat) /\
  exists start trs, bw_trace run1.1 = (start ++ List.concat trs)%list /\
    Forall (turn_ok lower Itoa demo_parse marshal decoder1 consumer1 (bw_db run1.1)) trs.
Proof.
  split; [vm_compute; repeat split; reflexivity|].
  destruct (kafka_batch_no_loss (collate := String.leb) PgBatch.ops ctxErr1 lower Itoa demo_parse marshal decoder1 charge_all false
    true true 0 (d_info demo_descriptor) config0 batch0 consumer1 batch1 batch1_ok text_ok ltac:(vm_compute; by repeat split)
    reader_deliverable true None db0 0%nat [tick1] (empty_db_ok []) ltac:(constructor; [apply answers1_ok|constructor]))
    as (w & f & start & trs & Er & Ht & _ & _ & _ & Hok).
  exists start, trs. assert (run1 = (w, Val f)) as -> by exact Er. split; [exact Ht|exact Hok].
Defined.
End KafkaBatchWitness.
