(* ===== verification/Runtime.v ===== *)
(** * The runtime's lifecycle

    Models [runtime.go]: the supervisor of the managed services.  [Run],
    [BeginDrain], [Shutdown] and the health probes are called by any number of
    goroutines; the goroutines of the services run beside them.  The model is a
    step relation on the shared [Runtime] and the program counters of the calls:
    one step is one critical section of [mu], one channel operation, one call of
    a service or one entry or exit of a [sync.Once].  Services are arbitrary: a
    call of a service may return any error or panic, at any time, or never end.

    Time is not modelled: the deadline of [shutdownContext] and the end of a
    caller's context may happen at any step.  Logging and observation
    ([reportServiceFailure], [safeLog]) have no effect on the state. *)
From S2P Require Import Prelude GoStrings Errors.
From stdpp Require Import sorting.
From Stdlib Require Import Ascii.
Import Stdlib.Strings.String.
Open Scope string_scope.
Open Scope Z_scope.

Module Runtime.

(** ** State *)
Inductive runtimeState : Set := runtimeNew | runtimeRunning | runtimeDraining | runtimeClosed.
#[global] Instance runtimeState_eq_dec : EqDecision runtimeState.
Proof. solve_decision. Defined.

(** How a call of a method of a service ends. *)
Inductive outcome : Type :=
| Returns (err : option error)
| Panics.

(** The goroutine that runs a service: not started, running, its result in the
    channel [results], its result received. *)
Inductive worker : Type :=
| Idle
| Active
| Exited (err : option error)
| Collected (err : option error).

(** A call of [Shutdown]: running, or its result received. *)
Inductive call : Type :=
| Pending
| Answered (err : option error).

(** A service with the calls of its methods so far: the number of calls of
    [Run], the result of every call of [BeginDrain], every call of [Shutdown]. *)
Record service := {
  sv_id : string;
  sv_worker : worker;
  sv_runs : nat;
  sv_drains : list (option error);
  sv_shutdowns : list call }.

(** [drainOnce], with the goroutine inside [Do]. *)
Inductive once : Type := OnceIdle | OnceRunning (t : nat) | OnceDone.

Record Runtime := {
  r_services : list service;
  r_state : runtimeState;
  r_runCancel : bool;  (** [runCancel != nil] *)
  r_runErr : option sentinel;  (** [runContext.Err()] *)
  r_shutdownStarted : bool;
  r_shutdownErr : option error;
  r_drainErr : option error;
  r_done : nat;  (** how often the channel was closed *)
  r_drain : nat;
  r_drainOnce : once;
  r_closeOnce : bool }.

Definition id_le (a b : string) : Prop := is_true (String.leb a b).
#[global] Instance id_le_dec : RelDecision id_le.
Proof. intros a b. unfold id_le, is_true. apply _. Defined.

Definition idle_service (id : string) : service :=
  {| sv_id := id; sv_worker := Idle; sv_runs := 0; sv_drains := []; sv_shutdowns := [] |}.

(** The services in the order of their identifiers. *)
Definition newRuntime (ids : list string) : Runtime :=
  {| r_services := List.map idle_service (merge_sort id_le ids); r_state := runtimeNew;
     r_runCancel := false; r_runErr := None; r_shutdownStarted := false; r_shutdownErr := None;
     r_drainErr := None; r_done := 0; r_drain := 0; r_drainOnce := OnceIdle; r_closeOnce := false |}.

(** ** Field updates *)
Section Updates.
Context (r : Runtime).
Definition set_services l : Runtime :=
  {| r_services := l; r_state := r_state r; r_runCancel := r_runCancel r; r_runErr := r_runErr r;
     r_shutdownStarted := r_shutdownStarted r; r_shutdownErr := r_shutdownErr r; r_drainErr := r_drainErr r;
     r_done := r_done r; r_drain := r_drain r; r_drainOnce := r_drainOnce r; r_closeOnce := r_closeOnce r |}.
Definition set_state s : Runtime :=
  {| r_services := r_services r; r_state := s; r_runCancel := r_runCancel r; r_runErr := r_runErr r;
     r_shutdownStarted := r_shutdownStarted r; r_shutdownErr := r_shutdownErr r; r_drainErr := r_drainErr r;
     r_done := r_done r; r_drain := r_drain r; r_drainOnce := r_drainOnce r; r_closeOnce := r_closeOnce r |}.
Definition set_shutdownErr e : Runtime :=
  {| r_services := r_services r; r_state := r_state r; r_runCancel := r_runCancel r; r_runErr := r_runErr r;
     r_shutdownStarted := r_shutdownStarted r; r_shutdownErr := e; r_drainErr := r_drainErr r;
     r_done := r_done r; r_drain := r_drain r; r_drainOnce := r_drainOnce r; r_closeOnce := r_closeOnce r |}.
Definition set_drainErr e : Runtime :=
  {| r_services := r_services r; r_state := r_state r; r_runCancel := r_runCancel r; r_runErr := r_runErr r;
     r_shutdownStarted := r_shutdownStarted r; r_shutdownErr := r_shutdownErr r; r_drainErr := e;
     r_done := r_done r; r_drain := r_drain r; r_drainOnce := r_drainOnce r; r_closeOnce := r_closeOnce r |}.
Definition set_once o : Runtime :=
  {| r_services := r_services r; r_state := r_state r; r_runCancel := r_runCancel r; r_runErr := r_runErr r;
     r_shutdownStarted := r_shutdownStarted r; r_shutdownErr := r_shutdownErr r; r_drainErr := r_drainErr r;
     r_done := r_done r; r_drain := r_drain r; r_drainOnce := o; r_closeOnce := r_closeOnce r |}.
(** [Run] takes ownership with a fresh context. *)
Definition own_run : Runtime :=
  {| r_services := r_services r; r_state := runtimeRunning; r_runCancel := true; r_runErr := None;
     r_shutdownStarted := r_shutdownStarted r; r_shutdownErr := r_shutdownErr r; r_drainErr := r_drainErr r;
     r_done := r_done r; r_drain := r_drain r; r_drainOnce := r_drainOnce r; r_closeOnce := r_closeOnce r |}.
(** [Shutdown] takes ownership of a runtime that was never started. *)
Definition claim_shutdown : Runtime :=
  {| r_services := r_services r; r_state := runtimeDraining; r_runCancel := r_runCancel r;
     r_runErr := r_runErr r; r_shutdownStarted := true; r_shutdownErr := r_shutdownErr r;
     r_drainErr := r_drainErr r; r_done := r_done r; r_drain := r_drain r; r_drainOnce := r_drainOnce r;
     r_closeOnce := r_closeOnce r |}.
(** The run context ends with [e], unless it has ended before. *)
Definition end_context (e : sentinel) : Runtime :=
  {| r_services := r_services r; r_state := r_state r; r_runCancel := r_runCancel r;
     r_runErr := match r_runErr r with Some e' => Some e' | None => Some e end;
     r_shutdownStarted := r_shutdownStarted r; r_shutdownErr := r_shutdownErr r; r_drainErr := r_drainErr r;
     r_done := r_done r; r_drain := r_drain r; r_drainOnce := r_drainOnce r; r_closeOnce := r_closeOnce r |}.
(** [close(r.drain)], the last action inside [drainOnce]. *)
Definition close_drain : Runtime :=
  {| r_services := r_services r; r_state := r_state r; r_runCancel := r_runCancel r; r_runErr := r_runErr r;
     r_shutdownStarted := r_shutdownStarted r; r_shutdownErr := r_shutdownErr r; r_drainErr := r_drainErr r;
     r_done := r_done r; r_drain := S (r_drain r); r_drainOnce := OnceDone; r_closeOnce := r_closeOnce r |}.
(** [r.closeOnce.Do(func() { close(r.done) })] *)
Definition close_done : Runtime :=
  if r_closeOnce r then r else
  {| r_services := r_services r; r_state := r_state r; r_runCancel := r_runCancel r; r_runErr := r_runErr r;
     r_shutdownStarted := r_shutdownStarted r; r_shutdownErr := r_shutdownErr r; r_drainErr := r_drainErr r;
     r_done := S (r_done r); r_drain := r_drain r; r_drainOnce := r_drainOnce r; r_closeOnce := true |}.
End Updates.

Definition cancel (r : Runtime) : Runtime := end_context r Canceled.

(** ** Calls of a service *)
Definition start_worker (s : service) : service :=
  {| sv_id := sv_id s; sv_worker := Active; sv_runs := S (sv_runs s);
     sv_drains := sv_drains s; sv_shutdowns := sv_shutdowns s |}.
Definition set_worker (w : worker) (s : service) : service :=
  {| sv_id := sv_id s; sv_worker := w; sv_runs := sv_runs s;
     sv_drains := sv_drains s; sv_shutdowns := sv_shutdowns s |}.
Definition add_drain (err : option error) (s : service) : service :=
  {| sv_id := sv_id s; sv_worker := sv_worker s; sv_runs := sv_runs s;
     sv_drains := sv_drains s ++ [err]; sv_shutdowns := sv_shutdowns s |}.
Definition call_Shutdown (s : service) : service :=
  {| sv_id := sv_id s; sv_worker := sv_worker s; sv_runs := sv_runs s;
     sv_drains := sv_drains s; sv_shutdowns := sv_shutdowns s ++ [Pending] |}.
Definition answer_Shutdown (err : option error) (s : service) : service :=
  {| sv_id := sv_id s; sv_worker := sv_worker s; sv_runs := sv_runs s;
     sv_drains := sv_drains s; sv_shutdowns := removelast (sv_shutdowns s) ++ [Answered err] |}.

Definition runManagedService (id : string) (o : outcome) : option error :=
  match o with
  | Returns err => err
  | Panics => Some (EHandlerPanic ("service." ++ id))
  end.

(** The result a worker sends: a goroutine that calls [runtime.Goexit] never
    returns from [runManagedService]. *)
Definition worker_result (id : string) (o : option outcome) : option error :=
  match o with
  | Some o => runManagedService id o
  | None => Some (ENew "messenger: service exited without returning")
  end.

Definition beginDrainService (id : string) (panics : bool) : option error :=
  if panics then Some (EHandlerPanic ("service." ++ id ++ ".begin_drain")) else None.

Definition shutdown_service (id : string) (o : outcome) : option error :=
  match o with
  | Returns None => None
  | Returns (Some e) => Some (EFmt ("messenger: shutdown service " ++ id) [e])
  | Panics => Some (EHandlerPanic ("service." ++ id ++ ".shutdown"))
  end.

Definition check_service (operation id : string) (o : outcome) : option error :=
  match o with
  | Returns None => None
  | Returns (Some e) => Some (EFmt ("messenger: service " ++ id ++ " " ++ operation) [e])
  | Panics => Some (EHandlerPanic ("service." ++ id ++ "." ++ operation))
  end.

(** [checkServices] when the checks end as [os] says. *)
Definition checkServices (operation : string) (svs : list service) (os : list outcome) : option error :=
  errors_join (zip_with (fun s o => check_service operation (sv_id s) o) svs os).

Definition healthStateError (liveness : bool) (r : Runtime) : option error :=
  match r_state r with
  | runtimeRunning => None
  | runtimeDraining => if liveness then None else Some (ESentinel ErrRuntimeNotRunning)
  | runtimeClosed => Some (ESentinel (if liveness then ErrRuntimeClosed else ErrRuntimeNotRunning))
  | runtimeNew => Some (ESentinel ErrRuntimeNotRunning)
  end.

Definition isExpectedContextDone (runContextErr : option sentinel) (err : option error) : bool :=
  match err with
  | None => false
  | Some _ =>
      if errors_is err Canceled then true
      else match runContextErr with
      | Some s => errors_is err s
      | None => false
      end
  end.

(** [result.err != nil && !isExpectedContextDone(runContext, result.err)] *)
Definition unexpected (runContextErr : option sentinel) (err : option error) : bool :=
  bool_decide (is_Some err) && negb (isExpectedContextDone runContextErr err).

(** [fmt.Errorf] with the identifier of a service and a non-nil error. *)
Definition service_error (label : string) (err : option error) : option error :=
  option_map (fun e => EFmt label [e]) err.

Definition nil_context : option error := Some (wrapS ErrInvalidMessage "nil context").

(** What [ctx.Err()] can be. *)
Definition context_error (e : sentinel) : Prop := e = Canceled \/ e = DeadlineExceeded.

(** ** Program counters *)
Inductive dpc : Type :=  (** [beginDrain] *)
| DEntry
| DSet
| DCall (i : nat) (drainErrors : list (option error))
| DStore (drainErrors : list (option error))
| DCancel (drainErr : option error) (runCancel : bool)
| DClose
| DRead
| DReturned (err : option error).

Inductive probe : Set := ReadinessProbe | LivenessProbe | DeepHealthProbe.
Inductive method : Set := MRun | MBeginDrain | MShutdown | MProbe (k : probe).

Inductive pc : Type :=
| RunEntry (ctx : bool)
| RunStart
| RunSelect
| RunReceived (i : nat) (err : option error)
| RunJudge (i : nat) (err : option error) (draining : bool)
| RunStopped (i : nat)
| RunDrain (d : dpc) (runErr : option error) (graceful : bool)
| RunJoin (runErr : option error) (graceful : bool)
| RunCollect (runErr : option error) (graceful : bool)
| RunStop (runErr : option error) (received : list call)
| RunStore (err : option error)
| RunMark (err : option error)
| RunClose (err : option error)
| DrainOnly (d : dpc)
| ShutEntry (ctx : bool)
| ShutAwait
| ShutDrain (d : dpc) (runCancel : bool)
| ShutWait
| ShutStop (drainErr : option error) (received : list call)
| ShutStore (err : option error)
| ShutMark (err : option error)
| ShutClose (err : option error)
| ProbeEntry (ctx : bool) (k : probe)
| ProbeCheck (k : probe)
| ProbeExit (k : probe) (err : option error)
| Returned (m : method) (err : option error).

Definition probe_liveness (k : probe) : bool :=
  match k with LivenessProbe => true | _ => false end.
Definition probe_operation (k : probe) : string :=
  match k with ReadinessProbe => "readiness" | LivenessProbe => "liveness" | DeepHealthProbe => "deep health" end.

(** ** [beginDrain] of goroutine [t] *)
Inductive dstep (t : nat) : dpc -> Runtime -> dpc -> Runtime -> Prop :=
| d_enter r : r_drainOnce r = OnceIdle -> dstep t DEntry r DSet (set_once r (OnceRunning t))
| d_skip r : r_drainOnce r = OnceDone -> dstep t DEntry r DRead r
| d_set r : dstep t DSet r (DCall 0 [])
    (set_state r (if decide (r_state r = runtimeClosed) then runtimeClosed else runtimeDraining))
| d_call r i errs s panics : r_services r !! i = Some s ->
    dstep t (DCall i errs) r (DCall (S i) (errs ++ [beginDrainService (sv_id s) panics]))
      (set_services r (<[i := add_drain (beginDrainService (sv_id s) panics) s]> (r_services r)))
| d_called r i errs : r_services r !! i = None -> dstep t (DCall i errs) r (DStore errs) r
| d_store r errs :
    dstep t (DStore errs) r (DCancel (errors_join errs) (r_runCancel r)) (set_drainErr r (errors_join errs))
| d_cancel r err has : dstep t (DCancel err has) r DClose
    (if bool_decide (is_Some err) && has then cancel r else r)
| d_close r : dstep t DClose r DRead (close_drain r)
| d_read r : dstep t DRead r (DReturned (r_drainErr r)) r.

(** ** [shutdownServices]: the calls of [Shutdown] start together, their results
    arrive in any order until the deadline. *)
Definition launch (r : Runtime) : Runtime := set_services r (List.map call_Shutdown (r_services r)).
Definition nothing_received (r : Runtime) : list call := replicate (List.length (r_services r)) Pending.

Definition call_error (c : call) : option error :=
  match c with Answered err => err | Pending => None end.
Definition answered (c : call) : bool :=
  match c with Answered _ => true | Pending => false end.
Definition shutdown_errors (received : list call) : option error :=
  errors_join (List.map call_error received).

(** [Shutdown] of service [i] has answered. *)
Definition receive (r : Runtime) (i : nat) (s : service) (err : option error) : Runtime :=
  set_services r (<[i := answer_Shutdown err s]> (r_services r)).

(** The loop ends when nothing remains, or with the end of the context. *)
Inductive shutdown_result (ends_with : sentinel -> Prop) (received : list call) : option error -> Prop :=
| sr_all : forallb answered received = true -> shutdown_result ends_with received (shutdown_errors received)
| sr_deadline e : forallb answered received = false -> ends_with e ->
    shutdown_result ends_with received (errors_join [shutdown_errors received;
      Some (EFmt "messenger: service shutdown exceeded deadline" [ESentinel e])]).

Definition worker_stopped (s : service) : bool :=
  match sv_worker s with Exited _ | Collected _ => true | _ => false end.
Definition result_waiting (s : service) : bool :=
  match sv_worker s with Exited _ => true | _ => false end.

(** ** The calls *)
(** [Run] *)
Inductive run_step (t : nat) : pc -> Runtime -> pc -> Runtime -> Prop :=
| run_nil r : run_step t (RunEntry false) r (Returned MRun nil_context) r
| run_running r : r_state r = runtimeRunning \/ r_state r = runtimeDraining ->
    run_step t (RunEntry true) r (Returned MRun (Some (ESentinel ErrRuntimeRunning))) r
| run_closed r : r_state r = runtimeClosed ->
    run_step t (RunEntry true) r (Returned MRun (Some (ESentinel ErrRuntimeClosed))) r
| run_own r : r_state r = runtimeNew -> run_step t (RunEntry true) r RunStart (own_run r)
| run_start r : run_step t RunStart r RunSelect (set_services r (List.map start_worker (r_services r)))
| run_context r e : r_runErr r = Some e -> run_step t RunSelect r (RunDrain DEntry None false) r
| run_drained r : (0 < r_drain r)%nat -> run_step t RunSelect r (RunDrain DEntry None true) r
| run_result r i s err : r_services r !! i = Some s -> sv_worker s = Exited err ->
    run_step t RunSelect r (RunReceived i err) (set_services r (<[i := set_worker (Collected err) s]> (r_services r)))
| run_read r i err :
    run_step t (RunReceived i err) r (RunJudge i err (bool_decide (r_state r = runtimeDraining))) r
| run_judge_draining r i err :
    run_step t (RunJudge i err true) r (RunDrain DEntry
      (if unexpected (r_runErr r) err then service_error "messenger: service during drain" err else None) true) r
| run_judge_failed r i err : unexpected (r_runErr r) err = true ->
    run_step t (RunJudge i err false) r (RunDrain DEntry (service_error "messenger: service" err) false) r
| run_judge_ok r i err : unexpected (r_runErr r) err = false -> run_step t (RunJudge i err false) r (RunStopped i) r
| run_stopped r i : run_step t (RunStopped i) r (RunDrain DEntry
      (if bool_decide (r_runErr r = None) then Some (ENew "messenger: service stopped unexpectedly") else None) false) r
| run_drain r d runErr graceful d' r' : dstep t d r d' r' ->
    run_step t (RunDrain d runErr graceful) r (RunDrain d' runErr graceful) r'
| run_drain_done r drainErr runErr graceful :
    run_step t (RunDrain (DReturned drainErr) runErr graceful) r
      (RunJoin (if bool_decide (is_Some drainErr) then errors_join [runErr; drainErr] else runErr) graceful)
      (if negb graceful || bool_decide (is_Some drainErr) then cancel r else r)
| run_joined r runErr graceful : forallb worker_stopped (r_services r) = true ->
    run_step t (RunJoin runErr graceful) r (RunCollect runErr graceful) r
| run_timeout r runErr graceful :
    run_step t (RunJoin runErr graceful) r
      (RunCollect (errors_join [runErr; Some (EFmt "messenger: services did not stop within shutdown timeout"
                                                [ESentinel DeadlineExceeded])]) graceful) (cancel r)
| run_collect r i s err runErr graceful : r_services r !! i = Some s -> sv_worker s = Exited err ->
    run_step t (RunCollect runErr graceful) r
      (RunCollect (if unexpected (r_runErr r) err
                   then errors_join [runErr; service_error
                          (if graceful then "messenger: service during drain" else "messenger: service") err]
                   else runErr) graceful)
      (set_services r (<[i := set_worker (Collected err) s]> (r_services r)))
| run_collected r runErr graceful : existsb result_waiting (r_services r) = false ->
    run_step t (RunCollect runErr graceful) r (RunStop runErr (nothing_received r)) (launch r)
| run_stop_receive r runErr received i s o : received !! i = Some Pending -> r_services r !! i = Some s ->
    run_step t (RunStop runErr received) r
      (RunStop runErr (<[i := Answered (shutdown_service (sv_id s) o)]> received))
      (receive r i s (shutdown_service (sv_id s) o))
| run_stop_done r runErr received err : shutdown_result (eq DeadlineExceeded) received err ->
    run_step t (RunStop runErr received) r (RunStore (errors_join [runErr; err])) (cancel r)
| run_store r err : run_step t (RunStore err) r (RunMark err) (set_shutdownErr r err)
| run_mark r err : run_step t (RunMark err) r (RunClose err) (set_state r runtimeClosed)
| run_close r err : run_step t (RunClose err) r (Returned MRun err) (close_done r).

(** [BeginDrain] *)
Inductive drain_step (t : nat) : pc -> Runtime -> pc -> Runtime -> Prop :=
| drain_go r d d' r' : dstep t d r d' r' -> drain_step t (DrainOnly d) r (DrainOnly d') r'
| drain_done r err : drain_step t (DrainOnly (DReturned err)) r (Returned MBeginDrain None) r.

(** [Shutdown] *)
Inductive shut_step (t : nat) : pc -> Runtime -> pc -> Runtime -> Prop :=
| shut_nil r : shut_step t (ShutEntry false) r (Returned MShutdown nil_context) r
| shut_closed r : r_state r = runtimeClosed ->
    shut_step t (ShutEntry true) r (Returned MShutdown (r_shutdownErr r)) r
| shut_running r : r_state r <> runtimeClosed -> r_runCancel r = true ->
    shut_step t (ShutEntry true) r (ShutDrain DEntry true) r
| shut_owned r : r_state r <> runtimeClosed -> r_runCancel r = false -> r_shutdownStarted r = true ->
    shut_step t (ShutEntry true) r ShutAwait r
| shut_claim r : r_state r <> runtimeClosed -> r_runCancel r = false -> r_shutdownStarted r = false ->
    shut_step t (ShutEntry true) r (ShutDrain DEntry false) (claim_shutdown r)
| shut_await_done r : (0 < r_done r)%nat -> shut_step t ShutAwait r (Returned MShutdown (r_shutdownErr r)) r
| shut_await_context r e : context_error e -> shut_step t ShutAwait r (Returned MShutdown (Some (ESentinel e))) r
| shut_drain r d has d' r' : dstep t d r d' r' -> shut_step t (ShutDrain d has) r (ShutDrain d' has) r'
| shut_drain_wait r err : shut_step t (ShutDrain (DReturned err) true) r ShutWait r
| shut_drain_own r err :
    shut_step t (ShutDrain (DReturned err) false) r (ShutStop err (nothing_received r)) (launch r)
| shut_wait_done r : (0 < r_done r)%nat -> shut_step t ShutWait r (Returned MShutdown (r_shutdownErr r)) r
| shut_wait_context r e : context_error e ->
    shut_step t ShutWait r (Returned MShutdown (Some (ESentinel e))) (cancel r)
| shut_stop_receive r drainErr received i s o : received !! i = Some Pending -> r_services r !! i = Some s ->
    shut_step t (ShutStop drainErr received) r
      (ShutStop drainErr (<[i := Answered (shutdown_service (sv_id s) o)]> received))
      (receive r i s (shutdown_service (sv_id s) o))
| shut_stop_done r drainErr received err : shutdown_result context_error received err ->
    shut_step t (ShutStop drainErr received) r (ShutStore (errors_join [drainErr; err])) r
| shut_store r err : shut_step t (ShutStore err) r (ShutMark err) (set_shutdownErr r err)
| shut_mark r err : shut_step t (ShutMark err) r (ShutClose err) (set_state r runtimeClosed)
| shut_close r err : shut_step t (ShutClose err) r (Returned MShutdown err) (close_done r).

(** [Readiness], [Liveness] and [DeepHealth] *)
Inductive probe_step (t : nat) : pc -> Runtime -> pc -> Runtime -> Prop :=
| probe_nil r k : probe_step t (ProbeEntry false k) r (Returned (MProbe k) nil_context) r
| probe_refused r k e : healthStateError (probe_liveness k) r = Some e ->
    probe_step t (ProbeEntry true k) r (Returned (MProbe k) (Some e)) r
| probe_start r k : healthStateError (probe_liveness k) r = None -> probe_step t (ProbeEntry true k) r (ProbeCheck k) r
| probe_checked r k os : List.length os = List.length (r_services r) ->
    probe_step t (ProbeCheck k) r (ProbeExit k (checkServices (probe_operation k) (r_services r) os)) r
| probe_exit r k err :
    probe_step t (ProbeExit k err) r
      (Returned (MProbe k) (errors_join [err; healthStateError (probe_liveness k) r])) r.

(** One step of a call. *)
Inductive tstep (t : nat) (p : pc) (r : Runtime) (p' : pc) (r' : Runtime) : Prop :=
| t_run : run_step t p r p' r' -> tstep t p r p' r'
| t_drain : drain_step t p r p' r' -> tstep t p r p' r'
| t_shut : shut_step t p r p' r' -> tstep t p r p' r'
| t_probe : probe_step t p r p' r' -> tstep t p r p' r'.

(** Case analysis on the rule of a step. *)
Ltac step_cases H := destruct H as [H|H|H|H]; destruct H.

(** ** Configurations *)
Abbreviation threads := (gmap nat pc).
Definition is_entry (p : pc) : bool :=
  match p with
  | RunEntry _ | DrainOnly DEntry | ShutEntry _ | ProbeEntry _ _ => true
  | _ => false
  end.

Inductive step : Runtime * threads -> Runtime * threads -> Prop :=
| s_call r T t p : T !! t = None -> is_entry p = true -> step (r, T) (r, <[t := p]> T)
| s_thread r T t p p' r' : T !! t = Some p -> tstep t p r p' r' -> step (r, T) (r', <[t := p']> T)
| s_exit r T i s o : r_services r !! i = Some s -> sv_worker s = Active ->
    step (r, T) (set_services r (<[i := set_worker (Exited (worker_result (sv_id s) o)) s]> (r_services r)), T)
| s_context r T e : context_error e -> r_runCancel r = true -> step (r, T) (end_context r e, T).

Definition reachable (ids : list string) : Runtime * threads -> Prop := rtc step (newRuntime ids, ∅).
End Runtime.
