(* ===== verification/LocalAsync.v ===== *)
(** * The asynchronous local route

    Models [LocalAsyncRoute] of [local.go]: admission of messages and queries to a
    bounded queue, [Run], [BeginDrain], [Shutdown], [Readiness] and the goroutine
    that drains the queue.  Any number of calls run beside each other; a step is one
    critical section of [runMu], one channel operation, one call of the queue or one
    entry or exit of [drainOnce].

    The queue is third-party code ([gobusasync.Runtime]): it may answer every call
    in any way, and the calls are written to a log.  The clock and the ends of the
    callers' contexts are answers too.  The drain's context has no parent that ends,
    so it ends only by its stop function.  Proved: the queue is started and shut
    down at most once, admission needs a start and ends with the drain, what a nil
    result means, and that no call waits for a goroutine that cannot go on. *)
From S2P Require Import Prelude GoStrings Errors Ident Envelope Middleware Delivery Route Runtime.
Import Stdlib.Strings.String.
Import Envelope Route.
Open Scope string_scope.
Open Scope Z_scope.

Module LocalAsync.
Abbreviation once := Runtime.once.
Abbreviation OnceIdle := Runtime.OnceIdle.
Abbreviation OnceRunning := Runtime.OnceRunning.
Abbreviation OnceDone := Runtime.OnceDone.

(** ** State *)
(** The calls of the queue with their answers, and the end of the drain. *)
Inductive aevent : Type :=
| EvStart (err : option error)
| EvSubmit (t : nat) (m : Metadata) (err : option error)
| EvSubmitResult (t : nat) (err : option error)
| EvShutdown
| EvStopped (err : option error)
| EvClosed.

(** The goroutine of [beginDrain]. *)
Inductive drainer : Type := NotSpawned | Spawned | InShutdown | Recording (err : option error) | Closing | Ended.

Record LocalAsyncRoute := {
  la_name : string;
  la_running : bool;
  la_draining : bool;
  la_closed : bool;
  la_everStarted : bool;
  la_drainOnce : once;
  la_drainDone : nat;            (** how often the channel was closed *)
  la_drainStop : bool;           (** [drainStop != nil] *)
  la_drainCanceled : bool;       (** [drainContext] has ended *)
  la_drainErr : option error;
  la_drainer : drainer;
  la_log : list aevent }.

(** The capacity and the number of workers are checked by the queue. *)
Record LocalAsyncConfig := { ac_Capacity : Z; ac_Workers : Z; ac_DetachExecution : bool }.
Definition route0 (name : string) : LocalAsyncRoute :=
  {| la_name := name; la_running := false; la_draining := false; la_closed := false; la_everStarted := false; la_drainOnce := OnceIdle;
     la_drainDone := 0; la_drainStop := false; la_drainCanceled := false; la_drainErr := None; la_drainer := NotSpawned; la_log := [] |}.
Definition NewLocalAsyncRoute (gobusasync_New : Z -> Z -> option error) (name : string) (config : LocalAsyncConfig)
  : result error LocalAsyncRoute :=
  if negb (validStableID name) then Err (wrapS ErrRouteNotFound "invalid async route name")
  else match gobusasync_New (ac_Capacity config) (ac_Workers config) with
  | Some err => Err (EFmt "messenger: create local async route" [err])
  | None => Ok (route0 name)
  end.

(** ** Field updates *)
Section Updates.
Context (r : LocalAsyncRoute).
Definition upd (running draining closed everStarted : bool) (log : list aevent) : LocalAsyncRoute :=
  {| la_name := la_name r; la_running := running; la_draining := draining; la_closed := closed; la_everStarted := everStarted;
     la_drainOnce := la_drainOnce r; la_drainDone := la_drainDone r; la_drainStop := la_drainStop r; la_drainCanceled := la_drainCanceled r;
     la_drainErr := la_drainErr r; la_drainer := la_drainer r; la_log := (la_log r ++ log)%list |}.
Definition log (e : aevent) : LocalAsyncRoute := upd (la_running r) (la_draining r) (la_closed r) (la_everStarted r) [e].
Definition set_started : LocalAsyncRoute := upd (la_running r) (la_draining r) (la_closed r) true [].
Definition set_closed : LocalAsyncRoute := upd (la_running r) (la_draining r) true (la_everStarted r) [].
Definition start : LocalAsyncRoute := upd true (la_draining r) (la_closed r) true [EvStart None].
Definition drained (o : once) (d : drainer) (draining stop canceled : bool) : LocalAsyncRoute :=
  {| la_name := la_name r; la_running := la_running r; la_draining := draining; la_closed := la_closed r; la_everStarted := la_everStarted r;
     la_drainOnce := o; la_drainDone := la_drainDone r; la_drainStop := stop; la_drainCanceled := canceled;
     la_drainErr := la_drainErr r; la_drainer := d; la_log := la_log r |}.
Definition enter_once (t : nat) : LocalAsyncRoute :=
  drained (OnceRunning t) (la_drainer r) (la_draining r) (la_drainStop r) (la_drainCanceled r).
Definition set_draining : LocalAsyncRoute := drained (la_drainOnce r) (la_drainer r) true true (la_drainCanceled r).
Definition spawn : LocalAsyncRoute := drained OnceDone Spawned (la_draining r) (la_drainStop r) (la_drainCanceled r).
Definition set_drainer (d : drainer) : LocalAsyncRoute :=
  drained (la_drainOnce r) d (la_draining r) (la_drainStop r) (la_drainCanceled r).
Definition stop_drain (stop : bool) : LocalAsyncRoute :=
  drained (la_drainOnce r) (la_drainer r) (la_draining r) (la_drainStop r) (stop || la_drainCanceled r).
(** The critical section after [runtime.Shutdown]. *)
Definition record_drain (err : option error) : LocalAsyncRoute :=
  {| la_name := la_name r; la_running := false; la_draining := la_draining r; la_closed := la_everStarted r || la_closed r;
     la_everStarted := la_everStarted r; la_drainOnce := la_drainOnce r; la_drainDone := la_drainDone r; la_drainStop := la_drainStop r;
     la_drainCanceled := la_drainCanceled r; la_drainErr := err; la_drainer := Closing; la_log := la_log r |}.
Definition close_drainDone : LocalAsyncRoute :=
  {| la_name := la_name r; la_running := la_running r; la_draining := la_draining r; la_closed := la_closed r;
     la_everStarted := la_everStarted r; la_drainOnce := la_drainOnce r; la_drainDone := S (la_drainDone r); la_drainStop := la_drainStop r;
     la_drainCanceled := la_drainCanceled r; la_drainErr := la_drainErr r; la_drainer := Ended; la_log := (la_log r ++ [EvClosed])%list |}.
End Updates.

(** ** Answers and program counters *)
Section Route.
Context `{!GoTypes}.

(** The end of a context: by its deadline or by cancellation. *)
Definition ctx_err (deadline : bool) : error := ESentinel (if deadline then DeadlineExceeded else Canceled).

Inductive answer : Type :=
| ANone
| AErr (err : option error)                 (** the answer of the queue *)
| ACtx (deadline : bool)                    (** the caller's context has ended *)
| ANow (now : Time)
| AState (running : bool)                   (** [Stats().State == StateRunning] *)
| AEnvelope (ctxErr : option bool) (envelope : option (localQueryResult * option error)).

Inductive dpc : Set := DEntry | DSet | DSpawn | DReturned.

Inductive reply : Type :=
| ReplyRun (err : option error)
| ReplyDrain
| ReplyShutdown (err : option error)
| ReplyReadiness (err : option error)
| ReplyDeliver (receipt : Receipt) (err : option error)
| ReplyQuery (result : localQueryResult) (err : option error).

Inductive pc : Type :=
| RunEntry (ctx : bool)
| RunAwait
| RunFinish
| RunSelect
| RunDrain (d : dpc) (deadline : bool)
| RunForce (deadline : bool)
| RunStop (deadline stop : bool)
| RunWait (deadline : bool)
| DrainOnly (d : dpc)
| ShutEntry (ctx : bool)
| ShutDrain (d : dpc)
| ShutSelect
| ShutRead
| ShutForce (deadline : bool)
| ShutStop (deadline stop : bool)
| ReadinessEntry
| DeliverEntry (ctx : bool) (delivery : option Metadata)
| DeliverCheck (m : Metadata)
| DeliverSubmit (m : Metadata)
| DeliverReceipt (m : Metadata)
| QueryEntry (ok : bool)                    (** the context and the call are not nil *)
| QuerySubmit
| QueryWait
| Returned (x : reply).

Definition nil_context : option error := Some (wrapS ErrInvalidMessage "nil context").
Definition err_of (s : sentinel) : option error := Some (ESentinel s).

(** [running && !draining && !closed] *)
Definition admits (r : LocalAsyncRoute) : bool := la_running r && negb (la_draining r) && negb (la_closed r).

(** ** [beginDrain] *)
Definition drain_step (t : nat) (d : dpc) (r : LocalAsyncRoute) : option (dpc * LocalAsyncRoute) :=
  match d with
  | DEntry =>
      match la_drainOnce r with
      | Runtime.OnceIdle => Some (DSet, enter_once r t)
      | Runtime.OnceDone => Some (DReturned, r)
      | Runtime.OnceRunning _ => None
      end
  | DSet => Some (DSpawn, set_draining r)
  | DSpawn => Some (DReturned, spawn r)
  | DReturned => None
  end.
(** The goroutine it spawns. *)
Definition drainer_step (r : LocalAsyncRoute) (a : answer) : option LocalAsyncRoute :=
  match la_drainer r, a with
  | Spawned, ANone => Some (log (set_drainer r InShutdown) EvShutdown)
  | InShutdown, AErr err => Some (log (set_drainer r (Recording err)) (EvStopped err))
  | Recording err, ANone => Some (record_drain r err)
  | Closing, ANone => Some (close_drainDone r)
  | _, _ => None
  end.

(** ** Queries *)
Definition normalizeAsyncQueryError (err : error) : error :=
  if errors_is (Some err) (ErrForeign "gobusasync.ErrRuntimeNotStarted") then ESentinel ErrRuntimeNotRunning
  else if errors_is (Some err) (ErrForeign "gobusasync.ErrRuntimeClosed") || errors_is (Some err) (ErrForeign "gobusasync.ErrRuntimeShutdown")
  then ESentinel ErrRuntimeClosed
  else err.
(** The second branch of the select. *)
Definition query_reply (ctxErr : option bool) (envelope : option (localQueryResult * option error)) : reply :=
  match ctxErr, envelope with
  | Some deadline, _ => ReplyQuery localQueryResult0 (Some (ctx_err deadline))
  | None, None => ReplyQuery localQueryResult0 (err_of ErrQueryResultMissing)
  | None, Some (result, None) => ReplyQuery result None
  | None, Some (_, Some err) =>
      match unwrapLocalQueryInvocationError (Some err) with
      | (true, handlerErr) => ReplyQuery localQueryResult0 handlerErr
      | (false, _) => ReplyQuery localQueryResult0 (Some (normalizeAsyncQueryError err))
      end
  end.

Definition receipt_of (r : LocalAsyncRoute) (m : Metadata) (now : Time) : Receipt :=
  {| rc_MessageID := md_ID m; rc_Route := la_name r; rc_State := ReceiptAccepted; rc_At := UTC now |}.

(** ** One step of a call *)
(** [<-r.drainDone] *)
Definition when_done (p : pc) (r : LocalAsyncRoute) : option (pc * LocalAsyncRoute) :=
  match la_drainDone r with O => None | S _ => Some (p, r) end.
Definition draining_step (t : nat) (k : dpc -> pc) (next : pc) (d : dpc) (r : LocalAsyncRoute) : option (pc * LocalAsyncRoute) :=
  match d with
  | DReturned => Some (next, r)
  | _ => match drain_step t d r with Some (d', r') => Some (k d', r') | None => None end
  end.

Definition run_entry (r : LocalAsyncRoute) (a : answer) : option (pc * LocalAsyncRoute) :=
  if la_running r then Some (Returned (ReplyRun (err_of ErrRuntimeRunning)), r)
  else if la_draining r && negb (la_everStarted r) then Some (RunAwait, set_started r)
  else if la_closed r then Some (Returned (ReplyRun (err_of ErrRuntimeClosed)), r)
  else match a with
  | AErr (Some err) => Some (Returned (ReplyRun (Some (EFmt "messenger: start local async route" [err]))), log r (EvStart (Some err)))
  | AErr None => Some (RunSelect, start r)
  | _ => None
  end.
Definition readiness (r : LocalAsyncRoute) (a : answer) : option (option error) :=
  if la_closed r then Some (err_of ErrRuntimeClosed)
  else if negb (la_running r) || la_draining r then Some (err_of ErrRuntimeNotRunning)
  else match a with
  | AState true => Some None
  | AState false => Some (Some (wrapS ErrRuntimeNotRunning "local async state"))
  | _ => None
  end.

Definition call_step (t : nat) (p : pc) (r : LocalAsyncRoute) (a : answer) : option (pc * LocalAsyncRoute) :=
  match p, a with
  | RunEntry false, _ => Some (Returned (ReplyRun nil_context), r)
  | RunEntry true, _ => run_entry r a
  | RunAwait, _ => when_done RunFinish r
  | RunFinish, _ => Some (Returned (ReplyRun (la_drainErr r)), set_closed r)
  | RunSelect, ACtx deadline => Some (RunDrain DEntry deadline, r)
  | RunSelect, ANone => when_done (Returned (ReplyRun (la_drainErr r))) r
  | RunDrain d deadline, _ => draining_step t (fun d => RunDrain d deadline) (RunForce deadline) d r
  | RunForce deadline, _ => Some (RunStop deadline (la_drainStop r), r)
  | RunStop deadline stop, _ => Some (RunWait deadline, stop_drain r stop)
  | RunWait deadline, _ => when_done (Returned (ReplyRun (Some (ctx_err deadline)))) r
  | DrainOnly d, _ => draining_step t DrainOnly (Returned ReplyDrain) d r
  | ShutEntry false, _ => Some (Returned (ReplyShutdown nil_context), r)
  | ShutEntry true, _ => Some (ShutDrain DEntry, r)
  | ShutDrain d, _ => draining_step t ShutDrain ShutSelect d r
  | ShutSelect, ACtx deadline => Some (ShutForce deadline, r)
  | ShutSelect, ANone => when_done ShutRead r
  | ShutRead, _ => Some (Returned (ReplyShutdown (la_drainErr r)), set_closed r)
  | ShutForce deadline, _ => Some (ShutStop deadline (la_drainStop r), r)
  | ShutStop deadline stop, _ => Some (Returned (ReplyShutdown (Some (ctx_err deadline))), stop_drain r stop)
  | ReadinessEntry, _ => match readiness r a with Some err => Some (Returned (ReplyReadiness err), r) | None => None end
  | DeliverEntry true (Some m), _ =>
      Some (if admits r then DeliverCheck m else Returned (ReplyDeliver Receipt0 (err_of ErrRuntimeNotRunning)), r)
  | DeliverEntry _ _, _ => Some (Returned (ReplyDeliver Receipt0 (Some (wrapS ErrInvalidMessage "local async delivery"))), r)
  | DeliverCheck m, ANow now =>
      Some (match validateImmediateTiming m now with Some err => Returned (ReplyDeliver Receipt0 (Some err)) | None => DeliverSubmit m end, r)
  | DeliverSubmit m, AErr (Some err) =>
      Some (Returned (ReplyDeliver Receipt0 (Some (EFmt "messenger: async admission" [err]))), log r (EvSubmit t m (Some err)))
  | DeliverSubmit m, AErr None => Some (DeliverReceipt m, log r (EvSubmit t m None))
  | DeliverReceipt m, ANow now => Some (Returned (ReplyDeliver (receipt_of r m now) None), r)
  | QueryEntry false, _ => Some (Returned (ReplyQuery localQueryResult0 (Some (wrapS ErrInvalidMessage "local async query"))), r)
  | QueryEntry true, _ =>
      Some (if la_closed r then Returned (ReplyQuery localQueryResult0 (err_of ErrRuntimeClosed))
            else if admits r then QuerySubmit
            else Returned (ReplyQuery localQueryResult0 (err_of ErrRuntimeNotRunning)), r)
  | QuerySubmit, AErr (Some err) =>
      Some (Returned (ReplyQuery localQueryResult0 (Some (normalizeAsyncQueryError err))), log r (EvSubmitResult t (Some err)))
  | QuerySubmit, AErr None => Some (QueryWait, log r (EvSubmitResult t None))
  | QueryWait, ACtx deadline => Some (Returned (ReplyQuery localQueryResult0 (Some (ctx_err deadline))), r)
  | QueryWait, AEnvelope ctxErr envelope => Some (Returned (query_reply ctxErr envelope), r)
  | _, _ => None
  end.

(** ** Configurations *)
Abbreviation calls := (gmap nat pc).
Definition is_entry (p : pc) : bool :=
  match p with
  | RunEntry _ | DrainOnly DEntry | ShutEntry _ | ReadinessEntry | DeliverEntry _ _ | QueryEntry _ => true
  | _ => false
  end.
Inductive step : LocalAsyncRoute * calls -> LocalAsyncRoute * calls -> Prop :=
| s_call r T t p : T !! t = None -> is_entry p = true -> step (r, T) (r, <[t := p]> T)
| s_step r T t p a p' r' : T !! t = Some p -> call_step t p r a = Some (p', r') -> step (r, T) (r', <[t := p']> T)
| s_drain r T a r' : drainer_step r a = Some r' -> step (r, T) (r', T).
Definition reachable (name : string) : LocalAsyncRoute * calls -> Prop := rtc step (route0 name, ∅).

(** ** The log *)
Definition is_start (e : aevent) : bool := match e with EvStart None => true | _ => false end.
Definition starts (l : list aevent) : nat := List.length (List.filter is_start l).
Definition submitter (e : aevent) : option nat := match e with EvSubmit t _ _ | EvSubmitResult t _ => Some t | _ => None end.
Definition submitters (l : list aevent) : list nat := omap submitter l.
Definition of_drain (e : aevent) : bool := match e with EvShutdown | EvStopped _ | EvClosed => true | _ => false end.
Definition drain_events (l : list aevent) : list aevent := List.filter of_drain l.
(** A submission comes after a start that succeeded. *)
Fixpoint submits_follow (started : bool) (l : list aevent) : bool :=
  match l with
  | [] => true
  | e :: l => match submitter e with Some _ => started && submits_follow started l | None => submits_follow (started || is_start e) l end
  end.

Lemma starts_app l k : starts (l ++ k) = (starts l + starts k)%nat.
Proof. unfold starts. by rewrite List.filter_app, length_app. Qed.
Lemma submitters_app l k : submitters (l ++ k) = (submitters l ++ submitters k)%list.
Proof. apply omap_app. Qed.
Lemma starts_snoc l e : starts (l ++ [e]) = (starts l + if is_start e then 1 else 0)%nat.
Proof. rewrite starts_app. unfold starts at 2. cbn. by destruct (is_start e). Qed.
Lemma drain_events_snoc l e : drain_events (l ++ [e]) = (drain_events l ++ if of_drain e then [e] else [])%list.
Proof. unfold drain_events. rewrite List.filter_app. cbn. by destruct (of_drain e). Qed.
Lemma submitters_snoc l e : submitters (l ++ [e]) = (submitters l ++ match submitter e with Some t => [t] | None => [] end)%list.
Proof. rewrite submitters_app. unfold submitters at 2. cbn. by destruct (submitter e). Qed.
#[local] Arguments starts : simpl never.
#[local] Arguments drain_events : simpl never.
#[local] Arguments submitters : simpl never.
Lemma submits_follow_snoc l e : forall b, submits_follow b (l ++ [e]) =
  submits_follow b l && (match submitter e with Some _ => b || (0 <? starts l)%nat | None => true end).
Proof.
  induction l as [|x l IH]; intros b; cbn [app submits_follow].
  - destruct (submitter e); [|done]. by destruct b.
  - assert (starts (x :: l) = ((if is_start x then 1 else 0) + starts l)%nat) as -> by (unfold starts; cbn; by destruct (is_start x)).
    destruct (submitter x) eqn:E; rewrite IH.
    + destruct x; try discriminate E; cbn; by rewrite andb_assoc.
    + f_equal. destruct (submitter e); [|done]. destruct (is_start x); cbn; by rewrite ?orb_true_r, ?orb_false_r.
Qed.

(** ** The invariant of the shared state *)
Definition once_ok (r : LocalAsyncRoute) : Prop :=
  match la_drainOnce r with
  | Runtime.OnceIdle => la_draining r = false /\ la_drainStop r = false /\ la_drainer r = NotSpawned
  | Runtime.OnceRunning _ => la_drainStop r = la_draining r /\ la_drainer r = NotSpawned
  | Runtime.OnceDone => la_draining r = true /\ la_drainStop r = true /\ la_drainer r <> NotSpawned
  end.
Definition drainer_ok (r : LocalAsyncRoute) : Prop :=
  la_drainDone r = (match la_drainer r with Ended => 1%nat | _ => 0%nat end) /\
  match la_drainer r with
  | NotSpawned | Spawned => drain_events (la_log r) = []
  | InShutdown => drain_events (la_log r) = [EvShutdown]
  | Recording err => drain_events (la_log r) = [EvShutdown; EvStopped err]
  | Closing => drain_events (la_log r) = [EvShutdown; EvStopped (la_drainErr r)]
  | Ended => drain_events (la_log r) = [EvShutdown; EvStopped (la_drainErr r); EvClosed]
  end.
Definition starts_ok (r : LocalAsyncRoute) : Prop :=
  (starts (la_log r) <= 1)%nat /\ (la_running r = true -> starts (la_log r) = 1%nat) /\
  (starts (la_log r) = 1%nat -> la_everStarted r = true) /\ (starts (la_log r) = 1%nat -> la_running r = false -> la_closed r = true).
Record route_inv (r : LocalAsyncRoute) : Prop := {
  ri_once : once_ok r;
  ri_drainer : drainer_ok r;
  ri_starts : starts_ok r;
  ri_closed : la_closed r = true -> la_draining r = true;
  ri_follow : submits_follow false (la_log r) = true;
  ri_submitters : NoDup (submitters (la_log r)) }.

(** ** What a call knows *)
Definition passed (r : LocalAsyncRoute) : Prop := la_drainOnce r = OnceDone.
Definition finished (r : LocalAsyncRoute) : Prop := la_drainer r = Ended.
Definition started (r : LocalAsyncRoute) : Prop := starts (la_log r) = 1%nat.
Definition dpc_ok (t : nat) (d : dpc) (r : LocalAsyncRoute) : Prop :=
  match d with
  | DEntry => True
  | DSet => la_drainOnce r = OnceRunning t /\ la_draining r = false
  | DSpawn => la_drainOnce r = OnceRunning t /\ la_draining r = true
  | DReturned => passed r
  end.

(** What an answer means. *)
Definition reply_ok (t : nat) (x : reply) (r : LocalAsyncRoute) : Prop :=
  match x with
  | ReplyRun err =>
      err = nil_context \/ err = err_of ErrRuntimeRunning \/ (err = err_of ErrRuntimeClosed /\ la_closed r = true) \/
      (exists e, err = Some (EFmt "messenger: start local async route" [e]) /\ EvStart (Some e) ∈ la_log r) \/
      (finished r /\ err = la_drainErr r) \/ (finished r /\ la_drainCanceled r = true /\ exists b, err = Some (ctx_err b))
  | ReplyDrain => passed r
  | ReplyShutdown err =>
      err = nil_context \/ (finished r /\ la_closed r = true /\ err = la_drainErr r) \/
      (passed r /\ la_drainCanceled r = true /\ exists b, err = Some (ctx_err b))
  | ReplyReadiness err => err = None -> started r
  | ReplyDeliver rc None => exists m, EvSubmit t m None ∈ la_log r /\ rc_MessageID rc = md_ID m /\ rc_Route rc = la_name r /\ rc_State rc = ReceiptAccepted
  | ReplyDeliver rc (Some _) => rc = Receipt0 /\ forall m, EvSubmit t m None ∉ la_log r
  | ReplyQuery res None => EvSubmitResult t None ∈ la_log r
  | ReplyQuery res (Some _) => res = localQueryResult0
  end.
Definition unsubmitted (t : nat) (r : LocalAsyncRoute) : Prop := t ∉ submitters (la_log r).
Definition pc_ok (t : nat) (p : pc) (r : LocalAsyncRoute) : Prop :=
  match p with
  | RunEntry _ | ShutEntry _ | ReadinessEntry => True
  | RunAwait => la_draining r = true
  | RunFinish => finished r
  | RunSelect => started r
  | RunDrain d _ => dpc_ok t d r
  | RunForce _ => passed r
  | RunStop _ stop => passed r /\ stop = true
  | RunWait _ => passed r /\ la_drainCanceled r = true
  | DrainOnly d | ShutDrain d => dpc_ok t d r
  | ShutSelect | ShutForce _ => passed r
  | ShutRead => finished r
  | ShutStop _ stop => passed r /\ stop = true
  | DeliverEntry _ _ | QueryEntry _ => unsubmitted t r
  | DeliverCheck _ | DeliverSubmit _ | QuerySubmit => unsubmitted t r /\ started r
  | DeliverReceipt m => EvSubmit t m None ∈ la_log r
  | QueryWait => EvSubmitResult t None ∈ la_log r
  | Returned x => reply_ok t x r
  end.

(** ** The effect of a step on the other calls *)
Definition rely (t : nat) (r r' : LocalAsyncRoute) : Prop :=
  la_name r' = la_name r /\ (exists l, la_log r' = (la_log r ++ l)%list /\ t ∉ submitters l) /\
  (la_draining r = true -> la_draining r' = true) /\ (la_closed r = true -> la_closed r' = true) /\
  (la_drainCanceled r = true -> la_drainCanceled r' = true) /\ (passed r -> passed r') /\
  (finished r -> finished r' /\ la_drainErr r' = la_drainErr r) /\
  (la_drainOnce r = OnceRunning t -> la_drainOnce r' = OnceRunning t /\ la_draining r' = la_draining r).

Lemma rely_refl t r : rely t r r.
Proof. split_and!; auto. exists []. by rewrite app_nil_r; split; [|apply not_elem_of_nil]. Qed.

Lemma started_mono r r' l : la_log r' = (la_log r ++ l)%list -> starts_ok r' -> started r -> started r'.
Proof. unfold started. intros E (Hle & _) Hs. rewrite E, starts_app in *. lia. Qed.

Lemma dpc_stable t d r r' : rely t r r' -> dpc_ok t d r -> dpc_ok t d r'.
Proof.
  intros (_ & _ & Hd & _ & _ & Hp & _ & Ho). destruct d; cbn; auto.
  all: intros [H1 H2]; destruct (Ho H1) as [-> ->]; by split.
Qed.
Lemma submitter_in e l t : e ∈ l -> submitter e = Some t -> t ∈ submitters l.
Proof. intros He Ht. apply list_elem_of_omap. by exists e. Qed.
Lemma reply_stable t x r r' : starts_ok r' -> rely t r r' -> reply_ok t x r -> reply_ok t x r'.
Proof.
  intros Hs (Hn & (l & Hl & Hnot) & Hd & Hc & Hca & Hp & Hf & Ho). pose proof (started_mono r r' l Hl Hs) as Hst.
  assert (forall e, e ∈ la_log r -> e ∈ la_log r') as Hin by (intros e He; rewrite Hl; apply elem_of_app; by left).
  destruct x as [err| |err|err|rc [err|]|res [err|]]; cbn; auto; rewrite ?Hn.
  - intros [?|[?|[[? ?]|[(e & ? & ?)|[[Hx ?]|(Hx & ? & ?)]]]]];
      [tauto|tauto|tauto|right; right; right; left; eauto|destruct (Hf Hx) as [? ->]; tauto|destruct (Hf Hx); tauto].
  - intros [?|[(Hx & ? & ?)|(Hx & ? & ?)]]; [tauto|destruct (Hf Hx) as [? ->]; tauto|tauto].
  - intros [-> Hr]. split; [done|]. intros m. rewrite Hl, elem_of_app. intros [Hm|Hm]; [by eapply Hr|]. by eapply Hnot, submitter_in.
  - intros (m & ? & ?). exists m. auto.
Qed.
Lemma stable t p r r' : starts_ok r' -> rely t r r' -> pc_ok t p r -> pc_ok t p r'.
Proof.
  intros Hs Hr. pose proof Hr as (Hn & (l & Hl & Hnot) & Hd & Hc & Hca & Hp & Hf & Ho). pose proof (started_mono r r' l Hl Hs) as Hst.
  assert (unsubmitted t r -> unsubmitted t r') as Hfr by (unfold unsubmitted; rewrite Hl, submitters_app, elem_of_app; tauto).
  destruct p; cbn; auto; try (by apply dpc_stable); try tauto.
  all: try (rewrite Hl, elem_of_app; tauto). by apply reply_stable.
Qed.

(** ** The updates keep the invariant *)
Lemma inv_log r e : route_inv r -> of_drain e = false -> is_start e = false ->
  (forall t, submitter e = Some t -> unsubmitted t r /\ started r) -> route_inv (log r e).
Proof.
  intros [Ho [Hd1 Hd2] (H1 & H2 & H3 & H4) Hc Hf Hn] Hd Hs Ht.
  assert (starts (la_log r ++ [e]) = starts (la_log r)) as Es by (rewrite starts_snoc, Hs; lia).
  assert (drain_events (la_log r ++ [e]) = drain_events (la_log r)) as Ed by (by rewrite drain_events_snoc, Hd, app_nil_r).
  split; unfold once_ok, drainer_ok, starts_ok; cbn; rewrite ?Es, ?Ed; auto.
  - rewrite submits_follow_snoc, Hf. destruct (submitter e) as [t|]; [|done]. destruct (Ht t eq_refl) as [_ Hst]. unfold started in Hst. by rewrite Hst.
  - rewrite submitters_snoc. destruct (submitter e) as [t|]; [|by rewrite app_nil_r].
    destruct (Ht t eq_refl) as [Hfr _]. apply NoDup_app. split_and!; [done| |apply NoDup_singleton]. intros x Hx ->%list_elem_of_singleton. by apply Hfr.
Qed.
Lemma rely_log t r e : submitter e <> Some t -> rely t r (log r e).
Proof.
  intros He. split_and!; cbn; auto. exists [e]. split; [done|]. unfold submitters. cbn.
  destruct (submitter e); [|apply not_elem_of_nil]. intros ->%list_elem_of_singleton. done.
Qed.
Lemma inv_started r : route_inv r -> la_running r = false -> la_closed r = false -> route_inv (start r).
Proof.
  intros [Ho [Hd1 Hd2] (H1 & H2 & H3 & H4) Hc Hf Hn] Hr Hcl.
  assert (starts (la_log r) = 0%nat) as E0. { destruct (decide (starts (la_log r) = 1%nat)) as [E|]; [|lia]. rewrite (H4 E Hr) in Hcl. done. }
  split; unfold once_ok, drainer_ok, starts_ok; cbn; rewrite ?starts_snoc, ?drain_events_snoc, ?E0; cbn; rewrite ?app_nil_r; auto.
  - by split_and!.
  - by rewrite submits_follow_snoc, Hf.
  - by rewrite submitters_snoc, app_nil_r.
Qed.
Lemma rely_start t r : rely t r (start r).
Proof. split_and!; cbn; auto. exists [EvStart None]. split; [done|apply not_elem_of_nil]. Qed.

(** Updates that leave the log alone. *)
Lemma rely_same t r r' : la_name r' = la_name r -> la_log r' = la_log r -> la_drainErr r' = la_drainErr r \/ ~ finished r ->
  (la_draining r = true -> la_draining r' = true) -> (la_closed r = true -> la_closed r' = true) ->
  (la_drainCanceled r = true -> la_drainCanceled r' = true) -> (passed r -> passed r') -> (finished r -> finished r') ->
  (la_drainOnce r = OnceRunning t -> la_drainOnce r' = OnceRunning t /\ la_draining r' = la_draining r) -> rely t r r'.
Proof.
  intros Hn Hl He. intros. split_and!; auto.
  - exists []. rewrite app_nil_r. split; [done|apply not_elem_of_nil].
  - intros Hfin. split; [auto|]. by destruct He.
Qed.
Lemma inv_set_started r : route_inv r -> route_inv (set_started r).
Proof.
  intros [Ho Hd (H1 & H2 & H3 & H4) Hc Hf Hn]. split; unfold once_ok, drainer_ok, starts_ok; cbn; rewrite ?app_nil_r; auto.
Qed.
Lemma inv_set_closed r : route_inv r -> la_draining r = true -> route_inv (set_closed r).
Proof.
  intros [Ho Hd (H1 & H2 & H3 & H4) Hc Hf Hn] Hdr. split; unfold once_ok, drainer_ok, starts_ok; cbn; rewrite ?app_nil_r; auto.
Qed.
Lemma inv_stop r b : route_inv r -> route_inv (stop_drain r b).
Proof. intros [Ho Hd Hs Hc Hf Hn]. by split. Qed.
Lemma inv_enter r t : route_inv r -> la_drainOnce r = OnceIdle -> route_inv (enter_once r t) /\ la_draining r = false.
Proof.
  intros [Ho Hd Hs Hc Hf Hn] E. unfold once_ok in Ho. rewrite E in Ho. destruct Ho as (H1 & H2 & H3). split; [|done].
  split; auto. unfold once_ok. cbn. by rewrite H1, H2.
Qed.
Lemma inv_set_draining r t : route_inv r -> la_drainOnce r = OnceRunning t -> route_inv (set_draining r).
Proof.
  intros [Ho Hd Hs Hc Hf Hn] E. unfold once_ok in Ho. rewrite E in Ho. split; auto. unfold once_ok. cbn. rewrite E. by split; [|destruct Ho].
Qed.
Lemma inv_spawn r t : route_inv r -> la_drainOnce r = OnceRunning t -> la_draining r = true -> route_inv (spawn r).
Proof.
  intros [Ho [Hd1 Hd2] Hs Hc Hf Hn] E Hdr. unfold once_ok in Ho. rewrite E in Ho. destruct Ho as [H1 H2]. rewrite H2 in Hd1, Hd2.
  split; auto; unfold once_ok, drainer_ok; cbn; [|by split]. split_and!; congruence.
Qed.

Lemma drain_step_ok t d r d' r' : drain_step t d r = Some (d', r') -> route_inv r -> dpc_ok t d r ->
  route_inv r' /\ dpc_ok t d' r' /\ forall t', t' <> t -> rely t' r r'.
Proof.
  intros E Hi Hd. destruct d; cbn in E.
  - destruct (la_drainOnce r) eqn:Eo; try discriminate E; injection E as <- <-.
    + destruct (inv_enter r t Hi Eo) as [Hi' Hdr]. split; [done|]. split; [by split|]. intros t' Ht. apply rely_same; auto; unfold passed; cbn; congruence.
    + split; [done|]. split; [done|]. intros. apply rely_refl.
  - injection E as <- <-. destruct Hd as [Ho Hdr]. split; [by eapply inv_set_draining|]. split; [by split|].
    intros t' Ht. apply rely_same; auto; cbn; congruence.
  - injection E as <- <-. destruct Hd as [Ho Hdr]. split; [by eapply inv_spawn|]. split; [done|].
    pose proof (ri_once _ Hi) as Hr. unfold once_ok in Hr. rewrite Ho in Hr. destruct Hr as [_ Hr].
    intros t' Ht. apply rely_same; auto; unfold passed, finished; cbn; congruence.
  - discriminate E.
Qed.

(** An event of the drain. *)
Ltac event_kept :=
  split; unfold once_ok, drainer_ok, starts_ok; cbn;
  repeat match goal with H : la_drainOnce _ = _ |- _ => rewrite H | H : la_drainDone _ = _ |- _ => rewrite H
    | H : drain_events _ = _ |- _ => rewrite H | H : la_draining _ = _ |- _ => rewrite H | H : la_drainStop _ = _ |- _ => rewrite H end;
  rewrite ?starts_snoc, ?drain_events_snoc, ?submits_follow_snoc, ?submitters_snoc; cbn;
  repeat match goal with H : drain_events _ = _ |- _ => rewrite H end;
  rewrite ?Nat.add_0_r, ?app_nil_r, ?andb_true_r; auto; split_and!; congruence.
Lemma event_rely r r' e : la_name r' = la_name r -> la_log r' = (la_log r ++ [e])%list -> submitter e = None ->
  la_draining r' = la_draining r -> la_closed r' = la_closed r -> la_drainCanceled r' = la_drainCanceled r ->
  la_drainOnce r' = la_drainOnce r -> ~ finished r -> forall t, rely t r r'.
Proof.
  intros Hn Hl He H1 H2 H3 H4 Hf t. unfold rely, passed. rewrite H1, H2, H3, H4. split_and!; auto.
  - exists [e]. split; [done|]. unfold submitters. cbn. rewrite He. apply not_elem_of_nil.
  - by intros ?.
Qed.

Lemma drainer_step_ok r a r' : drainer_step r a = Some r' -> route_inv r -> route_inv r' /\ forall t, rely t r r'.
Proof.
  intros E Hi. pose proof Hi as [Ho [Hd1 Hd2] (H1 & H2 & H3 & H4) Hc Hf Hn]. unfold drainer_step in E.
  assert (la_drainer r <> NotSpawned -> la_drainOnce r = OnceDone /\ la_draining r = true /\ la_drainStop r = true) as Hdone.
  { unfold once_ok in Ho. destruct (la_drainOnce r); intuition congruence. }
  destruct (la_drainer r) as [| | |err| |] eqn:Er; try discriminate E; destruct a; try discriminate E; injection E as <-;
    destruct Hdone as (O1 & O2 & O3); try discriminate.
  - split.
    + event_kept.
    + apply (event_rely _ _ EvShutdown); auto; unfold finished; cbn; congruence.
  - split.
    + event_kept.
    + apply (event_rely _ _ (EvStopped err)); auto; unfold finished; cbn; congruence.
  - split.
    + split; unfold once_ok, drainer_ok, starts_ok; cbn; rewrite ?O1, ?O2, ?O3; auto; try (split_and!; congruence).
      split_and!; auto; [discriminate|]. intros Es _. by rewrite (H3 Es).
    + intros t. apply rely_same; auto; unfold finished; cbn; try congruence; [right; congruence|]. intros ->. by rewrite orb_true_r.
  - split.
    + event_kept.
    + apply (event_rely _ _ EvClosed); auto; unfold finished; cbn; congruence.
Qed.

(** ** Every step of a call keeps the invariant *)
Definition keeps (t : nat) (r : LocalAsyncRoute) (p' : pc) (r' : LocalAsyncRoute) : Prop :=
  route_inv r' /\ pc_ok t p' r' /\ forall t', t' <> t -> rely t' r r'.
Lemma keeps_same t r p' : route_inv r -> pc_ok t p' r -> keeps t r p' r.
Proof. intros Hi Hp. split; [done|]. split; [done|]. intros. apply rely_refl. Qed.
Lemma keeps_log t r e p' : route_inv r -> of_drain e = false -> is_start e = false ->
  match submitter e with Some t' => t' = t /\ unsubmitted t r /\ started r | None => True end -> pc_ok t p' (log r e) -> keeps t r p' (log r e).
Proof.
  intros Hi Hd Hs Ht Hp. split; [|split; [done|]].
  - apply inv_log; [done..|]. intros t' E. rewrite E in Ht. destruct Ht as (-> & ? & ?). by split.
  - intros t' Hne. apply rely_log. intros E. rewrite E in Ht. by destruct Ht as [-> _].
Qed.
Lemma done_finished r : route_inv r -> forall n, la_drainDone r = S n -> finished r.
Proof. intros [_ [Hd _] _ _ _ _] n E. unfold finished. rewrite E in Hd. by destruct (la_drainer r). Qed.
Lemma finished_draining r : route_inv r -> finished r -> la_draining r = true.
Proof. intros [Ho _ _ _ _ _] Hf. unfold once_ok, finished in *. destruct (la_drainOnce r); intuition congruence. Qed.
Lemma passed_draining r : route_inv r -> passed r -> la_draining r = true /\ la_drainStop r = true.
Proof. intros [Ho _ _ _ _ _] Hp. unfold once_ok, passed in *. rewrite Hp in Ho. tauto. Qed.
Lemma keeps_closed t r p' : route_inv r -> finished r -> (pc_ok t p' (set_closed r)) -> keeps t r p' (set_closed r).
Proof.
  intros Hi Hf Hp. split; [by apply inv_set_closed, finished_draining|]. split; [done|].
  intros t' _. apply rely_same; auto; cbn; by rewrite ?app_nil_r.
Qed.
Lemma keeps_when_done t p r p' r' : when_done p r = Some (p', r') -> route_inv r -> (finished r -> pc_ok t p r) -> keeps t r p' r'.
Proof.
  unfold when_done. destruct (la_drainDone r) as [|n] eqn:E; [done|]. intros [= <- <-] Hi Hp. apply keeps_same; [done|].
  eapply Hp, done_finished; eauto.
Qed.
Lemma keeps_draining t k next d r p' r' : draining_step t k next d r = Some (p', r') -> route_inv r -> dpc_ok t d r ->
  (forall d' x, dpc_ok t d' x -> pc_ok t (k d') x) -> (passed r -> pc_ok t next r) -> keeps t r p' r'.
Proof.
  intros E Hi Hd Hk Hn. unfold draining_step in E.
  assert (forall d' x, drain_step t d r = Some (d', x) -> keeps t r (k d') x) as Hs.
  { intros d' x Ed. destruct (drain_step_ok t d r d' x Ed Hi Hd) as (H1 & H2 & H3). split; [done|]. split; [by apply Hk|done]. }
  destruct d; [..|injection E as <- <-; apply keeps_same; auto];
    match type of E with context [drain_step ?a ?b ?c] => destruct (drain_step a b c) as [[d' x]|] eqn:Ed end; try discriminate E; injection E as <- <-; by apply Hs.
Qed.
Lemma admits_started r : route_inv r -> admits r = true -> started r.
Proof. intros [_ _ (_ & Hr & _) _ _ _] Ha. apply andb_prop in Ha as [[Ha _]%andb_prop _]. by apply Hr. Qed.

Lemma run_entry_ok t r a p' r' : run_entry r a = Some (p', r') -> route_inv r -> keeps t r p' r'.
Proof.
  intros E Hi. unfold run_entry in E. destruct (la_running r) eqn:Er; [injection E as <- <-; apply keeps_same; cbn; auto|].
  destruct (la_draining r && negb (la_everStarted r)) eqn:Ed.
  { injection E as <- <-. apply andb_prop in Ed as [Hd _]. split; [by apply inv_set_started|]. split; [done|].
    intros t' _. apply rely_same; auto; cbn; by rewrite ?app_nil_r. }
  destruct (la_closed r) eqn:Ec; [injection E as <- <-; apply keeps_same; cbn; auto 10|].
  destruct a as [|[err|]| | | |]; try discriminate E; injection E as <- <-.
  - apply keeps_log; auto; [exact I|]. cbn. right. right. right. left. exists err. split; [done|]. cbn. apply elem_of_app. right. by apply list_elem_of_singleton.
  - split; [by apply inv_started|]. split; [|intros; apply rely_start]. cbn. eapply (started_mono (log r (EvStart None)) _ []).
    + cbn. by rewrite app_nil_r.
    + by apply inv_started.
    + unfold started. cbn. rewrite starts_snoc. cbn. destruct Hi as [_ _ (H1 & H2 & H3 & H4) _ _ _].
      destruct (decide (starts (la_log r) = 1%nat)) as [E1|]; [rewrite (H4 E1 Er) in Ec; done|lia].
Qed.

Lemma query_reply_ok t ctxErr envelope r : EvSubmitResult t None ∈ la_log r -> reply_ok t (query_reply ctxErr envelope) r.
Proof.
  intros Hin. unfold query_reply. destruct ctxErr as [b|]; [done|]. destruct envelope as [[res [err|]]|]; try done.
  unfold unwrapLocalQueryInvocationError. by destruct (_ ≫= _).
Qed.
Lemma readiness_ok r a : route_inv r -> readiness r a = Some None -> started r.
Proof.
  intros [_ _ (_ & Hr & _) _ _ _]. unfold readiness. destruct (la_closed r); [done|]. destruct (la_running r); [intros _; by apply Hr|done].
Qed.

Lemma refused t err r : unsubmitted t r -> reply_ok t (ReplyDeliver Receipt0 (Some err)) r.
Proof. intros Hf. split; [done|]. intros m Hm. by eapply Hf, submitter_in. Qed.

(** Admission. *)
Lemma admission_ok t p r a p' r' : call_step t p r a = Some (p', r') -> route_inv r -> pc_ok t p r ->
  match p with
  | ReadinessEntry | DeliverEntry _ _ | DeliverCheck _ | DeliverSubmit _ | DeliverReceipt _ | QueryEntry _ | QuerySubmit | QueryWait => True
  | _ => False
  end -> keeps t r p' r'.
Proof.
  intros E Hi Hp Hk. destruct p as [| | | | | | | | | | | | | | | |c [m|]|m|m|m|ok| | |]; try contradiction; cbn in E.
  - destruct (readiness r a) as [err|] eqn:Er; [|done]. injection E as <- <-. apply keeps_same; [done|]. cbn. intros ->. by eapply readiness_ok.
  - destruct c; injection E as <- <-; apply keeps_same; auto; [|by apply refused]. destruct (admits r) eqn:Ea; [|by apply refused].
    split; [done|by apply admits_started].
  - destruct c; injection E as <- <-; apply keeps_same; auto; by apply refused.
  - destruct a; try discriminate E. injection E as <- <-. apply keeps_same; [done|]. destruct (validateImmediateTiming m now); [|done]. by apply refused; destruct Hp.
  - destruct a as [|[err|]| | | |]; try discriminate E; injection E as <- <-; apply keeps_log; auto; try done; cbn; try (by destruct Hp).
    + split; [done|]. intros m'. rewrite elem_of_app, list_elem_of_singleton. intros [Hm|[=]]. destruct Hp as [Hf _]. by eapply Hf, submitter_in.
    + apply elem_of_app. right. by apply list_elem_of_singleton.
  - destruct a; try discriminate E. injection E as <- <-. apply keeps_same; [done|]. cbn. by exists m.
  - destruct ok; injection E as <- <-; apply keeps_same; auto; [|done]. destruct (la_closed r); [done|].
    destruct (admits r) eqn:Ea; [|done]. split; [done|by apply admits_started].
  - destruct a as [|[err|]| | | |]; try discriminate E; injection E as <- <-; apply keeps_log; auto; try done; cbn; try (by destruct Hp).
    apply elem_of_app. right. by apply list_elem_of_singleton.
  - destruct a; try discriminate E; injection E as <- <-; apply keeps_same; auto; [done|]. by apply query_reply_ok.
Qed.

Lemma call_ok t p r a p' r' : call_step t p r a = Some (p', r') -> route_inv r -> pc_ok t p r -> keeps t r p' r'.
Proof.
  intros E Hi Hp. destruct p; try (eapply admission_ok; [exact E|exact Hi|exact Hp|exact I]); cbn in E, Hp.
  - destruct ctx; [by eapply run_entry_ok|]. injection E as <- <-. apply keeps_same; cbn; auto.
  - eapply keeps_when_done; [exact E|done|done].
  - injection E as <- <-. apply keeps_closed; auto. cbn. auto 10.
  - destruct a; try discriminate E; [|injection E as <- <-; by apply keeps_same]. eapply keeps_when_done; [exact E|done|]. cbn. auto 10.
  - eapply keeps_draining; [exact E|done|done|done|done].
  - injection E as <- <-. apply keeps_same; [done|]. split; [done|]. by apply passed_draining.
  - injection E as <- <-. destruct Hp as [Hp ->]. split; [by apply inv_stop|]. split; [by split|]. intros t' _. by apply rely_same; auto.
  - eapply keeps_when_done; [exact E|done|]. intros Hf. cbn. right. right. right. right. right. destruct Hp. eauto.
  - eapply keeps_draining; [exact E|done|done|done|done].
  - destruct ctx; injection E as <- <-; apply keeps_same; cbn; auto.
  - eapply keeps_draining; [exact E|done|done|done|done].
  - destruct a; try discriminate E; [|injection E as <- <-; by apply keeps_same]. by eapply keeps_when_done; [exact E| |].
  - injection E as <- <-. apply keeps_closed; auto. cbn. auto 10.
  - injection E as <- <-. apply keeps_same; [done|]. split; [done|]. by apply passed_draining.
  - injection E as <- <-. destruct Hp as [Hp ->]. split; [by apply inv_stop|]. split; [cbn; eauto 10|]. intros t' _. by apply rely_same; auto.
  - discriminate E.
Qed.

(** ** Reachable configurations *)
Definition config_inv (c : LocalAsyncRoute * calls) : Prop :=
  route_inv c.1 /\ (forall t p, c.2 !! t = Some p -> pc_ok t p c.1) /\ forall t, t ∈ submitters (la_log c.1) -> is_Some (c.2 !! t).

Lemma inv_route0 name : route_inv (route0 name).
Proof. split; try done; [|apply NoDup_nil_2]. split_and!; try done. unfold starts. cbn. lia. Qed.

(** Only a call of its own adds a submission. *)
Lemma new_submitter t p r a p' r' x : call_step t p r a = Some (p', r') -> route_inv r -> pc_ok t p r ->
  x ∈ submitters (la_log r') -> x = t \/ x ∈ submitters (la_log r).
Proof.
  intros E Hi Hp Hx. destruct (decide (x = t)) as [->|Hne]; [by left|right].
  destruct (call_ok t p r a p' r' E Hi Hp) as (_ & _ & Hr). destruct (Hr x Hne) as (_ & (l & Hl & Hn) & _).
  rewrite Hl, submitters_app, elem_of_app in Hx. tauto.
Qed.

Lemma inv_step c c' : step c c' -> config_inv c -> config_inv c'.
Proof.
  intros Hs (Hi & Hp & Ht). destruct Hs as [r T t p Hn He|r T t p a p' r' Hl E|r T a r' E]; cbn in *.
  - split; [done|]. split; [|intros x Hx; destruct (decide (x = t)) as [->|]; simplify_map_eq; eauto].
    intros t' q Hq. destruct (decide (t' = t)) as [->|]; simplify_map_eq; [|eauto].
    assert (unsubmitted t r) by (intros Hx%Ht; rewrite Hn in Hx; by destruct Hx). destruct q; try done; by destruct d.
  - destruct (call_ok t p r a p' r' E Hi (Hp t p Hl)) as (Hi' & Hp' & Hr). split; [done|]. split.
    + intros t' q Hq. destruct (decide (t' = t)) as [->|Hne]; simplify_map_eq; [done|]. eapply stable; [apply Hi'|by apply Hr|eauto].
    + intros x Hx. destruct (decide (x = t)) as [->|]; simplify_map_eq; [by eexists|].
      destruct (new_submitter t p r a p' r' x E Hi (Hp t p Hl) Hx) as [->|?]; [done|eauto].
  - destruct (drainer_step_ok r a r' E Hi) as [Hi' Hr]. split; [done|]. split.
    + intros t q Hq. eapply stable; [apply Hi'|apply Hr|eauto].
    + intros x Hx. cbn in Hx |- *. destruct (Hr x) as (_ & (l & Hl & Hn) & _). rewrite Hl, submitters_app, elem_of_app in Hx. apply Ht. tauto.
Qed.
Lemma reach_inv name c : reachable name c -> config_inv c.
Proof.
  assert (forall a, rtc step a c -> config_inv a -> config_inv c) as Hind.
  { intros a Hr. induction Hr as [|a b c Hs Hr IH]; [done|]. intros Ha. eapply IH, inv_step; eauto. }
  intros Hr. eapply Hind; [exact Hr|]. split; [apply inv_route0|]. split; [by intros t p|]. by intros t ?%elem_of_nil.
Qed.

(** ** Steps of a call *)
Definition dpc_rank (d : dpc) : nat := match d with DEntry => 3 | DSet => 2 | DSpawn => 1 | DReturned => 0 end.
Definition rank (p : pc) : nat :=
  match p with
  | RunEntry _ => 10 | RunSelect => 8 | RunDrain d _ => 4 + dpc_rank d | RunForce _ => 3 | RunStop _ _ => 2 | RunWait _ => 1
  | RunAwait => 2 | RunFinish => 1
  | DrainOnly d => 1 + dpc_rank d
  | ShutEntry _ => 8 | ShutDrain d => 4 + dpc_rank d | ShutSelect => 3 | ShutForce _ => 2 | ShutRead | ShutStop _ _ => 1
  | ReadinessEntry => 1
  | DeliverEntry _ _ => 4 | DeliverCheck _ => 3 | DeliverSubmit _ => 2 | DeliverReceipt _ => 1
  | QueryEntry _ => 3 | QuerySubmit => 2 | QueryWait => 1
  | Returned _ => 0
  end.
Lemma drain_step_rank t d r d' r' : drain_step t d r = Some (d', r') -> (dpc_rank d' < dpc_rank d)%nat.
Proof. destruct d; cbn; [destruct (la_drainOnce r)|..]; intros [= <- <-]; cbn; lia. Qed.
Lemma call_step_rank t p r a p' r' : call_step t p r a = Some (p', r') -> (rank p' < rank p)%nat.
Proof.
  assert (forall k next d, draining_step t k next d r = Some (p', r') -> (rank next < rank (k DReturned))%nat ->
    (forall d, rank (k d) = rank (k DReturned) + dpc_rank d)%nat -> (rank p' < rank (k d))%nat) as Hd.
  { intros k next d E Hn Hk. unfold draining_step in E.
    assert (forall d' x, drain_step t d r = Some (d', x) -> (rank (k d') < rank (k d))%nat) as Hs
      by (intros d' x Ed%drain_step_rank; rewrite (Hk d'), (Hk d); lia).
    destruct d; [..|injection E as <- _; done];
      match type of E with context [drain_step ?a ?b ?c] => destruct (drain_step a b c) as [[d' x]|] eqn:Ed end; try discriminate E;
      injection E as <- _; by eapply Hs. }
  assert (forall q, when_done q r = Some (p', r') -> p' = q) as Hw by (intros q; unfold when_done; by destruct (la_drainDone r); intros [= <- _]).
  intros E. destruct p as [[]| | | | | | | | |[]| | | | | | |[] [m|]|m|m|m|[]| | |]; cbn [call_step] in E.
  all: try (apply Hw in E; subst; cbn; lia).
  all: try match type of E with draining_step _ ?k ?n ?d _ = _ => refine (Hd k n d E _ _); [cbn; lia|intros; cbn; lia] end.
  all: unfold run_entry, readiness in E; repeat case_match; simplify_eq; cbn; try lia; try (apply Hw in E; subst; cbn; lia).
Qed.

(** ** Who is inside [drainOnce] *)
Definition dpc_of (p : pc) : option dpc := match p with RunDrain d _ | DrainOnly d | ShutDrain d => Some d | _ => None end.
Definition owned (c : LocalAsyncRoute * calls) : Prop :=
  forall t, la_drainOnce c.1 = OnceRunning t -> exists p, c.2 !! t = Some p /\ (dpc_of p = Some DSet \/ dpc_of p = Some DSpawn).

Lemma once_step t p r a p' r' : call_step t p r a = Some (p', r') ->
  la_drainOnce r' = la_drainOnce r /\ (dpc_of p <> Some DSpawn) /\ (dpc_of p = Some DSet -> dpc_of p' = Some DSpawn) \/
  la_drainOnce r' = OnceDone \/ (la_drainOnce r' = OnceRunning t /\ dpc_of p' = Some DSet).
Proof.
  assert (forall k next d, (forall d, dpc_of (k d) = Some d) -> p = k d -> draining_step t k next d r = Some (p', r') ->
    la_drainOnce r' = la_drainOnce r /\ (dpc_of p <> Some DSpawn) /\ (dpc_of p = Some DSet -> dpc_of p' = Some DSpawn) \/
    la_drainOnce r' = OnceDone \/ (la_drainOnce r' = OnceRunning t /\ dpc_of p' = Some DSet)) as Hd.
  { intros k next d Hk -> E. rewrite Hk. destruct d; cbn in E.
    - destruct (la_drainOnce r) eqn:Eo; try discriminate E; injection E as <- <-; rewrite ?Hk; auto.
    - injection E as <- <-. rewrite Hk. left. split_and!; auto; discriminate.
    - injection E as <- <-. auto.
    - injection E as <- <-. left. split_and!; auto; discriminate. }
  assert (forall q, when_done q r = Some (p', r') -> r' = r) as Hw by (intros q; unfold when_done; by destruct (la_drainDone r); intros [= _ <-]).
  intros E. destruct p as [[]| | | | | | | | |[]| | | | | | |[] [m|]|m|m|m|[]| | |]; cbn [call_step] in E.
  all: try match type of E with draining_step _ ?k ?n ?d _ = _ => apply (Hd k n d); done end.
  all: left; split_and!; [|discriminate..]; try (apply Hw in E; by subst).
  all: unfold run_entry, readiness in E; repeat case_match; simplify_eq; try done; apply Hw in E; by subst.
Qed.

Lemma owned_step c c' : step c c' -> config_inv c -> owned c -> owned c'.
Proof.
  intros Hs (Hi & Hp & _) Ho. unfold owned in *. destruct Hs as [r T t p Hn He|r T t p a p' r' Hl E|r T a r' E]; intros t' Ht'; cbn in *.
  - destruct (Ho t' Ht') as (q & Hq & Hd). exists q. split; [|done]. rewrite lookup_insert_ne; [done|]. intros ->. cbn in Hq. congruence.
  - destruct (once_step t p r a p' r' E) as [(E1 & E2 & E3)|[E1|[E1 E2]]]; rewrite E1 in Ht'; [|discriminate|].
    + destruct (Ho t' Ht') as (q & Hq & Hd). destruct (decide (t' = t)) as [->|]; [|exists q; split; [by rewrite lookup_insert_ne|done]].
      rewrite Hl in Hq. injection Hq as <-. exists p'. rewrite lookup_insert_eq. split; [done|]. right. apply E3. by destruct Hd.
    + injection Ht' as ->. exists p'. rewrite lookup_insert_eq. auto.
  - assert (la_drainOnce r' = la_drainOnce r) as Eo.
    { unfold drainer_step in E. destruct (la_drainer r), a; simplify_eq; done. }
    rewrite Eo in Ht'. by apply Ho.
Qed.
Lemma reach_owned name c : reachable name c -> owned c.
Proof.
  assert (forall a, rtc step a c -> config_inv a -> owned a -> owned c) as Hind.
  { intros a Hr. induction Hr as [|a b c Hs Hr IH]; [done|]. intros Ha Ho. eapply IH; [by eapply inv_step|by eapply owned_step]. }
  intros Hr. eapply Hind; [exact Hr|apply reach_inv with name; constructor|]. done.
Qed.

(** ** Admission ends with the drain *)
Definition submitting (p : pc) : bool := match p with DeliverCheck _ | DeliverSubmit _ | QuerySubmit => true | _ => false end.
(** A call that has not passed the check of admission. *)
Definition outside (t : nat) (T : calls) : Prop :=
  match T !! t with None | Some (DeliverEntry _ _) | Some (QueryEntry _) => True | _ => False end.
Definition late (t : nat) (c : LocalAsyncRoute * calls) : Prop :=
  la_draining c.1 = true /\ t ∉ submitters (la_log c.1) /\ forall p, c.2 !! t = Some p -> submitting p = false.

Lemma late_call t p r a p' r' : call_step t p r a = Some (p', r') -> la_draining r = true -> submitting p = false ->
  submitting p' = false /\ submitters (la_log r') = submitters (la_log r) /\ la_draining r' = true.
Proof.
  intros E Hd Hs. assert (admits r = false) as Ha by (unfold admits; rewrite Hd; by destruct (la_running r)).
  assert (forall k next d, (forall d, submitting (k d) = false) -> submitting next = false -> draining_step t k next d r = Some (p', r') ->
    submitting p' = false /\ submitters (la_log r') = submitters (la_log r) /\ la_draining r' = true) as Hdr.
  { intros k next d Hk Hn Eq. destruct d; cbn in Eq; [destruct (la_drainOnce r)|..]; simplify_eq; auto. }
  assert (forall q, when_done q r = Some (p', r') -> submitting q = false ->
    submitting p' = false /\ submitters (la_log r') = submitters (la_log r) /\ la_draining r' = true) as Hw
    by (intros q; unfold when_done; destruct (la_drainDone r); intros [= <- <-]; done).
  destruct p as [[]| | | | | | | | |[]| | | | | | |[] [m|]|m|m|m|[]| | |]; try discriminate Hs; cbn [call_step] in E.
  all: try (by eapply Hdr; [..|exact E]). all: try (by eapply Hw; [exact E|]).
  all: unfold run_entry, readiness, query_reply in E; repeat case_match; simplify_eq; cbn; rewrite ?app_nil_r, ?submitters_snoc; cbn; rewrite ?app_nil_r;
    try (by eapply Hw; [exact E|]); try (split_and!; done); congruence.
Qed.
Lemma late_step t c c' : step c c' -> config_inv c -> late t c -> late t c'.
Proof.
  intros Hs (Hi & Hp & _) (Hd & Hn & Hl). destruct Hs as [r T x p Hx He|r T x p a p' r' Hx E|r T a r' E]; cbn in *.
  - split_and!; auto. cbn. intros q Hq. destruct (decide (t = x)) as [->|]; simplify_map_eq; [by destruct q|eauto].
  - destruct (decide (t = x)) as [->|Hne].
    + destruct (late_call x p r a p' r' E Hd (Hl p Hx)) as (H1 & H2 & H3). split_and!; cbn; [done|by rewrite H2|]. intros q Hq. by simplify_map_eq.
    + destruct (call_ok x p r a p' r' E Hi (Hp x p Hx)) as (_ & _ & Hr). destruct (Hr t Hne) as (_ & (l & El & Hnl) & Hd' & _).
      split_and!; cbn; auto; [rewrite El, submitters_app, elem_of_app; tauto|]. intros q Hq. rewrite lookup_insert_ne in Hq by done. eauto.
  - destruct (drainer_step_ok r a r' E Hi) as [_ Hr]. destruct (Hr t) as (_ & (l & El & Hnl) & Hd' & _).
    split_and!; cbn; auto. rewrite El, submitters_app, elem_of_app. tauto.
Qed.
Lemma late_steps t c c' : rtc step c c' -> config_inv c -> late t c -> late t c'.
Proof. induction 1 as [|a b c Hs Hr IH]; [done|]. intros Ha Hl. eapply IH; [by eapply inv_step|by eapply late_step]. Qed.
Lemma outside_late name r T t : reachable name (r, T) -> la_draining r = true -> outside t T -> late t (r, T).
Proof.
  intros Hr Hd Ho. destruct (reach_inv name _ Hr) as (_ & Hp & Ht). unfold outside in Ho. cbn in *. split_and!; cbn; [done| |].
  - destruct (T !! t) as [p|] eqn:E.
    + specialize (Hp t p E). by destruct p.
    + intros Hx%Ht. rewrite E in Hx. by destruct Hx.
  - intros p E. rewrite E in Ho. by destruct p.
Qed.

(** The lifecycle of an asynchronous local route, for every interleaving of its
    calls and every behaviour of the queue: the queue is shut down at most once and
    its answer is recorded before [drainDone] is closed, which happens once; it is
    started with success at most once; a message is submitted only after that, and
    at most once per call; a closed route is draining.  Once the route is draining
    it stays so, and a call that has not passed the check of admission by then
    never submits its message. *)
Theorem local_async_lifecycle name r T : reachable name (r, T) ->
  (exists err, drain_events (la_log r) `prefix_of` [EvShutdown; EvStopped err; EvClosed] /\
     (la_drainDone r = 0%nat \/ la_drainDone r = 1%nat /\ err = la_drainErr r /\ drain_events (la_log r) = [EvShutdown; EvStopped err; EvClosed])) /\
  (starts (la_log r) <= 1)%nat /\ submits_follow false (la_log r) = true /\ NoDup (submitters (la_log r)) /\
  (la_closed r = true -> la_draining r = true) /\
  forall r' T', rtc step (r, T) (r', T') -> la_draining r = true ->
    la_draining r' = true /\ forall t, outside t T -> t ∉ submitters (la_log r').
Proof.
  intros Hr. pose proof (reach_inv name _ Hr) as Hc. pose proof (proj1 Hc) as Hi. cbn in Hi.
  split_and!; [|by destruct Hi as [_ _ (? & _) _ _ _]|by destruct Hi..|].
  - destruct Hi as [_ [Hd1 Hd2] _ _ _ _]. rewrite Hd1. destruct (la_drainer r) as [| | |err| |]; rewrite Hd2.
    1-2: exists None; split; [apply prefix_nil|auto].
    + exists None. split; [by eexists|auto].
    + exists err. split; [by eexists|auto].
    + exists (la_drainErr r). split; [by eexists|auto].
    + exists (la_drainErr r). split; [by eexists []|auto].
  - intros r' T' Hs Hd. split.
    + destruct (late_steps (fresh (dom T : gset nat)) _ _ Hs Hc); [|done]. apply (outside_late name); [done..|]. unfold outside.
      pose proof (is_fresh (dom T : gset nat)) as Hf. apply not_elem_of_dom in Hf. by rewrite Hf.
    + intros t Ho. by destruct (late_steps t _ _ Hs Hc (outside_late name r T t Hr Hd Ho)) as (_ & ? & _).
Qed.

(** C25. What the answers of an asynchronous local route mean, in every reachable
    configuration.  [Shutdown] returns nil only when the queue's shutdown returned
    nil, the end of the drain is recorded and the route is closed, and [Run] only
    when the queue's shutdown returned nil; the error of a context comes with a
    drain that was canceled, and from [Run] with one that has ended.  A delivery
    returns nil exactly when the queue accepted its message, with the accepted
    receipt of that message. *)
Theorem local_async_answers name r T t x : reachable name (r, T) -> T !! t = Some (Returned x) ->
  reply_ok t x r /\
  match x with
  | ReplyRun None => drain_events (la_log r) = [EvShutdown; EvStopped None; EvClosed]
  | ReplyShutdown None => drain_events (la_log r) = [EvShutdown; EvStopped None; EvClosed] /\ la_closed r = true
  | _ => True
  end.
Proof.
  intros Hr Ht. destruct (reach_inv name _ Hr) as (Hi & Hp & _). cbn in *. specialize (Hp t _ Ht). cbn in Hp. split; [done|].
  assert (finished r -> None = la_drainErr r -> drain_events (la_log r) = [EvShutdown; EvStopped None; EvClosed]) as Hf.
  { intros Hf Hn. destruct Hi as [_ [_ Hd] _ _ _ _]. unfold finished in Hf. rewrite Hf in Hd. by rewrite Hn. }
  destruct x as [[e|]| |[e|]| | |]; try done.
  - destruct Hp as [Hp|[Hp|[[Hp _]|[(e & Hp & _)|[[H1 H2]|(_ & _ & b & Hp)]]]]]; try discriminate Hp. by apply Hf.
  - destruct Hp as [Hp|[(H1 & H2 & H3)|(_ & _ & b & Hp)]]; try discriminate Hp. split; [by apply Hf|done].
Qed.

(** ** Progress *)
Definition can_step (t : nat) (p : pc) (r : LocalAsyncRoute) : Prop :=
  exists a p' r', (forall b, a <> ACtx b) /\ call_step t p r a = Some (p', r').
Definition drain_goes_on (r : LocalAsyncRoute) (T : calls) : Prop :=
  (exists t p, la_drainOnce r = OnceRunning t /\ T !! t = Some p /\ can_step t p r) \/ exists a r', drainer_step r a = Some r'.

Lemma drainer_can_step r : la_drainer r <> NotSpawned -> la_drainer r <> Ended -> exists a r', drainer_step r a = Some r'.
Proof.
  unfold drainer_step. destruct (la_drainer r) as [| | |err| |]; intros H1 H2; try done; [exists ANone|exists (AErr None)|exists ANone|exists ANone]; by eexists.
Qed.
Lemma owner_can_step t p r : dpc_of p = Some DSet \/ dpc_of p = Some DSpawn -> can_step t p r.
Proof. intros [E|E]; destruct p; try discriminate E; injection E as ->; exists ANone; by eexists _, _. Qed.
(** A drain that has begun ends, or a goroutine can go on with it. *)
Lemma draining_goes_on r T : config_inv (r, T) -> owned (r, T) -> la_draining r = true -> la_drainDone r = 1%nat \/ drain_goes_on r T.
Proof.
  intros (Hi & _ & _) Ho Hd. cbn in *. pose proof (ri_once _ Hi) as Hq. pose proof (proj1 (ri_drainer _ Hi)) as Hdd. unfold once_ok in Hq.
  destruct (la_drainOnce r) as [|t|] eqn:E; [destruct Hq; congruence| |].
  - right. left. destruct (Ho t E) as (p & Hp & Hdp). exists t, p. split; [done|]. split; [done|by apply owner_can_step].
  - destruct Hq as (_ & _ & Hn). destruct (la_drainer r) eqn:Er; [done|..|by left]; right; right; apply drainer_can_step; congruence.
Qed.
Lemma entry_goes_on t k next d r T : owned (r, T) ->
  (exists p' r', draining_step t k next d r = Some (p', r')) \/ exists t' p, la_drainOnce r = OnceRunning t' /\ T !! t' = Some p /\ can_step t' p r.
Proof.
  intros Ho. destruct d; cbn; eauto. destruct (la_drainOnce r) as [|t'|] eqn:E; eauto.
  right. destruct (Ho t' E) as (p & Hp & Hd). exists t', p. split; [done|]. split; [done|by apply owner_can_step].
Qed.
Lemma waits_for_drain t p q r T : config_inv (r, T) -> owned (r, T) -> la_draining r = true ->
  call_step t p r ANone = when_done q r -> can_step t p r \/ drain_goes_on r T.
Proof.
  intros Hc Ho Hd E. destruct (draining_goes_on r T Hc Ho Hd) as [Hone|]; [left|by right].
  exists ANone, q, r. split; [done|]. rewrite E. unfold when_done. by rewrite Hone.
Qed.
Lemma free_step t p r a : (forall b, a <> ACtx b) -> is_Some (call_step t p r a) -> can_step t p r.
Proof. intros Ha [[p' r'] E]. by exists a, p', r'. Qed.

(** No call of an asynchronous local route gets stuck: in every reachable
    configuration a call takes at most ten steps to its end, and one that has not
    returned can take a step even if no context ends, or the goroutine in
    [drainOnce] or the one that drains can; [Run] alone waits, as long as no drain
    has begun. *)
Theorem local_async_progress name r T t p : reachable name (r, T) -> T !! t = Some p ->
  (rank p <= 10)%nat /\ (forall a p' r', call_step t p r a = Some (p', r') -> (rank p' < rank p)%nat) /\
  match p with
  | Returned _ => True
  | RunSelect => la_draining r = true -> can_step t p r \/ drain_goes_on r T
  | _ => can_step t p r \/ drain_goes_on r T
  end.
Proof.
  intros Hr Ht. pose proof (reach_inv name _ Hr) as Hc. pose proof (reach_owned name _ Hr) as Ho. pose proof (proj1 (proj2 Hc) t p Ht) as Hp.
  pose proof (proj1 Hc) as Hi. cbn in Hi, Hp. split; [destruct p; cbn; try lia; destruct d; cbn; lia|]. split; [intros a p' r'; apply call_step_rank|].
  assert (forall k next d, (forall a, call_step t p r a = draining_step t k next d r) -> can_step t p r \/ drain_goes_on r T) as Hd.
  { intros k next d E. destruct (entry_goes_on t k next d r T Ho) as [(p' & r' & Ed)|Hw]; [left|right; by left]. exists ANone, p', r'. by rewrite E. }
  destruct p; cbn in Hp; try exact I.
  all: try match goal with
    | |- can_step _ (RunDrain ?d ?b) _ \/ _ => by apply (Hd (fun d => RunDrain d b) (RunForce b) d)
    | |- can_step _ (DrainOnly ?d) _ \/ _ => by apply (Hd DrainOnly (Returned ReplyDrain) d)
    | |- can_step _ (ShutDrain ?d) _ \/ _ => by apply (Hd ShutDrain ShutSelect d)
    end.
  all: try (by left; apply (free_step _ _ _ ANone); [done|eexists]).
  all: try (by eapply waits_for_drain; [done|done| |reflexivity]; first [exact Hp|by apply passed_draining|by apply passed_draining, Hp]).
  - left. apply (free_step _ _ _ (AErr None)); [done|]. destruct ctx; [|by eexists]. cbn. unfold run_entry. repeat case_match; by eexists.
  - intros Hdr. by eapply waits_for_drain; [done|done|done|reflexivity].
  - left. apply (free_step _ _ _ ANone); [done|]. destruct ctx; by eexists.
  - left. apply (free_step _ _ _ (AState true)); [done|]. cbn. unfold readiness. repeat case_match; first [discriminate|by eexists].
  - left. apply (free_step _ _ _ ANone); [done|]. match goal with |- is_Some (call_step _ (DeliverEntry ?c ?d) _ _) => destruct c, d end; by eexists.
  - left. apply (free_step _ _ _ (ANow 0)); [done|]. by eexists.
  - left. apply (free_step _ _ _ (AErr None)); [done|]. by eexists.
  - left. apply (free_step _ _ _ (ANow 0)); [done|]. by eexists.
  - left. apply (free_step _ _ _ ANone); [done|]. destruct ok; by eexists.
  - left. apply (free_step _ _ _ (AErr None)); [done|]. by eexists.
  - left. apply (free_step _ _ _ (AEnvelope None None)); [done|]. by eexists.
Qed.

(** A schedule of steps, executed. *)
Inductive action : Type := Call (t : nat) (p : pc) | Do (t : nat) (a : answer) | Drain (a : answer).
Definition perform (x : action) (c : LocalAsyncRoute * calls) : option (LocalAsyncRoute * calls) :=
  match x with
  | Call t p => match c.2 !! t with None => if is_entry p then Some (c.1, <[t := p]> c.2) else None | Some _ => None end
  | Do t a => p ← c.2 !! t; '(p', r') ← call_step t p c.1 a; Some (r', <[t := p']> c.2)
  | Drain a => r' ← drainer_step c.1 a; Some (r', c.2)
  end.
Fixpoint execute (l : list action) (c : LocalAsyncRoute * calls) : option (LocalAsyncRoute * calls) :=
  match l with [] => Some c | x :: l => perform x c ≫= execute l end.

Lemma perform_step x c c' : perform x c = Some c' -> step c c'.
Proof.
  destruct c as [r T]. destruct x as [t p|t a|a]; cbn.
  - destruct (T !! t) eqn:E; [done|]. destruct (is_entry p) eqn:Ep; [|done]. intros [= <-]. by apply s_call.
  - destruct (T !! t) as [p|] eqn:E; [|done]. cbn. destruct (call_step t p r a) as [[p' r']|] eqn:Es; [|done]. intros [= <-]. by eapply s_step.
  - destruct (drainer_step r a) as [r'|] eqn:Es; [|done]. intros [= <-]. by eapply s_drain.
Qed.
Lemma execute_steps l : forall c c', execute l c = Some c' -> rtc step c c'.
Proof.
  induction l as [|x l IH]; intros c c' E; [by injection E as ->|]. cbn in E. destruct (perform x c) as [d|] eqn:Ex; [|done].
  eapply rtc_l; [by eapply perform_step|by apply IH].
Qed.
End Route.
End LocalAsync.

(** ** A route on a concrete run *)
Module LocalAsyncWitness.
Import LocalAsync.
#[local] Instance types : GoTypes := {| rtype := unit; is_interface := fun _ => false; implements := fun _ _ => false; carrier := unit |}.

Definition paid : Metadata :=
  {| md_ID := "0123456789abcdef"; md_Kind := KindEvent; md_Name := "order.paid"; md_SchemaVersion := 1; md_Source := "shop";
     md_Subject := ""; md_Time := 1; md_CorrelationID := zeroID; md_CausationID := zeroID; md_Key := "";
     md_ContentType := "application/json"; md_Schema := ""; md_Headers := ∅; md_NotBefore := 0; md_ExpiresAt := 0 |}.

(** The route serves a message and is asked to shut down by [2]; the delivery [3]
    arrives meanwhile. *)
Definition serving : list action :=
  [Call 0 (RunEntry true); Do 0 (AErr None); Call 1 (DeliverEntry true (Some paid)); Do 1 ANone; Do 1 (ANow 5);
   Call 2 (ShutEntry true); Do 2 ANone; Do 2 ANone; Do 2 ANone; Call 3 (DeliverEntry true (Some paid))].
Definition ending : list action :=
  [Do 1 (AErr None); Do 1 (ANow 6); Do 3 ANone; Do 2 ANone; Drain ANone; Drain (AErr None); Do 2 ANone; Drain ANone; Drain ANone;
   Do 0 ANone; Do 2 ANone; Do 2 ANone].
Definition served : LocalAsyncRoute * gmap nat pc := default (route0 "jobs", ∅) (execute serving (route0 "jobs", ∅)).
Definition ended : LocalAsyncRoute * gmap nat pc := default served (execute ending served).

Lemma served_steps : rtc step (route0 "jobs", ∅) served.
Proof. apply (execute_steps serving). vm_compute. reflexivity. Qed.
Lemma ended_steps : rtc step served ended.
Proof. apply (execute_steps ending). vm_compute. reflexivity. Qed.

(** The message accepted before the drain is in the log, the other one is not. *)
Lemma local_async_lifecycle_witness :
  la_log ended.1 = [EvStart None; EvSubmit 1 paid None; EvShutdown; EvStopped None; EvClosed] /\ 3%nat ∉ submitters (la_log ended.1).
Proof.
  split; [vm_compute; reflexivity|]. destruct served as [r T] eqn:E1. destruct ended as [r' T'] eqn:E2.
  pose proof served_steps as H1. pose proof ended_steps as H2. rewrite E1 in H1, H2. rewrite E2 in H2.
  assert (la_draining served.1 = true /\ outside 3 served.2) as [Hd Ho] by (vm_compute; split; [reflexivity|exact I]). rewrite E1 in Hd, Ho.
  destruct (local_async_lifecycle "jobs" r T H1) as (_ & _ & _ & _ & _ & Hl). exact (proj2 (Hl r' T' H2 Hd) 3%nat Ho).
Defined.

(** [Shutdown] answers nil, and the queue's shutdown returned nil. *)
Lemma local_async_answers_witness :
  ended.2 !! 2%nat = Some (Returned (ReplyShutdown None)) /\ drain_events (la_log ended.1) = [EvShutdown; EvStopped None; EvClosed] /\
  la_closed ended.1 = true.
Proof.
  assert (ended.2 !! 2%nat = Some (Returned (ReplyShutdown None))) as E by (vm_compute; reflexivity). split; [exact E|].
  destruct ended as [r T] eqn:Ee. assert (reachable "jobs" (r, T)) as Hr by (rewrite <- Ee; unfold reachable; etransitivity; [exact served_steps|exact ended_steps]).
  exact (proj2 (local_async_answers "jobs" r T 2%nat (ReplyShutdown None) Hr E)).
Defined.
End LocalAsyncWitness.
