(* ===== verification/RuntimeInv.v ===== *)
(** * The runtime's invariants

    Three invariants of the reachable configurations of [Runtime]: the state of
    [drainOnce] and the calls of [BeginDrain] of the services ([once_inv]), the
    owner of the lifecycle with the calls of [Run] and [Shutdown] of the services
    ([owner_inv]), and what the results received so far say about a call that
    will return nil ([result_inv]).  Each is stated on the part of the state it
    speaks of, so that a step that does not touch this part keeps it. *)
From S2P Require Import Prelude GoStrings Errors Runtime.
From Stdlib Require Import Ascii.
Import Runtime.

Module RuntimeInv.

(** ** [drainOnce] *)

(** The call of [beginDrain] a goroutine is in. *)
Definition drain_of (p : pc) : option dpc :=
  match p with
  | RunDrain d _ _ | DrainOnly d | ShutDrain d _ => Some d
  | _ => None
  end.
(** Inside [drainOnce.Do]. *)
Definition inside (d : dpc) : bool :=
  match d with
  | DSet | DCall _ _ | DStore _ | DCancel _ _ | DClose => true
  | _ => false
  end.
Definition inside_of (p : pc) : option dpc :=
  match drain_of p with
  | Some d => if inside d then Some d else None
  | None => None
  end.
(** The goroutine has returned from [drainOnce.Do]. *)
Definition past_once (p : pc) : bool :=
  match p with
  | RunDrain (DRead | DReturned _) _ _ | DrainOnly (DRead | DReturned _)
  | ShutDrain (DRead | DReturned _) _ => true
  | RunJoin _ _ | RunCollect _ _ | RunStop _ _ | RunStore _ | RunMark _ | RunClose _
  | ShutStop _ _ | ShutStore _ | ShutMark _ | ShutClose _ | Returned MBeginDrain _ => true
  | _ => false
  end.

Record drain_view := {
  dv_once : once;
  dv_drain : nat;
  dv_err : option error;
  dv_calls : list (list (option error)) }.
Definition view_drain (r : Runtime) : drain_view :=
  {| dv_once := r_drainOnce r; dv_drain := r_drain r; dv_err := r_drainErr r;
     dv_calls := List.map sv_drains (r_services r) |}.

(** The first services have been asked to drain, once each, with results [errs]. *)
Definition drained_upto (errs : list (option error)) (calls : list (list (option error))) : Prop :=
  (List.length errs <= List.length calls)%nat /\
  forall j c, calls !! j = Some c -> c = match errs !! j with Some e => [e] | None => [] end.
Definition drained_all (v : drain_view) (errs : list (option error)) : Prop :=
  List.length errs = List.length (dv_calls v) /\ drained_upto errs (dv_calls v).

Definition inside_ok (d : dpc) (v : drain_view) : Prop :=
  match d with
  | DSet => drained_upto [] (dv_calls v)
  | DCall i errs => i = List.length errs /\ drained_upto errs (dv_calls v)
  | DStore errs => drained_all v errs
  | DCancel _ _ | DClose => exists errs, drained_all v errs /\ dv_err v = errors_join errs
  | _ => False
  end.

Definition nobody_inside (T : threads) : Prop := forall t p, T !! t = Some p -> inside_of p = None.

Definition once_ok (v : drain_view) (T : threads) : Prop :=
  match dv_once v with
  | OnceIdle => nobody_inside T /\ dv_drain v = 0%nat /\ drained_upto [] (dv_calls v)
  | OnceRunning t0 =>
      (exists p0 d0, T !! t0 = Some p0 /\ inside_of p0 = Some d0 /\ inside_ok d0 v) /\
      dv_drain v = 0%nat /\
      (forall t p, T !! t = Some p -> t <> t0 -> inside_of p = None)
  | OnceDone =>
      nobody_inside T /\ dv_drain v = 1%nat /\
      exists errs, drained_all v errs /\ dv_err v = errors_join errs
  end.
Definition once_inv (v : drain_view) (T : threads) : Prop :=
  once_ok v T /\ forall t p, T !! t = Some p -> past_once p = true -> dv_once v = OnceDone.

(** *** Preservation *)
Lemma insert_threads_cases (T : threads) t p t' q :
  <[t := p]> T !! t' = Some q -> (t' = t /\ q = p) \/ (t' <> t /\ T !! t' = Some q).
Proof. rewrite lookup_insert_Some. naive_solver. Qed.

Ltac at_threads H :=
  apply insert_threads_cases in H; destruct H as [[-> ->]|[? H]].

(** A goroutine that moves outside the region of [drainOnce]. *)
Lemma once_inv_move v T t p' :
  once_inv v T ->
  (forall p, T !! t = Some p -> inside_of p = None) ->
  inside_of p' = None ->
  (past_once p' = true -> dv_once v = OnceDone) ->
  once_inv v (<[t := p']> T).
Proof.
  intros [Hok Hpast] Hp Hp' Hnew. split.
  - unfold once_ok in *. case_goal.
    + destruct Hok as (Hn & ? & ?). split_and!; auto. intros t' q Hq. at_threads Hq; eauto.
    + destruct Hok as ((p0 & d0 & H0 & Hi & Hok) & ? & Ho). split_and!; auto.
      * exists p0, d0. split_and!; auto. rewrite lookup_insert_ne; [done|].
        intros ->. specialize (Hp _ H0). congruence.
      * intros t' q Hq Hne. at_threads Hq; eauto.
    + destruct Hok as (Hn & ? & ?). split_and!; auto. intros t' q Hq. at_threads Hq; eauto.
  - intros t' q Hq Hpq. at_threads Hq; eauto.
Qed.

(** The goroutine inside [drainOnce.Do] goes on. *)
Lemma once_inv_inside v v' T t p d p' d' :
  once_inv v T -> T !! t = Some p -> inside_of p = Some d ->
  inside_of p' = Some d' -> past_once p' = false ->
  dv_once v' = dv_once v -> dv_drain v' = dv_drain v ->
  (inside_ok d v -> inside_ok d' v') ->
  once_inv v' (<[t := p']> T).
Proof.
  intros [Hok Hpast] Hp Hi Hi' Hnp Ho Hd Hstep. split.
  - unfold once_ok in *. rewrite Ho, Hd. case_goal.
    + destruct Hok as (Hn & _). specialize (Hn _ _ Hp). congruence.
    + destruct Hok as ((p0 & d0 & H0 & Hi0 & Hok) & ? & Hothers).
      destruct (decide (t = t0)) as [->|Hne]; [|specialize (Hothers _ _ Hp Hne); congruence].
      simplify_eq. split_and!; auto.
      * exists p', d'. rewrite lookup_insert_eq. auto.
      * intros t' q Hq Hne. at_threads Hq; eauto. congruence.
    + destruct Hok as (Hn & _). specialize (Hn _ _ Hp). congruence.
  - intros t' q Hq Hpq. rewrite Ho. at_threads Hq; eauto. congruence.
Qed.

Lemma once_inv_enter v v' T t p p' :
  once_inv v T -> T !! t = Some p -> inside_of p' = Some DSet -> past_once p' = false ->
  dv_once v = OnceIdle -> dv_once v' = OnceRunning t -> dv_drain v' = dv_drain v -> dv_calls v' = dv_calls v ->
  once_inv v' (<[t := p']> T).
Proof.
  intros [Hok Hpast] Hp Hi' Hnp Ho Ho' Hd Hc. unfold once_ok in Hok. rewrite Ho in Hok.
  destruct Hok as (Hn & Hdr & Hu). split.
  - unfold once_ok. rewrite Ho', Hd. split_and!; auto.
    + exists p', DSet. rewrite lookup_insert_eq. split_and!; auto. simpl. by rewrite Hc.
    + intros t' q Hq Hne. at_threads Hq; eauto. congruence.
  - intros t' q Hq Hpq. at_threads Hq; [congruence|]. specialize (Hpast _ _ Hq Hpq). congruence.
Qed.

Lemma once_inv_leave v v' T t p p' :
  once_inv v T -> T !! t = Some p -> inside_of p = Some DClose -> inside_of p' = None ->
  dv_once v' = OnceDone -> dv_drain v' = S (dv_drain v) -> dv_calls v' = dv_calls v -> dv_err v' = dv_err v ->
  once_inv v' (<[t := p']> T).
Proof.
  intros [Hok Hpast] Hp Hi Hi' Ho Hd Hc He. split; [|by intros].
  unfold once_ok in *. rewrite Ho. case_in Hok.
  - destruct Hok as (Hn & _). specialize (Hn _ _ Hp). congruence.
  - destruct Hok as ((p0 & d0 & H0 & Hi0 & Hok) & Hd0 & Hothers).
    destruct (decide (t = t0)) as [->|Hne]; [|specialize (Hothers _ _ Hp Hne); congruence].
    simplify_eq. split_and!; [|congruence|].
    + intros t' q Hq. at_threads Hq; eauto.
    + unfold inside_ok in Hok. unfold drained_all in *. by rewrite Hc, He.
  - destruct Hok as (Hn & _). specialize (Hn _ _ Hp). congruence.
Qed.

Lemma drained_upto_snoc errs e calls :
  (List.length errs < List.length calls)%nat -> drained_upto errs calls ->
  drained_upto (errs ++ [e]) (<[List.length errs := [e]]> calls).
Proof.
  intros Hlt [Hle Hu]. split; [rewrite length_app, length_insert; simpl; lia|].
  intros j c Hj. destruct (decide (j = List.length errs)) as [->|Hne].
  - rewrite list_lookup_insert_eq in Hj by done. rewrite lookup_app_r, Nat.sub_diag by lia. simpl. congruence.
  - rewrite list_lookup_insert_ne in Hj by congruence. rewrite (Hu _ _ Hj).
    destruct (decide (j < List.length errs)%nat) as [Hl|Hl].
    + by rewrite lookup_app_l.
    + rewrite (lookup_ge_None_2 errs) by lia. rewrite lookup_ge_None_2; [done|]. rewrite length_app. simpl. lia.
Qed.

Lemma map_insert {A B} (f : A -> B) (l : list A) i x :
  List.map f (<[i := x]> l) = <[i := f x]> (List.map f l).
Proof. apply list_fmap_insert. Qed.
Lemma map_lookup {A B} (f : A -> B) (l : list A) i : List.map f l !! i = f <$> l !! i.
Proof. apply list_lookup_fmap. Qed.
Lemma map_insert_same {A B} (f : A -> B) (l : list A) i x y :
  l !! i = Some y -> f x = f y -> List.map f (<[i := x]> l) = List.map f l.
Proof. intros Hl Hf. rewrite map_insert, Hf. apply list_insert_id. rewrite map_lookup, Hl. done. Qed.
Lemma map_map_same {A B} (f : A -> B) (g : A -> A) l :
  (forall x, f (g x) = f x) -> List.map f (List.map g l) = List.map f l.
Proof. intros H. rewrite List.map_map. apply List.map_ext, H. Qed.

(** The step of a goroutine inside [drainOnce.Do], up to what it does to the calls. *)
Ltac inside_case :=
  match goal with
  | Hinv : once_inv _ _, HT : _ !! _ = Some _, HI : forall d, inside_of _ = _, HP : forall d, past_once _ = _ |- _ =>
      eapply once_inv_inside;
        [exact Hinv|exact HT|by rewrite HI|by rewrite HI|by rewrite HP|reflexivity|reflexivity|simpl]
  end.

(** [beginDrain] in a context [W] of one of the three callers. *)
Lemma once_inv_dstep T t W d r d' r' :
  (forall d, drain_of (W d) = Some d) ->
  (forall d, past_once (W d) = match d with DRead | DReturned _ => true | _ => false end) ->
  once_inv (view_drain r) T -> T !! t = Some (W d) -> dstep t d r d' r' ->
  once_inv (view_drain r') (<[t := W d']> T).
Proof.
  intros HW HP Hinv HT Hd.
  assert (forall d, inside_of (W d) = if inside d then Some d else None) as HI
    by (intros d0; unfold inside_of; by rewrite HW).
  destruct Hd.
  - eapply once_inv_enter; eauto; by rewrite ?HI, ?HP.
  - apply once_inv_move; auto; intros; simplify_eq; by rewrite HI.
  - inside_case. by split.
  - inside_case. intros [-> Hu].
    rewrite length_app. simpl. split; [lia|]. rewrite map_insert. simpl.
    assert (List.map sv_drains (r_services r) !! List.length errs = Some (sv_drains s)) as Hl
      by (rewrite map_lookup, H; done).
    pose proof (proj2 Hu _ _ Hl) as Hs. rewrite (lookup_ge_None_2 errs) in Hs by lia. rewrite Hs.
    apply drained_upto_snoc; [|done]. by apply lookup_lt_Some in Hl.
  - inside_case. intros [-> Hu].
    split; [|done]. apply lookup_ge_None in H. destruct Hu as [Hle _]. simpl in *.
    rewrite length_map in *. lia.
  - inside_case. intros Hu. by exists errs.
  - assert (view_drain (if bool_decide (is_Some err) && has then cancel r else r) = view_drain r) as ->
      by (case_goal; done).
    inside_case. done.
  - eapply once_inv_leave; eauto; by rewrite HI.
  - destruct Hinv as [Hok Hpast]. apply once_inv_move; [by split| | |intros _].
    + intros ? ?. simplify_eq. by rewrite HI.
    + by rewrite HI.
    + apply (Hpast _ _ HT). by rewrite HP.
Qed.

(** Every other step keeps the view and stays outside. *)
Lemma once_tstep t p r p' r' :
  tstep t p r p' r' ->
  (exists W d d', p = W d /\ p' = W d' /\ dstep t d r d' r' /\
     (forall d, drain_of (W d) = Some d) /\
     (forall d, past_once (W d) = match d with DRead | DReturned _ => true | _ => false end)) \/
  (view_drain r' = view_drain r /\ inside_of p = None /\ inside_of p' = None /\
   (past_once p' = true -> past_once p = true)).
Proof.
  intros H. step_cases H;
    try (left; first
      [ exists (fun d => RunDrain d runErr graceful), d, d'; by split_and!
      | exists DrainOnly, d, d'; by split_and!
      | exists (fun d => ShutDrain d has), d, d'; by split_and! ]);
    right; (split_and!; [|try done..]); try reflexivity;
    unfold view_drain; cbn.
  all: try (case_goal; reflexivity).
  all: try (rewrite map_map_same by done; reflexivity).
  all: try (erewrite map_insert_same by (eauto; done); reflexivity).
  all: unfold close_done; case_goal; reflexivity.
Qed.

Lemma once_inv_view v v' T : v' = v -> once_inv v T -> once_inv v' T.
Proof. by intros ->. Qed.

Lemma is_entry_outside p : is_entry p = true -> inside_of p = None /\ past_once p = false.
Proof. destruct p; try done. by destruct d. Qed.

Lemma once_inv_step c c' :
  step c c' -> once_inv (view_drain c.1) c.2 -> once_inv (view_drain c'.1) c'.2.
Proof.
  intros Hs Hinv. destruct Hs; cbn in *.
  - apply is_entry_outside in H0 as [Hi Hp]. apply once_inv_move; auto; [|congruence].
    intros ? ?; congruence.
  - apply once_tstep in H0 as [(W & d & d' & -> & -> & Hd & HW & HP)|(Hv & Hi & Hi' & Hp)].
    + by eapply once_inv_dstep.
    + rewrite Hv. apply once_inv_move; auto.
      * intros ? ?. congruence.
      * intros Hp'. destruct Hinv as [_ Hpast]. eauto.
  - eapply once_inv_view; [|exact Hinv]. unfold view_drain. cbn.
    by erewrite map_insert_same by (eauto; done).
  - done.
Qed.

(** ** The owner of the lifecycle *)

(** How far the owner is: the workers not started, the services not shut down,
    [shutdownServices] called, the state closed. *)
Inductive phase : Set := Start | Early | Late | Marked.
#[global] Instance phase_eq_dec : EqDecision phase.
Proof. solve_decision. Defined.

Definition owner (p : pc) : option phase :=
  match p with
  | RunStart => Some Start
  | RunSelect | RunReceived _ _ | RunJudge _ _ _ | RunStopped _ | RunDrain _ _ _ | RunJoin _ _
  | RunCollect _ _ | ShutDrain _ false => Some Early
  | RunStop _ _ | RunStore _ | RunMark _ | ShutStop _ _ | ShutStore _ | ShutMark _ => Some Late
  | RunClose _ | ShutClose _ => Some Marked
  | _ => None
  end.

Record own_view := {
  ov_state : runtimeState;
  ov_run : bool;
  ov_shut : bool;
  ov_done : nat;
  ov_close : bool;
  ov_runs : list nat;
  ov_stops : list nat }.
Definition view_own (r : Runtime) : own_view :=
  {| ov_state := r_state r; ov_run := r_runCancel r; ov_shut := r_shutdownStarted r;
     ov_done := r_done r; ov_close := r_closeOnce r;
     ov_runs := List.map sv_runs (r_services r);
     ov_stops := List.map (fun s => List.length (sv_shutdowns s)) (r_services r) |}.

Definition all (n : nat) (l : list nat) : Prop := Forall (eq n) l.

(** The goroutine that owns the lifecycle, if there is one. *)
Definition owners (T : threads) (o : option (nat * phase)) : Prop :=
  forall t, T !! t ≫= owner =
    match o with Some (t', ph) => if decide (t = t') then Some ph else None | None => None end.

Definition running_or_draining (s : runtimeState) : Prop := s = runtimeRunning \/ s = runtimeDraining.

Definition phase_ok (ph : phase) (v : own_view) : Prop :=
  match ph with
  | Start => ov_run v = true /\ running_or_draining (ov_state v) /\ all 0 (ov_stops v)
  | Early => running_or_draining (ov_state v) /\ all 0 (ov_stops v)
  | Late => running_or_draining (ov_state v) /\ all 1 (ov_stops v)
  | Marked => ov_state v = runtimeClosed /\ all 1 (ov_stops v)
  end.

Definition unowned_ok (v : own_view) : Prop :=
  if ov_run v || ov_shut v
  then ov_state v = runtimeClosed /\ ov_done v = 1%nat /\ ov_close v = true /\ all 1 (ov_stops v)
  else (ov_state v = runtimeNew \/ ov_state v = runtimeDraining) /\ ov_done v = 0%nat /\
       ov_close v = false /\ all 0 (ov_stops v).

(** How often every service has been run. *)
Definition runs_of (o : option (nat * phase)) (v : own_view) : nat :=
  match o with
  | Some (_, Start) => 0
  | _ => if ov_run v then 1 else 0
  end.

Definition owner_ok (o : option (nat * phase)) (v : own_view) : Prop :=
  ov_run v && ov_shut v = false /\ all (runs_of o v) (ov_runs v) /\
  match o with
  | None => unowned_ok v
  | Some (_, ph) => ov_run v || ov_shut v = true /\ ov_done v = 0%nat /\ ov_close v = false /\ phase_ok ph v
  end.

Definition owner_inv (v : own_view) (T : threads) : Prop := exists o, owners T o /\ owner_ok o v.

(** *** Who owns after a step *)
Lemma owners_set T o t p p' :
  owners T o -> T !! t = Some p ->
  (owner p' = owner p -> owners (<[t := p']> T) o) /\
  (forall ph, owner p = Some ph -> o = Some (t, ph) /\
     (forall ph', owner p' = Some ph' -> owners (<[t := p']> T) (Some (t, ph'))) /\
     (owner p' = None -> owners (<[t := p']> T) None)) /\
  (forall ph', o = None -> owner p' = Some ph' -> owners (<[t := p']> T) (Some (t, ph'))).
Proof.
  intros Ho Ht. pose proof (Ho t) as Hto. rewrite Ht in Hto. simpl in Hto.
  assert (forall t', t' <> t -> <[t := p']> T !! t' = T !! t') as Hne
    by (intros; by rewrite lookup_insert_ne by congruence).
  split_and!.
  - intros He t'. destruct (decide (t' = t)) as [->|Hn].
    + rewrite lookup_insert_eq. simpl. by rewrite He.
    + by rewrite Hne.
  - intros ph Hph. destruct o as [[t0 ph0]|]; [|congruence].
    case_decide as D; [|congruence]. subst t0. rewrite Hph in Hto. injection Hto as <-. split_and!; [done| |].
    + intros ph' Hp' t'. case_decide as D; [subst; by rewrite lookup_insert_eq|].
      rewrite Hne, Ho by done. by rewrite decide_False.
    + intros Hp' t'. destruct (decide (t' = t)) as [->|Hn]; [by rewrite lookup_insert_eq|].
      rewrite Hne by done. rewrite Ho. by rewrite decide_False.
  - intros ph' -> Hp' t'. case_decide as D; [subst; by rewrite lookup_insert_eq|].
    rewrite Hne by done. apply Ho.
Qed.

Lemma owners_new T o t p : owners T o -> T !! t = None -> owner p = None -> owners (<[t := p]> T) o.
Proof.
  intros Ho Ht Hp t'. destruct (decide (t' = t)) as [->|Hn].
  - rewrite lookup_insert_eq. simpl. rewrite Hp. specialize (Ho t). by rewrite Ht in Ho.
  - by rewrite lookup_insert_ne by congruence.
Qed.

(** A goroutine that keeps its phase, in a step that keeps the view. *)
Lemma owner_inv_keep v T t p p' :
  owner_inv v T -> T !! t = Some p -> owner p' = owner p -> owner_inv v (<[t := p']> T).
Proof. intros (o & Ho & Hok) Ht He. exists o. split; [|done]. by apply (owners_set T o t p p'). Qed.

(** The owner goes on to its next phase. *)
Lemma owner_inv_advance v v' T t p p' ph ph' :
  owner_inv v T -> T !! t = Some p -> owner p = Some ph -> owner p' = Some ph' ->
  ov_run v' = ov_run v -> ov_shut v' = ov_shut v -> ov_done v' = ov_done v -> ov_close v' = ov_close v ->
  (all (runs_of (Some (t, ph)) v) (ov_runs v) -> phase_ok ph v ->
   all (runs_of (Some (t, ph')) v') (ov_runs v') /\ phase_ok ph' v') ->
  owner_inv v' (<[t := p']> T).
Proof.
  intros (o & Ho & Hok) Ht Hp Hp' Hr Hs Hd Hc Hph.
  destruct (owners_set T o t p p' Ho Ht) as (_ & Hset & _).
  destruct (Hset _ Hp) as (-> & Hnext & _). exists (Some (t, ph')). split; [by apply Hnext|].
  destruct Hok as (Hx & Hall & Howned & Hdone & Hclose & Hok). destruct (Hph Hall Hok) as [H1 H2].
  split_and!; try congruence.
Qed.

(** [DSet]: only the state changes, towards draining. *)
Lemma owner_inv_set v v' T t p p' :
  owner_inv v T -> T !! t = Some p -> owner p' = owner p ->
  v' = {| ov_state := if decide (ov_state v = runtimeClosed) then runtimeClosed else runtimeDraining;
          ov_run := ov_run v; ov_shut := ov_shut v; ov_done := ov_done v; ov_close := ov_close v;
          ov_runs := ov_runs v; ov_stops := ov_stops v |} ->
  owner_inv v' (<[t := p']> T).
Proof.
  intros (o & Ho & Hx & Hall & Hok) Ht He ->. exists o. split; [by apply (owners_set T o t p p')|].
  split_and!; [done|by destruct o as [[? []]|]|].
  unfold unowned_ok, phase_ok, running_or_draining in *.
  destruct (decide (ov_state v = runtimeClosed)); destruct o as [[t0 ph]|]; cbn.
  1, 3: destruct Hok as (? & ? & ? & Hok); split_and!; auto; destruct ph; intuition congruence.
  all: case_goal; intuition congruence.
Qed.

(** A runtime nobody owns yet is taken. *)
Lemma owner_inv_claim v v' T t p p' ph :
  owner_inv v T -> T !! t = Some p -> owner p' = Some ph ->
  ov_state v = runtimeNew \/ (ov_state v <> runtimeClosed /\ ov_run v = false /\ ov_shut v = false) ->
  ov_run v' || ov_shut v' = true ->
  ov_done v' = ov_done v -> ov_close v' = ov_close v -> ov_runs v' = ov_runs v ->
  runs_of (Some (t, ph)) v' = 0%nat ->
  (ov_run v = false -> ov_shut v = false -> all 0 (ov_stops v) ->
   ov_run v' && ov_shut v' = false /\ phase_ok ph v') ->
  owner_inv v' (<[t := p']> T).
Proof.
  intros (o & Ho & Hx & Hall & Hok) Ht Hp Hst Howned Hd Hc Hr Hr0 Hph.
  assert (o = None /\ ov_run v = false /\ ov_shut v = false) as (-> & Hrun & Hshut).
  { destruct o as [[t0 ph0]|].
    - exfalso. destruct Hok as (Hown & _ & _ & Hok). destruct Hst as [Hst|(Hst & Hr1 & Hr2)];
        [|by rewrite Hr1, Hr2 in Hown].
      unfold phase_ok, running_or_draining in Hok. rewrite Hst in Hok. destruct ph0; intuition congruence.
    - unfold unowned_ok in Hok. destruct Hst as [Hst|(Hst & ? & ?)]; [|done].
      destruct (ov_run v), (ov_shut v); simpl in Hok; intuition congruence. }
  unfold unowned_ok in Hok. simpl in Hall. rewrite Hrun, Hshut in *.
  destruct Hok as (_ & Hd0 & Hc0 & Hs0).
  exists (Some (t, ph)). split; [by apply (owners_set T None t p p')|].
  destruct (Hph eq_refl eq_refl Hs0) as [Hx' Hph'].
  split; [done|]. split; [by rewrite Hr, Hr0|]. do 3 (split; [congruence|]). done.
Qed.

(** The owner closes [done] and returns. *)
Lemma owner_inv_close v v' T t p p' :
  owner_inv v T -> T !! t = Some p -> owner p = Some Marked -> owner p' = None ->
  (ov_close v = false ->
   v' = {| ov_state := ov_state v; ov_run := ov_run v; ov_shut := ov_shut v; ov_done := S (ov_done v);
           ov_close := true; ov_runs := ov_runs v; ov_stops := ov_stops v |}) ->
  owner_inv v' (<[t := p']> T).
Proof.
  intros (o & Ho & Hx & Hall & Hok) Ht Hp Hp' Hv.
  destruct (owners_set T o t p p' Ho Ht) as (_ & Hset & _). destruct (Hset _ Hp) as (-> & _ & Hnone).
  destruct Hok as (Hown & Hd & Hc & Hst & Hs). rewrite (Hv Hc).
  exists None. split; [by apply Hnone|]. split_and!; auto.
  unfold unowned_ok. cbn. rewrite Hown. split_and!; auto.
Qed.

Lemma all_map {A} (f g : A -> nat) n m l :
  (forall x, f x = n -> g x = m) -> all n (List.map f l) -> all m (List.map g l).
Proof.
  intros H. unfold all. rewrite !List.Forall_map. intros Hl.
  eapply List.Forall_impl; [|exact Hl]. intros x Hx. symmetry. auto.
Qed.

Lemma length_answer err s :
  List.length (sv_shutdowns s) = 1%nat -> List.length (sv_shutdowns (answer_Shutdown err s)) = 1%nat.
Proof. simpl. by destruct (sv_shutdowns s) as [|? []]. Qed.

Lemma all_insert {A} (f : A -> nat) n l i x y :
  l !! i = Some y -> (f y = n -> f x = n) -> all n (List.map f l) -> all n (List.map f (<[i := x]> l)).
Proof.
  intros Hl Hf Hall. rewrite map_insert. apply Forall_insert; [done|].
  symmetry. apply Hf. symmetry. eapply (Forall_lookup_1 _ _ i); [exact Hall|]. by rewrite map_lookup, Hl.
Qed.

Lemma own_close_done r :
  r_closeOnce r = false ->
  view_own (close_done r) =
  {| ov_state := ov_state (view_own r); ov_run := ov_run (view_own r); ov_shut := ov_shut (view_own r);
     ov_done := S (ov_done (view_own r)); ov_close := true; ov_runs := ov_runs (view_own r);
     ov_stops := ov_stops (view_own r) |}.
Proof. intros H. unfold close_done. by rewrite H. Qed.

(** [beginDrain] changes the view only where it sets the state. *)
Lemma own_dstep t d r d' r' :
  dstep t d r d' r' ->
  view_own r' = view_own r \/
  view_own r' =
    {| ov_state := if decide (r_state r = runtimeClosed) then runtimeClosed else runtimeDraining;
       ov_run := r_runCancel r; ov_shut := r_shutdownStarted r; ov_done := r_done r; ov_close := r_closeOnce r;
       ov_runs := ov_runs (view_own r); ov_stops := ov_stops (view_own r) |}.
Proof.
  destruct 1; try (left; reflexivity).
  - by right.
  - left. unfold view_own. cbn. by erewrite !map_insert_same by (eauto; done).
  - left. by case_goal.
Qed.

Lemma owner_inv_dstep T t d r d' r' p p' :
  owner_inv (view_own r) T -> T !! t = Some p -> owner p' = owner p -> dstep t d r d' r' ->
  owner_inv (view_own r') (<[t := p']> T).
Proof.
  intros Hinv HT He Hd. destruct (own_dstep _ _ _ _ _ Hd) as [->| Hv].
  - by eapply owner_inv_keep.
  - by eapply owner_inv_set.
Qed.

(** [shutdownServices]: the calls start, and the results arrive. *)
Lemma owner_inv_launch T t p p' r :
  owner_inv (view_own r) T -> T !! t = Some p -> owner p = Some Early -> owner p' = Some Late ->
  owner_inv (view_own (launch r)) (<[t := p']> T).
Proof.
  intros Hinv HT Hp Hp'. eapply owner_inv_advance; eauto; try reflexivity.
  intros Hall [Hst Hs]. cbn. rewrite !List.map_map. split; [done|]. split; [done|].
  eapply all_map; [|exact Hs]. cbn. intros x Hx. rewrite length_app, Hx. done.
Qed.

Lemma owner_inv_receive T t p p' r i s err :
  owner_inv (view_own r) T -> T !! t = Some p -> owner p = Some Late -> owner p' = Some Late ->
  r_services r !! i = Some s ->
  owner_inv (view_own (receive r i s err)) (<[t := p']> T).
Proof.
  intros Hinv HT Hp Hp' Hi. eapply owner_inv_advance; eauto; try reflexivity.
  intros Hall [Hst Hs]. cbn. split.
  - by erewrite map_insert_same by (eauto; done).
  - split; [done|]. eapply all_insert; eauto. apply length_answer.
Qed.

Lemma owner_inv_mark T t p p' r :
  owner_inv (view_own r) T -> T !! t = Some p -> owner p = Some Late -> owner p' = Some Marked ->
  owner_inv (view_own (set_state r runtimeClosed)) (<[t := p']> T).
Proof.
  intros Hinv HT Hp Hp'. eapply owner_inv_advance; eauto; try reflexivity.
  intros Hall [_ Hs]. done.
Qed.

(** Steps that the view does not see. *)
Lemma own_set_worker r i s w :
  r_services r !! i = Some s ->
  view_own (set_services r (<[i := set_worker w s]> (r_services r))) = view_own r.
Proof. intros Hi. unfold view_own. cbn. by erewrite !map_insert_same by (eauto; done). Qed.
Lemma own_cancel r (b : bool) : view_own (if b then cancel r else r) = view_own r.
Proof. by destruct b. Qed.

Lemma owner_inv_tstep T t p r p' r' :
  owner_inv (view_own r) T -> T !! t = Some p -> tstep t p r p' r' ->
  owner_inv (view_own r') (<[t := p']> T).
Proof.
  intros Hinv HT Hs. step_cases Hs;
    try (eapply owner_inv_dstep; eauto; reflexivity);
    try (eapply owner_inv_launch; eauto; reflexivity);
    try (eapply owner_inv_receive; eauto; reflexivity);
    try (eapply owner_inv_keep; eauto; reflexivity).
  - (* run_own *) eapply owner_inv_claim; eauto; try reflexivity.
    cbn. intros _ -> Hs. unfold running_or_draining. auto.
  - (* run_start *) eapply owner_inv_advance; eauto; try reflexivity.
    intros Hall (Hr & Hst & Hs). cbn in *. rewrite Hr, !List.map_map.
    split; [|split; [done|]]; eapply all_map; [|exact Hall| |exact Hs]; cbn; congruence.
  - (* run_result *) rewrite own_set_worker by done. by eapply owner_inv_keep.
  - (* run_drain_done *) rewrite own_cancel. by eapply owner_inv_keep.
  - (* run_collect *) rewrite own_set_worker by done. by eapply owner_inv_keep.
  - by eapply owner_inv_mark.
  - eapply owner_inv_close; eauto. apply own_close_done.
  - (* shut_claim *) eapply owner_inv_claim; eauto; try reflexivity; cbn.
    + by rewrite orb_true_r.
    + by rewrite H0.
    + intros -> _ Hs. unfold running_or_draining. auto.
  - by eapply owner_inv_mark.
  - eapply owner_inv_close; eauto. apply own_close_done.
Qed.

Lemma owner_inv_step c c' :
  step c c' -> owner_inv (view_own c.1) c.2 -> owner_inv (view_own c'.1) c'.2.
Proof.
  intros Hs Hinv. destruct Hs; cbn in *.
  - destruct Hinv as (o & Ho & Hok). exists o. split; [|done]. apply owners_new; auto.
    by destruct p.
  - by eapply owner_inv_tstep.
  - by rewrite own_set_worker.
  - done.
Qed.
End RuntimeInv.
