(* ===== verification/RuntimeResults.v ===== *)
(** * What the results of the runtime say

    The order of the lifecycle ([state_rank], [order_inv]) and the invariant
    [result_inv]: what the owner has seen of the services when the error it will
    return is still nil. *)
From S2P Require Import Prelude GoStrings Errors Runtime RuntimeInv.
From Stdlib Require Import Ascii.
Import Runtime RuntimeInv.

Module RuntimeResults.

(** ** The lifecycle goes forward *)
Definition state_rank (s : runtimeState) : nat :=
  match s with runtimeNew => 0 | runtimeRunning => 1 | runtimeDraining => 2 | runtimeClosed => 3 end.

Lemma state_cancel r (b : bool) : r_state (if b then cancel r else r) = r_state r.
Proof. by destruct b. Qed.
Lemma state_close_done r : r_state (close_done r) = r_state r.
Proof. unfold close_done. by case_goal. Qed.

Lemma rank_dstep t d r d' r' :
  dstep t d r d' r' -> (state_rank (r_state r) <= state_rank (r_state r'))%nat.
Proof. destruct 1; rewrite ?state_cancel; cbn; try lia. case_decide; destruct (r_state r); simpl; congruence || lia. Qed.

Lemma rank_tstep t p r p' r' :
  tstep t p r p' r' -> (state_rank (r_state r) <= state_rank (r_state r'))%nat.
Proof.
  intros Hs. step_cases Hs; rewrite ?state_cancel, ?state_close_done; cbn; eauto using rank_dstep;
    destruct (r_state r); simpl; congruence || lia.
Qed.

Lemma rank_step c c' : step c c' -> (state_rank (r_state c.1) <= state_rank (r_state c'.1))%nat.
Proof. destruct 1; simpl; eauto using rank_tstep. Qed.

(** ** The order of the calls *)

(** The goroutine inside [drainOnce] has set the state. *)
Definition has_set (p : pc) : bool :=
  match inside_of p with
  | Some DSet | None => false
  | Some _ => true
  end.
Definition past_running (s : runtimeState) : Prop := (2 <= state_rank s)%nat.

Definition stopped_any (r : Runtime) : Prop :=
  exists i s, r_services r !! i = Some s /\ sv_shutdowns s <> [].

Definition order_inv (r : Runtime) (T : threads) : Prop :=
  (r_drainOnce r = OnceDone -> past_running (r_state r)) /\
  (forall t p, T !! t = Some p -> has_set p = true -> past_running (r_state r)) /\
  (r_state r = runtimeClosed -> r_drainOnce r = OnceDone) /\
  (stopped_any r -> r_drainOnce r = OnceDone).

(** What a step does to the parts [order_inv] speaks of. *)
Definition order_step (p : pc) (r : Runtime) (p' : pc) (r' : Runtime) : Prop :=
  (r_drainOnce r' = OnceDone -> r_drainOnce r = OnceDone \/ has_set p = true) /\
  (r_drainOnce r = OnceDone -> r_drainOnce r' = OnceDone) /\
  (has_set p' = true -> has_set p = true \/ past_running (r_state r')) /\
  (r_state r' = runtimeClosed -> r_state r = runtimeClosed \/ past_once p = true) /\
  (stopped_any r' -> stopped_any r \/ past_once p = true).

Lemma stopped_any_insert r i s x :
  r_services r !! i = Some s -> sv_shutdowns x = sv_shutdowns s ->
  stopped_any (set_services r (<[i := x]> (r_services r))) -> stopped_any r.
Proof.
  intros Hi Hx (j & y & Hj & Hy). cbn in Hj. apply list_lookup_insert_Some in Hj as [(<- & <- & _)|[_ Hj]].
  - exists i, s. split; congruence.
  - by exists j, y.
Qed.


Lemma stopped_any_same r r' :
  List.map sv_shutdowns (r_services r') = List.map sv_shutdowns (r_services r) -> stopped_any r' -> stopped_any r.
Proof.
  intros He (j & y & Hj & Hy). pose proof (f_equal (fun l => l !! j) He) as Hl. cbn in Hl.
  rewrite !map_lookup, Hj in Hl. destruct (r_services r !! j) as [s|] eqn:Hs; [|done].
  exists j, s. split; [done|]. simpl in Hl. congruence.
Qed.

Lemma shutdowns_cancel r (b : bool) : r_services (if b then cancel r else r) = r_services r.
Proof. by destruct b. Qed.
Lemma once_cancel r (b : bool) : r_drainOnce (if b then cancel r else r) = r_drainOnce r.
Proof. by destruct b. Qed.
Lemma close_done_facts r :
  r_services (close_done r) = r_services r /\ r_drainOnce (close_done r) = r_drainOnce r /\
  r_drainErr (close_done r) = r_drainErr r /\ r_runErr (close_done r) = r_runErr r /\
  r_shutdownErr (close_done r) = r_shutdownErr r.
Proof. unfold close_done. by case_goal. Qed.

Lemma shutdowns_dstep t d r d' r' :
  dstep t d r d' r' -> List.map sv_shutdowns (r_services r') = List.map sv_shutdowns (r_services r).
Proof. destruct 1; rewrite ?shutdowns_cancel; try reflexivity. cbn. by erewrite map_insert_same by (eauto; done). Qed.

Lemma order_dstep t W d r d' r' :
  (forall d, drain_of (W d) = Some d) ->
  dstep t d r d' r' -> order_step (W d) r (W d') r'.
Proof.
  intros HW Hd. unfold order_step, has_set, inside_of. rewrite !HW.
  split_and!.
  - destruct Hd; rewrite ?once_cancel; cbn; auto; discriminate.
  - destruct Hd; rewrite ?once_cancel; cbn; auto; congruence.
  - destruct Hd; cbn; auto. intros _. right. unfold past_running. case_decide; simpl; lia.
  - destruct Hd; rewrite ?state_cancel; cbn; auto. case_decide; auto; discriminate.
  - intros H. left. eapply stopped_any_same; [by eapply shutdowns_dstep|done].
Qed.

Lemma order_tstep t p r p' r' : tstep t p r p' r' -> order_step p r p' r'.
Proof.
  intros Hs. step_cases Hs;
    try (by apply (order_dstep t (fun d => RunDrain d runErr graceful)));
    try (by apply (order_dstep t DrainOnly));
    try (by apply (order_dstep t (fun d => ShutDrain d has)));
    split_and!; rewrite ?once_cancel, ?state_cancel, ?state_close_done;
    try (destruct (close_done_facts r) as (Hsv & Ho & _)); try rewrite ?Ho; cbn; auto; try discriminate.
  - intros Hst. left. eapply stopped_any_same; [|exact Hst]. cbn. by rewrite map_map_same.
  - intros Hst. left. eapply stopped_any_insert; [exact H| |exact Hst]. done.
Qed.

Lemma order_inv_step c c' :
  step c c' -> once_inv (view_drain c.1) c.2 -> order_inv c.1 c.2 -> order_inv c'.1 c'.2.
Proof.
  intros Hs [_ Hpast] (H1 & H2 & H3 & H4). pose proof (rank_step _ _ Hs) as Hrank.
  unfold order_inv, past_running in *. destruct Hs as [r T t p Ht Hp|r T t p p' r' Ht Hs|r T i s o Hi Hw|r T e He Hr]; cbn in *.
  - split_and!; auto. intros t' q Hq. at_threads Hq; [|eauto].
    apply is_entry_outside in Hp as [Hp _]. unfold has_set. by rewrite Hp.
  - destruct (order_tstep _ _ _ _ _ Hs) as (S1 & S2 & S3 & S4 & S5). split_and!.
    + intros Hd. etrans; [|exact Hrank]. destruct (S1 Hd); eauto.
    + intros t' q Hq Hset. at_threads Hq.
      * destruct (S3 Hset) as [Hset0|Hs0]; [|exact Hs0]. etrans; [|exact Hrank]. eauto.
      * etrans; [|exact Hrank]. eauto.
    + intros Hc. destruct (S4 Hc); eauto.
    + intros Hc. destruct (S5 Hc); eauto.
  - split_and!; auto. intros Hst. apply H4. eapply stopped_any_insert; [exact Hi| |exact Hst]. done.
  - split_and!; auto.
Qed.

(** ** Results *)

(** Where the worker of a service is when no result so far was an error of the
    service: running or stopped; stopped; with its result received. *)
Definition going (w : worker) : bool :=
  match w with Active | Exited _ => true | _ => false end.
Definition expected_result (ctxErr : option sentinel) (w : worker) : bool :=
  match w with Collected err => negb (unexpected ctxErr err) | _ => true end.
Definition stopped_worker (w : worker) : bool :=
  match w with Exited _ | Collected _ => true | _ => false end.
Definition ended (w : worker) : bool :=
  match w with Idle | Collected _ => true | _ => false end.

(** The call of [Shutdown] of service [j], as the caller knows it. *)
Definition call_known (received : list call) (j : nat) (s : service) : Prop :=
  exists c, received !! j = Some c /\ sv_shutdowns s = [c].

(** What a goroutine knows of service [j] while its error is nil. *)
Definition service_ok (p : pc) (ctxErr : option sentinel) (j : nat) (s : service) : Prop :=
  let w := sv_worker s in
  match p with
  | RunStart | ShutDrain _ false => w = Idle
  | RunSelect => going w = true
  | RunReceived i err | RunJudge i err _ => if decide (j = i) then w = Collected err else going w = true
  | RunStopped _ | RunDrain _ None _ | RunJoin None _ => expected_result ctxErr w = true
  | RunCollect None _ => stopped_worker w = true /\ expected_result ctxErr w = true
  | RunStop None received => ended w = true /\ expected_result ctxErr w = true /\ call_known received j s
  | ShutStop _ received => w = Idle /\ call_known received j s
  | RunStore None | RunMark None | RunClose None | ShutStore None | ShutMark None | ShutClose None =>
      ended w = true /\ expected_result ctxErr w = true /\ sv_shutdowns s = [Answered None]
  | _ => True
  end.

(** What it knows of the errors stored in the runtime. *)
Definition stored_ok (p : pc) (r : Runtime) : Prop :=
  match p with
  | RunDrain (DReturned e) _ _ | ShutDrain (DReturned e) false | ShutStop e _ => r_drainErr r = e
  | RunJoin None _ | RunCollect None _ | RunStop None _ | RunStore None | ShutStore None => r_drainErr r = None
  | RunMark e | RunClose e | ShutMark e | ShutClose e =>
      r_shutdownErr r = e /\ (e = None -> r_drainErr r = None)
  | _ => True
  end.

Definition services_ok (p : pc) (r : Runtime) : Prop :=
  forall j s, r_services r !! j = Some s -> service_ok p (r_runErr r) j s.
Definition goroutine_ok (p : pc) (r : Runtime) : Prop := services_ok p r /\ stored_ok p r.

(** A closed runtime without an error. *)
Definition clean_end (r : Runtime) : Prop :=
  r_drainErr r = None /\
  forall j s, r_services r !! j = Some s ->
    ended (sv_worker s) = true /\ expected_result (r_runErr r) (sv_worker s) = true /\
    sv_shutdowns s = [Answered None].

Definition closed_nil (r : Runtime) : Prop := r_state r = runtimeClosed /\ r_shutdownErr r = None.

Definition returned_nil (p : pc) : bool :=
  match p with Returned (MRun | MShutdown) None => true | _ => false end.

Definition result_inv (r : Runtime) (T : threads) : Prop :=
  (forall t p, T !! t = Some p -> goroutine_ok p r) /\
  (closed_nil r -> clean_end r) /\
  (forall t p, T !! t = Some p -> returned_nil p = true -> closed_nil r).

(** *** What the others may do to the runtime of the owner *)
Definition worker_next (w w' : worker) : Prop := w' = w \/ (w = Active /\ exists e, w' = Exited e).
Definition others (r r' : Runtime) : Prop :=
  (forall j s', r_services r' !! j = Some s' -> exists s, r_services r !! j = Some s /\
     sv_shutdowns s' = sv_shutdowns s /\ worker_next (sv_worker s) (sv_worker s')) /\
  (r_runErr r = None \/ r_runErr r' = r_runErr r) /\
  r_shutdownErr r' = r_shutdownErr r /\
  (r_drainOnce r = OnceDone -> r_drainErr r' = r_drainErr r).

Lemma unexpected_later e err :
  unexpected None err = false -> unexpected e err = false.
Proof.
  unfold unexpected, isExpectedContextDone. destruct err as [x|]; [|done]. cbn.
  case_goal; [done|]. discriminate.
Qed.

Lemma expected_next e e' w w' :
  e = None \/ e' = e -> worker_next w w' -> expected_result e w = true -> expected_result e' w' = true.
Proof.
  intros He [-> |(-> & x & ->)]; [|done]. destruct w; try done. simpl.
  rewrite !negb_true_iff. destruct He as [-> | ->]; [apply unexpected_later|done].
Qed.

Lemma service_ok_others p e e' j s s' :
  e = None \/ e' = e -> sv_shutdowns s' = sv_shutdowns s -> worker_next (sv_worker s) (sv_worker s') ->
  service_ok p e j s -> service_ok p e' j s'.
Proof.
  intros He Hs Hw.
  assert (ended (sv_worker s) = true -> sv_worker s' = sv_worker s) as Hend
    by (destruct Hw as [? |(-> & _)]; done).
  assert (forall w, ended w = true -> sv_worker s = w -> sv_worker s' = w) as Hend'
    by (intros w ? <-; auto).
  pose proof (expected_next _ _ _ _ He Hw) as Hexp.
  assert (going (sv_worker s) = true -> going (sv_worker s') = true) as Hgo
    by (destruct Hw as [-> |(-> & ? & ->)]; done).
  assert (stopped_worker (sv_worker s) = true -> stopped_worker (sv_worker s') = true) as Hst
    by (destruct Hw as [-> |(-> & ? & ->)]; done).
  assert (ended (sv_worker s) = true -> ended (sv_worker s') = true) as Hed
    by (intros H; by rewrite (Hend H)).
  unfold service_ok, call_known. rewrite Hs.
  destruct p; try done; try (destruct runErr; try done); try (destruct err; try done); try case_goal; auto;
    try (intros (? & ? & ?); by auto); try (intros [? ?]; by auto).
Qed.

Lemma goroutine_ok_others p r r' :
  (past_once p = true -> r_drainOnce r = OnceDone) -> others r r' -> goroutine_ok p r -> goroutine_ok p r'.
Proof.
  intros Hpast (Hsv & Hctx & Hse & Hde) [Hok Hst]. split.
  - intros j s' Hj. destruct (Hsv _ _ Hj) as (s & Hs & Hsh & Hw). eapply service_ok_others; eauto.
  - unfold stored_ok in *. rewrite Hse.
    destruct p; try done; try (destruct d; try done); try (destruct runErr; try done);
      try (destruct runCancel; try done); try (destruct err; try done);
      try (rewrite Hde by (apply Hpast; reflexivity); done).
Qed.

Lemma goroutine_ok_plain p r : owner p = None -> goroutine_ok p r.
Proof. intros H. split; [intros j s _|]; destruct p; try done; try by destruct runCancel. by destruct d, runCancel. Qed.

Lemma worker_next_refl w : worker_next w w.
Proof. by left. Qed.

Lemma others_same r r' :
  r_services r' = r_services r -> r_runErr r = None \/ r_runErr r' = r_runErr r ->
  r_shutdownErr r' = r_shutdownErr r -> (r_drainOnce r = OnceDone -> r_drainErr r' = r_drainErr r) -> others r r'.
Proof. intros Hs ? ? ?. split_and!; auto. rewrite Hs. intros j s Hj. exists s. auto using worker_next_refl. Qed.

Lemma others_refl r : others r r.
Proof. by apply others_same; auto. Qed.

Lemma others_insert r i s x :
  r_services r !! i = Some s -> sv_shutdowns x = sv_shutdowns s -> worker_next (sv_worker s) (sv_worker x) ->
  others r (set_services r (<[i := x]> (r_services r))).
Proof.
  intros Hi Hsh Hw. split_and!; auto. cbn. intros j s' Hj.
  apply list_lookup_insert_Some in Hj as [(<- & <- & _)|[_ Hj]]; [by exists s|].
  exists s'. auto using worker_next_refl.
Qed.

Lemma others_end_context r e : others r (end_context r e).
Proof. apply others_same; auto. cbn. destruct (r_runErr r); auto. Qed.
Lemma others_cancel r (b : bool) : others r (if b then cancel r else r).
Proof. destruct b; [apply others_end_context|apply others_refl]. Qed.

Lemma others_dstep t d r d' r' :
  (inside d = true -> r_drainOnce r <> OnceDone) -> dstep t d r d' r' -> others r r'.
Proof.
  intros Hin Hd. destruct Hd; auto using others_refl, others_cancel;
    try (by apply others_same; auto).
  - by eapply others_insert; eauto using worker_next_refl.
  - apply others_same; auto. intros Ho. by destruct (Hin eq_refl).
Qed.

Lemma others_tstep t p r p' r' :
  (forall d, inside_of p = Some d -> r_drainOnce r <> OnceDone) ->
  owner p = None -> owner p' = None -> tstep t p r p' r' -> others r r'.
Proof.
  intros Hin Ho Ho' Hs. step_cases Hs; try discriminate; auto using others_refl, others_end_context.
  - eapply others_dstep; eauto. unfold inside_of in Hin. cbn in Hin. intros Hi. rewrite Hi in Hin. eauto.
  - destruct has; [|discriminate]. eapply others_dstep; eauto.
    unfold inside_of in Hin. cbn in Hin. intros Hi. rewrite Hi in Hin. eauto.
  - apply others_end_context.
Qed.

Lemma clean_end_others r r' :
  r_drainOnce r = OnceDone -> others r r' -> clean_end r -> clean_end r'.
Proof.
  intros Hd (Hsv & Hctx & _ & Hde) [He Hc]. split; [by rewrite Hde|].
  intros j s' Hj. destruct (Hsv _ _ Hj) as (s & Hs & Hsh & Hw). destruct (Hc _ _ Hs) as (H1 & H2 & H3).
  assert (sv_worker s' = sv_worker s) as Hws by (destruct Hw as [? |(Hw & _)]; [done|by rewrite Hw in H1]).
  split_and!; [by rewrite Hws| |congruence]. eapply expected_next; eauto.
Qed.

(** *** The steps of the owner *)
Lemma errors_join_nil l : errors_join l = None -> Forall (eq None) l.
Proof. unfold errors_join. induction l as [|[e|] l IH]; simpl; try done. intros H. constructor; auto. Qed.

Lemma errors_join2_nil a b : errors_join [a; b] = None -> a = None /\ b = None.
Proof. destruct a, b; done. Qed.

Lemma service_error_some label e err : unexpected e err = true -> exists x, service_error label err = Some x.
Proof. unfold unexpected. destruct err as [x|]; [by eexists|done]. Qed.

Lemma shutdown_result_nil ends received :
  shutdown_result ends received None -> Forall (eq (Answered None)) received.
Proof.
  intros H. remember None as res eqn:He in H. destruct H as [Hall|e Hall Hc].
  - apply errors_join_nil in He. rewrite List.Forall_map in He.
    rewrite List.forallb_forall in Hall. rewrite List.Forall_forall in *. intros c Hc.
    specialize (Hall _ Hc). specialize (He _ Hc). destruct c as [|[err|]]; done.
  - by apply errors_join2_nil in He as [_ ?].
Qed.

Lemma services_ok_impl p r p' :
  services_ok p r -> (forall e j s, service_ok p e j s -> service_ok p' e j s) -> services_ok p' r.
Proof. intros H Himp j s Hj. apply Himp. by apply H. Qed.

Lemma going_expected e w : going w = true -> expected_result e w = true.
Proof. by destruct w. Qed.

(** Receiving the result of worker [i]. *)
Lemma services_ok_insert p p' r i s x :
  r_services r !! i = Some s -> services_ok p r ->
  service_ok p' (r_runErr r) i x ->
  (forall j y, j <> i -> service_ok p (r_runErr r) j y -> service_ok p' (r_runErr r) j y) ->
  services_ok p' (set_services r (<[i := x]> (r_services r))).
Proof.
  intros Hi Hok Hx Himp j y Hj. cbn in Hj. apply list_lookup_insert_Some in Hj as [(<- & <- & _)|[Hne Hj]]; [done|].
  apply Himp; [congruence|]. by apply Hok.
Qed.

(** The calls of [Shutdown] start. *)
Lemma services_ok_launch p p' r :
  services_ok p r -> (forall j s, r_services r !! j = Some s -> sv_shutdowns s = []) ->
  (forall j s, r_services r !! j = Some s -> service_ok p (r_runErr r) j s ->
     call_known (nothing_received r) j (call_Shutdown s) -> service_ok p' (r_runErr r) j (call_Shutdown s)) ->
  services_ok p' (launch r).
Proof.
  intros Hok Hnone Himp j y Hj. cbn in Hj. rewrite map_lookup in Hj.
  destruct (r_services r !! j) as [s|] eqn:Hs; [|done]. injection Hj as <-.
  apply Himp; auto. exists Pending. cbn. rewrite (Hnone _ _ Hs). split; [|done].
  apply lookup_replicate_2. by eapply lookup_lt_Some.
Qed.

(** [beginDrain] of the owner: the services as the others leave them, and the
    error it returns is the stored one. *)
Lemma goroutine_ok_drain t W d r d' r' :
  (forall e d d' j s, service_ok (W d) e j s -> service_ok (W d') e j s) ->
  (forall d, stored_ok (W d) r' \/ exists e, d = DReturned e) ->
  (stored_ok (W (DReturned (r_drainErr r'))) r') ->
  (inside d = true -> r_drainOnce r <> OnceDone) ->
  services_ok (W d) r -> dstep t d r d' r' -> goroutine_ok (W d') r'.
Proof.
  intros HW Hst Hret Hin Hok Hd. split.
  - intros j s' Hj. destruct (others_dstep _ _ _ _ _ Hin Hd) as (Hsv & Hctx & _).
    destruct (Hsv _ _ Hj) as (s & Hs & Hsh & Hw). eapply service_ok_others; eauto.
  - destruct (Hst d') as [?|[e ->]]; [done|]. inversion Hd; subst; done.
Qed.

Lemma sv_receive received i s err j (y : service) :
  (j <> i -> call_known received j y -> call_known (<[i := Answered err]> received) j y) /\
  (received !! i = Some Pending -> call_known received i s ->
   call_known (<[i := Answered err]> received) i (answer_Shutdown err s)).
Proof.
  split.
  - intros Hne (c & Hc & Hs). exists c. by rewrite list_lookup_insert_ne by congruence.
  - intros Hp (c & Hc & Hs). exists (Answered err). cbn. rewrite Hs.
    rewrite list_lookup_insert_eq by (by eapply lookup_lt_Some). done.
Qed.

Lemma call_known_answered received j s :
  Forall (eq (Answered None)) received -> call_known received j s -> sv_shutdowns s = [Answered None].
Proof. intros Hall (c & Hc & ->). by rewrite <- (Forall_lookup_1 _ _ _ _ Hall Hc). Qed.

Lemma worker_stopped_spec svs j s :
  forallb worker_stopped svs = true -> svs !! j = Some s -> stopped_worker (sv_worker s) = true.
Proof.
  intros H Hj. rewrite List.forallb_forall in H. apply (H s).
  apply list_elem_of_In. by eapply list_elem_of_lookup_2.
Qed.
Lemma result_waiting_spec svs j s :
  existsb result_waiting svs = false -> svs !! j = Some s ->
  stopped_worker (sv_worker s) = true -> ended (sv_worker s) = true.
Proof.
  intros H Hj Hst. destruct (sv_worker s) eqn:E; try done.
  assert (existsb result_waiting svs = true); [|congruence].
  apply List.existsb_exists. exists s. unfold result_waiting. rewrite E. split; [|done].
  apply list_elem_of_In. by eapply list_elem_of_lookup_2.
Qed.

(** A step of the context is seen by nobody's services. *)
Lemma services_ok_cancel r q (b : bool) : services_ok q r -> services_ok q (if b then cancel r else r).
Proof.
  intros H j s Hj. destruct b; [|by apply H].
  destruct (others_end_context r Canceled) as (Hsv & Hctx & _). destruct (Hsv _ _ Hj) as (x & Hx & ? & ?).
  eapply service_ok_others; eauto.
Qed.

Section OwnSteps.
Context (t : nat) (p : pc) (r : Runtime).
Hypothesis Hin : forall d, inside_of p = Some d -> r_drainOnce r <> OnceDone.
Hypothesis Hpast : past_once p = true -> r_drainOnce r = OnceDone.
Hypothesis Hstops : owner p = Some Early -> forall j s, r_services r !! j = Some s -> sv_shutdowns s = [].
Hypothesis Hok : goroutine_ok p r.

Lemma own_select p' r' : tstep t p r p' r' ->
  match p with RunStart | RunSelect | RunReceived _ _ | RunJudge _ _ _ | RunStopped _ => True | _ => False end ->
  goroutine_ok p' r'.
Proof.
  intros Hs Hp. destruct Hok as [Hsv Hst]. clear Hok. step_cases Hs; try done; (split; [|done]).
  - intros j s Hj. cbn in Hj. rewrite map_lookup in Hj.
    destruct (r_services r !! j) as [x|]; [|done]. by injection Hj as <-.
  - eapply services_ok_impl; [exact Hsv|]. intros *. apply going_expected.
  - eapply services_ok_impl; [exact Hsv|]. intros *. apply going_expected.
  - eapply services_ok_insert; [exact H|exact Hsv| |].
    + cbn. by rewrite decide_True.
    + intros j y Hne. cbn. by rewrite decide_False.
  - destruct (unexpected (r_runErr r) err) eqn:E.
    + by destruct (service_error_some "messenger: service during drain" _ _ E) as [x ->].
    + intros j y Hj. specialize (Hsv _ _ Hj). cbn in *. case_decide; [|by apply going_expected].
      rewrite Hsv. cbn. by rewrite E.
  - by destruct (service_error_some "messenger: service" _ _ H) as [x ->].
  - intros j y Hj. specialize (Hsv _ _ Hj). cbn in *. case_decide; [|by apply going_expected].
    rewrite Hsv. cbn. by rewrite H.
  - by case_goal.
Qed.

Lemma own_join p' r' : tstep t p r p' r' ->
  match p with RunDrain _ _ _ | RunJoin _ _ | RunCollect _ _ => True | _ => False end ->
  goroutine_ok p' r'.
Proof.
  intros Hs Hp. destruct Hok as [Hsv Hst]. step_cases Hs; try done.
  - eapply (goroutine_ok_drain t (fun d => RunDrain d runErr graceful)); eauto.
    + intros []; cbn; eauto.
    + done.
    + intros Hi. eapply Hin. unfold inside_of. cbn. by rewrite Hi.
  - cbn in Hst. destruct drainErr as [e|]; [by destruct runErr|].
    split; [|by destruct runErr, graceful]. cbn.
    destruct runErr; [done|]. rewrite orb_false_r. by apply services_ok_cancel.
  - destruct runErr; [by split|]. split; [|done]. intros j s Hj. specialize (Hsv _ _ Hj).
    split; [|done]. by eapply worker_stopped_spec.
  - by destruct runErr.
  - destruct (unexpected (r_runErr r) err) eqn:E.
    { destruct (service_error_some (if graceful then "messenger: service during drain" else "messenger: service")
        _ _ E) as [x ->]. by destruct runErr. }
    destruct runErr; [by split|]. split; [|done].
    eapply services_ok_insert; [exact H|exact Hsv| |done]. cbn. by rewrite E.
  - destruct runErr; [by split|]. split; [|done].
    apply (services_ok_launch (RunCollect None graceful)); [done|by apply Hstops|].
    intros j s Hj [H1 H2] H3. split_and!; auto. exact (result_waiting_spec _ _ _ H Hj H1).
Qed.

Lemma own_stop p' r' : tstep t p r p' r' ->
  match p with RunStop _ _ | RunStore _ | RunMark _ | RunClose _ => True | _ => False end ->
  goroutine_ok p' r'.
Proof.
  intros Hs Hp. destruct Hok as [Hsv Hst]. step_cases Hs; try done.
  - destruct runErr; [by split|]. split; [|done].
    eapply services_ok_insert; [exact H0|exact Hsv| |].
    + destruct (Hsv _ _ H0) as (H1 & H2 & H3). split_and!; auto. by apply sv_receive.
    + intros j y Hne (H1 & H2 & H3). split_and!; auto. by apply sv_receive.
  - destruct (errors_join [runErr; err]) eqn:E; [by split|].
    apply errors_join2_nil in E as [-> ->]. apply shutdown_result_nil in H. split; [|done].
    apply (services_ok_cancel _ _ true). eapply services_ok_impl; [exact Hsv|].
    intros e j s (H1 & H2 & H3). split_and!; auto. by eapply call_known_answered.
  - split; [by destruct err|]. split; [done|]. intros ->. done.
Qed.

Lemma own_shutdown p' r' : tstep t p r p' r' ->
  match p with ShutDrain _ false | ShutStop _ _ | ShutStore _ | ShutMark _ | ShutClose _ => True | _ => False end ->
  goroutine_ok p' r'.
Proof.
  intros Hs Hp. destruct Hok as [Hsv Hst]. step_cases Hs; try done.
  - destruct has; [done|]. eapply (goroutine_ok_drain t (fun d => ShutDrain d false)); eauto.
    + intros []; cbn; eauto.
    + done.
    + intros Hi. eapply Hin. unfold inside_of. cbn. by rewrite Hi.
  - split; [|done]. apply (services_ok_launch (ShutDrain (DReturned err) false)); [done|by apply Hstops|done].
  - split; [|done].
    eapply services_ok_insert; [exact H0|exact Hsv| |].
    + destruct (Hsv _ _ H0) as (H1 & H2). split_and!; auto. by apply sv_receive.
    + intros j y Hne (H1 & H2). split_and!; auto. by apply sv_receive.
  - destruct (errors_join [drainErr; err]) eqn:E; [by split|].
    apply errors_join2_nil in E as [-> ->]. apply shutdown_result_nil in H. split; [|done].
    eapply services_ok_impl; [exact Hsv|].
    intros e j s (H1 & H2). cbn. rewrite H1. split_and!; auto. by eapply call_known_answered.
  - split; [by destruct err|]. split; [done|]. intros ->. done.
Qed.
End OwnSteps.
End RuntimeResults.
