(* ===== verification/RuntimeReach.v ===== *)
(** * The runtime's reachable configurations

    Puts the invariants together: [runtime_inv] holds in every reachable
    configuration, whatever the goroutines, the services and the scheduler do. *)
From S2P Require Import Prelude GoStrings Errors Runtime RuntimeInv RuntimeResults.
From Stdlib Require Import Ascii.
Import Runtime RuntimeInv RuntimeResults.

Module RuntimeReach.

(** A service that was never run has no worker. *)
Definition idle_inv (r : Runtime) : Prop :=
  forall j s, r_services r !! j = Some s -> sv_runs s = 0%nat -> sv_worker s = Idle.

Definition runtime_inv (c : Runtime * threads) : Prop :=
  once_inv (view_drain c.1) c.2 /\ owner_inv (view_own c.1) c.2 /\ order_inv c.1 c.2 /\
  idle_inv c.1 /\ result_inv c.1 c.2.

(** ** What the invariants give to one step *)
Lemma inside_not_done v T t p d :
  once_inv v T -> T !! t = Some p -> inside_of p = Some d -> dv_once v <> OnceDone.
Proof.
  intros [Hok _] Ht Hi He. unfold once_ok in Hok. rewrite He in Hok. destruct Hok as [Hn _].
  specialize (Hn _ _ Ht). congruence.
Qed.

Lemma owner_facts v T t p ph :
  owner_inv v T -> T !! t = Some p -> owner p = Some ph ->
  phase_ok ph v /\ (forall t' q, t' <> t -> T !! t' = Some q -> owner q = None).
Proof.
  intros (o & Ho & _ & _ & Hok) Ht Hp. destruct (owners_set T o t p p Ho Ht) as (_ & Hset & _).
  destruct (Hset _ Hp) as (-> & _). split; [by destruct Hok as (_ & _ & _ & Hok)|].
  intros t' q Hne Hq. specialize (Ho t'). rewrite Hq, decide_False in Ho by done. done.
Qed.

Lemma owner_not_closed r T t p ph :
  owner_inv (view_own r) T -> T !! t = Some p -> owner p = Some ph -> ph <> Marked -> r_state r <> runtimeClosed.
Proof.
  intros Hinv Ht Hp Hph. destruct (owner_facts _ _ _ _ _ Hinv Ht Hp) as [Hok _].
  unfold phase_ok, running_or_draining in Hok. cbn in Hok. destruct ph; intuition congruence.
Qed.

(** [done] is closed only when the runtime is. *)
Lemma done_closed r T : owner_inv (view_own r) T -> (0 < r_done r)%nat -> r_state r = runtimeClosed.
Proof.
  intros (o & _ & _ & _ & Hok) Hd. destruct o as [[t ph]|].
  - destruct Hok as (_ & Hd0 & _). cbn in Hd0. lia.
  - unfold unowned_ok in Hok. cbn in Hok. case_in Hok; [tauto|]. destruct Hok as (_ & Hd0 & _). lia.
Qed.

(** The services of a runtime that nobody has started. *)
Lemma unstarted_idle r T :
  owner_inv (view_own r) T -> idle_inv r -> r_state r = runtimeNew \/ r_runCancel r = false ->
  forall j s, r_services r !! j = Some s -> sv_worker s = Idle.
Proof.
  intros (o & _ & Hx & Hruns & Hok) Hidle Hst j s Hj. apply (Hidle _ _ Hj).
  assert (runs_of o (view_own r) = 0%nat) as H0.
  { destruct Hst as [Hst|Hst]; [|destruct o as [[? []]|]; cbn; by rewrite ?Hst].
    destruct o as [[? ph]|].
    - destruct Hok as (_ & _ & _ & Hok). unfold phase_ok, running_or_draining in Hok. cbn in Hok.
      rewrite Hst in Hok. destruct ph; intuition congruence.
    - unfold unowned_ok in Hok. cbn in *. rewrite Hst in Hok.
      destruct (r_runCancel r); simpl in Hok; intuition congruence. }
  rewrite H0 in Hruns. symmetry. eapply (Forall_lookup_1 _ _ j); [exact Hruns|].
  cbn. by rewrite map_lookup, Hj.
Qed.

Lemma early_unstopped r T t p :
  owner_inv (view_own r) T -> T !! t = Some p -> owner p = Some Early ->
  forall j s, r_services r !! j = Some s -> sv_shutdowns s = [].
Proof.
  intros Hinv Ht Hp j s Hj. destruct (owner_facts _ _ _ _ _ Hinv Ht Hp) as [[_ Hs] _].
  apply length_zero_iff_nil. symmetry. eapply (Forall_lookup_1 _ _ j); [exact Hs|].
  cbn. by rewrite map_lookup, Hj.
Qed.

(** ** The worker of a service that was never run *)
Lemma idle_inv_step c c' : step c c' -> idle_inv c.1 -> idle_inv c'.1.
Proof.
  assert (forall r r', map sv_runs (r_services r') = map sv_runs (r_services r) ->
    map sv_worker (r_services r') = map sv_worker (r_services r) -> idle_inv r -> idle_inv r') as Hsame.
  { intros r r' Hr Hw Hinv j s' Hj H0.
    apply (f_equal (fun l => l !! j)) in Hr, Hw. rewrite !map_lookup, Hj in Hr. rewrite !map_lookup, Hj in Hw.
    destruct (r_services r !! j) as [s|] eqn:Hs; [|done].
    injection Hr as Hr. injection Hw as Hw. rewrite Hw. apply (Hinv _ _ Hs). congruence. }
  assert (forall r i s w, r_services r !! i = Some s -> sv_worker s <> Idle -> idle_inv r ->
    idle_inv (set_services r (<[i := set_worker w s]> (r_services r)))) as Hset.
  { intros r i s w Hi Hw Hinv j x Hj H0. cbn in Hj.
    apply list_lookup_insert_Some in Hj as [(<- & <- & _)|[_ Hj]]; [|by eapply Hinv].
    destruct Hw. by apply (Hinv _ _ Hi). }
  assert (forall r i s e, r_services r !! i = Some s -> idle_inv r -> idle_inv (receive r i s e)) as Hanswer.
  { intros r i s e Hi. apply Hsame; cbn; by rewrite (map_insert_same _ _ _ _ _ Hi). }
  assert (forall t d r d' r', dstep t d r d' r' -> idle_inv r -> idle_inv r') as Hd.
  { intros t d r d' r' Hd. destruct Hd; auto; try (apply Hsame; cbn; erewrite map_insert_same by (eauto; done); done).
    by case_goal. }
  intros Hs. destruct Hs as [r T t p Ht Hp|r T t p p' r' Ht Hs|r T i s o Hi Hw|r T e He Hr]; cbn in *; auto.
  - step_cases Hs; try exact (fun H => H); try (by eapply Hd);
      try (apply Hsame; cbn; [rewrite map_map_same by done|rewrite map_map_same by done]; reflexivity).
    + intros _ j s Hj. cbn in Hj. rewrite map_lookup in Hj. destruct (r_services r !! j); [|done].
      by injection Hj as <-.
    + apply Hset; congruence.
    + by case_goal.
    + apply Hset; congruence.
    + by apply Hanswer.
    + apply Hsame; by destruct (close_done_facts r) as (-> & _).
    + by apply Hanswer.
    + apply Hsame; by destruct (close_done_facts r) as (-> & _).
  - apply Hset; congruence.
Qed.

(** ** Results *)

(** Who closes the state, and who stores the final error. *)
Lemma closes t p r p' r' :
  tstep t p r p' r' -> r_state r' = runtimeClosed ->
  r_state r = runtimeClosed \/ exists e, (p = RunMark e \/ p = ShutMark e) /\ r' = set_state r runtimeClosed.
Proof.
  intros Hs. step_cases Hs; rewrite ?state_cancel, ?state_close_done; cbn; auto; try discriminate; eauto.
  all: destruct H; rewrite ?state_cancel; cbn; auto; case_decide; auto; discriminate.
Qed.

Lemma stores t p r p' r' :
  tstep t p r p' r' -> r_shutdownErr r' = r_shutdownErr r \/ owner p = Some Late.
Proof.
  intros Hs. step_cases Hs; auto; left; try (by case_goal);
    try (by destruct (close_done_facts r) as (_ & _ & _ & _ & ->)).
  all: destruct H; try done; by case_goal.
Qed.

(** Only a claim makes an owner. *)
Lemma claims t p r p' r' :
  tstep t p r p' r' -> owner p = None -> owner p' <> None ->
  (p' = RunStart \/ exists d, p' = ShutDrain d false) /\ (r_state r = runtimeNew \/ r_runCancel r = false) /\
  r_services r' = r_services r /\ stored_ok p' r'.
Proof.
  intros Hs. step_cases Hs; try done; cbn; try by destruct has.
  - intros. split_and!; auto.
  - intros. split_and!; eauto.
Qed.

(** A call that returns nil. *)
Lemma returns_nil t p r p' r' T :
  owner_inv (view_own r) T -> T !! t = Some p -> goroutine_ok p r ->
  tstep t p r p' r' -> returned_nil p' = true -> closed_nil r'.
Proof.
  intros Hinv Ht [_ Hst] Hs. step_cases Hs; try discriminate; cbn; unfold closed_nil.
  - destruct err; [done|]. intros _. rewrite state_close_done.
    destruct (close_done_facts r) as (_ & _ & _ & _ & ->).
    destruct (owner_facts _ _ _ _ _ Hinv Ht eq_refl) as [[Hc _] _]. by destruct Hst.
  - by destruct (r_shutdownErr r).
  - destruct (r_shutdownErr r); [done|]. by split; [eapply done_closed|].
  - destruct (r_shutdownErr r); [done|]. by split; [eapply done_closed|].
  - destruct err; [done|]. intros _. rewrite state_close_done.
    destruct (close_done_facts r) as (_ & _ & _ & _ & ->).
    destruct (owner_facts _ _ _ _ _ Hinv Ht eq_refl) as [[Hc _] _]. by destruct Hst.
Qed.

Section ResultStep.
Context (T : threads) (t : nat) (p : pc) (r : Runtime) (p' : pc) (r' : Runtime).
Hypothesis Honce : once_inv (view_drain r) T.
Hypothesis Howner : owner_inv (view_own r) T.
Hypothesis Howner' : owner_inv (view_own r') (<[t := p']> T).
Hypothesis Horder : order_inv r T.
Hypothesis Hidle : idle_inv r.
Hypothesis Hres : result_inv r T.
Hypothesis Ht : T !! t = Some p.
Hypothesis Hstep : tstep t p r p' r'.

Lemma step_inside d : inside_of p = Some d -> r_drainOnce r <> OnceDone.
Proof. apply (inside_not_done _ _ _ _ _ Honce Ht). Qed.
Lemma step_past q t' : T !! t' = Some q -> past_once q = true -> r_drainOnce r = OnceDone.
Proof. destruct Honce as [_ H]. apply H. Qed.

Lemma step_own : goroutine_ok p' r'.
Proof.
  destruct Hres as (Hok & _). specialize (Hok _ _ Ht).
  destruct (owner p') as [ph'|] eqn:Hp'; [|by apply goroutine_ok_plain].
  destruct (owner p) as [ph|] eqn:Hp.
  - pose proof step_inside as Hin. pose proof (step_past _ _ Ht) as Hpast.
    pose proof (early_unstopped _ _ _ _ Howner Ht) as Hstops.
    destruct p; try discriminate;
      first [ by eapply own_select | by eapply own_join | by eapply own_stop
            | by eapply own_shutdown
            | destruct runCancel; [discriminate|by eapply own_shutdown] ].
  - destruct (claims _ _ _ _ _ Hstep Hp) as (Hc & Hu & Hsv & Hst); [congruence|]. split; [|done].
    intros j s Hj. rewrite Hsv in Hj. pose proof (unstarted_idle _ _ Howner Hidle Hu _ _ Hj) as Hw.
    destruct Hc as [-> |(d & ->)]; exact Hw.
Qed.

Lemma step_quiet : owner p = None -> owner p' = None -> others r r'.
Proof. intros Hp Hp'. exact (others_tstep _ _ _ _ _ step_inside Hp Hp' Hstep). Qed.

Lemma step_others t' q : t' <> t -> T !! t' = Some q -> goroutine_ok q r'.
Proof.
  intros Hne Hq. destruct Hres as (Hok & _).
  destruct (owner p) as [ph|] eqn:Hp.
  { apply goroutine_ok_plain. by eapply (owner_facts _ _ _ _ _ Howner Ht Hp). }
  destruct (owner p') as [ph'|] eqn:Hp'.
  { apply goroutine_ok_plain. eapply (owner_facts _ _ t _ _ Howner'); [by rewrite lookup_insert_eq|done|done|].
    by rewrite lookup_insert_ne. }
  eapply goroutine_ok_others; [by eapply step_past|by apply step_quiet|eauto].
Qed.

Lemma step_closed_nil : closed_nil r -> closed_nil r'.
Proof.
  intros [Hc He]. split.
  - pose proof (rank_tstep _ _ _ _ _ Hstep) as Hr. rewrite Hc in Hr. destruct (r_state r'); simpl in Hr; done || lia.
  - destruct (stores _ _ _ _ _ Hstep) as [->|Hl]; [done|].
    by destruct (owner_not_closed _ _ _ _ _ Howner Ht Hl).
Qed.

Lemma step_clean : closed_nil r' -> clean_end r'.
Proof.
  intros [Hc He]. destruct Hres as (Hok & Hclean & _).
  destruct (closes _ _ _ _ _ Hstep Hc) as [Hcl|(e & Hp & Hr')].
  - destruct (owner p) as [ph|] eqn:Hp.
    + destruct (decide (ph = Marked)) as [->|Hm]; [|by destruct (owner_not_closed _ _ _ _ _ Howner Ht Hp)].
      assert (exists m e, p' = Returned m e /\ r' = close_done r) as (m & e & _ & Hr')
        by (pose proof Hstep as Hs; step_cases Hs; try discriminate; eauto; by destruct has).
      subst r'. destruct (close_done_facts r) as (Hs & _ & Hd & Hctx & Hse).
      unfold clean_end. rewrite Hs, Hd, Hctx. apply Hclean. split; congruence.
    + destruct (owner p') as [ph'|] eqn:Hp'.
      * exfalso. destruct (claims _ _ _ _ _ Hstep Hp) as (Hcl' & _); [congruence|].
        eapply (owner_not_closed _ _ t p' _ Howner'); [by rewrite lookup_insert_eq|exact Hp'| |done].
        destruct Hcl' as [-> |(d & ->)]; simpl in Hp'; congruence.
      * pose proof (step_quiet Hp Hp') as Ho. eapply clean_end_others; [|exact Ho|].
        -- destruct Horder as (_ & _ & H & _). auto.
        -- apply Hclean. split; [done|]. destruct Ho as (_ & _ & <- & _). done.
  - subst r'. cbn in He. destruct (Hok _ _ Ht) as [Hsv Hst].
    destruct Hp as [-> | ->]; cbn in Hst; destruct Hst as [Hst Hd]; rewrite He in Hst; subst e; (split; [auto|exact Hsv]).
Qed.
End ResultStep.

Lemma result_inv_step c c' : step c c' -> runtime_inv c -> owner_inv (view_own c'.1) c'.2 -> result_inv c'.1 c'.2.
Proof.
  intros Hs (Honce & Howner & Horder & Hidle & Hres) Howner'.
  assert (r_state c.1 = runtimeClosed -> r_drainOnce c.1 = OnceDone) as Hcd by (apply Horder).
  assert (forall r', others c.1 r' -> r_state r' = r_state c.1 -> c'.1 = r' -> c'.2 = c.2 -> result_inv r' c.2) as Hoth.
  { intros r' Ho Hst _ _. destruct Hres as (Hok & Hcl & Hret). pose proof Ho as (_ & _ & Hse & _). split_and!.
    - intros t p Ht. eapply goroutine_ok_others; [|exact Ho|eauto]. eapply step_past; eauto.
    - intros [Hc He]. eapply clean_end_others; [|exact Ho|]; [apply Hcd; congruence|].
      apply Hcl. split; congruence.
    - intros t p Ht Hp. destruct (Hret _ _ Ht Hp). split; congruence. }
  destruct Hs as [r T t p Ht Hp|r T t p p' r' Ht Hs|r T i s o Hi Hw|r T e He Hr]; cbn in *.
  - destruct Hres as (Hok & Hcl & Hret). split_and!; auto; intros t' q Hq; at_threads Hq; eauto.
    + apply goroutine_ok_plain. by destruct p.
    + by destruct p.
  - split_and!.
    + intros t' q Hq. at_threads Hq; [by eapply step_own|]. by eapply (step_others T t p r p' r').
    + by eapply (step_clean T t p r p' r').
    + intros t' q Hq Hnil. pose proof Hres as (Hok & _ & Hret). at_threads Hq.
      * exact (returns_nil _ _ _ _ _ _ Howner Ht (Hok _ _ Ht) Hs Hnil).
      * eapply step_closed_nil; [exact Howner|exact Ht|exact Hs|eauto].
  - apply Hoth; auto. eapply others_insert; eauto. right. eauto.
  - apply Hoth; auto. apply others_end_context.
Qed.

Lemma runtime_inv_step c c' : step c c' -> runtime_inv c -> runtime_inv c'.
Proof.
  intros Hs Hinv. pose proof Hinv as (Honce & Howner & Horder & Hidle & Hres).
  pose proof (owner_inv_step _ _ Hs Howner) as Howner'.
  split_and!; eauto using once_inv_step, order_inv_step, idle_inv_step, result_inv_step.
Qed.

Lemma newRuntime_service ids j s : r_services (newRuntime ids) !! j = Some s -> exists id, s = idle_service id.
Proof. cbn. rewrite map_lookup. destruct (_ !! j); [|done]. intros [= <-]. eauto. Qed.

Lemma all_idle (f : service -> nat) l : (forall id, f (idle_service id) = 0%nat) -> all 0 (map f (map idle_service l)).
Proof. intros H. unfold all. rewrite !List.Forall_map. apply List.Forall_forall. intros. by rewrite H. Qed.

Lemma runtime_inv_init ids : runtime_inv (newRuntime ids, ∅).
Proof.
  split_and!.
  - split; [|intros ? ? ?; by simplify_map_eq]. split; [intros ? ? ?; by simplify_map_eq|]. split; [done|].
    split; [simpl; lia|]. intros j c Hj. cbn in Hj. rewrite !map_lookup in Hj.
    destruct (merge_sort id_le ids !! j); [|done]. by injection Hj as <-.
  - exists None. split; [done|].
    split_and!; [done|by apply all_idle|]. unfold unowned_ok. cbn. split_and!; auto. by apply all_idle.
  - split; [done|]. split; [done|]. split; [done|].
    intros (j & s & Hs & Hne). by apply newRuntime_service in Hs as [id ->].
  - intros j s Hs. by apply newRuntime_service in Hs as [id ->].
  - split; [done|]. split; [by intros [? ?]|done].
Qed.

(** The invariants hold in every reachable configuration. *)
Lemma reachable_inv ids c : reachable ids c -> runtime_inv c.
Proof.
  apply (rtc_ind_r runtime_inv); [apply runtime_inv_init|].
  intros c1 c2 _ Hs. by apply runtime_inv_step.
Qed.
End RuntimeReach.
