(* ===== verification/RuntimeTheorems.v ===== *)
(** * What the runtime promises

    The theorems about [runtime.go], for every reachable configuration: the
    calls of the services, the meaning of a nil result, the direction of the
    lifecycle, the length of a call and the absence of deadlocks. *)
From S2P Require Import Prelude GoStrings Errors Runtime RuntimeInv RuntimeResults RuntimeReach.
From Stdlib Require Import Ascii.
Import Stdlib.Strings.String.
Import Runtime RuntimeInv RuntimeResults RuntimeReach.
Open Scope string_scope.

Module RuntimeTheorems.

(** ** The length of a call *)

(** Steps of [beginDrain] that are left, with [n] services. *)
Definition drain_left (n : nat) (d : dpc) : nat :=
  match d with
  | DEntry => n + 7
  | DSet => n + 6
  | DCall i _ => n - i + 5
  | DStore _ => 4
  | DCancel _ _ => 3
  | DClose => 2
  | DRead => 1
  | DReturned _ => 0
  end.

Definition not_collected (s : service) : bool :=
  match sv_worker s with Collected _ => false | _ => true end.
Definition count {A} (f : A -> bool) (l : list A) : nat := List.length (List.filter f l).
#[global] Arguments count : simpl never.
Definition pending (received : list call) : nat := count (fun c => negb (answered c)) received.

(** Steps of a call that are left. *)
Definition steps_left (p : pc) (r : Runtime) : nat :=
  let n := List.length (r_services r) in
  let u := count not_collected (r_services r) in
  match p with
  | RunEntry _ => 3 * n + 20
  | RunStart => 3 * n + 19
  | RunSelect => 2 * n + u + 18
  | RunReceived _ _ => 2 * n + u + 17
  | RunJudge _ _ _ => 2 * n + u + 16
  | RunStopped _ => 2 * n + u + 15
  | RunDrain d _ _ => n + u + 7 + drain_left n d
  | RunJoin _ _ => n + u + 6
  | RunCollect _ _ => n + u + 5
  | RunStop _ received | ShutStop _ received => pending received + 4
  | RunStore _ | ShutStore _ => 3
  | RunMark _ | ShutMark _ => 2
  | RunClose _ | ShutClose _ => 1
  | DrainOnly d => drain_left n d + 1
  | ShutEntry _ => 2 * n + 13
  | ShutAwait | ShutWait => 1
  | ShutDrain d _ => n + 5 + drain_left n d
  | ProbeEntry _ _ => 3
  | ProbeCheck _ => 2
  | ProbeExit _ _ => 1
  | Returned _ _ => 0
  end.

Lemma count_le {A} (f : A -> bool) l : (count f l <= List.length l)%nat.
Proof. apply List.filter_length_le. Qed.

Lemma count_insert {A} (f : A -> bool) l i x y :
  l !! i = Some y -> (count f (<[i := x]> l) + (if f y then 1 else 0) = count f l + (if f x then 1 else 0))%nat.
Proof.
  revert i. unfold count. induction l as [|a l IH]; intros [|i] Hi; try done; simpl in *.
  - injection Hi as ->. destruct (f x), (f y); simpl; lia.
  - specialize (IH _ Hi). destruct (f a); simpl; lia.
Qed.

Lemma count_insert_same {A} (f : A -> bool) l i x y :
  l !! i = Some y -> f x = f y -> count f (<[i := x]> l) = count f l.
Proof. intros Hi Hf. pose proof (count_insert f l i x y Hi) as H. rewrite Hf in H. lia. Qed.

Lemma count_map {A} (f : A -> bool) (g : A -> A) l : (forall x, f (g x) = f x) -> count f (List.map g l) = count f l.
Proof. intros H. unfold count. induction l as [|a l IH]; [done|]. simpl. rewrite H. destruct (f a); simpl; congruence. Qed.

Lemma length_cancel r (b : bool) : r_services (if b then cancel r else r) = r_services r.
Proof. by destruct b. Qed.

(** The services seen by the measure. *)
Lemma drain_left_step t d r d' r' :
  dstep t d r d' r' ->
  List.length (r_services r') = List.length (r_services r) /\
  count not_collected (r_services r') = count not_collected (r_services r) /\
  (drain_left (List.length (r_services r)) d' < drain_left (List.length (r_services r)) d)%nat.
Proof.
  intros Hd. destruct Hd; rewrite ?length_cancel; cbn; try (split_and!; auto; lia).
  - rewrite length_insert. split_and!; auto.
    + by eapply count_insert_same.
    + apply lookup_lt_Some in H. lia.
Qed.

Lemma pending_nothing r : (pending (nothing_received r) <= List.length (r_services r))%nat.
Proof.
  unfold pending, nothing_received. etrans; [apply count_le|]. by rewrite length_replicate.
Qed.
Lemma pending_receive received i e :
  received !! i = Some Pending -> (S (pending (<[i := Answered e]> received)) = pending received)%nat.
Proof. intros H. pose proof (count_insert (fun c => negb (answered c)) _ _ (Answered e) _ H) as Hc. unfold pending. cbn in Hc. lia. Qed.
Lemma collect_one svs i s err e :
  svs !! i = Some s -> sv_worker s = Exited err ->
  (S (count not_collected (<[i := set_worker (Collected e) s]> svs)) = count not_collected svs)%nat.
Proof.
  intros Hi Hw. pose proof (count_insert not_collected _ _ (set_worker (Collected e) s) _ Hi) as Hc.
  unfold not_collected at 2 4 in Hc. cbn in Hc. rewrite Hw in Hc. lia.
Qed.

Lemma own_step_decreases t p r p' r' :
  tstep t p r p' r' -> (steps_left p' r' < steps_left p r)%nat.
Proof.
  intros Hs. step_cases Hs;
    try (apply drain_left_step in H as (Hn & Hu & Hd); cbn; rewrite Hn, ?Hu; lia);
    pose proof (count_le not_collected (r_services r)) as Hle; cbn; rewrite ?length_cancel, ?length_insert; try lia;
    try (pose proof (pending_nothing r); lia);
    try (pose proof (pending_receive _ _ (shutdown_service (sv_id s) o) H); lia);
    try (pose proof (collect_one _ _ _ _ err H H0); lia).
  rewrite length_map. pose proof (count_le not_collected (List.map start_worker (r_services r))) as Hle'.
  rewrite length_map in Hle'. lia.
Qed.

(** *** What a step of somebody else does *)
Lemma services_step t p r p' r' :
  tstep t p r p' r' ->
  List.length (r_services r') = List.length (r_services r) /\
  ((count not_collected (r_services r') <= count not_collected (r_services r))%nat \/ owner p = Some Start).
Proof.
  intros Hs. step_cases Hs; auto;
    try (apply drain_left_step in H as (Hn & Hu & Hd); rewrite Hn, Hu; auto);
    rewrite ?length_cancel; cbn; rewrite ?length_insert, ?length_map; auto;
    try (destruct (close_done_facts r) as (-> & _); by auto); split; auto; left;
    try (pose proof (collect_one _ _ _ _ err H H0); lia).
  - by rewrite count_map.
  - apply Nat.eq_le_incl. by eapply count_insert_same.
  - by rewrite count_map.
  - apply Nat.eq_le_incl. by eapply count_insert_same.
Qed.

Lemma other_step_keeps t p c c' :
  runtime_inv c -> step c c' -> c.2 !! t = Some p -> c'.2 !! t = Some p ->
  (steps_left p c'.1 <= steps_left p c.1)%nat.
Proof.
  assert (forall r r', List.length (r_services r') = List.length (r_services r) ->
    ((count not_collected (r_services r') <= count not_collected (r_services r))%nat \/ owner p = None) ->
    (steps_left p r' <= steps_left p r)%nat) as Hmono.
  { intros r r' Hn Hu. unfold steps_left. rewrite Hn.
    destruct p; try lia; destruct Hu; try lia; try discriminate. }
  intros (_ & Howner & _) Hs Ht Ht'.
  destruct Hs as [r T t0 p0 Ht0 Hp|r T t0 p0 p' r' Ht0 Hs|r T i s o Hi Hw|r T e He Hr]; cbn in *; auto.
  - destruct (decide (t0 = t)) as [->|Hne].
    + rewrite lookup_insert_eq in Ht'. simplify_eq. pose proof (own_step_decreases _ _ _ _ _ Hs). lia.
    + destruct (services_step _ _ _ _ _ Hs) as [Hn [Hu|Hu]]; [by apply Hmono; auto|].
      apply Hmono; [done|]. right. by eapply (owner_facts _ _ _ _ _ Howner Ht0 Hu).
  - apply Hmono; cbn; [by rewrite length_insert|]. left. apply Nat.eq_le_incl.
    eapply count_insert_same; [done|]. unfold not_collected. cbn. by rewrite Hw.
Qed.

(** An execution in which goroutine [t] takes [k] steps. *)
Inductive execution (t : nat) : nat -> Runtime * threads -> Runtime * threads -> Prop :=
| ex_nil c : execution t 0 c c
| ex_own k r T p p' r' c : T !! t = Some p -> tstep t p r p' r' ->
    execution t k (r', <[t := p']> T) c -> execution t (S k) (r, T) c
| ex_other k c c' c'' : step c c' -> c'.2 !! t = c.2 !! t -> execution t k c' c'' -> execution t k c c''.

Lemma execution_bound t k c c' :
  execution t k c c' -> forall p, runtime_inv c -> c.2 !! t = Some p ->
  exists p', c'.2 !! t = Some p' /\ (k + steps_left p' c'.1 <= steps_left p c.1)%nat.
Proof.
  induction 1 as [c|k r T p0 p' r' c Ht Hs _ IH|k c c' c'' Hs He _ IH]; intros p Hinv Hp.
  - exists p. split; [done|lia].
  - cbn in Hp. rewrite Ht in Hp. injection Hp as ->.
    destruct (IH p') as (q & Hq & Hle);
      [eapply runtime_inv_step; [by eapply s_thread|done]|apply lookup_insert_eq|].
    exists q. split; [done|]. pose proof (own_step_decreases _ _ _ _ _ Hs). cbn in *. lia.
  - destruct (IH p) as (q & Hq & Hle); [by eapply runtime_inv_step|congruence|].
    exists q. split; [done|]. pose proof (other_step_keeps t p c c' Hinv Hs Hp) as Hk.
    rewrite He in Hk. specialize (Hk Hp). lia.
Qed.

Lemma reachable_length ids c : reachable ids c -> List.length (r_services c.1) = List.length ids.
Proof.
  apply (rtc_ind_r (fun c => List.length (r_services c.1) = List.length ids)).
  - cbn. rewrite length_map. apply Permutation_length, merge_sort_Permutation.
  - intros c1 c2 _ Hs <-. destruct Hs; cbn; auto; [|by rewrite length_insert]. by eapply services_step.
Qed.

Lemma steps_left_entry p r : is_entry p = true -> (steps_left p r <= 3 * List.length (r_services r) + 20)%nat.
Proof. destruct p; try done; cbn; try lia. destruct d; try done. cbn. lia. Qed.

(** ** What the invariants say of one service *)
Lemma drained_upto_service errs r j s :
  drained_upto errs (dv_calls (view_drain r)) -> r_services r !! j = Some s ->
  sv_drains s = match errs !! j with Some e => [e] | None => [] end.
Proof. intros [_ H] Hj. apply H. cbn. by rewrite map_lookup, Hj. Qed.

Lemma once_inv_drains r T :
  once_inv (view_drain r) T ->
  (r_drain r <= 1)%nat /\
  forall j s, r_services r !! j = Some s -> (List.length (sv_drains s) <= 1)%nat.
Proof.
  intros [Hok _]. unfold once_ok in Hok.
  assert (exists errs, drained_upto errs (dv_calls (view_drain r)) /\ (dv_drain (view_drain r) <= 1)%nat)
    as (errs & Hu & Hd).
  { case_in Hok.
    - destruct Hok as (_ & -> & Hu). eauto.
    - destruct Hok as ((p & d & _ & _ & Hin) & -> & _).
      destruct d; cbn in Hin; try done; eauto; try (destruct Hin as [_ Hu]; eauto);
        destruct Hin as (errs & [_ Hu] & _); eauto.
    - destruct Hok as (_ & -> & errs & [_ Hu] & _). eauto. }
  split; [done|]. intros j s Hj. rewrite (drained_upto_service _ _ _ _ Hu Hj). destruct (errs !! j); simpl; lia.
Qed.

(** After [drainOnce]: one result per service, all of them in [drainErr]. *)
Lemma once_inv_done r T :
  once_inv (view_drain r) T -> r_drainOnce r = OnceDone ->
  forall j s, r_services r !! j = Some s ->
  exists e, sv_drains s = [e] /\ (r_drainErr r = None -> e = None).
Proof.
  intros [Hok _] Hd j s Hj. unfold once_ok in Hok. cbn in Hok. rewrite Hd in Hok.
  destruct Hok as (_ & _ & errs & [Hl Hu] & He). pose proof (drained_upto_service _ _ _ _ Hu Hj) as Hs.
  destruct (errs !! j) as [e|] eqn:Hej.
  - exists e. split; [done|]. intros Hn. cbn in He. rewrite Hn in He. symmetry in He. apply errors_join_nil in He.
    symmetry. by eapply (Forall_lookup_1 _ _ j).
  - apply lookup_ge_None in Hej. apply lookup_lt_Some in Hj. cbn in Hl. rewrite length_map in Hl. lia.
Qed.

Lemma all_service (f : service -> nat) n r j s :
  all n (List.map f (r_services r)) -> r_services r !! j = Some s -> f s = n.
Proof. intros H Hj. symmetry. eapply (Forall_lookup_1 _ _ j); [exact H|]. by rewrite map_lookup, Hj. Qed.

Lemma owner_inv_counts r T :
  owner_inv (view_own r) T ->
  (r_done r <= 1)%nat /\
  forall j s, r_services r !! j = Some s ->
    (sv_runs s <= 1)%nat /\ (List.length (sv_shutdowns s) <= 1)%nat /\
    ((0 < r_done r)%nat -> List.length (sv_shutdowns s) = 1%nat).
Proof.
  intros (o & _ & _ & Hruns & Hok).
  assert (runs_of o (view_own r) <= 1)%nat as Hr
    by (destruct o as [[? []]|]; cbn; try case_goal; lia).
  assert (exists n, all n (ov_stops (view_own r)) /\ (n <= 1)%nat /\ (r_done r <= n)%nat) as (n & Hs & Hn & Hd).
  { destruct o as [[? ph]|].
    - destruct Hok as (_ & Hd & _ & Hok). cbn in Hd. rewrite Hd.
      destruct ph; cbn in Hok; destruct_and?; eauto with lia.
    - unfold unowned_ok in Hok. cbn in Hok. case_in Hok; destruct Hok as (_ & -> & _ & Hs); eauto with lia. }
  split; [lia|]. intros j s Hj. cbn in Hruns, Hs.
  rewrite (all_service _ _ _ _ _ Hruns Hj), (all_service _ _ _ _ _ Hs Hj). lia.
Qed.

(** ** The claims *)

(** C21. Every service is started, asked to drain and shut down at most once, and
    shut down only after it was asked to drain; at most one goroutine owns the
    lifecycle; neither channel is closed twice; and when [done] is closed the
    runtime is closed and every service has been drained and shut down. *)
Theorem runtime_calls_once ids r T :
  reachable ids (r, T) ->
  (forall j s, r_services r !! j = Some s ->
     (sv_runs s <= 1)%nat /\ (List.length (sv_drains s) <= 1)%nat /\ (List.length (sv_shutdowns s) <= 1)%nat /\
     (sv_shutdowns s <> [] -> List.length (sv_drains s) = 1%nat)) /\
  (r_done r <= 1)%nat /\ (r_drain r <= 1)%nat /\
  (forall t t' p q, T !! t = Some p -> T !! t' = Some q -> owner p <> None -> owner q <> None -> t = t') /\
  ((0 < r_done r)%nat -> r_state r = runtimeClosed /\
     forall j s, r_services r !! j = Some s ->
       List.length (sv_drains s) = 1%nat /\ List.length (sv_shutdowns s) = 1%nat).
Proof.
  intros H. apply reachable_inv in H as (Honce & Howner & Horder & Hidle & Hres). cbn in *.
  destruct (once_inv_drains _ _ Honce) as [Hdr Hdrains]. destruct (owner_inv_counts _ _ Howner) as [Hdone Hcounts].
  pose proof (once_inv_done _ _ Honce) as Hall.
  split_and!; auto.
  - intros j s Hj. destruct (Hcounts _ _ Hj) as (? & ? & _). split_and!; eauto. intros Hne.
    destruct (Hall (proj2 (proj2 (proj2 Horder)) (ex_intro _ j (ex_intro _ s (conj Hj Hne)))) _ _ Hj) as (e & -> & _).
    done.
  - intros t t' p q Hp Hq Ho Ho'. destruct (decide (t = t')) as [|Hne]; [done|].
    destruct (owner p) as [ph|] eqn:Hph; [|done].
    by destruct Ho'; eapply (owner_facts _ _ _ _ _ Howner Hp Hph).
  - intros Hpos. pose proof (done_closed _ _ Howner Hpos) as Hc. split; [done|]. intros j s Hj.
    destruct (Hall (proj1 (proj2 (proj2 Horder)) Hc) _ _ Hj) as (e & -> & _).
    split; [done|]. by apply Hcounts with j.
Qed.

(** C22. A nil result is honest: when [Run] or [Shutdown] has returned nil, the
    runtime is closed, every service was asked to drain without a panic and
    answered its [Shutdown] without an error, and no worker is left running or
    ended with an error other than the end of the run's context. *)
Theorem runtime_nil_is_clean ids r T t m :
  reachable ids (r, T) -> T !! t = Some (Returned m None) -> m = MRun \/ m = MShutdown ->
  r_state r = runtimeClosed /\ r_shutdownErr r = None /\
  forall j s, r_services r !! j = Some s ->
    sv_drains s = [None] /\ sv_shutdowns s = [Answered None] /\
    (sv_worker s = Idle \/ exists err, sv_worker s = Collected err /\ unexpected (r_runErr r) err = false).
Proof.
  intros H Ht Hm. apply reachable_inv in H as (Honce & _ & Horder & _ & _ & Hclean & Hret). cbn in *.
  destruct (Hret _ _ Ht) as [Hc He]; [by destruct Hm as [-> | ->]|].
  destruct (Hclean (conj Hc He)) as [Hd Hs]. split_and!; auto. intros j s Hj.
  destruct (once_inv_done _ _ Honce (proj1 (proj2 (proj2 Horder)) Hc) _ _ Hj) as (e & -> & Hn).
  rewrite (Hn Hd). destruct (Hs _ _ Hj) as (H1 & H2 & H3). split_and!; auto.
  destruct (sv_worker s) as [| | |err]; try done; [by left|].
  right. exists err. split; [done|]. by apply negb_true_iff.
Qed.

(** The lifecycle only goes forward.  When [BeginDrain] has returned, in every
    later configuration the runtime is not ready and a call of [Run] is refused;
    and a runtime that is running before and after an interval was running in
    every configuration of it, so that [Readiness], which checks both ends,
    speaks of the whole interval. *)
Theorem runtime_lifecycle ids c c' :
  reachable ids c -> rtc step c c' ->
  (state_rank (r_state c.1) <= state_rank (r_state c'.1))%nat /\
  (forall t e, c.2 !! t = Some (Returned MBeginDrain e) ->
     healthStateError false c'.1 = Some (ESentinel ErrRuntimeNotRunning) /\
     forall t' p r', tstep t' (RunEntry true) c'.1 p r' -> exists x, p = Returned MRun (Some x) /\ r' = c'.1) /\
  (healthStateError false c.1 = None -> healthStateError false c'.1 = None ->
     forall c1, rtc step c c1 -> rtc step c1 c' -> healthStateError false c1.1 = None).
Proof.
  assert (forall c c', rtc step c c' -> (state_rank (r_state c.1) <= state_rank (r_state c'.1))%nat) as Hrank.
  { induction 1 as [|c1 c2 c3 Hs _ IH]; [done|]. pose proof (rank_step _ _ Hs). lia. }
  intros Hr Hcc. pose proof (Hrank _ _ Hcc) as Hle. split_and!; [done| |].
  - intros t e Ht. apply reachable_inv in Hr as ([_ Hpast] & _ & Horder & _).
    pose proof (proj1 Horder (Hpast _ _ Ht eq_refl)) as Hp. unfold past_running in Hp.
    assert (2 <= state_rank (r_state c'.1))%nat as H2 by lia. split.
    + unfold healthStateError. destruct (r_state c'.1); simpl in H2; done || lia.
    + intros t' p r' [Hs|Hs|Hs|Hs]; inversion Hs; subst; eauto.
      match goal with H : r_state _ = runtimeNew |- _ => rewrite H in H2 end. simpl in H2. lia.
  - unfold healthStateError. intros H1 H2 c1 Hc1 Hc2. apply Hrank in Hc1, Hc2.
    destruct (r_state c.1), (r_state c'.1), (r_state c1.1); simpl in *; done || lia.
Qed.

(** A call takes a bounded number of steps: 3 n + 20 for n services, whatever
    the services return and however the goroutines are interleaved. *)
Theorem runtime_call_bounded ids t p r T k c :
  reachable ids (r, T) -> T !! t = Some p -> is_entry p = true ->
  execution t k (r, T) c -> (k <= 3 * List.length ids + 20)%nat.
Proof.
  intros Hr Ht Hp He. pose proof (reachable_length _ _ Hr) as Hl. cbn in Hl.
  destruct (execution_bound _ _ _ _ He p (reachable_inv _ _ Hr) Ht) as (q & _ & Hle). cbn in Hle.
  pose proof (steps_left_entry p r Hp). lia.
Qed.

(** Every result of a worker was received, or one waits. *)
Lemma select_ready r :
  (exists i s err, r_services r !! i = Some s /\ sv_worker s = Exited err) \/
  existsb result_waiting (r_services r) = false.
Proof.
  destruct (existsb result_waiting (r_services r)) eqn:E; [left|by right].
  apply List.existsb_exists in E as (s & Hin & Hw). apply list_elem_of_In, list_elem_of_lookup_1 in Hin as [i Hi].
  unfold result_waiting in Hw. destruct (sv_worker s) eqn:Hs; try done. by exists i, s, err.
Qed.

(** [beginDrain] waits only for the goroutine inside [drainOnce]. *)
Lemma drain_ready t d r :
  (exists e, d = DReturned e) \/ (exists d' r', dstep t d r d' r') \/
  (d = DEntry /\ exists t', r_drainOnce r = OnceRunning t').
Proof.
  destruct d; eauto 8 using dstep.
  - destruct (r_drainOnce r) eqn:E; eauto 8 using dstep.
  - right; left. destruct (r_services r !! i) as [s|] eqn:E; [|eauto 8 using dstep].
    do 2 eexists. by apply (d_call t r i drainErrors s true).
Qed.

Lemma stop_ready received : exists err, shutdown_result (eq DeadlineExceeded) received err.
Proof. destruct (forallb answered received) eqn:E; eexists; [by constructor|by eapply sr_deadline]. Qed.
Lemma shutdown_result_weaken (P Q : sentinel -> Prop) received err :
  (forall e, P e -> Q e) -> shutdown_result P received err -> shutdown_result Q received err.
Proof. intros H []; [by constructor|by constructor; auto]. Qed.

(** ** Who a waiting call waits for *)

(** The step is possible only because the caller's context ended. *)
Definition by_context (p : pc) (r : Runtime) (p' : pc) : Prop :=
  match p with
  | ShutAwait | ShutWait => r_done r = 0%nat
  | ShutStop _ received => forallb answered received = false /\ exists err, p' = ShutStore err
  | _ => False
  end.
(** A step that the call takes although its context goes on. *)
Definition patient_step (t : nat) (p : pc) (r : Runtime) (p' : pc) (r' : Runtime) : Prop := tstep t p r p' r' /\ ~ by_context p r p'.
Definition runnable (r : Runtime) (T : threads) (t : nat) : Prop :=
  exists p p' r', T !! t = Some p /\ patient_step t p r p' r'.

(** [Run] in its select, with the context alive, no drain and no result. *)
Definition idle_run (p : pc) (r : Runtime) : Prop :=
  p = RunSelect /\ r_runErr r = None /\ r_drain r = 0%nat /\ existsb result_waiting (r_services r) = false.

(** What the calls that wait, and those they wait for, know of the runtime. *)
Definition wait_ok (p : pc) (r : Runtime) : Prop :=
  match p with
  | RunStart | RunSelect | ShutDrain _ true => r_runCancel r = true
  | ShutWait => r_runCancel r = true /\ r_drainOnce r = OnceDone
  | ShutAwait => r_shutdownStarted r = true
  | ShutStop _ received => List.length received = List.length (r_services r)
  | _ => True
  end.
Definition wait_inv (c : Runtime * threads) : Prop := forall t p, c.2 !! t = Some p -> wait_ok p c.1.

(** What no step takes back. *)
Definition onward (r r' : Runtime) : Prop :=
  (r_runCancel r = true -> r_runCancel r' = true) /\ (r_shutdownStarted r = true -> r_shutdownStarted r' = true) /\
  (r_drainOnce r = OnceDone -> r_drainOnce r' = OnceDone) /\ List.length (r_services r') = List.length (r_services r).

Lemma wait_ok_onward p r r' : onward r r' -> wait_ok p r -> wait_ok p r'.
Proof. intros (H1 & H2 & H3 & H4). destruct p; try done; cbn; rewrite ?H4; try destruct runCancel; intuition. Qed.

Lemma onward_dstep t d r d' r' : (inside d = true -> r_drainOnce r <> OnceDone) -> dstep t d r d' r' -> onward r r'.
Proof.
  intros Hin H. destruct H; unfold onward; cbn; rewrite ?length_insert; try case_goal; cbn; split_and!; try done.
  intros E. congruence.
Qed.

Lemma onward_tstep t p r p' r' : (forall d, inside_of p = Some d -> r_drainOnce r <> OnceDone) -> tstep t p r p' r' -> onward r r'.
Proof.
  intros Hin Hs. unfold inside_of in Hin. step_cases Hs;
    try (eapply onward_dstep; [|eassumption]; intros Hi; cbn in Hin; rewrite Hi in Hin; by eapply Hin);
    unfold onward, close_done; cbn; rewrite ?length_insert, ?length_map; try case_goal; cbn; by split_and!.
Qed.

Lemma wait_ok_tstep t p r p' r' : (past_once p = true -> r_drainOnce r = OnceDone) ->
  (forall d, inside_of p = Some d -> r_drainOnce r <> OnceDone) -> tstep t p r p' r' -> wait_ok p r -> wait_ok p' r'.
Proof.
  intros Hpast Hin Hs Hw. pose proof (onward_tstep _ _ _ _ _ Hin Hs) as (H1 & H2 & H3 & H4).
  step_cases Hs; cbn in *; try done; try (by destruct has; auto); auto.
  - unfold nothing_received. by rewrite length_replicate, length_map.
  - by rewrite !length_insert.
Qed.

Lemma wait_inv_step c c' : step c c' -> once_inv (view_drain c.1) c.2 -> wait_inv c -> wait_inv c'.
Proof.
  intros Hs Hinv Hw. destruct Hs; cbn in *; intros t' q Hq; cbn in *.
  - at_threads Hq; [by destruct p|by apply (Hw t' q)].
  - assert (forall d, inside_of p = Some d -> r_drainOnce r <> OnceDone) as Hin by (intros d; by eapply (inside_not_done _ _ _ _ _ Hinv)).
    at_threads Hq; [|eapply wait_ok_onward; [by eapply onward_tstep|by apply (Hw t' q)]].
    eapply wait_ok_tstep; [|done..|by apply (Hw t p)]. by apply (proj2 Hinv t p).
  - eapply wait_ok_onward; [|by apply (Hw t' q)]. unfold onward. cbn. by rewrite length_insert.
  - eapply wait_ok_onward; [|by apply (Hw t' q)]. by unfold onward.
Qed.

Lemma reachable_wait ids c : reachable ids c -> wait_inv c.
Proof.
  apply (rtc_ind_r wait_inv); [by intros t p|].
  intros c1 c2 Hc Hs Hw. eapply wait_inv_step; [exact Hs| |exact Hw]. apply (reachable_inv ids). exact Hc.
Qed.

(** A goroutine that cannot step by itself. *)
Definition waits (p : pc) (r : Runtime) : Prop :=
  (drain_of p = Some DEntry /\ exists t', r_drainOnce r = OnceRunning t') \/ idle_run p r \/
  ((p = ShutAwait \/ p = ShutWait) /\ r_done r = 0%nat).

Ltac can_step := eauto 9 using tstep, run_step, drain_step, shut_step, probe_step.

Lemma patient t p r p' r' : tstep t p r p' r' -> ~ by_context p r p' -> exists p' r', patient_step t p r p' r'.
Proof. intros. by exists p', r'. Qed.

(** The result of [Shutdown] of a service, or the end of the loop. *)
Lemma shut_stop_ready t drainErr received r : List.length received = List.length (r_services r) ->
  exists p' r', patient_step t (ShutStop drainErr received) r p' r'.
Proof.
  intros Hl. destruct (forallb answered received) eqn:E.
  - eapply patient; [by apply t_shut, shut_stop_done, sr_all|]. intros [? _]. congruence.
  - assert (exists i, received !! i = Some Pending) as [i Hi].
    { clear Hl. induction received as [|[|err] received IH]; [done|by exists 0%nat|]. destruct (IH E) as [i Hi]. by exists (S i). }
    destruct (lookup_lt_is_Some_2 (r_services r) i) as [s Hs]; [rewrite <- Hl; by eapply lookup_lt_Some|].
    eapply patient; [by apply t_shut, (shut_stop_receive _ _ _ _ i s (Returns None))|]. by intros [_ [? ?]].
Qed.

(** A call that has not returned can step, at least when its context ends. *)
Lemma call_steps t p r :
  (exists m e, p = Returned m e) \/ (exists p' r', tstep t p r p' r') \/
  (drain_of p = Some DEntry /\ exists t', r_drainOnce r = OnceRunning t') \/ idle_run p r.
Proof.
  unfold idle_run. destruct p; can_step.
  - right; left. destruct ctx; [|can_step]. destruct (r_state r) eqn:E; can_step.
  - destruct (r_runErr r) eqn:E; [can_step|]. destruct (r_drain r) eqn:D; [|right; left; do 2 eexists; apply t_run, run_drained; lia].
    destruct (select_ready r) as [(i & s & err & Hi & Hs)|Hn]; [can_step|by right; right; right].
  - right; left. destruct draining; [can_step|]. destruct (unexpected (r_runErr r) err) eqn:E; can_step.
  - destruct (drain_ready t d r) as [(e & ->)|[(d' & r' & Hd)|(-> & Ho)]]; can_step.
  - destruct (select_ready r) as [(i & s & err & Hi & Hs)|Hn]; can_step.
  - destruct (stop_ready received); can_step.
  - destruct (drain_ready t d r) as [(e & ->)|[(d' & r' & Hd)|(-> & Ho)]]; can_step.
  - right; left. destruct ctx; [|can_step].
    destruct (decide (r_state r = runtimeClosed)); [can_step|].
    destruct (r_runCancel r) eqn:E; [can_step|]. destruct (r_shutdownStarted r) eqn:E'; can_step.
  - right; left. do 2 eexists. apply t_shut, (shut_await_context t r Canceled). by left.
  - destruct (drain_ready t d r) as [(e & ->)|[(d' & r' & Hd)|(-> & Ho)]]; can_step.
    destruct runCancel; can_step.
  - right; left. do 2 eexists. apply t_shut, (shut_wait_context t r Canceled). by left.
  - destruct (stop_ready received) as [err Hr]. right; left. do 2 eexists. apply t_shut, shut_stop_done.
    eapply shutdown_result_weaken; [|exact Hr]. intros e <-. by right.
  - right; left. destruct ctx; [|can_step].
    destruct (healthStateError (probe_liveness k) r) eqn:E; can_step.
  - right; left. do 2 eexists. apply t_probe, (probe_checked t r k (List.map (fun _ => Panics) (r_services r))).
    by rewrite length_map.
Qed.

Lemma call_ready t p r : wait_ok p r -> (exists m e, p = Returned m e) \/ (exists p' r', patient_step t p r p' r') \/ waits p r.
Proof.
  intros Hw. unfold waits.
  assert ((forall p', ~ by_context p r p') -> (exists m e, p = Returned m e) \/ (exists p' r', patient_step t p r p' r') \/ waits p r) as Hp.
  { intros Hn. destruct (call_steps t p r) as [?|[(p' & r' & Hs)|[?|?]]]; unfold waits; auto. right; left. exists p', r'. by split. }
  destruct p; try (apply Hp; intros ? []; fail).
  - destruct (decide (r_done r = 0%nat)); [right; right; right; right; by auto|]. right; left. eapply patient; [apply t_shut, shut_await_done; lia|done].
  - destruct (decide (r_done r = 0%nat)); [right; right; right; right; by auto|]. right; left. eapply patient; [apply t_shut, shut_wait_done; lia|done].
  - right; left. by apply shut_stop_ready.
Qed.

(** The goroutine inside [drainOnce] can step. *)
Lemma inside_runnable r T t : once_inv (view_drain r) T -> wait_inv (r, T) -> r_drainOnce r = OnceRunning t -> runnable r T t.
Proof.
  intros [Hok _] Hw Ho. unfold once_ok in Hok. cbn in Hok. rewrite Ho in Hok. destruct Hok as ((q & d & Hq & Hi & _) & _).
  destruct (call_ready t q r (Hw t q Hq)) as [(m & e & ->)|[(q' & r' & Hs)|[(Hd' & _)|[(-> & _)|[[-> | ->] _]]]]]; try discriminate.
  - by exists q, q', r'.
  - unfold inside_of in Hi. by rewrite Hd' in Hi.
Qed.

(** While [done] is open and the lifecycle is owned, some goroutine works on
    closing it. *)
Lemma awaited_runnable r T t p : runtime_inv (r, T) -> wait_inv (r, T) -> T !! t = Some p -> p = ShutAwait \/ p = ShutWait -> r_done r = 0%nat ->
  exists t', runnable r T t' /\ (r_drainOnce r = OnceRunning t' \/ exists q ph, T !! t' = Some q /\ owner q = Some ph).
Proof.
  intros (Honce & (o & Ho & Hx & _ & Hown) & _) Hw Ht Hp Hdone. pose proof (Hw t p Ht) as Hwp. cbn in *.
  assert (r_runCancel r || r_shutdownStarted r = true) as Howned
    by (destruct Hp as [-> | ->]; cbn in Hwp; [by rewrite Hwp, orb_true_r|by rewrite (proj1 Hwp)]).
  destruct o as [[t' ph]|]; [|unfold unowned_ok in Hown; cbn in Hown; rewrite Howned in Hown; destruct Hown as (_ & Hd & _); lia].
  pose proof (Ho t') as Hq. cbn beta iota in Hq. case_decide; [|done]. destruct (T !! t') as [q|] eqn:Et'; [|done]. cbn in Hq.
  destruct (call_ready t' q r (Hw t' q Et')) as [(m & e & ->)|[(q' & r' & Hs)|[(Hd' & t'' & Ho')|[(-> & _ & Hidle & _)|[[-> | ->] _]]]]]; try discriminate.
  - exists t'. split; [by exists q, q', r'|]. right. by exists q, ph.
  - exists t''. split; [by eapply inside_runnable|by left].
  - exfalso. pose proof (Hw t' RunSelect Et') as Hrun. cbn in Hrun. destruct Hp as [-> | ->]; cbn in Hwp.
    + rewrite Hrun, Hwp in Hx. done.
    + destruct Honce as [Hok _]. unfold once_ok in Hok. cbn in Hok. rewrite (proj2 Hwp) in Hok. destruct Hok as (_ & Hd & _). lia.
Qed.

(** C23. There is no deadlock.  In every reachable configuration a call that has not
    returned can take a step although its context goes on; or it is [Run] in its
    select with its context alive, no drain begun and every service still running;
    or it waits, at the entry of [drainOnce] or for [done] to be closed, and the
    goroutine inside [drainOnce] or the one that owns the lifecycle, which closes
    [done], can take such a step.  A step may be the answer of a service or the
    runtime's own shutdown timeout, but not the end of the context of a caller of
    [Shutdown]. *)
Theorem runtime_no_deadlock ids r T t p :
  reachable ids (r, T) -> T !! t = Some p ->
  (exists m e, p = Returned m e) \/ idle_run p r \/ runnable r T t \/
  ((drain_of p = Some DEntry \/ p = ShutAwait \/ p = ShutWait) /\
   exists t', runnable r T t' /\ (r_drainOnce r = OnceRunning t' \/ exists q ph, T !! t' = Some q /\ owner q = Some ph)).
Proof.
  intros Hr Ht. pose proof (reachable_inv _ _ Hr) as Hinv. pose proof (reachable_wait _ _ Hr) as Hw.
  destruct (call_ready t p r (Hw t p Ht)) as [?|[(p' & r' & Hs)|[(Hd & t' & Ho)|[?|[Hp Hdone]]]]]; auto.
  - right; right; left. by exists p, p', r'.
  - right; right; right. split; [by left|]. exists t'. split; [|by left]. eapply inside_runnable; [apply Hinv|done..].
  - right; right; right. split; [by right|]. by eapply awaited_runnable.
Qed.

(** ** Witnesses *)

(** One step of goroutine 0, by the given rule. *)
Ltac go rule :=
  eapply rtc_l; [eapply (s_thread _ _ 0); [reflexivity|(apply t_shut + apply t_drain); eapply rule; try reflexivity; try discriminate]|cbn].

(** [Shutdown] of a runtime with one service that was never started. *)
Lemma shutdown_run :
  exists r T, reachable ["a"] (r, T) /\ T !! 0%nat = Some (Returned MShutdown None).
Proof.
  do 2 eexists. split.
  - unfold reachable. eapply rtc_l; [apply (s_call _ _ 0 (ShutEntry true)); reflexivity|]. cbn.
    go shut_claim.
    go shut_drain; [apply d_enter; reflexivity|].
    go shut_drain; [apply d_set|].
    go shut_drain; [apply (d_call _ _ _ _ (idle_service "a") false); reflexivity|].
    go shut_drain; [apply d_called; reflexivity|].
    go shut_drain; [apply d_store|].
    go shut_drain; [apply d_cancel|].
    go shut_drain; [apply d_close|].
    go shut_drain; [apply d_read|].
    go shut_drain_own.
    eapply rtc_l.
    { eapply (s_thread _ _ 0); [reflexivity|]. apply t_shut. eapply (shut_stop_receive _ _ _ _ 0 _ (Returns None)); reflexivity. }
    go shut_stop_done; [apply sr_all; reflexivity|].
    go shut_store.
    go shut_mark.
    go shut_close.
    apply rtc_refl.
  - reflexivity.
Qed.

(** [BeginDrain] of a runtime without services. *)
Lemma drain_run : exists r T e, reachable [] (r, T) /\ T !! 0%nat = Some (Returned MBeginDrain e).
Proof.
  do 3 eexists. split.
  - unfold reachable. eapply rtc_l; [apply (s_call _ _ 0 (DrainOnly DEntry)); reflexivity|]. cbn.
    go drain_go; [apply d_enter; reflexivity|].
    go drain_go; [apply d_set|].
    go drain_go; [apply d_called; reflexivity|].
    go drain_go; [apply d_store|].
    go drain_go; [apply d_cancel|].
    go drain_go; [apply d_close|].
    go drain_go; [apply d_read|].
    go drain_done.
    apply rtc_refl.
  - reflexivity.
Qed.

(** [Run] is called. *)
Lemma run_called : reachable ["a"] (newRuntime ["a"], {[0%nat := RunEntry true]}).
Proof. apply rtc_once. by apply (s_call _ _ 0 (RunEntry true)). Qed.

Lemma runtime_calls_once_witness :
  exists (r : Runtime) (T : threads), T !! 0%nat = Some (Returned MShutdown None) /\ (r_done r <= 1)%nat.
Proof.
  destruct shutdown_run as (r & T & Hr & Ht). exists r, T. split; [done|].
  apply (runtime_calls_once ["a"] r T Hr).
Defined.

Lemma runtime_nil_is_clean_witness :
  exists (r : Runtime) (T : threads), T !! 0%nat = Some (Returned MShutdown None) /\ r_state r = runtimeClosed.
Proof.
  destruct shutdown_run as (r & T & Hr & Ht). exists r, T. split; [done|].
  apply (runtime_nil_is_clean ["a"] r T 0 MShutdown Hr Ht). by right.
Defined.

Lemma runtime_lifecycle_witness :
  exists r T, reachable [] (r, T) /\ healthStateError false r = Some (ESentinel ErrRuntimeNotRunning).
Proof.
  destruct drain_run as (r & T & e & Hr & Ht). exists r, T. split; [done|].
  apply (proj1 (proj1 (proj2 (runtime_lifecycle [] (r, T) (r, T) Hr (rtc_refl _ _))) 0%nat e Ht)).
Defined.

Lemma runtime_call_bounded_witness :
  exists k c, execution 0 k (newRuntime ["a"], {[0%nat := RunEntry true]}) c /\ k = 1%nat /\ (k <= 23)%nat.
Proof.
  assert (execution 0 1 (newRuntime ["a"], {[0%nat := RunEntry true]})
            (own_run (newRuntime ["a"]), <[0%nat := RunStart]> {[0%nat := RunEntry true]})) as He
    by (eapply ex_own; [reflexivity|by apply t_run, run_own|apply ex_nil]).
  exists 1%nat. eexists. split; [exact He|]. split; [done|].
  exact (runtime_call_bounded ["a"] 0 (RunEntry true) _ _ _ _ run_called eq_refl eq_refl He).
Defined.

Lemma runtime_no_deadlock_witness : runnable (newRuntime ["a"]) {[0%nat := RunEntry true]} 0.
Proof.
  destruct (runtime_no_deadlock ["a"] _ _ 0 (RunEntry true) run_called eq_refl)
    as [(m & e & H)|[(H & _)|[H|([H|[H|H]] & _)]]]; [discriminate H|discriminate H|exact H|discriminate H..].
Defined.
End RuntimeTheorems.
