(* ===== verification/NatsDLQ.v ===== *)
(** * Dead-letter records of the NATS adapter

    Models [adapters/nats/quarantine.go], the record, its validation and the
    digests of [consumer.go] and [replay.go], and [failure.go]: what is kept of a
    message that goes to the dead letters.

    Parameters: [json.Marshal] of a record, [json.Valid], and the Unicode case
    mappings [strings.ToLower] and [strings.EqualFold].  The theorems hold for
    every choice of them. *)
From S2P Require Import Prelude GoStrings GoText Digest Errors Ident Batch Inbox.
From Stdlib Require Import Ascii.
Import Stdlib.Strings.String.
Import Sha256 Base64.
Open Scope string_scope.
Open Scope Z_scope.

Module NatsDLQ.

(** ** Constants and data *)
Definition WireMode := string.
Definition WireNative : WireMode := "native".
Definition WireCloudEventsStructured : WireMode := "cloudevents-structured".
Definition WireCloudEventsBinary : WireMode := "cloudevents-binary".
Definition WireMode_valid (mode : WireMode) : bool :=
  String.eqb mode WireNative || String.eqb mode WireCloudEventsStructured || String.eqb mode WireCloudEventsBinary.

Definition DefaultMaxHeaders : Z := 64.
Definition DefaultMaxHeaderBytes : Z := Z.shiftl 16 10.
Definition DLQSpecVersion : string := "1.0".
Definition QuarantineSpecVersion : string := "2.0".
Definition DefaultMaxDLQRecordBytes : Z := 3 * DefaultMaxEnvelopeBytes.
Definition maxReplayHeaderBytes : Z := DefaultMaxEnvelopeBytes + 8 * DefaultMaxHeaderBytes.

(** [map[string][]string] *)
Abbreviation Header := (gmap string (list string)).

Record QuarantineInfo := {
  q_Reason : string;
  q_InputSHA256 : string;
  q_OriginalBytes : Z;
  q_HeaderCount : Z;
  q_HeaderBytes : Z;
  q_OriginalOmitted : bool;
  q_Replayable : bool }.

Record DLQRecord := {
  d_Quarantine : option QuarantineInfo;
  d_SpecVersion : string;
  d_ConsumerID : string;
  d_Subject : string;
  d_Attempt : Z;
  d_FailureKind : string;
  d_Error : string;
  d_FailedAt : Time;
  d_WireMode : WireMode;
  d_Envelope : string;  (** empty when absent *)
  d_OriginalHeaders : Header;
  d_OriginalBase64 : string }.

Record preparedDLQ := { pd_data : string; pd_dedupID : string; pd_contentType : string }.

(** ** Field updates *)
Definition set_error (e : string) (r : DLQRecord) : DLQRecord :=
  {| d_Quarantine := d_Quarantine r; d_SpecVersion := d_SpecVersion r; d_ConsumerID := d_ConsumerID r;
     d_Subject := d_Subject r; d_Attempt := d_Attempt r; d_FailureKind := d_FailureKind r; d_Error := e;
     d_FailedAt := d_FailedAt r; d_WireMode := d_WireMode r; d_Envelope := d_Envelope r;
     d_OriginalHeaders := d_OriginalHeaders r; d_OriginalBase64 := d_OriginalBase64 r |}.
Definition set_kind (k : string) (r : DLQRecord) : DLQRecord :=
  {| d_Quarantine := d_Quarantine r; d_SpecVersion := d_SpecVersion r; d_ConsumerID := d_ConsumerID r;
     d_Subject := d_Subject r; d_Attempt := d_Attempt r; d_FailureKind := k; d_Error := d_Error r;
     d_FailedAt := d_FailedAt r; d_WireMode := d_WireMode r; d_Envelope := d_Envelope r;
     d_OriginalHeaders := d_OriginalHeaders r; d_OriginalBase64 := d_OriginalBase64 r |}.
Definition set_envelope (e : string) (r : DLQRecord) : DLQRecord :=
  {| d_Quarantine := d_Quarantine r; d_SpecVersion := d_SpecVersion r; d_ConsumerID := d_ConsumerID r;
     d_Subject := d_Subject r; d_Attempt := d_Attempt r; d_FailureKind := d_FailureKind r; d_Error := d_Error r;
     d_FailedAt := d_FailedAt r; d_WireMode := d_WireMode r; d_Envelope := e;
     d_OriginalHeaders := d_OriginalHeaders r; d_OriginalBase64 := d_OriginalBase64 r |}.
Definition set_original (h : Header) (b : string) (r : DLQRecord) : DLQRecord :=
  {| d_Quarantine := d_Quarantine r; d_SpecVersion := d_SpecVersion r; d_ConsumerID := d_ConsumerID r;
     d_Subject := d_Subject r; d_Attempt := d_Attempt r; d_FailureKind := d_FailureKind r; d_Error := d_Error r;
     d_FailedAt := d_FailedAt r; d_WireMode := d_WireMode r; d_Envelope := d_Envelope r;
     d_OriginalHeaders := h; d_OriginalBase64 := b |}.
Definition set_quarantine (q : QuarantineInfo) (r : DLQRecord) : DLQRecord :=
  {| d_Quarantine := Some q; d_SpecVersion := QuarantineSpecVersion; d_ConsumerID := d_ConsumerID r;
     d_Subject := d_Subject r; d_Attempt := d_Attempt r; d_FailureKind := d_FailureKind r; d_Error := d_Error r;
     d_FailedAt := d_FailedAt r; d_WireMode := d_WireMode r; d_Envelope := "";
     d_OriginalHeaders := ∅; d_OriginalBase64 := "" |}.
Definition set_omitted (b : bool) (q : QuarantineInfo) : QuarantineInfo :=
  {| q_Reason := q_Reason q; q_InputSHA256 := q_InputSHA256 q; q_OriginalBytes := q_OriginalBytes q;
     q_HeaderCount := q_HeaderCount q; q_HeaderBytes := q_HeaderBytes q; q_OriginalOmitted := b;
     q_Replayable := q_Replayable q |}.

Definition invalid_record (label : string) : error := wrapS ErrInvalidMessage label.

(** ** Failure text *)
Definition operationFailureText : string := "messenger/nats: operation failed".
Definition nats_handlerPanicText (handlerID : string) : string :=
  if String.eqb handlerID "" then "messenger/nats: handler panicked"
  else "messenger/nats: handler " ++ handlerID ++ " panicked".

Definition nats_sanitizer_cases : list sentinel :=
  [Canceled; DeadlineExceeded; ErrEnvelopeTooLarge; ErrDescriptorConflict; ErrNatsMessageExpired;
   ErrNatsMessageNotReady; ErrInvalidMessage].

Definition nats_defaultFailureSanitizer (err : option error) : string :=
  match err with
  | None => ""
  | Some e =>
      match errors_as as_handlerPanic e with
      | Some id => nats_handlerPanicText id
      | None =>
          match List.find (errors_is err) nats_sanitizer_cases with
          | Some s => sentinel_text s
          | None => operationFailureText
          end
      end
  end.

Definition sanitizeFailure (sanitizer : FailureSanitizer) (err : option error) : string :=
  match err with
  | None => ""
  | Some _ =>
      let f := match sanitizer with
               | Some f => f
               | None => fun e => Some (nats_defaultFailureSanitizer e)
               end in
      let text := TrimSpace (callFailureSanitizer f err) in
      if decide (text = "") then operationFailureText else ToValidUTF8 text
  end.

Definition boundedFailureText (sanitizer : FailureSanitizer) (err : option error) (limit : Z) : string :=
  if limit <=? 0 then ""
  else
    let text := sanitizeFailure sanitizer err in
    if len text <=? limit then text
    else of_bytes (take (rune_boundary (bytes text) (Z.to_nat limit)) (bytes text)).

(** ** Replay headers *)
Definition replayIDPrefix : string := "gm-replay-".
Definition replayIDHeader : string := "Gomessenger-Replay-Id".
Definition replayConsumerHeader : string := "Gomessenger-Replay-Consumer".

Section Replay.
Context (EqualFold : string -> string -> bool).

Fixpoint single_value (name : string) (l : list (string * list string)) (found : option string) : option string :=
  match l with
  | [] => found
  | (key, values) :: rest =>
      if negb (EqualFold key name) then single_value name rest found
      else match found, values with
      | None, [v] => single_value name rest (Some v)
      | _, _ => None
      end
  end.
Definition singleHeaderValue (headers : Header) (name : string) : option string :=
  single_value name (map_to_list headers) None.

Definition replayAttemptGeneration (headers : Header) (consumerID : string) : string :=
  match singleHeaderValue headers replayConsumerHeader with
  | Some target =>
      if negb (String.eqb target consumerID) then ""
      else match singleHeaderValue headers replayIDHeader with
      | Some replayID =>
          if negb (len replayID =? len replayIDPrefix + 64) || negb (String.prefix replayIDPrefix replayID) then ""
          else match hex_decode (drop (String.length replayIDPrefix) (bytes replayID)) with
          | Some _ => replayID
          | None => ""
          end
      | None => ""
      end
  | None => ""
  end.
End Replay.

Section DLQ.
Context (json_Marshal : DLQRecord -> result error string) (json_Valid : string -> bool).
Context (ToLower : string -> string).

(** ** Headers *)

(** The loop over the headers; [seen] are the folded names, [total] the bytes. *)
Fixpoint copy_headers (l : list (string * list string)) (seen : list string) (total : Z) : result error Z :=
  match l with
  | [] => Ok total
  | (key, values) :: rest =>
      if String.eqb key "" || negb (String.eqb (TrimSpace key) key) || contains_any key (of_bytes [chr 13; chr 10])
      then Err (invalid_record "invalid DLQ header")
      else if existsb (String.eqb (ToLower key)) seen then Err (invalid_record "duplicate DLQ header")
      else if existsb (fun v => contains_any v (of_bytes [chr 13; chr 10])) values
      then Err (invalid_record "invalid DLQ header")
      else copy_headers rest (ToLower key :: seen)
             (total + len key + fold_right Z.add 0 (List.map len values))
  end.

Definition copyReplayHeaders (source : Header) : result error Header :=
  if DefaultMaxHeaders <? Z.of_nat (size source) then Err (invalid_record "too many DLQ headers")
  else if decide (source = ∅) then Ok ∅
  else match copy_headers (map_to_list source) [] 0 with
  | Err e => Err e
  | Ok total =>
      if maxReplayHeaderBytes <? total then Err (invalid_record "DLQ headers exceed byte limit") else Ok source
  end.

Definition headerByteCount (headers : Header) : Z :=
  fold_right Z.add 0
    (List.map (fun p => len p.1 + fold_right Z.add 0 (List.map len p.2)) (map_to_list headers)).

Definition valid_text (s : string) : bool := String.eqb (ToValidUTF8 s) s.
Definition losslessHeaders (headers : Header) : bool :=
  forallb (fun p => valid_text p.1 && forallb valid_text p.2) (map_to_list headers).

(** ** Digests *)
Definition writeDigestField (field : string) : string := Itoa (len field) ++ ":" ++ field.
Definition concat_fields (l : list string) : string := fold_right String.append "" (List.map writeDigestField l).

Definition sorted_keys (headers : Header) : list string := merge_sort string_le (List.map fst (map_to_list headers)).
Definition header_fields (headers : Header) : list string :=
  sorted_keys headers ≫= (fun key =>
    let values := default [] (headers !! key) in
    key :: Itoa (Z.of_nat (List.length values)) :: values).

Definition quarantine_fields (subject : string) (mode : WireMode) (headers : Header) (data : string) : list string :=
  ("gomessenger/quarantine/v2" :: subject :: mode :: Itoa (Z.of_nat (size headers)) :: header_fields headers ++ [data])%list.
Definition quarantineDigest (subject : string) (mode : WireMode) (headers : Header) (data : string) : string :=
  hex (Sum256 (concat_fields (quarantine_fields subject mode headers data))).

(** [replayDigest] orders the keys by their folded form. *)
Definition folded_le (a b : string) : Prop := string_le (ToLower a) (ToLower b).
#[local] Instance folded_le_dec : RelDecision folded_le.
Proof. intros a b. unfold folded_le. apply _. Defined.
Definition replay_header (headers : Header) (key : string) : string :=
  let values := default [] (headers !! key) in
  writeDigestField (ToLower key) ++ Itoa (Z.of_nat (List.length values)) ++ ":" ++ concat_fields values.
Definition replayDigest (subject : string) (mode : WireMode) (headers : Header) (data : string) : string :=
  Sum256 (writeDigestField subject ++ writeDigestField mode ++ Itoa (Z.of_nat (size headers)) ++ ":" ++
    fold_right String.append ""
      (List.map (replay_header headers) (merge_sort folded_le (List.map fst (map_to_list headers)))) ++
    writeDigestField data).

Definition dlqDedupID (consumerID subject : string) (mode : WireMode) (headers : Header) (data : string) : string :=
  "gm-dlq-" ++ hex (Sum256 (consumerID ++ of_bytes [chr 0] ++ replayDigest subject mode headers data)).

(** ** Validation *)
Definition validateQuarantine (record : DLQRecord) : option error :=
  match d_Quarantine record with
  | None => Some (invalid_record "invalid quarantine metadata")
  | Some capture =>
      if q_Replayable capture || (q_OriginalBytes capture <? 0) || (q_HeaderCount capture <? 0)
         || (q_HeaderBytes capture <? 0) || negb (String.eqb (d_Envelope record) "")
         || (negb (String.eqb (q_Reason capture) "headers_unreplayable")
             && negb (String.eqb (q_Reason capture) "record_too_large"))
      then Some (invalid_record "invalid quarantine metadata")
      else match hex_decode (bytes (q_InputSHA256 capture)) with
      | None => Some (invalid_record "invalid quarantine digest")
      | Some digest =>
          if negb (Z.of_nat (List.length digest) =? 32) then Some (invalid_record "invalid quarantine digest")
          else if q_OriginalOmitted capture then
            if negb (String.eqb (d_OriginalBase64 record) "") || negb (bool_decide (d_OriginalHeaders record = ∅))
            then Some (invalid_record "omitted quarantine contains source content") else None
          else match DecodeString (d_OriginalBase64 record) with
          | None => Some (invalid_record "inconsistent quarantine capture")
          | Some data =>
              if negb (len data =? q_OriginalBytes capture)
                 || negb (Z.of_nat (size (d_OriginalHeaders record)) =? q_HeaderCount capture)
                 || negb (headerByteCount (d_OriginalHeaders record) =? q_HeaderBytes capture)
                 || negb (losslessHeaders (d_OriginalHeaders record))
                 || negb (String.eqb (quarantineDigest (d_Subject record) (d_WireMode record)
                                        (d_OriginalHeaders record) data) (q_InputSHA256 capture))
              then Some (invalid_record "inconsistent quarantine capture") else None
          end
      end
  end.

Definition incomplete (record : DLQRecord) : bool :=
  (negb (String.eqb (d_SpecVersion record) DLQSpecVersion)
   && negb (String.eqb (d_SpecVersion record) QuarantineSpecVersion))
  || String.eqb (d_ConsumerID record) "" || String.eqb (d_Subject record) "" || (d_Attempt record =? 0)
  || String.eqb (d_FailureKind record) "" || String.eqb (d_Error record) "" || IsZero (d_FailedAt record)
  || negb (WireMode_valid (d_WireMode record)).

Definition validateDLQRecord (record : DLQRecord) : option error :=
  if incomplete record then Some (invalid_record "incomplete DLQ record")
  else match DecodeString (d_OriginalBase64 record) with
  | None => Some (invalid_record "invalid originalBase64")
  | Some _ =>
      if String.eqb (d_SpecVersion record) QuarantineSpecVersion then validateQuarantine record
      else match d_Quarantine record with
      | Some _ => Some (invalid_record "quarantine in v1 record")
      | None => match copyReplayHeaders (d_OriginalHeaders record) with Ok _ => None | Err e => Some e end
      end
  end.

(** ** Preparation *)
Definition dlqContentType (version : string) : string :=
  "application/vnd.gomessenger.dlq+json; version=" ++ version.

Definition marshalBoundedDLQ (record : DLQRecord) : result error string :=
  match json_Marshal record with
  | Err e => Err (EFmt "messenger/nats: encode terminal record" [e])
  | Ok encoded =>
      if (DefaultMaxDLQRecordBytes <? len encoded) && negb (String.eqb (d_Envelope record) "")
      then json_Marshal (set_envelope "" record)
      else Ok encoded
  end.

Definition quarantine_info (record : DLQRecord) (headers : Header) (data reason : string) : QuarantineInfo :=
  {| q_Reason := reason;
     q_InputSHA256 := quarantineDigest (d_Subject record) (d_WireMode record) headers data;
     q_OriginalBytes := len data; q_HeaderCount := Z.of_nat (size headers);
     q_HeaderBytes := headerByteCount headers; q_OriginalOmitted := true; q_Replayable := false |}.

(** The record without the source, and with it. *)
Definition quarantine_summary (record : DLQRecord) (headers : Header) (data reason : string) : DLQRecord :=
  set_quarantine (quarantine_info record headers data reason) record.
Definition quarantine_full (record : DLQRecord) (headers : Header) (data reason : string) : DLQRecord :=
  set_original headers (EncodeToString data)
    (set_quarantine (set_omitted false (quarantine_info record headers data reason)) record).

Definition prepareQuarantine (record : DLQRecord) (headers : Header) (data reason : string)
  : result error preparedDLQ :=
  let info := quarantine_info record headers data reason in
  let sourceBytes := EncodedLen (len data) + q_HeaderBytes info in
  let first := if losslessHeaders headers && (sourceBytes <=? DefaultMaxDLQRecordBytes)
               then quarantine_full record headers data reason else quarantine_summary record headers data reason in
  match json_Marshal first with
  | Err e => Err (EFmt "messenger/nats: encode quarantine" [e])
  | Ok encoded =>
      let second := if DefaultMaxDLQRecordBytes <? len encoded
                    then quarantine_summary record headers data reason else first in
      match (if DefaultMaxDLQRecordBytes <? len encoded then json_Marshal second else Ok encoded) with
      | Err e => Err (EFmt "messenger/nats: encode quarantine summary" [e])
      | Ok encoded =>
          if DefaultMaxDLQRecordBytes <? len encoded
          then Err (invalid_record "quarantine summary exceeds DLQ capacity")
          else match validateDLQRecord second with
          | Some e => Err e
          | None =>
              Ok {| pd_data := encoded;
                    pd_dedupID := "gm-quarantine-" ++
                      hex (Sum256 (d_ConsumerID record ++ of_bytes [chr 0] ++ q_InputSHA256 info));
                    pd_contentType := dlqContentType QuarantineSpecVersion |}
          end
      end
  end.

(** The record with the defaults filled in. *)
Definition dlq_defaults (record : DLQRecord) : DLQRecord :=
  let record := if String.eqb (d_Error record) "" then set_error "unspecified failure" record else record in
  let record := if String.eqb (d_FailureKind record) "" then set_kind "unknown" record else record in
  if json_Valid (d_Envelope record) then record else set_envelope "" record.

Definition prepareDLQ (record : DLQRecord) (headers : Header) (data : string) : result error preparedDLQ :=
  let record := dlq_defaults record in
  match copyReplayHeaders headers with
  | Err _ => prepareQuarantine record headers data "headers_unreplayable"
  | Ok cloned =>
      if negb (losslessHeaders headers) then prepareQuarantine record headers data "headers_unreplayable"
      else if DefaultMaxDLQRecordBytes <? EncodedLen (len data)
      then prepareQuarantine record headers data "record_too_large"
      else
        let record := set_original cloned (EncodeToString data) record in
        match validateDLQRecord record with
        | Some e => Err e
        | None =>
            match marshalBoundedDLQ record with
            | Err e => Err e
            | Ok encoded =>
                if DefaultMaxDLQRecordBytes <? len encoded
                then prepareQuarantine record headers data "record_too_large"
                else Ok {| pd_data := encoded;
                           pd_dedupID := dlqDedupID (d_ConsumerID record) (d_Subject record)
                                           (d_WireMode record) headers data;
                           pd_contentType := dlqContentType DLQSpecVersion |}
            end
        end
  end.

(** ** What a dead letter keeps *)

(** A record that the consumer fills in. *)
Definition complete (record : DLQRecord) : Prop :=
  d_SpecVersion record = DLQSpecVersion /\ d_Quarantine record = None /\ d_ConsumerID record <> "" /\
  d_Subject record <> "" /\ d_Attempt record <> 0 /\ d_FailedAt record <> 0 /\
  WireMode_valid (d_WireMode record) = true.

Definition same_failure (r r' : DLQRecord) : Prop :=
  d_ConsumerID r' = d_ConsumerID r /\ d_Subject r' = d_Subject r /\ d_Attempt r' = d_Attempt r /\
  d_FailedAt r' = d_FailedAt r /\ d_WireMode r' = d_WireMode r /\
  (d_FailureKind r <> "" -> d_FailureKind r' = d_FailureKind r) /\ (d_Error r <> "" -> d_Error r' = d_Error r).

Definition too_large (r : DLQRecord) : Prop := exists encoded, json_Marshal r = Ok encoded /\ DefaultMaxDLQRecordBytes < len encoded.

(** The record of the same failure that could be replayed, and the quarantine
    record with the source. *)
Definition replayable_form (r : DLQRecord) (headers : Header) (data : string) : DLQRecord :=
  {| d_Quarantine := None; d_SpecVersion := DLQSpecVersion; d_ConsumerID := d_ConsumerID r; d_Subject := d_Subject r;
     d_Attempt := d_Attempt r; d_FailureKind := d_FailureKind r; d_Error := d_Error r; d_FailedAt := d_FailedAt r;
     d_WireMode := d_WireMode r; d_Envelope := ""; d_OriginalHeaders := headers; d_OriginalBase64 := EncodeToString data |}.
Definition sourced_form (r : DLQRecord) (q : QuarantineInfo) (headers : Header) (data : string) : DLQRecord :=
  set_original headers (EncodeToString data) (set_quarantine (set_omitted false q) r).

(** Why a record is quarantined: its headers cannot be replayed, or the replayable
    record does not fit. *)
Definition unreplayable (r : DLQRecord) (reason : string) (headers : Header) (data : string) : Prop :=
  (reason = "headers_unreplayable" /\ ((exists e, copyReplayHeaders headers = Err e) \/ losslessHeaders headers = false)) \/
  (reason = "record_too_large" /\ (DefaultMaxDLQRecordBytes < EncodedLen (len data) \/ too_large (replayable_form r headers data))).

(** Why the source is left out: JSON cannot represent its headers, or the record
    with the source does not fit. *)
Definition unrepresentable (r : DLQRecord) (q : QuarantineInfo) (headers : Header) (data : string) : Prop :=
  losslessHeaders headers = false \/ DefaultMaxDLQRecordBytes < EncodedLen (len data) + headerByteCount headers \/
  too_large (sourced_form r q headers data).

(** The message itself; its sizes and digest alone only when it does not fit. *)
Definition captured (r : DLQRecord) (headers : Header) (data : string) : Prop :=
  match d_Quarantine r with
  | None =>
      d_SpecVersion r = DLQSpecVersion /\ d_OriginalHeaders r = headers /\
      DecodeString (d_OriginalBase64 r) = Some data
  | Some q =>
      d_SpecVersion r = QuarantineSpecVersion /\ q_Replayable q = false /\
      q_InputSHA256 q = quarantineDigest (d_Subject r) (d_WireMode r) headers data /\
      q_OriginalBytes q = len data /\ q_HeaderCount q = Z.of_nat (size headers) /\ q_HeaderBytes q = headerByteCount headers /\
      unreplayable r (q_Reason q) headers data /\
      (if q_OriginalOmitted q
       then d_OriginalHeaders r = ∅ /\ d_OriginalBase64 r = "" /\ unrepresentable r q headers data
       else d_OriginalHeaders r = headers /\ DecodeString (d_OriginalBase64 r) = Some data)
  end.

Lemma copyReplayHeaders_same h c : copyReplayHeaders h = Ok c -> c = h.
Proof.
  unfold copyReplayHeaders. repeat case_goal; try done; congruence.
Qed.

Lemma dlq_defaults_facts record :
  same_failure record (dlq_defaults record) /\ d_FailureKind (dlq_defaults record) <> "" /\
  d_Error (dlq_defaults record) <> "" /\ d_SpecVersion (dlq_defaults record) = d_SpecVersion record /\
  d_Quarantine (dlq_defaults record) = d_Quarantine record.
Proof.
  unfold dlq_defaults, same_failure.
  destruct (String.eqb_spec (d_Error record) "") as [He|He]; cbn;
    (destruct (String.eqb_spec (d_FailureKind record) "") as [Hk|Hk]; cbn);
    case_goal; cbn; split_and!; done || congruence.
Qed.

Lemma complete_not_incomplete r :
  d_SpecVersion r = DLQSpecVersion \/ d_SpecVersion r = QuarantineSpecVersion ->
  d_ConsumerID r <> "" -> d_Subject r <> "" -> d_Attempt r <> 0 -> d_FailureKind r <> "" -> d_Error r <> "" ->
  d_FailedAt r <> 0 -> WireMode_valid (d_WireMode r) = true -> incomplete r = false.
Proof.
  intros Hv Hc Hs Ha Hk He Hf Hw. unfold incomplete, IsZero. rewrite Hw.
  apply String.eqb_neq in Hc, Hs, Hk, He. apply Z.eqb_neq in Ha, Hf. rewrite Hc, Hs, Hk, He, Ha, Hf.
  by destruct Hv as [-> | ->].
Qed.

Lemma digest_decodes subject mode headers data :
  hex_decode (bytes (quarantineDigest subject mode headers data)) =
    Some (bytes (Sum256 (concat_fields (quarantine_fields subject mode headers data)))).
Proof. unfold quarantineDigest, hex. by rewrite bytes_of_bytes, hex_decode_encode. Qed.

Lemma length_digest s : Z.of_nat (List.length (bytes (Sum256 s))) = 32.
Proof. by rewrite length_bytes, length_Sum256. Qed.

Lemma headerByteCount_nonneg h : 0 <= headerByteCount h.
Proof.
  unfold headerByteCount. induction (map_to_list h) as [|[k vs] l IH]; simpl; [lia|].
  assert (0 <= fold_right Z.add 0 (List.map len vs)) by (induction vs as [|v vs IHv]; simpl; [lia|pose proof (len_nonneg v); lia]).
  pose proof (len_nonneg k). lia.
Qed.

#[local] Opaque Sum256 quarantineDigest hex_decode.

Lemma len_ltb_0 s : (len s <? 0) = false.
Proof. apply Z.ltb_ge, len_nonneg. Qed.

(** A quarantined record is valid, with the source or without it. *)
Lemma quarantine_valid record headers data reason (full : bool) :
  d_ConsumerID record <> "" -> d_Subject record <> "" -> d_Attempt record <> 0 -> d_FailureKind record <> "" ->
  d_Error record <> "" -> d_FailedAt record <> 0 -> WireMode_valid (d_WireMode record) = true ->
  reason = "headers_unreplayable" \/ reason = "record_too_large" ->
  (full = true -> losslessHeaders headers = true) ->
  validateDLQRecord (if full then quarantine_full record headers data reason
                     else quarantine_summary record headers data reason) = None.
Proof.
  intros Hc Hs Ha Hk He Hf Hw Hr Hl. unfold validateDLQRecord.
  rewrite complete_not_incomplete by (destruct full; cbn; auto).
  assert ((Z.of_nat (size headers) <? 0) = false /\ (headerByteCount headers <? 0) = false) as [Hsz Hhb]
    by (split; apply Z.ltb_ge; [lia|apply headerByteCount_nonneg]).
  assert (negb (String.eqb reason "headers_unreplayable") && negb (String.eqb reason "record_too_large") = false) as Hrs
    by (destruct Hr as [-> | ->]; done).
  destruct full; cbn -[Z.of_nat Z.ltb Z.eqb]; unfold validateQuarantine; cbn -[Z.of_nat Z.ltb Z.eqb].
  - rewrite DecodeString_EncodeToString, len_ltb_0, Hsz, Hhb, Hrs, digest_decodes, length_digest. cbn -[Z.of_nat Z.ltb].
    rewrite !Z.eqb_refl, (Hl eq_refl), String.eqb_refl. done.
  - rewrite len_ltb_0, Hsz, Hhb, Hrs, digest_decodes, length_digest. cbn. by rewrite bool_decide_eq_true_2.
Qed.

(** A JSON encoding that did not work out. *)
Definition marshal_trouble : Prop :=
  exists r, match json_Marshal r with
            | Err _ => True
            | Ok encoded => DefaultMaxDLQRecordBytes < len encoded /\ d_OriginalHeaders r = ∅ /\ d_OriginalBase64 r = ""
            end.

Definition prepared_ok (record : DLQRecord) (headers : Header) (data : string) (res : result error preparedDLQ) : Prop :=
  match res with
  | Ok p => exists r, json_Marshal r = Ok (pd_data p) /\ len (pd_data p) <= DefaultMaxDLQRecordBytes /\
              validateDLQRecord r = None /\ same_failure record r /\ captured r headers data
  | Err _ => marshal_trouble
  end.

Lemma same_failure_trans a b c : d_FailureKind b <> "" -> d_Error b <> "" ->
  same_failure a b -> same_failure b c -> same_failure a c.
Proof.
  intros Hkb Heb (A1 & A2 & A3 & A4 & A5 & A6 & A7) (B1 & B2 & B3 & B4 & B5 & B6 & B7).
  split_and!; try congruence; intros H; [rewrite <- (A6 H)|rewrite <- (A7 H)]; auto.
Qed.

Section Complete.
Context (record : DLQRecord) (headers : Header) (data : string).
Hypothesis (Hc : d_ConsumerID record <> "") (Hs : d_Subject record <> "") (Ha : d_Attempt record <> 0).
Hypothesis (Hk : d_FailureKind record <> "") (He : d_Error record <> "") (Hf : d_FailedAt record <> 0).
Hypothesis (Hw : WireMode_valid (d_WireMode record) = true).

(** The record that is tried first, and when the source is left out of it. *)
Definition quarantine_form (full : bool) (reason : string) : DLQRecord :=
  if full then quarantine_full record headers data reason else quarantine_summary record headers data reason.

Lemma quarantine_form_ok full reason : unreplayable record reason headers data ->
  (full = true -> losslessHeaders headers = true) ->
  (full = false -> unrepresentable record (quarantine_info record headers data reason) headers data) ->
  validateDLQRecord (quarantine_form full reason) = None /\ same_failure record (quarantine_form full reason) /\
  captured (quarantine_form full reason) headers data.
Proof.
  intros Hr Hl Ho. split; [apply quarantine_valid; try done; destruct Hr as [[? _]|[? _]]; auto|].
  destruct full; (split; [by unfold same_failure; cbn; split_and!|]); unfold captured; cbn; split_and!; auto.
  apply DecodeString_EncodeToString.
Qed.

Lemma prepareQuarantine_ok reason : unreplayable record reason headers data ->
  prepared_ok record headers data (prepareQuarantine record headers data reason).
Proof.
  intros Hr. unfold prepareQuarantine.
  set (full := losslessHeaders headers &&
         (EncodedLen (len data) + q_HeaderBytes (quarantine_info record headers data reason) <=? DefaultMaxDLQRecordBytes)).
  assert (full = true -> losslessHeaders headers = true) as Hfull by (unfold full; intros ?%andb_true_iff; tauto).
  assert (full = false -> unrepresentable record (quarantine_info record headers data reason) headers data) as Hout.
  { unfold full. intros [?|?%Z.leb_gt]%andb_false_iff; [by left|by right; left]. }
  change (if full then quarantine_full record headers data reason else quarantine_summary record headers data reason)
    with (quarantine_form full reason).
  change (quarantine_summary record headers data reason) with (quarantine_form false reason).
  cbv zeta. destruct (json_Marshal (quarantine_form full reason)) as [encoded|e] eqn:E1; [|exists (quarantine_form full reason); by rewrite E1].
  destruct (Z.ltb_spec DefaultMaxDLQRecordBytes (len encoded)) as [Hbig|Hsmall].
  - destruct (json_Marshal (quarantine_form false reason)) as [enc2|e] eqn:E2; [|exists (quarantine_form false reason); by rewrite E2].
    destruct (Z.ltb_spec DefaultMaxDLQRecordBytes (len enc2)) as [Hbig2|Hsmall2].
    + exists (quarantine_form false reason). rewrite E2. by split_and!.
    + destruct (quarantine_form_ok false reason Hr) as (Hv & Hsf & Hcap); [done| |].
      { intros _. destruct full; [|by apply Hout]. right. right. by exists encoded. }
      rewrite Hv. exists (quarantine_form false reason). by split_and!.
  - destruct (Z.ltb_spec DefaultMaxDLQRecordBytes (len encoded)) as [|_]; [lia|].
    destruct (quarantine_form_ok full reason Hr Hfull Hout) as (Hv & Hsf & Hcap). rewrite Hv. exists (quarantine_form full reason). by split_and!.
Qed.
End Complete.

Lemma prepared_ok_weaken a b headers data res :
  d_FailureKind b <> "" -> d_Error b <> "" -> same_failure a b ->
  prepared_ok b headers data res -> prepared_ok a headers data res.
Proof.
  intros Hk He Hs. destruct res as [p|e]; [|done].
  intros (r & H1 & H2 & H3 & H4 & H5). exists r. split_and!; auto. by eapply same_failure_trans.
Qed.

Lemma prepareDLQ_ok record headers data :
  complete record -> prepared_ok record headers data (prepareDLQ record headers data).
Proof.
  intros (Hv & Hq & Hc & Hs & Ha & Hf & Hw).
  destruct (dlq_defaults_facts record) as (Hsame & Hk & He & Hv' & Hq').
  pose proof Hsame as (Hc1 & Hs1 & Ha1 & Hf1 & Hw1 & _).
  apply (prepared_ok_weaken _ (dlq_defaults record)); [done..|].
  rewrite <- Hc1 in Hc. rewrite <- Hs1 in Hs. rewrite <- Ha1 in Ha. rewrite <- Hf1 in Hf. rewrite <- Hw1 in Hw.
  rewrite Hv in Hv'. rewrite Hq in Hq'. clear Hsame Hc1 Hs1 Ha1 Hf1 Hw1 Hv Hq. rename Hv' into Hv, Hq' into Hq.
  unfold prepareDLQ. cbv zeta. set (rec0 := dlq_defaults record) in *. clearbody rec0. clear record. rename rec0 into record.
  destruct (copyReplayHeaders headers) as [cloned|e] eqn:Ecopy; [|apply prepareQuarantine_ok; try done; left; by eauto].
  destruct (losslessHeaders headers) eqn:El; [|apply prepareQuarantine_ok; try done; left; by auto].
  destruct (Z.ltb_spec DefaultMaxDLQRecordBytes (EncodedLen (len data))); [apply prepareQuarantine_ok; try done; right; by auto|].
  simpl negb. cbv iota.
  pose proof (copyReplayHeaders_same _ _ Ecopy) as ->.
  set (full := set_original headers (EncodeToString data) record).
  assert (forall env, validateDLQRecord (set_envelope env full) = None) as Hvalid.
  { intros env. unfold validateDLQRecord.
    rewrite complete_not_incomplete by (cbn; auto). cbn. rewrite DecodeString_EncodeToString, Hv, Hq. cbn. by rewrite Ecopy. }
  assert (set_envelope (d_Envelope full) full = full) as Hself by (by destruct full).
  assert (forall env, same_failure record (set_envelope env full) /\ captured (set_envelope env full) headers data) as Hcap.
  { intros env. split; [by unfold same_failure; cbn; split_and!|]. unfold captured. cbn. rewrite Hq. split_and!; auto.
    apply DecodeString_EncodeToString. }
  pose proof (Hvalid (d_Envelope full)) as Hvf. rewrite Hself in Hvf. rewrite Hvf.
  assert (set_envelope "" full = replayable_form record headers data) as Hform
    by (unfold full, set_envelope, set_original, replayable_form; cbn; by rewrite Hq, Hv).
  assert (forall encoded, json_Marshal (set_envelope "" full) = Ok encoded -> DefaultMaxDLQRecordBytes < len encoded ->
    prepared_ok record headers data (prepareQuarantine full headers data "record_too_large")) as Hlarge.
  { intros encoded Henc Hbig. apply (prepareQuarantine_ok record headers data); try done. right. split; [done|]. right.
    exists encoded. by rewrite <- Hform. }
  unfold marshalBoundedDLQ. destruct (json_Marshal full) as [encoded|e] eqn:E1; [|exists full; by rewrite E1].
  destruct ((DefaultMaxDLQRecordBytes <? len encoded) && negb (String.eqb (d_Envelope full) "")) eqn:Ebig.
  - destruct (json_Marshal (set_envelope "" full)) as [enc2|e] eqn:E2; [|exists (set_envelope "" full); by rewrite E2].
    destruct (Z.ltb_spec DefaultMaxDLQRecordBytes (len enc2)); [by eapply Hlarge|].
    exists (set_envelope "" full). destruct (Hcap ""). by split_and!.
  - destruct (Z.ltb_spec DefaultMaxDLQRecordBytes (len encoded)).
    { apply (Hlarge encoded); [|done]. apply negb_false_iff, String.eqb_eq in Ebig. by rewrite <- Ebig, Hself. }
    exists full. destruct (Hcap (d_Envelope full)) as [H1 H2]. rewrite Hself in H1, H2. by split_and!.
Qed.

(** The terminal record of a dead-lettered message is bounded and faithful:
    for a record the consumer filled in, preparation fails only when JSON
    encoding fails or the bare summary is too large; otherwise the prepared bytes
    are the encoding, within the limit, of a valid record of this failure that
    either carries exactly the original headers and payload, or is a quarantine
    record, because the headers cannot be replayed or the replayable record does not
    fit.  A quarantine record has the digest and sizes of the source; it leaves the
    source out only when JSON cannot represent the headers or the record with the
    source does not fit. *)
Theorem prepareDLQ_faithful record headers data :
  complete record -> prepared_ok record headers data (prepareDLQ record headers data).
Proof. apply prepareDLQ_ok. Qed.
End DLQ.

(** ** Witness *)
Definition demo_record : DLQRecord :=
  {| d_Quarantine := None; d_SpecVersion := DLQSpecVersion; d_ConsumerID := "billing"; d_Subject := "app.event.paid.v1";
     d_Attempt := 3; d_FailureKind := "permanent"; d_Error := "boom"; d_FailedAt := 1; d_WireMode := WireNative;
     d_Envelope := "{}"; d_OriginalHeaders := ∅; d_OriginalBase64 := "" |}.
Definition demo_marshal (r : DLQRecord) : result error string := Ok (d_OriginalBase64 r).

Lemma prepareDLQ_faithful_witness :
  match prepareDLQ demo_marshal (fun _ => true) (fun s => s) demo_record {["a" := ["1"]]} "payload" with
  | Ok p => pd_data p = "cGF5bG9hZA=="
  | Err _ => False
  end /\
  prepared_ok demo_marshal (fun s => s) demo_record {["a" := ["1"]]} "payload"
    (prepareDLQ demo_marshal (fun _ => true) (fun s => s) demo_record {["a" := ["1"]]} "payload").
Proof.
  split; [vm_compute; reflexivity|].
  apply (prepareDLQ_faithful demo_marshal (fun _ => true) (fun s => s)). unfold complete. repeat apply conj; first [reflexivity|discriminate].
Defined.
End NatsDLQ.
