(* ===== verification/NatsSubject.v ===== *)
(** * Subjects of the NATS adapter

    Models [adapters/nats/subject.go] and the subject comparison of
    [adapters/nats/topology.go].  [matches] is the meaning of a subject pattern
    in NATS: [*] stands for one token, a final [>] for one or more. *)
From S2P Require Import Prelude GoStrings GoText Errors Ident.
From Stdlib Require Import Ascii.
Import Stdlib.Strings.String.
Open Scope string_scope.
Open Scope Z_scope.

Module NatsSubject.

Definition maxJetStreamResourceNameBytes : Z := 255.

(** ** Runes *)

(** [for _, character := range value]; an invalid byte is a rune of its own. *)
Fixpoint runes (fuel : nat) (l : list ascii) : list (list ascii) :=
  match fuel, l with
  | S fuel, _ :: _ =>
      let w := Nat.max 1 (rune_size l) in take w l :: runes fuel (drop w l)
  | _, _ => []
  end.

Definition IsSpace (r : list ascii) : bool := bool_decide (r ∈ space_seqs).
Definition IsControl (r : list ascii) : bool :=
  match r with
  | [c] => in_range 0 31 c || in_range 127 127 c
  | [a; b] => in_range 194 194 a && in_range 128 159 b
  | _ => false
  end.

(** ** Validation *)
Definition invalid_token : error := ENew "invalid subject token".

(** The checks that both modes share. *)
Definition bad_token (value : string) : bool :=
  String.eqb value "" || negb (String.eqb (TrimSpace value) value) || contains_any value "*>".

(** [validateSubjectToken(value, false)] *)
Definition validateToken (value : string) : option error :=
  if bad_token value then Some invalid_token
  else if contains_any value "." then Some (ENew "unexpected dot in token")
  else if existsb (fun r => IsSpace r || IsControl r) (runes (String.length value) (bytes value))
  then Some (ENew "invalid whitespace") else None.

Definition validateSubjectToken (value : string) (allowDots : bool) : option error :=
  if allowDots then
    if bad_token value then Some invalid_token else first_some (List.map validateToken (Split value))
  else validateToken value.

Fixpoint pattern_tokens (tokens : list string) : option error :=
  match tokens with
  | [] => None
  | token :: rest =>
      if String.eqb token "*" then pattern_tokens rest
      else if String.eqb token ">" then
        match rest with
        | [] => pattern_tokens rest
        | _ => Some (ENew "terminal wildcard must be the final token")
        end
      else match validateToken token with
      | Some e => Some e
      | None => pattern_tokens rest
      end
  end.

Definition validateSubjectPattern (value : string) : option error :=
  if String.eqb value "" || negb (String.eqb (TrimSpace value) value)
  then Some (ENew "invalid subject pattern") else pattern_tokens (Split value).

Definition resource_cutset : string := of_bytes (List.map chr [32; 9; 13; 10; 12; 46; 42; 62; 92; 47]).

Definition validateJetStreamResourceName (value : string) : option error :=
  if String.eqb value "" then Some (ENew "empty JetStream resource name")
  else if maxJetStreamResourceNameBytes <? len value then Some (ENew "JetStream resource name exceeds 255 bytes")
  else if contains_any value resource_cutset then Some (ENew "invalid JetStream resource name")
  else None.

Definition validForAdapter (kind : Kind) : bool := String.eqb kind KindCommand || String.eqb kind KindEvent.

Definition invalid_config (label : string) (causes : list error) : error :=
  EFmt label (ESentinel ErrNatsInvalidConfig :: causes).

Definition Subject (namespace : string) (descriptor : DescriptorInfo) : result error string :=
  match validateSubjectToken namespace true with
  | Some e => Err (invalid_config "namespace" [e])
  | None =>
      if negb (validForAdapter (di_Kind descriptor)) || String.eqb (di_Name descriptor) ""
         || (di_SchemaVersion descriptor <=? 0)
      then Err (invalid_config "invalid descriptor" [])
      else match first_some (List.map validateToken (Split (di_Name descriptor))) with
      | Some e => Err (invalid_config "descriptor name" [e])
      | None =>
          Ok (namespace ++ "." ++ di_Kind descriptor ++ "." ++ di_Name descriptor ++ ".v"
              ++ Itoa (di_SchemaVersion descriptor))
      end
  end.

(** ** Comparison of patterns *)

(** The loop over the tokens of [desired], in step with those of [current]. *)
Fixpoint tokens_cover (desired current : list string) : bool :=
  match desired with
  | [] => match current with [] => true | _ => false end
  | d :: ds =>
      if String.eqb d ">" then
        match ds with [] => match current with [] => false | _ => true end | _ => false end
      else match current with
      | [] => false
      | c :: cs =>
          if String.eqb c ">" then false
          else if String.eqb d "*" then tokens_cover ds cs
          else if String.eqb c "*" || negb (String.eqb d c) then false
          else tokens_cover ds cs
      end
  end.

Definition subjectPatternCovers (desired current : string) : bool :=
  tokens_cover (Split desired) (Split current).

Definition streamSubjectsCoverFilter (subjects : list string) (filter : string) : bool :=
  existsb (fun subject => subjectPatternCovers subject filter) subjects.

Definition isSubjectSuperset (desired current : list string) : bool :=
  forallb (fun existing => existsb (fun candidate => subjectPatternCovers candidate existing) desired) current.

(** ** Meaning *)
Fixpoint tokens_match (pattern subject : list string) : bool :=
  match pattern, subject with
  | [], [] => true
  | p :: ps, s :: ss =>
      if String.eqb p ">" then match ps with [] => true | _ => false end
      else (String.eqb p "*" || String.eqb p s) && tokens_match ps ss
  | _, _ => false
  end.

Definition matches (pattern subject : string) : bool := tokens_match (Split pattern) (Split subject).

(** A subject a message can be published on. *)
Definition literal (subject : string) : Prop := Forall (fun t => validateToken t = None) (Split subject).

(** ** Tokens *)
Lemma contains_any_not s cs c : contains_any s cs = false -> c ∈ bytes cs -> c ∉ bytes s.
Proof.
  unfold contains_any. intros H Hc Hin. rewrite <- not_true_iff_false, existsb_exists in H. apply H.
  exists c. split; [by apply list_elem_of_In|]. apply existsb_exists. exists c. split; [by apply list_elem_of_In|].
  apply Ascii.eqb_refl.
Qed.

Lemma validateToken_facts t : validateToken t = None -> t <> "" /\ t <> "*" /\ t <> ">" /\ dot ∉ bytes t.
Proof.
  intros H. split_and!; try (intros ->; by vm_compute in H).
  unfold validateToken in H. repeat (case_in H; try done).
  eapply contains_any_not; [done|]. by left.
Qed.

Lemma split_join segs : segs <> [] -> Forall (fun s => dot ∉ s) segs -> split_on dot (join_with dot segs) = segs.
Proof.
  induction segs as [|s segs IH]; intros Hne Hf; [done|]. inversion Hf as [|? ? Hs Hf']; subst.
  destruct segs as [|s' segs]; simpl; [by apply split_plain|].
  rewrite split_app, split_plain by done. simpl. f_equal. by apply IH.
Qed.

(** The subject with the given tokens. *)
Definition subject_of (tokens : list string) : string := of_bytes (join_with dot (List.map bytes tokens)).

Lemma Split_subject_of tokens : tokens <> [] -> Forall (fun t => validateToken t = None) tokens ->
  Split (subject_of tokens) = tokens.
Proof.
  intros Hne Hf. unfold Split, subject_of. rewrite bytes_of_bytes, split_join.
  - rewrite List.map_map. rewrite <- (List.map_id tokens) at 2. apply map_ext. apply of_bytes_bytes.
  - by destruct tokens.
  - apply Forall_map. eapply Forall_impl; [done|]. intros t Ht. by apply validateToken_facts in Ht as (_ & _ & _ & ?).
Qed.

Lemma Split_nonempty s : Split s <> [].
Proof. unfold Split. destruct (split_on_cons dot (bytes s)) as (a & l & ->). done. Qed.

(** A token that is valid and differs from a given one. *)
Definition other (d : string) : string := if String.eqb d "a" then "b" else "a".
Lemma other_ok d : validateToken (other d) = None /\ String.eqb d (other d) = false.
Proof. unfold other. destruct (String.eqb_spec d "a") as [->|Hd]; split; try by vm_compute. by apply String.eqb_neq. Qed.

(** Some subject that a pattern matches. *)
Definition instance (p : list string) : list string :=
  List.map (fun t => if String.eqb t "*" || String.eqb t ">" then "a" else t) p.

Definition tokens_ok (p : list string) : Prop := pattern_tokens p = None.

Lemma tokens_ok_cons t p : tokens_ok (t :: p) ->
  tokens_ok p /\ (t = "*" \/ (t = ">" /\ p = []) \/ (validateToken t = None /\ t <> "*" /\ t <> ">")).
Proof.
  unfold tokens_ok. cbn [pattern_tokens]. destruct (String.eqb_spec t "*"); [tauto|].
  destruct (String.eqb_spec t ">"); [destruct p; [tauto|done]|].
  destruct (validateToken t) eqn:E; [done|]. tauto.
Qed.

Ltac eqb_neq := repeat match goal with H : ?a <> ?b :> string |- context [String.eqb ?a ?b] =>
  rewrite (proj2 (String.eqb_neq a b) H) end.

Lemma instance_ok p : tokens_ok p ->
  Forall (fun t => validateToken t = None) (instance p) /\ tokens_match p (instance p) = true.
Proof.
  induction p as [|t p IH]; intros Hp; [done|]. apply tokens_ok_cons in Hp as [Hp Ht].
  destruct (IH Hp) as [IH1 IH2]. unfold instance in *. cbn [List.map tokens_match].
  destruct Ht as [-> |[[-> ->]|(Hv & H1 & H2)]]; cbn; [split; [by constructor|done]..|].
  eqb_neq. cbn. rewrite String.eqb_refl. split; [by constructor|done].
Qed.

(** ** The comparison decides inclusion *)
Lemma tokens_cover_sound p q s :
  tokens_cover p q = true -> Forall (fun t => validateToken t = None) s ->
  tokens_match q s = true -> tokens_match p s = true.
Proof.
  revert q s. induction p as [|d ds IH]; intros q s Hc Hs Hm; cbn [tokens_cover] in Hc.
  - destruct q; [|done]. by destruct s.
  - destruct (String.eqb d ">") eqn:Ed.
    + destruct ds, q; try done. destruct s; [done|]. cbn. by rewrite Ed.
    + destruct q as [|c cs]; [done|]. destruct (String.eqb c ">") eqn:Ec; [done|].
      destruct s as [|x s]; [done|]. cbn in Hm |- *. rewrite Ec in Hm. rewrite Ed.
      apply andb_true_iff in Hm as [Hx Hm]. inversion Hs; subst.
      destruct (String.eqb d "*") eqn:Ed2; [cbn; by eauto|].
      destruct (String.eqb c "*") eqn:Ec2; [done|]. destruct (String.eqb_spec d c) as [<-|]; [|done].
      cbn in Hc, Hx |- *. rewrite Hx. cbn. by eauto.
Qed.

Lemma tokens_cover_complete p q :
  tokens_ok p -> tokens_ok q ->
  (forall s, Forall (fun t => validateToken t = None) s -> tokens_match q s = true -> tokens_match p s = true) ->
  tokens_cover p q = true.
Proof.
  revert q. induction p as [|d ds IH]; intros q Hp Hq H.
  { destruct q as [|c cs]; [done|]. destruct (instance_ok _ Hq) as [Hi1 Hi2]. by specialize (H _ Hi1 Hi2). }
  apply tokens_ok_cons in Hp as [Hds Hd].
  destruct q as [|c cs].
  { specialize (H [] ltac:(constructor) eq_refl). done. }
  pose proof (instance_ok _ Hq) as [Hi1 Hi2]. apply tokens_ok_cons in Hq as [Hcs Hc].
  pose proof (instance_ok _ Hcs) as [Hj1 Hj2].
  assert (validateToken "a" = None) as Ha by reflexivity.
  destruct Hd as [-> |[[-> ->]|(Hv & H1 & H2)]]; [|done|].
  - (* [*] *) destruct Hc as [-> |[[-> ->]|(Hw & H3 & H4)]]; cbn [tokens_cover].
    + apply IH; [done..|]. intros s Hs Hm. apply (H ("a" :: s)); [by constructor|done].
    + exfalso. destruct ds as [|d' ds].
      * by specialize (H ["a"; "a"] ltac:(by repeat constructor) eq_refl).
      * by specialize (H ["a"] ltac:(by repeat constructor) eq_refl).
    + cbn. eqb_neq. apply IH; [done..|]. intros s Hs Hm. apply (H (c :: s)); [by constructor|].
      cbn. eqb_neq. by rewrite String.eqb_refl.
  - (* a literal token *) cbn [tokens_cover]. eqb_neq. destruct (other_ok d) as [Hov Hod].
    assert (forall s, tokens_match (d :: ds) (other d :: s) = false) as Hno by (intros s; cbn; eqb_neq; by rewrite Hod).
    destruct Hc as [-> |[[-> ->]|(Hw & H3 & H4)]].
    + specialize (H (other d :: instance cs) ltac:(by constructor)). rewrite Hno in H. discriminate (H Hj2).
    + specialize (H [other d] ltac:(by constructor) eq_refl). rewrite Hno in H. done.
    + eqb_neq. cbn. destruct (String.eqb_spec d c) as [<-|Hne]; cbn.
      * apply IH; [done..|]. intros s Hs Hm. specialize (H (d :: s) ltac:(by constructor)). cbn in H. revert H. eqb_neq.
        rewrite String.eqb_refl. auto.
      * exfalso. specialize (H _ Hi1 Hi2). cbn in H. revert H. eqb_neq. cbn. eqb_neq. done.
Qed.

(** The comparison of subject patterns is exact: a valid pattern covers
    another one if and only if it matches every publishable subject that the
    other one matches. *)
Theorem subjectPatternCovers_spec desired current :
  validateSubjectPattern desired = None -> validateSubjectPattern current = None ->
  subjectPatternCovers desired current = true <->
  forall subject, literal subject -> matches current subject = true -> matches desired subject = true.
Proof.
  unfold validateSubjectPattern, subjectPatternCovers, matches, literal. intros Hd Hc.
  case_in Hd; [done|]. case_in Hc; [done|]. split.
  - intros H s Hs Hm. by eapply tokens_cover_sound.
  - intros H. apply tokens_cover_complete; [done..|]. intros s Hs Hm.
    destruct s as [|t s]; [destruct (Split current) eqn:E; [by apply Split_nonempty in E|done]|].
    rewrite <- (Split_subject_of (t :: s)) by done. apply H; by rewrite Split_subject_of.
Qed.

Lemma subjectPatternCovers_spec_witness :
  subjectPatternCovers "orders.>" "orders.*.created" = true /\
  (forall subject, literal subject -> matches "orders.*.created" subject = true -> matches "orders.>" subject = true).
Proof.
  assert (subjectPatternCovers "orders.>" "orders.*.created" = true) as H by (vm_compute; reflexivity).
  split; [exact H|]. apply (subjectPatternCovers_spec "orders.>" "orders.*.created"); [vm_compute; reflexivity..|exact H].
Defined.

Lemma subjectPatternCovers_refl p : validateSubjectPattern p = None -> subjectPatternCovers p p = true.
Proof.
  unfold validateSubjectPattern, subjectPatternCovers. intros H. case_in H; [done|].
  apply tokens_cover_complete; auto.
Qed.

Lemma isSubjectSuperset_refl l : Forall (fun p => validateSubjectPattern p = None) l -> isSubjectSuperset l l = true.
Proof.
  intros H. apply forallb_forall. intros p Hp. apply existsb_exists. exists p. split; [done|].
  rewrite Forall_forall in H. apply subjectPatternCovers_refl, H. by apply list_elem_of_In.
Qed.

(** No subject is lost when a list of patterns is replaced by a superset. *)
Lemma isSubjectSuperset_sound desired current s :
  isSubjectSuperset desired current = true -> literal s ->
  existsb (fun p => matches p s) current = true -> existsb (fun p => matches p s) desired = true.
Proof.
  unfold isSubjectSuperset. intros H Hs (p & Hp & Hm)%existsb_exists. rewrite forallb_forall in H.
  apply H, existsb_exists in Hp as (q & Hq & Hc). apply existsb_exists. exists q. split; [done|].
  by eapply tokens_cover_sound.
Qed.

(** ** Physical subjects *)
Lemma first_some_validate l : first_some (List.map validateToken l) = None -> Forall (fun t => validateToken t = None) l.
Proof. rewrite first_some_None, Forall_map. done. Qed.

Lemma Split_app_dot a b : Split (a ++ "." ++ b) = (Split a ++ Split b)%list.
Proof. unfold Split. rewrite !bytes_app. change (bytes ".") with [dot]. cbn [app]. by rewrite split_app, List.map_app. Qed.

Lemma Split_plain s : dot ∉ bytes s -> Split s = [s].
Proof. intros H. unfold Split. rewrite split_plain by done. cbn. by rewrite of_bytes_bytes. Qed.

Lemma version_no_dot n : 0 <= n -> dot ∉ bytes ("v" ++ Itoa n).
Proof.
  intros Hn. destruct (bytes_Itoa n Hn) as (E & _ & Hd). rewrite bytes_app, E. change (bytes "v") with ["v"%char].
  intros [? | Hin]%elem_of_cons; [done|].
  rewrite Forall_forall in Hd. apply Hd in Hin. by apply digit_not in Hin as [].
Qed.

Lemma kind_no_dot k : validForAdapter k = true -> dot ∉ bytes k.
Proof.
  unfold validForAdapter. intros [->%String.eqb_eq| ->%String.eqb_eq]%orb_true_iff; vm_compute; intros H;
    repeat (apply elem_of_cons in H as [?|H]; [done|]); by apply elem_of_nil in H.
Qed.

(** The tokens of a physical subject. *)
Lemma Subject_tokens namespace d s : Subject namespace d = Ok s ->
  Split s = (Split namespace ++ di_Kind d :: Split (di_Name d) ++ [("v" ++ Itoa (di_SchemaVersion d))%string])%list /\
  0 < di_SchemaVersion d.
Proof.
  unfold Subject. intros H. repeat (case_in H; try done). apply Ok_inj in H as <-. bool_simpl. split; [|lia].
  change (".v" ++ Itoa (di_SchemaVersion d)) with ("." ++ ("v" ++ Itoa (di_SchemaVersion d))).
  rewrite !Split_app_dot, (Split_plain (di_Kind d)), (Split_plain ("v" ++ _)); [done|..].
  - apply version_no_dot. lia.
  - by apply kind_no_dot.
Qed.

(** In one namespace, two descriptors have the same physical subject only if
    they agree on kind, name and schema version. *)
Theorem Subject_injective namespace d1 d2 s :
  Subject namespace d1 = Ok s -> Subject namespace d2 = Ok s -> keyFor d1 = keyFor d2.
Proof.
  intros [H1 P1]%Subject_tokens [H2 P2]%Subject_tokens. rewrite H1 in H2. apply app_inv_head in H2.
  injection H2 as Hk Hr. apply app_inj_tail in Hr as [Hn Hv]. injection Hv as Hv.
  apply Itoa_inj in Hv; [|lia..]. unfold keyFor. rewrite Hk, Hv. f_equal.
  apply bytes_inj, (split_inj dot). unfold Split in Hn.
  apply (f_equal (List.map bytes)) in Hn. rewrite !List.map_map in Hn.
  erewrite (map_ext _ id), (map_ext (fun x => bytes (of_bytes x)) id) in Hn; [|intros; apply bytes_of_bytes..].
  by rewrite !List.map_id in Hn.
Qed.

Definition order_paid : DescriptorInfo :=
  {| di_Kind := KindEvent; di_Name := "order.paid"; di_SchemaVersion := 2; di_ContentType := "application/json";
     di_DataEncoding := DataJSON; di_Schema := "" |}.

Lemma Subject_injective_witness :
  Subject "shop.eu" order_paid = Ok "shop.eu.event.order.paid.v2" /\ keyFor order_paid = keyFor order_paid.
Proof.
  assert (Subject "shop.eu" order_paid = Ok "shop.eu.event.order.paid.v2") as H by (vm_compute; reflexivity).
  split; [exact H|]. exact (Subject_injective "shop.eu" order_paid order_paid _ H H).
Defined.
End NatsSubject.
