(* ===== verification/NatsRoute.v ===== *)
(** * The NATS producer route

    Models [adapters/nats/route.go]: a message is prepared for its subject in one
    of the three wire modes and published with its identifier as the
    deduplication identifier; a batch is published in windows, each awaited before
    the next.

    The client of the broker is third-party code: its answers, the clock and the
    end of the context are the record [answers].  The encoders of the CloudEvents
    modes are parameters. *)
From S2P Require Import Prelude GoStrings GoText Errors Ident Batch Envelope EnvelopeProofs Middleware Delivery Route NatsSubject NatsDLQ.
Import Stdlib.Strings.String.
Import Envelope Route NatsSubject.
Import NatsDLQ.
Open Scope string_scope.
Open Scope Z_scope.

Module NatsRoute.

Definition defaultPublishAsyncMaxPending : Z := 100.

Record RouteConfig := { nc_Name : string; nc_Namespace : string; nc_WireMode : WireMode; nc_PublishWindow : Z }.
Record NatsRoute := { nr_name : string; nr_namespace : string; nr_mode : WireMode; nr_publishWindow : Z }.

(** [messenger.DescriptorInfo{Kind: kind, Name: name, SchemaVersion: version}] *)
Definition info_of (kind name : string) (version : Z) : DescriptorInfo :=
  {| di_Kind := kind; di_Name := name; di_SchemaVersion := version; di_ContentType := ""; di_DataEncoding := 0; di_Schema := "" |}.

(** [connection] is false for a nil one; [js_err] is the answer of [jetstream.New]. *)
Definition NewRoute (connection : bool) (js_err : option error) (config : RouteConfig) : result error NatsRoute :=
  if negb connection || String.eqb (nc_Name config) "" || String.eqb (nc_Namespace config) "" || negb (WireMode_valid (nc_WireMode config))
     || (nc_PublishWindow config <? 0)
  then Err (invalid_config "producer route" [])
  else match Subject (nc_Namespace config) (info_of KindEvent "probe" 1) with
  | Err err => Err err
  | Ok _ =>
      match js_err with
      | Some err => Err (EFmt "create JetStream context" [err])
      | None => Ok {| nr_name := nc_Name config; nr_namespace := nc_Namespace config; nr_mode := nc_WireMode config;
                      nr_publishWindow := nc_PublishWindow config |}
      end
  end.

(** [natsio.Msg] as far as it is used. *)
Record Msg := { ms_Subject : string; ms_Header : Header; ms_Data : string }.

Definition contentTypeNative : string := "application/vnd.gomessenger+json; version=1.0".
Definition contentTypeStructured : string := "application/cloudevents+json; charset=utf-8".

(** ** Answers *)
Inductive awaited : Type :=
| AwCtx                           (** the context ended *)
| AwAck (stream : option string)  (** an acknowledgement, nil or with its stream *)
| AwErr (err : error).

(** [na_done], [na_publish] and [na_await] are the answers for the message of a
    payload; an accepted publication gives a future, which may be nil ([false]). *)
Record answers := {
  na_clock : nat -> Time;
  na_sync : result error (option string);   (** [PublishMsg]: the stream of the acknowledgement *)
  na_jetstream : option error;
  na_done : nat -> bool;
  na_publish : nat -> result error bool;
  na_await : nat -> awaited;
  na_ctxErr : error }.                      (** [ctx.Err()] once the context has ended *)

Section Route.
Context `{!EnvelopeJSON}.
Context (encodeCloudEventStructured : string -> result error string).
Context (encodeCloudEventBinary : string -> Header -> result error (string * Header)).
Context (r : NatsRoute) (a : answers).

Definition empty_ack : error := ENew "messenger/nats: broker returned an empty publish acknowledgement".

Definition nats_notReady (m : Metadata) (now : Time) : bool := negb (IsZero (md_NotBefore m)) && After (md_NotBefore m) now.

Definition preparePublishMessage (m : Metadata) (native : string) (now : Time) : result error Msg :=
  let now := UTC now in
  if expired m now then Err (EPermanent (ESentinel ErrNatsMessageExpired))
  else if nats_notReady m now then
    Err (default (ESentinel ErrNatsMessageNotReady) (RetryAfter (Some (ESentinel ErrNatsMessageNotReady)) (Delivery.Sub (md_NotBefore m) now)))
  else if negb (String.eqb (nr_mode r) WireNative) && negb (String.eqb (md_Kind m) KindEvent)
  then Err (invalid_config "CloudEvents mode only supports events" [])
  else match Subject (nr_namespace r) (info_of (md_Kind m) (md_Name m) (md_SchemaVersion m)) with
  | Err err => Err err
  | Ok subject =>
      if String.eqb (nr_mode r) WireNative then
        Ok {| ms_Subject := subject; ms_Header := {["Content-Type" := [contentTypeNative]]}; ms_Data := native |}
      else if String.eqb (nr_mode r) WireCloudEventsStructured then
        match encodeCloudEventStructured native with
        | Err err => Err err
        | Ok data => Ok {| ms_Subject := subject; ms_Header := {["Content-Type" := [contentTypeStructured]]}; ms_Data := data |}
        end
      else if String.eqb (nr_mode r) WireCloudEventsBinary then
        match encodeCloudEventBinary native ∅ with
        | Err err => Err err
        | Ok (data, header) => Ok {| ms_Subject := subject; ms_Header := header; ms_Data := data |}
        end
      else Err (invalid_config "wire mode" [])
  end.

Definition confirmed (m : Metadata) (now : Time) : Receipt :=
  {| rc_MessageID := md_ID m; rc_Route := nr_name r; rc_State := ReceiptBrokerConfirmed; rc_At := UTC now |}.

(** The first reading of the clock is before, the second after the publication.
    The last component is what was published, with its deduplication identifier. *)
Definition publishEnvelope (ctx : bool) (m : Metadata) (native : string) : Receipt * option error * option (string * Msg) :=
  if negb ctx then (Receipt0, Some (invalid_config "nil publish context" []), None)
  else match preparePublishMessage m native (na_clock a 0) with
  | Err err => (Receipt0, Some err, None)
  | Ok message =>
      let published := Some (MessageID_String (md_ID m), message) in
      match na_sync a with
      | Err err => (Receipt0, Some (EFmt "publish" [err]), published)
      | Ok None => (Receipt0, Some empty_ack, published)
      | Ok (Some stream) =>
          if String.eqb stream "" then (Receipt0, Some empty_ack, published)
          else (confirmed m (na_clock a 1), None, published)
      end
  end.

Definition Deliver {B C} (ctx : bool) (delivery : option (@delivery B C)) : Receipt * option error * option (string * Msg) :=
  match delivery with
  | None => (Receipt0, Some (wrapS ErrInvalidMessage "nil NATS delivery"), None)
  | Some delivery =>
      let m := dl_metadata delivery in
      if negb (String.eqb (md_Kind m) KindCommand) && negb (String.eqb (md_Kind m) KindEvent)
      then (Receipt0, Some (wrapS ErrInvalidMessage "NATS route only supports command/event delivery"), None)
      else match Delivery_MarshalEnvelope delivery with
      | Err err => (Receipt0, Some err, None)
      | Ok native => publishEnvelope ctx m native
      end
  end.

(** [CanonicalizeEnvelope] and [UnmarshalEnvelope] of the canonical bytes. *)
Definition nats_canonicalEnvelope (data : string) : result error (Metadata * string) :=
  match CanonicalizeEnvelope data with
  | Err err => Err err
  | Ok canonical =>
      match UnmarshalEnvelope canonical with
      | Err err => Err err
      | Ok envelope => Ok (Envelope_Metadata envelope, canonical)
      end
  end.

Definition PublishEnvelope (ctx : bool) (data : string) : Receipt * option error * option (string * Msg) :=
  match nats_canonicalEnvelope data with
  | Err err => (Receipt0, Some err, None)
  | Ok (m, canonical) => publishEnvelope ctx m canonical
  end.

(** ** Batches *)
Record preparedBatchMessage := { pm_index : nat; pm_metadata : Metadata; pm_message : Msg }.

(** The slices that the calls share, the publications made and the number of
    readings of the clock. *)
Record batchState := {
  bs_receipts : list Receipt;
  bs_errs : list (option error);
  bs_log : list (nat * string * Msg);
  bs_reads : nat }.
Definition set_err (index : nat) (err : error) (s : batchState) : batchState :=
  {| bs_receipts := bs_receipts s; bs_errs := <[index := Some err]> (bs_errs s); bs_log := bs_log s; bs_reads := bs_reads s |}.
Definition tick (s : batchState) : batchState :=
  {| bs_receipts := bs_receipts s; bs_errs := bs_errs s; bs_log := bs_log s; bs_reads := S (bs_reads s) |}.
Definition log_publication (item : preparedBatchMessage) (s : batchState) : batchState :=
  {| bs_receipts := bs_receipts s; bs_errs := bs_errs s;
     bs_log := (bs_log s ++ [(pm_index item, MessageID_String (md_ID (pm_metadata item)), pm_message item)])%list; bs_reads := bs_reads s |}.
Definition set_receipt (item : preparedBatchMessage) (s : batchState) : batchState :=
  {| bs_receipts := <[pm_index item := confirmed (pm_metadata item) (na_clock a (bs_reads s))]> (bs_receipts s);
     bs_errs := bs_errs s; bs_log := bs_log s; bs_reads := S (bs_reads s) |}.

Fixpoint prepare (index : nat) (payloads : list string) (s : batchState) (valid : list preparedBatchMessage)
  : batchState * list preparedBatchMessage :=
  match payloads with
  | [] => (s, valid)
  | payload :: rest =>
      match nats_canonicalEnvelope payload with
      | Err err => prepare (S index) rest (set_err index err s) valid
      | Ok (m, canonical) =>
          match preparePublishMessage m canonical (na_clock a (bs_reads s)) with
          | Err err => prepare (S index) rest (set_err index err (tick s)) valid
          | Ok message =>
              prepare (S index) rest (tick s) (valid ++ [{| pm_index := index; pm_metadata := m; pm_message := message |}])%list
          end
      end
  end.
Definition prepareEnvelopeBatch (payloads : list string) : batchState * list preparedBatchMessage :=
  prepare 0 payloads {| bs_receipts := replicate (List.length payloads) Receipt0; bs_errs := replicate (List.length payloads) None;
                        bs_log := []; bs_reads := 0 |} [].

(** The futures, or [None] when the context ended.  A future is told from nil. *)
Fixpoint enqueueBatchChunk (chunk : list preparedBatchMessage) (s : batchState) : option (list bool) * batchState :=
  match chunk with
  | [] => (Some [], s)
  | item :: rest =>
      if na_done a (pm_index item) then (None, s)
      else
        let s := log_publication item s in
        match na_publish a (pm_index item) with
        | Err err =>
            let '(futures, s) := enqueueBatchChunk rest (set_err (pm_index item) (EFmt "enqueue" [err]) s) in
            (cons false <$> futures, s)
        | Ok future =>
            let '(futures, s) := enqueueBatchChunk rest s in (cons future <$> futures, s)
        end
  end.

(** The items that were not resolved when the context ended, or [None]. *)
Fixpoint awaitBatchChunk (chunk : list preparedBatchMessage) (futures : list bool) (s : batchState)
  : option (list preparedBatchMessage) * batchState :=
  match chunk, futures with
  | item :: rest, future :: futures =>
      if negb future then awaitBatchChunk rest futures s
      else match na_await a (pm_index item) with
      | AwCtx => (Some chunk, s)
      | AwAck stream =>
          match stream with
          | Some stream =>
              if String.eqb stream "" then awaitBatchChunk rest futures (set_err (pm_index item) empty_ack s)
              else awaitBatchChunk rest futures (set_receipt item s)
          | None => awaitBatchChunk rest futures (set_err (pm_index item) empty_ack s)
          end
      | AwErr err => awaitBatchChunk rest futures (set_err (pm_index item) (EFmt "publish" [err]) s)
      end
  | _, _ => (None, s)
  end.

(** [markRemaining] on the items from an index on. *)
Definition markRemaining (items : list preparedBatchMessage) (s : batchState) : batchState :=
  fold_left (fun s item => match bs_errs s !! pm_index item with Some None => set_err (pm_index item) (na_ctxErr a) s | _ => s end) items s.

Fixpoint publish_chunks (chunks : list (list preparedBatchMessage)) (s : batchState) : batchState :=
  match chunks with
  | [] => s
  | chunk :: rest =>
      match enqueueBatchChunk chunk s with
      | (None, s) => markRemaining (chunk ++ List.concat rest) s
      | (Some futures, s) =>
          match awaitBatchChunk chunk futures s with
          | (Some unresolved, s) => markRemaining (unresolved ++ List.concat rest) s
          | (None, s) => publish_chunks rest s
          end
      end
  end.

Definition windowSize : Z := if nr_publishWindow r <=? 0 then defaultPublishAsyncMaxPending else nr_publishWindow r.

(** [None] for the slices of an error; the chunks are those of the loop. *)
Definition PublishEnvelopeBatch (ctx : bool) (payloads : list string) : result error batchState :=
  if negb ctx then Err (invalid_config "nil publish context" [])
  else match payloads with
  | [] => Err (invalid_config "empty publish batch" [])
  | _ =>
      let '(s, valid) := prepareEnvelopeBatch payloads in
      match valid with
      | [] => Ok s
      | _ =>
          match na_jetstream a with
          | Some err => Err (EFmt "create batch publisher" [err])
          | None => Ok (publish_chunks (chunks_of (Z.to_nat windowSize) valid) s)
          end
      end
  end.

(** ** What a batch does *)
Section Batch.
Context (payloads : list string).

(** The message of a payload, prepared at some reading of the clock. *)
Definition prepared (item : preparedBatchMessage) : Prop := exists payload canonical now,
  payloads !! pm_index item = Some payload /\ nats_canonicalEnvelope payload = Ok (pm_metadata item, canonical) /\
  preparePublishMessage (pm_metadata item) canonical now = Ok (pm_message item).
Definition entry (item : preparedBatchMessage) : nat * string * Msg :=
  (pm_index item, MessageID_String (md_ID (pm_metadata item)), pm_message item).

Definition failed (s : batchState) (j : nat) : Prop :=
  (exists err, bs_errs s !! j = Some (Some err)) /\ bs_receipts s !! j = Some Receipt0.
Definition blank (s : batchState) (j : nat) : Prop := bs_errs s !! j = Some None /\ bs_receipts s !! j = Some Receipt0.
(** The broker acknowledged the message of the payload with the name of a stream. *)
Definition confirms (s : batchState) (j : nat) : Prop :=
  bs_errs s !! j = Some None /\ exists item now stream, pm_index item = j /\ prepared item /\ entry item ∈ bs_log s /\
    na_await a j = AwAck (Some stream) /\ stream <> "" /\ bs_receipts s !! j = Some (confirmed (pm_metadata item) now).

(** [todo] are the items that are not resolved, [fresh] those of them that are not
    published. *)
Record good (todo fresh : list preparedBatchMessage) (s : batchState) : Prop := {
  gd_todo : NoDup (List.map pm_index todo);
  gd_prepared : Forall prepared todo;
  gd_open : forall j, (j < List.length payloads)%nat -> j ∈ List.map pm_index todo -> failed s j \/ blank s j;
  gd_done : forall j, (j < List.length payloads)%nat -> j ∉ List.map pm_index todo -> failed s j \/ confirms s j;
  gd_once : NoDup ((bs_log s).*1.*1);
  gd_log : forall x, x ∈ bs_log s -> exists item, prepared item /\ x = entry item;
  gd_fresh : forall item, item ∈ fresh -> pm_index item ∉ (bs_log s).*1.*1 /\ blank s (pm_index item);
  gd_lengths : List.length (bs_receipts s) = List.length payloads /\ List.length (bs_errs s) = List.length payloads }.

Lemma elem_pm item items : item ∈ items -> pm_index item ∈ List.map pm_index items.
Proof. intros Hi. apply list_elem_of_In, in_map. by apply list_elem_of_In. Qed.
Lemma index_lt item : prepared item -> (pm_index item < List.length payloads)%nat.
Proof. intros (payload & _ & _ & Hp & _). by eapply lookup_lt_Some. Qed.

(** Setting an error of an unresolved item. *)
Lemma failed_set s i err j : failed s j -> failed (set_err i err s) j.
Proof.
  intros [[e He] Hr]. split; [|done]. cbn. destruct (decide (i = j)) as [->|Hne]; [|rewrite list_lookup_insert_ne by done; eauto].
  exists err. apply list_lookup_insert_eq. by eapply lookup_lt_Some.
Qed.
Lemma failed_here s i err : (i < List.length (bs_errs s))%nat -> bs_receipts s !! i = Some Receipt0 -> failed (set_err i err s) i.
Proof. intros Hi Hr. split; [|done]. exists err. by apply list_lookup_insert_eq. Qed.

Lemma blank_set s i err j : j <> i -> blank s j -> blank (set_err i err s) j.
Proof. intros Hne [Hb Hr]. split; [|done]. cbn. by rewrite list_lookup_insert_ne. Qed.

Lemma good_err todo fresh s i err : good todo fresh s -> i ∈ List.map pm_index todo -> i ∉ List.map pm_index fresh ->
  good todo fresh (set_err i err s).
Proof.
  intros [H1 H2 H3 H4 H5 H6 H7 H8] Hi Hf'. split; try done.
  - intros j Hj Hin. destruct (decide (j = i)) as [->|Hne].
    + left. apply failed_here; [destruct H8; lia|]. destruct (H3 i Hj Hin) as [[_ ?]|[_ ?]]; done.
    + destruct (H3 j Hj Hin) as [Hf|[Hb Hr]]; [left; by apply failed_set|right]. split; [|done]. cbn. by rewrite list_lookup_insert_ne.
  - intros j Hj Hin. destruct (H4 j Hj Hin) as [Hf|(He & Hc)]; [left; by apply failed_set|right]. split; [|done]. cbn.
    rewrite list_lookup_insert_ne; [done|]. by intros ->.
  - intros item Hin. destruct (H7 item Hin) as [Hl Hb]. split; [done|]. apply blank_set; [|done]. intros <-. by apply Hf', elem_pm.
  - cbn. by rewrite length_insert.
Qed.

(** An item whose payload has failed is resolved. *)
Lemma good_drop item todo fresh s : good (item :: todo) fresh s -> failed s (pm_index item) -> good todo fresh s.
Proof.
  intros [H1 H2 H3 H4 H5 H6 H7 H8] Hf. cbn in *. apply NoDup_cons in H1 as [H1 H1']. apply Forall_cons in H2 as [_ H2]. split; try done.
  - intros j Hj Hin. apply H3; set_solver.
  - intros j Hj Hin. destruct (decide (j = pm_index item)) as [->|Hne]; [by left|]. apply H4; [done|]. set_solver.
Qed.

Lemma good_fresh todo fresh fresh' s : good todo fresh s -> (forall x, x ∈ fresh' -> x ∈ fresh) -> good todo fresh' s.
Proof. intros [H1 H2 H3 H4 H5 H6 H7 H8] Hs. split; auto. Qed.

Lemma good_publish item todo fresh s : good todo (item :: fresh) s -> item ∈ todo -> NoDup (List.map pm_index (item :: fresh)) ->
  good todo fresh (log_publication item s).
Proof.
  intros [H1 H2 H3 H4 H5 H6 H7 H8] Hin Hnd. rewrite Forall_forall in H2. cbn in Hnd. apply NoDup_cons in Hnd as [Hnd _].
  assert (forall x, x ∈ bs_log s -> x ∈ bs_log (log_publication item s)) as Hmono by (intros x Hx; cbn; set_solver).
  split; try done.
  - by apply Forall_forall.
  - intros j Hj Hn. destruct (H4 j Hj Hn) as [Hf|(He & it & now & stream & E1 & E2 & E3 & E4)]; [by left|right].
    split; [done|]. exists it, now, stream. split_and!; [done|done|by apply Hmono|apply E4..].
  - cbn. rewrite !fmap_app. cbn. apply NoDup_app. split_and!; [done| |repeat constructor; set_solver].
    intros x Hx Hx'. apply list_elem_of_singleton in Hx' as ->. destruct (H7 item) as [Hl _]; [set_solver|]. by apply Hl.
  - cbn. intros x [Hx|Hx]%elem_of_app; [by apply H6|]. apply list_elem_of_singleton in Hx as ->. exists item. split; [by apply H2|done].
  - intros it Hit. destruct (H7 it) as [Hl Hb]; [set_solver|]. split; [|done]. cbn. rewrite !fmap_app. cbn. intros [Hx|Hx]%elem_of_app; [done|].
    apply list_elem_of_singleton in Hx. apply Hnd. rewrite <- Hx. by apply elem_pm.
Qed.

(** ** One window *)
(** What is known of an item and its future once it has been enqueued. *)
Definition enqueued (s : batchState) (item : preparedBatchMessage) (future : bool) : Prop :=
  if future then entry item ∈ bs_log s /\ blank s (pm_index item) else failed s (pm_index item).

Hypothesis futures_given : forall j, na_publish a j <> Ok false.

Lemma enqueued_set s i err item future : enqueued s item future -> pm_index item <> i -> enqueued (set_err i err s) item future.
Proof. unfold enqueued. destruct future; intros H1 H2; [|by apply failed_set]. split; [apply H1|]. apply blank_set; [done|apply H1]. Qed.

Lemma enqueue_ok todo chunk fresh s fs s' : good todo (chunk ++ fresh) s -> (forall item, item ∈ chunk -> item ∈ todo) ->
  NoDup (List.map pm_index (chunk ++ fresh)) -> enqueueBatchChunk chunk s = (fs, s') ->
  good todo (match fs with Some _ => fresh | None => [] end) s' /\
  match fs with Some fs => Forall2 (enqueued s') chunk fs | None => True end /\
  (forall item future, pm_index item ∉ List.map pm_index chunk -> enqueued s item future -> enqueued s' item future).
Proof.
  revert s fs s'. induction chunk as [|item chunk IH]; intros s fs s' HG Hsub Hnd; cbn [enqueueBatchChunk].
  { intros [= <- <-]. split_and!; [done|constructor|done]. }
  destruct (na_done a (pm_index item)); [intros [= <- <-]; split_and!; [eapply good_fresh; [exact HG|set_solver]|done|done]|].
  pose proof (gd_fresh _ _ _ HG item ltac:(set_solver)) as [Hlog Hblank].
  assert (good todo (chunk ++ fresh) (log_publication item s)) as HG1 by (eapply good_publish; [exact HG|apply Hsub; set_solver|done]).
  assert (enqueued (log_publication item s) item true) as Hitem by (split; [cbn; apply elem_of_app; right; by apply list_elem_of_singleton|done]).
  assert (forall it future, enqueued s it future -> enqueued (log_publication item s) it future) as Hmono.
  { intros it [] Hit; [|done]. split; [cbn; apply elem_of_app; left; apply Hit|apply Hit]. }
  cbn in Hnd. apply NoDup_cons in Hnd as [Hn1 Hn2]. rewrite map_app in Hn1.
  assert (Hsub' : forall it, it ∈ chunk -> it ∈ todo) by (intros; apply Hsub; set_solver).
  destruct (na_publish a (pm_index item)) as [future|err] eqn:Ep.
  - destruct future; [|by destruct (futures_given _ Ep)]. destruct (enqueueBatchChunk chunk (log_publication item s)) as [fs0 s0] eqn:E.
    destruct (IH _ _ _ HG1 Hsub' Hn2 E) as (IH1 & IH2 & IH3). intros [= <- <-]. split_and!; [by destruct fs0| |].
    + destruct fs0; [|done]. cbn. constructor; [|done]. apply IH3; [set_solver|done].
    + intros it f Hit Hq. apply IH3; [set_solver|]. by apply Hmono.
  - destruct (enqueueBatchChunk chunk _) as [fs0 s0] eqn:E.
    assert (good todo (chunk ++ fresh) (set_err (pm_index item) (EFmt "enqueue" [err]) (log_publication item s))) as HG2.
    { apply good_err; [done|apply elem_pm, Hsub; set_solver|by rewrite map_app]. }
    destruct (IH _ _ _ HG2 Hsub' Hn2 E) as (IH1 & IH2 & IH3). intros [= <- <-]. split_and!; [by destruct fs0| |].
    + destruct fs0; [|done]. cbn. constructor; [|done]. apply IH3; [set_solver|]. apply failed_here; [|apply Hblank].
      apply lookup_lt_Some with None. apply Hblank.
    + intros it f Hit Hq. apply IH3; [set_solver|]. apply enqueued_set; [by apply Hmono|set_solver].
Qed.

Lemma good_confirm item todo fresh s stream : good (item :: todo) fresh s -> enqueued s item true ->
  na_await a (pm_index item) = AwAck (Some stream) -> stream <> "" -> pm_index item ∉ List.map pm_index fresh ->
  good todo fresh (set_receipt item s).
Proof.
  intros [H1 H2 H3 H4 H5 H6 H7 H8] [Hlog [Hb Hr]] Haw Hst Hf. cbn in *. apply NoDup_cons in H1 as [H1 H1']. apply Forall_cons in H2 as [H2 H2'].
  assert (forall j, j <> pm_index item -> bs_receipts (set_receipt item s) !! j = bs_receipts s !! j) as Hne by (intros; by apply list_lookup_insert_ne).
  split; try done.
  - intros j Hj Hin. assert (j <> pm_index item) as Hji by (by intros ->). unfold failed, blank. rewrite Hne by done. apply H3; set_solver.
  - intros j Hj Hin. destruct (decide (j = pm_index item)) as [->|Hji].
    + right. split; [done|]. exists item, (na_clock a (bs_reads s)), stream. split_and!; try done. cbn. apply list_lookup_insert_eq. by eapply lookup_lt_Some.
    + unfold failed, confirms. rewrite Hne by done. apply H4; [done|set_solver].
  - intros it Hit. destruct (H7 it Hit) as [? [? Hrt]]. split; [done|]. split; [done|]. rewrite Hne; [done|]. intros He. apply Hf. rewrite <- He. by apply elem_pm.
  - cbn. by rewrite length_insert.
Qed.
Lemma enqueued_receipt s i item future : enqueued s item future -> pm_index item <> pm_index i -> enqueued (set_receipt i s) item future.
Proof.
  unfold enqueued, failed, blank. destruct future; intros H1 H2; cbn; rewrite list_lookup_insert_ne by done; tauto.
Qed.

Lemma Forall2_set (P Q : preparedBatchMessage -> bool -> Prop) chunk fs i : Forall2 P chunk fs -> i ∉ List.map pm_index chunk ->
  (forall item f, P item f -> pm_index item <> i -> Q item f) -> Forall2 Q chunk fs.
Proof. intros HF Hi HPQ. induction HF; constructor; [apply HPQ; [done|]; cbn in Hi; set_solver|apply IHHF; cbn in Hi; set_solver]. Qed.

Lemma await_ok chunk rest fresh s fs u s' : good (chunk ++ rest) fresh s -> Forall2 (enqueued s) chunk fs ->
  (forall item, item ∈ chunk -> pm_index item ∉ List.map pm_index fresh) -> awaitBatchChunk chunk fs s = (u, s') ->
  good (match u with Some un => un ++ rest | None => rest end) fresh s'.
Proof.
  revert fs s. induction chunk as [|item chunk IH]; intros fs s HG HF Hfr; cbn [awaitBatchChunk].
  { intros [= <- <-]. exact HG. }
  destruct fs as [|future fs]; [by inversion HF|]. apply Forall2_cons in HF as [Hi HF].
  pose proof (gd_todo _ _ _ HG) as Hnd. cbn in Hnd. apply NoDup_cons in Hnd as [Hnd _]. rewrite map_app in Hnd.
  assert (Hfr' : forall it, it ∈ chunk -> pm_index it ∉ List.map pm_index fresh) by (intros; apply Hfr; set_solver).
  assert (Herr : forall err, enqueued s item true -> awaitBatchChunk chunk fs (set_err (pm_index item) err s) = (u, s') ->
    good (match u with Some un => un ++ rest | None => rest end) fresh s').
  { intros err [_ [Hb Hr]] Haw. eapply IH; [| |done|exact Haw].
    - eapply good_drop; [apply good_err; [exact HG|apply elem_pm; set_solver|apply Hfr; set_solver]|]. apply failed_here; [by eapply lookup_lt_Some|done].
    - eapply (Forall2_set _ _ _ _ (pm_index item)); [exact HF|set_solver|]. intros it f Hf Hne. by apply enqueued_set. }
  destruct future; cbn [negb].
  - destruct (na_await a (pm_index item)) as [|[stream|]|err] eqn:Ea; [by intros [= <- <-]| |by apply Herr|by apply Herr].
    destruct (String.eqb_spec stream "") as [->|Hst]; [by apply Herr|]. intros Haw. eapply IH; [| |done|exact Haw].
    + eapply good_confirm; [exact HG|done|done|done|apply Hfr; set_solver].
    + eapply (Forall2_set _ _ _ _ (pm_index item)); [exact HF|set_solver|]. intros it f Hf Hne. by apply enqueued_receipt.
  - intros Haw. eapply IH; [|done|done|exact Haw]. by eapply good_drop.
Qed.

Lemma mark_ok items s : good items [] s -> good [] [] (markRemaining items s).
Proof.
  unfold markRemaining. revert s. induction items as [|item items IH]; intros s HG; [done|]. cbn [fold_left]. apply IH.
  assert ((pm_index item < List.length payloads)%nat) as Hlt by (apply index_lt; pose proof (gd_prepared _ _ _ HG) as HF; by inversion HF).
  destruct (gd_open _ _ _ HG (pm_index item) Hlt ltac:(apply elem_pm; set_solver)) as [Hf|[Hb Hr]].
  - destruct Hf as [[err He] Hr]. rewrite He. eapply good_drop; [exact HG|]. split; eauto.
  - rewrite Hb. eapply good_drop; [apply good_err; [exact HG|apply elem_pm; set_solver|set_solver]|]. apply failed_here; [by eapply lookup_lt_Some|done].
Qed.

Lemma publish_chunks_ok chunks s : good (List.concat chunks) (List.concat chunks) s -> good [] [] (publish_chunks chunks s).
Proof.
  revert s. induction chunks as [|chunk rest IH]; intros s HG; cbn [publish_chunks]; [exact HG|]. cbn [List.concat] in HG.
  pose proof (gd_todo _ _ _ HG) as Hnd. destruct (enqueueBatchChunk chunk s) as [fs s1] eqn:Ee.
  destruct (enqueue_ok _ _ _ _ _ _ HG ltac:(set_solver) Hnd Ee) as (HG1 & HF & _). destruct fs as [fs|]; [|by apply mark_ok].
  destruct (awaitBatchChunk chunk fs s1) as [u s2] eqn:Ea. eapply await_ok in Ea; [|exact HG1|exact HF|].
  - destruct u as [un|]; [apply mark_ok; eapply good_fresh; [exact Ea|set_solver]|by apply IH].
  - intros item Hin Hin'. rewrite map_app in Hnd. apply NoDup_app in Hnd as (_ & Hd & _). eapply Hd; [by apply elem_pm|done].
Qed.

(** ** Preparation *)
Record pinv (k : nat) (s : batchState) (valid : list preparedBatchMessage) : Prop := {
  pi_nodup : NoDup (List.map pm_index valid);
  pi_items : Forall (fun item => prepared item /\ (pm_index item < k)%nat) valid;
  pi_failed : forall j, (j < k)%nat -> j ∉ List.map pm_index valid -> failed s j;
  pi_blank : forall j, (j < List.length payloads)%nat -> (k <= j)%nat \/ j ∈ List.map pm_index valid -> blank s j;
  pi_log : bs_log s = [];
  pi_lengths : List.length (bs_receipts s) = List.length payloads /\ List.length (bs_errs s) = List.length payloads }.

Lemma pm_lt k s valid j : pinv k s valid -> j ∈ List.map pm_index valid -> (j < k)%nat.
Proof.
  intros [_ Hi _ _ _ _] (item & <- & Hin)%list_elem_of_In%in_map_iff. rewrite Forall_forall in Hi. apply Hi. by apply list_elem_of_In.
Qed.

Lemma pinv_err k s valid err : pinv k s valid -> (k < List.length payloads)%nat -> pinv (S k) (set_err k err s) valid.
Proof.
  intros HP Hk. pose proof HP as [H1 H2 H3 H4 H5 H6]. split; try done.
  - eapply Forall_impl; [exact H2|]. cbn. intros item [? ?]. split; [done|lia].
  - intros j Hj Hn. destruct (decide (j = k)) as [->|Hne]; [apply failed_here; [lia|apply H4; [done|by left]]|]. apply failed_set, H3; [lia|done].
  - intros j Hj Hor. apply blank_set; [destruct Hor as [|Hin]; [lia|pose proof (pm_lt _ _ _ _ HP Hin); lia]|].
    apply H4; [done|]. destruct Hor; [left; lia|by right].
  - cbn. by rewrite length_insert.
Qed.
Lemma pinv_item k s valid item : pinv k s valid -> prepared item -> pm_index item = k -> pinv (S k) s (valid ++ [item]).
Proof.
  intros HP Hp Hk. pose proof HP as [H1 H2 H3 H4 H5 H6]. pose proof (index_lt _ Hp) as Hlt.
  assert (List.map pm_index (valid ++ [item]) = (List.map pm_index valid ++ [k])%list) as Em by (rewrite map_app; cbn; by rewrite Hk).
  split; try done; rewrite ?Em.
  - apply NoDup_app. split_and!; [done| |repeat constructor; set_solver]. intros x Hx ->%list_elem_of_singleton.
    pose proof (pm_lt _ _ _ _ HP Hx). lia.
  - apply Forall_app. split; [|apply Forall_singleton; split; [done|lia]]. eapply Forall_impl; [exact H2|]. cbn. intros it [? ?]. split; [done|lia].
  - intros j Hj Hn. apply H3; [|set_solver]. destruct (decide (j = k)); [set_solver|lia].
  - intros j Hj Hor. apply H4; [done|]. destruct Hor as [|Hin]; [left; lia|]. apply elem_of_app in Hin as [Hin|Hin]; [by right|]. apply list_elem_of_singleton in Hin as ->. left; lia.
Qed.
Lemma pinv_tick k s valid : pinv k s valid -> pinv k (tick s) valid.
Proof. intros [H1 H2 H3 H4 H5 H6]. by split. Qed.

Lemma prepare_ok k rest s valid : payloads = (take k payloads ++ rest)%list -> (k + List.length rest = List.length payloads)%nat ->
  pinv k s valid -> pinv (List.length payloads) (prepare k rest s valid).1 (prepare k rest s valid).2.
Proof.
  revert k s valid. induction rest as [|payload rest IH]; intros k s valid Hpl Hlen HP; cbn [prepare].
  { cbn in *. rewrite Nat.add_0_r in Hlen. by subst k. }
  cbn in Hlen. assert (payloads !! k = Some payload) as Hk.
  { rewrite Hpl, lookup_app_r; rewrite length_take; [|lia]. by rewrite Nat.min_l, Nat.sub_diag by lia. }
  assert (payloads = (take (S k) payloads ++ rest)%list) as Hpl' by (rewrite (take_S_r _ _ _ Hk), <- app_assoc; exact Hpl).
  destruct (nats_canonicalEnvelope payload) as [[m canonical]|err] eqn:Ec; [|apply IH; [done|lia|apply pinv_err; [done|lia]]].
  destruct (preparePublishMessage _ _ _) as [message|err] eqn:Ep; (apply IH; [done|lia|]).
  - apply pinv_item; [by apply pinv_tick| |done]. exists payload, canonical, (na_clock a (bs_reads s)). done.
  - apply pinv_err; [by apply pinv_tick|lia].
Qed.

Lemma prepared_good : good (prepareEnvelopeBatch payloads).2 (prepareEnvelopeBatch payloads).2 (prepareEnvelopeBatch payloads).1.
Proof.
  unfold prepareEnvelopeBatch. set (s0 := {| bs_receipts := _ |}).
  destruct (prepare_ok 0 payloads s0 []) as [H1 H2 H3 H4 H5 H6]; [done|done| |].
  { split; cbn; try done; try lia; first [apply NoDup_nil_2|apply Forall_nil_2|by rewrite !length_replicate|idtac].
    intros j Hj _. split; by apply lookup_replicate_2. }
  set (x := prepare 0 payloads s0 []) in *. split; try done; rewrite ?H5; try done.
  - eapply Forall_impl; [exact H2|]. by intros item [? _].
  - intros j Hj Hin. right. apply H4; auto.
  - intros j Hj Hin. left. by apply H3.
  - apply NoDup_nil_2.
  - set_solver.
  - intros item Hin. split; [set_solver|]. apply H4; [|right; by apply elem_pm]. rewrite Forall_forall in H2. apply index_lt. by apply H2.
Qed.
End Batch.

Lemma chunks_of_length {A} n (l : list A) : (0 < n)%nat -> Forall (fun chunk => (1 <= List.length chunk <= n)%nat) (chunks_of n l).
Proof.
  intros Hn. unfold chunks_of. generalize (List.length l) as f. intros f. revert l. induction f as [|f IH]; intros [|x l]; cbn [chunks_fuel]; constructor; auto.
  rewrite length_take. cbn. lia.
Qed.

(** C33. What the answer of a NATS batch means, whatever the broker answers and
    whenever the context ends, given that an accepted asynchronous publication has
    a future: one receipt and one error per payload; each payload has an error and
    no receipt, or a receipt and no error, and then its message, prepared for the
    subject of its descriptor, was published with the message's identifier as
    deduplication identifier and acknowledged by a named stream.  No payload is
    published twice, nothing else is published, and the windows that are awaited
    one after the other have between one and [windowSize] messages. *)
Theorem nats_publish_batch ctx payloads s : (forall j, na_publish a j <> Ok false) -> PublishEnvelopeBatch ctx payloads = Ok s ->
  List.length (bs_receipts s) = List.length payloads /\ List.length (bs_errs s) = List.length payloads /\
  (forall j payload, payloads !! j = Some payload -> failed s j \/ confirms payloads s j) /\
  NoDup ((bs_log s).*1.*1) /\
  (forall index id message, (index, id, message) ∈ bs_log s -> exists payload m canonical now,
     payloads !! index = Some payload /\ nats_canonicalEnvelope payload = Ok (m, canonical) /\ id = MessageID_String (md_ID m) /\
     preparePublishMessage m canonical now = Ok message) /\
  Forall (fun window => (1 <= List.length window <= Z.to_nat windowSize)%nat)
    (chunks_of (Z.to_nat windowSize) (prepareEnvelopeBatch payloads).2).
Proof.
  intros Hfut Hpub. assert ((0 < Z.to_nat windowSize)%nat) as Hw.
  { unfold windowSize, defaultPublishAsyncMaxPending. case_match; bool_simpl; lia. }
  assert (good payloads [] [] s) as [H1 H2 H3 H4 H5 H6 H7 [H8 H9]].
  { unfold PublishEnvelopeBatch in Hpub. destruct ctx; [|done]. destruct payloads as [|p0 ps]; [done|]. set (payloads := p0 :: ps) in *.
    cbn [negb] in Hpub. pose proof (prepared_good payloads Hfut) as HG. destruct (prepareEnvelopeBatch payloads) as [s0 valid]. cbn in HG.
    destruct valid as [|v0 vs]; [apply Ok_inj in Hpub as <-; exact HG|]. destruct (na_jetstream a); [done|]. apply Ok_inj in Hpub as <-.
    apply publish_chunks_ok; [exact Hfut|]. by rewrite concat_chunks_of. }
  split_and!; [done|done| |done| |by apply chunks_of_length].
  - intros j payload Hj. apply H4; [by eapply lookup_lt_Some|set_solver].
  - intros index id message Hin. destruct (H6 _ Hin) as (item & (payload & canonical & now & Hp & Hc & Hm) & [= -> -> ->]). eauto 10.
Qed.

(** The same for one message: a receipt means an acknowledgement by a named
    stream of the message that was published under its identifier. *)
Theorem nats_publish_one ctx m native receipt err published : publishEnvelope ctx m native = (receipt, err, published) ->
  match err with
  | Some _ => receipt = Receipt0
  | None => exists message stream now, published = Some (MessageID_String (md_ID m), message) /\
      preparePublishMessage m native (na_clock a 0) = Ok message /\ na_sync a = Ok (Some stream) /\ stream <> "" /\ receipt = confirmed m now
  end.
Proof.
  unfold publishEnvelope. intros Hp. destruct ctx; [|by injection Hp as <- <- <-]. cbn [negb] in Hp.
  destruct (preparePublishMessage _ _ _) as [message|e] eqn:Em; [|by injection Hp as <- <- <-].
  destruct (na_sync a) as [[stream|]|e] eqn:Es; try (by injection Hp as <- <- <-).
  destruct (String.eqb_spec stream ""); injection Hp as <- <- <-; [done|]. eauto 10.
Qed.
End Route.
End NatsRoute.

(** ** A batch whose context ends *)
Module NatsRouteWitness.
Import NatsRoute.
#[local] Existing Instance EnvelopeProofs.demo_json.

Definition no_cloud (_ : string) : result error string := Err (ENew "unused").
Definition no_binary (_ : string) (_ : Header) : result error (string * Header) := Err (ENew "unused").
Definition orders : NatsRoute := {| nr_name := "orders"; nr_namespace := "shop"; nr_mode := WireNative; nr_publishWindow := 1 |}.
(** The first message is acknowledged, then the context ends. *)
Definition answers1 : answers :=
  {| na_clock := fun n => 1000 + Z.of_nat n; na_sync := Ok None; na_jetstream := None; na_done := fun j => (2 <? j)%nat;
     na_publish := fun _ => Ok true; na_await := fun j => if (j <? 2)%nat then AwAck (Some "ORDERS") else AwCtx;
     na_ctxErr := ESentinel Canceled |}.
Definition payloads1 : list string := ["nonsense"; " demo"; "demo"; "demo"].

Lemma nats_publish_batch_witness :
  exists s, PublishEnvelopeBatch no_cloud no_binary orders answers1 true payloads1 = Ok s /\
    bs_receipts s = [Receipt0; confirmed orders EnvelopeProofs.demo_metadata 1003; Receipt0; Receipt0] /\
    confirms no_cloud no_binary orders answers1 payloads1 s 1.
Proof.
  eexists. split; [vm_compute; reflexivity|]. split; [vm_compute; reflexivity|].
  match goal with |- confirms _ _ _ _ _ ?s _ =>
    destruct (nats_publish_batch no_cloud no_binary orders answers1 true payloads1 s) as (_ & _ & H & _)
  end.
  - intros j. discriminate.
  - vm_compute. reflexivity.
  - destruct (H 1%nat " demo" eq_refl) as [[[err He] _]|Hc]; [discriminate He|exact Hc].
Defined.
End NatsRouteWitness.
