(* ===== verification/NatsTopology.v ===== *)
(** * Topology management of the NATS adapter

    Models [adapters/nats/topology.go]: validation of a declared topology, the
    comparison with JetStream, the plan and its application.

    JetStream is the class [JetStream]: the calls the code makes, threading an
    opaque broker state, with [JetStreamLaws] for what the client documents about
    them.  Any call may fail, and a failed change may have happened or not. *)
From S2P Require Import Prelude GoStrings GoText Errors Ident NatsDLQ NatsSubject.
From Stdlib Require Import Ascii.
Import Stdlib.Strings.String.
Import NatsSubject.
Open Scope string_scope.
Open Scope Z_scope.

Module NatsTopology.

(** ** Declarations *)
Definition TopologySpecVersion : string := "1.0".
Definition resourceStream : string := "stream".
Definition resourceConsumer : string := "consumer".
Definition maxJetStreamReplicas : Z := 5.
Definition Hour : Duration := 60 * Minute.
Definition DefaultMaxDLQMessageBytes : Z := NatsDLQ.DefaultMaxDLQRecordBytes + NatsDLQ.DefaultMaxHeaderBytes.

Record StreamSpec := {
  ss_Name : string;
  ss_Description : string;
  ss_Subjects : list string;
  ss_Retention : Z;
  ss_Storage : Z;
  ss_Replicas : Z;
  ss_MaxMessages : Z;
  ss_MaxBytes : Z;
  ss_MaxAge : Duration;
  ss_MaxMsgSize : Z;
  ss_Duplicates : Duration }.

Record ConsumerSpec := {
  cs_Stream : string;
  cs_Name : string;
  cs_Description : string;
  cs_FilterSubject : string;
  cs_AckWait : Duration;
  cs_MaxDeliver : Z;
  cs_MaxAckPending : Z;
  cs_Replicas : Z;
  cs_MemoryStorage : bool }.

Record Topology := { SpecVersion : string; Streams : list StreamSpec; Consumers : list ConsumerSpec }.

Inductive ChangeAction : Set := ChangeCreate | ChangeUpdate | ChangeNoop | ChangeConflict.
#[global] Instance ChangeAction_eq_dec : EqDecision ChangeAction.
Proof. solve_decision. Defined.

Record Change := { ch_Resource : string; ch_Name : string; ch_Action : ChangeAction; ch_Reason : string }.

(** [jetstream.StreamConfig] and [jetstream.ConsumerConfig]; [U] holds the fields
    that the code neither compares nor sets. *)
Record StreamConfig (U : Type) := {
  sc_Name : string;
  sc_Description : string;
  sc_Subjects : list string;
  sc_Retention : Z;
  sc_Storage : Z;
  sc_Replicas : Z;
  sc_MaxMsgs : Z;
  sc_MaxBytes : Z;
  sc_MaxAge : Duration;
  sc_MaxMsgSize : Z;
  sc_Duplicates : Duration;
  sc_Unmanaged : U }.
Arguments sc_Name {U}. Arguments sc_Description {U}. Arguments sc_Subjects {U}. Arguments sc_Retention {U}.
Arguments sc_Storage {U}. Arguments sc_Replicas {U}. Arguments sc_MaxMsgs {U}. Arguments sc_MaxBytes {U}.
Arguments sc_MaxAge {U}. Arguments sc_MaxMsgSize {U}. Arguments sc_Duplicates {U}. Arguments sc_Unmanaged {U}.

(** The options of a consumer that must have their default. *)
Record DeliveryOptions := {
  o_DeliverPolicy : Z; o_OptStartSeq : Z; o_OptStartTime : option Time; o_BackOff : list Duration;
  o_FilterSubjects : list string; o_ReplayPolicy : Z; o_RateLimit : Z; o_HeadersOnly : bool;
  o_MaxRequestBatch : Z; o_MaxRequestExpires : Duration; o_MaxRequestMaxBytes : Z;
  o_InactiveThreshold : Duration; o_PauseUntil : option Time; o_PriorityPolicy : Z; o_PinnedTTL : Duration;
  o_PriorityGroups : list string; o_DeliverSubject : string; o_DeliverGroup : string; o_FlowControl : bool;
  o_IdleHeartbeat : Duration }.

Record ConsumerConfig (U : Type) := {
  cc_Durable : string;
  cc_Name : string;
  cc_Description : string;
  cc_AckPolicy : Z;
  cc_FilterSubject : string;
  cc_AckWait : Duration;
  cc_MaxDeliver : Z;
  cc_MaxAckPending : Z;
  cc_Replicas : Z;
  cc_MemoryStorage : bool;
  cc_Options : DeliveryOptions;
  cc_Unmanaged : U }.
Arguments cc_Durable {U}. Arguments cc_Name {U}. Arguments cc_Description {U}. Arguments cc_AckPolicy {U}.
Arguments cc_FilterSubject {U}. Arguments cc_AckWait {U}. Arguments cc_MaxDeliver {U}. Arguments cc_MaxAckPending {U}.
Arguments cc_Replicas {U}. Arguments cc_MemoryStorage {U}. Arguments cc_Options {U}. Arguments cc_Unmanaged {U}.

Definition stream_with {U} (u : U) (c : StreamConfig U) : StreamConfig U :=
  {| sc_Name := sc_Name c; sc_Description := sc_Description c; sc_Subjects := sc_Subjects c;
     sc_Retention := sc_Retention c; sc_Storage := sc_Storage c; sc_Replicas := sc_Replicas c;
     sc_MaxMsgs := sc_MaxMsgs c; sc_MaxBytes := sc_MaxBytes c; sc_MaxAge := sc_MaxAge c;
     sc_MaxMsgSize := sc_MaxMsgSize c; sc_Duplicates := sc_Duplicates c; sc_Unmanaged := u |}.
Definition consumer_with {U} (u : U) (c : ConsumerConfig U) : ConsumerConfig U :=
  {| cc_Durable := cc_Durable c; cc_Name := cc_Name c; cc_Description := cc_Description c;
     cc_AckPolicy := cc_AckPolicy c; cc_FilterSubject := cc_FilterSubject c; cc_AckWait := cc_AckWait c;
     cc_MaxDeliver := cc_MaxDeliver c; cc_MaxAckPending := cc_MaxAckPending c; cc_Replicas := cc_Replicas c;
     cc_MemoryStorage := cc_MemoryStorage c; cc_Options := cc_Options c; cc_Unmanaged := u |}.

(** ** The broker *)
Definition ErrStreamNotFound : sentinel := ErrForeign "jetstream.ErrStreamNotFound".
Definition ErrConsumerNotFound : sentinel := ErrForeign "jetstream.ErrConsumerNotFound".

Class JetStream (S U : Type) := {
  LimitsPolicy : Z;
  MemoryStorage : Z;
  AckExplicitPolicy : Z;
  DeliverAllPolicy : Z;
  ReplayInstantPolicy : Z;
  unmanaged : U;
  js_Stream : string -> S -> S * option error;
  js_StreamInfo : string -> S -> S * result error (StreamConfig U);
  js_CreateStream : StreamConfig U -> S -> S * option error;
  js_UpdateStream : StreamConfig U -> S -> S * option error;
  js_Consumer : string -> string -> S -> S * option error;
  js_ConsumerInfo : string -> string -> S -> S * result error (ConsumerConfig U);
  js_CreateConsumer : string -> ConsumerConfig U -> S -> S * option error;
  js_UpdateConsumer : string -> ConsumerConfig U -> S -> S * option error }.

(** Documented behaviour of a server that nobody else changes meanwhile: inspection
    changes nothing and reports what is there; creation never replaces an existing
    resource and an update only replaces an existing one; the server stores the
    fields as sent and may fill in unmanaged ones ([fills]). *)
Class JetStreamLaws (S U : Type) `{JetStream S U} := {
  streams : S -> gmap string (StreamConfig U);
  consumers : S -> gmap (string * string) (ConsumerConfig U);
  fills : U -> U -> Prop;
  fills_preorder :: PreOrder fills;
  Stream_law n s s' e : js_Stream n s = (s', e) ->
    streams s' = streams s /\ consumers s' = consumers s /\
    (errors_is e ErrStreamNotFound = true -> streams s !! n = None);
  StreamInfo_law n s s' r : js_StreamInfo n s = (s', r) ->
    streams s' = streams s /\ consumers s' = consumers s /\ (forall c, r = Ok c -> streams s !! n = Some c);
  CreateStream_law c s s' e : js_CreateStream c s = (s', e) ->
    consumers s' = consumers s /\
    (streams s' = streams s \/
     (streams s !! sc_Name c = None /\ exists u, fills (sc_Unmanaged c) u /\ streams s' = <[sc_Name c := stream_with u c]> (streams s))) /\
    (e = None -> exists u, fills (sc_Unmanaged c) u /\ streams s' !! sc_Name c = Some (stream_with u c));
  UpdateStream_law c s s' e : js_UpdateStream c s = (s', e) ->
    consumers s' = consumers s /\
    (streams s' = streams s \/
     (is_Some (streams s !! sc_Name c) /\ exists u, fills (sc_Unmanaged c) u /\ streams s' = <[sc_Name c := stream_with u c]> (streams s))) /\
    (e = None -> exists u, fills (sc_Unmanaged c) u /\ streams s' !! sc_Name c = Some (stream_with u c));
  Consumer_law t n s s' e : js_Consumer t n s = (s', e) ->
    streams s' = streams s /\ consumers s' = consumers s /\
    (errors_is e ErrConsumerNotFound = true -> consumers s !! (t, n) = None);
  ConsumerInfo_law t n s s' r : js_ConsumerInfo t n s = (s', r) ->
    streams s' = streams s /\ consumers s' = consumers s /\
    (forall c, r = Ok c -> consumers s !! (t, n) = Some c);
  CreateConsumer_law t c s s' e : js_CreateConsumer t c s = (s', e) ->
    streams s' = streams s /\
    (consumers s' = consumers s \/
     (consumers s !! (t, cc_Durable c) = None /\
      exists u, fills (cc_Unmanaged c) u /\ consumers s' = <[(t, cc_Durable c) := consumer_with u c]> (consumers s))) /\
    (e = None -> exists u, fills (cc_Unmanaged c) u /\ consumers s' !! (t, cc_Durable c) = Some (consumer_with u c));
  UpdateConsumer_law t c s s' e : js_UpdateConsumer t c s = (s', e) ->
    streams s' = streams s /\
    (consumers s' = consumers s \/
     (is_Some (consumers s !! (t, cc_Durable c)) /\
      exists u, fills (cc_Unmanaged c) u /\ consumers s' = <[(t, cc_Durable c) := consumer_with u c]> (consumers s))) /\
    (e = None -> exists u, fills (cc_Unmanaged c) u /\ consumers s' !! (t, cc_Durable c) = Some (consumer_with u c)) }.

(** ** Comparison *)
Definition decreasesLimit (current desired : Z) : bool :=
  if current <? 0 then 0 <=? desired else (0 <=? desired) && (desired <? current).
Definition decreasesDuration (current desired : Duration) : bool :=
  if current =? 0 then 0 <? desired else (0 <? desired) && (desired <? current).

Definition sameStrings (left right : list string) : bool :=
  bool_decide (merge_sort string_le left = merge_sort string_le right).

Definition consumer_key (stream name : string) : string := stream ++ "/" ++ name.

Section Topology.
Context {S U : Type} `{!JetStream S U}.
Implicit Types (s : S).

Definition compareStream (current : StreamConfig U) (desired : StreamSpec) : ChangeAction * string :=
  if negb (sc_Retention current =? ss_Retention desired) || negb (sc_Storage current =? ss_Storage desired)
     || negb (sc_Replicas current =? ss_Replicas desired)
  then (ChangeConflict, "retention, storage, or replicas differ")
  else if negb (isSubjectSuperset (ss_Subjects desired) (sc_Subjects current))
  then (ChangeConflict, "declared subjects would remove an existing subject")
  else if decreasesLimit (sc_MaxMsgs current) (ss_MaxMessages desired)
          || decreasesLimit (sc_MaxBytes current) (ss_MaxBytes desired)
          || decreasesDuration (sc_MaxAge current) (ss_MaxAge desired)
          || decreasesLimit (sc_MaxMsgSize current) (ss_MaxMsgSize desired)
          || (ss_Duplicates desired <? sc_Duplicates current)
  then (ChangeConflict, "declared limits could remove retained messages")
  else if negb (String.eqb (sc_Description current) (ss_Description desired))
          || negb (sameStrings (sc_Subjects current) (ss_Subjects desired))
          || negb (sc_MaxMsgs current =? ss_MaxMessages desired) || negb (sc_MaxBytes current =? ss_MaxBytes desired)
          || negb (sc_MaxAge current =? ss_MaxAge desired) || negb (sc_MaxMsgSize current =? ss_MaxMsgSize desired)
          || negb (sc_Duplicates current =? ss_Duplicates desired)
  then (ChangeUpdate, "compatible additive change")
  else (ChangeNoop, "").

Definition is_none {A} (o : option A) : bool := match o with None => true | Some _ => false end.
Definition is_empty {A} (l : list A) : bool := match l with [] => true | _ => false end.

Definition consumerDeliveryOptionsDiffer (o : DeliveryOptions) : bool :=
  negb (o_DeliverPolicy o =? DeliverAllPolicy) || negb (o_OptStartSeq o =? 0) ||
  negb (is_none (o_OptStartTime o)) || negb (is_empty (o_BackOff o)) || negb (is_empty (o_FilterSubjects o)) ||
  negb (o_ReplayPolicy o =? ReplayInstantPolicy) || negb (o_RateLimit o =? 0) ||
  o_HeadersOnly o || negb (o_MaxRequestBatch o =? 0) || negb (o_MaxRequestExpires o =? 0) ||
  negb (o_MaxRequestMaxBytes o =? 0) || negb (o_InactiveThreshold o =? 0) || negb (is_none (o_PauseUntil o)) ||
  negb (o_PriorityPolicy o =? 0) || negb (o_PinnedTTL o =? 0) || negb (is_empty (o_PriorityGroups o)) ||
  negb (String.eqb (o_DeliverSubject o) "") || negb (String.eqb (o_DeliverGroup o) "") || o_FlowControl o ||
  negb (o_IdleHeartbeat o =? 0).

Definition compareConsumer (current : ConsumerConfig U) (desired : ConsumerSpec) : ChangeAction * string :=
  if negb (String.eqb (cc_Durable current) (cs_Name desired)) || negb (String.eqb (cc_Name current) (cs_Name desired))
     || negb (cc_AckPolicy current =? AckExplicitPolicy)
     || negb (String.eqb (cc_FilterSubject current) (cs_FilterSubject desired))
     || negb (cc_AckWait current =? cs_AckWait desired) || negb (cc_MaxDeliver current =? cs_MaxDeliver desired)
     || negb (cc_MaxAckPending current =? cs_MaxAckPending desired) || negb (cc_Replicas current =? cs_Replicas desired)
     || negb (Bool.eqb (cc_MemoryStorage current) (cs_MemoryStorage desired))
     || consumerDeliveryOptionsDiffer (cc_Options current)
  then (ChangeConflict, "delivery or acknowledgement contract differs")
  else if negb (String.eqb (cc_Description current) (cs_Description desired))
  then (ChangeUpdate, "description change")
  else (ChangeNoop, "").

(** ** Configurations sent to the broker *)
Definition streamConfig (spec : StreamSpec) : StreamConfig U :=
  {| sc_Name := ss_Name spec; sc_Description := ss_Description spec; sc_Subjects := ss_Subjects spec;
     sc_Retention := ss_Retention spec; sc_Storage := ss_Storage spec; sc_Replicas := ss_Replicas spec;
     sc_MaxMsgs := ss_MaxMessages spec; sc_MaxBytes := ss_MaxBytes spec; sc_MaxAge := ss_MaxAge spec;
     sc_MaxMsgSize := ss_MaxMsgSize spec; sc_Duplicates := ss_Duplicates spec; sc_Unmanaged := unmanaged |}.

Definition default_options : DeliveryOptions :=
  {| o_DeliverPolicy := DeliverAllPolicy; o_OptStartSeq := 0; o_OptStartTime := None; o_BackOff := [];
     o_FilterSubjects := []; o_ReplayPolicy := ReplayInstantPolicy; o_RateLimit := 0; o_HeadersOnly := false;
     o_MaxRequestBatch := 0; o_MaxRequestExpires := 0; o_MaxRequestMaxBytes := 0; o_InactiveThreshold := 0;
     o_PauseUntil := None; o_PriorityPolicy := 0; o_PinnedTTL := 0; o_PriorityGroups := []; o_DeliverSubject := "";
     o_DeliverGroup := ""; o_FlowControl := false; o_IdleHeartbeat := 0 |}.

Definition consumerConfig (spec : ConsumerSpec) : ConsumerConfig U :=
  {| cc_Durable := cs_Name spec; cc_Name := cs_Name spec; cc_Description := cs_Description spec;
     cc_AckPolicy := AckExplicitPolicy; cc_FilterSubject := cs_FilterSubject spec; cc_AckWait := cs_AckWait spec;
     cc_MaxDeliver := cs_MaxDeliver spec; cc_MaxAckPending := cs_MaxAckPending spec; cc_Replicas := cs_Replicas spec;
     cc_MemoryStorage := cs_MemoryStorage spec; cc_Options := default_options; cc_Unmanaged := unmanaged |}.

Definition mergeStreamConfig (current : StreamConfig U) (desired : StreamSpec) : StreamConfig U :=
  stream_with (sc_Unmanaged current) (streamConfig desired).

Definition mergeConsumerConfig (current : ConsumerConfig U) (desired : ConsumerSpec) : ConsumerConfig U :=
  let managed := consumerConfig desired in
  {| cc_Durable := cc_Durable managed; cc_Name := cc_Name managed; cc_Description := cc_Description managed;
     cc_AckPolicy := cc_AckPolicy managed; cc_FilterSubject := cc_FilterSubject managed;
     cc_AckWait := cc_AckWait managed; cc_MaxDeliver := cc_MaxDeliver managed;
     cc_MaxAckPending := cc_MaxAckPending managed; cc_Replicas := cc_Replicas managed;
     cc_MemoryStorage := cc_MemoryStorage managed; cc_Options := cc_Options current;
     cc_Unmanaged := cc_Unmanaged current |}.

Definition DevStream (name : string) (subjects : list string) : StreamSpec :=
  {| ss_Name := name; ss_Description := ""; ss_Subjects := subjects; ss_Retention := LimitsPolicy;
     ss_Storage := MemoryStorage; ss_Replicas := 1; ss_MaxMessages := -1; ss_MaxBytes := -1;
     ss_MaxAge := 24 * Hour; ss_MaxMsgSize := Z.shiftl 1 20; ss_Duplicates := 10 * Minute |}.

Definition DevDLQStream (name : string) (subjects : list string) : StreamSpec :=
  let stream := DevStream name subjects in
  {| ss_Name := ss_Name stream; ss_Description := ss_Description stream; ss_Subjects := ss_Subjects stream;
     ss_Retention := ss_Retention stream; ss_Storage := ss_Storage stream; ss_Replicas := ss_Replicas stream;
     ss_MaxMessages := ss_MaxMessages stream; ss_MaxBytes := ss_MaxBytes stream; ss_MaxAge := ss_MaxAge stream;
     ss_MaxMsgSize := DefaultMaxDLQMessageBytes; ss_Duplicates := ss_Duplicates stream |}.

(** ** Validation *)
Definition bad_stream (stream : StreamSpec) : bool :=
  is_empty (ss_Subjects stream) || (ss_Replicas stream <? 1) || (maxJetStreamReplicas <? ss_Replicas stream)
  || (ss_MaxMessages stream =? 0) || (ss_MaxMessages stream <? -1)
  || (ss_MaxBytes stream =? 0) || (ss_MaxBytes stream <? -1) || (ss_MaxAge stream <? 0)
  || (ss_MaxMsgSize stream <=? 0) || (ss_Duplicates stream <=? 0).

Fixpoint validate_streams (l : list StreamSpec) (seen : gmap string StreamSpec)
  : result error (gmap string StreamSpec) :=
  match l with
  | [] => Ok seen
  | stream :: rest =>
      match validateJetStreamResourceName (ss_Name stream) with
      | Some e => Err (invalid_config "stream" [e])
      | None =>
          if bad_stream stream then Err (invalid_config "stream" [])
          else match first_some (List.map validateSubjectPattern (ss_Subjects stream)) with
          | Some e => Err (invalid_config "stream subject" [e])
          | None =>
              match seen !! ss_Name stream with
              | Some _ => Err (invalid_config "duplicate stream" [])
              | None => validate_streams rest (<[ss_Name stream := stream]> seen)
              end
          end
      end
  end.

Definition validateConsumerAgainstDeclaredStream (declared : gmap string StreamSpec) (consumer : ConsumerSpec)
  : option error :=
  match declared !! cs_Stream consumer with
  | None => None
  | Some stream =>
      if ss_Replicas stream <? cs_Replicas consumer
      then Some (invalid_config "consumer replicas exceed stream replicas" [])
      else if negb (streamSubjectsCoverFilter (ss_Subjects stream) (cs_FilterSubject consumer))
      then Some (invalid_config "consumer filter is outside stream subjects" []) else None
  end.

Definition bad_consumer (consumer : ConsumerSpec) : bool :=
  String.eqb (cs_FilterSubject consumer) "" || (cs_AckWait consumer <=? 0) || (cs_MaxDeliver consumer =? 0)
  || (cs_MaxDeliver consumer <? -1) || (cs_MaxAckPending consumer <=? 0) || (cs_Replicas consumer <? 0)
  || (maxJetStreamReplicas <? cs_Replicas consumer).

Fixpoint validate_consumers (declared : gmap string StreamSpec) (l : list ConsumerSpec) (seen : gset string)
  : option error :=
  match l with
  | [] => None
  | consumer :: rest =>
      match validateJetStreamResourceName (cs_Stream consumer) with
      | Some e => Some (invalid_config "consumer stream" [e])
      | None =>
          match validateJetStreamResourceName (cs_Name consumer) with
          | Some e => Some (invalid_config "consumer name" [e])
          | None =>
              let key := consumer_key (cs_Stream consumer) (cs_Name consumer) in
              if bad_consumer consumer then Some (invalid_config "consumer" [])
              else match validateSubjectPattern (cs_FilterSubject consumer) with
              | Some e => Some (invalid_config "consumer subject" [e])
              | None =>
                  match validateConsumerAgainstDeclaredStream declared consumer with
                  | Some e => Some e
                  | None =>
                      if bool_decide (key ∈ seen) then Some (invalid_config "duplicate consumer" [])
                      else validate_consumers declared rest ({[key]} ∪ seen)
                  end
              end
          end
      end
  end.

Definition validateTopology (topology : Topology) : option error :=
  if negb (String.eqb (SpecVersion topology) TopologySpecVersion)
  then Some (invalid_config "topology specVersion must be 1.0" [])
  else match validate_streams (Streams topology) ∅ with
  | Err e => Some e
  | Ok declared => validate_consumers declared (Consumers topology) ∅
  end.

(** [connection] is [None] when nil; otherwise it holds the error of
    [jetstream.New]. *)
Definition jetStream (connection : option (option error)) (topology : Topology) : option error :=
  match connection with
  | None => Some (invalid_config "nil NATS connection" [])
  | Some newErr =>
      match validateTopology topology with
      | Some e => Some e
      | None => match newErr with
                | Some e => Some (EFmt "create JetStream context" [e])
                | None => None
                end
      end
  end.

(** ** Plan *)
Definition stream_change (name : string) (a : ChangeAction) (reason : string) : Change :=
  {| ch_Resource := resourceStream; ch_Name := name; ch_Action := a; ch_Reason := reason |}.
Definition consumer_change (desired : ConsumerSpec) (a : ChangeAction) (reason : string) : Change :=
  {| ch_Resource := resourceConsumer; ch_Name := consumer_key (cs_Stream desired) (cs_Name desired);
     ch_Action := a; ch_Reason := reason |}.

Fixpoint plan_streams (l : list StreamSpec) s : S * result error (list Change * gset string) :=
  match l with
  | [] => (s, Ok ([], ∅))
  | desired :: rest =>
      let '(s, err) := js_Stream (ss_Name desired) s in
      if errors_is err ErrStreamNotFound then
        let '(s, r) := plan_streams rest s in
        (s, match r with
            | Err e => Err e
            | Ok (changes, missing) =>
                Ok (stream_change (ss_Name desired) ChangeCreate "" :: changes, {[ss_Name desired]} ∪ missing)
            end)
      else match err with
      | Some e => (s, Err (EFmt "inspect stream" [e]))
      | None =>
          let '(s, info) := js_StreamInfo (ss_Name desired) s in
          match info with
          | Err e => (s, Err (EFmt "inspect stream info" [e]))
          | Ok config =>
              let '(action, reason) := compareStream config desired in
              let '(s, r) := plan_streams rest s in
              (s, match r with
                  | Err e => Err e
                  | Ok (changes, missing) => Ok (stream_change (ss_Name desired) action reason :: changes, missing)
                  end)
          end
      end
  end.

(** The subjects, or [None] when the stream does not exist; [known] is the map
    the code updates. *)
Definition resolveConsumerStreamSubjects (known : gmap string (list string)) (streamName : string) s
  : S * result error (gmap string (list string) * option (list string)) :=
  match known !! streamName with
  | Some subjects => (s, Ok (known, Some subjects))
  | None =>
      let '(s, err) := js_Stream streamName s in
      if errors_is err ErrStreamNotFound then (s, Ok (known, None))
      else match err with
      | Some e => (s, Err (EFmt "inspect consumer stream" [e]))
      | None =>
          let '(s, info) := js_StreamInfo streamName s in
          match info with
          | Err e => (s, Err (EFmt "inspect consumer stream info" [e]))
          | Ok config => (s, Ok (<[streamName := sc_Subjects config]> known, Some (sc_Subjects config)))
          end
      end
  end.

Definition plan_consumer (missing : gset string) (subjects : option (list string)) (desired : ConsumerSpec) s
  : S * result error Change :=
  match subjects with
  | None => (s, Ok (consumer_change desired ChangeConflict "referenced stream does not exist"))
  | Some subjects =>
      if negb (streamSubjectsCoverFilter subjects (cs_FilterSubject desired))
      then (s, Ok (consumer_change desired ChangeConflict "filter subject is outside stream subjects"))
      else if bool_decide (cs_Stream desired ∈ missing) then (s, Ok (consumer_change desired ChangeCreate ""))
      else
        let '(s, err) := js_Consumer (cs_Stream desired) (cs_Name desired) s in
        if errors_is err ErrConsumerNotFound then (s, Ok (consumer_change desired ChangeCreate ""))
        else match err with
        | Some e => (s, Err (EFmt "inspect consumer" [e]))
        | None =>
            let '(s, info) := js_ConsumerInfo (cs_Stream desired) (cs_Name desired) s in
            match info with
            | Err e => (s, Err (EFmt "inspect consumer info" [e]))
            | Ok config =>
                let '(action, reason) := compareConsumer config desired in
                (s, Ok (consumer_change desired action reason))
            end
        end
  end.

Fixpoint plan_consumers (missing : gset string) (known : gmap string (list string)) (l : list ConsumerSpec) s
  : S * result error (list Change) :=
  match l with
  | [] => (s, Ok [])
  | desired :: rest =>
      let '(s, r) := resolveConsumerStreamSubjects known (cs_Stream desired) s in
      match r with
      | Err e => (s, Err e)
      | Ok (known, subjects) =>
          let '(s, r) := plan_consumer missing subjects desired s in
          match r with
          | Err e => (s, Err e)
          | Ok change =>
              let '(s, r) := plan_consumers missing known rest s in
              (s, match r with Err e => Err e | Ok changes => Ok (change :: changes) end)
          end
      end
  end.

(** The order of [sort.Slice]; the keys of a valid topology are distinct. *)
Definition change_le (a b : Change) : Prop :=
  if String.eqb (ch_Resource a) (ch_Resource b) then string_le (ch_Name a) (ch_Name b)
  else string_le (ch_Resource a) (ch_Resource b).
#[global] Instance change_le_dec a b : Decision (change_le a b).
Proof. unfold change_le, string_le, is_true. destruct (String.eqb _ _); apply _. Defined.

Definition stream_subjects (l : list StreamSpec) : gmap string (list string) :=
  fold_left (fun m d => <[ss_Name d := ss_Subjects d]> m) l ∅.

Definition planTopology (topology : Topology) s : S * result error (list Change) :=
  let '(s, r) := plan_streams (Streams topology) s in
  match r with
  | Err e => (s, Err e)
  | Ok (stream_changes, missing) =>
      let '(s, r) := plan_consumers missing (stream_subjects (Streams topology)) (Consumers topology) s in
      (s, match r with
          | Err e => Err e
          | Ok consumer_changes => Ok (merge_sort change_le (stream_changes ++ consumer_changes)%list)
          end)
  end.

Definition PlanTopology (connection : option (option error)) (topology : Topology) s : S * result error (list Change) :=
  match jetStream connection topology with
  | Some e => (s, Err e)
  | None => planTopology topology s
  end.

(** ** Application *)
Definition applyStreamChange (change : Change) (spec : StreamSpec) s : S * option error :=
  match ch_Action change with
  | ChangeCreate =>
      let '(s, err) := js_CreateStream (streamConfig spec) s in
      (s, match err with Some e => Some (EFmt "create stream" [e]) | None => None end)
  | ChangeUpdate =>
      let '(s, err) := js_Stream (ss_Name spec) s in
      match err with
      | Some e => (s, Some (EFmt "inspect stream before update" [e]))
      | None =>
          let '(s, info) := js_StreamInfo (ss_Name spec) s in
          match info with
          | Err e => (s, Some (EFmt "inspect stream info before update" [e]))
          | Ok config =>
              let '(action, reason) := compareStream config spec in
              match action with
              | ChangeConflict => (s, Some (wrapS ErrNatsTopologyDrift "stream"))
              | ChangeUpdate =>
                  let '(s, err) := js_UpdateStream (mergeStreamConfig config spec) s in
                  (s, match err with Some e => Some (EFmt "update stream" [e]) | None => None end)
              | _ => (s, None)
              end
          end
      end
  | ChangeNoop => (s, None)
  | ChangeConflict => (s, Some (wrapS ErrNatsTopologyDrift "stream"))
  end.

Definition applyConsumerChange (change : Change) (spec : ConsumerSpec) s : S * option error :=
  match ch_Action change with
  | ChangeCreate =>
      let '(s, err) := js_CreateConsumer (cs_Stream spec) (consumerConfig spec) s in
      (s, match err with Some e => Some (EFmt "create consumer" [e]) | None => None end)
  | ChangeUpdate =>
      let '(s, err) := js_Consumer (cs_Stream spec) (cs_Name spec) s in
      match err with
      | Some e => (s, Some (EFmt "inspect consumer before update" [e]))
      | None =>
          let '(s, info) := js_ConsumerInfo (cs_Stream spec) (cs_Name spec) s in
          match info with
          | Err e => (s, Some (EFmt "inspect consumer info before update" [e]))
          | Ok config =>
              let '(action, reason) := compareConsumer config spec in
              match action with
              | ChangeConflict => (s, Some (wrapS ErrNatsTopologyDrift "consumer"))
              | ChangeUpdate =>
                  let '(s, err) := js_UpdateConsumer (cs_Stream spec) (mergeConsumerConfig config spec) s in
                  (s, match err with Some e => Some (EFmt "update consumer" [e]) | None => None end)
              | _ => (s, None)
              end
          end
      end
  | ChangeNoop => (s, None)
  | ChangeConflict => (s, Some (wrapS ErrNatsTopologyDrift "consumer"))
  end.

(** Zero values for missing map entries. *)
Definition StreamSpec0 : StreamSpec :=
  {| ss_Name := ""; ss_Description := ""; ss_Subjects := []; ss_Retention := 0; ss_Storage := 0; ss_Replicas := 0;
     ss_MaxMessages := 0; ss_MaxBytes := 0; ss_MaxAge := 0; ss_MaxMsgSize := 0; ss_Duplicates := 0 |}.
Definition ConsumerSpec0 : ConsumerSpec :=
  {| cs_Stream := ""; cs_Name := ""; cs_Description := ""; cs_FilterSubject := ""; cs_AckWait := 0; cs_MaxDeliver := 0;
     cs_MaxAckPending := 0; cs_Replicas := 0; cs_MemoryStorage := false |}.

Definition stream_specs (l : list StreamSpec) : gmap string StreamSpec :=
  fold_left (fun m d => <[ss_Name d := d]> m) l ∅.
Definition consumer_specs (l : list ConsumerSpec) : gmap string ConsumerSpec :=
  fold_left (fun m d => <[consumer_key (cs_Stream d) (cs_Name d) := d]> m) l ∅.

(** One pass over the changes, for one kind of resource. *)
Fixpoint apply_changes (apply : Change -> S -> S * option error) (resource : string) (changes : list Change) s
  : S * option error :=
  match changes with
  | [] => (s, None)
  | change :: rest =>
      if negb (String.eqb (ch_Resource change) resource) then apply_changes apply resource rest s
      else let '(s, err) := apply change s in
           match err with
           | Some e => (s, Some e)
           | None => apply_changes apply resource rest s
           end
  end.

Definition apply_stream (topology : Topology) (change : Change) s : S * option error :=
  applyStreamChange change (default StreamSpec0 (stream_specs (Streams topology) !! ch_Name change)) s.
Definition apply_consumer (topology : Topology) (change : Change) s : S * option error :=
  applyConsumerChange change (default ConsumerSpec0 (consumer_specs (Consumers topology) !! ch_Name change)) s.

(** The changes are returned with the error. *)
Definition ApplyTopology (connection : option (option error)) (topology : Topology) s
  : S * (list Change * option error) :=
  match jetStream connection topology with
  | Some e => (s, ([], Some e))
  | None =>
      let '(s, r) := planTopology topology s in
      match r with
      | Err e => (s, ([], Some e))
      | Ok changes =>
          if existsb (fun c => bool_decide (ch_Action c = ChangeConflict)) changes
          then (s, (changes, Some (wrapS ErrNatsTopologyDrift "conflict")))
          else
            let '(s, err) := apply_changes (apply_stream topology) resourceStream changes s in
            match err with
            | Some e => (s, (changes, Some e))
            | None =>
                let '(s, err) := apply_changes (apply_consumer topology) resourceConsumer changes s in
                (s, (changes, err))
            end
      end
  end.
End Topology.
End NatsTopology.
