(* ===== verification/NatsTopologyProofs.v ===== *)
(** * Topology management is safe and converges

    Whatever fails, applying a topology never removes a stream or a consumer,
    never loses a subject or retained messages, and changes nothing when the plan
    has a conflict; when it succeeds, every declared resource is as declared. *)
From S2P Require Import Prelude GoStrings GoText Errors Ident NatsSubject NatsTopology.
Import Stdlib.Strings.String.
Import NatsSubject NatsTopology.
Open Scope string_scope.
Open Scope Z_scope.

Module NatsTopologyProofs.

(** ** What must be kept *)

(** A limit, negative for none, was not lowered; a duration, zero for none. *)
Definition limit_kept (old new : Z) : Prop := new < 0 \/ 0 <= old <= new.
Definition age_kept (old new : Duration) : Prop := new = 0 \/ (old <> 0 /\ old <= new).

Section Proofs.
Context {S U : Type} `{!JetStream S U} `{!JetStreamLaws S U}.
Implicit Types (s : S).

Definition stream_kept (c c' : StreamConfig U) : Prop :=
  sc_Retention c' = sc_Retention c /\ sc_Storage c' = sc_Storage c /\ sc_Replicas c' = sc_Replicas c /\
  (forall subject, literal subject -> existsb (fun p => matches p subject) (sc_Subjects c) = true ->
     existsb (fun p => matches p subject) (sc_Subjects c') = true) /\
  limit_kept (sc_MaxMsgs c) (sc_MaxMsgs c') /\ limit_kept (sc_MaxBytes c) (sc_MaxBytes c') /\
  limit_kept (sc_MaxMsgSize c) (sc_MaxMsgSize c') /\ age_kept (sc_MaxAge c) (sc_MaxAge c') /\
  sc_Duplicates c <= sc_Duplicates c' /\ fills (sc_Unmanaged c) (sc_Unmanaged c').

(** Only the description may differ, and what the server fills in. *)
Definition consumer_kept (c c' : ConsumerConfig U) : Prop :=
  cc_Durable c' = cc_Durable c /\ cc_Name c' = cc_Name c /\ cc_AckPolicy c' = cc_AckPolicy c /\
  cc_FilterSubject c' = cc_FilterSubject c /\ cc_AckWait c' = cc_AckWait c /\ cc_MaxDeliver c' = cc_MaxDeliver c /\
  cc_MaxAckPending c' = cc_MaxAckPending c /\ cc_Replicas c' = cc_Replicas c /\
  cc_MemoryStorage c' = cc_MemoryStorage c /\ cc_Options c' = cc_Options c /\ fills (cc_Unmanaged c) (cc_Unmanaged c').

Definition same s s' : Prop := streams s' = streams s /\ consumers s' = consumers s.
Definition safe s s' : Prop :=
  (forall n c, streams s !! n = Some c -> exists c', streams s' !! n = Some c' /\ stream_kept c c') /\
  (forall k c, consumers s !! k = Some c -> exists c', consumers s' !! k = Some c' /\ consumer_kept c c').

Definition stream_conforms (d : StreamSpec) s : Prop :=
  exists c, streams s !! ss_Name d = Some c /\ (compareStream c d).1 = ChangeNoop.
Definition consumer_conforms (d : ConsumerSpec) s : Prop :=
  exists c, consumers s !! (cs_Stream d, cs_Name d) = Some c /\ (compareConsumer c d).1 = ChangeNoop.

#[global] Instance stream_kept_preorder : PreOrder stream_kept.
Proof.
  unfold stream_kept, limit_kept, age_kept. split.
  - intros c. split_and!; auto; try lia. reflexivity.
  - intros a b c (A1 & A2 & A3 & A4 & A5 & A6 & A7 & A8 & A9 & A10) (B1 & B2 & B3 & B4 & B5 & B6 & B7 & B8 & B9 & B10).
    split_and!; try congruence; auto; try lia. by etrans.
Qed.
#[global] Instance consumer_kept_preorder : PreOrder consumer_kept.
Proof.
  unfold consumer_kept. split; [intros c; by split_and!|]. intros a b c H1 H2. destruct_and!. split_and!; try congruence. by etrans.
Qed.
#[global] Instance safe_preorder : PreOrder safe.
Proof.
  split.
  - intros s. split; intros k c H; exists c; (split; [done|reflexivity]).
  - intros a b c [A1 A2] [B1 B2]. split; intros k x Hx.
    + destruct (A1 k x Hx) as (y & Hy & Hxy). destruct (B1 k y Hy) as (z & Hz & Hyz). exists z. split; [done|by etrans].
    + destruct (A2 k x Hx) as (y & Hy & Hxy). destruct (B2 k y Hy) as (z & Hz & Hyz). exists z. split; [done|by etrans].
Qed.
#[global] Instance same_equivalence : Equivalence same.
Proof. unfold same. split; red; intuition congruence. Qed.

Lemma same_safe s s' : same s s' -> safe s s'.
Proof. intros [E1 E2]. unfold safe. rewrite E1, E2. split; intros k c H; exists c; (split; [done|reflexivity]). Qed.

(** ** Maps in which one entry may have changed *)
Definition touched {K A} `{Countable K} (R : A -> A -> Prop) (k : K) (m m' : gmap K A) : Prop :=
  (forall n c, m !! n = Some c -> exists c', m' !! n = Some c' /\ R c c') /\ (forall n, n <> k -> m' !! n = m !! n).

Lemma touched_refl {K A} `{Countable K} (R : A -> A -> Prop) `{!Reflexive R} k (m : gmap K A) : touched R k m m.
Proof. split; [|done]. intros n c Hn. by exists c. Qed.

Lemma touched_law {K A V} `{Countable K} (R : A -> A -> Prop) `{!Reflexive R} (Q : Prop) (P : V -> Prop) k (f : V -> A) (m m' : gmap K A) :
  m' = m \/ (Q /\ exists u, P u /\ m' = <[k := f u]> m) -> (forall u x, Q -> P u -> m !! k = Some x -> R x (f u)) ->
  touched R k m m'.
Proof.
  intros [->|(HQ & u & Hu & ->)] Hr; [apply touched_refl; apply _|]. split.
  - intros n c Hn. destruct (decide (k = n)) as [<-|Hne].
    + exists (f u). rewrite lookup_insert_eq. auto.
    + exists c. by rewrite lookup_insert_ne.
  - intros n Hn. by rewrite lookup_insert_ne.
Qed.

(** What is found there is what was there, or as declared. *)
Definition as_declared {K A} `{Countable K} (good : A -> Prop) (k : K) (m m' : gmap K A) : Prop :=
  forall c, m' !! k = Some c -> m !! k = Some c \/ good c.
Lemma as_declared_refl {K A} `{Countable K} (good : A -> Prop) (k : K) (m : gmap K A) : as_declared good k m m.
Proof. intros c Hc. by left. Qed.
Lemma as_declared_law {K A V} `{Countable K} (good : A -> Prop) (Q : Prop) (P : V -> Prop) k (f : V -> A) (m m' : gmap K A) :
  m' = m \/ (Q /\ exists u, P u /\ m' = <[k := f u]> m) -> (forall u, good (f u)) -> as_declared good k m m'.
Proof. intros [->|(_ & u & _ & ->)] Hg c Hc; [by left|]. rewrite lookup_insert_eq in Hc. injection Hc as <-. by right. Qed.
Definition stream_good (d : StreamSpec) (c : StreamConfig U) : Prop := (compareStream c d).1 = ChangeNoop.
Definition consumer_good (d : ConsumerSpec) (c : ConsumerConfig U) : Prop := (compareConsumer c d).1 = ChangeNoop.

(** ** Comparisons *)
Lemma decreasesLimit_kept a b : decreasesLimit a b = false -> limit_kept a b.
Proof. unfold decreasesLimit, limit_kept. intros H. case_in H; bool_simpl; [lia|]. apply andb_false_iff in H as [H|H]; bool_simpl; lia. Qed.
Lemma decreasesDuration_kept a b : 0 <= b -> decreasesDuration a b = false -> age_kept a b.
Proof.
  unfold decreasesDuration, age_kept. intros Hb H. case_in H; bool_simpl; [lia|].
  apply andb_false_iff in H as [H|H]; bool_simpl; lia.
Qed.
Lemma decreasesLimit_refl a : decreasesLimit a a = false.
Proof. unfold decreasesLimit. destruct (Z.ltb_spec a 0); [lia|]. destruct (Z.leb_spec 0 a), (Z.ltb_spec a a); try lia; done. Qed.
Lemma decreasesDuration_refl a : decreasesDuration a a = false.
Proof. unfold decreasesDuration. destruct (Z.eqb_spec a 0); [lia|]. destruct (Z.ltb_spec 0 a), (Z.ltb_spec a a); try lia; done. Qed.

Lemma compareStream_kept c d u : 0 <= ss_MaxAge d -> fills (sc_Unmanaged c) u -> (compareStream c d).1 <> ChangeConflict ->
  stream_kept c (stream_with u (mergeStreamConfig c d)).
Proof.
  intros Ha Hu. unfold compareStream. intros H.
  destruct (negb (sc_Retention c =? _) || _ || _) eqn:E1; [done|].
  destruct (negb (isSubjectSuperset _ _)) eqn:E2; [done|].
  destruct (_ || (ss_Duplicates d <? _)) eqn:E3; [done|]. clear H. bool_simpl.
  unfold stream_kept. cbn. split_and!; auto using decreasesLimit_kept, decreasesDuration_kept.
  intros s Hs. by apply isSubjectSuperset_sound.
Qed.

Lemma compareStream_config u d : Forall (fun p => validateSubjectPattern p = None) (ss_Subjects d) ->
  (compareStream (stream_with u (streamConfig d)) d).1 = ChangeNoop.
Proof.
  intros Hp. unfold compareStream, streamConfig. cbn -[isSubjectSuperset decreasesLimit decreasesDuration sameStrings].
  rewrite !Z.eqb_refl, isSubjectSuperset_refl, !decreasesLimit_refl, decreasesDuration_refl, Z.ltb_irrefl, String.eqb_refl by done.
  unfold sameStrings. by rewrite bool_decide_true.
Qed.

Lemma default_options_same : consumerDeliveryOptionsDiffer default_options = false.
Proof. unfold consumerDeliveryOptionsDiffer, default_options. cbn. by rewrite !Z.eqb_refl. Qed.

Lemma compareConsumer_config u d : (compareConsumer (consumer_with u (consumerConfig d)) d).1 = ChangeNoop.
Proof.
  unfold compareConsumer, consumerConfig. cbn -[consumerDeliveryOptionsDiffer].
  rewrite !String.eqb_refl, !Z.eqb_refl, Bool.eqb_reflx, default_options_same. done.
Qed.

Lemma compareConsumer_equal c d : (compareConsumer c d).1 <> ChangeConflict ->
  cc_Durable c = cs_Name d /\ cc_Name c = cs_Name d /\ cc_AckPolicy c = AckExplicitPolicy /\
  cc_FilterSubject c = cs_FilterSubject d /\ cc_AckWait c = cs_AckWait d /\ cc_MaxDeliver c = cs_MaxDeliver d /\
  cc_MaxAckPending c = cs_MaxAckPending d /\ cc_Replicas c = cs_Replicas d /\ cc_MemoryStorage c = cs_MemoryStorage d /\
  consumerDeliveryOptionsDiffer (cc_Options c) = false.
Proof.
  unfold compareConsumer. intros H. destruct (_ || consumerDeliveryOptionsDiffer _) eqn:E; [done|].
  bool_simpl. repeat match goal with Hs : String.eqb _ _ = true |- _ => apply String.eqb_eq in Hs end.
  split_and!; auto. by apply Bool.eqb_prop.
Qed.

Lemma compareConsumer_merge u c d : fills (cc_Unmanaged c) u -> (compareConsumer c d).1 <> ChangeConflict ->
  consumer_kept c (consumer_with u (mergeConsumerConfig c d)) /\
  (compareConsumer (consumer_with u (mergeConsumerConfig c d)) d).1 = ChangeNoop.
Proof.
  intros Hu (H1 & H2 & H3 & H4 & H5 & H6 & H7 & H8 & H9 & H10)%compareConsumer_equal. split.
  - unfold consumer_kept. cbn. split_and!; congruence || done.
  - unfold compareConsumer, mergeConsumerConfig. cbn -[consumerDeliveryOptionsDiffer].
    rewrite H10, !String.eqb_refl, !Z.eqb_refl, Bool.eqb_reflx. done.
Qed.

(** ** One change *)

(** After an application without an error. *)
Definition settled (action : ChangeAction) (conforms : S -> Prop) (e : option error) s s' : Prop :=
  e = None -> match action with
              | ChangeNoop => s' = s
              | ChangeConflict => False
              | _ => conforms s'
              end.

Lemma compareStream_not_create (c : StreamConfig U) d reason : compareStream c d <> (ChangeCreate, reason).
Proof. unfold compareStream. repeat case_goal; congruence. Qed.
Lemma compareConsumer_not_create (c : ConsumerConfig U) d reason : compareConsumer c d <> (ChangeCreate, reason).
Proof. unfold compareConsumer. repeat case_goal; congruence. Qed.

Lemma applyStreamChange_ok change spec s s' e : 0 <= ss_MaxAge spec ->
  Forall (fun p => validateSubjectPattern p = None) (ss_Subjects spec) -> applyStreamChange change spec s = (s', e) ->
  consumers s' = consumers s /\ touched stream_kept (ss_Name spec) (streams s) (streams s') /\
  as_declared (stream_good spec) (ss_Name spec) (streams s) (streams s') /\
  settled (ch_Action change) (stream_conforms spec) e s s'.
Proof.
  intros Ha Hp H. unfold applyStreamChange in H. unfold settled. destruct (ch_Action change).
  - destruct (js_CreateStream (streamConfig spec) s) as [s1 err] eqn:E. injection H as <- <-.
    destruct (CreateStream_law _ _ _ _ E) as (Hc & Hs & He). split_and!; [done| | |].
    + eapply touched_law; [apply _|exact Hs|]. cbn. intros. congruence.
    + eapply as_declared_law; [exact Hs|]. intros u. by apply compareStream_config.
    + intros Hnone. destruct err; [done|]. destruct (He eq_refl) as (u & _ & Hu). eexists. split; [exact Hu|].
      by apply compareStream_config.
  - destruct (js_Stream (ss_Name spec) s) as [s1 err] eqn:E1. destruct (Stream_law _ _ _ _ E1) as (S1 & C1 & _).
    destruct err as [e1|]; [injection H as <- <-; rewrite S1; split_and!; [done|apply touched_refl; apply _|apply as_declared_refl|done]|].
    destruct (js_StreamInfo (ss_Name spec) s1) as [s2 info] eqn:E2. destruct (StreamInfo_law _ _ _ _ E2) as (S2 & C2 & I2).
    rewrite S1 in S2, I2. rewrite C1 in C2.
    destruct info as [config|e2]; [|injection H as <- <-; rewrite S2; split_and!; [done|apply touched_refl; apply _|apply as_declared_refl|done]].
    specialize (I2 config eq_refl). destruct (compareStream config spec) as [action reason] eqn:Ecmp. destruct action.
    + by apply compareStream_not_create in Ecmp.
    + destruct (js_UpdateStream (mergeStreamConfig config spec) s2) as [s3 err] eqn:E3. injection H as <- <-.
      destruct (UpdateStream_law _ _ _ _ E3) as (C3 & S3 & He). rewrite S2 in S3. split_and!; [congruence| | |].
      * eapply touched_law; [apply _|exact S3|]. cbn. intros u x _ Hu Hx. rewrite I2 in Hx. injection Hx as <-.
        apply compareStream_kept; [done|done|]. by rewrite Ecmp.
      * eapply as_declared_law; [exact S3|]. intros u. by apply (compareStream_config u).
      * intros Hnone. destruct err; [done|]. destruct (He eq_refl) as (u & _ & Hu). eexists. split; [exact Hu|].
        by apply (compareStream_config u).
    + injection H as <- <-. split_and!; [done|rewrite S2; apply touched_refl; apply _|rewrite S2; apply as_declared_refl|]. intros _. exists config. by rewrite S2, Ecmp.
    + injection H as <- <-. split_and!; [done|rewrite S2; apply touched_refl; apply _|rewrite S2; apply as_declared_refl|done].
  - injection H as <- <-. split_and!; [done|apply touched_refl; apply _|apply as_declared_refl|done].
  - injection H as <- <-. split_and!; [done|apply touched_refl; apply _|apply as_declared_refl|done].
Qed.

Lemma applyConsumerChange_ok change spec s s' e : applyConsumerChange change spec s = (s', e) ->
  streams s' = streams s /\ touched consumer_kept (cs_Stream spec, cs_Name spec) (consumers s) (consumers s') /\
  as_declared (consumer_good spec) (cs_Stream spec, cs_Name spec) (consumers s) (consumers s') /\
  settled (ch_Action change) (consumer_conforms spec) e s s'.
Proof.
  intros H. unfold applyConsumerChange in H. unfold settled. destruct (ch_Action change).
  - destruct (js_CreateConsumer (cs_Stream spec) (consumerConfig spec) s) as [s1 err] eqn:E. injection H as <- <-.
    destruct (CreateConsumer_law _ _ _ _ _ E) as (Hc & Hs & He). split_and!; [done| | |].
    + eapply touched_law; [apply _|exact Hs|]. cbn. intros. congruence.
    + eapply as_declared_law; [exact Hs|]. intros u. apply compareConsumer_config.
    + intros Hnone. destruct err; [done|]. destruct (He eq_refl) as (u & _ & Hu). eexists. split; [exact Hu|].
      apply compareConsumer_config.
  - destruct (js_Consumer (cs_Stream spec) (cs_Name spec) s) as [s1 err] eqn:E1. destruct (Consumer_law _ _ _ _ _ E1) as (S1 & C1 & _).
    destruct err as [e1|]; [injection H as <- <-; rewrite C1; split_and!; [done|apply touched_refl; apply _|apply as_declared_refl|done]|].
    destruct (js_ConsumerInfo (cs_Stream spec) (cs_Name spec) s1) as [s2 info] eqn:E2.
    destruct (ConsumerInfo_law _ _ _ _ _ E2) as (S2 & C2 & I2). rewrite C1 in C2, I2. rewrite S1 in S2.
    destruct info as [config|e2]; [|injection H as <- <-; rewrite C2; split_and!; [done|apply touched_refl; apply _|apply as_declared_refl|done]].
    specialize (I2 config eq_refl). destruct (compareConsumer config spec) as [action reason] eqn:Ecmp. destruct action.
    + by apply compareConsumer_not_create in Ecmp.
    + assert ((compareConsumer config spec).1 <> ChangeConflict) as Hok by (by rewrite Ecmp).
      destruct (js_UpdateConsumer (cs_Stream spec) (mergeConsumerConfig config spec) s2) as [s3 err] eqn:E3. injection H as <- <-.
      destruct (UpdateConsumer_law _ _ _ _ _ E3) as (C3 & S3 & He). rewrite C2 in S3. split_and!; [congruence| | |].
      * eapply touched_law; [apply _|exact S3|]. cbn. intros u x _ Hu Hx. rewrite I2 in Hx. injection Hx as <-.
        by apply compareConsumer_merge.
      * destruct S3 as [->|(_ & u & Hu & ->)]; [apply as_declared_refl|]. intros x Hx. rewrite lookup_insert_eq in Hx. injection Hx as <-.
        right. by apply compareConsumer_merge.
      * intros Hnone. destruct err; [done|]. destruct (He eq_refl) as (u & Hfill & Hu). eexists. split; [exact Hu|].
        by apply compareConsumer_merge.
    + injection H as <- <-. split_and!; [done|rewrite C2; apply touched_refl; apply _|rewrite C2; apply as_declared_refl|]. intros _. exists config. by rewrite C2, Ecmp.
    + injection H as <- <-. split_and!; [done|rewrite C2; apply touched_refl; apply _|rewrite C2; apply as_declared_refl|done].
  - injection H as <- <-. split_and!; [done|apply touched_refl; apply _|apply as_declared_refl|done].
  - injection H as <- <-. split_and!; [done|apply touched_refl; apply _|apply as_declared_refl|done].
Qed.

(** ** Lists of declarations *)
Lemma fold_insert_lookup {D} (key : D -> string) (l : list D) (m : gmap string D) :
  NoDup (List.map key l) ->
  (forall d, d ∈ l -> fold_left (fun m d => <[key d := d]> m) l m !! key d = Some d) /\
  (forall k, k ∉ List.map key l -> fold_left (fun m d => <[key d := d]> m) l m !! k = m !! k).
Proof.
  revert m. induction l as [|x l IH]; intros m Hnd; [split; [by intros d ?%elem_of_nil|done]|].
  cbn [List.map] in Hnd. inversion Hnd as [|? ? Hx Hl]; subst. destruct (IH (<[key x := x]> m) Hl) as [IH1 IH2]. cbn. split.
  - intros d [->|Hd]%elem_of_cons; [|by apply IH1]. rewrite IH2 by done. apply lookup_insert_eq.
  - intros k Hk. apply not_elem_of_cons in Hk as [Hk1 Hk2]. rewrite IH2 by done. by rewrite lookup_insert_ne.
Qed.

Lemma validate_streams_ok l seen declared : validate_streams l seen = Ok declared ->
  NoDup (List.map ss_Name l) /\ (forall n, n ∈ List.map ss_Name l -> seen !! n = None) /\
  Forall (fun d => 0 <= ss_MaxAge d /\ Forall (fun p => validateSubjectPattern p = None) (ss_Subjects d)) l.
Proof.
  revert seen. induction l as [|d l IH]; intros seen H; cbn [validate_streams List.map] in *.
  { split_and!; [constructor|by intros n ?%elem_of_nil|constructor]. }
  repeat (case_in H; try done). apply IH in H as (Hnd & Hs & Hf). split_and!.
  - constructor; [|done]. intros Hin. apply Hs in Hin. by rewrite lookup_insert_eq in Hin.
  - intros n [->|Hn]%elem_of_cons; [done|]. apply Hs in Hn. by apply lookup_insert_None in Hn as [].
  - constructor; [|done]. unfold bad_stream in *. bool_simpl. split; [lia|]. by apply (Forall_map validateSubjectPattern (fun o => o = None)), first_some_None.
Qed.

Lemma validate_consumers_ok declared l seen : validate_consumers declared l seen = None ->
  NoDup (List.map (fun d => consumer_key (cs_Stream d) (cs_Name d)) l) /\
  (forall n, n ∈ List.map (fun d => consumer_key (cs_Stream d) (cs_Name d)) l -> n ∉ seen).
Proof.
  revert seen. induction l as [|d l IH]; intros seen H; cbn [validate_consumers List.map] in *.
  { split; [constructor|by intros n ?%elem_of_nil]. }
  repeat (case_in H; try done). apply IH in H as (Hnd & Hs). bool_simpl. split.
  - constructor; [|done]. intros Hin. apply Hs in Hin. set_solver.
  - intros n [->|Hn]%elem_of_cons; [done|]. apply Hs in Hn. set_solver.
Qed.

(** ** The plan *)
Definition ckey (d : ConsumerSpec) : string := consumer_key (cs_Stream d) (cs_Name d).

(** A change planned for a declaration. *)
Definition planned {D} (resource : string) (key : D -> string) (conforms : D -> S -> Prop) s (d : D) (ch : Change) : Prop :=
  ch_Resource ch = resource /\ ch_Name ch = key d /\ (ch_Action ch = ChangeNoop -> conforms d s).

Lemma conforms_same {D} resource (key : D -> string) (conforms : D -> S -> Prop) s s' l chs :
  (forall d, conforms d s' -> conforms d s) ->
  Forall2 (planned resource key conforms s') l chs -> Forall2 (planned resource key conforms s) l chs.
Proof. intros Hc H. eapply Forall2_impl; [exact H|]. intros d ch (? & ? & ?). split_and!; auto. Qed.

Lemma stream_conforms_same d s s' : streams s' = streams s -> stream_conforms d s' <-> stream_conforms d s.
Proof. intros E. unfold stream_conforms. by rewrite E. Qed.
Lemma consumer_conforms_same d s s' : consumers s' = consumers s -> consumer_conforms d s' <-> consumer_conforms d s.
Proof. intros E. unfold consumer_conforms. by rewrite E. Qed.

Lemma plan_streams_ok l s s' r : plan_streams l s = (s', r) ->
  same s s' /\ forall changes missing, r = Ok (changes, missing) ->
    Forall2 (planned resourceStream ss_Name stream_conforms s) l changes.
Proof.
  revert s s' r. induction l as [|d l IH]; intros s s' r H; cbn [plan_streams] in H.
  { injection H as <- <-. split; [reflexivity|]. intros ? ? [= <- <-]. constructor. }
  destruct (js_Stream (ss_Name d) s) as [s1 err] eqn:E1. destruct (Stream_law _ _ _ _ E1) as (S1 & C1 & _).
  destruct (errors_is err ErrStreamNotFound).
  - destruct (plan_streams l s1) as [s2 r2] eqn:E2. apply IH in E2 as (Hsame & Hok). injection H as <- <-.
    split; [by etrans; [|exact Hsame]|]. intros changes missing Hr. destruct r2 as [[chs ms]|]; [|done].
    injection Hr as <- <-. constructor; [by split_and!|].
    eapply conforms_same; [|by eapply Hok]. intros d'. by apply (stream_conforms_same d' s s1).
  - destruct err as [e|]; [injection H as <- <-; by split|].
    destruct (js_StreamInfo (ss_Name d) s1) as [s2 info] eqn:E2. destruct (StreamInfo_law _ _ _ _ E2) as (S2 & C2 & I2).
    assert (same s s2) as Hs2 by (split; congruence).
    destruct info as [config|e]; [|injection H as <- <-; by split].
    specialize (I2 _ eq_refl). rewrite S1 in I2. destruct (compareStream config d) as [action reason] eqn:Ecmp.
    destruct (plan_streams l s2) as [s3 r3] eqn:E3. apply IH in E3 as (Hsame & Hok). injection H as <- <-.
    split; [by etrans|]. intros changes missing Hr. destruct r3 as [[chs ms]|]; [|done]. injection Hr as <- <-.
    constructor; [split_and!; [done..|]; cbn; intros ->; exists config; by rewrite Ecmp|].
    eapply conforms_same; [|by eapply Hok]. intros d'. apply (stream_conforms_same d' s s2), Hs2.
Qed.

Lemma resolve_same known n s s' r : resolveConsumerStreamSubjects known n s = (s', r) -> same s s'.
Proof.
  unfold resolveConsumerStreamSubjects. intros H. destruct (known !! n); [injection H as <- <-; reflexivity|].
  destruct (js_Stream n s) as [s1 err] eqn:E1. destruct (Stream_law _ _ _ _ E1) as (S1 & C1 & _).
  destruct (errors_is _ _); [by injection H as <- <-|]. destruct err; [by injection H as <- <-|].
  destruct (js_StreamInfo n s1) as [s2 info] eqn:E2. destruct (StreamInfo_law _ _ _ _ E2) as (S2 & C2 & _).
  assert (same s s2) by (split; congruence). by destruct info; injection H as <- <-.
Qed.

Lemma plan_consumer_ok missing subjects d s s' r : plan_consumer missing subjects d s = (s', r) ->
  same s s' /\ forall ch, r = Ok ch -> planned resourceConsumer ckey consumer_conforms s d ch.
Proof.
  assert (forall a reason, a <> ChangeNoop -> planned resourceConsumer ckey consumer_conforms s d (consumer_change d a reason)) as Hother
    by (intros a reason Ha; by split_and!).
  unfold plan_consumer. intros H. destruct subjects as [subjects|];
    [|injection H as <- <-; split; [reflexivity|]; intros ? [= <-]; by apply Hother].
  destruct (negb _); [injection H as <- <-; split; [reflexivity|]; intros ? [= <-]; by apply Hother|].
  destruct (bool_decide _); [injection H as <- <-; split; [reflexivity|]; intros ? [= <-]; by apply Hother|].
  destruct (js_Consumer (cs_Stream d) (cs_Name d) s) as [s1 err] eqn:E1. destruct (Consumer_law _ _ _ _ _ E1) as (S1 & C1 & _).
  destruct (errors_is _ _); [injection H as <- <-; split; [done|]; intros ? [= <-]; by apply Hother|].
  destruct err; [injection H as <- <-; by split|].
  destruct (js_ConsumerInfo (cs_Stream d) (cs_Name d) s1) as [s2 info] eqn:E2.
  destruct (ConsumerInfo_law _ _ _ _ _ E2) as (S2 & C2 & I2). assert (same s s2) by (split; congruence).
  destruct info as [config|]; [|injection H as <- <-; by split].
  destruct (compareConsumer config d) as [action reason] eqn:Ecmp. injection H as <- <-. split; [done|].
  intros ? [= <-]. split_and!; [done..|]. cbn. intros ->. exists config. rewrite <- C1, (I2 config eq_refl). by rewrite Ecmp.
Qed.

Lemma plan_consumers_ok missing known l s s' r : plan_consumers missing known l s = (s', r) ->
  same s s' /\ forall changes, r = Ok changes -> Forall2 (planned resourceConsumer ckey consumer_conforms s) l changes.
Proof.
  revert known s s' r. induction l as [|d l IH]; intros known s s' r H; cbn [plan_consumers] in H.
  { injection H as <- <-. split; [reflexivity|]. intros ? [= <-]. constructor. }
  destruct (resolveConsumerStreamSubjects known (cs_Stream d) s) as [s1 r1] eqn:E1. apply resolve_same in E1.
  destruct r1 as [[known' subjects]|]; [|injection H as <- <-; by split].
  destruct (plan_consumer missing subjects d s1) as [s2 r2] eqn:E2. apply plan_consumer_ok in E2 as (Hs2 & Hch).
  assert (same s s2) as H02 by (by etrans).
  destruct r2 as [ch|]; [|injection H as <- <-; by split].
  destruct (plan_consumers missing known' l s2) as [s3 r3] eqn:E3. apply IH in E3 as (Hs3 & Hok).
  injection H as <- <-. split; [by etrans|]. intros changes Hr. destruct r3 as [chs|]; [|done]. injection Hr as <-.
  assert (forall a b d', same a b -> consumer_conforms d' b -> consumer_conforms d' a) as Hc
    by (intros a b d' [_ ?]; by apply (consumer_conforms_same d' a b)).
  constructor; [|eapply conforms_same; [|by apply Hok]; intros d'; by apply Hc].
  destruct (Hch ch eq_refl) as (A & B & C). split_and!; auto. intros Hn. by eapply Hc, C.
Qed.

Lemma planTopology_ok topology s s' r : planTopology topology s = (s', r) ->
  same s s' /\ forall changes, r = Ok changes -> exists sc cc, changes ≡ₚ (sc ++ cc)%list /\
    Forall2 (planned resourceStream ss_Name stream_conforms s) (Streams topology) sc /\
    Forall2 (planned resourceConsumer ckey consumer_conforms s) (Consumers topology) cc.
Proof.
  unfold planTopology. intros H. destruct (plan_streams (Streams topology) s) as [s1 r1] eqn:E1.
  apply plan_streams_ok in E1 as (Hs1 & Hok1). destruct r1 as [[sc missing]|]; [|injection H as <- <-; by split].
  destruct (plan_consumers _ _ _ s1) as [s2 r2] eqn:E2. apply plan_consumers_ok in E2 as (Hs2 & Hok2). injection H as <- <-.
  split; [by etrans|]. intros changes Hr. destruct r2 as [cc|]; [|done]. injection Hr as <-. exists sc, cc.
  split_and!; [apply merge_sort_Permutation|by eapply Hok1|].
  eapply conforms_same; [|by apply Hok2]. intros d. apply (consumer_conforms_same d s s1), Hs1.
Qed.

(** ** Application *)
Section Changes.
Context (apply : Change -> S -> S * option error) (resource : string).

Lemma apply_changes_rel (R : S -> S -> Prop) `{!PreOrder R} changes s s' e :
  (forall ch s s' e, ch ∈ changes -> ch_Resource ch = resource -> apply ch s = (s', e) -> R s s') ->
  apply_changes apply resource changes s = (s', e) -> R s s'.
Proof.
  revert s. induction changes as [|ch rest IH]; intros s Hstep H; cbn [apply_changes] in H; [injection H as <- <-; reflexivity|].
  assert (forall s, apply_changes apply resource rest s = (s', e) -> R s s') as Hrest
    by (intros s1; apply IH; intros ch' ? ? ? ?; by apply Hstep, list_elem_of_further).
  destruct (String.eqb_spec (ch_Resource ch) resource) as [Hr|Hr]; cbn in H; [|by apply Hrest].
  destruct (apply ch s) as [s1 [e1|]] eqn:E; apply Hstep in E; auto using list_elem_of_here; [by injection H as <- <-|].
  etrans; [done|by apply Hrest].
Qed.

Lemma apply_changes_conf {D} (conforms : D -> S -> Prop) (key : D -> string) d changes s s' :
  (forall ch s s', ch ∈ changes -> ch_Resource ch = resource -> apply ch s = (s', None) ->
     (ch_Name ch = key d -> ch_Action ch <> ChangeNoop -> conforms d s') /\ (conforms d s -> conforms d s')) ->
  apply_changes apply resource changes s = (s', None) ->
  conforms d s \/ (exists ch, ch ∈ changes /\ ch_Resource ch = resource /\ ch_Name ch = key d /\ ch_Action ch <> ChangeNoop) ->
  conforms d s'.
Proof.
  revert s. induction changes as [|ch rest IH]; intros s Hstep H Hd; cbn [apply_changes] in H.
  { injection H as <-. destruct Hd as [|(ch & []%elem_of_nil & _)]; done. }
  assert (forall s, apply_changes apply resource rest s = (s', None) ->
    conforms d s \/ (exists ch, ch ∈ rest /\ ch_Resource ch = resource /\ ch_Name ch = key d /\ ch_Action ch <> ChangeNoop) ->
    conforms d s') as Hrest by (intros s1; apply IH; intros ch' ? ? ?; by apply Hstep, list_elem_of_further).
  destruct (String.eqb_spec (ch_Resource ch) resource) as [Hr|Hr]; cbn in H.
  - destruct (apply ch s) as [s1 [e1|]] eqn:E; [done|]. apply Hstep in E as [E1 E2]; auto using list_elem_of_here.
    apply (Hrest s1); [done|]. destruct Hd as [Hd|(c & [->|Hc]%elem_of_cons & ? & ? & ?)]; [left; auto|left; auto|right; by exists c].
  - apply (Hrest s); [done|]. destruct Hd as [Hd|(c & [->|Hc]%elem_of_cons & ? & ? & ?)]; [by left|done|right; by exists c].
Qed.
End Changes.

(** A change that asks the server to create or update. *)
Definition mutates (ch : Change) : bool := match ch_Action ch with ChangeCreate | ChangeUpdate => true | _ => false end.
Definition planned_for (changes : list Change) (resource name : string) : Prop :=
  exists ch, ch ∈ changes /\ ch_Resource ch = resource /\ ch_Name ch = name /\ mutates ch = true.

Lemma stream_noop topology ch s s' e : mutates ch = false -> apply_stream topology ch s = (s', e) -> s' = s.
Proof. unfold mutates, apply_stream, applyStreamChange. destruct (ch_Action ch); try done; by intros _ [= <- _]. Qed.
Lemma consumer_noop topology ch s s' e : mutates ch = false -> apply_consumer topology ch s = (s', e) -> s' = s.
Proof. unfold mutates, apply_consumer, applyConsumerChange. destruct (ch_Action ch); try done; by intros _ [= <- _]. Qed.

Section Valid.
Context (topology : Topology) (Hvalid : validateTopology topology = None).

Lemma valid_streams :
  NoDup (List.map ss_Name (Streams topology)) /\ NoDup (List.map ckey (Consumers topology)) /\
  Forall (fun d => 0 <= ss_MaxAge d /\ Forall (fun p => validateSubjectPattern p = None) (ss_Subjects d)) (Streams topology).
Proof.
  unfold validateTopology in Hvalid. revert Hvalid. case_goal; [done|].
  destruct (validate_streams (Streams topology) ∅) as [declared|] eqn:Es; [|done]. intros Hc.
  apply validate_streams_ok in Es as (? & _ & ?). by apply validate_consumers_ok in Hc as (? & _).
Qed.

Lemma stream_name_inj d d' : d ∈ Streams topology -> d' ∈ Streams topology -> ss_Name d = ss_Name d' -> d = d'.
Proof.
  intros Hd Hd' E. destruct valid_streams as (Hnd & _ & _). pose proof (proj1 (fold_insert_lookup ss_Name _ ∅ Hnd)) as Hl.
  pose proof (Hl d Hd) as H1. rewrite E, (Hl d' Hd') in H1. by injection H1.
Qed.
Lemma consumer_name_inj d d' : d ∈ Consumers topology -> d' ∈ Consumers topology -> ckey d = ckey d' -> d = d'.
Proof.
  intros Hd Hd' E. destruct valid_streams as (_ & Hnd & _). pose proof (proj1 (fold_insert_lookup ckey _ ∅ Hnd)) as Hl.
  pose proof (Hl d Hd) as H1. rewrite E, (Hl d' Hd') in H1. by injection H1.
Qed.

Lemma apply_stream_ok ch d s s' e : d ∈ Streams topology -> ch_Name ch = ss_Name d -> apply_stream topology ch s = (s', e) ->
  consumers s' = consumers s /\ touched stream_kept (ss_Name d) (streams s) (streams s') /\
  as_declared (stream_good d) (ss_Name d) (streams s) (streams s') /\
  settled (ch_Action ch) (stream_conforms d) e s s'.
Proof.
  intros Hd Hn H. unfold apply_stream, stream_specs in H. destruct valid_streams as (Hnd & _ & Hf).
  rewrite Hn in H. rewrite (proj1 (fold_insert_lookup ss_Name _ ∅ Hnd) d Hd) in H. cbn in H.
  rewrite Forall_forall in Hf. destruct (Hf d Hd) as [Ha Hp]. by eapply applyStreamChange_ok.
Qed.

Lemma apply_consumer_ok ch d s s' e : d ∈ Consumers topology -> ch_Name ch = ckey d -> apply_consumer topology ch s = (s', e) ->
  streams s' = streams s /\ touched consumer_kept (cs_Stream d, cs_Name d) (consumers s) (consumers s') /\
  as_declared (consumer_good d) (cs_Stream d, cs_Name d) (consumers s) (consumers s') /\
  settled (ch_Action ch) (consumer_conforms d) e s s'.
Proof.
  intros Hd Hn H. unfold apply_consumer, consumer_specs in H. destruct valid_streams as (_ & Hnd & _).
  rewrite Hn in H. rewrite (proj1 (fold_insert_lookup ckey _ ∅ Hnd) d Hd) in H. cbn in H.
  by eapply applyConsumerChange_ok.
Qed.

Lemma touched_streams_safe n s s' : consumers s' = consumers s -> touched stream_kept n (streams s) (streams s') -> safe s s'.
Proof. intros E [H _]. split; [done|]. rewrite E. intros k c Hk. exists c. by split. Qed.
Lemma touched_consumers_safe n s s' : streams s' = streams s -> touched consumer_kept n (consumers s) (consumers s') -> safe s s'.
Proof. intros E [H _]. split; [|done]. rewrite E. intros k c Hk. exists c. split; [done|reflexivity]. Qed.

(** The changes that a plan made. *)
Context (s0 : S) (changes sc cc : list Change) (Hperm : changes ≡ₚ (sc ++ cc)%list).
Context (Hsc : Forall2 (planned resourceStream ss_Name stream_conforms s0) (Streams topology) sc).
Context (Hcc : Forall2 (planned resourceConsumer ckey consumer_conforms s0) (Consumers topology) cc).

Lemma change_stream ch : ch ∈ changes -> ch_Resource ch = resourceStream -> exists d, d ∈ Streams topology /\ ch_Name ch = ss_Name d.
Proof.
  rewrite Hperm, elem_of_app. intros [H|H] Hr.
  - apply list_elem_of_lookup in H as [i Hi]. eapply Forall2_lookup_r in Hsc as (d & Hd & _ & ? & _); [|done].
    exists d. split; [by eapply list_elem_of_lookup_2|done].
  - apply list_elem_of_lookup in H as [i Hi]. eapply Forall2_lookup_r in Hcc as (d & Hd & Hr' & _); [|done]. rewrite Hr in Hr'. by vm_compute in Hr'.
Qed.
Lemma change_consumer ch : ch ∈ changes -> ch_Resource ch = resourceConsumer -> exists d, d ∈ Consumers topology /\ ch_Name ch = ckey d.
Proof.
  rewrite Hperm, elem_of_app. intros [H|H] Hr.
  - apply list_elem_of_lookup in H as [i Hi]. eapply Forall2_lookup_r in Hsc as (d & Hd & Hr' & _); [|done]. rewrite Hr in Hr'. by vm_compute in Hr'.
  - apply list_elem_of_lookup in H as [i Hi]. eapply Forall2_lookup_r in Hcc as (d & Hd & _ & ? & _); [|done].
    exists d. split; [by eapply list_elem_of_lookup_2|done].
Qed.

(** Every declaration is already as declared or has a change. *)
Lemma declared_change {D} resource (key : D -> string) (conforms : D -> S -> Prop) l chs d :
  Forall2 (planned resource key conforms s0) l chs -> (forall ch, ch ∈ chs -> ch ∈ changes) -> d ∈ l ->
  conforms d s0 \/ (exists ch, ch ∈ changes /\ ch_Resource ch = resource /\ ch_Name ch = key d /\ ch_Action ch <> ChangeNoop).
Proof.
  intros Hf Hin [i Hi]%list_elem_of_lookup. eapply Forall2_lookup_l in Hf as (ch & Hch & Hr & Hn & Hc); [|done].
  destruct (decide (ch_Action ch = ChangeNoop)); [left; auto|right]. exists ch. split_and!; auto.
  by eapply Hin, list_elem_of_lookup_2.
Qed.

Lemma apply_streams_conf s s' d : same s0 s -> apply_changes (apply_stream topology) resourceStream changes s = (s', None) ->
  d ∈ Streams topology -> stream_conforms d s'.
Proof.
  intros [Es _] H Hd. eapply (apply_changes_conf _ _ stream_conforms ss_Name d); [|exact H|].
  - intros ch s1 s2 Hin Hr Happ. destruct (change_stream ch Hin Hr) as (d' & Hd' & Hn).
    destruct (apply_stream_ok ch d' s1 s2 None Hd' Hn Happ) as (_ & [_ Hfr] & _ & Hset). specialize (Hset eq_refl).
    pose proof (stream_name_inj d d' Hd Hd') as Hinj.
    split.
    + intros Hname Hno. rewrite Hinj by congruence. by destruct (ch_Action ch).
    + intros Hc. destruct (decide (ss_Name d = ss_Name d')) as [E|Hne].
      * rewrite (Hinj E) in Hc |- *. destruct (ch_Action ch); try done. by rewrite Hset.
      * destruct Hc as (c & Hc & Hcmp). exists c. by rewrite Hfr.
  - destruct (declared_change resourceStream ss_Name stream_conforms _ sc d Hsc) as [Hc|Hc]; [|done| |by right].
    + intros ch Hch. rewrite Hperm. apply elem_of_app. by left.
    + left. by apply (stream_conforms_same d s s0).
Qed.

Lemma apply_consumers_conf s s' d : consumers s = consumers s0 ->
  apply_changes (apply_consumer topology) resourceConsumer changes s = (s', None) ->
  d ∈ Consumers topology -> consumer_conforms d s'.
Proof.
  intros Es H Hd. eapply (apply_changes_conf _ _ consumer_conforms ckey d); [|exact H|].
  - intros ch s1 s2 Hin Hr Happ. destruct (change_consumer ch Hin Hr) as (d' & Hd' & Hn).
    destruct (apply_consumer_ok ch d' s1 s2 None Hd' Hn Happ) as (_ & [_ Hfr] & _ & Hset). specialize (Hset eq_refl).
    pose proof (consumer_name_inj d d' Hd Hd') as Hinj.
    split.
    + intros Hname Hno. rewrite Hinj by congruence. by destruct (ch_Action ch).
    + intros Hc. destruct (decide (ckey d = ckey d')) as [E|Hne].
      * rewrite (Hinj E) in Hc |- *. destruct (ch_Action ch); try done. by rewrite Hset.
      * destruct Hc as (c & Hc & Hcmp). exists c. rewrite Hfr; [done|]. intros [= E1 E2]. apply Hne. unfold ckey. by rewrite E1, E2.
  - destruct (declared_change resourceConsumer ckey consumer_conforms _ cc d Hcc) as [Hc|Hc]; [|done| |by right].
    + intros ch Hch. rewrite Hperm. apply elem_of_app. by right.
    + left. by apply (consumer_conforms_same d s s0).
Qed.

(** What a pass does: nothing is lost, only planned changes are made, and a declared
    resource is left alone or made as declared. *)
Definition streams_passed s s' : Prop :=
  safe s s' /\ consumers s' = consumers s /\
  (forall n, streams s' !! n = streams s !! n \/ n ∈ List.map ss_Name (Streams topology) /\ planned_for changes resourceStream n) /\
  (forall d, d ∈ Streams topology -> as_declared (stream_good d) (ss_Name d) (streams s) (streams s')).
Definition consumers_passed s s' : Prop :=
  safe s s' /\ streams s' = streams s /\
  (forall k, consumers s' !! k = consumers s !! k \/
     exists d, d ∈ Consumers topology /\ k = (cs_Stream d, cs_Name d) /\ planned_for changes resourceConsumer (ckey d)) /\
  (forall d, d ∈ Consumers topology -> as_declared (consumer_good d) (cs_Stream d, cs_Name d) (consumers s) (consumers s')).

#[local] Instance streams_passed_preorder : PreOrder streams_passed.
Proof.
  split; [intros a; split_and!; [reflexivity|done|by left|intros; apply as_declared_refl]|].
  intros a b c (A1 & A2 & A3 & A4) (B1 & B2 & B3 & B4). split_and!; [by etrans|congruence| |].
  - intros n. destruct (A3 n) as [A|?], (B3 n) as [B|?]; auto. left. congruence.
  - intros d Hd x Hx. destruct (B4 d Hd x Hx) as [Hb|?]; [by apply (A4 d Hd)|by right].
Qed.
#[local] Instance consumers_passed_preorder : PreOrder consumers_passed.
Proof.
  split; [intros a; split_and!; [reflexivity|done|by left|intros; apply as_declared_refl]|].
  intros a b c (A1 & A2 & A3 & A4) (B1 & B2 & B3 & B4). split_and!; [by etrans|congruence| |].
  - intros n. destruct (A3 n) as [A|?], (B3 n) as [B|?]; auto. left. congruence.
  - intros d Hd x Hx. destruct (B4 d Hd x Hx) as [Hb|?]; [by apply (A4 d Hd)|by right].
Qed.

Lemma apply_streams_passed s s' e : apply_changes (apply_stream topology) resourceStream changes s = (s', e) -> streams_passed s s'.
Proof.
  intros H. eapply (apply_changes_rel _ _ streams_passed); [|exact H]. intros ch a b e' Hin Hr Happ.
  destruct (change_stream ch Hin Hr) as (d & Hd & Hn). destruct (mutates ch) eqn:Em; [|by rewrite (stream_noop _ _ _ _ _ Em Happ)].
  destruct (apply_stream_ok ch d a b e' Hd Hn Happ) as (E & Ht & Ha & _).
  split_and!; [by eapply touched_streams_safe|done| |]; destruct Ht as [_ Hfr].
  - intros n. destruct (decide (n = ss_Name d)) as [->|Hne]; [right|left; by apply Hfr]. split; [|by exists ch].
    apply list_elem_of_In, in_map. by apply list_elem_of_In.
  - intros d' Hd'. destruct (decide (ss_Name d' = ss_Name d)) as [Hs|Hne]; [by rewrite (stream_name_inj d' d)|].
    intros c Hc. rewrite Hfr in Hc by done. by left.
Qed.
Lemma apply_consumers_passed s s' e : apply_changes (apply_consumer topology) resourceConsumer changes s = (s', e) -> consumers_passed s s'.
Proof.
  intros H. eapply (apply_changes_rel _ _ consumers_passed); [|exact H]. intros ch a b e' Hin Hr Happ.
  destruct (change_consumer ch Hin Hr) as (d & Hd & Hn). destruct (mutates ch) eqn:Em; [|by rewrite (consumer_noop _ _ _ _ _ Em Happ)].
  destruct (apply_consumer_ok ch d a b e' Hd Hn Happ) as (E & Ht & Ha & _).
  split_and!; [by eapply touched_consumers_safe|done| |]; destruct Ht as [_ Hfr].
  - intros n. destruct (decide (n = (cs_Stream d, cs_Name d))) as [->|Hne]; [right|left; by apply Hfr]. exists d. split_and!; [done..|]. by exists ch.
  - intros d' Hd'. destruct (decide ((cs_Stream d', cs_Name d') = (cs_Stream d, cs_Name d))) as [Hs|Hne].
    + injection Hs as E1 E2. assert (ckey d' = ckey d) as Hk by (unfold ckey; by rewrite E1, E2). by rewrite (consumer_name_inj d' d).
    + intros c Hc. rewrite Hfr in Hc by done. by left.
Qed.
End Valid.

(** ** Planning again *)

(** The filter of a consumer is covered by the subjects that its plan looks at. *)
Definition covered topology s (d : ConsumerSpec) : Prop :=
  match stream_subjects (Streams topology) !! cs_Stream d with
  | Some subjects => streamSubjectsCoverFilter subjects (cs_FilterSubject d) = true
  | None => exists c, streams s !! cs_Stream d = Some c /\ streamSubjectsCoverFilter (sc_Subjects c) (cs_FilterSubject d) = true
  end.
Definition knows topology s (known : gmap string (list string)) : Prop :=
  forall n, known !! n = stream_subjects (Streams topology) !! n \/
    stream_subjects (Streams topology) !! n = None /\ exists c, streams s !! n = Some c /\ known !! n = Some (sc_Subjects c).

Lemma same_streams topology s s' : streams s' = streams s ->
  (forall d, covered topology s' d <-> covered topology s d) /\ (forall known, knows topology s' known <-> knows topology s known).
Proof. intros E. unfold covered, knows. by rewrite E. Qed.

(** The subjects that are found: those declared, or those of the server. *)
Definition subjects_found topology s n (subjects : option (list string)) : Prop :=
  match stream_subjects (Streams topology) !! n with
  | Some declared => subjects = Some declared
  | None => match subjects with Some l => exists c, streams s !! n = Some c /\ l = sc_Subjects c | None => streams s !! n = None end
  end.

Lemma resolve_ok topology known n s s' known' subjects : knows topology s known ->
  resolveConsumerStreamSubjects known n s = (s', Ok (known', subjects)) -> knows topology s known' /\ subjects_found topology s n subjects.
Proof.
  intros Hk H. unfold resolveConsumerStreamSubjects in H. unfold subjects_found. destruct (known !! n) as [l|] eqn:El.
  { injection H as <- <- <-. split; [done|]. destruct (Hk n) as [E|(-> & c & Hc & E)]; [by rewrite <- E, El|]. exists c. split; [done|congruence]. }
  assert (stream_subjects (Streams topology) !! n = None) as Hn by (destruct (Hk n) as [E|(E & _)]; congruence). rewrite Hn.
  destruct (js_Stream n s) as [s1 err] eqn:E1. destruct (Stream_law _ _ _ _ E1) as (S1 & _ & N1).
  destruct (errors_is err ErrStreamNotFound) eqn:Ee; [injection H as <- <- <-; split; [done|by apply N1]|].
  destruct err; [done|]. destruct (js_StreamInfo n s1) as [s2 info] eqn:E2. destruct (StreamInfo_law _ _ _ _ E2) as (_ & _ & I2).
  destruct info as [c|]; [|done]. injection H as <- <- <-. specialize (I2 c eq_refl). rewrite S1 in I2. split; [|by exists c].
  intros k. destruct (decide (k = n)) as [->|Hne]; [right; split; [done|]; exists c; by rewrite lookup_insert_eq|].
  rewrite lookup_insert_ne by done. apply Hk.
Qed.

(** A plan without conflicts for consumers covers their filters. *)
Lemma plan_consumers_covered topology missing known l s s' changes : knows topology s known ->
  plan_consumers missing known l s = (s', Ok changes) -> Forall (fun ch => ch_Action ch <> ChangeConflict) changes -> Forall (covered topology s) l.
Proof.
  revert known s changes s'. induction l as [|d l IH]; intros known s changes s' Hk H Hno; [constructor|]. cbn [plan_consumers] in H.
  destruct (resolveConsumerStreamSubjects known (cs_Stream d) s) as [s1 [[known' subjects]|]] eqn:E1; [|done].
  pose proof (resolve_same _ _ _ _ _ E1) as [S1 _]. destruct (resolve_ok _ _ _ _ _ _ _ Hk E1) as [Hk' Hf].
  destruct (plan_consumer missing subjects d s1) as [s2 [ch|]] eqn:E2; [|done]. pose proof (plan_consumer_ok _ _ _ _ _ _ E2) as [[S2 _] _].
  destruct (plan_consumers missing known' l s2) as [s3 [chs|]] eqn:E3; [|done]. injection H as <- <-. inversion Hno as [|? ? Hch Hchs]; subst.
  assert (streams s2 = streams s) as S02 by congruence. destruct (same_streams topology s s2 S02) as [Hcov Hkn]. constructor.
  - unfold plan_consumer in E2. unfold covered, subjects_found in *. destruct subjects as [l0|]; [|by injection E2 as <- <-].
    destruct (streamSubjectsCoverFilter l0 (cs_FilterSubject d)) eqn:Ec; [|by injection E2 as <- <-].
    destruct (stream_subjects (Streams topology) !! cs_Stream d); [congruence|]. destruct Hf as (c & Hc & ->). by exists c.
  - eapply Forall_impl; [eapply IH; [by apply Hkn|exact E3|done]|]. intros x. apply Hcov.
Qed.

(** Planning on a server as declared finds nothing to do. *)
Lemma plan_streams_again l s s' changes missing : Forall (fun d => stream_conforms d s) l ->
  plan_streams l s = (s', Ok (changes, missing)) -> Forall (fun ch => ch_Action ch = ChangeNoop) changes /\ missing = ∅.
Proof.
  intros Hl. revert s s' changes missing Hl. induction l as [|d l IH]; intros s s' changes missing Hl H; cbn [plan_streams] in H.
  { injection H as <- <- <-. by split. }
  inversion Hl as [|? ? (c & Hc & Hcmp) Hl']; subst. destruct (js_Stream (ss_Name d) s) as [s1 err] eqn:E1. destruct (Stream_law _ _ _ _ E1) as (S1 & _ & N1).
  destruct (errors_is err ErrStreamNotFound); [rewrite N1 in Hc by done; done|]. destruct err; [done|].
  destruct (js_StreamInfo (ss_Name d) s1) as [s2 info] eqn:E2. destruct (StreamInfo_law _ _ _ _ E2) as (S2 & _ & I2). destruct info as [config|]; [|done].
  specialize (I2 config eq_refl). rewrite S1, Hc in I2. injection I2 as <-. destruct (compareStream c d) as [action reason]. cbn in Hcmp. subst action.
  destruct (plan_streams l s2) as [s3 [[chs ms]|]] eqn:E3; [|done]. injection H as <- <- <-.
  apply IH in E3 as [H3 H3']; [by split; [constructor|]|]. eapply Forall_impl; [exact Hl'|]. intros x. apply (stream_conforms_same x s s2). congruence.
Qed.

Lemma plan_consumers_again topology known l s s' changes : knows topology s known -> Forall (covered topology s) l ->
  Forall (fun d => consumer_conforms d s) l -> plan_consumers ∅ known l s = (s', Ok changes) -> Forall (fun ch => ch_Action ch = ChangeNoop) changes.
Proof.
  revert known s changes s'. induction l as [|d l IH]; intros known s changes s' Hk Hcov Hl H; cbn [plan_consumers] in H; [injection H as <- <-; constructor|].
  inversion Hcov as [|? ? Hd Hcov']; subst. inversion Hl as [|? ? (c & Hc & Hcmp) Hl']; subst.
  destruct (resolveConsumerStreamSubjects known (cs_Stream d) s) as [s1 [[known' subjects]|]] eqn:E1; [|done].
  pose proof (resolve_same _ _ _ _ _ E1) as [S1 C1]. destruct (resolve_ok _ _ _ _ _ _ _ Hk E1) as [Hk' Hf].
  destruct (plan_consumer ∅ subjects d s1) as [s2 [ch|]] eqn:E2; [|done]. pose proof (plan_consumer_ok _ _ _ _ _ _ E2) as [[S2 C2] _].
  destruct (plan_consumers ∅ known' l s2) as [s3 [chs|]] eqn:E3; [|done]. injection H as <- <-.
  assert (streams s2 = streams s /\ consumers s2 = consumers s) as [S02 C02] by (split; congruence).
  destruct (same_streams topology s s2 S02) as [Hcv Hkn]. constructor.
  - assert (exists l0, subjects = Some l0 /\ streamSubjectsCoverFilter l0 (cs_FilterSubject d) = true) as (l0 & -> & El).
    { unfold covered, subjects_found in *. destruct (stream_subjects (Streams topology) !! cs_Stream d) as [l0|]; [by exists l0|].
      destruct Hd as (x & Hx & El), subjects as [l0|]; [|congruence]. destruct Hf as (y & Hy & ->). exists (sc_Subjects y). split; [done|congruence]. }
    unfold plan_consumer in E2. rewrite El in E2. cbn [negb] in E2. rewrite bool_decide_eq_false_2 in E2 by set_solver.
    destruct (js_Consumer (cs_Stream d) (cs_Name d) s1) as [s4 err] eqn:E4. destruct (Consumer_law _ _ _ _ _ E4) as (_ & C4 & N4).
    destruct (errors_is err ErrConsumerNotFound); [rewrite C1 in N4; rewrite N4 in Hc by done; done|]. destruct err; [done|].
    destruct (js_ConsumerInfo (cs_Stream d) (cs_Name d) s4) as [s5 info] eqn:E5. destruct (ConsumerInfo_law _ _ _ _ _ E5) as (_ & _ & I5).
    destruct info as [config|]; [|done]. specialize (I5 config eq_refl). rewrite C4, C1, Hc in I5. injection I5 as <-.
    destruct (compareConsumer c d) as [action reason]. cbn in Hcmp. subst action. by injection E2 as _ <-.
  - eapply (IH known' s2); [by apply Hkn| |eapply Forall_impl; [exact Hl'|]; intros x; by apply (consumer_conforms_same x s s2)|exact E3].
    eapply Forall_impl; [exact Hcov'|]. intros x. apply Hcv.
Qed.

Lemma subjects_declared l n : n ∈ List.map ss_Name l -> forall m : gmap string (list string),
  is_Some (fold_left (fun m d => <[ss_Name d := ss_Subjects d]> m) l m !! n).
Proof.
  intros Hn m. assert (is_Some (m !! n) \/ n ∈ List.map ss_Name l) as H by auto. clear Hn. revert m H. induction l as [|d l IH]; intros m H; cbn.
  - destruct H as [?|[]%elem_of_nil]; done.
  - apply IH. destruct H as [H|[->|H]%elem_of_cons]; [left|left|by right].
    + destruct (decide (ss_Name d = n)) as [->|]; [by rewrite lookup_insert_eq|by rewrite lookup_insert_ne].
    + by rewrite lookup_insert_eq.
Qed.

Lemma knows_start topology s : knows topology s (stream_subjects (Streams topology)).
Proof. intros n. by left. Qed.

Lemma plan_covered topology s s' changes : planTopology topology s = (s', Ok changes) ->
  Forall (fun ch => ch_Action ch <> ChangeConflict) changes -> Forall (covered topology s) (Consumers topology).
Proof.
  unfold planTopology. intros H Hno. destruct (plan_streams (Streams topology) s) as [s1 [[sc missing]|]] eqn:E1; [|done].
  apply plan_streams_ok in E1 as ([S1 _] & _). destruct (plan_consumers _ _ _ s1) as [s2 [cc|]] eqn:E2; [|done]. injection H as <- <-.
  rewrite merge_sort_Permutation in Hno. apply Forall_app in Hno as [_ Hno].
  eapply Forall_impl; [eapply plan_consumers_covered; [apply knows_start|exact E2|done]|]. intros d. by apply (same_streams topology s s1).
Qed.

Lemma plan_again topology s s' changes : Forall (fun d => stream_conforms d s) (Streams topology) ->
  Forall (fun d => consumer_conforms d s) (Consumers topology) -> Forall (covered topology s) (Consumers topology) ->
  planTopology topology s = (s', Ok changes) -> Forall (fun ch => ch_Action ch = ChangeNoop) changes.
Proof.
  intros Hs Hc Hcov. unfold planTopology. intros H. destruct (plan_streams (Streams topology) s) as [s1 [[sc missing]|]] eqn:E1; [|done].
  pose proof (plan_streams_ok _ _ _ _ E1) as ([S1 C1] & _). apply plan_streams_again in E1 as [H1 ->]; [|done].
  destruct (plan_consumers _ _ _ s1) as [s2 [cc|]] eqn:E2; [|done]. injection H as <- <-. rewrite merge_sort_Permutation. apply Forall_app. split; [done|].
  eapply plan_consumers_again; [apply knows_start| | |exact E2].
  - eapply Forall_impl; [exact Hcov|]. intros d. by apply (same_streams topology s s1).
  - eapply Forall_impl; [exact Hc|]. intros d. by apply (consumer_conforms_same d s s1).
Qed.

(** ** The theorems *)

(** The outcome of an application. *)
Record nats_applied topology s s' (changes : list Change) (err : option error) : Prop := {
  na_conflict : Exists (fun ch => ch_Action ch = ChangeConflict) changes \/ changes = [] -> same s s';
  na_reported : Exists (fun ch => ch_Action ch = ChangeConflict) changes -> is_Some err;
  na_safe : safe s s';
  na_streams : forall n, streams s' !! n = streams s !! n \/ n ∈ List.map ss_Name (Streams topology) /\ planned_for changes resourceStream n;
  na_consumers : forall k, consumers s' !! k = consumers s !! k \/
    exists d, d ∈ Consumers topology /\ k = (cs_Stream d, cs_Name d) /\ planned_for changes resourceConsumer (ckey d);
  na_stream_good : forall d, d ∈ Streams topology -> as_declared (stream_good d) (ss_Name d) (streams s) (streams s');
  na_consumer_good : forall d, d ∈ Consumers topology -> as_declared (consumer_good d) (cs_Stream d, cs_Name d) (consumers s) (consumers s');
  na_done : err = None -> (forall d, d ∈ Streams topology -> stream_conforms d s') /\
    (forall d, d ∈ Consumers topology -> consumer_conforms d s' /\ covered topology s' d) }.

Lemma nats_applied_same topology s s' changes e : same s s' -> nats_applied topology s s' changes (Some e).
Proof.
  intros HS. pose proof HS as [Hs Hc]. split; rewrite ?Hs, ?Hc; try done.
  - by apply same_safe.
  - by left.
  - by left.
  - intros d _. apply as_declared_refl.
  - intros d _. apply as_declared_refl.
Qed.

Lemma apply_topology_nats connection topology s : exists s' changes err,
  ApplyTopology connection topology s = (s', (changes, err)) /\ nats_applied topology s s' changes err.
Proof.
  unfold ApplyTopology. destruct (jetStream connection topology) eqn:Ej; [eexists _, _, _; split; [done|by apply nats_applied_same]|].
  assert (validateTopology topology = None) as Hv.
  { unfold jetStream in Ej. destruct connection; [|done]. by destruct (validateTopology topology). }
  destruct (planTopology topology s) as [s1 r] eqn:Ep. pose proof Ep as Ep'. apply planTopology_ok in Ep as (Hs1 & Hok).
  destruct r as [changes|]; [|eexists _, _, _; split; [done|by apply nats_applied_same]].
  destruct (Hok changes eq_refl) as (sc & cc & Hperm & Hsc & Hcc).
  destruct (existsb _ changes) eqn:Econ; [eexists _, _, _; split; [done|by apply nats_applied_same]|].
  assert (Forall (fun ch => ch_Action ch <> ChangeConflict) changes) as Hno.
  { apply Forall_forall. intros ch Hin Ha. rewrite <- Bool.not_true_iff_false, List.existsb_exists in Econ. apply Econ. exists ch.
    split; [by apply list_elem_of_In|]. by apply bool_decide_eq_true_2. }
  pose proof (plan_covered _ _ _ _ Ep' Hno) as Hcov.
  assert (~ Exists (fun ch => ch_Action ch = ChangeConflict) changes) as Hnex.
  { intros (ch & Hin & Ha)%Exists_exists. rewrite Forall_forall in Hno. by apply (Hno ch). }
  destruct Hs1 as [S1 C1].
  destruct (apply_changes (apply_stream topology) resourceStream changes s1) as [s2 e2] eqn:E2.
  pose proof E2 as P2. eapply apply_streams_passed in P2 as (P2 & C2 & F2 & G2); [|done..]. rewrite S1, C1 in *.
  assert (safe s s2) as Hs2 by (transitivity s1; [by apply same_safe|done]).
  assert (forall n, changes = [] -> streams s2 !! n = streams s !! n) as Hnil2
    by (intros n ->; destruct (F2 n) as [?|(_ & ch & []%elem_of_nil & _)]; done).
  destruct e2 as [e2|].
  { eexists _, _, _. split; [done|]. split; try done; rewrite ?C2; intros; auto using as_declared_refl.
    destruct H as [?|?]; [done|]. split; [apply map_eq; auto|congruence]. }
  destruct (apply_changes (apply_consumer topology) resourceConsumer changes s2) as [s3 e3] eqn:E3.
  pose proof E3 as P3. eapply apply_consumers_passed in P3 as (P3 & S3 & F3 & G3); [|done..]. rewrite C2 in *.
  eexists _, _, _. split; [done|]. split; try done; rewrite ?S3; auto.
  - intros [?|Hn]; [done|]. split; [rewrite S3; apply map_eq; auto|]. apply map_eq. intros k.
    destruct (F3 k) as [?|(_ & _ & _ & ch & Hch & _)]; [done|]. rewrite Hn in Hch. by apply elem_of_nil in Hch.
  - by etrans.
  - intros ->. assert (forall d, d ∈ Streams topology -> stream_conforms d s3) as Hconf.
    { intros d Hd. apply (stream_conforms_same d s2 s3); [done|]. eapply apply_streams_conf; [done..| |exact E2|done]. done. }
    split; [done|]. intros d Hd. split; [eapply apply_consumers_conf; [done..| |exact E3|done]; congruence|].
    rewrite Forall_forall in Hcov. specialize (Hcov d Hd). unfold covered in *.
    destruct (stream_subjects (Streams topology) !! cs_Stream d) eqn:Es; [done|]. destruct Hcov as (c & Hc & Hcov). exists c. split; [|done].
    rewrite S3. destruct (F2 (cs_Stream d)) as [->|[Hin _]]; [done|]. destruct (subjects_declared _ _ Hin ∅) as [x Hx]. unfold stream_subjects in Es. congruence.
Qed.

(** C34. Applying a NATS topology to a server that nobody else changes, whichever of
    its calls fail and whatever it answers.  With a conflict in the plan, or when
    nothing was planned, nothing changes, and a conflict is reported.  Otherwise
    every stream that existed still exists with the same retention, storage and
    replicas, accepts every subject it accepted, none of its limits was lowered and
    its unmanaged fields are kept up to what the server fills in; every consumer
    still exists with the same delivery contract and unmanaged fields; a stream or
    consumer differs from before only when it is declared and its creation or update
    was planned; and a declared one is as it was or conforms to its declaration, even
    when the application failed on the way.  On success every declared stream and
    consumer conforms, and planning again finds nothing to do. *)
Theorem nats_topology_apply connection topology s : exists s' changes err,
  ApplyTopology connection topology s = (s', (changes, err)) /\
  (Exists (fun ch => ch_Action ch = ChangeConflict) changes \/ changes = [] -> same s s') /\
  (Exists (fun ch => ch_Action ch = ChangeConflict) changes -> is_Some err) /\
  safe s s' /\
  (forall n, streams s' !! n = streams s !! n \/ n ∈ List.map ss_Name (Streams topology) /\ planned_for changes resourceStream n) /\
  (forall k, consumers s' !! k = consumers s !! k \/
     exists d, d ∈ Consumers topology /\ k = (cs_Stream d, cs_Name d) /\ planned_for changes resourceConsumer (ckey d)) /\
  (forall d, d ∈ Streams topology -> as_declared (stream_good d) (ss_Name d) (streams s) (streams s')) /\
  (forall d, d ∈ Consumers topology -> as_declared (consumer_good d) (cs_Stream d, cs_Name d) (consumers s) (consumers s')) /\
  (err = None -> Forall (fun d => stream_conforms d s') (Streams topology) /\ Forall (fun d => consumer_conforms d s') (Consumers topology) /\
     forall s2 again, planTopology topology s' = (s2, Ok again) -> Forall (fun ch => ch_Action ch = ChangeNoop) again).
Proof.
  destruct (apply_topology_nats connection topology s) as (s' & changes & err & E & [H1 H2 H3 H4 H5 H6 H7 H8]). exists s', changes, err.
  split_and!; auto. intros He. destruct (H8 He) as [Hs Hc].
  assert (Forall (fun d => stream_conforms d s') (Streams topology) /\ Forall (fun d => consumer_conforms d s') (Consumers topology) /\
    Forall (covered topology s') (Consumers topology)) as (F1 & F2 & F3)
    by (split_and!; apply Forall_forall; intros d Hd; by apply Hs || apply (Hc d Hd)).
  split_and!; [done..|]. intros s2 again Ep. by eapply plan_again.
Qed.
End Proofs.

(** ** A broker that obeys the laws *)
#[local] Instance stream_config_dec : EqDecision (StreamConfig unit).
Proof. solve_decision. Defined.
#[local] Instance delivery_options_dec : EqDecision DeliveryOptions.
Proof. solve_decision. Defined.
#[local] Instance consumer_config_dec : EqDecision (ConsumerConfig unit).
Proof. solve_decision. Defined.

Definition broker : Type := gmap string (StreamConfig unit) * gmap (string * string) (ConsumerConfig unit).

Definition found {A} (missing : sentinel) (o : option A) : option error :=
  match o with Some _ => None | None => Some (ESentinel missing) end.
Definition fetch {A} (missing : sentinel) (o : option A) : result error A :=
  match o with Some a => Ok a | None => Err (ESentinel missing) end.
(** Creation in a map; an equal entry is accepted. *)
Definition create {K A} `{Countable K} `{EqDecision A} (k : K) (a : A) (m : gmap K A) : gmap K A * option error :=
  match m !! k with
  | Some old => (m, if decide (old = a) then None else Some (ENew "name already in use"))
  | None => (<[k := a]> m, None)
  end.
Definition update {K A} `{Countable K} (k : K) (a : A) (m : gmap K A) : gmap K A * option error :=
  match m !! k with
  | Some _ => (<[k := a]> m, None)
  | None => (m, Some (ENew "not found"))
  end.

#[global] Instance broker_js : JetStream broker unit := {
  LimitsPolicy := 0; MemoryStorage := 1; AckExplicitPolicy := 0; DeliverAllPolicy := 0; ReplayInstantPolicy := 0;
  unmanaged := tt;
  js_Stream n s := (s, found ErrStreamNotFound (s.1 !! n));
  js_StreamInfo n s := (s, fetch ErrStreamNotFound (s.1 !! n));
  js_CreateStream c s := let '(m, e) := create (sc_Name c) c s.1 in ((m, s.2), e);
  js_UpdateStream c s := let '(m, e) := update (sc_Name c) c s.1 in ((m, s.2), e);
  js_Consumer t n s := (s, found ErrConsumerNotFound (s.2 !! (t, n)));
  js_ConsumerInfo t n s := (s, fetch ErrConsumerNotFound (s.2 !! (t, n)));
  js_CreateConsumer t c s := let '(m, e) := create (t, cc_Durable c) c s.2 in ((s.1, m), e);
  js_UpdateConsumer t c s := let '(m, e) := update (t, cc_Durable c) c s.2 in ((s.1, m), e) }.

Lemma create_law {K A} `{Countable K} `{EqDecision A} (f : unit -> A) k a (m m' : gmap K A) e : f tt = a ->
  create k a m = (m', e) ->
  (m' = m \/ (m !! k = None /\ exists u, True /\ m' = <[k := f u]> m)) /\ (e = None -> exists u, True /\ m' !! k = Some (f u)).
Proof.
  intros <-. unfold create. destruct (m !! k) as [old|] eqn:E; intros [= <- <-].
  - split; [by left|]. case_decide; [|done]. intros _. exists tt. split; [done|]. by subst.
  - split; [right; split; [done|by exists tt]|]. intros _. exists tt. split; [done|]. apply lookup_insert_eq.
Qed.
Lemma update_law {K A} `{Countable K} (f : unit -> A) k a (m m' : gmap K A) e : f tt = a ->
  update k a m = (m', e) ->
  (m' = m \/ (is_Some (m !! k) /\ exists u, True /\ m' = <[k := f u]> m)) /\ (e = None -> exists u, True /\ m' !! k = Some (f u)).
Proof.
  intros <-. unfold update. destruct (m !! k) as [old|] eqn:E; intros [= <- <-].
  - split; [right; split; [by eexists|by exists tt]|]. intros _. exists tt. split; [done|]. apply lookup_insert_eq.
  - split; [by left|done].
Qed.
Lemma found_law {A} missing (o : option A) : errors_is (found missing o) missing = true -> o = None.
Proof. by destruct o. Qed.
Lemma fetch_law {A} missing (o : option A) c : fetch missing o = Ok c -> o = Some c.
Proof. destruct o; cbn; congruence. Qed.

#[global] Instance broker_laws : JetStreamLaws broker unit.
Proof.
  refine {| streams := fst; consumers := snd; fills := fun _ _ => True |}; cbn.
  - intros n s s' e [= <- <-]. split_and!; [done..|]. apply found_law.
  - intros n s s' r [= <- <-]. split_and!; [done..|]. apply fetch_law.
  - intros c s s' e H. destruct (create _ _ _) as [m e'] eqn:E. injection H as <- <-. cbn. split; [done|].
    eapply (create_law (fun u => stream_with u c)); [|exact E]. by destruct c as [? ? ? ? ? ? ? ? ? ? ? []].
  - intros c s s' e H. destruct (update _ _ _) as [m e'] eqn:E. injection H as <- <-. cbn. split; [done|].
    eapply (update_law (fun u => stream_with u c)); [|exact E]. by destruct c as [? ? ? ? ? ? ? ? ? ? ? []].
  - intros t n s s' e [= <- <-]. split_and!; [done..|]. apply found_law.
  - intros t n s s' r [= <- <-]. split_and!; [done..|]. apply fetch_law.
  - intros t c s s' e H. destruct (create _ _ _) as [m e'] eqn:E. injection H as <- <-. cbn. split; [done|].
    eapply (create_law (fun u => consumer_with u c)); [|exact E]. by destruct c as [? ? ? ? ? ? ? ? ? ? ? []].
  - intros t c s s' e H. destruct (update _ _ _) as [m e'] eqn:E. injection H as <- <-. cbn. split; [done|].
    eapply (update_law (fun u => consumer_with u c)); [|exact E]. by destruct c as [? ? ? ? ? ? ? ? ? ? ? []].
Defined.

Definition billing : ConsumerSpec :=
  {| cs_Stream := "ORDERS"; cs_Name := "billing"; cs_Description := ""; cs_FilterSubject := "orders.*.paid";
     cs_AckWait := 30 * Second; cs_MaxDeliver := -1; cs_MaxAckPending := 1; cs_Replicas := 1; cs_MemoryStorage := false |}.
Definition shop : Topology :=
  {| SpecVersion := "1.0"; Streams := [DevStream (S := broker) "ORDERS" ["orders.>"]]; Consumers := [billing] |}.
Definition narrow : Topology :=
  {| SpecVersion := "1.0"; Streams := [DevStream (S := broker) "ORDERS" ["orders.*"]]; Consumers := [] |}.
Definition shop_broker : broker := (ApplyTopology (Some None) shop ((∅, ∅) : broker)).1.

(** The declared stream and its consumer are created; a declaration that would take
    a subject away is refused. *)
Lemma nats_topology_apply_witness :
  (ApplyTopology (Some None) shop ((∅, ∅) : broker)).2.2 = None /\ consumer_conforms billing shop_broker /\
  (exists e, (ApplyTopology (Some None) narrow shop_broker).2.2 = Some e) /\ same shop_broker (ApplyTopology (Some None) narrow shop_broker).1.
Proof.
  assert ((ApplyTopology (Some None) shop ((∅, ∅) : broker)).2.2 = None) as E by (vm_compute; reflexivity). split; [exact E|].
  destruct (nats_topology_apply (Some None) shop ((∅, ∅) : broker)) as (s' & changes & err & Ea & _ & _ & _ & _ & _ & _ & _ & Hs).
  unfold shop_broker at 1. rewrite Ea in E |- *. cbn in E. subst err. destruct (Hs eq_refl) as (_ & Hc & _).
  split; [inversion Hc as [|? ? Hb _]; exact Hb|]. clear s' changes Ea Hs Hc.
  assert (Exists (fun ch => ch_Action ch = ChangeConflict) (ApplyTopology (Some None) narrow shop_broker).2.1) as Hx
    by (vm_compute; left; reflexivity).
  destruct (nats_topology_apply (Some None) narrow shop_broker) as (s' & changes & err & Ea & Hsame & Herr & _).
  rewrite Ea in Hx |- *. destruct (Herr Hx) as [e He]. split; [exists e; exact He|]. apply Hsame. left. exact Hx.
Defined.
End NatsTopologyProofs.
