(* ===== verification/NatsConsumer.v ===== *)
(** * The NATS consumer: one delivery

    Models [adapters/nats/consumer.go]: construction and defaults, and what
    [processMessage] does with a delivery: decode, expiry and schedule, the Inbox
    attempt, acknowledgement, negative acknowledgement with a delay, and the dead
    letter with its confirmed publication and the terminal confirmation.

    The broker, the clock, the random source and the end of the contexts are the
    record [answers]; every broker call may fail.  The retry loops of the dead
    letter consume a list of answers; when it is used up the delivery is still
    waiting ([Blocked]).  What the consumer does is recorded in the world's trace,
    in order.  Observers see the observations of the trace; log lines are left
    out. *)
From S2P Require Import Prelude GoStrings GoText Digest Errors Backoff Ident Batch Inbox InboxSQL InboxSpec InboxEffects InboxStore Middleware Delivery NatsDLQ NatsSubject NatsTopology.
Import Stdlib.Strings.String.
Import Backoff Delivery NatsDLQ NatsSubject NatsTopology.
Open Scope string_scope.
Open Scope Z_scope.
Local Open Scope delivery_scope.

Module NatsConsumer.

(** ** Configuration *)
Record HandlerConfig (B C : Type) := {
  hc_Stream : string;
  hc_Namespace : string;
  hc_ConsumerID : string;
  hc_Description : string;
  hc_WireMode : WireMode;
  hc_Concurrency : Z;
  hc_MaxAckPending : Z;
  hc_Timeout : Duration;
  hc_FinalizationTimeout : Duration;
  hc_MaxAttempts : Z;
  hc_BaseRetry : Duration;
  hc_MaxRetry : Duration;
  hc_AckWait : Duration;
  hc_DLQSubject : string;
  hc_Replicas : Z;
  hc_MemoryStorage : bool;
  hc_HasObservers : bool;          (** [len(Observers) != 0] *)
  hc_NilPanicReporter : bool;
  hc_Middlewares : list (Middleware.MiddlewareFn B C);
  hc_FailureSanitizer : FailureSanitizer }.
Arguments hc_Stream {B C}. Arguments hc_Namespace {B C}. Arguments hc_ConsumerID {B C}. Arguments hc_Description {B C}.
Arguments hc_WireMode {B C}. Arguments hc_Concurrency {B C}. Arguments hc_MaxAckPending {B C}. Arguments hc_Timeout {B C}.
Arguments hc_FinalizationTimeout {B C}. Arguments hc_MaxAttempts {B C}. Arguments hc_BaseRetry {B C}.
Arguments hc_MaxRetry {B C}. Arguments hc_AckWait {B C}. Arguments hc_DLQSubject {B C}. Arguments hc_Replicas {B C}.
Arguments hc_MemoryStorage {B C}. Arguments hc_HasObservers {B C}. Arguments hc_NilPanicReporter {B C}.
Arguments hc_Middlewares {B C}. Arguments hc_FailureSanitizer {B C}.

Definition brokerAckTimeout : Duration := 5 * Second.
Definition defaultFinalizationTimeout : Duration := 5 * Second.

Definition applyConsumerDefaults {B C} (c : HandlerConfig B C) : HandlerConfig B C :=
  let timeout := or_default (hc_Timeout c) (30 * Second) in
  {| hc_Stream := hc_Stream c; hc_Namespace := hc_Namespace c; hc_ConsumerID := hc_ConsumerID c;
     hc_Description := hc_Description c; hc_WireMode := hc_WireMode c;
     hc_Concurrency := or_default (hc_Concurrency c) 1; hc_MaxAckPending := hc_MaxAckPending c;
     hc_Timeout := timeout;
     hc_FinalizationTimeout := or_default (hc_FinalizationTimeout c) defaultFinalizationTimeout;
     hc_MaxAttempts := or_default (hc_MaxAttempts c) 10; hc_BaseRetry := or_default (hc_BaseRetry c) Second;
     hc_MaxRetry := or_default (hc_MaxRetry c) (5 * Minute);
     hc_AckWait := or_default (hc_AckWait c) (Z.max (wrap64 (2 * timeout)) (30 * Second));
     hc_DLQSubject := hc_DLQSubject c; hc_Replicas := or_default (hc_Replicas c) 1;
     hc_MemoryStorage := hc_MemoryStorage c; hc_HasObservers := hc_HasObservers c;
     hc_NilPanicReporter := hc_NilPanicReporter c; hc_Middlewares := hc_Middlewares c;
     hc_FailureSanitizer := hc_FailureSanitizer c |}.

Definition set_dlq {B C} (subject : string) (c : HandlerConfig B C) : HandlerConfig B C :=
  {| hc_Stream := hc_Stream c; hc_Namespace := hc_Namespace c; hc_ConsumerID := hc_ConsumerID c;
     hc_Description := hc_Description c; hc_WireMode := hc_WireMode c; hc_Concurrency := hc_Concurrency c;
     hc_MaxAckPending := hc_MaxAckPending c; hc_Timeout := hc_Timeout c;
     hc_FinalizationTimeout := hc_FinalizationTimeout c; hc_MaxAttempts := hc_MaxAttempts c;
     hc_BaseRetry := hc_BaseRetry c; hc_MaxRetry := hc_MaxRetry c; hc_AckWait := hc_AckWait c;
     hc_DLQSubject := subject; hc_Replicas := hc_Replicas c; hc_MemoryStorage := hc_MemoryStorage c;
     hc_HasObservers := hc_HasObservers c; hc_NilPanicReporter := hc_NilPanicReporter c;
     hc_Middlewares := hc_Middlewares c; hc_FailureSanitizer := hc_FailureSanitizer c |}.

Definition bad_config {B C} (c : HandlerConfig B C) : bool :=
  (hc_Concurrency c <? 1) || (128 <? hc_Concurrency c) || (hc_MaxAckPending c <? 0) || (hc_Timeout c <=? 0)
  || (hc_FinalizationTimeout c <=? 0) || (hc_MaxAttempts c <=? 0) || (hc_BaseRetry c <=? 0)
  || (hc_MaxRetry c <? hc_BaseRetry c) || (hc_AckWait c <? 100 * Millisecond) || negb (WireMode_valid (hc_WireMode c)).

(** The configuration of a consumer and its subject; [dependencies] is false when
    the connection, the store or the decoder is nil, [js_err] is the error of
    [jetstream.New].  The observability defaults of the code replace nil
    collaborators and refuse nil entries; they are taken as applied. *)
Definition newConsumer {B C} (dependencies supports_attempts : bool) (js_err : option error) (descriptor : DescriptorInfo)
    (config : HandlerConfig B C) : result error (HandlerConfig B C * string) :=
  let config := applyConsumerDefaults config in
  match validateJetStreamResourceName (hc_Stream config) with
  | Some e => Err (invalid_config "stream" [e])
  | None =>
      match validateJetStreamResourceName (hc_ConsumerID config) with
      | Some e => Err (invalid_config "consumer ID" [e])
      | None =>
          if negb dependencies || bad_config config then Err (invalid_config "durable consumer" [])
          else if negb supports_attempts
          then Err (invalid_config "durable consumer" [ESentinel ErrAttemptTrackingUnsupported])
          else match Subject (hc_Namespace config) descriptor with
          | Err e => Err e
          | Ok subject =>
              let config := if String.eqb (hc_DLQSubject config) ""
                            then set_dlq (hc_Namespace config ++ ".dlq") config else config in
              match validateSubjectToken (hc_DLQSubject config) true with
              | Some e => Err (invalid_config "DLQ subject" [e])
              | None =>
                  if String.eqb (hc_DLQSubject config) subject
                  then Err (invalid_config "DLQ subject matches consumer subject" [])
                  else match js_err with
                  | Some e => Err (EFmt "create JetStream context" [e])
                  | None => Ok (config, subject)
                  end
              end
          end
      end
  end.

(** [batch] is the message limit of a batch consumer. *)
Definition consumerSpec {B C} (c : HandlerConfig B C) (subject : string) (batch : option Z) : ConsumerSpec :=
  let maxAckPending :=
    if hc_MaxAckPending c =? 0
    then match batch with Some n => hc_Concurrency c * n | None => hc_Concurrency c end
    else hc_MaxAckPending c in
  {| cs_Stream := hc_Stream c; cs_Name := hc_ConsumerID c; cs_Description := hc_Description c;
     cs_FilterSubject := subject; cs_AckWait := hc_AckWait c; cs_MaxDeliver := -1; cs_MaxAckPending := maxAckPending;
     cs_Replicas := hc_Replicas c; cs_MemoryStorage := hc_MemoryStorage c |}.

Definition ErrMsgAlreadyAckd : sentinel := ErrForeign "jetstream.ErrMsgAlreadyAckd".

(** ** What the consumer does *)
Inductive event : Type :=
| EvPublish (subject : string) (p : preparedDLQ) (confirmed : bool)
| EvAck (confirmed : bool)
| EvNak (delay : Duration) (ok : bool)
| EvConfirm (ok : bool)
| EvFatal (err : error)
| EvObserve (o : Observation).

(** An answer to a publication: an error, or an acknowledgement that may be nil
    or name no stream. *)
Record publishAnswer := { pa_err : option error; pa_stream : option string }.

(** The next answer of a retried call, and whether the wait that follows a
    failure ends with the timer ([true]) or with the context. *)
Record answers := {
  a_inbox : env;
  a_confirm : env;
  a_clock : nat -> Time;
  a_random : nat -> Z -> option Z;
  a_canceled : bool;               (** [runContext.Err() != nil] after the attempt *)
  a_ctxErr : error;                (** [ctx.Err()] once the context has ended *)
  a_publish : list (publishAnswer * bool);
  a_deadAck : list (option error * bool);
  a_ack : option error;
  a_nak : option error;
  a_retention : bool }.            (** [SupportsTerminalRetention] *)

Record message := {
  msg_Metadata : result error (Z * Time);   (** [NumDelivered], [Timestamp] *)
  msg_Data : string;
  msg_Headers : Header;
  msg_Subject : string }.

Definition Metadata0 : Metadata :=
  {| md_ID := zeroID; md_Kind := ""; md_Name := ""; md_SchemaVersion := 0; md_Source := ""; md_Subject := ""; md_Time := 0;
     md_CorrelationID := zeroID; md_CausationID := zeroID; md_Key := ""; md_ContentType := ""; md_Schema := "";
     md_Headers := ∅; md_NotBefore := 0; md_ExpiresAt := 0 |}.

Section Consumer.
Context {B C : Type} {collate : string -> string -> bool} `{!InboxBackend B collate}.
Context (ctx_Err : C -> nat -> option error).
Context (json_Marshal : DLQRecord -> result error string) (json_Valid : string -> bool).
Context (ToLower : string -> string) (EqualFold : string -> string -> bool).

Abbreviation decoded_message := (decodedMessage B C).

Record world := {
  w_db : DB B;
  w_trace : list event;
  w_fatal : option error;
  w_ready : bool;                  (** [pullLoopReady] *)
  w_reads : nat;
  w_draws : nat }.
Definition M (A : Type) : Type := St world A.

Definition emit (e : event) : M unit := fun w =>
  ({| w_db := w_db w; w_trace := (w_trace w ++ [e])%list; w_fatal := w_fatal w; w_ready := w_ready w;
      w_reads := w_reads w; w_draws := w_draws w |}, Val tt).

Section Delivery.
Context (c : HandlerConfig B C) (a : answers).

(** [c.clock().UTC()] *)
Definition clock : M Time := fun w =>
  ({| w_db := w_db w; w_trace := w_trace w; w_fatal := w_fatal w; w_ready := w_ready w;
      w_reads := S (w_reads w); w_draws := w_draws w |}, Val (UTC (a_clock a (w_reads w)))).

Definition sanitizeError (err : option error) : option error :=
  match err with
  | None => None
  | Some e => Some (ESanitized e (sanitizeFailure (hc_FailureSanitizer c) err))
  end.

Definition notify (o : Observation) : M unit := if hc_HasObservers c then emit (EvObserve o) else mret tt.

Definition observeBoundary (operation : string) (id : MessageID) (startedAt : Time) (err : option error) : M unit :=
  now <- clock ;;
  notify {| ob_Operation := operation; ob_MessageID := id; ob_Attempt := 0; ob_Duplicate := false; ob_RetryDelay := 0;
            ob_StartedAt := startedAt; ob_Duration := Sub now startedAt; ob_Err := sanitizeError err |}.

Definition observeHandle (decoded : decoded_message) (attempt : Z) (result : Result) (retryDelay : Duration)
    (startedAt : Time) (err : option error) : M unit :=
  if hc_HasObservers c then
    now <- clock ;;
    notify {| ob_Operation := OperationHandle; ob_MessageID := md_ID (dm_metadata decoded); ob_Attempt := attempt;
              ob_Duplicate := r_Duplicate result; ob_RetryDelay := retryDelay; ob_StartedAt := startedAt;
              ob_Duration := Sub now startedAt; ob_Err := sanitizeError err |}
  else mret tt.

Definition retryDelay (attempt : Z) : M Duration := fun w =>
  ({| w_db := w_db w; w_trace := w_trace w; w_fatal := w_fatal w; w_ready := w_ready w;
      w_reads := w_reads w; w_draws := S (w_draws w) |},
   match nats_retryDelay (a_random a (w_draws w)) (hc_BaseRetry c) (hc_MaxRetry c) attempt with
   | Some d => Val d
   | None => Crash
   end).

(** The timer runs for at least ten milliseconds; [fired] tells what ended the
    wait. *)
Definition waitForHandoffRetry (attempt : Z) (fired : bool) : M bool :=
  d <- retryDelay attempt ;; mret fired.

Definition confirmed (answer : publishAnswer) : bool :=
  match pa_err answer, pa_stream answer with
  | None, Some stream => negb (String.eqb stream "")
  | _, _ => false
  end.

Fixpoint publish_loop (p : preparedDLQ) (l : list (publishAnswer * bool)) (handoffAttempt : Z) : M bool :=
  match l with
  | [] => fun w => (w, Blocked)
  | (answer, fired) :: rest =>
      emit (EvPublish (hc_DLQSubject c) p (confirmed answer)) ;;;
      if confirmed answer then mret true
      else again <- waitForHandoffRetry handoffAttempt fired ;;
           if again then publish_loop p rest (handoffAttempt + 1) else mret false
  end.

Definition acked (err : option error) : bool :=
  match err with None => true | Some _ => errors_is err ErrMsgAlreadyAckd end.

Fixpoint ack_loop (id : MessageID) (startedAt : Time) (l : list (option error * bool)) (handoffAttempt : Z) : M bool :=
  match l with
  | [] => fun w => (w, Blocked)
  | (ackErr, fired) :: rest =>
      emit (EvAck (acked ackErr)) ;;;
      if acked ackErr then observeBoundary operationBrokerAck id startedAt None ;;; mret true
      else again <- waitForHandoffRetry handoffAttempt fired ;;
           if again then ack_loop id startedAt rest (handoffAttempt + 1)
           else observeBoundary operationBrokerAck id startedAt ackErr ;;; mret false
  end.

Definition acknowledgeDeadLetteredMessage (id : MessageID) : M bool :=
  startedAt <- clock ;; ack_loop id startedAt (a_deadAck a) 1.

Definition failDLQPreparation (err : error) : M unit := fun w =>
  ({| w_db := w_db w; w_trace := (w_trace w ++ [EvFatal err])%list;
      w_fatal := match w_fatal w with None => Some (EFmt "prepare terminal record" [err]) | Some e => Some e end;
      w_ready := false; w_reads := w_reads w; w_draws := w_draws w |}, Val tt).

Definition dlq_record (msg : message) (canonical : string) (attempt : Z) (failureKind : string) (failure : error)
    (failedAt : Time) : DLQRecord :=
  {| d_Quarantine := None; d_SpecVersion := DLQSpecVersion; d_ConsumerID := hc_ConsumerID c; d_Subject := msg_Subject msg;
     d_Attempt := attempt; d_FailureKind := failureKind;
     d_Error := boundedFailureText (hc_FailureSanitizer c) (Some failure) 1024; d_FailedAt := failedAt;
     d_WireMode := hc_WireMode c; d_Envelope := canonical; d_OriginalHeaders := ∅; d_OriginalBase64 := "" |}.

Definition deadLetterAndAcknowledge (msg : message) (metadata : Metadata) (canonical : string) (attempt : Z)
    (failureKind : string) (failure : error) : M bool :=
  handoffStarted <- clock ;;
  failedAt <- clock ;;
  match prepareDLQ json_Marshal json_Valid ToLower (dlq_record msg canonical attempt failureKind failure failedAt)
          (msg_Headers msg) (msg_Data msg) with
  | Err err =>
      observeBoundary operationDLQHandoff (md_ID metadata) handoffStarted (Some err) ;;;
      failDLQPreparation err ;;; mret false
  | Ok prepared =>
      published <- publish_loop prepared (a_publish a) 1 ;;
      if published then
        observeBoundary operationDLQHandoff (md_ID metadata) handoffStarted None ;;;
        acknowledgeDeadLetteredMessage (md_ID metadata)
      else
        observeBoundary operationDLQHandoff (md_ID metadata) handoffStarted (Some (a_ctxErr a)) ;;;
        mret false
  end.

(** [message.NakWithDelay] and its observation. *)
Definition nak (metadata : Metadata) (delay : Duration) : M unit :=
  handoffStarted <- clock ;;
  emit (EvNak delay (is_nil (a_nak a))) ;;;
  observeBoundary operationRetryHandoff (md_ID metadata) handoffStarted (a_nak a).

Definition set_db (d : DB B) (w : world) : world :=
  {| w_db := d; w_trace := w_trace w; w_fatal := w_fatal w; w_ready := w_ready w; w_reads := w_reads w; w_draws := w_draws w |}.

Definition process_attempt (key : Key) (fp : Fingerprint) (h : Handler B) : M (Result * option error) := fun w =>
  let r := Store_ProcessAttempt key fp (hc_MaxAttempts c) (Some h) (w_db w) (a_inbox a) in
  (set_db (op_db r) w, Val (op_value r, op_err r)).

Definition confirmTerminalHandoff (key : Key) (fp : Fingerprint) : M unit :=
  if negb (a_retention a) then mret tt
  else fun w =>
    let r := Store_ConfirmTerminalHandoff false key fp (w_db w) (a_confirm a) in
    emit (EvConfirm (is_nil (op_err r))) (set_db (op_db r) w).

Definition attemptsExhausted (attempt : Z) : bool := hc_MaxAttempts c <=? attempt.

Definition message_key (decoded : decoded_message) (msg : message) : Key :=
  {| k_ConsumerID := hc_ConsumerID c; k_Source := md_Source (dm_metadata decoded); k_MessageID := md_ID (dm_metadata decoded);
     k_AttemptGeneration := replayAttemptGeneration EqualFold (msg_Headers msg) (hc_ConsumerID c) |}.
(** After a failed attempt. *)
Definition dispose (msg : message) (delivered : Z) (decoded : decoded_message) (key : Key) (fp : Fingerprint)
    (result : Result) (err : error) (startedAt : Time) : M unit :=
  let processErr := Some err in
  let attempt := r_Attempt result in
  let exhausted := attemptsExhausted attempt || errors_is processErr ErrAttemptsExhausted in
  let identityConflict := errors_is processErr ErrFingerprintConflict in
  if identityConflict || IsPermanent processErr || exhausted then
    acknowledged <- deadLetterAndAcknowledge msg (dm_metadata decoded) (dm_canonical decoded)
                      (terminalRecordAttempt attempt delivered) (failure_kind processErr identityConflict exhausted) err ;;
    (if acknowledged && negb identityConflict then confirmTerminalHandoff key fp else mret tt) ;;;
    observeHandle decoded attempt result 0 startedAt processErr
  else
    delay <- match DeferDelay processErr with
             | Some d => mret d
             | None => match RetryDelay processErr with
                       | Some d => mret d
                       | None => retryDelay attempt
                       end
             end ;;
    nak (dm_metadata decoded) delay ;;;
    observeHandle decoded attempt result delay startedAt processErr.

(** The handler the Inbox transaction runs; [ctx] is the processing context. *)
Definition inbox_handler (decoded : decoded_message) (ctx : C) (t0 : nat) : Handler B :=
  Middleware.inbox_handler ctx_Err (dm_handle decoded) (hc_NilPanicReporter c) (hc_ConsumerID c) (hc_Middlewares c) ctx t0.

Definition processMessage (decode : string -> Header -> Time -> result error decoded_message) (ctx : C) (t0 : nat)
    (msg : message) : M unit :=
  match msg_Metadata msg with
  | Err _ => mret tt
  | Ok (delivered, timestamp) =>
      match decode (msg_Data msg) (msg_Headers msg) timestamp with
      | Err err => deadLetterAndAcknowledge msg Metadata0 "" delivered "decode" err ;;; mret tt
      | Ok decoded =>
          let key := message_key decoded msg in
          now <- clock ;;
          if elapsed (md_ExpiresAt (dm_metadata decoded)) now then
            deadLetterAndAcknowledge msg (dm_metadata decoded) (dm_canonical decoded) delivered "expired"
              (ESentinel ErrNatsMessageExpired) ;;; mret tt
          else if after (md_NotBefore (dm_metadata decoded)) now then
            nak (dm_metadata decoded) (Sub (md_NotBefore (dm_metadata decoded)) now)
          else
            startedAt <- clock ;;
            let fingerprint := FingerprintEnvelope (dm_canonical decoded) in
            outcome <- process_attempt key fingerprint (inbox_handler decoded ctx t0) ;;
            let '(result, processErr) := (outcome : Result * option error) in
            match processErr with
            | None =>
                observeHandle decoded (r_Attempt result) result 0 startedAt None ;;;
                ackStarted <- clock ;;
                emit (EvAck (acked (a_ack a))) ;;;
                observeBoundary operationBrokerAck (md_ID (dm_metadata decoded)) ackStarted
                  (if acked (a_ack a) then None else a_ack a)
            | Some err =>
                if a_canceled a then observeHandle decoded (r_Attempt result) result 0 startedAt processErr
                else dispose msg delivered decoded key fingerprint result err startedAt
            end
      end
  end.
End Delivery.
End Consumer.
End NatsConsumer.
