(* ===== verification/NatsDelivery.v ===== *)
(** * What becomes of a NATS delivery

    The settlement protocol as an automaton over the consumer's trace, and the
    proof that [processMessage] follows it whatever the broker, the Inbox and the
    clock do: a message is acknowledged only after its completion was committed or
    its dead letter was confirmed by the broker. *)
From S2P Require Import Prelude GoStrings Digest Errors Backoff Ident Inbox InboxSQL InboxSpec InboxEffects InboxStore Middleware Delivery NatsDLQ NatsSubject NatsConsumer.
Import Stdlib.Strings.String.
Import Sha256 Backoff Delivery NatsDLQ NatsConsumer.
Open Scope string_scope.
Open Scope Z_scope.

Module NatsDelivery.

(** ** The protocol *)
Inductive phase : Type :=
| Idle
| Nacked (ok : bool)            (** asked for a later redelivery; whether the broker took the request *)
| Acked (ok : bool)             (** acknowledged after a successful attempt; whether the broker took it *)
| Publishing (p : preparedDLQ)  (** the dead letter is not confirmed yet *)
| HandedOff (p : preparedDLQ)   (** the dead letter is stored, the message not acknowledged *)
| Dead (p : preparedDLQ)        (** and acknowledged *)
| Sealed (p : preparedDLQ)      (** and the terminal state told so *)
| Failed.                       (** the consumer stopped itself *)

#[global] Instance preparedDLQ_eq_dec : EqDecision preparedDLQ.
Proof. solve_decision. Defined.

Definition next (ph : phase) (e : event) : option phase :=
  match ph, e with
  | _, EvObserve _ => Some ph
  | Idle, EvNak _ b => Some (Nacked b)
  | Idle, EvAck b => Some (Acked b)
  | Idle, EvFatal _ => Some Failed
  | Idle, EvPublish _ p b => Some (if b then HandedOff p else Publishing p)
  | Publishing p, EvPublish _ q b => if decide (p = q) then Some (if b then HandedOff p else Publishing p) else None
  | HandedOff p, EvAck b => Some (if b then Dead p else HandedOff p)
  | Dead p, EvConfirm _ => Some (Sealed p)
  | _, _ => None
  end.

Fixpoint follow (ph : phase) (tr : list event) : option phase :=
  match tr with
  | [] => Some ph
  | e :: tr => match next ph e with Some ph' => follow ph' tr | None => None end
  end.

Lemma follow_snoc ph tr e : follow ph (tr ++ [e]) = match follow ph tr with Some ph' => next ph' e | None => None end.
Proof. revert ph. induction tr as [|x tr IH]; intros ph; cbn; [by destruct (next ph e)|]. by destruct (next ph x). Qed.

Section Delivery.
Context {B C : Type} {collate : string -> string -> bool} `{!InboxBackend B collate}.
Context (ctx_Err : C -> nat -> option error).
Context (json_Marshal : DLQRecord -> result error string) (json_Valid : string -> bool).
Context (ToLower : string -> string) (EqualFold : string -> string -> bool).
Abbreviation world := (@world B).
Abbreviation M := (@M B).

(** The trace has reached [ph] and the tables are [d]. *)
Definition reached (ph : phase) (d : DB B) (w : world) : Prop := follow Idle (w_trace w) = Some ph /\ w_db w = d.

(** ** Steps that the protocol does not see *)
Section Config.
Context (c : HandlerConfig B C) (a : answers).

Lemma reached_clock ph d Q : triple (reached ph d) (clock a) (pending Q (fun _ => reached ph d)).
Proof. intros w Hw. exact Hw. Qed.
Lemma reached_retryDelay ph d n : triple (reached ph d) (retryDelay c a n) (pending (reached ph d) (fun _ => reached ph d)).
Proof. intros w Hw. unfold retryDelay. cbn. by destruct (nats_retryDelay _ _ _ _). Qed.
Lemma reached_emit ph ph' d e Q : next ph e = Some ph' -> triple (reached ph d) (emit e) (pending Q (fun _ => reached ph' d)).
Proof. intros He w [Hw Hd]. unfold emit, reached. cbn. by rewrite follow_snoc, Hw, He. Qed.
Lemma reached_notify ph d o Q : triple (reached ph d) (notify c o) (pending Q (fun _ => reached ph d)).
Proof. unfold notify. destruct (hc_HasObservers c); [apply reached_emit; by destruct ph|by apply triple_ret]. Qed.
Lemma reached_observeBoundary ph d op id t e Q :
  triple (reached ph d) (observeBoundary c a op id t e) (pending Q (fun _ => reached ph d)).
Proof. eapply triple_bind; [apply reached_clock|]. intros now. apply reached_notify. Qed.
Lemma reached_observeHandle ph d (dm : decodedMessage B C) n r dl t e Q :
  triple (reached ph d) (observeHandle (C := C) c a dm n r dl t e) (pending Q (fun _ => reached ph d)).
Proof.
  unfold observeHandle. destruct (hc_HasObservers c); [|by apply triple_ret].
  eapply triple_bind; [apply reached_clock|]. intros now. apply reached_notify.
Qed.
Lemma reached_wait ph d n fired :
  triple (reached ph d) (waitForHandoffRetry c a n fired) (pending (reached ph d) (fun _ => reached ph d)).
Proof. eapply triple_bind; [apply reached_retryDelay|]. intros ?. by apply triple_ret. Qed.

(** ** The dead letter *)
Definition publishing (p : preparedDLQ) (d : DB B) (w : world) : Prop := reached Idle d w \/ reached (Publishing p) d w.

Lemma publishing_emit p d s (b : bool) Q :
  triple (publishing p d) (emit (EvPublish s p b))
    (pending Q (fun _ => if b then reached (HandedOff p) d else reached (Publishing p) d)).
Proof.
  intros w [[Hw Hd]|[Hw Hd]]; destruct b; (split; [|done]); cbn; rewrite follow_snoc, Hw; cbn; by rewrite ?decide_True by done.
Qed.

Lemma publish_loop_ok p d l n :
  triple (publishing p d) (publish_loop c a p l n)
    (pending (publishing p d) (fun (b : bool) => if b then reached (HandedOff p) d else publishing p d)).
Proof.
  revert n. induction l as [|[answer fired] l IH]; intros n; [by intros w Hw|]. cbn [publish_loop].
  eapply triple_bind; [apply publishing_emit|]. intros ?. destruct (confirmed answer); [by apply triple_ret|].
  apply triple_bind with (R := fun _ => publishing p d).
  - eapply triple_weaken; [apply reached_wait|done|intros w Hw; by right|intros b w Hw; by right].
  - intros [|]; cbn; [exact (IH (n + 1))|by apply triple_ret].
Qed.

Lemma ack_loop_ok p d id t l n :
  triple (reached (HandedOff p) d) (ack_loop c a id t l n)
    (pending (reached (HandedOff p) d) (fun (b : bool) => if b then reached (Dead p) d else reached (HandedOff p) d)).
Proof.
  revert n. induction l as [|[e fired] l IH]; intros n; [by intros w Hw|]. cbn [ack_loop].
  eapply triple_bind; [by apply reached_emit|]. intros ?. destruct (acked e).
  - eapply triple_bind; [apply reached_observeBoundary|]. intros ?. by apply triple_ret.
  - eapply triple_bind; [apply reached_wait|]. intros [|]; [exact (IH (n + 1))|].
    eapply triple_bind; [apply reached_observeBoundary|]. intros ?. by apply triple_ret.
Qed.

(** A terminal record of this message. *)
Definition carries (msg : message) (p : preparedDLQ) : Prop :=
  exists r, json_Marshal r = Ok (pd_data p) /\ len (pd_data p) <= DefaultMaxDLQRecordBytes /\
    validateDLQRecord ToLower r = None /\ captured json_Marshal ToLower r (msg_Headers msg) (msg_Data msg) /\
    d_ConsumerID r = hc_ConsumerID c /\ d_Subject r = msg_Subject msg.

(** Where a dead letter may stand. *)
Definition unfinished (msg : message) (d : DB B) (w : world) : Prop :=
  reached Idle d w \/ reached Failed d w \/
  exists p, carries msg p /\ (reached (Publishing p) d w \/ reached (HandedOff p) d w).

(** The broker and the clock give what a terminal record needs. *)
Definition sane (msg : message) : Prop :=
  hc_ConsumerID c <> "" /\ WireMode_valid (hc_WireMode c) = true /\ msg_Subject msg <> "" /\
  (forall n, a_clock a n <> 0).

Lemma clock_nonzero msg ph d Q : sane msg -> triple (reached ph d) (clock a) (pending Q (fun t w => reached ph d w /\ t <> 0)).
Proof. intros (_ & _ & _ & Hc) w Hw. split; [exact Hw|apply Hc]. Qed.

Lemma prepared_carries msg canonical attempt kind failure t p : sane msg -> attempt <> 0 -> t <> 0 ->
  prepareDLQ json_Marshal json_Valid ToLower (dlq_record c msg canonical attempt kind failure t) (msg_Headers msg) (msg_Data msg) = Ok p ->
  carries msg p.
Proof.
  intros (H1 & H2 & H3 & _) Ha Ht Hp.
  pose proof (prepareDLQ_ok json_Marshal json_Valid ToLower (dlq_record c msg canonical attempt kind failure t)
    (msg_Headers msg) (msg_Data msg)) as H. rewrite Hp in H. destruct H as (r & E1 & E2 & E3 & E4 & E5); [by split_and!|].
  destruct E4 as (F1 & F2 & _). exists r. by split_and!.
Qed.

Lemma deadLetter_ok msg md canonical attempt kind failure d : sane msg -> attempt <> 0 ->
  triple (reached Idle d) (deadLetterAndAcknowledge json_Marshal json_Valid ToLower c a msg md canonical attempt kind failure)
    (pending (unfinished msg d)
       (fun (b : bool) w => if b then exists p, carries msg p /\ reached (Dead p) d w else unfinished msg d w)).
Proof.
  intros Hs Ha. unfold deadLetterAndAcknowledge. eapply triple_bind; [apply reached_clock|]. intros started.
  eapply triple_bind; [by apply (clock_nonzero msg)|]. intros failedAt w [Hw Ht]. revert w Hw.
  destruct (prepareDLQ _ _ _ _ _ _) as [p|e] eqn:Ep.
  - apply prepared_carries in Ep; [|done..].
    eapply (triple_bind (publish_loop c a p (a_publish a) 1)).
    + eapply triple_weaken; [apply publish_loop_ok|intros w Hw; by left|intros w [Hw|Hw]; [by left|right; right; exists p; by auto]|done].
    + intros [|].
      * eapply triple_bind; [apply reached_observeBoundary|]. intros ?.
        eapply triple_bind; [apply reached_clock|]. intros t.
        eapply triple_weaken; [apply ack_loop_ok|done|intros w Hw; right; right; exists p; by auto|].
        intros [|] w Hw; [by exists p|right; right; exists p; by auto].
      * eapply triple_bind with (R := fun _ => unfinished msg d); [|intros ?; by apply triple_ret].
        apply triple_or; (eapply triple_weaken; [apply reached_observeBoundary with (Q := fun _ => False)|done..|]);
          intros ? w Hw; [by left|right; right; exists p; by auto].
  - eapply triple_bind; [apply reached_observeBoundary|]. intros ?.
    eapply triple_bind with (R := fun _ => reached Failed d); [|intros ?; apply triple_ret; intros w Hw; right; by left].
    intros w [Hw Hd]. split; [|done]. cbn. by rewrite follow_snoc, Hw.
Qed.

(** ** A delivery *)
Context (decode : string -> Header -> Time -> result error (decodedMessage B C)) (ctx : C) (t0 : nat) (msg : message).
Abbreviation process := (NatsConsumer.processMessage ctx_Err json_Marshal json_Valid ToLower EqualFold c a decode ctx t0 msg).

Definition decodes (dm : decodedMessage B C) : Prop :=
  exists n t, msg_Metadata msg = Ok (n, t) /\ decode (msg_Data msg) (msg_Headers msg) t = Ok dm.

Definition attempt_op (dm : decodedMessage B C) : op (B := B) :=
  OpAttempt (message_key EqualFold c dm msg) (FingerprintEnvelope (dm_canonical dm)) (hc_MaxAttempts c)
    (Some (inbox_handler ctx_Err c dm ctx t0)).
Definition confirm_op (dm : decodedMessage B C) : op (B := B) :=
  OpConfirm (message_key EqualFold c dm msg) (FingerprintEnvelope (dm_canonical dm)).

(** The Inbox operations of one delivery. *)
Definition delivery_ops (ops : list (op (B := B) * env)) : Prop :=
  ops = [] \/ exists dm, decodes dm /\
    (ops = [(attempt_op dm, a_inbox a)] \/ ops = [(attempt_op dm, a_inbox a); (confirm_op dm, a_confirm a)]).

(** What a phase means for the message. *)
Definition phase_ok (ph : phase) (d : DB B) : Prop :=
  match ph with
  | Acked _ => exists dm, decodes dm /\ completed (key_id (message_key EqualFold c dm msg)) d = true
  | Publishing p | HandedOff p | Dead p | Sealed p => carries msg p
  | _ => True
  end.

Definition outcome_ok (d : DB B) (w : world) : Prop :=
  exists ph ops, follow Idle (w_trace w) = Some ph /\ delivery_ops ops /\ w_db w = perform_all ops d /\ phase_ok ph (w_db w).

Lemma outcome_reached ph d d' w ops :
  reached ph d' w -> delivery_ops ops -> d' = perform_all ops d -> phase_ok ph d' -> outcome_ok d w.
Proof. intros [Hf Hd] Ho Hp Hk. exists ph, ops. by rewrite Hd. Qed.

Lemma outcome_nothing ph d w : reached ph d w -> phase_ok ph d -> outcome_ok d w.
Proof. intros Hw Hk. by apply (outcome_reached ph d d w []); [|left|..]. Qed.

Lemma outcome_unfinished d d' w ops :
  unfinished msg d' w -> delivery_ops ops -> d' = perform_all ops d -> outcome_ok d w.
Proof.
  intros [Hw|[Hw|(p & Hp & [Hw|Hw])]] Ho Hd; by eapply outcome_reached.
Qed.

Context (Hsane : sane msg) (Hdelivered : forall n t, msg_Metadata msg = Ok (n, t) -> n <> 0).

(** A terminal failure with its dead letter; [ops] came before it. *)
Lemma deadLetter_outcome md canonical attempt kind failure d d' ops :
  attempt <> 0 -> delivery_ops ops -> d' = perform_all ops d ->
  triple (reached Idle d') (deadLetterAndAcknowledge json_Marshal json_Valid ToLower c a msg md canonical attempt kind failure)
    (pending (outcome_ok d)
       (fun (b : bool) w => outcome_ok d w /\ (b = true -> exists p, carries msg p /\ reached (Dead p) d' w))).
Proof.
  intros Ha Ho Hd. eapply triple_weaken; [by apply deadLetter_ok|done|intros w Hw; by eapply outcome_unfinished|].
  intros [|] w Hw; [|split; [by eapply outcome_unfinished|done]]. destruct Hw as (p & Hp & Hw).
  split; [by eapply outcome_reached|]. intros _. by exists p.
Qed.

Lemma nak_ok md delay d Q : triple (reached Idle d) (nak c a md delay) (pending Q (fun _ => reached (Nacked (is_nil (a_nak a))) d)).
Proof.
  eapply triple_bind; [apply reached_clock|]. intros t. eapply triple_bind; [by apply reached_emit|]. intros ?.
  apply reached_observeBoundary.
Qed.

Lemma observeHandle_outcome d (dm : decodedMessage B C) n r dl t e Q :
  triple (outcome_ok d) (observeHandle (C := C) c a dm n r dl t e) (pending Q (fun _ => outcome_ok d)).
Proof.
  intros w (ph & ops & Hf & Ho & Hd & Hk).
  eapply (triple_weaken _ (reached ph (w_db w)) (fun w' => w' = w) _ Q); [by apply reached_observeHandle|by intros ? ->|done| |done].
  intros ? w' Hw'. eapply outcome_reached; [exact Hw'|exact Ho|done|done].
Qed.

Lemma confirm_outcome dm p d d' Q : decodes dm -> carries msg p -> d' = perform_all [(attempt_op dm, a_inbox a)] d ->
  triple (reached (Dead p) d')
    (confirmTerminalHandoff a (message_key EqualFold c dm msg) (FingerprintEnvelope (dm_canonical dm)))
    (pending Q (fun _ => outcome_ok d)).
Proof.
  intros Hdm Hp Hd. unfold confirmTerminalHandoff. destruct (a_retention a); cbn [negb].
  - intros w [Hf Hw]. cbn. exists (Sealed p), [(attempt_op dm, a_inbox a); (confirm_op dm, a_confirm a)].
    cbn [w_trace w_db]. rewrite follow_snoc, Hf. split_and!; [done|right; exists dm; by auto| |exact Hp].
    rewrite Hw, Hd. done.
  - apply triple_ret. intros w Hw. eapply (outcome_reached _ _ _ _ [(attempt_op dm, a_inbox a)]); [exact Hw|right; exists dm; by auto|done|exact Hp].
Qed.

Lemma dispose_ok dm delivered result err t d d' : decodes dm -> d' = perform_all [(attempt_op dm, a_inbox a)] d ->
  triple (reached Idle d')
    (dispose json_Marshal json_Valid ToLower c a msg delivered dm (message_key EqualFold c dm msg)
       (FingerprintEnvelope (dm_canonical dm)) result err t)
    (pending (outcome_ok d) (fun _ => outcome_ok d)).
Proof.
  intros Hdm Hd. assert (delivery_ops [(attempt_op dm, a_inbox a)]) as Hops by (right; exists dm; by auto).
  unfold dispose. destruct (_ || _).
  - eapply triple_bind; [apply (deadLetter_outcome _ _ _ _ _ d d' [(attempt_op dm, a_inbox a)]); [|done..]|].
    { unfold terminalRecordAttempt. destruct (Z.ltb_spec 0 (r_Attempt result)); lia. }
    intros acknowledged. eapply triple_bind with (R := fun _ => outcome_ok d); [|intros ?; apply observeHandle_outcome].
    destruct acknowledged; cbn [andb]; [|apply triple_ret; by intros w []].
    destruct (errors_is _ _); cbn [negb]; [apply triple_ret; by intros w []|].
    intros w [_ Hw]. destruct (Hw eq_refl) as (p & Hp & Hr). by apply (confirm_outcome dm p d d').
  - eapply triple_bind with (R := fun _ => reached Idle d').
    { eapply triple_weaken with (Q := reached Idle d') (V := fun _ => reached Idle d');
        [|done|intros w Hw; by eapply outcome_reached|done].
      destruct (DeferDelay _); [by apply triple_ret|]. destruct (RetryDelay _); [by apply triple_ret|]. apply reached_retryDelay. }
    intros delay. eapply triple_bind; [apply nak_ok|]. intros ?.
    eapply triple_weaken; [apply observeHandle_outcome|intros w Hw; eapply outcome_reached; by try exact Hw|done|done].
Qed.

Context (Hfree : forall dm, decodes dm -> collision_free (message_key EqualFold c dm msg) (FingerprintEnvelope (dm_canonical dm))).
Context (Hattempts : 0 <= hc_MaxAttempts c).

Lemma attempt_op_ok dm : decodes dm -> op_ok (attempt_op dm).
Proof. intros Hdm. cbn. split_and!; [apply length_Sum256|by apply Hfree|done]. Qed.

Lemma processMessage_ok d : db_ok d ->
  triple (reached Idle d) process (pending (outcome_ok d) (fun _ => outcome_ok d)).
Proof.
  intros Hd. assert (delivery_ops []) as Hnil by (by left). unfold NatsConsumer.processMessage.
  destruct (msg_Metadata msg) as [[n t]|] eqn:Emd; [|apply triple_ret; intros w Hw; eapply outcome_nothing; [exact Hw|exact I]].
  assert (n <> 0) as Hn by (by eapply Hdelivered).
  destruct (decode (msg_Data msg) (msg_Headers msg) t) as [dm|e] eqn:Edec.
  2:{ eapply triple_bind; [by apply (deadLetter_outcome _ _ _ _ _ d d [])|]. intros b. apply triple_ret. by intros w []. }
  assert (decodes dm) as Hdm by (by exists n, t).
  eapply triple_bind; [apply reached_clock|]. intros now. destruct (elapsed _ _).
  { eapply triple_bind; [by apply (deadLetter_outcome _ _ _ _ _ d d [])|]. intros b. apply triple_ret. by intros w []. }
  destruct (after _ _).
  { eapply triple_weaken; [apply nak_ok|done|done|]. intros ? w Hw. eapply outcome_nothing; [exact Hw|exact I]. }
  eapply triple_bind; [apply reached_clock|]. intros started.
  set (d' := perform_all [(attempt_op dm, a_inbox a)] d).
  assert (delivery_ops [(attempt_op dm, a_inbox a)]) as Hops by (right; exists dm; by auto).
  apply triple_bind with (R := fun r w => reached Idle d' w /\
    (r.2 = None -> completed (key_id (message_key EqualFold c dm msg)) d' = true)).
  { intros w [Hf Hw]. cbn. split; [split; [done|]|]; cbn; rewrite Hw; [done|].
    by apply Store_ProcessAttempt_completed, Hd; apply attempt_op_ok. }
  intros [result [err|]]; cbn [fst snd].
  - intros w [Hw _]. revert w Hw. destruct (a_canceled a).
    + eapply triple_weaken; [apply observeHandle_outcome|intros w Hw; apply (outcome_reached Idle d d' w [(attempt_op dm, a_inbox a)]); (done || exact I)|done|done].
    + by apply dispose_ok.
  - intros w [Hw Hc]. specialize (Hc eq_refl). revert w Hw.
    eapply triple_bind; [apply reached_observeHandle|]. intros ?. eapply triple_bind; [apply reached_clock|]. intros t'.
    eapply triple_bind; [by apply reached_emit|]. intros ?.
    eapply triple_weaken; [apply reached_observeBoundary|done|done|]. intros ? w Hw.
    apply (outcome_reached (Acked (acked (a_ack a))) d d' w [(attempt_op dm, a_inbox a)]); [exact Hw|done|done|]. by exists dm.
Qed.

(** ** With a broker that answers, every delivery is settled *)

Definition is_ok {E A} (r : result E A) : Prop := match r with Ok _ => True | Err _ => False end.

(** Some answer is good, and every wait before it ends with its timer. *)
Fixpoint settles {X} (good : X -> bool) (l : list (X * bool)) : Prop :=
  match l with
  | [] => False
  | (x, fired) :: rest => good x = true \/ (fired = true /\ settles good rest)
  end.

Definition settled_phase (ph : phase) : Prop :=
  match ph with
  | Nacked ok | Acked ok => ok = true
  | Dead _ | Sealed _ => True
  | Failed => marshal_trouble json_Marshal
  | _ => False
  end.
Definition settled (w : world) : Prop := exists ph, follow Idle (w_trace w) = Some ph /\ settled_phase ph.

(** Returning triples. *)
Abbreviation returns V := (pending (fun _ => False) V).

Section Progress.
Context (Hretry : 0 < hc_BaseRetry c <= hc_MaxRetry c) (Hmax : hc_MaxRetry c < maxInt64).
Context (Hpublish : settles confirmed (a_publish a)) (Hack : settles acked (a_deadAck a)).
Context (Hplain : acked (a_ack a) = true) (Hnak : a_nak a = None).

Lemma retryDelay_returns ph d n : triple (reached ph d) (retryDelay c a n) (returns (fun _ => reached ph d)).
Proof.
  intros w Hw. unfold retryDelay. cbn.
  by destruct (nats_retryDelay_total (a_random a (w_draws w)) (hc_BaseRetry c) (hc_MaxRetry c) n Hretry Hmax) as [x ->].
Qed.
Lemma wait_returns ph d n fired :
  triple (reached ph d) (waitForHandoffRetry c a n fired) (returns (fun b w => b = fired /\ reached ph d w)).
Proof. eapply triple_bind; [apply retryDelay_returns|]. intros ?. by apply triple_ret. Qed.

Lemma publish_returns p d l n : settles confirmed l ->
  triple (publishing p d) (publish_loop c a p l n) (returns (fun b w => b = true /\ reached (HandedOff p) d w)).
Proof.
  revert n. induction l as [|[answer fired] l IH]; intros n Hl; [done|]. cbn [publish_loop].
  eapply triple_bind; [apply publishing_emit|]. intros ?. destruct (confirmed answer) eqn:E; [by apply triple_ret|].
  destruct Hl as [?|[-> Hl]]; [congruence|]. eapply triple_bind; [apply wait_returns|].
  intros b w [-> Hw]. apply (IH (n + 1) Hl). by right.
Qed.

Lemma ack_returns p d id t l n : settles acked l ->
  triple (reached (HandedOff p) d) (ack_loop c a id t l n) (returns (fun b w => b = true /\ reached (Dead p) d w)).
Proof.
  revert n. induction l as [|[e fired] l IH]; intros n Hl; [done|]. cbn [ack_loop].
  eapply triple_bind; [by apply reached_emit|]. intros ?. destruct (acked e) eqn:E.
  - eapply triple_bind; [apply reached_observeBoundary|]. intros ?. by apply triple_ret.
  - destruct Hl as [?|[-> Hl]]; [congruence|]. eapply triple_bind; [apply wait_returns|].
    intros b w [-> Hw]. by apply (IH (n + 1) Hl).
Qed.

Lemma deadLetter_returns md canonical attempt kind failure d : attempt <> 0 ->
  triple (reached Idle d) (deadLetterAndAcknowledge json_Marshal json_Valid ToLower c a msg md canonical attempt kind failure)
    (returns (fun b w => (b = true -> exists p, reached (Dead p) d w) /\ (b = false -> marshal_trouble json_Marshal /\ reached Failed d w))).
Proof.
  intros Ha. unfold deadLetterAndAcknowledge. eapply triple_bind; [apply reached_clock|]. intros started.
  eapply triple_bind; [by apply (clock_nonzero msg)|]. intros failedAt w [Hw Ht]. revert w Hw.
  pose proof (prepareDLQ_ok json_Marshal json_Valid ToLower (dlq_record c msg canonical attempt kind failure failedAt)
    (msg_Headers msg) (msg_Data msg)) as Hprep.
  assert (complete (dlq_record c msg canonical attempt kind failure failedAt)) as Hcomplete
    by (destruct Hsane as (? & ? & ? & _); by split_and!).
  specialize (Hprep Hcomplete). destruct (prepareDLQ _ _ _ _ _ _) as [p|e].
  - eapply (triple_bind (publish_loop c a p (a_publish a) 1)).
    { eapply triple_weaken; [by apply publish_returns|intros w Hw; by left|done|done]. }
    intros b w [-> Hw]. revert w Hw. eapply triple_bind; [apply reached_observeBoundary|]. intros ?.
    eapply triple_bind; [apply reached_clock|]. intros t.
    eapply triple_weaken; [by apply ack_returns|done|done|]. intros b w [-> Hw]. split; [by exists p|done].
  - eapply triple_bind; [apply reached_observeBoundary|]. intros ?.
    eapply triple_bind with (R := fun _ => reached Failed d); [|intros ?; by apply triple_ret].
    intros w [Hw Hd]. split; [|done]. cbn. by rewrite follow_snoc, Hw.
Qed.

Lemma deadLetter_settled (b : bool) d w :
  (b = true -> exists p, reached (Dead p) d w) /\ (b = false -> marshal_trouble json_Marshal /\ reached Failed d w) -> settled w.
Proof.
  intros [H1 H2]. destruct b; [destruct (H1 eq_refl) as (p & Hp & _); by exists (Dead p)|].
  destruct (H2 eq_refl) as (Hm & Hf & _). by exists Failed.
Qed.

Lemma observeHandle_settled (dm : decodedMessage B C) n r dl t e :
  triple settled (observeHandle (C := C) c a dm n r dl t e) (returns (fun _ => settled)).
Proof.
  intros w (ph & Hf & Hs).
  eapply (triple_weaken _ (reached ph (w_db w)) (fun w' => w' = w) _ (fun _ => False));
    [by apply reached_observeHandle with (Q := fun _ => False)|by intros ? ->|done| |done].
  intros ? w' [Hw' _]. by exists ph.
Qed.

Lemma dispose_settled dm delivered result err t d key fp :
  triple (reached Idle d) (dispose json_Marshal json_Valid ToLower c a msg delivered dm key fp result err t)
    (returns (fun _ => settled)).
Proof.
  unfold dispose. destruct (_ || _).
  - eapply triple_bind; [apply deadLetter_returns|].
    { unfold terminalRecordAttempt. destruct (Z.ltb_spec 0 (r_Attempt result)); lia. }
    intros b. eapply triple_bind with (R := fun _ => settled); [|intros ?; apply observeHandle_settled].
    destruct b; cbn [andb]; [|apply triple_ret; intros w Hw; by eapply (deadLetter_settled false)].
    destruct (errors_is _ _); cbn [negb]; [apply triple_ret; intros w Hw; by eapply (deadLetter_settled true)|].
    intros w [Hw _]. destruct (Hw eq_refl) as (p & Hf & _). unfold confirmTerminalHandoff. destruct (a_retention a); cbn.
    + exists (Sealed p). cbn. by rewrite follow_snoc, Hf.
    + by exists (Dead p).
  - eapply triple_bind with (R := fun _ => reached Idle d).
    { destruct (DeferDelay _); [by apply triple_ret|]. destruct (RetryDelay _); [by apply triple_ret|]. apply retryDelay_returns. }
    intros delay. eapply triple_bind; [apply nak_ok|]. intros ?.
    eapply triple_weaken; [apply observeHandle_settled| |done|done]. intros w [Hw _]. rewrite Hnak in Hw. by exists (Nacked true).
Qed.

Lemma processMessage_settled d : is_ok (msg_Metadata msg) -> a_canceled a = false ->
  triple (reached Idle d) process (returns (fun _ => settled)).
Proof.
  intros Hmd Hcan. unfold NatsConsumer.processMessage.
  destruct (msg_Metadata msg) as [[n t]|] eqn:Emd; [|done]. assert (n <> 0) as Hn by (by eapply Hdelivered).
  assert (forall md canonical kind failure, triple (reached Idle d)
    (mbind (deadLetterAndAcknowledge json_Marshal json_Valid ToLower c a msg md canonical n kind failure) (fun _ => mret tt))
    (returns (fun _ => settled))) as Hdl.
  { intros. eapply triple_bind; [by apply deadLetter_returns|]. intros b. apply triple_ret. intros w Hw. by eapply deadLetter_settled. }
  destruct (decode _ _ _) as [dm|e]; [|apply Hdl]. eapply triple_bind; [apply reached_clock|]. intros now.
  destruct (elapsed _ _); [apply Hdl|]. destruct (after _ _).
  { eapply triple_weaken; [apply nak_ok with (Q := fun _ => False)|done|done|]. intros ? w [Hw _]. rewrite Hnak in Hw. by exists (Nacked true). }
  eapply triple_bind; [apply reached_clock|]. intros started.
  apply triple_bind with (R := fun _ w => exists d', reached Idle d' w); [intros w [Hf _]; cbn; by eexists|].
  intros [result [err|]] w [d' Hw]; revert w Hw; [rewrite Hcan; apply dispose_settled|].
  eapply triple_bind; [apply reached_observeHandle|]. intros ?. eapply triple_bind; [apply reached_clock|]. intros t'.
  eapply triple_bind; [by apply reached_emit|]. intros ?.
  eapply triple_weaken; [apply reached_observeBoundary with (Q := fun _ => False)|done|done|]. intros ? w [Hw _]. rewrite Hplain in Hw. by exists (Acked true).
Qed.
End Progress.
End Config.
End Delivery.

(** ** An accepted configuration *)
Lemma newConsumer_facts {B C} deps sup js_err info (config0 config : HandlerConfig B C) subject :
  newConsumer deps sup js_err info config0 = Ok (config, subject) ->
  hc_ConsumerID config <> "" /\ WireMode_valid (hc_WireMode config) = true /\ 1 <= hc_MaxAttempts config /\
  0 < hc_BaseRetry config <= hc_MaxRetry config /\ hc_DLQSubject config <> subject.
Proof.
  unfold newConsumer. set (c0 := applyConsumerDefaults config0). clearbody c0. intros H.
  destruct (NatsSubject.validateJetStreamResourceName (hc_Stream c0)); [done|].
  destruct (NatsSubject.validateJetStreamResourceName (hc_ConsumerID c0)) eqn:Eid; [done|].
  destruct (negb deps || bad_config c0) eqn:Ebad; [done|]. apply orb_false_iff in Ebad as [_ Ebad].
  destruct (negb sup); [done|]. destruct (NatsSubject.Subject (hc_Namespace c0) info) as [subj|]; [|done].
  set (c1 := if String.eqb _ _ then _ else c0) in H.
  assert (hc_ConsumerID c1 = hc_ConsumerID c0 /\ hc_WireMode c1 = hc_WireMode c0 /\ hc_MaxAttempts c1 = hc_MaxAttempts c0 /\
    hc_BaseRetry c1 = hc_BaseRetry c0 /\ hc_MaxRetry c1 = hc_MaxRetry c0) as (E1 & E2 & E3 & E4 & E5)
    by (unfold c1; by destruct (String.eqb _ _)).
  clearbody c1. destruct (NatsSubject.validateSubjectToken _ _); [done|].
  destruct (String.eqb_spec (hc_DLQSubject c1) subj); [done|]. destruct js_err; [done|].
  apply Ok_inj in H. injection H as -> ->. unfold bad_config in Ebad. rewrite <- E2, <- E3, <- E4, <- E5 in Ebad.
  rewrite <- E1 in Eid. bool_simpl. split_and!; try done; try lia. intros Hid. by rewrite Hid in Eid.
Qed.

Section Theorems.
Context {B C : Type} {collate : string -> string -> bool} `{!InboxBackend B collate}.
Context (ctx_Err : C -> nat -> option error).
Context (json_Marshal : DLQRecord -> result error string) (json_Valid : string -> bool).
Context (ToLower : string -> string) (EqualFold : string -> string -> bool).
Context (decode : string -> Header -> Time -> result error (decodedMessage B C)).

(** A delivery: the message, the answers it meets, the processing context. *)
Record delivery := { dv_msg : message; dv_answers : answers; dv_ctx : C; dv_t0 : nat }.

Definition fresh (d : DB B) : world :=
  {| w_db := d; w_trace := []; w_fatal := None; w_ready := true; w_reads := 0; w_draws := 0 |}.

(** The world after a delivery, and how it ended. *)
Definition deliver (c : HandlerConfig B C) (dv : delivery) (d : DB B) : world * comp unit :=
  processMessage ctx_Err json_Marshal json_Valid ToLower EqualFold c (dv_answers dv) decode (dv_ctx dv) (dv_t0 dv)
    (dv_msg dv) (fresh d).

Abbreviation decoded_as dv dm := (decodes decode (dv_msg dv) dm).
Abbreviation key_of c dv dm := (message_key EqualFold c dm (dv_msg dv)).

(** What JetStream and the clock guarantee, and no digest collision. *)
Definition delivery_ok (c : HandlerConfig B C) (dv : delivery) : Prop :=
  msg_Subject (dv_msg dv) <> "" /\ (forall n, a_clock (dv_answers dv) n <> 0) /\
  (forall n t, msg_Metadata (dv_msg dv) = Ok (n, t) -> n <> 0) /\
  (forall dm, decoded_as dv dm -> collision_free (key_of c dv dm) (FingerprintEnvelope (dm_canonical dm))).

Lemma deliver_outcome deps sup js_err info config0 c subject dv d :
  newConsumer deps sup js_err info config0 = Ok (c, subject) -> delivery_ok c dv -> db_ok d ->
  outcome_ok ctx_Err json_Marshal ToLower EqualFold c (dv_answers dv) decode (dv_ctx dv) (dv_t0 dv) (dv_msg dv) d
    (deliver c dv d).1.
Proof.
  intros (H1 & H2 & H3 & _)%newConsumer_facts (H4 & H5 & H6 & H7) Hd.
  assert (reached Idle d (fresh d)) as H0 by done.
  unshelve epose proof (processMessage_ok ctx_Err json_Marshal json_Valid ToLower EqualFold c (dv_answers dv) decode
    (dv_ctx dv) (dv_t0 dv) (dv_msg dv) _ H6 H7 _ d Hd (fresh d) H0) as H; [by split_and!|lia|].
  unfold deliver. destruct (processMessage _ _ _ _ _ _ _ _ _ _ _ _) as [w [[]| |]]; exact H.
Qed.

(** C10. How one NATS delivery is settled, for every configuration that the
    constructor accepts, and whatever the broker, the Inbox faults, the handler,
    the middlewares and the clock do: the trace follows the settlement protocol.
    So the message is acknowledged only after its completion is committed in the
    Inbox or after the broker confirmed a dead letter that carries it, with its
    headers and payload unless JSON cannot represent the headers or the record with
    them does not fit, when it has the digests and sizes; it is
    never both negatively acknowledged and dead-lettered; terminal state is
    sealed only after publication and acknowledgement; and the tables change by
    one Inbox attempt and at most one confirmation for the message's identity. *)
Theorem nats_settlement deps sup js_err info config0 c subject dv d :
  newConsumer deps sup js_err info config0 = Ok (c, subject) -> delivery_ok c dv -> db_ok d ->
  let w := (deliver c dv d).1 in
  exists ph ops, follow Idle (w_trace w) = Some ph /\
    phase_ok json_Marshal ToLower EqualFold c decode (dv_msg dv) ph (w_db w) /\
    w_db w = perform_all ops d /\
    delivery_ops ctx_Err EqualFold c (dv_answers dv) decode (dv_ctx dv) (dv_t0 dv) (dv_msg dv) ops.
Proof.
  intros Hc Hdv Hd w. destruct (deliver_outcome _ _ _ _ _ _ _ dv d Hc Hdv Hd) as (ph & ops & ? & ? & ? & ?). by exists ph, ops.
Qed.

(** C15. Every NATS delivery is settled when the broker answers: with readable
    delivery metadata, a run that is not canceled, a maximum retry delay below the
    largest duration, a broker that accepts an acknowledgement and a negative
    acknowledgement of the message, and a publication of the dead letter and its
    acknowledgement that succeed before the waits are interrupted, the consumer
    returns and the broker has accepted an acknowledgement or a negative
    acknowledgement of the message or has stored its dead letter and accepted the
    acknowledgement after it, or the terminal record cannot be encoded and the
    consumer stops. *)
Theorem nats_progress deps sup js_err info config0 c subject dv d :
  newConsumer deps sup js_err info config0 = Ok (c, subject) -> delivery_ok c dv ->
  hc_MaxRetry c < maxInt64 -> is_ok (msg_Metadata (dv_msg dv)) -> a_canceled (dv_answers dv) = false ->
  acked (a_ack (dv_answers dv)) = true -> a_nak (dv_answers dv) = None ->
  settles confirmed (a_publish (dv_answers dv)) -> settles acked (a_deadAck (dv_answers dv)) ->
  (deliver c dv d).2 = Val tt /\ settled json_Marshal (deliver c dv d).1.
Proof.
  intros (H1 & H2 & H3 & H8 & _)%newConsumer_facts (H4 & H5 & H6 & H7) Hm Hmd Hcan Hk Hn Hp Ha.
  assert (reached Idle d (fresh d)) as H0 by done.
  unshelve epose proof (processMessage_settled ctx_Err json_Marshal json_Valid ToLower EqualFold c (dv_answers dv) decode
    (dv_ctx dv) (dv_t0 dv) (dv_msg dv) _ H6 H8 Hm Hp Ha Hk Hn d Hmd Hcan (fresh d) H0) as H; [by split_and!|].
  unfold deliver. destruct (processMessage _ _ _ _ _ _ _ _ _ _ _ _) as [w [[]| |]]; done.
Qed.

(** ** Sequences of deliveries *)
Definition step (c : HandlerConfig B C) (dv : delivery) (d : DB B) : DB B := w_db (deliver c dv d).1.
Definition consume (c : HandlerConfig B C) : list delivery -> DB B -> DB B := run_all (step c).

(** An Inbox operation of a delivery. *)
Definition belongs (c : HandlerConfig B C) (dv : delivery) (o : op (B := B)) : Prop :=
  exists dm, decoded_as dv dm /\
    (o = attempt_op ctx_Err EqualFold c (dv_ctx dv) (dv_t0 dv) (dv_msg dv) dm \/ o = confirm_op EqualFold c (dv_msg dv) dm).

Section Sequence.
Context (deps sup : bool) (js_err : option error) (info : DescriptorInfo) (config0 c : HandlerConfig B C) (subject : string).
Context (Hc : newConsumer deps sup js_err info config0 = Ok (c, subject)).

Lemma belongs_ok dv o : delivery_ok c dv -> belongs c dv o -> op_ok o /\ not_prune o.
Proof.
  intros (_ & _ & _ & Hf) (dm & Hdm & Ho). destruct (newConsumer_facts _ _ _ _ _ _ _ Hc) as (_ & _ & Hn & _).
  destruct Ho as [-> | ->]; (split; [|done]); cbn; [split_and!; [apply length_Sum256|by apply Hf|lia]|apply length_Sum256].
Qed.

Lemma step_ops dv d : delivery_ok c dv -> db_ok d ->
  exists ops, step c dv d = perform_all ops d /\ Forall (fun p => belongs c dv p.1) ops.
Proof.
  intros Hdv Hd. destruct (deliver_outcome _ _ _ _ _ _ _ dv d Hc Hdv Hd) as (ph & ops & _ & Hops & Hdb & _).
  exists ops. split; [done|]. destruct Hops as [->|(dm & Hdm & [-> | ->])]; repeat constructor; exists dm; by auto.
Qed.
End Sequence.

(** C12. Exactly-once effect of NATS deliveries, end to end: over any sequence of
    deliveries and redeliveries, whatever fails in between, the business tables
    are the result of running, one after the other, the handlers of the messages
    that became completed, each identity once; and a message whose delivery was
    acknowledged after a successful attempt stays completed, so its handler's
    writes are among them or were there before. *)
Theorem nats_exactly_once deps sup js_err info config0 c subject ds d :
  newConsumer deps sup js_err info config0 = Ok (c, subject) -> Forall (delivery_ok c) ds -> db_ok d ->
  exists log, NoDup (List.map fst log) /\ business (consume c ds d) = apply_log log (business d) /\
    Forall (fun p => exists dv dm, dv ∈ ds /\ decoded_as dv dm /\ p.1 = key_id (key_of c dv dm) /\
                       p.2 = inbox_handler ctx_Err c dm (dv_ctx dv) (dv_t0 dv)) log /\
    forall ds1 dv ds2 ok, ds = (ds1 ++ dv :: ds2)%list ->
      follow Idle (w_trace (deliver c dv (consume c ds1 d)).1) = Some (Acked ok) ->
      exists dm, decoded_as dv dm /\ completed (key_id (key_of c dv dm)) (consume c ds d) = true /\
        (completed (key_id (key_of c dv dm)) d = true \/ key_id (key_of c dv dm) ∈ List.map fst log).
Proof.
  intros Hc Hds Hd. pose proof (step_ops _ _ _ _ _ _ _ Hc) as Hs. pose proof (belongs_ok _ _ _ _ _ _ _ Hc) as Hb.
  destruct (run_all_log _ _ _ Hs Hb ds d Hds Hd) as (log & Hlog & _). exists log.
  pose proof Hlog as (H1 & _ & H3 & H4). split_and!; [done..| |].
  - eapply Forall_impl; [exact H4|]. intros [k h] (dv & o & Hin & (dm & Hdm & Ho) & Hdel). exists dv, dm.
    destruct Ho as [-> | ->]; [|done]. destruct Hdel as [-> ->]. by split_and!.
  - intros ds1 dv ds2 ok -> Hack. apply Forall_app in Hds as Hds'. destruct Hds' as [Hds1 Hds2]. inversion Hds2 as [|? ? Hdv _]; subst.
    assert (db_ok (consume c ds1 d)) as Hd1 by (by eapply run_all_ok).
    destruct (deliver_outcome _ _ _ _ _ _ _ dv _ Hc Hdv Hd1) as (ph & ops & Hf & _ & _ & Hk).
    rewrite Hack in Hf. injection Hf as <-. destruct Hk as (dm & Hdm & Hcm). exists dm. split; [done|].
    by eapply run_all_completed.
Qed.
End Theorems.
End NatsDelivery.
