(* ===== verification/NatsBatch.v ===== *)
(** * The NATS batch consumer

    Models [adapters/nats/batch_consumer.go]: construction, the collection of a
    batch from two pulls, the classification of its deliveries, the Inbox attempt,
    the pool of goroutines that acknowledge or hand back the deliveries, the dead
    letters, the confirmation of terminal handoffs, the heartbeat and the loop of
    a worker.

    Every delivery meets answers of its own ([deliveryAnswers]): the pool's
    goroutines share nothing but the task channel, the joined errors and the
    heartbeat's set, so the computation of one delivery does not depend on the
    others.  The interleaving of the goroutines is a schedule of moves.  Messages
    have a number, which stands for the pointer.  Observations, log records and
    readiness signals are left out, with the clock readings made for them only:
    [NvObserve] stands for the moment when the observers are called.  Once the
    heartbeat has stopped nothing is watched, so its set is empty. *)
From S2P Require Import Prelude GoStrings GoText Digest Errors Backoff Ident Batch Envelope Inbox InboxSQL InboxSpec InboxEffects InboxStore InboxBatch InboxBatchStore Middleware Delivery Manifest NatsDLQ NatsSubject NatsTopology NatsConsumer.
Import Stdlib.Strings.String.
Import Sha256 Backoff Delivery Envelope NatsDLQ NatsSubject NatsTopology NatsConsumer.
Open Scope string_scope.
Open Scope Z_scope.
Local Open Scope delivery_scope.

Module NatsBatch.

Definition batchAckParallelism : nat := 16.

(** ** Construction *)
(** The consumer's configuration, its subject and the limits of a batch;
    [supportsBatchAttempts] is the store's answer. *)
Definition newNATSBatchConsumer {B C Mw} (dependencies supports_attempts supportsBatchAttempts : bool) (js_err : option error)
    (descriptor : DescriptorInfo) (config : HandlerConfig B C) (batchConfig : BatchConfig Mw)
  : result error (HandlerConfig B C * string * BatchConfig Mw) :=
  match hc_Middlewares config with
  | _ :: _ => Err (invalid_config "batch consumers reject single-message middleware" [])
  | [] =>
      match newConsumer dependencies supports_attempts js_err descriptor config with
      | Err err => Err err
      | Ok (consumer, subject) =>
          if negb supportsBatchAttempts
          then Err (invalid_config "batch consumer" [ESentinel ErrBatchAttemptTrackingUnsupported])
          else match Normalize batchConfig (hc_Concurrency consumer) with
          | Err err => Err (invalid_config "batch config" [err])
          | Ok normalized => Ok (consumer, subject, normalized)
          end
      end
  end.

(** ** Events *)
(** What is done with one delivery. *)
Inductive devent : Type :=
| DvPublish (subject : string) (p : preparedDLQ) (confirmed : bool)
| DvAck (confirmed : bool)
| DvNak (delay : Duration) (ok : bool).

Inductive nevent : Type :=
| NvFetched (id : nat)                  (** and added to the heartbeat *)
| NvReject (id : nat) (ok : bool)       (** removed from the heartbeat and handed back *)
| NvDelivery (id : nat) (e : devent)
| NvRemove (id : nat)                   (** removed from the heartbeat *)
| NvConfirm (key : Key) (fp : Fingerprint) (ok : bool)
| NvObserve
| NvStop                                (** the heartbeat stops *)
| NvFatal (err : error).

(** ** Answers of the environment *)
(** An answer to [NakWithDelay], whether the context has ended when it fails, and
    whether the wait that follows ends with its timer. *)
Record nakAnswer := { na_err : option error; na_ended : bool; na_fired : bool }.

Record deliveryAnswers := {
  da_clock : nat -> Time;
  da_random : nat -> Z -> option Z;
  da_ack : option error;
  da_ackEnded : bool;                   (** the context has ended when the acknowledgement fails *)
  da_naks : list nakAnswer;
  da_publish : list (publishAnswer * bool);
  da_deadAck : list (option error * bool) }.

(** A pull: an error, or messages and the error of the result. *)
Record fetched := { ft_id : nat; ft_msg : message }.
Record fetchResult := { fr_messages : list fetched; fr_err : option error }.

Record collectAnswers := {
  ca_first : result error fetchResult;
  ca_fill : result error fetchResult;
  ca_started : Time;                    (** clock: [startedAt], the eligibility, [elapsed] *)
  ca_now : Time;
  ca_elapsed : Time;
  ca_fillEnded : bool;                  (** [fillCtx.Err() != nil] after the second pull *)
  ca_reject : nat -> option error }.    (** [NakWithDelay] of a rejected message *)

(** ** One delivery *)
Record lworld := { lw_trace : list devent; lw_reads : nat; lw_draws : nat }.
Definition lworld0 : lworld := {| lw_trace := []; lw_reads := 0; lw_draws := 0 |}.
Definition DM (A : Type) : Type := St lworld A.
Definition emit (e : devent) : DM unit := fun w =>
  ({| lw_trace := (lw_trace w ++ [e])%list; lw_reads := lw_reads w; lw_draws := lw_draws w |}, Val tt).

Record natsBatchFinalOutcome := { fo_item : BatchItemOutcome; fo_failureKind : string; fo_err : option error }.
Record natsBatchFinalizationResult := { fr_observationErr : option error; fr_fatalErr : option error }.
Definition finalization0 : natsBatchFinalizationResult := {| fr_observationErr := None; fr_fatalErr := None |}.
Record natsDLQHandoffResult := { hr_acknowledged : bool; hr_stage : string; hr_err : option error }.

(** The batch consumer acknowledges with the client's own messages. *)
Definition ErrBatchMsgAlreadyAckd : sentinel := ErrForeign "nats.ErrMsgAlreadyAckd".
Definition batch_acked (err : option error) : bool :=
  match err with None => true | Some _ => errors_is err ErrBatchMsgAlreadyAckd end.

Section Local.
Context {B C : Type} (c : HandlerConfig B C) (ctxErr : error) (a : deliveryAnswers).
Context (json_Marshal : DLQRecord -> result error string) (json_Valid : string -> bool) (ToLower : string -> string).

Definition local_clock : DM Time := fun w =>
  ({| lw_trace := lw_trace w; lw_reads := S (lw_reads w); lw_draws := lw_draws w |}, Val (UTC (da_clock a (lw_reads w)))).
Definition local_retryDelay (attempt : Z) : DM Duration := fun w =>
  ({| lw_trace := lw_trace w; lw_reads := lw_reads w; lw_draws := S (lw_draws w) |},
   match nats_retryDelay (da_random a (lw_draws w)) (hc_BaseRetry c) (hc_MaxRetry c) attempt with
   | Some d => Val d
   | None => Crash
   end).
Definition local_wait (attempt : Z) (fired : bool) : DM bool := d <- local_retryDelay attempt ;; mret fired.

(** The result, and whether [heartbeat.Remove] was called. *)
Definition ended : natsBatchFinalizationResult * bool := ({| fr_observationErr := Some ctxErr; fr_fatalErr := Some ctxErr |}, false).

Fixpoint nak_loop (delay : Duration) (l : list nakAnswer) (nakAttempt : Z) : DM (natsBatchFinalizationResult * bool) :=
  match l with
  | [] => fun w => (w, Blocked)
  | x :: rest =>
      emit (DvNak delay (is_nil (na_err x))) ;;;
      if is_nil (na_err x) then mret (finalization0, true)
      else if na_ended x then mret ended
      else again <- local_wait nakAttempt (na_fired x) ;;
           if again then nak_loop delay rest (nakAttempt + 1) else mret ended
  end.

Definition finalizeNATSBatchNonDLQ (o : natsBatchFinalOutcome) : DM (natsBatchFinalizationResult * bool) :=
  match o_Outcome (fo_item o) with
  | BatchACK =>
      emit (DvAck (batch_acked (da_ack a))) ;;;
      mret (if batch_acked (da_ack a) then (finalization0, true)
            else if da_ackEnded a then ended
            else ({| fr_observationErr := da_ack a; fr_fatalErr := None |}, false))
  | BatchRetry | BatchDefer =>
      delay <- (if o_Delay (fo_item o) <=? 0 then local_retryDelay (Z.max 1 (o_Attempt (fo_item o))) else mret (o_Delay (fo_item o))) ;;
      nak_loop delay (da_naks a) 1
  | BatchDLQ | BatchUnset => mret (finalization0, false)
  end.

(** ** Dead letters *)
Fixpoint batch_publish_loop (p : preparedDLQ) (l : list (publishAnswer * bool)) (handoffAttempt : Z) : DM bool :=
  match l with
  | [] => fun w => (w, Blocked)
  | (answer, fired) :: rest =>
      emit (DvPublish (hc_DLQSubject c) p (confirmed answer)) ;;;
      if confirmed answer then mret true
      else again <- local_wait handoffAttempt fired ;;
           if again then batch_publish_loop p rest (handoffAttempt + 1) else mret false
  end.
Fixpoint batch_ack_loop (l : list (option error * bool)) (handoffAttempt : Z) : DM bool :=
  match l with
  | [] => fun w => (w, Blocked)
  | (ackErr, fired) :: rest =>
      emit (DvAck (batch_acked ackErr)) ;;;
      if batch_acked ackErr then mret true
      else again <- local_wait handoffAttempt fired ;;
           if again then batch_ack_loop rest (handoffAttempt + 1) else mret false
  end.

(** [deliveredAttempt] is [natsBatchBrokerAttempt].  A wait that did not end with
    its timer ended with the context, whose error is reported. *)
Definition batch_dlq_record (msg : message) (canonical : string) (deliveredAttempt : Z) (o : natsBatchFinalOutcome) (failedAt : Time) : DLQRecord :=
  {| d_Quarantine := None; d_SpecVersion := DLQSpecVersion; d_ConsumerID := hc_ConsumerID c; d_Subject := msg_Subject msg;
     d_Attempt := Z.max (o_Attempt (fo_item o)) deliveredAttempt; d_FailureKind := fo_failureKind o;
     d_Error := boundedFailureText (Some (fun e => Some (nats_defaultFailureSanitizer e))) (fo_err o) 1024; d_FailedAt := failedAt;
     d_WireMode := hc_WireMode c; d_Envelope := canonical; d_OriginalHeaders := ∅; d_OriginalBase64 := "" |}.

Definition deadLetterAndAcknowledgeNATSBatch (msg : message) (canonical : string) (deliveredAttempt : Z) (o : natsBatchFinalOutcome)
  : DM natsDLQHandoffResult :=
  failedAt <- local_clock ;;
  match prepareDLQ json_Marshal json_Valid ToLower (batch_dlq_record msg canonical deliveredAttempt o failedAt) (msg_Headers msg) (msg_Data msg) with
  | Err err => mret {| hr_acknowledged := false; hr_stage := "prepare"; hr_err := Some err |}
  | Ok prepared =>
      published <- batch_publish_loop prepared (da_publish a) 1 ;;
      if published then
        acknowledged <- batch_ack_loop (da_deadAck a) 1 ;;
        mret (if acknowledged then {| hr_acknowledged := true; hr_stage := ""; hr_err := None |}
              else {| hr_acknowledged := false; hr_stage := "ack"; hr_err := Some ctxErr |})
      else mret {| hr_acknowledged := false; hr_stage := "publish"; hr_err := Some ctxErr |}
  end.

(** The error of a handoff that failed. *)
Definition handoff_error (r : natsDLQHandoffResult) : error :=
  let err := match hr_err r with Some err => err | None => ENew "messenger/nats: batch DLQ handoff failed" end in
  if String.eqb (hr_stage r) "" then err else EFmt ("messenger/nats: batch DLQ [" ++ hr_stage r ++ "]") [err].
End Local.

(** ** Batches *)
Section Batch.
Context {B C T : Type} {collate : string -> string -> bool} `{!InboxBackend B collate, !EnvelopeJSON, !Manifest.MapRange}.
Context (ops : batchOps B).
Context (ctx_Err : C -> B -> option error).
Context (json_Marshal : DLQRecord -> result error string) (json_Valid : string -> bool).
Context (ToLower : string -> string) (EqualFold : string -> string -> bool).
(** Whether the text of an error is that of [jetstream.ErrBatchCompleted]. *)
Context (completed_text : error -> bool).

(** [decodedMessage] with the typed message as an [any]. *)
Record batchDecoded := { nm_metadata : Metadata; nm_canonical : string; nm_value : option (Message T) }.
Definition batchDecoded0 : batchDecoded := {| nm_metadata := Metadata0; nm_canonical := ""; nm_value := None |}.

(** The decoder of native commands and events. *)
Definition decode_native (d : descriptor T) (data : string) : result error batchDecoded :=
  match CanonicalizeEnvelope data with
  | Err err => Err err
  | Ok canonical =>
      match decodeMessage d canonical with
      | Err err => Err err
      | Ok m => Ok {| nm_metadata := m_Metadata m; nm_canonical := canonical; nm_value := Some m |}
      end
  end.

Record natsBatchDelivery := {
  nd_id : nat;
  nd_broker : message;
  nd_metadata : option (Z * Time);
  nd_decoded : batchDecoded;
  nd_decodeErr : option error;
  nd_canonicalBytes : Z;
  nd_attemptGeneration : string }.

Record natsBatch := { nb_deliveries : list natsBatchDelivery; nb_bytes : Z; nb_startedAt : Time }.

(** ** The state of a worker *)
Record nworld := {
  nw_db : DB B;
  nw_streak : Z;                        (** [topLevelStreak], a uint64 *)
  nw_heartbeat : gset nat;              (** [heartbeat.messages] of the current batch *)
  nw_trace : list nevent }.
Definition NM (A : Type) : Type := St nworld A.

Definition with_trace (l : list nevent) (hb : gset nat) (w : nworld) : nworld :=
  {| nw_db := nw_db w; nw_streak := nw_streak w; nw_heartbeat := hb; nw_trace := (nw_trace w ++ l)%list |}.
Definition note (e : nevent) : NM unit := fun w => (with_trace [e] (nw_heartbeat w) w, Val tt).
Definition heartbeat_Add (id : nat) : NM unit := fun w => (with_trace [NvFetched id] ({[id]} ∪ nw_heartbeat w) w, Val tt).
Definition heartbeat_Remove (id : nat) : NM unit := fun w => (with_trace [NvRemove id] (nw_heartbeat w ∖ {[id]}) w, Val tt).
Definition heartbeat_Stop : NM unit := fun w => (with_trace [NvStop] ∅ w, Val tt).
Definition set_ndb (d : DB B) (w : nworld) : nworld :=
  {| nw_db := d; nw_streak := nw_streak w; nw_heartbeat := nw_heartbeat w; nw_trace := nw_trace w |}.
Definition set_streak (f : Z -> Z) : NM Z := fun w =>
  ({| nw_db := nw_db w; nw_streak := f (nw_streak w); nw_heartbeat := nw_heartbeat w; nw_trace := nw_trace w |}, Val (f (nw_streak w))).
(** The computation of one delivery. *)
Definition locally {A} (id : nat) (m : DM A) : NM A := fun w =>
  let '(l, r) := m lworld0 in (with_trace (List.map (NvDelivery id) (lw_trace l)) (nw_heartbeat w) w, r).

(** Every answer that a batch meets. *)
Inductive move : Set := MEnd | MTake (w : nat) | MCheck (w : nat) | MFinish (w : nat) | MLeave (w : nat).
Record batchAnswers := {
  ba_inbox : env;
  ba_now : Time;                        (** the clock before the classification *)
  ba_random : Z -> option Z;            (** the draw of the delay after a top-level error *)
  ba_ctxErr : error;                    (** [ctx.Err()] once the context has ended *)
  ba_delivery : nat -> deliveryAnswers; (** of a message *)
  ba_schedule : list move;
  ba_retention : bool;
  ba_confirm : nat -> option env }.     (** [None]: the confirmation context has ended *)

Section Consumer.
Context (c : HandlerConfig B C) (limits : BatchConfig (@BatchMiddleware B C)).
Context (decode : string -> Header -> Time -> result error batchDecoded) (handler : @BatchHandler B C T).

(** ** Collection *)
Definition decodeNATSBatchDelivery (f : fetched) : natsBatchDelivery :=
  let m := ft_msg f in
  let base metadata decoded err bytes :=
    {| nd_id := ft_id f; nd_broker := m; nd_metadata := metadata; nd_decoded := decoded; nd_decodeErr := err; nd_canonicalBytes := bytes;
       nd_attemptGeneration := replayAttemptGeneration EqualFold (msg_Headers m) (hc_ConsumerID c) |} in
  match msg_Metadata m with
  | Err err => base None batchDecoded0 (Some (EFmt "read JetStream metadata" [err])) (len (msg_Data m))
  | Ok (delivered, timestamp) =>
      match decode (msg_Data m) (msg_Headers m) timestamp with
      | Err err => base (Some (delivered, timestamp)) batchDecoded0 (Some err) (len (msg_Data m))
      | Ok decoded => base (Some (delivered, timestamp)) decoded None (len (nm_canonical decoded))
      end
  end.

Definition natsBatchEligible (metadata : Metadata) (now : Time) : bool :=
  (IsZero (md_ExpiresAt metadata) || After (md_ExpiresAt metadata) now)
  && (IsZero (md_NotBefore metadata) || negb (After (md_NotBefore metadata) now)).

Definition hasNATSBatchConflictingGeneration (deliveries : list natsBatchDelivery) (candidate : natsBatchDelivery) : bool :=
  let m := nm_metadata (nd_decoded candidate) in
  if MessageID_IsZero (md_ID m) then false
  else existsb (fun prev =>
    let p := nm_metadata (nd_decoded prev) in
    String.eqb (md_ID p) (md_ID m) && String.eqb (md_Source p) (md_Source m)
    && negb (String.eqb (nd_attemptGeneration prev) (nd_attemptGeneration candidate))) deliveries.

Definition normalNATSBatchBoundary (ended : bool) (err : option error) : bool :=
  match err with
  | None => true
  | Some e =>
      ended || errors_is err Canceled || errors_is err DeadlineExceeded || errors_is err (ErrForeign "nats.ErrTimeout")
      || errors_is err (ErrForeign "jetstream.ErrBatchCompleted") || completed_text e
  end.

Definition add_delivery (d : natsBatchDelivery) (b : natsBatch) : natsBatch :=
  {| nb_deliveries := (nb_deliveries b ++ [d])%list; nb_bytes := nb_bytes b + nd_canonicalBytes d; nb_startedAt := nb_startedAt b |}.

Section Collect.
Context (a : collectAnswers).
Definition reject (id : nat) : NM unit := fun w =>
  (with_trace [NvReject id (is_nil (ca_reject a id))] (nw_heartbeat w ∖ {[id]}) w, Val tt).

Fixpoint fill_batch (b : natsBatch) (l : list fetched) : NM natsBatch :=
  match l with
  | [] => mret b
  | f :: rest =>
      heartbeat_Add (ft_id f) ;;;
      let delivery := decodeNATSBatchDelivery f in
      if hasNATSBatchConflictingGeneration (nb_deliveries b) delivery then reject (ft_id f) ;;; fill_batch b rest
      else if MaxBytes limits - nb_bytes b <? nd_canonicalBytes delivery then reject (ft_id f) ;;; fill_batch b rest
      else fill_batch (add_delivery delivery b) rest
  end.

Definition collectNATSBatch : NM (result error (option natsBatch)) :=
  match ca_first a with
  | Err err => mret (Err (EFmt "messenger/nats: fetch first batch delivery" [err]))
  | Ok first =>
      match fr_messages first, fr_err first with
      | [], Some err => mret (Err err)
      | [], None => mret (Ok None)
      | f :: _, _ =>
          heartbeat_Add (ft_id f) ;;;
          let delivery := decodeNATSBatchDelivery f in
          let batch := {| nb_deliveries := [delivery]; nb_bytes := nd_canonicalBytes delivery; nb_startedAt := ca_started a |} in
          if negb (is_nil (nd_decodeErr delivery)) || negb (natsBatchEligible (nm_metadata (nd_decoded delivery)) (ca_now a))
             || (MaxMessages limits =? 1) || (MaxBytes limits <=? nb_bytes batch)
          then mret (Ok (Some batch))
          else if MaxWait limits <=? Sub (ca_elapsed a) (ca_started a) then mret (Ok (Some batch))
          else match ca_fill a with
          | Err err =>
              if normalNATSBatchBoundary (ca_fillEnded a) (Some err) then mret (Ok (Some batch))
              else heartbeat_Stop ;;; mret (Err (EFmt "messenger/nats: fill batch" [err]))
          | Ok result =>
              batch <- fill_batch batch (fr_messages result) ;;
              if normalNATSBatchBoundary (ca_fillEnded a) (fr_err result) then mret (Ok (Some batch))
              else heartbeat_Stop ;;; mret (Err (EFmt "messenger/nats: fill batch deliveries" (option_list (fr_err result))))
          end
      end
  end.
End Collect.

(** ** Classification *)
Definition natsBatchBrokerAttempt (d : natsBatchDelivery) : Z :=
  match nd_metadata d with None => 1 | Some (delivered, _) => Z.max 1 delivered end.

Definition toBatchItem (d : natsBatchDelivery) : BatchItem :=
  {| it_Key := {| k_ConsumerID := hc_ConsumerID c; k_Source := md_Source (nm_metadata (nd_decoded d));
                  k_MessageID := md_ID (nm_metadata (nd_decoded d)); k_AttemptGeneration := nd_attemptGeneration d |};
     it_Fingerprint := FingerprintEnvelope (nm_canonical (nd_decoded d)) |}.

Definition item_outcome (key : Key) (fp : Fingerprint) (o : BatchOutcome) (attempt : Z) (delay : Duration) : BatchItemOutcome :=
  {| o_Key := key; o_Fingerprint := fp; o_Outcome := o; o_Attempt := attempt; o_Duplicate := false; o_Delay := delay;
     o_FailureKind := ""; o_Err := None |}.

(** The loop before the Inbox attempt: an outcome, or a delivery for the Inbox. *)
Definition classifyDelivery (now : Time) (d : natsBatchDelivery) : natsBatchFinalOutcome + BatchItem :=
  let item := toBatchItem d in
  let metadata := nm_metadata (nd_decoded d) in
  match nd_decodeErr d with
  | Some err =>
      inl {| fo_item := item_outcome Key0 Fingerprint0 BatchDLQ (natsBatchBrokerAttempt d) 0; fo_failureKind := "decode"; fo_err := Some err |}
  | None =>
      if elapsed (md_ExpiresAt metadata) now then
        inl {| fo_item := item_outcome (it_Key item) (it_Fingerprint item) BatchDLQ (natsBatchBrokerAttempt d) 0;
               fo_failureKind := "expired"; fo_err := Some (ESentinel ErrNatsMessageExpired) |}
      else if after (md_NotBefore metadata) now then
        inl {| fo_item := item_outcome (it_Key item) (it_Fingerprint item) BatchDefer 0 (Sub (md_NotBefore metadata) now);
               fo_failureKind := ""; fo_err := Some (ESentinel ErrNatsMessageNotReady) |}
      else inr item
  end.

(** The map [byItem]: the first delivery of an item. *)
Definition by_item (now : Time) (deliveries : list natsBatchDelivery) (it : BatchItem) : option batchDecoded :=
  nd_decoded <$> List.find (fun d => match classifyDelivery now d with inr it' => bool_decide (it' = it) | inl _ => false end) deliveries.
Definition natsBatchDecodedMessages (active : list BatchItem) (byItem : BatchItem -> option batchDecoded) : result error (list batchDecoded) :=
  match mapM byItem active with
  | None => Err (wrapS ErrInvalidBatchResult "active Inbox item is absent")
  | Some l => Ok l
  end.

(** [c.batch.invoke] and the handler of the Inbox transaction. *)
Definition batch_invoke (ctx : C) (decoded : list batchDecoded) (b : B) : B * (BatchResult * option error) :=
  match mapM nm_value decoded with
  | None => (b, ([], Some (wrapS ErrInvalidBatchResult "decoded batch message type")))
  | Some messages =>
      let i := Invoke ctx_Err (Some ctx) messages (hc_ConsumerID c) (Some handler) (Middlewares limits) (hc_NilPanicReporter c) "" b in
      (iv_host (in_state i), (in_result i, in_err i))
  end.
Definition inbox_batch_handler (ctx : C) (now : Time) (deliveries : list natsBatchDelivery) : InboxBatchHandler B := fun active b =>
  match natsBatchDecodedMessages active (by_item now deliveries) with
  | Err err => (b, ([], Some err))
  | Ok decoded => batch_invoke ctx decoded b
  end.

(** After a top-level error. *)
Definition requeue (outcome : BatchOutcome) (delay : Duration) (err : error) (it : BatchItem) : natsBatchFinalOutcome :=
  {| fo_item := item_outcome (it_Key it) (it_Fingerprint it) outcome 0 delay; fo_failureKind := ""; fo_err := Some err |}.
Definition from_item (o : BatchItemOutcome) : natsBatchFinalOutcome :=
  {| fo_item := o; fo_failureKind := o_FailureKind o; fo_err := o_Err o |}.

(** ** The pool of goroutines for the deliveries without a dead letter *)
(** The index of a task stands for its delivery. *)
Record natsNonDLQTask := { tk_delivery : natsBatchDelivery; tk_outcome : natsBatchFinalOutcome }.
Definition is_dlq (o : natsBatchFinalOutcome) : bool := bool_decide (o_Outcome (fo_item o) = BatchDLQ).
Definition natsNonDLQTasks (deliveries : list natsBatchDelivery) (outcomes : list natsBatchFinalOutcome) : list natsNonDLQTask :=
  List.map (fun x => {| tk_delivery := x.1; tk_outcome := x.2 |}) (List.filter (fun x => negb (is_dlq x.2)) (zip deliveries outcomes)).

(** A goroutine in [runWorker]: at the channel, with a task before the check of
    the context, in the finalization, or returned. *)
Inductive worker : Type := WIdle | WTaken (t : natsNonDLQTask) | WRunning (t : natsNonDLQTask) | WExited.
Record natsNonDLQCoordinator := {
  po_tasks : list natsNonDLQTask;       (** the closed channel *)
  po_workers : list worker;
  po_ended : bool;                      (** the context has ended *)
  po_obsErr : option error;
  po_fatalErr : option error;
  po_heartbeat : gset nat;
  po_log : list nevent }.
Abbreviation pool := natsNonDLQCoordinator.

Section Pool.
Context (ctxErr : error) (answers : nat -> deliveryAnswers).

Definition run_task (t : natsNonDLQTask) : lworld * comp (natsBatchFinalizationResult * bool) :=
  finalizeNATSBatchNonDLQ c ctxErr (answers (nd_id (tk_delivery t))) (tk_outcome t) lworld0.

Definition set_worker (i : nat) (x : worker) (p : pool) : pool :=
  {| po_tasks := po_tasks p; po_workers := <[i := x]> (po_workers p); po_ended := po_ended p; po_obsErr := po_obsErr p;
     po_fatalErr := po_fatalErr p; po_heartbeat := po_heartbeat p; po_log := po_log p |}.
Definition set_tasks (l : list natsNonDLQTask) (p : pool) : pool :=
  {| po_tasks := l; po_workers := po_workers p; po_ended := po_ended p; po_obsErr := po_obsErr p; po_fatalErr := po_fatalErr p;
     po_heartbeat := po_heartbeat p; po_log := po_log p |}.
Definition join_errors (obs fatal : option error) (p : pool) : pool :=
  {| po_tasks := po_tasks p; po_workers := po_workers p; po_ended := po_ended p;
     po_obsErr := match obs with None => po_obsErr p | Some _ => errors_join [po_obsErr p; obs] end;
     po_fatalErr := match fatal with None => po_fatalErr p | Some _ => errors_join [po_fatalErr p; fatal] end;
     po_heartbeat := po_heartbeat p; po_log := po_log p |}.
Definition pool_note (l : list nevent) (hb : gset nat) (p : pool) : pool :=
  {| po_tasks := po_tasks p; po_workers := po_workers p; po_ended := po_ended p; po_obsErr := po_obsErr p; po_fatalErr := po_fatalErr p;
     po_heartbeat := hb; po_log := (po_log p ++ l)%list |}.

(** One step of a goroutine, or the end of the context; [None] when the step is
    not possible.  The events of a finalization are noted when it starts, the
    errors and the removal from the heartbeat when it returns. *)
Definition pool_step (p : pool) (m : move) : option pool :=
  match m with
  | MEnd =>
      if po_ended p then None
      else Some {| po_tasks := po_tasks p; po_workers := po_workers p; po_ended := true; po_obsErr := po_obsErr p;
                   po_fatalErr := po_fatalErr p; po_heartbeat := po_heartbeat p; po_log := po_log p |}
  | MTake i =>
      match po_workers p !! i, po_tasks p with
      | Some WIdle, t :: rest => Some (set_worker i (WTaken t) (set_tasks rest p))
      | _, _ => None
      end
  | MLeave i =>
      match po_workers p !! i, po_tasks p with
      | Some WIdle, [] => Some (set_worker i WExited p)
      | _, _ => None
      end
  | MCheck i =>
      match po_workers p !! i with
      | Some (WTaken t) =>
          if po_ended p
          then Some (set_worker i WExited (match po_fatalErr p with None => join_errors (Some ctxErr) (Some ctxErr) p | Some _ => p end))
          else Some (set_worker i (WRunning t)
                 (pool_note (List.map (NvDelivery (nd_id (tk_delivery t))) (lw_trace (run_task t).1)) (po_heartbeat p) p))
      | _ => None
      end
  | MFinish i =>
      match po_workers p !! i with
      | Some (WRunning t) =>
          match (run_task t).2 with
          | Val (res, removed) =>
              let p := set_worker i WIdle (join_errors (fr_observationErr res) (fr_fatalErr res) p) in
              Some (if (removed : bool)
                    then pool_note [NvRemove (nd_id (tk_delivery t))] (po_heartbeat p ∖ {[nd_id (tk_delivery t)]}) p else p)
          | _ => None
          end
      | _ => None
      end
  end.

(** A schedule; impossible moves are passed over. *)
Fixpoint run_pool (p : pool) (ms : list move) : pool :=
  match ms with
  | [] => p
  | m :: ms => run_pool (default p (pool_step p m)) ms
  end.

Definition exited (x : worker) : bool := match x with WExited => true | _ => false end.
(** [workers.Wait] returns. *)
Definition pool_finished (p : pool) : bool := forallb exited (po_workers p).

Definition start_pool (tasks : list natsNonDLQTask) (hb : gset nat) : pool :=
  {| po_tasks := tasks; po_workers := repeat WIdle (Nat.min batchAckParallelism (List.length tasks)); po_ended := false; po_obsErr := None;
     po_fatalErr := None; po_heartbeat := hb; po_log := [] |}.
End Pool.

(** ** Finalization *)
Section Process.
Context (a : batchAnswers).

Definition finalizeNATSNonDLQDeliveries (b : natsBatch) (outcomes : list natsBatchFinalOutcome) : NM (option error * option error) :=
  match natsNonDLQTasks (nb_deliveries b) outcomes with
  | [] => mret (None, None)
  | tasks => fun w =>
      let p := run_pool (ba_ctxErr a) (ba_delivery a) (start_pool tasks (nw_heartbeat w)) (ba_schedule a) in
      (with_trace (po_log p) (po_heartbeat p) w, if pool_finished p then Val (po_obsErr p, po_fatalErr p) else Blocked)
  end.

Definition terminal_kind (o : natsBatchFinalOutcome) : bool :=
  String.eqb (fo_failureKind o) FailurePermanentKind || String.eqb (fo_failureKind o) FailureAttemptsExhausted.

(** The dead letters, one after the other: the joined errors and the messages
    whose terminal state is to be confirmed. *)
Fixpoint dlq_loop (deliveries : list natsBatchDelivery) (outcomes : list natsBatchFinalOutcome) (err : option error)
    (terminal : list (Key * Fingerprint)) : NM (option error * list (Key * Fingerprint)) :=
  match deliveries, outcomes with
  | d :: deliveries, o :: outcomes =>
      if negb (is_dlq o) then dlq_loop deliveries outcomes err terminal
      else
        res <- locally (nd_id d) (deadLetterAndAcknowledgeNATSBatch c (ba_ctxErr a) (ba_delivery a (nd_id d)) json_Marshal json_Valid ToLower
                                   (nd_broker d) (nm_canonical (nd_decoded d)) (natsBatchBrokerAttempt d) o) ;;
        if hr_acknowledged res then
          heartbeat_Remove (nd_id d) ;;;
          dlq_loop deliveries outcomes err
            (if terminal_kind o then (terminal ++ [(o_Key (fo_item o), o_Fingerprint (fo_item o))])%list else terminal)
        else dlq_loop deliveries outcomes (errors_join [err; Some (handoff_error res)]) terminal
  | _, _ => mret (err, terminal)
  end.

(** The loop over the distinct handoffs until the context ends. *)
Fixpoint confirm_handoffs (n : nat) (l : list (Key * Fingerprint)) : NM unit :=
  match l with
  | [] => mret tt
  | (key, fp) :: rest =>
      match ba_confirm a n with
      | None => mret tt
      | Some e =>
          (fun w => let r := Store_ConfirmTerminalHandoff false key fp (nw_db w) e in
                    note (NvConfirm key fp (is_nil (op_err r))) (set_ndb (op_db r) w)) ;;;
          confirm_handoffs (S n) rest
      end
  end.
Definition confirmNATSTerminalHandoffs (terminal : list (Key * Fingerprint)) : NM unit :=
  if is_empty terminal || negb (ba_retention a) then mret tt
  else confirm_handoffs 0 (List.map fst (Manifest.range
         (list_to_map (M := gmap (Key * Fingerprint) unit) (List.map (fun x => (x, tt)) terminal)))).

Definition finalizeNATSDLQDeliveries (b : natsBatch) (outcomes : list natsBatchFinalOutcome) : NM (option error) :=
  x <- dlq_loop (nb_deliveries b) outcomes None [] ;;
  let '(err, terminal) := (x : option error * list (Key * Fingerprint)) in
  confirmNATSTerminalHandoffs terminal ;;; mret err.

(** The fatal error; the observed one goes to the observers. *)
Definition finalizeNATSBatch (b : natsBatch) (outcomes : list natsBatchFinalOutcome) : NM (option error) :=
  x <- finalizeNATSNonDLQDeliveries b outcomes ;;
  dlqFatalErr <- finalizeNATSDLQDeliveries b outcomes ;;
  mret (errors_join [(x : option error * option error).2; dlqFatalErr]).

(** ** The batch *)
Definition store_batch (items : list BatchItem) (h : InboxBatchHandler B) : NM (BatchProcessResult * option error) := fun w =>
  let r := Store_ProcessBatchAttempt (Some ops) false items (hc_MaxAttempts c) (Some h) (nw_db w) (ba_inbox a) in
  (set_ndb (op_db r) w, Val (op_value r, op_err r)).

Definition batch_retryDelay (attempt : Z) : NM Duration := fun w =>
  (w, match nats_retryDelay (ba_random a) (hc_BaseRetry c) (hc_MaxRetry c) attempt with Some d => Val d | None => Crash end).

(** A list of outcomes that is too short makes the code panic. *)
Definition finalize_assigned (b : natsBatch) (outcomes : option (list natsBatchFinalOutcome)) : NM (option error) :=
  match outcomes with None => fun w => (w, Crash) | Some outcomes => finalizeNATSBatch b outcomes end.

Definition process_body (ctx : C) (b : natsBatch) : NM (option error) :=
  let now := ba_now a in
  let cls := List.map (classifyDelivery now) (nb_deliveries b) in
  match valid_items cls with
  | [] => finalize_assigned b (assign cls [])
  | valid =>
      x <- store_batch valid (inbox_batch_handler ctx now (nb_deliveries b)) ;;
      let '(report, handlerErr) := (x : BatchProcessResult * option error) in
      match handlerErr with
      | Some err =>
          if IsFailClosed handlerErr then mret (Some err)
          else
            streak <- set_streak (fun n => (n + 1) mod 2 ^ 64) ;;
            match DeferDelay handlerErr with
            | Some delay => finalize_assigned b (assign cls (List.map (requeue BatchDefer delay err) valid))
            | None =>
                delay <- match RetryDelay handlerErr with Some d => mret d | None => batch_retryDelay streak end ;;
                finalize_assigned b (assign cls (List.map (requeue BatchRetry delay err) valid))
            end
      | None =>
          set_streak (fun _ => 0) ;;; finalize_assigned b (assign cls (List.map from_item (Items report)))
      end
  end.

(** The deferred calls: the observers, then the end of the heartbeat. *)
Definition processNATSBatch (ctx : C) (b : natsBatch) : NM (option error) :=
  err <- process_body ctx b ;;
  (if hc_HasObservers c then note NvObserve else mret tt) ;;; heartbeat_Stop ;;; mret err.
End Process.

(** ** The loop of a worker *)
Record ntick := {
  nt_admission : bool;                  (** [admissionCtx.Err() == nil] at the head of the loop *)
  nt_collect : collectAnswers;
  nt_ended : bool;                      (** [admissionCtx.Err() != nil] after the collection *)
  nt_answers : batchAnswers }.
Inductive nflow : Type := NContinue | NReturn.

Definition worker_turn (ctx : C) (t : ntick) : NM nflow :=
  if negb (nt_admission t) then mret NReturn
  else
    collected <- collectNATSBatch (nt_collect t) ;;
    match collected with
    | Err err => if normalNATSBatchBoundary (nt_ended t) (Some err) then mret NContinue else note (NvFatal err) ;;; mret NReturn
    | Ok None => mret NContinue
    | Ok (Some b) =>
        err <- processNATSBatch (nt_answers t) ctx b ;;
        match err with
        | None => mret NContinue
        | Some err => note (NvFatal err) ;;; mret NReturn
        end
    end.
Fixpoint worker_turns (ctx : C) (ts : list ntick) : NM nflow :=
  match ts with
  | [] => mret NContinue
  | t :: ts => f <- worker_turn ctx t ;; match f with NContinue => worker_turns ctx ts | NReturn => mret NReturn end
  end.

(** A run of finitely many turns. *)
Definition runNATSBatchWorker (ctx : C) (d : DB B) (ts : list ntick) : nworld * comp nflow :=
  worker_turns ctx ts {| nw_db := d; nw_streak := 0; nw_heartbeat := ∅; nw_trace := [] |}.
End Consumer.
End Batch.
Arguments batchDecoded : clear implicits.
Arguments natsBatchDelivery : clear implicits.
Arguments natsBatch : clear implicits.
Arguments natsNonDLQTask : clear implicits.
Arguments natsNonDLQCoordinator : clear implicits.
Arguments worker : clear implicits.
Arguments nworld : clear implicits.
End NatsBatch.
