(* ===== verification/NatsBatchPool.v ===== *)
(** * The goroutines that settle a NATS batch

    The protocol that each delivery of a batch follows, from the pull to its
    answer; what the computation of one delivery does; and the pool of goroutines:
    whatever the schedule, each task is finalized at most once, the pool ends, and
    without a fatal error no task is forgotten. *)
From S2P Require Import Prelude GoStrings GoText Digest Errors Backoff Ident Batch Envelope Inbox InboxSQL InboxSpec InboxEffects InboxStore InboxBatch InboxBatchStore Middleware Delivery Manifest NatsDLQ NatsSubject NatsTopology NatsConsumer NatsDelivery NatsBatch.
Import Stdlib.Strings.String.
Import Sha256 Backoff Delivery Envelope NatsDLQ NatsSubject NatsConsumer NatsBatch.
Open Scope string_scope.
Open Scope Z_scope.

Module NatsBatchPool.

(** ** The protocol of one delivery *)
Inductive bphase : Type :=
| Waiting
| Nacking                       (** no negative acknowledgement was sent yet *)
| Nacked                        (** left with the broker for a later redelivery *)
| Lost                          (** the acknowledgement failed; the broker delivers again *)
| Acked
| Publishing (p : preparedDLQ)  (** the dead letter is not confirmed yet *)
| HandedOff (p : preparedDLQ)   (** the dead letter is stored, the message not acknowledged *)
| Dead (p : preparedDLQ).       (** and acknowledged *)

Definition next (ph : bphase) (e : devent) : option bphase :=
  match ph, e with
  | Waiting, DvAck b => Some (if b then Acked else Lost)
  | Waiting, DvNak _ b | Nacking, DvNak _ b => Some (if b then Nacked else Nacking)
  | Waiting, DvPublish _ p b => Some (if b then HandedOff p else Publishing p)
  | Publishing p, DvPublish _ q b => if decide (p = q) then Some (if b then HandedOff p else Publishing p) else None
  | HandedOff p, DvAck b => Some (if b then Dead p else HandedOff p)
  | _, _ => None
  end.
Fixpoint follow (ph : bphase) (l : list devent) : option bphase :=
  match l with
  | [] => Some ph
  | e :: l => match next ph e with Some ph' => follow ph' l | None => None end
  end.
Lemma follow_app ph l k : follow ph (l ++ k) = match follow ph l with Some ph' => follow ph' k | None => None end.
Proof. revert ph. induction l as [|e l IH]; intros ph; cbn; [done|]. by destruct (next ph e). Qed.

(** The broker has its answer. *)
Definition answered (ph : bphase) : bool := match ph with Nacked | Acked | Dead _ => true | _ => false end.
(** The consumer is done with the delivery. *)
Definition concluded (ph : bphase) : Prop := match ph with Nacked | Acked | Lost | Dead _ => True | _ => False end.

(** Where a message stands: not pulled; in progress, with or without the
    heartbeat; handed back by the collection. *)
Inductive status : Type := Unseen | Held (ph : bphase) (watched : bool) | Refused (ok : bool).

(** The heartbeat leaves a delivery only when it has its answer. *)
Definition track1 (id : nat) (st : status) (e : nevent) : option status :=
  match e, st with
  | NvFetched i, _ => if decide (i = id) then match st with Unseen => Some (Held Waiting true) | _ => None end else Some st
  | NvReject i ok, _ => if decide (i = id) then match st with Held Waiting true => Some (Refused ok) | _ => None end else Some st
  | NvDelivery i e, _ =>
      if decide (i = id) then match st with
        | Held ph true => match next ph e with Some ph' => Some (Held ph' true) | None => None end
        | _ => None end
      else Some st
  | NvRemove i, _ =>
      if decide (i = id) then match st with Held ph true => if answered ph then Some (Held ph false) else None | _ => None end else Some st
  | _, _ => Some st
  end.
Fixpoint track (id : nat) (st : status) (l : list nevent) : option status :=
  match l with
  | [] => Some st
  | e :: l => match track1 id st e with Some st' => track id st' l | None => None end
  end.

Lemma track_app id st l k : track id st (l ++ k) = match track id st l with Some st' => track id st' k | None => None end.
Proof. revert st. induction l as [|e l IH]; intros st; cbn; [done|]. by destruct (track1 id st e). Qed.

Definition owner (e : nevent) : option nat :=
  match e with NvFetched i | NvReject i _ | NvDelivery i _ | NvRemove i => Some i | _ => None end.
(** Nothing happens to [id]. *)
Definition silent (id : nat) (l : list nevent) : Prop := Forall (fun e => owner e <> Some id) l.

Lemma track1_other id st e : owner e <> Some id -> track1 id st e = Some st.
Proof. destruct e; cbn; intros He; try done; rewrite decide_False by congruence; done. Qed.
Lemma track_silent id st l : silent id l -> track id st l = Some st.
Proof. induction 1 as [|e l He Hl IH]; cbn; [done|]. by rewrite track1_other. Qed.
Lemma track_delivery id ph l : track id (Held ph true) (List.map (NvDelivery id) l) = (fun ph' => Held ph' true) <$> follow ph l.
Proof. revert ph. induction l as [|e l IH]; intros ph; cbn; [done|]. rewrite decide_True by done. destruct (next ph e); cbn; [apply IH|done]. Qed.
Lemma track_remove id ph : answered ph = true -> track id (Held ph true) [NvRemove id] = Some (Held ph false).
Proof. intros H. cbn. by rewrite decide_True, H. Qed.

Lemma silent_app id l k : silent id (l ++ k) <-> silent id l /\ silent id k.
Proof. apply Forall_app. Qed.
Lemma silent_delivery id i l : i <> id -> silent id (List.map (NvDelivery i) l).
Proof. intros Hi. apply Forall_fmap, Forall_forall. intros e _ [= ->]. done. Qed.
Lemma silent_one id e : owner e <> Some id -> silent id [e].
Proof. intros. by repeat constructor. Qed.

(** ** The computation of one delivery *)
Section Local.
Context {B C : Type} (c : HandlerConfig B C) (ctxErr : error) (a : deliveryAnswers).
Context (json_Marshal : DLQRecord -> result error string) (json_Valid : string -> bool) (ToLower : string -> string).

Definition at_phase (ph : bphase) (w : lworld) : Prop := follow Waiting (lw_trace w) = Some ph.

Lemma at_emit ph ph' e Q : next ph e = Some ph' -> triple (at_phase ph) (emit e) (pending Q (fun _ => at_phase ph')).
Proof. intros He w Hw. unfold at_phase in *. cbn. by rewrite follow_app, Hw; cbn; rewrite He. Qed.
Lemma at_delay ph n : triple (at_phase ph) (local_retryDelay c a n) (pending (at_phase ph) (fun _ => at_phase ph)).
Proof. intros w Hw. unfold local_retryDelay. cbn. by destruct (nats_retryDelay _ _ _ _). Qed.
Lemma at_wait ph n fired : triple (at_phase ph) (local_wait c a n fired) (pending (at_phase ph) (fun _ => at_phase ph)).
Proof. eapply triple_bind; [apply at_delay|]. intros ?. by apply triple_ret. Qed.

(** What the finalization of a delivery may leave, by its outcome. *)
Definition non_dlq_phase (o : natsBatchFinalOutcome) (ph : bphase) : Prop :=
  match ph with
  | Waiting => True
  | Acked | Lost => o_Outcome (fo_item o) = BatchACK
  | Nacking | Nacked => o_Outcome (fo_item o) = BatchRetry \/ o_Outcome (fo_item o) = BatchDefer
  | _ => False
  end.
Definition finalized (o : natsBatchFinalOutcome) (x : natsBatchFinalizationResult * bool) (w : lworld) : Prop :=
  exists ph, at_phase ph w /\ non_dlq_phase o ph /\ (x.2 = true -> answered ph = true) /\
    (fr_fatalErr x.1 = None -> o_Outcome (fo_item o) <> BatchUnset -> o_Outcome (fo_item o) <> BatchDLQ -> concluded ph).
Definition underway (o : natsBatchFinalOutcome) (w : lworld) : Prop := exists ph, at_phase ph w /\ non_dlq_phase o ph.

Lemma nak_loop_ok o delay l : o_Outcome (fo_item o) = BatchRetry \/ o_Outcome (fo_item o) = BatchDefer -> forall n ph,
  ph = Waiting \/ ph = Nacking ->
  triple (at_phase ph) (nak_loop c ctxErr a delay l n) (pending (underway o) (finalized o)).
Proof.
  intros Ho. induction l as [|x l IH]; intros n ph Hph; cbn [nak_loop].
  { intros w Hw. exists ph. by destruct Hph as [-> | ->]. }
  eapply triple_bind; [apply at_emit with (ph' := if is_nil (na_err x) then Nacked else Nacking); by destruct Hph as [-> | ->]|]. intros ?.
  destruct (is_nil (na_err x)); [apply triple_ret; intros w Hw; by exists Nacked|].
  assert (triple (at_phase Nacking) (mret (ended ctxErr)) (pending (underway o) (finalized o))) as Hend
    by (apply triple_ret; intros w Hw; by exists Nacking).
  destruct (na_ended x); [done|]. eapply triple_bind.
  { eapply triple_weaken; [apply at_wait|done|intros w Hw; by exists Nacking|done]. }
  intros [|]; [apply IH; by right|done].
Qed.

Lemma finalize_ok o : triple (at_phase Waiting) (finalizeNATSBatchNonDLQ c ctxErr a o) (pending (underway o) (finalized o)).
Proof.
  unfold finalizeNATSBatchNonDLQ.
  assert (forall z n, triple (at_phase Waiting) (if z <=? 0 then local_retryDelay c a n else mret z)
    (pending (underway o) (fun _ => at_phase Waiting))) as Hdelay.
  { intros z n. destruct (z <=? 0); [|by apply triple_ret].
    eapply triple_weaken; [apply at_delay|done|intros w Hw; by exists Waiting|done]. }
  destruct (o_Outcome (fo_item o)) eqn:Eo.
  1,5: apply triple_ret; intros w Hw; exists Waiting; split_and!; [done..|by rewrite Eo].
  - eapply triple_bind; [by apply at_emit|]. intros ?. apply triple_ret. intros w Hw. unfold finalized.
    destruct (batch_acked (da_ack a)); [by exists Acked|]. exists Lost. by destruct (da_ackEnded a).
  - eapply triple_bind; [apply Hdelay|]. intros delay. apply nak_loop_ok; by auto.
  - eapply triple_bind; [apply Hdelay|]. intros delay. apply nak_loop_ok; by auto.
Qed.

(** The broker takes the message back, or the wait for it is given up. *)
Definition nak_ends (x : nakAnswer) : Prop := na_err x = None \/ na_ended x = true \/ na_fired x = false.

Section Returns.
Context (Hretry : 0 < hc_BaseRetry c <= hc_MaxRetry c) (Hmax : hc_MaxRetry c < maxInt64).
Lemma local_delay_returns n w : exists w' z, local_retryDelay c a n w = (w', Val z).
Proof using Hretry Hmax.
  unfold local_retryDelay. destruct (nats_retryDelay_total (da_random a (lw_draws w)) (hc_BaseRetry c) (hc_MaxRetry c) n Hretry Hmax) as [z ->]. by eexists _, _.
Qed.
Lemma nak_loop_returns delay l : Exists nak_ends l -> forall n w, exists w' x, nak_loop c ctxErr a delay l n w = (w', Val x).
Proof using Hretry Hmax.
  intros Hl. assert (forall x rest, nak_ends x \/ (forall n w, exists w' y, nak_loop c ctxErr a delay rest n w = (w', Val y)) ->
    forall n w, exists w' y, nak_loop c ctxErr a delay (x :: rest) n w = (w', Val y)) as Hstep.
  { intros x rest Hx n w. cbn [nak_loop]. unfold mbind. cbn [emit]. destruct (is_nil (na_err x)) eqn:En; [by eexists _, _|].
    destruct (na_ended x) eqn:Ee; [by eexists _, _|]. unfold local_wait, mbind.
    match goal with |- context [local_retryDelay c a n ?w0] => destruct (local_delay_returns n w0) as (w1 & z & ->) end. cbn.
    destruct (na_fired x) eqn:Ef; [|by eexists _, _]. destruct Hx as [[Hx|[Hx|Hx]]|Hx]; [by rewrite Hx in En|congruence|congruence|apply Hx]. }
  induction Hl as [x l Hx|x l Hl IH]; apply Hstep; auto.
Qed.
Lemma finalize_returns o : Exists nak_ends (da_naks a) -> forall w, exists w' x, finalizeNATSBatchNonDLQ c ctxErr a o w = (w', Val x).
Proof using Hretry Hmax.
  intros Hn w. unfold finalizeNATSBatchNonDLQ, mbind. destruct (o_Outcome (fo_item o)); try by eexists _, _.
  all: destruct (_ <=? 0); [destruct (local_delay_returns (Z.max 1 (o_Attempt (fo_item o))) w) as (w1 & z & ->)|]; by apply nak_loop_returns.
Qed.
End Returns.

(** ** The dead letter of one delivery *)
Context (msg : message).
Abbreviation carries := (NatsDelivery.carries json_Marshal ToLower c msg).

Definition dead_phase (ph : bphase) : Prop :=
  match ph with Waiting => True | Publishing p | HandedOff p | Dead p => carries p | _ => False end.
Definition handing (w : lworld) : Prop := exists ph, at_phase ph w /\ dead_phase ph.
Definition handed (x : natsDLQHandoffResult) (w : lworld) : Prop :=
  exists ph, at_phase ph w /\ dead_phase ph /\ (hr_acknowledged x = true -> exists p, ph = Dead p).

Lemma batch_publish_ok p l : carries p -> forall n ph, ph = Waiting \/ ph = Publishing p ->
  triple (at_phase ph) (batch_publish_loop c a p l n)
    (pending handing (fun (b : bool) w => if b then at_phase (HandedOff p) w else handing w)).
Proof.
  intros Hp. induction l as [|[answer fired] l IH]; intros n ph Hph; cbn [batch_publish_loop].
  { intros w Hw. exists ph. by destruct Hph as [-> | ->]. }
  eapply triple_bind.
  { apply at_emit with (ph' := if confirmed answer then HandedOff p else Publishing p). destruct Hph as [-> | ->]; cbn; [done|].
    by rewrite decide_True. }
  intros ?. destruct (confirmed answer); [by apply triple_ret|]. eapply triple_bind.
  { eapply triple_weaken; [apply at_wait|done|intros w Hw; by exists (Publishing p)|done]. }
  intros [|]; [apply IH; by right|]. apply triple_ret. intros w Hw. by exists (Publishing p).
Qed.
Lemma batch_ack_ok p l : carries p -> forall n,
  triple (at_phase (HandedOff p)) (batch_ack_loop c a l n)
    (pending handing (fun (b : bool) => at_phase (if b then Dead p else HandedOff p))).
Proof.
  intros Hp. induction l as [|[e fired] l IH]; intros n; cbn [batch_ack_loop]; [intros w Hw; by exists (HandedOff p)|].
  eapply triple_bind; [by apply at_emit|]. intros ?. destruct (batch_acked e); [by apply triple_ret|]. eapply triple_bind.
  { eapply triple_weaken; [apply at_wait|done|intros w Hw; by exists (HandedOff p)|done]. }
  intros [|]; [apply IH|]. by apply triple_ret.
Qed.

Context (Hconsumer : hc_ConsumerID c <> "") (Hmode : WireMode_valid (hc_WireMode c) = true) (Hsubject : msg_Subject msg <> "").
Context (Hclock : forall n, da_clock a n <> 0).

Lemma batch_prepared canonical attempt o t p : 1 <= attempt -> t <> 0 ->
  prepareDLQ json_Marshal json_Valid ToLower (batch_dlq_record c msg canonical attempt o t) (msg_Headers msg) (msg_Data msg) = Ok p -> carries p.
Proof.
  intros Ha Ht Hp. pose proof (prepareDLQ_ok json_Marshal json_Valid ToLower (batch_dlq_record c msg canonical attempt o t)
    (msg_Headers msg) (msg_Data msg)) as H. rewrite Hp in H. destruct H as (r & E1 & E2 & E3 & E4 & E5).
  { split_and!; try done. cbn. lia. }
  destruct E4 as (F1 & F2 & _). exists r. by split_and!.
Qed.

Lemma batch_deadLetter_ok canonical attempt o : 1 <= attempt ->
  triple (at_phase Waiting) (deadLetterAndAcknowledgeNATSBatch c ctxErr a json_Marshal json_Valid ToLower msg canonical attempt o)
    (pending handing handed).
Proof.
  intros Ha. unfold deadLetterAndAcknowledgeNATSBatch.
  eapply triple_bind with (R := fun t w => at_phase Waiting w /\ t <> 0); [intros w Hw; split; [done|apply Hclock]|].
  intros t w [Hw Ht]. revert w Hw. destruct (prepareDLQ _ _ _ _ _ _) as [p|err] eqn:Ep.
  2:{ apply triple_ret. intros w Hw. by exists Waiting. }
  apply batch_prepared in Ep; [|done..]. eapply triple_bind; [apply batch_publish_ok; [done|by left]|]. intros [|].
  - eapply triple_bind; [by apply batch_ack_ok|]. intros [|]; apply triple_ret; intros w Hw; [exists (Dead p)|by exists (HandedOff p)].
    split_and!; [done..|]. by exists p.
  - apply triple_ret. intros w (ph & Hw & Hp). by exists ph.
Qed.
End Local.

(** ** The pool *)
Lemma omap_insert {A X} (f : A -> option X) (l : list A) i x y : l !! i = Some x ->
  option_list (f x) ++ omap f (<[i := y]> l) ≡ₚ option_list (f y) ++ omap f l.
Proof.
  revert i. induction l as [|z l IH]; intros [|i] Hi; [done..| |].
  - injection Hi as ->. cbn. destruct (f x), (f y); cbn; try done. apply Permutation_swap.
  - cbn. specialize (IH i Hi). destruct (f z) as [u|]; [|done]. cbn in *. rewrite <- !Permutation_middle. by rewrite IH.
Qed.

Section Pool.
Context {B C T : Type} (c : HandlerConfig B C) (ctxErr : error) (answers : nat -> deliveryAnswers).
Abbreviation task := (natsNonDLQTask T).
Abbreviation pool := (natsNonDLQCoordinator T).
Implicit Types (t : task) (p : pool).

Definition tid (t : task) : nat := nd_id (tk_delivery t).
Definition taken (x : worker T) : option task := match x with WTaken t => Some t | _ => None end.
Definition running (x : worker T) : option task := match x with WRunning t => Some t | _ => None end.
Abbreviation run := (run_task c ctxErr answers).
Abbreviation step := (pool_step c ctxErr answers).
Definition phase_of (t : task) : bphase := default Waiting (follow Waiting (lw_trace (run t).1)).

Lemma run_task_ok t : follow Waiting (lw_trace (run t).1) = Some (phase_of t) /\ non_dlq_phase (tk_outcome t) (phase_of t) /\
  forall x, (run t).2 = Val x -> (x.2 = true -> answered (phase_of t) = true) /\
    (fr_fatalErr x.1 = None -> o_Outcome (fo_item (tk_outcome t)) <> BatchUnset -> o_Outcome (fo_item (tk_outcome t)) <> BatchDLQ ->
     concluded (phase_of t)).
Proof.
  pose proof (finalize_ok c ctxErr (answers (nd_id (tk_delivery t))) (tk_outcome t) lworld0 eq_refl) as H. fold (run t) in H. unfold phase_of.
  destruct (run t) as [w [x| |]]; cbn in *; unfold finalized, underway, at_phase in H.
  - destruct H as (ph & E & H1 & H2 & H3). rewrite E. cbn. split_and!; [done..|]. intros y [= <-]. done.
  - destruct H as (ph & E & H1). rewrite E. by split_and!.
  - destruct H as (ph & E & H1). rewrite E. by split_and!.
Qed.

(** Where the log leaves a task. *)
Definition stands (log : list nevent) (st : status) (t : task) : Prop := track (tid t) (Held Waiting true) log = Some st.

Lemma stands_other log l st t : silent (tid t) l -> stands log st t -> stands (log ++ l) st t.
Proof. unfold stands. intros Hl Ht. by rewrite track_app, Ht, track_silent. Qed.
Lemma Forall_stands (P Q : task -> Prop) log l id ts : (forall i, i <> id -> silent i l) -> id ∉ List.map tid ts ->
  (forall t, (forall st, stands log st t -> stands (log ++ l) st t) -> P t -> Q t) -> Forall P ts -> Forall Q ts.
Proof.
  intros Hl Hid Himp Hts. apply Forall_forall. intros t Ht. rewrite Forall_forall in Hts. apply Himp; [|by apply Hts].
  intros st. apply stands_other, Hl. intros <-. apply Hid. by apply list_elem_of_fmap_2.
Qed.

Section Run.
Context (tasks : list task) (Hids : NoDup (List.map tid tasks)).

(** The tasks are in the channel, with a goroutine, done, or dropped when the
    context had ended. *)
Record pool_inv (p : pool) (finished dropped : list task) : Prop := {
  pi_tasks : tasks ≡ₚ po_tasks p ++ omap taken (po_workers p) ++ omap running (po_workers p) ++ finished ++ dropped;
  pi_untouched : Forall (stands (po_log p) (Held Waiting true)) (po_tasks p ++ omap taken (po_workers p) ++ dropped);
  pi_running : Forall (fun t => stands (po_log p) (Held (phase_of t) true) t) (omap running (po_workers p));
  pi_finished : Forall (fun t => exists x, (run t).2 = Val x /\ stands (po_log p) (Held (phase_of t) (negb x.2)) t /\
    (fr_fatalErr x.1 <> None -> po_fatalErr p <> None)) finished;
  pi_dropped : dropped <> [] -> po_fatalErr p <> None;
  pi_exited : existsb exited (po_workers p) = true -> po_tasks p = [] \/ po_fatalErr p <> None;
  pi_others : forall id, id ∉ List.map tid tasks -> silent id (po_log p) }.

Lemma exited_insert (ws : list (worker T)) i x y : ws !! i = Some x -> existsb exited (<[i := y]> ws) = true ->
  exited y = true \/ existsb exited ws = true.
Proof.
  intros Hi (z & Hz%list_elem_of_In & Ez)%existsb_exists. apply list_elem_of_lookup in Hz as [j Hj].
  destruct (decide (i = j)) as [<-|Hne].
  - rewrite list_lookup_insert_eq in Hj by (by eapply lookup_lt_Some). injection Hj as <-. by left.
  - rewrite list_lookup_insert_ne in Hj by done. right. apply existsb_exists. exists z. split; [|done].
    by apply list_elem_of_In, list_elem_of_lookup_2 with j.
Qed.

Lemma join_fatal obs fatal p : po_fatalErr p <> None \/ fatal <> None -> po_fatalErr (join_errors obs fatal p) <> None.
Proof. intros H. cbn. destruct fatal; [by destruct (po_fatalErr p)|]. by destruct H. Qed.

Lemma inv_take p D X i t rest : pool_inv p D X -> po_workers p !! i = Some WIdle -> po_tasks p = t :: rest ->
  pool_inv (set_worker i (WTaken t) (set_tasks rest p)) D X.
Proof.
  intros [P U R F Dr E O] Hi Et. pose proof (omap_insert taken _ i _ (WTaken t) Hi) as Hk.
  pose proof (omap_insert running _ i _ (WTaken t) Hi) as Hr. cbn in Hk, Hr. rewrite Et in *.
  constructor; cbn [set_worker set_tasks po_tasks po_workers po_log po_fatalErr]; try done.
  - rewrite P, Hk, Hr. cbn. by rewrite <- Permutation_middle.
  - rewrite Hk. cbn. rewrite <- Permutation_middle. exact U.
  - by rewrite Hr.
  - intros Hx. destruct (exited_insert _ _ _ _ Hi Hx) as [?|Hx']; [done|]. destruct (E Hx') as [|]; [done|by right].
Qed.

Lemma inv_leave p D X i : pool_inv p D X -> po_workers p !! i = Some WIdle -> po_tasks p = [] -> pool_inv (set_worker i WExited p) D X.
Proof.
  intros [P U R F Dr E O] Hi Et. pose proof (omap_insert taken _ i _ WExited Hi) as Hk.
  pose proof (omap_insert running _ i _ WExited Hi) as Hr. cbn in Hk, Hr.
  constructor; cbn [set_worker po_tasks po_workers po_log po_fatalErr]; try done.
  - by rewrite P, Hk, Hr.
  - by rewrite Hk.
  - by rewrite Hr.
  - intros _. by left.
Qed.

(** A goroutine that finds the context ended returns with its task. *)
Lemma inv_drop p D X i t : pool_inv p D X -> po_workers p !! i = Some (WTaken t) ->
  pool_inv (set_worker i WExited (match po_fatalErr p with None => join_errors (Some ctxErr) (Some ctxErr) p | Some _ => p end)) D (t :: X).
Proof.
  intros [P U R F Dr E O] Hi. pose proof (omap_insert taken _ i _ WExited Hi) as Hk.
  pose proof (omap_insert running _ i _ WExited Hi) as Hr. cbn in Hk, Hr.
  set (q := match po_fatalErr p with None => _ | Some _ => p end).
  assert (po_fatalErr q <> None) as Hq by (unfold q; destruct (po_fatalErr p) eqn:Ep; [by rewrite Ep|by apply join_fatal; right]).
  assert (po_tasks q = po_tasks p /\ po_workers q = po_workers p /\ po_log q = po_log p) as (E1 & E2 & E3)
    by (unfold q; by destruct (po_fatalErr p)).
  clearbody q. constructor; cbn [set_worker po_tasks po_workers po_log po_fatalErr]; rewrite ?E1, ?E2, ?E3; try done.
  - rewrite P, Hr, <- Hk. cbn. by rewrite !Permutation_middle.
  - rewrite <- !Permutation_middle. rewrite <- Hk in U. cbn in U. by rewrite <- Permutation_middle in U.
  - by rewrite Hr.
  - eapply Forall_impl; [exact F|]. intros t' (x & ? & ? & _). by exists x.
  - intros _. by right.
Qed.

(** The task of one goroutine is no other's. *)
Lemma distinct_task t others : tasks ≡ₚ t :: others -> tid t ∉ List.map tid others.
Proof using Hids.
  intros H. pose proof Hids as Hn. assert (List.map tid tasks ≡ₚ List.map tid (t :: others)) as E by by apply Permutation_map.
  rewrite E in Hn. by apply NoDup_cons in Hn as [? _].
Qed.

Lemma inv_begin p D X i t : pool_inv p D X -> po_workers p !! i = Some (WTaken t) ->
  pool_inv (set_worker i (WRunning t)
    (pool_note (List.map (NvDelivery (nd_id (tk_delivery t))) (lw_trace (run t).1)) (po_heartbeat p) p)) D X.
Proof using Hids.
  intros [P U R F Dr E O] Hi. pose proof (omap_insert taken _ i _ (WRunning t) Hi) as Hk.
  pose proof (omap_insert running _ i _ (WRunning t) Hi) as Hr. cbn in Hk, Hr. fold (tid t).
  set (K' := omap taken (<[i := WRunning t]> (po_workers p))) in *. rewrite <- Hk in P, U.
  assert (tasks ≡ₚ t :: (po_tasks p ++ K' ++ omap running (po_workers p) ++ D ++ X)) as Ht
    by (rewrite P; cbn; by rewrite <- !Permutation_middle).
  pose proof (distinct_task t _ Ht) as Hout. rewrite !map_app, !not_elem_of_app in Hout. destruct Hout as (H1 & H2 & H3 & H4 & H5).
  set (l := List.map (NvDelivery (tid t)) (lw_trace (run t).1)).
  assert (forall j, j <> tid t -> silent j l) as Hl by (intros j Hj; by apply silent_delivery).
  assert (stands (po_log p ++ l) (Held (phase_of t) true) t) as Hst.
  { cbn in U. rewrite <- Permutation_middle in U. apply Forall_cons in U as [Hu _]. unfold stands in *. rewrite track_app, Hu.
    unfold l. rewrite track_delivery. by rewrite (proj1 (run_task_ok t)). }
  cbn in U. rewrite <- Permutation_middle in U. apply Forall_cons in U as [_ U].
  constructor; cbn [set_worker pool_note po_tasks po_workers po_log po_fatalErr]; fold K'.
  - rewrite Ht, Hr. cbn. by rewrite <- !Permutation_middle.
  - refine (Forall_stands _ _ (po_log p) l (tid t) _ Hl _ _ U); [by rewrite !map_app, !not_elem_of_app|by auto].
  - rewrite Hr. constructor; [done|]. refine (Forall_stands _ _ (po_log p) l (tid t) _ Hl _ _ R); by auto.
  - refine (Forall_stands _ _ (po_log p) l (tid t) _ Hl _ _ F); [done|]. intros t' Hs (x & ? & ? & ?). exists x. auto.
  - exact Dr.
  - intros Hx. destruct (exited_insert _ _ _ _ Hi Hx) as [?|Hx']; [done|auto].
  - intros id Hid. apply silent_app. split; [by apply O|]. apply Hl. intros ->. apply Hid. rewrite Ht. cbn. by left.
Qed.

Lemma inv_finish p D X i t res removed : pool_inv p D X -> po_workers p !! i = Some (WRunning t) -> (run t).2 = Val (res, removed) ->
  let q := set_worker i WIdle (join_errors (fr_observationErr res) (fr_fatalErr res) p) in
  pool_inv (if removed then pool_note [NvRemove (nd_id (tk_delivery t))] (po_heartbeat q ∖ {[nd_id (tk_delivery t)]}) q else q) (t :: D) X.
Proof using Hids.
  intros [P U R F Dr E O] Hi Hres q. pose proof (omap_insert taken _ i _ WIdle Hi) as Hk.
  pose proof (omap_insert running _ i _ WIdle Hi) as Hr. cbn in Hk, Hr. fold (tid t).
  set (R' := omap running (<[i := WIdle]> (po_workers p))) in *. rewrite <- Hr in P, R. apply Forall_cons in R as [Ht0 R].
  assert (tasks ≡ₚ t :: (po_tasks p ++ omap taken (po_workers p) ++ R' ++ D ++ X)) as Ht
    by (rewrite P; cbn; by rewrite <- !Permutation_middle).
  pose proof (distinct_task t _ Ht) as Hout. rewrite !map_app, !not_elem_of_app in Hout. destruct Hout as (H1 & H2 & H3 & H4 & H5).
  set (l := if removed then [NvRemove (tid t)] else []).
  assert (forall j, j <> tid t -> silent j l) as Hl by (intros j Hj; unfold l; destruct removed; [apply silent_one; cbn; congruence|constructor]).
  assert (stands (po_log p ++ l) (Held (phase_of t) (negb removed)) t) as Hst.
  { unfold stands in *. rewrite track_app, Ht0. unfold l. destruct removed; [|done].
    apply track_remove. by apply (proj2 (proj2 (run_task_ok t)) _ Hres). }
  assert (forall fatal, po_fatalErr p <> None \/ fr_fatalErr res <> None -> fatal = po_fatalErr q -> fatal <> None) as Hfatal
    by (intros fatal Hf ->; by apply join_fatal).
  set (q' := if removed then _ else q).
  assert (po_tasks q' = po_tasks p /\ po_workers q' = <[i := WIdle]> (po_workers p) /\ po_log q' = (po_log p ++ l)%list /\
    po_fatalErr q' = po_fatalErr q) as (E1 & E2 & E3 & E4)
    by (unfold q', l, q; destruct removed; cbn; by rewrite ?app_nil_r).
  clearbody q'. constructor; rewrite ?E1, ?E2, ?E3, ?E4; fold R'.
  - rewrite Ht, Hk. cbn. by rewrite <- !Permutation_middle.
  - rewrite Hk. refine (Forall_stands _ _ (po_log p) l (tid t) _ Hl _ _ U); [by rewrite !map_app, !not_elem_of_app|by auto].
  - refine (Forall_stands _ _ (po_log p) l (tid t) _ Hl _ _ R); by auto.
  - constructor; [by exists (res, removed); split_and!; auto; intros ?; eapply Hfatal; auto|].
    refine (Forall_stands _ _ (po_log p) l (tid t) _ Hl _ _ F); [done|]. intros t' Hs (x & ? & ? & ?). exists x. split_and!; [done|auto|].
    intros ?. eapply Hfatal; [|done]. left. auto.
  - intros Hx. eapply Hfatal; [|done]. left. auto.
  - intros Hx. destruct (exited_insert _ _ _ _ Hi Hx) as [?|Hx']; [done|]. destruct (E Hx'); [by left|right]. eapply Hfatal; auto.
  - intros id Hid. apply silent_app. split; [by apply O|]. apply Hl. intros ->. apply Hid. rewrite Ht. cbn. by left.
Qed.

Lemma inv_end p D X : pool_inv p D X ->
  pool_inv {| po_tasks := po_tasks p; po_workers := po_workers p; po_ended := true; po_obsErr := po_obsErr p; po_fatalErr := po_fatalErr p;
              po_heartbeat := po_heartbeat p; po_log := po_log p |} D X.
Proof. by intros []. Qed.

Lemma pool_inv_step p q m D X : pool_inv p D X -> step p m = Some q -> exists D' X', pool_inv q D' X'.
Proof using Hids.
  intros Hp. destruct m as [|i|i|i|i]; cbn.
  - destruct (po_ended p); [done|]. intros [= <-]. exists D, X. by apply inv_end.
  - destruct (po_workers p !! i) as [[]|] eqn:Hi; try done. destruct (po_tasks p) as [|t rest] eqn:Et; [done|].
    intros [= <-]. exists D, X. by apply inv_take.
  - destruct (po_workers p !! i) as [[|t| |]|] eqn:Hi; try done. destruct (po_ended p); intros [= <-].
    + exists D, (t :: X). by apply inv_drop.
    + exists D, X. by apply inv_begin.
  - destruct (po_workers p !! i) as [[| |t|]|] eqn:Hi; try done. destruct (run t).2 as [[res removed]| |] eqn:Er; try done.
    intros [= <-]. exists (t :: D), X. by apply inv_finish.
  - destruct (po_workers p !! i) as [[]|] eqn:Hi; try done. destruct (po_tasks p) as [|t rest] eqn:Et; [|done].
    intros [= <-]. exists D, X. by apply inv_leave.
Qed.

Lemma omap_repeat_idle {A} (f : worker T -> option A) n : f WIdle = None -> omap f (repeat WIdle n) = [].
Proof. intros Hf. induction n as [|n IH]; cbn; [done|]. by rewrite Hf. Qed.

Lemma inv_run ms : forall p D X, pool_inv p D X -> exists D' X', pool_inv (run_pool c ctxErr answers p ms) D' X'.
Proof using Hids.
  induction ms as [|m ms IH]; intros p D X Hp; cbn; [by exists D, X|]. destruct (step p m) as [q|] eqn:E; cbn; [|by eapply IH].
  destruct (pool_inv_step p q m D X Hp E) as (D' & X' & Hq). by eapply IH.
Qed.
Lemma inv_start hb : pool_inv (start_pool tasks hb) [] [].
Proof.
  constructor; unfold start_pool; cbn [po_tasks po_workers po_log po_fatalErr]; rewrite ?omap_repeat_idle by done; try done.
  - by rewrite !app_nil_r.
  - rewrite !app_nil_r. apply Forall_forall. intros t Ht. done.
  - generalize (Nat.min batchAckParallelism (List.length tasks)). intros n H. exfalso. induction n; [done|]. by apply IHn.
  - intros id _. constructor.
Qed.

Lemma step_workers p q m : step p m = Some q -> List.length (po_workers q) = List.length (po_workers p).
Proof.
  destruct m as [|i|i|i|i]; cbn; intros H; repeat case_match; simplify_eq; cbn; rewrite ?length_insert; done.
Qed.
Lemma run_workers ms : forall p, List.length (po_workers (run_pool c ctxErr answers p ms)) = List.length (po_workers p).
Proof.
  induction ms as [|m ms IH]; intros p; cbn; [done|]. rewrite IH. destruct (step p m) eqn:E; cbn; [by eapply step_workers|done].
Qed.

Lemma finished_workers (ws : list (worker T)) : forallb exited ws = true ->
  omap taken ws = [] /\ omap running ws = [] /\ (ws <> [] -> existsb exited ws = true).
Proof.
  induction ws as [|x ws IH]; cbn; [done|]. intros [Hx H]%andb_true_iff. destruct (IH H) as (-> & -> & _). by destruct x.
Qed.

(** When every goroutine has returned without a fatal error. *)
Lemma pool_done hb ms : tasks <> [] -> let p := run_pool c ctxErr answers (start_pool tasks hb) ms in
  pool_finished p = true -> po_fatalErr p = None ->
  Forall (fun t => exists x, (run t).2 = Val x /\ stands (po_log p) (Held (phase_of t) (negb x.2)) t /\ fr_fatalErr x.1 = None) tasks.
Proof using Hids.
  intros Hne p Hfin Hnone. destruct (inv_run ms _ _ _ (inv_start hb)) as (D & X & [P _ _ F Dr E _]). fold p in P, F, Dr, E.
  destruct (finished_workers _ Hfin) as (Hk & Hr & He). rewrite Hk, Hr in P. cbn in P.
  assert (po_workers p <> []) as Hws.
  { intros Hnil. pose proof (run_workers ms (start_pool tasks hb)) as Hlen. fold p in Hlen. rewrite Hnil in Hlen. cbn [List.length] in Hlen.
    unfold start_pool in Hlen. cbn [po_workers] in Hlen. rewrite repeat_length in Hlen. destruct tasks; [done|]. by cbn in Hlen. }
  destruct (E (He Hws)) as [Hq|?]; [|done]. rewrite Hq in P. destruct X as [|x X]; [|by destruct Dr]. rewrite app_nil_r in P. cbn in P.
  rewrite P. eapply Forall_impl; [exact F|]. intros t (x & ? & ? & Hx). exists x. split_and!; [done..|].
  destruct (fr_fatalErr x.1); [|done]. by destruct Hx.
Qed.

(** At any time a task is untouched or its finalization was started once. *)
Lemma pool_tasks hb ms t : t ∈ tasks -> let p := run_pool c ctxErr answers (start_pool tasks hb) ms in
  stands (po_log p) (Held Waiting true) t \/ exists watched, stands (po_log p) (Held (phase_of t) watched) t.
Proof using Hids.
  intros Ht p. destruct (inv_run ms _ _ _ (inv_start hb)) as (D & X & [P U R F _ _ _]). fold p in P, U, R, F.
  rewrite !Forall_app in U. destruct U as (U1 & U2 & U3). rewrite Forall_forall in U1, U2, U3, R, F.
  rewrite P, !elem_of_app in Ht. destruct Ht as [Ht|[Ht|[Ht|[Ht|Ht]]]]; [left; by apply U1|left; by apply U2| | |left; by apply U3].
  - right. exists true. by apply R.
  - right. destruct (F t Ht) as (x & _ & Hx & _). by eexists.
Qed.

(** ** The pool ends *)
Definition load (x : worker T) : nat := match x with WIdle => 1 | WTaken _ => 3 | WRunning _ => 2 | WExited => 0 end.
Fixpoint loads (ws : list (worker T)) : nat := match ws with [] => 0 | x :: ws => load x + loads ws end.
Definition weight (p : pool) : nat :=
  3 * List.length (po_tasks p) + loads (po_workers p) + (if po_ended p then 0 else 1).

Lemma load_insert (ws : list (worker T)) i x y : ws !! i = Some x ->
  (loads (<[i := y]> ws) + load x = loads ws + load y)%nat.
Proof.
  revert i. induction ws as [|z ws IH]; intros [|i] Hi; [done..| |].
  - injection Hi as ->. change (<[0%nat := y]> (x :: ws)) with (y :: ws). cbn [loads]. lia.
  - specialize (IH i Hi). change (<[S i := y]> (z :: ws)) with (z :: <[i := y]> ws). cbn [loads]. lia.
Qed.

Lemma step_weight p q m : step p m = Some q -> (S (weight q) <= weight p)%nat.
Proof.
  unfold weight. destruct m as [|i|i|i|i]; cbn [pool_step].
  - destruct (po_ended p); [done|]. intros [= <-]. cbn. lia.
  - destruct (po_workers p !! i) as [[]|] eqn:Hi; try done. destruct (po_tasks p) as [|t rest] eqn:Et; [done|].
    intros [= <-]. cbn. pose proof (load_insert _ i _ (WTaken t) Hi) as Hl. cbn in Hl. lia.
  - destruct (po_workers p !! i) as [[|t| |]|] eqn:Hi; try done. destruct (po_ended p) eqn:Ee; intros [= <-].
    + pose proof (load_insert _ i _ WExited Hi) as Hl. cbn in Hl. destruct (po_fatalErr p); cbn; rewrite Ee; lia.
    + pose proof (load_insert _ i _ (WRunning t) Hi) as Hl. cbn in Hl |- *. rewrite Ee. lia.
  - destruct (po_workers p !! i) as [[| |t|]|] eqn:Hi; try done. destruct (run t).2 as [[res removed]| |] eqn:Er; try done.
    pose proof (load_insert _ i _ WIdle Hi) as Hl. cbn in Hl. intros [= <-]. destruct removed; cbn; lia.
  - destruct (po_workers p !! i) as [[]|] eqn:Hi; try done. destruct (po_tasks p) as [|t rest] eqn:Et; [|done].
    intros [= <-]. pose proof (load_insert _ i _ WExited Hi) as Hl. cbn in Hl |- *. rewrite Et. cbn. lia.
Qed.

(** A schedule of which every move is possible. *)
Fixpoint moves (p : pool) (ms : list move) : Prop :=
  match ms with
  | [] => True
  | m :: ms => exists q, step p m = Some q /\ moves q ms
  end.
Lemma moves_bounded ms : forall p, moves p ms -> (List.length ms <= weight p)%nat.
Proof.
  induction ms as [|m ms IH]; intros p; cbn [moves List.length]; [lia|]. intros (q & Hq & Hms). specialize (IH q Hms). pose proof (step_weight _ _ _ Hq). lia.
Qed.

Lemma start_weight hb : weight (start_pool tasks hb) = (3 * List.length tasks + Nat.min batchAckParallelism (List.length tasks) + 1)%nat.
Proof.
  unfold weight, start_pool. cbn [po_tasks po_workers po_ended]. generalize (Nat.min batchAckParallelism (List.length tasks)). intros n.
  assert (loads (repeat WIdle n) = n) as -> by (induction n as [|n IH]; cbn; [done|by rewrite IH]). lia.
Qed.

Lemma pool_live hb ms : let p := run_pool c ctxErr answers (start_pool tasks hb) ms in
  pool_finished p = false -> (forall t, t ∈ tasks -> exists x, (run t).2 = Val x) -> exists m q, m <> MEnd /\ step p m = Some q.
Proof using Hids.
  intros p Hfin Hret. destruct (inv_run ms _ _ _ (inv_start hb)) as (D & X & [P _ _ _ _ _ _]). fold p in P.
  assert (exists x, x ∈ po_workers p /\ exited x = false) as (x & Hx & Ex).
  { unfold pool_finished in Hfin. clear -Hfin. induction (po_workers p) as [|x ws IH]; [done|]. cbn in Hfin.
    destruct (exited x) eqn:Ex; [|exists x; split; [by left|done]]. destruct (IH Hfin) as (y & ? & ?). exists y. split; [by right|done]. }
  apply list_elem_of_lookup in Hx as [i Hi]. destruct x as [|t|t|]; [| | |done].
  - destruct (po_tasks p) as [|t rest] eqn:Et; [exists (MLeave i)|exists (MTake i)]; eexists; (split; [done|]); cbn; by rewrite Hi, Et.
  - exists (MCheck i). cbn. rewrite Hi. destruct (po_ended p); eexists; (split; [done|reflexivity]).
  - exists (MFinish i). cbn. rewrite Hi. destruct (Hret t) as [[res removed] ->]; [|by eexists].
    rewrite P, !elem_of_app. right. right. left. apply list_elem_of_omap. exists (WRunning t). split; [|done]. by eapply list_elem_of_lookup_2.
Qed.
End Run.
End Pool.

(** C20. The pool that acknowledges and hands back the deliveries of a batch, for
    every schedule of its goroutines, every moment at which the context ends and all
    answers of the broker.  The goroutines take at most three steps per task (take
    it, start its finalization, end it), one each to leave, and one step is the end
    of the context; how many requests a finalization makes is not bounded by this,
    since a negative acknowledgement is repeated until it is accepted or the context
    ends.  A task is untouched, or its finalization ran once; when the pool returns
    without a fatal error every task was finalized: acknowledged, handed back, or
    its acknowledgement failed.  If every delivery has an answer at which that
    repetition ends, and the maximum retry delay is below the largest duration, then
    some goroutine can take a step until all have returned. *)
Theorem nats_batch_pool {B C T} (c : HandlerConfig B C) ctxErr answers (tasks : list (natsNonDLQTask T)) hb :
  NoDup (List.map tid tasks) ->
  let n := List.length tasks in
  (forall ms, moves c ctxErr answers (start_pool tasks hb) ms -> (List.length ms <= 3 * n + Nat.min batchAckParallelism n + 1)%nat) /\
  forall ms, let p := run_pool c ctxErr answers (start_pool tasks hb) ms in
    (forall t, t ∈ tasks -> stands (po_log p) (Held Waiting true) t \/
       exists watched, stands (po_log p) (Held (phase_of c ctxErr answers t) watched) t) /\
    (pool_finished p = true -> po_fatalErr p = None -> forall t, t ∈ tasks ->
       (exists watched, stands (po_log p) (Held (phase_of c ctxErr answers t) watched) t) /\
       (o_Outcome (fo_item (tk_outcome t)) <> BatchUnset -> o_Outcome (fo_item (tk_outcome t)) <> BatchDLQ ->
        concluded (phase_of c ctxErr answers t))) /\
    (0 < hc_BaseRetry c <= hc_MaxRetry c -> hc_MaxRetry c < maxInt64 ->
     Forall (fun t => Exists nak_ends (da_naks (answers (tid t)))) tasks ->
     pool_finished p = false -> exists m q, m <> MEnd /\ pool_step c ctxErr answers p m = Some q).
Proof.
  intros Hids n. split; [|intros ms p; split_and!].
  - intros ms Hms. apply moves_bounded in Hms. by rewrite start_weight in Hms.
  - intros t Ht. by apply pool_tasks.
  - intros Hfin Hnone t Ht. assert (tasks <> []) as Hne by (intros ->; by apply not_elem_of_nil in Ht).
    pose proof (pool_done c ctxErr answers tasks Hids hb ms Hne Hfin Hnone) as Hd. rewrite Forall_forall in Hd.
    destruct (Hd t Ht) as (x & Hx & Hst & Hf). split; [by eexists|]. intros Hu Hq. by apply (proj2 (proj2 (run_task_ok c ctxErr answers t)) x Hx).
  - intros Hretry Hmax Hnak Hfin. apply pool_live; [done|done|]. intros t Ht. rewrite Forall_forall in Hnak.
    destruct (finalize_returns c ctxErr (answers (tid t)) Hretry Hmax (tk_outcome t) (Hnak t Ht) lworld0) as (w' & x & E).
    exists x. unfold run_task. unfold tid in E. by rewrite E.
Qed.
End NatsBatchPool.
