(* ===== verification/NatsBatchProofs.v ===== *)
(** * What becomes of a NATS batch

    The collection keeps the limits and hands back what it does not take; every
    delivery of a batch is settled as its outcome says; and a run of the worker
    loses no message. *)
From S2P Require Import Prelude GoStrings GoText Digest Errors Backoff Ident Batch Envelope Inbox InboxSQL InboxSpec InboxEffects InboxStore InboxBatch InboxBatchSpec InboxBatchStore InboxBatchTheorems Middleware Delivery Manifest NatsDLQ NatsSubject NatsTopology NatsConsumer NatsDelivery NatsBatch NatsBatchPool.
Import Stdlib.Strings.String.
Import Sha256 Backoff Delivery Envelope NatsDLQ NatsSubject NatsConsumer NatsBatch NatsBatchPool.
Open Scope string_scope.
Open Scope Z_scope.

Module NatsBatchProofs.

(** ** The deliveries of a batch *)
Section Batch.
Context {B C T : Type} {collate : string -> string -> bool} `{!InboxBackend B collate, !EnvelopeJSON, !Manifest.MapRange}.
Context (ops : batchOps B) `{!BatchBackend ops}.
Context (ctx_Err : C -> B -> option error).
Context (json_Marshal : DLQRecord -> result error string) (json_Valid : string -> bool).
Context (ToLower : string -> string) (EqualFold : string -> string -> bool) (completed_text : error -> bool).
Context (c : HandlerConfig B C) (limits : BatchConfig (@BatchMiddleware B C)).
Context (decode : string -> Header -> Time -> result error (batchDecoded T)) (handler : @BatchHandler B C T).
Abbreviation delivery := (natsBatchDelivery T).
Abbreviation world := (nworld B).
Abbreviation carries := (NatsDelivery.carries json_Marshal ToLower c).

Definition key_of (x : delivery) : Key := it_Key (toBatchItem c x).
Definition readable (x : delivery) : Prop := nd_decodeErr x = None.

(** What JetStream guarantees, an identifier of sixteen bytes and no digest
    collision. *)
Definition delivery_ok (x : delivery) : Prop :=
  msg_Subject (nd_broker x) <> "" /\
  (readable x -> MessageID_wf (md_ID (nm_metadata (nd_decoded x))) /\ collision_free (key_of x) (it_Fingerprint (toBatchItem c x))).

(** What an outcome says of the delivery. *)
Definition settles (d : DB B) (x : delivery) (o : natsBatchFinalOutcome) : Prop :=
  match o_Outcome (fo_item o) with
  | BatchACK => readable x /\ completed (key_id (key_of x)) d = true
  | BatchRetry | BatchDefer => readable x
  | BatchDLQ => terminal_kind o = true -> readable x /\ o_Key (fo_item o) = key_of x /\ o_Fingerprint (fo_item o) = it_Fingerprint (toBatchItem c x)
  | BatchUnset => False
  end.

(** What a phase says of it. *)
Definition phase_ok (d : DB B) (x : delivery) (ph : bphase) : Prop :=
  match ph with
  | Waiting => True
  | Acked | Lost => readable x /\ completed (key_id (key_of x)) d = true
  | Nacking | Nacked => readable x
  | Publishing p | HandedOff p | Dead p => carries (nd_broker x) p
  end.

Lemma classify_settles now d (x : delivery) o : classifyDelivery c now x = inl o -> settles d x o.
Proof.
  unfold classifyDelivery. destruct (nd_decodeErr x) eqn:E; [by intros [= <-]|]. destruct (elapsed _ _); [by intros [= <-]|].
  destruct (after _ _); [by intros [= <-]|done].
Qed.
Lemma classify_item now (x : delivery) it : classifyDelivery c now x = inr it -> readable x /\ it = toBatchItem c x.
Proof.
  unfold classifyDelivery, readable. destruct (nd_decodeErr x); [done|]. destruct (elapsed _ _); [done|]. destruct (after _ _); [done|].
  by intros [= <-].
Qed.
Lemma report_settles d x o : readable x -> reported (hc_MaxAttempts c) d (toBatchItem c x) o -> settles d x (from_item o).
Proof. intros Hx (HK & HF & Ho). unfold settles. cbn. by destruct (o_Outcome o). Qed.
Lemma requeue_settles d x outcome delay err : readable x -> outcome = BatchRetry \/ outcome = BatchDefer ->
  settles d x (requeue outcome delay err (toBatchItem c x)).
Proof. intros Hx [-> | ->]; done. Qed.

Lemma non_dlq_settles d x o ph : settles d x o -> non_dlq_phase o ph -> phase_ok d x ph.
Proof.
  unfold settles. destruct ph; cbn; try done; intros Hs Ho; try destruct Ho as [Ho|Ho]; rewrite Ho in Hs; done.
Qed.
Lemma dead_phase_ok d x ph : dead_phase c json_Marshal ToLower (nd_broker x) ph -> phase_ok d x ph.
Proof. by destruct ph. Qed.

(** ** The tasks of the pool *)
Lemma elem_tasks (ds : list delivery) os t : t ∈ natsNonDLQTasks ds os <->
  (tk_delivery t, tk_outcome t) ∈ zip ds os /\ is_dlq (tk_outcome t) = false.
Proof.
  unfold natsNonDLQTasks. rewrite list_elem_of_In, in_map_iff. split.
  - intros ([x o] & <- & [Hin%list_elem_of_In Hf]%filter_In). cbn in *. by apply negb_true_iff in Hf.
  - intros [Hin Hf]. exists (tk_delivery t, tk_outcome t). split; [by destruct t|]. apply filter_In. cbn. rewrite Hf. by split; [apply list_elem_of_In|].
Qed.
Lemma tasks_ids (ds : list delivery) os : List.map tid (natsNonDLQTasks ds os) `sublist_of` List.map nd_id ds.
Proof.
  unfold natsNonDLQTasks. revert os. induction ds as [|x ds IH]; intros os; cbn; [done|]. destruct os as [|o os]; cbn; [by apply sublist_nil_l|].
  specialize (IH os). destruct (negb (is_dlq o)); cbn; [by apply sublist_skip|by apply sublist_cons].
Qed.

Lemma zip_settles d (ds : list delivery) os x o : Forall2 (settles d) ds os -> (x, o) ∈ zip ds os -> settles d x o.
Proof.
  intros Hs Hin. apply elem_of_lookup_zip_with in Hin as (i & x' & o' & [= <- <-] & Hx & Ho). by eapply Forall2_lookup_lr in Hs.
Qed.
Lemma zip_same (ds : list delivery) (os : list natsBatchFinalOutcome) x o x' o' : NoDup (List.map nd_id ds) ->
  (x, o) ∈ zip ds os -> (x', o') ∈ zip ds os -> nd_id x = nd_id x' -> x = x' /\ o = o'.
Proof.
  intros Hnd (i & y & z & [= <- <-] & Hi & Ho)%elem_of_lookup_zip_with (j & y' & z' & [= <- <-] & Hj & Ho')%elem_of_lookup_zip_with E.
  assert (i = j) as <-; [|by simplify_eq]. eapply NoDup_lookup; [exact Hnd|by rewrite list_lookup_fmap, Hi|].
  rewrite list_lookup_fmap, Hj. cbn. by rewrite E.
Qed.

(** Where a list of events leaves a delivery. *)
Definition goes (l : list nevent) (x : delivery) (ph : bphase) : Prop := exists watched, track (nd_id x) (Held Waiting true) l = Some (Held ph watched).

Lemma goes_after l k x ph : silent (nd_id x) l -> goes k x ph -> goes (l ++ k) x ph.
Proof. intros Hl [w Hk]. exists w. by rewrite track_app, track_silent. Qed.
Lemma goes_before l k x ph : silent (nd_id x) k -> goes l x ph -> goes (l ++ k) x ph.
Proof. intros Hk [w Hl]. exists w. by rewrite track_app, Hl, track_silent. Qed.
Lemma goes_silent l x : silent (nd_id x) l -> goes l x Waiting.
Proof. intros Hl. exists true. by rewrite track_silent. Qed.

Section Answers.
Context (a : batchAnswers) (Hclock : forall id n, da_clock (ba_delivery a id) n <> 0).
Context (Hconsumer : hc_ConsumerID c <> "") (Hmode : WireMode_valid (hc_WireMode c) = true).

(** The pool on the deliveries of a batch. *)
Section NonDLQ.
Context (ds : list delivery) (os : list natsBatchFinalOutcome) (d : DB B) (hb : gset nat).
Context (Hs : Forall2 (settles d) ds os) (Hnd : NoDup (List.map nd_id ds)).
Abbreviation tasks := (natsNonDLQTasks ds os).
Abbreviation final := (run_pool c (ba_ctxErr a) (ba_delivery a) (start_pool tasks hb) (ba_schedule a)).

Lemma tasks_nodup : NoDup (List.map tid tasks).
Proof. eapply sublist_NoDup; [exact Hnd|apply tasks_ids]. Qed.
Lemma pool_silent id : id ∉ List.map tid tasks -> silent id (po_log final).
Proof.
  destruct (inv_run c (ba_ctxErr a) (ba_delivery a) tasks tasks_nodup (ba_schedule a) _ _ _ (inv_start c (ba_ctxErr a) (ba_delivery a) tasks hb))
    as (D & X & Hinv). apply (pi_others _ _ _ _ _ _ _ Hinv).
Qed.
Lemma pool_dlq_silent x o : (x, o) ∈ zip ds os -> is_dlq o = true -> silent (nd_id x) (po_log final).
Proof.
  intros Hin Eo. apply pool_silent. intros (t & Hx & [Ht Hf]%elem_tasks)%list_elem_of_fmap.
  destruct (zip_same ds os _ _ _ _ Hnd Hin Ht Hx) as [_ E]. congruence.
Qed.
Lemma pool_goes x o : (x, o) ∈ zip ds os -> is_dlq o = false ->
  exists ph, goes (po_log final) x ph /\ phase_ok d x ph /\ (pool_finished final = true -> po_fatalErr final = None -> concluded ph).
Proof.
  intros Hin Eo. set (t := {| tk_delivery := x; tk_outcome := o |} : natsNonDLQTask T).
  assert (t ∈ tasks) as Ht by by apply elem_tasks. pose proof (zip_settles _ _ _ _ _ Hs Hin) as Hset.
  destruct (run_task_ok c (ba_ctxErr a) (ba_delivery a) t) as (_ & Hph & Hval).
  pose proof (non_dlq_settles _ _ _ _ Hset Hph) as Hok.
  destruct (pool_finished final) eqn:Efin; [destruct (po_fatalErr final) eqn:Efat|].
  2:{ assert (tasks <> []) as Hne by (intros E; rewrite E in Ht; by apply not_elem_of_nil in Ht).
      pose proof (pool_done c (ba_ctxErr a) (ba_delivery a) tasks tasks_nodup hb (ba_schedule a) Hne Efin Efat) as Hd.
      rewrite Forall_forall in Hd. destruct (Hd t Ht) as (y & Hy & Hst & Hf). eexists. split_and!; [by eexists|exact Hok|].
      intros _ _. apply (Hval y Hy); [done| |by apply bool_decide_eq_false in Eo]. intros E. unfold settles in Hset.
      change (o_Outcome (fo_item o) = BatchUnset) in E. by rewrite E in Hset. }
  all: destruct (pool_tasks c (ba_ctxErr a) (ba_delivery a) tasks tasks_nodup hb (ba_schedule a) t Ht) as [Hst|[watched Hst]];
    eexists; (split; [by eexists|]); done.
Qed.
End NonDLQ.

Lemma non_dlq_ok b os d (w : world) : Forall2 (settles d) (nb_deliveries b) os -> NoDup (List.map nd_id (nb_deliveries b)) ->
  let r := finalizeNATSNonDLQDeliveries c a b os w in
  exists l, nw_db r.1 = nw_db w /\ nw_trace r.1 = (nw_trace w ++ l)%list /\
    (forall id, id ∉ List.map nd_id (nb_deliveries b) -> silent id l) /\
    (forall x o, (x, o) ∈ zip (nb_deliveries b) os ->
       if is_dlq o then silent (nd_id x) l else exists ph, goes l x ph /\ phase_ok d x ph /\ (forall obs, r.2 = Val (obs, None) -> concluded ph)).
Proof.
  intros Hs Hnd. unfold finalizeNATSNonDLQDeliveries. pose proof (pool_silent _ os (nw_heartbeat w) Hnd) as H1.
  pose proof (pool_dlq_silent _ os (nw_heartbeat w) Hnd) as H2. pose proof (pool_goes _ _ _ (nw_heartbeat w) Hs Hnd) as H3.
  pose proof (tasks_ids (nb_deliveries b) os) as Hsub. pose proof (elem_tasks (nb_deliveries b) os) as Hel.
  set (tasks := natsNonDLQTasks _ _) in *. clearbody tasks. destruct tasks as [|t ts].
  - cbn. exists []. rewrite app_nil_r. split_and!; [done..|intros; constructor|]. intros x o Hin.
    destruct (is_dlq o) eqn:Eo; [constructor|]. destruct (Hel {| tk_delivery := x; tk_outcome := o |}) as [_ Hx].
    by apply not_elem_of_nil in Hx.
  - cbv zeta. cbn [fst snd nw_db nw_trace with_trace]. eexists. split_and!; [done..| |].
    + intros id Hid. apply H1. intros Hin. apply Hid. by eapply elem_of_sublist.
    + intros x o Hin. destruct (is_dlq o) eqn:Eo; [by eapply H2|]. destruct (H3 x o Hin Eo) as (ph & Hg & Hp & Hc). exists ph. split_and!; [done..|].
      intros obs. destruct (pool_finished _); [|done]. intros [= _ E]. auto.
Qed.

(** ** The dead letters *)
(** What the events do with a delivery in the loop. *)
Definition dead_lettered (l : list nevent) (x : delivery) (o : natsBatchFinalOutcome) : Prop :=
  if is_dlq o then exists ph, goes l x ph /\ dead_phase c json_Marshal ToLower (nd_broker x) ph else silent (nd_id x) l.
Definition died (l : list nevent) (x : delivery) : Prop := exists p, goes l x (Dead p).
(** A message whose terminal state may be confirmed. *)
Definition terminal_of (l : list nevent) (zs : list (delivery * natsBatchFinalOutcome)) (k : Key * Fingerprint) : Prop :=
  exists x o, (x, o) ∈ zs /\ is_dlq o = true /\ terminal_kind o = true /\ k = (o_Key (fo_item o), o_Fingerprint (fo_item o)) /\ died l x.

Lemma local_dead (x : delivery) o (w : world) : msg_Subject (nd_broker x) <> "" ->
  let r := locally (nd_id x) (deadLetterAndAcknowledgeNATSBatch c (ba_ctxErr a) (ba_delivery a (nd_id x)) json_Marshal json_Valid ToLower
             (nd_broker x) (nm_canonical (nd_decoded x)) (natsBatchBrokerAttempt x) o) w in
  exists l ph, nw_db r.1 = nw_db w /\ nw_trace r.1 = (nw_trace w ++ l)%list /\ (forall id, id <> nd_id x -> silent id l) /\
    track (nd_id x) (Held Waiting true) l = Some (Held ph true) /\ dead_phase c json_Marshal ToLower (nd_broker x) ph /\
    (forall res, r.2 = Val res -> hr_acknowledged res = true -> exists p, ph = Dead p).
Proof using Hclock Hconsumer Hmode.
  intros Hsub. unfold locally.
  assert (1 <= natsBatchBrokerAttempt x) as Hn by (unfold natsBatchBrokerAttempt; destruct (nd_metadata x) as [[]|]; lia).
  pose proof (batch_deadLetter_ok c (ba_ctxErr a) (ba_delivery a (nd_id x)) json_Marshal json_Valid ToLower (nd_broker x) Hconsumer Hmode Hsub
    (Hclock (nd_id x)) (nm_canonical (nd_decoded x)) (natsBatchBrokerAttempt x) o Hn lworld0 eq_refl) as Hdead.
  destruct (deadLetterAndAcknowledgeNATSBatch _ _ _ _ _ _ _ _ _ _ lworld0) as [lw [res| |]]; cbn in Hdead |- *;
    [destruct Hdead as (ph & Hph & Hd & Hack)|destruct Hdead as (ph & Hph & Hd)..];
    exists (List.map (NvDelivery (nd_id x)) (lw_trace lw)), ph; unfold at_phase in Hph.
  all: split_and!; try done; try (intros id Hid; by apply silent_delivery); try (rewrite track_delivery, Hph; done).
  intros ? [= <-]. done.
Qed.

Lemma dead_nothing x o : dead_lettered [] x o.
Proof using. unfold dead_lettered. destruct (is_dlq o); [|constructor]. exists Waiting. split; [by exists true|done]. Qed.

Lemma zip_id (ds : list delivery) (os : list natsBatchFinalOutcome) x o : (x, o) ∈ zip ds os -> nd_id x ∈ List.map nd_id ds.
Proof. intros (i & y & z & [= <- <-] & Hi & _)%elem_of_lookup_zip_with. apply list_elem_of_fmap_2. by eapply list_elem_of_lookup_2. Qed.

(** The events [l] of a delivery come before those of the rest of the loop. *)
Section Turn.
Context (x : delivery) (o : natsBatchFinalOutcome) (ds : list delivery) (os : list natsBatchFinalOutcome) (l k : list nevent).
Context (Hx : nd_id x ∉ List.map nd_id ds) (Hl : forall id, id <> nd_id x -> silent id l).
Context (Hk : forall id, id ∉ List.map nd_id ds -> silent id k).

Lemma turn_silent id : id ∉ List.map nd_id (x :: ds) -> silent id (l ++ k).
Proof using Hl Hk. cbn. intros [H1 H2]%not_elem_of_cons. apply silent_app. auto. Qed.
Lemma turn_others y z : (y, z) ∈ zip ds os -> silent (nd_id y) l.
Proof using Hx Hl. intros Hin%zip_id. apply Hl. by intros E; rewrite E in Hin. Qed.
Lemma turn_dead ph : is_dlq o = true -> goes l x ph -> dead_phase c json_Marshal ToLower (nd_broker x) ph ->
  (forall y z, (y, z) ∈ zip ds os -> dead_lettered k y z) -> forall y z, (y, z) ∈ zip (x :: ds) (o :: os) -> dead_lettered (l ++ k) y z.
Proof using Hx Hl Hk.
  intros Ho Hg Hp Hd y z. cbn. intros [[= -> ->]|Hin]%elem_of_cons.
  - unfold dead_lettered. rewrite Ho. exists ph. split; [apply goes_before; auto|done].
  - pose proof (turn_others y z Hin) as Hs. specialize (Hd y z Hin). unfold dead_lettered in *. destruct (is_dlq z); [|by apply silent_app].
    destruct Hd as (ph' & ? & ?). exists ph'. split; [by apply goes_after|done].
Qed.
Lemma turn_died y z : (y, z) ∈ zip ds os -> died k y -> died (l ++ k) y.
Proof using Hx Hl. intros Hin [p Hp]. exists p. apply goes_after; [by eapply turn_others|done]. Qed.
Lemma turn_terminal key : terminal_of k (zip ds os) key -> terminal_of (l ++ k) (zip (x :: ds) (o :: os)) key.
Proof using Hx Hl.
  intros (y & z & Hin & Ho & Ht & E & Hd). exists y, z. split_and!; [by right|done..|]. by eapply turn_died.
Qed.
End Turn.

(** What the loop leaves. *)
Definition loop_post (ds : list delivery) os (err : option error) (terminal : list (Key * Fingerprint)) (w : world)
    (r : world * comp (option error * list (Key * Fingerprint))) : Prop :=
  exists l, nw_db r.1 = nw_db w /\ nw_trace r.1 = (nw_trace w ++ l)%list /\ (forall id, id ∉ List.map nd_id ds -> silent id l) /\
    (forall x o, (x, o) ∈ zip ds os -> dead_lettered l x o) /\
    (forall e t, r.2 = Val (e, t) ->
       (e = None -> err = None /\ forall x o, (x, o) ∈ zip ds os -> is_dlq o = true -> died l x) /\
       Forall (fun k => k ∈ terminal \/ terminal_of l (zip ds os) k) t).

Lemma loop_end ds os err terminal w : zip ds os = [] -> loop_post ds os err terminal w (w, Val (err, terminal)).
Proof using.
  intros E. exists []. rewrite E, app_nil_r. cbn. split_and!; [done..|intros; constructor|by intros ? ? ?%not_elem_of_nil|].
  intros e t [= <- <-]. split; [intros ->; split; [done|by intros ? ? ?%not_elem_of_nil]|]. apply Forall_forall. auto.
Qed.

Lemma loop_stopped ds os err terminal w r : match r with Val _ => False | _ => True end -> loop_post ds os err terminal w (w, r).
Proof using.
  intros Hr. exists []. rewrite app_nil_r. cbn. split_and!; [done..|intros; constructor| |by destruct r]. intros x o _. apply dead_nothing.
Qed.

Lemma loop_skip x o ds os err terminal w r : is_dlq o = false -> nd_id x ∉ List.map nd_id ds -> loop_post ds os err terminal w r ->
  loop_post (x :: ds) (o :: os) err terminal w r.
Proof using.
  intros Eo Hx (l & H1 & H2 & H3 & H4 & H5). exists l. cbn [List.map zip_with]. split_and!; [done..| | |].
  - intros id [? ?]%not_elem_of_cons. auto.
  - intros y z [[= -> ->]|Hin]%elem_of_cons; [|auto]. unfold dead_lettered. rewrite Eo. auto.
  - intros e t E. destruct (H5 e t E) as [H6 H7]. split.
    + intros He. destruct (H6 He) as [? Hd]. split; [done|]. intros y z [[= -> ->]|Hin]%elem_of_cons Hz; [congruence|by eapply Hd].
    + eapply Forall_impl; [exact H7|]. intros k [?|(y & z & Hin & ?)]; [by left|right]. exists y, z. split; [by right|done].
Qed.

(** A delivery whose events [l] leave it in [ph]; [err'] and [terminal'] are the
    accumulators of the rest of the loop. *)
Lemma loop_dead x o ds os err err' terminal terminal' w w' r l ph : is_dlq o = true -> nd_id x ∉ List.map nd_id ds ->
  (forall id, id <> nd_id x -> silent id l) -> goes l x ph -> dead_phase c json_Marshal ToLower (nd_broker x) ph ->
  nw_db w' = nw_db w -> nw_trace w' = (nw_trace w ++ l)%list ->
  (err' = None -> err = None /\ exists p, ph = Dead p) ->
  (terminal' = terminal \/ (exists p, ph = Dead p) /\ terminal_kind o = true /\ terminal' = (terminal ++ [(o_Key (fo_item o), o_Fingerprint (fo_item o))])%list) ->
  loop_post ds os err' terminal' w' r -> loop_post (x :: ds) (o :: os) err terminal w r.
Proof using.
  intros Eo Hx Hl Hg Hp Hdb Htr Herr Hterm (k & H1 & H2 & H3 & H4 & H5). exists (l ++ k)%list.
  assert (forall p, ph = Dead p -> died (l ++ k) x) as Hdied by (intros p ->; exists p; by apply goes_before; [apply H3|]).
  split_and!; [congruence|by rewrite H2, Htr, app_assoc|by intros id; apply turn_silent|by eapply turn_dead|].
  intros e t E. destruct (H5 e t E) as [H6 H7]. split.
  - intros He. destruct (H6 He) as [He' Hd]. destruct (Herr He') as [? [p Hph]]. split; [done|].
    cbn [zip_with]. intros y z [[= -> ->]|Hin]%elem_of_cons Hz; [by eapply Hdied|]. eapply turn_died; [exact Hx|exact Hl|exact Hin|by eapply Hd].
  - eapply Forall_impl; [exact H7|]. intros key [Hin|Hkey]; [|right; by apply turn_terminal].
    destruct Hterm as [->|([p Hph] & Ht & ->)]; [by left|]. apply elem_of_app in Hin as [Hin|Hin]; [by left|right].
    apply list_elem_of_singleton in Hin. exists x, o. split_and!; [by left|done..|by eapply Hdied].
Qed.

Lemma dlq_loop_ok : forall (ds : list delivery) os err terminal (w : world),
  Forall (fun x => msg_Subject (nd_broker x) <> "") ds -> NoDup (List.map nd_id ds) ->
  loop_post ds os err terminal w (dlq_loop json_Marshal json_Valid ToLower c a ds os err terminal w).
Proof using Hclock Hconsumer Hmode.
  induction ds as [|x ds IH]; intros os err terminal w Hsub Hnd; [by apply loop_end|]. destruct os as [|o os]; [by apply loop_end|].
  apply Forall_cons in Hsub as [Hsx Hsub]. cbn in Hnd. apply NoDup_cons in Hnd as [Hx Hnd].
  cbn [dlq_loop]. destruct (is_dlq o) eqn:Eo; cbn [negb]; [|by apply loop_skip, IH]. unfold mbind.
  destruct (local_dead x o w Hsx) as (l & ph & Hdb & Htr & Hl & Ht & Hp & Hack). cbv zeta in *.
  destruct (locally _ _ w) as [w1 [res| |]]; cbn [fst snd] in *.
  - destruct (hr_acknowledged res) eqn:Ea.
    + destruct (Hack res eq_refl Ea) as [p ->]. unfold heartbeat_Remove. cbn iota.
      eapply (loop_dead _ _ _ _ _ err _ _ _ _ _ (l ++ [NvRemove (nd_id x)]) (Dead p)); [done|done| | |exact Hp| | | | |by apply IH].
      * intros id Hid. apply silent_app. split; [auto|]. apply silent_one. cbn. congruence.
      * exists false. rewrite track_app, Ht. by apply track_remove.
      * done.
      * cbn. by rewrite Htr, app_assoc.
      * intros ->. split; [done|]. by exists p.
      * destruct (terminal_kind o); [right|by left]. split_and!; [by exists p|done..].
    + eapply (loop_dead _ _ _ _ _ (errors_join [err; Some (handoff_error res)]) _ terminal _ w1 _ l ph);
        [done|done|done|by exists true|done|done|done| |by left|by apply IH]. by destruct err.
  - by eapply (loop_dead _ _ _ _ _ (Some (ba_ctxErr a)) terminal terminal _ w1 _ l ph); [..|exists true| | | | |left|apply loop_stopped].
  - by eapply (loop_dead _ _ _ _ _ (Some (ba_ctxErr a)) terminal terminal _ w1 _ l ph); [..|exists true| | | | |left|apply loop_stopped].
Qed.

(** ** Confirmations *)
Lemma confirm_handoffs_ok keys : forall n (w : world), let r := confirm_handoffs a n keys w in
  exists ks cs, r.2 = Val tt /\ List.map fst ks `prefix_of` keys /\ nw_db r.1 = perform_all (confirm_ops ks) (nw_db w) /\
    nw_trace r.1 = (nw_trace w ++ cs)%list /\ forall id, silent id cs.
Proof using.
  induction keys as [|[key fp] keys IH]; intros n w; cbn [confirm_handoffs].
  { exists [], []. rewrite app_nil_r. split_and!; [done..|intros; constructor]. }
  destruct (ba_confirm a n) as [e|].
  2:{ exists [], []. rewrite app_nil_r. split_and!; [done|apply prefix_nil|done..|intros; constructor]. }
  set (x := Store_ConfirmTerminalHandoff false key fp (nw_db w) e).
  unfold mbind. cbn [note]. cbv zeta. fold x.
  set (w1 := with_trace [NvConfirm key fp (is_nil (op_err x))] _ _).
  destruct (IH (S n) w1) as (ks & cs & H1 & H2 & H3 & H4 & H5).
  exists ((key, fp, e) :: ks), (NvConfirm key fp (is_nil (op_err x)) :: cs). split_and!; [done|by apply prefix_cons|by rewrite H3| |].
  - rewrite H4. cbn. by rewrite <- app_assoc.
  - intros id. constructor; [done|apply H5].
Qed.

Lemma confirm_terminal_ok terminal (w : world) : let r := confirmNATSTerminalHandoffs a terminal w in
  exists ks cs, r.2 = Val tt /\ NoDup (List.map fst ks) /\ Forall (fun k => k ∈ terminal) (List.map fst ks) /\
    nw_db r.1 = perform_all (confirm_ops ks) (nw_db w) /\ nw_trace r.1 = (nw_trace w ++ cs)%list /\ forall id, silent id cs.
Proof using.
  unfold confirmNATSTerminalHandoffs. destruct (_ || _).
  { exists [], []. rewrite app_nil_r. split_and!; [done|constructor|constructor|done|done|intros; constructor]. }
  destruct (Manifest.distinct_keys terminal) as [Hnd Hin]. set (keys := List.map fst (Manifest.range _)) in *. clearbody keys.
  destruct (confirm_handoffs_ok keys 0 w) as (ks & cs & H1 & [rest Hp] & H3 & H4 & H5). exists ks, cs.
  rewrite Hp in Hnd, Hin. apply NoDup_app in Hnd as (Hnd & _). apply Forall_app in Hin as [Hin _]. by split_and!.
Qed.

(** ** Finalization *)
(** What a batch whose attempt left the tables [d] leaves: confirmations of
    terminal messages, and for each delivery a phase that says what happened. *)
Definition batch_post (ds : list delivery) (d : DB B) (w : world) (r : world * comp (option error)) : Prop :=
  exists l ks, nw_db r.1 = perform_all (confirm_ops ks) d /\ nw_trace r.1 = (nw_trace w ++ l)%list /\
    (forall id, id ∉ List.map nd_id ds -> silent id l) /\
    Forall (fun x => exists ph, goes l x ph /\ phase_ok d x ph /\ (r.2 = Val None -> concluded ph)) ds /\
    NoDup (List.map fst ks) /\
    Forall (fun k => exists x, x ∈ ds /\ readable x /\ k = (key_of x, it_Fingerprint (toBatchItem c x)) /\ died l x) (List.map fst ks).

Lemma goes_unique l (x : delivery) ph ph' : goes l x ph -> goes l x ph' -> ph = ph'.
Proof using. intros [? E1] [? E2]. by simplify_eq. Qed.

Lemma in_zip (ds : list delivery) (os : list natsBatchFinalOutcome) (R : delivery -> natsBatchFinalOutcome -> Prop) x :
  Forall2 R ds os -> x ∈ ds -> exists o, (x, o) ∈ zip ds os.
Proof using.
  intros Hs [i Hi]%list_elem_of_lookup. destruct (Forall2_lookup_l _ _ _ _ _ Hs Hi) as (o & Ho & _). exists o.
  apply elem_of_lookup_zip_with. by exists i, x, o.
Qed.

(** A delivery after the pool [l1] and the loop [l2]. *)
Lemma both_stages d l1 l2 cs (x : delivery) o (ok1 ok2 : Prop) :
  (if is_dlq o then silent (nd_id x) l1 else exists ph, goes l1 x ph /\ phase_ok d x ph /\ (ok1 -> concluded ph)) ->
  dead_lettered l2 x o -> (ok2 -> is_dlq o = true -> died l2 x) -> silent (nd_id x) cs ->
  exists ph, goes (l1 ++ l2 ++ cs) x ph /\ phase_ok d x ph /\ (ok1 -> ok2 -> concluded ph).
Proof using.
  unfold dead_lettered. destruct (is_dlq o).
  - intros Hl1 (ph & Hg & Hp) Hd Hcs. exists ph. split_and!; [by apply goes_after, goes_before|by apply dead_phase_ok|].
    intros _ H2. destruct (Hd H2 eq_refl) as [p Hp']. by rewrite (goes_unique _ _ _ _ Hg Hp').
  - intros (ph & Hg & Hp & Hc) Hl2 _ Hcs. exists ph. split_and!; [|done|auto]. apply goes_before; [by apply silent_app|done].
Qed.

Lemma terminal_readable d ds os l1 l2 cs key : Forall2 (settles d) ds os ->
  (forall x o, (x, o) ∈ zip ds os -> is_dlq o = true -> silent (nd_id x) l1) -> (forall id, silent id cs) -> terminal_of l2 (zip ds os) key ->
  exists x, x ∈ ds /\ readable x /\ key = (key_of x, it_Fingerprint (toBatchItem c x)) /\ died (l1 ++ l2 ++ cs) x.
Proof using.
  intros Hs Hl1 Hcs (x & o & Hin & Ho & Ht & E & p & Hp). pose proof (zip_settles _ _ _ _ _ Hs Hin) as Hset. unfold settles in Hset.
  apply bool_decide_eq_true in Ho as Eo. rewrite Eo in Hset. destruct (Hset Ht) as (Hr & HK & HF). exists x. split_and!; [|done|congruence|].
  - apply elem_of_lookup_zip_with in Hin as (i & y & z & [= <- <-] & Hi & _). by eapply list_elem_of_lookup_2.
  - exists p. apply goes_after; [by eapply Hl1|]. by apply goes_before.
Qed.

Lemma join_none e1 e2 : errors_join [e1; e2] = None -> e1 = None /\ e2 = None.
Proof using. by destruct e1, e2. Qed.

(** The pool with the events [l1], then the loop with [l2], then the confirmations
    with [cs]. *)
Lemma stages_post ds os d w w2 (r : comp (option error)) l1 l2 cs ks (ok1 ok2 : Prop) : Forall2 (settles d) ds os ->
  (forall id, id ∉ List.map nd_id ds -> silent id l1 /\ silent id l2) -> (forall id, silent id cs) ->
  (forall x o, (x, o) ∈ zip ds os ->
     if is_dlq o then silent (nd_id x) l1 else exists ph, goes l1 x ph /\ phase_ok d x ph /\ (ok1 -> concluded ph)) ->
  (forall x o, (x, o) ∈ zip ds os -> dead_lettered l2 x o) -> (ok2 -> forall x o, (x, o) ∈ zip ds os -> is_dlq o = true -> died l2 x) ->
  nw_db w2 = perform_all (confirm_ops ks) d -> nw_trace w2 = (nw_trace w ++ l1 ++ l2 ++ cs)%list -> (r = Val None -> ok1 /\ ok2) ->
  NoDup (List.map fst ks) -> Forall (terminal_of l2 (zip ds os)) (List.map fst ks) -> batch_post ds d w (w2, r).
Proof using.
  intros Hs Hsil Hcs H1 H2 H3 Hdb Htr Hr Hnd Hks. exists (l1 ++ l2 ++ cs)%list, ks. split_and!; [done..| | |done|].
  - intros id Hid. destruct (Hsil id Hid). by rewrite !silent_app.
  - apply Forall_forall. intros x Hx. destruct (in_zip _ _ _ x Hs Hx) as [o Hin].
    destruct (both_stages d l1 l2 cs x o ok1 ok2 (H1 x o Hin) (H2 x o Hin) (fun k => H3 k x o Hin) (Hcs _)) as (ph & ? & ? & Hc).
    exists ph. split_and!; [done..|]. cbn. intros E. by destruct (Hr E); apply Hc.
  - eapply Forall_impl; [exact Hks|]. intros k. eapply terminal_readable; [exact Hs| |done].
    intros x o Hin Ho. specialize (H1 x o Hin). by rewrite Ho in H1.
Qed.

Lemma finalize_batch_ok b os d (w : world) : nw_db w = d -> Forall2 (settles d) (nb_deliveries b) os -> NoDup (List.map nd_id (nb_deliveries b)) ->
  Forall (fun x => msg_Subject (nd_broker x) <> "") (nb_deliveries b) ->
  batch_post (nb_deliveries b) d w (finalizeNATSBatch json_Marshal json_Valid ToLower c a b os w).
Proof using Hclock Hconsumer Hmode.
  intros Hdb Hs Hnd Hsub. unfold finalizeNATSBatch, mbind.
  destruct (non_dlq_ok b os d w Hs Hnd) as (l1 & A1 & A2 & A3 & A4). cbv zeta in *.
  destruct (finalizeNATSNonDLQDeliveries c a b os w) as [w1 r1]. cbn [fst snd] in *. set (ds := nb_deliveries b) in *.
  assert (forall x o, (x, o) ∈ zip ds os -> if is_dlq o then silent (nd_id x) l1
    else exists ph, goes l1 x ph /\ phase_ok d x ph /\ ((exists obs, r1 = Val (obs, None)) -> concluded ph)) as A5.
  { intros x o Hin. specialize (A4 x o Hin). destruct (is_dlq o); [done|]. destruct A4 as (ph & ? & ? & Hc). exists ph. split_and!; [done..|].
    intros [obs E]. by eapply Hc. }
  assert (forall r, match r with Val _ => False | _ => True end -> batch_post ds d w (w1, r)) as Hstop.
  { intros r Hr. refine (stages_post ds os d w w1 r l1 [] [] [] _ False Hs _ _ A5 (fun x o _ => dead_nothing x o) _ _ _ _ _ _); try done.
    - intros id Hid. split; [auto|constructor].
    - intros id. constructor.
    - by rewrite A1.
    - by rewrite !app_nil_r.
    - by intros ->.
    - constructor. }
  destruct r1 as [[obs fatal]| |]; [|by apply Hstop..]. clear Hstop.
  unfold finalizeNATSDLQDeliveries, mbind. fold ds. destruct (dlq_loop_ok ds os None [] w1 Hsub Hnd) as (l2 & B1 & B2 & B3 & B4 & B5).
  destruct (dlq_loop _ _ _ c a ds os None [] w1) as [w2 r2]. cbn [fst snd] in *.
  assert (forall id, id ∉ List.map nd_id ds -> silent id l1 /\ silent id l2) as Hsil by (intros id Hid; split; auto).
  destruct r2 as [[err terminal]| |].
  2,3: refine (stages_post ds os d w w2 _ l1 l2 [] [] _ False Hs Hsil _ A5 B4 _ _ _ _ _ _); try done; [intros; constructor|by rewrite B1, A1|
    by rewrite B2, A2, app_nil_r, app_assoc|constructor].
  destruct (B5 err terminal eq_refl) as [B6 B7]. destruct (confirm_terminal_ok terminal w2) as (ks & cs & C1 & C2 & C3 & C4 & C5 & C6).
  destruct (confirmNATSTerminalHandoffs a terminal w2) as [w3 r3]. cbn [fst snd] in *. subst r3. cbn.
  refine (stages_post ds os d w w3 _ l1 l2 cs ks _ (err = None) Hs Hsil C6 A5 B4 _ _ _ _ C2 _).
  - intros E. by apply B6.
  - by rewrite C4, B1, A1, Hdb.
  - by rewrite C5, B2, A2, !app_assoc.
  - intros [= E]. destruct (join_none _ _ E) as [-> ->]. split; [by exists obs|done].
  - eapply Forall_impl; [exact C3|]. intros k Hk. rewrite Forall_forall in B7. destruct (B7 k Hk) as [Hk'|]; [by apply not_elem_of_nil in Hk'|done].
Qed.

(** ** The batch *)
Context (ctx : C) (Hattempts : 1 <= hc_MaxAttempts c).

Definition deliveries (now : Time) (ds : list delivery) : list BatchItem := valid_items (List.map (classifyDelivery c now) ds).
Definition store_attempt (ds : list delivery) (d : DB B) : opResult B BatchProcessResult :=
  Store_ProcessBatchAttempt (Some ops) false (deliveries (ba_now a) ds) (hc_MaxAttempts c)
    (Some (inbox_batch_handler ctx_Err c limits handler ctx (ba_now a) ds)) d (ba_inbox a).
(** The tables after the one Inbox attempt of the batch. *)
Definition attempted (ds : list delivery) (d : DB B) : DB B :=
  match deliveries (ba_now a) ds with [] => d | _ => op_db (store_attempt ds d) end.

Lemma elem_batch_items now ds it : Forall delivery_ok ds -> it ∈ deliveries now ds ->
  exists x, x ∈ ds /\ delivery_ok x /\ readable x /\ it = toBatchItem c x /\ classifyDelivery c now x = inr it.
Proof using.
  intros Hf. unfold deliveries, valid_items. rewrite list_elem_of_omap. intros (y & Hy & E).
  apply list_elem_of_In, in_map_iff in Hy as (x & <- & Hx%list_elem_of_In). rewrite Forall_forall in Hf. specialize (Hf x Hx).
  destruct (classifyDelivery c now x) as [o|it'] eqn:Ec; [done|]. injection E as ->. destruct (classify_item _ _ _ Ec). by exists x.
Qed.
Lemma batch_items_ok now ds : Forall delivery_ok ds -> items_ok (deliveries now ds).
Proof using.
  intros Hf it (x & _ & [_ Hx] & Hr & -> & _)%elem_batch_items; [|done]. destruct (Hx Hr) as [Hid Hfree]. split_and!; [apply length_Sum256|done..].
Qed.
Lemma batch_attempted_ok ds d : Forall delivery_ok ds -> db_ok d -> db_ok (attempted ds d) /\ keeps d (attempted ds d).
Proof using Hattempts BatchBackend0.
  intros Hf Hd. pose proof (batch_items_ok (ba_now a) ds Hf) as Hit. unfold attempted.
  destruct (deliveries (ba_now a) ds) as [|it items] eqn:E; [done|]. rewrite <- E in Hit. unfold store_attempt. split.
  - apply (batch_invariant ops); [done|lia|done].
  - apply attempt_keeps; [apply _|done|lia|done].
Qed.

(** The handler gets the decoded message of every delivery it is given. *)
Lemma batch_handler_messages now ds active state : Forall delivery_ok ds -> Forall (fun it => it ∈ deliveries now ds) active ->
  exists xs, Forall2 (fun it x => x ∈ ds /\ readable x /\ it = toBatchItem c x) active xs /\
    inbox_batch_handler ctx_Err c limits handler ctx now ds active state
    = batch_invoke ctx_Err c limits handler ctx (List.map nd_decoded xs) state.
Proof using.
  intros Hf Ha. unfold inbox_batch_handler, natsBatchDecodedMessages.
  assert (exists xs, Forall2 (fun it x => x ∈ ds /\ readable x /\ it = toBatchItem c x) active xs /\
    mapM (by_item c now ds) active = Some (List.map nd_decoded xs)) as (xs & Hxs & ->); [|by exists xs].
  induction Ha as [|it active Hit Ha IH]; [by exists []|]. destruct IH as (xs & Hxs & Em). cbn. rewrite Em.
  destruct (elem_batch_items now ds it Hf Hit) as (x & Hx & _ & _ & _ & Hc). unfold by_item.
  destruct (List.find _ _) as [y|] eqn:Ef.
  - exists (y :: xs). split; [|done]. constructor; [|done]. apply find_some in Ef as [Hy%list_elem_of_In Hcy].
    destruct (classifyDelivery c now y) as [o|it'] eqn:Ec; [done|]. apply bool_decide_eq_true in Hcy as ->. by destruct (classify_item _ _ _ Ec).
  - exfalso. eapply find_none in Ef; [|by apply list_elem_of_In]. cbn in Ef. rewrite Hc in Ef. by apply bool_decide_eq_false in Ef.
Qed.

Lemma batch_post_start ds d (w w' : world) r : nw_trace w' = nw_trace w -> batch_post ds d w' r -> batch_post ds d w r.
Proof using. intros E (l & ks & Hr). exists l, ks. by rewrite <- E. Qed.

(** Nothing was done with the deliveries. *)
Lemma batch_post_nothing ds d (w : world) (r : world * comp (option error)) : nw_db r.1 = d -> nw_trace r.1 = nw_trace w -> r.2 <> Val None ->
  batch_post ds d w r.
Proof using.
  intros Hd Ht Hr. exists [], []. cbn. rewrite app_nil_r. split_and!; [done..|intros; constructor| |constructor|constructor].
  apply Forall_forall. intros x _. exists Waiting. split_and!; [by exists true|done..].
Qed.

(** The deferred calls. *)
Lemma batch_post_after ds d (w w1 w2 : world) err k : batch_post ds d w (w1, Val err) -> nw_db w2 = nw_db w1 ->
  nw_trace w2 = (nw_trace w1 ++ k)%list -> (forall id, silent id k) -> batch_post ds d w (w2, Val err).
Proof using.
  intros (l & ks & H1 & H2 & H3 & H4 & H5 & H6) Hd Ht Hk. cbn in *. exists (l ++ k)%list, ks. cbn. split_and!; [congruence| | | |done|].
  - by rewrite Ht, H2, app_assoc.
  - intros id Hid. apply silent_app. auto.
  - eapply Forall_impl; [exact H4|]. intros x (ph & Hg & ? & ?). exists ph. split_and!; [by apply goes_before|done..].
  - eapply Forall_impl; [exact H6|]. intros key (x & ? & ? & ? & p & Hp). exists x. split_and!; [done..|]. exists p. by apply goes_before.
Qed.

(** The outcomes settle the deliveries, whoever gave them. *)
Lemma assigned_settle ds d os (R : BatchItem -> natsBatchFinalOutcome -> Prop) :
  (forall x o, readable x -> R (toBatchItem c x) o -> settles d x o) -> Forall2 R (deliveries (ba_now a) ds) os ->
  exists outcomes, assign (List.map (classifyDelivery c (ba_now a)) ds) os = Some outcomes /\ Forall2 (settles d) ds outcomes.
Proof using.
  intros HR Hos. apply (assign_ok _ R); [|done]. apply Forall_forall. intros x _.
  destruct (classifyDelivery c (ba_now a) x) as [o|it] eqn:Ec; [by eapply classify_settles|].
  destruct (classify_item _ _ _ Ec) as [Hr ->]. intros o. by apply HR.
Qed.
Lemma requeued_settle ds d outcome delay err : outcome = BatchRetry \/ outcome = BatchDefer ->
  exists outcomes, assign (List.map (classifyDelivery c (ba_now a)) ds) (List.map (requeue outcome delay err) (deliveries (ba_now a) ds)) = Some outcomes /\
    Forall2 (settles d) ds outcomes.
Proof using.
  intros Ho. apply (assigned_settle ds d _ (fun it o => o = requeue outcome delay err it)); [intros x o Hr ->; by apply requeue_settles|].
  apply Forall2_fmap_r. by apply Forall_Forall2_diag, Forall_true.
Qed.

Lemma body_ok b (w : world) : db_ok (nw_db w) -> Forall delivery_ok (nb_deliveries b) -> NoDup (List.map nd_id (nb_deliveries b)) ->
  batch_post (nb_deliveries b) (attempted (nb_deliveries b) (nw_db w)) w
    (process_body ops ctx_Err json_Marshal json_Valid ToLower c limits handler a ctx b w).
Proof using Hclock Hconsumer Hmode Hattempts BatchBackend0.
  intros Hd Hf Hnd. set (ds := nb_deliveries b) in *. set (d' := attempted ds (nw_db w)).
  assert (Forall (fun x => msg_Subject (nd_broker x) <> "") ds) as Hsub by (eapply Forall_impl; [exact Hf|]; by intros x []).
  assert (forall w' os, nw_db w' = d' -> nw_trace w' = nw_trace w ->
    (exists outcomes, os = Some outcomes /\ Forall2 (settles d') ds outcomes) ->
    batch_post ds d' w (finalize_assigned json_Marshal json_Valid ToLower c a b os w')) as Hfin.
  { intros w' os Hw Ht (outcomes & -> & Ho). eapply batch_post_start; [exact Ht|]. by apply finalize_batch_ok. }
  unfold process_body. fold ds. fold (deliveries (ba_now a) ds). cbv zeta.
  pose proof (batch_items_ok (ba_now a) ds Hf) as Hit.
  destruct (store_report ops (deliveries (ba_now a) ds) (hc_MaxAttempts c) (inbox_batch_handler ctx_Err c limits handler ctx (ba_now a) ds)
    (nw_db w) (ba_inbox a) Hit Hattempts Hd) as [_ Hrep]. fold (store_attempt ds (nw_db w)) in Hrep.
  pose proof (requeued_settle ds d') as Hrq.
  assert (forall os, op_err (store_attempt ds (nw_db w)) = None -> d' = op_db (store_attempt ds (nw_db w)) -> os = Items (op_value (store_attempt ds (nw_db w))) ->
    exists outcomes, assign (List.map (classifyDelivery c (ba_now a)) ds) (List.map from_item os) = Some outcomes /\ Forall2 (settles d') ds outcomes) as Hreport.
  { intros os Hnone -> ->. eapply (assigned_settle ds _ _ (fun it o => exists o', o = from_item o' /\ reported (hc_MaxAttempts c) _ it o')).
    - intros x o Hr (o' & -> & Ho). by apply report_settles.
    - apply Forall2_fmap_r. eapply Forall2_impl; [by apply Hrep|]. intros it o Ho. by exists o. }
  destruct (deliveries (ba_now a) ds) as [|it items] eqn:Ed.
  { apply Hfin; [unfold d', attempted; by rewrite Ed|done|]. apply (assigned_settle ds d' [] (fun _ _ => False)); [done|]. rewrite Ed. constructor. }
  assert (d' = op_db (store_attempt ds (nw_db w))) as Hd' by (unfold d', attempted; by rewrite Ed).
  unfold mbind at 1. unfold store_batch.
  assert (Store_ProcessBatchAttempt (Some ops) false (it :: items) (hc_MaxAttempts c)
    (Some (inbox_batch_handler ctx_Err c limits handler ctx (ba_now a) ds)) (nw_db w) (ba_inbox a) = store_attempt ds (nw_db w)) as ->
    by (unfold store_attempt; by rewrite Ed).
  set (r := store_attempt ds (nw_db w)) in *. clearbody r. cbv zeta. destruct (op_err r) as [err|] eqn:Eerr.
  - destruct (IsFailClosed _); [by apply batch_post_nothing|]. unfold mbind at 1. cbn [set_streak].
    destruct (DeferDelay _) as [delay|]; [apply Hfin; auto|].
    destruct (RetryDelay _) as [delay|]; [apply Hfin; auto|]. unfold mbind, batch_retryDelay.
    destruct (nats_retryDelay _ _ _ _); [apply Hfin; auto|by apply batch_post_nothing].
  - unfold mbind, set_streak. apply Hfin; auto.
Qed.

Lemma process_batch_ok b (w : world) : db_ok (nw_db w) -> Forall delivery_ok (nb_deliveries b) -> NoDup (List.map nd_id (nb_deliveries b)) ->
  batch_post (nb_deliveries b) (attempted (nb_deliveries b) (nw_db w)) w
    (processNATSBatch ops ctx_Err json_Marshal json_Valid ToLower c limits handler a ctx b w).
Proof using Hclock Hconsumer Hmode Hattempts BatchBackend0.
  intros Hd Hf Hnd. pose proof (body_ok b w Hd Hf Hnd) as Hb. unfold processNATSBatch, mbind.
  destruct (process_body _ _ _ _ _ _ _ _ _ _ b w) as [w1 [err| |]]; [|done..].
  destruct (hc_HasObservers c); cbn.
  - eapply (batch_post_after _ _ _ w1 _ _ [NvObserve; NvStop]); [exact Hb|done|cbn; by rewrite <- app_assoc|]. intros id. by repeat constructor.
  - eapply (batch_post_after _ _ _ w1 _ _ [NvStop]); [exact Hb|done|done|]. intros id. by repeat constructor.
Qed.
End Answers.

(** ** Collection *)
Section Collect.
Context (a : collectAnswers).
Abbreviation read := (decodeNATSBatchDelivery EqualFold c decode).

Fixpoint total_bytes (ds : list delivery) : Z := match ds with [] => 0 | x :: ds => nd_canonicalBytes x + total_bytes ds end.
Lemma total_bytes_app l k : total_bytes (l ++ k) = total_bytes l + total_bytes k.
Proof using. induction l as [|x l IH]; cbn; [done|]. rewrite IH. lia. Qed.

Definition same_message (x y : delivery) : Prop :=
  md_ID (nm_metadata (nd_decoded x)) = md_ID (nm_metadata (nd_decoded y)) /\
  md_Source (nm_metadata (nd_decoded x)) = md_Source (nm_metadata (nd_decoded y)).
(** No message is in the batch under two attempt generations. *)
Definition one_generation (ds : list delivery) : Prop := forall x y, x ∈ ds -> y ∈ ds -> same_message x y ->
  MessageID_IsZero (md_ID (nm_metadata (nd_decoded x))) = false -> nd_attemptGeneration x = nd_attemptGeneration y.

Lemma one_generation_add ds x : one_generation ds -> hasNATSBatchConflictingGeneration ds x = false -> one_generation (ds ++ [x]).
Proof using.
  intros Hg Hc.
  assert (forall y, y ∈ ds -> same_message y x -> MessageID_IsZero (md_ID (nm_metadata (nd_decoded x))) = false ->
    nd_attemptGeneration y = nd_attemptGeneration x) as Hx.
  { intros y Hy [E1 E2] Hz. unfold hasNATSBatchConflictingGeneration in Hc. rewrite Hz in Hc.
    destruct (String.eqb_spec (nd_attemptGeneration y) (nd_attemptGeneration x)) as [|Hne]; [done|]. exfalso.
    assert (existsb (fun prev => String.eqb (md_ID (nm_metadata (nd_decoded prev))) (md_ID (nm_metadata (nd_decoded x)))
      && String.eqb (md_Source (nm_metadata (nd_decoded prev))) (md_Source (nm_metadata (nd_decoded x)))
      && negb (String.eqb (nd_attemptGeneration prev) (nd_attemptGeneration x))) ds = true) as E; [|congruence].
    apply existsb_exists. exists y. split; [by apply list_elem_of_In|]. rewrite E1, E2, !String.eqb_refl. cbn.
    apply negb_true_iff. by apply String.eqb_neq. }
  intros y z [Hy|Hy%list_elem_of_singleton]%elem_of_app [Hz|Hz%list_elem_of_singleton]%elem_of_app [E1 E2] Hnz; subst; [by apply Hg|..|done].
  - apply Hx; [done|done|]. by rewrite <- E1.
  - symmetry. apply Hx; [done|done|done].
Qed.

(** What the fill loop leaves of the messages [fs]: the ones it kept are in the
    heartbeat and in the batch, the others were handed back. *)
Definition filled (fs kept : list fetched) (b b' : natsBatch T) (w w' : world) : Prop :=
  exists l, nw_db w' = nw_db w /\ nw_streak w' = nw_streak w /\ nw_trace w' = (nw_trace w ++ l)%list /\
    nw_heartbeat w' = list_to_set (List.map ft_id kept) ∪ nw_heartbeat w /\
    kept `sublist_of` fs /\ nb_deliveries b' = (nb_deliveries b ++ List.map read kept)%list /\ nb_startedAt b' = nb_startedAt b /\
    (forall id, id ∉ List.map ft_id fs -> silent id l) /\
    (forall f, f ∈ kept -> track (ft_id f) Unseen l = Some (Held Waiting true)) /\
    (forall f, f ∈ fs -> f ∈ kept \/ exists ok, track (ft_id f) Unseen l = Some (Refused ok)).

(** The limits and generations of a batch. *)
Definition within (b : natsBatch T) : Prop :=
  nb_bytes b = total_bytes (nb_deliveries b) /\ nb_bytes b <= MaxBytes limits /\ one_generation (nb_deliveries b).

Lemma within_add b x : within b -> hasNATSBatchConflictingGeneration (nb_deliveries b) x = false ->
  nd_canonicalBytes x <= MaxBytes limits - nb_bytes b -> within (add_delivery x b).
Proof using.
  intros (H1 & H2 & H3) Hc Hb. unfold within. cbn. rewrite total_bytes_app. cbn. split_and!; [lia|lia|by apply one_generation_add].
Qed.

Section Step.
Context (f : fetched) (fs kept : list fetched) (b b' : natsBatch T) (w w1 w' : world) (Hf : ft_id f ∉ List.map ft_id fs) (Hhb : ft_id f ∉ nw_heartbeat w).
Context (Hdb : nw_db w1 = nw_db w) (Hstreak : nw_streak w1 = nw_streak w).

Lemma elsewhere g : g ∈ fs -> ft_id g <> ft_id f.
Proof using Hf. intros Hg E. apply Hf. rewrite <- E. by apply list_elem_of_fmap_2. Qed.

Lemma filled_keep : nw_heartbeat w1 = {[ft_id f]} ∪ nw_heartbeat w -> nw_trace w1 = (nw_trace w ++ [NvFetched (ft_id f)])%list ->
  filled fs kept (add_delivery (read f) b) b' w1 w' -> filled (f :: fs) (f :: kept) b b' w w'.
Proof using Hf Hdb Hstreak.
  intros E1 E2 (l & H1 & H2 & H3 & H4 & H5 & H6 & H7 & H8 & H9 & H10). exists (NvFetched (ft_id f) :: l).
  assert (track (ft_id f) Unseen (NvFetched (ft_id f) :: l) = Some (Held Waiting true)) as Hme
    by (cbn; rewrite decide_True by done; by apply track_silent, H8).
  assert (forall g, g ∈ fs -> track (ft_id g) Unseen (NvFetched (ft_id f) :: l) = track (ft_id g) Unseen l) as Hg
    by (intros g Hg; cbn; rewrite decide_False; [done|]; intros E; by apply (elsewhere g Hg)).
  split_and!; [congruence|congruence| | |by apply sublist_skip| |done| | |].
  - by rewrite H3, E2, <- app_assoc.
  - rewrite H4, E1. cbn. clear. set_solver.
  - rewrite H6. cbn. by rewrite <- app_assoc.
  - cbn. intros id [? ?]%not_elem_of_cons. constructor; [cbn; congruence|by apply H8].
  - intros g [->|Hin]%elem_of_cons; [done|]. rewrite Hg; [auto|]. by eapply elem_of_sublist.
  - intros g [->|Hin]%elem_of_cons; [left; by left|]. rewrite Hg by done. destruct (H10 g Hin); [left; by right|by right].
Qed.

Lemma filled_reject ok : nw_heartbeat w1 = ({[ft_id f]} ∪ nw_heartbeat w) ∖ {[ft_id f]} ->
  nw_trace w1 = (nw_trace w ++ [NvFetched (ft_id f); NvReject (ft_id f) ok])%list ->
  filled fs kept b b' w1 w' -> filled (f :: fs) kept b b' w w'.
Proof using Hf Hhb Hdb Hstreak.
  intros E1 E2 (l & H1 & H2 & H3 & H4 & H5 & H6 & H7 & H8 & H9 & H10). exists (NvFetched (ft_id f) :: NvReject (ft_id f) ok :: l).
  assert (forall g, g ∈ fs -> track (ft_id g) Unseen (NvFetched (ft_id f) :: NvReject (ft_id f) ok :: l) = track (ft_id g) Unseen l) as Hg
    by (intros g Hg; pose proof (elsewhere g Hg); cbn; rewrite !decide_False by congruence; done).
  split_and!; [congruence|congruence| | |by apply sublist_cons|done|done| | |].
  - by rewrite H3, E2, <- app_assoc.
  - rewrite H4, E1. f_equal. clear -Hhb. set_solver.
  - cbn. intros id [? ?]%not_elem_of_cons. repeat (constructor; [cbn; congruence|]). by apply H8.
  - intros g Hin. rewrite Hg; [auto|]. by eapply elem_of_sublist.
  - intros g [->|Hin]%elem_of_cons.
    + right. exists ok. cbn. rewrite !decide_True by done. by apply track_silent, H8.
    + rewrite Hg by done. auto.
Qed.
End Step.

Lemma fill_batch_ok fs : forall b (w : world), NoDup (List.map ft_id fs) -> (forall f, f ∈ fs -> ft_id f ∉ nw_heartbeat w) -> within b ->
  exists w' b' kept, fill_batch EqualFold c limits decode a b fs w = (w', Val b') /\ filled fs kept b b' w w' /\ within b'.
Proof using.
  induction fs as [|f fs IH]; intros b w Hnd Hhb Hw.
  { exists w, b, []. split_and!; [done| |done]. exists []. cbn. rewrite !app_nil_r, union_empty_l_L. split_and!; try done.
    - intros; constructor.
    - by intros ? ?%not_elem_of_nil.
    - by intros ? ?%not_elem_of_nil. }
  cbn in Hnd. apply NoDup_cons in Hnd as [Hf Hnd]. pose proof (Hhb f ltac:(by left)) as Hff.
  assert (forall g, g ∈ fs -> ft_id g <> ft_id f /\ ft_id g ∉ nw_heartbeat w) as Hgs.
  { intros g Hg. split; [by eapply elsewhere|]. apply Hhb. by right. }
  assert (forall w1 ok, nw_db w1 = nw_db w -> nw_streak w1 = nw_streak w -> nw_heartbeat w1 = ({[ft_id f]} ∪ nw_heartbeat w) ∖ {[ft_id f]} ->
    nw_trace w1 = (nw_trace w ++ [NvFetched (ft_id f); NvReject (ft_id f) ok])%list ->
    exists w' b' kept, fill_batch EqualFold c limits decode a b fs w1 = (w', Val b') /\ filled (f :: fs) kept b b' w w' /\ within b') as Hrej.
  { intros w1 ok E1 E2 E3 E4. destruct (IH b w1 Hnd) as (w' & b' & kept & E & Hfl & Hw'); [|done|].
    - intros g Hg. destruct (Hgs g Hg) as [N1 N2]. rewrite E3. clear -N1 N2. set_solver.
    - exists w', b', kept. split_and!; [done| |done]. by eapply filled_reject. }
  cbn [fill_batch]. unfold mbind at 1. cbn [heartbeat_Add]. cbv zeta.
  destruct (hasNATSBatchConflictingGeneration _ _) eqn:Ec; [eapply Hrej; [done..|cbn; by rewrite <- app_assoc]|].
  destruct (Z.ltb_spec (MaxBytes limits - nb_bytes b) (nd_canonicalBytes (read f))) as [|Hb]; [eapply Hrej; [done..|cbn; by rewrite <- app_assoc]|].
  set (w1 := with_trace _ _ w). destruct (IH (add_delivery (read f) b) w1 Hnd) as (w' & b' & kept & E & Hfl & Hw'); [|by apply within_add|].
  - intros g Hg. destruct (Hgs g Hg) as [N1 N2]. cbn. clear -N1 N2. set_solver.
  - exists w', b', (f :: kept). split_and!; [done| |done]. by apply (filled_keep f fs kept b b' w w1 w').
Qed.

(** A pull gives no more messages than were asked for, and each its own pointer. *)
Definition pulls_ok : Prop :=
  forall first f rest, ca_first a = Ok first -> fr_messages first = f :: rest ->
    match ca_fill a with
    | Err _ => True
    | Ok fill => NoDup (List.map ft_id (f :: fr_messages fill)) /\ Z.of_nat (List.length (fr_messages fill)) <= MaxMessages limits - 1
    end.

(** A batch made of the first message and of [kept], a part of the messages [fs]
    of the second pull. *)
Record gathered (f : fetched) (fs kept : list fetched) (b : natsBatch T) : Prop := {
  ga_first : exists first rest, ca_first a = Ok first /\ fr_messages first = f :: rest;
  ga_fill : fs = [] \/ exists fill, ca_fill a = Ok fill /\ fs = fr_messages fill;
  ga_kept : kept `sublist_of` fs;
  ga_deliveries : nb_deliveries b = List.map read (f :: kept);
  ga_alone : kept <> [] -> readable (read f) /\ natsBatchEligible (nm_metadata (nd_decoded (read f))) (ca_now a) = true;
  ga_count : Z.of_nat (List.length (nb_deliveries b)) <= MaxMessages limits;
  ga_bytes : nb_bytes b = total_bytes (nb_deliveries b) /\ (kept <> [] -> nb_bytes b <= MaxBytes limits);
  ga_generation : one_generation (nb_deliveries b) }.

(** Where a collection leaves the messages it pulled. *)
Definition gathering (fs kept : list fetched) (w w' : world) : Prop :=
  exists l, nw_db w' = nw_db w /\ nw_streak w' = nw_streak w /\ nw_trace w' = (nw_trace w ++ l)%list /\
    (forall id, id ∉ List.map ft_id fs -> silent id l) /\
    (forall f, f ∈ kept -> track (ft_id f) Unseen l = Some (Held Waiting true)) /\
    (forall f, f ∈ fs -> f ∈ kept \/ exists ok, track (ft_id f) Unseen l = Some (Refused ok)).

Definition collect_post (w : world) (r : world * comp (result error (option (natsBatch T)))) : Prop :=
  (exists x, r = (w, Val x) /\ match x with Ok (Some _) => False | _ => True end) \/
  exists w' f fs kept b, gathered f fs kept b /\ gathering (f :: fs) (f :: kept) w w' /\
    ((r = (w', Val (Ok (Some b))) /\ nw_heartbeat w' = list_to_set (List.map nd_id (nb_deliveries b))) \/
     exists err, r = (w', Val (Err err)) /\ nw_heartbeat w' = ∅).

Lemma read_id (f : fetched) : nd_id (read f) = ft_id f.
Proof using. unfold decodeNATSBatchDelivery. destruct (msg_Metadata _) as [[]|]; [|done]. by destruct (decode _ _ _). Qed.
Lemma read_ids l : List.map nd_id (List.map read l) = List.map ft_id l.
Proof using. rewrite map_map. apply map_ext. apply read_id. Qed.

Lemma one_generation_single x : one_generation [x].
Proof using. intros y z ->%list_elem_of_singleton ->%list_elem_of_singleton. done. Qed.

Context (Hmax : 1 <= MaxMessages limits) (Hpulls : pulls_ok).

Lemma gathering_stop fs kept (w w1 : world) : gathering fs kept w w1 -> gathering fs kept w (with_trace [NvStop] ∅ w1).
Proof using.
  intros (l & H1 & H2 & H3 & H4 & H5 & H6). exists (l ++ [NvStop])%list. cbn. split_and!; [done..| | | |].
  - by rewrite H3, app_assoc.
  - intros id Hid. apply silent_app. split; [auto|by apply silent_one].
  - intros f Hf. by rewrite track_app, (H5 f Hf).
  - intros f Hf. destruct (H6 f Hf) as [|[ok E]]; [by left|right]. exists ok. by rewrite track_app, E.
Qed.

Lemma gathering_filled f fs kept (b b0 : natsBatch T) (w w1 w2 : world) : ft_id f ∉ List.map ft_id fs -> nb_deliveries b0 = [read f] ->
  nw_db w1 = nw_db w -> nw_streak w1 = nw_streak w -> nw_trace w1 = (nw_trace w ++ [NvFetched (ft_id f)])%list ->
  nw_heartbeat w1 = list_to_set (List.map nd_id (nb_deliveries b0)) -> filled fs kept b0 b w1 w2 ->
  gathering (f :: fs) (f :: kept) w w2 /\ nw_heartbeat w2 = list_to_set (List.map nd_id (nb_deliveries b)).
Proof using.
  intros Hf Eb E1 E2 E3 E4 (l & H1 & H2 & H3 & H4 & H5 & H6 & _ & H8 & H9 & H10). split.
  2:{ rewrite H4, E4, H6, Eb, map_app, list_to_set_app_L, read_ids. by rewrite (comm_L (∪)). }
  exists (NvFetched (ft_id f) :: l).
  assert (forall g, g ∈ fs -> track (ft_id g) Unseen (NvFetched (ft_id f) :: l) = track (ft_id g) Unseen l) as Hg
    by (intros g Hg; cbn; rewrite decide_False; [done|]; intros E; by apply (elsewhere f fs Hf g Hg)).
  assert (track (ft_id f) Unseen (NvFetched (ft_id f) :: l) = Some (Held Waiting true)) as Hme
    by (cbn; rewrite decide_True by done; by apply track_silent, H8).
  split_and!; [congruence|congruence|by rewrite H3, E3, <- app_assoc| | |].
  - cbn. intros id [? ?]%not_elem_of_cons. constructor; [cbn; congruence|by apply H8].
  - intros g [->|Hin]%elem_of_cons; [done|]. rewrite Hg; [auto|]. by eapply elem_of_sublist.
  - intros g [->|Hin]%elem_of_cons; [left; by left|]. rewrite Hg by done. destruct (H10 g Hin); [left; by right|by right].
Qed.

Lemma collect_batch_ok (w : world) : nw_heartbeat w = ∅ ->
  collect_post w (collectNATSBatch EqualFold completed_text c limits decode a w).
Proof using Hmax Hpulls.
  intros Hhb. unfold collectNATSBatch. destruct (ca_first a) as [first|err] eqn:Efirst; [|left; by eexists].
  destruct (fr_messages first) as [|f rest] eqn:Ef; [left; destruct (fr_err first); by eexists|].
  set (b0 := {| nb_deliveries := [read f] |}). unfold mbind at 1. cbn [heartbeat_Add]. cbv zeta.
  set (w1 := with_trace [NvFetched (ft_id f)] _ w).
  assert (gathering [f] [f] w w1) as Hg0.
  { exists [NvFetched (ft_id f)]. split_and!; [done..| | |].
    - cbn. intros id [? _]%not_elem_of_cons. apply silent_one. cbn. congruence.
    - intros g ->%list_elem_of_singleton. cbn. by rewrite decide_True.
    - by left. }
  assert (gathered f [] [] b0) as Hb0.
  { constructor; [by eexists _, _|by left|done|done|done|exact Hmax|split; [cbn; lia|done]|apply one_generation_single]. }
  assert (nw_heartbeat w1 = list_to_set (List.map nd_id (nb_deliveries b0))) as Hhb1
    by (cbn; rewrite Hhb, read_id; done).
  assert (collect_post w (w1, Val (Ok (Some b0)))) as Hone by (right; exists w1, f, [], [], b0; split_and!; [done..|by left]).
  destruct (_ || _ || _ || _) eqn:Estop; [done|]. destruct (MaxWait limits <=? _); [done|].
  apply orb_false_iff in Estop as [[[Er Ee]%orb_false_iff _]%orb_false_iff Emax]. apply negb_false_iff in Er, Ee. apply Z.leb_gt in Emax.
  pose proof (Hpulls first f rest Efirst Ef) as Hfill. destruct (ca_fill a) as [fill|err] eqn:Efill.
  2:{ destruct (normalNATSBatchBoundary _ _ _); [done|]. right. exists (with_trace [NvStop] ∅ w1), f, [], [], b0.
      split_and!; [done|by apply gathering_stop|]. right. by eexists. }
  destruct Hfill as [Hnd Hlen]. cbn in Hnd. apply NoDup_cons in Hnd as [Hf Hnd].
  destruct (fill_batch_ok (fr_messages fill) b0 w1 Hnd) as (w2 & b & kept & E & Hfl & Hw).
  { intros g Hg. cbn. rewrite Hhb. pose proof (elsewhere f _ Hf g Hg) as Hne. clear -Hne. set_solver. }
  { split_and!; [cbn; lia|cbn in *; lia|apply one_generation_single]. }
  unfold mbind at 1. rewrite E. assert (gathered f (fr_messages fill) kept b) as Hb.
  { destruct Hfl as (l & _ & _ & _ & _ & Hsub & Hds & _). destruct Hw as (W1 & W2 & W3). constructor; [by eexists _, _|by right; eexists|done|by rewrite Hds| | |done|done].
    - intros _. split; [|done]. unfold readable. by destruct (nd_decodeErr _).
    - rewrite Hds. cbn. rewrite length_map. apply sublist_length in Hsub. lia. }
  destruct (gathering_filled f (fr_messages fill) kept b b0 w w1 w2) as [Hg Hhb2]; [done..|].
  destruct (normalNATSBatchBoundary _ _ _).
  - right. exists w2, f, (fr_messages fill), kept, b. split_and!; [done..|by left].
  - right. exists (with_trace [NvStop] ∅ w2), f, (fr_messages fill), kept, b. split_and!; [done|by apply gathering_stop|]. right. by eexists.
Qed.
End Collect.

(** ** Turns of the worker *)
Section Run.
Context (Hconsumer : hc_ConsumerID c <> "") (Hmode : WireMode_valid (hc_WireMode c) = true) (Hattempts : 1 <= hc_MaxAttempts c).
Context (Hmax : 1 <= MaxMessages limits) (ctx : C).
Abbreviation read := (decodeNATSBatchDelivery EqualFold c decode).

(** The messages that a turn pulls. *)
Definition pulled (t : ntick) : list fetched :=
  match ca_first (nt_collect t) with
  | Ok first =>
      match fr_messages first with
      | f :: _ => f :: match ca_fill (nt_collect t) with Ok fill => fr_messages fill | Err _ => [] end
      | [] => []
      end
  | Err _ => []
  end.
Definition tick_ok (t : ntick) : Prop :=
  pulls_ok (nt_collect t) /\ (forall id n, da_clock (ba_delivery (nt_answers t) id) n <> 0) /\ Forall (fun f => delivery_ok (read f)) (pulled t).

(** What a status says of a message. *)
Definition status_ok (d : DB B) (f : fetched) (st : status) : Prop :=
  match st with Held ph _ => phase_ok d (read f) ph | _ => True end.
Definition accounted (d : DB B) (l : list nevent) (f : fetched) : Prop :=
  exists st, track (ft_id f) Unseen l = Some st /\ status_ok d f st.

Lemma phase_keeps d d' x ph : keeps d d' -> phase_ok d x ph -> phase_ok d' x ph.
Proof using. intros Hk. destruct ph; cbn; try done; (intros [? ?]; split; [done|by apply Hk]). Qed.
Lemma accounted_keeps d d' l f : keeps d d' -> accounted d l f -> accounted d' l f.
Proof using. intros Hk (st & ? & Hst). exists st. split; [done|]. destruct st; cbn in *; try done. by eapply phase_keeps. Qed.
Lemma accounted_after d l k f : silent (ft_id f) k -> accounted d l f -> accounted d (l ++ k) f.
Proof using. intros Hk (st & E & ?). exists st. split; [|done]. by rewrite track_app, E, track_silent. Qed.
Lemma accounted_before d l k f : silent (ft_id f) l -> accounted d k f -> accounted d (l ++ k) f.
Proof using. intros Hk (st & E & ?). exists st. split; [|done]. by rewrite track_app, track_silent. Qed.
Lemma accounted_unseen d l f : silent (ft_id f) l -> accounted d l f.
Proof using. intros Hl. exists Unseen. split; [by apply track_silent|done]. Qed.

(** What a piece of a run leaves, over the messages [fs]. *)
Definition leaves (fs : list fetched) (w w' : world) : Prop :=
  exists l, nw_trace w' = (nw_trace w ++ l)%list /\ db_ok (nw_db w') /\ keeps (nw_db w) (nw_db w') /\
    (forall id, id ∉ List.map ft_id fs -> silent id l) /\ Forall (accounted (nw_db w') l) fs.

Lemma leaves_nothing fs (w : world) : db_ok (nw_db w) -> leaves fs w w.
Proof using.
  intros Hd. exists []. rewrite app_nil_r. split_and!; [done|done|done|intros; constructor|].
  apply Forall_forall. intros f _. apply accounted_unseen. constructor.
Qed.

Lemma leaves_app fs gs (w w1 w2 : world) : NoDup (List.map ft_id (fs ++ gs)) -> leaves fs w w1 -> leaves gs w1 w2 -> leaves (fs ++ gs) w w2.
Proof using.
  intros Hnd (l & A1 & A2 & A3 & A4 & A5) (k & B1 & B2 & B3 & B4 & B5). rewrite map_app in Hnd. apply NoDup_app in Hnd as (_ & Hnd & _).
  exists (l ++ k)%list. split_and!; [by rewrite B1, A1, app_assoc|done|by etrans| |].
  - intros id. rewrite map_app, not_elem_of_app. intros [? ?]. apply silent_app. auto.
  - apply Forall_app. split; apply Forall_forall; intros f Hf.
    + apply accounted_after; [apply B4; apply Hnd; by apply list_elem_of_fmap_2|]. rewrite Forall_forall in A5. by eapply accounted_keeps; [|apply A5].
    + apply accounted_before; [|rewrite Forall_forall in B5; by apply B5]. apply A4. intros Hin. apply (Hnd (ft_id f) Hin). by apply list_elem_of_fmap_2.
Qed.

Lemma same_pull (fs : list fetched) f g : NoDup (List.map ft_id fs) -> f ∈ fs -> g ∈ fs -> ft_id f = ft_id g -> f = g.
Proof using.
  intros Hnd [i Hi]%list_elem_of_lookup [j Hj]%list_elem_of_lookup E. assert (i = j) as ->; [|by simplify_eq].
  eapply NoDup_lookup; [exact Hnd|by rewrite list_lookup_fmap, Hi|]. by rewrite list_lookup_fmap, Hj, E.
Qed.
Lemma leaves_more fs gs (w w' : world) : fs `sublist_of` gs -> NoDup (List.map ft_id gs) -> leaves fs w w' -> leaves gs w w'.
Proof using.
  intros Hsub Hnd (l & A1 & A2 & A3 & A4 & A5). exists l. split_and!; [done..| |].
  - intros id Hid. apply A4. intros Hin. apply Hid. apply list_elem_of_fmap in Hin as (f & -> & Hf). apply list_elem_of_fmap_2. by eapply elem_of_sublist.
  - apply Forall_forall. intros f Hf. destruct (decide (ft_id f ∈ List.map ft_id fs)) as [Hin|Hout]; [|by apply accounted_unseen, A4].
    apply list_elem_of_fmap in Hin as (g & E & Hg). rewrite Forall_forall in A5. specialize (A5 g Hg).
    by rewrite (same_pull gs f g Hnd Hf ltac:(by eapply elem_of_sublist) E).
Qed.

Lemma leaves_note fs (w w' : world) e : owner e = None -> leaves fs w w' -> leaves fs w (with_trace [e] (nw_heartbeat w') w').
Proof using.
  intros He (l & A1 & A2 & A3 & A4 & A5). exists (l ++ [e])%list. cbn. split_and!; [by rewrite A1, app_assoc|done|done| |].
  - intros id Hid. apply silent_app. split; [auto|]. apply silent_one. by rewrite He.
  - eapply Forall_impl; [exact A5|]. intros f. apply accounted_after. apply silent_one. by rewrite He.
Qed.

Lemma gathering_leaves fs kept (w w' : world) : db_ok (nw_db w) -> gathering fs kept w w' -> leaves fs w w'.
Proof using.
  intros Hd (l & E1 & E2 & E3 & H1 & H2 & H3). exists l. rewrite E1. split_and!; [done..|].
  apply Forall_forall. intros f Hf. destruct (H3 f Hf) as [Hk|[ok E]]; [|by exists (Refused ok)]. exists (Held Waiting true). split; [by apply H2|done].
Qed.

(** The batch made of [kept] was processed. *)
Lemma processed_leaves fs kept b d (w w1 : world) r : NoDup (List.map ft_id fs) -> kept `sublist_of` fs -> nb_deliveries b = List.map read kept ->
  gathering fs kept w w1 -> db_ok d -> keeps (nw_db w) d -> batch_post (nb_deliveries b) d w1 r -> leaves fs w r.1.
Proof using.
  intros Hnd Hsub Eb (l & E1 & _ & E3 & H1 & H2 & H3) Hd Hk (k & ks & B1 & B2 & B3 & B4 & _ & B6).
  rewrite Eb in *. rewrite read_ids in B3. rewrite Forall_forall in B4.
  destruct (confirm_keeps ks d Hd) as [Hdb Hkk].
  { apply Forall_forall. intros p Hp. rewrite Forall_forall in B6. destruct (B6 p.1) as (x & _ & _ & E & _); [by apply list_elem_of_fmap_2|].
    rewrite E. apply length_Sum256. }
  exists (l ++ k)%list. rewrite B1. split_and!; [by rewrite B2, E3, app_assoc|done|by etrans| |].
  - intros id Hid. apply silent_app. split; [auto|]. apply B3. intros Hin. apply Hid. eapply elem_of_sublist; [exact Hin|].
    by apply fmap_sublist.
  - apply Forall_forall. intros f Hf. destruct (decide (ft_id f ∈ List.map ft_id kept)) as [Hin|Hout].
    + apply list_elem_of_fmap in Hin as (g & E & Hg). unfold accounted. rewrite (same_pull fs f g Hnd Hf ltac:(by eapply elem_of_sublist) E).
      destruct (B4 (read g)) as (ph & [watched Ht] & Hp & _); [by apply list_elem_of_fmap_2|]. rewrite read_id in Ht. exists (Held ph watched).
      rewrite track_app, (H2 g Hg). split; [done|]. by eapply phase_keeps.
    + apply accounted_after; [by apply B3|]. destruct (H3 f Hf) as [Hk'|[ok E]]; [|by exists (Refused ok)].
      exfalso. apply Hout. by apply list_elem_of_fmap_2.
Qed.

Lemma stopped_heartbeat a b (w : world) w' err :
  processNATSBatch ops ctx_Err json_Marshal json_Valid ToLower c limits handler a ctx b w = (w', Val err) -> nw_heartbeat w' = ∅.
Proof using.
  unfold processNATSBatch, mbind. destruct (process_body _ _ _ _ _ _ _ _ _ _ b w) as [w1 [e| |]]; [|done..].
  by destruct (hc_HasObservers c); intros [= <- _].
Qed.

Definition turned (t : ntick) (w : world) (r : world * comp nflow) : Prop :=
  leaves (pulled t) w r.1 /\ (r.2 = Val NContinue -> nw_heartbeat r.1 = ∅).

Lemma worker_turn_ok t (w : world) : tick_ok t -> db_ok (nw_db w) -> nw_heartbeat w = ∅ -> NoDup (List.map ft_id (pulled t)) ->
  turned t w (worker_turn ops ctx_Err json_Marshal json_Valid ToLower EqualFold completed_text c limits decode handler ctx t w).
Proof using Hconsumer Hmode Hattempts Hmax BatchBackend0.
  intros (Hp & Hc & Hdel) Hd Hhb Hnd. unfold worker_turn. destruct (nt_admission t); cbn [negb]; [|split; [by apply leaves_nothing|done]].
  unfold mbind at 1. destruct (collect_batch_ok (nt_collect t) Hmax Hp w Hhb) as [(x & -> & Hx)|(w1 & f & fs & kept & b & Hg & Hga & Hr)].
  { destruct x as [[b|]|err]; [done|split; [by apply leaves_nothing|intros _; exact Hhb]|]. destruct (normalNATSBatchBoundary _ _ _); [split; [by apply leaves_nothing|intros _; exact Hhb]|].
    split; [|done]. apply leaves_note; [done|by apply leaves_nothing]. }
  assert (f :: fs `sublist_of` pulled t) as Hsub.
  { unfold pulled. destruct (ga_first _ _ _ _ _ Hg) as (first & rest & -> & ->). apply sublist_skip.
    destruct (ga_fill _ _ _ _ _ Hg) as [->|(fill & -> & ->)]; [apply sublist_nil_l|done]. }
  assert (NoDup (List.map ft_id (f :: fs))) as Hnd' by (eapply sublist_NoDup; [exact Hnd|by apply fmap_sublist]).
  destruct Hr as [[-> Hhb1]|(err & -> & Hhb1)].
  2:{ assert (leaves (pulled t) w w1) as Hl by (eapply leaves_more; [exact Hsub|exact Hnd|by eapply gathering_leaves]).
      destruct (normalNATSBatchBoundary _ _ _); [by split|]. split; [|done]. by apply leaves_note. }
  pose proof (ga_deliveries _ _ _ _ _ Hg) as Eb.
  assert (f :: kept `sublist_of` f :: fs) as Hkept by (apply sublist_skip, (ga_kept _ _ _ _ _ Hg)).
  assert (Forall delivery_ok (nb_deliveries b)) as Hok.
  { rewrite Eb. apply Forall_fmap. apply Forall_forall. intros g Hin. rewrite Forall_forall in Hdel. apply Hdel.
    eapply elem_of_sublist; [exact Hin|]. by etrans. }
  assert (nw_db w1 = nw_db w) as Hdb1 by (by destruct Hga as (l & ? & _)).
  assert (NoDup (List.map nd_id (nb_deliveries b))) as Hids by (rewrite Eb, read_ids; eapply sublist_NoDup; [exact Hnd'|by apply fmap_sublist]).
  assert (db_ok (nw_db w1)) as Hd1 by by rewrite Hdb1.
  pose proof (process_batch_ok (nt_answers t) Hc Hconsumer Hmode ctx Hattempts b w1 Hd1 Hok Hids) as Hpost.
  destruct (batch_attempted_ok (nt_answers t) ctx Hattempts (nb_deliveries b) (nw_db w1) Hok Hd1) as [Hd2 Hk2]. rewrite Hdb1 in Hd2, Hk2, Hpost.
  assert (leaves (pulled t) w (processNATSBatch ops ctx_Err json_Marshal json_Valid ToLower c limits handler (nt_answers t) ctx b w1).1) as Hl
    by (eapply leaves_more; [exact Hsub|exact Hnd|by apply (processed_leaves (f :: fs) (f :: kept) b _ w w1 _ Hnd' Hkept Eb Hga Hd2 Hk2)]).
  pose proof (stopped_heartbeat (nt_answers t) b w1) as Hst. unfold mbind at 1.
  destruct (processNATSBatch _ _ _ _ _ _ _ _ _ _ b w1) as [w2 [[err|]| |]]; cbn [fst snd] in *; [|split; [done|intros _; by eapply Hst]|done..].
  split; [|done]. by apply leaves_note.
Qed.

Lemma worker_turns_ok ts : forall w : world, Forall tick_ok ts -> db_ok (nw_db w) -> nw_heartbeat w = ∅ -> NoDup (List.map ft_id (List.flat_map pulled ts)) ->
  leaves (List.flat_map pulled ts) w
    (worker_turns ops ctx_Err json_Marshal json_Valid ToLower EqualFold completed_text c limits decode handler ctx ts w).1.
Proof using Hconsumer Hmode Hattempts Hmax BatchBackend0.
  induction ts as [|t ts IH]; intros w Ht Hd Hhb Hnd; cbn [worker_turns List.flat_map]; [by apply leaves_nothing|].
  apply Forall_cons in Ht as [Ht Hts]. cbn [List.flat_map] in Hnd. pose proof Hnd as Hnd'. rewrite map_app in Hnd'. apply NoDup_app in Hnd' as (Hnd1 & _ & Hnd2).
  pose proof (worker_turn_ok t w Ht Hd Hhb Hnd1) as Hturn. unfold mbind.
  destruct (worker_turn _ _ _ _ _ _ _ _ _ _ _ _ t w) as [w1 r]. destruct Hturn as [Hl Hh]. cbn [fst snd] in *.
  assert (db_ok (nw_db w1)) as Hd1 by by destruct Hl as (l & _ & ? & _).
  assert (leaves (pulled t ++ List.flat_map pulled ts) w w1) as Hstop by (eapply leaves_app; [done|exact Hl|by apply leaves_nothing]).
  destruct r as [[|]| |]; [|done..]. eapply leaves_app; [done|exact Hl|]. apply IH; auto.
Qed.
End Run.
End Batch.

(** ** Theorems *)
Lemma nats_batch_consumer_facts {B C Mw} deps sup supports js_err info (config0 c : HandlerConfig B C) subject (batch0 limits : BatchConfig Mw) :
  newNATSBatchConsumer deps sup supports js_err info config0 batch0 = Ok (c, subject, limits) ->
  hc_ConsumerID c <> "" /\ WireMode_valid (hc_WireMode c) = true /\ 1 <= hc_MaxAttempts c /\ 1 <= MaxMessages limits.
Proof.
  unfold newNATSBatchConsumer. destruct (hc_Middlewares config0); [|done]. destruct (newConsumer _ _ _ _ _) as [[c' s']|] eqn:Ec; [|done].
  destruct (negb supports); [done|]. destruct (Normalize _ _) as [n|] eqn:En; [|done]. intros E%Ok_inj. injection E as -> -> ->.
  apply normalized_messages in En. by destruct (NatsDelivery.newConsumer_facts _ _ _ _ _ _ _ Ec) as (? & ? & ? & _).
Qed.

Section Theorems.
Context {B C T : Type} {collate : string -> string -> bool} `{!InboxBackend B collate, !EnvelopeJSON, !Manifest.MapRange}.
Context (ops : batchOps B) `{!BatchBackend ops}.
Context (ctx_Err : C -> B -> option error).
Context (json_Marshal : DLQRecord -> result error string) (json_Valid : string -> bool).
Context (ToLower : string -> string) (EqualFold : string -> string -> bool) (completed_text : error -> bool).
Context (decode : string -> Header -> Time -> result error (batchDecoded T)) (handler : @BatchHandler B C T) (ctx : C).
Context (deps sup supports : bool) (js_err : option error) (info : DescriptorInfo) (config0 c : HandlerConfig B C) (subject : string)
  (batch0 limits : BatchConfig (@BatchMiddleware B C)).
Context (Hnew : newNATSBatchConsumer deps sup supports js_err info config0 batch0 = Ok (c, subject, limits)).
Abbreviation world := (nworld B).

(** The collection of a batch, for every broker, clock and content of the
    messages: it always returns and changes no table.  Either nothing was pulled;
    or the batch is the first message followed by some of the second pull, in
    their order: at most [MaxMessages], of at most [MaxBytes] unless it is the
    first message alone, none in two attempt generations, and the first alone
    unless it is readable and due.  Every other message of the second pull was
    handed back.  The heartbeat then watches exactly the deliveries of the batch,
    or an error is reported and it was stopped. *)
Theorem nats_batch_collection a (w : world) :
  pulls_ok limits a -> nw_heartbeat w = ∅ ->
  let r := collectNATSBatch EqualFold completed_text c limits decode a w in
  (exists x, r = (w, Val x) /\ match x with Ok (Some _) => False | _ => True end) \/
  exists w' f fs kept b, gathered EqualFold c limits decode a f fs kept b /\ gathering (f :: fs) (f :: kept) w w' /\
    ((r = (w', Val (Ok (Some b))) /\ nw_heartbeat w' = list_to_set (List.map nd_id (nb_deliveries b))) \/
     exists err, r = (w', Val (Err err)) /\ nw_heartbeat w' = ∅).
Proof using Hnew.
  intros Hp Hhb r. destruct (nats_batch_consumer_facts _ _ _ _ _ _ _ _ _ _ Hnew) as (_ & _ & _ & Hmax).
  exact (collect_batch_ok EqualFold completed_text c limits decode a Hmax Hp w Hhb).
Qed.

(** C19. The settlement of a batch, whatever the broker, the Inbox faults, the
    handler, the middlewares, the clock and the schedule of the goroutines do.
    The tables change by one Inbox attempt with the deliveries that are due and by
    confirmations.  Each delivery follows the protocol: it is acknowledged only
    after its message is completed in the Inbox or after the broker confirmed a
    dead letter that carries it (headers and payload, or their digests and sizes when
    they cannot be represented or do not fit), never both handed back and dead-lettered, and it
    leaves the heartbeat only with an answer.  When no error is returned every
    delivery is acknowledged, handed back, dead-lettered, or completed with an
    acknowledgement that failed.  Terminal states are confirmed at most once each
    and only for messages whose dead letter is stored and acknowledged.  The
    handler gets the decoded message of each delivery the Inbox admits. *)
Theorem nats_batch_settlement a b (w : world) :
  (forall id n, da_clock (ba_delivery a id) n <> 0) -> db_ok (nw_db w) ->
  Forall (delivery_ok c) (nb_deliveries b) -> NoDup (List.map nd_id (nb_deliveries b)) ->
  let r := processNATSBatch ops ctx_Err json_Marshal json_Valid ToLower c limits handler a ctx b w in
  let d := attempted ops ctx_Err c limits handler a ctx (nb_deliveries b) (nw_db w) in
  (exists l ks, nw_db r.1 = perform_all (confirm_ops ks) d /\ nw_trace r.1 = (nw_trace w ++ l)%list /\
    Forall (fun x => exists ph, goes l x ph /\ phase_ok json_Marshal ToLower c d x ph /\ (r.2 = Val None -> concluded ph)) (nb_deliveries b) /\
    NoDup (List.map fst ks) /\
    Forall (fun k => exists x, x ∈ nb_deliveries b /\ readable x /\ k = (key_of c x, it_Fingerprint (toBatchItem c x)) /\ died l x)
      (List.map fst ks)) /\
  forall active state, Forall (fun it => it ∈ deliveries c (ba_now a) (nb_deliveries b)) active ->
    exists xs, Forall2 (fun it x => x ∈ nb_deliveries b /\ readable x /\ it = toBatchItem c x) active xs /\
      inbox_batch_handler ctx_Err c limits handler ctx (ba_now a) (nb_deliveries b) active state
      = batch_invoke ctx_Err c limits handler ctx (List.map nd_decoded xs) state.
Proof using Hnew BatchBackend0.
  intros Hc Hd Hok Hnd r d. destruct (nats_batch_consumer_facts _ _ _ _ _ _ _ _ _ _ Hnew) as (H1 & H2 & H3 & _). split.
  - destruct (process_batch_ok ops ctx_Err json_Marshal json_Valid ToLower c limits handler a Hc H1 H2 ctx H3 b w Hd Hok Hnd)
      as (l & ks & ? & ? & _ & ? & ? & ?). exists l, ks. by split_and!.
  - intros active state Ha. by apply batch_handler_messages.
Qed.

(** C18. A run of the worker loses no message, whatever the broker, the Inbox
    faults, the handlers, the clock and the schedules of the goroutines do.  The
    tables keep their invariant and every completion.  Each message that the run
    pulled stands where the protocol allows: when it is acknowledged, it is
    completed in the Inbox in the final tables, or the broker confirmed a dead
    letter that carries it (headers and payload, or their digests and sizes when they
    cannot be represented or do not fit); otherwise the broker still has it. *)
Theorem nats_batch_no_loss d ts :
  db_ok d -> Forall (tick_ok EqualFold c limits decode) ts -> NoDup (List.map ft_id (List.flat_map pulled ts)) ->
  let w := (runNATSBatchWorker ops ctx_Err json_Marshal json_Valid ToLower EqualFold completed_text c limits decode handler ctx d ts).1 in
  db_ok (nw_db w) /\ keeps d (nw_db w) /\
  forall f, f ∈ List.flat_map pulled ts -> exists st, track (ft_id f) Unseen (nw_trace w) = Some st /\
    match st with
    | Held ph _ => phase_ok json_Marshal ToLower c (nw_db w) (decodeNATSBatchDelivery EqualFold c decode f) ph
    | _ => True
    end.
Proof using Hnew BatchBackend0.
  intros Hd Hts Hnd w. destruct (nats_batch_consumer_facts _ _ _ _ _ _ _ _ _ _ Hnew) as (H1 & H2 & H3 & H4).
  destruct (worker_turns_ok ops ctx_Err json_Marshal json_Valid ToLower EqualFold completed_text c limits decode handler H1 H2 H3 H4 ctx ts
    {| nw_db := d; nw_streak := 0; nw_heartbeat := ∅; nw_trace := [] |} Hts Hd eq_refl Hnd) as (l & E & Hok & Hk & _ & Hf).
  split_and!; [exact Hok|exact Hk|]. intros f Hin. rewrite Forall_forall in Hf. assert (nw_trace w = l) as -> by exact E. by apply Hf.
Qed.
End Theorems.
End NatsBatchProofs.
