(* ===== verification/NatsWitness.v ===== *)
(** * NATS deliveries on concrete messages

    [NatsWitness]: a consumer over the PostgreSQL backend, a message that is charged,
    one whose handler fails permanently, and a broker that answers at the second
    try.  [NatsBatchWitness]: a batch of three messages, one that the batch handler
    charges, one that cannot be decoded and one that is not due yet, settled by two
    goroutines whose steps interleave. *)
From S2P Require Import Prelude GoStrings Errors Ident Batch Envelope EnvelopeProofs Inbox InboxSQL InboxSpec InboxEffects PgRefine InboxBatch InboxBatchSpec PgBatch InboxStore InboxTheorems InboxBatchTheorems Middleware Delivery Manifest NatsDLQ NatsSubject NatsConsumer NatsDelivery.
From S2P Require Import NatsBatch NatsBatchPool NatsBatchProofs.
Import Stdlib.Strings.String.
Import Delivery NatsDLQ NatsConsumer NatsDelivery.
Open Scope string_scope.
Open Scope Z_scope.

Module NatsWitness.
Abbreviation Tables := (list string).

#[local] Instance store1 : InboxBackend Tables String.leb := PgRefine.Pg_backend _ _.

(** The context [true] has been canceled. *)
Definition ctxErr (c : bool) (t : nat) : option error := if c then Some (ESentinel Canceled) else None.

Definition paid_metadata : Metadata :=
  {| md_ID := "0123456789abcdef"; md_Kind := KindEvent; md_Name := "order.paid"; md_SchemaVersion := 2; md_Source := "shop";
     md_Subject := ""; md_Time := 1; md_CorrelationID := zeroID; md_CausationID := zeroID; md_Key := "";
     md_ContentType := "application/json"; md_Schema := ""; md_Headers := ∅; md_NotBefore := 0; md_ExpiresAt := 0 |}.

Definition charge (_ : bool) (b : Tables) : Tables * Middleware.flow := (("charged" :: b)%list, Middleware.Ret None).
Definition refuse (_ : bool) (b : Tables) : Tables * Middleware.flow :=
  (("partial" :: b)%list, Middleware.Ret (Permanent (Some (ENew "no such order")))).

Definition decode0 (data : string) (_ : Header) (_ : Time) : result error (decodedMessage Tables bool) :=
  if String.eqb data "charge"
  then Ok {| dm_metadata := paid_metadata; dm_canonical := data; dm_handle := charge |}
  else if String.eqb data "poison"
  then Ok {| dm_metadata := paid_metadata; dm_canonical := data; dm_handle := refuse |}
  else Err (ENew "not an envelope").

Definition config0 : HandlerConfig Tables bool :=
  {| hc_Stream := "ORDERS"; hc_Namespace := "shop"; hc_ConsumerID := "billing"; hc_Description := "";
     hc_WireMode := WireNative; hc_Concurrency := 0; hc_MaxAckPending := 0; hc_Timeout := 0; hc_FinalizationTimeout := 0;
     hc_MaxAttempts := 3; hc_BaseRetry := 0; hc_MaxRetry := 0; hc_AckWait := 0; hc_DLQSubject := ""; hc_Replicas := 0;
     hc_MemoryStorage := false; hc_HasObservers := true; hc_NilPanicReporter := true; hc_Middlewares := [];
     hc_FailureSanitizer := None |}.
Definition config1 : HandlerConfig Tables bool := set_dlq "shop.dlq" (applyConsumerDefaults config0).

Lemma config1_ok : newConsumer true true None NatsSubject.order_paid config0 = Ok (config1, "shop.event.order.paid.v2").
Proof. vm_compute. reflexivity. Qed.

Definition answers0 : answers :=
  {| a_inbox := env0; a_confirm := env0; a_clock := fun n => 1000 + Z.of_nat n; a_random := fun _ m => Some 0;
     a_canceled := false; a_ctxErr := ESentinel Canceled;
     a_publish := [({| pa_err := Some (ENew "timeout"); pa_stream := None |}, true); ({| pa_err := None; pa_stream := Some "DLQ" |}, true)];
     a_deadAck := [(Some (ENew "timeout"), true); (None, true)]; a_ack := Some (ENew "timeout"); a_nak := None; a_retention := true |}.

Definition delivery_of (data : string) : delivery :=
  {| dv_msg := {| msg_Metadata := Ok (1, 5); msg_Data := data; msg_Headers := ∅; msg_Subject := "shop.event.order.paid.v2" |};
     dv_answers := answers0; dv_ctx := false; dv_t0 := 0 |}.

Lemma delivery_of_ok data : delivery_ok String.eqb decode0 config1 (delivery_of data).
Proof.
  split; [done|]. split; [intros n; cbn; lia|]. split; [by intros n t [= <- _]|]. intros dm _ Hl. discriminate Hl.
Qed.

Abbreviation deliver0 := (deliver (collate := String.leb) ctxErr demo_marshal (fun _ => true) (fun s => s) String.eqb decode0 config1).

Definition sealed (o : option phase) : bool := match o with Some (Sealed _) => true | _ => false end.

(** The refused message ends as a sealed dead letter that carries it. *)
Lemma nats_settlement_witness :
  exists p, follow Idle (w_trace (deliver0 (delivery_of "poison") db0).1) = Some (Sealed p) /\
    carries demo_marshal (fun s => s) config1 (dv_msg (delivery_of "poison")) p.
Proof.
  destruct (nats_settlement (collate := String.leb) ctxErr demo_marshal (fun _ => true) (fun s => s) String.eqb decode0 true true None
    NatsSubject.order_paid config0 config1 "shop.event.order.paid.v2" (delivery_of "poison") db0
    config1_ok (delivery_of_ok _) (empty_db_ok [])) as (ph & ops & Hf & Hk & _).
  assert (sealed (follow Idle (w_trace (deliver0 (delivery_of "poison") db0).1)) = true) as Hs by (vm_compute; reflexivity).
  rewrite Hf in Hs |- *. destruct ph as [| | | | | |p|]; try discriminate Hs. exists p. split; [reflexivity|exact Hk].
Defined.

(** The broker accepts what is asked of it, the dead letter at the second try. *)
Definition answered_of (data : string) : delivery :=
  {| dv_msg := dv_msg (delivery_of data);
     dv_answers := {| a_inbox := env0; a_confirm := env0; a_clock := a_clock answers0; a_random := a_random answers0; a_canceled := false;
                      a_ctxErr := ESentinel Canceled; a_publish := a_publish answers0; a_deadAck := a_deadAck answers0; a_ack := None;
                      a_nak := None; a_retention := true |};
     dv_ctx := false; dv_t0 := 0 |}.

Lemma nats_progress_witness : (deliver0 (answered_of "poison") db0).2 = Val tt.
Proof.
  apply (nats_progress (collate := String.leb) ctxErr demo_marshal (fun _ => true) (fun s => s) String.eqb decode0 true true None
    NatsSubject.order_paid config0 config1 "shop.event.order.paid.v2" (answered_of "poison") db0
    config1_ok (delivery_of_ok "poison")).
  - vm_compute. reflexivity.
  - exact I.
  - reflexivity.
  - reflexivity.
  - reflexivity.
  - right. split; [reflexivity|left; reflexivity].
  - right. split; [reflexivity|left; reflexivity].
Defined.

Abbreviation consume0 := (consume (collate := String.leb) ctxErr demo_marshal (fun _ => true) (fun s => s) String.eqb decode0 config1).

(** The acknowledgement of the first delivery is lost; the second one finds the
    message completed. *)
Lemma nats_exactly_once_witness :
  business (consume0 [delivery_of "charge"; delivery_of "charge"] db0) = ["charged"] /\
  exists log, NoDup (List.map fst log) /\
    business (consume0 [delivery_of "charge"; delivery_of "charge"] db0) = apply_log log [].
Proof.
  split; [vm_compute; reflexivity|].
  assert (Forall (delivery_ok String.eqb decode0 config1) [delivery_of "charge"; delivery_of "charge"]) as Hok
    by (repeat constructor; apply delivery_of_ok).
  destruct (nats_exactly_once (collate := String.leb) ctxErr demo_marshal (fun _ => true) (fun s => s) String.eqb decode0 true true None
    NatsSubject.order_paid config0 config1 "shop.event.order.paid.v2" _ db0 config1_ok Hok (empty_db_ok []))
    as (log & H1 & H2 & _).
  exists log. split; [exact H1|exact H2].
Defined.
End NatsWitness.

(** ** A batch *)
Module NatsBatchWitness.
Import Envelope EnvelopeProofs NatsWitness NatsBatch NatsBatchPool NatsBatchProofs.

#[local] Instance store3 : InboxBackend Tables String.leb := PgRefine.Pg_backend _ _.
#[local] Existing Instance demo_json.
#[local] Program Instance ranges3 : Manifest.MapRange := {| Manifest.range := fun K A _ _ => map_to_list |}.
Next Obligation. done. Qed.

Definition limits0 : BatchConfig (@BatchMiddleware Tables bool) := {| MaxMessages := 0; MaxBytes := 0; MaxWait := 0; Middlewares := [] |}.
Definition limits1 : BatchConfig (@BatchMiddleware Tables bool) :=
  match newNATSBatchConsumer true true true None NatsSubject.order_paid config0 limits0 with Ok (_, _, l) => l | Err _ => limits0 end.
Lemma limits1_ok : newNATSBatchConsumer true true true None NatsSubject.order_paid config0 limits0 = Ok (config1, "shop.event.order.paid.v2", limits1).
Proof. vm_compute. reflexivity. Qed.

Definition later_metadata : Metadata :=
  {| md_ID := "fedcba9876543210"; md_Kind := KindEvent; md_Name := "order.paid"; md_SchemaVersion := 2; md_Source := "shop";
     md_Subject := ""; md_Time := 1; md_CorrelationID := zeroID; md_CausationID := zeroID; md_Key := "";
     md_ContentType := "application/json"; md_Schema := ""; md_Headers := ∅; md_NotBefore := 5000; md_ExpiresAt := 0 |}.
Definition decoded_as (data : string) (m : Metadata) : batchDecoded unit :=
  {| nm_metadata := m; nm_canonical := data; nm_value := Some {| m_Metadata := m; m_Payload := tt |} |}.
Definition decode1 (data : string) (_ : Header) (_ : Time) : result error (batchDecoded unit) :=
  if String.eqb data "charge" then Ok (decoded_as data paid_metadata)
  else if String.eqb data "later" then Ok (decoded_as data later_metadata)
  else Err (ENew "not an envelope").
Definition charge_all : @BatchHandler Tables bool unit := fun _ messages b =>
  ((List.map (fun _ => "charged") messages ++ b)%list,
   Returned (List.map (fun m => {| bi_Key := Batch.message_key m; bi_Err := None |}) messages) None).
Definition ctxErr1 (_ : bool) (_ : Tables) : option error := None.

Definition fetched_of (id : nat) (data : string) : fetched :=
  {| ft_id := id; ft_msg := {| msg_Metadata := Ok (1, 5); msg_Data := data; msg_Headers := ∅; msg_Subject := "shop.event.order.paid.v2" |} |}.
Definition first1 : fetched := fetched_of 1 "charge".
Definition rest1 : list fetched := [fetched_of 2 "junk"; fetched_of 3 "later"].
Definition collect_answers : collectAnswers :=
  {| ca_first := Ok {| fr_messages := [first1]; fr_err := None |}; ca_fill := Ok {| fr_messages := rest1; fr_err := Some (ESentinel DeadlineExceeded) |};
     ca_started := 1000; ca_now := 1001; ca_elapsed := 1002; ca_fillEnded := false; ca_reject := fun _ => None |}.

(** Every first answer of the broker is lost. *)
Definition delivery_answers : deliveryAnswers :=
  {| da_clock := fun n => 1000 + Z.of_nat n; da_random := fun _ _ => Some 0; da_ack := None; da_ackEnded := false;
     da_naks := [{| na_err := Some (ENew "timeout"); na_ended := false; na_fired := true |}; {| na_err := None; na_ended := false; na_fired := true |}];
     da_publish := [({| pa_err := Some (ENew "timeout"); pa_stream := None |}, true); ({| pa_err := None; pa_stream := Some "DLQ" |}, true)];
     da_deadAck := [(Some (ENew "timeout"), true); (None, true)] |}.
Definition batch_answers : batchAnswers :=
  {| ba_inbox := env0; ba_now := 1010; ba_random := fun _ => Some 0; ba_ctxErr := ESentinel Canceled; ba_delivery := fun _ => delivery_answers;
     ba_schedule := [MTake 0; MTake 1; MCheck 1; MCheck 0; MFinish 0; MLeave 0; MFinish 1; MLeave 1]; ba_retention := true;
     ba_confirm := fun _ => Some env0 |}.
Definition turn1 : ntick := {| nt_admission := true; nt_collect := collect_answers; nt_ended := false; nt_answers := batch_answers |}.
Abbreviation read1 := (decodeNATSBatchDelivery String.eqb config1 decode1).

Lemma read1_ok f : f ∈ first1 :: rest1 -> delivery_ok config1 (read1 f).
Proof.
  intros Hf. assert (readable (read1 f) -> MessageID_wf (md_ID (nm_metadata (nd_decoded (read1 f)))) /\ nd_attemptGeneration (read1 f) = "").
  { repeat (apply elem_of_cons in Hf as [->|Hf]; [vm_compute; by repeat split|]). by apply not_elem_of_nil in Hf. }
  split; [repeat (apply elem_of_cons in Hf as [->|Hf]; [done|]); by apply not_elem_of_nil in Hf|].
  intros Hr. destruct (H Hr) as [Hid Hgen]. split; [exact Hid|]. intros Hl. exfalso. revert Hl. unfold legacy. cbn. by rewrite Hgen.
Qed.
Lemma pulls1_ok : pulls_ok limits1 collect_answers.
Proof.
  intros first f l [= <-] [= <- <-]. split; [vm_compute; repeat constructor; rewrite ?elem_of_cons, ?elem_of_nil; intuition discriminate|].
  vm_compute. discriminate.
Qed.
Lemma clock1_ok : forall id n, da_clock (ba_delivery batch_answers id) n <> 0.
Proof. intros id n. cbn. lia. Qed.

Definition world1 : nworld Tables := {| nw_db := db0; nw_streak := 0; nw_heartbeat := ∅; nw_trace := [] |}.
Definition collected1 : nworld Tables * comp (result error (option (natsBatch unit))) :=
  collectNATSBatch String.eqb (fun _ => false) config1 limits1 decode1 collect_answers world1.
Definition batch1 : natsBatch unit := {| nb_deliveries := List.map read1 (first1 :: rest1); nb_bytes := 15; nb_startedAt := 1000 |}.

(** The three messages make the batch, and the heartbeat watches them. *)
Lemma nats_batch_collection_witness :
  collected1.2 = Val (Ok (Some batch1)) /\ nw_heartbeat collected1.1 = list_to_set [1; 2; 3]%nat /\
  exists f fs kept, gathered String.eqb config1 limits1 decode1 collect_answers f fs kept batch1.
Proof.
  assert (collected1.2 = Val (Ok (Some batch1))) as E by (vm_compute; reflexivity).
  split; [exact E|]. split; [vm_compute; reflexivity|].
  destruct (nats_batch_collection String.eqb (fun _ => false) decode1 true true true None NatsSubject.order_paid config0 config1
    "shop.event.order.paid.v2" limits0 limits1 limits1_ok collect_answers world1 pulls1_ok eq_refl)
    as [(x & Er & Hx)|(w' & f & fs & kept & b & Hg & _ & [[Er _]|(err & Er & _)])]; fold collected1 in Er; rewrite Er in E.
  - injection E as ->. contradiction.
  - injection E as ->. exists f, fs, kept. exact Hg.
  - discriminate E.
Defined.

Abbreviation process1 := (processNATSBatch PgBatch.ops ctxErr1 demo_marshal (fun _ => true) (fun s => s) config1 limits1 charge_all batch_answers false batch1).
Lemma batch1_ids : NoDup (List.map nd_id (nb_deliveries batch1)).
Proof. vm_compute. repeat constructor; rewrite ?elem_of_cons, ?elem_of_nil; intuition discriminate. Qed.

(** The first message is completed once, and every delivery is concluded. *)
Lemma nats_batch_settlement_witness :
  let r := process1 world1 in
  r.2 = Val None /\ business (nw_db r.1) = ["charged"] /\ nw_heartbeat r.1 = ∅ /\
  exists l, nw_trace r.1 = l /\ Forall (fun x => exists ph, goes l x ph /\ concluded ph) (nb_deliveries batch1).
Proof.
  intros r. assert (r.2 = Val None /\ business (nw_db r.1) = ["charged"] /\ nw_heartbeat r.1 = ∅) as (E & Eb & Eh)
    by (vm_compute; repeat split; reflexivity).
  split; [exact E|]. split; [exact Eb|]. split; [exact Eh|].
  destruct (nats_batch_settlement (collate := String.leb) PgBatch.ops ctxErr1 demo_marshal (fun _ => true) (fun s => s) charge_all false true true true
    None NatsSubject.order_paid config0 config1 "shop.event.order.paid.v2" limits0 limits1 limits1_ok batch_answers batch1 world1 clock1_ok
    (empty_db_ok []) ltac:(apply List.Forall_map, Forall_forall; exact read1_ok) batch1_ids) as [(l & ks & _ & Ht & Hf & _) _].
  exists l. split; [exact Ht|]. eapply Forall_impl; [exact Hf|]. intros x (ph & Hg & _ & Hc). exists ph. split; [exact Hg|exact (Hc E)].
Defined.

Definition run1 : nworld Tables * comp nflow :=
  runNATSBatchWorker PgBatch.ops ctxErr1 demo_marshal (fun _ => true) (fun s => s) String.eqb (fun _ => false) config1 limits1 decode1 charge_all false
    db0 [turn1].
Definition phase_at (o : option status) : nat :=
  match o with Some (Held Acked _) => 1 | Some (Held (Dead _) _) => 2 | Some (Held Nacked _) => 3 | _ => 0 end.

(** The worker acknowledges the first message, dead-letters the second one and
    hands the third one back. *)
Lemma nats_batch_no_loss_witness :
  run1.2 = Val NContinue /\ List.map (fun id => phase_at (track id Unseen (nw_trace run1.1))) [1; 2; 3]%nat = [1; 2; 3]%nat /\
  completed (key_id (key_of config1 (read1 first1))) (nw_db run1.1) = true.
Proof.
  split; [vm_compute; reflexivity|]. split; [vm_compute; reflexivity|].
  assert (Forall (tick_ok String.eqb config1 limits1 decode1) [turn1]) as Hts.
  { constructor; [|constructor]. split; [exact pulls1_ok|]. split; [exact clock1_ok|]. apply Forall_forall. exact read1_ok. }
  destruct (nats_batch_no_loss (collate := String.leb) PgBatch.ops ctxErr1 demo_marshal (fun _ => true) (fun s => s) String.eqb (fun _ => false) decode1
    charge_all false true true true None NatsSubject.order_paid config0 config1 "shop.event.order.paid.v2" limits0 limits1 limits1_ok db0 [turn1]
    (empty_db_ok []) Hts batch1_ids) as (_ & _ & Hf).
  assert (first1 ∈ List.flat_map pulled [turn1]) as Hin by (apply list_elem_of_In; left; reflexivity).
  fold run1 in Hf. destruct (Hf first1 Hin) as (st & Ht & Hs). change (ft_id first1) with 1%nat in Ht.
  assert (phase_at (track 1 Unseen (nw_trace run1.1)) = 1%nat) as E1 by (vm_compute; reflexivity).
  rewrite Ht in E1. destruct st as [|[| | | | | | |] ?|]; try discriminate E1. exact (proj2 Hs).
Defined.

Definition acknowledge : natsBatchFinalOutcome := from_item (item_outcome Key0 Fingerprint0 BatchACK 1 0).
Definition hand_back : natsBatchFinalOutcome := from_item (item_outcome Key0 Fingerprint0 BatchRetry 1 0).
Definition tasks1 : list (natsNonDLQTask unit) :=
  [{| tk_delivery := read1 first1; tk_outcome := acknowledge |}; {| tk_delivery := read1 (fetched_of 3 "later"); tk_outcome := hand_back |}].
Definition watched1 : gset nat := list_to_set [1; 3]%nat.
Abbreviation pool1 :=
  (run_pool config1 (ESentinel Canceled) (fun _ => delivery_answers) (start_pool tasks1 watched1) (ba_schedule batch_answers)).

(** Both goroutines return and both tasks are concluded; the pool can start. *)
Lemma nats_batch_pool_witness :
  pool_finished pool1 = true /\ po_fatalErr pool1 = None /\ po_heartbeat pool1 = ∅ /\
  (forall t, t ∈ tasks1 -> concluded (phase_of config1 (ESentinel Canceled) (fun _ => delivery_answers) t)) /\
  exists m q, m <> MEnd /\ pool_step config1 (ESentinel Canceled) (fun _ => delivery_answers) (start_pool tasks1 watched1) m = Some q.
Proof.
  assert (pool_finished pool1 = true /\ po_fatalErr pool1 = None /\ po_heartbeat pool1 = ∅) as (E & En & Eh) by (vm_compute; repeat split; reflexivity).
  split; [exact E|]. split; [exact En|]. split; [exact Eh|].
  assert (NoDup (List.map tid tasks1)) as Hids by (vm_compute; repeat constructor; rewrite ?elem_of_cons, ?elem_of_nil; intuition discriminate).
  destruct (nats_batch_pool config1 (ESentinel Canceled) (fun _ => delivery_answers) tasks1 watched1 Hids) as [_ Hp].
  split.
  - intros t Ht. specialize (Hp (ba_schedule batch_answers)). cbv zeta in Hp. destruct Hp as (_ & Hd & _). destruct (Hd E En t Ht) as [_ Hc].
    apply Hc; repeat (apply elem_of_cons in Ht as [->|Ht]; [discriminate|]); by apply not_elem_of_nil in Ht.
  - specialize (Hp []). cbv zeta in Hp. destruct Hp as (_ & _ & Hl). apply Hl.
    + vm_compute; split; done.
    + vm_compute; reflexivity.
    + apply Forall_forall; intros ? _; right; left; left; reflexivity.
    + vm_compute; reflexivity.
Defined.
End NatsBatchWitness.
